(* ===== verification/_CoqProject ===== *)
-Q . S2P
Prelude.v
Text.v
GoHeap.v
Params.v
Crypto.v
Pow.v
Wire.v
Merkle.v
Address.v
Chain.v
Ledger.v
Sanity.v
ChainInv.v
ChainView.v
WalletView.v
WalletViewProofs.v
Wallet.v
WalletSnapshot.v
WalletSend.v
WalletProofs.v
WalletSendProofs.v
SnapshotHash.v
Supply.v
Miner.v
Toy.v
Store.v
StoreProofs.v
Pplns.v
PplnsProofs.v
PplnsFile.v
Coordinator.v
PoolWork.v
PplnsCoordinator.v
PoolProofs.v
PoolHttp.v
PoolClient.v
P2p.v
P2pProofs.v
P2pSync.v
CoreTheorems.v
ChainTheorems.v
ViewTheorems.v
WalletTheorems.v
StoreTheorems.v
PplnsTheorems.v
CoordinatorTheorems.v
P2pTheorems.v
PoolTheorems.v
PoolClientTheorems.v
GoStrings.v
FileTree.v
Inbox.v
InboxProofs.v
InboxOps.v
InboxRestart.v
InboxMachine.v
InboxHttp.v
InboxTheorems.v
Mnemonic.v
Recovery.v
WalletPath.v
KeyFile.v
KeyFileProofs.v
KeyToy.v
KeyTheorems.v
GoJson.v
WalletViewFacts.v
LightGateway.v
LightClient.v
LightProofs.v
LightTheorems.v
MobileWallet.v
MobileProofs.v
MobileTheorems.v
Explorer.v
ExplorerChain.v
ExplorerProofs.v
ExplorerTheorems.v
Desktop.v
DesktopTheorems.v
