(* ===== verification/Prelude.v ===== *)
(** * Bitcoin 09: a verification development

    Bitcoin 09 (src/) is a proof-of-work currency written in Go: a consensus core
    (core/), a peer-to-peer node and command line (p2p/, cmd/), wallets (wallet/,
    lightwallet/, mobilewallet/, desktop/), an explorer (explorer/), mining pools
    (pool/) and a relay for encrypted messages (nineinbox/).  This library models the
    consensus core with its persistent store, the wallet with its key files, recovery
    and payments, the gateway and client of light wallets, the engine of the mobile
    wallet, the peer-to-peer protocol, mining, the pools with their HTTP interface and
    clients, the message inbox, the server of the desktop wallet, and the explorer's
    interface and supply arithmetic, and proves the properties these parts rely on.

    ** The program and the files

    A node keeps one [Chain] (core/chain.go): the index of every accepted block,
    the best tip, the ids of the best chain, the UTXO set and the mempool.  Blocks
    and transactions enter through [AcceptBlock] and [AcceptTx]; the store loads
    blocks through [acceptStoredBlock] and saves snapshots of the best chain;
    wallets, explorer and pools read snapshots of the chain; the miner and the
    pools build templates from the mempool and submit mined blocks; peers exchange
    blocks, transactions and addresses.  A light wallet sees the chain through a
    gateway: the gateway turns a wallet view into a message, the client validates the
    message, the wallet checks it against its keys and signs a payment, and the gateway
    admits it to the mempool.  The mobile wallet drives this from one encrypted file.

    - Prelude.v: Go errors and results, machine integers, bytes, sums, tactics.
    - Text.v, GoHeap.v: decimal and hexadecimal text, Go's container/heap.
    - Params.v (core/params.go): networks, money range, subsidy.
    - Crypto.v (core/pow.go, core/keys.go): the cryptographic interface, the class
      [Crypto] with its documented laws [CryptoLaws]; an executable SHA-256.
    - Pow.v (core/pow.go): compact targets, work, legacy retarget and ASERT.
    - Wire.v (core/tx.go, core/block.go): encoders and decoders, ids, signing.
    - Merkle.v (core/block.go): Merkle roots and branches.
    - Address.v (core/keys.go): base58 and addresses.
    - Chain.v (core/chain.go, core/genesis.go): the state machine of the chain.
      [reachable] are the states after [NewChain] and any sequence of operations.
    - Ledger.v, Sanity.v, ChainInv.v: declarative specifications of transaction and
      block validity, the undo log, branches, and the invariant [chain_inv] of every
      reachable state.
    - ChainView.v (core/chain.go): the read-only methods.
    - WalletView.v, WalletViewProofs.v (core/wallet_view.go): the wallet scan.
    - Wallet.v, WalletSnapshot.v, WalletSend.v, WalletProofs.v, WalletSendProofs.v,
      SnapshotHash.v (wallet/wallet.go, wallet/maximum.go, wallet/consolidation.go):
      balances, snapshots and their hash, remote snapshots, coin selection, signing,
      maximum sends and consolidations.
    - Supply.v (explorer/explorer.go): reported and total supply.
    - Miner.v (core/miner.go): block templates and the search of one worker.
    - Store.v, StoreProofs.v (core/store.go, core/durable_replace_unix.go,
      core/store_metadata_unix.go): the snapshot codec, loading and saving on a
      file system with crashes.
    - Pplns.v, PplnsProofs.v (pool/pplns.go, pool/pplns_work.go): share window and
      payouts.  PplnsFile.v: opening a window, and the scan of its state file for
      duplicate JSON keys.
    - Coordinator.v (pool/coordinator.go, pool/pplns_coordinator.go): job table,
      solo [Issue] and [Submit], receipts.
    - PoolWork.v (pool/pplns_work.go, pool/work.go): verification of work by miners.
    - PplnsCoordinator.v, PoolProofs.v (pool/pplns_coordinator.go): the PPLNS
      coordinator.
    - PoolHttp.v (pool/http.go): the mining API and its rate limiter,
      with the coordinators as a record of calls [mining_calls].
    - PoolClient.v (pool/pplns_client.go, pool/client.go, pool/work.go): nonce search,
      exchanges, retries and the session of a remote miner.
    - P2p.v, P2pProofs.v, P2pSync.v (p2p/p2p.go): peer and reservation tables,
      dialling, handshake, framing, message handlers, block download.
    - GoStrings.v (strings, encoding/base64): trimming, fields, splitting, base64.
    - FileTree.v: a tree of files with planned faults and crashes,
      random bytes and a clock ([world]); programs on it and their judgements [triple]
      (every outcome) and [runs] (success without faults).
    - Inbox.v, InboxProofs.v, InboxOps.v, InboxRestart.v, InboxMachine.v
      (nineinbox/store.go), InboxHttp.v (nineinbox/http.go): the message inbox, its
      operations, its restart, its reachable states, its HTTP handler.
    - Mnemonic.v, Recovery.v (wallet/recovery_v2.go): recovery phrases, key derivation,
      the sealed envelope.
    - WalletPath.v (wallet/durable_replace_unix.go, wallet/filelock_unix.go), KeyFile.v,
      KeyFileProofs.v (wallet/wallet.go, wallet/recovery_v2.go): canonical paths, locks,
      durable replacement, the three formats of wallet files and every operation on them.
      KeyToy.v is an executable instance of their interfaces.
    - GoJson.v (encoding/json): values, printing, the decoder as a class
      [JsonDecoder] with its law, and an executable parser that satisfies it.
    - WalletViewFacts.v: everything the wallet scan guarantees, for its clients.
    - LightGateway.v (lightwallet/types.go, lightwallet/gateway.go), LightClient.v
      (lightwallet/client.go), LightProofs.v: the messages, the gateway,
      the client, exact specifications of its validation, and their exchange.
    - MobileWallet.v, MobileProofs.v (mobilewallet/): amounts, the engine with its
      table of pending payments, and its methods.
    - Explorer.v, ExplorerChain.v, ExplorerProofs.v (explorer/explorer.go): the versioned
      JSON interface, the query slots and the data of the pages; the history of an
      address on a valid chain.
    - Desktop.v (desktop/): the local HTTP server of the desktop wallet; a handler is a
      tree of lock sections, clock readings and service calls ([task]), and requests in
      progress interleave ([desk_step]).
    - Toy.v: a small executable instance of [Crypto] and a short regtest history,
      on which every theorem with hypotheses is applied.
    - CoreTheorems.v, ChainTheorems.v, ViewTheorems.v, WalletTheorems.v,
      StoreTheorems.v, PplnsTheorems.v, CoordinatorTheorems.v,
      P2pTheorems.v, PoolTheorems.v, PoolClientTheorems.v, InboxTheorems.v,
      KeyTheorems.v, LightTheorems.v, MobileTheorems.v, ExplorerTheorems.v,
      DesktopTheorems.v: the properties.

    Go names are kept; a field [F] of a struct is prefixed by two letters of the
    struct ([bi_height] is [blockIndex.height]), a method [T.M] is [M] or [T_M].

    ** What the theorems show

    - Money: no reachable state holds more coins than the subsidies issued up to
      its tip; a block adds at most its subsidy; the schedule issues a fixed total
      and the explorer reports the exact sum.
    - Consensus state: the UTXO set is the replay of the canonical chain; every
      indexed block ends a fully valid branch, obeys the header rules of that
      branch, and none has more work than the tip; the mempool stays valid and free
      of conflicts.  A rejected block changes nothing, the undo log restores the
      UTXO set exactly, and no operation panics.
    - Validation: [checkTxLocked] and [checkBlockSanity] accept exactly what their
      declarative specifications allow.
    - Difficulty: the code of ASERT computes one formula, monotone in time; the
      legacy retarget is clamped; the required bits are the same whether computed
      from the best chain or by walking ancestors.
    - Codecs: transactions, blocks, compact targets, addresses and Merkle branches
      round-trip; decoders never panic and decoded values are well formed.
    - Views: the wallet scan, which replays the chain from the owner's side, agrees
      with the UTXO set; lookups report membership and canonicity.
    - Wallet: a prepared payment, maximum send or consolidation pays what was asked
      and is admitted by the mempool; coin selection uses the fewest inputs; the
      snapshot hash commits to the snapshot; a payment from a remote snapshot pays
      only the destination and the wallet itself.
    - Mining: a mined template is accepted as the new tip.
    - Store: a power failure at any point of a save leaves an old file or the
      complete new one; the stored work never decreases; a saved chain is restored
      exactly; a load installs only reachable states; saves on a healthy file system
      succeed.
    - Peers: every table stays within its limits; a handshake gives back its
      reservation on every exit; of two simultaneous connections both ends keep the
      same one; any message is handled without panic and keeps the chain reachable;
      a fresh node that follows the continuation flags ends with the chain of its
      peer.
    - Pool: payouts spend the reward exactly and are proportional to work up to one
      unit, whatever order Go iterates maps in; the window holds the last accepted
      shares, also after a restart; the job tables are bounded.  Work that a
      coordinator issues passes the verification of the miner, and verified work
      pays the committed window.  The share of a submission is in the window of the
      pool and in its file before it is acknowledged, its receipt passes the
      checks of the client, retries are idempotent and a failure has no effect.
    - Mining API: the rate limiter bounds the requests of a host in any minute;
      which errors make a client refresh, retry or stop; the nonce search is exact;
      a session reports only verified shares.

    - Wallet files: a phrase of 24 words and its entropy determine each other; a sealed
      wallet opens with its password and only shows what was sealed; restoring a phrase
      gives the same addresses; whatever faults and crashes an operation meets, a wallet
      file holds the old keys or these and one more, and no other file changes.
    - Message inbox: stored items survive restarts, and crashes of the requests on items,
      and come back unchanged; quotas hold in every state reached that way; only the
      holder of a token acts on an inbox.  Creations and deletions of an inbox that stop
      half way are left out of this machine, because a store does not open after them.
    - Light wallet: the client gets exactly the spendable entries of the UTXO set that
      its addresses own, and whatever a gateway answers, an accepted view is consistent.
    - Mobile wallet: amounts are read exactly; waiting payments are few, never compete
      and vanish with the lock, however methods interleave; a payment prepared with an
      honest gateway is admitted with the fee that was shown; the phrase shown at
      creation restores the wallet on another phone.

    - Explorer: on a chain with distinct transaction ids its consistency checks never
      fail, so that lookups, address histories and balances are those of the chain; a
      query pinned to a tip is answered from a chain with that tip or with a conflict; at
      most four expensive queries run at a time, and each reply is that of the request's
      own query at a moment when it held its slot.
    - Desktop server: however requests interleave and whatever the wallet service answers,
      every call of the service is authorised by the one session that the launch token
      opened; a preview is confirmed or cancelled only in its session, for its purpose,
      before its expiry, and never again once that has succeeded.

    Some theorems record behaviour that looks unintended: a repeated coinbase is
    accepted ([duplicate_coinbase_accepted]), and a repeated transaction id makes every
    wallet view fail ([repeated_id_breaks_views]), strings with
    non-ASCII runes decode as addresses ([address_accepts_non_ascii]), no template
    can be built once the subsidy is zero ([template_needs_subsidy]), the largest
    valid blocks cannot be relayed ([large_block_not_relayed]), a gateway can hide
    amounts ([remote_amount_unverified]), a large share window stops accepting shares
    ([large_window_stuck]), the status of an empty pool is rejected by clients
    ([empty_status_rejected]), a client does not check that the first job pays
    its own address ([requester_not_checked]), a new address of a recovery wallet whose
    file is gone is written in clear ([missing_recovery_wallet_in_clear]), an interrupted
    creation of an inbox blocks every restart ([interrupted_create_blocks_restart]),
    expired items keep an inbox full ([expired_items_fill_inbox]), a payment reported as
    not sent can be in the mempool ([broadcast_admits], [unsent_payment_still_pending]),
    a wallet with many outputs cannot be shown ([large_wallet_unavailable]), a pending
    payment that another wallet pays for hides all activity
    ([shared_payment_hides_activity]), and a payment that is being sent is reported as
    cancelled ([cancel_overtakes_confirmation]).

    ** Conventions

    Errors are values of [error]; a nil dereference, an index out of range or a loop
    that would not end is [EPanic], so its absence is a theorem.  Functions that
    mutate a state return it next to their result, also on error paths.  64-bit
    arithmetic wraps explicitly ([u64], [i64]) where the code can reach the border;
    block heights are unbounded integers.  Pointers stored in the chain are not nil
    and the index holds one object per id, so pointer equality is equality of
    records; PPLNS jobs carry the identity of their pointer.  Deep copies are
    identities.  [time.Now()] is an argument.  Mutexes make an operation atomic;
    where the code releases a lock in between, the model has an argument for what
    other goroutines do meanwhile ([between], [gap1] to [gap4]).  Go maps are finite
    maps; where the iteration order could matter it is an argument.  Outcomes of the
    network and of the block store are arguments.  Wallet files and the message inbox
    live in a [world]: a tree of files, the planned outcomes of the coming system calls,
    the coming random bytes and clock readings; a crash stops every later effect and keeps
    the earlier ones, so syncing a file has no effect there (the block store has its own
    disk, which forgets what was not synced).  A block template reads one state of the
    chain, and the download of blocks leaves out announcements of new tips.
    Symbolic links are followed where a path is made canonical, [flock] makes a locked
    operation run by itself.  Messages of the light wallet are printed to their JSON text
    and read by a decoder that is an interface; the other JSON codecs are interfaces
    whose law is that they read back what they wrote.  A nil slice is told from an empty
    one where JSON shows the difference.  Methods of the mobile wallet take the calls of
    the service as programs on the whole device, so that other methods run meanwhile.

    Fuel: [branchTo] and [ancestorAt] walk to genesis with the height of the block
    as fuel, enough because heights decrease along branches; the frame decoder uses
    the length of the data, of which every frame consumes at least five bytes; the
    eviction loop uses one more than the number of jobs; the scans of JSON tokens use
    the number of tokens, the JSON parser the length of the text; a path follows at most
    255 links, as the system does; a new item identifier is tried eight times, as in the
    code.  Where a bound is not one of the code, a theorem or lemma shows the fuel is not
    exhausted.  The budget of a nonce search is not fuel but the moment at which the
    worker is stopped, and is arbitrary.

    ** Not modelled

    SHA-256, SHA-512, Argon2id, the AEAD and Ed25519 are interfaces (SHA-256 also has an
    executable definition, used for the genesis id); sockets, timers and goroutine
    scheduling beyond the order of atomic steps; wiping of memory; file permissions;
    progress reports and floating-point hashrates; the older solo session loops of the
    pool client; the command line; the templates, home and block pages and mining
    statistics of the explorer; the service behind the desktop server (its operations on
    wallet files, the node and the light client are modelled, its own table is not);
    Windows variants of file operations. *)
From Stdlib Require Export ZArith Lia.
From stdpp Require Export base gmap strings sorting numbers option list.
From Stdlib Require Strings.Byte Strings.String.

#[global] Open Scope Z_scope.

(** ** Notations of the development *)
Declare Scope btc_scope.
Delimit Scope btc_scope with btc.
#[global] Open Scope btc_scope.

(** ** Go errors and results

    A Go function returning [(T, error)] becomes a function into [result T].
    [EText] is [errors.New msg]; [EMoneyRange] is the sentinel [ErrMoneyRange]
    wrapped with a detail; [EWrap] is [fmt.Errorf] with an integer argument
    and a wrapped cause; [EJoin] is [errors.Join]; [EPanic] stands for a run-time panic (nil
    dereference, index out of range), so "does not panic" is a theorem and not
    a convention. *)
Inductive error :=
  | EText (msg : string)
  | EMoneyRange (detail : string)
  | ENum (msg : string) (args : list Z)
  | EWrap (msg : string) (arg : Z) (cause : error)
  | EJoin (left right : error)
  | EPanic (msg : string).

Inductive result (A : Type) :=
  | Ok (a : A)
  | Err (e : error).
Arguments Ok {A} a.
Arguments Err {A} e.

#[global] Instance result_ret : MRet result := fun A a => Ok a.
#[global] Instance result_bind : MBind result := fun A B f m =>
  match m with Ok a => f a | Err e => Err e end.
#[global] Instance result_fmap : FMap result := fun A B f m =>
  match m with Ok a => Ok (f a) | Err e => Err e end.

(** [check b e] is the guard [if !b { return e }]. *)
Definition check (b : bool) (e : error) : result unit :=
  if b then Ok tt else Err e.

Definition is_ok {A} (r : result A) : bool :=
  match r with Ok _ => true | Err _ => false end.

(** A dereference or index expression that panics when the value is missing. *)
Definition deref {A} (o : option A) (msg : string) : result A :=
  match o with Some a => Ok a | None => Err (EPanic msg) end.

Fixpoint is_panic (e : error) : bool :=
  match e with
  | EPanic _ => true
  | EWrap _ _ e' => is_panic e'
  | EJoin e1 e2 => is_panic e1 || is_panic e2
  | _ => false
  end.

(** [errors.Join] of two possibly nil errors. *)
Definition join (e1 e2 : option error) : option error :=
  match e1, e2 with
  | Some a, Some b => Some (EJoin a b)
  | Some a, None => Some a
  | None, e => e
  end.

(** [for x := range l { s, err = f s x; if err != nil return }] *)
Fixpoint foldM {S A} (f : S -> A -> result S) (s : S) (l : list A) : result S :=
  match l with
  | [] => Ok s
  | a :: l' => match f s a with Ok s' => foldM f s' l' | Err e => Err e end
  end.

Section foldM_lemmas.
Context {S A : Type} (f : S -> A -> result S).

Lemma foldM_app s l1 l2 :
  foldM f s (l1 ++ l2) =
    match foldM f s l1 with Ok s' => foldM f s' l2 | Err e => Err e end.
Proof.
  revert s; induction l1 as [|a l1 IH]; intros s; simpl; [done|].
  destruct (f s a); auto.
Qed.

Lemma foldM_invariant (P : S -> Prop) l :
  (forall s a s', a ∈ l -> P s -> f s a = Ok s' -> P s') ->
  forall s s', P s -> foldM f s l = Ok s' -> P s'.
Proof.
  induction l as [|a l IH]; simpl; intros Hstep s s' Hs Hf; [by simplify_eq|].
  destruct (f s a) as [s1|] eqn:E; [|done].
  apply (IH (fun t b t' Hb => Hstep t b t' ltac:(by right)) s1 s'); [|done].
  apply (Hstep s a s1); [by left|done|done].
Qed.

Lemma foldM_Forall l s s' :
  foldM f s l = Ok s' -> Forall (fun a => exists t t', f t a = Ok t') l.
Proof.
  revert s; induction l as [|a l IH]; intros s Hf; simpl in Hf; constructor;
    destruct (f s a) eqn:E; try done; eauto.
Qed.

Lemma foldM_no_panic :
  (forall s a e, f s a = Err e -> is_panic e = false) ->
  forall l s e, foldM f s l = Err e -> is_panic e = false.
Proof.
  intros Hf l. induction l as [|a l IH]; intros s e; simpl; [done|].
  destruct (f s a) eqn:E; [apply IH|]. intros [= <-]. by eapply Hf.
Qed.

Lemma foldM_err_step s l e :
  foldM f s l = Err e -> exists l1 a l2 s1, l = l1 ++ a :: l2 /\
    foldM f s l1 = Ok s1 /\ f s1 a = Err e.
Proof.
  revert s; induction l as [|a l IH]; intros s; simpl; [done|].
  destruct (f s a) as [s1|e1] eqn:E.
  - intros (l1 & b & l2 & s2 & -> & H1 & H2)%IH.
    exists (a :: l1), b, l2, s2. simpl. by rewrite E.
  - intros [= <-]. by exists [], a, l, s.
Qed.
End foldM_lemmas.

(** Simplification of hypotheses about successful monadic code. *)
Lemma bind_Ok {A B} (m : result A) (k : A -> result B) b :
  (m ≫= k) = Ok b <-> exists a, m = Ok a /\ k a = Ok b.
Proof.
  destruct m as [a|e]; simpl; split.
  - eauto.
  - by intros (? & [= ->] & ?).
  - done.
  - by intros (? & ? & ?).
Qed.

Lemma check_Ok b e u : check b e = Ok u <-> b = true.
Proof. destruct u, b; simpl; split; congruence. Qed.

Lemma deref_Ok {A} (o : option A) msg a : deref o msg = Ok a <-> o = Some a.
Proof. destruct o; simpl; split; congruence. Qed.

(** A state-passing call with its result known. *)
Lemma pair_snd {A B} (x : A * B) b : x.2 = b -> x = (x.1, b).
Proof. by destruct x; simpl; intros ->. Qed.

Lemma triple_snd {A B C} (x : A * B * C) c : x.2 = c -> x = (x.1.1, x.1.2, c).
Proof. by destruct x as [[] ]; simpl; intros ->. Qed.

(** A successful result is what a match with a default returns. *)
Lemma result_ok_get {A} (r : result A) d :
  is_ok r = true -> r = Ok (match r with Ok a => a | Err _ => d end).
Proof. by destruct r. Qed.

Lemma Ok_inj {A} (a b : A) : Ok a = Ok b -> a = b.
Proof. congruence. Qed.
Lemma Err_inj {A} (e1 e2 : error) : Err (A := A) e1 = Err e2 -> e1 = e2.
Proof. congruence. Qed.

Ltac res_simpl :=
  repeat match goal with
  | H : Ok _ = Ok _ |- _ => apply Ok_inj in H; try subst
  | H : Err _ = Err _ |- _ => apply Err_inj in H; try subst
  | H : Ok _ = Err _ |- _ => discriminate H
  | H : Err _ = Ok _ |- _ => discriminate H
  | H : mbind _ _ = Ok _ |- _ => apply bind_Ok in H as (? & ? & H); cbv beta in H
  | H : check _ _ = Ok _ |- _ => apply check_Ok in H
  | H : deref _ _ = Ok _ |- _ => apply deref_Ok in H
  end.

(** Case analysis on the tests a successful computation went through. *)
Ltac step_if H :=
  match type of H with
  | context [ if ?b then _ else _ ] => let E := fresh "E" in destruct b eqn:E
  end.

Ltac bool_prop :=
  repeat match goal with
  | H : _ && _ = true |- _ => apply andb_true_iff in H as [? ?]
  | H : _ || _ = false |- _ => apply orb_false_iff in H as [? ?]
  | H : negb _ = true |- _ => apply negb_true_iff in H
  | H : negb _ = false |- _ => apply negb_false_iff in H
  | H : bool_decide _ = true |- _ => apply bool_decide_eq_true in H
  | H : bool_decide _ = false |- _ => apply bool_decide_eq_false in H
  | H : (_ <=? _) = true |- _ => apply Z.leb_le in H
  | H : (_ <=? _) = false |- _ => apply Z.leb_gt in H
  | H : (_ <? _) = true |- _ => apply Z.ltb_lt in H
  | H : (_ <? _) = false |- _ => apply Z.ltb_ge in H
  | H : (_ >? _) = _ |- _ => rewrite Z.gtb_ltb in H
  | H : (_ >=? _) = _ |- _ => rewrite Z.geb_leb in H
  | H : (_ =? _) = true |- _ => apply Z.eqb_eq in H
  | H : (_ =? _) = false |- _ => apply Z.eqb_neq in H
  end.

(** [lia] for goals with [/] and [mod]. *)
Ltac mlia := Z.div_mod_to_equations; lia.
Ltac mnia := Z.div_mod_to_equations; nia.

(** Bitwise or of disjoint bit ranges. *)
Lemma lor_disjoint_add a k b : 0 <= k -> 0 <= b < 2 ^ k -> Z.lor (a * 2 ^ k) b = a * 2 ^ k + b.
Proof.
  intros Hk Hb. rewrite <- Z.shiftl_mul_pow2 by lia. symmetry.
  rewrite <- Z.lxor_lor, <- Z.add_nocarry_lxor; [done| |].
  all: apply Z.bits_inj'; intros n Hn; rewrite Z.land_spec, Z.bits_0;
    destruct (Z.lt_ge_cases n k);
    [rewrite Z.shiftl_spec_low by done; done|];
    rewrite andb_comm, (proj1 (Z.bounded_iff_bits_nonneg' k b ltac:(lia) ltac:(lia)));
    [done|lia|lia].
Qed.

(** ** Machine integers *)
Definition two64 : Z := 18446744073709551616.
Definition two63 : Z := 9223372036854775808.
Definition two32 : Z := 4294967296.

(** [uint64] and [uint32] conversions and the two's-complement [int64]. *)
Definition u64 (z : Z) : Z := z mod two64.
Definition u32 (z : Z) : Z := z mod two32.
Definition i64 (z : Z) : Z :=
  let u := u64 z in if u <? two63 then u else u - two64.

Definition in_i64 (z : Z) : Prop := - two63 <= z < two63.
Definition in_u64 (z : Z) : Prop := 0 <= z < two64.
Definition in_u32 (z : Z) : Prop := 0 <= z < two32.

#[global] Instance in_i64_dec z : Decision (in_i64 z).
Proof. unfold in_i64; apply _. Defined.
#[global] Instance in_u64_dec z : Decision (in_u64 z).
Proof. unfold in_u64; apply _. Defined.
#[global] Instance in_u32_dec z : Decision (in_u32 z).
Proof. unfold in_u32; apply _. Defined.

Lemma i64_small z : in_i64 z -> i64 z = z.
Proof.
  unfold in_i64, i64, u64, two63, two64. intros H.
  destruct (Z.ltb_spec (z mod 18446744073709551616) 9223372036854775808); mlia.
Qed.

Lemma i64_range z : in_i64 (i64 z).
Proof.
  unfold in_i64, i64, u64, two63, two64.
  pose proof (Z.mod_pos_bound z 18446744073709551616 ltac:(lia)).
  destruct (Z.ltb_spec (z mod 18446744073709551616) 9223372036854775808); mlia.
Qed.

Lemma u64_small z : in_u64 z -> u64 z = z.
Proof. unfold in_u64, u64. apply Z.mod_small. Qed.

Lemma u64_range z : in_u64 (u64 z).
Proof. apply Z.mod_pos_bound. unfold two64; lia. Qed.

Lemma u32_small z : in_u32 z -> u32 z = z.
Proof. unfold in_u32, u32. apply Z.mod_small. Qed.

(** [int64(uint64(x)) = x]: the wire encoding of a signed field loses nothing. *)
Lemma i64_u64 z : in_i64 z -> i64 (u64 z) = z.
Proof.
  unfold in_i64, i64, u64, two63, two64. intros H.
  rewrite Z.mod_mod by lia.
  destruct (Z.ltb_spec (z mod 18446744073709551616) 9223372036854775808); mlia.
Qed.

(** ** Bytes *)
Abbreviation byte := Byte.byte.
Abbreviation bytes := (list Byte.byte).

#[global] Instance byte_eq_dec : EqDecision byte := Byte.byte_eq_dec.
#[global] Instance byte_inhabited : Inhabited byte := populate Byte.x00.

Definition b2z (b : byte) : Z := Z.of_N (Byte.to_N b).
Definition z2b (z : Z) : byte :=
  match Byte.of_N (Z.to_N (z mod 256)) with Some b => b | None => Byte.x00 end.

Lemma b2z_range b : 0 <= b2z b < 256.
Proof. unfold b2z. pose proof (Byte.to_N_bounded b). lia. Qed.

Lemma z2b_b2z b : z2b (b2z b) = b.
Proof.
  unfold z2b. rewrite Z.mod_small by apply b2z_range.
  unfold b2z. rewrite N2Z.id. by rewrite Byte.of_to_N.
Qed.

Lemma b2z_z2b z : b2z (z2b z) = z mod 256.
Proof.
  unfold z2b, b2z. pose proof (Z.mod_pos_bound z 256 ltac:(lia)).
  destruct (Byte.of_N (Z.to_N (z mod 256))) as [b|] eqn:E.
  - apply Byte.to_of_N in E. rewrite E. lia.
  - apply Byte.of_N_None_iff in E. lia.
Qed.

Lemma b2z_inj b1 b2 : b2z b1 = b2z b2 -> b1 = b2.
Proof. intros H. by rewrite <- (z2b_b2z b1), <- (z2b_b2z b2), H. Qed.

#[global] Instance b2z_Inj : Inj (=) (=) b2z.
Proof. intros ?? H. by apply b2z_inj. Qed.

#[global] Program Instance byte_countable : Countable byte :=
  inj_countable' b2z z2b z2b_b2z.

(** Go's string literals as byte sequences. *)
Definition bs (s : string) : bytes := String.list_byte_of_string s.

(** *** Fixed-width encodings: [binary.LittleEndian] / [binary.BigEndian] *)
Fixpoint le_bytes (n : nat) (v : Z) : bytes :=
  match n with
  | O => []
  | S n' => z2b v :: le_bytes n' (v / 256)
  end.

Fixpoint le_val (l : bytes) : Z :=
  match l with
  | [] => 0
  | b :: l' => b2z b + 256 * le_val l'
  end.

Definition be_bytes (n : nat) (v : Z) : bytes := reverse (le_bytes n v).

(** [new(big.Int).SetBytes(b)] *)
Definition be_val (l : bytes) : Z := le_val (reverse l).

Lemma length_le_bytes n v : length (le_bytes n v) = n.
Proof. revert v; induction n; simpl; auto. Qed.

Lemma le_val_le_bytes n v : le_val (le_bytes n v) = v mod 256 ^ (Z.of_nat n).
Proof.
  revert v; induction n as [|n IH]; intros v; cbn [le_bytes le_val].
  - by rewrite Z.mod_1_r.
  - rewrite IH, b2z_z2b, Nat2Z.inj_succ, Z.pow_succ_r by lia.
    rewrite Z.rem_mul_r by lia. lia.
Qed.

Lemma le_val_bound l : 0 <= le_val l < 256 ^ Z.of_nat (length l).
Proof.
  induction l as [|b l IH]; cbn [le_val length]; [lia|].
  rewrite Nat2Z.inj_succ, Z.pow_succ_r by lia.
  pose proof (b2z_range b). lia.
Qed.

Lemma le_val_app l1 l2 :
  le_val (l1 ++ l2) = le_val l1 + 256 ^ Z.of_nat (length l1) * le_val l2.
Proof.
  induction l1 as [|b l1 IH]; cbn [le_val length app]; [lia|].
  rewrite IH, Nat2Z.inj_succ, Z.pow_succ_r by lia. ring.
Qed.

Lemma le_bytes_le_val l : le_bytes (length l) (le_val l) = l.
Proof.
  induction l as [|b l IH]; cbn [le_val length le_bytes]; [done|].
  pose proof (b2z_range b). f_equal.
  - apply b2z_inj. rewrite b2z_z2b, Z.mul_comm, Z.mod_add by lia.
    by apply Z.mod_small.
  - rewrite Z.mul_comm, Z.div_add, Z.div_small by lia. apply IH.
Qed.

Lemma length_be_bytes n v : length (be_bytes n v) = n.
Proof. unfold be_bytes. by rewrite length_reverse, length_le_bytes. Qed.

Lemma be_val_be_bytes n v : be_val (be_bytes n v) = v mod 256 ^ (Z.of_nat n).
Proof. unfold be_val, be_bytes. by rewrite reverse_involutive, le_val_le_bytes. Qed.

Lemma be_val_bound l : 0 <= be_val l < 256 ^ Z.of_nat (length l).
Proof. unfold be_val. rewrite <- length_reverse. apply le_val_bound. Qed.

(** *** Lexicographic order: [bytes.Compare] and Go's string comparison *)
Fixpoint bytes_compare (l1 l2 : bytes) : comparison :=
  match l1, l2 with
  | [], [] => Eq
  | [], _ => Lt
  | _, [] => Gt
  | a :: l1', b :: l2' =>
      match b2z a ?= b2z b with Eq => bytes_compare l1' l2' | c => c end
  end.

Definition bytes_ltb (l1 l2 : bytes) : bool :=
  match bytes_compare l1 l2 with Lt => true | _ => false end.
Definition bytes_le (l1 l2 : bytes) : Prop := bytes_compare l1 l2 <> Gt.

#[global] Instance bytes_le_dec l1 l2 : Decision (bytes_le l1 l2).
Proof. unfold bytes_le. apply _. Defined.

Lemma bytes_compare_eq l1 l2 : bytes_compare l1 l2 = Eq <-> l1 = l2.
Proof.
  revert l2; induction l1 as [|a l1 IH]; intros [|b l2]; simpl; try done.
  destruct (Z.compare_spec (b2z a) (b2z b)) as [E|E|E].
  - apply b2z_inj in E as ->. rewrite IH. split; congruence.
  - split; [done|]. intros [= -> ->]. lia.
  - split; [done|]. intros [= -> ->]. lia.
Qed.

Lemma bytes_compare_antisym l1 l2 :
  bytes_compare l2 l1 = CompOpp (bytes_compare l1 l2).
Proof.
  revert l2; induction l1 as [|a l1 IH]; intros [|b l2]; simpl; try done.
  rewrite Z.compare_antisym. destruct (b2z a ?= b2z b); simpl; auto.
Qed.

Lemma bytes_compare_lt_trans l1 l2 l3 :
  bytes_compare l1 l2 = Lt -> bytes_compare l2 l3 = Lt -> bytes_compare l1 l3 = Lt.
Proof.
  revert l2 l3; induction l1 as [|a l1 IH]; intros [|b l2] [|c l3]; simpl; try done.
  destruct (Z.compare_spec (b2z a) (b2z b)) as [E1|E1|E1]; try done;
    destruct (Z.compare_spec (b2z b) (b2z c)) as [E2|E2|E2]; try done;
    destruct (Z.compare_spec (b2z a) (b2z c)) as [E3|E3|E3]; try done; try lia.
  apply IH.
Qed.

#[global] Instance bytes_le_total : Total bytes_le.
Proof.
  intros l1 l2. unfold bytes_le. rewrite (bytes_compare_antisym l1 l2).
  destruct (bytes_compare l1 l2); simpl; auto.
Qed.

#[global] Instance bytes_le_trans : Transitive bytes_le.
Proof.
  intros l1 l2 l3. unfold bytes_le. intros H1 H2.
  destruct (bytes_compare l1 l2) eqn:E1; [| |done].
  - apply bytes_compare_eq in E1 as ->. done.
  - destruct (bytes_compare l2 l3) eqn:E2; [| |done].
    + apply bytes_compare_eq in E2 as ->. by rewrite E1.
    + by rewrite (bytes_compare_lt_trans _ _ _ E1 E2).
Qed.

#[global] Instance bytes_le_antisym : AntiSymm (=) bytes_le.
Proof.
  intros l1 l2. unfold bytes_le. rewrite (bytes_compare_antisym l1 l2).
  destruct (bytes_compare l1 l2) eqn:E; simpl; [|done..].
  by apply bytes_compare_eq in E.
Qed.

(** ** Sums *)
Fixpoint sumZ (l : list Z) : Z :=
  match l with [] => 0 | z :: l' => z + sumZ l' end.

Lemma sumZ_app l1 l2 : sumZ (l1 ++ l2) = sumZ l1 + sumZ l2.
Proof. induction l1; simpl; lia. Qed.

Lemma sumZ_nonneg l : Forall (fun z => 0 <= z) l -> 0 <= sumZ l.
Proof. induction 1; simpl; lia. Qed.

#[global] Instance sumZ_perm : Proper ((≡ₚ) ==> (=)) sumZ.
Proof. induction 1; simpl; lia. Qed.

Lemma sumZ_map_le {A} (f g : A -> Z) l :
  (forall a, a ∈ l -> f a <= g a) -> sumZ (map f l) <= sumZ (map g l).
Proof.
  induction l as [|a l IH]; simpl; intros H; [lia|].
  pose proof (H a ltac:(left)). assert (sumZ (map f l) <= sumZ (map g l)); [|lia].
  apply IH. intros b Hb. apply H. by right.
Qed.

Lemma sumZ_map_zero {A} (f : A -> Z) l :
  (forall a, a ∈ l -> f a = 0) -> sumZ (map f l) = 0.
Proof.
  induction l as [|a l IH]; simpl; intros H; [done|].
  rewrite H by left. rewrite IH; [done|]. intros b Hb. apply H. by right.
Qed.

(** ** Lists without duplicate keys *)
Lemma NoDup_fmap_inj {A B} (f : A -> B) l x y :
  NoDup (f <$> l) -> x ∈ l -> y ∈ l -> f x = f y -> x = y.
Proof.
  intros Hnd [i Hi]%list_elem_of_lookup_1 [j Hj]%list_elem_of_lookup_1 Hf.
  assert (i = j) as ->; [|congruence].
  apply (NoDup_lookup (f <$> l) i j (f x) Hnd).
  - by rewrite list_lookup_fmap, Hi.
  - by rewrite list_lookup_fmap, Hj, Hf.
Qed.

Lemma NoDup_fmap_filter {A B} (f : A -> B) (P : A -> Prop) `{!forall x, Decision (P x)} l :
  NoDup (f <$> l) -> NoDup (f <$> filter P l).
Proof.
  intros Hnd. apply (sublist_NoDup _ _ Hnd), fmap_sublist, sublist_filter.
Qed.

Create HintDb btc.
Create Rewrite HintDb btc_len.
#[export] Hint Resolve b2z_range i64_range u64_range sumZ_nonneg : btc.
#[export] Hint Rewrite length_le_bytes length_be_bytes @length_app : btc_len.
