(* ===== verification/Text.v ===== *)
(** * Text: hexadecimal and decimal

    The parts of [encoding/hex], [strconv] and [fmt] that the program uses:
    [hex.EncodeToString], [hex.DecodeString], [%x] and [%d].  Strings are byte
    lists. *)
From S2P Require Import Prelude.

(** ** Hexadecimal text *)
Definition hex_digit (d : Z) : byte := z2b (if d <? 10 then 48 + d else 87 + d).

(** [hex.EncodeToString] and [%x] of a byte array. *)
Definition hex_encode (b : bytes) : bytes :=
  flat_map (fun x => [hex_digit (b2z x / 16); hex_digit (b2z x mod 16)]) b.

Definition from_hex (c : byte) : option Z :=
  let v := b2z c in
  if (48 <=? v) && (v <=? 57) then Some (v - 48)
  else if (97 <=? v) && (v <=? 102) then Some (v - 87)
  else if (65 <=? v) && (v <=? 70) then Some (v - 55)
  else None.

(** [hex.DecodeString]: both cases of letters are accepted. *)
Fixpoint hex_decode (s : bytes) : result bytes :=
  match s with
  | [] => Ok []
  | [_] => Err (EText "encoding/hex: odd length hex string")
  | a :: b :: s' =>
      match from_hex a, from_hex b with
      | Some x, Some y => l ← hex_decode s'; Ok (z2b (x * 16 + y) :: l)
      | _, _ => Err (EText "encoding/hex: invalid byte")
      end
  end.

(** The canonical form: [n] bytes in lower case. *)
Definition canonical_hex (n : nat) (value : bytes) : option bytes :=
  match hex_decode value with
  | Err _ => None
  | Ok raw => if negb (length raw =? n)%nat || negb (bool_decide (hex_encode raw = value))
              then None else Some raw
  end.

(** ** Decimal text *)
(** [%d] of a [uint64]: at most twenty digits. *)
Fixpoint dec_digits (fuel : nat) (n : Z) (acc : bytes) : bytes :=
  match fuel with
  | O => acc
  | S fuel' => let acc := z2b (48 + n mod 10) :: acc in
               if n <? 10 then acc else dec_digits fuel' (n / 10) acc
  end.
Definition dec_string (n : Z) : bytes := dec_digits 20 n [].

(** ** Hexadecimal text is injective and decodes *)
Lemma from_hex_digit d : 0 <= d < 16 -> from_hex (hex_digit d) = Some d.
Proof.
  intros Hd. assert (Hall : forallb (fun d => bool_decide (from_hex (hex_digit d) = Some d))
                              (seqZ 0 16) = true) by (vm_compute; reflexivity).
  rewrite forallb_forall in Hall. apply (bool_decide_eq_true_1 _), Hall.
  apply list_elem_of_In, elem_of_seqZ. lia.
Qed.

Lemma hex_decode_encode b : hex_decode (hex_encode b) = Ok b.
Proof.
  induction b as [|x b IH]; [done|]. cbn [hex_encode flat_map app hex_decode].
  pose proof (b2z_range x). rewrite !from_hex_digit by mlia.
  change (flat_map _ b) with (hex_encode b). rewrite IH. cbn [mbind result_bind].
  rewrite Z.mul_comm, <- Z.div_mod by lia. by rewrite z2b_b2z.
Qed.

#[global] Instance hex_encode_inj : Inj (=) (=) hex_encode.
Proof. intros a b Hab. apply Ok_inj. by rewrite <- !hex_decode_encode, Hab. Qed.

Lemma length_hex_encode b : length (hex_encode b) = (2 * length b)%nat.
Proof.
  induction b as [|x b IH]; [done|]. cbn [hex_encode flat_map app length].
  change (flat_map _ b) with (hex_encode b). lia.
Qed.

Lemma canonical_hex_encode b : canonical_hex (length b) (hex_encode b) = Some b.
Proof.
  unfold canonical_hex. rewrite hex_decode_encode, Nat.eqb_refl.
  by rewrite bool_decide_eq_true_2.
Qed.

Lemma canonical_hex_len n b : length b = n -> canonical_hex n (hex_encode b) = Some b.
Proof. intros <-. apply canonical_hex_encode. Qed.
