(* ===== verification/GoHeap.v ===== *)
(** * Binary heaps (Go's container/heap)

    The wallet keeps the best outputs of a snapshot in a bounded heap.  This file
    models [heap.Push] and [heap.Pop] with their sift loops on a slice, proves
    that they maintain the heap order and the multiset of elements, and that a
    bounded heap keeps exactly the best elements it is offered. *)
From S2P Require Import Prelude.

Section heap_ops.
Context {A : Type} (Less : A -> A -> bool).

(** [h.Less(i, j)] and [h.Swap(i, j)]; the loops below keep [i] and [j] in range. *)
Definition less (h : list A) (i j : nat) : bool :=
  match h !! i, h !! j with Some a, Some b => Less a b | _, _ => false end.
Definition swap (h : list A) (i j : nat) : list A :=
  match h !! i, h !! j with Some a, Some b => <[i := b]> (<[j := a]> h) | _, _ => h end.

Definition parent (j : nat) : nat := ((j - 1) / 2)%nat.

(** The loops move strictly towards the root or the leaves: the fuel of the
    callers below is never exhausted. *)
Fixpoint up (fuel : nat) (h : list A) (j : nat) : list A :=
  match fuel with
  | O => h
  | S fuel' =>
      let i := parent j in
      if (i =? j)%nat || negb (less h j i) then h else up fuel' (swap h i j) i
  end.

Fixpoint down (fuel : nat) (h : list A) (i n : nat) : list A :=
  match fuel with
  | O => h
  | S fuel' =>
      let j1 := (2 * i + 1)%nat in
      if (n <=? j1)%nat then h else
      let j2 := (j1 + 1)%nat in
      let j := if (j2 <? n)%nat && less h j2 j1 then j2 else j1 in
      if negb (less h j i) then h else down fuel' (swap h i j) j n
  end.

Definition heap_Push (h : list A) (x : A) : list A :=
  let h' := h ++ [x] in up (length h') h' (length h' - 1).

(** The element returned by [Pop] is the last one after the sift. *)
Definition heap_Pop (h : list A) : option A * list A :=
  let n := (length h - 1)%nat in
  let h' := down (length h) (swap h 0 n) 0 n in (h' !! n, take n h').
End heap_ops.

(** ** Heap order *)
Section heap_proofs.
Context {A : Type} `{!Inhabited A} (Less : A -> A -> bool).
Abbreviation le a b := (Less b a = false).
Context (Less_asym : forall a b, Less a b = true -> le a b)
        (le_trans : forall a b c, le a b -> le b c -> le a c).

Definition is_heap (n : nat) (h : list A) : Prop :=
  forall k, (0 < k < n)%nat -> le (h !!! parent k) (h !!! k).

Lemma le_refl a : le a a.
Proof. destruct (Less a a) eqn:E; [|done]. by rewrite <- E, Less_asym. Qed.

Lemma parent_lt k : (0 < k)%nat -> (parent k < k)%nat.
Proof. intros. unfold parent. apply Nat.Div0.div_lt_upper_bound; lia. Qed.

Lemma parent_spec k i : (0 < k)%nat -> parent k = i <-> (k = 2 * i + 1 \/ k = 2 * i + 2)%nat.
Proof.
  intros Hk. unfold parent. pose proof (Nat.div_mod_eq (k - 1) 2).
  pose proof (Nat.mod_upper_bound (k - 1) 2). lia.
Qed.

Lemma less_total (h : list A) i j : (i < length h)%nat -> (j < length h)%nat ->
  less Less h i j = Less (h !!! i) (h !!! j).
Proof.
  intros Hi Hj. unfold less. by rewrite (list_lookup_lookup_total_lt _ _ Hi),
    (list_lookup_lookup_total_lt _ _ Hj).
Qed.

Lemma length_swap (h : list A) i j : length (swap h i j) = length h.
Proof. unfold swap. repeat case_match; by rewrite ?length_insert. Qed.

Lemma swap_total (h : list A) i j k : (i < length h)%nat -> (j < length h)%nat -> i <> j ->
  swap h i j !!! k = if decide (k = i) then h !!! j else if decide (k = j) then h !!! i
                     else h !!! k.
Proof.
  intros Hi Hj Hne. unfold swap. rewrite (list_lookup_lookup_total_lt _ _ Hi),
    (list_lookup_lookup_total_lt _ _ Hj).
  destruct (decide (k = i)) as [->|].
  - rewrite list_lookup_total_insert_eq; [done|]. by rewrite length_insert.
  - rewrite list_lookup_total_insert_ne by done. destruct (decide (k = j)) as [->|].
    + by rewrite list_lookup_total_insert_eq.
    + by rewrite list_lookup_total_insert_ne.
Qed.

Lemma swap_perm (h : list A) i j : swap h i j ≡ₚ h.
Proof.
  unfold swap. destruct (h !! i) as [a|] eqn:Ei, (h !! j) as [b|] eqn:Ej; try done.
  by apply Permutation_insert_swap.
Qed.

(** *** Sifting up: the order holds except above [j]. *)
Definition sift_up_ok (h : list A) (j : nat) : Prop :=
  (forall k, (0 < k < length h)%nat -> k <> j -> le (h !!! parent k) (h !!! k)) /\
  (forall k, (0 < k < length h)%nat -> parent k = j -> (0 < j)%nat ->
     le (h !!! parent j) (h !!! k)).

Lemma up_spec fuel : forall h j,
  (j < fuel)%nat -> (j < length h)%nat -> sift_up_ok h j ->
  is_heap (length h) (up Less fuel h j) /\ up Less fuel h j ≡ₚ h.
Proof.
  induction fuel as [|fuel IH]; intros h j Hf Hj [H1 H2]; [lia|]. cbn [up].
  destruct (Nat.eqb_spec (parent j) j) as [E|E]; cbn [orb].
  { split; [|done]. assert (j = 0)%nat as ->.
    { destruct j; [done|]. pose proof (parent_lt (S j)). lia. }
    intros k Hk. apply H1; lia. }
  assert (Hj0 : (0 < j)%nat) by (destruct j; [by unfold parent in E|lia]).
  pose proof (parent_lt j Hj0) as Hp. rewrite less_total by lia.
  destruct (Less (h !!! j) (h !!! parent j)) eqn:El; cbn [negb].
  - destruct (IH (swap h (parent j) j) (parent j)) as [Hh Hpm]; [lia|rewrite length_swap; lia| |].
    2:{ rewrite length_swap in Hh. split; [done|]. by rewrite Hpm, swap_perm. }
    clear IH.
    assert (Hsw : forall k, swap h (parent j) j !!! k =
      if decide (k = parent j) then h !!! j else if decide (k = j) then h !!! parent j
      else h !!! k) by (intros; apply swap_total; lia).
    split; intros k; rewrite length_swap; intros Hk.
    + intros Hne. rewrite !Hsw. rewrite (decide_False (P := k = parent j)) by done.
      destruct (decide (k = j)) as [->|Hkj].
      { rewrite decide_True by done. by apply Less_asym. }
      destruct (decide (parent k = parent j)) as [Epp|Epp].
      * eapply le_trans; [by apply Less_asym|]. rewrite <- Epp. by apply H1.
      * destruct (decide (parent k = j)) as [Epj|Epj]; [by apply H2|by apply H1].
    + intros Hpk Hi0. rewrite !Hsw.
      pose proof (parent_lt _ Hi0). rewrite !(decide_False (P := parent (parent j) = _)) by lia.
      rewrite (decide_False (P := k = parent j)) by (pose proof (parent_lt k); lia).
      assert (le (h !!! parent (parent j)) (h !!! parent j)) by (apply H1; lia).
      destruct (decide (k = j)) as [->|Hkj]; [done|].
      eapply le_trans; [done|]. rewrite <- Hpk. apply H1; lia.
  - split; [|done]. intros k Hk. destruct (decide (k = j)) as [->|]; [done|by apply H1].
Qed.

(** *** Sifting down: the order holds except below [i]. *)
Definition sift_down_ok (n : nat) (h : list A) (i : nat) : Prop :=
  (forall k, (0 < k < n)%nat -> parent k <> i -> le (h !!! parent k) (h !!! k)) /\
  (forall k, (0 < k < n)%nat -> parent k = i -> (0 < i)%nat -> le (h !!! parent i) (h !!! k)).

Lemma down_spec n fuel : forall h i,
  (n <= i + fuel)%nat -> (n <= length h)%nat -> sift_down_ok n h i ->
  is_heap n (down Less fuel h i n) /\ down Less fuel h i n ≡ₚ h /\
  (forall k, (n <= k)%nat -> down Less fuel h i n !!! k = h !!! k).
Proof.
  induction fuel as [|fuel IH]; intros h i Hf Hn [H1 H2]; cbn [down].
  { split; [|done]. intros k Hk. apply H1; [done|]. pose proof (parent_lt k). lia. }
  destruct (Nat.leb_spec n (2 * i + 1)) as [Hle|Hlt].
  { split; [|done]. intros k Hk. apply H1; [done|]. rewrite parent_spec by lia. lia. }
  set (j := if _ && _ then _ else _).
  assert (Hj : (parent j = i /\ 0 < j < n /\ i < j)%nat /\
               forall k, (0 < k < n)%nat -> parent k = i -> le (h !!! j) (h !!! k)).
  { assert (Hcase : (j = 2 * i + 1 \/ j = 2 * i + 2 /\ 2 * i + 2 < n)%nat /\
              (j = (2 * i + 1)%nat -> (2 * i + 2 < n)%nat ->
                 le (h !!! (2 * i + 1)%nat) (h !!! (2 * i + 2)%nat)) /\
              (j = (2 * i + 2)%nat -> le (h !!! (2 * i + 2)%nat) (h !!! (2 * i + 1)%nat))).
    { subst j. replace (2 * i + 1 + 1)%nat with (2 * i + 2)%nat by lia.
      destruct (Nat.ltb_spec (2 * i + 2) n) as [Hlt2|Hge]; cbn [andb]; [|lia].
      rewrite less_total by lia. destruct (Less (h !!! (2 * i + 2)%nat) _) eqn:E.
      - split; [lia|]. split; [lia|]. intros _. by apply Less_asym.
      - split; [lia|]. split; [done|lia]. }
    destruct Hcase as (Hc & Hl & Hr). split.
    { split; [apply parent_spec; lia|lia]. }
    intros k Hk Hpk. apply parent_spec in Hpk; [|lia].
    destruct Hc as [->|[-> ?]], Hpk as [->| ->]; auto using le_refl with lia. }
  destruct Hj as [(Hpj & Hjn & Hij) Hmin]. clearbody j. rewrite less_total by lia.
  destruct (Less (h !!! j) (h !!! i)) eqn:El; cbn [negb].
  - assert (Hsw : forall k, swap h i j !!! k =
      if decide (k = i) then h !!! j else if decide (k = j) then h !!! i
      else h !!! k) by (intros; apply swap_total; lia).
    destruct (IH (swap h i j) j) as (Hheap & Hperm & Htail);
      [lia|rewrite length_swap; lia| |].
    + clear IH. split; intros k Hk.
      * intros Hne. rewrite !Hsw. destruct (decide (parent k = i)) as [Ep|Ep].
        { rewrite (decide_False (P := k = i)) by (pose proof (parent_lt k); lia).
          destruct (decide (k = j)); [by apply Less_asym|by apply Hmin]. }
        rewrite (decide_False (P := parent k = j)) by done.
        destruct (decide (k = i)) as [->|]; [apply H2; [lia..|done|lia]|].
        rewrite decide_False by congruence. by apply H1.
      * intros Hpk Hj0. rewrite !Hsw, Hpj, (decide_True (P := i = i)) by done.
        pose proof (parent_lt k). rewrite !decide_False by lia.
        rewrite <- Hpk. apply H1; [lia|]. lia.
    + split; [done|]. split; [by rewrite Hperm, swap_perm|].
      intros k Hk. rewrite Htail, Hsw by done. rewrite !decide_False by lia. done.
  - split; [|done]. intros k Hk. destruct (decide (parent k = i)) as [Ep|Ep]; [|by apply H1].
    rewrite Ep. eapply le_trans; [done|]. by apply Hmin.
Qed.

(** *** The operations *)
Lemma heap_Push_spec h x : is_heap (length h) h ->
  is_heap (S (length h)) (heap_Push Less h x) /\ heap_Push Less h x ≡ₚ x :: h.
Proof.
  intros Hh. unfold heap_Push. rewrite length_app. cbn [length].
  assert (Hl : length (h ++ [x]) = S (length h)) by (rewrite length_app; cbn; lia).
  replace (S (length h)) with (length (h ++ [x])) by done.
  destruct (up_spec (length h + 1) (h ++ [x]) (length h + 1 - 1)) as [H1 H2]; [lia|lia| |].
  - split; intros k Hk.
    + intros Hne. pose proof (parent_lt k).
      rewrite !list_lookup_total_alt, !lookup_app_l by lia.
      rewrite <- !list_lookup_total_alt. apply Hh. lia.
    + intros Hpk ?. pose proof (parent_lt k). lia.
  - split; [done|]. rewrite H2. symmetry. apply Permutation_cons_append.
Qed.

Lemma heap_Pop_spec h : h <> [] -> is_heap (length h) h ->
  exists m h', heap_Pop Less h = (Some m, h') /\ m = h !!! 0%nat /\ h ≡ₚ m :: h' /\
    is_heap (length h') h'.
Proof.
  intros Hne Hh. unfold heap_Pop. set (n := (length h - 1)%nat).
  assert (Hl : length h = S n) by (destruct h; [done|subst n; cbn; lia]).
  rewrite Hl. destruct (down_spec n (S n) (swap h 0 n) 0) as (H1 & H2 & H3);
    [lia|rewrite length_swap; lia| |].
  { assert (Hsw : forall k, (0 < k < n)%nat -> swap h 0 n !!! k = h !!! k).
    { intros k Hk. rewrite swap_total by lia. rewrite !decide_False by lia. done. }
    split; intros k Hk ?; [|lia]. pose proof (parent_lt k).
    rewrite !Hsw by lia. apply Hh. lia. }
  set (d := down Less (S n) (swap h 0 n) 0 n) in *.
  assert (Hd : length d = S n) by (rewrite H2, length_swap; lia).
  assert (Hlast : d !! n = Some (h !!! 0%nat)).
  { rewrite list_lookup_lookup_total_lt by lia. rewrite H3 by lia. f_equal.
    destruct (decide (n = 0%nat)) as [En|En].
    - rewrite En. unfold swap.
      rewrite (list_lookup_lookup_total_lt h 0) by lia.
      by rewrite list_insert_insert_eq, list_lookup_total_insert_eq by lia.
    - rewrite swap_total by lia. by rewrite decide_False, decide_True by lia. }
  exists (h !!! 0%nat), (take n d). rewrite Hlast. split_and!; [done|done| |].
  - transitivity d; [by rewrite H2, swap_perm|]. rewrite <- (take_drop n d) at 1.
    rewrite (drop_S _ _ _ Hlast), drop_ge by lia. symmetry. apply Permutation_cons_append.
  - rewrite length_take_le by lia. intros k Hk. pose proof (parent_lt k).
    rewrite !list_lookup_total_alt, !lookup_take_lt by lia.
    rewrite <- !list_lookup_total_alt. by apply H1.
Qed.

(** The root is the least element. *)
Lemma heap_root_min h x : is_heap (length h) h -> x ∈ h -> le (h !!! 0%nat) x.
Proof.
  intros Hh (k & Hk)%list_elem_of_lookup_1.
  revert x Hk. induction k as [k IH] using lt_wf_ind. intros x Hk.
  pose proof (lookup_lt_Some _ _ _ Hk).
  apply list_lookup_total_correct in Hk as <-. destruct k as [|k]; [apply le_refl|].
  pose proof (parent_lt (S k)). eapply le_trans; [|apply Hh; lia].
  apply (IH (parent (S k))); [lia|]. apply list_lookup_lookup_total_lt. lia.
Qed.
End heap_proofs.

(** ** A bounded heap keeps the best elements

    [better] is a strict total order; the heap is ordered by [better] reversed, so
    its root is the worst element kept. *)
Section bounded.
Context {A : Type} `{!Inhabited A} (better : A -> A -> bool) (cap : nat).
Abbreviation worse a b := (better b a).

Definition offer (h : list A) (x : A) : list A :=
  if (length h <? cap)%nat then heap_Push (fun a b => worse a b) h x
  else match h !! 0%nat with
       | Some root => if better x root
                      then heap_Push (fun a b => worse a b) (heap_Pop (fun a b => worse a b) h).2 x
                      else h
       | None => h
       end.

Context (better_asym : forall a b, better a b = true -> better b a = false)
        (better_trans : forall a b c, better a b = false -> better b c = false ->
           better a c = false).

(** [kept] and [dropped] split what was offered, and nothing dropped is better
    than anything kept. *)
Definition keeps_best (offered kept : list A) : Prop :=
  is_heap (fun a b => worse a b) (length kept) kept /\
  exists dropped, offered ≡ₚ kept ++ dropped /\
    (dropped <> [] -> length kept = cap) /\ (length kept <= cap)%nat /\
    forall a b, a ∈ kept -> b ∈ dropped -> better b a = false.

Lemma offer_keeps_best offered kept x : (0 < cap)%nat ->
  keeps_best offered kept -> keeps_best (x :: offered) (offer kept x).
Proof.
  intros Hcap (Hh & dropped & Hp & Hfull & Hle & Hbest). unfold offer.
  assert (Hasym' : forall a b, worse a b = true -> worse b a = false) by auto.
  assert (Htr' : forall a b c, worse b a = false -> worse c b = false -> worse c a = false)
    by eauto.
  destruct (Nat.ltb_spec (length kept) cap) as [Hlt|Hge].
  - destruct (heap_Push_spec (fun a b => worse a b) Hasym' Htr' kept x Hh) as [Hh' Hp'].
    assert (dropped = []) as -> by (destruct dropped; [done|specialize (Hfull ltac:(done)); lia]).
    rewrite app_nil_r in Hp. pose proof (Permutation_length Hp') as Hl. split; [by rewrite Hl|].
    exists []. rewrite app_nil_r, Hl, Hp', Hp. split_and!; [done..|cbn; lia|].
    by intros ? ? _ ?%elem_of_nil.
  - destruct kept as [|root kept0] eqn:Ek; [cbn in Hge; lia|]. cbn [lookup list_lookup].
    rewrite <- Ek in *. assert (Hroot : kept !!! 0%nat = root) by by rewrite Ek.
    destruct (better x root) eqn:Eb.
    + destruct (heap_Pop_spec (fun a b => worse a b) Hasym' Htr' kept) as
        (m & h' & -> & Hm & Hpm & Hh'); [by rewrite Ek|done|].
      rewrite Hroot in Hm. subst m. cbn [snd].
      destruct (heap_Push_spec (fun a b => worse a b) Hasym' Htr' h' x Hh') as [Hh2 Hp2].
      assert (Hlen : length kept = S (length h')) by by rewrite Hpm.
      pose proof (Permutation_length Hp2) as Hl2. split; [by rewrite Hl2|].
      exists (root :: dropped). rewrite Hl2. split_and!.
      * rewrite Hp2, Hp, Hpm. cbn. constructor. apply Permutation_middle.
      * intros _. cbn. lia.
      * cbn. lia.
      * assert (Hr : forall a, a ∈ kept -> better root a = false).
        { intros a Ha. rewrite <- Hroot.
          apply (heap_root_min (fun a b => worse a b) Hasym' Htr' kept a Hh Ha). }
        intros a b Ha Hb. rewrite Hp2 in Ha. apply elem_of_cons in Ha as [->|Ha].
        -- apply elem_of_cons in Hb as [->|Hb]; [by apply better_asym|].
           eapply better_trans; [|by apply better_asym]. apply Hbest; [|done]. rewrite Ek. left.
        -- assert (a ∈ kept) by (rewrite Hpm; by right).
           apply elem_of_cons in Hb as [->|Hb]; [by apply Hr|by apply Hbest].
    + split; [done|]. exists (x :: dropped). split_and!; [|lia|done|].
      * rewrite Hp. apply Permutation_middle.
      * intros a b Ha [->|Hb]%elem_of_cons; [|by apply Hbest].
        eapply better_trans; [exact Eb|]. rewrite <- Hroot.
        apply (heap_root_min (fun a b => worse a b) Hasym' Htr' kept a Hh Ha).
Qed.

Lemma keeps_best_nil : keeps_best [] [].
Proof.
  split; [intros k ?; cbn in *; lia|]. exists []. split_and!; [done..|cbn; lia|].
  by intros ? ? ?%elem_of_nil.
Qed.

(** Sorted, the kept elements are the first [cap] of all elements sorted. *)
Lemma keeps_best_sorted (R : relation A) `{!forall a b, Decision (R a b)} offered kept :
  (forall a b, R a b <-> better b a = false) ->
  (forall a b, a ∈ offered -> b ∈ offered -> R a b -> R b a -> a = b) ->
  Total R -> Transitive R -> keeps_best offered kept -> merge_sort R kept = take cap (merge_sort R offered).
Proof.
  intros HR Hanti ? ? (_ & dropped & Hp & Hfull & Hle & Hbest).
  assert (Heq : merge_sort R offered = merge_sort R kept ++ merge_sort R dropped).
  { apply (StronglySorted_unique_strong R).
    - intros a b Ha Hb. rewrite merge_sort_Permutation in Ha.
      rewrite !merge_sort_Permutation, <- Hp in Hb. by apply Hanti.
    - by apply StronglySorted_merge_sort.
    - apply StronglySorted_app. split_and!; [|by apply StronglySorted_merge_sort..].
      intros a b Ha Hb. rewrite merge_sort_Permutation in Ha. rewrite merge_sort_Permutation in Hb.
      apply HR. by apply Hbest.
    - by rewrite !merge_sort_Permutation. }
  rewrite Heq. destruct dropped as [|d dropped'].
  - rewrite take_ge; [by rewrite app_nil_r|]. by rewrite app_nil_r, merge_sort_Permutation.
  - rewrite take_app_length'; [done|]. rewrite merge_sort_Permutation. symmetry. by apply Hfull.
Qed.
End bounded.
