(* ===== verification/Params.v ===== *)
(** * Network parameters and the monetary schedule (core/params.go)

    The constants, the [Params] record with the two canonical networks,
    [validateConsensusParams], [CanonicalNetworkID], the money-range arithmetic
    and the block subsidy.  The theorems bound the total issue of the subsidy
    schedule and characterise [checkedAddMoney]. *)
From S2P Require Import Prelude.

Definition UnitsPerCoin : Z := 100000000.
Definition MaxMoneyUnits : Z := 21000000 * UnitsPerCoin.
Definition InitialRewardUnits : Z := 50 * UnitsPerCoin.
Definition HalvingInterval : Z := 210000.
Definition MaxHalvings : Z := 64.
Definition MaxBlockBytes : Z := 1000000.
Definition MainNetMachineID : string := "btc09-mainnet".
Definition RegTestMachineID : string := "btc09-regtest".

Definition MoneyRange (value : Z) : bool := (0 <=? value) && (value <=? MaxMoneyUnits).

(** Returns [(0, false)] or [(left + right, true)]; the Go code keeps the sum
    inside [int64] by comparing with [MaxMoneyUnits - right] first. *)
Definition checkedAddMoney (left right : Z) : option Z :=
  if negb (MoneyRange left) || negb (MoneyRange right) || (left >? MaxMoneyUnits - right)
  then None
  else Some (left + right).

Definition moneyRangeError (detail : string) : error := EMoneyRange detail.

Record Params := mkParams {
  Name : string;
  NetMagic : Z;
  TargetBlockTime : Z;
  RetargetInterval : Z;
  CoinbaseMaturity : Z;
  MaxTargetBits : Z;
  ArgonMemKiB : Z;
  ArgonTime : Z;
  ASERTActivationHeight : Z;
  ASERTHalfLife : Z;
  ASERTFutureDrift : Z;
  ASERTMedianTimeBlocks : Z;
  GenesisTime : Z;
  GenesisNonce : Z;
  GenesisHeadline : string;
  FutureDrift : Z;
}.

#[global] Instance Params_eq_dec : EqDecision Params.
Proof. solve_decision. Defined.

Definition canonicalMainNetParams : Params := {|
  Name := "mainnet";
  NetMagic := 0xB7C09001;
  TargetBlockTime := 600;
  RetargetInterval := 2016;
  CoinbaseMaturity := 100;
  MaxTargetBits := 0x1f00ffff;
  ArgonMemKiB := 64 * 1024;
  ArgonTime := 1;
  ASERTActivationHeight := 12096;
  ASERTHalfLife := 2 * 3600;
  ASERTFutureDrift := 30 * 60;
  ASERTMedianTimeBlocks := 11;
  GenesisTime := 1783274400;
  GenesisNonce := 20214;
  GenesisHeadline := "the coin that you can mine like it's 2009";
  FutureDrift := 2 * 3600;
|}.

Definition canonicalRegTestParams : Params := {|
  Name := "regtest";
  NetMagic := 0xB7C09BAD;
  TargetBlockTime := 1;
  RetargetInterval := 8;
  CoinbaseMaturity := 2;
  MaxTargetBits := 0x207fffff;
  ArgonMemKiB := 1024;
  ArgonTime := 1;
  ASERTActivationHeight := 0;
  ASERTHalfLife := 0;
  ASERTFutureDrift := 0;
  ASERTMedianTimeBlocks := 0;
  GenesisTime := 1751738400;
  GenesisNonce := 0;
  GenesisHeadline := "regtest genesis";
  FutureDrift := 2 * 3600;
|}.

Definition MainNet : Params := canonicalMainNetParams.
Definition RegTest : Params := canonicalRegTestParams.

(** [%] on a Go [int] is the truncated remainder. *)
Definition validateConsensusParams (p : Params) : result unit :=
  if ASERTActivationHeight p =? 0 then
    if negb (ASERTHalfLife p =? 0) || negb (ASERTFutureDrift p =? 0)
       || negb (ASERTMedianTimeBlocks p =? 0)
    then Err (EText "ASERT parameters set without an activation height")
    else Ok tt
  else if ASERTActivationHeight p <? 2 then
    Err (EText "ASERT activation height must leave an anchor parent")
  else if ASERTHalfLife p <=? 0 then
    Err (EText "ASERT half-life must be positive")
  else if ASERTFutureDrift p <=? 0 then
    Err (EText "ASERT future drift must be positive")
  else if (ASERTMedianTimeBlocks p <? 3) || (Z.rem (ASERTMedianTimeBlocks p) 2 =? 0) then
    Err (EText "ASERT median-time window must be an odd number of at least three blocks")
  else Ok tt.

(** The pointer argument of the Go function: [None] is [nil]. *)
Definition CanonicalNetworkID (p : option Params) : result string :=
  match p with
  | None => Err (EText "nil network params")
  | Some p =>
      if decide (p = canonicalMainNetParams) then Ok MainNetMachineID
      else if decide (p = canonicalRegTestParams) then Ok RegTestMachineID
      else Err (EText "noncanonical network params")
  end.

(** [height / HalvingInterval] truncates, and [uint(halvings)] reinterprets a
    negative quotient as a huge shift count. *)
Definition SubsidyAt (height : Z) : Z :=
  let halvings := Z.quot height HalvingInterval in
  if halvings >=? MaxHalvings then 0
  else Z.shiftr InitialRewardUnits (u64 halvings).

(** ** Money arithmetic *)
Lemma MoneyRange_spec v : MoneyRange v = true <-> 0 <= v <= MaxMoneyUnits.
Proof. unfold MoneyRange. rewrite andb_true_iff, !Z.leb_le. done. Qed.

Lemma MoneyRange_false v : MoneyRange v = false <-> v < 0 \/ MaxMoneyUnits < v.
Proof. unfold MoneyRange. rewrite andb_false_iff, !Z.leb_gt. done. Qed.

Lemma checkedAddMoney_Some l r s :
  checkedAddMoney l r = Some s <->
    s = l + r /\ 0 <= l <= MaxMoneyUnits /\ 0 <= r <= MaxMoneyUnits /\ s <= MaxMoneyUnits.
Proof.
  unfold checkedAddMoney.
  destruct (MoneyRange l) eqn:El; simpl;
    [|apply MoneyRange_false in El; split; [done|lia]].
  destruct (MoneyRange r) eqn:Er; simpl;
    [|apply MoneyRange_false in Er; split; [done|lia]].
  apply MoneyRange_spec in El, Er.
  rewrite Z.gtb_ltb. destruct (Z.ltb_spec (MaxMoneyUnits - r) l).
  - split; [done|lia].
  - split; [intros [= <-]; lia|intros [-> _]; done].
Qed.

(** The addition never leaves [int64], whatever the operands. *)
Lemma checkedAddMoney_no_overflow l r s :
  checkedAddMoney l r = Some s -> in_i64 s.
Proof.
  intros (-> & ? & ? & ?)%checkedAddMoney_Some.
  unfold in_i64, two63, MaxMoneyUnits, UnitsPerCoin in *. lia.
Qed.

(** ** The subsidy schedule *)
Definition halving_subsidy (k : Z) : Z := Z.shiftr InitialRewardUnits k.

Lemma SubsidyAt_nonneg_height h :
  0 <= h ->
  SubsidyAt h = if h / HalvingInterval <? MaxHalvings
                then halving_subsidy (h / HalvingInterval) else 0.
Proof.
  intros Hh. unfold SubsidyAt, halving_subsidy.
  rewrite Z.quot_div_nonneg by (unfold HalvingInterval; lia).
  rewrite Z.geb_leb. destruct (Z.leb_spec MaxHalvings (h / HalvingInterval)) as [E|E].
  - destruct (Z.ltb_spec (h / HalvingInterval) MaxHalvings); [lia|done].
  - destruct (Z.ltb_spec (h / HalvingInterval) MaxHalvings); [|lia].
    rewrite u64_small; [done|]. unfold in_u64, two64, MaxHalvings in *.
    pose proof (Z.div_pos h HalvingInterval ltac:(lia) ltac:(unfold HalvingInterval; lia)).
    lia.
Qed.

Lemma halving_subsidy_nonneg k : 0 <= halving_subsidy k.
Proof. apply Z.shiftr_nonneg. done. Qed.

Lemma SubsidyAt_nonneg h : 0 <= SubsidyAt h.
Proof.
  unfold SubsidyAt. destruct (_ >=? _); [done|]. by apply Z.shiftr_nonneg.
Qed.

Lemma SubsidyAt_le_initial h : SubsidyAt h <= InitialRewardUnits.
Proof.
  unfold SubsidyAt. destruct (_ >=? _); [done|].
  pose proof (u64_range (Z.quot h HalvingInterval)) as [Hu _].
  rewrite Z.shiftr_div_pow2 by done.
  apply Z.div_le_upper_bound; [by apply Z.pow_pos_nonneg|].
  pose proof (Z.pow_pos_nonneg 2 (u64 (Z.quot h HalvingInterval)) ltac:(lia) Hu).
  unfold InitialRewardUnits, UnitsPerCoin. lia.
Qed.

Lemma SubsidyAt_money h : MoneyRange (SubsidyAt h) = true.
Proof.
  apply MoneyRange_spec. pose proof (SubsidyAt_nonneg h).
  pose proof (SubsidyAt_le_initial h).
  unfold InitialRewardUnits, MaxMoneyUnits, UnitsPerCoin in *. lia.
Qed.

(** Specification: the coins minted by the blocks of height [< n]. *)
Fixpoint issued_before (n : nat) : Z :=
  match n with
  | O => 0
  | S n' => issued_before n' + SubsidyAt (Z.of_nat n')
  end.

(** The number of heights [< n] that fall in halving period [k]. *)
Definition period_count (k n : Z) : Z :=
  Z.max 0 (Z.min n ((k + 1) * HalvingInterval) - k * HalvingInterval).

Definition halvings : list Z := seqZ 0 MaxHalvings.

Lemma elem_of_halvings k : k ∈ halvings <-> 0 <= k < MaxHalvings.
Proof. unfold halvings. rewrite elem_of_seqZ. lia. Qed.

Lemma period_count_succ k n :
  0 <= n ->
  period_count k (n + 1) = period_count k n + (if n / HalvingInterval =? k then 1 else 0).
Proof.
  intros Hn. unfold period_count, HalvingInterval.
  destruct (Z.eqb_spec (n / 210000) k); mlia.
Qed.

Lemma sum_indicator (f : Z -> Z) q l :
  NoDup l ->
  sumZ (map (fun k => (if q =? k then 1 else 0) * f k) l)
  = if decide (q ∈ l) then f q else 0.
Proof.
  induction 1 as [|k l Hk Hl IH]; cbn [map sumZ]; [done|].
  rewrite IH. destruct (Z.eqb_spec q k) as [->|Hne].
  - rewrite (decide_False (P := k ∈ l)) by done.
    rewrite decide_True by left. lia.
  - destruct (decide (q ∈ l)); destruct (decide (q ∈ k :: l)) as [Hin|Hin]; try lia.
    + exfalso. apply Hin. by right.
    + apply elem_of_cons in Hin as [?|?]; [lia|done].
Qed.

Lemma issued_before_by_period n :
  issued_before n =
    sumZ (map (fun k => period_count k (Z.of_nat n) * halving_subsidy k) halvings).
Proof.
  induction n as [|n IH].
  - symmetry. apply sumZ_map_zero. intros k Hk%elem_of_halvings.
    replace (period_count k (Z.of_nat 0)) with 0; [lia|].
    unfold period_count, HalvingInterval. lia.
  - cbn [issued_before]. rewrite IH, Nat2Z.inj_succ, <- Z.add_1_r.
    rewrite SubsidyAt_nonneg_height by lia.
    set (q := Z.of_nat n / HalvingInterval).
    assert (0 <= q) by (apply Z.div_pos; unfold HalvingInterval; lia).
    assert ((if q <? MaxHalvings then halving_subsidy q else 0)
            = sumZ (map (fun k => (if q =? k then 1 else 0) * halving_subsidy k) halvings)) as ->.
    { rewrite sum_indicator by apply NoDup_seqZ.
      destruct (Z.ltb_spec q MaxHalvings).
      - rewrite decide_True; [done|]. apply elem_of_halvings. lia.
      - rewrite decide_False; [done|]. rewrite elem_of_halvings. lia. }
    clear IH. induction halvings as [|k l IHl]; cbn [map sumZ]; [lia|].
    rewrite period_count_succ by lia. fold q. lia.
Qed.

(** The exact limit of the schedule, in units. *)
Definition max_issue : Z := 2099999997690000.

Lemma issued_before_le_max n : issued_before n <= max_issue.
Proof.
  rewrite issued_before_by_period.
  transitivity (sumZ (map (fun k => HalvingInterval * halving_subsidy k) halvings)).
  - apply sumZ_map_le. intros k _. apply Z.mul_le_mono_nonneg_r.
    + apply halving_subsidy_nonneg.
    + unfold period_count, HalvingInterval. lia.
  - vm_compute. done.
Qed.

Lemma issued_before_nonneg n : 0 <= issued_before n.
Proof.
  induction n as [|n IH]; simpl; [done|]. pose proof (SubsidyAt_nonneg (Z.of_nat n)). lia.
Qed.

Lemma issued_before_mono n m : (n <= m)%nat -> issued_before n <= issued_before m.
Proof.
  induction 1 as [|m Hm IH]; [done|]. simpl.
  pose proof (SubsidyAt_nonneg (Z.of_nat m)). lia.
Qed.

(** The schedule stops below the 21-million cap. *)
Lemma issued_before_money n : 0 <= issued_before n <= MaxMoneyUnits.
Proof.
  pose proof (issued_before_le_max n). pose proof (issued_before_nonneg n).
  unfold max_issue, MaxMoneyUnits, UnitsPerCoin in *. lia.
Qed.

(** ** Consensus parameters *)
Lemma canonical_params_valid :
  validateConsensusParams MainNet = Ok tt /\ validateConsensusParams RegTest = Ok tt.
Proof. split; reflexivity. Qed.

#[export] Hint Resolve SubsidyAt_nonneg SubsidyAt_money halving_subsidy_nonneg : btc.
