(* ===== verification/Crypto.v ===== *)
(** * Cryptographic primitives

    [Crypto] is the interface through which the core uses its primitives:
    [crypto/sha256], [crypto/ed25519] and the third-party
    [golang.org/x/crypto/argon2].  The development is proved for every
    implementation of the interface; [CryptoLaws] states the documented facts
    the code relies on (digest and key sizes, a signature made by [Sign] is
    accepted by [Verify]).

    [Sha256] is an executable model of SHA-256 (FIPS 180-4), the function behind
    [sha256.Sum256], checked on published test vectors. *)
From S2P Require Import Prelude Params.

Class Crypto := {
  Sum256 : bytes -> bytes;
  (** [argon2.IDKey(password, salt, time, memory, threads, keyLen)] *)
  argon2_IDKey : bytes -> bytes -> Z -> Z -> Z -> Z -> bytes;
  ed25519_Public : bytes -> bytes;
  ed25519_Sign : bytes -> bytes -> bytes;
  ed25519_Verify : bytes -> bytes -> bytes -> bool;
}.

Definition ed25519_PublicKeySize : nat := 32.

Class CryptoLaws `{Crypto} : Prop := {
  length_Sum256 b : length (Sum256 b) = 32%nat;
  length_ed25519_Public k : length (ed25519_Public k) = ed25519_PublicKeySize;
  length_ed25519_Sign k m : length (ed25519_Sign k m) = 64%nat;
  ed25519_Verify_Sign k m : ed25519_Verify (ed25519_Public k) m (ed25519_Sign k m) = true;
}.

(** A Go array type [[n]byte] is a byte list of length [n]; [copy(out[:], l)]
    into a zeroed array. *)
Definition zeros (n : nat) : bytes := replicate n Byte.x00.
Definition to_array (n : nat) (l : bytes) : bytes := take n (l ++ zeros n).

Lemma length_to_array n l : length (to_array n l) = n.
Proof.
  unfold to_array, zeros. rewrite length_take, length_app, length_replicate. lia.
Qed.

Lemma to_array_id n l : length l = n -> to_array n l = l.
Proof. intros <-. unfold to_array. by rewrite take_app_length. Qed.

(** ** Identifiers and proof of work (core/pow.go, core/keys.go) *)
Section hashes.
Context `{Crypto}.

Definition SHA256d (b : bytes) : bytes := Sum256 (Sum256 b).

Definition powSalt : bytes := bs "BTC09/pow/v1".

Definition PowHash (header : bytes) (p : Params) : bytes :=
  to_array 32 (argon2_IDKey header powSalt (ArgonTime p) (ArgonMemKiB p) 1 32).

Definition HashToBig (h : bytes) : Z := be_val h.

Definition PubKeyHash20 (pub : bytes) : bytes := to_array 20 (take 20 (SHA256d pub)).

Lemma length_SHA256d `{!CryptoLaws} b : length (SHA256d b) = 32%nat.
Proof. apply length_Sum256. Qed.

Lemma length_PowHash header p : length (PowHash header p) = 32%nat.
Proof. apply length_to_array. Qed.

Lemma length_PubKeyHash20 pub : length (PubKeyHash20 pub) = 20%nat.
Proof. apply length_to_array. Qed.
End hashes.

Abbreviation Hash32 := (list Byte.byte).
Definition zeroHash : Hash32 := zeros 32.

(** ** An executable SHA-256 *)
Module Sha256.
Definition add (a b : Z) : Z := (a + b) mod two32.
Definition rotr (x n : Z) : Z :=
  Z.lor (Z.shiftr x n) (Z.shiftl x (32 - n) mod two32).
Definition Ch x y z := Z.lxor (Z.land x y) (Z.land (two32 - 1 - x) z).
Definition Maj x y z := Z.lxor (Z.lxor (Z.land x y) (Z.land x z)) (Z.land y z).
Definition Sigma0 x := Z.lxor (Z.lxor (rotr x 2) (rotr x 13)) (rotr x 22).
Definition Sigma1 x := Z.lxor (Z.lxor (rotr x 6) (rotr x 11)) (rotr x 25).
Definition sigma0 x := Z.lxor (Z.lxor (rotr x 7) (rotr x 18)) (Z.shiftr x 3).
Definition sigma1 x := Z.lxor (Z.lxor (rotr x 17) (rotr x 19)) (Z.shiftr x 10).

(** The round constants are the first 32 bits of the fractional parts of the cube
    roots of the first 64 primes, the initial state those of the square roots of
    the first eight. *)
Definition is_prime (n : nat) : bool :=
  (1 <? n)%nat && forallb (fun d => negb (n mod d =? 0)%nat) (seq 2 (n - 2)).
Definition primes : list Z := Z.of_nat <$> filter (fun n => is_prime n = true) (seq 0 312).

Fixpoint icbrt (bits : nat) (r n : Z) : Z :=
  match bits with
  | O => r
  | S k => let r' := r + 2 ^ Z.of_nat k in
           icbrt k (if r' * r' * r' <=? n then r' else r) n
  end.

Definition K : list Z := Eval vm_compute in
  (fun q => icbrt 36 0 (q * 2 ^ 96) mod two32) <$> primes.
Definition H0 : list Z := Eval vm_compute in
  (fun q => Z.sqrt (q * 2 ^ 64) mod two32) <$> take 8 primes.

(** One round: consume the oldest schedule word, extend the 16-word window. *)
Definition round (st : list Z * list Z) (k : Z) : list Z * list Z :=
  match st with
  | ([a; b; c; d; e; f; g; h],
     [w0; w1; w2; w3; w4; w5; w6; w7; w8; w9; w10; w11; w12; w13; w14; w15]) =>
      let t1 := add h (add (Sigma1 e) (add (Ch e f g) (add k w0))) in
      let t2 := add (Sigma0 a) (Maj a b c) in
      let w16 := add (sigma1 w14) (add w9 (add (sigma0 w1) w0)) in
      ([add t1 t2; a; b; c; add d t1; e; f; g],
       [w1; w2; w3; w4; w5; w6; w7; w8; w9; w10; w11; w12; w13; w14; w15; w16])
  | _ => st
  end.

Fixpoint words (n : nat) (l : bytes) : list Z :=
  match n with O => [] | S n' => be_val (take 4 l) :: words n' (drop 4 l) end.

Definition compress (hs : list Z) (block : bytes) : list Z :=
  zip_with add hs (fst (fold_left round K (hs, words 16 block))).

Definition pad (msg : bytes) : bytes :=
  let len := Z.of_nat (length msg) in
  msg ++ z2b 0x80 :: zeros (Z.to_nat ((55 - len) mod 64)) ++ be_bytes 8 (8 * len).

Fixpoint blocks (fuel : nat) (hs : list Z) (l : bytes) : list Z :=
  match fuel with
  | O => hs
  | S fuel' => match l with [] => hs | _ => blocks fuel' (compress hs (take 64 l)) (drop 64 l) end
  end.

Definition sha256 (msg : bytes) : bytes :=
  let padded := pad msg in
  to_array 32 (mjoin (be_bytes 4 <$> blocks (length padded / 64)%nat H0 padded)).

(** FIPS 180-4 test vector and the empty message. *)
Example sha256_abc :
  be_val (sha256 (bs "abc"))
  = 0xba7816bf8f01cfea414140de5dae2223b00361a396177a9cb410ff61f20015ad.
Proof. vm_compute. reflexivity. Qed.

Example sha256_two_blocks :
  be_val (sha256 (bs "abcdbcdecdefdefgefghfghighijhijkijkljklmklmnlmnomnopnopq"))
  = 0x248d6a61d20638b8e5c026930c3e6039a33ce45964ff2167f6ecedd419db06c1.
Proof. vm_compute. reflexivity. Qed.

Lemma length_sha256 msg : length (sha256 msg) = 32%nat.
Proof. apply length_to_array. Qed.
End Sha256.
