(* ===== verification/Pow.v ===== *)
(** * Difficulty arithmetic (core/pow.go)

    Compact targets, chain work, the ASERT target of [calculateASERTTarget] and
    the retarget rule [NextBits].  [big.Int] values are [Z]; the fields that Go
    keeps in [uint32] and [int64] are reduced with [u32] and [i64] where the
    source can leave the width. *)
From S2P Require Import Prelude Params.

(** [len(t.Bytes())] and [t.BitLen()] of a [big.Int]. *)
Definition bytelen (t : Z) : Z := if t <=? 0 then 0 else Z.log2 t / 8 + 1.
Definition BitLen (t : Z) : Z := if Z.abs t =? 0 then 0 else Z.log2 (Z.abs t) + 1.

Definition CompactToTarget (bits : Z) : Z :=
  let size := Z.shiftr bits 24 in
  let mant := Z.land bits 0x007fffff in
  if size <=? 3 then Z.shiftr mant (8 * (3 - size))
  else Z.shiftl mant (8 * (size - 3)).

Definition TargetToCompact (t : Z) : Z :=
  if t <=? 0 then 0
  else
    let size := u32 (bytelen t) in
    let mant :=
      if size <=? 3 then u32 (Z.shiftl (u32 (u64 t)) (8 * (3 - size)))
      else u32 (u64 (Z.shiftr t (8 * (size - 3)))) in
    let '(mant, size) :=
      if negb (Z.land mant 0x00800000 =? 0) then (Z.shiftr mant 8, u32 (size + 1))
      else (mant, size) in
    Z.lor (u32 (Z.shiftl size 24)) (Z.land mant 0x007fffff).

Definition MaxTarget (p : Params) : Z := CompactToTarget (MaxTargetBits p).

Definition WorkFromTarget (target : Z) : Z := 2 ^ 256 / (target + 1).

(** The aserti3 cubic: [65536 * 2^(frac/65536)] for [0 <= frac < 65536]. *)
Definition asert_factor (frac : Z) : Z :=
  let fracSquared := frac * frac in
  let fracCubed := fracSquared * frac in
  let num := 195766423245049 * frac + 971821376 * fracSquared + 5127 * fracCubed
             + Z.shiftl 1 47 in
  Z.shiftr num 48 + 65536.

Definition calculateASERTTarget
    (refTarget targetSpacing timeDiff heightDiff halfLife maxTarget : Z) : Z :=
  if refTarget <=? 0 then 1
  else if maxTarget <=? 0 then 1
  else if (halfLife <=? 0) || (targetSpacing <=? 0) || (heightDiff <? 0) then
    if refTarget >? maxTarget then maxTarget else refTarget
  else
    let scheduled := (heightDiff + 1) * targetSpacing in
    let exponentBig := Z.quot ((timeDiff - scheduled) * 65536) halfLife in
    if negb (bool_decide (in_i64 exponentBig)) then
      if exponentBig <? 0 then 1 else maxTarget
    else
      let exponent := exponentBig in
      let shifts := Z.quot exponent 65536 in
      let frac := Z.rem exponent 65536 in
      let '(shifts, frac) :=
        if frac <? 0 then (shifts - 1, frac + 65536) else (shifts, frac) in
      let nextTarget := refTarget * asert_factor frac in
      let shifts := shifts - 16 in
      if (0 <? shifts) && (shifts >? BitLen maxTarget + 17) then maxTarget
      else
        let nextTarget :=
          if shifts <=? 0 then
            let right := - shifts in
            if right >=? BitLen nextTarget then 0 else Z.shiftr nextTarget right
          else Z.shiftl nextTarget shifts in
        if nextTarget =? 0 then 1
        else if nextTarget >? maxTarget then maxTarget
        else nextTarget.

Definition asertActive (p : Params) (height : Z) : bool :=
  (ASERTActivationHeight p >? 0) && (height >=? ASERTActivationHeight p).

(** [bitsAt] and [timeAt] are the ancestor accessors; they panic (through the
    caller's nil dereference) on a height that is not on the branch. *)
Definition NextBits (p : Params) (height : Z)
    (bitsAt timeAt : Z -> result Z) : result Z :=
  if height =? 0 then Ok (MaxTargetBits p)
  else if asertActive p height then
    let anchorHeight := ASERTActivationHeight p - 1 in
    let parentHeight := height - 1 in
    anchorBits ← bitsAt anchorHeight;
    parentTime ← timeAt parentHeight;
    anchorTime ← timeAt (anchorHeight - 1);
    let target := calculateASERTTarget (CompactToTarget anchorBits)
      (TargetBlockTime p) (i64 (parentTime - anchorTime))
      (parentHeight - anchorHeight) (ASERTHalfLife p) (MaxTarget p) in
    Ok (TargetToCompact target)
  else
    let prev := height - 1 in
    if RetargetInterval p =? 0 then Err (EPanic "integer divide by zero")
    else if negb (Z.rem height (RetargetInterval p) =? 0) then bitsAt prev
    else
      let first := height - RetargetInterval p in
      prevTime ← timeAt prev;
      firstTime ← timeAt first;
      let actual := i64 (prevTime - firstTime) in
      let expected := i64 (TargetBlockTime p * i64 (RetargetInterval p - 1)) in
      let expected := if expected <=? 0 then 1 else expected in
      let actual := if actual <? Z.quot expected 4 then Z.quot expected 4 else actual in
      let actual := if actual >? i64 (expected * 4) then i64 (expected * 4) else actual in
      prevBits ← bitsAt prev;
      let newT := CompactToTarget prevBits * actual / expected in
      let maxT := MaxTarget p in
      let newT := if newT >? maxT then maxT else newT in
      Ok (TargetToCompact newT).

(** ** Compact encoding *)
Lemma bytelen_bounds t : 0 < t -> 256 ^ (bytelen t - 1) <= t < 256 ^ bytelen t.
Proof.
  intros Ht. unfold bytelen. destruct (Z.leb_spec t 0); [lia|].
  pose proof (Z.log2_nonneg t). pose proof (Z.log2_spec t Ht) as [Hlo Hhi].
  replace (Z.log2 t / 8 + 1 - 1) with (Z.log2 t / 8) by lia.
  change 256 with (2 ^ 8). rewrite <- !Z.pow_mul_r by mlia. split.
  - transitivity (2 ^ Z.log2 t); [|done]. apply Z.pow_le_mono_r; mlia.
  - eapply Z.lt_le_trans; [exact Hhi|]. apply Z.pow_le_mono_r; mlia.
Qed.

Lemma bytelen_pos t : 0 < t -> 0 < bytelen t.
Proof.
  intros Ht. unfold bytelen. destruct (Z.leb_spec t 0); [lia|].
  pose proof (Z.log2_nonneg t). mlia.
Qed.

Lemma bytelen_le t n : 0 <= n -> t < 256 ^ n -> bytelen t <= n.
Proof.
  intros Hn Ht. destruct (Z.leb_spec t 0) as [H0|H0].
  - unfold bytelen. destruct (Z.leb_spec t 0); lia.
  - pose proof (bytelen_bounds t H0) as [Hlo _].
    pose proof (bytelen_pos t H0).
    destruct (Z.le_gt_cases (bytelen t) n) as [|Hgt]; [done|exfalso].
    assert (256 ^ n <= 256 ^ (bytelen t - 1)) by (apply Z.pow_le_mono_r; lia). lia.
Qed.

(** Bit 23 of a 24-bit mantissa. *)
Lemma land_bit23 m : 0 <= m < 2 ^ 24 -> (Z.land m 0x00800000 =? 0) = (m <? 2 ^ 23).
Proof.
  intros Hm. change 0x00800000 with (2 ^ 23).
  assert (Hland : Z.land m (2 ^ 23) = if Z.testbit m 23 then 2 ^ 23 else 0).
  { apply Z.bits_inj'. intros n Hn. rewrite Z.land_spec, Z.pow2_bits_eqb by lia.
    destruct (Z.eqb_spec 23 n) as [<-|Hne].
    - rewrite andb_true_r. destruct (Z.testbit m 23);
        [by rewrite Z.pow2_bits_true|by rewrite Z.bits_0].
    - rewrite andb_false_r. destruct (Z.testbit m 23);
        [rewrite Z.pow2_bits_false by lia|rewrite Z.bits_0]; done. }
  assert (Hb : Z.testbit m 23 = true <-> 2 ^ 23 <= m).
  { rewrite Z.testbit_true by lia. split; intros; mlia. }
  rewrite Hland. destruct (Z.ltb_spec m (2 ^ 23)), (Z.testbit m 23); try done.
  - exfalso. pose proof (proj1 Hb eq_refl). lia.
  - exfalso. by assert (false = true) by by apply Hb.
Qed.

Lemma land_mask23 m : Z.land m 0x007fffff = m mod 2 ^ 23.
Proof. change 0x007fffff with (Z.ones 23). by rewrite Z.land_ones by lia. Qed.

(** Decoding of a (size, mantissa) pair. *)
Lemma CompactToTarget_pair s m :
  0 <= s -> 0 <= m < 2 ^ 23 ->
  CompactToTarget (s * 2 ^ 24 + m) =
    if s <=? 3 then m / 256 ^ (3 - s) else m * 256 ^ (s - 3).
Proof.
  intros Hs Hm. unfold CompactToTarget.
  assert (Z.shiftr (s * 2 ^ 24 + m) 24 = s) as ->.
  { rewrite Z.shiftr_div_pow2 by lia. mlia. }
  assert (Z.land (s * 2 ^ 24 + m) 0x007fffff = m) as ->.
  { rewrite land_mask23. mlia. }
  destruct (Z.leb_spec s 3).
  - rewrite Z.shiftr_div_pow2 by lia. by rewrite Z.pow_mul_r by lia.
  - rewrite Z.shiftl_mul_pow2 by lia. by rewrite Z.pow_mul_r by lia.
Qed.

(** [TargetToCompact] picks the canonical pair: a mantissa in [2^15, 2^23) which
    is the leading part of the target. *)
Lemma TargetToCompact_pair t :
  0 < t < 256 ^ 254 ->
  exists s m, TargetToCompact t = s * 2 ^ 24 + m /\ 1 <= s <= 255 /\
    2 ^ 15 <= m < 2 ^ 23 /\ m = t * 256 ^ 3 / 256 ^ s.
Proof.
  intros Ht. pose proof (bytelen_bounds t ltac:(lia)) as [Hlo Hhi].
  pose proof (bytelen_pos t ltac:(lia)). pose proof (bytelen_le t 254 ltac:(lia) ltac:(lia)).
  unfold TargetToCompact. destruct (Z.leb_spec t 0); [lia|].
  rewrite (u32_small (bytelen t)) by (unfold in_u32, two32; lia).
  set (s0 := bytelen t) in *.
  set (m0 := t * 256 ^ 3 / 256 ^ s0).
  assert (Hm0 : 2 ^ 16 <= m0 < 2 ^ 24).
  { assert (256 ^ s0 = 256 * 256 ^ (s0 - 1)) as Hs0
      by (rewrite <- Z.pow_succ_r by lia; f_equal; lia).
    pose proof (Z.pow_pos_nonneg 256 (s0 - 1) ltac:(lia) ltac:(lia)).
    change (256 ^ 3) with 16777216 in *. subst m0. split.
    - apply Z.div_le_lower_bound; nia.
    - apply Z.div_lt_upper_bound; nia. }
  assert ((if s0 <=? 3 then u32 (Z.shiftl (u32 (u64 t)) (8 * (3 - s0)))
           else u32 (u64 (Z.shiftr t (8 * (s0 - 3))))) = m0) as ->.
  { destruct (Z.leb_spec s0 3) as [H3|H3].
    - assert (t < 256 ^ 3) by (eapply Z.lt_le_trans; [exact Hhi|apply Z.pow_le_mono_r; lia]).
      rewrite (u64_small t) by (unfold in_u64, two64; lia).
      rewrite (u32_small t) by (unfold in_u32, two32; lia).
      rewrite Z.shiftl_mul_pow2, Z.pow_mul_r by lia. change (2 ^ 8) with 256.
      assert (m0 = t * 256 ^ (3 - s0)) as <-.
      { subst m0. replace 3 with ((3 - s0) + s0) at 1 by lia.
        rewrite Z.pow_add_r, Z.mul_assoc by lia. apply Z.div_mul.
        pose proof (Z.pow_pos_nonneg 256 s0); lia. }
      apply u32_small. unfold in_u32, two32. lia.
    - rewrite Z.shiftr_div_pow2, Z.pow_mul_r by lia. change (2 ^ 8) with 256.
      assert (m0 = t / 256 ^ (s0 - 3)) as <-.
      { subst m0. replace (256 ^ s0) with (256 ^ (s0 - 3) * 256 ^ 3)
          by (rewrite <- Z.pow_add_r by lia; f_equal; lia).
        apply Z.div_mul_cancel_r; [|lia]. pose proof (Z.pow_pos_nonneg 256 (s0 - 3)); lia. }
      rewrite u64_small by (unfold in_u64, two64; lia).
      apply u32_small. unfold in_u32, two32. lia. }
  rewrite land_bit23 by lia. destruct (Z.ltb_spec m0 (2 ^ 23)); cbn [negb].
  - exists s0, m0. rewrite land_mask23, (Z.mod_small m0) by lia.
    rewrite Z.shiftl_mul_pow2 by lia. rewrite u32_small by (unfold in_u32, two32; lia).
    rewrite lor_disjoint_add by lia. repeat split; lia.
  - exists (s0 + 1), (m0 / 256). rewrite Z.shiftr_div_pow2 by lia. change (2 ^ 8) with 256.
    rewrite land_mask23, (Z.mod_small (m0 / 256)) by mlia.
    rewrite (u32_small (s0 + 1)) by (unfold in_u32, two32; lia).
    rewrite Z.shiftl_mul_pow2 by lia. rewrite u32_small by (unfold in_u32, two32; lia).
    rewrite lor_disjoint_add by mlia. repeat split; [lia..|mlia|mlia|].
    subst m0. rewrite Z.div_div by (pose proof (Z.pow_pos_nonneg 256 s0); lia).
    by rewrite Z.pow_add_r by lia.
Qed.

(** Compaction rounds down, by less than one part in 2^15, and never to zero. *)
Lemma compact_round t :
  0 < t < 256 ^ 254 ->
  let t' := CompactToTarget (TargetToCompact t) in
  0 < t' <= t /\ (t - t') * 2 ^ 15 < t' + 1.
Proof.
  intros Ht t'. destruct (TargetToCompact_pair t Ht) as (s & m & Hb & Hs & Hm & Hmt).
  subst t'. rewrite Hb, CompactToTarget_pair by lia.
  destruct (Z.leb_spec s 3).
  - assert (Hm2 : m = t * 256 ^ (3 - s)).
    { rewrite Hmt. replace 3 with ((3 - s) + s) at 1 by lia.
      rewrite Z.pow_add_r, Z.mul_assoc by lia. apply Z.div_mul.
      pose proof (Z.pow_pos_nonneg 256 s); lia. }
    rewrite Hm2, Z.div_mul by (pose proof (Z.pow_pos_nonneg 256 (3 - s)); lia). lia.
  - assert (Hm2 : m = t / 256 ^ (s - 3)).
    { rewrite Hmt. replace (256 ^ s) with (256 ^ (s - 3) * 256 ^ 3)
        by (rewrite <- Z.pow_add_r by lia; f_equal; lia).
      apply Z.div_mul_cancel_r; [|lia]. pose proof (Z.pow_pos_nonneg 256 (s - 3)); lia. }
    pose proof (Z.pow_pos_nonneg 256 (s - 3) ltac:(lia) ltac:(lia)).
    set (q := 256 ^ (s - 3)) in *. clearbody q.
    assert (m * q <= t < m * q + q) by (subst m; mnia). nia.
Qed.

(** Canonical bits survive the round trip. *)
Lemma compact_canonical s m :
  3 <= s <= 254 -> 2 ^ 15 <= m < 2 ^ 23 ->
  TargetToCompact (CompactToTarget (s * 2 ^ 24 + m)) = s * 2 ^ 24 + m.
Proof.
  intros Hs Hm. rewrite CompactToTarget_pair by lia.
  assert ((if s <=? 3 then m / 256 ^ (3 - s) else m * 256 ^ (s - 3)) = m * 256 ^ (s - 3)) as ->.
  { destruct (Z.leb_spec s 3); [|done]. replace s with 3 by lia.
    change (256 ^ (3 - 3)) with 1. by rewrite Z.div_1_r, Z.mul_1_r. }
  pose proof (Z.pow_pos_nonneg 256 (s - 3) ltac:(lia) ltac:(lia)) as Hq.
  assert (256 ^ s = 256 ^ (s - 3) * 2 ^ 24) as Hp.
  { change (2 ^ 24) with (256 ^ 3). rewrite <- Z.pow_add_r by lia. f_equal; lia. }
  assert (256 ^ s <= 256 ^ 254) by (apply Z.pow_le_mono_r; lia).
  assert (Ht : 0 < m * 256 ^ (s - 3) < 256 ^ 254) by nia.
  destruct (TargetToCompact_pair _ Ht) as (s' & m' & -> & Hs' & Hm' & Heq).
  set (q := 256 ^ (s - 3)) in *.
  assert (s' = s) as ->.
  { destruct (Z.lt_trichotomy s' s) as [Hlt|[?|Hgt]]; [exfalso|done|exfalso].
    - assert (256 ^ s = 256 ^ s' * 256 ^ (s - s')) as Hps
        by (rewrite <- Z.pow_add_r by lia; f_equal; lia).
      assert (256 <= 256 ^ (s - s'))
        by (change 256 with (256 ^ 1) at 1; apply Z.pow_le_mono_r; lia).
      pose proof (Z.pow_pos_nonneg 256 s' ltac:(lia) ltac:(lia)).
      assert (2 ^ 23 <= m'); [|lia]. rewrite Heq. change (256 ^ 3) with (2 ^ 24).
      apply Z.div_le_lower_bound; [lia|].
      assert (256 ^ s' * 256 <= 256 ^ s) by nia. nia.
    - assert (256 ^ s' = 256 ^ s * 256 ^ (s' - s)) as Hps
        by (rewrite <- Z.pow_add_r by lia; f_equal; lia).
      assert (256 <= 256 ^ (s' - s))
        by (change 256 with (256 ^ 1) at 1; apply Z.pow_le_mono_r; lia).
      assert (m' < 2 ^ 15); [|lia]. rewrite Heq. change (256 ^ 3) with (2 ^ 24).
      apply Z.div_lt_upper_bound; [lia|].
      assert (256 ^ s * 256 <= 256 ^ s') by nia. nia. }
  f_equal. rewrite Heq, Hp. change (256 ^ 3) with (2 ^ 24).
  replace (m * q * 2 ^ 24) with (m * (q * 2 ^ 24)) by ring.
  by rewrite Z.div_mul by nia.
Qed.

(** ** Work *)
Lemma WorkFromTarget_pos t : 0 <= t < 2 ^ 256 -> 1 <= WorkFromTarget t.
Proof. intros Ht. unfold WorkFromTarget. apply Z.div_le_lower_bound; lia. Qed.

Lemma WorkFromTarget_nonneg t : 0 <= t -> 0 <= WorkFromTarget t.
Proof. intros Ht. unfold WorkFromTarget. apply Z.div_pos; lia. Qed.

Lemma WorkFromTarget_antitone t1 t2 :
  0 <= t1 <= t2 -> WorkFromTarget t2 <= WorkFromTarget t1.
Proof. intros Ht. unfold WorkFromTarget. apply Z.div_le_compat_l; lia. Qed.

(** ** ASERT *)
Lemma asert_factor_0 : asert_factor 0 = 65536.
Proof. reflexivity. Qed.

Lemma asert_factor_mono f1 f2 : 0 <= f1 <= f2 -> asert_factor f1 <= asert_factor f2.
Proof.
  intros Hf. unfold asert_factor. rewrite !Z.shiftr_div_pow2 by lia.
  apply Z.add_le_mono_r, Z.div_le_mono; [lia|].
  assert (f1 * f1 <= f2 * f2) by nia.
  assert (f1 * f1 * f1 <= f2 * f2 * f2) by nia. lia.
Qed.

Lemma asert_factor_bounds f : 0 <= f < 65536 -> 65536 <= asert_factor f <= 131072.
Proof.
  intros Hf. split.
  - rewrite <- asert_factor_0. apply asert_factor_mono. lia.
  - transitivity (asert_factor 65535); [apply asert_factor_mono; lia|].
    vm_compute. done.
Qed.

(** The unclamped target as a function of the fixed-point exponent. *)
Definition asert_raw (refTarget e : Z) : Z :=
  Z.shiftl (refTarget * asert_factor (e mod 65536)) (e / 65536 - 16).

Definition asert_exponent (targetSpacing timeDiff heightDiff halfLife : Z) : Z :=
  Z.quot ((timeDiff - (heightDiff + 1) * targetSpacing) * 65536) halfLife.

Lemma BitLen_shiftr n k : 0 <= n -> 0 <= k ->
  (if k >=? BitLen n then 0 else Z.shiftr n k) = Z.shiftr n k.
Proof.
  intros Hn Hk. rewrite Z.geb_leb. destruct (Z.leb_spec (BitLen n) k) as [H|H]; [|done].
  unfold BitLen in H. rewrite Z.abs_eq in H by done.
  destruct (Z.eqb_spec n 0) as [->|]; [by rewrite Z.shiftr_0_l|].
  rewrite Z.shiftr_eq_0; [done..|lia].
Qed.

Lemma BitLen_lt n : 0 < n -> n < 2 ^ BitLen n.
Proof.
  intros Hn. unfold BitLen. rewrite Z.abs_eq by lia.
  destruct (Z.eqb_spec n 0); [lia|]. by apply Z.log2_spec.
Qed.

Lemma asert_raw_nonneg r e : 0 <= r -> 0 <= asert_raw r e.
Proof.
  intros Hr. apply Z.shiftl_nonneg. pose proof (Z.mod_pos_bound e 65536 ltac:(lia)).
  pose proof (asert_factor_bounds (e mod 65536) ltac:(lia)). nia.
Qed.

(** A target large enough saturates: [ref * factor * 2^s] exceeds [max]. *)
Lemma asert_raw_large r e max :
  0 < r -> 0 < max -> BitLen max + 17 < e / 65536 - 16 -> max < asert_raw r e.
Proof.
  intros Hr Hmax He. unfold asert_raw.
  assert (0 <= BitLen max) by (unfold BitLen; pose proof (Z.log2_nonneg (Z.abs max));
    destruct (_ =? _); lia).
  rewrite Z.shiftl_mul_pow2 by lia.
  pose proof (Z.mod_pos_bound e 65536 ltac:(lia)).
  pose proof (asert_factor_bounds (e mod 65536) ltac:(lia)).
  pose proof (BitLen_lt max Hmax).
  assert (2 ^ BitLen max <= 2 ^ (e / 65536 - 16)) by (apply Z.pow_le_mono_r; lia).
  apply Z.lt_le_trans with (1 * 2 ^ (e / 65536 - 16)); [lia|].
  apply Z.mul_le_mono_nonneg_r; nia.
Qed.

Lemma asert_raw_small r e :
  0 < r < 2 ^ 256 -> e / 65536 < -300 -> asert_raw r e = 0.
Proof.
  intros Hr He. unfold asert_raw.
  rewrite Z.shiftl_div_pow2 by lia. apply Z.div_small.
  pose proof (Z.mod_pos_bound e 65536 ltac:(lia)).
  pose proof (asert_factor_bounds (e mod 65536) ltac:(lia)).
  split; [nia|].
  assert (2 ^ 300 <= 2 ^ (- (e / 65536 - 16))) by (apply Z.pow_le_mono_r; lia). nia.
Qed.

Definition clamp_target (raw max : Z) : Z :=
  if raw =? 0 then 1 else Z.min raw max.

(** The sign adjustment after Go's truncated division is the floored split. *)
Lemma floor_split e :
  (if Z.rem e 65536 <? 0 then (Z.quot e 65536 - 1, Z.rem e 65536 + 65536)
   else (Z.quot e 65536, Z.rem e 65536)) = (e / 65536, e mod 65536).
Proof.
  pose proof (Z.quot_rem' e 65536). pose proof (Z.rem_bound_abs e 65536 ltac:(lia)).
  destruct (Z.ltb_spec (Z.rem e 65536) 0); f_equal; mlia.
Qed.

(** The branches of the Go code compute one formula: the raw target clamped
    to [1, maxTarget]. *)
Lemma calculateASERTTarget_formula ref spacing dt dh hl max :
  0 < ref < 2 ^ 256 -> 0 < max < 2 ^ 256 -> 0 < hl -> 0 < spacing -> 0 <= dh ->
  calculateASERTTarget ref spacing dt dh hl max
  = clamp_target (asert_raw ref (asert_exponent spacing dt dh hl)) max.
Proof.
  intros Hr Hmax Hhl Hsp Hdh. unfold calculateASERTTarget.
  destruct (Z.leb_spec ref 0); [lia|]. destruct (Z.leb_spec max 0); [lia|].
  destruct (Z.leb_spec hl 0); [lia|]. destruct (Z.leb_spec spacing 0); [lia|].
  destruct (Z.ltb_spec dh 0); [lia|]. cbn [orb].
  fold (asert_exponent spacing dt dh hl). set (e := asert_exponent spacing dt dh hl).
  clearbody e.
  assert (Hbl : 0 <= BitLen max <= 256).
  { unfold BitLen. rewrite Z.abs_eq by lia. destruct (Z.eqb_spec max 0); [lia|].
    pose proof (Z.log2_nonneg max). pose proof (Z.log2_lt_pow2 max 256 ltac:(lia)). lia. }
  case_bool_decide as Hi; cbn [negb].
  - rewrite floor_split. set (sh := e / 65536 - 16).
    destruct ((0 <? sh) && (sh >? BitLen max + 17)) eqn:E.
    + bool_prop. pose proof (asert_raw_large ref e max ltac:(lia) ltac:(lia) ltac:(lia)).
      unfold clamp_target. destruct (Z.eqb_spec (asert_raw ref e) 0); lia.
    + assert ((if sh <=? 0 then
                 if - sh >=? BitLen (ref * asert_factor (e mod 65536)) then 0
                 else Z.shiftr (ref * asert_factor (e mod 65536)) (- sh)
               else Z.shiftl (ref * asert_factor (e mod 65536)) sh) = asert_raw ref e) as ->.
      { pose proof (Z.mod_pos_bound e 65536 ltac:(lia)).
        pose proof (asert_factor_bounds (e mod 65536) ltac:(lia)).
        destruct (Z.leb_spec sh 0); [|done].
        rewrite BitLen_shiftr by nia. unfold asert_raw. fold sh.
        by rewrite Z.shiftr_opp_r. }
      unfold clamp_target. rewrite Z.gtb_ltb.
      destruct (Z.eqb_spec (asert_raw ref e) 0); [done|].
      destruct (Z.ltb_spec max (asert_raw ref e)); lia.
  - unfold in_i64, two63 in Hi. unfold clamp_target. destruct (Z.ltb_spec e 0).
    + rewrite asert_raw_small; [done|lia|mlia].
    + pose proof (asert_raw_large ref e max ltac:(lia) ltac:(lia) ltac:(mlia)).
      destruct (Z.eqb_spec (asert_raw ref e) 0); lia.
Qed.

Lemma shiftl_mono a b k : a <= b -> Z.shiftl a k <= Z.shiftl b k.
Proof.
  intros Hab. destruct (Z.le_gt_cases 0 k).
  - rewrite !Z.shiftl_mul_pow2 by done. apply Z.mul_le_mono_nonneg_r; [|done].
    by apply Z.pow_nonneg.
  - rewrite !Z.shiftl_div_pow2 by lia. apply Z.div_le_mono; [|done].
    apply Z.pow_pos_nonneg; lia.
Qed.

Lemma asert_raw_succ r e : 0 < r -> asert_raw r e <= asert_raw r (e + 1).
Proof.
  intros Hr. unfold asert_raw.
  pose proof (Z.mod_pos_bound e 65536 ltac:(lia)).
  destruct (Z.eq_dec (e mod 65536) 65535) as [E|E].
  - replace ((e + 1) mod 65536) with 0 by mlia.
    replace ((e + 1) / 65536 - 16) with (1 + (e / 65536 - 16)) by mlia.
    rewrite asert_factor_0, <- Z.shiftl_shiftl by lia. apply shiftl_mono.
    pose proof (asert_factor_bounds (e mod 65536) ltac:(lia)).
    rewrite Z.shiftl_mul_pow2 by lia. nia.
  - replace ((e + 1) mod 65536) with (e mod 65536 + 1) by mlia.
    replace ((e + 1) / 65536) with (e / 65536) by mlia.
    apply shiftl_mono, Z.mul_le_mono_nonneg_l; [lia|]. apply asert_factor_mono. lia.
Qed.

Lemma asert_raw_mono r e1 e2 : 0 < r -> e1 <= e2 -> asert_raw r e1 <= asert_raw r e2.
Proof.
  intros Hr He. replace e2 with (e1 + (e2 - e1)) by lia.
  assert (Hd : 0 <= e2 - e1) by lia. revert Hd. generalize (e2 - e1) as d.
  apply natlike_ind; [by rewrite Z.add_0_r|]. intros d Hd IH.
  etransitivity; [exact IH|]. replace (e1 + Z.succ d) with (e1 + d + 1) by lia.
  by apply asert_raw_succ.
Qed.

Lemma clamp_target_mono r1 r2 max :
  0 <= r1 <= r2 -> 0 < max -> clamp_target r1 max <= clamp_target r2 max.
Proof.
  intros Hr Hmax. unfold clamp_target.
  destruct (Z.eqb_spec r1 0), (Z.eqb_spec r2 0); lia.
Qed.

(** Whatever the inputs, the result is a usable target. *)
Lemma calculateASERTTarget_range ref spacing dt dh hl max :
  0 < max ->
  1 <= calculateASERTTarget ref spacing dt dh hl max <= max.
Proof.
  intros Hmax. unfold calculateASERTTarget.
  destruct (Z.leb_spec ref 0); [lia|]. destruct (Z.leb_spec max 0); [lia|].
  destruct (_ || _).
  { rewrite Z.gtb_ltb. destruct (Z.ltb_spec max ref); lia. }
  destruct (negb _).
  { destruct (_ <? _); lia. }
  rewrite floor_split. set (e := Z.quot _ hl).
  destruct (_ && _); [lia|]. set (raw := if e / 65536 - 16 <=? 0 then _ else _).
  assert (0 <= raw).
  { pose proof (Z.mod_pos_bound e 65536 ltac:(lia)).
    pose proof (asert_factor_bounds (e mod 65536) ltac:(lia)).
    subst raw. destruct (_ <=? _); [destruct (_ >=? _); [done|]|];
      [apply Z.shiftr_nonneg|apply Z.shiftl_nonneg]; nia. }
  destruct (Z.eqb_spec raw 0); [lia|]. rewrite Z.gtb_ltb.
  destruct (Z.ltb_spec max raw); lia.
Qed.

Lemma calculateASERTTarget_mono ref spacing dt1 dt2 dh hl max :
  0 < ref < 2 ^ 256 -> 0 < max < 2 ^ 256 -> 0 < hl -> 0 < spacing -> 0 <= dh ->
  dt1 <= dt2 ->
  calculateASERTTarget ref spacing dt1 dh hl max
  <= calculateASERTTarget ref spacing dt2 dh hl max.
Proof.
  intros. rewrite !calculateASERTTarget_formula by done.
  apply clamp_target_mono; [|lia]. split; [apply asert_raw_nonneg; lia|].
  apply asert_raw_mono; [lia|]. unfold asert_exponent. apply Z.quot_le_mono; [lia|].
  apply Z.mul_le_mono_nonneg_r; lia.
Qed.

(** Exponents that are whole half-lives. *)
Lemma asert_exponent_halflives spacing dh hl n :
  0 < hl -> asert_exponent spacing ((dh + 1) * spacing + n * hl) dh hl = n * 65536.
Proof.
  intros Hhl. unfold asert_exponent.
  replace ((dh + 1) * spacing + n * hl - (dh + 1) * spacing) with (n * hl) by lia.
  replace (n * hl * 65536) with (n * 65536 * hl) by ring. apply Z.quot_mul. lia.
Qed.

Lemma asert_raw_halflives r n : asert_raw r (n * 65536) = Z.shiftl r n.
Proof.
  unfold asert_raw. rewrite Z.mod_mul, Z.div_mul, asert_factor_0 by lia.
  change 65536 with (2 ^ 16). rewrite <- Z.shiftl_mul_pow2 by lia.
  rewrite Z.shiftl_shiftl by lia. f_equal. lia.
Qed.

Lemma calculateASERTTarget_halflives ref spacing dh hl max n :
  0 < ref < 2 ^ 256 -> 0 < max < 2 ^ 256 -> 0 < hl -> 0 < spacing -> 0 <= dh ->
  calculateASERTTarget ref spacing ((dh + 1) * spacing + n * hl) dh hl max
  = clamp_target (Z.shiftl ref n) max.
Proof.
  intros. rewrite calculateASERTTarget_formula by done.
  by rewrite asert_exponent_halflives, asert_raw_halflives by done.
Qed.

(** ** The retarget rule *)
Definition target_ok (p : Params) (bits : Z) : Prop :=
  0 <= CompactToTarget bits <= MaxTarget p.

(** What the difficulty rules need of a parameter set; both networks have it. *)
Record pow_params_ok (p : Params) : Prop := {
  ppo_max : 0 < MaxTarget p < 2 ^ 256;
  ppo_interval : 0 < RetargetInterval p < 2 ^ 30;
  ppo_spacing : 0 < TargetBlockTime p < 2 ^ 30;
}.

Lemma pow_params_ok_main : pow_params_ok MainNet.
Proof. split; vm_compute; split; congruence. Qed.
Lemma pow_params_ok_reg : pow_params_ok RegTest.
Proof. split; vm_compute; split; congruence. Qed.
#[export] Hint Resolve pow_params_ok_main pow_params_ok_reg : btc.

Lemma TargetToCompact_ok p t :
  pow_params_ok p -> 0 <= t <= MaxTarget p -> target_ok p (TargetToCompact t).
Proof.
  intros [[Hp1 Hp2] _ _] Ht. unfold target_ok.
  destruct (Z.eq_dec t 0) as [->|Hne]; [change (CompactToTarget _) with 0; lia|].
  assert (2 ^ 256 < 256 ^ 254) by (vm_compute; done).
  pose proof (compact_round t ltac:(lia)) as [? _]. lia.
Qed.

Lemma target_ok_work p b : pow_params_ok p -> target_ok p b ->
  1 <= WorkFromTarget (CompactToTarget b).
Proof. intros [? _ _] ?. apply WorkFromTarget_pos. unfold target_ok in *. lia. Qed.

(** The legacy rule on a retarget height, with the clamps of the source. *)
Definition expected_span (p : Params) : Z :=
  Z.max 1 (TargetBlockTime p * (RetargetInterval p - 1)).

Definition clamp_span (expected actual : Z) : Z :=
  Z.min (expected * 4) (Z.max (expected / 4) actual).

Definition retarget (p : Params) (old actual : Z) : Z :=
  Z.min (MaxTarget p) (old * clamp_span (expected_span p) actual / expected_span p).

Lemma expected_span_bounds p : pow_params_ok p -> 1 <= expected_span p < 2 ^ 60.
Proof. intros [_ ? ?]. unfold expected_span. nia. Qed.

Lemma clamp_span_nonneg e a : 0 <= e -> 0 <= clamp_span e a.
Proof. intros. unfold clamp_span. mlia. Qed.

Lemma NextBits_legacy p height bitsAt timeAt :
  pow_params_ok p -> height <> 0 -> asertActive p height = false ->
  NextBits p height bitsAt timeAt =
    if negb (Z.rem height (RetargetInterval p) =? 0) then bitsAt (height - 1)
    else
      prevTime ← timeAt (height - 1);
      firstTime ← timeAt (height - RetargetInterval p);
      prevBits ← bitsAt (height - 1);
      Ok (TargetToCompact (retarget p (CompactToTarget prevBits) (i64 (prevTime - firstTime)))).
Proof.
  intros Hp Hh Ha. pose proof (expected_span_bounds p Hp) as He. destruct Hp as [_ Hi Hs].
  unfold NextBits. destruct (Z.eqb_spec height 0); [done|]. rewrite Ha.
  destruct (Z.eqb_spec (RetargetInterval p) 0); [lia|].
  destruct (negb _); [done|].
  rewrite (i64_small (RetargetInterval p - 1)) by (unfold in_i64, two63; lia).
  rewrite (i64_small (TargetBlockTime p * (RetargetInterval p - 1)))
    by (unfold in_i64, two63; nia).
  assert ((if TargetBlockTime p * (RetargetInterval p - 1) <=? 0 then 1
           else TargetBlockTime p * (RetargetInterval p - 1)) = expected_span p) as ->.
  { unfold expected_span. destruct (Z.leb_spec (TargetBlockTime p * (RetargetInterval p - 1)) 0);
      lia. }
  rewrite Z.quot_div_nonneg by lia.
  rewrite (i64_small (expected_span p * 4)) by (unfold in_i64, two63; lia).
  destruct (timeAt (height - 1)) as [t1|]; [|done]. cbn [mbind result_bind].
  destruct (timeAt (height - RetargetInterval p)) as [t2|]; [|done]. cbn [mbind result_bind].
  destruct (bitsAt (height - 1)) as [b|]; [|done]. cbn [mbind result_bind].
  generalize (i64 (t1 - t2)) as a. intros a. do 2 f_equal. unfold retarget, clamp_span.
  rewrite !Z.gtb_ltb.
  assert (Hc : (if expected_span p * 4 <? (if a <? expected_span p / 4
                  then expected_span p / 4 else a)
                then expected_span p * 4
                else if a <? expected_span p / 4 then expected_span p / 4 else a)
               = Z.min (expected_span p * 4) (Z.max (expected_span p / 4) a)).
  { destruct (Z.ltb_spec a (expected_span p / 4));
      match goal with |- context [?x <? ?y] => destruct (Z.ltb_spec x y) end; lia. }
  rewrite Hc. destruct (Z.ltb_spec (MaxTarget p)
    (CompactToTarget b * Z.min (expected_span p * 4) (Z.max (expected_span p / 4) a)
      / expected_span p)); lia.
Qed.

Lemma retarget_range p old a :
  pow_params_ok p -> 0 <= old -> 0 <= retarget p old a <= MaxTarget p.
Proof.
  intros Hp Ho. pose proof (expected_span_bounds p Hp). destruct Hp as [? _ _].
  unfold retarget.
  assert (0 <= old * clamp_span (expected_span p) a / expected_span p); [|lia].
  apply Z.div_pos; [|lia]. pose proof (clamp_span_nonneg (expected_span p) a). nia.
Qed.

(** The 4x clamp: between a quarter (of the quotient) and four times. *)
Lemma retarget_clamped p old a :
  pow_params_ok p -> 4 <= expected_span p -> expected_span p mod 4 = 0 ->
  0 <= old <= MaxTarget p ->
  old / 4 <= retarget p old a <= 4 * old.
Proof.
  intros Hp He4 Hmod Ho. pose proof (expected_span_bounds p Hp) as He.
  unfold retarget, clamp_span. set (e := expected_span p) in *. clearbody e.
  assert (Hq : e = 4 * (e / 4)) by mlia. set (q := e / 4) in *.
  set (c := Z.min (e * 4) (Z.max q a)).
  assert (Hc : q <= c <= 16 * q) by lia.
  assert (old / 4 <= old * c / e).
  { apply Z.div_le_lower_bound; [lia|]. mnia. }
  assert (old * c / e <= 4 * old).
  { apply Z.div_le_upper_bound; [lia|]. nia. }
  mlia.
Qed.

Lemma NextBits_target_ok p height bitsAt timeAt b :
  pow_params_ok p -> (forall h bits, bitsAt h = Ok bits -> target_ok p bits) ->
  NextBits p height bitsAt timeAt = Ok b -> target_ok p b.
Proof.
  intros Hp Hbits.
  destruct (Z.eq_dec height 0) as [->|Hh].
  { intros [= <-]. destruct Hp as [[? ?] _ _]. unfold target_ok, MaxTarget in *. lia. }
  destruct (asertActive p height) eqn:Ha.
  { unfold NextBits. rewrite Ha. destruct (Z.eqb_spec height 0); [done|].
    intros H. res_simpl. apply TargetToCompact_ok; [done|]. destruct Hp as [[? ?] _ _].
    match goal with |- 0 <= calculateASERTTarget ?a ?b ?c ?d ?e ?f <= _ =>
      pose proof (calculateASERTTarget_range a b c d e f) end. lia. }
  rewrite NextBits_legacy by done. destruct (negb _); [apply Hbits|].
  intros H. res_simpl.
  match goal with H : bitsAt _ = Ok _ |- _ => apply Hbits in H as Hold end.
  apply TargetToCompact_ok; [done|]. apply retarget_range; [done|].
  unfold target_ok in Hold. lia.
Qed.

Lemma asert_anchor p height :
  validateConsensusParams p = Ok tt -> asertActive p height = true ->
  2 <= ASERTActivationHeight p <= height.
Proof.
  unfold asertActive, validateConsensusParams. intros Hv Ha. bool_prop.
  destruct (Z.eqb_spec (ASERTActivationHeight p) 0); [lia|].
  destruct (Z.ltb_spec (ASERTActivationHeight p) 2); [done|lia].
Qed.

Lemma retarget_window p height :
  pow_params_ok p -> 0 < height -> Z.rem height (RetargetInterval p) = 0 ->
  0 <= height - RetargetInterval p < height.
Proof.
  intros [_ Hi _] Hh Er. rewrite Z.rem_mod_nonneg in Er by lia.
  apply Z.mod_divide in Er as [k ->]; [|lia]. assert (1 <= k) by nia. nia.
Qed.

(** The rule reads the branch only at heights below the new block: it is
    defined as soon as the branch is, and two branches that agree there have the
    same required difficulty. *)
Lemma NextBits_defined p height bitsAt timeAt :
  pow_params_ok p -> validateConsensusParams p = Ok tt -> 0 <= height ->
  (forall h, 0 <= h < height -> exists bits, bitsAt h = Ok bits) ->
  (forall h, 0 <= h < height -> exists t, timeAt h = Ok t) ->
  exists b, NextBits p height bitsAt timeAt = Ok b.
Proof.
  intros Hp Hv Hh Hb Ht. destruct (Z.eq_dec height 0) as [->|Hne]; [by eexists|].
  destruct (asertActive p height) eqn:Ha.
  - pose proof (asert_anchor _ _ Hv Ha).
    unfold NextBits. destruct (Z.eqb_spec height 0); [done|]. rewrite Ha.
    destruct (Hb (ASERTActivationHeight p - 1)) as [? ->]; [lia|].
    destruct (Ht (height - 1)) as [? ->]; [lia|].
    destruct (Ht (ASERTActivationHeight p - 1 - 1)) as [? ->]; [lia|]. by eexists.
  - rewrite NextBits_legacy by done.
    destruct (negb _) eqn:Er; [apply Hb; lia|]. bool_prop.
    pose proof (retarget_window p height Hp ltac:(lia) Er).
    destruct (Ht (height - 1)) as [? ->]; [lia|].
    destruct (Ht (height - RetargetInterval p)) as [? ->]; [lia|].
    destruct (Hb (height - 1)) as [? ->]; [lia|]. by eexists.
Qed.

Lemma NextBits_ext p height b1 t1 b2 t2 :
  pow_params_ok p -> validateConsensusParams p = Ok tt -> 0 <= height ->
  (forall h, 0 <= h < height -> b1 h = b2 h) -> (forall h, 0 <= h < height -> t1 h = t2 h) ->
  NextBits p height b1 t1 = NextBits p height b2 t2.
Proof.
  intros Hp Hv Hh Hb Ht. destruct (Z.eq_dec height 0) as [->|Hne]; [done|].
  destruct (asertActive p height) eqn:Ha.
  - pose proof (asert_anchor _ _ Hv Ha).
    unfold NextBits. destruct (Z.eqb_spec height 0); [done|]. rewrite Ha.
    rewrite Hb, !Ht by lia. done.
  - rewrite !NextBits_legacy by done. destruct (negb _) eqn:Er; [apply Hb; lia|]. bool_prop.
    pose proof (retarget_window p height Hp ltac:(lia) Er).
    rewrite Hb, !Ht by lia. done.
Qed.
