(* ===== verification/Wire.v ===== *)
(** * Wire encoding of transactions and blocks (core/tx.go, core/block.go)

    Data types of the ledger, their serialization and the decoders.  The
    [bytes.Reader] is its unread suffix.  [Read] keeps the Go contract: a short
    read is not an error, it fills a prefix of the zeroed destination; the fixed
    width reads of [encoding/binary] use [io.ReadFull] and do fail. *)
From S2P Require Import Prelude Params Crypto.

(** ** Data *)
Record OutPoint := mkOutPoint { op_TxID : Hash32; op_Idx : Z }.
Record TxIn := mkTxIn { in_Prev : OutPoint; in_PubKey : bytes; in_Sig : bytes }.
Record TxOut := mkTxOut { out_Value : Z; out_PubKeyHash : bytes }.
Record Tx := mkTx {
  tx_Version : Z; tx_Ins : list TxIn; tx_Outs : list TxOut; tx_LockTag : bytes }.
Record Header := mkHeader {
  hdr_Version : Z; hdr_PrevBlock : Hash32; hdr_MerkleRoot : Hash32;
  hdr_Time : Z; hdr_Bits : Z; hdr_Nonce : Z }.
Record Block := mkBlock { blk_Header : Header; blk_Txs : list Tx }.

#[global] Instance OutPoint_eq_dec : EqDecision OutPoint.
Proof. solve_decision. Defined.
#[global] Instance TxIn_eq_dec : EqDecision TxIn.
Proof. solve_decision. Defined.
#[global] Instance TxOut_eq_dec : EqDecision TxOut.
Proof. solve_decision. Defined.
#[global] Instance Tx_eq_dec : EqDecision Tx.
Proof. solve_decision. Defined.
#[global] Instance Header_eq_dec : EqDecision Header.
Proof. solve_decision. Defined.
#[global] Instance Block_eq_dec : EqDecision Block.
Proof. solve_decision. Defined.

#[global] Program Instance OutPoint_countable : Countable OutPoint :=
  inj_countable' (fun o => (op_TxID o, op_Idx o)) (fun '(t, i) => mkOutPoint t i) _.
Next Obligation. by intros []. Qed.

Definition IsCoinbase (t : Tx) : bool :=
  match tx_Ins t with
  | [i] => bool_decide (op_TxID (in_Prev i) = zeroHash) && (op_Idx (in_Prev i) =? 0xffffffff)
  | _ => false
  end.

(** ** Encoding *)

(** [binary.PutUvarint]; ten groups of seven bits hold any [uint64]. *)
Fixpoint uvarint_go (fuel : nat) (v : Z) : bytes :=
  match fuel with
  | O => []
  | S fuel' => if v <? 0x80 then [z2b v]
               else z2b (Z.lor v 0x80) :: uvarint_go fuel' (Z.shiftr v 7)
  end.

Definition putUvarint (v : Z) : bytes := uvarint_go 10 (u64 v).

Definition writeBytes (b : bytes) : bytes := putUvarint (Z.of_nat (length b)) ++ b.

Definition serialize_in (forSigning : bool) (i : TxIn) : bytes :=
  op_TxID (in_Prev i) ++ le_bytes 4 (op_Idx (in_Prev i)) ++ writeBytes (in_PubKey i)
  ++ (if forSigning then writeBytes [] else writeBytes (in_Sig i)).

Definition serialize_out (o : TxOut) : bytes :=
  le_bytes 8 (u64 (out_Value o)) ++ out_PubKeyHash o.

Definition serialize (t : Tx) (forSigning : bool) : bytes :=
  le_bytes 4 (tx_Version t)
  ++ putUvarint (Z.of_nat (length (tx_Ins t)))
  ++ flat_map (serialize_in forSigning) (tx_Ins t)
  ++ putUvarint (Z.of_nat (length (tx_Outs t)))
  ++ flat_map serialize_out (tx_Outs t)
  ++ writeBytes (tx_LockTag t).

Definition Tx_Bytes (t : Tx) : bytes := serialize t false.

Definition Header_Bytes (h : Header) : bytes :=
  le_bytes 4 (hdr_Version h) ++ hdr_PrevBlock h ++ hdr_MerkleRoot h
  ++ le_bytes 8 (u64 (hdr_Time h)) ++ le_bytes 4 (hdr_Bits h) ++ le_bytes 8 (hdr_Nonce h).

Definition Block_Bytes (b : Block) : bytes :=
  Header_Bytes (blk_Header b)
  ++ putUvarint (Z.of_nat (length (blk_Txs b)))
  ++ flat_map (fun t => writeBytes (Tx_Bytes t)) (blk_Txs b).

Definition NewCoinbase (height value : Z) (to tag : bytes) : Tx :=
  mkTx 1 [mkTxIn (mkOutPoint zeroHash 0xffffffff) (putUvarint (u64 height)) []]
    [mkTxOut value to] tag.

(** ** Decoding *)
Definition EOF : error := EText "EOF".

Fixpoint ReadUvarint_go (todo : nat) (i x s : Z) (r : bytes) : result (Z * bytes) :=
  match todo with
  | O => Err (EText "binary: varint overflows a 64-bit integer")
  | S todo' =>
      match r with
      | [] => Err (if i >? 0 then EText "unexpected EOF" else EOF)
      | c :: r' =>
          let b := b2z c in
          if b <? 0x80 then
            if (i =? 9) && (b >? 1) then Err (EText "binary: varint overflows a 64-bit integer")
            else Ok (u64 (Z.lor x (Z.shiftl b s)), r')
          else ReadUvarint_go todo' (i + 1) (u64 (Z.lor x (Z.shiftl (Z.land b 0x7f) s))) (s + 7) r'
      end
  end.

Definition ReadUvarint (r : bytes) : result (Z * bytes) := ReadUvarint_go 10 0 0 0 r.

(** [bytes.Reader.Read] into an [n]-byte zeroed buffer. *)
Definition Read (n : nat) (r : bytes) : result (bytes * bytes) :=
  match r with
  | [] => Err EOF
  | _ => Ok (to_array n (take n r), drop n r)
  end.

(** [io.ReadFull] as used by [binary.Read]. *)
Definition ReadFull (n : nat) (r : bytes) : result (bytes * bytes) :=
  if (length r <? n)%nat then Err (if (length r =? 0)%nat then EOF else EText "unexpected EOF")
  else Ok (take n r, drop n r).

Definition readBytes (r : bytes) (maxLen : Z) : result (bytes * bytes) :=
  '(n, r) ← ReadUvarint r;
  if n >? maxLen then Err (EText "field too long")
  else
    match Read (Z.to_nat n) r with
    | Err e => if n >? 0 then Err e else Ok ([], r)
    | Ok (b, r) => Ok (b, r)
    end.

Definition decode_in (r : bytes) : result (TxIn * bytes) :=
  '(txid, r) ← Read 32 r;
  '(idx, r) ← ReadFull 4 r;
  '(pk, r) ← readBytes r 128;
  '(sg, r) ← readBytes r 128;
  Ok (mkTxIn (mkOutPoint txid (le_val idx)) pk sg, r).

Definition decode_out (r : bytes) : result (TxOut * bytes) :=
  '(v, r) ← ReadFull 8 r;
  '(pkh, r) ← Read 20 r;
  Ok (mkTxOut (i64 (le_val v)) pkh, r).

(** [for i := uint64(0); i < n; i++ { x, err := f(r); ... append }] *)
Fixpoint decode_n {A} (f : bytes -> result (A * bytes)) (n : nat) (r : bytes)
    : result (list A * bytes) :=
  match n with
  | O => Ok ([], r)
  | S n' => '(a, r) ← f r; '(l, r) ← decode_n f n' r; Ok (a :: l, r)
  end.

(** [err != nil || n > max] guards a count: both cases return an error. *)
Definition read_count (r : bytes) (lo max : Z) (msg : string) : result (Z * bytes) :=
  match ReadUvarint r with
  | Err _ => Err (EText msg)
  | Ok (n, r) => if (n <? lo) || (n >? max) then Err (EText msg) else Ok (n, r)
  end.

Definition DecodeTx (b : bytes) : result Tx :=
  '(version, r) ← ReadFull 4 b;
  '(nIn, r) ← read_count r 0 10000 "bad input count";
  '(ins, r) ← decode_n decode_in (Z.to_nat nIn) r;
  '(nOut, r) ← read_count r 0 10000 "bad output count";
  '(outs, r) ← decode_n decode_out (Z.to_nat nOut) r;
  '(tag, r) ← readBytes r 256;
  if negb (length r =? 0)%nat then Err (EText "trailing bytes in tx")
  else Ok (mkTx (le_val version) ins outs tag).

(** [raw[i:j]] *)
Definition slice (l : bytes) (i j : nat) : bytes := take (j - i) (drop i l).

Definition decode_block_tx (r : bytes) : result (Tx * bytes) :=
  '(txb, r) ← readBytes r MaxBlockBytes;
  tx ← DecodeTx txb;
  Ok (tx, r).

Definition decode_header (raw : bytes) : Header :=
  mkHeader (le_val (slice raw 0 4)) (slice raw 4 36) (slice raw 36 68)
    (i64 (le_val (slice raw 68 76))) (le_val (slice raw 76 80)) (le_val (slice raw 80 88)).

Definition DecodeBlock (raw : bytes) : result Block :=
  if Z.of_nat (length raw) <? 88 then Err (EText "short block")
  else if Z.of_nat (length raw) >? MaxBlockBytes + 16 then Err (EText "oversize block")
  else
    let h := decode_header raw in
    '(n, r) ← read_count (drop 88 raw) 1 100000 "bad tx count";
    '(txs, r) ← decode_n decode_block_tx (Z.to_nat n) r;
    if negb (length r =? 0)%nat then Err (EText "trailing bytes in block")
    else Ok (mkBlock h txs).

(** ** Identifiers and signatures *)
Section ids.
Context `{Crypto}.

Definition Tx_ID (t : Tx) : Hash32 := SHA256d (Tx_Bytes t).
Definition SigDigest (t : Tx) : Hash32 := SHA256d (serialize t true).
Definition Header_ID (h : Header) : Hash32 := SHA256d (Header_Bytes h).

Definition set_pubkey (i : TxIn) (key : bytes) : TxIn :=
  mkTxIn (in_Prev i) (ed25519_Public key) (in_Sig i).
Definition set_sig (digest : bytes) (i : TxIn) (key : bytes) : TxIn :=
  mkTxIn (in_Prev i) (in_PubKey i) (ed25519_Sign key digest).

Definition with_ins (t : Tx) (ins : list TxIn) : Tx :=
  mkTx (tx_Version t) ins (tx_Outs t) (tx_LockTag t).

(** The digest computed before the public keys are set is discarded. *)
Definition Sign (t : Tx) (keys : list bytes) : result Tx :=
  if negb (length keys =? length (tx_Ins t))%nat then Err (EText "key count mismatch")
  else
    let t1 := with_ins t (zip_with set_pubkey (tx_Ins t) keys) in
    let digest := SigDigest t1 in
    Ok (with_ins t1 (zip_with (set_sig digest) (tx_Ins t1) keys)).
End ids.

(** ** Round trips: every reader inverts its writer and leaves the rest *)
Lemma z2b_lor_80 v : 0 <= v -> b2z (z2b (Z.lor v 0x80)) = 128 + v mod 128.
Proof.
  intros Hv. rewrite b2z_z2b.
  change 256 with (2 ^ 8). rewrite <- Z.land_ones by lia.
  rewrite Z.land_lor_distr_l. change (Z.land 0x80 (Z.ones 8)) with 0x80.
  rewrite Z.land_ones by lia.
  assert (Z.lor (v mod 2 ^ 8) 0x80 = Z.lor (1 * 2 ^ 7) (v mod 128)) as ->.
  { apply Z.bits_inj'. intros n Hn. rewrite !Z.lor_spec.
    change 128 with (2 ^ 7). change 0x80 with (2 ^ 7). rewrite Z.mul_1_l.
    rewrite Z.pow2_bits_eqb by lia.
    destruct (Z.eqb_spec 7 n) as [<-|Hne]; [by rewrite orb_true_r|].
    rewrite orb_false_r. cbn [orb].
    destruct (Z.lt_ge_cases n 7).
    - rewrite !Z.mod_pow2_bits_low by lia. done.
    - rewrite !Z.mod_pow2_bits_high by lia. done. }
  rewrite lor_disjoint_add by mlia. done.
Qed.

Lemma ReadUvarint_go_put todo i x v rest :
  0 <= i <= 9 -> todo = Z.to_nat (10 - i) -> 0 <= x < 2 ^ (7 * i) ->
  0 <= v < 2 ^ (64 - 7 * i) ->
  ReadUvarint_go todo i x (7 * i) (uvarint_go todo v ++ rest) = Ok (x + v * 2 ^ (7 * i), rest).
Proof.
  revert i x v. induction todo as [|todo IH]; intros i x v Hi Ht Hx Hv; [lia|].
  pose proof (Z.pow_pos_nonneg 2 (7 * i) ltac:(lia) ltac:(lia)) as Hp.
  assert (H64 : 2 ^ 64 = 2 ^ (64 - 7 * i) * 2 ^ (7 * i))
    by (rewrite <- Z.pow_add_r by lia; f_equal; lia).
  cbn [uvarint_go]. destruct (Z.ltb_spec v 0x80) as [Hs|Hs]; cbn [app ReadUvarint_go].
  - rewrite b2z_z2b, Z.mod_small by lia. destruct (Z.ltb_spec v 0x80); [|lia].
    assert ((i =? 9) && (v >? 1) = false) as ->.
    { destruct (Z.eqb_spec i 9) as [->|]; [|done]. rewrite Z.gtb_ltb.
      change (2 ^ (64 - 7 * 9)) with 2 in Hv. destruct (Z.ltb_spec 1 v); [lia|done]. }
    rewrite Z.shiftl_mul_pow2, Z.lor_comm, lor_disjoint_add by lia.
    rewrite u64_small; [do 2 f_equal; lia|]. unfold in_u64, two64.
    change 18446744073709551616 with (2 ^ 64). nia.
  - assert (Hi9 : i < 9).
    { destruct (Z.eq_dec i 9) as [->|]; [|lia]. change (2 ^ (64 - 7 * 9)) with 2 in Hv. lia. }
    rewrite z2b_lor_80 by lia.
    destruct (Z.ltb_spec (128 + v mod 128) 128) as [Hc|_]; [mlia|].
    assert (Z.land (128 + v mod 128) 0x7f = v mod 128) as ->.
    { change 0x7f with (Z.ones 7). rewrite Z.land_ones by lia. mlia. }
    rewrite Z.shiftl_mul_pow2, Z.lor_comm, lor_disjoint_add by lia.
    assert (H2 : 2 ^ (7 * (i + 1)) = 128 * 2 ^ (7 * i)).
    { replace (7 * (i + 1)) with (7 + 7 * i) by lia. by rewrite Z.pow_add_r by lia. }
    assert (H3 : 2 ^ (64 - 7 * i) = 128 * 2 ^ (64 - 7 * (i + 1))).
    { replace (64 - 7 * i) with (7 + (64 - 7 * (i + 1))) by lia. by rewrite Z.pow_add_r by lia. }
    assert (Hsmall : v mod 128 * 2 ^ (7 * i) + x < 2 ^ (7 * (i + 1))) by (rewrite H2; mnia).
    assert (2 ^ (7 * (i + 1)) <= 2 ^ 63) by (apply Z.pow_le_mono_r; lia).
    rewrite u64_small.
    2: { unfold in_u64, two64. change 18446744073709551616 with (2 * 2 ^ 63).
         pose proof (Z.mod_pos_bound v 128). nia. }
    replace (7 * i + 7) with (7 * (i + 1)) by lia.
    rewrite Z.shiftr_div_pow2 by lia. change (2 ^ 7) with 128.
    rewrite IH; [|lia|lia|split; [pose proof (Z.mod_pos_bound v 128); nia|done]|].
    + do 2 f_equal. rewrite H2. pose proof (Z.div_mod v 128). nia.
    + split; [mlia|]. apply Z.div_lt_upper_bound; lia.
Qed.

Lemma ReadUvarint_put v rest : in_u64 v -> ReadUvarint (putUvarint v ++ rest) = Ok (v, rest).
Proof.
  intros Hv. unfold ReadUvarint, putUvarint. rewrite u64_small by done.
  pose proof (ReadUvarint_go_put 10 0 0 v rest) as Hgo.
  rewrite Z.mul_0_r in Hgo. rewrite Hgo; [do 2 f_equal; lia|lia|done|lia|].
  unfold in_u64, two64 in Hv. change (2 ^ (64 - 0)) with 18446744073709551616. lia.
Qed.

Lemma Read_app n b rest : length b = n -> (0 < n)%nat -> Read n (b ++ rest) = Ok (b, rest).
Proof.
  intros <- Hn. unfold Read. destruct (b ++ rest) eqn:E; [destruct b; [simpl in *; lia|done]|].
  rewrite <- E, take_app_length, drop_app_length, to_array_id by done. done.
Qed.

Lemma ReadFull_app n b rest : length b = n -> ReadFull n (b ++ rest) = Ok (b, rest).
Proof.
  intros <-. unfold ReadFull. rewrite length_app.
  destruct (Nat.ltb_spec (length b + length rest) (length b)); [lia|].
  by rewrite take_app_length, drop_app_length.
Qed.

Definition in_u64_len {A} (l : list A) : Prop := in_u64 (Z.of_nat (length l)).

Lemma readBytes_app b max rest :
  Z.of_nat (length b) <= max -> max < two64 ->
  readBytes (writeBytes b ++ rest) max = Ok (b, rest).
Proof.
  intros Hb Hmax. unfold readBytes, writeBytes. rewrite <- app_assoc.
  rewrite ReadUvarint_put by (unfold in_u64; lia). cbn [mbind result_bind].
  rewrite Z.gtb_ltb. destruct (Z.ltb_spec max (Z.of_nat (length b))); [lia|].
  rewrite Nat2Z.id. destruct b as [|c b].
  - unfold Read. by destruct rest.
  - by rewrite Read_app by (simpl; lia).
Qed.

Lemma decode_n_app {A} (enc : A -> bytes) (f : bytes -> result (A * bytes)) l rest :
  (forall a rest, a ∈ l -> f (enc a ++ rest) = Ok (a, rest)) ->
  decode_n f (length l) (flat_map enc l ++ rest) = Ok (l, rest).
Proof.
  induction l as [|a l IH]; intros Hf; [done|]. cbn [length decode_n].
  cbn [flat_map]. rewrite <- app_assoc, Hf by left.
  cbn [mbind result_bind]. rewrite IH; [done|]. intros b r Hb. apply Hf. by right.
Qed.

(** *** Well-formed values: what the Go types and the decoder's limits allow *)
Record wf_in (i : TxIn) : Prop := {
  wfi_txid : length (op_TxID (in_Prev i)) = 32%nat;
  wfi_idx : in_u32 (op_Idx (in_Prev i));
  wfi_pk : Z.of_nat (length (in_PubKey i)) <= 128;
  wfi_sig : Z.of_nat (length (in_Sig i)) <= 128;
}.
Record wf_out (o : TxOut) : Prop := {
  wfo_value : in_i64 (out_Value o);
  wfo_pkh : length (out_PubKeyHash o) = 20%nat;
}.
Record wf_tx (t : Tx) : Prop := {
  wft_version : in_u32 (tx_Version t);
  wft_nin : Z.of_nat (length (tx_Ins t)) <= 10000;
  wft_nout : Z.of_nat (length (tx_Outs t)) <= 10000;
  wft_ins : Forall wf_in (tx_Ins t);
  wft_outs : Forall wf_out (tx_Outs t);
  wft_tag : Z.of_nat (length (tx_LockTag t)) <= 256;
}.
Record wf_header (h : Header) : Prop := {
  wfh_version : in_u32 (hdr_Version h);
  wfh_prev : length (hdr_PrevBlock h) = 32%nat;
  wfh_root : length (hdr_MerkleRoot h) = 32%nat;
  wfh_time : in_i64 (hdr_Time h);
  wfh_bits : in_u32 (hdr_Bits h);
  wfh_nonce : in_u64 (hdr_Nonce h);
}.
Record wf_block (b : Block) : Prop := {
  wfb_header : wf_header (blk_Header b);
  wfb_ntx : 1 <= Z.of_nat (length (blk_Txs b)) <= 100000;
  wfb_txs : Forall wf_tx (blk_Txs b);
}.

(** *** The limits of the codec are decidable *)
Ltac dec_record H :=
  lazymatch goal with |- Decision ?P => destruct (decide H); [left|right] end;
  [split; naive_solver|intros []; naive_solver].

#[global] Instance wf_in_dec i : Decision (wf_in i).
Proof.
  dec_record (length (op_TxID (in_Prev i)) = 32%nat /\ in_u32 (op_Idx (in_Prev i)) /\
    Z.of_nat (length (in_PubKey i)) <= 128 /\ Z.of_nat (length (in_Sig i)) <= 128).
Defined.
#[global] Instance wf_out_dec o : Decision (wf_out o).
Proof. dec_record (in_i64 (out_Value o) /\ length (out_PubKeyHash o) = 20%nat). Defined.
#[global] Instance wf_tx_dec t : Decision (wf_tx t).
Proof.
  dec_record (in_u32 (tx_Version t) /\ Z.of_nat (length (tx_Ins t)) <= 10000 /\
    Z.of_nat (length (tx_Outs t)) <= 10000 /\ Forall wf_in (tx_Ins t) /\
    Forall wf_out (tx_Outs t) /\ Z.of_nat (length (tx_LockTag t)) <= 256).
Defined.
#[global] Instance wf_header_dec h : Decision (wf_header h).
Proof.
  dec_record (in_u32 (hdr_Version h) /\ length (hdr_PrevBlock h) = 32%nat /\
    length (hdr_MerkleRoot h) = 32%nat /\ in_i64 (hdr_Time h) /\ in_u32 (hdr_Bits h) /\
    in_u64 (hdr_Nonce h)).
Defined.
#[global] Instance wf_block_dec b : Decision (wf_block b).
Proof.
  dec_record (wf_header (blk_Header b) /\ 1 <= Z.of_nat (length (blk_Txs b)) <= 100000 /\
    Forall wf_tx (blk_Txs b)).
Defined.

Lemma decode_in_app i rest : wf_in i -> decode_in (serialize_in false i ++ rest) = Ok (i, rest).
Proof.
  intros [Htx Hidx Hpk Hsg]. unfold decode_in, serialize_in. rewrite <- !app_assoc.
  rewrite Read_app by lia. cbn [mbind result_bind].
  rewrite ReadFull_app by apply length_le_bytes. cbn [mbind result_bind].
  rewrite readBytes_app by (unfold two64; lia). cbn [mbind result_bind].
  rewrite readBytes_app by (unfold two64; lia). cbn [mbind result_bind].
  rewrite le_val_le_bytes. change (256 ^ Z.of_nat 4) with two32. fold (u32 (op_Idx (in_Prev i))).
  rewrite u32_small by done. by destruct i as [[] ? ?].
Qed.

Lemma decode_out_app o rest : wf_out o -> decode_out (serialize_out o ++ rest) = Ok (o, rest).
Proof.
  intros [Hv Hp]. unfold decode_out, serialize_out. rewrite <- !app_assoc.
  rewrite ReadFull_app by apply length_le_bytes. cbn [mbind result_bind].
  rewrite Read_app by lia. cbn [mbind result_bind].
  rewrite le_val_le_bytes. change (256 ^ Z.of_nat 8) with two64.
  fold (u64 (u64 (out_Value o))). rewrite (u64_small (u64 _)) by apply u64_range.
  rewrite i64_u64 by done. by destruct o.
Qed.

Lemma read_count_app n lo max msg rest :
  lo <= n <= max -> 0 <= n < two64 ->
  read_count (putUvarint n ++ rest) lo max msg = Ok (n, rest).
Proof.
  intros Hn H64. unfold read_count. rewrite ReadUvarint_put by done.
  rewrite Z.gtb_ltb. destruct (Z.ltb_spec n lo), (Z.ltb_spec max n); simpl; [exfalso; lia..|done].
Qed.

Lemma DecodeTx_Bytes t : wf_tx t -> DecodeTx (Tx_Bytes t) = Ok t.
Proof.
  intros [Hv Hni Hno Hins Houts Htag]. unfold DecodeTx, Tx_Bytes, serialize.
  rewrite ReadFull_app by apply length_le_bytes. cbn [mbind result_bind].
  rewrite read_count_app by (unfold two64; lia). cbn [mbind result_bind].
  rewrite Nat2Z.id, decode_n_app.
  2: { intros i rest Hi. apply decode_in_app. rewrite list.Forall_forall in Hins. by apply Hins. }
  cbn [mbind result_bind].
  rewrite read_count_app by (unfold two64; lia). cbn [mbind result_bind].
  rewrite Nat2Z.id, decode_n_app.
  2: { intros o rest Ho. apply decode_out_app. rewrite list.Forall_forall in Houts. by apply Houts. }
  cbn [mbind result_bind].
  rewrite <- (app_nil_r (writeBytes (tx_LockTag t))), readBytes_app by (unfold two64; lia).
  cbn [mbind result_bind length Nat.eqb negb].
  rewrite le_val_le_bytes. change (256 ^ Z.of_nat 4) with two32. fold (u32 (tx_Version t)).
  rewrite u32_small by done. by destruct t.
Qed.

Lemma Tx_Bytes_inj t1 t2 : wf_tx t1 -> wf_tx t2 -> Tx_Bytes t1 = Tx_Bytes t2 -> t1 = t2.
Proof.
  intros H1 H2 He. apply Ok_inj. by rewrite <- !DecodeTx_Bytes, He by done.
Qed.

Lemma length_Header_Bytes h : wf_header h -> length (Header_Bytes h) = 88%nat.
Proof.
  intros [? ? ? ? ? ?]. unfold Header_Bytes.
  rewrite !length_app, !length_le_bytes. lia.
Qed.

Lemma slice_skip pre l k i j :
  length pre = k -> (k <= i)%nat -> slice (pre ++ l) i j = slice l (i - k) (j - k).
Proof.
  intros <- Hi. unfold slice. rewrite drop_app_ge by done. f_equal. lia.
Qed.

Lemma slice_head a l n : length a = n -> slice (a ++ l) 0 n = a.
Proof. intros <-. unfold slice. by rewrite Nat.sub_0_r, drop_0, take_app_length. Qed.

Lemma decode_header_app h rest :
  wf_header h -> decode_header (Header_Bytes h ++ rest) = h.
Proof.
  intros [Hv Hp Hm Ht Hb Hn]. unfold decode_header, Header_Bytes. rewrite <- !app_assoc.
  rewrite (slice_head (le_bytes 4 _)) by apply length_le_bytes.
  rewrite !(slice_skip (le_bytes 4 _) _ 4 _ _ (length_le_bytes _ _)) by lia. cbn [Nat.sub].
  rewrite (slice_head _ _ _ Hp). rewrite !(slice_skip _ _ 32 _ _ Hp) by lia. cbn [Nat.sub].
  rewrite (slice_head _ _ _ Hm). rewrite !(slice_skip _ _ 32 _ _ Hm) by lia. cbn [Nat.sub].
  rewrite (slice_head (le_bytes 8 _)) by apply length_le_bytes.
  rewrite !(slice_skip (le_bytes 8 _) _ 8 _ _ (length_le_bytes _ _)) by lia. cbn [Nat.sub].
  rewrite (slice_head (le_bytes 4 _)) by apply length_le_bytes.
  rewrite !(slice_skip (le_bytes 4 _) _ 4 _ _ (length_le_bytes _ _)) by lia. cbn [Nat.sub].
  rewrite (slice_head (le_bytes 8 _)) by apply length_le_bytes.
  rewrite !le_val_le_bytes. change (256 ^ Z.of_nat 4) with two32. change (256 ^ Z.of_nat 8) with two64.
  unfold in_u32, in_u64 in *.
  rewrite (Z.mod_small (u64 _)) by apply u64_range.
  rewrite i64_u64, !Z.mod_small by done. by destruct h.
Qed.

Lemma flat_map_length_le {A} (f : A -> bytes) a l :
  a ∈ l -> (length (f a) <= length (flat_map f l))%nat.
Proof.
  induction l as [|b l IH]; [by intros ?%not_elem_of_nil|].
  cbn [flat_map]. rewrite length_app. intros [->|Hin]%elem_of_cons; [lia|].
  specialize (IH Hin). lia.
Qed.

Lemma DecodeBlock_Bytes b :
  wf_block b -> Z.of_nat (length (Block_Bytes b)) <= MaxBlockBytes + 16 ->
  DecodeBlock (Block_Bytes b) = Ok b.
Proof.
  intros [Hh Hn Htxs] Hlen. pose proof (length_Header_Bytes _ Hh) as Hhl.
  assert (Hall : forall t, t ∈ blk_Txs b -> Z.of_nat (length (Tx_Bytes t)) <= MaxBlockBytes).
  { intros t Ht. pose proof (flat_map_length_le (fun t => writeBytes (Tx_Bytes t)) t _ Ht) as Hl.
    unfold Block_Bytes in Hlen. rewrite !length_app, Hhl in Hlen.
    unfold writeBytes at 1 in Hl. rewrite length_app in Hl. unfold MaxBlockBytes in *. lia. }
  unfold DecodeBlock.
  assert (88 <= Z.of_nat (length (Block_Bytes b))).
  { unfold Block_Bytes. rewrite length_app, Hhl. lia. }
  destruct (Z.ltb_spec (Z.of_nat (length (Block_Bytes b))) 88); [lia|].
  rewrite Z.gtb_ltb.
  destruct (Z.ltb_spec (MaxBlockBytes + 16) (Z.of_nat (length (Block_Bytes b)))); [lia|].
  unfold Block_Bytes. rewrite decode_header_app by done.
  rewrite <- Hhl, drop_app_length.
  rewrite read_count_app by (unfold two64; lia). cbn [mbind result_bind].
  rewrite Nat2Z.id, <- (app_nil_r (flat_map _ _)), decode_n_app.
  - cbn [mbind result_bind length Nat.eqb negb]. by destruct b.
  - intros t rest Ht. unfold decode_block_tx.
    rewrite readBytes_app by (auto || unfold two64, MaxBlockBytes; lia).
    cbn [mbind result_bind]. rewrite DecodeTx_Bytes; [done|].
    rewrite list.Forall_forall in Htxs. by apply Htxs.
Qed.

(** A coinbase built for a height is a well-formed coinbase that commits to it. *)
Lemma length_uvarint_go fuel v : (length (uvarint_go fuel v) <= fuel)%nat.
Proof.
  revert v; induction fuel as [|fuel IH]; intros v; cbn [uvarint_go]; [done|].
  destruct (v <? 128); cbn [length]; [lia|]. specialize (IH (Z.shiftr v 7)). lia.
Qed.

Lemma length_putUvarint v : (length (putUvarint v) <= 10)%nat.
Proof. apply length_uvarint_go. Qed.

Lemma NewCoinbase_IsCoinbase height value to tag :
  IsCoinbase (NewCoinbase height value to tag) = true.
Proof. unfold IsCoinbase, NewCoinbase. cbn. by rewrite bool_decide_eq_true_2. Qed.

Lemma NewCoinbase_wf height value to tag :
  in_i64 value -> length to = 20%nat -> Z.of_nat (length tag) <= 256 ->
  wf_tx (NewCoinbase height value to tag).
Proof.
  intros Hv Hto Htag. pose proof (length_putUvarint (u64 height)).
  split; cbn [NewCoinbase tx_Version tx_Ins tx_Outs tx_LockTag length]; try lia.
  - unfold in_u32, two32; lia.
  - constructor; [|done]. split; cbn [in_Prev in_PubKey in_Sig op_TxID op_Idx length]; try lia.
    + done.
    + unfold in_u32, two32; lia.
  - constructor; [|done]. by split.
Qed.

(** Two coinbases for different heights differ, hence so do their encodings. *)
Lemma NewCoinbase_height_inj h1 h2 v1 v2 to1 to2 tag1 tag2 :
  in_u64 h1 -> in_u64 h2 ->
  NewCoinbase h1 v1 to1 tag1 = NewCoinbase h2 v2 to2 tag2 -> h1 = h2.
Proof.
  intros Hh1 Hh2 He.
  assert (Hput : putUvarint (u64 h1) = putUvarint (u64 h2)).
  { apply (f_equal (fun t => from_option in_PubKey [] (head (tx_Ins t)))) in He. exact He. }
  rewrite !u64_small in Hput by done.
  assert (Ok (h1, @nil byte) = Ok (h2, [])) as Hok.
  { rewrite <- (ReadUvarint_put h1 []), <- (ReadUvarint_put h2 []) by done. by rewrite Hput. }
  congruence.
Qed.

(** ** Signatures *)
Section signing.
Context `{Crypto}.

Lemma serialize_in_signing i sg :
  serialize_in true (mkTxIn (in_Prev i) (in_PubKey i) sg) = serialize_in true i.
Proof. done. Qed.

(** The digest commits to everything but the signatures. *)
Lemma SigDigest_ignores_sigs t ins :
  Forall2 (fun i j => in_Prev i = in_Prev j /\ in_PubKey i = in_PubKey j) (tx_Ins t) ins ->
  SigDigest (with_ins t ins) = SigDigest t.
Proof.
  intros Hall. unfold SigDigest, serialize, with_ins. cbn [tx_Version tx_Ins tx_Outs tx_LockTag].
  assert (Hf : flat_map (serialize_in true) ins = flat_map (serialize_in true) (tx_Ins t)).
  { induction Hall as [|i j l l' [Hp Hk] _ IH]; cbn [flat_map]; [done|].
    rewrite IH. f_equal. unfold serialize_in. by rewrite Hp, Hk. }
  assert (Hl : length ins = length (tx_Ins t)) by (symmetry; eapply Forall2_length, Hall).
  by rewrite Hf, Hl.
Qed.

Lemma zip_set_sig_rel d ins keys :
  length keys = length ins ->
  Forall2 (fun i j => in_Prev i = in_Prev j /\ in_PubKey i = in_PubKey j)
    ins (zip_with (set_sig d) ins keys).
Proof.
  revert keys; induction ins as [|i ins IH]; intros [|k keys]; simpl; try done.
  intros [= Hl]. constructor; [done|]. by apply IH.
Qed.

(** Every input of a signed transaction carries a signature that verifies
    under its own public key and the final digest. *)
Lemma Sign_verifies `{!CryptoLaws} t keys t' :
  Sign t keys = Ok t' ->
  Forall2 (fun i k => in_PubKey i = ed25519_Public k /\
    ed25519_Verify (in_PubKey i) (SigDigest t') (in_Sig i) = true) (tx_Ins t') keys
  /\ tx_Outs t' = tx_Outs t /\ map in_Prev (tx_Ins t') = map in_Prev (tx_Ins t).
Proof.
  unfold Sign. destruct (Nat.eqb_spec (length keys) (length (tx_Ins t))) as [Hl|]; [|done].
  cbn [negb]. set (t1 := with_ins t _). set (d := SigDigest t1). intros [= <-].
  assert (Hl1 : length keys = length (tx_Ins t1)).
  { subst t1. cbn. rewrite length_zip_with. lia. }
  rewrite SigDigest_ignores_sigs by by apply zip_set_sig_rel. fold d.
  cbn [with_ins tx_Ins tx_Outs]. split; [|split; [done|]].
  - subst t1. cbn [with_ins tx_Ins]. clearbody d. clear Hl1.
    revert keys Hl; induction (tx_Ins t) as [|i ins IH]; intros [|k keys] Hl; try done.
    cbn. constructor; [|apply IH; simpl in Hl; lia]. cbn. split; [done|].
    apply ed25519_Verify_Sign.
  - subst t1. cbn [with_ins tx_Ins]. clearbody d. clear Hl1.
    revert keys Hl; induction (tx_Ins t) as [|i ins IH]; intros [|k keys] Hl; try done.
    cbn. f_equal. apply IH. simpl in Hl. lia.
Qed.
End signing.

(** ** What the decoders return is well formed *)
Lemma ReadUvarint_nonneg r n r' : ReadUvarint r = Ok (n, r') -> 0 <= n.
Proof.
  unfold ReadUvarint. generalize 10%nat as todo. intros todo. generalize 0 at 1 2 3 as z. intros z.
  generalize z at 1 as i. generalize z at 1 as x. generalize z as s. clear z.
  induction todo as [|todo IH] in r |- *; intros s x i; cbn; [done|].
  destruct r as [|c r]; [done|]. repeat case_match; intros; simplify_eq; try done; [|by eapply IH].
  apply u64_range.
Qed.

Lemma Read_length n r b r' : Read n r = Ok (b, r') -> length b = n.
Proof. unfold Read. destruct r; [done|]. intros. simplify_eq. apply length_to_array. Qed.

Lemma ReadFull_length n r b r' : ReadFull n r = Ok (b, r') -> length b = n.
Proof.
  unfold ReadFull. destruct (Nat.ltb_spec (length r) n); [done|]. intros. simplify_eq.
  rewrite length_take. lia.
Qed.

Lemma readBytes_length r max b r' : 0 <= max -> readBytes r max = Ok (b, r') ->
  Z.of_nat (length b) <= max.
Proof.
  unfold readBytes. intros Hmax Hr. res_simpl. destruct x as [n r0].
  rename select (ReadUvarint _ = _) into Hu. apply ReadUvarint_nonneg in Hu.
  rewrite Z.gtb_ltb in Hr. destruct (Z.ltb_spec max n); [done|].
  destruct (Read (Z.to_nat n) r0) as [[b0 r1]|] eqn:E.
  - apply Read_length in E. simplify_eq. lia.
  - step_if Hr; [done|]. simplify_eq. cbn. lia.
Qed.

Lemma decode_n_wf {A} (f : bytes -> result (A * bytes)) (P : A -> Prop) n :
  (forall r a r', f r = Ok (a, r') -> P a) -> forall r l r',
  decode_n f n r = Ok (l, r') -> Forall P l /\ length l = n.
Proof.
  intros Hf. induction n as [|n IH]; intros r l r' Hd; cbn in Hd.
  { simplify_eq. by split; [constructor|]. }
  res_simpl. destruct x as [a r1]. res_simpl. destruct x as [l1 r2]. res_simpl. simplify_eq.
  rename select (decode_n _ _ _ = _) into Hn. apply IH in Hn as [Hl Hlen].
  split; [constructor; [by eapply Hf|done]|cbn; lia].
Qed.

Lemma le_val_u32 b : length b = 4%nat -> in_u32 (le_val b).
Proof. intros Hl. pose proof (le_val_bound b) as Hb. by rewrite Hl in Hb. Qed.
Lemma le_val_u64 b : length b = 8%nat -> in_u64 (le_val b).
Proof. intros Hl. pose proof (le_val_bound b) as Hb. by rewrite Hl in Hb. Qed.

Lemma decode_in_wf r i r' : decode_in r = Ok (i, r') -> wf_in i.
Proof.
  unfold decode_in. intros Hd. repeat (res_simpl; case_match). res_simpl. simplify_eq.
  split; cbn; [by eapply Read_length|by eapply le_val_u32, ReadFull_length|
    by eapply readBytes_length; [|done]..].
Qed.

Lemma decode_out_wf r o r' : decode_out r = Ok (o, r') -> wf_out o.
Proof.
  unfold decode_out. intros Hd. repeat (res_simpl; case_match). res_simpl. simplify_eq.
  split; cbn; [apply i64_range|by eapply Read_length].
Qed.

Lemma read_count_range r lo max msg n r' : read_count r lo max msg = Ok (n, r') -> lo <= n <= max.
Proof.
  unfold read_count. destruct (ReadUvarint r) as [[n0 r0]|]; [|done].
  case_match eqn:E; [done|]. bool_prop. intros. simplify_eq. lia.
Qed.

Lemma DecodeTx_wf b t : DecodeTx b = Ok t -> wf_tx t.
Proof.
  unfold DecodeTx. intros Hd. repeat (res_simpl; case_match). res_simpl. simplify_eq.
  repeat match goal with
  | H : read_count _ _ _ _ = _ |- _ => apply read_count_range in H
  | H : decode_n decode_in _ _ = _ |- _ => eapply decode_n_wf in H as [? ?]; [|apply decode_in_wf]
  | H : decode_n decode_out _ _ = _ |- _ => eapply decode_n_wf in H as [? ?]; [|apply decode_out_wf]
  | H : readBytes _ _ = _ |- _ => apply readBytes_length in H; [|done]
  end.
  split; cbn; [by eapply le_val_u32, ReadFull_length|lia|lia|done..].
Qed.

Lemma length_slice raw i j : (j <= length raw)%nat -> length (slice raw i j) = (j - i)%nat.
Proof. intros Hl. unfold slice. rewrite length_take, length_drop. lia. Qed.

Lemma decode_header_wf raw : (88 <= length raw)%nat -> wf_header (decode_header raw).
Proof.
  intros Hl. unfold decode_header.
  split; cbn [hdr_Version hdr_PrevBlock hdr_MerkleRoot hdr_Time hdr_Bits hdr_Nonce].
  - apply le_val_u32. by rewrite length_slice by lia.
  - by rewrite length_slice by lia.
  - by rewrite length_slice by lia.
  - apply i64_range.
  - apply le_val_u32. by rewrite length_slice by lia.
  - apply le_val_u64. by rewrite length_slice by lia.
Qed.

Lemma DecodeBlock_wf raw b : DecodeBlock raw = Ok b -> wf_block b.
Proof.
  unfold DecodeBlock. intros Hd. destruct (Z.ltb_spec (Z.of_nat (length raw)) 88); [done|].
  step_if Hd; [done|]. repeat (res_simpl; case_match). res_simpl. simplify_eq.
  rename select (read_count _ _ _ _ = _) into Hc. apply read_count_range in Hc.
  rename select (decode_n _ _ _ = _) into Hn.
  eapply (decode_n_wf _ wf_tx) in Hn as [Hall Hlen].
  - split; cbn; [apply decode_header_wf; lia|lia|done].
  - intros r t r'. unfold decode_block_tx. intros Ht. repeat (res_simpl; case_match). res_simpl.
    simplify_eq. by eapply DecodeTx_wf.
Qed.

(** A block that was decoded and encodes to an admissible size is its own copy. *)
Lemma DecodeBlock_copy b copy : wf_block b -> DecodeBlock (Block_Bytes b) = Ok copy -> copy = b.
Proof.
  intros Hwf Hd. assert (Hlen : Z.of_nat (length (Block_Bytes b)) <= MaxBlockBytes + 16).
  { unfold DecodeBlock in Hd. step_if Hd; [done|]. step_if Hd; [done|]. bool_prop. lia. }
  rewrite (DecodeBlock_Bytes b Hwf Hlen) in Hd. by simplify_eq.
Qed.

(** ** Decoding arbitrary bytes never panics *)
Definition calm {A} (r : result A) : Prop := forall e, r = Err e -> is_panic e = false.
Create HintDb calm.

Lemma calm_bind {A B} (m : result A) (k : A -> result B) :
  calm m -> (forall a, calm (k a)) -> calm (m ≫= k).
Proof. intros Hm Hk. destruct m as [a|e]; [apply Hk|]. intros ? [= <-]. by apply Hm. Qed.

Lemma calm_Ok {A} (a : A) : calm (Ok a).
Proof. done. Qed.
Lemma calm_text {A} s : calm (A := A) (Err (EText s)).
Proof. by intros ? [= <-]. Qed.
#[export] Hint Resolve calm_bind calm_Ok calm_text : calm.

Ltac calm := repeat first
  [ progress eauto with calm nocore | apply calm_bind; [|intros []] | case_match | intros ? [= <-]; done ].

Lemma calm_ReadUvarint_go n : forall i x s r, calm (ReadUvarint_go n i x s r).
Proof.
  induction n as [|n IH]; intros i x s r; cbn [ReadUvarint_go]; [calm|].
  destruct r as [|c r]; [destruct (i >? 0); calm|].
  destruct (b2z c <? 0x80); [|apply IH]. destruct (_ && _); calm.
Qed.
Lemma calm_ReadUvarint r : calm (ReadUvarint r).
Proof. apply calm_ReadUvarint_go. Qed.
Lemma calm_Read n r : calm (Read n r).
Proof. destruct r; [apply calm_text|apply calm_Ok]. Qed.
Lemma calm_ReadFull n r : calm (ReadFull n r).
Proof. unfold ReadFull. destruct (_ <? _)%nat; [destruct (_ =? _)%nat|]; calm. Qed.
#[export] Hint Resolve calm_ReadUvarint calm_Read calm_ReadFull : calm.

Lemma calm_readBytes r n : calm (readBytes r n).
Proof.
  unfold readBytes. apply calm_bind; [calm|]. intros [k r']. destruct (k >? n); [calm|].
  pose proof (calm_Read (Z.to_nat k) r') as Hr. destruct (Read _ r') as [[]|e]; [calm|].
  destruct (k >? 0); [|calm]. intros ? [= <-]. by apply Hr.
Qed.
Lemma calm_read_count r lo mx s : calm (read_count r lo mx s).
Proof. unfold read_count. destruct (ReadUvarint r) as [[]|]; [destruct (_ || _)|]; calm. Qed.
Lemma calm_decode_n {A} (f : bytes -> result (A * bytes)) n :
  (forall r, calm (f r)) -> forall r, calm (decode_n f n r).
Proof. intros Hf. induction n as [|n IH]; intros r; cbn [decode_n]; calm. Qed.
#[export] Hint Resolve calm_readBytes calm_read_count calm_decode_n : calm.

Lemma calm_DecodeTx b : calm (DecodeTx b).
Proof.
  assert (forall r, calm (decode_in r)) by (intros r; unfold decode_in; calm).
  assert (forall r, calm (decode_out r)) by (intros r; unfold decode_out; calm).
  unfold DecodeTx. calm.
Qed.
#[export] Hint Resolve calm_DecodeTx : calm.

Lemma calm_DecodeBlock b : calm (DecodeBlock b).
Proof.
  assert (forall r, calm (decode_block_tx r)) by (intros r; unfold decode_block_tx; calm).
  unfold DecodeBlock. calm.
Qed.
