(* ===== verification/Merkle.v ===== *)
(** * Merkle trees (core/block.go)

    [MerkleRoot], [MerkleBranch] and [MerkleRootFromBranch].  The layer loops run
    with the layer length as fuel; [merkle_loop_enough] shows it is enough,
    because every pass at least halves the layer. *)
From S2P Require Import Prelude Params Crypto Wire.

Section merkle.
Context `{Crypto}.

Definition merklePair (left right : Hash32) : Hash32 := SHA256d (left ++ right).

(** [if len(layer)%2 == 1 { layer = append(layer, layer[len(layer)-1]) }] *)
Definition merkle_pad (layer : list Hash32) : list Hash32 :=
  if Nat.odd (length layer) then layer ++ [List.last layer zeroHash] else layer.

(** [for i := 0; i < len(layer); i += 2 { next = append(next, merklePair(...)) }] *)
Fixpoint merkle_pairs (layer : list Hash32) : list Hash32 :=
  match layer with
  | a :: b :: rest => merklePair a b :: merkle_pairs rest
  | _ => []
  end.

Definition merkle_next (layer : list Hash32) : list Hash32 := merkle_pairs (merkle_pad layer).

Fixpoint merkle_loop (fuel : nat) (layer : list Hash32) : option Hash32 :=
  match layer with
  | [] => None
  | [root] => Some root
  | _ => match fuel with
         | O => None
         | S fuel' => merkle_loop fuel' (merkle_next layer)
         end
  end.

Definition MerkleRoot (txs : list Tx) : Hash32 :=
  match txs with
  | [] => zeroHash
  | _ => default zeroHash (merkle_loop (length txs) (Tx_ID <$> txs))
  end.

Fixpoint branch_loop (fuel : nat) (layer : list Hash32) (position : Z)
    : option (list Hash32) :=
  match layer with
  | [] => None
  | [_] => Some []
  | _ => match fuel with
         | O => None
         | S fuel' =>
             sibling ← merkle_pad layer !! Z.to_nat (Z.lxor position 1);
             rest ← branch_loop fuel' (merkle_next layer) (position / 2);
             Some (sibling :: rest)
         end
  end.

Definition MerkleBranch (txs : list Tx) (index : Z) : result (list Hash32) :=
  if (length txs =? 0)%nat || (index <? 0) || (index >=? Z.of_nat (length txs))
  then Err (EText "invalid merkle branch index")
  else deref (branch_loop (length txs) (Tx_ID <$> txs) index) "index out of range".

Fixpoint fold_branch (root : Hash32) (position : Z) (branch : list Hash32) : Hash32 * Z :=
  match branch with
  | [] => (root, position)
  | sibling :: rest =>
      let root := if Z.land position 1 =? 0 then merklePair root sibling
                  else merklePair sibling root in
      fold_branch root (position / 2) rest
  end.

Definition MerkleRootFromBranch (leaf : Hash32) (index : Z) (branch : list Hash32)
    : result Hash32 :=
  if index <? 0 then Err (EText "invalid merkle branch index")
  else
    let '(root, position) := fold_branch leaf index branch in
    if negb (position =? 0) then Err (EText "merkle branch is too short for index")
    else Ok root.

(** ** Layers *)
Lemma length_merkle_pad l :
  l <> [] -> exists k, length (merkle_pad l) = (2 * k)%nat /\
    (length l <= 2 * k <= length l + 1)%nat.
Proof.
  intros _. unfold merkle_pad. destruct (Nat.odd (length l)) eqn:E.
  - apply Nat.odd_spec in E as [k Hk]. exists (k + 1)%nat. rewrite length_app. simpl. lia.
  - rewrite <- Nat.negb_even in E. apply negb_false_iff, Nat.even_spec in E as [k Hk].
    exists k. lia.
Qed.

Lemma length_merkle_pairs k l : length l = (2 * k)%nat -> length (merkle_pairs l) = k.
Proof.
  revert l; induction k as [|k IH]; intros l Hl.
  - destruct l; [done|simpl in Hl; lia].
  - destruct l as [|a [|b l]]; simpl in Hl; [lia..|]. simpl. rewrite IH by lia. done.
Qed.

Lemma length_merkle_next l :
  (2 <= length l)%nat -> (1 <= length (merkle_next l) < length l)%nat.
Proof.
  intros Hl. destruct (length_merkle_pad l) as (k & Hk & Hb); [by intros ->; simpl in Hl; lia|].
  unfold merkle_next. rewrite (length_merkle_pairs k) by done. lia.
Qed.

Lemma merkle_loop_enough fuel l :
  l <> [] -> (length l <= fuel)%nat -> exists r, merkle_loop fuel l = Some r.
Proof.
  revert l; induction fuel as [|fuel IH]; intros l Hne Hl.
  - destruct l; [done|simpl in Hl; lia].
  - destruct l as [|a [|b l]]; [done|by exists a|]. cbn [merkle_loop].
    pose proof (length_merkle_next (a :: b :: l) ltac:(simpl; lia)).
    apply IH; [|lia]. intros E. rewrite E in *. simpl in *. lia.
Qed.

Lemma lxor_1 z : Z.lxor z 1 = z + 1 - 2 * (z mod 2).
Proof.
  assert (Heven : forall k, Z.lxor (2 * k) 1 = 2 * k + 1).
  { intros k. symmetry. apply Z.add_nocarry_lxor.
    apply Z.bits_inj'. intros n Hn. rewrite Z.land_spec, Z.bits_0.
    destruct (Z.eq_dec n 0) as [->|].
    - by rewrite Z.testbit_even_0.
    - change 1 with (2 ^ 0) at 1. rewrite Z.pow2_bits_false by lia. apply andb_false_r. }
  destruct (Z.eq_dec (z mod 2) 0) as [E|E].
  - replace z with (2 * (z / 2)) at 1 by mlia. rewrite Heven. mlia.
  - replace z with (2 * (z / 2) + 1) at 1 by mlia. rewrite <- (Heven (z / 2)).
    rewrite Z.lxor_assoc, Z.lxor_nilpotent, Z.lxor_0_r. mlia.
Qed.

Lemma merkle_pairs_lookup k l i a b :
  length l = (2 * k)%nat -> l !! (2 * i)%nat = Some a -> l !! (2 * i + 1)%nat = Some b ->
  merkle_pairs l !! i = Some (merklePair a b).
Proof.
  revert l i; induction k as [|k IH]; intros l i Hl Ha Hb.
  - destruct l; [done|simpl in Hl; lia].
  - destruct l as [|x [|y l]]; simpl in Hl; [lia..|].
    destruct i as [|i]; [by simplify_eq/=|].
    replace (2 * S i)%nat with (S (S (2 * i))) in * by lia.
    replace (S (S (2 * i)) + 1)%nat with (S (S (2 * i + 1))) in Hb by lia.
    simpl in *. by apply IH; [lia| |].
Qed.

Lemma merkle_pad_lookup l i : (i < length l)%nat -> merkle_pad l !! i = l !! i.
Proof.
  intros Hi. unfold merkle_pad. destruct (Nat.odd _); [|done]. by rewrite lookup_app_l.
Qed.

(** One level: hashing a node with its sibling gives its parent. *)
Lemma merkle_step l pos node :
  (2 <= length l)%nat -> 0 <= pos < Z.of_nat (length l) -> l !! Z.to_nat pos = Some node ->
  exists sib, merkle_pad l !! Z.to_nat (Z.lxor pos 1) = Some sib /\
    merkle_next l !! Z.to_nat (pos / 2) =
      Some (if Z.land pos 1 =? 0 then merklePair node sib else merklePair sib node).
Proof.
  intros Hl Hpos Hnode.
  destruct (length_merkle_pad l) as (k & Hk & Hb); [by intros ->; simpl in Hl; lia|].
  assert (Hsib : (Z.to_nat (Z.lxor pos 1) < length (merkle_pad l))%nat).
  { rewrite lxor_1, Hk. mlia. }
  apply lookup_lt_is_Some in Hsib as [sib Hsib]. exists sib. split; [done|].
  rewrite <- (merkle_pad_lookup l) in Hnode by lia.
  change 1 with (Z.ones 1) at 1. rewrite Z.land_ones by lia. change (2 ^ 1) with 2.
  rewrite lxor_1 in Hsib.
  destruct (Z.eqb_spec (pos mod 2) 0) as [E|E].
  - apply (merkle_pairs_lookup k); [done| |].
    + rewrite <- Hnode. f_equal. mlia.
    + rewrite <- Hsib. f_equal. mlia.
  - apply (merkle_pairs_lookup k); [done| |].
    + rewrite <- Hsib. f_equal. mlia.
    + rewrite <- Hnode. f_equal. mlia.
Qed.

Lemma branch_loop_correct fuel l pos node :
  (length l <= fuel)%nat -> 0 <= pos < Z.of_nat (length l) ->
  l !! Z.to_nat pos = Some node ->
  exists branch root, branch_loop fuel l pos = Some branch /\
    merkle_loop fuel l = Some root /\ fold_branch node pos branch = (root, 0).
Proof.
  revert l pos node; induction fuel as [|fuel IH]; intros l pos node Hl Hpos Hnode.
  - destruct l; simpl in *; lia.
  - destruct l as [|a [|b l]].
    + simpl in *. lia.
    + exists [], a. cbn in *. assert (pos = 0) as -> by lia. by simplify_eq/=.
    + destruct (merkle_step (a :: b :: l) pos node) as (sib & Hsib & Hnext);
        [simpl; lia|done|done|].
      pose proof (length_merkle_next (a :: b :: l) ltac:(simpl; lia)) as Hlen.
      destruct (IH (merkle_next (a :: b :: l)) (pos / 2)
        (if Z.land pos 1 =? 0 then merklePair node sib else merklePair sib node))
        as (branch & root & Hbr & Hroot & Hfold); [lia| |done|].
      { apply lookup_lt_Some in Hnext. mlia. }
      exists (sib :: branch), root. cbn [branch_loop merkle_loop fold_branch].
      rewrite Hsib. cbn [mbind option_bind]. rewrite Hbr. cbn [mbind option_bind].
      auto.
Qed.

(** Every index has a branch, and the branch reconstructs the root. *)
Lemma MerkleBranch_correct txs index tx :
  0 <= index -> txs !! Z.to_nat index = Some tx ->
  exists branch, MerkleBranch txs index = Ok branch /\
    MerkleRootFromBranch (Tx_ID tx) index branch = Ok (MerkleRoot txs).
Proof.
  intros Hi Htx. pose proof (lookup_lt_Some _ _ _ Htx) as Hlt.
  destruct (branch_loop_correct (length txs) (Tx_ID <$> txs) index (Tx_ID tx))
    as (branch & root & Hbr & Hroot & Hfold).
  { by rewrite length_fmap. }
  { rewrite length_fmap. lia. }
  { by rewrite list_lookup_fmap, Htx. }
  exists branch. unfold MerkleBranch, MerkleRootFromBranch.
  destruct (Nat.eqb_spec (length txs) 0); [lia|].
  destruct (Z.ltb_spec index 0); [lia|]. rewrite Z.geb_leb.
  destruct (Z.leb_spec (Z.of_nat (length txs)) index); [lia|]. cbn [orb].
  rewrite Hbr, Hfold. cbn. split; [done|]. unfold MerkleRoot.
  destruct txs; [simpl in *; lia|]. by rewrite Hroot.
Qed.

Lemma MerkleBranch_error txs index :
  (exists branch, MerkleBranch txs index = Ok branch)
  <-> 0 <= index < Z.of_nat (length txs).
Proof.
  split.
  - intros [branch Hb]. unfold MerkleBranch in Hb. step_if Hb; [done|].
    bool_prop. lia.
  - intros Hi. destruct (lookup_lt_is_Some_2 txs (Z.to_nat index)) as [tx Htx]; [lia|].
    destruct (MerkleBranch_correct txs index tx) as (branch & ? & _); [lia|done|eauto].
Qed.

(** The root of a block with one transaction is its id. *)
Lemma MerkleRoot_singleton tx : MerkleRoot [tx] = Tx_ID tx.
Proof. done. Qed.

(** The duplication of the last node makes the root blind to a repeated tail:
    the reason why duplicate transaction ids must be rejected separately. *)
Lemma MerkleRoot_duplicate_tail t1 t2 t3 :
  MerkleRoot [t1; t2; t3] = MerkleRoot [t1; t2; t3; t3].
Proof. done. Qed.

Lemma length_merkle_pairs_32 `{HL : !CryptoLaws} : forall l,
  Forall (fun h => length h = 32%nat) (merkle_pairs l).
Proof.
  fix go 1. intros [|x [|y m]]; cbn; try by constructor.
  constructor; [apply length_SHA256d|]. apply go.
Qed.

Lemma length_MerkleRoot `{HL : !CryptoLaws} txs : length (MerkleRoot txs) = 32%nat.
Proof.
  unfold MerkleRoot. destruct txs as [|t txs]; [done|].
  destruct (merkle_loop_enough (length (t :: txs)) (Tx_ID <$> t :: txs)) as [r Hr];
    [done|by rewrite length_fmap|]. rewrite Hr. cbn.
  assert (Hall : Forall (fun h => length h = 32%nat) (Tx_ID <$> t :: txs)).
  { apply Forall_fmap, Forall_true. intros ?. apply length_SHA256d. }
  revert Hr Hall. generalize (length (t :: txs)) (Tx_ID <$> t :: txs).
  intros fuel; induction fuel as [|fuel IH]; intros [|a [|b l]] Hr Hall;
    cbn [merkle_loop] in Hr; try done; try (by inv Hall; simplify_eq).
  apply (IH _ Hr), length_merkle_pairs_32.
Qed.
End merkle.
