(* ===== verification/Address.v ===== *)
(** * Addresses (core/keys.go)

    Base58 with Go's string semantics (a [range] over a string yields runes, and
    the decoder truncates a rune to its low byte), and the checksummed address
    encoding.  The theorems are the round trips; the truncation makes the decoder
    accept strings that are not base58. *)
From S2P Require Import Prelude Params Crypto Pow.

Definition addrVersion : byte := Byte.x09.
Definition b58alphabet : bytes :=
  bs "123456789ABCDEFGHJKLMNPQRSTUVWXYZabcdefghijkmnopqrstuvwxyz".

Definition b58char (d : Z) : byte :=
  match b58alphabet !! Z.to_nat d with Some c => c | None => Byte.x00 end.

(** [bytes.IndexByte] *)
Fixpoint index_byte (l : bytes) (c : byte) (i : Z) : option Z :=
  match l with
  | [] => None
  | x :: l' => if decide (x = c) then Some i else index_byte l' c (i + 1)
  end.

(** The digits of [x], least significant first. *)
Fixpoint b58_digits (fuel : nat) (x : Z) : list Z :=
  match fuel with
  | O => []
  | S fuel' => if x >? 0 then x mod 58 :: b58_digits fuel' (x / 58) else []
  end.

Fixpoint leading (c : byte) (l : bytes) : nat :=
  match l with
  | x :: l' => if decide (x = c) then S (leading c l') else O
  | [] => O
  end.

(** Two base58 digits hold more than one byte, so [2 * len(b)] rounds are enough. *)
Definition base58Encode (b : bytes) : bytes :=
  reverse ((b58char <$> b58_digits (2 * length b) (be_val b))
           ++ replicate (leading Byte.x00 b) Byte.x31).

(** *** Runes *)
Definition is_cont (lo hi : Z) (b : byte) : bool := (lo <=? b2z b) && (b2z b <=? hi).
Definition runeError : Z := 0xFFFD.

Definition decode_rune (b0 : byte) (rest : bytes) : Z * nat :=
  let v := b2z b0 in
  let bad := (runeError, 0%nat) in
  if v <? 0x80 then (v, 0%nat)
  else if v <? 0xC2 then bad
  else if v <? 0xE0 then
    match rest with
    | b1 :: _ => if is_cont 0x80 0xBF b1 then ((v - 0xC0) * 64 + (b2z b1 - 0x80), 1%nat) else bad
    | _ => bad
    end
  else if v <? 0xF0 then
    let lo := if v =? 0xE0 then 0xA0 else 0x80 in
    let hi := if v =? 0xED then 0x9F else 0xBF in
    match rest with
    | b1 :: b2 :: _ =>
        if is_cont lo hi b1 && is_cont 0x80 0xBF b2
        then ((v - 0xE0) * 4096 + (b2z b1 - 0x80) * 64 + (b2z b2 - 0x80), 2%nat) else bad
    | _ => bad
    end
  else if v <? 0xF5 then
    let lo := if v =? 0xF0 then 0x90 else 0x80 in
    let hi := if v =? 0xF4 then 0x8F else 0xBF in
    match rest with
    | b1 :: b2 :: b3 :: _ =>
        if is_cont lo hi b1 && is_cont 0x80 0xBF b2 && is_cont 0x80 0xBF b3
        then ((v - 0xF0) * 262144 + (b2z b1 - 0x80) * 4096 + (b2z b2 - 0x80) * 64
              + (b2z b3 - 0x80), 3%nat) else bad
    | _ => bad
    end
  else bad.

(** [for _, c := range s]; [skip] counts the continuation bytes still to pass. *)
Fixpoint runes_go (skip : nat) (s : bytes) : list Z :=
  match s with
  | [] => []
  | b :: rest =>
      match skip with
      | S skip' => runes_go skip' rest
      | O => let '(r, n) := decode_rune b rest in r :: runes_go n rest
      end
  end.
Definition runes (s : bytes) : list Z := runes_go 0 s.

Definition b58_step (x c : Z) : result Z :=
  match index_byte b58alphabet (z2b c) 0 with
  | None => Err (EText "invalid base58 character")
  | Some i => Ok (x * 58 + i)
  end.

Fixpoint leading_runes (l : list Z) : nat :=
  match l with c :: l' => if c =? 0x31 then S (leading_runes l') else O | [] => O end.

(** [x.Bytes()], the minimal big-endian bytes. *)
Definition big_Bytes (x : Z) : bytes := be_bytes (Z.to_nat (bytelen x)) x.

Definition base58Decode (s : bytes) : result bytes :=
  x ← foldM b58_step 0 (runes s);
  Ok (replicate (leading_runes (runes s)) Byte.x00 ++ big_Bytes x).

Section address.
Context `{Crypto}.

Definition EncodeAddress (pkh : bytes) : bytes :=
  let payload := addrVersion :: pkh in
  let chk := Sum256 (Sum256 payload) in
  base58Encode (payload ++ take 4 chk).

Definition DecodeAddress (s : bytes) : result bytes :=
  raw ← base58Decode s;
  if negb (length raw =? 25)%nat || negb (bool_decide (head raw = Some addrVersion))
  then Err (EText "bad address length or version") else
  let payload := take 21 raw in
  let chk := drop 21 raw in
  let want := Sum256 (Sum256 payload) in
  if negb (bool_decide (chk = take 4 want)) then Err (EText "bad address checksum")
  else Ok (to_array 20 (drop 1 payload)).
End address.

(** ** Base58 round trip *)
Lemma b58_all (P : Z -> bool) : forallb P (seqZ 0 58) = true -> forall d, 0 <= d < 58 -> P d = true.
Proof.
  intros Hall d Hd. rewrite forallb_forall in Hall. apply Hall, list_elem_of_In, elem_of_seqZ. lia.
Qed.

Lemma index_b58char d : 0 <= d < 58 -> index_byte b58alphabet (b58char d) 0 = Some d.
Proof.
  intros Hd. pose proof (b58_all
    (fun d => bool_decide (index_byte b58alphabet (b58char d) 0 = Some d)) eq_refl d Hd) as Hb.
  cbv beta in Hb. by apply bool_decide_eq_true in Hb.
Qed.

Lemma b58char_ascii d : 0 <= d < 58 ->
  b2z (b58char d) < 128 /\ (b2z (b58char d) =? 0x31) = (d =? 0).
Proof.
  intros Hd. assert (Hb : (b2z (b58char d) <? 128) && eqb (b2z (b58char d) =? 0x31) (d =? 0) = true).
  { apply (b58_all (fun d => (b2z (b58char d) <? 128) && eqb (b2z (b58char d) =? 0x31) (d =? 0)));
      [vm_compute; reflexivity|done]. }
  apply andb_true_iff in Hb as [H1 H2]. apply eqb_prop in H2. bool_prop. done.
Qed.

Lemma runes_ascii s : Forall (fun b => b2z b < 128) s -> runes s = b2z <$> s.
Proof.
  unfold runes. induction 1 as [|b s Hb _ IH]; [done|]. cbn [runes_go fmap list_fmap].
  unfold decode_rune. rewrite (proj2 (Z.ltb_lt _ _)) by done. cbn. f_equal. exact IH.
Qed.

Lemma b58_digits_range fuel x : 0 <= x -> Forall (fun d => 0 <= d < 58) (b58_digits fuel x).
Proof.
  revert x; induction fuel as [|fuel IH]; intros x Hx; cbn [b58_digits]; [constructor|].
  destruct (x >? 0); constructor; [mlia|apply IH; mlia].
Qed.

Lemma b58_fold_snoc ds d x0 :
  fold_left (fun x d => x * 58 + d) (ds ++ [d]) x0
  = fold_left (fun x d => x * 58 + d) ds x0 * 58 + d.
Proof. by rewrite fold_left_app. Qed.

Lemma b58_digits_value fuel x : 0 <= x < 58 ^ Z.of_nat fuel ->
  fold_left (fun x d => x * 58 + d) (reverse (b58_digits fuel x)) 0 = x.
Proof.
  revert x; induction fuel as [|fuel IH]; intros x Hx; [cbn in *; lia|].
  rewrite Nat2Z.inj_succ, Z.pow_succ_r in Hx by lia. cbn [b58_digits].
  rewrite Z.gtb_ltb. destruct (Z.ltb_spec 0 x); [|cbn; lia].
  rewrite reverse_cons, b58_fold_snoc, IH by mlia. mlia.
Qed.

(** The most significant digit is not zero. *)
Lemma b58_digits_top fuel x d l : 0 <= x < 58 ^ Z.of_nat fuel ->
  reverse (b58_digits fuel x) = d :: l -> d <> 0.
Proof.
  revert x d l; induction fuel as [|fuel IH]; intros x d l Hx Hr; [done|].
  rewrite Nat2Z.inj_succ, Z.pow_succ_r in Hx by lia. cbn [b58_digits] in Hr.
  rewrite Z.gtb_ltb in Hr. destruct (Z.ltb_spec 0 x); [|done].
  rewrite reverse_cons in Hr.
  destruct (reverse (b58_digits fuel (x / 58))) as [|d' l'] eqn:E.
  - injection Hr as <- _.
    pose proof (b58_digits_value fuel (x / 58) ltac:(mlia)) as Hv. rewrite E in Hv. cbn in Hv. mlia.
  - injection Hr as <- _. eapply IH; [|exact E]. mlia.
Qed.

Lemma foldM_b58 ds x0 : Forall (fun d => 0 <= d < 58) ds ->
  foldM b58_step x0 (b2z <$> (b58char <$> ds)) = Ok (fold_left (fun x d => x * 58 + d) ds x0).
Proof.
  intros Hds. revert x0; induction Hds as [|d ds Hd _ IH]; intros x0; [done|].
  cbn [fmap list_fmap foldM fold_left]. unfold b58_step at 1.
  rewrite z2b_b2z, index_b58char by done. apply IH.
Qed.

(** Leading zero bytes and the minimal encoding of the rest. *)
Lemma leading_split b :
  exists r, b = replicate (leading Byte.x00 b) Byte.x00 ++ r /\ (forall c r', r = c :: r' -> c <> Byte.x00).
Proof.
  induction b as [|c b (r & Hr & Hne)]; [by exists []|]. cbn [leading].
  destruct (decide (c = Byte.x00)) as [->|Hc].
  - exists r. cbn. split; [by f_equal|done].
  - exists (c :: b). split; [done|]. by intros ? ? [= -> ->].
Qed.

Lemma le_val_zeros n : le_val (replicate n Byte.x00) = 0.
Proof. induction n as [|n IH]; [done|]. cbn [replicate le_val]. rewrite IH. reflexivity. Qed.

Lemma be_val_leading n r : be_val (replicate n Byte.x00 ++ r) = be_val r.
Proof.
  unfold be_val. rewrite reverse_app, reverse_replicate, le_val_app, le_val_zeros. lia.
Qed.

Lemma be_val_cons c r : be_val (c :: r) = b2z c * 256 ^ Z.of_nat (length r) + be_val r.
Proof.
  unfold be_val. rewrite reverse_cons, le_val_app, length_reverse. cbn [le_val]. lia.
Qed.

Lemma big_Bytes_min r : (forall c r', r = c :: r' -> c <> Byte.x00) -> big_Bytes (be_val r) = r.
Proof.
  intros Hne. destruct r as [|c r]; [done|].
  assert (Hc : 1 <= b2z c).
  { pose proof (b2z_range c). destruct (Z.eq_dec (b2z c) 0) as [E|]; [|lia].
    destruct (Hne c r eq_refl). by apply b2z_inj. }
  pose proof (be_val_bound r) as Hr. pose proof (be_val_bound (c :: r)) as Hb.
  rewrite be_val_cons in *. set (v := b2z c * 256 ^ Z.of_nat (length r) + be_val r) in *.
  assert (Hv : 0 < v) by nia.
  assert (Hlen : bytelen v = Z.of_nat (length (c :: r))).
  { apply Z.le_antisymm; [apply bytelen_le; lia|].
    pose proof (bytelen_bounds v Hv) as [_ Hhi].
    destruct (Z.le_gt_cases (Z.of_nat (length (c :: r))) (bytelen v)) as [|Hlt]; [done|exfalso].
    assert (256 ^ bytelen v <= 256 ^ Z.of_nat (length r))
      by (apply Z.pow_le_mono_r; cbn [length] in Hlt; lia). nia. }
  unfold big_Bytes. rewrite Hlen, Nat2Z.id. subst v. rewrite <- be_val_cons.
  unfold be_bytes, be_val. rewrite <- length_reverse, le_bytes_le_val. apply reverse_involutive.
Qed.

Lemma digits_fuel b : be_val b < 58 ^ Z.of_nat (2 * length b).
Proof.
  eapply Z.lt_le_trans; [apply be_val_bound|].
  rewrite Nat2Z.inj_mul, Z.pow_mul_r by lia. apply Z.pow_le_mono_l. lia.
Qed.

Lemma leading_runes_app n l :
  leading_runes (replicate n 0x31 ++ l) = (n + leading_runes l)%nat.
Proof. induction n as [|n IH]; [done|]. cbn. by rewrite IH. Qed.

Lemma base58_roundtrip b : base58Decode (base58Encode b) = Ok b.
Proof.
  unfold base58Encode. set (z := leading Byte.x00 b).
  set (ds := reverse (b58_digits (2 * length b) (be_val b))).
  assert (Hds : Forall (fun d => 0 <= d < 58) ds).
  { apply Forall_reverse, b58_digits_range, be_val_bound. }
  rewrite reverse_app, reverse_replicate, <- fmap_reverse. fold ds.
  pose proof (digits_fuel b) as Hf. pose proof (be_val_bound b) as [Hb0 _].
  assert (Hrunes : runes (replicate z Byte.x31 ++ (b58char <$> ds))
                   = b2z <$> (b58char <$> (replicate z 0 ++ ds))).
  { rewrite runes_ascii.
    - rewrite !fmap_app, !fmap_replicate. done.
    - apply Forall_app. split; [apply Forall_replicate; done|].
      apply Forall_fmap. eapply list.Forall_impl; [exact Hds|]. intros d Hd.
      by apply b58char_ascii. }
  unfold base58Decode. rewrite Hrunes, foldM_b58.
  2:{ apply Forall_app. split; [apply Forall_replicate; lia|done]. }
  cbn [mbind result_bind]. f_equal. rewrite fold_left_app.
  assert (fold_left (fun x d => x * 58 + d) (replicate z 0) 0 = 0) as ->.
  { clear. induction z as [|k IH]; [done|]. exact IH. }
  unfold ds at 2. rewrite b58_digits_value by lia.
  rewrite !fmap_app, !fmap_replicate. change (b2z (b58char 0)) with 0x31.
  rewrite leading_runes_app.
  assert (leading_runes (b2z <$> (b58char <$> ds)) = 0%nat) as ->.
  { destruct ds as [|d l] eqn:E; [done|]. cbn. inv Hds as [|? ? Hd _].
    rewrite (proj2 (b58char_ascii d Hd)).
    rewrite (proj2 (Z.eqb_neq d 0)); [done|]. eapply b58_digits_top; [|exact E]. lia. }
  rewrite Nat.add_0_r. destruct (leading_split b) as (r & Hr & Hne). fold z in Hr.
  rewrite Hr at 1. rewrite be_val_leading, big_Bytes_min by done. by symmetry.
Qed.

Section roundtrip.
Context `{CryptoLaws}.

Lemma address_roundtrip pkh : length pkh = 20%nat -> DecodeAddress (EncodeAddress pkh) = Ok pkh.
Proof.
  intros Hl. unfold DecodeAddress, EncodeAddress. rewrite base58_roundtrip. cbn [mbind result_bind].
  assert (Hlen : length (addrVersion :: pkh) = 21%nat) by (cbn; lia).
  assert (Hchk : length (take 4 (Sum256 (Sum256 (addrVersion :: pkh)))) = 4%nat)
    by (rewrite length_take, length_Sum256; done).
  rewrite (proj2 (Nat.eqb_eq _ 25)) by (rewrite length_app; lia).
  rewrite bool_decide_true by done. cbn [negb orb].
  rewrite take_app_length', drop_app_length', bool_decide_true by done.
  cbn [negb drop]. f_equal. by apply to_array_id.
Qed.
End roundtrip.
