(* ===== verification/Chain.v ===== *)
(** * The chain: consensus state, validation and fork choice (core/chain.go,
    core/genesis.go, and the header checks of core/block.go)

    The state [Chain] holds every accepted block, the best tip, the ids of the
    best chain, the UTXO set and the mempool.  A Go method that mutates the
    chain becomes a function returning the new state next to its result, so the
    state an error path leaves behind is visible; the undo log of
    [validateAndApplyLocked] is part of the model.

    Conventions: the pointers stored in the index, in a block and in the mempool
    are not nil; two [*blockIndex] are equal when the records are, since the
    index holds one object per id; block heights are unbounded integers;
    [time.Now().Unix()] is the argument [now]; a nil dereference, a missing map
    entry that is dereferenced or an index out of range is [EPanic]. *)
From S2P Require Import Prelude Params Crypto Pow Wire Merkle.

Record UTXOEntry := mkUTXOEntry {
  ue_Value : Z; ue_PKH : bytes; ue_Height : Z; ue_Coinbase : bool }.
Record blockIndex := mkBlockIndex {
  bi_block : Block; bi_height : Z; bi_cumWork : Z; bi_id : Hash32 }.

#[global] Instance UTXOEntry_eq_dec : EqDecision UTXOEntry.
Proof. solve_decision. Defined.
#[global] Instance blockIndex_eq_dec : EqDecision blockIndex.
Proof. solve_decision. Defined.

Abbreviation utxo_map := (gmap OutPoint UTXOEntry).

Record Chain := mkChain {
  c_params : Params;
  c_index : gmap Hash32 blockIndex;
  c_tip : blockIndex;
  c_mainIDs : list Hash32;
  c_utxo : utxo_map;
  c_mempool : gmap Hash32 Tx;
}.

Definition bi_header (bi : blockIndex) : Header := blk_Header (bi_block bi).

Section chain.
Context `{Crypto}.

(** ** Genesis and header checks *)
Definition GenesisBlock (p : Params) : Block :=
  let cb := NewCoinbase 0 (SubsidyAt 0) (zeros 20) (bs (GenesisHeadline p)) in
  mkBlock (mkHeader 1 zeroHash (MerkleRoot [cb]) (GenesisTime p) (MaxTargetBits p)
             (GenesisNonce p)) [cb].

Definition CheckPow (h : Header) (p : Params) : bool :=
  let target := CompactToTarget (hdr_Bits h) in
  if (target <=? 0) || (target >? MaxTarget p) then false
  else HashToBig (PowHash (Header_Bytes h) p) <=? target.

Definition CheckTimestamp (time : Z) (p : Params) (now : Z) : result unit :=
  if time >? i64 (now + FutureDrift p)
  then Err (EText "block timestamp too far in the future")
  else Ok tt.

(** ** Transactions *)
(** One iteration of the input loop of [checkTxLocked]. *)
Definition check_input (p : Params) (utxo : utxo_map) (digest : bytes) (height : Z)
    (st : gset OutPoint * Z) (i : TxIn) : result (gset OutPoint * Z) :=
  let '(seen, inSum) := st in
  if decide (in_Prev i ∈ seen) then Err (EText "duplicate input") else
  match utxo !! in_Prev i with
  | None => Err (EText "input not found or already spent")
  | Some entry =>
      if negb (MoneyRange (ue_Value entry)) then Err (moneyRangeError "input value")
      else if ue_Coinbase entry && (height - ue_Height entry <? CoinbaseMaturity p)
      then Err (EText "coinbase not mature")
      else if negb (length (in_PubKey i) =? ed25519_PublicKeySize)%nat
      then Err (EText "bad pubkey size")
      else if negb (bool_decide (PubKeyHash20 (in_PubKey i) = ue_PKH entry))
      then Err (EText "pubkey does not match output owner")
      else if negb (ed25519_Verify (in_PubKey i) digest (in_Sig i))
      then Err (EText "bad signature")
      else match checkedAddMoney inSum (ue_Value entry) with
           | None => Err (moneyRangeError "input total")
           | Some inSum' => Ok ({[in_Prev i]} ∪ seen, inSum')
           end
  end.

(** The output loop shared, up to its messages, by [checkTxLocked],
    [checkBlockSanity] and [validateAndApplyLocked]. *)
Definition check_output (neg nonpos range total : error) (outSum : Z) (o : TxOut)
    : result Z :=
  if out_Value o <? 0 then Err neg
  else if out_Value o =? 0 then Err nonpos
  else if negb (MoneyRange (out_Value o)) then Err range
  else match checkedAddMoney outSum (out_Value o) with
       | None => Err total
       | Some s => Ok s
       end.

Definition tx_outputs : Z -> TxOut -> result Z :=
  check_output (moneyRangeError "negative output value") (EText "non-positive output")
    (moneyRangeError "output value") (moneyRangeError "output total").

Definition checkTxLocked (p : Params) (utxo : utxo_map) (tx : Tx) (height : Z) : result Z :=
  if (length (tx_Ins tx) =? 0)%nat || (length (tx_Outs tx) =? 0)%nat
  then Err (EText "empty ins or outs") else
  '(_, inSum) ← foldM (check_input p utxo (SigDigest tx) height) (∅, 0) (tx_Ins tx);
  outSum ← foldM tx_outputs 0 (tx_Outs tx);
  if outSum >? inSum then Err (ENum "outputs exceed inputs" [outSum; inSum]) else
  let fee := inSum - outSum in
  if negb (MoneyRange fee) then Err (moneyRangeError "transaction fee") else Ok fee.

Inductive TxAcceptanceResult := TxAcceptanceAdded | TxAcceptanceAlreadyKnown.

Definition set_mempool (c : Chain) (m : gmap Hash32 Tx) : Chain :=
  mkChain (c_params c) (c_index c) (c_tip c) (c_mainIDs c) (c_utxo c) m.

(** The outpoints spent by the mempool. *)
Definition mempool_spent (m : gmap Hash32 Tx) : gset OutPoint :=
  list_to_set (flat_map (fun e => in_Prev <$> tx_Ins e.2) (map_to_list m)).

Definition AcceptTxWithResult (c : Chain) (tx : option Tx) : Chain * result TxAcceptanceResult :=
  match tx with
  | None => (c, Err (EText "nil transaction"))
  | Some tx =>
      if IsCoinbase tx then (c, Err (EText "coinbase cannot enter mempool")) else
      let id := Tx_ID tx in
      if decide (is_Some (c_mempool c !! id)) then (c, Ok TxAcceptanceAlreadyKnown) else
      let spent := mempool_spent (c_mempool c) in
      if existsb (fun i => bool_decide (in_Prev i ∈ spent)) (tx_Ins tx)
      then (c, Err (EText "input already spent in mempool")) else
      match checkTxLocked (c_params c) (c_utxo c) tx (bi_height (c_tip c) + 1) with
      | Err e => (c, Err e)
      | Ok _ => (set_mempool c (<[id := tx]> (c_mempool c)), Ok TxAcceptanceAdded)
      end
  end.

(** ** Blocks: context-free checks *)
Definition block_outputs : Z -> TxOut -> result Z :=
  check_output (moneyRangeError "negative block output") (EText "non-positive block output")
    (moneyRangeError "block output value") (moneyRangeError "block transaction output total").

Definition sanity_spend (spent : gset OutPoint) (i : TxIn) : result (gset OutPoint) :=
  if decide (in_Prev i ∈ spent) then Err (EText "duplicate input in block")
  else Ok ({[in_Prev i]} ∪ spent).

(** One iteration of the transaction loop of [checkBlockSanity]; [first] is
    [txIndex == 0]. *)
Definition sanity_tx (st : gset Hash32 * gset OutPoint) (itx : nat * Tx)
    : result (gset Hash32 * gset OutPoint) :=
  let '(txIDs, spent) := st in
  let '(txIndex, tx) := itx in
  if (0 <? txIndex)%nat && IsCoinbase tx then Err (EText "multiple coinbases") else
  if (length (tx_Ins tx) =? 0)%nat || (length (tx_Outs tx) =? 0)%nat
  then Err (EText "empty ins or outs") else
  let id := Tx_ID tx in
  if decide (id ∈ txIDs) then Err (EText "duplicate transaction in block") else
  spent' ← (if (0 <? txIndex)%nat then foldM sanity_spend spent (tx_Ins tx) else Ok spent);
  _ ← foldM block_outputs 0 (tx_Outs tx);
  Ok ({[id]} ∪ txIDs, spent').

Definition indexed {A} (l : list A) : list (nat * A) := zip (seq 0 (length l)) l.

Definition checkBlockSanity (b : Block) : result unit :=
  match blk_Txs b with
  | [] => Err (EText "first tx must be coinbase")
  | cb :: _ =>
      if negb (IsCoinbase cb) then Err (EText "first tx must be coinbase") else
      _ ← foldM sanity_tx (∅, ∅) (indexed (blk_Txs b));
      Ok tt
  end.

(** ** The UTXO set with its undo log *)
Record utxoUndo := mkUndo { un_op : OutPoint; un_existed : bool; un_entry : UTXOEntry }.

(** The zero value of the struct, what a failed map lookup returns. *)
Definition zeroEntry : UTXOEntry := mkUTXOEntry 0 (zeros 20) 0 false.

Definition undo_record (utxo : utxo_map) (undo : list utxoUndo) (op : OutPoint)
    : list utxoUndo :=
  undo ++ [match utxo !! op with
           | Some entry => mkUndo op true entry
           | None => mkUndo op false zeroEntry
           end].

Definition undo_one (utxo : utxo_map) (item : utxoUndo) : utxo_map :=
  if un_existed item then <[un_op item := un_entry item]> utxo else delete (un_op item) utxo.

(** [for i := len(undo)-1; i >= 0; i--] *)
Definition rollback (utxo : utxo_map) (undo : list utxoUndo) : utxo_map :=
  fold_left undo_one (reverse undo) utxo.

Definition out_entry (height : Z) (coinbase : bool) (o : TxOut) : UTXOEntry :=
  mkUTXOEntry (out_Value o) (out_PubKeyHash o) height coinbase.

Definition spend_input (st : utxo_map * list utxoUndo) (i : TxIn)
    : utxo_map * list utxoUndo :=
  (delete (in_Prev i) st.1, undo_record st.1 st.2 (in_Prev i)).

Definition create_output (id : Hash32) (height : Z) (coinbase : bool)
    (st : utxo_map * list utxoUndo) (io : nat * TxOut) : utxo_map * list utxoUndo :=
  let op := mkOutPoint id (u32 (Z.of_nat io.1)) in
  (<[op := out_entry height coinbase io.2]> st.1, undo_record st.1 st.2 op).

Definition spendAndCreateWithUndo (tx : Tx) (height : Z) (coinbase : bool)
    (st : utxo_map * list utxoUndo) : utxo_map * list utxoUndo :=
  let st := if coinbase then st else fold_left spend_input (tx_Ins tx) st in
  fold_left (create_output (Tx_ID tx) height coinbase) (indexed (tx_Outs tx)) st.

Definition spendAndCreate (tx : Tx) (height : Z) (coinbase : bool) (utxo : utxo_map)
    : utxo_map :=
  let utxo := if coinbase then utxo
              else fold_left (fun m i => delete (in_Prev i) m) (tx_Ins tx) utxo in
  fold_left (fun m io => <[mkOutPoint (Tx_ID tx) (u32 (Z.of_nat io.1))
                            := out_entry height coinbase io.2]> m)
    (indexed (tx_Outs tx)) utxo.

Definition applyBlockToUTXO (b : Block) (height : Z) (utxo : utxo_map) : utxo_map :=
  fold_left (fun m itx => spendAndCreate itx.2 height (itx.1 =? 0)%nat m)
    (indexed (blk_Txs b)) utxo.

(** The loop over the non-coinbase transactions of [validateAndApplyLocked]:
    the UTXO set and undo log it leaves, and the fees or the error. *)
Fixpoint apply_txs (p : Params) (height : Z) (txs : list Tx)
    (st : utxo_map * list utxoUndo) (fees : Z) : (utxo_map * list utxoUndo) * result Z :=
  match txs with
  | [] => (st, Ok fees)
  | tx :: rest =>
      match checkTxLocked p st.1 tx height with
      | Err e => (st, Err e)
      | Ok fee =>
          match checkedAddMoney fees fee with
          | None => (st, Err (moneyRangeError "aggregate block fees"))
          | Some fees' =>
              apply_txs p height rest (spendAndCreateWithUndo tx height false st) fees'
          end
      end
  end.

Definition coinbase_outputs : Z -> TxOut -> result Z :=
  check_output (moneyRangeError "negative coinbase output")
    (EText "non-positive coinbase output") (moneyRangeError "coinbase output")
    (moneyRangeError "coinbase total").

Definition validateAndApplyLocked (p : Params) (b : Block) (height : Z) (utxo : utxo_map)
    : utxo_map * result unit :=
  let '((utxo1, undo), r) := apply_txs p height (tail (blk_Txs b)) (utxo, []) 0 in
  match r with
  | Err e => (rollback utxo1 undo, Err e)
  | Ok fees =>
      match blk_Txs b with
      | [] => (utxo1, Err (EPanic "index out of range"))
      | cb :: _ =>
          match foldM coinbase_outputs 0 (tx_Outs cb) with
          | Err e => (rollback utxo1 undo, Err e)
          | Ok cbOut =>
              match checkedAddMoney (SubsidyAt height) fees with
              | None => (rollback utxo1 undo, Err (moneyRangeError "subsidy plus fees"))
              | Some allowed =>
                  if cbOut >? allowed then
                    (rollback utxo1 undo,
                     Err (ENum "coinbase pays more than subsidy plus fees"
                            [cbOut; SubsidyAt height; fees]))
                  else ((spendAndCreateWithUndo cb height true (utxo1, undo)).1, Ok tt)
              end
          end
      end
  end.

(** ** Branches *)
(** [branchTo] walks to genesis; a missing parent is a nil dereference.  The
    fuel is the height of the block plus one, the length of its branch. *)
Fixpoint branch_walk (index : gmap Hash32 blockIndex) (fuel : nat) (cur : blockIndex)
    (m : gmap Z blockIndex) : result (gmap Z blockIndex) :=
  match fuel with
  | O => Err (EPanic "branch does not reach genesis")
  | S fuel' =>
      let m' := <[bi_height cur := cur]> m in
      if bi_height cur =? 0 then Ok m'
      else match index !! hdr_PrevBlock (bi_header cur) with
           | None => Err (EPanic "nil pointer dereference")
           | Some parent => branch_walk index fuel' parent m'
           end
  end.

Definition branchTo (c : Chain) (bi : blockIndex) : result (gmap Z blockIndex) :=
  branch_walk (c_index c) (S (Z.to_nat (bi_height bi))) bi ∅.

Definition wrap_block (h : Z) {A} (r : result A) : result A :=
  match r with Ok a => Ok a | Err e => Err (EWrap "block invalid" h e) end.

(** One height of [replayBranch], on the scratch UTXO set. *)
Definition replay_step (p : Params) (branch : gmap Z blockIndex)
    (st : utxo_map * list Hash32) (h : Z) : result (utxo_map * list Hash32) :=
  match branch !! h with
  | None => Err (ENum "branch missing height" [h])
  | Some bi =>
      _ ← wrap_block h (checkBlockSanity (bi_block bi));
      let '(utxo', r) := validateAndApplyLocked p (bi_block bi) h st.1 in
      _ ← wrap_block h r;
      Ok (utxo', st.2 ++ [bi_id bi])
  end.

Definition replayBranch (c : Chain) (newTip : blockIndex) : result (utxo_map * list Hash32) :=
  branch ← branchTo c newTip;
  foldM (replay_step (c_params c) branch) (∅, []) (seqZ 0 (bi_height newTip + 1)).

Definition evictMempoolLocked (c : Chain) : Chain :=
  set_mempool c (filter (fun e => is_ok (checkTxLocked (c_params c) (c_utxo c) e.2
                                           (bi_height (c_tip c) + 1)) = true)
                        (c_mempool c)).

Definition connectTipLocked (c : Chain) (newTip : blockIndex) : Chain * result unit :=
  let '(utxo', r) :=
    validateAndApplyLocked (c_params c) (bi_block newTip) (bi_height newTip) (c_utxo c) in
  match r with
  | Err e =>
      (mkChain (c_params c) (c_index c) (c_tip c) (c_mainIDs c) utxo' (c_mempool c),
       Err (EWrap "block invalid" (bi_height newTip) e))
  | Ok _ =>
      (evictMempoolLocked
         (mkChain (c_params c) (c_index c) newTip (c_mainIDs c ++ [bi_id newTip])
            utxo' (c_mempool c)), Ok tt)
  end.

Definition connectBranch (c : Chain) (newTip : blockIndex) : Chain * result unit :=
  match replayBranch c newTip with
  | Err e => (c, Err e)
  | Ok (utxo', newMain) =>
      (evictMempoolLocked
         (mkChain (c_params c) (c_index c) newTip newMain utxo' (c_mempool c)), Ok tt)
  end.

(** ** Contextual header rules *)
(** The times of up to [n] blocks ending at [cur], newest first. *)
Fixpoint collect_times (index : gmap Hash32 blockIndex) (n : nat) (cur : option blockIndex)
    : list Z :=
  match n, cur with
  | S n', Some current =>
      hdr_Time (bi_header current) ::
      (if bi_height current =? 0 then []
       else collect_times index n' (index !! hdr_PrevBlock (bi_header current)))
  | _, _ => []
  end.

(** [timestamps[len(timestamps)/2]] of the sorted slice. *)
Definition median_time (timestamps : list Z) : result Z :=
  deref (merge_sort Z.le timestamps !! (length timestamps / 2)%nat) "index out of range".

Definition checkBlockTimestamp (c : Chain) (parent : blockIndex) (height candidateTime now : Z)
    : result unit :=
  let p := c_params c in
  if negb (asertActive p height) then
    _ ← CheckTimestamp candidateTime p now;
    if candidateTime <? i64 (hdr_Time (bi_header parent) - FutureDrift p)
    then Err (EText "block timestamp before parent") else Ok tt
  else if candidateTime >? i64 (now + ASERTFutureDrift p)
  then Err (EText "block timestamp too far in the future")
  else
    let timestamps := collect_times (c_index c) (Z.to_nat (ASERTMedianTimeBlocks p))
                        (Some parent) in
    if (length timestamps =? 0)%nat
    then Err (EText "block timestamp ancestry is unavailable") else
    median ← median_time timestamps;
    if candidateTime <=? median
    then Err (EText "block timestamp is not after median time past") else Ok tt.

(** [ancestorAt]: [None] is the nil pointer.  Every step goes to a parent; the
    fuel is the height of the starting block. *)
Fixpoint ancestorAt (index : gmap Hash32 blockIndex) (fuel : nat) (target : Z)
    (current : option blockIndex) : option blockIndex :=
  match current with
  | None => None
  | Some cur =>
      if bi_height cur >? target then
        match fuel with
        | O => None
        | S fuel' => ancestorAt index fuel' target (index !! hdr_PrevBlock (bi_header cur))
        end
      else if bi_height cur =? target then Some cur else None
  end.

Definition main_at (c : Chain) (h : Z) : result blockIndex :=
  if h <? 0 then Err (EPanic "index out of range") else
  id ← deref (c_mainIDs c !! Z.to_nat h) "index out of range";
  deref (c_index c !! id) "nil pointer dereference".

Definition nextBitsAtLocked (c : Chain) (height : Z) : result Z :=
  NextBits (c_params c) height
    (fun h => bi ← main_at c h; Ok (hdr_Bits (bi_header bi)))
    (fun h => bi ← main_at c h; Ok (hdr_Time (bi_header bi))).

Definition bitsOnBranch (c : Chain) (parent : blockIndex) (height : Z) : result Z :=
  if bool_decide (parent = c_tip c) && (height =? bi_height parent + 1)
  then nextBitsAtLocked c height
  else
    let at_ h := deref (ancestorAt (c_index c) (Z.to_nat (bi_height parent)) h (Some parent))
                   "nil pointer dereference" in
    NextBits (c_params c) height
      (fun h => bi ← at_ h; Ok (hdr_Bits (bi_header bi)))
      (fun h => bi ← at_ h; Ok (hdr_Time (bi_header bi))).

Definition NextBitsForTip (c : Chain) : result Z := nextBitsAtLocked c (bi_height (c_tip c) + 1).

(** ** Accepting a block *)
Definition set_index (c : Chain) (id : Hash32) (bi : blockIndex) : Chain :=
  mkChain (c_params c) (<[id := bi]> (c_index c)) (c_tip c) (c_mainIDs c) (c_utxo c)
    (c_mempool c).

(** The checks of [acceptBlockLocked] before fork choice: the new index entry. *)
Definition check_header (c : Chain) (b : Block) (checkPow : bool) (now : Z)
    (parent : blockIndex) : result blockIndex :=
  let h := blk_Header b in
  _ ← checkBlockSanity b;
  _ ← check (Z.of_nat (length (Block_Bytes b)) <=? MaxBlockBytes) (EText "block too large");
  let height := bi_height parent + 1 in
  _ ← checkBlockTimestamp c parent height (hdr_Time h) now;
  requiredBits ← bitsOnBranch c parent height;
  _ ← check (hdr_Bits h =? requiredBits)
        (ENum "wrong difficulty bits" [hdr_Bits h; requiredBits]);
  _ ← check (negb checkPow || CheckPow h (c_params c)) (EText "proof of work invalid");
  _ ← check (bool_decide (MerkleRoot (blk_Txs b) = hdr_MerkleRoot h))
        (EText "merkle root mismatch");
  Ok (mkBlockIndex b height
        (bi_cumWork parent + WorkFromTarget (CompactToTarget (hdr_Bits h))) (Header_ID h)).

Definition acceptBlockLocked (c : Chain) (b : Block) (checkPow : bool) (now : Z)
    : Chain * result (option blockIndex) :=
  let id := Header_ID (blk_Header b) in
  if decide (is_Some (c_index c !! id)) then (c, Ok None) else
  match c_index c !! hdr_PrevBlock (blk_Header b) with
  | None => (c, Err (EText "orphan: unknown parent"))
  | Some parent =>
      match check_header c b checkPow now parent with
      | Err e => (c, Err e)
      | Ok bi =>
          if bi_cumWork bi <=? bi_cumWork (c_tip c) then
            match replayBranch c bi with
            | Err e => (c, Err e)
            | Ok _ => (set_index c id bi, Ok None)
            end
          else
            let '(c', r) := if decide (parent = c_tip c) then connectTipLocked c bi
                            else connectBranch c bi in
            match r with
            | Err e => (c', Err e)
            | Ok _ => (set_index c' id bi, Ok (Some bi))
            end
      end
  end.

(** The notification passed to [OnNewTip], or the error returned. *)
Definition new_tip_event (r : result (option blockIndex)) : result (option (Block * Z)) :=
  match r with
  | Ok (Some bi) => Ok (Some (bi_block bi, bi_height bi))
  | Ok None => Ok None
  | Err e => Err e
  end.

Definition AcceptBlock (c : Chain) (b : option Block) (now : Z)
    : Chain * result (option (Block * Z)) :=
  match b with
  | None => (c, Err (EText "nil block"))
  | Some b =>
      let '(c', r) := acceptBlockLocked c b true now in
      (c', new_tip_event r)
  end.

Definition acceptStoredBlock (c : Chain) (b : option Block) (now : Z)
    : Chain * result (option (Block * Z)) :=
  match b with
  | None => (c, Err (EText "nil stored block"))
  | Some b =>
      let '(c', r) := acceptBlockLocked c b false now in
      (c', new_tip_event r)
  end.

Definition genesis_index (p : Params) : blockIndex :=
  let g := GenesisBlock p in
  mkBlockIndex g 0 (WorkFromTarget (CompactToTarget (hdr_Bits (blk_Header g))))
    (Header_ID (blk_Header g)).

Definition NewChain (p : option Params) : result Chain :=
  match p with
  | None => Err (EText "nil chain params")
  | Some p =>
      _ ← validateConsensusParams p;
      let g := GenesisBlock p in
      if negb (CheckPow (blk_Header g) p)
      then Err (EText "genesis block fails PoW: params/nonce mismatch") else
      let bi := genesis_index p in
      Ok (mkChain p {[bi_id bi := bi]} bi [bi_id bi] (applyBlockToUTXO g 0 ∅) ∅)
  end.

(** ** Histories *)
(** The public operations that change the chain. *)
Inductive chain_op :=
  | OpTx (tx : option Tx)
  | OpBlock (b : option Block) (now : Z)
  | OpStored (b : option Block) (now : Z).

Definition run_op (c : Chain) (o : chain_op) : Chain :=
  match o with
  | OpTx tx => (AcceptTxWithResult c tx).1
  | OpBlock b now => (AcceptBlock c b now).1
  | OpStored b now => (acceptStoredBlock c b now).1
  end.

(** The states a chain created by [NewChain] goes through. *)
Inductive reachable (p : Params) : Chain -> Prop :=
  | reach_new c : NewChain (Some p) = Ok c -> reachable p c
  | reach_op c o : reachable p c -> reachable p (run_op c o).
End chain.
