(* ===== verification/Ledger.v ===== *)
(** * The ledger: transaction validity, value conservation and the undo log

    Lemmas about the UTXO operations of Chain.v.  [tx_valid] is the declarative
    specification of [checkTxLocked]; [utxo_total] the coins in a UTXO set.  The
    undo log restores the UTXO set exactly, and a block application creates at
    most the subsidy of its height. *)
From S2P Require Import Prelude Params Crypto Pow Wire Merkle Chain.

(** ** The coins of a UTXO set *)
Definition entry_values (m : utxo_map) : list Z := (ue_Value ∘ snd) <$> map_to_list m.
Definition utxo_total (m : utxo_map) : Z := sumZ (entry_values m).
Definition utxo_ok (m : utxo_map) : Prop :=
  map_Forall (fun _ e => 0 < ue_Value e <= MaxMoneyUnits) m.

Lemma utxo_total_empty : utxo_total ∅ = 0.
Proof. done. Qed.

Lemma utxo_total_insert_fresh m k e :
  m !! k = None -> utxo_total (<[k := e]> m) = ue_Value e + utxo_total m.
Proof.
  intros Hk. unfold utxo_total, entry_values.
  by rewrite (map_to_list_insert m k e Hk).
Qed.

Lemma utxo_total_delete m k e :
  m !! k = Some e -> utxo_total m = ue_Value e + utxo_total (delete k m).
Proof.
  intros Hk. rewrite <- (insert_id m k e Hk) at 1. rewrite <- insert_delete_eq.
  apply utxo_total_insert_fresh. by rewrite lookup_delete_eq.
Qed.

Lemma utxo_total_nonneg m : utxo_ok m -> 0 <= utxo_total m.
Proof.
  intros Hm. apply sumZ_nonneg, Forall_fmap, list.Forall_forall.
  intros [k e] Hk%elem_of_map_to_list. apply Hm in Hk. simpl. lia.
Qed.

Lemma utxo_ok_delete m k : utxo_ok m -> utxo_ok (delete k m).
Proof. apply map_Forall_delete. Qed.

Lemma utxo_ok_insert m k e :
  0 < ue_Value e <= MaxMoneyUnits -> utxo_ok m -> utxo_ok (<[k := e]> m).
Proof. intros. by apply map_Forall_insert_2. Qed.

(** Overwriting an existing output can only destroy coins. *)
Lemma utxo_total_insert_le m k e :
  utxo_ok m -> utxo_total (<[k := e]> m) <= ue_Value e + utxo_total m.
Proof.
  intros Hm. destruct (m !! k) as [e0|] eqn:E.
  - rewrite <- insert_delete_eq, utxo_total_insert_fresh by by rewrite lookup_delete_eq.
    rewrite (utxo_total_delete m k e0 E). apply Hm in E. lia.
  - rewrite utxo_total_insert_fresh by done. lia.
Qed.

#[export] Hint Resolve utxo_ok_delete utxo_ok_insert utxo_total_nonneg : btc.

(** ** The undo log *)
Lemma rollback_nil u : rollback u [] = u.
Proof. done. Qed.

Lemma rollback_snoc u undo item :
  rollback u (undo ++ [item]) = rollback (undo_one u item) undo.
Proof. unfold rollback. by rewrite reverse_app. Qed.

Lemma rollback_record_insert u undo op e :
  rollback (<[op := e]> u) (undo_record u undo op) = rollback u undo.
Proof.
  unfold undo_record. rewrite rollback_snoc. f_equal.
  destruct (u !! op) as [e0|] eqn:E; cbn.
  - by rewrite insert_insert_eq, insert_id.
  - by rewrite delete_insert_id.
Qed.

Lemma rollback_record_delete u undo op :
  rollback (delete op u) (undo_record u undo op) = rollback u undo.
Proof.
  unfold undo_record. rewrite rollback_snoc. f_equal.
  destruct (u !! op) as [e0|] eqn:E; cbn.
  - by rewrite insert_delete_eq, insert_id.
  - by rewrite delete_delete_eq, delete_id.
Qed.

Create Rewrite HintDb btc_undo.
#[export] Hint Rewrite rollback_record_insert rollback_record_delete : btc_undo.

Lemma fold_left_preserves {A B C} (f : A -> B -> A) (g : A -> C) l a :
  (forall a b, g (f a b) = g a) -> g (fold_left f l a) = g a.
Proof. intros Hf. revert a; induction l as [|b l IH]; intros a; simpl; [done|]. by rewrite IH. Qed.

Lemma fold_left_fst {A B C} (f : A * C -> B -> A * C) (g : A -> B -> A) l a :
  (forall a b, (f a b).1 = g a.1 b) -> (fold_left f l a).1 = fold_left g l a.1.
Proof.
  intros Hf. revert a; induction l as [|b l IH]; intros a; simpl; [done|]. by rewrite IH, Hf.
Qed.

Lemma foldM_outputs_Ok (e1 e2 e3 e4 : error) outs s s' :
  0 <= s <= MaxMoneyUnits ->
  foldM (check_output e1 e2 e3 e4) s outs = Ok s' <->
  Forall (fun o => 0 < out_Value o <= MaxMoneyUnits) outs /\
  s' = s + sumZ (out_Value <$> outs) /\ s' <= MaxMoneyUnits.
Proof.
  revert s; induction outs as [|o outs IH]; intros s Hs; cbn [foldM fmap list_fmap sumZ].
  - split; [intros [= ->]; repeat split; [constructor|lia..]|].
    intros (_ & -> & _). f_equal. lia.
  - rewrite list.Forall_cons.
    assert (Hstep : forall s1, check_output e1 e2 e3 e4 s o = Ok s1 <->
              0 < out_Value o <= MaxMoneyUnits /\ s1 = s + out_Value o /\ s1 <= MaxMoneyUnits).
    { intros s1. unfold check_output. destruct (Z.ltb_spec (out_Value o) 0); [split; [done|lia]|].
      destruct (Z.eqb_spec (out_Value o) 0); [split; [done|lia]|].
      destruct (MoneyRange (out_Value o)) eqn:Er; cbn [negb];
        [apply MoneyRange_spec in Er|apply MoneyRange_false in Er; split; [done|lia]].
      destruct (checkedAddMoney s (out_Value o)) as [s2|] eqn:Ea.
      - apply checkedAddMoney_Some in Ea as (-> & ? & ? & ?).
        split; [intros [= <-]; lia|intros (_ & -> & _); done].
      - split; [done|]. intros (? & -> & ?). exfalso.
        assert (checkedAddMoney s (out_Value o) = Some (s + out_Value o)) as Hc
          by (apply checkedAddMoney_Some; lia). congruence. }
    destruct (check_output e1 e2 e3 e4 s o) as [s1|e] eqn:Ec.
    + destruct (proj1 (Hstep s1) eq_refl) as (? & -> & ?). rewrite IH by lia.
      split; [intros (? & -> & ?)|intros ([??] & -> & ?)]; repeat split; auto; try lia.
    + split; [done|]. intros ([Ho Hall] & -> & Hle). exfalso.
      assert (0 <= sumZ (out_Value <$> outs)).
      { apply sumZ_nonneg, Forall_fmap. eapply list.Forall_impl; [exact Hall|]. simpl. lia. }
      pose proof (proj2 (Hstep (s + out_Value o)) ltac:(lia)). done.
Qed.

Section ledger.
Context `{Crypto}.

(** ** Transaction validity *)
(** What an input must satisfy against the output it spends. *)
Record input_valid (p : Params) (utxo : utxo_map) (digest : bytes) (height : Z)
    (i : TxIn) (e : UTXOEntry) : Prop := {
  iv_unspent : utxo !! in_Prev i = Some e;
  iv_money : 0 <= ue_Value e <= MaxMoneyUnits;
  iv_mature : ue_Coinbase e = true -> CoinbaseMaturity p <= height - ue_Height e;
  iv_pksize : length (in_PubKey i) = ed25519_PublicKeySize;
  iv_owner : PubKeyHash20 (in_PubKey i) = ue_PKH e;
  iv_signed : ed25519_Verify (in_PubKey i) digest (in_Sig i) = true;
}.

(** The specification of [checkTxLocked]: [entries] are the outputs spent. *)
Record tx_valid (p : Params) (utxo : utxo_map) (tx : Tx) (height : Z)
    (entries : list UTXOEntry) : Prop := {
  tv_ins : tx_Ins tx <> [];
  tv_outs : tx_Outs tx <> [];
  tv_distinct : NoDup (in_Prev <$> tx_Ins tx);
  tv_inputs : Forall2 (input_valid p utxo (SigDigest tx) height) (tx_Ins tx) entries;
  tv_insum : sumZ (ue_Value <$> entries) <= MaxMoneyUnits;
  tv_outputs : Forall (fun o => 0 < out_Value o <= MaxMoneyUnits) (tx_Outs tx);
  tv_balance : sumZ (out_Value <$> tx_Outs tx) <= sumZ (ue_Value <$> entries);
}.

Definition tx_fee (tx : Tx) (entries : list UTXOEntry) : Z :=
  sumZ (ue_Value <$> entries) - sumZ (out_Value <$> tx_Outs tx).

Lemma check_input_Ok p u d h seen s i seen' s' :
  0 <= s <= MaxMoneyUnits ->
  check_input p u d h (seen, s) i = Ok (seen', s') <->
  in_Prev i ∉ seen /\ seen' = {[in_Prev i]} ∪ seen /\
  exists e, input_valid p u d h i e /\ s' = s + ue_Value e /\ s' <= MaxMoneyUnits.
Proof.
  intros Hs. unfold check_input. destruct (decide (in_Prev i ∈ seen)) as [Hin|Hin].
  { split; [done|]. by intros [? _]. }
  destruct (u !! in_Prev i) as [e|] eqn:Eu;
    [|split; [done|]; intros (_ & _ & e & [? _ _ _ _ _] & _); congruence].
  assert (Hdec : (exists e0, input_valid p u d h i e0 /\ s' = s + ue_Value e0 /\ s' <= MaxMoneyUnits)
    <-> (0 <= ue_Value e <= MaxMoneyUnits /\
         (ue_Coinbase e = true -> CoinbaseMaturity p <= h - ue_Height e) /\
         length (in_PubKey i) = ed25519_PublicKeySize /\ PubKeyHash20 (in_PubKey i) = ue_PKH e /\
         ed25519_Verify (in_PubKey i) d (in_Sig i) = true /\
         s' = s + ue_Value e /\ s' <= MaxMoneyUnits)).
  { split.
    - intros (e0 & [H0 ? ? ? ? ?] & ?). rewrite Eu in H0. simplify_eq. tauto.
    - intros (? & ? & ? & ? & ? & ?). exists e. split; [|tauto]. by split. }
  rewrite Hdec. clear Hdec.
  destruct (MoneyRange (ue_Value e)) eqn:Em; cbn [negb];
    [apply MoneyRange_spec in Em|apply MoneyRange_false in Em; split; [done|lia]].
  destruct (ue_Coinbase e && (h - ue_Height e <? CoinbaseMaturity p)) eqn:Ec.
  { bool_prop. split; [done|]. intros (_ & _ & _ & Hc & _). specialize (Hc ltac:(done)). lia. }
  assert (ue_Coinbase e = true -> CoinbaseMaturity p <= h - ue_Height e).
  { intros Hc. rewrite Hc in Ec. simpl in Ec. bool_prop. lia. }
  destruct (Nat.eqb_spec (length (in_PubKey i)) ed25519_PublicKeySize); cbn [negb];
    [|split; [done|tauto]].
  destruct (bool_decide_reflect (PubKeyHash20 (in_PubKey i) = ue_PKH e)); cbn [negb];
    [|split; [done|tauto]].
  destruct (ed25519_Verify _ _ _) eqn:Ev; cbn [negb]; [|split; [done|]; naive_solver].
  destruct (checkedAddMoney s (ue_Value e)) as [s1|] eqn:Ea.
  - apply checkedAddMoney_Some in Ea as (-> & ? & ? & ?). split.
    + intros [= <- <-]. repeat split; auto; lia.
    + intros (_ & -> & _ & _ & _ & _ & _ & -> & _). done.
  - split; [done|]. intros (_ & _ & _ & _ & _ & _ & _ & -> & ?). exfalso.
    assert (checkedAddMoney s (ue_Value e) = Some (s + ue_Value e)) by
      (apply checkedAddMoney_Some; lia). congruence.
Qed.

Lemma input_values_nonneg p u d h ins es :
  Forall2 (input_valid p u d h) ins es -> 0 <= sumZ (ue_Value <$> es).
Proof. induction 1 as [|i e ins es [_ ? _ _ _ _] _ IH]; cbn; [lia|]. cbn in IH. lia. Qed.

Lemma check_inputs_Ok p u d h ins seen s seen' s' :
  0 <= s <= MaxMoneyUnits ->
  foldM (check_input p u d h) (seen, s) ins = Ok (seen', s') <->
  NoDup (in_Prev <$> ins) /\ (forall i, i ∈ ins -> in_Prev i ∉ seen) /\
  seen' = list_to_set (reverse (in_Prev <$> ins)) ∪ seen /\
  exists es, Forall2 (input_valid p u d h) ins es /\
    s' = s + sumZ (ue_Value <$> es) /\ s' <= MaxMoneyUnits.
Proof.
  revert seen s; induction ins as [|i ins IH]; intros seen s Hs; cbn [foldM].
  - split.
    + intros [= <- <-]. repeat split; [constructor|by intros ? ?%elem_of_nil|set_solver|].
      exists []. cbn. repeat split; [constructor|lia..].
    + intros (_ & _ & -> & es & Hes & -> & ?). inv Hes. cbn. do 2 f_equal; [set_solver|lia].
  - rewrite fmap_cons, list.NoDup_cons, reverse_cons. split.
    + destruct (check_input p u d h (seen, s) i) as [[seen1 s1]|] eqn:Ei; [|done].
      apply check_input_Ok in Ei as (Hni & -> & e & He & -> & Hle); [|done].
      assert (0 <= ue_Value e) by apply He.
      intros (Hnd & Hns & -> & es & Hes & -> & ?)%IH; [|lia].
      repeat split; [|done| | |].
      * intros (j & Hj & Hin)%list_elem_of_fmap. specialize (Hns j Hin). set_solver.
      * intros j [->|Hj]%elem_of_cons; [done|]. specialize (Hns j Hj). set_solver.
      * set_solver.
      * exists (e :: es). cbn. repeat split; [by constructor|lia|lia].
    + intros ([Hni Hnd] & Hns & -> & es & Hes & -> & Hle). inv Hes as [|? e ? es' He Hes'].
      assert (0 <= ue_Value e <= MaxMoneyUnits) by apply He.
      rewrite fmap_cons in *. cbn [sumZ] in *.
      pose proof (input_values_nonneg _ _ _ _ _ _ Hes') as Hnn. rewrite (proj2 (check_input_Ok p u d h seen s i ({[in_Prev i]} ∪ seen)
                        (s + ue_Value e) Hs)).
      2:{ repeat split; [by apply Hns; left|exists e; repeat split; [apply He..|lia]]. }
      apply IH; [lia|]. repeat split; [done| |set_solver|].
      * intros j Hj. pose proof (Hns j ltac:(by right)). rewrite not_elem_of_union.
        split; [|done]. rewrite elem_of_singleton. intros Heq. apply Hni.
        rewrite <- Heq. by apply list_elem_of_fmap_2.
      * exists es'. repeat split; [done|lia|lia].
Qed.

(** [checkTxLocked] accepts exactly the valid transactions, with their fee. *)
Lemma checkTxLocked_spec p u tx h fee :
  checkTxLocked p u tx h = Ok fee <->
  exists entries, tx_valid p u tx h entries /\ fee = tx_fee tx entries.
Proof.
  assert (Hm : 0 <= 0 <= MaxMoneyUnits) by (unfold MaxMoneyUnits, UnitsPerCoin; lia).
  unfold checkTxLocked, tx_outputs, tx_fee. split.
  - destruct ((length (tx_Ins tx) =? 0)%nat || _) eqn:El; [done|].
    apply orb_false_iff in El as [Hi%Nat.eqb_neq Ho%Nat.eqb_neq]. intros Hc.
    apply bind_Ok in Hc as ([seen s] & Hin & Hc). apply bind_Ok in Hc as (o & Hout & Hc).
    apply check_inputs_Ok in Hin as (Hnd & _ & _ & es & Hes & -> & Hle); [|done].
    apply foldM_outputs_Ok in Hout as (Hov & -> & Hole); [|done].
    rewrite Z.gtb_ltb in Hc. destruct (Z.ltb_spec (0 + sumZ (ue_Value <$> es))
      (0 + sumZ (out_Value <$> tx_Outs tx))); [done|].
    destruct (MoneyRange _) eqn:Em; cbn [negb] in Hc; [|done]. res_simpl.
    exists es. split; [|lia]. split; auto; try lia.
    + intros Hn. by rewrite Hn in Hi.
    + intros Hn. by rewrite Hn in Ho.
  - intros (es & [Hi Ho Hnd Hes Hle Hov Hbal] & ->).
    destruct (Nat.eqb_spec (length (tx_Ins tx)) 0) as [E|_]; [by apply length_zero_iff_nil in E|].
    destruct (Nat.eqb_spec (length (tx_Outs tx)) 0) as [E|_]; [by apply length_zero_iff_nil in E|].
    cbn [orb].
    rewrite (proj2 (check_inputs_Ok p u (SigDigest tx) h (tx_Ins tx) ∅ 0
                      (list_to_set (reverse (in_Prev <$> tx_Ins tx)) ∪ ∅)
                      (sumZ (ue_Value <$> es)) Hm)).
    2:{ repeat split; [done|set_solver|exists es; repeat split; [done|lia..]]. }
    cbn [mbind result_bind].
    rewrite (proj2 (foldM_outputs_Ok _ _ _ _ (tx_Outs tx) 0 (sumZ (out_Value <$> tx_Outs tx)) Hm))
      by (repeat split; [done|lia..]).
    cbn [mbind result_bind]. rewrite Z.gtb_ltb.
    destruct (Z.ltb_spec (sumZ (ue_Value <$> es)) (sumZ (out_Value <$> tx_Outs tx))); [lia|].
    assert (0 <= sumZ (out_Value <$> tx_Outs tx)).
    { apply sumZ_nonneg, Forall_fmap. eapply list.Forall_impl; [exact Hov|]. simpl. lia. }
    rewrite (proj2 (MoneyRange_spec _)) by lia. done.
Qed.

Lemma check_output_no_panic e1 e2 e3 e4 s o e :
  is_panic e1 = false -> is_panic e2 = false -> is_panic e3 = false -> is_panic e4 = false ->
  check_output e1 e2 e3 e4 s o = Err e -> is_panic e = false.
Proof. unfold check_output. intros. repeat case_match; by simplify_eq. Qed.

Lemma checkTxLocked_no_panic p u tx h e : checkTxLocked p u tx h = Err e -> is_panic e = false.
Proof.
  unfold checkTxLocked. destruct (_ || _); [by intros [= <-]|].
  destruct (foldM (check_input _ _ _ _) _ _) as [[seen s]|e1] eqn:Ei; cbn.
  - destruct (foldM tx_outputs _ _) as [o|e1] eqn:Eo; cbn.
    + destruct (_ >? _); [by intros [= <-]|]. destruct (MoneyRange _); [done|by intros [= <-]].
    + intros [= <-]. eapply foldM_no_panic; [|exact Eo].
      intros ? ? ?. by apply check_output_no_panic.
  - intros [= <-]. eapply foldM_no_panic; [|exact Ei]. intros [? ?] i e Hi.
    unfold check_input in Hi. repeat case_match; by simplify_eq.
Qed.

Lemma sanity_tx_no_panic st itx e : sanity_tx st itx = Err e -> is_panic e = false.
Proof.
  destruct st as [ids spent], itx as [n tx]. unfold sanity_tx. intros Hs.
  destruct (_ && _); [by simplify_eq|]. destruct (_ || _); [by simplify_eq|].
  destruct (decide _); [by simplify_eq|].
  destruct (if (0 <? n)%nat then _ else _) as [sp|e1] eqn:E1; cbn in Hs; simplify_eq.
  - destruct (foldM block_outputs 0 (tx_Outs tx)) as [o|e2] eqn:E2; cbn in Hs; simplify_eq.
    eapply foldM_no_panic; [|exact E2]. intros ? ? ?. by apply check_output_no_panic.
  - destruct (0 <? n)%nat; [|done]. eapply foldM_no_panic; [|exact E1].
    intros ? ? ?. unfold sanity_spend. case_match; [by intros [= <-]|done].
Qed.

Lemma checkBlockSanity_no_panic b e : checkBlockSanity b = Err e -> is_panic e = false.
Proof.
  unfold checkBlockSanity. destruct (blk_Txs b) as [|cb txs] eqn:Et; [by intros [= <-]|].
  destruct (negb _); [by intros [= <-]|].
  destruct (foldM _ _ _) as [?|e1] eqn:E; cbn; [done|]. intros [= <-].
  eapply foldM_no_panic; [|exact E]. intros ? ? ?. apply sanity_tx_no_panic.
Qed.

Lemma checkBlockSanity_nonempty b : checkBlockSanity b = Ok tt -> blk_Txs b <> [].
Proof. unfold checkBlockSanity. by destruct (blk_Txs b). Qed.

(** ** Applying transactions *)
Lemma spendAndCreateWithUndo_rollback tx h cb st :
  rollback (spendAndCreateWithUndo tx h cb st).1 (spendAndCreateWithUndo tx h cb st).2
  = rollback st.1 st.2.
Proof.
  unfold spendAndCreateWithUndo.
  rewrite (fold_left_preserves _ (fun st => rollback st.1 st.2)).
  - destruct cb; [done|].
    apply (fold_left_preserves _ (fun st => rollback st.1 st.2)).
    intros a i. unfold spend_input. cbn [fst snd]. by autorewrite with btc_undo.
  - intros a i. unfold create_output. cbn [fst snd]. by autorewrite with btc_undo.
Qed.

Lemma spendAndCreateWithUndo_fst tx h cb st :
  (spendAndCreateWithUndo tx h cb st).1 = spendAndCreate tx h cb st.1.
Proof.
  unfold spendAndCreateWithUndo, spendAndCreate.
  rewrite (fold_left_fst _ (fun m io => <[mkOutPoint (Tx_ID tx) (u32 (Z.of_nat io.1))
                            := out_entry h cb io.2]> m)) by done.
  f_equal. destruct cb; [done|]. by apply fold_left_fst.
Qed.

(** The outputs a transaction creates, by outpoint. *)
Lemma create_total id h cb outs n u :
  utxo_ok u -> Forall (fun o => 0 < out_Value o <= MaxMoneyUnits) outs ->
  let u' := fold_left (fun m io => <[mkOutPoint id (u32 (Z.of_nat io.1))
                            := out_entry h cb io.2]> m) (zip (seq n (length outs)) outs) u in
  utxo_ok u' /\ utxo_total u' <= utxo_total u + sumZ (out_Value <$> outs).
Proof.
  revert n u; induction outs as [|o outs IH]; intros n u Hu Ho; cbn; [split; [done|lia]|].
  inv Ho as [|? ? Hv Hrest].
  pose proof (utxo_total_insert_le u (mkOutPoint id (u32 (Z.of_nat n))) (out_entry h cb o) Hu).
  destruct (IH (S n) (<[mkOutPoint id (u32 (Z.of_nat n)) := out_entry h cb o]> u)) as [Hok Hle];
    [auto with btc|done|]. split; [done|]. cbn in *. lia.
Qed.

Lemma unspent_delete (u : utxo_map) k ins es :
  k ∉ in_Prev <$> ins -> Forall2 (fun i e => u !! in_Prev i = Some e) ins es ->
  Forall2 (fun i e => delete k u !! in_Prev i = Some e) ins es.
Proof.
  induction 2 as [|i e ins es He _ IH]; constructor.
  - rewrite lookup_delete_ne; [done|]. set_solver.
  - apply IH. set_solver.
Qed.

Lemma spend_total p u d h ins es :
  NoDup (in_Prev <$> ins) -> Forall2 (input_valid p u d h) ins es -> utxo_ok u ->
  let u' := fold_left (fun m i => delete (in_Prev i) m) ins u in
  utxo_ok u' /\ utxo_total u' = utxo_total u - sumZ (ue_Value <$> es).
Proof.
  intros Hnd Hes. assert (Hl : Forall2 (fun i e => u !! in_Prev i = Some e) ins es).
  { eapply list.Forall2_impl; [exact Hes|]. by intros ? ? [? _ _ _ _ _]. } clear Hes.
  revert es u Hnd Hl. induction ins as [|i ins IH]; intros es u Hnd Hl Hu; inv Hl as [|? e ? es' He Hl'];
    cbn; [split; [done|lia]|].
  rewrite fmap_cons, list.NoDup_cons in Hnd. destruct Hnd as [Hni Hnd].
  pose proof (utxo_total_delete _ _ _ He).
  edestruct (IH es' (delete (in_Prev i) u)) as [Hok Htot]; [done| |auto with btc|].
  { by apply unspent_delete. }
  split; [done|]. cbn in *. lia.
Qed.

(** A valid transaction moves value: what the set loses is the fee (or more,
    when it overwrites an output). *)
Lemma spendAndCreate_total p u tx h es :
  tx_valid p u tx h es -> utxo_ok u ->
  utxo_ok (spendAndCreate tx h false u) /\
  utxo_total (spendAndCreate tx h false u) + tx_fee tx es <= utxo_total u.
Proof.
  intros [_ _ Hnd Hes _ Hov _] Hu. unfold spendAndCreate, tx_fee.
  destruct (spend_total _ _ _ _ _ _ Hnd Hes Hu) as [Hok Htot].
  destruct (create_total (Tx_ID tx) h false (tx_Outs tx) 0 _ Hok Hov) as [Hok' Hle].
  split; [done|]. unfold indexed. cbv zeta in *. lia.
Qed.

Lemma apply_txs_total p h txs : forall st fees st' fees',
  apply_txs p h txs st fees = (st', Ok fees') -> utxo_ok st.1 -> 0 <= fees <= MaxMoneyUnits ->
  utxo_ok st'.1 /\ utxo_total st'.1 + fees' <= utxo_total st.1 + fees /\
  0 <= fees' <= MaxMoneyUnits.
Proof.
  induction txs as [|tx txs IH]; intros st fees st' fees' Ha Hu Hf; cbn [apply_txs] in Ha.
  - simplify_eq. split_and!; [done|lia..].
  - destruct (checkTxLocked p st.1 tx h) as [fee|] eqn:Ec; [|done].
    destruct (checkedAddMoney fees fee) as [fees1|] eqn:Ea; [|done].
    apply checkTxLocked_spec in Ec as (es & Hv & ->).
    apply checkedAddMoney_Some in Ea as (-> & ? & ? & ?).
    destruct (spendAndCreate_total _ _ _ _ _ Hv Hu) as [Hok Hle].
    apply IH in Ha as (? & ? & ?);
      [|by rewrite spendAndCreateWithUndo_fst|lia].
    rewrite spendAndCreateWithUndo_fst in *. split_and!; [done|lia..].
Qed.

Lemma apply_txs_rollback p h txs : forall st fees st' r,
  apply_txs p h txs st fees = (st', r) -> rollback st'.1 st'.2 = rollback st.1 st.2.
Proof.
  induction txs as [|tx txs IH]; intros st fees st' r Ha; cbn [apply_txs] in Ha;
    [by simplify_eq|].
  destruct (checkTxLocked p st.1 tx h) as [fee|]; [|by simplify_eq].
  destruct (checkedAddMoney fees fee) as [fees1|]; [|by simplify_eq].
  apply IH in Ha. by rewrite Ha, spendAndCreateWithUndo_rollback.
Qed.

(** A block that is rejected leaves the UTXO set as it was. *)
Lemma validateAndApply_err p b h u u' e :
  validateAndApplyLocked p b h u = (u', Err e) -> u' = u.
Proof.
  unfold validateAndApplyLocked.
  destruct (apply_txs p h (tail (blk_Txs b)) (u, []) 0) as [[u1 undo] r] eqn:Ea.
  pose proof (apply_txs_rollback _ _ _ _ _ _ _ Ea) as Hr. cbn [fst snd] in Hr.
  rewrite rollback_nil in Hr. intros Hv.
  destruct r as [fees|e1]; [|by simplify_eq].
  destruct (blk_Txs b) as [|cb txs]; [by simplify_eq/=|].
  repeat case_match; simplify_eq; done.
Qed.

(** A connected block mints at most its subsidy. *)
Lemma validateAndApply_total p b h u u' :
  validateAndApplyLocked p b h u = (u', Ok tt) -> utxo_ok u ->
  utxo_ok u' /\ utxo_total u' <= utxo_total u + SubsidyAt h.
Proof.
  assert (Hm : 0 <= 0 <= MaxMoneyUnits) by (unfold MaxMoneyUnits, UnitsPerCoin; lia).
  unfold validateAndApplyLocked.
  destruct (apply_txs p h (tail (blk_Txs b)) (u, []) 0) as [[u1 undo] r] eqn:Ea.
  intros Hv Hu. destruct r as [fees|]; [|done]. destruct (blk_Txs b) as [|cb txs]; [done|].
  destruct (foldM coinbase_outputs 0 (tx_Outs cb)) as [cbOut|] eqn:Eo; [|done].
  destruct (checkedAddMoney (SubsidyAt h) fees) as [allowed|] eqn:Es; [|done].
  destruct (Z.gtb_spec cbOut allowed); [done|].
  apply apply_txs_total in Ea as (Hok1 & Htot1 & Hf); [|done..].
  apply foldM_outputs_Ok in Eo as (Hov & -> & _); [|done].
  apply checkedAddMoney_Some in Es as (-> & _).
  rewrite spendAndCreateWithUndo_fst in Hv. injection Hv as <-. cbn [fst] in *.
  unfold spendAndCreate.
  destruct (create_total (Tx_ID cb) h true (tx_Outs cb) 0 u1 Hok1 Hov) as [? ?].
  split; [done|]. unfold indexed. cbv zeta in *. lia.
Qed.

Lemma apply_txs_no_panic p h txs : forall st fees st' e,
  apply_txs p h txs st fees = (st', Err e) -> is_panic e = false.
Proof.
  induction txs as [|tx txs IH]; intros st fees st' e Ha; cbn [apply_txs] in Ha; [done|].
  destruct (checkTxLocked p st.1 tx h) as [fee|] eqn:E;
    [|simplify_eq; by eapply checkTxLocked_no_panic].
  destruct (checkedAddMoney fees fee); [by eapply IH|by simplify_eq].
Qed.

Lemma validateAndApply_no_panic p b h u u' e :
  blk_Txs b <> [] -> validateAndApplyLocked p b h u = (u', Err e) -> is_panic e = false.
Proof.
  intros Hne. unfold validateAndApplyLocked.
  destruct (apply_txs p h (tail (blk_Txs b)) (u, []) 0) as [[u1 undo] [fees|e1]] eqn:Ea.
  - destruct (blk_Txs b) as [|cb txs]; [done|].
    destruct (foldM coinbase_outputs 0 (tx_Outs cb)) as [?|e1] eqn:Eo.
    + repeat case_match; intros; by simplify_eq.
    + intros [= _ <-]. eapply foldM_no_panic; [|exact Eo].
      intros ? ? ?. by apply check_output_no_panic.
  - intros [= _ <-]. by eapply apply_txs_no_panic.
Qed.

(** The genesis bootstrap is the validated application of the genesis block. *)
Lemma genesis_validates p :
  validateAndApplyLocked p (GenesisBlock p) 0 ∅ = (applyBlockToUTXO (GenesisBlock p) 0 ∅, Ok tt).
Proof. reflexivity. Qed.

Lemma genesis_sane p : checkBlockSanity (GenesisBlock p) = Ok tt.
Proof. reflexivity. Qed.
End ledger.
