(* ===== verification/Sanity.v ===== *)
(** * The context-free block rules, declaratively

    [block_sane] is the specification of [checkBlockSanity] (core/chain.go); the
    equivalence is used by the miner's theorems and is a theorem of its own. *)
From S2P Require Import Prelude Params Crypto Pow Wire Merkle Chain Ledger.

Section sanity.
Context `{Crypto}.

Definition outs_ok (outs : list TxOut) : Prop :=
  Forall (fun o => 0 < out_Value o <= MaxMoneyUnits) outs /\
  sumZ (out_Value <$> outs) <= MaxMoneyUnits.

Definition tx_shape (tx : Tx) : Prop :=
  tx_Ins tx <> [] /\ tx_Outs tx <> [] /\ outs_ok (tx_Outs tx).

Definition tx_prevs (tx : Tx) : list OutPoint := in_Prev <$> tx_Ins tx.

(** One coinbase, first; shapes and sums; distinct ids; distinct inputs. *)
Record block_sane (b : Block) (cb : Tx) (txs : list Tx) : Prop := {
  bs_txs : blk_Txs b = cb :: txs;
  bs_coinbase : IsCoinbase cb = true;
  bs_payments : Forall (fun t => IsCoinbase t = false) txs;
  bs_shapes : Forall tx_shape (cb :: txs);
  bs_ids : NoDup (Tx_ID <$> cb :: txs);
  bs_inputs : NoDup (flat_map tx_prevs txs);
}.

Lemma sanity_spend_Ok ins : forall spent spent',
  foldM sanity_spend spent ins = Ok spent' <->
  NoDup (in_Prev <$> ins) /\ (forall i, i ∈ ins -> in_Prev i ∉ spent) /\
  spent' = list_to_set (in_Prev <$> ins) ∪ spent.
Proof.
  induction ins as [|i ins IH]; intros spent spent'; cbn [foldM].
  - split; [intros [= ->]; split_and!; [constructor|set_solver|set_solver]|].
    intros (_ & _ & ->). f_equal. set_solver.
  - rewrite fmap_cons, list.NoDup_cons. unfold sanity_spend at 1.
    destruct (decide (in_Prev i ∈ spent)) as [Hin|Hin].
    { split; [done|]. intros (_ & Hn & _). exfalso. by apply (Hn i); [left|]. }
    rewrite IH. split.
    + intros (Hnd & Hns & ->). split_and!; [|done| |set_solver].
      * intros (j & Hj & Hji)%list_elem_of_fmap. apply (Hns j Hji). set_solver.
      * intros j [->|Hj]%elem_of_cons; [done|]. specialize (Hns j Hj). set_solver.
    + intros ([Hni Hnd] & Hns & ->). split_and!; [done| |set_solver].
      intros j Hj. pose proof (Hns j ltac:(by right)). rewrite not_elem_of_union.
      split; [|done]. rewrite elem_of_singleton. intros Heq. apply Hni. rewrite <- Heq.
      by apply list_elem_of_fmap_2.
Qed.

Lemma block_outputs_Ok outs : is_ok (foldM block_outputs 0 outs) = true <-> outs_ok outs.
Proof.
  assert (Hm : 0 <= 0 <= MaxMoneyUnits) by (unfold MaxMoneyUnits, UnitsPerCoin; lia).
  pose proof (fun s => foldM_outputs_Ok (moneyRangeError "negative block output")
    (EText "non-positive block output") (moneyRangeError "block output value")
    (moneyRangeError "block transaction output total") outs 0 s Hm) as Hspec.
  fold block_outputs in Hspec. unfold outs_ok.
  destruct (foldM block_outputs 0 outs) as [s|e1]; cbn; split; try done.
  - intros _. destruct (proj1 (Hspec s) eq_refl) as (? & -> & ?). split; [done|lia].
  - intros [Ho Hs]. exfalso.
    by assert (Err e1 = Ok (sumZ (out_Value <$> outs))) by (apply Hspec; split_and!; [done|lia..]).
Qed.

Lemma nonempty_eqb {A} (l : list A) : (length l =? 0)%nat = false <-> l <> [].
Proof. destruct l; cbn; split; congruence. Qed.

Lemma sanity_tx_Ok ids spent n tx ids' spent' :
  sanity_tx (ids, spent) (n, tx) = Ok (ids', spent') <->
  ((0 < n)%nat -> IsCoinbase tx = false) /\ tx_shape tx /\ Tx_ID tx ∉ ids /\
  ids' = {[Tx_ID tx]} ∪ ids /\
  (if (0 <? n)%nat then foldM sanity_spend spent (tx_Ins tx) else Ok spent) = Ok spent'.
Proof.
  unfold sanity_tx, tx_shape. rewrite <- block_outputs_Ok, <- !nonempty_eqb.
  destruct (Nat.ltb_spec 0 n) as [Hn|Hn]; cbn [andb].
  1: destruct (IsCoinbase tx) eqn:Ecb; [split; [done|intros (Hc & _); by specialize (Hc Hn)]|].
  all: destruct (length (tx_Ins tx) =? 0)%nat; cbn [orb]; [split; [done|naive_solver]|].
  all: destruct (length (tx_Outs tx) =? 0)%nat; [split; [done|naive_solver]|].
  all: destruct (decide (Tx_ID tx ∈ ids)); [split; [done|naive_solver]|].
  - destruct (foldM sanity_spend spent (tx_Ins tx)) as [sp|]; cbn; [|split; [done|naive_solver]].
    destruct (foldM block_outputs 0 (tx_Outs tx)); cbn; [|split; [done|naive_solver]].
    split; [intros [= <- <-]; done|]. intros (_ & _ & _ & -> & [= ->]). done.
  - destruct (foldM block_outputs 0 (tx_Outs tx)); cbn; [|split; [done|naive_solver]].
    split; [intros [= <- <-]; split_and!; try done; lia|]. intros (_ & _ & _ & -> & [= ->]). done.
Qed.

(** The transactions after the coinbase. *)
Lemma sanity_payments_Ok txs : forall n ids spent, (0 < n)%nat ->
  is_ok (foldM sanity_tx (ids, spent) (zip (seq n (length txs)) txs)) = true <->
  Forall (fun t => IsCoinbase t = false) txs /\ Forall tx_shape txs /\
  NoDup (Tx_ID <$> txs) /\ (forall t, t ∈ txs -> Tx_ID t ∉ ids) /\
  NoDup (flat_map tx_prevs txs) /\ (forall op, op ∈ flat_map tx_prevs txs -> op ∉ spent).
Proof.
  induction txs as [|tx txs IH]; intros n ids spent Hn.
  { cbn. split; [|done]. intros _. split_and!; try constructor; set_solver. }
  cbn [length seq zip zip_with foldM flat_map].
  rewrite !list.Forall_cons, fmap_cons, list.NoDup_cons, NoDup_app.
  assert (Hstep : forall st, sanity_tx (ids, spent) (n, tx) = Ok st <->
    IsCoinbase tx = false /\ tx_shape tx /\ Tx_ID tx ∉ ids /\ NoDup (tx_prevs tx) /\
    (forall op, op ∈ tx_prevs tx -> op ∉ spent) /\
    st = ({[Tx_ID tx]} ∪ ids, list_to_set (tx_prevs tx) ∪ spent)).
  { intros [ids' spent']. rewrite sanity_tx_Ok, (proj2 (Nat.ltb_lt 0 n) Hn), sanity_spend_Ok.
    unfold tx_prevs. split.
    - intros (Hc & ? & ? & -> & ? & Hs & ->). split_and!; auto.
      intros op (i & -> & Hi)%list_elem_of_fmap. auto.
    - intros (? & ? & ? & ? & Hs & [= -> ->]). split_and!; auto.
      intros i Hi. apply Hs. by apply list_elem_of_fmap_2. }
  destruct (sanity_tx (ids, spent) (n, tx)) as [[ids1 spent1]|e] eqn:Et.
  - destruct (proj1 (Hstep _) eq_refl) as (? & ? & ? & ? & Hs & [= -> ->]).
    rewrite (IH (S n)) by lia. split.
    + intros (? & ? & ? & Hids & ? & Hsp). split_and!; auto.
      * intros (t & Ht & Hin)%list_elem_of_fmap. specialize (Hids t Hin). set_solver.
      * intros t [->|Ht]%elem_of_cons; [done|]. specialize (Hids t Ht). set_solver.
      * intros op Hop Hop'. specialize (Hsp op Hop'). set_solver.
      * intros op [Hop|Hop]%elem_of_app; [auto|]. specialize (Hsp op Hop). set_solver.
    + intros ([? ?] & [? ?] & [Hni ?] & Hids & (_ & Hdis & ?) & Hsp). split_and!; auto.
      * intros t Ht. pose proof (Hids t ltac:(by right)). rewrite not_elem_of_union,
          elem_of_singleton. split; [|done]. intros He. apply Hni. rewrite <- He.
        by apply list_elem_of_fmap_2.
      * intros op Hop. rewrite not_elem_of_union, elem_of_list_to_set. split.
        -- intros Hop'. by apply (Hdis op).
        -- apply Hsp, elem_of_app. by right.
  - split; [done|]. intros ([? ?] & [? ?] & [Hni ?] & Hids & (? & Hdis & ?) & Hsp). exfalso.
    assert (Hn' : Err e = Ok ({[Tx_ID tx]} ∪ ids, list_to_set (tx_prevs tx) ∪ spent)); [|done].
    apply Hstep. split_and!; auto.
    + apply Hids. by left.
    + intros op Hop. apply Hsp, elem_of_app. by left.
Qed.

Lemma checkBlockSanity_spec b :
  checkBlockSanity b = Ok tt <-> exists cb txs, block_sane b cb txs.
Proof.
  unfold checkBlockSanity. destruct (blk_Txs b) as [|cb txs] eqn:Eb.
  { split; [done|]. intros (cb & txs & [Hb _ _ _ _ _]). congruence. }
  assert (Hiff : is_ok (foldM sanity_tx (∅, ∅) (indexed (cb :: txs))) = true <->
    tx_shape cb /\ Forall (fun t => IsCoinbase t = false) txs /\ Forall tx_shape txs /\
    NoDup (Tx_ID <$> cb :: txs) /\ NoDup (flat_map tx_prevs txs)).
  { cbn [indexed length seq zip zip_with foldM]. rewrite fmap_cons, list.NoDup_cons.
    destruct (sanity_tx (∅, ∅) (0%nat, cb)) as [[ids sp]|e] eqn:Ec.
    - apply sanity_tx_Ok in Ec as (_ & Hsh & _ & -> & [= <-]).
      rewrite sanity_payments_Ok by lia. split.
      + intros (? & ? & ? & Hids & ? & _). split_and!; auto.
        intros (t & Ht & Hin)%list_elem_of_fmap. specialize (Hids t Hin). set_solver.
      + intros (_ & ? & ? & [Hni ?] & ?). split_and!; auto; [|set_solver].
        intros t Ht. rewrite (right_id_L ∅ (∪)), elem_of_singleton. intros He. apply Hni.
        rewrite <- He. by apply list_elem_of_fmap_2.
    - split; [done|]. intros (Hsh & _). exfalso.
      assert (Hn : Err e = Ok ({[Tx_ID cb]} ∪ ∅ : gset Hash32, ∅ : gset OutPoint)); [|done].
      rewrite <- Ec. apply sanity_tx_Ok. split_and!; auto; [lia|set_solver]. }
  split.
  - destruct (IsCoinbase cb) eqn:Ecb; [|done]. cbn [negb].
    destruct (foldM sanity_tx (∅, ∅) (indexed (cb :: txs))); [|done]. intros _.
    destruct (proj1 Hiff eq_refl) as (? & ? & ? & ? & ?). exists cb, txs. split; auto.
  - intros (cb' & txs' & [Hb Hcb Hp Hsh Hid Hin]). rewrite Eb in Hb. injection Hb as <- <-.
    rewrite Hcb. cbn [negb]. inv Hsh as [|? ? Hsh1 Hsh2].
    assert (Hok : is_ok (foldM sanity_tx (∅, ∅) (indexed (cb :: txs))) = true)
      by (apply Hiff; split_and!; auto).
    by destruct (foldM sanity_tx (∅, ∅) (indexed (cb :: txs))).
Qed.
End sanity.

(** [checkBlockSanity] accepts a block exactly when its first
    transaction is its only coinbase, every transaction has inputs and outputs
    with positive amounts summing within the money range, the transaction ids are
    distinct and no outpoint is spent twice by the payments. *)
Theorem block_sanity_spec `{Crypto} b :
  checkBlockSanity b = Ok tt <-> exists cb txs, block_sane b cb txs.
Proof. apply checkBlockSanity_spec. Qed.
