(* ===== verification/ChainInv.v ===== *)
(** * Invariants of the chain state

    [branch] relates an index entry to the list of entries from genesis to it;
    [replay] is the reference semantics of a branch: the UTXO set obtained by
    validating its blocks in order from the empty set.  [chain_inv] states that
    every indexed block ends a fully valid branch, that the live UTXO set is the
    replay of the best branch, that no indexed block has more work than the tip,
    and that the mempool is valid and free of conflicts.  Every operation of the
    chain preserves it. *)
From S2P Require Import Prelude Params Crypto Pow Wire Merkle Chain Ledger.

(** Projections of the updated chain states. *)
Ltac chain_simpl :=
  cbn [set_mempool set_index evictMempoolLocked c_params c_index c_tip c_mainIDs c_utxo
       c_mempool fst snd].

Section inv.
Context `{Crypto} (p : Params).

Abbreviation index_map := (gmap Hash32 blockIndex).

Definition block_work (bi : blockIndex) : Z :=
  WorkFromTarget (CompactToTarget (hdr_Bits (bi_header bi))).

(** A block within the size limit has at most a million transactions, each with at most a
    million inputs and outputs: indexes into it fit 32 bits. *)
Definition block_counts (b : Block) : Prop :=
  Z.of_nat (length (blk_Txs b)) <= MaxBlockBytes /\
  Forall (fun t => Z.of_nat (length (tx_Ins t)) <= MaxBlockBytes /\
                   Z.of_nat (length (tx_Outs t)) <= MaxBlockBytes) (blk_Txs b).

(** The context-free facts checked before a block enters the index. *)
Record entry_ok (bi : blockIndex) : Prop := {
  eo_id : bi_id bi = Header_ID (bi_header bi);
  eo_merkle : MerkleRoot (blk_Txs (bi_block bi)) = hdr_MerkleRoot (bi_header bi);
  eo_sane : checkBlockSanity (bi_block bi) = Ok tt;
  eo_target : target_ok p (hdr_Bits (bi_header bi));
  eo_counts : block_counts (bi_block bi);
}.

(** *** Header rules relative to the branch [l] of the parent *)
Definition at_list (l : list blockIndex) (h : Z) : result blockIndex :=
  if h <? 0 then Err (EPanic "index out of range") else deref (l !! Z.to_nat h) "index out of range".

Definition list_bits (l : list blockIndex) : result Z :=
  NextBits p (Z.of_nat (length l))
    (fun h => bi ← at_list l h; Ok (hdr_Bits (bi_header bi)))
    (fun h => bi ← at_list l h; Ok (hdr_Time (bi_header bi))).

Definition times (l : list blockIndex) : list Z := (fun bi => hdr_Time (bi_header bi)) <$> l.

(** The part of the timestamp rule that does not depend on the local clock. *)
Definition time_rule (l : list blockIndex) (t : Z) : Prop :=
  if asertActive p (Z.of_nat (length l)) then
    exists m, median_time (take (Z.to_nat (ASERTMedianTimeBlocks p)) (reverse (times l))) = Ok m
              /\ m < t
  else exists parent, last l = Some parent /\
                      i64 (hdr_Time (bi_header parent) - FutureDrift p) <= t.

Record header_ok (l : list blockIndex) (bi : blockIndex) : Prop := {
  ho_size : Z.of_nat (length (Block_Bytes (bi_block bi))) <= MaxBlockBytes;
  ho_bits : list_bits l = Ok (hdr_Bits (bi_header bi));
  ho_time : time_rule l (hdr_Time (bi_header bi));
}.

Inductive branch (idx : index_map) : blockIndex -> list blockIndex -> Prop :=
  | branch_genesis : branch idx (genesis_index p) [genesis_index p]
  | branch_child parent bi l :
      branch idx parent l ->
      idx !! hdr_PrevBlock (bi_header bi) = Some parent ->
      bi_id parent = hdr_PrevBlock (bi_header bi) ->
      bi_height bi = bi_height parent + 1 ->
      bi_cumWork bi = bi_cumWork parent + block_work bi ->
      entry_ok bi -> header_ok l bi ->
      branch idx bi (l ++ [bi]).

(** The reference semantics of a branch. *)
Definition replay_one (u : utxo_map) (bi : blockIndex) : result utxo_map :=
  match validateAndApplyLocked p (bi_block bi) (bi_height bi) u with
  | (u', Ok _) => Ok u'
  | (_, Err e) => Err e
  end.
Definition replay (l : list blockIndex) : result utxo_map := foldM replay_one ∅ l.

Definition mempool_valid (m : gmap Hash32 Tx) (u : utxo_map) (height : Z) : Prop :=
  forall id tx, m !! id = Some tx ->
    Tx_ID tx = id /\ IsCoinbase tx = false /\ exists fee, checkTxLocked p u tx height = Ok fee.

Definition conflict_free (m : gmap Hash32 Tx) : Prop :=
  forall id1 id2 tx1 tx2 i1 i2,
    m !! id1 = Some tx1 -> m !! id2 = Some tx2 -> id1 <> id2 ->
    i1 ∈ tx_Ins tx1 -> i2 ∈ tx_Ins tx2 -> in_Prev i1 <> in_Prev i2.

Record chain_inv (c : Chain) : Prop := {
  ci_params : c_params c = p;
  ci_index : forall id bi, c_index c !! id = Some bi -> bi_id bi = id /\
    exists l u, branch (c_index c) bi l /\ replay l = Ok u;
  ci_genesis : c_index c !! bi_id (genesis_index p) = Some (genesis_index p);
  ci_tip : c_index c !! bi_id (c_tip c) = Some (c_tip c);
  ci_main : exists l, branch (c_index c) (c_tip c) l /\ c_mainIDs c = bi_id <$> l /\
    replay l = Ok (c_utxo c);
  ci_best : forall id bi, c_index c !! id = Some bi -> bi_cumWork bi <= bi_cumWork (c_tip c);
  ci_mempool : mempool_valid (c_mempool c) (c_utxo c) (bi_height (c_tip c) + 1);
  ci_conflicts : conflict_free (c_mempool c);
}.

(** ** Branches *)
Lemma branch_last idx bi l : branch idx bi l -> last l = Some bi.
Proof. destruct 1; [done|]. by rewrite last_snoc. Qed.

Lemma branch_length idx bi l : branch idx bi l -> Z.of_nat (length l) = bi_height bi + 1.
Proof.
  induction 1 as [|parent bi l _ IH _ _ Hh _ _]; [done|]. rewrite length_app. cbn. lia.
Qed.

Lemma branch_height_nonneg idx bi l : branch idx bi l -> 0 <= bi_height bi.
Proof. induction 1; cbn in *; lia. Qed.

Lemma branch_heights idx bi l : branch idx bi l ->
  forall i b, l !! i = Some b -> bi_height b = Z.of_nat i.
Proof.
  induction 1 as [|parent bi l Hb IH _ _ Hh _ _]; intros i b Hi.
  - destruct i as [|[|?]]; cbn in Hi; by simplify_eq.
  - apply lookup_app_Some in Hi as [Hi|[Hl Hi]]; [by apply IH|].
    destruct (i - length l)%nat as [|[|?]] eqn:E; cbn in Hi; simplify_eq.
    pose proof (branch_length _ _ _ Hb). lia.
Qed.

Lemma branch_mono idx idx' bi l :
  (forall id b, idx !! id = Some b -> idx' !! id = Some b) ->
  branch idx bi l -> branch idx' bi l.
Proof.
  intros Hsub. induction 1; [constructor|]. econstructor; eauto.
Qed.

Lemma branch_insert idx id b bi l :
  idx !! id = None -> branch idx bi l -> branch (<[id := b]> idx) bi l.
Proof.
  intros Hid. apply branch_mono. intros id' b' Hb'.
  rewrite lookup_insert_ne; [done|]. congruence.
Qed.

(** A branch is determined by its last block. *)
Lemma branch_unique idx bi l1 l2 : branch idx bi l1 -> branch idx bi l2 -> l1 = l2.
Proof.
  intros Hb. revert l2. induction Hb as [|parent bi l Hb IH Hp _ Hh _ _]; intros l2 H2.
  - inv H2 as [|parent ? l Hb Hp _ Hh _ _]; [done|].
    apply branch_height_nonneg in Hb. cbn in Hh. lia.
  - inv H2 as [|parent2 ? l' Hb2 Hp2 _ _ _ _].
    + apply branch_height_nonneg in Hb. cbn in Hh. lia.
    + simplify_eq. by rewrite (IH l').
Qed.

(** All but the last block of a branch are in the index. *)
Lemma branch_indexed idx bi l : branch idx bi l -> idx !! bi_id bi = Some bi ->
  forall b, b ∈ l -> idx !! bi_id b = Some b.
Proof.
  induction 1 as [|parent bi l Hb IH Hp Hid _ _ _]; intros Hself b Hin.
  - apply list_elem_of_singleton in Hin as ->. done.
  - apply elem_of_app in Hin as [Hin|Hin%list_elem_of_singleton]; [|by subst].
    apply IH; [congruence|done].
Qed.

Section pow.
Context (Hpow : pow_params_ok p).

Lemma length_flat_map_ge {A} (f : A -> bytes) (l : list A) :
  (forall a, (1 <= length (f a))%nat) -> (length l <= length (flat_map f l))%nat.
Proof. intros Hf. induction l as [|a l IH]; [done|]. cbn. rewrite length_app. specialize (Hf a). lia. Qed.

Lemma Block_Bytes_counts b : Z.of_nat (length (Block_Bytes b)) <= MaxBlockBytes -> block_counts b.
Proof.
  intros Hb. unfold Block_Bytes in Hb. rewrite !length_app in Hb.
  assert (Htx : forall t, (length (tx_Ins t) <= length (Tx_Bytes t) /\ length (tx_Outs t) <= length (Tx_Bytes t) /\
                           1 <= length (Tx_Bytes t))%nat).
  { intros t. unfold Tx_Bytes, serialize. rewrite !length_app, length_le_bytes.
    pose proof (length_flat_map_ge (serialize_in false) (tx_Ins t)) as Hi.
    pose proof (length_flat_map_ge serialize_out (tx_Outs t)) as Ho.
    assert (length (tx_Ins t) <= length (flat_map (serialize_in false) (tx_Ins t)))%nat.
    { apply Hi. intros i. unfold serialize_in. rewrite !length_app, length_le_bytes. lia. }
    assert (length (tx_Outs t) <= length (flat_map serialize_out (tx_Outs t)))%nat.
    { apply Ho. intros o. unfold serialize_out. rewrite length_app, length_le_bytes. lia. }
    lia. }
  split.
  - pose proof (length_flat_map_ge (fun t => writeBytes (Tx_Bytes t)) (blk_Txs b)) as Hl.
    cut (length (blk_Txs b) <= length (flat_map (fun t => writeBytes (Tx_Bytes t)) (blk_Txs b)))%nat; [lia|].
    apply Hl. intros t. unfold writeBytes. rewrite length_app. specialize (Htx t). lia.
  - apply list.Forall_forall. intros t Ht. specialize (Htx t).
    pose proof (flat_map_length_le (fun t => writeBytes (Tx_Bytes t)) t _ Ht) as Hl.
    cbn beta in Hl. unfold writeBytes at 1 in Hl. rewrite length_app in Hl. lia.
Qed.

Lemma genesis_counts : block_counts (GenesisBlock p).
Proof. split; [done|]. by repeat constructor. Qed.

Lemma genesis_entry_ok : entry_ok (genesis_index p).
Proof.
  split; [done|done|reflexivity| |].
  - unfold target_ok. cbn. destruct Hpow as [[? ?] _ _]. unfold MaxTarget in *. lia.
  - apply genesis_counts.
Qed.

Lemma branch_entry_ok idx bi l : branch idx bi l -> Forall entry_ok l.
Proof.
  induction 1 as [|parent bi l _ IH _ _ _ _ He].
  - apply list.Forall_singleton, genesis_entry_ok.
  - apply Forall_app; split; [done|by apply list.Forall_singleton].
Qed.

Lemma block_work_pos bi : entry_ok bi -> 1 <= block_work bi.
Proof. intros [_ _ _ Ht]. by apply (target_ok_work p). Qed.

(** Work grows along a branch and is the sum of the blocks' work. *)
Lemma branch_work idx bi l : branch idx bi l ->
  bi_cumWork bi = sumZ (block_work <$> l) /\ bi_height bi + 1 <= bi_cumWork bi.
Proof.
  induction 1 as [|parent bi l Hb [IHs IHp] _ _ Hh Hw He].
  - pose proof (block_work_pos _ genesis_entry_ok) as Hpos.
    unfold block_work in *. cbn in *. lia.
  - pose proof (block_work_pos _ He). rewrite fmap_app, sumZ_app. cbn. lia.
Qed.

(** ** The replay of the code is the reference replay *)
Lemma branch_walk_spec idx bi l : branch idx bi l -> forall fuel m,
  (length l <= fuel)%nat -> exists m', branch_walk idx fuel bi m = Ok m' /\
    (forall i b, l !! i = Some b -> m' !! Z.of_nat i = Some b) /\
    (forall k, Z.of_nat (length l) <= k -> m' !! k = m !! k).
Proof.
  induction 1 as [|parent bi l Hb IH Hp _ Hh _ _]; intros fuel m Hf.
  - destruct fuel as [|fuel]; [cbn in Hf; lia|]. eexists. split; [reflexivity|]. split.
    + intros [|[|?]] b Hb; cbn in Hb; simplify_eq. apply lookup_insert_eq.
    + intros k Hk. cbn in *. apply lookup_insert_ne. lia.
  - rewrite length_app in *. cbn [length] in *. destruct fuel as [|fuel]; [lia|].
    pose proof (branch_length _ _ _ Hb). pose proof (branch_height_nonneg _ _ _ Hb).
    cbn [branch_walk]. destruct (Z.eqb_spec (bi_height bi) 0); [lia|]. rewrite Hp.
    destruct (IH fuel (<[bi_height bi := bi]> m)) as (m' & -> & Hl & Hk); [lia|].
    exists m'. split; [done|]. split.
    + intros i b [Hi|[Hi Hb0]]%lookup_app_Some; [by apply Hl|].
      destruct (i - length l)%nat as [|[|?]] eqn:E; cbn in Hb0; simplify_eq.
      rewrite Hk by lia. replace (Z.of_nat i) with (bi_height b) by lia.
      apply lookup_insert_eq.
    + intros k Hk'. rewrite Hk by lia. apply lookup_insert_ne. lia.
Qed.

Definition replay_result (ids : list Hash32) (l : list blockIndex) (r : result utxo_map)
    (r' : result (utxo_map * list Hash32)) : Prop :=
  match r with
  | Ok u => r' = Ok (u, ids ++ (bi_id <$> l))
  | Err e => exists h, r' = Err (EWrap "block invalid" h e)
  end.

Lemma replay_steps m l : forall n u ids,
  (forall i b, l !! i = Some b -> m !! (n + Z.of_nat i) = Some b /\
     bi_height b = n + Z.of_nat i /\ entry_ok b) ->
  replay_result ids l (foldM replay_one u l)
    (foldM (replay_step p m) (u, ids) (seqZ n (Z.of_nat (length l)))).
Proof.
  induction l as [|b l IH]; intros n u ids Hl.
  - cbn. by rewrite app_nil_r.
  - cbn [length]. rewrite seqZ_cons by lia.
    destruct (Hl 0%nat b) as (Hm & Hh & Hok); [done|]. rewrite Z.add_0_r in *.
    cbn [foldM]. unfold replay_step at 1. rewrite Hm. cbn [fst snd].
    rewrite (eo_sane _ Hok). cbn [wrap_block mbind result_bind].
    unfold replay_one at 1. rewrite Hh.
    destruct (validateAndApplyLocked p (bi_block b) n u) as [u1 [[]|e]];
      cbn [wrap_block mbind result_bind]; [|by eexists].
    replace (Z.pred (Z.of_nat (S (length l)))) with (Z.of_nat (length l)) by lia.
    specialize (IH (Z.succ n) u1 (ids ++ [bi_id b])).
    unfold replay_result in *. rewrite <- (app_assoc ids [_]) in IH. apply IH. intros i b' Hi. destruct (Hl (S i) b' Hi) as (? & ? & ?).
    replace (Z.succ n + Z.of_nat i) with (n + Z.of_nat (S i)) by lia. done.
Qed.

Lemma replayBranch_spec c bi l :
  c_params c = p -> branch (c_index c) bi l ->
  replay_result [] l (replay l) (replayBranch c bi).
Proof.
  intros Hc Hb. unfold replayBranch, branchTo. rewrite Hc.
  pose proof (branch_length _ _ _ Hb) as Hlen. pose proof (branch_height_nonneg _ _ _ Hb).
  destruct (branch_walk_spec _ _ _ Hb (S (Z.to_nat (bi_height bi))) ∅) as (m & -> & Hm & _);
    [lia|].
  cbn [mbind result_bind]. rewrite <- Hlen. apply replay_steps.
  intros i b Hi. split_and!; [by apply Hm|by eapply branch_heights|].
  pose proof (branch_entry_ok _ _ _ Hb) as Hall. rewrite Forall_lookup in Hall. eauto.
Qed.

Lemma replay_snoc l bi : replay (l ++ [bi]) =
  match replay l with Ok u => replay_one u bi | Err e => Err e end.
Proof.
  unfold replay. rewrite foldM_app. destruct (foldM replay_one ∅ l); [|done].
  cbn. by destruct (replay_one _ bi).
Qed.

Lemma replay_genesis :
  replay [genesis_index p] = Ok (applyBlockToUTXO (GenesisBlock p) 0 ∅).
Proof. reflexivity. Qed.

(** ** Preservation *)
Lemma branch_end_ok idx bi l : branch idx bi l -> entry_ok bi.
Proof.
  intros Hb. pose proof (branch_entry_ok _ _ _ Hb) as Hall.
  rewrite list.Forall_forall in Hall. apply Hall.
  apply branch_last, last_Some in Hb as [l' ->]. apply elem_of_app. right. by left.
Qed.

Lemma inv_entry_ok c id bi : chain_inv c -> c_index c !! id = Some bi -> entry_ok bi.
Proof. intros Hc Hi. apply (ci_index _ Hc) in Hi as (_ & l & u & Hb & _). by eapply branch_end_ok. Qed.

Lemma ancestorAt_indexed idx target fuel : forall cur a,
  ancestorAt idx fuel target cur = Some a -> cur = Some a \/ exists id, idx !! id = Some a.
Proof.
  induction fuel as [|fuel IH]; intros [cur|] a Ha; cbn in Ha; try done.
  - repeat case_match; simplify_eq; auto.
  - destruct (bi_height cur >? target); [|repeat case_match; simplify_eq; auto].
    apply IH in Ha as [Ha|[id Ha]]; eauto.
Qed.

Lemma bitsOnBranch_ok c id parent h bits :
  chain_inv c -> c_index c !! id = Some parent -> bitsOnBranch c parent h = Ok bits ->
  target_ok p bits.
Proof.
  intros Hc Hp Hb. assert (Hall := fun id bi => inv_entry_ok c id bi Hc).
  unfold bitsOnBranch, nextBitsAtLocked in Hb. rewrite (ci_params _ Hc) in Hb.
  destruct (_ && _) in Hb; apply NextBits_target_ok in Hb; try done.
  - intros h' b' Hb'. res_simpl. unfold main_at in *. destruct (h' <? 0) in *; [done|].
    res_simpl. by eapply eo_target, Hall.
  - intros h' b' Hb'. res_simpl. rename select (ancestorAt _ _ _ _ = _) into Ha.
    apply ancestorAt_indexed in Ha as [[= <-]|[id' Ha]]; by eapply eo_target, Hall.
Qed.

(** ** Walking the branch *)
Lemma ancestorAt_spec idx cur l : branch idx cur l -> forall fuel t,
  0 <= t <= bi_height cur -> bi_height cur - t <= Z.of_nat fuel ->
  ancestorAt idx fuel t (Some cur) = l !! Z.to_nat t.
Proof.
  induction 1 as [|parent bi l Hb IH Hp _ Hh _ _]; intros fuel t Ht Hf.
  - cbn in Ht. assert (t = 0) as -> by lia. by destruct fuel.
  - pose proof (branch_length _ _ _ Hb) as Hlen.
    destruct (Z.eq_dec t (bi_height bi)) as [->|Hne].
    + rewrite lookup_app_r by lia. replace (Z.to_nat (bi_height bi) - length l)%nat with 0%nat by lia.
      destruct fuel; cbn; rewrite Z.gtb_ltb, Z.ltb_irrefl, Z.eqb_refl; done.
    + destruct fuel as [|fuel]; [lia|]. cbn [ancestorAt]. rewrite Z.gtb_ltb.
      destruct (Z.ltb_spec t (bi_height bi)); [|lia]. rewrite Hp, IH by lia.
      rewrite lookup_app_l by lia. done.
Qed.

Lemma main_at_spec c l h :
  chain_inv c -> branch (c_index c) (c_tip c) l -> 0 <= h <= bi_height (c_tip c) ->
  exists bi, l !! Z.to_nat h = Some bi /\ main_at c h = Ok bi.
Proof.
  intros Hc Hb Hh. pose proof (branch_length _ _ _ Hb).
  destruct (lookup_lt_is_Some_2 l (Z.to_nat h)) as [bi Hbi]; [lia|]. exists bi. split; [done|].
  destruct (ci_main _ Hc) as (l' & Hb' & Hids & _). rewrite (branch_unique _ _ _ _ Hb' Hb) in *.
  unfold main_at. destruct (Z.ltb_spec h 0); [lia|].
  rewrite Hids, list_lookup_fmap, Hbi. cbn [fmap option_fmap option_map deref mbind result_bind].
  rewrite (branch_indexed _ _ _ Hb (ci_tip _ Hc) bi); [done|].
  by eapply list_elem_of_lookup_2.
Qed.

(** The accessors of [bitsOnBranch], with the height shortcut removed. *)
Lemma ancestor_defined c id parent h :
  chain_inv c -> c_index c !! id = Some parent -> 0 <= h <= bi_height parent ->
  exists bi, ancestorAt (c_index c) (Z.to_nat (bi_height parent)) h (Some parent) = Some bi.
Proof.
  intros Hc Hp Hh. destruct (ci_index _ Hc _ _ Hp) as (_ & l & _ & Hb & _).
  pose proof (branch_length _ _ _ Hb). rewrite (ancestorAt_spec _ _ _ Hb) by lia.
  apply lookup_lt_is_Some_2. lia.
Qed.

Section valid.
Context (Hval : validateConsensusParams p = Ok tt).

Lemma at_list_app l l' h :
  0 <= h < Z.of_nat (length l) -> at_list (l ++ l') h = at_list l h.
Proof.
  intros Hh. unfold at_list. destruct (h <? 0); [done|]. by rewrite lookup_app_l by lia.
Qed.

(** The required difficulty depends on the branch only: the walk through parent
    links and the shortcut through [mainIDs] both read it off the branch. *)
Lemma bitsOnBranch_list c id parent l :
  chain_inv c -> c_index c !! id = Some parent -> branch (c_index c) parent l ->
  bitsOnBranch c parent (bi_height parent + 1) = list_bits l.
Proof.
  intros Hc Hp Hb. pose proof (branch_length _ _ _ Hb) as Hlen.
  pose proof (branch_height_nonneg _ _ _ Hb). unfold bitsOnBranch, nextBitsAtLocked, list_bits.
  rewrite Z.eqb_refl, andb_true_r, Hlen, (ci_params _ Hc).
  destruct (bool_decide_reflect (parent = c_tip c)) as [->|_];
    apply NextBits_ext; try done; try lia.
  all: intros h Hh; unfold at_list; rewrite (proj2 (Z.ltb_ge h 0)) by lia.
  1-2: destruct (main_at_spec c l h Hc Hb) as (bi & -> & ->); [lia|done].
  all: rewrite (ancestorAt_spec _ _ _ Hb) by lia;
    destruct (lookup_lt_is_Some_2 l (Z.to_nat h)) as [bi ->]; [lia|done].
Qed.

Lemma list_bits_defined l : exists bits, list_bits l = Ok bits.
Proof.
  assert (Hat : forall h, 0 <= h < Z.of_nat (length l) -> exists bi, at_list l h = Ok bi).
  { intros h Hh. unfold at_list. rewrite (proj2 (Z.ltb_ge h 0)) by lia.
    destruct (lookup_lt_is_Some_2 l (Z.to_nat h)) as [bi ->]; [lia|by eexists]. }
  apply NextBits_defined; try done; [lia|..].
  all: intros h Hh; destruct (Hat h Hh) as [bi ->]; by eexists.
Qed.

Lemma collect_times_branch idx cur l : branch idx cur l -> forall n,
  collect_times idx n (Some cur) = take n (reverse (times l)).
Proof.
  induction 1 as [|parent bi l Hb IH Hp _ Hh _ _]; intros [|n]; try done.
  - by destruct n.
  - pose proof (branch_height_nonneg _ _ _ Hb). cbn [collect_times].
    rewrite (proj2 (Z.eqb_neq (bi_height bi) 0)) by lia. rewrite Hp, IH.
    unfold times. by rewrite fmap_app, reverse_app.
Qed.

(** The clock-dependent part. *)
Definition not_future (height t now : Z) : Prop :=
  if asertActive p height then t <= i64 (now + ASERTFutureDrift p)
  else t <= i64 (now + FutureDrift p).

Lemma checkBlockTimestamp_spec c parent l t now :
  c_params c = p -> branch (c_index c) parent l -> 0 < ASERTMedianTimeBlocks p \/
    asertActive p (bi_height parent + 1) = false ->
  checkBlockTimestamp c parent (bi_height parent + 1) t now = Ok tt <->
  not_future (bi_height parent + 1) t now /\ time_rule l t.
Proof.
  intros Hc Hb Hw. pose proof (branch_length _ _ _ Hb) as Hlen.
  unfold checkBlockTimestamp, not_future, time_rule. rewrite Hc, Hlen.
  destruct (asertActive p (bi_height parent + 1)) eqn:Ea; cbn [negb].
  - rewrite Z.gtb_ltb. destruct (Z.ltb_spec (i64 (now + ASERTFutureDrift p)) t);
      [split; [done|lia]|].
    rewrite (collect_times_branch _ _ _ Hb).
    set (ts := take _ _). destruct (Nat.eqb_spec (length ts) 0) as [E|E].
    { exfalso. unfold ts in E. rewrite length_take, length_reverse in E. unfold times in E.
      rewrite length_fmap in E. pose proof (branch_height_nonneg _ _ _ Hb).
      destruct Hw; [lia|done]. }
    destruct (median_time ts) as [m|e]; cbn [mbind result_bind].
    + destruct (Z.leb_spec t m); split; try done; [intros (_ & m' & [= <-] & ?); lia|].
      intros _. split; [lia|]. exists m. split; [done|lia].
    + split; [done|]. by intros (_ & m & ? & _).
  - unfold CheckTimestamp. rewrite Z.gtb_ltb.
    destruct (Z.ltb_spec (i64 (now + FutureDrift p)) t); cbn [mbind result_bind];
      [split; [done|lia]|].
    destruct (Z.ltb_spec t (i64 (hdr_Time (bi_header parent) - FutureDrift p))) as [Hlt|Hge].
    + split; [done|]. intros (_ & par & Hl & Hle). rewrite (branch_last _ _ _ Hb) in Hl.
      simplify_eq. lia.
    + split; [|done]. intros _. split; [lia|]. exists parent. split; [|lia].
      by apply branch_last in Hb.
Qed.

Lemma median_window height : asertActive p height = true -> 0 < ASERTMedianTimeBlocks p.
Proof.
  intros Ha. pose proof (asert_anchor _ _ Hval Ha). unfold validateConsensusParams in Hval.
  destruct (Z.eqb_spec (ASERTActivationHeight p) 0); [lia|].
  repeat step_if Hval; try done. apply orb_false_iff in E2 as [? _]. bool_prop. lia.
Qed.

Lemma window_or_legacy height :
  0 < ASERTMedianTimeBlocks p \/ asertActive p height = false.
Proof.
  destruct (asertActive p height) eqn:E; [left|by right]. by eapply median_window.
Qed.

(** What a block that passes the header checks looks like. *)
Lemma check_header_branch c b pow now parent bi :
  chain_inv c -> c_index c !! hdr_PrevBlock (blk_Header b) = Some parent ->
  check_header c b pow now parent = Ok bi ->
  bi_block bi = b /\ bi_id bi = Header_ID (blk_Header b) /\
  bi_height bi = bi_height parent + 1 /\ bi_cumWork bi = bi_cumWork parent + block_work bi /\
  bi_cumWork parent < bi_cumWork bi /\
  exists l u, branch (c_index c) parent l /\ replay l = Ok u /\
              branch (c_index c) bi (l ++ [bi]).
Proof.
  intros Hc Hp Hh. unfold check_header in Hh. res_simpl. bool_prop.
  rename select (bitsOnBranch _ _ _ = _) into Hbits.
  pose proof (bitsOnBranch_ok _ _ _ _ _ Hc Hp Hbits).
  destruct (ci_index _ Hc _ _ Hp) as (Hid & l & u & Hb & Hr).
  set (bi := mkBlockIndex _ _ _ _).
  assert (Hok : entry_ok bi).
  { split; [done|done| | |by apply Block_Bytes_counts].
    - cbn. rename select (checkBlockSanity _ = _) into Hs. rewrite Hs. by destruct x.
    - rename select (hdr_Bits _ = _) into He. unfold bi, bi_header.
      cbn [bi_block]. by rewrite He. }
  pose proof (block_work_pos _ Hok).
  assert (bi_cumWork bi = bi_cumWork parent + block_work bi) by done.
  split_and!; [done..|lia|].
  exists l, u. split_and!; [done|done|].
  assert (Hho : header_ok l bi).
  { split.
    - done.
    - rewrite <- (bitsOnBranch_list c _ parent l Hc Hp Hb), Hbits. f_equal. done.
    - rename select (checkBlockTimestamp _ _ _ _ _ = _) into Hts. destruct x1.
      by apply (checkBlockTimestamp_spec c parent l) in Hts as [_ Hts];
        [|apply Hc|done|apply window_or_legacy]. }
  econstructor; eauto.
Qed.

Lemma evict_mempool c :
  c_params c = p -> conflict_free (c_mempool c) ->
  (forall id tx, c_mempool c !! id = Some tx -> Tx_ID tx = id /\ IsCoinbase tx = false) ->
  let c' := evictMempoolLocked c in
  mempool_valid (c_mempool c') (c_utxo c') (bi_height (c_tip c') + 1) /\
  conflict_free (c_mempool c').
Proof.
  intros Hc Hcf Hid. cbn. split.
  - intros id tx [Hm Hok]%map_lookup_filter_Some. cbn in Hok. rewrite Hc in Hok.
    destruct (Hid _ _ Hm). split_and!; [done|done|].
    destruct (checkTxLocked p _ tx _); [eauto|done].
  - intros id1 id2 tx1 tx2 i1 i2 [H1 _]%map_lookup_filter_Some [H2 _]%map_lookup_filter_Some.
    by eapply Hcf.
Qed.

Lemma NewChain_inv c : NewChain (Some p) = Ok c -> chain_inv c.
Proof.
  unfold NewChain. intros Hn. res_simpl. step_if Hn; [done|]. res_simpl.
  split; cbn [c_params c_index c_tip c_mainIDs c_utxo c_mempool].
  - done.
  - intros id bi [<- <-]%lookup_singleton_Some. split; [done|].
    eexists _, _. split; [constructor|apply replay_genesis].
  - apply lookup_singleton_eq.
  - apply lookup_singleton_eq.
  - eexists. split; [constructor|]. split; [done|]. apply replay_genesis.
  - intros id bi [<- <-]%lookup_singleton_Some. lia.
  - intros ? ? ?. by rewrite lookup_empty in *.
  - intros ? ? ? ? ? ? Hx. by rewrite lookup_empty in Hx.
Qed.

Lemma mempool_spent_spec (m : gmap Hash32 Tx) op :
  op ∈ mempool_spent m <-> exists id tx i, m !! id = Some tx /\ i ∈ tx_Ins tx /\ in_Prev i = op.
Proof.
  unfold mempool_spent. rewrite elem_of_list_to_set, list_elem_of_In, in_flat_map. split.
  - intros ([id tx] & Hin & Hop). apply list_elem_of_In, elem_of_map_to_list in Hin.
    apply list_elem_of_In, list_elem_of_fmap in Hop as (i & -> & Hi). eauto 7.
  - intros (id & tx & i & Hm & Hi & <-). exists (id, tx). split.
    + by apply list_elem_of_In, elem_of_map_to_list.
    + apply list_elem_of_In. by apply list_elem_of_fmap_2.
Qed.

(** Admission: the only branch that changes the state. *)
Lemma AcceptTx_cases c tx c' r :
  AcceptTxWithResult c tx = (c', r) ->
  (c' = c /\ r <> Ok TxAcceptanceAdded) \/
  exists t fee, tx = Some t /\ r = Ok TxAcceptanceAdded /\ IsCoinbase t = false /\
    c_mempool c !! Tx_ID t = None /\
    checkTxLocked (c_params c) (c_utxo c) t (bi_height (c_tip c) + 1) = Ok fee /\
    (forall i, i ∈ tx_Ins t -> in_Prev i ∉ mempool_spent (c_mempool c)) /\
    c' = set_mempool c (<[Tx_ID t := t]> (c_mempool c)).
Proof.
  unfold AcceptTxWithResult. intros Ha. destruct tx as [t|]; [|by simplify_eq; left].
  destruct (IsCoinbase t) eqn:Ecb; [by simplify_eq; left|].
  destruct (decide (is_Some (c_mempool c !! Tx_ID t))) as [|Hn]; [by simplify_eq; left|].
  destruct (existsb _ (tx_Ins t)) eqn:Ex; [by simplify_eq; left|].
  destruct (checkTxLocked _ _ _ _) as [fee|] eqn:Ec; [|by simplify_eq; left].
  simplify_eq. right. exists t, fee. split_and!; try done; [by apply eq_None_not_Some|].
  intros i Hi Hsp. apply not_true_iff_false in Ex. apply Ex, existsb_exists.
  exists i. split; [by apply list_elem_of_In|by apply bool_decide_eq_true].
Qed.

Lemma AcceptTx_inv c tx : chain_inv c -> chain_inv (AcceptTxWithResult c tx).1.
Proof.
  intros Hc. destruct (AcceptTxWithResult c tx) as [c' r] eqn:Ha. cbn [fst].
  apply AcceptTx_cases in Ha as [[-> _]|(t & fee & -> & _ & Hcb & Hn & Hck & Hsp & ->)];
    [done|].
  destruct Hc as [Hp Hi Hg Ht Hm Hb Hmv Hcf]. split; chain_simpl; try done.
  - intros id tx [[<- <-]|[Hne Hl]]%lookup_insert_Some; [|by apply Hmv].
    split_and!; [done|done|]. exists fee. by rewrite <- Hp.
  - intros id1 id2 tx1 tx2 i1 i2 H1 H2 Hne Hi1 Hi2 Heq.
    apply lookup_insert_Some in H1 as [[<- <-]|[Hne1 H1]],
      H2 as [[<- <-]|[Hne2 H2]]; [done| | |].
    + apply (Hsp i1 Hi1), mempool_spent_spec. eauto 7.
    + apply (Hsp i2 Hi2), mempool_spent_spec. eauto 7.
    + by apply (Hcf id1 id2 tx1 tx2 i1 i2).
Qed.

Lemma index_extend c bi l u :
  chain_inv c -> c_index c !! bi_id bi = None ->
  branch (c_index c) bi l -> replay l = Ok u ->
  forall id b, <[bi_id bi := bi]> (c_index c) !! id = Some b -> bi_id b = id /\
    exists l u, branch (<[bi_id bi := bi]> (c_index c)) b l /\ replay l = Ok u.
Proof.
  intros Hc Hf Hb Hr id b [[<- <-]|[Hne Hl]]%lookup_insert_Some.
  - split; [done|]. exists l, u. split; [|done]. by apply branch_insert.
  - destruct (ci_index _ Hc _ _ Hl) as (? & l' & u' & ? & ?). split; [done|].
    exists l', u'. split; [|done]. by apply branch_insert.
Qed.

Lemma genesis_not_fresh c bi : chain_inv c -> c_index c !! bi_id bi = None ->
  <[bi_id bi := bi]> (c_index c) !! bi_id (genesis_index p) = Some (genesis_index p).
Proof.
  intros Hc Hf. pose proof (ci_genesis _ Hc). rewrite lookup_insert_ne; [done|]. congruence.
Qed.

(** A block that does not beat the tip joins the index only. *)
Lemma side_block_inv c bi l u :
  chain_inv c -> c_index c !! bi_id bi = None ->
  branch (c_index c) bi l -> replay l = Ok u -> bi_cumWork bi <= bi_cumWork (c_tip c) ->
  chain_inv (set_index c (bi_id bi) bi).
Proof.
  intros Hc Hf Hb Hr Hw. pose proof (index_extend _ _ _ _ Hc Hf Hb Hr).
  pose proof (genesis_not_fresh _ _ Hc Hf).
  destruct Hc as [Hp Hi Hg Ht (lm & Hbm & Hids & Hrm) Hbest Hmv Hcf]. split; chain_simpl; try done.
  - rewrite lookup_insert_ne; [done|]. congruence.
  - exists lm. split_and!; [|done|done]. by apply branch_insert.
  - intros id b [[<- <-]|[Hne Hl]]%lookup_insert_Some; [done|by eapply Hbest].
Qed.

(** A block that beats the tip becomes the tip. *)
Lemma new_tip_inv c bi l u :
  chain_inv c -> c_index c !! bi_id bi = None ->
  branch (c_index c) bi l -> replay l = Ok u -> bi_cumWork (c_tip c) < bi_cumWork bi ->
  chain_inv (set_index (evictMempoolLocked
    (mkChain (c_params c) (c_index c) bi (bi_id <$> l) u (c_mempool c))) (bi_id bi) bi).
Proof.
  intros Hc Hf Hb Hr Hw. pose proof (index_extend _ _ _ _ Hc Hf Hb Hr).
  pose proof (genesis_not_fresh _ _ Hc Hf).
  destruct Hc as [Hp Hi Hg Ht _ Hbest Hmv Hcf].
  destruct (evict_mempool (mkChain (c_params c) (c_index c) bi (bi_id <$> l) u (c_mempool c)))
    as [Hmv' Hcf']; [done|done|by intros id tx (? & ? & _)%Hmv|].
  split; chain_simpl; try done.
  - apply lookup_insert_eq.
  - exists l. split_and!; [|done|done]. by apply branch_insert.
  - intros id b [[<- <-]|[Hne Hl]]%lookup_insert_Some; [done|].
    apply Hbest in Hl. cbn. lia.
Qed.

Definition new_tip_state (c : Chain) (bi : blockIndex) (l : list blockIndex) (u : utxo_map)
    : Chain :=
  set_index (evictMempoolLocked
    (mkChain (c_params c) (c_index c) bi (bi_id <$> l) u (c_mempool c))) (bi_id bi) bi.

Lemma connectTip_spec c bi l :
  chain_inv c -> branch (c_index c) bi (l ++ [bi]) -> branch (c_index c) (c_tip c) l ->
  match connectTipLocked c bi with
  | (c', Err _) => c' = c
  | (c', Ok _) => exists u, replay (l ++ [bi]) = Ok u /\
      c' = evictMempoolLocked
             (mkChain (c_params c) (c_index c) bi (bi_id <$> l ++ [bi]) u (c_mempool c))
  end.
Proof.
  intros Hc Hb Hl. destruct (ci_main _ Hc) as (lm & Hbm & Hids & Hrm).
  rewrite (branch_unique _ _ _ _ Hbm Hl) in *.
  unfold connectTipLocked. rewrite (ci_params _ Hc).
  destruct (validateAndApplyLocked p (bi_block bi) (bi_height bi) (c_utxo c)) as [u [[]|e]] eqn:Ev.
  - exists u. rewrite replay_snoc, Hrm. unfold replay_one. rewrite Ev. split; [done|].
    by rewrite fmap_app, Hids.
  - apply validateAndApply_err in Ev as ->. rewrite <- (ci_params _ Hc). by destruct c.
Qed.

Lemma connectBranch_spec c bi l :
  chain_inv c -> branch (c_index c) bi l ->
  match connectBranch c bi with
  | (c', Err _) => c' = c
  | (c', Ok _) => exists u, replay l = Ok u /\
      c' = evictMempoolLocked
             (mkChain (c_params c) (c_index c) bi (bi_id <$> l) u (c_mempool c))
  end.
Proof.
  intros Hc Hb. unfold connectBranch.
  pose proof (replayBranch_spec c bi l (ci_params _ Hc) Hb) as Hr. unfold replay_result in Hr.
  destruct (replay l) as [u|e]; [rewrite Hr; eauto|].
  by destruct Hr as [h ->].
Qed.

(** The three outcomes of [acceptBlockLocked]: nothing changes, the block
    joins the index as a side block, or it becomes the tip. *)
Lemma acceptBlock_cases c b pow now c' r :
  chain_inv c -> acceptBlockLocked c b pow now = (c', r) ->
  (c' = c /\ ((r = Ok None /\ is_Some (c_index c !! Header_ID (blk_Header b)))
              \/ exists e, r = Err e)) \/
  exists bi l u, bi_block bi = b /\ bi_id bi = Header_ID (blk_Header b) /\
    c_index c !! bi_id bi = None /\ branch (c_index c) bi l /\ replay l = Ok u /\
    ((bi_cumWork bi <= bi_cumWork (c_tip c) /\ c' = set_index c (bi_id bi) bi /\ r = Ok None)
     \/ (bi_cumWork (c_tip c) < bi_cumWork bi /\ c' = new_tip_state c bi l u /\
         r = Ok (Some bi))).
Proof.
  intros Hc Ha. unfold acceptBlockLocked in Ha.
  destruct (decide (is_Some _)) as [Hs|Hf]; [simplify_eq; left; eauto|].
  apply eq_None_not_Some in Hf.
  destruct (c_index c !! hdr_PrevBlock (blk_Header b)) as [parent|] eqn:Hp;
    [|simplify_eq; left; eauto].
  destruct (check_header c b pow now parent) as [bi|e] eqn:Hh; [|simplify_eq; left; eauto].
  destruct (check_header_branch _ _ _ _ _ _ Hc Hp Hh)
    as (Hbb & Hbid & _ & _ & Hwork & l & u0 & Hbp & Hrp & Hb).
  rewrite <- Hbid in *. destruct (Z.leb_spec (bi_cumWork bi) (bi_cumWork (c_tip c))) as [Hw|Hw].
  - pose proof (replayBranch_spec c bi _ (ci_params _ Hc) Hb) as Hr. unfold replay_result in Hr.
    destruct (replay (l ++ [bi])) as [u|e] eqn:Er.
    + rewrite Hr in Ha. simplify_eq. right. exists bi, (l ++ [bi]), u. split_and!; auto.
    + destruct Hr as [h Hr]. rewrite Hr in Ha. simplify_eq. left; eauto.
  - destruct (decide (parent = c_tip c)) as [->|_].
    + pose proof (connectTip_spec c bi l Hc Hb Hbp) as Hct.
      destruct (connectTipLocked c bi) as [c1 [[]|e]]; [|subst; simplify_eq; left; eauto].
      destruct Hct as (u & Hr & ->). simplify_eq. right.
      exists bi, (l ++ [bi]), u. split_and!; auto.
    + pose proof (connectBranch_spec c bi _ Hc Hb) as Hct.
      destruct (connectBranch c bi) as [c1 [[]|e]]; [|subst; simplify_eq; left; eauto].
      destruct Hct as (u & Hr & ->). simplify_eq. right.
      exists bi, (l ++ [bi]), u. split_and!; auto.
Qed.

Lemma acceptBlockLocked_inv c b pow now :
  chain_inv c -> chain_inv (acceptBlockLocked c b pow now).1.
Proof.
  intros Hc. destruct (acceptBlockLocked c b pow now) as [c' r] eqn:Ha. cbn [fst].
  apply acceptBlock_cases in Ha
    as [[-> _]|(bi & l & u & _ & _ & Hf & Hb & Hr & [(? & -> & _)|(? & -> & _)])];
    [done|by eapply side_block_inv|by apply new_tip_inv|done].
Qed.

Lemma run_op_inv c o : chain_inv c -> chain_inv (run_op c o).
Proof.
  intros Hc. destruct o as [tx|[b|] now|[b|] now]; cbn [run_op]; try done.
  - by apply AcceptTx_inv.
  - unfold AcceptBlock. pose proof (acceptBlockLocked_inv c b true now Hc).
    by destruct (acceptBlockLocked c b true now).
  - unfold acceptStoredBlock. pose proof (acceptBlockLocked_inv c b false now Hc).
    by destruct (acceptBlockLocked c b false now).
Qed.

(** ** Supply *)
Lemma replay_supply l u :
  (forall i b, l !! i = Some b -> bi_height b = Z.of_nat i) -> replay l = Ok u ->
  utxo_ok u /\ utxo_total u <= issued_before (length l).
Proof.
  revert u. induction l as [|bi l IH] using rev_ind; intros u Hh Hr.
  - cbn in Hr. simplify_eq. split; [apply map_Forall_empty|done].
  - rewrite replay_snoc in Hr. destruct (replay l) as [u0|] eqn:E0; [|done].
    destruct (IH u0) as [Hok Htot]; [|done|].
    { intros i b Hi. apply Hh. by apply lookup_app_l_Some. }
    unfold replay_one in Hr.
    destruct (validateAndApplyLocked p _ _ u0) as [u1 [[]|]] eqn:Ev; [|done]. simplify_eq.
    destruct (validateAndApply_total _ _ _ _ _ Ev Hok) as [? Hle]. split; [done|].
    rewrite (Hh (length l) bi) in Hle by (rewrite lookup_app_r, Nat.sub_diag by done; done).
    rewrite length_app, Nat.add_1_r. cbn [issued_before]. lia.
Qed.

(** ** No panics *)
Lemma replay_no_panic l : Forall entry_ok l -> forall u e,
  foldM replay_one u l = Err e -> is_panic e = false.
Proof.
  induction 1 as [|bi l Hok _ IH]; intros u e; cbn [foldM]; [done|].
  destruct (replay_one u bi) as [u1|e1] eqn:E; [apply IH|]. intros [= <-].
  unfold replay_one in E. destruct (validateAndApplyLocked _ _ _ _) as [u1 [[]|e2]] eqn:Ev;
    [done|]. simplify_eq. eapply validateAndApply_no_panic; [|exact Ev].
  by eapply checkBlockSanity_nonempty, eo_sane.
Qed.

Lemma median_defined ts : ts <> [] -> exists m, median_time ts = Ok m.
Proof.
  intros Hne. unfold median_time.
  destruct (lookup_lt_is_Some_2 (merge_sort Z.le ts) (length ts / 2)) as [m ->]; [|by exists m].
  rewrite (merge_sort_Permutation Z.le ts). apply Nat.div_lt; [|lia].
  destruct ts; [done|cbn; lia].
Qed.

Lemma checkBlockTimestamp_no_panic c parent h t now e :
  checkBlockTimestamp c parent h t now = Err e -> is_panic e = false.
Proof.
  unfold checkBlockTimestamp, CheckTimestamp. destruct (negb _).
  { destruct (_ >? _); cbn; [by intros [= <-]|]. destruct (_ <? _); [by intros [= <-]|done]. }
  destruct (_ >? _); [by intros [= <-]|].
  destruct (collect_times _ _ _) as [|t0 ts] eqn:Et; [by intros [= <-]|]. cbn [length Nat.eqb].
  destruct (median_defined (t0 :: ts)) as [m ->]; [done|]. cbn.
  destruct (_ <=? _); [by intros [= <-]|done].
Qed.

Lemma check_header_no_panic c b pow now parent e :
  chain_inv c -> c_index c !! hdr_PrevBlock (blk_Header b) = Some parent ->
  check_header c b pow now parent = Err e -> is_panic e = false.
Proof.
  intros Hc Hp. unfold check_header.
  destruct (ci_index _ Hc _ _ Hp) as (_ & l & _ & Hb & _).
  destruct (list_bits_defined l) as [bits Hbits].
  rewrite <- (bitsOnBranch_list c _ parent l Hc Hp Hb) in Hbits.
  destruct (checkBlockSanity b) as [[]|e1] eqn:Es; cbn [mbind result_bind];
    [|intros [= <-]; by eapply checkBlockSanity_no_panic].
  destruct (_ <=? MaxBlockBytes); cbn [check mbind result_bind]; [|by intros [= <-]].
  destruct (checkBlockTimestamp _ _ _ _ _) as [[]|e1] eqn:Et; cbn [mbind result_bind];
    [|intros [= <-]; by eapply checkBlockTimestamp_no_panic].
  rewrite Hbits. cbn [mbind result_bind].
  destruct (_ =? bits); cbn [check mbind result_bind]; [|by intros [= <-]].
  destruct (_ || _); cbn [check mbind result_bind]; [|by intros [= <-]].
  destruct (bool_decide _); cbn [check mbind result_bind]; [done|by intros [= <-]].
Qed.

Lemma connectTip_no_panic c bi c' e :
  blk_Txs (bi_block bi) <> [] -> connectTipLocked c bi = (c', Err e) -> is_panic e = false.
Proof.
  intros Hne. unfold connectTipLocked.
  destruct (validateAndApplyLocked _ _ _ _) as [u [[]|e1]] eqn:Ev; [done|].
  intros [= _ <-]. cbn. by eapply validateAndApply_no_panic.
Qed.

Lemma replayBranch_no_panic c bi l e :
  c_params c = p -> branch (c_index c) bi l -> replayBranch c bi = Err e -> is_panic e = false.
Proof.
  intros Hp Hb He. pose proof (replayBranch_spec c bi l Hp Hb) as Hr.
  unfold replay_result in Hr. destruct (replay l) as [u|e1] eqn:Er; [congruence|].
  destruct Hr as [h Hr]. rewrite Hr in He. simplify_eq. cbn.
  eapply replay_no_panic; [by eapply branch_entry_ok|exact Er].
Qed.

Lemma acceptBlock_no_panic c b pow now c' e :
  chain_inv c -> acceptBlockLocked c b pow now = (c', Err e) -> is_panic e = false.
Proof.
  intros Hc. unfold acceptBlockLocked. destruct (decide _); [done|].
  destruct (c_index c !! hdr_PrevBlock (blk_Header b)) as [parent|] eqn:Hp;
    [|by intros [= _ <-]].
  destruct (check_header c b pow now parent) as [bi|e1] eqn:Hh.
  2:{ intros [= _ <-]. eapply check_header_no_panic; eauto. }
  destruct (check_header_branch _ _ _ _ _ _ Hc Hp Hh)
    as (_ & _ & _ & _ & _ & l & _ & _ & _ & Hb).
  pose proof (branch_end_ok _ _ _ Hb) as Hok.
  destruct (_ <=? _).
  { destruct (replayBranch c bi) eqn:Er; [done|]. intros [= _ <-].
    by eapply replayBranch_no_panic, Er; [apply Hc|]. }
  destruct (decide (parent = c_tip c)).
  - destruct (connectTipLocked c bi) as [c1 [[]|e1]] eqn:Ec; [done|]. intros [= _ <-].
    eapply connectTip_no_panic; [|exact Ec]. by eapply checkBlockSanity_nonempty, eo_sane.
  - unfold connectBranch. destruct (replayBranch c bi) as [[? ?]|e1] eqn:Er; [done|].
    intros [= _ <-]. by eapply replayBranch_no_panic, Er; [apply Hc|].
Qed.
End valid.

Lemma reachable_valid c : reachable p c -> validateConsensusParams p = Ok tt.
Proof.
  induction 1 as [c Hn|]; [|done]. unfold NewChain in Hn. res_simpl.
  rename select (validateConsensusParams p = _) into Hv. rewrite Hv. by destruct x.
Qed.

Lemma reachable_inv c : reachable p c -> chain_inv c.
Proof.
  intros Hr. pose proof (reachable_valid _ Hr) as Hval.
  induction Hr; [by apply NewChain_inv|by apply run_op_inv].
Qed.
End pow.
End inv.

(** ** One step of a history *)
Section histories.
Context `{Crypto}.

Lemma run_op_cases c o :
  (run_op c o = c \/ exists tx, o = OpTx tx) \/
  exists b pow now, run_op c o = (acceptBlockLocked c b pow now).1.
Proof.
  destruct o as [tx|[b|] now|[b|] now]; cbn [run_op AcceptBlock acceptStoredBlock]; eauto.
  - right. exists b, true, now. by destruct (acceptBlockLocked c b true now).
  - right. exists b, false, now. by destruct (acceptBlockLocked c b false now).
Qed.

Lemma AcceptTx_tip c tx : c_tip (AcceptTxWithResult c tx).1 = c_tip c.
Proof.
  destruct (AcceptTxWithResult c tx) as [c' r] eqn:E.
  by apply AcceptTx_cases in E as [[-> _]|(t & fee & _ & _ & _ & _ & _ & _ & ->)].
Qed.

Lemma run_op_work p c o :
  pow_params_ok p -> reachable p c ->
  c_tip (run_op c o) = c_tip c \/ bi_cumWork (c_tip c) < bi_cumWork (c_tip (run_op c o)).
Proof.
  intros Hp Hr. pose proof (reachable_inv _ Hp _ Hr) as Hc.
  destruct (run_op_cases c o) as [[->|[tx ->]]|(b & pow & now & ->)]; [by left| |].
  - left. apply AcceptTx_tip.
  - destruct (acceptBlockLocked c b pow now) as [c' r] eqn:Ha. cbn [fst].
    apply (acceptBlock_cases p Hp (reachable_valid _ _ Hr)) in Ha as
      [[-> _]|(bi & l & u & _ & _ & _ & _ & _ & [(_ & -> & _)|(? & -> & _)])]; [..|done]; auto.
Qed.
End histories.
