(* ===== verification/ChainView.v ===== *)
(** * Read snapshots of the chain (core/chain.go)

    The read-only methods: the canonical tip snapshot, the validation of the
    canonical sequence, block and transaction lookups, the confirmed outputs of
    an address, the spendable UTXOs, the ordered mempool and the detached
    snapshot of the main chain.  [chain_inv] makes the consistency checks of
    these methods succeed, so the error branches are unreachable from
    [NewChain]. *)
From S2P Require Import Prelude Params Crypto Pow Wire Merkle Chain Ledger ChainInv.

Record ChainTipSnapshot := mkTipSnapshot {
  ts_Network : string; ts_Hash : Hash32; ts_Height : Z }.

Record BlockLookupSnapshot := mkBlockLookup {
  bl_Network : string; bl_Tip : ChainTipSnapshot; bl_Found : bool; bl_Hash : Hash32;
  bl_Height : Z; bl_Canonical : bool }.

Inductive TransactionStatus :=
  | TransactionStatusUnknown | TransactionStatusMempool | TransactionStatusConfirmed.

Record TransactionLookupSnapshot := mkTxLookup {
  tl_Network : string; tl_Tip : ChainTipSnapshot; tl_TxID : Hash32;
  tl_Status : TransactionStatus; tl_BlockHash : Hash32; tl_BlockHeight : Z;
  tl_Confirmations : Z }.

Record ConfirmedSpend := mkConfirmedSpend {
  cs_TxID : Hash32; cs_InputIndex : Z; cs_BlockHash : Hash32; cs_BlockHeight : Z }.

Record ConfirmedAddressOutput := mkConfirmedOutput {
  co_TxID : Hash32; co_TransactionIndex : Z; co_Vout : Z; co_AmountUnits : Z;
  co_BlockHash : Hash32; co_BlockHeight : Z; co_Confirmations : Z; co_Coinbase : bool;
  co_Mature : bool; co_SpentBy : option ConfirmedSpend }.

Record AddressOutputSnapshot := mkAddressOutputs {
  ao_Network : string; ao_Complete : bool; ao_Tip : ChainTipSnapshot;
  ao_Outputs : list ConfirmedAddressOutput }.

Record MainSnapshot := mkMainSnapshot {
  ms_params : Params; ms_tipID : Hash32; ms_tipHeight : Z; ms_cumWork : Z;
  ms_blocks : list Block }.

Section view.
Context `{Crypto}.

Definition Tip (c : Chain) : Hash32 * Z := (bi_id (c_tip c), bi_height (c_tip c)).
Definition Height (c : Chain) : Z := (Tip c).2.

Definition canonicalBlockIndexLocked (c : Chain) (height : Z) (id : Hash32)
    : result blockIndex :=
  let err := Err (ENum "canonical block index is inconsistent at height" [height]) in
  match c_index c !! id with
  | None => err
  | Some bi =>
      if bool_decide (bi_height bi = height) && bool_decide (bi_id bi = id)
         && bool_decide (Header_ID (bi_header bi) = id)
      then Ok bi else err
  end.

Definition canonicalTipSnapshotLocked (c : Chain) : result ChainTipSnapshot :=
  network ← CanonicalNetworkID (Some (c_params c));
  let tip := c_tip c in
  let ids := c_mainIDs c in
  _ ← check ((0 <=? bi_height tip) && (Z.of_nat (length ids) =? bi_height tip + 1)
             && negb (length ids =? 0)%nat && bool_decide (last ids = Some (bi_id tip)))
        (EText "canonical tip is inconsistent");
  _ ← check (bool_decide (c_index c !! bi_id tip = Some tip)
             && bool_decide (Header_ID (bi_header tip) = bi_id tip))
        (EText "canonical tip index is inconsistent");
  genesisID ← deref (head ids) "index out of range";
  genesis ← match canonicalBlockIndexLocked c 0 genesisID with
            | Ok g => if bool_decide (genesisID = Header_ID (blk_Header (GenesisBlock (c_params c))))
                      then Ok g else Err (EText "canonical genesis index is inconsistent")
            | Err _ => Err (EText "canonical genesis index is inconsistent")
            end;
  _ ← (if bi_height tip =? 0
       then check (bool_decide (tip = genesis)) (EText "canonical genesis tip is inconsistent")
       else prevID ← deref (ids !! (length ids - 2)%nat) "index out of range";
            check (bool_decide (hdr_PrevBlock (bi_header tip) = prevID))
              (EText "canonical tip parent linkage is inconsistent"));
  Ok (mkTipSnapshot network (bi_id tip) (bi_height tip)).

(** One height of [validatedCanonicalSequenceLocked]: the state is the
    sequence so far, [previousID] and [expectedWork] ([None] is nil). *)
Definition sequence_step (c : Chain) (st : list blockIndex * Hash32 * option Z)
    (hid : nat * Hash32) : result (list blockIndex * Hash32 * option Z) :=
  let '(sequence, previousID, expectedWork) := st in
  let '(height, id) := hid in
  let h := Z.of_nat height in
  match c_index c !! id with
  | None => Err (ENum "canonical block is incomplete" [h])
  | Some bi =>
      _ ← check (bool_decide (bi_id bi = id) && (bi_height bi =? h)
                 && bool_decide (Header_ID (bi_header bi) = id))
            (ENum "canonical block identity mismatch" [h]);
      let blockWork := WorkFromTarget (CompactToTarget (hdr_Bits (bi_header bi))) in
      let work := match expectedWork with None => blockWork | Some w => w + blockWork end in
      _ ← check ((0 <? bi_cumWork bi) && (bi_cumWork bi =? work))
            (ENum "canonical block work mismatch" [h]);
      _ ← check (negb (height =? 0)%nat
                 || bool_decide (Block_Bytes (bi_block bi)
                                 = Block_Bytes (GenesisBlock (c_params c))))
            (EText "canonical genesis mismatch");
      _ ← check (negb (0 <? height)%nat
                 || bool_decide (hdr_PrevBlock (bi_header bi) = previousID))
            (ENum "canonical block parent mismatch" [h]);
      _ ← check (bool_decide (MerkleRoot (blk_Txs (bi_block bi)) = hdr_MerkleRoot (bi_header bi)))
            (ENum "canonical block merkle mismatch" [h]);
      Ok (sequence ++ [bi], id, Some work)
  end.

Definition validatedCanonicalSequenceLocked (c : Chain) : result (list blockIndex) :=
  let tip := c_tip c in
  let ids := c_mainIDs c in
  _ ← check ((0 <? bi_cumWork tip) && (0 <=? bi_height tip) && negb (length ids =? 0)%nat
             && (Z.of_nat (length ids) =? bi_height tip + 1)
             && bool_decide (last ids = Some (bi_id tip)))
        (EText "canonical sequence metadata is inconsistent");
  _ ← check (bool_decide (c_index c !! bi_id tip = Some tip))
        (EText "canonical tip metadata is detached");
  '(sequence, previousID, expectedWork) ← foldM (sequence_step c) ([], zeroHash, None) (indexed ids);
  _ ← check (bool_decide (last sequence = Some tip) && bool_decide (previousID = bi_id tip)
             && bool_decide (expectedWork = Some (bi_cumWork tip)))
        (EText "canonical tip does not match the validated sequence");
  Ok sequence.

Definition LookupBlock (c : Chain) (id : Hash32) : result BlockLookupSnapshot :=
  tip ← canonicalTipSnapshotLocked c;
  canonical ← validatedCanonicalSequenceLocked c;
  match c_index c !! id with
  | None => Ok (mkBlockLookup (ts_Network tip) tip false id (-1) false)
  | Some bi =>
      if (bi_height bi <? 0) || negb (bool_decide (bi_id bi = id))
         || negb (bool_decide (Header_ID (bi_header bi) = id))
      then Err (EText "block index entry is inconsistent") else
      let canon := (bi_height bi <? Z.of_nat (length canonical))
        && bool_decide (bi_id <$> canonical !! Z.to_nat (bi_height bi) = Some id) in
      Ok (mkBlockLookup (ts_Network tip) tip true id (bi_height bi) canon)
  end.

(** The first canonical block holding a transaction with the id. *)
Fixpoint find_tx (id : Hash32) (height : Z) (l : list blockIndex) : option (Z * blockIndex) :=
  match l with
  | [] => None
  | bi :: rest =>
      if existsb (fun tx => bool_decide (Tx_ID tx = id)) (blk_Txs (bi_block bi))
      then Some (height, bi) else find_tx id (height + 1) rest
  end.

Definition LookupTransaction (c : Chain) (id : Hash32) : result TransactionLookupSnapshot :=
  tip ← canonicalTipSnapshotLocked c;
  canonical ← validatedCanonicalSequenceLocked c;
  match find_tx id 0 canonical with
  | Some (height, bi) =>
      Ok (mkTxLookup (ts_Network tip) tip id TransactionStatusConfirmed (bi_id bi) height
            (ts_Height tip - height + 1))
  | None =>
      match c_mempool c !! id with
      | Some tx =>
          if negb (bool_decide (Tx_ID tx = id))
          then Err (EText "mempool transaction index is inconsistent")
          else Ok (mkTxLookup (ts_Network tip) tip id TransactionStatusMempool zeroHash (-1) 0)
      | None =>
          Ok (mkTxLookup (ts_Network tip) tip id TransactionStatusUnknown zeroHash (-1) 0)
      end
  end.

(** *** Confirmed outputs of an address *)
Definition set_spent (o : ConfirmedAddressOutput) (sp : ConfirmedSpend)
    : ConfirmedAddressOutput :=
  mkConfirmedOutput (co_TxID o) (co_TransactionIndex o) (co_Vout o) (co_AmountUnits o)
    (co_BlockHash o) (co_BlockHeight o) (co_Confirmations o) (co_Coinbase o) (co_Mature o)
    (Some sp).

(** [created] maps an outpoint to its index in [result.Outputs]. *)
Abbreviation scan := (gmap OutPoint nat * list ConfirmedAddressOutput)%type.

Definition scan_input (txID blockID : Hash32) (height : Z) (st : scan) (ii : nat * TxIn)
    : result scan :=
  let '(created, outs) := st in
  match created !! in_Prev ii.2 with
  | None => Ok st
  | Some k =>
      o ← deref (outs !! k) "index out of range";
      match co_SpentBy o with
      | Some _ => Err (EText "canonical output has multiple confirmed spenders")
      | None =>
          let sp := mkConfirmedSpend txID (u32 (Z.of_nat ii.1)) blockID height in
          Ok (created, <[k := set_spent o sp]> outs)
      end
  end.

Definition scan_output (pkh : bytes) (p : Params) (txID blockID : Hash32)
    (height confirmations : Z) (txIndex : nat) (coinbase : bool) (st : scan)
    (io : nat * TxOut) : result scan :=
  let '(created, outs) := st in
  if negb (bool_decide (out_PubKeyHash io.2 = pkh)) then Ok st else
  let op := mkOutPoint txID (u32 (Z.of_nat io.1)) in
  if decide (is_Some (created !! op)) then Err (EText "duplicate canonical address outpoint") else
  Ok (<[op := length outs]> created,
      outs ++ [mkConfirmedOutput txID (u32 (Z.of_nat txIndex)) (u32 (Z.of_nat io.1))
                 (out_Value io.2) blockID height confirmations coinbase
                 (negb coinbase || (CoinbaseMaturity p <=? confirmations)) None]).

Definition scan_tx (pkh : bytes) (p : Params) (blockID : Hash32) (height confirmations : Z)
    (st : scan) (itx : nat * Tx) : result scan :=
  let '(txIndex, tx) := itx in
  let txID := Tx_ID tx in
  st1 ← foldM (scan_input txID blockID height) st (indexed (tx_Ins tx));
  foldM (scan_output pkh p txID blockID height confirmations txIndex (IsCoinbase tx)) st1
    (indexed (tx_Outs tx)).

Definition scan_block (pkh : bytes) (p : Params) (tipHeight : Z) (st : scan)
    (hb : nat * blockIndex) : result scan :=
  let '(height, bi) := hb in
  let h := Z.of_nat height in
  foldM (scan_tx pkh p (bi_id bi) h (tipHeight - h + 1)) st (indexed (blk_Txs (bi_block bi))).

Definition ConfirmedOutputsForPKH (c : Chain) (pkh : bytes) : result AddressOutputSnapshot :=
  tip ← canonicalTipSnapshotLocked c;
  canonical ← validatedCanonicalSequenceLocked c;
  '(_, outs) ← foldM (scan_block pkh (c_params c) (ts_Height tip)) (∅, []) (indexed canonical);
  Ok (mkAddressOutputs (ts_Network tip) true tip outs).

(** *** Accessors *)
Definition BlockAt (c : Chain) (h : Z) : result (option Block) :=
  if (h <? 0) || (h >=? Z.of_nat (length (c_mainIDs c))) then Ok None
  else bi ← main_at c h; Ok (Some (bi_block bi)).

Definition HasBlock (c : Chain) (id : Hash32) : bool := bool_decide (is_Some (c_index c !! id)).

Definition UTXOsForPKH (c : Chain) (pkh : bytes) : utxo_map :=
  filter (fun e => ue_PKH e.2 = pkh /\
    ~ (ue_Coinbase e.2 = true /\
       bi_height (c_tip c) - ue_Height e.2 + 1 < CoinbaseMaturity (c_params c))) (c_utxo c).

(** [sort.Slice] by the id bytes. *)
Definition tx_id_le (t1 t2 : Tx) : Prop := bytes_le (Tx_ID t1) (Tx_ID t2).
#[local] Instance tx_id_le_dec t1 t2 : Decision (tx_id_le t1 t2).
Proof. unfold tx_id_le. apply _. Defined.

Definition MempoolTxs (c : Chain) : list Tx :=
  merge_sort tx_id_le (snd <$> map_to_list (c_mempool c)).

Definition canonicalMainSnapshot (c : Chain) : result MainSnapshot :=
  canonical ← validatedCanonicalSequenceLocked c;
  Ok (mkMainSnapshot (c_params c) (bi_id (c_tip c)) (bi_height (c_tip c)) (bi_cumWork (c_tip c))
        (bi_block <$> tail canonical)).
End view.

(** [range] over a slice extended by one element. *)
Lemma indexed_snoc {A} (l : list A) a : indexed (l ++ [a]) = indexed l ++ [(length l, a)].
Proof.
  unfold indexed. rewrite length_app, seq_app. cbn.
  by rewrite zip_with_app by by rewrite length_seq.
Qed.

Section view_lemmas.
Context `{Crypto} (p : Params) (Hpow : pow_params_ok p).

Lemma sequence_step_genesis c :
  c_params c = p -> c_index c !! bi_id (genesis_index p) = Some (genesis_index p) ->
  sequence_step c ([], zeroHash, None) (0%nat, bi_id (genesis_index p))
  = Ok ([genesis_index p], bi_id (genesis_index p), Some (bi_cumWork (genesis_index p))).
Proof.
  intros Hp Hg. pose proof (block_work_pos _ Hpow _ (genesis_entry_ok _ Hpow)) as Hw.
  unfold sequence_step. rewrite Hg, Hp.
  rewrite !bool_decide_true by done. cbn [andb negb orb Nat.eqb Nat.ltb Nat.leb].
  unfold block_work in Hw. cbn [check mbind result_bind].
  change (WorkFromTarget (CompactToTarget (hdr_Bits (bi_header (genesis_index p)))))
    with (bi_cumWork (genesis_index p)) in *.
  rewrite Z.eqb_refl, (proj2 (Z.ltb_lt _ _)) by lia. reflexivity.
Qed.

Lemma sequence_branch c bi l : c_params c = p -> branch p (c_index c) bi l ->
  (forall b, b ∈ l -> c_index c !! bi_id b = Some b) ->
  foldM (sequence_step c) ([], zeroHash, None) (indexed (bi_id <$> l))
  = Ok (l, bi_id bi, Some (bi_cumWork bi)).
Proof.
  intros Hp Hb. induction Hb as [|parent bi l Hb IH Hprev Hpid Hh Hw Hok]; intros Hin.
  - cbn [fmap list_fmap indexed length seq zip zip_with foldM].
    rewrite sequence_step_genesis; [done|done|]. apply Hin. by left.
  - rewrite fmap_app. cbn [fmap list_fmap]. rewrite indexed_snoc, foldM_app, IH
      by (intros b Hb'; apply Hin, elem_of_app; by left).
    pose proof (branch_length _ _ _ _ Hb) as Hlen. pose proof (branch_height_nonneg _ _ _ _ Hb).
    pose proof (branch_work _ Hpow _ _ _ Hb) as [_ Hpos].
    pose proof (block_work_pos _ Hpow _ Hok).
    cbn [foldM]. unfold sequence_step. rewrite length_fmap.
    rewrite (Hin bi) by (apply elem_of_app; right; by left).
    fold (block_work bi). destruct Hok as [Hid Hm Hs Ht].
    rewrite (bool_decide_true (bi_id bi = _)), (bool_decide_true (Header_ID _ = _)),
      (bool_decide_true (hdr_PrevBlock _ = _)), (bool_decide_true (MerkleRoot _ = _)) by done.
    rewrite (proj2 (Z.eqb_eq (bi_height bi) _)) by lia.
    rewrite (proj2 (Z.ltb_lt 0 _)), (proj2 (Z.eqb_eq (bi_cumWork bi) _)) by lia.
    rewrite (proj2 (Nat.eqb_neq (length l) 0)) by lia.
    rewrite orb_true_r. cbn [andb check mbind result_bind negb orb]. by rewrite Hw.
Qed.

Lemma canonical_sequence_ok c l :
  chain_inv p c -> branch p (c_index c) (c_tip c) l ->
  validatedCanonicalSequenceLocked c = Ok l.
Proof.
  intros Hc Hb. destruct (ci_main _ _ Hc) as (l' & Hb' & Hids & _).
  rewrite (branch_unique _ _ _ _ _ Hb' Hb) in *. clear l' Hb'.
  pose proof (branch_length _ _ _ _ Hb). pose proof (branch_height_nonneg _ _ _ _ Hb).
  pose proof (branch_work _ Hpow _ _ _ Hb) as [_ Hpos].
  unfold validatedCanonicalSequenceLocked. rewrite Hids, length_fmap, fmap_last.
  rewrite (branch_last _ _ _ _ Hb), (ci_tip _ _ Hc). cbn [fmap option_fmap option_map].
  rewrite !bool_decide_true by done.
  rewrite (proj2 (Z.ltb_lt 0 _)), (proj2 (Z.leb_le 0 _)), (proj2 (Z.eqb_eq (Z.of_nat _) _)) by lia.
  rewrite (proj2 (Nat.eqb_neq (length l) 0)) by lia. cbn [negb andb check mbind result_bind].
  rewrite (sequence_branch c (c_tip c) l); [|apply Hc|done|].
  2:{ by eapply branch_indexed; [done|apply Hc]. }
  cbn [mbind result_bind]. rewrite (branch_last _ _ _ _ Hb), !bool_decide_true by done. done.
Qed.

Lemma canonical_tip_ok c net :
  chain_inv p c -> CanonicalNetworkID (Some p) = Ok net ->
  canonicalTipSnapshotLocked c = Ok (mkTipSnapshot net (bi_id (c_tip c)) (bi_height (c_tip c))).
Proof.
  intros Hc Hnet. destruct (ci_main _ _ Hc) as (l & Hb & Hids & _).
  pose proof (branch_length _ _ _ _ Hb) as Hlen. pose proof (branch_height_nonneg _ _ _ _ Hb).
  pose proof (branch_end_ok _ Hpow _ _ _ Hb) as Htip.
  unfold canonicalTipSnapshotLocked. rewrite (ci_params _ _ Hc), Hnet. cbn [mbind result_bind].
  rewrite Hids, length_fmap, fmap_last, (branch_last _ _ _ _ Hb), (ci_tip _ _ Hc).
  cbn [fmap option_fmap option_map]. rewrite (bool_decide_true (Some _ = Some _)) by done.
  rewrite (proj2 (Z.leb_le 0 _)), (proj2 (Z.eqb_eq (Z.of_nat _) _)) by lia.
  rewrite (proj2 (Nat.eqb_neq (length l) 0)) by lia. cbn [negb andb check mbind result_bind].
  rewrite (bool_decide_true (Some _ = Some _)) by done.
  rewrite (bool_decide_true (Header_ID _ = _)) by (symmetry; apply Htip).
  cbn [negb andb check mbind result_bind].
  assert (Hhead : head (bi_id <$> l) = Some (bi_id (genesis_index p))).
  { clear -Hb. induction Hb as [|parent bi l Hb IH _ _ _ _ _]; [done|].
    destruct l; [by inv Hb|done]. }
  rewrite Hhead. cbn [deref mbind result_bind]. unfold canonicalBlockIndexLocked.
  rewrite (ci_genesis _ _ Hc), !bool_decide_true by done. cbn [andb mbind result_bind].
  destruct (Z.eqb_spec (bi_height (c_tip c)) 0) as [E|E].
  - inv Hb as [Hg|parent ? l0 Hb0 Hprev Hpid Hh _ _];
      [|apply branch_height_nonneg in Hb0; lia].
    by rewrite bool_decide_true.
  - inv Hb as [Hg|parent ? l0 Hb0 Hprev Hpid Hh _ _]; [by rewrite <- Hg in E|].
    rewrite length_app, fmap_app in *. cbn [length] in *.
    replace (length l0 + 1 - 2)%nat with (pred (length (bi_id <$> l0)))
      by (rewrite length_fmap; lia).
    pose proof (branch_length _ _ _ _ Hb0).
    rewrite lookup_app_l by (rewrite length_fmap; lia).
    rewrite <- last_lookup, fmap_last, (branch_last _ _ _ _ Hb0). cbn.
    rewrite bool_decide_true by done. done.
Qed.
End view_lemmas.
