(* ===== verification/WalletView.v ===== *)
(** * The wallet view (core/wallet_view.go)

    [walletViewForOwnersLocked] scans the canonical chain and the mempool once
    and derives spendable outputs, immature mining rewards and recent activity.
    The scan keeps its own table of created outputs; the theorems relate that
    table to the UTXO set of the chain. *)
From S2P Require Import Prelude Params Crypto Pow Wire Merkle Chain Ledger ChainInv ChainView.

Definition MaxWalletActivityLimit : Z := 50.

Inductive ActivityKind := ActReceived | ActSent | ActMiningReward | ActCleanup.
Inductive ActivityStatus := ActMempool | ActConfirmed.

#[global] Instance ActivityKind_eq_dec : EqDecision ActivityKind.
Proof. solve_decision. Defined.

Record SpendableOutputSnapshot := mkSpendable {
  so_OutPoint : OutPoint; so_AmountUnits : Z; so_OwnerPKH : bytes; so_OwnerIndex : Z }.

Record ImmatureOutputSnapshot := mkImmature {
  io_OutPoint : OutPoint; io_AmountUnits : Z; io_OwnerPKH : bytes; io_OwnerIndex : Z;
  io_BlockHeight : Z; io_Confirmations : Z }.

Record WalletActivityItem := mkActivity {
  wa_TxID : Hash32; wa_Kind : ActivityKind; wa_Status : ActivityStatus; wa_NetUnits : Z;
  wa_BlockHash : Hash32; wa_BlockHeight : Z; wa_Confirmations : Z; wa_BlocksUntilMature : Z;
  wa_TransactionIndex : Z }.

Record WalletViewSnapshot := mkWalletView {
  wv_Network : string; wv_Complete : bool; wv_Tip : ChainTipSnapshot;
  wv_SpendableOutputs : list SpendableOutputSnapshot; wv_SpendableUnits : Z;
  wv_ImmatureOutputs : list ImmatureOutputSnapshot; wv_ImmatureUnits : Z;
  wv_Activity : list WalletActivityItem }.

Record SpendableOutputsSnapshot := mkSpendableOutputs {
  ss_Network : string; ss_Complete : bool; ss_Tip : ChainTipSnapshot;
  ss_Outputs : list SpendableOutputSnapshot }.

Record canonicalWalletOutput := mkWalletOutput {
  cw_outpoint : OutPoint; cw_value : Z; cw_pkh : bytes; cw_ownerIndex : Z; cw_owned : bool;
  cw_height : Z; cw_coinbase : bool; cw_spent : bool }.

(** Owners by key hash, with the index of their first occurrence. *)
Abbreviation owner_map := (gmap bytes Z).
Abbreviation created_map := (gmap OutPoint canonicalWalletOutput).

Definition owner_step (allowDuplicates : bool) (owners : owner_map) (ip : nat * bytes)
    : result owner_map :=
  if decide (is_Some (owners !! ip.2)) then
    if allowDuplicates then Ok owners else Err (EText "duplicate spendable-output owner")
  else Ok (<[ip.2 := u32 (Z.of_nat ip.1)]> owners).

Definition walletOwners (pkhs : list bytes) (allowDuplicates : bool) : result owner_map :=
  if Z.of_nat (length pkhs) >? two32 - 1 then Err (EText "too many wallet-view owners") else
  foldM (owner_step allowDuplicates) ∅ (indexed pkhs).

Definition checkedWalletNet (ownedOutputs ownedInputs : Z) : result Z :=
  if negb (MoneyRange ownedOutputs) || negb (MoneyRange ownedInputs)
  then Err (moneyRangeError "wallet activity total")
  else if ownedOutputs >=? ownedInputs then Ok (ownedOutputs - ownedInputs)
  else Ok (- (ownedInputs - ownedOutputs)).

Definition addWalletMoney (total value : Z) (detail : string) : result Z :=
  match checkedAddMoney total value with
  | None => Err (moneyRangeError detail)
  | Some next => Ok next
  end.

Definition mark_spent (o : canonicalWalletOutput) : canonicalWalletOutput :=
  mkWalletOutput (cw_outpoint o) (cw_value o) (cw_pkh o) (cw_ownerIndex o) (cw_owned o)
    (cw_height o) (cw_coinbase o) true.

Section wallet_view.
Context `{Crypto}.

(** The input loop of a confirmed transaction; the state is [created],
    [ownedInputs] and [hasOwnedInput]. *)
Definition view_input (st : created_map * Z * bool) (i : TxIn)
    : result (created_map * Z * bool) :=
  let '(created, ownedInputs, hasOwnedInput) := st in
  match created !! in_Prev i with
  | None => Err (EText "canonical transaction references unknown output")
  | Some previous =>
      if cw_spent previous then Err (EText "canonical output has multiple spenders") else
      let created' := <[in_Prev i := mark_spent previous]> created in
      if cw_owned previous then
        total ← addWalletMoney ownedInputs (cw_value previous) "wallet activity input total";
        Ok (created', total, true)
      else Ok (created', ownedInputs, hasOwnedInput)
  end.

Definition view_output (owners : owner_map) (txID : Hash32) (height : Z) (coinbase : bool)
    (st : created_map * Z * bool) (io : nat * TxOut) : result (created_map * Z * bool) :=
  let '(created, ownedOutputs, hasExternalOutput) := st in
  let '(vout, output) := io in
  if negb (MoneyRange (out_Value output)) then Err (moneyRangeError "canonical output value") else
  if Z.of_nat vout >? two32 - 1 then Err (EText "canonical output index out of range") else
  let outpoint := mkOutPoint txID (u32 (Z.of_nat vout)) in
  if decide (is_Some (created !! outpoint)) then Err (EText "duplicate canonical outpoint") else
  match owners !! out_PubKeyHash output with
  | Some index =>
      if out_Value output <=? 0 then Err (moneyRangeError "canonical owned output value") else
      total ← addWalletMoney ownedOutputs (out_Value output) "wallet activity output total";
      Ok (<[outpoint := mkWalletOutput outpoint (out_Value output) (out_PubKeyHash output) index
                          true height coinbase false]> created, total, hasExternalOutput)
  | None =>
      Ok (<[outpoint := mkWalletOutput outpoint (out_Value output) (out_PubKeyHash output) 0
                          false height coinbase false]> created, ownedOutputs, true)
  end.

Definition activity_kind (coinbase : bool) (ownedOutputs : Z)
    (hasOwnedInput hasExternalOutput : bool) : option ActivityKind :=
  if coinbase && (ownedOutputs >? 0) then Some ActMiningReward
  else if hasOwnedInput && negb hasExternalOutput then Some ActCleanup
  else if hasOwnedInput then Some ActSent
  else if ownedOutputs >? 0 then Some ActReceived
  else None.

Definition view_tx (owners : owner_map) (p : Params) (blockID : Hash32)
    (height confirmations : Z) (st : created_map * list WalletActivityItem) (itx : nat * Tx)
    : result (created_map * list WalletActivityItem) :=
  let '(created, activity) := st in
  let '(txIndex, tx) := itx in
  if Z.of_nat txIndex >? two32 - 1
  then Err (EText "canonical transaction index out of range") else
  let txID := Tx_ID tx in
  '(created1, ownedInputs, hasOwnedInput) ←
    (if IsCoinbase tx then Ok (created, 0, false)
     else foldM view_input (created, 0, false) (tx_Ins tx));
  '(created2, ownedOutputs, hasExternalOutput) ←
    foldM (view_output owners txID height (IsCoinbase tx)) (created1, 0, false)
      (indexed (tx_Outs tx));
  match activity_kind (IsCoinbase tx) ownedOutputs hasOwnedInput hasExternalOutput with
  | None => Ok (created2, activity)
  | Some kind =>
      net ← checkedWalletNet ownedOutputs ownedInputs;
      let blocksUntilMature :=
        if bool_decide (kind = ActMiningReward) && (confirmations <? CoinbaseMaturity p)
        then CoinbaseMaturity p - confirmations else 0 in
      Ok (created2, activity ++
            [mkActivity txID kind ActConfirmed net blockID height confirmations
               blocksUntilMature (u32 (Z.of_nat txIndex))])
  end.

Definition view_block (owners : owner_map) (p : Params) (tipHeight : Z)
    (st : created_map * list WalletActivityItem) (hb : nat * blockIndex)
    : result (created_map * list WalletActivityItem) :=
  let '(height, bi) := hb in
  let h := Z.of_nat height in
  foldM (view_tx owners p (bi_id bi) h (tipHeight - h + 1)) st (indexed (blk_Txs (bi_block bi))).

(** *** The mempool part *)
Definition mempool_entry_check (u : unit) (e : Hash32 * Tx) : result unit :=
  if negb (bool_decide (Tx_ID e.2 = e.1))
  then Err (EText "mempool transaction index is inconsistent")
  else if IsCoinbase e.2 then Err (EText "coinbase found in mempool") else Ok tt.

Definition mempool_input (created : created_map) (st : gset OutPoint * Z * bool) (i : TxIn)
    : result (gset OutPoint * Z * bool) :=
  let '(spent, ownedInputs, hasOwnedInput) := st in
  match created !! in_Prev i with
  | None => Err (EText "mempool transaction references unavailable output")
  | Some previous =>
      if cw_spent previous
      then Err (EText "mempool transaction references unavailable output") else
      if decide (in_Prev i ∈ spent) then Err (EText "mempool output has multiple spenders") else
      let spent' := {[in_Prev i]} ∪ spent in
      if cw_owned previous then
        total ← addWalletMoney ownedInputs (cw_value previous) "mempool wallet input total";
        Ok (spent', total, true)
      else Ok (spent', ownedInputs, hasOwnedInput)
  end.

Definition mempool_output (owners : owner_map) (st : Z * bool) (output : TxOut)
    : result (Z * bool) :=
  let '(ownedOutputs, hasExternalOutput) := st in
  if negb (MoneyRange (out_Value output)) then Err (moneyRangeError "mempool output value") else
  match owners !! out_PubKeyHash output with
  | Some _ =>
      if out_Value output <=? 0 then Err (moneyRangeError "mempool owned output value") else
      total ← addWalletMoney ownedOutputs (out_Value output) "mempool wallet output total";
      Ok (total, hasExternalOutput)
  | None => Ok (ownedOutputs, true)
  end.

Definition mempool_tx (owners : owner_map) (created : created_map)
    (mempool : gmap Hash32 Tx) (st : gset OutPoint * list WalletActivityItem) (txID : Hash32)
    : result (gset OutPoint * list WalletActivityItem) :=
  let '(spent, activity) := st in
  tx ← deref (mempool !! txID) "nil pointer dereference";
  '(spent', ownedInputs, hasOwnedInput) ←
    foldM (mempool_input created) (spent, 0, false) (tx_Ins tx);
  '(ownedOutputs, hasExternalOutput) ← foldM (mempool_output owners) (0, false) (tx_Outs tx);
  match activity_kind false ownedOutputs hasOwnedInput hasExternalOutput with
  | None => Ok (spent', activity)
  | Some kind =>
      net ← checkedWalletNet ownedOutputs ownedInputs;
      Ok (spent', activity ++ [mkActivity txID kind ActMempool net zeroHash (-1) 0 0 0])
  end.

(** *** Classification of the unspent owned outputs *)
Record view_totals := mkTotals {
  vt_spendable : list SpendableOutputSnapshot; vt_spendableUnits : Z;
  vt_immature : list ImmatureOutputSnapshot; vt_immatureUnits : Z }.

Definition classify (p : Params) (tipHeight : Z) (mempoolSpent : gset OutPoint)
    (st : view_totals) (o : canonicalWalletOutput) : result view_totals :=
  if negb (cw_owned o) || cw_spent o then Ok st else
  let confirmations := tipHeight - cw_height o + 1 in
  if cw_coinbase o && (confirmations <? CoinbaseMaturity p) then
    total ← addWalletMoney (vt_immatureUnits st) (cw_value o) "immature wallet total";
    Ok (mkTotals (vt_spendable st) (vt_spendableUnits st)
          (vt_immature st ++ [mkImmature (cw_outpoint o) (cw_value o) (cw_pkh o)
                                (cw_ownerIndex o) (cw_height o) confirmations]) total)
  else if decide (cw_outpoint o ∈ mempoolSpent) then Ok st
  else
    total ← addWalletMoney (vt_spendableUnits st) (cw_value o) "spendable wallet total";
    Ok (mkTotals (vt_spendable st ++ [mkSpendable (cw_outpoint o) (cw_value o) (cw_pkh o)
                                        (cw_ownerIndex o)]) total
          (vt_immature st) (vt_immatureUnits st)).

(** *** Orders of the results *)
Definition outpoint_le (a b : OutPoint) : Prop :=
  match bytes_compare (op_TxID a) (op_TxID b) with
  | Lt => True | Gt => False | Eq => op_Idx a <= op_Idx b
  end.
Definition spendable_le (a b : SpendableOutputSnapshot) : Prop :=
  outpoint_le (so_OutPoint a) (so_OutPoint b).
Definition immature_le (a b : ImmatureOutputSnapshot) : Prop :=
  outpoint_le (io_OutPoint a) (io_OutPoint b).
(** Newest first. *)
Definition activity_le (a b : WalletActivityItem) : Prop :=
  if decide (wa_BlockHeight a = wa_BlockHeight b) then
    if decide (wa_TransactionIndex a = wa_TransactionIndex b)
    then bytes_le (wa_TxID a) (wa_TxID b)
    else wa_TransactionIndex b <= wa_TransactionIndex a
  else wa_BlockHeight b <= wa_BlockHeight a.

#[global] Instance outpoint_le_dec a b : Decision (outpoint_le a b).
Proof. unfold outpoint_le. destruct (bytes_compare _ _); apply _. Defined.
#[global] Instance spendable_le_dec a b : Decision (spendable_le a b).
Proof. unfold spendable_le. apply _. Defined.
#[global] Instance immature_le_dec a b : Decision (immature_le a b).
Proof. unfold immature_le. apply _. Defined.
#[global] Instance activity_le_dec a b : Decision (activity_le a b).
Proof. unfold activity_le. repeat case_decide; apply _. Defined.

Definition walletViewForOwnersLocked (c : Chain) (owners : owner_map) (activityLimit : Z)
    : result WalletViewSnapshot :=
  tip ← canonicalTipSnapshotLocked c;
  canonical ← validatedCanonicalSequenceLocked c;
  '(created, confirmedActivity) ←
    foldM (view_block owners (c_params c) (ts_Height tip)) (∅, []) (indexed canonical);
  _ ← foldM mempool_entry_check tt (map_to_list (c_mempool c));
  let mempoolIDs := merge_sort bytes_le ((map_to_list (c_mempool c)).*1) in
  '(mempoolSpent, mempoolActivity) ←
    foldM (mempool_tx owners created (c_mempool c)) (∅, []) mempoolIDs;
  totals ← foldM (classify (c_params c) (ts_Height tip) mempoolSpent) (mkTotals [] 0 [] 0)
             ((map_to_list created).*2);
  Ok (mkWalletView (ts_Network tip) true tip
        (merge_sort spendable_le (vt_spendable totals)) (vt_spendableUnits totals)
        (merge_sort immature_le (vt_immature totals)) (vt_immatureUnits totals)
        (take (Z.to_nat activityLimit)
           (mempoolActivity ++ merge_sort activity_le confirmedActivity))).

Definition WalletViewForPKHs (c : Chain) (pkhs : list bytes) (activityLimit : Z)
    : result WalletViewSnapshot :=
  if (activityLimit <? 0) || (activityLimit >? MaxWalletActivityLimit)
  then Err (ENum "activity limit must be between 0 and" [MaxWalletActivityLimit]) else
  owners ← walletOwners pkhs true;
  walletViewForOwnersLocked c owners activityLimit.

Definition SpendableOutputsForPKHs (c : Chain) (pkhs : list bytes)
    : result SpendableOutputsSnapshot :=
  owners ← walletOwners pkhs false;
  view ← walletViewForOwnersLocked c owners 0;
  Ok (mkSpendableOutputs (wv_Network view) (wv_Complete view) (wv_Tip view)
        (wv_SpendableOutputs view)).
End wallet_view.
