(* ===== verification/WalletViewProofs.v ===== *)
(** * The wallet view agrees with the UTXO set

    The scan of [walletViewForOwnersLocked] and the validation of the chain
    visit the transactions of a block in different orders (the scan meets the
    coinbase first, validation applies it last) and keep different tables.  The
    simulation below carries the coinbase outputs of the block in hand as a
    pending part [K] and shows that the unspent entries of the scan's table are
    the UTXO set. *)
From S2P Require Import Prelude Params Crypto Pow Wire Merkle Chain Ledger ChainInv ChainView.
From S2P Require Import WalletView.

(** The UTXO entry a created output stands for. *)
Definition unspent_entry (o : canonicalWalletOutput) : option UTXOEntry :=
  if cw_spent o then None
  else Some (mkUTXOEntry (cw_value o) (cw_pkh o) (cw_height o) (cw_coinbase o)).

Definition matches (created : created_map) (u : utxo_map) : Prop :=
  forall op, u !! op = created !! op ≫= unspent_entry.

(** The ownership bookkeeping of the table. *)
Definition owners_ok (owners : owner_map) (created : created_map) : Prop :=
  forall op o, created !! op = Some o -> cw_outpoint o = op /\
    match owners !! cw_pkh o with
    | Some i => cw_owned o = true /\ cw_ownerIndex o = i
    | None => cw_owned o = false
    end.

Definition insert_outs (id : Hash32) (h : Z) (cb : bool) (l : list (nat * TxOut)) (u : utxo_map)
    : utxo_map :=
  fold_left (fun m io => <[mkOutPoint id (u32 (Z.of_nat io.1)) := out_entry h cb io.2]> m) l u.
Definition delete_ins (l : list TxIn) (u : utxo_map) : utxo_map :=
  fold_left (fun m i => delete (in_Prev i) m) l u.

Lemma insert_outs_union id h cb l u : insert_outs id h cb l u = insert_outs id h cb l ∅ ∪ u.
Proof.
  induction l as [|io l IH] using rev_ind; [cbn; by rewrite (left_id_L ∅ (∪))|].
  unfold insert_outs in *. rewrite !fold_left_app. cbn. rewrite IH. by rewrite insert_union_l.
Qed.

Section sim.
Context `{Crypto} (owners : owner_map).

Lemma view_inputs_sim (K : utxo_map) ins : forall st u st',
  foldM view_input st ins = Ok st' ->
  (forall i, i ∈ ins -> K !! in_Prev i = None) ->
  matches st.1.1 (K ∪ u) -> owners_ok owners st.1.1 ->
  matches st'.1.1 (K ∪ delete_ins ins u) /\ owners_ok owners st'.1.1.
Proof.
  induction ins as [|i ins IH]; intros [[created oi] ho] u st' Hf HK Hm Ho; cbn [foldM] in Hf.
  { by simplify_eq. }
  destruct (view_input (created, oi, ho) i) as [[[created1 oi1] ho1]|] eqn:Ei; [|done].
  cbn [delete_ins fold_left fst] in *. eapply (IH (created1, oi1, ho1)); [exact Hf|set_solver|..].
  all: assert (exists o, created !! in_Prev i = Some o /\ cw_spent o = false /\
                 created1 = <[in_Prev i := mark_spent o]> created) as (o & Hl & Hs & ->)
    by (unfold view_input in Ei; repeat case_match; res_simpl; simplify_eq; eauto).
  - cbn [fst]. intros op. rewrite <- (delete_id K (in_Prev i)) by (apply HK; left).
    rewrite <- delete_union. destruct (decide (op = in_Prev i)) as [->|Hne].
    + by rewrite lookup_delete_eq, lookup_insert_eq.
    + by rewrite lookup_delete_ne, lookup_insert_ne.
  - cbn [fst]. intros op o' [[<- <-]|[_ Ho']]%lookup_insert_Some; [|by apply Ho].
    apply (Ho _ _ Hl).
Qed.

Lemma view_output_inv id h cb st io st' :
  view_output owners id h cb st io = Ok st' ->
  let op := mkOutPoint id (u32 (Z.of_nat io.1)) in
  st.1.1 !! op = None /\
  exists o, st'.1.1 = <[op := o]> st.1.1 /\ unspent_entry o = Some (out_entry h cb io.2) /\
    cw_outpoint o = op /\
    match owners !! cw_pkh o with
    | Some i => cw_owned o = true /\ cw_ownerIndex o = i
    | None => cw_owned o = false
    end.
Proof.
  destruct st as [[created oo] he], io as [n out]. unfold view_output. intros Hv.
  destruct (negb _); [done|]. destruct (_ >? _); [done|].
  destruct (decide _) as [|Hn]; [done|]. apply eq_None_not_Some in Hn. cbn [fst snd].
  split; [done|].
  destruct (owners !! out_PubKeyHash out) as [i|] eqn:Eo.
  - destruct (_ <=? _); [done|]. res_simpl. eexists. split_and!; [reflexivity..|]. cbn. by rewrite Eo.
  - res_simpl. eexists. split_and!; [reflexivity..|]. cbn. by rewrite Eo.
Qed.

Lemma view_outputs_sim (K : utxo_map) id h cb outs : forall st u st',
  foldM (view_output owners id h cb) st outs = Ok st' ->
  matches st.1.1 (K ∪ u) -> owners_ok owners st.1.1 ->
  matches st'.1.1 (K ∪ insert_outs id h cb outs u) /\ owners_ok owners st'.1.1 /\
  (K ##ₘ u -> K ##ₘ insert_outs id h cb outs u) /\
  insert_outs id h cb outs ∅ ##ₘ u.
Proof.
  induction outs as [|io outs IH]; intros st u st' Hf Hm Ho; cbn [foldM] in Hf.
  { simplify_eq. cbn. split_and!; try done. apply map_disjoint_empty_l. }
  destruct (view_output owners id h cb st io) as [st1|] eqn:Ei; [|done].
  destruct (view_output_inv _ _ _ _ _ _ Ei) as (Hn & o & Hc1 & Hue & Hop & How).
  set (op := mkOutPoint id (u32 (Z.of_nat io.1))) in *.
  assert (Hku : (K ∪ u) !! op = None) by (by rewrite Hm, Hn).
  apply lookup_union_None in Hku as [HK Hu].
  assert (Hm1 : matches st1.1.1 (K ∪ <[op := out_entry h cb io.2]> u)).
  { intros op'. rewrite Hc1, <- insert_union_r by done.
    destruct (decide (op' = op)) as [->|Hne].
    - by rewrite !lookup_insert_eq.
    - by rewrite !lookup_insert_ne. }
  assert (Ho1 : owners_ok owners st1.1.1).
  { intros op' o'. rewrite Hc1. intros [[<- <-]|[_ ?]]%lookup_insert_Some; [done|by apply Ho]. }
  destruct (IH st1 (<[op := out_entry h cb io.2]> u) st' Hf Hm1 Ho1) as (IHm & IHo & IHd & IHe).
  assert (Hcons : forall v, insert_outs id h cb (io :: outs) v
    = insert_outs id h cb outs (<[op := out_entry h cb io.2]> v)) by done.
  rewrite !Hcons. split_and!; [done|done| |].
  - intros Hd. apply IHd. by apply map_disjoint_insert_r_2.
  - rewrite insert_outs_union. apply map_disjoint_union_l_2.
    + by apply map_disjoint_insert_r in IHe as [_ IHe].
    + apply map_disjoint_insert_l_2; [done|]. apply map_disjoint_empty_l.
Qed.

(** The first transaction of a sane block is its only coinbase. *)
Lemma sanity_coinbase b : checkBlockSanity b = Ok tt ->
  exists cb txs, blk_Txs b = cb :: txs /\ IsCoinbase cb = true /\
    Forall (fun t => IsCoinbase t = false) txs.
Proof.
  unfold checkBlockSanity. destruct (blk_Txs b) as [|cb txs]; [done|].
  destruct (IsCoinbase cb) eqn:Ecb; [|done]. cbn [negb]. intros Hs. res_simpl.
  exists cb, txs. split_and!; [done|done|].
  rename select (foldM _ _ _ = _) into Hf. apply foldM_Forall in Hf.
  cbn [indexed length seq zip zip_with] in Hf. inv Hf as [|? ? _ Hf'].
  clear -Hf'. assert (Hn : (0 < 1)%nat) by lia. revert Hf' Hn. generalize 1%nat as n.
  induction txs as [|t txs IH]; intros n Hf Hn; constructor; cbn in Hf;
    inv Hf as [|? ? ([ids sp] & st' & Ht) Hrest].
  - unfold sanity_tx in Ht. rewrite (proj2 (Nat.ltb_lt 0 n)) in Ht by done.
    by destruct (IsCoinbase t).
  - apply (IH (S n)); [done|lia].
Qed.

(** One confirmed payment. *)
Lemma view_tx_sim (K : utxo_map) p bid h conf n tx st u st' :
  view_tx owners p bid h conf st (n, tx) = Ok st' -> IsCoinbase tx = false ->
  (forall i, i ∈ tx_Ins tx -> is_Some (u !! in_Prev i)) -> K ##ₘ u ->
  matches st.1 (K ∪ u) -> owners_ok owners st.1 ->
  matches st'.1 (K ∪ spendAndCreate tx h false u) /\ owners_ok owners st'.1 /\
  K ##ₘ spendAndCreate tx h false u.
Proof.
  destruct st as [created act]. unfold view_tx. intros Hv Hcb Hin Hd Hm Ho.
  destruct (_ >? _); [done|]. rewrite Hcb in Hv.
  apply bind_Ok in Hv as ([[c1 oi] ho] & Hi & Hv). apply bind_Ok in Hv as ([[c2 oo] he] & Hu & Hv).
  destruct (view_inputs_sim K _ _ u _ Hi) as [Hm1 Ho1]; [|done|done|].
  { intros i Hi'. destruct (Hin i Hi') as [e He]. by eapply map_disjoint_Some_r. }
  destruct (view_outputs_sim K _ _ _ _ _ (delete_ins (tx_Ins tx) u) _ Hu Hm1 Ho1)
    as (Hm2 & Ho2 & Hd2 & _).
  assert (st'.1 = c2) as ->.
  { destruct (activity_kind _ _ _ _); res_simpl; done. }
  split_and!; [done|done|]. apply Hd2.
  unfold delete_ins. clear -Hd. induction (tx_Ins tx) as [|i l IH] in u, Hd |- *; [done|].
  apply IH. by apply map_disjoint_delete_r.
Qed.

(** The coinbase, met first by the scan: its outputs become the pending part. *)
Lemma view_coinbase_sim p bid h conf n cb st u st' :
  view_tx owners p bid h conf st (n, cb) = Ok st' -> IsCoinbase cb = true ->
  matches st.1 u -> owners_ok owners st.1 ->
  matches st'.1 (spendAndCreate cb h true ∅ ∪ u) /\ owners_ok owners st'.1 /\
  spendAndCreate cb h true ∅ ##ₘ u.
Proof.
  destruct st as [created act]. unfold view_tx. intros Hv Hcb Hm Ho.
  destruct (_ >? _); [done|]. rewrite Hcb in Hv. cbn [mbind result_bind] in Hv.
  apply bind_Ok in Hv as ([[c2 oo] he] & Hu & Hv).
  destruct (view_outputs_sim ∅ _ _ _ _ _ u _ Hu) as (Hm2 & Ho2 & _ & Hd2).
  { cbn [fst]. by rewrite (left_id_L ∅ (∪)). } { done. }
  assert (st'.1 = c2) as ->.
  { destruct (activity_kind _ _ _ _); res_simpl; done. }
  rewrite (left_id_L ∅ (∪)) in Hm2. rewrite insert_outs_union in Hm2.
  split_and!; [exact Hm2|done|exact Hd2].
Qed.

Lemma view_txs_sim (K : utxo_map) p bid h conf txs : forall n st fees st' fees' vst vst',
  apply_txs p h txs st fees = (st', Ok fees') ->
  foldM (view_tx owners p bid h conf) vst (zip (seq n (length txs)) txs) = Ok vst' ->
  Forall (fun t => IsCoinbase t = false) txs -> K ##ₘ st.1 ->
  matches vst.1 (K ∪ st.1) -> owners_ok owners vst.1 ->
  matches vst'.1 (K ∪ st'.1) /\ owners_ok owners vst'.1.
Proof.
  induction txs as [|tx txs IH]; intros n st fees st' fees' vst vst' Ha Hv Hcb Hd Hm Ho.
  { cbn in *. by simplify_eq. }
  cbn [apply_txs] in Ha. cbn [length seq zip zip_with foldM] in Hv.
  inv Hcb as [|? ? Hcb1 Hcbs].
  destruct (checkTxLocked p st.1 tx h) as [fee|] eqn:Ec; [|done].
  destruct (checkedAddMoney fees fee); [|done].
  destruct (view_tx owners p bid h conf vst (n, tx)) as [vst1|] eqn:Ev; [|done].
  apply checkTxLocked_spec in Ec as (es & Hval & _).
  destruct (view_tx_sim K _ _ _ _ _ _ _ st.1 _ Ev) as (Hm1 & Ho1 & Hd1); try done.
  { intros i Hi. destruct Hval as [_ _ _ Hin _ _ _].
    apply list_elem_of_lookup in Hi as [k Hk].
    destruct (Forall2_lookup_l _ _ _ _ _ Hin Hk) as (e & _ & [He _ _ _ _ _]). eauto. }
  eapply (IH (S n)); [exact Ha|exact Hv|done| | |done]; by rewrite spendAndCreateWithUndo_fst.
Qed.

Lemma view_block_sim p b bid h conf u u' vst vst' :
  checkBlockSanity b = Ok tt -> validateAndApplyLocked p b h u = (u', Ok tt) ->
  foldM (view_tx owners p bid h conf) vst (indexed (blk_Txs b)) = Ok vst' ->
  matches vst.1 u -> owners_ok owners vst.1 ->
  matches vst'.1 u' /\ owners_ok owners vst'.1.
Proof.
  intros Hs Hva Hv Hm Ho.
  destruct (sanity_coinbase b Hs) as (cb & txs & Hb & Hcb & Hcbs).
  unfold validateAndApplyLocked in Hva. rewrite Hb in *. cbn [tail] in Hva.
  cbn [indexed length seq zip zip_with foldM] in Hv.
  destruct (view_tx owners p bid h conf vst (0%nat, cb)) as [vst1|] eqn:Ev; [|done].
  destruct (view_coinbase_sim _ _ _ _ _ _ _ _ _ Ev Hcb Hm Ho) as (Hm1 & Ho1 & Hd1).
  destruct (apply_txs p h txs (u, []) 0) as [[u1 undo] [fees|]] eqn:Ea; [|done].
  destruct (foldM coinbase_outputs 0 (tx_Outs cb)); [|done].
  destruct (checkedAddMoney _ fees); [|done]. destruct (_ >? _); [done|].
  rewrite spendAndCreateWithUndo_fst in Hva. injection Hva as <-. cbn [fst].
  destruct (view_txs_sim _ _ _ _ _ _ _ _ _ _ _ _ _ Ea Hv Hcbs Hd1 Hm1 Ho1) as [Hm2 Ho2].
  split; [|done]. unfold spendAndCreate in *.
  fold (insert_outs (Tx_ID cb) h true (indexed (tx_Outs cb)) u1).
  by rewrite insert_outs_union.
Qed.

(** The whole chain. *)
Lemma view_chain_sim p tipHeight l : forall u vst,
  (forall i b, l !! i = Some b -> bi_height b = Z.of_nat i) -> Forall (entry_ok p) l ->
  replay p l = Ok u -> foldM (view_block owners p tipHeight) (∅, []) (indexed l) = Ok vst ->
  matches vst.1 u /\ owners_ok owners vst.1.
Proof.
  induction l as [|bi l IH] using rev_ind; intros u vst Hh Hok Hr Hv.
  { cbn in *. simplify_eq. split; [by intros op; rewrite !lookup_empty|].
    intros op o Hop. cbn [fst] in Hop. by rewrite lookup_empty in Hop. }
  rewrite indexed_snoc, foldM_app in Hv. rewrite replay_snoc in Hr.
  apply Forall_app in Hok as [Hok Hbi]. inv Hbi as [|? ? Hbi' _].
  destruct (replay p l) as [u0|] eqn:Hr0; [|done].
  destruct (foldM _ _ (indexed l)) as [vst0|] eqn:Hv0; [|done].
  destruct (IH u0 vst0) as [Hm Ho]; [|done..|].
  { intros i b Hi. apply Hh. by apply lookup_app_l_Some. }
  cbn [foldM] in Hv. destruct (view_block owners p tipHeight vst0 _) as [vst1|] eqn:Hb; [|done].
  simplify_eq. unfold replay_one in Hr.
  rewrite (Hh (length l) bi) in Hr by (rewrite lookup_app_r, Nat.sub_diag by done; done).
  destruct (validateAndApplyLocked p _ _ u0) as [u1 [[]|]] eqn:Ev; [|done]. simplify_eq.
  eapply view_block_sim; [apply Hbi'|exact Ev|exact Hb|done|done].
Qed.
End sim.

(** ** The mempool part and the classification *)
Section result.
Context `{Crypto} (owners : owner_map).

Lemma mempool_inputs_spent created ins : forall st st',
  foldM (mempool_input created) st ins = Ok st' ->
  st'.1.1 = list_to_set (in_Prev <$> ins) ∪ st.1.1.
Proof.
  induction ins as [|i ins IH]; intros [[spent oi] ho] st' Hf; cbn [foldM] in Hf;
    [simplify_eq; cbn; set_solver|].
  destruct (mempool_input created (spent, oi, ho) i) as [st1|] eqn:Ei; [|done].
  apply IH in Hf as ->. assert (st1.1.1 = {[in_Prev i]} ∪ spent) as ->.
  { unfold mempool_input in Ei. repeat case_match; res_simpl; done. }
  cbn. set_solver.
Qed.

Lemma mempool_txs_spent created m ids : forall st st',
  foldM (mempool_tx owners created m) st ids = Ok st' ->
  forall op, op ∈ st'.1 <-> op ∈ st.1 \/
    exists id tx i, id ∈ ids /\ m !! id = Some tx /\ i ∈ tx_Ins tx /\ in_Prev i = op.
Proof.
  induction ids as [|id ids IH]; intros [spent act] st' Hf op; cbn [foldM] in Hf.
  { simplify_eq. cbn. split; [by left|]. intros [?|(? & ? & ? & Hn & _)]; [done|set_solver]. }
  destruct (mempool_tx owners created m (spent, act) id) as [[spent1 act1]|] eqn:Et; [|done].
  rewrite (IH _ _ Hf op). cbn [fst].
  assert (exists tx, m !! id = Some tx /\ spent1 = list_to_set (in_Prev <$> tx_Ins tx) ∪ spent)
    as (tx & Htx & ->).
  { unfold mempool_tx in Et. destruct (m !! id) as [tx|]; [|done]. exists tx. split; [done|].
    cbn [deref mbind result_bind] in Et. apply bind_Ok in Et as ([[sp oi] ho] & Hi & Et).
    apply mempool_inputs_spent in Hi. cbn [fst] in Hi. subst sp.
    apply bind_Ok in Et as ([oo he] & _ & Et).
    destruct (activity_kind _ _ _ _); res_simpl; by simplify_eq. }
  rewrite elem_of_union, elem_of_list_to_set, list_elem_of_fmap. split.
  - intros [[(i & -> & Hi)|?]|(id' & tx' & i & ? & ? & ? & ?)]; [right|by left|right].
    + exists id, tx, i. split_and!; try done. by left.
    + exists id', tx', i. split_and!; try done. by right.
  - intros [?|(id' & tx' & i & [->|Hid]%elem_of_cons & ? & ? & <-)]; [by left; right| |].
    + simplify_eq. left. left. eauto.
    + right. eauto 8.
Qed.

(** The spendable output a table entry gives rise to. *)
Definition spendable_of (p : Params) (tipHeight : Z) (spent : gset OutPoint)
    (o : canonicalWalletOutput) : option SpendableOutputSnapshot :=
  if negb (cw_owned o) || cw_spent o then None
  else if cw_coinbase o && (tipHeight - cw_height o + 1 <? CoinbaseMaturity p) then None
  else if decide (cw_outpoint o ∈ spent) then None
  else Some (mkSpendable (cw_outpoint o) (cw_value o) (cw_pkh o) (cw_ownerIndex o)).

Lemma classify_spendable p tipHeight spent l : forall st st',
  foldM (classify p tipHeight spent) st l = Ok st' ->
  vt_spendable st' = vt_spendable st ++ omap (spendable_of p tipHeight spent) l /\
  (vt_spendableUnits st = sumZ (so_AmountUnits <$> vt_spendable st) ->
   vt_spendableUnits st' = sumZ (so_AmountUnits <$> vt_spendable st')).
Proof.
  induction l as [|o l IH]; intros st st' Hf; cbn [foldM] in Hf.
  { simplify_eq. cbn. by rewrite app_nil_r. }
  destruct (classify p tipHeight spent st o) as [st1|] eqn:Ec; [|done].
  destruct (IH _ _ Hf) as [Hs Hu]. cbn [omap list_omap].
  assert (Hstep : vt_spendable st1 = vt_spendable st
            ++ match spendable_of p tipHeight spent o with Some s => [s] | None => [] end /\
    (vt_spendableUnits st = sumZ (so_AmountUnits <$> vt_spendable st) ->
     vt_spendableUnits st1 = sumZ (so_AmountUnits <$> vt_spendable st1))).
  { unfold classify, spendable_of in *. destruct (_ || _); [simplify_eq; by rewrite app_nil_r|].
    destruct (_ && _); [res_simpl; cbn; by rewrite app_nil_r|].
    destruct (decide _); [simplify_eq; by rewrite app_nil_r|]. res_simpl. cbn. split; [done|].
    rename select (addWalletMoney _ _ _ = _) into Hadd. unfold addWalletMoney in Hadd.
    destruct (checkedAddMoney _ _) eqn:Ea; [|done]. res_simpl.
    apply checkedAddMoney_Some in Ea as (-> & _). intros ->.
    change (list_fmap _ _ so_AmountUnits (vt_spendable st ++ ?x))
      with (so_AmountUnits <$> (vt_spendable st ++ x)).
    rewrite fmap_app, sumZ_app. cbn. lia. }
  destruct Hstep as [Hs1 Hu1]. split; [|by auto].
  rewrite Hs, Hs1, <- app_assoc. by destruct (spendable_of p tipHeight spent o).
Qed.

#[global] Instance outpoint_le_total : Total outpoint_le.
Proof.
  intros a b. unfold outpoint_le. rewrite (bytes_compare_antisym (op_TxID a)).
  destruct (bytes_compare _ _); cbn; [|auto..]. lia.
Qed.
#[global] Instance spendable_le_total : Total spendable_le.
Proof. intros a b. apply outpoint_le_total. Qed.

(** What the wallet may spend, read off the UTXO set and the mempool. *)
Definition spendable_spec (c : Chain) (so : SpendableOutputSnapshot) : Prop :=
  exists e, c_utxo c !! so_OutPoint so = Some e /\
    so_AmountUnits so = ue_Value e /\ so_OwnerPKH so = ue_PKH e /\
    owners !! ue_PKH e = Some (so_OwnerIndex so) /\
    (ue_Coinbase e = true ->
     CoinbaseMaturity (c_params c) <= bi_height (c_tip c) - ue_Height e + 1) /\
    so_OutPoint so ∉ mempool_spent (c_mempool c).

Lemma spendable_of_spec p c created spent so :
  c_params c = p -> matches created (c_utxo c) -> owners_ok owners created ->
  (forall op, op ∈ spent <-> op ∈ mempool_spent (c_mempool c)) ->
  (exists op o, created !! op = Some o /\
     spendable_of p (bi_height (c_tip c)) spent o = Some so) <-> spendable_spec c so.
Proof.
  intros Hp Hm Ho Hs. unfold spendable_of, spendable_spec. split.
  - intros (op & o & Hl & Hsp). destruct (Ho _ _ Hl) as [Hop How].
    specialize (Hm op). rewrite Hl in Hm. cbn in Hm. unfold unspent_entry in Hm.
    destruct (cw_owned o); [|done]. destruct (cw_spent o); [done|]. cbn [negb orb] in Hsp.
    destruct (_ && _) eqn:Emat; [done|]. destruct (decide _) as [|Hns]; [done|].
    simplify_eq. eexists. split; [exact Hm|].
    cbn [so_OutPoint so_AmountUnits so_OwnerPKH so_OwnerIndex ue_Value ue_PKH ue_Height
         ue_Coinbase]. split_and!; try done.
    + destruct (owners !! cw_pkh o); [by destruct How as [_ <-]|done].
    + intros Hcb. rewrite Hcb in Emat. cbn in Emat. bool_prop. lia.
    + by rewrite <- Hs.
  - intros (e & He & Hv & Hpk & Hown & Hmat & Hns).
    pose proof (Hm (so_OutPoint so)) as Hmo. rewrite He in Hmo.
    destruct (created !! so_OutPoint so) as [o|] eqn:Hl; [|done]. cbn in Hmo.
    destruct (Ho _ _ Hl) as [Hop How]. unfold unspent_entry in Hmo.
    destruct (cw_spent o) eqn:Esp; [done|]. simplify_eq. cbn in *.
    exists (so_OutPoint so), o. split; [done|]. rewrite Esp. rewrite Hown in How.
    destruct How as [-> Hidx]. cbn [negb orb].
    destruct (_ && _) eqn:Emat; [bool_prop; specialize (Hmat ltac:(done)); lia|].
    rewrite Hop, decide_False by (by rewrite Hs). f_equal. rewrite Hidx, <- Hv, <- Hpk.
    by destruct so.
Qed.

Lemma walletView_spendable p c lim view :
  pow_params_ok p -> chain_inv p c -> walletViewForOwnersLocked c owners lim = Ok view ->
  (forall so, so ∈ wv_SpendableOutputs view <-> spendable_spec c so) /\
  wv_SpendableUnits view = sumZ (so_AmountUnits <$> wv_SpendableOutputs view) /\
  Sorted spendable_le (wv_SpendableOutputs view).
Proof.
  intros Hpow Hc Hv. unfold walletViewForOwnersLocked in Hv.
  apply bind_Ok in Hv as (tip & Htip & Hv).
  assert (Htiph : ts_Height tip = bi_height (c_tip c)).
  { unfold canonicalTipSnapshotLocked in Htip. res_simpl. done. }
  destruct (ci_main _ _ Hc) as (l & Hb & _ & Hrep).
  rewrite (canonical_sequence_ok p Hpow c l Hc Hb) in Hv. cbn [mbind result_bind] in Hv.
  apply bind_Ok in Hv as ([created act] & Hscan & Hv). rewrite (ci_params _ _ Hc) in *.
  apply view_chain_sim with (u := c_utxo c) in Hscan as [Hm Ho];
    [|by eapply branch_heights|by eapply branch_entry_ok|done].
  cbn [fst] in Hm, Ho.
  apply bind_Ok in Hv as (u & _ & Hv). apply bind_Ok in Hv as ([spent mact] & Hmem & Hv).
  apply bind_Ok in Hv as (totals & Hcl & Hv). res_simpl. cbn.
  apply classify_spendable in Hcl as [Hsp Hun]. cbn in Hsp. specialize (Hun eq_refl).
  assert (Hset : forall op, op ∈ spent <-> op ∈ mempool_spent (c_mempool c)).
  { intros op. rewrite (mempool_txs_spent _ _ _ _ _ Hmem op), mempool_spent_spec. cbn [fst].
    split.
    - intros [?|(id & tx & i & _ & ?)]; [set_solver|eauto].
    - intros (id & tx & i & Hid & ?). right. exists id, tx, i. split; [|done].
      rewrite merge_sort_Permutation. apply list_elem_of_fmap. exists (id, tx).
      split; [done|]. by apply elem_of_map_to_list. }
  rewrite Htiph in Hsp. split_and!.
  - intros so. rewrite merge_sort_Permutation, Hsp, list_elem_of_omap.
    rewrite <- (spendable_of_spec p c created spent so (ci_params _ _ Hc) Hm Ho Hset). split.
    + intros (o & ([op o'] & -> & Hin)%list_elem_of_fmap & Ho').
      apply elem_of_map_to_list in Hin. eauto.
    + intros (op & o & Hl & Hso). exists o. split; [|done]. apply list_elem_of_fmap.
      exists (op, o). split; [done|]. by apply elem_of_map_to_list.
  - rewrite Hun. by rewrite merge_sort_Permutation.
  - apply (Sorted_merge_sort spendable_le).
Qed.
End result.
