(* ===== verification/Wallet.v ===== *)
(** * Wallet payments (wallet/wallet.go)

    Key views, wallet snapshots from the chain or from an untrusted gateway,
    their hash, and the selection and signing of payments.  A private key is a
    byte list; a string is a byte list.  The key file is read by [io_read], an
    argument together with the outcomes of the other file operations
    ([walletIO]).  Values that Go returns next to a non-nil error are dropped.
    [between] is what other goroutines do to the chain between two calls. *)
From S2P Require Import Prelude Text GoHeap Params Crypto Pow Wire Merkle Address Chain.
From S2P Require Import ChainView WalletView.

Definition SchemaVersion : Z := 1.
Definition MaxRestrictedOutpoints : Z := 4096.
Definition MaxWalletKeys : Z := 10000.
Definition MaxPaymentCandidates : Z := 10000.
Definition MaxPaymentInputs : Z := 10000.
Definition MaxSignedTxBytes : Z := 10000.
Definition MaxSnapshotOutpoints : Z := 10000.

Definition ErrWalletNotFound : error := EText "wallet file not found".

Inductive walletDiskState := walletMissing | walletLegacy | walletV1 | walletV2.
#[global] Instance walletDiskState_eq_dec : EqDecision walletDiskState.
Proof. solve_decision. Defined.

Record Wallet := mkWallet { w_network : string }.

Record walletIO := mkWalletIO {
  io_mkdir : option error; io_lock : option error; io_hardlink : option error;
  io_read : result (list bytes * walletDiskState); io_release : option error }.

(** [return e] when an operation failed. *)
Definition ensure (e : option error) : result unit :=
  match e with Some e => Err e | None => Ok tt end.

(** [err = errors.Join(err, lock.release())] *)
Definition join_release {A} (r : result A) (release : option error) : result A :=
  match r, release with
  | Ok a, None => Ok a
  | Ok _, Some e => Err e
  | Err e, None => Err e
  | Err e, Some e' => Err (EJoin e e')
  end.

Definition withKeys {A} (io : walletIO) (requireKey : bool) (fn : list bytes -> result A)
    : result A :=
  _ ← ensure (io_mkdir io);
  _ ← ensure (io_lock io);
  join_release
    (_ ← ensure (io_hardlink io);
     '(keys, state) ← io_read io;
     if bool_decide (state = walletMissing) && requireKey then Err ErrWalletNotFound else
     if requireKey && (length keys =? 0)%nat then Err (EText "wallet has no keys") else
     fn keys)
    (io_release io).

Record PreparedPayment := mkPrepared { pp_Tx : Tx; pp_SelectedOutpoints : list OutPoint }.

Record SnapshotOutpoint := mkSnapOut {
  sn_Outpoint : bytes; sn_AmountUnits : Z; sn_Address : bytes; sn_OutpointRef : OutPoint;
  sn_TxID : Hash32; sn_Vout : Z; sn_OwnerPKH : bytes; sn_OwnerAddressIndex : Z;
  sn_KeyIndex : Z }.

Record Snapshot := mkSnapshot {
  sp_SchemaVersion : Z; sp_Network : string; sp_Tip : ChainTipSnapshot;
  sp_PrimaryAddress : bytes; sp_Addresses : list bytes; sp_Outpoints : list SnapshotOutpoint;
  sp_SpendableUnits : Z; sp_WalletSnapshotHash : bytes }.

Record RemoteSnapshotOutpoint := mkRemoteOut {
  ro_TxID : Hash32; ro_Vout : Z; ro_AmountUnits : Z; ro_Address : bytes }.

Record RemoteSnapshot := mkRemote {
  rs_Network : string; rs_Tip : ChainTipSnapshot; rs_Addresses : list bytes;
  rs_Outpoints : list RemoteSnapshotOutpoint; rs_SpendableUnits : Z }.

#[global] Instance ChainTipSnapshot_eq_dec : EqDecision ChainTipSnapshot.
Proof. solve_decision. Defined.

(** ** Amounts and addresses *)
Definition addSpendable (total amount : Z) : result Z :=
  if negb (MoneyRange total) || negb (MoneyRange amount) || (total >? MaxMoneyUnits - amount)
  then Err (EText "spendable amount overflow") else Ok (total + amount).

Definition isASCII (value : bytes) : bool := forallb (fun c => b2z c <=? 0x7f) value.

(** [fmt.Sprintf("%x:%d", txid, vout)] *)
Definition outpoint_text (txid : Hash32) (vout : Z) : bytes :=
  hex_encode txid ++ bs ":" ++ dec_string vout.

(** ** Candidates *)
Record paymentCandidate := mkCandidate { pc_op : OutPoint; pc_amount : Z; pc_key : Z }.

Definition paymentCandidateBetter (left right : paymentCandidate) : bool :=
  if negb (pc_amount left =? pc_amount right) then pc_amount left >? pc_amount right else
  match bytes_compare (op_TxID (pc_op left)) (op_TxID (pc_op right)) with
  | Lt => true
  | Gt => false
  | Eq => op_Idx (pc_op left) <? op_Idx (pc_op right)
  end.

(** The order of [sort.Slice]: [a] may precede [b] unless [b] is better. *)
Definition candidate_le (a b : paymentCandidate) : Prop := paymentCandidateBetter b a = false.
#[global] Instance candidate_le_dec a b : Decision (candidate_le a b).
Proof. unfold candidate_le. apply _. Defined.

Section wallet.
Context `{Crypto}.

Definition pkhForKey (key : bytes) : bytes := PubKeyHash20 (ed25519_Public key).
Definition addressForKey (key : bytes) : bytes := EncodeAddress (pkhForKey key).

Definition AddressesE (io : walletIO) : result (list bytes) :=
  withKeys io false (fun keys => Ok (addressForKey <$> keys)).

Definition PKHsE (io : walletIO) : result (list bytes) :=
  withKeys io false (fun keys => Ok (pkhForKey <$> keys)).

Definition PrimaryPKHE (io : walletIO) : result bytes :=
  withKeys io true (fun keys =>
    key ← deref (head keys) "index out of range";
    let primary := pkhForKey key in
    if bool_decide (primary = zeros 20) then Err (EText "wallet primary PKH is all zero")
    else Ok primary).

Definition BalanceE (w : Wallet) (io : walletIO) (c : option Chain) : result Z :=
  match c with
  | None => Err (EText "nil balance chain")
  | Some c =>
      withKeys io true (fun keys =>
        pkhs ← foldM (fun pkhs key =>
                  if bool_decide (pkhForKey key = zeros 20)
                  then Err (EText "wallet PKH is all zero") else Ok (pkhs ++ [pkhForKey key]))
                [] keys;
        snapshot ← SpendableOutputsForPKHs c pkhs;
        _ ← check (ss_Complete snapshot && bool_decide (ss_Network snapshot = w_network w)
                   && bool_decide (ts_Network (ss_Tip snapshot) = w_network w))
              (EText "balance chain network mismatch");
        foldM (fun balance output => addSpendable balance (so_AmountUnits output)) 0
          (ss_Outputs snapshot))
  end.

(** ** Payment requests *)
Definition validatePaymentValues (toAddr : bytes) (amount fee : Z) (excluded : gset OutPoint)
    : result bytes :=
  if (amount <=? 0) || negb (MoneyRange amount) || (fee <? 0) || negb (MoneyRange fee)
     || (amount >? MaxMoneyUnits - fee)
  then Err (EText "amount or fee out of range") else
  if Z.of_nat (size excluded) >? MaxRestrictedOutpoints
  then Err (EText "too many restricted outpoints") else
  match DecodeAddress toAddr with
  | Err _ => Err (EText "bad destination address")
  | Ok toPKH => if negb (bool_decide (EncodeAddress toPKH = toAddr))
                then Err (EText "bad destination address") else Ok toPKH
  end.

Definition validatePaymentRequest (c : option Chain) (toAddr : bytes) (amount fee : Z)
    (excluded : gset OutPoint) : result (Chain * bytes) :=
  match c with
  | None => Err (EText "nil chain")
  | Some c => toPKH ← validatePaymentValues toAddr amount fee excluded; Ok (c, toPKH)
  end.

Definition rejectOwnedDestination (keys : list bytes) (destination : bytes) : result unit :=
  if existsb (fun key => bool_decide (pkhForKey key = destination)) keys
  then Err (EText "destination is owned by this wallet") else Ok tt.

(** ** Selecting and signing *)
Definition key_owns (keys : list bytes) (index : Z) (pkh : bytes) : bool :=
  (0 <=? index) && (index <? Z.of_nat (length keys)) &&
  match keys !! Z.to_nat index with
  | Some key => bool_decide (pkhForKey key = pkh)
  | None => false
  end.

(** One iteration of the candidate loop; the state is [candidateHeap]. *)
Definition consider (keys : list bytes) (excluded : gset OutPoint)
    (candidateHeap : list paymentCandidate) (output : SnapshotOutpoint)
    : result (list paymentCandidate) :=
  if decide (sn_OutpointRef output ∈ excluded) then Ok candidateHeap else
  if negb (key_owns keys (sn_KeyIndex output) (sn_OwnerPKH output))
  then Err (EText "snapshot owner does not match signing key") else
  if (sn_AmountUnits output <=? 0) || negb (MoneyRange (sn_AmountUnits output))
  then Err (EText "snapshot candidate amount out of range") else
  Ok (offer paymentCandidateBetter (Z.to_nat MaxPaymentCandidates) candidateHeap
        (mkCandidate (sn_OutpointRef output) (sn_AmountUnits output) (sn_KeyIndex output))).

Record selection := mkSelection {
  sl_inputs : list TxIn; sl_signing : list bytes; sl_selected : list OutPoint; sl_sum : Z }.

(** The selection loop, with its [break]. *)
Fixpoint select (keys : list bytes) (need : Z) (candidates : list paymentCandidate)
    (st : selection) : result selection :=
  match candidates with
  | [] => Ok st
  | candidate :: rest =>
      if Z.of_nat (length (sl_inputs st)) >=? MaxPaymentInputs
      then Err (EText "payment input count limit exceeded") else
      if negb (MoneyRange (pc_amount candidate))
         || (sl_sum st >? MaxMoneyUnits - pc_amount candidate)
      then Err (EText "input sum out of range") else
      key ← deref (keys !! Z.to_nat (pc_key candidate)) "index out of range";
      let st' := mkSelection (sl_inputs st ++ [mkTxIn (pc_op candidate) [] []])
                   (sl_signing st ++ [key]) (sl_selected st ++ [pc_op candidate])
                   (sl_sum st + pc_amount candidate) in
      if sl_sum st' >=? need then Ok st' else select keys need rest st'
  end.

Definition buildPaymentFromSnapshot (keys : list bytes) (snapshot : Snapshot) (toPKH : bytes)
    (amount fee : Z) (excluded : gset OutPoint) : result PreparedPayment :=
  candidateHeap ← foldM (consider keys excluded) [] (sp_Outpoints snapshot);
  let candidates := merge_sort candidate_le candidateHeap in
  let need := i64 (amount + fee) in
  st ← select keys need candidates (mkSelection [] [] [] 0);
  if sl_sum st <? need
  then Err (ENum "insufficient eligible funds" [sl_sum st; need]) else
  let change := sl_sum st - need in
  changeOutputs ← (if change >? 0 then
                     primary ← deref (head keys) "index out of range";
                     Ok [mkTxOut change (pkhForKey primary)]
                   else Ok []);
  let outputs := mkTxOut amount toPKH :: changeOutputs in
  tx ← Sign (mkTx 1 (sl_inputs st) outputs []) (sl_signing st);
  if Z.of_nat (length (Tx_Bytes tx)) >? MaxSignedTxBytes
  then Err (EText "signed transaction exceeds 10,000-byte limit")
  else Ok (mkPrepared tx (sl_selected st)).

Definition SubmitPayment (c : option Chain) (tx : option Tx)
    : option Chain * result TxAcceptanceResult :=
  match c, tx with
  | Some c, Some tx => let '(c', r) := AcceptTxWithResult c (Some tx) in (Some c', r)
  | _, _ => (c, Err (EText "nil chain or transaction"))
  end.
End wallet.
