(* ===== verification/WalletSnapshot.v ===== *)
(** * Wallet snapshots and payment entry points (wallet/wallet.go)

    [snapshotWithKeys] derives the spendable outputs of the wallet's keys from
    the chain, [snapshotFromRemoteWithKeys] validates the same data received from
    a gateway, [snapshotHashPreimage] is the canonical encoding a snapshot hash
    commits to.  The entry points combine them with [buildPaymentFromSnapshot]. *)
From S2P Require Import Prelude Text GoHeap Params Crypto Pow Wire Merkle Address Chain.
From S2P Require Import ChainView WalletView Wallet.

(** ** The snapshot hash *)
Definition uint16_max : Z := 65535.

Definition len_ok (s : bytes) : bool :=
  negb (length s =? 0)%nat && negb (Z.of_nat (length s) >? uint16_max) && isASCII s.

(** One iteration of the address loop; the state is the buffer, [primaryCount]
    and the previous address. *)
Definition preimage_address (primary : bytes) (st : bytes * Z * option bytes) (address : bytes)
    : result (bytes * Z * option bytes) :=
  let '(buf, primaryCount, prev) := st in
  if negb (len_ok address)
     || match prev with Some p => bool_decide (bytes_le address p) | None => false end
  then Err (EText "wallet snapshot address is noncanonical") else
  Ok (buf ++ be_bytes 2 (Z.of_nat (length address)) ++ address,
      primaryCount + (if bool_decide (address = primary) then 1 else 0), Some address).

(** [previous] sorts strictly before the outpoint. *)
Definition strictly_before (previous : OutPoint) (txid : Hash32) (vout : Z) : bool :=
  match bytes_compare (op_TxID previous) txid with
  | Gt => false
  | Eq => op_Idx previous <? vout
  | Lt => true
  end.

(** One iteration of the outpoint loop; the state is the buffer and [previous]. *)
Definition preimage_outpoint (addresses : list bytes) (st : bytes * option OutPoint)
    (output : SnapshotOutpoint) : result (bytes * option OutPoint) :=
  let '(buf, previous) := st in
  if negb (bool_decide (sn_OutpointRef output = mkOutPoint (sn_TxID output) (sn_Vout output)))
     || negb (bool_decide (sn_Outpoint output = outpoint_text (sn_TxID output) (sn_Vout output)))
     || negb (MoneyRange (sn_AmountUnits output)) || (sn_AmountUnits output <=? 0)
     || (sn_OwnerAddressIndex output >=? Z.of_nat (length addresses))
     || negb (bool_decide (addresses !! Z.to_nat (sn_OwnerAddressIndex output)
                           = Some (sn_Address output)))
  then Err (EText "wallet snapshot outpoint is noncanonical") else
  if match previous with
     | Some p => negb (strictly_before p (sn_TxID output) (sn_Vout output))
     | None => false
     end
  then Err (EText "wallet snapshot outpoints are not strictly sorted") else
  Ok (buf ++ sn_TxID output ++ be_bytes 4 (sn_Vout output)
          ++ be_bytes 8 (u64 (sn_AmountUnits output)) ++ be_bytes 4 (sn_OwnerAddressIndex output),
      Some (sn_OutpointRef output)).

Definition snapshotHashPreimage (s : Snapshot) : result bytes :=
  if (ts_Height (sp_Tip s) <? 0) || negb (bool_decide (ts_Network (sp_Tip s) = sp_Network s))
     || (negb (bool_decide (sp_Network s = MainNetMachineID))
         && negb (bool_decide (sp_Network s = RegTestMachineID)))
     || (Z.of_nat (length (bs (sp_Network s))) >? uint16_max) || negb (isASCII (bs (sp_Network s)))
     || negb (len_ok (sp_PrimaryAddress s))
     || (Z.of_nat (length (sp_Addresses s)) >? two32 - 1)
     || (Z.of_nat (length (sp_Outpoints s)) >? two32 - 1)
  then Err (EText "wallet snapshot hash field out of range") else
  let buf := bs "btc09-wallet-snapshot-v2" ++ [Byte.x00]
    ++ be_bytes 2 (Z.of_nat (length (bs (sp_Network s)))) ++ bs (sp_Network s)
    ++ ts_Hash (sp_Tip s) ++ be_bytes 8 (u64 (ts_Height (sp_Tip s)))
    ++ be_bytes 2 (Z.of_nat (length (sp_PrimaryAddress s))) ++ sp_PrimaryAddress s
    ++ be_bytes 4 (Z.of_nat (length (sp_Addresses s))) in
  '(buf, primaryCount, _) ←
    foldM (preimage_address (sp_PrimaryAddress s)) (buf, 0, None) (sp_Addresses s);
  if negb (primaryCount =? 1)
  then Err (EText "wallet snapshot primary address is noncanonical") else
  let buf := buf ++ be_bytes 4 (Z.of_nat (length (sp_Outpoints s))) in
  '(buf, _) ← foldM (preimage_outpoint (sp_Addresses s)) (buf, None) (sp_Outpoints s);
  Ok buf.

Section snapshots.
Context `{Crypto}.

Definition hashSnapshot (s : Snapshot) : result bytes :=
  preimage ← snapshotHashPreimage s; Ok (hex_encode (Sum256 preimage)).

Definition with_hash (s : Snapshot) (hash : bytes) : Snapshot :=
  mkSnapshot (sp_SchemaVersion s) (sp_Network s) (sp_Tip s) (sp_PrimaryAddress s)
    (sp_Addresses s) (sp_Outpoints s) (sp_SpendableUnits s) hash.

(** [addressIndexes] of the sorted addresses; equal neighbours are an error. *)
Definition index_address (st : gmap bytes Z * option bytes) (ia : nat * bytes)
    : result (gmap bytes Z * option bytes) :=
  let '(indexes, prev) := st in
  if bool_decide (prev = Some ia.2) then Err (EText "duplicate wallet address")
  else Ok (<[ia.2 := u32 (Z.of_nat ia.1)]> indexes, Some ia.2).

(** One iteration over the chain's outputs; the state is [seenOutpoints],
    [SpendableUnits] and [Outpoints]. *)
Definition add_output (pkhs keyAddresses : list bytes) (addressIndexes : gmap bytes Z)
    (st : gset OutPoint * Z * list SnapshotOutpoint) (output : SpendableOutputSnapshot)
    : result (gset OutPoint * Z * list SnapshotOutpoint) :=
  let '(seen, units, outs) := st in
  let op := so_OutPoint output in
  let index := Z.to_nat (so_OwnerIndex output) in
  if (so_OwnerIndex output >=? Z.of_nat (length pkhs))
     || negb (bool_decide (pkhs !! index = Some (so_OwnerPKH output)))
  then Err (EText "invalid snapshot owner index") else
  if decide (op ∈ seen) then Err (EText "duplicate wallet outpoint") else
  ownerAddress ← deref (keyAddresses !! index) "index out of range";
  match addressIndexes !! ownerAddress with
  | None => Err (EText "snapshot owner address is missing")
  | Some ownerAddressIndex =>
      spendable ← addSpendable units (so_AmountUnits output);
      Ok ({[op]} ∪ seen, spendable,
          outs ++ [mkSnapOut (outpoint_text (op_TxID op) (op_Idx op)) (so_AmountUnits output)
                     ownerAddress op (op_TxID op) (op_Idx op) (so_OwnerPKH output)
                     ownerAddressIndex (so_OwnerIndex output)])
  end.

Definition snapshotWithKeys (c : Chain) (network : string) (expected : ChainTipSnapshot)
    (keys : list bytes) : result Snapshot :=
  if (length keys =? 0)%nat then Err (EText "wallet has no primary address") else
  let pkhs := pkhForKey <$> keys in
  let keyAddresses := addressForKey <$> keys in
  chainSnapshot ← SpendableOutputsForPKHs c pkhs;
  if negb (ss_Complete chainSnapshot) || negb (bool_decide (ss_Tip chainSnapshot = expected))
     || negb (bool_decide (ss_Network chainSnapshot = network))
  then Err (EText "chain tip or network mismatch") else
  primary ← deref (head keyAddresses) "index out of range";
  let addresses := merge_sort bytes_le keyAddresses in
  '(addressIndexes, _) ← foldM index_address (∅, None) (indexed addresses);
  if (length primary =? 0)%nat then Err (EText "wallet primary address is empty") else
  if negb (bool_decide (is_Some ((addressIndexes : gmap bytes Z) !! primary)))
  then Err (EText "wallet primary address is missing") else
  '(_, units, outs) ← foldM (add_output pkhs keyAddresses addressIndexes) (∅, 0, [])
                        (ss_Outputs chainSnapshot);
  let snapshot := mkSnapshot SchemaVersion network expected primary addresses outs units [] in
  hash ← hashSnapshot snapshot;
  Ok (with_hash snapshot hash).

(** ** Snapshots received from a gateway *)
Definition index_key (st : gmap bytes Z) (ik : nat * bytes) : result (gmap bytes Z) :=
  let address := addressForKey ik.2 in
  if decide (is_Some (st !! address)) then Err (EText "wallet contains duplicate keys")
  else Ok (<[address := Z.of_nat ik.1]> st).

Definition match_address (remote : list bytes) (st : gmap bytes Z) (ia : nat * bytes)
    : result (gmap bytes Z) :=
  answer ← deref (remote !! ia.1) "index out of range";
  if negb (bool_decide (answer = ia.2))
  then Err (EText "remote wallet snapshot address set changed")
  else Ok (<[ia.2 := u32 (Z.of_nat ia.1)]> st).

(** One iteration over the gateway's outputs; the state is [total], [previous]
    and the outpoints. *)
Definition remote_output (keys : list bytes) (keyIndexes addressIndexes : gmap bytes Z)
    (st : Z * option OutPoint * list SnapshotOutpoint) (output : RemoteSnapshotOutpoint)
    : result (Z * option OutPoint * list SnapshotOutpoint) :=
  let '(total, previous, outs) := st in
  let outpoint := mkOutPoint (ro_TxID output) (ro_Vout output) in
  let invalid := Err (EText "remote wallet snapshot contains an invalid output") in
  match keyIndexes !! ro_Address output, addressIndexes !! ro_Address output,
        DecodeAddress (ro_Address output) with
  | Some keyIndex, Some ownerAddressIndex, Ok ownerPKH =>
      if negb (bool_decide (EncodeAddress ownerPKH = ro_Address output))
         || negb (bool_decide (pkhForKey <$> keys !! Z.to_nat keyIndex = Some ownerPKH))
         || (ro_AmountUnits output <=? 0) || negb (MoneyRange (ro_AmountUnits output))
      then invalid else
      if match previous with
         | Some p => negb (strictly_before p (ro_TxID output) (ro_Vout output))
         | None => false
         end
      then Err (EText "remote wallet snapshot outpoints are not strictly sorted") else
      if total >? MaxMoneyUnits - ro_AmountUnits output
      then Err (EText "remote wallet snapshot amount overflow") else
      Ok (total + ro_AmountUnits output, Some outpoint,
          outs ++ [mkSnapOut (outpoint_text (ro_TxID output) (ro_Vout output))
                     (ro_AmountUnits output) (ro_Address output) outpoint (ro_TxID output)
                     (ro_Vout output) ownerPKH ownerAddressIndex keyIndex])
  | _, _, _ => invalid
  end.

Definition snapshotFromRemoteWithKeys (network : string) (remote : RemoteSnapshot)
    (keys : list bytes) : result Snapshot :=
  if (length keys =? 0)%nat || (Z.of_nat (length keys) >? MaxWalletKeys)
     || negb (bool_decide (rs_Network remote = network))
     || negb (bool_decide (ts_Network (rs_Tip remote) = network))
     || (ts_Height (rs_Tip remote) <? 0)
     || negb (length (rs_Addresses remote) =? length keys)%nat
     || (Z.of_nat (length (rs_Outpoints remote)) >? MaxSnapshotOutpoints)
     || negb (MoneyRange (rs_SpendableUnits remote))
  then Err (EText "remote wallet snapshot identity is inconsistent") else
  keyIndexes ← foldM index_key ∅ (indexed keys);
  let keyAddresses := addressForKey <$> keys in
  let sortedAddresses := merge_sort bytes_le keyAddresses in
  addressIndexes ← foldM (match_address (rs_Addresses remote)) ∅ (indexed sortedAddresses);
  primary ← deref (head keyAddresses) "index out of range";
  '(total, _, outs) ← foldM (remote_output keys keyIndexes addressIndexes) (0, None, [])
                        (rs_Outpoints remote);
  if negb (total =? rs_SpendableUnits remote)
  then Err (EText "remote wallet snapshot spendable total is inconsistent") else
  let snapshot := mkSnapshot SchemaVersion network (rs_Tip remote) primary sortedAddresses
                    outs total [] in
  hash ← hashSnapshot snapshot;
  Ok (with_hash snapshot hash).

(** ** Anchoring *)
Definition anchoredOutpoints (snapshot : Snapshot) : gset OutPoint :=
  list_to_set (sn_OutpointRef <$> sp_Outpoints snapshot).

Definition validateSelectedAnchored (selected : list OutPoint) (allowed : gset OutPoint)
    : result unit :=
  if forallb (fun op => bool_decide (op ∈ allowed)) selected then Ok tt
  else Err (EText "selected outpoint is not in anchored wallet snapshot").

(** ** Entry points *)
Definition BuildPayment (w : Wallet) (io : walletIO) (c : option Chain)
    (between : Chain -> Chain) (toAddr : bytes) (amount fee : Z) (excluded : gset OutPoint)
    : result PreparedPayment :=
  '(c, toPKH) ← validatePaymentRequest c toAddr amount fee excluded;
  withKeys io true (fun keys =>
    tip ← canonicalTipSnapshotLocked c;
    snapshot ← snapshotWithKeys (between c) (w_network w) tip keys;
    buildPaymentFromSnapshot keys snapshot toPKH amount fee excluded).

(** [Send] admits the payment in the state the chain has reached meanwhile. *)
Definition Send (w : Wallet) (io : walletIO) (c : option Chain) (between after : Chain -> Chain)
    (to : bytes) (amount fee : Z) : option Chain * result Tx :=
  match BuildPayment w io c between to amount fee ∅ with
  | Err e => (after ∘ between <$> c, Err e)
  | Ok prepared =>
      let '(c', r) := SubmitPayment (after ∘ between <$> c) (Some (pp_Tx prepared)) in
      (c', _ ← r; Ok (pp_Tx prepared))
  end.

Definition ValidateRemoteSnapshot (w : Wallet) (io : walletIO) (remote : RemoteSnapshot)
    : result Snapshot :=
  withKeys io true (fun keys => snapshotFromRemoteWithKeys (w_network w) remote keys).

Definition PrepareFromRemoteSnapshot (w : Wallet) (io : walletIO) (remote : RemoteSnapshot)
    (toAddr : bytes) (amount fee : Z) (excluded : gset OutPoint)
    : result (Snapshot * PreparedPayment) :=
  toPKH ← validatePaymentValues toAddr amount fee excluded;
  withKeys io true (fun keys =>
    _ ← rejectOwnedDestination keys toPKH;
    snapshot ← snapshotFromRemoteWithKeys (w_network w) remote keys;
    prepared ← buildPaymentFromSnapshot keys snapshot toPKH amount fee excluded;
    _ ← validateSelectedAnchored (pp_SelectedOutpoints prepared) (anchoredOutpoints snapshot);
    Ok (snapshot, prepared)).

Definition SnapshotAt (w : Wallet) (io : walletIO) (c : option Chain)
    (expected : ChainTipSnapshot) : result Snapshot :=
  match c with
  | None => Err (EText "nil chain")
  | Some c => withKeys io true (fun keys => snapshotWithKeys c (w_network w) expected keys)
  end.

(** The tip is read again at the end: [after] is the state it is read in. *)
Definition tip_unchanged (after : Chain) (expected : ChainTipSnapshot) : result unit :=
  match canonicalTipSnapshotLocked after with
  | Ok tip => if bool_decide (tip = expected) then Ok tt
              else Err (EText "chain tip changed during wallet preparation")
  | Err _ => Err (EText "chain tip changed during wallet preparation")
  end.

Definition PrepareAt (w : Wallet) (io : walletIO) (c : option Chain) (between : Chain -> Chain)
    (expected : ChainTipSnapshot) (toAddr : bytes) (amount fee : Z) (excluded : gset OutPoint)
    : result (Snapshot * PreparedPayment) :=
  '(c, toPKH) ← validatePaymentRequest c toAddr amount fee excluded;
  withKeys io true (fun keys =>
    _ ← rejectOwnedDestination keys toPKH;
    snapshot ← snapshotWithKeys c (w_network w) expected keys;
    prepared ← buildPaymentFromSnapshot keys snapshot toPKH amount fee excluded;
    _ ← validateSelectedAnchored (pp_SelectedOutpoints prepared) (anchoredOutpoints snapshot);
    _ ← tip_unchanged (between c) expected;
    Ok (snapshot, prepared)).
End snapshots.
