(* ===== verification/WalletSend.v ===== *)
(** * Maximum sends and cleanups (wallet/maximum.go, wallet/consolidation.go)

    [buildMaximumFromSnapshot] spends every eligible output to one destination;
    [buildCleanupFromSnapshot] merges the smallest outputs of the address with
    the most outputs back to that address, in the largest batch that fits in a
    transaction, found by binary search. *)
From S2P Require Import Prelude Text GoHeap Params Crypto Pow Wire Merkle Address Chain.
From S2P Require Import ChainView WalletView Wallet WalletSnapshot.

Definition ErrNoCleanupNeeded : error := EText "no cleanup needed".
Definition ErrCleanupTooSmall : error := EText "cleanup inputs do not cover fee".

Record PreparedCleanup := mkPreparedCleanup {
  pu_Tx : Tx; pu_Address : bytes; pu_AmountUnits : Z; pu_FeeUnits : Z;
  pu_SelectedOutpoints : list OutPoint; pu_MoreAvailable : bool }.

Record cleanupCandidate := mkCleanup { cc_outpoint : OutPoint; cc_amount : Z; cc_keyIndex : Z }.

Record cleanupGroup := mkGroup {
  cg_address : bytes; cg_pkh : bytes; cg_keyIndex : Z;
  cg_candidates : list cleanupCandidate; cg_total : Z }.

Definition validateCleanupValues (fee : Z) (excluded : gset OutPoint) : result unit :=
  if (fee <? 0) || negb (MoneyRange fee) then Err (EText "cleanup fee out of range") else
  if Z.of_nat (size excluded) >? MaxRestrictedOutpoints
  then Err (EText "too many restricted outpoints") else Ok tt.

Definition cleanupOutpointLess (left right : OutPoint) : bool :=
  match bytes_compare (op_TxID left) (op_TxID right) with
  | Lt => true
  | Gt => false
  | Eq => op_Idx left <? op_Idx right
  end.

(** The orders of the two calls of [sort.Slice]: [a] may precede [b] unless [b]
    is less than [a]. *)
Definition group_less (a b : cleanupGroup) : bool :=
  if negb (length (cg_candidates a) =? length (cg_candidates b))%nat
  then (length (cg_candidates b) <? length (cg_candidates a))%nat
  else bytes_ltb (cg_address a) (cg_address b).
Definition cleanup_less (a b : cleanupCandidate) : bool :=
  if negb (cc_amount a =? cc_amount b) then cc_amount a <? cc_amount b
  else cleanupOutpointLess (cc_outpoint a) (cc_outpoint b).
Definition group_le (a b : cleanupGroup) : Prop := group_less b a = false.
Definition cleanup_le (a b : cleanupCandidate) : Prop := cleanup_less b a = false.
#[global] Instance group_le_dec a b : Decision (group_le a b).
Proof. unfold group_le. apply _. Defined.
#[global] Instance cleanup_le_dec a b : Decision (cleanup_le a b).
Proof. unfold cleanup_le. apply _. Defined.

(** One iteration of the prefix loop; the state is [prefixSums] and [minimum]. *)
Definition prefix_step (fee : Z) (st : list Z * Z) (ic : nat * cleanupCandidate)
    : result (list Z * Z) :=
  let '(prefixSums, minimum) := st in
  let '(index, candidate) := ic in
  sum ← deref (prefixSums !! index) "index out of range";
  next ← addSpendable sum (cc_amount candidate);
  let count := Z.of_nat index + 1 in
  Ok (prefixSums ++ [next],
      if (minimum =? 0) && (count >=? 2) && (next >? fee) then count else minimum).

Section send.
Context `{Crypto}.

Definition validateMaximumValues (toAddress : bytes) (fee : Z) (excluded : gset OutPoint)
    : result bytes :=
  if (fee <? 0) || negb (MoneyRange fee) then Err (EText "maximum send fee out of range") else
  if Z.of_nat (size excluded) >? MaxRestrictedOutpoints
  then Err (EText "too many restricted outpoints") else
  match DecodeAddress toAddress with
  | Err _ => Err (EText "bad destination address")
  | Ok destination => if negb (bool_decide (EncodeAddress destination = toAddress))
                      then Err (EText "bad destination address") else Ok destination
  end.

(** The checks that both loops over a snapshot's outputs start with; the state is
    [seen] and [snapshotTotal]. *)
Definition owned_output (keys : list bytes) (output : SnapshotOutpoint) : bool :=
  (0 <=? sn_KeyIndex output) && (sn_KeyIndex output <? Z.of_nat (length keys))
  && negb (sn_AmountUnits output <=? 0) && MoneyRange (sn_AmountUnits output)
  && match keys !! Z.to_nat (sn_KeyIndex output) with
     | Some key => bool_decide (pkhForKey key = sn_OwnerPKH output)
                   && bool_decide (addressForKey key = sn_Address output)
     | None => false
     end.

Definition check_snapshot_output (what : string) (keys : list bytes)
    (st : gset OutPoint * Z) (output : SnapshotOutpoint) : result (gset OutPoint * Z) :=
  let '(seen, snapshotTotal) := st in
  let op := sn_OutpointRef output in
  if negb (bool_decide (op = mkOutPoint (sn_TxID output) (sn_Vout output)))
  then Err (EText (what +:+ " snapshot outpoint is inconsistent")) else
  if decide (op ∈ seen)
  then Err (EText (what +:+ " snapshot contains a duplicate outpoint")) else
  if negb (owned_output keys output)
  then Err (EText (what +:+ " snapshot owner does not match signing key")) else
  total ← addSpendable snapshotTotal (sn_AmountUnits output);
  Ok ({[op]} ∪ seen, total).

(** ** Maximum sends *)
Definition maximum_output (keys : list bytes) (excluded : gset OutPoint)
    (st : gset OutPoint * Z * Z * Z) (output : SnapshotOutpoint)
    : result (gset OutPoint * Z * Z * Z) :=
  let '(seen, snapshotTotal, eligibleTotal, eligibleCount) := st in
  '(seen, snapshotTotal) ← check_snapshot_output "maximum-send" keys (seen, snapshotTotal) output;
  if decide (sn_OutpointRef output ∈ excluded)
  then Ok (seen, snapshotTotal, eligibleTotal, eligibleCount) else
  total ← addSpendable eligibleTotal (sn_AmountUnits output);
  Ok (seen, snapshotTotal, total, eligibleCount + 1).

Definition buildMaximumFromSnapshot (keys : list bytes) (snapshot : Snapshot)
    (destination : bytes) (fee : Z) (excluded : gset OutPoint) : result PreparedPayment :=
  if (fee <? 0) || negb (MoneyRange fee)
     || (Z.of_nat (size excluded) >? MaxRestrictedOutpoints)
     || (length keys =? 0)%nat || (Z.of_nat (length keys) >? MaxWalletKeys)
     || (Z.of_nat (length (sp_Outpoints snapshot)) >? MaxSnapshotOutpoints)
     || negb (MoneyRange (sp_SpendableUnits snapshot))
  then Err (EText "maximum-send snapshot identity is inconsistent") else
  '(_, snapshotTotal, eligibleTotal, eligibleCount) ←
    foldM (maximum_output keys excluded) (∅, 0, 0, 0) (sp_Outpoints snapshot);
  if negb (snapshotTotal =? sp_SpendableUnits snapshot)
  then Err (EText "maximum-send snapshot spendable total is inconsistent") else
  if eligibleTotal <=? fee
  then Err (EText "insufficient eligible funds for maximum send") else
  let amount := eligibleTotal - fee in
  prepared ← buildPaymentFromSnapshot keys snapshot destination amount fee excluded;
  let tx := pp_Tx prepared in
  if negb (bool_decide (tx_Outs tx = [mkTxOut amount destination]))
     || negb (Z.of_nat (length (pp_SelectedOutpoints prepared)) =? eligibleCount)
     || (Z.of_nat (length (Tx_Bytes tx)) >? MaxSignedTxBytes)
  then Err (EText "constructed maximum-send transaction is inconsistent")
  else Ok prepared.

Definition PrepareMaximumAt (w : Wallet) (io : walletIO) (c : option Chain)
    (between : Chain -> Chain) (expected : ChainTipSnapshot) (toAddress : bytes) (fee : Z)
    (excluded : gset OutPoint) : result (Snapshot * PreparedPayment) :=
  match c with
  | None => Err (EText "nil maximum-send chain")
  | Some c =>
      destination ← validateMaximumValues toAddress fee excluded;
      withKeys io true (fun keys =>
        _ ← rejectOwnedDestination keys destination;
        snapshot ← snapshotWithKeys c (w_network w) expected keys;
        prepared ← buildMaximumFromSnapshot keys snapshot destination fee excluded;
        _ ← validateSelectedAnchored (pp_SelectedOutpoints prepared)
              (anchoredOutpoints snapshot);
        _ ← tip_unchanged (between c) expected;
        Ok (snapshot, prepared))
  end.

Definition PrepareMaximumFromRemoteSnapshot (w : Wallet) (io : walletIO)
    (remote : RemoteSnapshot) (toAddress : bytes) (fee : Z) (excluded : gset OutPoint)
    : result (Snapshot * PreparedPayment) :=
  destination ← validateMaximumValues toAddress fee excluded;
  withKeys io true (fun keys =>
    _ ← rejectOwnedDestination keys destination;
    snapshot ← snapshotFromRemoteWithKeys (w_network w) remote keys;
    prepared ← buildMaximumFromSnapshot keys snapshot destination fee excluded;
    _ ← validateSelectedAnchored (pp_SelectedOutpoints prepared) (anchoredOutpoints snapshot);
    Ok (snapshot, prepared)).

(** ** Cleanups *)
Definition cleanup_output (keys : list bytes) (excluded : gset OutPoint)
    (st : gset OutPoint * Z * gmap Z cleanupGroup) (output : SnapshotOutpoint)
    : result (gset OutPoint * Z * gmap Z cleanupGroup) :=
  let '(seen, snapshotTotal, groupsByKey) := st in
  '(seen, snapshotTotal) ← check_snapshot_output "cleanup" keys (seen, snapshotTotal) output;
  if decide (sn_OutpointRef output ∈ excluded) then Ok (seen, snapshotTotal, groupsByKey) else
  let k := sn_KeyIndex output in
  group ← match groupsByKey !! k with
          | Some group => Ok group
          | None => key ← deref (keys !! Z.to_nat k) "index out of range";
                    Ok (mkGroup (addressForKey key) (pkhForKey key) k [] 0)
          end;
  total ← addSpendable (cg_total group) (sn_AmountUnits output);
  let group := mkGroup (cg_address group) (cg_pkh group) (cg_keyIndex group)
    (cg_candidates group ++ [mkCleanup (sn_OutpointRef output) (sn_AmountUnits output) k])
    total in
  Ok (seen, snapshotTotal, <[k := group]> groupsByKey).

Definition signCleanupPrefix (keys : list bytes) (group : cleanupGroup) (prefixSums : list Z)
    (count fee : Z) : result Tx :=
  let invalid := Err (EText "cleanup prefix is invalid") in
  if (count <? 2) || (count >? Z.of_nat (length (cg_candidates group)))
     || (count >=? Z.of_nat (length prefixSums))
     || (cg_keyIndex group <? 0) || (cg_keyIndex group >=? Z.of_nat (length keys))
  then invalid else
  sum ← deref (prefixSums !! Z.to_nat count) "index out of range";
  if sum <=? fee then invalid else
  let prefix := take (Z.to_nat count) (cg_candidates group) in
  if negb (forallb (fun candidate => cc_keyIndex candidate =? cg_keyIndex group) prefix)
  then Err (EText "cleanup prefix mixes signing keys") else
  key ← deref (keys !! Z.to_nat (cg_keyIndex group)) "index out of range";
  let amount := sum - fee in
  if (amount <=? 0) || negb (MoneyRange amount)
  then Err (EText "cleanup output amount out of range") else
  match Sign (mkTx 1 ((fun candidate => mkTxIn (cc_outpoint candidate) [] []) <$> prefix)
                [mkTxOut amount (cg_pkh group)] []) (replicate (Z.to_nat count) key) with
  | Ok tx => Ok tx
  | Err e => Err (EWrap "sign cleanup transaction" 0 e)
  end.

(** The binary search for the largest batch; an iteration halves the interval, so
    its length is enough fuel. *)
Fixpoint search_batch (fuel : nat) (keys : list bytes) (group : cleanupGroup)
    (prefixSums : list Z) (fee low high : Z) (best : Z * Tx) : result (Z * Tx) :=
  if low >? high then Ok best else
  match fuel with
  | O => Err (EPanic "out of fuel")
  | S fuel' =>
      let middle := low + (high - low) / 2 in
      candidateTx ← signCleanupPrefix keys group prefixSums middle fee;
      if Z.of_nat (length (Tx_Bytes candidateTx)) <=? MaxSignedTxBytes
      then search_batch fuel' keys group prefixSums fee (middle + 1) high (middle, candidateTx)
      else search_batch fuel' keys group prefixSums fee low (middle - 1) best
  end.

Definition eligible_groups (fee : Z) (groups : list cleanupGroup) : list cleanupGroup :=
  List.filter (fun g => negb (length (cg_candidates g) <? 2)%nat && negb (cg_total g <=? fee)) groups.

Definition buildCleanupFromSnapshot (keys : list bytes) (snapshot : Snapshot) (fee : Z)
    (excluded : gset OutPoint) : result PreparedCleanup :=
  _ ← validateCleanupValues fee excluded;
  if (length keys =? 0)%nat || (Z.of_nat (length keys) >? MaxWalletKeys)
     || (Z.of_nat (length (sp_Outpoints snapshot)) >? MaxSnapshotOutpoints)
     || negb (MoneyRange (sp_SpendableUnits snapshot))
  then Err (EText "cleanup snapshot identity is inconsistent") else
  '(_, snapshotTotal, groupsByKey) ←
    foldM (cleanup_output keys excluded) (∅, 0, ∅) (sp_Outpoints snapshot);
  if negb (snapshotTotal =? sp_SpendableUnits snapshot)
  then Err (EText "cleanup snapshot spendable total is inconsistent") else
  let groups := (map_to_list (groupsByKey : gmap Z cleanupGroup)).*2 in
  let hasMultiple := existsb (fun g => negb (length (cg_candidates g) <? 2)%nat) groups in
  match merge_sort group_le (eligible_groups fee groups) with
  | [] => Err (if hasMultiple then ErrCleanupTooSmall else ErrNoCleanupNeeded)
  | first :: others =>
      let group := mkGroup (cg_address first) (cg_pkh first) (cg_keyIndex first)
                     (merge_sort cleanup_le (cg_candidates first)) (cg_total first) in
      let n := Z.of_nat (length (cg_candidates group)) in
      '(prefixSums, minimum) ← foldM (prefix_step fee) ([0], 0) (indexed (cg_candidates group));
      if minimum =? 0 then Err ErrCleanupTooSmall else
      minimumTx ← signCleanupPrefix keys group prefixSums minimum fee;
      if Z.of_nat (length (Tx_Bytes minimumTx)) >? MaxSignedTxBytes
      then Err (EText "smallest cleanup batch exceeds 10,000-byte limit") else
      '(bestCount, bestTx) ←
        search_batch (Z.to_nat n) keys group prefixSums fee (minimum + 1)
          (Z.min n MaxPaymentInputs) (minimum, minimumTx);
      let selected := take (Z.to_nat bestCount) (cc_outpoint <$> cg_candidates group) in
      sum ← deref ((prefixSums : list Z) !! Z.to_nat bestCount) "index out of range";
      let amount := sum - fee in
      if (amount <=? 0) || negb (MoneyRange amount)
         || negb (bool_decide (tx_Outs bestTx = [mkTxOut amount (cg_pkh group)]))
         || (Z.of_nat (length (Tx_Bytes bestTx)) >? MaxSignedTxBytes)
      then Err (EText "constructed cleanup transaction is inconsistent") else
      Ok (mkPreparedCleanup bestTx (cg_address group) amount fee selected
            ((bestCount <? n) || (1 <? Z.of_nat (length (first :: others)))))
  end.

Definition PrepareCleanupAt (w : Wallet) (io : walletIO) (c : option Chain)
    (between : Chain -> Chain) (expected : ChainTipSnapshot) (fee : Z)
    (excluded : gset OutPoint) : result (Snapshot * PreparedCleanup) :=
  match c with
  | None => Err (EText "nil cleanup chain")
  | Some c =>
      _ ← validateCleanupValues fee excluded;
      withKeys io true (fun keys =>
        snapshot ← snapshotWithKeys c (w_network w) expected keys;
        prepared ← buildCleanupFromSnapshot keys snapshot fee excluded;
        _ ← validateSelectedAnchored (pu_SelectedOutpoints prepared)
              (anchoredOutpoints snapshot);
        _ ← tip_unchanged (between c) expected;
        Ok (snapshot, prepared))
  end.

Definition PrepareCleanupFromRemoteSnapshot (w : Wallet) (io : walletIO)
    (remote : RemoteSnapshot) (fee : Z) (excluded : gset OutPoint)
    : result (Snapshot * PreparedCleanup) :=
  _ ← validateCleanupValues fee excluded;
  withKeys io true (fun keys =>
    snapshot ← snapshotFromRemoteWithKeys (w_network w) remote keys;
    prepared ← buildCleanupFromSnapshot keys snapshot fee excluded;
    _ ← validateSelectedAnchored (pu_SelectedOutpoints prepared) (anchoredOutpoints snapshot);
    Ok (snapshot, prepared)).
End send.
