(* ===== verification/WalletProofs.v ===== *)
(** * Lemmas about wallet payments

    Outpoints of a reachable UTXO set never look like the null outpoint of a
    coinbase; the candidate order is a strict total order, so the bounded heap of
    [buildPaymentFromSnapshot] holds the best candidates; the selection loop takes
    the shortest sufficient prefix; a snapshot of a reachable chain lists outputs
    that [checkTxLocked] accepts. *)
From S2P Require Import Prelude Text GoHeap Params Crypto Pow Wire Merkle Address Chain Ledger.
From S2P Require Import ChainInv ChainView WalletView WalletViewProofs Wallet WalletSnapshot.

(** ** Output indices are small *)
Section outpoints.
Context `{Crypto}.

Definition idx_small (u : utxo_map) : Prop :=
  map_Forall (fun op _ => 0 <= op_Idx op < MaxBlockBytes) u.
Definition few_outputs (tx : Tx) : Prop := Z.of_nat (length (tx_Outs tx)) <= MaxBlockBytes.

Lemma flat_map_length_ge {A B} (f : A -> list B) l n :
  (forall x, x ∈ l -> (n <= length (f x))%nat) -> (n * length l <= length (flat_map f l))%nat.
Proof.
  induction l as [|x l IH]; intros Hl; cbn; [lia|]. rewrite length_app.
  specialize (IH ltac:(intros; apply Hl; by right)). pose proof (Hl x ltac:(by left)). nia.
Qed.

Lemma outputs_le_bytes tx : (length (tx_Outs tx) <= length (Tx_Bytes tx))%nat.
Proof.
  unfold Tx_Bytes, serialize. rewrite !length_app.
  assert (1 * length (tx_Outs tx) <= length (flat_map serialize_out (tx_Outs tx)))%nat; [|lia].
  apply flat_map_length_ge. intros x _. unfold serialize_out.
  rewrite length_app, length_le_bytes. lia.
Qed.

Lemma block_few_outputs b : Z.of_nat (length (Block_Bytes b)) <= MaxBlockBytes ->
  Forall few_outputs (blk_Txs b).
Proof.
  intros Hb. apply list.Forall_forall. intros tx Htx. unfold few_outputs.
  pose proof (flat_map_length_le (fun t => writeBytes (Tx_Bytes t)) tx _ Htx) as Hl.
  unfold Block_Bytes in Hb. rewrite !length_app in Hb. unfold writeBytes at 1 in Hl.
  rewrite length_app in Hl. pose proof (outputs_le_bytes tx). lia.
Qed.

Lemma spendAndCreate_idx tx h cb u : few_outputs tx -> idx_small u ->
  idx_small (spendAndCreate tx h cb u).
Proof.
  intros Hfew Hu. unfold spendAndCreate.
  set (u0 := if cb then u else _). assert (Hu0 : idx_small u0).
  { subst u0. destruct cb; [done|]. generalize (tx_Ins tx). intros ins.
    revert u Hu. induction ins as [|i ins IH]; intros u Hu; [done|]. cbn.
    apply IH. by apply map_Forall_delete. }
  clearbody u0. clear Hu u.
  assert (Hall : forall io, io ∈ indexed (tx_Outs tx) -> (io.1 < length (tx_Outs tx))%nat).
  { intros [i o] Hio. unfold indexed in Hio. apply elem_of_zip_l in Hio.
    apply elem_of_seq in Hio. cbn. lia. }
  revert u0 Hu0 Hall. generalize (indexed (tx_Outs tx)) as l. intros l.
  induction l as [|[i o] l IH]; intros u0 Hu0 Hall; [done|]. cbn.
  apply IH; [|intros; apply Hall; by right]. apply map_Forall_insert_2; [|done]. cbn.
  pose proof (Hall (i, o) ltac:(by left)) as Hi. cbn in Hi. unfold few_outputs, MaxBlockBytes in *.
  rewrite u32_small; [lia|]. unfold in_u32, two32. lia.
Qed.

Lemma apply_txs_idx p h txs : forall st fees st' r,
  Forall few_outputs txs -> idx_small st.1 -> apply_txs p h txs st fees = (st', r) ->
  idx_small st'.1.
Proof.
  induction txs as [|tx txs IH]; intros st fees st' r Hf Hu; cbn [apply_txs].
  { by intros [= <- _]. }
  inv Hf. repeat case_match; intros; simplify_eq; [|done..].
  eapply IH; [done| |done]. rewrite spendAndCreateWithUndo_fst. by apply spendAndCreate_idx.
Qed.

Lemma validateAndApply_idx p b h u u' : Forall few_outputs (blk_Txs b) -> idx_small u ->
  validateAndApplyLocked p b h u = (u', Ok tt) -> idx_small u'.
Proof.
  unfold validateAndApplyLocked. intros Hf Hu.
  destruct (apply_txs p h (tail (blk_Txs b)) (u, []) 0) as [[u1 undo] r] eqn:Ea. intros Hv.
  destruct r as [fees|]; [|done]. destruct (blk_Txs b) as [|cb txs]; [done|]. inv Hf.
  apply apply_txs_idx in Ea; [|done|done]. cbn in Ea. repeat case_match; simplify_eq.
  rewrite spendAndCreateWithUndo_fst. by apply spendAndCreate_idx.
Qed.

Lemma utxo_idx_small p c : chain_inv p c -> idx_small (c_utxo c).
Proof.
  intros Hc. destruct (ci_main _ _ Hc) as (l & Hb & _ & Hr).
  generalize dependent (c_utxo c). induction Hb as [|parent bi l Hb IH _ _ _ _ _ Hh]; intros u Hr.
  - rewrite replay_genesis in Hr. apply Ok_inj in Hr as <-.
    eapply validateAndApply_idx; [| |apply genesis_validates]; [|apply map_Forall_empty].
    repeat constructor; done.
  - rewrite replay_snoc in Hr. destruct (replay p l) as [u0|]; [|done].
    unfold replay_one in Hr. destruct (validateAndApplyLocked _ _ _ _) as [u1 [[]|]] eqn:E; [|done].
    apply Ok_inj in Hr as <-. eapply validateAndApply_idx; [|by apply IH|exact E].
    by apply block_few_outputs, Hh.
Qed.

(** A transaction spending unspent outputs is not a coinbase. *)
Lemma spends_not_coinbase p c tx : chain_inv p c ->
  (forall i, i ∈ tx_Ins tx -> is_Some (c_utxo c !! in_Prev i)) -> IsCoinbase tx = false.
Proof.
  intros Hc Hi. unfold IsCoinbase. destruct (tx_Ins tx) as [|i [|]]; [done| |done].
  destruct (Hi i) as [e He]; [by left|]. apply (utxo_idx_small p c Hc) in He.
  unfold MaxBlockBytes in He. apply andb_false_iff. right. apply Z.eqb_neq. lia.
Qed.
End outpoints.

(** ** The candidate order *)
Lemma bytes_compare_refl l : bytes_compare l l = Eq.
Proof. by apply bytes_compare_eq. Qed.

(** A key that orders candidates lexicographically. *)
Definition op_compare (a b : OutPoint) : comparison :=
  match bytes_compare (op_TxID a) (op_TxID b) with
  | Eq => op_Idx a ?= op_Idx b
  | c => c
  end.

Lemma op_compare_antisym a b : op_compare b a = CompOpp (op_compare a b).
Proof.
  unfold op_compare. rewrite (bytes_compare_antisym (op_TxID a)), (Z.compare_antisym (op_Idx a)).
  by destruct (bytes_compare _ _).
Qed.

Lemma op_compare_eq a b : op_compare a b = Eq <-> a = b.
Proof.
  unfold op_compare. destruct (bytes_compare _ _) eqn:E; [|split; [done|intros ->]..].
  - apply bytes_compare_eq in E. rewrite Z.compare_eq_iff. destruct a, b; cbn in *.
    split; congruence.
  - by rewrite bytes_compare_refl in E.
  - by rewrite bytes_compare_refl in E.
Qed.

Lemma op_compare_lt_trans a b c :
  op_compare a b = Lt -> op_compare b c = Lt -> op_compare a c = Lt.
Proof.
  unfold op_compare. destruct (bytes_compare (op_TxID a) _) eqn:E1; try done;
    destruct (bytes_compare (op_TxID b) _) eqn:E2; try done; intros H1 H2.
  - apply bytes_compare_eq in E1 as ->. rewrite E2. rewrite Z.compare_lt_iff in *. lia.
  - apply bytes_compare_eq in E1 as ->. by rewrite E2.
  - apply bytes_compare_eq in E2 as <-. by rewrite E1.
  - by rewrite (bytes_compare_lt_trans _ _ _ E1 E2).
Qed.

Definition cand_compare (a b : paymentCandidate) : comparison :=
  match pc_amount b ?= pc_amount a with Eq => op_compare (pc_op a) (pc_op b) | c => c end.

Lemma better_compare a b : paymentCandidateBetter a b = true <-> cand_compare a b = Lt.
Proof.
  unfold paymentCandidateBetter, cand_compare, op_compare.
  destruct (Z.eqb_spec (pc_amount a) (pc_amount b)) as [->|Hne]; cbn [negb].
  - rewrite Z.compare_refl. destruct (bytes_compare _ _); [|done..].
    by rewrite Z.ltb_lt, Z.compare_lt_iff.
  - rewrite Z.gtb_ltb, Z.ltb_lt. destruct (Z.compare_spec (pc_amount b) (pc_amount a));
      split; done || lia.
Qed.

Lemma cand_compare_antisym a b : cand_compare b a = CompOpp (cand_compare a b).
Proof.
  unfold cand_compare. rewrite (Z.compare_antisym (pc_amount b)), (op_compare_antisym (pc_op a)).
  by destruct (_ ?= _).
Qed.

Lemma cand_compare_lt_trans a b c :
  cand_compare a b = Lt -> cand_compare b c = Lt -> cand_compare a c = Lt.
Proof.
  unfold cand_compare.
  destruct (Z.compare_spec (pc_amount b) (pc_amount a)); try done;
    destruct (Z.compare_spec (pc_amount c) (pc_amount b)); try done;
    destruct (Z.compare_spec (pc_amount c) (pc_amount a)); try done; try lia.
  apply op_compare_lt_trans.
Qed.

Lemma cand_compare_eq a b : cand_compare a b = Eq <-> pc_amount a = pc_amount b /\ pc_op a = pc_op b.
Proof.
  unfold cand_compare. destruct (Z.compare_spec (pc_amount b) (pc_amount a)).
  - rewrite op_compare_eq. naive_solver.
  - split; [done|lia].
  - split; [done|lia].
Qed.

Lemma cand_compare_eq_l a b c : cand_compare a b = Eq -> cand_compare b c = cand_compare a c.
Proof. intros [Ha Ho]%cand_compare_eq. unfold cand_compare. by rewrite Ha, Ho. Qed.

Lemma candidate_le_compare a b : candidate_le a b <-> cand_compare a b <> Gt.
Proof.
  unfold candidate_le. rewrite <- not_true_iff_false, better_compare, (cand_compare_antisym a b).
  destruct (cand_compare a b); cbn; split; congruence.
Qed.

#[global] Instance candidate_le_total : Total candidate_le.
Proof.
  intros a b. rewrite !candidate_le_compare, (cand_compare_antisym a b).
  destruct (cand_compare a b); cbn; [by left..|by right].
Qed.

#[global] Instance candidate_le_trans : Transitive candidate_le.
Proof.
  intros a b c. rewrite !candidate_le_compare. intros Hab Hbc.
  destruct (cand_compare a b) eqn:E; [by rewrite <- (cand_compare_eq_l a b)| |done].
  destruct (cand_compare b c) eqn:E2; [| |done].
  - assert (E3 : cand_compare c b = Eq) by (rewrite cand_compare_antisym, E2; done).
    rewrite cand_compare_antisym, <- (cand_compare_eq_l _ _ a E3), cand_compare_antisym, E. done.
  - by rewrite (cand_compare_lt_trans a b c).
Qed.

Lemma candidate_le_antisym a b : candidate_le a b -> candidate_le b a -> pc_op a = pc_op b.
Proof.
  rewrite !candidate_le_compare, (cand_compare_antisym a b).
  destruct (cand_compare a b) eqn:E; cbn; try done. by apply cand_compare_eq in E as [_ ?].
Qed.

Lemma better_asym a b : paymentCandidateBetter a b = true -> paymentCandidateBetter b a = false.
Proof.
  rewrite better_compare, <- not_true_iff_false, better_compare, (cand_compare_antisym a b).
  by intros ->.
Qed.

Lemma better_neg_trans a b c : paymentCandidateBetter a b = false ->
  paymentCandidateBetter b c = false -> paymentCandidateBetter a c = false.
Proof. intros Hab Hbc. exact (candidate_le_trans c b a Hbc Hab). Qed.

#[global] Instance paymentCandidate_inhabited : Inhabited paymentCandidate :=
  populate (mkCandidate (mkOutPoint [] 0) 0 0).

(** ** The reference selection *)
Definition cand_of (o : SnapshotOutpoint) : paymentCandidate :=
  mkCandidate (sn_OutpointRef o) (sn_AmountUnits o) (sn_KeyIndex o).
Definition eligible (excluded : gset OutPoint) (outs : list SnapshotOutpoint)
    : list SnapshotOutpoint := filter (fun o => sn_OutpointRef o ∉ excluded) outs.

(** The candidates in the order the wallet spends them: largest first. *)
Definition ranked (excluded : gset OutPoint) (outs : list SnapshotOutpoint)
    : list paymentCandidate := merge_sort candidate_le (cand_of <$> eligible excluded outs).

Section building.
Context `{Crypto}.

Definition cand_ok (keys : list bytes) (o : SnapshotOutpoint) : Prop :=
  key_owns keys (sn_KeyIndex o) (sn_OwnerPKH o) = true /\ 0 < sn_AmountUnits o <= MaxMoneyUnits.

Lemma consider_spec keys excluded outs : forall seen h h',
  keeps_best paymentCandidateBetter (Z.to_nat MaxPaymentCandidates) (cand_of <$> seen) h ->
  foldM (consider keys excluded) h outs = Ok h' ->
  keeps_best paymentCandidateBetter (Z.to_nat MaxPaymentCandidates)
    (cand_of <$> (reverse (eligible excluded outs) ++ seen)) h' /\
  Forall (cand_ok keys) (eligible excluded outs).
Proof.
  induction outs as [|o outs IH]; intros seen h h' Hk Hf; cbn [foldM] in Hf.
  { simplify_eq. split; [done|constructor]. }
  unfold consider in Hf at 1. unfold eligible. rewrite filter_cons.
  destruct (decide (sn_OutpointRef o ∈ excluded)) as [Hx|Hx].
  { rewrite decide_False by tauto. by eapply IH. }
  rewrite decide_True by done.
  destruct (key_owns _ _ _) eqn:Eo; cbn [negb] in Hf; [|done].
  destruct (_ || _) eqn:Ea; [done|]. rewrite reverse_cons, <- app_assoc. cbn [app].
  assert (0 < sn_AmountUnits o <= MaxMoneyUnits).
  { bool_prop. rewrite MoneyRange_spec in *. lia. }
  destruct (IH (o :: seen) (offer paymentCandidateBetter (Z.to_nat MaxPaymentCandidates) h
    (cand_of o)) h') as [H1 H2]; [|done|].
  - cbn [fmap list_fmap]. apply offer_keeps_best; [|..|done].
    + apply better_asym.
    + apply better_neg_trans.
    + unfold MaxPaymentCandidates. lia.
  - split; [done|]. constructor; [|done]. by split.
Qed.

Lemma keeps_best_perm l l' kept : l ≡ₚ l' ->
  keeps_best paymentCandidateBetter (Z.to_nat MaxPaymentCandidates) l kept ->
  keeps_best paymentCandidateBetter (Z.to_nat MaxPaymentCandidates) l' kept.
Proof. intros Hl (Hh & dropped & Hp & ?). split; [done|]. exists dropped. by rewrite <- Hl. Qed.

Lemma elem_of_eligible excluded outs o :
  o ∈ eligible excluded outs <-> o ∈ outs /\ sn_OutpointRef o ∉ excluded.
Proof. unfold eligible. rewrite list_elem_of_filter. tauto. Qed.

Lemma cand_of_inj outs a b : NoDup (sn_OutpointRef <$> outs) ->
  a ∈ cand_of <$> outs -> b ∈ cand_of <$> outs -> pc_op a = pc_op b -> a = b.
Proof.
  intros Hnd (x & -> & Hx)%list_elem_of_fmap (y & -> & Hy)%list_elem_of_fmap Heq. cbn in Heq.
  f_equal. by eapply NoDup_fmap_inj.
Qed.

(** What the snapshots of the wallet guarantee. *)
Record snapshot_wf (keys : list bytes) (s : Snapshot) : Prop := {
  wf_distinct : NoDup (sn_OutpointRef <$> sp_Outpoints s);
  wf_cands : Forall (cand_ok keys) (sp_Outpoints s);
  wf_total : sumZ (sn_AmountUnits <$> sp_Outpoints s) <= MaxMoneyUnits;
}.

Definition best_candidates (excluded : gset OutPoint) (s : Snapshot) : list paymentCandidate :=
  take (Z.to_nat MaxPaymentCandidates) (ranked excluded (sp_Outpoints s)).

Lemma consider_Ok keys excluded outs : Forall (cand_ok keys) outs -> forall h,
  exists h', foldM (consider keys excluded) h outs = Ok h'.
Proof.
  induction 1 as [|o outs [Ho Ha] _ IH]; intros h; cbn [foldM]; [eauto|].
  unfold consider at 1. destruct (decide _); [apply IH|]. rewrite Ho. cbn [negb].
  rewrite (proj2 (Z.leb_gt _ _)) by lia. rewrite (proj2 (MoneyRange_spec _)) by lia. apply IH.
Qed.

(** The heap, sorted, is the head of the ranking. *)
Lemma candidates_best keys excluded s : snapshot_wf keys s ->
  exists h, foldM (consider keys excluded) [] (sp_Outpoints s) = Ok h /\
    merge_sort candidate_le h = best_candidates excluded s.
Proof.
  intros [Hnd Hc _]. destruct (consider_Ok keys excluded _ Hc []) as [h Hh].
  exists h. split; [done|]. unfold best_candidates, ranked.
  destruct (consider_spec keys excluded (sp_Outpoints s) [] [] h) as [Hk _];
    [apply keeps_best_nil|done|].
  apply (keeps_best_sorted paymentCandidateBetter);
    [done| |apply _|apply _|refine (keeps_best_perm _ _ _ _ Hk)].
  - intros a b Ha Hb H1 H2. eapply cand_of_inj; [|exact Ha|exact Hb|by apply candidate_le_antisym].
    by apply NoDup_fmap_filter.
  - by rewrite app_nil_r, reverse_Permutation.
Qed.

Lemma ranked_elem keys excluded s c : snapshot_wf keys s -> c ∈ ranked excluded (sp_Outpoints s) ->
  exists o, c = cand_of o /\ o ∈ sp_Outpoints s /\ sn_OutpointRef o ∉ excluded /\ cand_ok keys o.
Proof.
  intros Hwf Hc. unfold ranked in Hc. rewrite merge_sort_Permutation in Hc.
  apply list_elem_of_fmap in Hc as (o & -> & [Ho Hx]%elem_of_eligible). exists o.
  split_and!; try done. by apply (list.Forall_forall _ (sp_Outpoints s)), Ho; destruct Hwf.
Qed.

(** *** The selection loop *)
Definition signer (keys : list bytes) (c : paymentCandidate) (k : bytes) : Prop :=
  keys !! Z.to_nat (pc_key c) = Some k.

Definition extend (st : selection) (chosen : list paymentCandidate) (signing : list bytes)
    : selection :=
  mkSelection (sl_inputs st ++ ((fun c => mkTxIn (pc_op c) [] []) <$> chosen))
    (sl_signing st ++ signing) (sl_selected st ++ (pc_op <$> chosen))
    (sl_sum st + sumZ (pc_amount <$> chosen)).

(** [n] is the shortest prefix reaching [need], or the whole list. *)
Definition shortest (amounts : list Z) (sum need : Z) (n : nat) : Prop :=
  (n <= length amounts)%nat /\
  (forall m, (m < n)%nat -> sum + sumZ (take m amounts) < need) /\
  (need <= sum + sumZ (take n amounts) \/ n = length amounts).

Lemma shortest_nil sum need : shortest [] sum need 0.
Proof. split; [done|]. split; [lia|]. by right. Qed.

Lemma shortest_cons a amounts sum need n : sum < need ->
  (need <= sum + a /\ n = 0%nat \/ sum + a < need /\ shortest amounts (sum + a) need n) ->
  shortest (a :: amounts) sum need (S n).
Proof.
  intros Hs [[Ha ->]|(Ha & Hn & Hmin & Hend)].
  - split; [cbn; lia|]. split; [|left; cbn [take sumZ]; rewrite take_0; cbn; lia]. intros [|m] Hm; [cbn|]; lia.
  - split; [cbn; lia|]. split.
    + intros [|m] Hm; [cbn; lia|]. specialize (Hmin m ltac:(lia)). cbn. lia.
    + destruct Hend as [?| ->]; [left; cbn; lia|by right].
Qed.

Lemma extend_nil st : extend st [] [] = st.
Proof. unfold extend. cbn. rewrite !app_nil_r, Z.add_0_r. by destruct st. Qed.

Lemma extend_extend st c k cs ks :
  extend (extend st [c] [k]) cs ks = extend st (c :: cs) (k :: ks).
Proof.
  unfold extend. cbn. rewrite <- !app_assoc. cbn. f_equal. lia.
Qed.

(** On candidates within the limits the loop returns the shortest prefix. *)
Lemma select_spec keys need cands : forall st,
  Forall (fun c => 0 <= pc_amount c) cands ->
  Forall (fun c => is_Some (keys !! Z.to_nat (pc_key c))) cands ->
  Z.of_nat (length (sl_inputs st) + length cands) <= MaxPaymentInputs ->
  0 <= sl_sum st -> sl_sum st + sumZ (pc_amount <$> cands) <= MaxMoneyUnits ->
  sl_sum st < need ->
  exists n signing, select keys need cands st = Ok (extend st (take n cands) signing) /\
    Forall2 (signer keys) (take n cands) signing /\
    shortest (pc_amount <$> cands) (sl_sum st) need n.
Proof.
  induction cands as [|c cands IH]; intros st Ha Hk Hlen Hs Htot Hneed; cbn [select].
  { exists 0%nat, []. rewrite extend_nil. split; [done|]. split; [constructor|].
    apply shortest_nil. }
  inv Ha. inv Hk as [|? ? [k Hkey]]. cbn [fmap list_fmap sumZ length] in *.
  assert (0 <= sumZ (pc_amount <$> cands)) by by apply sumZ_nonneg, Forall_fmap.
  rewrite Z.geb_leb, (proj2 (Z.leb_gt _ _)) by lia.
  rewrite (proj2 (MoneyRange_spec _)) by lia. cbn [negb orb].
  rewrite Z.gtb_ltb, (proj2 (Z.ltb_ge _ _)) by lia. rewrite Hkey. cbn [deref mbind result_bind].
  cbn [sl_sum]. rewrite Z.geb_leb. fold (extend st [c] [k]).
  replace (mkSelection _ _ _ _) with (extend st [c] [k])
    by (unfold extend; cbn; by rewrite Z.add_0_r).
  destruct (Z.leb_spec need (sl_sum st + pc_amount c)) as [Hge|Hlt].
  - exists 1%nat, [k]. cbn [take]. rewrite take_0. split; [done|].
    split; [by repeat constructor|]. apply shortest_cons; auto.
  - assert (Hsum : sl_sum (extend st [c] [k]) = sl_sum st + pc_amount c)
      by (unfold extend; cbn; lia).
    destruct (IH (extend st [c] [k])) as (n & signing & -> & Hf & Hsh);
      [done|done| |rewrite Hsum; lia..|].
    { unfold extend. cbn. rewrite length_app. cbn. lia. }
    exists (S n), (k :: signing). cbn [take]. rewrite extend_extend. split; [done|].
    split; [by constructor|]. rewrite Hsum in Hsh. apply shortest_cons; auto.
Qed.

(** *** Building a payment *)
Definition payment_outputs (keys : list bytes) (toPKH : bytes) (amount change : Z) : list TxOut :=
  mkTxOut amount toPKH ::
  (if change >? 0 then (fun k => mkTxOut change (pkhForKey k)) <$> take 1 keys else []).

Lemma ranked_in_order keys excluded s : snapshot_wf keys s ->
  Forall (fun c => 0 < pc_amount c) (ranked excluded (sp_Outpoints s)) /\
  Forall (fun c => is_Some (keys !! Z.to_nat (pc_key c))) (ranked excluded (sp_Outpoints s)) /\
  sumZ (pc_amount <$> ranked excluded (sp_Outpoints s)) <= MaxMoneyUnits.
Proof.
  intros Hwf. split_and!.
  - apply list.Forall_forall. intros c (o & -> & _ & _ & [_ ?])%(ranked_elem keys); [cbn; lia|done].
  - apply list.Forall_forall. intros c (o & -> & _ & _ & [Ho _])%(ranked_elem keys); [|done].
    unfold key_owns in Ho. cbn. destruct (keys !! _); [done|].
    by rewrite andb_false_r in Ho.
  - unfold ranked. rewrite merge_sort_Permutation, <- list_fmap_compose.
    eapply Z.le_trans; [|apply Hwf].
    assert (Hpos : Forall (fun o => 0 <= sn_AmountUnits o) (sp_Outpoints s)).
    { eapply list.Forall_impl; [apply Hwf|]. intros o [_ ?]. cbn. lia. }
    unfold eligible. induction Hpos as [|o outs Ho _ IH]; [done|].
    rewrite filter_cons. case_decide; cbn in *; lia.
Qed.

Lemma sumZ_take_le l n : Forall (fun z => 0 <= z) l -> sumZ (take n l) <= sumZ l.
Proof.
  intros Hl. rewrite <- (take_drop n l) at 2. rewrite sumZ_app.
  pose proof (sumZ_nonneg (drop n l) (Forall_drop _ _ _ Hl)). lia.
Qed.

Lemma best_limits keys excluded s : snapshot_wf keys s ->
  let best := best_candidates excluded s in
  Forall (fun c => 0 <= pc_amount c) best /\
  Forall (fun c => is_Some (keys !! Z.to_nat (pc_key c))) best /\
  (length best <= Z.to_nat MaxPaymentInputs)%nat /\
  sumZ (pc_amount <$> best) <= MaxMoneyUnits.
Proof.
  intros Hwf. destruct (ranked_in_order keys excluded s Hwf) as (Hpos & Hkeys & Htot).
  assert (Hnn : Forall (fun c => 0 <= pc_amount c) (ranked excluded (sp_Outpoints s)))
    by (eapply list.Forall_impl; [exact Hpos|]; cbn; lia).
  unfold best_candidates. split_and!; [by apply Forall_take..|apply firstn_le_length|].
  rewrite fmap_take. eapply Z.le_trans; [apply sumZ_take_le|done]. by apply Forall_fmap.
Qed.

Lemma buildPayment_cases keys s toPKH amount fee excluded :
  snapshot_wf keys s -> keys <> [] -> 0 < amount -> 0 <= fee -> amount + fee <= MaxMoneyUnits ->
  exists n signing,
    let chosen := take n (best_candidates excluded s) in
    let sum := sumZ (pc_amount <$> chosen) in
    Forall2 (signer keys) chosen signing /\
    shortest (pc_amount <$> best_candidates excluded s) 0 (amount + fee) n /\
    sum <= MaxMoneyUnits /\
    match buildPaymentFromSnapshot keys s toPKH amount fee excluded with
    | Ok prepared =>
        amount + fee <= sum /\ pp_SelectedOutpoints prepared = pc_op <$> chosen /\
        Sign (mkTx 1 ((fun c => mkTxIn (pc_op c) [] []) <$> chosen)
                (payment_outputs keys toPKH amount (sum - (amount + fee))) []) signing
          = Ok (pp_Tx prepared) /\
        Z.of_nat (length (Tx_Bytes (pp_Tx prepared))) <= MaxSignedTxBytes
    | Err e =>
        (sum < amount + fee /\ e = ENum "insufficient eligible funds" [sum; amount + fee]) \/
        (amount + fee <= sum /\ e = EText "signed transaction exceeds 10,000-byte limit")
    end.
Proof.
  intros Hwf Hk Ham Hfee Hneed. unfold buildPaymentFromSnapshot.
  destruct (candidates_best keys excluded s Hwf) as (h & -> & Hbest).
  cbn [mbind result_bind]. rewrite Hbest.
  assert (Hmax : MaxMoneyUnits < two63) by (unfold MaxMoneyUnits, UnitsPerCoin, two63; lia).
  rewrite (i64_small (amount + fee)) by (unfold in_i64, two63 in *; lia).
  destruct (best_limits keys excluded s Hwf) as (Hnn & Hks & Hlen & Htot). cbn [mbind].
  destruct (select_spec keys (amount + fee) (best_candidates excluded s)
              (mkSelection [] [] [] 0)) as (n & signing & -> & Hsig & Hsh);
    [done|done|cbn [sl_inputs length]; unfold MaxPaymentInputs in *; lia|done|done|cbn; lia|].
  exists n, signing. cbn zeta. split; [done|]. split; [done|].
  cbn [mbind result_bind extend sl_inputs sl_signing sl_selected sl_sum app].
  set (chosen := take n _) in *. set (sum := sumZ _). rewrite Z.add_0_l.
  split.
  { subst sum chosen. rewrite fmap_take. eapply Z.le_trans; [apply sumZ_take_le|done].
    by apply Forall_fmap. }
  destruct (Z.ltb_spec sum (amount + fee)) as [Hlt|Hge]; [by left|].
  assert (Hch : (if sum - (amount + fee) >? 0
     then primary ← deref (head keys) "index out of range";
          Ok [mkTxOut (sum - (amount + fee)) (pkhForKey primary)] else Ok [])
     = Ok (tail (payment_outputs keys toPKH amount (sum - (amount + fee))))).
  { unfold payment_outputs. destruct (_ >? 0); [|done]. by destruct keys. }
  rewrite Hch. cbn [mbind result_bind].
  change (mkTxOut amount toPKH :: tail _) with (payment_outputs keys toPKH amount
                                                  (sum - (amount + fee))).
  destruct (Sign _ signing) as [tx|e] eqn:Es; cbn [mbind result_bind].
  - rewrite Z.gtb_ltb. destruct (Z.ltb_spec MaxSignedTxBytes (Z.of_nat (length (Tx_Bytes tx))));
      [by right|]. split_and!; done || lia.
  - exfalso. unfold Sign in Es. cbn [tx_Ins] in Es. rewrite length_fmap in Es.
    rewrite (Forall2_length _ _ _ Hsig), Nat.eqb_refl in Es. done.
Qed.

(** *** Owners and snapshots *)
Lemma owner_steps allow pkhs : forall n owners owners',
  Z.of_nat (n + length pkhs) <= two32 - 1 ->
  foldM (owner_step allow) owners (zip (seq n (length pkhs)) pkhs) = Ok owners' ->
  forall pkh i, owners' !! pkh = Some i ->
    owners !! pkh = Some i \/ exists k, i = Z.of_nat (n + k) /\ pkhs !! k = Some pkh.
Proof.
  induction pkhs as [|q pkhs IH]; intros n owners owners' Hl Hf pkh i Hi; cbn in Hf.
  { simplify_eq. by left. }
  unfold owner_step in Hf at 1. cbn [fst snd] in Hf.
  destruct (decide (is_Some (owners !! q))) as [Hq|Hq].
  - destruct allow; [|done].
    eapply IH in Hf as [?|(k & -> & ?)]; [by left| |cbn in Hl; lia|exact Hi].
    right. exists (S k). split; [lia|done].
  - eapply IH in Hf as [Hs|(k & -> & ?)]; [| |cbn in Hl; lia|exact Hi].
    + apply lookup_insert_Some in Hs as [[-> <-]|[_ ?]]; [|by left]. right. exists 0%nat.
      rewrite u32_small; [split; [lia|done]|]. unfold in_u32. cbn in Hl. lia.
    + right. exists (S k). split; [lia|done].
Qed.

Lemma walletOwners_index pkhs allow owners pkh i : walletOwners pkhs allow = Ok owners ->
  owners !! pkh = Some i -> 0 <= i < Z.of_nat (length pkhs) /\ pkhs !! Z.to_nat i = Some pkh.
Proof.
  unfold walletOwners, indexed. destruct (_ >? _) eqn:El; [done|]. rewrite Z.gtb_ltb in El.
  intros Hf Hi. bool_prop.
  destruct (owner_steps allow pkhs 0 ∅ owners ltac:(lia) Hf pkh i Hi) as [He|(k & -> & Hk)];
    [by rewrite lookup_empty in He|].
  pose proof (lookup_lt_Some _ _ _ Hk). split; [lia|]. by rewrite Nat.add_0_l, Nat2Z.id.
Qed.

Definition snap_of (pkhs : list bytes) (so : SpendableOutputSnapshot) (o : SnapshotOutpoint)
    : Prop :=
  sn_OutpointRef o = so_OutPoint so /\ sn_AmountUnits o = so_AmountUnits so /\
  sn_OwnerPKH o = so_OwnerPKH so /\ sn_KeyIndex o = so_OwnerIndex so /\
  pkhs !! Z.to_nat (so_OwnerIndex so) = Some (so_OwnerPKH so).

Lemma addSpendable_Ok total amount r : addSpendable total amount = Ok r <->
  0 <= total /\ 0 <= amount /\ total + amount <= MaxMoneyUnits /\ r = total + amount.
Proof.
  unfold addSpendable. destruct (_ || _) eqn:E.
  - split; [done|]. intros (? & ? & ? & _). exfalso.
    rewrite !orb_true_iff, !negb_true_iff, !MoneyRange_false, Z.gtb_ltb, Z.ltb_lt in E. lia.
  - rewrite !orb_false_iff, !negb_false_iff, !MoneyRange_spec, Z.gtb_ltb, Z.ltb_ge in E. split.
    + intros [= <-]. lia.
    + intros (_ & _ & _ & ->). done.
Qed.

Lemma add_outputs_spec pkhs addrs idx l : forall st st',
  foldM (add_output pkhs addrs idx) st l = Ok st' ->
  exists new, st'.2 = st.2 ++ new /\ Forall2 (snap_of pkhs) l new /\
    NoDup (so_OutPoint <$> l) /\ (forall so, so ∈ l -> so_OutPoint so ∉ st.1.1) /\
    st'.1.2 = st.1.2 + sumZ (so_AmountUnits <$> l) /\
    (0 <= st.1.2 <= MaxMoneyUnits -> st'.1.2 <= MaxMoneyUnits).
Proof.
  induction l as [|so l IH]; intros [[seen units] outs] st' Hf; cbn [foldM] in Hf.
  { apply Ok_inj in Hf as <-. exists []. cbn. rewrite app_nil_r.
    split_and!; [done|constructor|constructor|by intros ? ?%elem_of_nil|lia|lia]. }
  destruct (add_output _ _ _ _ so) as [st1|] eqn:E; [|done].
  apply IH in Hf as (new & Hout & Hrel & Hnd & Hns & Hun & Hmax). clear IH.
  unfold add_output in E. destruct (_ || _) eqn:Eo; [done|]. bool_prop.
  destruct (decide _) as [|Hseen]; [done|].
  apply bind_Ok in E as (addr & _ & E). destruct (idx !! addr) as [ai|]; [|done].
  apply bind_Ok in E as (sp & Hsp & E). apply addSpendable_Ok in Hsp as (? & ? & ? & ->).
  apply Ok_inj in E as <-. cbn [fst snd fmap list_fmap sumZ] in *.
  eexists. split; [by rewrite Hout, <- app_assoc|]. split_and!.
  - constructor; [|done]. done.
  - apply list.NoDup_cons. split; [|done].
    intros (so' & Heq & Hin)%list_elem_of_fmap. specialize (Hns so' Hin). set_solver.
  - intros so' [->|Hin]%elem_of_cons; [done|]. specialize (Hns so' Hin). set_solver.
  - lia.
  - intros. apply Hmax. lia.
Qed.

Lemma walletOwners_complete pkhs allow owners pkh : walletOwners pkhs allow = Ok owners ->
  pkh ∈ pkhs -> is_Some (owners !! pkh).
Proof.
  unfold walletOwners, indexed. destruct (_ >? _); [done|]. generalize 0%nat as n.
  generalize (∅ : owner_map) as o. induction pkhs as [|q pkhs IH]; intros o n Hf Hin;
    [by apply elem_of_nil in Hin|]. cbn in Hf.
  unfold owner_step in Hf at 1. cbn [fst snd] in Hf.
  assert (Hkeep : forall o o' n', foldM (owner_step allow) o (zip (seq n' (length pkhs)) pkhs) = Ok o' ->
            forall k, is_Some (o !! k) -> is_Some (o' !! k)).
  { intros o1 o2 n' Hf' k Hk. eapply (foldM_invariant _ (fun m : owner_map => is_Some (m !! k)));
      [|exact Hk|exact Hf']. intros m a m' _ Hm Hs. unfold owner_step in Hs.
    destruct (decide (is_Some (m !! a.2))); [destruct allow; [by apply Ok_inj in Hs as <-|done]|].
    apply Ok_inj in Hs as <-. destruct (decide (k = a.2)) as [->|];
      [by rewrite lookup_insert_eq|by rewrite lookup_insert_ne]. }
  apply elem_of_cons in Hin as [->|Hin].
  - destruct (decide (is_Some (o !! q))); [destruct allow; [|done]; by eapply Hkeep|].
    eapply Hkeep; [exact Hf|]. by rewrite lookup_insert_eq.
  - destruct (decide _); [destruct allow; [|done]|]; by eapply IH.
Qed.

(** A snapshot that agrees with the chain: it lists exactly the outputs the
    wallet's keys can spend in the next block. *)
Definition spendable_entry (c : Chain) (op : OutPoint) (e : UTXOEntry) : Prop :=
  c_utxo c !! op = Some e /\
  (ue_Coinbase e = true ->
   CoinbaseMaturity (c_params c) <= bi_height (c_tip c) - ue_Height e + 1) /\
  op ∉ mempool_spent (c_mempool c).

Record snapshot_on (c : Chain) (keys : list bytes) (s : Snapshot) : Prop := {
  sc_wf : snapshot_wf keys s;
  sc_live : forall o, o ∈ sp_Outpoints s -> exists e, spendable_entry c (sn_OutpointRef o) e /\
    sn_AmountUnits o = ue_Value e /\ sn_OwnerPKH o = ue_PKH e;
  sc_complete : forall op e key, spendable_entry c op e -> key ∈ keys ->
    ue_PKH e = pkhForKey key -> op ∈ sn_OutpointRef <$> sp_Outpoints s;
  sc_units : sp_SpendableUnits s = sumZ (sn_AmountUnits <$> sp_Outpoints s);
}.

Lemma inv_utxo_ok p c : chain_inv p c -> utxo_ok (c_utxo c).
Proof.
  intros Hc. destruct (ci_main _ _ Hc) as (l & Hb & _ & Hr).
  eapply replay_supply; [|exact Hr]. by eapply branch_heights.
Qed.

Lemma snap_of_fmap {A} (f : SpendableOutputSnapshot -> A) (g : SnapshotOutpoint -> A) pkhs l new :
  (forall so o, snap_of pkhs so o -> g o = f so) -> Forall2 (snap_of pkhs) l new ->
  g <$> new = f <$> l.
Proof. intros Hfg. induction 1; cbn; [done|]. f_equal; auto. Qed.

Lemma walletView_tip c owners lim view : walletViewForOwnersLocked c owners lim = Ok view ->
  canonicalTipSnapshotLocked c = Ok (wv_Tip view).
Proof.
  unfold walletViewForOwnersLocked. intros Hv. apply bind_Ok in Hv as (tip & -> & Hv).
  apply bind_Ok in Hv as (l & _ & Hv). apply bind_Ok in Hv as ([created act] & _ & Hv).
  apply bind_Ok in Hv as (u & _ & Hv). apply bind_Ok in Hv as ([spent mact] & _ & Hv).
  apply bind_Ok in Hv as (totals & _ & Hv). by apply Ok_inj in Hv as <-.
Qed.

Lemma snapshotWithKeys_spec p c network expected keys s :
  pow_params_ok p -> chain_inv p c -> snapshotWithKeys c network expected keys = Ok s ->
  snapshot_on c keys s /\ keys <> [] /\ sp_Tip s = expected /\
  canonicalTipSnapshotLocked c = Ok expected.
Proof.
  intros Hpow Hc Hs. unfold snapshotWithKeys in Hs.
  destruct keys as [|key0 keys0] eqn:Ek; [done|]. rewrite <- Ek in *.
  rewrite (proj2 (Nat.eqb_neq (length keys) 0)) in Hs by by rewrite Ek.
  apply bind_Ok in Hs as (cs & Hcs & Hs). unfold SpendableOutputsForPKHs in Hcs.
  apply bind_Ok in Hcs as (owners & Hown & Hcs). apply bind_Ok in Hcs as (view & Hview & Hcs).
  apply Ok_inj in Hcs as <-. cbn [ss_Tip ss_Outputs ss_Network ss_Complete] in Hs.
  destruct (_ || _) eqn:Eid; [done|]. bool_prop.
  apply bind_Ok in Hs as (primary & _ & Hs). apply bind_Ok in Hs as ([idx prev] & _ & Hs).
  destruct (length primary =? 0)%nat; [done|]. destruct (negb _); [done|].
  apply bind_Ok in Hs as ([[seen units] outs] & Hadd & Hs). apply bind_Ok in Hs as (hash & _ & Hs).
  apply Ok_inj in Hs as <-.
  apply add_outputs_spec in Hadd as (new & Hnew & Hrel & Hnd & _ & Hun & Hmax).
  cbn [fst snd app] in Hnew, Hun, Hmax. subst new.
  specialize (Hmax ltac:(unfold MaxMoneyUnits, UnitsPerCoin; lia)).
  destruct (walletView_spendable owners p c 0 view Hpow Hc Hview) as (Hspec & _ & _).
  assert (Hrefs : sn_OutpointRef <$> outs = so_OutPoint <$> wv_SpendableOutputs view)
    by (eapply snap_of_fmap; [|exact Hrel]; by intros ? ? (? & _)).
  assert (Hamts : sn_AmountUnits <$> outs = so_AmountUnits <$> wv_SpendableOutputs view)
    by (eapply snap_of_fmap; [|exact Hrel]; by intros ? ? (_ & ? & _)).
  assert (Hout : forall o, o ∈ outs -> exists so, spendable_spec owners c so /\
            snap_of (pkhForKey <$> keys) so o).
  { intros o [i Hi]%list_elem_of_lookup_1.
    destruct (Forall2_lookup_r _ _ _ _ _ Hrel Hi) as (so & Hso & Hsn).
    exists so. split; [|done]. apply Hspec. by eapply list_elem_of_lookup_2. }
  split_and!; [|by rewrite Ek|done|].
  - split; cbn [with_hash sp_Outpoints sp_SpendableUnits].
    + split; cbn [with_hash sp_Outpoints].
      * by rewrite Hrefs.
      * apply list.Forall_forall. intros o Ho.
        destruct (Hout o Ho) as (so & (e & He & Ha & Hpk & Hoi & _) & (Hr & Hsa & Hsp & Hsk & Hl)).
        split; [|rewrite Hsa, Ha; by apply (inv_utxo_ok p c Hc) in He].
        destruct (walletOwners_index _ _ _ _ _ Hown Hoi) as [Hrange Hlk].
        rewrite length_fmap in Hrange. rewrite list_lookup_fmap in Hlk.
        unfold key_owns. rewrite Hsk. rewrite (proj2 (Z.leb_le _ _)) by lia.
        rewrite (proj2 (Z.ltb_lt _ _)) by lia. cbn [andb].
        destruct (keys !! Z.to_nat (so_OwnerIndex so)) as [k|]; [|done].
        cbn in Hlk. apply bool_decide_eq_true. rewrite Hsp, Hpk. congruence.
      * rewrite Hamts. lia.
    + intros o Ho.
      destruct (Hout o Ho) as (so & (e & He & Ha & Hpk & _ & Hm & Hns) & (Hr & Hsa & Hsp & _)).
      exists e. unfold spendable_entry. rewrite Hr, Hsa, Hsp. done.
    + intros op e key (He & Hm & Hns) Hkey Hpk. rewrite Hrefs.
      destruct (walletOwners_complete _ _ _ (ue_PKH e) Hown) as [i Hi].
      { rewrite Hpk. by apply list_elem_of_fmap_2. }
      apply list_elem_of_fmap. exists (mkSpendable op (ue_Value e) (ue_PKH e) i).
      split; [done|]. apply Hspec. by exists e.
    + by rewrite Hamts, Hun.
  - apply walletView_tip in Hview. congruence.
Qed.

(** *** Admission of a signed transaction

    [accepted c tx fee]: the chain admits [tx] with this fee; the only exception
    is another transaction of the mempool with the same id, a hash collision. *)
Definition accepted (c : Chain) (tx : Tx) (fee : Z) : Prop :=
  checkTxLocked (c_params c) (c_utxo c) tx (bi_height (c_tip c) + 1) = Ok fee /\
  (AcceptTxWithResult c (Some tx)
     = (set_mempool c (<[Tx_ID tx := tx]> (c_mempool c)), Ok TxAcceptanceAdded) \/
   exists other, c_mempool c !! Tx_ID tx = Some other /\ other <> tx /\ Tx_ID other = Tx_ID tx).

Context `{!CryptoLaws}.

Lemma signed_inputs_valid p u d h ins signing entries :
  Forall2 (fun i k => in_PubKey i = ed25519_Public k /\
             ed25519_Verify (in_PubKey i) d (in_Sig i) = true) ins signing ->
  Forall2 (fun k e => pkhForKey k = ue_PKH e) signing entries ->
  Forall2 (fun op e => u !! op = Some e /\ 0 <= ue_Value e <= MaxMoneyUnits /\
             (ue_Coinbase e = true -> CoinbaseMaturity p <= h - ue_Height e))
    (in_Prev <$> ins) entries ->
  Forall2 (input_valid p u d h) ins entries.
Proof.
  intros Hs. revert entries. induction Hs as [|i k ins ks [Hpk Hv] _ IH]; intros entries Ho Hu.
  { inv Ho. constructor. }
  inv Ho. inv Hu as [|? ? ? ? (? & ? & ?)]. constructor; [|by apply IH]. split; try done.
  - rewrite Hpk. apply length_ed25519_Public.
  - by rewrite Hpk.
Qed.

Lemma signed_tx_accepted p c tx0 signing tx entries fee :
  chain_inv p c -> Sign tx0 signing = Ok tx ->
  tx_Ins tx0 <> [] -> tx_Outs tx0 <> [] -> NoDup (in_Prev <$> tx_Ins tx0) ->
  Forall2 (spendable_entry c) (in_Prev <$> tx_Ins tx0) entries ->
  Forall2 (fun k e => pkhForKey k = ue_PKH e) signing entries ->
  sumZ (ue_Value <$> entries) <= MaxMoneyUnits ->
  Forall (fun o => 0 < out_Value o <= MaxMoneyUnits) (tx_Outs tx0) ->
  0 <= fee -> sumZ (ue_Value <$> entries) = sumZ (out_Value <$> tx_Outs tx0) + fee ->
  accepted c tx fee.
Proof.
  intros Hc Hs Hi Ho Hnd Hlive Hown Hsum Houts Hfee Hbal.
  destruct (Sign_verifies _ _ _ Hs) as (Hver & Hto & Hprev).
  change (map in_Prev ?l) with (in_Prev <$> l) in Hprev. rewrite <- Hprev in Hlive, Hnd.
  assert (Hck : checkTxLocked (c_params c) (c_utxo c) tx (bi_height (c_tip c) + 1)
                = Ok fee).
  { apply checkTxLocked_spec. exists entries. unfold tx_fee. rewrite Hto. split; [|lia].
    split; rewrite ?Hto; try done; try lia.
    - intros Hn. rewrite Hn in Hprev. by destruct (tx_Ins tx0).
    - eapply signed_inputs_valid; [exact Hver|exact Hown|].
      eapply Forall2_impl; [exact Hlive|]. intros op e (He & Hm & _).
      apply (inv_utxo_ok p c Hc) in He as Hv. split_and!; [done|lia|lia|]. intros Hcb.
      specialize (Hm Hcb). lia. }
  split; [done|].
  assert (Hspent : forall i, i ∈ tx_Ins tx ->
            is_Some (c_utxo c !! in_Prev i) /\ in_Prev i ∉ mempool_spent (c_mempool c)).
  { intros i Hin. apply (list_elem_of_fmap_2 in_Prev) in Hin.
    apply list_elem_of_lookup_1 in Hin as [n Hn].
    destruct (Forall2_lookup_l _ _ _ _ _ Hlive Hn) as (e & _ & He & _ & Hns). by rewrite He. }
  unfold AcceptTxWithResult.
  rewrite (spends_not_coinbase p c) by (done || (intros; by apply Hspent)).
  destruct (decide (is_Some (c_mempool c !! Tx_ID tx))) as [[other Hother]|Hnone].
  - right. exists other. destruct (ci_mempool _ _ Hc _ _ Hother) as [Hid _].
    split_and!; [done| |done]. intros ->.
    destruct (tx_Ins tx) as [|i ins] eqn:Ei; [by destruct (tx_Ins tx0)|].
    destruct (Hspent i) as [_ Hns]; [by left|]. apply Hns, mempool_spent_spec.
    exists (Tx_ID tx), tx, i. split_and!; [done|rewrite Ei; by left|done].
  - left. rewrite Hck. destruct (existsb _ _) eqn:Ex; [|done]. exfalso.
    apply existsb_exists in Ex as (i & Hi'%list_elem_of_In & Hin%bool_decide_eq_true).
    by apply Hspent in Hi' as [_ ?].
Qed.

(** *** The payment built from a snapshot of the chain *)
Lemma entry_of_candidate c keys s excluded cand : snapshot_on c keys s ->
  cand ∈ best_candidates excluded s ->
  pc_op cand ∉ excluded /\ exists e key, spendable_entry c (pc_op cand) e /\
    pc_amount cand = ue_Value e /\ signer keys cand key /\ pkhForKey key = ue_PKH e.
Proof.
  intros Hon Hin. apply subseteq_take in Hin.
  apply (ranked_elem keys) in Hin as (o & -> & Ho & Hx & [Hk Ha]); [|apply Hon].
  split; [done|]. destruct (sc_live _ _ _ Hon o Ho) as (e & He & Hae & Hpk).
  unfold key_owns in Hk. unfold signer. cbn.
  destruct (keys !! Z.to_nat (sn_KeyIndex o)) as [key|]; [|by rewrite andb_false_r in Hk].
  apply andb_true_iff in Hk as [_ Hk%bool_decide_eq_true]. exists e, key. by rewrite <- Hpk.
Qed.

Lemma entries_of_chosen c keys s excluded chosen signing : snapshot_on c keys s ->
  (forall cand, cand ∈ chosen -> cand ∈ best_candidates excluded s) ->
  Forall2 (signer keys) chosen signing ->
  exists entries, Forall2 (spendable_entry c) (pc_op <$> chosen) entries /\
    Forall2 (fun k e => pkhForKey k = ue_PKH e) signing entries /\
    ue_Value <$> entries = pc_amount <$> chosen.
Proof.
  intros Hon Hin Hs. induction Hs as [|cand k chosen signing Hk _ IH].
  { exists []. split_and!; [constructor..|done]. }
  destruct IH as (entries & H1 & H2 & H3); [intros; apply Hin; by right|].
  destruct (entry_of_candidate c keys s excluded cand Hon) as (_ & e & key & He & Ha & Hk' & Hpk);
    [apply Hin; by left|].
  exists (e :: entries). unfold signer in *. rewrite Hk in Hk'. apply Some_inj in Hk' as <-.
  split_and!; [by constructor..|]. cbn. by rewrite H3, Ha.
Qed.

Lemma take_NoDup {A} n (l : list A) : NoDup l -> NoDup (take n l).
Proof. intros Hl. eapply sublist_NoDup; [exact Hl|]. apply sublist_take. Qed.

Lemma best_distinct keys excluded s : snapshot_wf keys s ->
  NoDup (pc_op <$> best_candidates excluded s).
Proof.
  intros Hwf. unfold best_candidates, ranked. rewrite fmap_take. apply take_NoDup.
  rewrite merge_sort_Permutation, <- list_fmap_compose.
  apply (NoDup_fmap_filter sn_OutpointRef), Hwf.
Qed.

Lemma payment_outputs_sum keys toPKH amount change : keys <> [] -> 0 <= change ->
  sumZ (out_Value <$> payment_outputs keys toPKH amount change) = amount + change.
Proof.
  intros Hk Hc. unfold payment_outputs. rewrite Z.gtb_ltb.
  destruct keys as [|k ks]; [done|]. cbn [take]. rewrite take_0.
  destruct (Z.ltb_spec 0 change); cbn; lia.
Qed.

Lemma payment_outputs_range keys toPKH amount change : 0 < amount -> 0 <= change ->
  amount + change <= MaxMoneyUnits ->
  Forall (fun o => 0 < out_Value o <= MaxMoneyUnits) (payment_outputs keys toPKH amount change).
Proof.
  intros Ha Hc Hm. unfold payment_outputs. constructor; [cbn; lia|]. rewrite Z.gtb_ltb.
  destruct (Z.ltb_spec 0 change); [|done].
  destruct keys as [|k ks]; [done|]. cbn [take]. rewrite take_0. repeat constructor; cbn; lia.
Qed.

Lemma built_payment_accepted p c keys s toPKH amount fee excluded prepared :
  chain_inv p c -> snapshot_on c keys s -> keys <> [] ->
  0 < amount -> 0 <= fee -> amount + fee <= MaxMoneyUnits ->
  buildPaymentFromSnapshot keys s toPKH amount fee excluded = Ok prepared ->
  exists change, 0 <= change /\ accepted c (pp_Tx prepared) fee /\
    tx_Outs (pp_Tx prepared) = payment_outputs keys toPKH amount change /\
    in_Prev <$> tx_Ins (pp_Tx prepared) = pp_SelectedOutpoints prepared /\
    (forall op, op ∈ pp_SelectedOutpoints prepared -> op ∉ excluded) /\
    Z.of_nat (length (Tx_Bytes (pp_Tx prepared))) <= MaxSignedTxBytes.
Proof.
  intros Hc Hon Hk Ha Hf Hm Hb.
  destruct (buildPayment_cases keys s toPKH amount fee excluded) as
    (n & signing & Hsig & _ & Hmax & Hcase); [apply Hon|done..|].
  rewrite Hb in Hcase. cbn zeta in Hcase. destruct Hcase as (Hge & Hsel & Hsign & Hlen).
  set (chosen := take n (best_candidates excluded s)) in *.
  assert (Hin : forall cand, cand ∈ chosen -> cand ∈ best_candidates excluded s)
    by (intros cand; apply subseteq_take).
  destruct (entries_of_chosen c keys s excluded chosen signing Hon Hin Hsig)
    as (entries & Hlive & Hown & Hvals).
  set (change := sumZ (pc_amount <$> chosen) - (amount + fee)) in *.
  assert (Hprevs : in_Prev <$> ((fun c => mkTxIn (pc_op c) [] []) <$> chosen) = pc_op <$> chosen)
    by by rewrite <- list_fmap_compose.
  destruct (Sign_verifies _ _ _ Hsign) as (_ & Hto & Hprev).
  exists change. split; [lia|]. split_and!; [|done|by rewrite Hsel, <- Hprevs| |done].
  - eapply signed_tx_accepted; [done|exact Hsign|..]; cbn [tx_Ins tx_Outs].
    + intros Hn%fmap_nil_inv. rewrite Hn in Hge. cbn in Hge. lia.
    + done.
    + rewrite Hprevs. subst chosen. rewrite fmap_take. apply take_NoDup.
      apply (best_distinct keys), Hon.
    + by rewrite Hprevs.
    + done.
    + by rewrite Hvals.
    + apply payment_outputs_range; lia.
    + done.
    + rewrite payment_outputs_sum by (done || lia). rewrite Hvals. lia.
  - intros op Hop. rewrite Hsel in Hop. apply list_elem_of_fmap in Hop as (cand & -> & Hcand).
    by apply (entry_of_candidate c keys s excluded cand Hon), Hin.
Qed.
End building.
