(* ===== verification/WalletSendProofs.v ===== *)
(** * Lemmas about selection, gateway snapshots, maximum sends and cleanups

    Spending the largest outputs first uses the fewest inputs; a gateway snapshot
    that passes validation is well formed for the wallet's keys; a maximum send
    spends every eligible output; a cleanup spends a prefix of the smallest
    outputs of one address, and its binary search terminates. *)
From S2P Require Import Prelude Text GoHeap Params Crypto Pow Wire Merkle Address Chain Ledger.
From S2P Require Import ChainInv ChainView WalletView WalletViewProofs Wallet WalletSnapshot.
From S2P Require Import WalletSend WalletProofs.

(** ** Largest first uses the fewest inputs *)
Lemma sumZ_perm l1 l2 : l1 ≡ₚ l2 -> sumZ l1 = sumZ l2.
Proof. induction 1; cbn; lia. Qed.

Lemma take_shift_sum a l n : Forall (fun b => b <= a) l -> 0 <= a ->
  sumZ (take n l) <= sumZ (take n (a :: l)).
Proof.
  intros Hl Ha. destruct n as [|n]; [done|]. cbn [take sumZ].
  destruct (l !! n) as [b|] eqn:Eb.
  - rewrite (take_S_r _ _ _ Eb), sumZ_app. cbn.
    assert (b <= a) by exact (Forall_lookup_1 _ _ _ _ Hl Eb). lia.
  - apply lookup_ge_None in Eb. rewrite !take_ge by lia. lia.
Qed.

(** The first [n] elements of a descending list have the largest sum. *)
Lemma top_sum l : StronglySorted Z.ge l -> Forall (fun z => 0 <= z) l -> forall l',
  l' ⊆+ l -> sumZ l' <= sumZ (take (length l') l).
Proof.
  induction 1 as [|a l Hs IH Hge]; intros Hnn l' Hl'.
  { apply submseteq_nil_r in Hl' as ->. done. }
  inv Hnn. apply submseteq_cons_r in Hl' as [Hl'|(l'' & Hp & Hl'')].
  - eapply Z.le_trans; [by apply IH|]. apply take_shift_sum; [|done].
    eapply list.Forall_impl; [exact Hge|]. cbn. lia.
  - rewrite (sumZ_perm _ _ Hp), (Permutation_length Hp). cbn [length take sumZ].
    specialize (IH ltac:(done) l'' Hl''). lia.
Qed.

Lemma ranked_descending excluded outs :
  StronglySorted Z.ge (pc_amount <$> ranked excluded outs).
Proof.
  unfold ranked. set (l := cand_of <$> eligible excluded outs).
  pose proof (StronglySorted_merge_sort candidate_le l) as Hs.
  induction Hs as [|c cs _ IH Hle]; [constructor|]. cbn. constructor; [done|].
  apply Forall_fmap. eapply list.Forall_impl; [exact Hle|]. intros d Hd. cbn.
  apply candidate_le_compare in Hd. unfold cand_compare in Hd.
  destruct (Z.compare_spec (pc_amount d) (pc_amount c)); done || lia.
Qed.

Section send_proofs.
Context `{Crypto}.

(** No choice of eligible outputs with fewer elements reaches the amount. *)
Lemma shortest_fewest keys excluded s need n l :
  snapshot_wf keys s -> 0 < need ->
  shortest (pc_amount <$> best_candidates excluded s) 0 need n ->
  l ⊆+ (sn_AmountUnits <$> eligible excluded (sp_Outpoints s)) -> need <= sumZ l ->
  (n <= length l)%nat.
Proof.
  intros Hwf Hneed (Hn & Hmin & _) Hl Hsum.
  destruct (decide (n <= length l)%nat) as [|Hlt]; [done|]. exfalso.
  specialize (Hmin (length l) ltac:(lia)). rewrite Z.add_0_l in Hmin.
  destruct (ranked_in_order keys excluded s Hwf) as (Hpos & _ & _).
  assert (Htop : sumZ l <= sumZ (take (length l) (pc_amount <$> ranked excluded (sp_Outpoints s)))).
  { apply top_sum; [apply ranked_descending| |].
    - apply Forall_fmap. eapply list.Forall_impl; [exact Hpos|]. cbn. lia.
    - unfold ranked. by rewrite merge_sort_Permutation, <- list_fmap_compose. }
  rewrite length_fmap in Hn. unfold best_candidates in *. rewrite length_take in Hn.
  rewrite fmap_take, take_take, Nat.min_l in Hmin by lia. lia.
Qed.

(** ** Gateway snapshots *)
Lemma strictly_before_compare prev txid vout :
  strictly_before prev txid vout = true <-> op_compare prev (mkOutPoint txid vout) = Lt.
Proof.
  unfold strictly_before, op_compare. cbn. destruct (bytes_compare _ _); [|done..].
  by rewrite Z.ltb_lt, Z.compare_lt_iff.
Qed.

(** Outpoints of a list in strictly increasing order. *)
Definition ascending (l : list OutPoint) : Prop := StronglySorted (fun a b => op_compare a b = Lt) l.

Lemma ascending_NoDup l : ascending l -> NoDup l.
Proof.
  induction 1 as [|op l _ IH Hlt]; constructor; [|done]. intros Hin.
  rewrite list.Forall_forall in Hlt. specialize (Hlt op Hin).
  by rewrite (proj2 (op_compare_eq op op) eq_refl) in Hlt.
Qed.

Lemma ascending_snoc l op : ascending l ->
  (forall prev, last l = Some prev -> op_compare prev op = Lt) -> ascending (l ++ [op]).
Proof.
  intros Hl Hlast. apply StronglySorted_app. split_and!; [|done|repeat constructor].
  intros a b Ha ->%list_elem_of_singleton.
  destruct l as [|x l' _] using rev_ind; [by apply elem_of_nil in Ha|].
  rewrite last_snoc in Hlast. specialize (Hlast x eq_refl).
  apply elem_of_app in Ha as [Ha| ->%list_elem_of_singleton]; [|done].
  apply StronglySorted_app in Hl as (Hlt & _ & _).
  eapply op_compare_lt_trans; [|exact Hlast]. apply Hlt; [done|by left].
Qed.

(** What is known of an output the wallet accepts from a gateway. *)
Definition remote_ok (keys : list bytes) (r : RemoteSnapshotOutpoint) (o : SnapshotOutpoint)
    : Prop :=
  sn_OutpointRef o = mkOutPoint (ro_TxID r) (ro_Vout r) /\ sn_AmountUnits o = ro_AmountUnits r /\
  sn_Address o = ro_Address r /\ EncodeAddress (sn_OwnerPKH o) = ro_Address r /\ cand_ok keys o.

Lemma index_keys_range keys : forall n st st',
  foldM index_key st (zip (seq n (length keys)) keys) = Ok st' ->
  forall addr i, st' !! addr = Some i ->
    st !! addr = Some i \/ Z.of_nat n <= i < Z.of_nat (n + length keys).
Proof.
  induction keys as [|k keys IH]; intros n st st' Hf addr i Hi; cbn in Hf.
  { apply Ok_inj in Hf as <-. by left. }
  unfold index_key in Hf at 1. destruct (decide _); [done|].
  destruct (IH (S n) _ _ Hf addr i Hi) as [Hs|Hr]; [|right; cbn; lia].
  apply lookup_insert_Some in Hs as [[_ <-]|[_ ?]]; [right; cbn; lia|by left].
Qed.

Definition refs (outs : list SnapshotOutpoint) : list OutPoint := sn_OutpointRef <$> outs.

Lemma remote_output_step keys ki ai total prev outs r st' :
  (forall addr i, ki !! addr = Some i -> 0 <= i < Z.of_nat (length keys)) ->
  remote_output keys ki ai (total, prev, outs) r = Ok st' ->
  exists o, st' = (total + ro_AmountUnits r, Some (sn_OutpointRef o), outs ++ [o]) /\
    remote_ok keys r o /\ total + ro_AmountUnits r <= MaxMoneyUnits /\
    (forall op, prev = Some op -> op_compare op (sn_OutpointRef o) = Lt).
Proof.
  intros Hki Hr. unfold remote_output in Hr.
  destruct (ki !! ro_Address r) as [i|] eqn:Ei; [|done].
  destruct (ai !! ro_Address r) as [j|]; [|done].
  destruct (DecodeAddress (ro_Address r)) as [pkh|]; [|done].
  destruct (_ || _) eqn:Eok; [done|]. destruct (match prev with Some p => _ | None => _ end) eqn:Ep;
    [done|]. destruct (_ >? _) eqn:Et; [done|]. apply Ok_inj in Hr as <-. bool_prop.
  rewrite MoneyRange_spec in *. exists (mkSnapOut (outpoint_text (ro_TxID r) (ro_Vout r))
    (ro_AmountUnits r) (ro_Address r) (mkOutPoint (ro_TxID r) (ro_Vout r)) (ro_TxID r) (ro_Vout r)
    pkh j i). split; [done|]. unfold remote_ok. split_and!; cbn [sn_OutpointRef sn_AmountUnits
    sn_Address sn_OwnerPKH]; try done; [|lia|].
  - split; cbn [sn_KeyIndex sn_OwnerPKH sn_AmountUnits]; [|lia].
    unfold key_owns. pose proof (Hki _ _ Ei). rewrite (proj2 (Z.leb_le _ _)) by lia.
    rewrite (proj2 (Z.ltb_lt _ _)) by lia. cbn [andb].
    by destruct (keys !! Z.to_nat i); simplify_option_eq.
  - intros op ->. apply negb_false_iff in Ep. by apply strictly_before_compare.
Qed.

Lemma remote_outputs_spec keys ki ai l :
  (forall addr i, ki !! addr = Some i -> 0 <= i < Z.of_nat (length keys)) ->
  forall total outs st',
  foldM (remote_output keys ki ai) (total, last (refs outs), outs) l = Ok st' ->
  ascending (refs outs) ->
  exists new, st'.2 = outs ++ new /\ Forall2 (remote_ok keys) l new /\
    ascending (refs (outs ++ new)) /\ st'.1.1 = total + sumZ (ro_AmountUnits <$> l) /\
    (total <= MaxMoneyUnits -> st'.1.1 <= MaxMoneyUnits).
Proof.
  intros Hki. induction l as [|r l IH]; intros total outs st' Hf Hasc; cbn [foldM] in Hf.
  { apply Ok_inj in Hf as <-. exists []. rewrite app_nil_r. cbn. split_and!; [done..|lia|done]. }
  destruct (remote_output _ _ _ _ r) as [st1|] eqn:E; [|done].
  apply remote_output_step in E as (o & -> & Hok & Hmax & Hlt); [|done].
  replace (Some (sn_OutpointRef o)) with (last (refs (outs ++ [o]))) in Hf
    by (unfold refs; rewrite fmap_app; apply last_snoc).
  apply IH in Hf as (new & Hout & Hrel & Hasc' & Hsum & Hle).
  - exists (o :: new). rewrite <- app_assoc in Hout, Hasc'. split_and!; [done|by constructor|done| |].
    + rewrite Hsum. cbn. lia.
    + intros _. by apply Hle.
  - unfold refs in *. rewrite fmap_app. apply ascending_snoc; [done|]. by intros prev ?%Hlt.
Qed.

Lemma snapshotFromRemote_spec network remote keys s :
  snapshotFromRemoteWithKeys network remote keys = Ok s ->
  snapshot_wf keys s /\ keys <> [] /\
  Forall2 (remote_ok keys) (rs_Outpoints remote) (sp_Outpoints s) /\
  sp_SpendableUnits s = sumZ (sn_AmountUnits <$> sp_Outpoints s) /\
  sp_SpendableUnits s = rs_SpendableUnits remote /\
  sp_Addresses s = merge_sort bytes_le (addressForKey <$> keys) /\ sp_Tip s = rs_Tip remote.
Proof.
  unfold snapshotFromRemoteWithKeys. destruct (_ || _) eqn:Eid; [done|]. bool_prop. intros Hs.
  apply bind_Ok in Hs as (ki & Hki & Hs). apply bind_Ok in Hs as (ai & _ & Hs).
  apply bind_Ok in Hs as (primary & _ & Hs). apply bind_Ok in Hs as ([[total prev] outs] & Hf & Hs).
  destruct (negb (total =? _)) eqn:Et; [done|]. apply bind_Ok in Hs as (hash & _ & Hs).
  apply Ok_inj in Hs as <-. cbn [with_hash sp_Outpoints sp_SpendableUnits sp_Addresses sp_Tip].
  destruct (remote_outputs_spec keys ki ai (rs_Outpoints remote)) with (total := 0)
    (outs := @nil SnapshotOutpoint) (st' := (total, prev, outs))
    as (new & Hnew & Hrel & Hasc & Hsum & Hmax); [|exact Hf|constructor|].
  { intros addr i Hi. destruct (index_keys_range _ _ _ _ Hki addr i Hi) as [He|?];
      [by rewrite lookup_empty in He|lia]. }
  cbn [fst snd app] in *. subst new. bool_prop.
  assert (Ham : sn_AmountUnits <$> outs = ro_AmountUnits <$> rs_Outpoints remote).
  { clear -Hrel. induction Hrel as [|r o l new (_ & Ha & _) _ IH]; [done|]. cbn. by rewrite Ha, IH. }
  assert (total <= MaxMoneyUnits) by (apply Hmax; unfold MaxMoneyUnits, UnitsPerCoin; lia).
  assert (Hcand : Forall (cand_ok keys) outs).
  { clear -Hrel. induction Hrel as [|r o l new (_ & _ & _ & _ & Hc) _ IH]; by constructor. }
  split_and!; [|by intros ->|done|rewrite Ham; lia|done|done|done].
  split; cbn [with_hash sp_Outpoints]; [by apply ascending_NoDup|done|rewrite Ham; lia].
Qed.

(** ** Maximum sends *)
Lemma check_snapshot_output_Ok what keys seen total o st' :
  check_snapshot_output what keys (seen, total) o = Ok st' ->
  sn_OutpointRef o ∉ seen /\ cand_ok keys o /\
  (exists key, keys !! Z.to_nat (sn_KeyIndex o) = Some key /\
     pkhForKey key = sn_OwnerPKH o /\ addressForKey key = sn_Address o) /\
  st' = ({[sn_OutpointRef o]} ∪ seen, total + sn_AmountUnits o) /\
  0 <= total /\ total + sn_AmountUnits o <= MaxMoneyUnits.
Proof.
  unfold check_snapshot_output. destruct (negb _); [done|]. destruct (decide _); [done|].
  destruct (owned_output keys o) eqn:Eo; cbn [negb]; [|done]. intros Hs.
  apply bind_Ok in Hs as (t & Ht & Hs). apply addSpendable_Ok in Ht as (? & ? & ? & ->).
  apply Ok_inj in Hs as <-. unfold owned_output in Eo. bool_prop.
  rewrite MoneyRange_spec in *. destruct (keys !! Z.to_nat (sn_KeyIndex o)) as [key|] eqn:Ek; [|done].
  bool_prop. split_and!; try done; [|by exists key]. split; [|lia].
  unfold key_owns. rewrite Ek, (proj2 (Z.leb_le _ _)), (proj2 (Z.ltb_lt _ _)) by lia.
  by apply bool_decide_eq_true.
Qed.

Lemma eligible_snoc excluded outs o : eligible excluded (outs ++ [o]) =
  eligible excluded outs ++ (if decide (sn_OutpointRef o ∈ excluded) then [] else [o]).
Proof.
  unfold eligible. rewrite filter_app. f_equal. rewrite filter_cons, filter_nil.
  repeat case_decide; tauto.
Qed.

(** The outputs a snapshot loop has gone through. *)
Record checked (keys : list bytes) (seen : gset OutPoint) (total : Z)
    (outs : list SnapshotOutpoint) : Prop := {
  ck_seen : forall op, op ∈ seen <-> op ∈ refs outs;
  ck_distinct : NoDup (refs outs);
  ck_cands : Forall (cand_ok keys) outs;
  ck_total : total = sumZ (sn_AmountUnits <$> outs);
  ck_max : total <= MaxMoneyUnits;
}.

Lemma checked_nil keys : checked keys ∅ 0 [].
Proof.
  split; [set_solver|constructor|constructor|done|unfold MaxMoneyUnits, UnitsPerCoin; lia].
Qed.

Lemma checked_snoc what keys seen total outs o st' : checked keys seen total outs ->
  check_snapshot_output what keys (seen, total) o = Ok st' ->
  checked keys st'.1 st'.2 (outs ++ [o]).
Proof.
  intros [Hseen Hnd Hc Ht Hm] (Hns & Hok & _ & -> & ? & ?)%check_snapshot_output_Ok.
  split; unfold refs in *; cbn [fst snd]; rewrite ?fmap_app.
  - intros op. rewrite elem_of_union, elem_of_singleton, Hseen, elem_of_app. cbn [fmap list_fmap].
    rewrite list_elem_of_singleton. tauto.
  - apply NoDup_app. split_and!; [done| |by apply NoDup_singleton].
    cbn [fmap list_fmap]. intros op Hop ->%list_elem_of_singleton. apply Hns, Hseen, Hop.
  - apply Forall_app. split; [done|by constructor].
  - rewrite sumZ_app. cbn. lia.
  - done.
Qed.

Lemma maximum_outputs keys excluded l : forall outs seen total et ec st',
  checked keys seen total outs ->
  et = sumZ (sn_AmountUnits <$> eligible excluded outs) ->
  ec = Z.of_nat (length (eligible excluded outs)) ->
  foldM (maximum_output keys excluded) (seen, total, et, ec) l = Ok st' ->
  checked keys st'.1.1.1 st'.1.1.2 (outs ++ l) /\
  st'.1.2 = sumZ (sn_AmountUnits <$> eligible excluded (outs ++ l)) /\
  st'.2 = Z.of_nat (length (eligible excluded (outs ++ l))).
Proof.
  induction l as [|o l IH]; intros outs seen total et ec st' Hck Het Hec Hf; cbn [foldM] in Hf.
  { apply Ok_inj in Hf as <-. by rewrite app_nil_r. }
  destruct (maximum_output _ _ _ o) as [st1|] eqn:E; [|done]. unfold maximum_output in E.
  apply bind_Ok in E as ([seen1 total1] & Hc & E).
  pose proof (checked_snoc _ _ _ _ _ _ _ Hck Hc) as Hck1. cbn [fst snd] in Hck1.
  rewrite (cons_middle o outs l), app_assoc. destruct st1 as [[[seen2 total2] et2] ec2].
  destruct (decide (sn_OutpointRef o ∈ excluded)) as [Hx|Hx].
  - apply Ok_inj in E. simplify_eq. eapply IH; [done|..|exact Hf]; rewrite eligible_snoc,
      decide_True by done; by rewrite app_nil_r.
  - apply bind_Ok in E as (et' & Ha & E). apply addSpendable_Ok in Ha as (_ & _ & _ & ->).
    apply Ok_inj in E. simplify_eq. eapply IH; [done|..|exact Hf]; rewrite eligible_snoc,
      decide_False by done.
    + rewrite fmap_app, sumZ_app. cbn. lia.
    + rewrite length_app. cbn. lia.
Qed.

Lemma buildMaximum_spec keys s destination fee excluded prepared :
  buildMaximumFromSnapshot keys s destination fee excluded = Ok prepared ->
  let amount := sumZ (sn_AmountUnits <$> eligible excluded (sp_Outpoints s)) - fee in
  0 < amount /\ 0 <= fee /\ amount + fee <= MaxMoneyUnits /\ snapshot_wf keys s /\
  buildPaymentFromSnapshot keys s destination amount fee excluded = Ok prepared /\
  tx_Outs (pp_Tx prepared) = [mkTxOut amount destination] /\
  pp_SelectedOutpoints prepared ≡ₚ refs (eligible excluded (sp_Outpoints s)).
Proof.
  unfold buildMaximumFromSnapshot. destruct (_ || _) eqn:Eid; [done|]. bool_prop. intros Hb.
  apply bind_Ok in Hb as ([[[seen total] et] ec] & Hf & Hb).
  destruct (negb _); [done|]. destruct (Z.leb_spec et fee); [done|].
  apply (maximum_outputs keys excluded _ [] ∅ 0 0 0) in Hf as (Hck & Het & Hec);
    [|apply checked_nil|done|done]. cbn [app fst snd] in *.
  apply bind_Ok in Hb as (prepared' & Hp & Hb). destruct (_ || _) eqn:Echk; [done|].
  apply Ok_inj in Hb as ->. bool_prop. rewrite <- Het in *.
  assert (Hwf : snapshot_wf keys s) by (destruct Hck; split; [done..|lia]).
  assert (et <= MaxMoneyUnits).
  { rewrite Het. destruct (ranked_in_order keys excluded s Hwf) as (_ & _ & Hle).
    unfold ranked in Hle. by rewrite merge_sort_Permutation, <- list_fmap_compose in Hle. }
  split_and!; try done; try lia.
  assert (Hk : keys <> []) by by intros ->.
  destruct (buildPayment_cases keys s destination (et - fee) fee excluded) as
    (n & signing & _ & _ & _ & Hcase); [done|done|lia..|].
  rewrite Hp in Hcase. destruct Hcase as (_ & Hsel & _).
  assert (Htake : take n (best_candidates excluded s) = ranked excluded (sp_Outpoints s)).
  { unfold best_candidates. rewrite take_take. apply take_ge.
    assert (Hlen : length (ranked excluded (sp_Outpoints s))
                   = length (eligible excluded (sp_Outpoints s)))
      by (unfold ranked; by rewrite merge_sort_Permutation, length_fmap).
    apply (f_equal length) in Hsel. rewrite length_fmap in Hsel. unfold best_candidates in Hsel.
    rewrite !length_take in Hsel. lia. }
  rewrite Hsel, Htake. unfold ranked, refs. by rewrite merge_sort_Permutation, <- list_fmap_compose.
Qed.

(** ** Cleanups *)

(** *** A longer prefix gives a longer transaction *)
Lemma uvarint_go_mono n : forall a b, 0 <= a <= b ->
  (length (uvarint_go n a) <= length (uvarint_go n b))%nat.
Proof.
  induction n as [|n IH]; intros a b Hab; cbn [uvarint_go]; [done|].
  destruct (Z.ltb_spec a 0x80), (Z.ltb_spec b 0x80); cbn [length]; try lia.
  apply le_n_S, IH. rewrite !Z.shiftr_div_pow2 by lia. split; [apply Z.div_pos; lia|].
  apply Z.div_le_mono; lia.
Qed.

Lemma putUvarint_mono a b : 0 <= a <= b -> b < two64 ->
  (length (putUvarint a) <= length (putUvarint b))%nat.
Proof. intros. unfold putUvarint. rewrite !u64_small by (split; lia). by apply uvarint_go_mono. Qed.

Context `{!CryptoLaws}.

Lemma signed_length tx0 signing tx : Sign tx0 signing = Ok tx ->
  length (Tx_Bytes tx) = (4 + length (putUvarint (Z.of_nat (length (tx_Ins tx0))))
    + sum_list_with (fun op => length (op_TxID op) + 102)%nat (in_Prev <$> tx_Ins tx0)
    + length (putUvarint (Z.of_nat (length (tx_Outs tx0))) ++ flat_map serialize_out (tx_Outs tx0)
              ++ writeBytes (tx_LockTag tx0)))%nat.
Proof.
  intros Hs. pose proof Hs as Hs'. unfold Sign in Hs'. destruct (negb _) eqn:El; [done|].
  apply negb_false_iff, Nat.eqb_eq in El. apply Ok_inj in Hs' as <-.
  unfold Tx_Bytes, serialize. cbn [with_ins tx_Ins tx_Outs tx_Version tx_LockTag].
  rewrite !length_app, length_le_bytes, !length_zip_with.
  replace (Nat.min (Nat.min (length (tx_Ins tx0)) (length signing)) (length signing))
    with (length (tx_Ins tx0)) by lia.
  set (d := SigDigest _). clearbody d. clear Hs.
  enough (length (flat_map (serialize_in false)
    (zip_with (set_sig d) (zip_with set_pubkey (tx_Ins tx0) signing) signing))
    = sum_list_with (λ op, length (op_TxID op) + 102)%nat (in_Prev <$> tx_Ins tx0)) by lia.
  revert signing El. induction (tx_Ins tx0) as [|i ins IH]; intros [|k ks] El; try done.
  cbn [zip_with flat_map fmap list_fmap sum_list_with]. rewrite length_app.
  rewrite (IH ks) by (cbn in El; lia).
  unfold serialize_in, writeBytes. cbn [set_sig set_pubkey in_Prev in_PubKey in_Sig].
  rewrite !length_app, length_le_bytes, length_ed25519_Public, length_ed25519_Sign.
  change (length (putUvarint (Z.of_nat ed25519_PublicKeySize))) with 1%nat.
  change (length (putUvarint (Z.of_nat 64))) with 1%nat. unfold ed25519_PublicKeySize. lia.
Qed.

Lemma sum_list_take_mono {A} (f : A -> nat) l m n : (m <= n)%nat ->
  (sum_list_with f (take m l) <= sum_list_with f (take n l))%nat.
Proof.
  revert m n. induction l as [|x l IH]; intros [|m] [|n] Hmn; cbn; try lia.
  specialize (IH m n ltac:(lia)). lia.
Qed.

(** *** The binary search *)
Lemma search_batch_spec keys g sums fee n : forall (tx : Z -> Tx) fuel low high best,
  (forall k, best <= k <= n -> signCleanupPrefix keys g sums k fee = Ok (tx k)) ->
  let size k := Z.of_nat (length (Tx_Bytes (tx k))) in
  (forall j k, best <= j <= k -> k <= n -> size j <= size k) ->
  high <= n -> low = best + 1 -> best <= high -> high - low + 1 <= Z.of_nat fuel ->
  size best <= MaxSignedTxBytes ->
  (forall k, high < k <= n -> MaxSignedTxBytes < size k) ->
  exists k, search_batch fuel keys g sums fee low high (best, tx best) = Ok (k, tx k) /\
    best <= k <= n /\ size k <= MaxSignedTxBytes /\
    (forall j, k < j <= n -> MaxSignedTxBytes < size j).
Proof.
  intros tx fuel low high best Hsig size. revert low high best Hsig.
  induction fuel as [|fuel IH]; intros low high best Hsig Hmono Hhn Hlow Hbh Hfuel Hfit Habove;
    cbn [search_batch]; rewrite Z.gtb_ltb.
  { destruct (Z.ltb_spec high low); [|lia]. exists best.
    split_and!; try done; try lia. intros. apply Habove. lia. }
  destruct (Z.ltb_spec high low).
  { exists best. split_and!; try done; try lia. intros. apply Habove. lia. }
  set (middle := low + (high - low) / 2).
  assert (Hmid : low <= middle <= high) by (subst middle; mlia).
  rewrite (Hsig middle) by lia. cbn [mbind result_bind]. fold (size middle).
  destruct (Z.leb_spec (size middle) MaxSignedTxBytes) as [Hle|Hgt].
  - destruct (IH (middle + 1) high middle) as (k & Hk & ? & ? & ?);
      [intros; apply Hsig; lia|intros; apply Hmono; lia|lia..|done|done|].
    exists k. split_and!; try done; lia.
  - apply (IH low (middle - 1) best); try done; try lia.
    intros k Hk. destruct (decide (high < k)); [apply Habove; lia|].
    eapply Z.lt_le_trans; [exact Hgt|]. apply Hmono; lia.
Qed.

(** *** Groups of outputs by key *)
Definition clean_of (o : SnapshotOutpoint) : cleanupCandidate :=
  mkCleanup (sn_OutpointRef o) (sn_AmountUnits o) (sn_KeyIndex o).
Definition of_key (excluded : gset OutPoint) (outs : list SnapshotOutpoint) (k : Z)
    : list SnapshotOutpoint := filter (fun o => sn_KeyIndex o = k) (eligible excluded outs).

Record group_ok (keys : list bytes) (excluded : gset OutPoint) (outs : list SnapshotOutpoint)
    (k : Z) (g : cleanupGroup) : Prop := {
  go_key : cg_keyIndex g = k;
  go_range : 0 <= k < Z.of_nat (length keys);
  go_owner : exists key, keys !! Z.to_nat k = Some key /\ cg_address g = addressForKey key /\
    cg_pkh g = pkhForKey key;
  go_candidates : cg_candidates g = clean_of <$> of_key excluded outs k;
}.

Definition groups_ok keys excluded outs (groups : gmap Z cleanupGroup) : Prop :=
  forall k, match groups !! k with
            | Some g => group_ok keys excluded outs k g
            | None => of_key excluded outs k = []
            end.

Lemma of_key_snoc excluded outs o k : of_key excluded (outs ++ [o]) k =
  of_key excluded outs k ++
    (if decide (sn_OutpointRef o ∈ excluded) then []
     else if decide (sn_KeyIndex o = k) then [o] else []).
Proof.
  unfold of_key. rewrite eligible_snoc, filter_app. f_equal.
  destruct (decide (sn_OutpointRef o ∈ excluded)); [done|]. by rewrite filter_cons, filter_nil.
Qed.

Lemma cand_ok_range keys o : cand_ok keys o -> 0 <= sn_KeyIndex o < Z.of_nat (length keys).
Proof. intros [Hk _]. unfold key_owns in Hk. bool_prop. lia. Qed.

Lemma cleanup_output_step keys excluded outs seen total groups o st' :
  checked keys seen total outs -> groups_ok keys excluded outs groups ->
  cleanup_output keys excluded (seen, total, groups) o = Ok st' ->
  checked keys st'.1.1 st'.1.2 (outs ++ [o]) /\ groups_ok keys excluded (outs ++ [o]) st'.2.
Proof.
  intros Hck Hg Hc. unfold cleanup_output in Hc. apply bind_Ok in Hc as ([seen1 total1] & Hcs & Hc).
  pose proof (checked_snoc _ _ _ _ _ _ _ Hck Hcs) as Hck1. cbn [fst snd] in Hck1.
  apply check_snapshot_output_Ok in Hcs as (_ & Hok%cand_ok_range & (key & Hkey & _) & _).
  destruct (decide (sn_OutpointRef o ∈ excluded)) as [Hx|Hx].
  { apply Ok_inj in Hc as <-. split; [done|]. intros k. specialize (Hg k). cbn [snd].
    destruct (groups !! k) as [g|]; rewrite ?of_key_snoc, ?decide_True, ?app_nil_r by done; [|done].
    destruct Hg. split; rewrite ?of_key_snoc, ?decide_True, ?app_nil_r by done; done. }
  apply bind_Ok in Hc as (g & Hget & Hc). apply bind_Ok in Hc as (t & _ & Hc).
  apply Ok_inj in Hc as <-. split; [done|]. intros k. cbn [snd].
  assert (Hgo : group_ok keys excluded outs (sn_KeyIndex o) g).
  { pose proof (Hg (sn_KeyIndex o)) as Hgk. destruct (groups !! sn_KeyIndex o) as [g0|].
    - by apply Ok_inj in Hget as <-.
    - rewrite Hkey in Hget. cbn in Hget. apply Ok_inj in Hget as <-.
      split; cbn; [done|done|by exists key|]. by rewrite Hgk. }
  destruct (decide (k = sn_KeyIndex o)) as [->|Hne].
  - rewrite lookup_insert_eq. destruct Hgo as [? ? ? Hcands].
    split; cbn [cg_keyIndex cg_address cg_pkh cg_candidates]; try done.
    by rewrite of_key_snoc, decide_False, decide_True, fmap_app, Hcands.
  - rewrite lookup_insert_ne by done. specialize (Hg k).
    assert (Hsame : of_key excluded (outs ++ [o]) k = of_key excluded outs k)
      by (by rewrite of_key_snoc, decide_False, decide_False, app_nil_r).
    destruct (groups !! k); [|by rewrite Hsame]. destruct Hg. split; rewrite ?Hsame; done.
Qed.

Lemma cleanup_outputs keys excluded l : forall outs seen total groups st',
  checked keys seen total outs -> groups_ok keys excluded outs groups ->
  foldM (cleanup_output keys excluded) (seen, total, groups) l = Ok st' ->
  checked keys st'.1.1 st'.1.2 (outs ++ l) /\ groups_ok keys excluded (outs ++ l) st'.2.
Proof.
  induction l as [|o l IH]; intros outs seen total groups st' Hck Hg Hf; cbn [foldM] in Hf.
  { apply Ok_inj in Hf as <-. by rewrite app_nil_r. }
  destruct (cleanup_output _ _ _ o) as [[[seen1 total1] groups1]|] eqn:E; [|done].
  apply (cleanup_output_step keys excluded outs) in E as [Hck1 Hg1]; [|done|done].
  rewrite (cons_middle o outs l), app_assoc. by eapply IH.
Qed.

(** *** Prefix sums *)
Definition psum (cands : list cleanupCandidate) (k : nat) : Z :=
  sumZ (take k (cc_amount <$> cands)).

Definition sums_ok (fee : Z) (cands : list cleanupCandidate) (st : list Z * Z) : Prop :=
  st.1 = psum cands <$> seq 0 (S (length cands)) /\
  (forall k, (k <= length cands)%nat -> psum cands k <= MaxMoneyUnits) /\
  (st.2 = 0 \/ 2 <= st.2 <= Z.of_nat (length cands) /\ fee < psum cands (Z.to_nat st.2)).

Lemma psum_app cands c k : (k <= length cands)%nat -> psum (cands ++ [c]) k = psum cands k.
Proof.
  intros Hk. unfold psum. rewrite fmap_app, take_app_le; [done|]. by rewrite length_fmap.
Qed.

Lemma psum_all cands c : psum (cands ++ [c]) (S (length cands)) = psum cands (length cands)
                                                                  + cc_amount c.
Proof.
  unfold psum. rewrite fmap_app, !take_ge; rewrite ?length_app, ?length_fmap; cbn; try lia.
  rewrite sumZ_app. cbn. lia.
Qed.

Lemma prefix_step_ok fee cands c st st' : sums_ok fee cands st ->
  prefix_step fee st (length cands, c) = Ok st' -> sums_ok fee (cands ++ [c]) st'.
Proof.
  destruct st as [sums minimum]. intros (Hs & Hmax & Hmin) Hp. cbn [fst snd] in *.
  unfold prefix_step in Hp. apply bind_Ok in Hp as (sum & Hget & Hp). apply deref_Ok in Hget.
  apply bind_Ok in Hp as (next & Hnext & Hp). apply addSpendable_Ok in Hnext as (? & ? & ? & ->).
  apply Ok_inj in Hp as <-.
  assert (sum = psum cands (length cands)) as ->.
  { rewrite Hs, list_lookup_fmap, lookup_seq_lt in Hget by lia. by apply Some_inj in Hget. }
  unfold sums_ok. cbn [fst snd]. rewrite length_app. cbn [length].
  replace (length cands + 1)%nat with (S (length cands)) by lia. split_and!.
  - rewrite (seq_S (S (length cands))), fmap_app, Hs. cbn [fmap list_fmap Nat.add].
    rewrite psum_all. f_equal. apply list_fmap_ext. intros i k Hk%lookup_seq.
    symmetry. apply psum_app. lia.
  - intros k Hk. destruct (decide (k = S (length cands))) as [->|]; [rewrite psum_all; lia|].
    rewrite psum_app by lia. apply Hmax. lia.
  - destruct ((minimum =? 0) && _ && _) eqn:E.
    + bool_prop. right. split; [lia|]. replace (Z.to_nat _) with (S (length cands)) by lia.
      rewrite psum_all. lia.
    + destruct Hmin as [->|[? ?]]; [by left|]. right. split; [lia|]. rewrite psum_app by lia. done.
Qed.

Lemma prefix_steps fee l : forall cands st st', sums_ok fee cands st ->
  foldM (prefix_step fee) st (zip (seq (length cands) (length l)) l) = Ok st' ->
  sums_ok fee (cands ++ l) st'.
Proof.
  induction l as [|c l IH]; intros cands st st' Hok Hf; cbn in Hf.
  { apply Ok_inj in Hf as <-. by rewrite app_nil_r. }
  destruct (prefix_step fee st (length cands, c)) as [st1|] eqn:E; [|done].
  apply prefix_step_ok in E; [|done]. rewrite (cons_middle c cands l), app_assoc.
  eapply IH; [exact E|]. rewrite length_app. cbn. by rewrite Nat.add_1_r.
Qed.

(** *** The batch that is signed *)
Definition cleanup_unsigned (cands : list cleanupCandidate) (pkh : bytes) (fee : Z) (k : nat) : Tx :=
  mkTx 1 ((fun c => mkTxIn (cc_outpoint c) [] []) <$> take k cands)
    [mkTxOut (psum cands k - fee) pkh] [].

(** The signed transaction spending the first [k] candidates. *)
Definition cleanup_tx (cands : list cleanupCandidate) (key : bytes) (fee k : Z) : Tx :=
  match Sign (cleanup_unsigned cands (pkhForKey key) fee (Z.to_nat k))
             (replicate (Z.to_nat k) key) with
  | Ok tx => tx
  | Err _ => cleanup_unsigned cands (pkhForKey key) fee 0
  end.

Lemma cleanup_tx_signed cands key fee k : 0 <= k <= Z.of_nat (length cands) ->
  Sign (cleanup_unsigned cands (pkhForKey key) fee (Z.to_nat k)) (replicate (Z.to_nat k) key)
  = Ok (cleanup_tx cands key fee k).
Proof.
  intros Hk. unfold cleanup_tx, Sign. cbn [cleanup_unsigned tx_Ins].
  rewrite length_replicate, length_fmap, length_take, Nat.min_l by lia.
  by rewrite Nat.eqb_refl.
Qed.

Lemma psum_mono cands j k : Forall (fun c => 0 < cc_amount c) cands -> (j <= k)%nat ->
  psum cands j <= psum cands k.
Proof.
  intros Hpos Hjk. unfold psum. replace j with (Nat.min j k) by lia. rewrite <- take_take.
  apply sumZ_take_le, Forall_take, Forall_fmap. eapply list.Forall_impl; [exact Hpos|]. cbn. lia.
Qed.

Section batch.
Context (keys : list bytes) (group : cleanupGroup) (key : bytes) (fee : Z) (sums : list Z)
        (minimum : Z).
Abbreviation cands := (cg_candidates group).
Context (Hkey : keys !! Z.to_nat (cg_keyIndex group) = Some key)
        (Hrange : 0 <= cg_keyIndex group < Z.of_nat (length keys))
        (Hpkh : cg_pkh group = pkhForKey key)
        (Hpos : Forall (fun c => 0 < cc_amount c) cands)
        (Hsame : Forall (fun c => cc_keyIndex c = cg_keyIndex group) cands)
        (Hsums : sums_ok fee cands (sums, minimum)) (Hmin : minimum <> 0) (Hfee : 0 <= fee).

Lemma sums_lookup k : 0 <= k <= Z.of_nat (length cands) ->
  sums !! Z.to_nat k = Some (psum cands (Z.to_nat k)).
Proof.
  intros Hk. destruct Hsums as [Hs _]. cbn [fst] in Hs.
  rewrite Hs, list_lookup_fmap, lookup_seq_lt by lia. done.
Qed.

Lemma above_fee k : minimum <= k <= Z.of_nat (length cands) ->
  fee < psum cands (Z.to_nat k) <= MaxMoneyUnits.
Proof.
  intros Hk. destruct Hsums as (_ & Hmax & [?|[? Hlt]]); [done|]. cbn [snd] in *.
  split; [|apply Hmax; lia]. eapply Z.lt_le_trans; [exact Hlt|]. apply psum_mono; [done|lia].
Qed.

Lemma sign_prefix_Ok k : minimum <= k <= Z.of_nat (length cands) ->
  signCleanupPrefix keys group sums k fee = Ok (cleanup_tx cands key fee k).
Proof.
  intros Hk. pose proof (above_fee k Hk) as [Hlt Hmax].
  assert (2 <= minimum) by (destruct Hsums as (_ & _ & [?|[? _]]); cbn in *; lia).
  assert (Hlen : length sums = S (length cands)).
  { destruct Hsums as [Hs _]. cbn [fst] in Hs. by rewrite Hs, length_fmap, length_seq. }
  unfold signCleanupPrefix. rewrite Hlen, !Z.gtb_ltb, !Z.geb_leb.
  rewrite (proj2 (Z.ltb_ge k 2)), (proj2 (Z.ltb_ge _ k)), (proj2 (Z.leb_gt _ k)),
    (proj2 (Z.ltb_ge _ 0)), (proj2 (Z.leb_gt (Z.of_nat (length keys)) _)) by lia. cbn [orb].
  rewrite sums_lookup by lia. cbn [deref mbind result_bind].
  rewrite (proj2 (Z.leb_gt _ fee)) by lia.
  assert (forallb (fun c => cc_keyIndex c =? cg_keyIndex group) (take (Z.to_nat k) cands) = true)
    as ->.
  { apply forallb_forall. intros c Hc%list_elem_of_In%subseteq_take. apply Z.eqb_eq.
    exact (proj1 (list.Forall_forall _ _) Hsame c Hc). }
  rewrite Hkey. cbn [negb deref mbind result_bind].
  rewrite (proj2 (Z.leb_gt _ 0)), (proj2 (MoneyRange_spec _)) by lia. cbn [negb orb].
  fold (cleanup_unsigned cands (cg_pkh group) fee (Z.to_nat k)). rewrite Hpkh.
  by rewrite cleanup_tx_signed by lia.
Qed.

Lemma cleanup_size_mono j k : minimum <= j <= k -> k <= Z.of_nat (length cands) ->
  Z.of_nat (length cands) < two64 ->
  Z.of_nat (length (Tx_Bytes (cleanup_tx cands key fee j)))
  <= Z.of_nat (length (Tx_Bytes (cleanup_tx cands key fee k))).
Proof.
  intros Hj Hk Hbig.
  assert (2 <= minimum) by (destruct Hsums as (_ & _ & [?|[? _]]); cbn in *; lia).
  rewrite (signed_length _ _ _ (cleanup_tx_signed cands key fee j ltac:(lia))).
  rewrite (signed_length _ _ _ (cleanup_tx_signed cands key fee k ltac:(lia))).
  cbn [cleanup_unsigned tx_Ins tx_Outs tx_LockTag]. rewrite !length_fmap, !length_take.
  rewrite !Nat.min_l by lia. rewrite <- !list_fmap_compose, !fmap_take.
  cbn [flat_map length]. unfold serialize_out. cbn [out_Value out_PubKeyHash].
  rewrite !length_app, !length_le_bytes.
  pose proof (putUvarint_mono (Z.of_nat (Z.to_nat j)) (Z.of_nat (Z.to_nat k)) ltac:(lia) ltac:(lia)).
  pose proof (sum_list_take_mono (fun op => length (op_TxID op) + 102)%nat
    ((in_Prev ∘ (fun c => mkTxIn (cc_outpoint c) [] [])) <$> cands) (Z.to_nat j) (Z.to_nat k)
    ltac:(lia)). lia.
Qed.

(** The search returns the longest batch that fits. *)
Lemma batch_search : Z.of_nat (length cands) < two64 -> 2 <= minimum <= Z.of_nat (length cands) ->
  Z.of_nat (length (Tx_Bytes (cleanup_tx cands key fee minimum))) <= MaxSignedTxBytes ->
  exists n,
    search_batch (Z.to_nat (Z.of_nat (length cands))) keys group sums fee (minimum + 1)
      (Z.of_nat (length cands)) (minimum, cleanup_tx cands key fee minimum)
    = Ok (n, cleanup_tx cands key fee n) /\ minimum <= n <= Z.of_nat (length cands) /\
    Z.of_nat (length (Tx_Bytes (cleanup_tx cands key fee n))) <= MaxSignedTxBytes /\
    (forall j, n < j <= Z.of_nat (length cands) ->
       MaxSignedTxBytes < Z.of_nat (length (Tx_Bytes (cleanup_tx cands key fee j)))).
Proof.
  intros Hbig Hmn Hfit. apply search_batch_spec; try lia; try done.
  - apply sign_prefix_Ok.
  - intros. by apply cleanup_size_mono.
Qed.
End batch.

(** *** The cleanup *)
Definition cleanup_size (cands : list cleanupCandidate) (key : bytes) (fee k : Z) : Z :=
  Z.of_nat (length (Tx_Bytes (cleanup_tx cands key fee k))).

(** The batch [n] of the smallest outputs of key number [k] is the longest that fits. *)
Record cleanup_ok (keys : list bytes) (s : Snapshot) (fee : Z) (excluded : gset OutPoint)
    (pu : PreparedCleanup) (k : Z) (key : bytes) (n : Z) : Prop := {
  cu_key : keys !! Z.to_nat k = Some key;
  cu_cands := merge_sort cleanup_le (clean_of <$> of_key excluded (sp_Outpoints s) k);
  cu_range : 2 <= n <= Z.of_nat (length cu_cands);
  cu_tx : pu_Tx pu = cleanup_tx cu_cands key fee n;
  cu_address : pu_Address pu = addressForKey key;
  cu_fee : pu_FeeUnits pu = fee;
  cu_amount : pu_AmountUnits pu = psum cu_cands (Z.to_nat n) - fee;
  cu_positive : fee < psum cu_cands (Z.to_nat n) <= MaxMoneyUnits;
  cu_selected : pu_SelectedOutpoints pu = cc_outpoint <$> take (Z.to_nat n) cu_cands;
  cu_fits : cleanup_size cu_cands key fee n <= MaxSignedTxBytes;
  cu_longest : forall j, n < j <= Z.of_nat (length cu_cands) ->
    MaxSignedTxBytes < cleanup_size cu_cands key fee j;
}.

Lemma of_key_elem excluded outs k o : o ∈ of_key excluded outs k <->
  sn_KeyIndex o = k /\ o ∈ outs /\ sn_OutpointRef o ∉ excluded.
Proof. unfold of_key. rewrite list_elem_of_filter, elem_of_eligible. done. Qed.

Lemma of_key_length excluded outs k : (length (of_key excluded outs k) <= length outs)%nat.
Proof.
  unfold of_key, eligible. etrans; [apply length_filter|apply length_filter].
Qed.

Lemma selected_group fee (groups : gmap Z cleanupGroup) g others :
  merge_sort group_le (eligible_groups fee (map_to_list groups).*2) = g :: others ->
  exists k, groups !! k = Some g.
Proof.
  intros Eg. assert (Hin : g ∈ merge_sort group_le (eligible_groups fee (map_to_list groups).*2))
    by (rewrite Eg; left).
  rewrite merge_sort_Permutation in Hin.
  apply list_elem_of_In, filter_In, proj1, list_elem_of_In in Hin.
  apply list_elem_of_fmap in Hin as ([k g'] & -> & Hk%elem_of_map_to_list). by exists k.
Qed.

Lemma sorted_group keys s excluded k c : snapshot_wf keys s ->
  c ∈ merge_sort cleanup_le (clean_of <$> of_key excluded (sp_Outpoints s) k) ->
  0 < cc_amount c /\ cc_keyIndex c = k /\
  exists o, c = clean_of o /\ o ∈ sp_Outpoints s /\ sn_OutpointRef o ∉ excluded.
Proof.
  intros [_ Hwf _] Hc. rewrite merge_sort_Permutation in Hc.
  apply list_elem_of_fmap in Hc as (o & -> & (Hk & Ho & Hx)%of_key_elem).
  rewrite list.Forall_forall in Hwf. destruct (Hwf o Ho). cbn. split_and!; [lia|done|by exists o].
Qed.

Lemma buildCleanup_spec keys s fee excluded pu :
  buildCleanupFromSnapshot keys s fee excluded = Ok pu ->
  0 <= fee /\ snapshot_wf keys s /\ exists k key n, cleanup_ok keys s fee excluded pu k key n.
Proof.
  unfold buildCleanupFromSnapshot. intros Hb. apply bind_Ok in Hb as (u & Hval & Hb).
  assert (Hfee : 0 <= fee).
  { unfold validateCleanupValues in Hval. destruct (_ || _) eqn:E; [done|]. bool_prop. lia. }
  split; [done|]. destruct (_ || _) eqn:Eid; [done|]. bool_prop.
  apply bind_Ok in Hb as ([[seen total] groups] & Hf & Hb). destruct (negb _); [done|].
  apply (cleanup_outputs keys excluded _ [] ∅ 0 ∅) in Hf as [Hck Hg];
    [|apply checked_nil|intros k; by rewrite lookup_empty]. cbn [app fst snd] in *.
  assert (Hwf : snapshot_wf keys s) by (destruct Hck; split; [done..|lia]). split; [done|].
  destruct (merge_sort group_le _) as [|g others] eqn:Eg; [done|].
  apply selected_group in Eg as [k Hk]. specialize (Hg k). rewrite Hk in Hg.
  destruct Hg as [Hgk Hrange (key & Hkey & Haddr & Hpkh) Hcands].
  cbn [cg_candidates cg_keyIndex cg_pkh cg_address] in Hb. rewrite Hcands, Hgk, Haddr in Hb.
  set (cands := merge_sort cleanup_le _) in *. set (group := mkGroup _ _ _ _ _) in Hb.
  apply bind_Ok in Hb as ([sums minimum] & Hsums & Hb).
  apply (prefix_steps fee cands [] ([0], 0)) in Hsums; cbn [app] in Hsums.
  2:{ split_and!; [done| |by left]. intros [|k']; cbn; unfold MaxMoneyUnits, UnitsPerCoin; lia. }
  destruct (Z.eqb_spec minimum 0) as [|Hmin]; [done|].
  assert (Hpos : Forall (fun c => 0 < cc_amount c) cands)
    by (apply list.Forall_forall; intros c Hc; by apply (sorted_group keys) in Hc as (? & ? & _)).
  assert (Hsame : Forall (fun c => cc_keyIndex c = k) cands)
    by (apply list.Forall_forall; intros c Hc; by apply (sorted_group keys) in Hc as (? & ? & _)).
  assert (Hlen : Z.of_nat (length cands) <= MaxPaymentInputs).
  { subst cands. rewrite merge_sort_Permutation, length_fmap.
    pose proof (of_key_length excluded (sp_Outpoints s) k).
    unfold MaxPaymentInputs, MaxSnapshotOutpoints in *. lia. }
  assert (Hmn : 2 <= minimum <= Z.of_nat (length cands))
    by (destruct Hsums as (_ & _ & [?|[? _]]); cbn in *; lia).
  rewrite (sign_prefix_Ok keys group key fee sums minimum) in Hb by (done || (cbn; lia)).
  cbn [mbind result_bind] in Hb. rewrite Z.gtb_ltb in Hb.
  destruct (Z.ltb_spec MaxSignedTxBytes (Z.of_nat (length (Tx_Bytes (cleanup_tx
    (cg_candidates group) key fee minimum))))) as [|Hfit]; [done|]. rewrite Z.min_l in Hb by lia.
  destruct (batch_search keys group key fee sums minimum) as (n & Hsearch & Hn & Hnfit & Hlong);
    try done; [cbn; unfold MaxPaymentInputs, two64 in *; lia|].
  change (cg_candidates group) with cands in Hn, Hnfit, Hlong.
  cbn [cg_candidates group] in Hb, Hsearch. rewrite Hsearch in Hb. cbn [mbind result_bind] in Hb.
  rewrite (sums_lookup keys group fee sums minimum Hsums) in Hb by (cbn; lia).
  cbn [deref mbind result_bind] in Hb. destruct (_ || _); [done|]. apply Ok_inj in Hb as <-.
  exists k, key, n. split; fold cands; cbn [pu_Tx pu_Address pu_FeeUnits pu_AmountUnits
    pu_SelectedOutpoints]; try done; [lia| |by rewrite fmap_take].
  apply (above_fee keys group fee sums minimum Hpos Hsums Hmin). cbn. lia.
Qed.

(** *** A cleanup of a chain snapshot is admitted *)
Lemma cleanup_entries c keys s excluded k key cands : snapshot_on c keys s ->
  keys !! Z.to_nat k = Some key ->
  (forall cand, cand ∈ cands ->
     cand ∈ merge_sort cleanup_le (clean_of <$> of_key excluded (sp_Outpoints s) k)) ->
  exists entries, Forall2 (spendable_entry c) (cc_outpoint <$> cands) entries /\
    Forall2 (fun k e => pkhForKey k = ue_PKH e) (replicate (length cands) key) entries /\
    ue_Value <$> entries = cc_amount <$> cands.
Proof.
  intros Hon Hkey. induction cands as [|cand cands IH]; intros Hin.
  { exists []. split_and!; [constructor..|done]. }
  destruct IH as (entries & H1 & H2 & H3); [intros; apply Hin; by right|].
  destruct (sorted_group keys s excluded k cand) as (_ & Hk & o & -> & Ho & _);
    [apply Hon|apply Hin; by left|]. cbn in Hk.
  destruct (sc_live _ _ _ Hon o Ho) as (e & He & Hae & Hpk).
  assert (Hok : cand_ok keys o).
  { destruct (sc_wf _ _ _ Hon) as [_ Hc _]. rewrite list.Forall_forall in Hc. by apply Hc. }
  destruct Hok as [Hown _]. unfold key_owns in Hown. rewrite Hk, Hkey in Hown. bool_prop.
  exists (e :: entries). split_and!; [by constructor| |].
  - cbn [replicate length]. constructor; [congruence|done].
  - cbn. by rewrite H3, Hae.
Qed.

Lemma cleanup_accepted p c keys s fee excluded pu k key n :
  chain_inv p c -> snapshot_on c keys s -> 0 <= fee -> cleanup_ok keys s fee excluded pu k key n ->
  accepted c (pu_Tx pu) fee /\
  tx_Outs (pu_Tx pu) = [mkTxOut (pu_AmountUnits pu) (pkhForKey key)] /\
  in_Prev <$> tx_Ins (pu_Tx pu) = pu_SelectedOutpoints pu /\
  (forall op, op ∈ pu_SelectedOutpoints pu -> op ∉ excluded).
Proof.
  intros Hc Hon Hfee [Hkey cands Hn Htx _ _ Ham Hpos Hsel _ _].
  pose proof (cleanup_tx_signed cands key fee n ltac:(lia)) as Hsign. rewrite <- Htx in Hsign.
  destruct (Sign_verifies _ _ _ Hsign) as (_ & Hto & Hprev).
  assert (Hprevs : in_Prev <$> tx_Ins (cleanup_unsigned cands (pkhForKey key) fee (Z.to_nat n))
                   = cc_outpoint <$> take (Z.to_nat n) cands)
    by (cbn [cleanup_unsigned tx_Ins]; by rewrite <- list_fmap_compose).
  assert (Hin : forall cand, cand ∈ take (Z.to_nat n) cands -> cand ∈ cands)
    by (intros cand; apply subseteq_take).
  destruct (cleanup_entries c keys s excluded k key (take (Z.to_nat n) cands) Hon Hkey Hin)
    as (entries & Hlive & Hown & Hvals).
  assert (Hlen : length (take (Z.to_nat n) cands) = Z.to_nat n)
    by (rewrite length_take; lia). rewrite Hlen in Hown.
  assert (Hsum : sumZ (ue_Value <$> entries) = psum cands (Z.to_nat n))
    by (rewrite Hvals, fmap_take; done).
  split_and!; [| | |].
  - eapply signed_tx_accepted; [done|exact Hsign|..]; rewrite ?Hprevs, ?Hsum; try done;
      cbn [cleanup_unsigned tx_Ins tx_Outs].
    + intros Hn0%fmap_nil_inv. rewrite Hn0 in Hlen. cbn in Hlen. lia.
    + subst cands. rewrite fmap_take. apply take_NoDup.
      rewrite merge_sort_Permutation, <- list_fmap_compose.
      do 2 apply (NoDup_fmap_filter sn_OutpointRef). apply Hon.
    + lia.
    + repeat constructor; cbn; lia.
    + cbn. lia.
  - rewrite Hto, Ham. done.
  - rewrite Hsel, <- Hprevs. exact Hprev.
  - intros op Hop. rewrite Hsel in Hop.
    apply list_elem_of_fmap in Hop as (cand & -> & Hcand%Hin).
    by apply (sorted_group keys) in Hcand as (_ & _ & o & -> & _ & ?); [|apply Hon].
Qed.
End send_proofs.
