(* ===== verification/SnapshotHash.v ===== *)
(** * The encoding behind wallet snapshot hashes

    [snapshotHashPreimage] writes a canonical, prefix-free encoding: two
    well-typed snapshots with the same preimage list the same tip, addresses and
    outputs. *)
From S2P Require Import Prelude Text GoHeap Params Crypto Pow Wire Merkle Address Chain.
From S2P Require Import ChainView WalletView Wallet WalletSnapshot.

(** The widths of the Go types. *)
Record out_typed (o : SnapshotOutpoint) : Prop := {
  ot_txid : length (sn_TxID o) = 32%nat;
  ot_vout : in_u32 (sn_Vout o);
  ot_index : in_u32 (sn_OwnerAddressIndex o);
}.
Record snapshot_typed (s : Snapshot) : Prop := {
  st_hash : length (ts_Hash (sp_Tip s)) = 32%nat;
  st_height : in_i64 (ts_Height (sp_Tip s));
  st_outs : Forall out_typed (sp_Outpoints s);
}.

(** What the preimage commits to of an output. *)
Definition committed (o : SnapshotOutpoint) : bytes * Z * OutPoint * bytes :=
  (sn_Outpoint o, sn_AmountUnits o, sn_OutpointRef o, sn_Address o).

Definition enc_str (v : bytes) : bytes := be_bytes 2 (Z.of_nat (length v)) ++ v.
Definition enc_out (o : SnapshotOutpoint) : bytes :=
  sn_TxID o ++ be_bytes 4 (sn_Vout o) ++ be_bytes 8 (u64 (sn_AmountUnits o))
  ++ be_bytes 4 (sn_OwnerAddressIndex o).

Lemma be_bytes_inj n a b : 0 <= a < 256 ^ Z.of_nat n -> 0 <= b < 256 ^ Z.of_nat n ->
  be_bytes n a = be_bytes n b -> a = b.
Proof.
  intros Ha Hb Heq. apply (f_equal be_val) in Heq. rewrite !be_val_be_bytes in Heq.
  by rewrite !Z.mod_small in Heq.
Qed.

Lemma be_bytes_app_inj n a b r1 r2 : 0 <= a < 256 ^ Z.of_nat n -> 0 <= b < 256 ^ Z.of_nat n ->
  be_bytes n a ++ r1 = be_bytes n b ++ r2 -> a = b /\ r1 = r2.
Proof.
  intros Ha Hb Heq. apply app_inj_1 in Heq as [Heq ?]; [|by rewrite !length_be_bytes].
  split; [by eapply be_bytes_inj|done].
Qed.

Lemma enc_str_inj a b r1 r2 :
  Z.of_nat (length a) <= uint16_max -> Z.of_nat (length b) <= uint16_max ->
  enc_str a ++ r1 = enc_str b ++ r2 -> a = b /\ r1 = r2.
Proof.
  unfold enc_str, uint16_max. intros Ha Hb. rewrite <- !app_assoc.
  intros [Hlen Heq]%be_bytes_app_inj; [|lia..]. apply app_inj_1 in Heq; [done|lia].
Qed.

(** A list of elements with an injective prefix-free encoding, its length known. *)
Lemma flat_map_inj {A B} (enc : A -> bytes) (view : A -> B) (ok : A -> Prop) l1 l2 r1 r2 :
  (forall a b r1 r2, ok a -> ok b -> enc a ++ r1 = enc b ++ r2 -> view a = view b /\ r1 = r2) ->
  Forall ok l1 -> Forall ok l2 -> length l1 = length l2 ->
  flat_map enc l1 ++ r1 = flat_map enc l2 ++ r2 -> view <$> l1 = view <$> l2 /\ r1 = r2.
Proof.
  intros Henc Hl1. revert l2. induction Hl1 as [|a l1 Ha _ IH]; intros [|b l2] Hl2 Hlen; try done.
  cbn. rewrite <- !app_assoc. inv Hl2. intros [Hv Heq]%Henc; [|done..].
  destruct (IH l2) as [Hvs Hr]; [done|cbn in Hlen; lia|done|]. by rewrite Hv, Hvs.
Qed.

Lemma preimage_addresses primary l : forall st st',
  foldM (preimage_address primary) st l = Ok st' ->
  st'.1.1 = st.1.1 ++ flat_map enc_str l /\ Forall (fun a => Z.of_nat (length a) <= uint16_max) l.
Proof.
  induction l as [|a l IH]; intros [[buf n] prev] st' Hf; cbn [foldM] in Hf.
  { apply Ok_inj in Hf as <-. cbn. by rewrite app_nil_r. }
  destruct (preimage_address primary (buf, n, prev) a) as [st1|] eqn:E; [|done].
  apply IH in Hf as [Hb Hl]. unfold preimage_address in E. destruct (_ || _) eqn:Eg; [done|].
  apply Ok_inj in E as <-. cbn [fst snd flat_map] in *. split.
  - rewrite Hb. unfold enc_str at 2. by rewrite <- !app_assoc.
  - constructor; [|done]. apply orb_false_iff in Eg as [Eg _]. unfold len_ok in Eg.
    apply negb_false_iff in Eg. bool_prop. lia.
Qed.

(** What a written output satisfies. *)
Definition out_canonical (addresses : list bytes) (o : SnapshotOutpoint) : Prop :=
  sn_OutpointRef o = mkOutPoint (sn_TxID o) (sn_Vout o) /\
  sn_Outpoint o = outpoint_text (sn_TxID o) (sn_Vout o) /\
  0 < sn_AmountUnits o <= MaxMoneyUnits /\
  addresses !! Z.to_nat (sn_OwnerAddressIndex o) = Some (sn_Address o).

Lemma preimage_outpoints addresses l : forall st st',
  foldM (preimage_outpoint addresses) st l = Ok st' ->
  st'.1 = st.1 ++ flat_map enc_out l /\ Forall (out_canonical addresses) l.
Proof.
  induction l as [|o l IH]; intros [buf prev] st' Hf; cbn [foldM] in Hf.
  { apply Ok_inj in Hf as <-. cbn. by rewrite app_nil_r. }
  destruct (preimage_outpoint addresses (buf, prev) o) as [st1|] eqn:E; [|done].
  apply IH in Hf as [Hb Hl]. unfold preimage_outpoint in E. destruct (_ || _) eqn:Eg; [done|].
  destruct (match prev with Some p => _ | None => _ end); [done|].
  apply Ok_inj in E as <-. cbn [fst snd flat_map] in *. split.
  - rewrite Hb. unfold enc_out at 2. by rewrite <- !app_assoc.
  - constructor; [|done]. bool_prop. rewrite MoneyRange_spec in *. split_and!; done || lia.
Qed.

Lemma enc_out_inj addresses a b r1 r2 :
  out_typed a /\ out_canonical addresses a -> out_typed b /\ out_canonical addresses b ->
  enc_out a ++ r1 = enc_out b ++ r2 -> committed a = committed b /\ r1 = r2.
Proof.
  intros [[Ha1 Ha2 Ha3] (Har & Hat & Ham & Haa)] [[Hb1 Hb2 Hb3] (Hbr & Hbt & Hbm & Hba)].
  unfold enc_out. rewrite <- !app_assoc. intros Heq.
  apply app_inj_1 in Heq as [Htx Heq]; [|congruence].
  unfold in_u32, two32, MaxMoneyUnits, UnitsPerCoin in *.
  apply be_bytes_app_inj in Heq as [Hv Heq]; [|lia..].
  rewrite !u64_small in Heq by (unfold in_u64, two64; lia).
  apply be_bytes_app_inj in Heq as [Hu Heq]; [|lia..].
  apply be_bytes_app_inj in Heq as [Hi Heq]; [|lia..]. split; [|done]. unfold committed.
  rewrite Har, Hbr, Hat, Hbt, Htx, Hv, Hu. rewrite Hi in Haa. congruence.
Qed.

Lemma bs_inj a b : bs a = bs b -> a = b.
Proof.
  intros Heq. unfold bs in Heq. rewrite <- (String.string_of_list_byte_of_string a), Heq.
  apply String.string_of_list_byte_of_string.
Qed.

Definition preimage_head (s : Snapshot) : bytes :=
  bs "btc09-wallet-snapshot-v2" ++ [Byte.x00] ++ enc_str (bs (sp_Network s))
  ++ ts_Hash (sp_Tip s) ++ be_bytes 8 (u64 (ts_Height (sp_Tip s)))
  ++ enc_str (sp_PrimaryAddress s) ++ be_bytes 4 (Z.of_nat (length (sp_Addresses s))).

Lemma snapshotHashPreimage_Ok s b : snapshotHashPreimage s = Ok b ->
  b = preimage_head s ++ flat_map enc_str (sp_Addresses s)
      ++ be_bytes 4 (Z.of_nat (length (sp_Outpoints s))) ++ flat_map enc_out (sp_Outpoints s) /\
  0 <= ts_Height (sp_Tip s) /\ ts_Network (sp_Tip s) = sp_Network s /\
  Z.of_nat (length (bs (sp_Network s))) <= uint16_max /\
  Z.of_nat (length (sp_PrimaryAddress s)) <= uint16_max /\
  Z.of_nat (length (sp_Addresses s)) < two32 /\ Z.of_nat (length (sp_Outpoints s)) < two32 /\
  Forall (fun a => Z.of_nat (length a) <= uint16_max) (sp_Addresses s) /\
  Forall (out_canonical (sp_Addresses s)) (sp_Outpoints s).
Proof.
  unfold snapshotHashPreimage. destruct (_ || _) eqn:Eg; [done|]. intros Hb.
  apply bind_Ok in Hb as ([[buf n] prev] & Ha & Hb). destruct (negb (n =? 1)); [done|].
  apply bind_Ok in Hb as ([buf2 prev2] & Ho & Hb). apply Ok_inj in Hb as <-.
  apply preimage_addresses in Ha as [Hbuf Ha]. apply preimage_outpoints in Ho as [Hbuf2 Ho].
  cbn [fst] in Hbuf, Hbuf2. repeat (apply orb_false_iff in Eg as [Eg ?]).
  assert (Hp : len_ok (sp_PrimaryAddress s) = true) by (by apply negb_false_iff).
  unfold len_ok in Hp. bool_prop. split_and!; try done; try lia.
  rewrite Hbuf2, Hbuf. unfold preimage_head, enc_str at 3 4. by rewrite <- !app_assoc.
Qed.

(** Equal preimages come from snapshots that agree on everything committed. *)
Lemma preimage_injective s1 s2 b :
  snapshot_typed s1 -> snapshot_typed s2 ->
  snapshotHashPreimage s1 = Ok b -> snapshotHashPreimage s2 = Ok b ->
  sp_Network s1 = sp_Network s2 /\ sp_Tip s1 = sp_Tip s2 /\
  sp_PrimaryAddress s1 = sp_PrimaryAddress s2 /\ sp_Addresses s1 = sp_Addresses s2 /\
  committed <$> sp_Outpoints s1 = committed <$> sp_Outpoints s2.
Proof.
  intros [Hh1 Ht1 Ho1] [Hh2 Ht2 Ho2] H1 H2.
  apply snapshotHashPreimage_Ok in H1 as (-> & Hn1 & Htn1 & Hl1 & Hp1 & Hal1 & Hol1 & Ha1 & Hc1).
  apply snapshotHashPreimage_Ok in H2 as (Heq & Hn2 & Htn2 & Hl2 & Hp2 & Hal2 & Hol2 & Ha2 & Hc2).
  unfold preimage_head, in_i64, two63, two32 in *. rewrite <- !app_assoc in Heq.
  apply app_inv_head in Heq. apply app_inv_head in Heq.
  apply enc_str_inj in Heq as [Hnet%bs_inj Heq]; [|done..].
  apply app_inj_1 in Heq as [Hhash Heq]; [|congruence].
  rewrite !u64_small in Heq by (unfold in_u64, two64; lia).
  apply be_bytes_app_inj in Heq as [Hheight Heq]; [|lia..].
  apply enc_str_inj in Heq as [Hprim Heq]; [|done..].
  apply be_bytes_app_inj in Heq as [Hna Heq]; [|lia..].
  apply (flat_map_inj enc_str id (fun a => Z.of_nat (length a) <= uint16_max)) in Heq
    as [Haddr Heq]; [|intros; by apply enc_str_inj|done|done|lia]. rewrite !list_fmap_id in Haddr.
  apply be_bytes_app_inj in Heq as [Hno Heq]; [|lia..].
  rewrite <- (app_nil_r (flat_map enc_out (sp_Outpoints s1))),
    <- (app_nil_r (flat_map enc_out (sp_Outpoints s2))) in Heq.
  rewrite <- Haddr in Hc2.
  apply (flat_map_inj enc_out committed
    (fun o => out_typed o /\ out_canonical (sp_Addresses s1) o)) in Heq as [Houts _];
    [|apply enc_out_inj|by apply Forall_and|by apply Forall_and|lia].
  split_and!; try done. destruct (sp_Tip s1), (sp_Tip s2); cbn in *. congruence.
Qed.
