(* ===== verification/Supply.v ===== *)
(** * Supply reporting (explorer/explorer.go)

    The explorer computes the issued supply by halving periods instead of by
    block.  The theorems show that this closed form is the sum of the consensus
    subsidies, that it stays within [int64] and the money range, and what the
    final issue is. *)
From stdpp Require Import pretty.
From S2P Require Import Prelude Params.

(** The loop over the halvings; [fuel] is [core.MaxHalvings - halving]. *)
Fixpoint subsidy_loop (fuel : nat) (halving height total : Z) : Z :=
  match fuel with
  | O => total
  | S fuel' =>
      let subsidy := Z.shiftr InitialRewardUnits halving in
      if subsidy =? 0 then total else
      let start := halving * HalvingInterval in
      if height <? start then total else
      let end_ := start + HalvingInterval - 1 in
      let end_ := if height <? end_ then height else end_ in
      subsidy_loop fuel' (halving + 1) height (total + (end_ - start + 1) * subsidy)
  end.

Definition totalSubsidyThrough (height : Z) : Z :=
  if height <? 0 then 0 else subsidy_loop (Z.to_nat MaxHalvings) 0 height 0.

Fixpoint zero_height_loop (fuel : nat) (halving : Z) : Z :=
  match fuel with
  | O => MaxHalvings * HalvingInterval
  | S fuel' =>
      let height := halving * HalvingInterval in
      if SubsidyAt height =? 0 then height else zero_height_loop fuel' (halving + 1)
  end.

Definition firstZeroSubsidyHeight : Z := zero_height_loop (Z.to_nat MaxHalvings) 0.

Definition nextHalvingHeight (tip : Z) : Z :=
  if tip >=? firstZeroSubsidyHeight then 0
  else (Z.quot tip HalvingInterval + 1) * HalvingInterval.

Definition nonNegativeDelta (target current : Z) : Z :=
  if target <=? current then 0 else target - current.

Definition nominalMaxSupplyUnits : Z := 21000000 * UnitsPerCoin.

(** [%d.%08d] of quotient and remainder. *)
Fixpoint zero_pad (n : nat) (s : string) : string :=
  match n with O => s | S n' => zero_pad n' (String.append "0" s) end.
Definition format_08d (r : Z) : string :=
  let digits := pretty (Z.to_N (Z.abs r)) in
  let width := if r <? 0 then 7%nat else 8%nat in
  let padded := zero_pad (width - String.length digits) digits in
  if r <? 0 then String.append "-" padded else padded.
Definition coins (u : Z) : string :=
  String.append (pretty (Z.quot u UnitsPerCoin))
    (String.append "." (format_08d (Z.rem u UnitsPerCoin))).

Definition CoinName : string := "Bitcoin 09".
Definition Ticker : string := "09C".

Record supplyData := mkSupply {
  sd_Coin : string; sd_Ticker : string; sd_Height : Z;
  sd_CirculatingSupply : string; sd_CirculatingSupplyUnits : Z;
  sd_TotalSubsidyIssued : string; sd_TotalSubsidyIssuedUnits : Z;
  sd_BurnedGenesisSupply : string; sd_BurnedGenesisSupplyUnits : Z;
  sd_MaxSupply : string; sd_MaxSupplyUnits : Z;
  sd_MaximumIssuedSupply : string; sd_MaximumIssuedSupplyUnits : Z;
  sd_MaximumCirculatingSupply : string; sd_MaximumCirculatingSupplyUnits : Z;
  sd_BlockReward : string; sd_BlockRewardUnits : Z;
  sd_NextHalvingHeight : Z; sd_BlocksToHalving : Z;
  sd_ZeroSubsidyHeight : Z; sd_BlocksToZeroSubsidy : Z;
  sd_TargetBlockSeconds : Z; sd_HalvingInterval : Z; sd_GenesisRewardBurned : bool }.

Definition supplyAt (p : Params) (tip : Z) : supplyData :=
  let totalIssued := totalSubsidyThrough tip in
  let burnedGenesis := SubsidyAt 0 in
  let circulating := totalIssued - burnedGenesis in
  let circulating := if circulating <? 0 then 0 else circulating in
  let zeroHeight := firstZeroSubsidyHeight in
  let maxIssued := totalSubsidyThrough (zeroHeight - 1) in
  let maxCirculating := maxIssued - burnedGenesis in
  let maxCirculating := if maxCirculating <? 0 then 0 else maxCirculating in
  let halvingHeight := nextHalvingHeight tip in
  mkSupply CoinName Ticker tip (coins circulating) circulating (coins totalIssued) totalIssued
    (coins burnedGenesis) burnedGenesis (coins nominalMaxSupplyUnits) nominalMaxSupplyUnits
    (coins maxIssued) maxIssued (coins maxCirculating) maxCirculating
    (coins (SubsidyAt (tip + 1))) (SubsidyAt (tip + 1))
    halvingHeight (nonNegativeDelta halvingHeight tip)
    zeroHeight (nonNegativeDelta zeroHeight tip)
    (TargetBlockTime p) HalvingInterval true.

(** ** The closed form is the sum *)
Lemma halving_subsidy_zero k j : 0 <= k <= j -> halving_subsidy k = 0 -> halving_subsidy j = 0.
Proof.
  intros Hkj. unfold halving_subsidy. rewrite !Z.shiftr_div_pow2 by lia. intros Hk.
  assert (Hp : 2 ^ k <= 2 ^ j) by (apply Z.pow_le_mono_r; lia).
  pose proof (Z.pow_pos_nonneg 2 k ltac:(lia) ltac:(lia)).
  apply Z.div_small_iff in Hk; [|lia]. apply Z.div_small.
  unfold InitialRewardUnits, UnitsPerCoin in *. lia.
Qed.

Definition period_issue (n k : Z) : Z := period_count k n * halving_subsidy k.

Lemma subsidy_loop_sum fuel : forall k height total,
  0 <= k -> 0 <= height ->
  subsidy_loop fuel k height total
  = total + sumZ (map (period_issue (height + 1)) (seqZ k (Z.of_nat fuel))).
Proof.
  induction fuel as [|fuel IH]; intros k height total Hk Hh;
    [rewrite seqZ_nil by lia; cbn [subsidy_loop map sumZ]; lia|].
  rewrite seqZ_cons by lia. replace (Z.pred (Z.of_nat (S fuel))) with (Z.of_nat fuel) by lia.
  cbn [subsidy_loop map sumZ]. fold (halving_subsidy k).
  destruct (Z.eqb_spec (halving_subsidy k) 0) as [E|E].
  { assert (sumZ (map (period_issue (height + 1)) (seqZ (Z.succ k) (Z.of_nat fuel))) = 0) as ->.
    { apply sumZ_map_zero. intros j [Hj _]%elem_of_seqZ. unfold period_issue.
      rewrite (halving_subsidy_zero k j) by lia. lia. }
    unfold period_issue. rewrite E. lia. }
  destruct (Z.ltb_spec height (k * HalvingInterval)) as [Hs|Hs].
  { assert (forall j, k <= j -> period_count j (height + 1) = 0) as Hz.
    { intros j Hj. unfold period_count, HalvingInterval in *. lia. }
    assert (sumZ (map (period_issue (height + 1)) (seqZ (Z.succ k) (Z.of_nat fuel))) = 0) as ->.
    { apply sumZ_map_zero. intros j [Hj _]%elem_of_seqZ. unfold period_issue.
      rewrite Hz by lia. lia. }
    unfold period_issue. rewrite Hz by lia. lia. }
  rewrite IH by lia. unfold Z.succ.
  assert ((if height <? k * HalvingInterval + HalvingInterval - 1 then height
           else k * HalvingInterval + HalvingInterval - 1) - k * HalvingInterval + 1
          = period_count k (height + 1)) as ->.
  { unfold period_count, HalvingInterval in *.
    destruct (Z.ltb_spec height (k * 210000 + 210000 - 1)); lia. }
  unfold period_issue at 2. lia.
Qed.

Lemma totalSubsidyThrough_issued height :
  -1 <= height -> totalSubsidyThrough height = issued_before (Z.to_nat (height + 1)).
Proof.
  intros Hh. unfold totalSubsidyThrough.
  destruct (Z.ltb_spec height 0); [by replace height with (-1) by lia|].
  rewrite subsidy_loop_sum, issued_before_by_period, Z2Nat.id, Z2Nat.id
    by (unfold MaxHalvings; lia). done.
Qed.

(** The issued supply the explorer reports for any tip
    height is exactly the sum of the consensus subsidies of the heights
    [0..tip]; it never exceeds the nominal maximum, and the circulating figure is
    that sum without the burned genesis reward. *)
Theorem supply_report_correct p tip :
  0 <= tip ->
  sd_TotalSubsidyIssuedUnits (supplyAt p tip) = issued_before (Z.to_nat (tip + 1)) /\
  sd_TotalSubsidyIssuedUnits (supplyAt p tip) <= sd_MaxSupplyUnits (supplyAt p tip) /\
  sd_CirculatingSupplyUnits (supplyAt p tip)
    = issued_before (Z.to_nat (tip + 1)) - SubsidyAt 0.
Proof.
  intros Ht. unfold supplyAt. cbn [sd_TotalSubsidyIssuedUnits sd_MaxSupplyUnits
    sd_CirculatingSupplyUnits]. rewrite totalSubsidyThrough_issued by lia.
  pose proof (issued_before_money (Z.to_nat (tip + 1))).
  pose proof (issued_before_mono 1 (Z.to_nat (tip + 1)) ltac:(lia)) as Hm.
  change (issued_before 1) with (SubsidyAt 0) in Hm.
  destruct (Z.ltb_spec (issued_before (Z.to_nat (tip + 1)) - SubsidyAt 0) 0); [lia|].
  unfold nominalMaxSupplyUnits, MaxMoneyUnits in *. split_and!; lia.
Qed.

Lemma supply_report_correct_witness :
  sd_TotalSubsidyIssuedUnits (supplyAt MainNet 209999) = 210000 * InitialRewardUnits /\
  sd_TotalSubsidyIssuedUnits (supplyAt MainNet 209999)
    <= sd_MaxSupplyUnits (supplyAt MainNet 209999).
Proof.
  split; [vm_compute; reflexivity|].
  apply (supply_report_correct MainNet 209999). lia.
Defined.

(** The subsidy schedule ends at height 6,930,000 and mints
    20,999,999.9769 coins in total: the sum of all block subsidies never exceeds
    that figure, reaches it at the end of the schedule, and the explorer's
    maximum-issued field is that figure. *)
Theorem total_issue_exact :
  firstZeroSubsidyHeight = 6930000 /\
  (forall n, issued_before n <= 2099999997690000) /\
  (forall n, 6930000 <= Z.of_nat n -> issued_before n = 2099999997690000) /\
  (forall p tip, sd_MaximumIssuedSupplyUnits (supplyAt p tip) = 2099999997690000).
Proof.
  assert (Hz : firstZeroSubsidyHeight = 6930000) by (vm_compute; reflexivity).
  assert (Hend : totalSubsidyThrough (6930000 - 1) = 2099999997690000)
    by (vm_compute; reflexivity).
  split_and!; [done|apply issued_before_le_max| |].
  - intros n Hn. apply Z.le_antisymm; [apply issued_before_le_max|].
    rewrite totalSubsidyThrough_issued in Hend by lia. rewrite <- Hend.
    apply issued_before_mono. lia.
  - intros p tip. unfold supplyAt. cbn [sd_MaximumIssuedSupplyUnits]. by rewrite Hz.
Qed.
