(* ===== verification/Miner.v ===== *)
(** * Block templates and mining (core/miner.go)

    [BuildBlockTemplateWithCoinbase] selects mempool transactions in id order
    under the size and money limits and assembles a block around a coinbase built
    by the caller.  The goroutines of [Mine] search disjoint nonce classes; the
    model is the search of one worker.  The theorems show that a template is a
    block the chain will connect. *)
From S2P Require Import Prelude Params Crypto Pow Wire Merkle Chain Ledger Sanity ChainInv ChainView.

Section miner.
Context `{Crypto}.

(** A [CoinbaseBuilder]; [None] is a nil transaction. *)
Abbreviation CoinbaseBuilder := (Z -> Z -> option Tx).

Definition encodedTemplateTxSize (size : Z) : Z :=
  Z.of_nat (length (putUvarint size)) + size.

Definition template_output (total : Z) (o : TxOut) : result Z :=
  if (out_Value o <=? 0) || negb (MoneyRange (out_Value o))
  then Err (EText "coinbase output is out of range")
  else match checkedAddMoney total (out_Value o) with
       | None => Err (EText "coinbase output total is out of range")
       | Some t => Ok t
       end.

Definition validateTemplateCoinbase (coinbase : option Tx) (height reward : Z) : result Tx :=
  match coinbase with
  | None => Err (EText "coinbase builder returned a non-coinbase transaction")
  | Some cb =>
      if negb (IsCoinbase cb)
      then Err (EText "coinbase builder returned a non-coinbase transaction") else
      if (reward <=? 0) || negb (MoneyRange reward)
      then Err (EText "coinbase reward is out of range") else
      if negb (match tx_Ins cb with
               | [i] => bool_decide (in_PubKey i = putUvarint height)
                        && (length (in_Sig i) =? 0)%nat
               | _ => false
               end)
      then Err (EText "coinbase does not commit to the requested height") else
      if (length (tx_Outs cb) =? 0)%nat || (256 <? Z.of_nat (length (tx_LockTag cb)))
      then Err (EText "coinbase output or tag shape is invalid") else
      total ← foldM template_output 0 (tx_Outs cb);
      if negb (total =? reward)
      then Err (EText "coinbase outputs do not exactly equal the requested reward")
      else Ok cb
  end.

Definition feeOf (c : Chain) (tx : Tx) (height : Z) : result Z :=
  checkTxLocked (c_params c) (c_utxo c) tx height.

(** The selection loop: [selected] is [txs[1:]], [encoded] is
    [encodedTxBytes]; running out of space ends the loop, an unusable
    transaction is skipped. *)
Fixpoint template_loop (c : Chain) (height subsidy : Z) (pool : list Tx)
    (selected : list Tx) (encoded fees : Z) : list Tx * Z * Z :=
  match pool with
  | [] => (selected, encoded, fees)
  | tx :: rest =>
      let next := encoded + encodedTemplateTxSize (Z.of_nat (length (Tx_Bytes tx))) in
      let count := Z.of_nat (S (length selected)) + 1 in
      let nextSize := 88 + Z.of_nat (length (putUvarint count)) + next in
      if nextSize >? MaxBlockBytes then (selected, encoded, fees) else
      match feeOf c tx height with
      | Err _ => template_loop c height subsidy rest selected encoded fees
      | Ok fee =>
          match checkedAddMoney fees fee with
          | None => template_loop c height subsidy rest selected encoded fees
          | Some nextFees =>
              match checkedAddMoney subsidy nextFees with
              | None => template_loop c height subsidy rest selected encoded fees
              | Some _ =>
                  template_loop c height subsidy rest (selected ++ [tx]) next nextFees
              end
          end
      end
  end.

Definition ErrCoinbaseShapeChanged : error :=
  EText "coinbase shape changed while building template".

Definition BuildBlockTemplateWithCoinbase (c : option Chain) (build : option CoinbaseBuilder)
    (now : Z) : result Block :=
  c ← match c with Some c => Ok c | None => Err (EText "nil chain") end;
  build ← match build with Some b => Ok b | None => Err (EText "nil coinbase builder") end;
  let height := bi_height (c_tip c) + 1 in
  let subsidy := SubsidyAt height in
  preliminary ← validateTemplateCoinbase (build height subsidy) height subsidy;
  let preliminaryBytes := Tx_Bytes preliminary in
  let '(selected, _, fees) :=
    template_loop c height subsidy (MempoolTxs c) []
      (encodedTemplateTxSize (Z.of_nat (length preliminaryBytes))) 0 in
  reward ← match checkedAddMoney subsidy fees with
           | Some r => Ok r
           | None => Err (EText "template reward is out of range")
           end;
  coinbase ← validateTemplateCoinbase (build height reward) height reward;
  if negb (length (Tx_Bytes coinbase) =? length preliminaryBytes)%nat
  then Err ErrCoinbaseShapeChanged else
  bits ← NextBitsForTip c;
  let txs := coinbase :: selected in
  let blk := mkBlock (mkHeader 1 (bi_id (c_tip c)) (MerkleRoot txs) now bits 0) txs in
  if Z.of_nat (length (Block_Bytes blk)) >? MaxBlockBytes
  then Err (EText "template exceeds maximum block size") else Ok blk.

Definition BuildBlockTemplate (c : option Chain) (rewardPKH tag : bytes) (now : Z)
    : option Block :=
  match BuildBlockTemplateWithCoinbase c
          (Some (fun height reward => Some (NewCoinbase height reward rewardPKH tag))) now with
  | Ok b => Some b
  | Err _ => None
  end.

(** One worker of [Mine]: nonces [start, start + workers, ...] (modulo 2^64)
    until the hash meets the target or the worker is cancelled, here after
    [fuel] attempts. *)
Definition with_nonce (h : Header) (n : Z) : Header :=
  mkHeader (hdr_Version h) (hdr_PrevBlock h) (hdr_MerkleRoot h) (hdr_Time h) (hdr_Bits h) n.

Fixpoint mine_worker (fuel : nat) (p : Params) (template : Block) (workers n : Z)
    : option Block :=
  match fuel with
  | O => None
  | S fuel' =>
      let hdr := with_nonce (blk_Header template) n in
      if HashToBig (PowHash (Header_Bytes hdr) p) <=? CompactToTarget (hdr_Bits hdr)
      then Some (mkBlock hdr (blk_Txs template))
      else mine_worker fuel' p template workers (u64 (n + workers))
  end.

(** ** Coinbases *)
Lemma template_outputs_Ok outs : forall s s', 0 <= s <= MaxMoneyUnits ->
  foldM template_output s outs = Ok s' ->
  Forall (fun o => 0 < out_Value o <= MaxMoneyUnits) outs /\
  s' = s + sumZ (out_Value <$> outs) /\ s' <= MaxMoneyUnits.
Proof.
  induction outs as [|o outs IH]; intros s s' Hs Hf; cbn [foldM] in Hf.
  { simplify_eq. cbn. split_and!; [constructor|lia..]. }
  unfold template_output at 1 in Hf. step_if Hf; [done|]. bool_prop.
  destruct (checkedAddMoney s (out_Value o)) as [s1|] eqn:Ea; [|done].
  apply checkedAddMoney_Some in Ea as (-> & ? & ? & ?).
  apply IH in Hf as (? & -> & ?); [|lia]. rewrite fmap_cons. cbn [sumZ].
  split_and!; [constructor; [lia|done]|lia|lia].
Qed.

Lemma validateTemplateCoinbase_Ok cb0 height reward cb :
  validateTemplateCoinbase cb0 height reward = Ok cb ->
  cb0 = Some cb /\ IsCoinbase cb = true /\ tx_shape cb /\
  sumZ (out_Value <$> tx_Outs cb) = reward /\ 0 < reward <= MaxMoneyUnits.
Proof.
  assert (Hm : 0 <= 0 <= MaxMoneyUnits) by (unfold MaxMoneyUnits, UnitsPerCoin; lia).
  unfold validateTemplateCoinbase. destruct cb0 as [cb'|]; [|done]. intros Hv.
  destruct (IsCoinbase cb') eqn:Ecb; [|done]. cbn [negb] in Hv.
  step_if Hv; [done|]. step_if Hv; [done|]. step_if Hv; [done|].
  apply bind_Ok in Hv as (total & Ht & Hv). step_if Hv; [done|]. res_simpl. bool_prop.
  apply template_outputs_Ok in Ht as (Hpos & -> & Hle); [|done].
  rename select (MoneyRange _ = true) into Hmr. apply MoneyRange_spec in Hmr.
  split_and!; try done; try lia. unfold tx_shape, outs_ok.
  split_and!; [|by apply nonempty_eqb|done|lia].
  intros Hnil. rewrite Hnil in *. done.
Qed.

(** ** Selection *)
Definition fee_step (p : Params) (u : utxo_map) (height : Z) (fees : Z) (tx : Tx) : result Z :=
  fee ← checkTxLocked p u tx height;
  match checkedAddMoney fees fee with
  | Some s => Ok s
  | None => Err (moneyRangeError "aggregate block fees")
  end.

Lemma template_loop_selects c height subsidy pool : forall sel enc fees sel' enc' fees',
  template_loop c height subsidy pool sel enc fees = (sel', enc', fees') ->
  exists ext, sel' = sel ++ ext /\ ext `sublist_of` pool /\
    foldM (fee_step (c_params c) (c_utxo c) height) fees ext = Ok fees'.
Proof.
  induction pool as [|tx pool IH]; intros sel enc fees sel' enc' fees' Hl; cbn [template_loop] in Hl.
  { simplify_eq. exists []. split_and!; [by rewrite app_nil_r|constructor|done]. }
  destruct (_ >? _).
  { simplify_eq. exists []. split_and!; [by rewrite app_nil_r|apply sublist_nil_l|done]. }
  assert (Hskip : forall sel0 enc0 fees0,
    template_loop c height subsidy pool sel0 enc0 fees0 = (sel', enc', fees') ->
    exists ext, sel' = sel0 ++ ext /\ ext `sublist_of` tx :: pool /\
      foldM (fee_step (c_params c) (c_utxo c) height) fees0 ext = Ok fees').
  { intros ? ? ? (ext & ? & ? & ?)%IH. exists ext. split_and!; try done. by apply sublist_cons. }
  destruct (feeOf c tx height) as [fee|] eqn:Ef; [|by eapply Hskip].
  destruct (checkedAddMoney fees fee) as [nf|] eqn:Ea; [|by eapply Hskip].
  destruct (checkedAddMoney subsidy nf); [|by eapply Hskip].
  apply IH in Hl as (ext & -> & Hsub & Hfold). exists (tx :: ext).
  split_and!; [by rewrite <- app_assoc|by apply sublist_skip|].
  cbn [foldM]. unfold fee_step at 1. unfold feeOf in Ef. rewrite Ef. cbn. by rewrite Ea.
Qed.

(** ** Independent transactions connect in any order *)
Lemma check_inputs_ext p u1 u2 d h ins st :
  (forall i, i ∈ ins -> u1 !! in_Prev i = u2 !! in_Prev i) ->
  foldM (check_input p u1 d h) st ins = foldM (check_input p u2 d h) st ins.
Proof.
  revert st; induction ins as [|i ins IH]; intros [seen s] Hu; cbn [foldM]; [done|].
  assert (check_input p u1 d h (seen, s) i = check_input p u2 d h (seen, s) i) as ->.
  { unfold check_input. by rewrite Hu by left. }
  destruct (check_input p u2 d h (seen, s) i); [|done]. apply IH. intros j Hj. apply Hu. by right.
Qed.

Lemma checkTx_ext p u1 u2 tx h :
  (forall op, op ∈ tx_prevs tx -> u1 !! op = u2 !! op) ->
  checkTxLocked p u1 tx h = checkTxLocked p u2 tx h.
Proof.
  intros Hu. unfold checkTxLocked. rewrite (check_inputs_ext p u1 u2); [done|].
  intros i Hi. apply Hu. by apply list_elem_of_fmap_2.
Qed.

Lemma create_lookup_ne id h cb l (u : utxo_map) op :
  (forall k, op <> mkOutPoint id k) ->
  fold_left (fun m io => <[mkOutPoint id (u32 (Z.of_nat io.1)) := out_entry h cb io.2]> m) l u !! op
  = u !! op.
Proof.
  intros Hne. revert u; induction l as [|io l IH]; intros u; cbn; [done|].
  rewrite IH. by apply lookup_insert_ne.
Qed.

Lemma spend_lookup_ne ins (u : utxo_map) op :
  op ∉ in_Prev <$> ins -> fold_left (fun m i => delete (in_Prev i) m) ins u !! op = u !! op.
Proof.
  revert u; induction ins as [|i ins IH]; intros u Hne; cbn; [done|].
  rewrite fmap_cons, not_elem_of_cons in Hne. destruct Hne as [? ?].
  rewrite IH by done. by apply lookup_delete_ne.
Qed.

Lemma checkTx_inputs_exist p u tx h fee op :
  checkTxLocked p u tx h = Ok fee -> op ∈ tx_prevs tx -> is_Some (u !! op).
Proof.
  intros (es & [_ _ _ Hin _ _ _] & _)%checkTxLocked_spec (i & -> & Hi)%list_elem_of_fmap.
  apply list_elem_of_lookup in Hi as [k Hk].
  destruct (Forall2_lookup_l _ _ _ _ _ Hin Hk) as (e & _ & [He _ _ _ _ _]). eauto.
Qed.

Lemma apply_independent p h u0 txs : forall st fees fees',
  foldM (fee_step p u0 h) fees txs = Ok fees' ->
  (forall t op, t ∈ txs -> op ∈ tx_prevs t -> st.1 !! op = u0 !! op) ->
  NoDup (flat_map tx_prevs txs) ->
  (forall t k, t ∈ txs -> u0 !! mkOutPoint (Tx_ID t) k = None) ->
  exists st', apply_txs p h txs st fees = (st', Ok fees').
Proof.
  induction txs as [|tx txs IH]; intros st fees fees' Hf Hst Hnd Hfresh; cbn [foldM] in Hf.
  { simplify_eq. by eexists. }
  unfold fee_step at 1 in Hf. cbn [apply_txs].
  rewrite (checkTx_ext p st.1 u0 tx h) by (intros op; apply Hst; by left).
  destruct (checkTxLocked p u0 tx h) as [fee|] eqn:Ec; cbn [mbind result_bind] in Hf; [|done].
  destruct (checkedAddMoney fees fee) as [s|]; [|done].
  cbn [flat_map] in Hnd. apply NoDup_app in Hnd as (_ & Hdis & Hnd).
  eapply IH; [exact Hf| |done|intros t k Ht; apply Hfresh; by right].
  intros t op Ht Hop. rewrite spendAndCreateWithUndo_fst. unfold spendAndCreate.
  assert (Hex : is_Some (u0 !! op)).
  { assert (Hok : exists f f', fee_step p u0 h f t = Ok f').
    { apply foldM_Forall in Hf. rewrite list.Forall_forall in Hf. by apply Hf. }
    destruct Hok as (f & f' & Hok). unfold fee_step in Hok. res_simpl.
    by eapply checkTx_inputs_exist. }
  rewrite create_lookup_ne, spend_lookup_ne.
  - apply (Hst t op); [by right|done].
  - intros Hin. apply (Hdis op Hin). apply list_elem_of_In, in_flat_map. exists t.
    split; by apply list_elem_of_In.
  - intros k ->. rewrite Hfresh in Hex by left. by destruct Hex.
Qed.

(** ** The mempool as a list *)
Lemma MempoolTxs_perm c : MempoolTxs c ≡ₚ snd <$> map_to_list (c_mempool c).
Proof. apply merge_sort_Permutation. Qed.

Lemma elem_of_MempoolTxs c t : t ∈ MempoolTxs c <-> exists id, c_mempool c !! id = Some t.
Proof.
  rewrite MempoolTxs_perm, list_elem_of_fmap. split.
  - intros ([id t'] & -> & Hin%elem_of_map_to_list). eauto.
  - intros [id Hid]. exists (id, t). split; [done|]. by apply elem_of_map_to_list.
Qed.

Section connects.
Context (p : Params) (c : Chain) (Hpow : pow_params_ok p) (Hc : chain_inv p c).

Lemma MempoolTxs_ids : NoDup (Tx_ID <$> MempoolTxs c).
Proof.
  rewrite MempoolTxs_perm, <- list_fmap_compose.
  assert (Heq : (Tx_ID ∘ snd) <$> map_to_list (c_mempool c) = fst <$> map_to_list (c_mempool c)).
  { apply list_fmap_ext. intros _ [id t] Hin%list_elem_of_lookup_2%elem_of_map_to_list. cbn.
    by apply (ci_mempool _ _ Hc) in Hin as (? & _). }
  rewrite Heq. apply NoDup_fst_map_to_list.
Qed.

Lemma selected_prevs l : l `sublist_of` MempoolTxs c -> NoDup (flat_map tx_prevs l).
Proof.
  intros Hsub. assert (flat_map tx_prevs l = l ≫= tx_prevs) as ->.
  { clear. induction l as [|a l IH]; [done|]. cbn. by rewrite IH. }
  assert (Hin : forall t, t ∈ l -> c_mempool c !! Tx_ID t = Some t).
  { intros t Ht. eapply elem_of_sublist in Ht; [|exact Hsub].
    apply elem_of_MempoolTxs in Ht as [id Hid].
    destruct (ci_mempool _ _ Hc _ _ Hid) as (<- & _). done. }
  apply NoDup_bind.
  - intros t1 t2 op H1 H2 (i1 & -> & Hi1)%list_elem_of_fmap (i2 & He & Hi2)%list_elem_of_fmap.
    destruct (decide (Tx_ID t1 = Tx_ID t2)) as [E|Hne].
    + pose proof (Hin _ H1). pose proof (Hin _ H2). congruence.
    + by destruct (ci_conflicts _ _ Hc _ _ _ _ i1 i2 (Hin _ H1) (Hin _ H2) Hne Hi1 Hi2).
  - intros t Ht. destruct (ci_mempool _ _ Hc _ _ (Hin _ Ht)) as (_ & _ & fee & Hck).
    apply checkTxLocked_spec in Hck as (es & [_ _ ? _ _ _ _] & _). done.
  - eapply NoDup_fmap_1, sublist_NoDup; [apply MempoolTxs_ids|].
    by apply fmap_sublist.
Qed.

(** No unspent output carries the id of a mempool transaction, and the
    coinbase of the template has an id of its own. *)
Definition template_fresh (blk : Block) : Prop :=
  map_Forall (fun op _ => c_mempool c !! op_TxID op = None) (c_utxo c) /\
  forall cb, head (blk_Txs blk) = Some cb -> c_mempool c !! Tx_ID cb = None.

Lemma mempool_shape t : t ∈ MempoolTxs c -> IsCoinbase t = false /\ tx_shape t.
Proof.
  intros [id Hid]%elem_of_MempoolTxs.
  destruct (ci_mempool _ _ Hc _ _ Hid) as (_ & Hcb & fee & Hck).
  apply checkTxLocked_spec in Hck as (es & [Hi Ho _ _ Hs Hov Hb] & _).
  split; [done|]. split_and!; [done..|]. split; [done|lia].
Qed.

Lemma template_spec build now blk :
  template_fresh blk ->
  BuildBlockTemplateWithCoinbase (Some c) (Some build) now = Ok blk ->
  checkBlockSanity blk = Ok tt /\
  Z.of_nat (length (Block_Bytes blk)) <= MaxBlockBytes /\
  hdr_PrevBlock (blk_Header blk) = bi_id (c_tip c) /\
  NextBitsForTip c = Ok (hdr_Bits (blk_Header blk)) /\
  MerkleRoot (blk_Txs blk) = hdr_MerkleRoot (blk_Header blk) /\
  exists u', validateAndApplyLocked p blk (bi_height (c_tip c) + 1) (c_utxo c) = (u', Ok tt).
Proof.
  intros [Hfr Hcbid] Hb. unfold BuildBlockTemplateWithCoinbase in Hb. cbn [mbind result_bind] in Hb.
  apply bind_Ok in Hb as (pre & Hpre & Hb).
  destruct (template_loop _ _ _ _ _ _ _) as [[sel enc] fees] eqn:El.
  apply template_loop_selects in El as (ext & -> & Hsub & Hfees). cbn [app] in Hb.
  apply bind_Ok in Hb as (reward & Hrew & Hb). apply bind_Ok in Hb as (cb & Hcb & Hb).
  step_if Hb; [done|]. apply bind_Ok in Hb as (bits & Hbits & Hb). step_if Hb; [done|].
  res_simpl. bool_prop. clear Hpre.
  destruct (checkedAddMoney _ fees) as [r|] eqn:Ea; [|done]. res_simpl.
  destruct (validateTemplateCoinbase_Ok _ _ _ _ Hcb) as (Hbuild & Hiscb & Hshape & Hsum & Hpos).
  rewrite (ci_params _ _ Hc) in Hfees. split_and!; try done.
  - apply checkBlockSanity_spec. exists cb, ext.
    assert (Hall : Forall (fun t => IsCoinbase t = false /\ tx_shape t) ext).
    { apply list.Forall_forall. intros t Ht. eapply mempool_shape, elem_of_sublist; eauto. }
    split; cbn [blk_Txs]; try done.
    + eapply list.Forall_impl; [exact Hall|]. by intros ? [? _].
    + constructor; [done|]. eapply list.Forall_impl; [exact Hall|]. by intros ? [_ ?].
    + rewrite fmap_cons. apply list.NoDup_cons. split.
      * intros (t & Ht & Hin)%list_elem_of_fmap. eapply elem_of_sublist in Hin; [|exact Hsub].
        apply elem_of_MempoolTxs in Hin as [id Hid].
        destruct (ci_mempool _ _ Hc _ _ Hid) as (Hidt & _).
        rewrite <- Hidt, <- Ht in Hid. by rewrite (Hcbid cb eq_refl) in Hid.
      * eapply sublist_NoDup; [apply MempoolTxs_ids|]. by apply fmap_sublist.
    + by apply selected_prevs.
  - unfold validateAndApplyLocked. cbn [blk_Txs tail].
    destruct (apply_independent p (bi_height (c_tip c) + 1) (c_utxo c) ext (c_utxo c, []) 0 fees)
      as ([u1 undo] & ->); [done|done|by apply selected_prevs| |].
    { intros t k Ht. eapply elem_of_sublist in Ht; [|exact Hsub].
      apply elem_of_MempoolTxs in Ht as [id Hid].
      destruct (ci_mempool _ _ Hc _ _ Hid) as (-> & _).
      destruct (c_utxo c !! mkOutPoint id k) eqn:Eu; [|done].
      apply Hfr in Eu. cbn in Eu. congruence. }
    assert (Hm : 0 <= 0 <= MaxMoneyUnits) by (unfold MaxMoneyUnits, UnitsPerCoin; lia).
    destruct Hshape as (_ & _ & Hpos' & _). unfold coinbase_outputs.
    rewrite (proj2 (foldM_outputs_Ok _ _ _ _ (tx_Outs cb) 0 reward Hm))
      by (split_and!; [done|lia|lia]).
    rewrite Ea, Z.gtb_ltb, Z.ltb_irrefl. by eexists.
Qed.

Lemma length_with_nonce b n :
  length (Block_Bytes (mkBlock (with_nonce (blk_Header b) n) (blk_Txs b)))
  = length (Block_Bytes b).
Proof.
  unfold Block_Bytes, Header_Bytes, with_nonce.
  cbn [blk_Header blk_Txs hdr_Version hdr_PrevBlock hdr_MerkleRoot hdr_Time hdr_Bits hdr_Nonce].
  by autorewrite with btc_len.
Qed.

(** A template with a nonce that satisfies the proof of work is connected. *)
Lemma mined_template_connects build now n blk :
  template_fresh blk ->
  BuildBlockTemplateWithCoinbase (Some c) (Some build) now = Ok blk ->
  let mined := mkBlock (with_nonce (blk_Header blk) n) (blk_Txs blk) in
  c_index c !! Header_ID (blk_Header mined) = None ->
  checkBlockTimestamp c (c_tip c) (bi_height (c_tip c) + 1) (hdr_Time (blk_Header mined)) now
    = Ok tt ->
  CheckPow (blk_Header mined) p = true ->
  exists c' bi, acceptBlockLocked c mined true now = (c', Ok (Some bi)) /\
    bi_block bi = mined /\ c_tip c' = bi.
Proof.
  intros Hfr Hb mined Hfresh Hts Hck.
  destruct (template_spec build now blk Hfr Hb) as (Hsane & Hlen & Hprev & Hbits & Hroot & u' & Hva).
  assert (Hsane' : checkBlockSanity mined = Ok tt).
  { unfold checkBlockSanity in *. done. }
  assert (Hva' : validateAndApplyLocked p mined (bi_height (c_tip c) + 1) (c_utxo c) = (u', Ok tt)).
  { unfold validateAndApplyLocked in *. done. }
  assert (Hbob : bitsOnBranch c (c_tip c) (bi_height (c_tip c) + 1)
                 = Ok (hdr_Bits (blk_Header blk))).
  { unfold bitsOnBranch. by rewrite bool_decide_true, Z.eqb_refl. }
  unfold acceptBlockLocked. rewrite Hfresh. rewrite decide_False by apply is_Some_None.
  assert (hdr_PrevBlock (blk_Header mined) = bi_id (c_tip c)) as -> by done.
  rewrite (ci_tip _ _ Hc). unfold check_header.
  rewrite Hsane'. cbn [mbind result_bind].
  assert (Hlm : Z.of_nat (length (Block_Bytes mined)) <= MaxBlockBytes)
    by (unfold mined; by rewrite length_with_nonce).
  rewrite (proj2 (Z.leb_le _ _) Hlm).
  cbn [check mbind result_bind]. rewrite Hts. cbn [mbind result_bind].
  rewrite Hbob. cbn [mbind result_bind].
  assert (hdr_Bits (blk_Header mined) = hdr_Bits (blk_Header blk)) as -> by done.
  rewrite Z.eqb_refl. cbn [check mbind result_bind]. rewrite (ci_params _ _ Hc), Hck.
  cbn [negb orb check mbind result_bind].
  rewrite bool_decide_true by done. cbn [check mbind result_bind bi_cumWork].
  pose proof (bitsOnBranch_ok p Hpow c _ _ _ _ Hc (ci_tip _ _ Hc) Hbob) as Htok.
  pose proof (target_ok_work p _ Hpow Htok).
  rewrite (proj2 (Z.leb_gt _ _)) by lia. rewrite decide_True by done.
  unfold connectTipLocked. cbn [bi_block bi_height]. rewrite (ci_params _ _ Hc), Hva'.
  eexists _, _. split; [reflexivity|]. done.
Qed.
End connects.

(** A worker that stops has found a nonce of its class that meets the target. *)
Lemma mine_worker_sound fuel p template workers : forall n b,
  mine_worker fuel p template workers n = Some b ->
  exists n', b = mkBlock (with_nonce (blk_Header template) n') (blk_Txs template) /\
    HashToBig (PowHash (Header_Bytes (blk_Header b)) p)
    <= CompactToTarget (hdr_Bits (blk_Header template)).
Proof.
  induction fuel as [|fuel IH]; intros n b Hm; cbn [mine_worker] in Hm; [done|].
  step_if Hm; [|by eapply IH]. simplify_eq. bool_prop. by exists n.
Qed.
End miner.
