(* ===== verification/Toy.v ===== *)
(** * A concrete instance for examples

    A small executable implementation of the cryptographic interface and a short
    regtest history built with it, on which the theorems of the development are
    applied.  The toy hash is not collision resistant; nothing relies on it. *)
From S2P Require Import Prelude Params Crypto Pow Wire Merkle Chain.

Module Toy.
Definition toy_hash (b : bytes) : bytes :=
  le_bytes 32 (fold_left (fun acc x => Z.land (acc * 257 + b2z x + 1) 0xffffffffffff) b 5381).

#[global] Instance crypto : Crypto := {
  Sum256 := toy_hash;
  argon2_IDKey _ _ _ _ _ _ := zeros 32;
  ed25519_Public k := to_array 32 k;
  ed25519_Sign k m := to_array 64 (to_array 32 k ++ m);
  ed25519_Verify pk m s := bool_decide (s = to_array 64 (pk ++ m));
}.

#[global] Instance laws : CryptoLaws.
Proof.
  split.
  - intros. apply length_le_bytes.
  - intros. apply length_to_array.
  - intros. apply length_to_array.
  - intros. by apply bool_decide_eq_true.
Qed.

(** Two keys and their addresses. *)
Definition alice : bytes := bs "alice".
Definition bob : bytes := bs "bob".
Definition pkh_of (k : bytes) : bytes := PubKeyHash20 (ed25519_Public k).

Definition run (r : result Chain) (d : Chain) : Chain :=
  match r with Ok c => c | Err _ => d end.

(** The state after [NewChain(RegTest)]. *)
Definition c0 : Chain :=
  let bi := genesis_index RegTest in
  mkChain RegTest {[bi_id bi := bi]} bi [bi_id bi]
    (applyBlockToUTXO (GenesisBlock RegTest) 0 ∅) ∅.

Lemma genesis_pow : CheckPow (blk_Header (GenesisBlock RegTest)) RegTest = true.
Proof. vm_compute. reflexivity. Qed.

Lemma c0_new : NewChain (Some RegTest) = Ok c0.
Proof.
  unfold NewChain. change (validateConsensusParams RegTest) with (Ok tt).
  cbn [mbind result_bind]. by rewrite genesis_pow.
Qed.

(** A block with the given transactions on top of the tip. *)
Definition block_on (parent : blockIndex) (cb : Tx) (txs : list Tx) : Block :=
  mkBlock (mkHeader 1 (bi_id parent) (MerkleRoot (cb :: txs))
             (hdr_Time (bi_header parent) + 1) (MaxTargetBits RegTest) 0) (cb :: txs).

Definition now : Z := GenesisTime RegTest + 1000.
Definition coinbase (h : Z) (k : bytes) : Tx :=
  NewCoinbase h (SubsidyAt h) (pkh_of k) (bs "toy").

Definition mine (c : Chain) (k : bytes) (txs : list Tx) : Block :=
  block_on (c_tip c) (coinbase (bi_height (c_tip c) + 1) k) txs.

Definition b1 : Block := mine c0 alice [].
Definition c1 : Chain := run_op c0 (OpBlock (Some b1) now).
Definition b2 : Block := mine c1 bob [].
Definition c2 : Chain := run_op c1 (OpBlock (Some b2) now).

(** Alice pays 30 coins of her matured coinbase to Bob, with a fee of one. *)
Definition unsigned : Tx :=
  mkTx 1 [mkTxIn (mkOutPoint (Tx_ID (coinbase 1 alice)) 0) [] []]
    [mkTxOut (30 * UnitsPerCoin) (pkh_of bob); mkTxOut (19 * UnitsPerCoin) (pkh_of alice)] [].
Definition payment : Tx := match Sign unsigned [alice] with Ok t => t | Err _ => unsigned end.

Definition c2m : Chain := run_op c2 (OpTx (Some payment)).
Definition b3 : Block := mine c2m bob [payment].
Definition c3 : Chain := run_op c2m (OpBlock (Some b3) now).

Lemma toy_c2_reachable : reachable RegTest c2.
Proof. exact (reach_op _ _ _ (reach_op _ _ _ (reach_new _ _ c0_new))). Qed.

Lemma c2m_reachable : reachable RegTest c2m.
Proof.
  exact (reach_op _ _ _ (reach_op _ _ _ (reach_op _ _ _ (reach_new _ _ c0_new)))).
Qed.

Lemma c3_reachable : reachable RegTest c3.
Proof. exact (reach_op _ _ _ c2m_reachable). Qed.

(** The history does what it says. *)
Lemma c3_height : bi_height (c_tip c3) = 3.
Proof. vm_compute. reflexivity. Qed.
Lemma c2m_mempool : c_mempool c2m !! Tx_ID payment = Some payment.
Proof. vm_compute. reflexivity. Qed.
Lemma c3_mempool : c_mempool c3 !! Tx_ID payment = None.
Proof. vm_compute. reflexivity. Qed.
End Toy.
