(* ===== verification/Store.v ===== *)
(** * The durable block store (core/store.go, core/durable_replace_unix.go,
    core/store_metadata_unix.go)

    The snapshot codec, [LoadInto], [SaveSnapshot] and the atomic replacement
    of the snapshot file.  The file system is explicit: a [Disk] holds the entry
    of the snapshot path, the entries a power failure may still bring back
    because the directory was not synchronised since, and the temporary file;
    the contents of a file are certain after a crash only once it was
    synchronised.  Every file operation appends the disk it leaves to a trace,
    so that a crash between two operations is an element of the trace.

    The outcomes of the system calls are the fields of [IO]; [None] is success.
    [clock h] is the time read while the stored block of height [h + 1] is
    accepted. *)
From S2P Require Import Prelude Params Crypto Pow Wire Merkle Chain Ledger ChainInv ChainView.

Section codec.
Context `{Crypto}.

Definition canonicalStoreParams (network : string) : option Params :=
  if decide (network = Name MainNet) then Some MainNet
  else if decide (network = Name RegTest) then Some RegTest
  else None.

(** One block of [encodeCanonicalSnapshot]: the state is the buffer,
    [previousID] and [expectedWork]. *)
Definition encode_step (st : bytes * Hash32 * Z) (ib : nat * Block)
    : result (bytes * Hash32 * Z) :=
  let '(buffer, previousID, expectedWork) := st in
  let '(index, block) := ib in
  let height := Z.of_nat index + 1 in
  let h := blk_Header block in
  _ ← check (bool_decide (hdr_PrevBlock h = previousID))
        (ENum "snapshot block parent mismatch" [height]);
  _ ← check (bool_decide (hdr_MerkleRoot h = MerkleRoot (blk_Txs block)))
        (ENum "snapshot block merkle mismatch" [height]);
  let raw := Block_Bytes block in
  let len := Z.of_nat (length raw) in
  _ ← check (negb ((len =? 0) || (len >? MaxBlockBytes)))
        (ENum "snapshot block size is invalid" [height]);
  Ok (buffer ++ be_bytes 4 (u32 len) ++ raw, Header_ID h,
      expectedWork + WorkFromTarget (CompactToTarget (hdr_Bits h))).

Definition encodeCanonicalSnapshot (snapshot : MainSnapshot) : result bytes :=
  _ ← check (bool_decide (Name (ms_params snapshot) = Name MainNet)
             || bool_decide (Name (ms_params snapshot) = Name RegTest))
        (EText "snapshot has unsupported network");
  _ ← check (negb ((ms_tipHeight snapshot <? 0)
                   || negb (Z.of_nat (length (ms_blocks snapshot)) =? ms_tipHeight snapshot)))
        (EText "snapshot height/block count mismatch");
  _ ← check (0 <? ms_cumWork snapshot) (EText "snapshot cumulative work is invalid");
  let genesis := blk_Header (GenesisBlock (ms_params snapshot)) in
  '(buffer, previousID, expectedWork) ←
    foldM encode_step
      ([], Header_ID genesis, WorkFromTarget (CompactToTarget (hdr_Bits genesis)))
      (indexed (ms_blocks snapshot));
  _ ← check (bool_decide (previousID = ms_tipID snapshot) && (expectedWork =? ms_cumWork snapshot))
        (EText "snapshot tip/work metadata mismatch");
  Ok buffer.

(** The loop of [decodeCanonicalSnapshot] over the reader [r].  An iteration
    consumes at least five bytes; the fuel is the length of the data. *)
Fixpoint load_frames (fuel : nat) (clock : Z -> Z) (scratch : Chain) (height : Z) (r : bytes)
    : result Chain :=
  if (length r =? 0)%nat then Ok scratch else
  match fuel with
  | O => Err (EPanic "out of fuel")
  | S fuel' =>
      _ ← check (negb (length r <? 4)%nat) (EText "truncated snapshot frame length");
      let len := be_val (take 4 r) in
      let r1 := drop 4 r in
      _ ← check (negb ((len =? 0) || (len >? MaxBlockBytes))) (EText "invalid stored block length");
      _ ← check (len <=? Z.of_nat (length r1)) (EText "truncated stored block");
      let raw := take (Z.to_nat len) r1 in
      let r2 := drop (Z.to_nat len) r1 in
      match DecodeBlock raw with
      | Err e => Err (EWrap "decode stored block" 0 e)
      | Ok block =>
          let '(scratch', res) := acceptStoredBlock scratch (Some block) (clock height) in
          match res with
          | Err e => Err (EWrap "stored block rejected at height" (height + 1) e)
          | Ok _ =>
              let height := height + 1 in
              let '(tipID, tipHeight) := Tip scratch' in
              _ ← check ((tipHeight =? height)
                         && bool_decide (tipID = Header_ID (blk_Header block)))
                    (ENum "stored block is not the canonical next tip" [height]);
              load_frames fuel' clock scratch' height r2
          end
      end
  end.

Definition decodeCanonicalSnapshot (p : Params) (clock : Z -> Z) (data : bytes)
    : result (Chain * MainSnapshot * bytes) :=
  fresh ← NewChain (Some p);
  scratch ← load_frames (length data) clock fresh 0 data;
  snapshot ← canonicalMainSnapshot scratch;
  canonical ← encodeCanonicalSnapshot snapshot;
  Ok (scratch, snapshot, canonical).

Definition validateAndEncodeCanonicalSnapshot (clock : Z -> Z) (snapshot : MainSnapshot)
    : result bytes :=
  encoded ← encodeCanonicalSnapshot snapshot;
  '(_, validated, canonical) ← decodeCanonicalSnapshot (ms_params snapshot) clock encoded;
  _ ← check (bool_decide (ms_tipID validated = ms_tipID snapshot)
             && (ms_tipHeight validated =? ms_tipHeight snapshot)
             && (ms_cumWork validated =? ms_cumWork snapshot)
             && bool_decide (canonical = encoded))
        (EText "candidate canonical snapshot metadata mismatch");
  Ok canonical.

(** ** The destination of a load *)
Definition equalBlockBytes (got want : Block) : bool :=
  (length (blk_Txs got) =? length (blk_Txs want))%nat
  && bool_decide (Block_Bytes got = Block_Bytes want).

Definition matchesCanonicalGenesisLocked (c fresh : Chain) : bool :=
  (size (c_mempool c) =? 0)%nat
  && (length (c_mainIDs c) =? length (c_mainIDs fresh))%nat
  && (size (c_index c) =? size (c_index fresh))%nat
  && (size (c_utxo c) =? size (c_utxo fresh))%nat
  && bool_decide (c_mainIDs c = c_mainIDs fresh)
  && forallb (fun e => bool_decide (c_utxo c !! e.1 = Some e.2)) (map_to_list (c_utxo fresh))
  && forallb (fun e =>
       match c_index c !! e.1 with
       | None => false
       | Some got =>
           bool_decide (bi_id got = bi_id e.2) && (bi_height got =? bi_height e.2)
           && (bi_cumWork got =? bi_cumWork e.2) && equalBlockBytes (bi_block got) (bi_block e.2)
       end) (map_to_list (c_index fresh))
  && bool_decide (Some (c_tip c) = c_index c !! bi_id (c_tip fresh))
  && bool_decide (bi_id (c_tip c) = bi_id (c_tip fresh)).

Definition validateLoadDestinationLocked (c : Chain) (expected : Params) : result unit :=
  _ ← check (bool_decide (c_params c = expected))
        (EText "destination chain consensus params do not match Store network");
  match NewChain (Some expected) with
  | Err e => Err (EWrap "construct canonical genesis state" 0 e)
  | Ok fresh =>
      check (matchesCanonicalGenesisLocked c fresh)
        (EText "LoadInto destination must be an empty genesis chain")
  end.
End codec.

(** ** The file system *)
Record FileData := mkFile { fd_bytes : bytes; fd_synced : bool; fd_mode : Z }.

Record Disk := mkDisk {
  d_file : option FileData;          (* the entry of [s.path] *)
  d_stale : list (option FileData);  (* entries a crash may restore *)
  d_temp : option FileData;          (* the temporary file *)
}.

(** The octal permission bits the store accepts. *)
Definition mode0600 : Z := 6 * 64.
Definition mode0640 : Z := 6 * 64 + 4 * 8.

(** What [fstat] reports of the existing snapshot file. *)
Record FileInfo := mkFileInfo { fi_regular : bool; fi_nlink : Z; fi_uid : Z; fi_mode : Z }.

(** The outcome of every system call of one store operation. *)
Record IO := mkIO {
  io_lock : option error;
  io_release : option error;
  io_read : option error;            (* other than [os.ErrNotExist] *)
  io_createTemp : option error;
  io_abs : option error;
  io_inside : bool;                  (* [filepath.Dir(tempAbs) == directory] *)
  io_write : Z * option error;
  io_flush : option error;
  io_open : option error;            (* [unix.Open] of the existing file *)
  io_newFile : bool;                 (* [os.NewFile] returned a file *)
  io_stat : result (option FileInfo); (* [None]: unsupported metadata *)
  io_euid : Z;
  io_chown : option error;
  io_chmod : option error;
  io_sync : option error;
  io_close : option error;
  io_deferredClose : option error;
  io_replace : option error * bool;  (* on error, whether the rename happened *)
  io_dirOpen : option error;
  io_dirSync : option error;
  io_dirClose : option error;
  io_remove : option error;          (* other than [os.ErrNotExist] *)
}.

(** A store operation in progress: the disk and the disks it went through. *)
Record Txn := mkTxn {
  t_disk : Disk; t_trace : list Disk; t_closed : bool; t_replaced : bool; t_buffer : bytes }.

Definition emit (d : Disk) (t : Txn) : Txn :=
  mkTxn d (d :: t_trace t) (t_closed t) (t_replaced t) (t_buffer t).
Definition set_temp (f : option FileData) (t : Txn) : Txn :=
  emit (mkDisk (d_file (t_disk t)) (d_stale (t_disk t)) f) t.
Definition mark_closed (t : Txn) : Txn :=
  mkTxn (t_disk t) (t_trace t) true (t_replaced t) (t_buffer t).
Definition mark_replaced (t : Txn) : Txn :=
  mkTxn (t_disk t) (t_trace t) (t_closed t) true (t_buffer t).
Definition set_buffer (b : bytes) (t : Txn) : Txn :=
  mkTxn (t_disk t) (t_trace t) (t_closed t) (t_replaced t) b.
Definition begin (d : Disk) : Txn := mkTxn d [] false false [].

(** A step of an operation, and a sequence that stops at the first error. *)
Definition Step : Type := Txn -> Txn * option error.

Fixpoint run_steps (l : list Step) (t : Txn) : Txn * option error :=
  match l with
  | [] => (t, None)
  | s :: l' => let '(t', e) := s t in
               match e with Some e => (t', Some e) | None => run_steps l' t' end
  end.

Definition guard (e : option error) : Step := fun t => (t, e).

(** [os.Rename]: the new entry is visible at once; until the directory is
    synchronised a crash may restore the old one. *)
Definition rename (d : Disk) : Disk := mkDisk (d_temp d) (d_file d :: d_stale d) None.

Definition atomicReplaceStoreFile (io : IO) : Step := fun t =>
  let moved := emit (rename (t_disk t)) t in
  match io_replace io with
  | (None, _) => (moved, None)
  | (Some e, true) => (moved, Some e)
  | (Some e, false) => (t, Some e)
  end.

Definition finalizeStoreReplace (io : IO) : Step := fun t =>
  match io_dirOpen io with
  | Some e => (t, Some e)
  | None =>
      let t' := match io_dirSync io with
                | None => emit (mkDisk (d_file (t_disk t)) [] (d_temp (t_disk t))) t
                | Some _ => t
                end in
      (t', join (io_dirSync io) (io_dirClose io))
  end.

Definition chmod_temp (mode : Z) : Txn -> Txn := fun t =>
  set_temp ((fun f => mkFile (fd_bytes f) (fd_synced f) mode) <$> d_temp (t_disk t)) t.

Definition prepareStoreReplacement (io : IO) : Step := fun t =>
  let chmod mode := match io_chmod io with
                    | Some e => (t, Some e)
                    | None => (chmod_temp mode t, None)
                    end in
  match d_file (t_disk t) with
  | None => chmod mode0600
  | Some _ =>
      match io_open io with
      | Some e => (t, Some (EWrap "open existing store snapshot safely" 0 e))
      | None =>
          if negb (io_newFile io)
          then (t, Some (EText "open existing store snapshot safely: invalid descriptor")) else
          match io_stat io with
          | Err e => (t, Some (EWrap "inspect existing store snapshot" 0 e))
          | Ok None => (t, Some (EText "inspect existing store snapshot: unsupported metadata"))
          | Ok (Some info) =>
              if negb (fi_regular info) || negb (fi_nlink info =? 1)
              then (t, Some (EText "existing store snapshot is not a single-link regular file"))
              else if negb (fi_uid info =? u32 (io_euid io))
              then (t, Some (EText "existing store snapshot is not owned by the writer"))
              else if negb (fi_mode info =? mode0600) && negb (fi_mode info =? mode0640)
              then (t, Some (ENum "existing store snapshot mode is unsafe" [fi_mode info]))
              else match io_chown io with
                   | Some e => (t, Some (EWrap "preserve store snapshot ownership" 0 e))
                   | None => match io_chmod io with
                             | Some e => (t, Some (EWrap "preserve store snapshot mode" 0 e))
                             | None => (chmod_temp (fi_mode info) t, None)
                             end
                   end
          end
      end
  end.

(** The buffered writer: [write] fills the buffer with the bytes it reports,
    [flush] moves it to the file. *)
Definition write_data (io : IO) (data : bytes) : Step := fun t =>
  let '(n, e) := io_write io in (set_buffer (take (Z.to_nat n) data) t, e).
Definition short_write (io : IO) (data : bytes) : Step :=
  guard (if (io_write io).1 =? Z.of_nat (length data) then None else Some (EText "short write")).
Definition flush (io : IO) : Step := fun t =>
  match io_flush io with
  | Some e => (t, Some e)
  | None => (set_temp ((fun f => mkFile (fd_bytes f ++ t_buffer t) false (fd_mode f))
                         <$> d_temp (t_disk t)) (set_buffer [] t), None)
  end.
Definition syncFile (io : IO) : Step := fun t =>
  match io_sync io with
  | Some e => (t, Some e)
  | None => (set_temp ((fun f => mkFile (fd_bytes f) true (fd_mode f)) <$> d_temp (t_disk t)) t,
             None)
  end.
Definition closeFile (io : IO) : Step := fun t =>
  match io_close io with Some e => (t, Some e) | None => (mark_closed t, None) end.

(** The body of [durableReplace] between [createTemp] and the return. *)
Definition replace_steps (io : IO) (data : bytes) : list Step :=
  [ guard (io_abs io);
    guard (if io_inside io then None
           else Some (EText "temporary snapshot is outside destination directory"));
    write_data io data;
    short_write io data;
    flush io;
    prepareStoreReplacement io;
    syncFile io;
    closeFile io;
    atomicReplaceStoreFile io;
    (fun t => (mark_replaced t, None));
    finalizeStoreReplace io ].

(** The deferred cleanup. *)
Definition cleanup (io : IO) (t : Txn) (e : option error) : Txn * option error :=
  let e1 := if t_closed t then e else join e (io_deferredClose io) in
  if t_replaced t then (t, e1)
  else match io_remove io with
       | None => (set_temp None t, e1)
       | Some re => (t, join e1 (Some re))
       end.

Definition durableReplace (io : IO) (data : bytes) (d : Disk) : Txn * option error :=
  match io_createTemp io with
  | Some e => (begin d, Some e)
  | None =>
      let t := set_temp (Some (mkFile [] false mode0600)) (begin d) in
      let '(t', e) := run_steps (replace_steps io data) t in
      cleanup io t' e
  end.

(** ** Operations of the store *)
Section ops.
Context `{Crypto}.

Definition ReadFile (io : IO) (d : Disk) : result (option bytes) :=
  match d_file d with
  | None => Ok None
  | Some f => match io_read io with None => Ok (Some (fd_bytes f)) | Some e => Err e end
  end.

(** The last component tells whether the file exists. *)
Definition readDurableSnapshotLocked (p : Params) (io : IO) (clock : Z -> Z) (d : Disk)
    : result (Chain * MainSnapshot * bytes * bool) :=
  data ← ReadFile io d;
  match data with
  | None =>
      scratch ← NewChain (Some p);
      snapshot ← canonicalMainSnapshot scratch;
      Ok (scratch, snapshot, [], false)
  | Some data =>
      '(scratch, snapshot, canonical) ← decodeCanonicalSnapshot p clock data;
      _ ← check (bool_decide (data = canonical))
            (EText "durable snapshot is not canonically encoded");
      Ok (scratch, snapshot, canonical, true)
  end.

Definition ErrSnapshotRegression : error :=
  EText "canonical snapshot would regress durable work".

(** The body of [saveSnapshot] with both locks held: [clock1] is read while the
    candidate is validated, [clock2] while the current file is. *)
Definition save_locked (network : string) (io : IO) (clock1 clock2 : Z -> Z) (source : Chain)
    (d : Disk) : Txn * option error :=
  let fail e := (begin d, Some e) in
  match canonicalMainSnapshot source with
  | Err e => fail e
  | Ok candidate =>
      if negb (bool_decide (Some (ms_params candidate) = canonicalStoreParams network))
      then fail (EText "candidate snapshot consensus params mismatch") else
      match validateAndEncodeCanonicalSnapshot clock1 candidate with
      | Err e => fail e
      | Ok candidateBytes =>
          match readDurableSnapshotLocked (ms_params candidate) io clock2 d with
          | Err e => fail e
          | Ok (_, current, currentBytes, exists_) =>
              if negb exists_ then durableReplace io candidateBytes d else
              match ms_cumWork candidate ?= ms_cumWork current with
              | Lt => fail ErrSnapshotRegression
              | Eq =>
                  if negb (bool_decide (ms_tipID candidate = ms_tipID current))
                  then fail (EWrap "equal work has different tip" 0 ErrSnapshotRegression)
                  else if negb (bool_decide (candidateBytes = currentBytes))
                  then fail (EText "same durable tip has noncanonical byte mismatch")
                  else finalizeStoreReplace io (begin d)
              | Gt => durableReplace io candidateBytes d
              end
          end
      end
  end.

Definition SaveSnapshot (network : string) (io : IO) (clock1 clock2 : Z -> Z)
    (source : option Chain) (d : Disk) : Txn * option error :=
  match source with
  | None => (begin d, Some (EText "nil source chain"))
  | Some source =>
      match io_lock io with
      | Some e => (begin d, Some e)
      | None => let '(t, e) := save_locked network io clock1 clock2 source d in
                (t, join e (io_release io))
      end
  end.

(** [between] is what other goroutines do to the destination while the file is
    read: the chain is not locked meanwhile. *)
Definition load_locked (expected : Params) (io : IO) (clock : Z -> Z) (between : Chain -> Chain)
    (c : Chain) (d : Disk) : Chain * result Z :=
  match readDurableSnapshotLocked (c_params c) io clock d with
  | Err e => (between c, Err e)
  | Ok (scratch, snapshot, _, exists_) =>
      let c := between c in
      if negb exists_ then (c, Ok 0) else
      match validateLoadDestinationLocked c expected with
      | Err e => (c, Err e)
      | Ok _ =>
          if negb (bool_decide (ms_params snapshot = expected))
          then (c, Err (EText "durable snapshot consensus params mismatch")) else
          (mkChain (c_params c) (c_index scratch) (c_tip scratch) (c_mainIDs scratch)
             (c_utxo scratch) ∅, Ok (ms_tipHeight snapshot))
      end
  end.

(** The chain afterwards, the height, and the error joined with the one of the
    lock release.  For an unknown network, which [NewStore] excludes,
    [expectedParams] is the zero value, which no chain has. *)
Definition LoadInto (network : string) (io : IO) (clock : Z -> Z) (between : Chain -> Chain)
    (c : option Chain) (d : Disk) : option Chain * Z * option error :=
  match c with
  | None => (None, 0, Some (EText "nil destination chain"))
  | Some c =>
      match canonicalStoreParams network with
      | None => (Some c, 0, Some (EText "destination chain consensus params do not match Store network"))
      | Some expected =>
          match validateLoadDestinationLocked c expected, io_lock io with
          | Err e, _ => (Some c, 0, Some e)
          | Ok _, Some e => (Some c, 0, Some e)
          | Ok _, None =>
              let '(c', r) := load_locked expected io clock between c d in
              match r with
              | Ok h => (Some c', h, join None (io_release io))
              | Err e => (Some c', 0, join (Some e) (io_release io))
              end
          end
      end
  end.
End ops.
