(* ===== verification/StoreProofs.v ===== *)
(** * The store: crash safety and the snapshot codec

    A small Hoare logic for the file steps of Store.v gives the crash safety of
    [durableReplace]; the second part replays the main branch of a chain on a
    scratch chain, which gives the round trip of the snapshot codec. *)
From S2P Require Import Prelude Params Crypto Pow Wire Merkle Chain Ledger ChainInv ChainView.
From S2P Require Import Store.

(** ** Crashes *)
(** What can be read of an entry after a power failure: anything, unless the
    file was synchronised. *)
Definition survives (e : option FileData) (f : option bytes) : Prop :=
  match e with
  | None => f = None
  | Some fd => exists b, f = Some b /\ (fd_synced fd = true -> b = fd_bytes fd)
  end.

Definition entries (d : Disk) : list (option FileData) := d_file d :: d_stale d.

Definition crash_file (d : Disk) (f : option bytes) : Prop :=
  exists e, e ∈ entries d /\ survives e f.

(** Every entry a crash may leave is one of [d] or a synchronised file holding
    [data], and the visible file is the one of [d] or such a file. *)
Definition new_file (data : bytes) (e : option FileData) : Prop :=
  exists m, e = Some (mkFile data true m).
Definition old_or_new (d : Disk) (data : bytes) (d' : Disk) : Prop :=
  (forall e, e ∈ entries d' -> e ∈ entries d \/ new_file data e) /\
  (d_file d' = d_file d \/ new_file data (d_file d')).

Lemma old_or_new_refl d data : old_or_new d data d.
Proof. split; [intros e He|]; by left. Qed.

Lemma old_or_new_crash d data d' f :
  old_or_new d data d' -> crash_file d' f -> crash_file d f \/ f = Some data.
Proof.
  intros [Hon _] (e & He & Hs). destruct (Hon _ He) as [Hd|[m ->]].
  - left. by exists e.
  - right. destruct Hs as (b & -> & Hb). by rewrite Hb.
Qed.

(** ** A logic for file steps *)
Definition triple (P : Txn -> Prop) (s : Step) (Q E : Txn -> Prop) : Prop :=
  forall t, P t -> match s t with (t', None) => Q t' | (t', Some _) => E t' end.

Definition steps_triple (P : Txn -> Prop) (l : list Step) (Q E : Txn -> Prop) : Prop :=
  triple P (run_steps l) Q E.

Lemma steps_nil P E : steps_triple P [] P E.
Proof. by intros t Ht. Qed.

Lemma steps_cons P s R l Q E :
  triple P s R E -> steps_triple R l Q E -> steps_triple P (s :: l) Q E.
Proof.
  intros Hs Hl t Ht. cbn [run_steps]. specialize (Hs t Ht).
  destruct (s t) as [t' [e|]]; [done|]. by apply Hl.
Qed.

Lemma guard_triple P e E : (forall t, P t -> E t) -> triple P (guard e) (fun t => P t /\ e = None) E.
Proof. intros HE t Ht. unfold guard. destruct e; auto. Qed.

Section replace.
Context (d : Disk) (data : bytes).

Definition safe (t : Txn) : Prop :=
  old_or_new d data (t_disk t) /\ forall d', d' ∈ t_trace t -> old_or_new d data d'.

(** Before the rename: the entries are those of [d]; the temporary file holds
    [content], the writer's buffer [buf]. *)
Definition pending (content buf : bytes) (synced : bool) (t : Txn) : Prop :=
  safe t /\ d_file (t_disk t) = d_file d /\ d_stale (t_disk t) = d_stale d /\
  (exists m, d_temp (t_disk t) = Some (mkFile content synced m)) /\ t_buffer t = buf.

Lemma pending_safe c b s t : pending c b s t -> safe t.
Proof. by intros [Hs _]. Qed.

Lemma emit_safe d' t : safe t -> old_or_new d data d' -> safe (emit d' t).
Proof.
  intros [Hd Ht] Hn. split; [done|]. cbn. intros x Hx.
  apply elem_of_cons in Hx as [->|Hx]; auto.
Qed.

Lemma set_temp_safe f t : safe t -> safe (set_temp f t).
Proof. intros Hs. apply emit_safe; [done|]. exact (proj1 Hs). Qed.

Lemma set_temp_pending c b s c' s' m t :
  pending c b s t -> pending c' b s' (set_temp (Some (mkFile c' s' m)) t).
Proof.
  intros (Hs & Hf & Hst & _ & Hb). split; [by apply set_temp_safe|]. cbn. eauto.
Qed.

Lemma begin_pending m : pending [] [] false (set_temp (Some (mkFile [] false m)) (begin d)).
Proof.
  split; [|cbn; eauto]. apply set_temp_safe. split; [apply old_or_new_refl|by intros ? ?%elem_of_nil].
Qed.

Lemma write_triple io :
  triple (pending [] [] false) (write_data io data)
    (pending [] (take (Z.to_nat (io_write io).1) data) false) safe.
Proof.
  intros t (Hs & Hf & Hst & Hm & Hb). unfold write_data.
  destruct (io_write io) as [n [e|]]; cbn; [done|]. split_and!; eauto.
Qed.

Lemma flush_triple io c b :
  triple (pending c b false) (flush io) (pending (c ++ b) [] false) safe.
Proof.
  intros t Ht. pose proof (pending_safe _ _ _ _ Ht). unfold flush.
  destruct (io_flush io); [done|]. destruct Ht as (Hs & Hf & Hst & [m Hm] & Hb).
  cbn. rewrite Hm. cbn. rewrite Hb. apply (set_temp_pending c [] false). split_and!; eauto.
Qed.

Lemma chmod_pending mode c b s t : pending c b s t -> pending c b s (chmod_temp mode t).
Proof.
  intros Ht. pose proof Ht as (_ & _ & _ & [m Hm] & _). unfold chmod_temp. rewrite Hm. cbn.
  by eapply set_temp_pending.
Qed.

Lemma prepare_triple io c b s :
  triple (pending c b s) (prepareStoreReplacement io) (pending c b s) safe.
Proof.
  intros t Ht. pose proof (pending_safe _ _ _ _ Ht). unfold prepareStoreReplacement.
  repeat (case_match; simplify_eq; try done); by apply chmod_pending.
Qed.

Lemma sync_triple io c b s : triple (pending c b s) (syncFile io) (pending c b true) safe.
Proof.
  intros t Ht. pose proof (pending_safe _ _ _ _ Ht). unfold syncFile.
  destruct (io_sync io); [done|]. pose proof Ht as (_ & _ & _ & [m Hm] & _). rewrite Hm. cbn.
  by eapply set_temp_pending.
Qed.

Lemma close_triple io c b s :
  triple (pending c b s) (closeFile io) (fun t => pending c b s t /\ t_closed t = true) safe.
Proof.
  intros t Ht. pose proof (pending_safe _ _ _ _ Ht). unfold closeFile.
  destruct (io_close io); [done|]. done.
Qed.

(** After the rename the new file is visible and the old entries are stale. *)
Definition renamed (t : Txn) : Prop :=
  safe t /\ (exists m, d_file (t_disk t) = Some (mkFile data true m)) /\
  d_temp (t_disk t) = None /\ t_closed t = true.

Lemma rename_triple io b :
  triple (fun t => pending data b true t /\ t_closed t = true) (atomicReplaceStoreFile io)
    renamed safe.
Proof.
  intros t [(Hs & Hf & Hst & [m Hm] & Hb) Hc].
  assert (Hr : renamed (emit (rename (t_disk t)) t)).
  { split; [|cbn; eauto]. apply emit_safe; [done|]. unfold new_file.
    split; [|right; exists m; done]. intros e He.
    apply elem_of_cons in He as [He|He]; [right; exists m; by rewrite He|].
    left. unfold entries. rewrite <- Hf, <- Hst. exact He. }
  unfold atomicReplaceStoreFile. destruct (io_replace io) as [[e|] []]; [|done..]. apply Hr.
Qed.

Definition finished (t : Txn) : Prop :=
  safe t /\ (exists m, t_disk t = mkDisk (Some (mkFile data true m)) [] None) /\
  t_closed t = true /\ t_replaced t = true.

Lemma finalize_triple io :
  triple (fun t => renamed t /\ t_replaced t = true) (finalizeStoreReplace io) finished safe.
Proof.
  intros t [(Hs & [m Hm] & Ht & Hc) Hr]. unfold finalizeStoreReplace.
  destruct (io_dirOpen io); [done|].
  assert (Hsafe : safe (emit (mkDisk (d_file (t_disk t)) [] (d_temp (t_disk t))) t)).
  { apply emit_safe; [done|]. destruct Hs as [[He Hf] _]. split; [|exact Hf].
    intros e [->|[]%elem_of_nil]%elem_of_cons. apply He. by left. }
  destruct (io_dirSync io), (io_dirClose io); cbn; try done.
  split_and!; [done| |done|done]. exists m. cbn. by rewrite Hm, Ht.
Qed.

Lemma replace_steps_triple io :
  steps_triple (pending [] [] false) (replace_steps io data) finished safe.
Proof.
  unfold replace_steps.
  eapply steps_cons; [apply guard_triple, pending_safe|].
  eapply steps_cons; [apply guard_triple; intros t [Ht _]; by eapply pending_safe|].
  eapply steps_cons; [intros t [[Ht _] _]; by apply write_triple|].
  eapply steps_cons; [apply guard_triple, pending_safe|].
  eapply (steps_cons _ _ (pending data [] false)).
  { intros t [Ht Hn]. destruct (Z.eqb_spec (io_write io).1 (Z.of_nat (length data))) as [E|];
      [|done]. rewrite E, Nat2Z.id, take_ge in Ht by lia. by apply (flush_triple io [] data). }
  eapply steps_cons; [apply prepare_triple|].
  eapply steps_cons; [apply sync_triple|].
  eapply steps_cons; [apply close_triple|].
  eapply steps_cons; [apply rename_triple|].
  eapply steps_cons; [|eapply steps_cons; [apply finalize_triple|apply steps_nil]].
  intros t (Hs & Hf & Ht & Hc). done.
Qed.

Lemma cleanup_safe io t e : safe t -> safe (cleanup io t e).1.
Proof.
  intros Hs. unfold cleanup. destruct (t_replaced t); [done|].
  destruct (io_remove io); [done|]. by apply set_temp_safe.
Qed.

Lemma durableReplace_spec io :
  let '(t, e) := durableReplace io data d in
  safe t /\ (e = None -> exists m, t_disk t = mkDisk (Some (mkFile data true m)) [] None).
Proof.
  unfold durableReplace. destruct (io_createTemp io).
  { split; [|done]. split; [apply old_or_new_refl|by intros ? ?%elem_of_nil]. }
  pose proof (replace_steps_triple io _ (begin_pending mode0600)) as Hr.
  destruct (run_steps _ _) as [t' [e|]].
  - pose proof (cleanup_safe io t' (Some e) Hr). destruct (cleanup io t' (Some e)) as [t e'] eqn:Ec.
    split; [done|]. intros ->. exfalso. unfold cleanup in Ec.
    repeat (case_match; simplify_eq/=); by destruct (io_deferredClose io).
  - destruct Hr as (Hs & Hd & Hc & Hrp). unfold cleanup. rewrite Hc, Hrp. eauto.
Qed.
End replace.

(** ** Saving *)
Section save.
Context `{Crypto}.

(** [data] is the canonical encoding of a chain with this tip. *)
Definition decodes_to (p : Params) (clock : Z -> Z) (data : bytes) (snap : MainSnapshot) : Prop :=
  exists scratch snap', decodeCanonicalSnapshot p clock data = Ok (scratch, snap', data) /\
    ms_tipID snap' = ms_tipID snap /\ ms_tipHeight snap' = ms_tipHeight snap /\
    ms_cumWork snap' = ms_cumWork snap.

Lemma validateAndEncode_ok clock snap data :
  validateAndEncodeCanonicalSnapshot clock snap = Ok data ->
  encodeCanonicalSnapshot snap = Ok data /\ decodes_to (ms_params snap) clock data snap.
Proof.
  unfold validateAndEncodeCanonicalSnapshot. intros Hv. res_simpl.
  rename select (decodeCanonicalSnapshot _ _ _ = _) into Hd.
  destruct x0 as [[scratch snap'] canonical]. res_simpl. bool_prop. subst.
  split; [done|]. by exists scratch, snap'.
Qed.

Lemma read_durable_ok p io clock d scratch snap canonical ex :
  readDurableSnapshotLocked p io clock d = Ok (scratch, snap, canonical, ex) ->
  if ex then exists fd, d_file d = Some fd /\ canonical = fd_bytes fd /\
                        decodeCanonicalSnapshot p clock canonical = Ok (scratch, snap, canonical)
  else d_file d = None.
Proof.
  unfold readDurableSnapshotLocked, ReadFile. intros Hr.
  destruct (d_file d) as [fd|]; [|res_simpl; by simplify_eq].
  destruct (io_read io); [done|]. cbn [mbind result_bind] in Hr. res_simpl.
  rename select (decodeCanonicalSnapshot _ _ _ = _) into Hd.
  destruct x as [[s1 sn1] c1]. res_simpl. bool_prop. subst. simplify_eq.
  by exists fd.
Qed.

(** When the file may be replaced: it does not exist, or it holds a chain with
    strictly less work. *)
Definition may_replace (p : Params) (clock : Z -> Z) (d : Disk) (snap : MainSnapshot) : Prop :=
  d_file d = None \/ exists fd scratch cur, d_file d = Some fd /\
    decodeCanonicalSnapshot p clock (fd_bytes fd) = Ok (scratch, cur, fd_bytes fd) /\
    ms_cumWork cur < ms_cumWork snap.

Lemma save_locked_cases network io clock1 clock2 c d t e :
  save_locked network io clock1 clock2 c d = (t, e) ->
  (t = begin d /\ e <> None) \/
  exists snap data, canonicalMainSnapshot c = Ok snap /\
    Some (ms_params snap) = canonicalStoreParams network /\
    validateAndEncodeCanonicalSnapshot clock1 snap = Ok data /\
    ((may_replace (ms_params snap) clock2 d snap /\ durableReplace io data d = (t, e)) \/
     ((exists fd, d_file d = Some fd /\ fd_bytes fd = data) /\
      finalizeStoreReplace io (begin d) = (t, e))).
Proof.
  unfold save_locked. intros Hs.
  destruct (canonicalMainSnapshot c) as [snap|]; [|left; by simplify_eq].
  destruct (bool_decide_reflect (Some (ms_params snap) = canonicalStoreParams network)) as [Hp|];
    cbn [negb] in Hs; [|left; by simplify_eq].
  destruct (validateAndEncodeCanonicalSnapshot _ _) as [data|] eqn:Hv; [|left; by simplify_eq].
  destruct (readDurableSnapshotLocked _ _ _ _) as [[[[scratch cur] canonical] ex]|] eqn:Hr;
    [|left; by simplify_eq].
  apply read_durable_ok in Hr. destruct ex; cbn [negb] in Hs.
  2:{ right. exists snap, data. split_and!; try done. left. split; [by left|done]. }
  destruct Hr as (fd & Hf & -> & Hd).
  destruct (Z.compare_spec (ms_cumWork snap) (ms_cumWork cur)) as [E|E|E];
    [|left; by simplify_eq|].
  - destruct (bool_decide (ms_tipID snap = _)); cbn [negb] in Hs; [|left; by simplify_eq].
    destruct (bool_decide_reflect (data = fd_bytes fd)) as [->|]; cbn [negb] in Hs;
      [|left; by simplify_eq].
    right. exists snap, (fd_bytes fd). split_and!; try done. right. eauto.
  - right. exists snap, data. split_and!; try done. left. split; [|done]. right. eauto 10.
Qed.

Lemma finalize_begin io d data t e :
  finalizeStoreReplace io (begin d) = (t, e) ->
  safe d data t /\ d_file (t_disk t) = d_file d /\ (e = None -> d_stale (t_disk t) = []).
Proof.
  assert (Hb : safe d data (begin d)).
  { split; [apply old_or_new_refl|by intros ? ?%elem_of_nil]. }
  assert (Hd : old_or_new d data (mkDisk (d_file d) [] (d_temp d))).
  { split; [|by left]. intros x [->|[]%elem_of_nil]%elem_of_cons. left. by left. }
  unfold finalizeStoreReplace. destruct (io_dirOpen io); [intros; by simplify_eq|].
  destruct (io_dirSync io), (io_dirClose io); cbn; intros; simplify_eq;
    (split; [first [done|by apply emit_safe]|done]).
Qed.

(** The state a save goes through, and the one a successful save ends in. *)
Lemma save_spec network io clock1 clock2 c d t e :
  SaveSnapshot network io clock1 clock2 (Some c) d = (t, e) ->
  (t = begin d /\ e <> None) \/
  exists snap data, canonicalMainSnapshot c = Ok snap /\
    Some (ms_params snap) = canonicalStoreParams network /\
    validateAndEncodeCanonicalSnapshot clock1 snap = Ok data /\ safe d data t /\
    ((forall d', d' ∈ t_disk t :: t_trace t -> d_file d' = d_file d) \/
     may_replace (ms_params snap) clock2 d snap) /\
    (e = None -> d_stale (t_disk t) = [] /\
       (new_file data (d_file (t_disk t)) \/
        d_file (t_disk t) = d_file d /\ fd_bytes <$> d_file d = Some data)).
Proof.
  unfold SaveSnapshot. intros Hs.
  destruct (io_lock io); [left; by simplify_eq|].
  destruct (save_locked _ _ _ _ _ _) as [t1 e1] eqn:Hl. simplify_eq.
  assert (Hj : join e1 (io_release io) = None -> e1 = None) by (by destruct e1, (io_release io)).
  apply save_locked_cases in Hl as [[-> He]|(snap & data & Hc & Hp & Hv & Hl)].
  { left. split; [done|]. auto. }
  right. exists snap, data. do 3 (split; [done|]).
  destruct Hl as [[Hm Hd]|[(fd & Hf & Hb) Hd]].
  - pose proof (durableReplace_spec d data io) as Hr. rewrite Hd in Hr. destruct Hr as [Hr1 Hr2].
    split_and!; [done|by right|]. intros [m ->]%Hj%Hr2. split; [done|]. left. by exists m.
  - destruct (finalize_begin _ _ data _ _ Hd) as (Hs & Hf' & Hst).
    split_and!; [done| |].
    + left. intros d' Hd'. unfold finalizeStoreReplace in Hd.
      destruct (io_dirOpen io), (io_dirSync io); cbn in Hd; simplify_eq; cbn in Hd';
        repeat (apply elem_of_cons in Hd' as [->|Hd']; [done|]); by apply elem_of_nil in Hd'.
    + intros He. split; [by apply Hst, Hj|]. right. split; [done|]. by rewrite Hf, <- Hb.
Qed.
End save.

(** ** Replaying a main branch *)
Section rebuild.
Context `{Crypto} (p : Params) (Hpow : pow_params_ok p).
Context (Hval : validateConsensusParams p = Ok tt).

(** [s] holds the branch [l] and nothing else. *)
Record holds_branch (l : list blockIndex) (s : Chain) : Prop := {
  hb_inv : chain_inv p s;
  hb_branch : branch p (c_index s) (c_tip s) l;
  hb_only : forall id b, c_index s !! id = Some b -> b ∈ l;
  hb_mempool : c_mempool s = ∅;
}.

Lemma holds_genesis s : NewChain (Some p) = Ok s -> holds_branch [genesis_index p] s.
Proof.
  intros Hn. pose proof (NewChain_inv p _ Hn) as Hi.
  unfold NewChain in Hn. res_simpl. step_if Hn; [done|]. res_simpl.
  split; cbn [c_index c_tip c_mempool]; [done|constructor| |done].
  intros id b. rewrite lookup_singleton_Some. intros [_ <-]. by left.
Qed.

(** The checks before fork choice accept the next block of the branch. *)
Lemma check_next_header s l bi pw now :
  holds_branch l s -> (pw = true -> CheckPow (bi_header bi) p = true) -> hdr_PrevBlock (bi_header bi) = bi_id (c_tip s) ->
  bi_height bi = bi_height (c_tip s) + 1 ->
  bi_cumWork bi = bi_cumWork (c_tip s) + block_work bi ->
  entry_ok p bi -> header_ok p l bi ->
  not_future p (bi_height bi) (hdr_Time (bi_header bi)) now ->
  check_header s (bi_block bi) pw now (c_tip s) = Ok bi.
Proof.
  intros [Hi Hb _ _] Hpw Hprev Hh Hw [Hid Hm Hs _] [Hsz Hbits Hts] Hnf.
  unfold check_header. fold (bi_header bi). rewrite Hs. cbn [mbind result_bind].
  rewrite (proj2 (Z.leb_le _ _) Hsz). cbn [check mbind result_bind].
  assert (Hct : checkBlockTimestamp s (c_tip s) (bi_height (c_tip s) + 1)
                  (hdr_Time (bi_header bi)) now = Ok tt).
  { apply (checkBlockTimestamp_spec p s (c_tip s) l); [apply Hi|done|by apply window_or_legacy|].
    rewrite <- Hh. done. }
  rewrite Hct. cbn [mbind result_bind].
  rewrite (bitsOnBranch_list p Hpow Hval s _ (c_tip s) l Hi (ci_tip _ _ Hi) Hb), Hbits.
  cbn [mbind result_bind]. rewrite Z.eqb_refl, (ci_params _ _ Hi).
  replace (negb pw || CheckPow (bi_header bi) p) with true
    by (destruct pw; [by rewrite Hpw|done]).
  cbn [check mbind result_bind].
  rewrite (bool_decide_true (MerkleRoot _ = _)) by done. cbn [check mbind result_bind].
  rewrite <- Hid. fold (block_work bi). rewrite <- Hh, <- Hw. by destruct bi.
Qed.

Lemma holds_snoc s l bi u :
  holds_branch l s -> c_index s !! bi_id bi = None -> branch p (c_index s) bi (l ++ [bi]) ->
  replay p (l ++ [bi]) = Ok u -> bi_cumWork (c_tip s) < bi_cumWork bi ->
  holds_branch (l ++ [bi]) (new_tip_state s bi (l ++ [bi]) u).
Proof.
  intros Hs Hf Hb Hr Hw. split.
  - eapply new_tip_inv; eauto using hb_inv.
  - cbn. by apply branch_insert.
  - cbn. intros id b Hl. apply elem_of_app.
    apply lookup_insert_Some in Hl as [[_ <-]|[_ Hl]]; [right; by left|left].
    by eapply (hb_only l s).
  - cbn. rewrite (hb_mempool l s Hs). apply map_filter_empty.
Qed.

Lemma accept_next c s l bi u pw now :
  chain_inv p c -> (pw = true -> CheckPow (bi_header bi) p = true) -> c_index c !! bi_id bi = Some bi -> branch p (c_index c) bi (l ++ [bi]) ->
  replay p (l ++ [bi]) = Ok u -> holds_branch l s -> (forall b, b ∈ l -> c_index c !! bi_id b = Some b) ->
  not_future p (bi_height bi) (hdr_Time (bi_header bi)) now ->
  acceptBlockLocked s (bi_block bi) pw now = (new_tip_state s bi (l ++ [bi]) u, Ok (Some bi))
  /\ holds_branch (l ++ [bi]) (new_tip_state s bi (l ++ [bi]) u).
Proof.
  intros Hc Hpw Hidx Hb Hr Hs Hin Hnf. pose proof Hs as [Hi Hbs Honly Hmem].
  pose proof (branch_length _ _ _ _ Hbs) as Hlen. pose proof (branch_height_nonneg _ _ _ _ Hbs).
  inv Hb as [Hg|parent ? l0 Hb0 Hpar Hpid Hh Hw Hok Hho].
  { destruct l as [|? []]; cbn in *; [lia|done..]. }
  rename select (_ ++ _ = _ ++ _) into Happ. apply app_inj_tail in Happ as [-> _].
  assert (parent = c_tip s) as ->.
  { pose proof (branch_last _ _ _ _ Hb0). pose proof (branch_last _ _ _ _ Hbs). congruence. }
  assert (Hfresh : c_index s !! bi_id bi = None).
  { destruct (c_index s !! bi_id bi) as [b|] eqn:E; [|done]. exfalso.
    pose proof (Honly _ _ E) as Hbl. destruct (ci_index _ _ Hi _ _ E) as [Hbid _].
    pose proof (Hin _ Hbl) as Hcb. rewrite Hbid, Hidx in Hcb. simplify_eq.
    apply list_elem_of_lookup in Hbl as [i Hl]. pose proof (branch_heights _ _ _ _ Hbs _ _ Hl).
    apply lookup_lt_Some in Hl. lia. }
  pose proof (block_work_pos p Hpow _ Hok).
  assert (Hbr : branch p (c_index s) bi (l ++ [bi])).
  { econstructor; eauto. rewrite <- Hpid. apply Hi. }
  split; [|apply holds_snoc; eauto; lia].
  unfold acceptBlockLocked. fold (bi_header bi). rewrite <- (eo_id p _ Hok), Hfresh.
  rewrite decide_False by (intros [? ?]; done).
  rewrite <- Hpid, (ci_tip _ _ Hi).
  rewrite (check_next_header s l) by (eauto; congruence).
  rewrite (proj2 (Z.leb_gt _ _)) by lia. rewrite decide_True by done.
  pose proof (connectTip_spec p s bi l Hi Hbr Hbs) as Hct.
  destruct (connectTipLocked s bi) as [c1 [[]|e]] eqn:Ec.
  - destruct Hct as (u' & Hr' & ->). rewrite Hr in Hr'. apply Ok_inj in Hr' as <-. reflexivity.
  - exfalso. unfold connectTipLocked in Ec. rewrite (ci_params _ _ Hi) in Ec.
    destruct (ci_main _ _ Hi) as (l' & Hb' & _ & Hrl).
    rewrite (branch_unique _ _ _ _ _ Hb' Hbs) in Hrl.
    rewrite replay_snoc, Hrl in Hr. unfold replay_one in Hr.
    by destruct (validateAndApplyLocked _ _ _ _) as [u' [[]|e']].
Qed.

(** ** Frames *)
Definition frame (b : Block) : bytes :=
  be_bytes 4 (u32 (Z.of_nat (length (Block_Bytes b)))) ++ Block_Bytes b.
Definition frames (l : list blockIndex) : bytes := flat_map (fun bi => frame (bi_block bi)) l.

Lemma Block_Bytes_nonempty b : wf_block b -> (0 < length (Block_Bytes b))%nat.
Proof.
  intros Hwf. unfold Block_Bytes. rewrite length_app.
  pose proof (length_Header_Bytes _ (wfb_header _ Hwf)). lia.
Qed.

Lemma load_frame fuel clock s h b rest s' ev :
  wf_block b -> Z.of_nat (length (Block_Bytes b)) <= MaxBlockBytes ->
  acceptStoredBlock s (Some b) (clock h) = (s', Ok ev) ->
  Tip s' = (Header_ID (blk_Header b), h + 1) ->
  load_frames (S fuel) clock s h (frame b ++ rest) = load_frames fuel clock s' (h + 1) rest.
Proof.
  intros Hwf Hsz Ha Ht. pose proof (Block_Bytes_nonempty _ Hwf) as Hpos.
  set (len := Z.of_nat (length (Block_Bytes b))) in *.
  assert (Hu : u32 len = len) by (apply u32_small; unfold in_u32, two32, MaxBlockBytes in *; lia).
  assert (Hv : be_val (be_bytes 4 (u32 len)) = len).
  { rewrite be_val_be_bytes, Hu. apply Z.mod_small. unfold MaxBlockBytes in *. lia. }
  cbn [load_frames]. unfold frame. fold len.
  rewrite (proj2 (Nat.eqb_neq _ _)) by (autorewrite with btc_len; lia).
  rewrite <- app_assoc, (proj2 (Nat.ltb_ge _ _)) by (autorewrite with btc_len; lia).
  cbn [negb check mbind result_bind].
  rewrite take_app_length', drop_app_length' by (symmetry; apply length_be_bytes). rewrite Hv.
  rewrite (proj2 (Z.eqb_neq _ _)), Z.gtb_ltb, (proj2 (Z.ltb_ge _ _)) by lia.
  cbn [orb negb check mbind result_bind].
  rewrite (proj2 (Z.leb_le _ _)) by (rewrite length_app; lia). cbn [check mbind result_bind].
  unfold len. rewrite Nat2Z.id, take_app_length, drop_app_length.
  rewrite DecodeBlock_Bytes by (done || lia). rewrite Ha, Ht.
  rewrite Z.eqb_refl, bool_decide_true by done. reflexivity.
Qed.

Lemma branch_prefix idx tip l1 b l2 :
  branch p idx tip (l1 ++ b :: l2) -> branch p idx b (l1 ++ [b]).
Proof.
  revert tip. induction l2 as [|x l2 IH] using rev_ind; intros tip Hb.
  - pose proof (branch_last _ _ _ _ Hb) as Hl. rewrite last_snoc in Hl. by simplify_eq.
  - rewrite app_comm_cons, app_assoc in Hb. inv Hb as [Hg|parent ? l0 Hb0].
    + destruct l1 as [|? []]; cbn in *; simplify_eq; by destruct l2.
    + rename select (_ ++ _ = _ ++ _) into Ha. apply app_inj_tail in Ha as [-> _]. eauto.
Qed.

(** What the clock and the codec limits must allow for a stored block. *)
Definition storable (clock : Z -> Z) (bi : blockIndex) : Prop :=
  wf_block (bi_block bi) /\
  not_future p (bi_height bi) (hdr_Time (bi_header bi)) (clock (bi_height bi - 1)).

(** A chain that holds the first blocks of another one's main branch accepts the next. *)
Lemma accept_branch_next c s l1 bi l2 pw now :
  chain_inv p c -> branch p (c_index c) (c_tip c) (l1 ++ bi :: l2) -> holds_branch l1 s ->
  (pw = true -> CheckPow (bi_header bi) p = true) ->
  not_future p (bi_height bi) (hdr_Time (bi_header bi)) now ->
  bi_height bi = Z.of_nat (length l1) /\ entry_ok p bi /\ header_ok p l1 bi /\
  exists s', acceptBlockLocked s (bi_block bi) pw now = (s', Ok (Some bi)) /\
    c_tip s' = bi /\ holds_branch (l1 ++ [bi]) s'.
Proof.
  intros Hc Hb Hs Hpw Hnf.
  pose proof (branch_prefix _ _ _ _ _ Hb) as Hbi.
  pose proof (branch_indexed _ _ _ _ Hb (ci_tip _ _ Hc)) as Hin.
  assert (exists u, replay p (l1 ++ [bi]) = Ok u) as [u Hr].
  { destruct (ci_main _ _ Hc) as (l & Hl & _ & Hrl). rewrite (branch_unique _ _ _ _ _ Hl Hb) in Hrl.
    unfold replay in *. rewrite cons_middle, app_assoc, foldM_app in Hrl.
    destruct (foldM _ _ (l1 ++ [bi])); [eauto|done]. }
  destruct (accept_next c s l1 bi u pw now Hc) as [Ha Hs'];
    [done|by apply Hin, elem_of_app; right; left|done|done|done| |done|].
  { intros b Hb'. apply Hin, elem_of_app. by left. }
  pose proof (branch_length _ _ _ _ Hbi) as Hlen. rewrite length_app in Hlen. cbn in Hlen.
  split_and!; [lia|by eapply branch_end_ok| |by eexists].
  inv Hbi as [|? ? ? Hb0].
  - destruct Hs as [_ Hg _ _]. apply branch_length in Hg as ?. apply branch_height_nonneg in Hg.
    destruct l1 as [|? []]; cbn in *; simplify_eq; lia.
  - rename select (_ ++ _ = _ ++ _) into Heq. by apply app_inj_tail in Heq as [<- _].
Qed.

Lemma load_branch c clock l2 : chain_inv p c -> forall l1 s fuel,
  branch p (c_index c) (c_tip c) (l1 ++ l2) -> holds_branch l1 s ->
  Forall (storable clock) l2 -> (length l2 <= fuel)%nat ->
  exists s', load_frames fuel clock s (Z.of_nat (length l1) - 1) (frames l2) = Ok s' /\
             holds_branch (l1 ++ l2) s'.
Proof.
  intros Hc. induction l2 as [|bi l2 IH]; intros l1 s fuel Hb Hs Hall Hfuel.
  { exists s. rewrite app_nil_r. split; [by destruct fuel|done]. }
  apply Forall_cons_1 in Hall as [[Hwf Hnf] Hall]. destruct fuel as [|fuel]; [cbn in Hfuel; lia|].
  destruct (accept_branch_next c s l1 bi l2 false (clock (bi_height bi - 1)) Hc Hb Hs)
    as (Hlen & Hok & [Hsz _ _] & s1 & Ha & Ht & Hs'); [done|done|].
  change (frames (bi :: l2)) with (frame (bi_block bi) ++ frames l2). rewrite <- Hlen.
  erewrite load_frame; [|done|done|unfold acceptStoredBlock; rewrite Ha; reflexivity|].
  2:{ unfold Tip. rewrite Ht. f_equal; [apply (eo_id p _ Hok)|lia]. }
  rewrite cons_middle, app_assoc in Hb.
  destruct (IH _ _ fuel Hb Hs' Hall) as (s' & Hl & Hh); [cbn in Hfuel; lia|].
  rewrite <- app_assoc in Hh. exists s'. split; [|done].
  rewrite <- Hl. f_equal. rewrite length_app. cbn. lia.
Qed.

Lemma frames_app l1 l2 : frames (l1 ++ l2) = frames l1 ++ frames l2.
Proof. apply flat_map_app. Qed.

(** The encoder accepts every branch and writes its frames. *)
Lemma encode_branch idx bi l :
  branch p idx bi l -> Forall (fun b => wf_block (bi_block b)) (tail l) ->
  let g := blk_Header (GenesisBlock p) in
  foldM encode_step ([], Header_ID g, WorkFromTarget (CompactToTarget (hdr_Bits g)))
    (indexed (bi_block <$> tail l)) = Ok (frames (tail l), bi_id bi, bi_cumWork bi).
Proof.
  intros Hb. induction Hb as [|parent bi l Hb IH Hpar Hpid Hh Hw Hok Hho]; [done|].
  assert (Ht : tail (l ++ [bi]) = tail l ++ [bi])
    by (destruct l; [|done]; apply branch_length in Hb as Hn;
        apply branch_height_nonneg in Hb; cbn in Hn; lia).
  rewrite Ht. intros [Hwl Hwf]%Forall_app g. subst g. apply Forall_cons_1 in Hwf as [Hwf _].
  rewrite fmap_app. cbn [fmap list_fmap]. rewrite indexed_snoc, foldM_app, (IH Hwl). cbn [foldM].
  unfold encode_step. destruct Hok as [Hid Hm _ _], Hho as [Hsz _ _].
  pose proof (Block_Bytes_nonempty _ Hwf). fold (bi_header bi).
  rewrite (bool_decide_true (hdr_PrevBlock _ = _)), (bool_decide_true (hdr_MerkleRoot _ = _)) by done.
  rewrite (proj2 (Z.eqb_neq _ _)), Z.gtb_ltb, (proj2 (Z.ltb_ge _ _)) by lia.
  cbn [negb orb check mbind result_bind]. fold (block_work bi).
  rewrite frames_app, <- Hid, <- Hw. cbn. by rewrite app_nil_r.
Qed.

Definition supported (p : Params) : Prop := Name p = Name MainNet \/ Name p = Name RegTest.

Lemma holds_state c l s :
  chain_inv p c -> branch p (c_index c) (c_tip c) l -> holds_branch l s ->
  c_tip s = c_tip c /\ c_mainIDs s = c_mainIDs c /\ c_utxo s = c_utxo c /\ c_params s = c_params c.
Proof.
  intros Hc Hb [Hi Hbs _ _]. destruct (ci_main _ _ Hc) as (l1 & H1 & Hm1 & Hr1).
  destruct (ci_main _ _ Hi) as (l2 & H2 & Hm2 & Hr2).
  rewrite (branch_unique _ _ _ _ _ H1 Hb) in *. rewrite (branch_unique _ _ _ _ _ H2 Hbs) in *.
  pose proof (branch_last _ _ _ _ Hb). pose proof (branch_last _ _ _ _ Hbs).
  rewrite (ci_params _ _ Hc), (ci_params _ _ Hi). split_and!; congruence.
Qed.

Lemma main_snapshot_ok c l :
  chain_inv p c -> branch p (c_index c) (c_tip c) l ->
  canonicalMainSnapshot c = Ok (mkMainSnapshot p (bi_id (c_tip c)) (bi_height (c_tip c))
                                 (bi_cumWork (c_tip c)) (bi_block <$> tail l)).
Proof.
  intros Hc Hb. unfold canonicalMainSnapshot.
  rewrite (canonical_sequence_ok p Hpow c l Hc Hb). cbn [mbind result_bind].
  by rewrite (ci_params _ _ Hc).
Qed.

Lemma encode_main c l :
  chain_inv p c -> branch p (c_index c) (c_tip c) l -> supported p ->
  Forall (fun b => wf_block (bi_block b)) (tail l) ->
  encodeCanonicalSnapshot (mkMainSnapshot p (bi_id (c_tip c)) (bi_height (c_tip c))
    (bi_cumWork (c_tip c)) (bi_block <$> tail l)) = Ok (frames (tail l)).
Proof.
  intros Hc Hb Hsup Hwf. pose proof (branch_length _ _ _ _ Hb) as Hlen.
  pose proof (branch_height_nonneg _ _ _ _ Hb). pose proof (branch_work p Hpow _ _ _ Hb) as [_ Hw].
  unfold encodeCanonicalSnapshot. cbn [ms_params ms_tipHeight ms_blocks ms_cumWork ms_tipID].
  assert (bool_decide (Name p = Name MainNet) || bool_decide (Name p = Name RegTest) = true) as ->.
  { apply orb_true_iff. rewrite !bool_decide_eq_true. exact Hsup. }
  assert (Hlt : Z.of_nat (length (tail l)) = bi_height (c_tip c)) by (destruct l; cbn in *; lia).
  rewrite length_fmap, Hlt, Z.eqb_refl.
  rewrite (proj2 (Z.ltb_ge (bi_height (c_tip c)) 0)), (proj2 (Z.ltb_lt 0 (bi_cumWork (c_tip c)))) by lia.
  cbn [negb orb check mbind result_bind]. rewrite (encode_branch _ _ _ Hb Hwf).
  cbn [mbind result_bind]. rewrite bool_decide_true, Z.eqb_refl by done. reflexivity.
Qed.

Lemma length_frames l : (length l <= length (frames l))%nat.
Proof.
  induction l as [|b l IH]; [done|].
  change (frames (b :: l)) with (frame (bi_block b) ++ frames l). unfold frame.
  autorewrite with btc_len. cbn [length]. lia.
Qed.

(** The decoder rebuilds, from the encoding of a chain, the main branch of it. *)
Lemma snapshot_round_trip c l fresh clock :
  chain_inv p c -> branch p (c_index c) (c_tip c) l -> NewChain (Some p) = Ok fresh ->
  supported p -> Forall (storable clock) (tail l) ->
  exists snap s, canonicalMainSnapshot c = Ok snap /\ ms_params snap = p /\
    ms_tipHeight snap = bi_height (c_tip c) /\
    encodeCanonicalSnapshot snap = Ok (frames (tail l)) /\
    decodeCanonicalSnapshot p clock (frames (tail l)) = Ok (s, snap, frames (tail l)) /\
    holds_branch l s.
Proof.
  intros Hc Hb Hn Hsup Hall.
  assert (Hg : l = [genesis_index p] ++ tail l).
  { clear -Hb. induction Hb as [|? ? l Hb IH]; [done|]. rewrite IH at 1. by rewrite IH. }
  assert (Hwf : Forall (fun b => wf_block (bi_block b)) (tail l))
    by (eapply list.Forall_impl; [done|by intros b [? _]]).
  rewrite Hg in Hb. destruct (load_branch c clock (tail l) Hc [genesis_index p] fresh
    (length (frames (tail l))) Hb (holds_genesis _ Hn) Hall (length_frames _)) as (s & Hl & Hs).
  rewrite <- Hg in Hb, Hs. destruct (holds_state c l s Hc Hb Hs) as (Ht & _ & _ & _).
  eexists _, s. split_and!; [by apply main_snapshot_ok|done|done|by apply encode_main| |done].
  unfold decodeCanonicalSnapshot. rewrite Hn. cbn [mbind result_bind].
  change (Z.of_nat _ - 1) with 0 in Hl. rewrite Hl. cbn [mbind result_bind].
  rewrite (main_snapshot_ok s l (hb_inv _ _ Hs) (hb_branch _ _ Hs)), Ht. cbn [mbind result_bind].
  by rewrite (encode_main c l Hc Hb Hsup Hwf).
Qed.
End rebuild.

(** ** Loading *)
Section load.
Context `{Crypto} (p : Params) (Hpow : pow_params_ok p).

Lemma reachable_fresh c : reachable p c -> exists fresh, NewChain (Some p) = Ok fresh.
Proof. induction 1; eauto. Qed.

Lemma stored_mempool s b now :
  reachable p s -> c_mempool s = ∅ -> c_mempool (acceptStoredBlock s (Some b) now).1 = ∅.
Proof.
  intros Hr Hm. pose proof (reachable_inv _ Hpow _ Hr) as Hi.
  pose proof (reachable_valid _ _ Hr) as Hval. unfold acceptStoredBlock.
  destruct (acceptBlockLocked s b false now) as [s' r] eqn:Ha. cbn [fst].
  apply (acceptBlock_cases p Hpow Hval) in Ha
    as [[-> _]|(bi & l & u & _ & _ & _ & _ & _ & [(_ & -> & _)|(_ & -> & _)])]; [done|done| |done].
  cbn. rewrite Hm. apply map_filter_empty.
Qed.

Lemma load_frames_reachable clock fuel : forall s h r s',
  reachable p s -> c_mempool s = ∅ -> load_frames fuel clock s h r = Ok s' ->
  reachable p s' /\ c_mempool s' = ∅.
Proof.
  induction fuel as [|fuel IH]; intros s h r s' Hr Hm; cbn [load_frames];
    destruct (length r =? 0)%nat; intros Hl; res_simpl; try done.
  destruct (DecodeBlock _) as [b|]; [|done].
  destruct (acceptStoredBlock s (Some b) (clock h)) as [s1 [ev|]] eqn:Ha; [|done].
  assert (Hs1 : s1 = run_op s (OpStored (Some b) (clock h))) by (unfold run_op; by rewrite Ha).
  pose proof (stored_mempool s b (clock h) Hr Hm) as Hm1. rewrite Ha in Hm1.
  destruct (Tip s1). res_simpl. eapply IH; [|done|done]. rewrite Hs1. by constructor.
Qed.

Lemma decode_reachable clock data s snap canonical :
  decodeCanonicalSnapshot p clock data = Ok (s, snap, canonical) ->
  reachable p s /\ c_mempool s = ∅ /\ canonicalMainSnapshot s = Ok snap.
Proof.
  unfold decodeCanonicalSnapshot. intros Hd. res_simpl. simplify_eq.
  rename select (NewChain _ = _) into Hn. rename select (load_frames _ _ _ _ _ = _) into Hl.
  apply load_frames_reachable in Hl as [Hr Hm]; [|by constructor|].
  - by split_and!.
  - unfold NewChain in Hn. res_simpl. step_if Hn; [done|]. by res_simpl.
Qed.

Lemma map_singleton_size (m : gmap Hash32 blockIndex) k v :
  size m = 1%nat -> m !! k = Some v -> m = {[k := v]}.
Proof.
  intros Hsz Hk. rewrite <- (insert_delete_id _ _ _ Hk) in Hsz |- *.
  rewrite map_size_insert_None in Hsz by apply lookup_delete_eq.
  injection Hsz as Hsz. apply map_size_empty_inv in Hsz. by rewrite Hsz.
Qed.

(** The guard on the destination accepts only the state of [NewChain]. *)
Lemma matches_genesis c fresh :
  reachable p c -> NewChain (Some p) = Ok fresh ->
  matchesCanonicalGenesisLocked c fresh = true -> c = fresh.
Proof.
  intros Hr Hn Hm. pose proof (reachable_inv _ Hpow _ Hr) as Hc.
  pose proof (reachable_inv _ Hpow _ (reach_new _ _ Hn)) as Hf.
  unfold matchesCanonicalGenesisLocked in Hm. repeat (apply andb_true_iff in Hm as [Hm ?]).
  bool_prop. repeat match goal with H : (_ =? _)%nat = true |- _ => apply Nat.eqb_eq in H end.
  apply map_size_empty_inv in Hm. rename select (c_mainIDs c = _) into Hids.
  rename select (size (c_index c) = _) into Hsz.
  unfold NewChain in Hn. res_simpl. step_if Hn; [done|]. res_simpl. cbn [c_mainIDs c_index] in Hids, Hsz.
  rewrite map_size_singleton in Hsz. destruct (ci_main _ _ Hc) as (l & Hb & Hids' & Hrl).
  rewrite Hids in Hids'. pose proof (branch_last _ _ _ _ Hb) as Hlast.
  pose proof (branch_length _ _ _ _ Hb) as Hlen.
  destruct l as [|b []]; [done| |done]. cbn in Hlast, Hlen. simplify_eq.
  inv Hb as [Hg|? ? ? ? ? ? Hh]; [|rename select (_ ++ _ = [_]) into Ha;
    apply app_singleton in Ha as [[-> _]|[? ?]]; [|done];
    rename select (branch _ _ _ []) into Hb0; apply branch_length in Hb0 as Hb1;
    apply branch_height_nonneg in Hb0; cbn in Hb1; lia].
  assert (Hi : c_index c = {[bi_id (genesis_index p) := genesis_index p]})
    by (apply map_singleton_size; [done|apply Hc]).
  rewrite <- Hg, replay_genesis in Hrl. apply Ok_inj in Hrl.
  transitivity (mkChain (c_params c) (c_index c) (c_tip c) (c_mainIDs c) (c_utxo c) (c_mempool c));
    [by destruct c|].
  by rewrite Hi, Hm, Hids, <- Hg, (ci_params _ _ Hc), <- Hrl.
Qed.
End load.
