(* ===== verification/Pplns.v ===== *)
(** * The PPLNS share window and its payouts (pool/pplns.go, and the target
    parser of pool/pplns_work.go)

    A window of the last [WindowShares] verified shares, persisted before a
    share is acknowledged, and the exact-sum allocation of a block reward to the
    addresses of the window by largest remainders.  The JSON encoder of the
    state file is the parameter [marshal]; the outcome of the file operations is
    an argument.  Times are nanoseconds since the Unix epoch.  A Go map is
    iterated in an arbitrary order: the two loops of [pplnsOutputsFromWork] take
    the order as an argument. *)
From S2P Require Import Prelude Text Params Crypto Pow Wire Address Merkle Chain.

(** ** Canonical hexadecimal fields *)
Definition parseCanonicalTarget (value : bytes) : result Z :=
  match canonical_hex 32 value with
  | None => Err (EText "target is not canonical hex")
  | Some raw => let target := be_val raw in
                if target <=? 0 then Err (EText "target must be positive") else Ok target
  end.

Definition parseCanonicalWork (value : bytes) : result Z :=
  match canonical_hex 34 value with
  | None => Err (EText "work is not canonical hex")
  | Some raw => let work := be_val raw in
                if (work <=? 0) || (2 ^ 268 <=? work) then Err (EText "work must be positive")
                else Ok work
  end.

Definition validLowerHex (value : bytes) (n : Z) : bool :=
  (Z.of_nat (length value) =? n) &&
  forallb (fun c => let v := b2z c in
             negb (((v <? 48) || (57 <? v)) && ((v <? 97) || (102 <? v)))) value.

(** ** The window *)
Record PPLNSShare := mkShare {
  sh_Sequence : Z; sh_Address : bytes; sh_JobID : bytes; sh_Nonce : Z; sh_ShareHash : bytes;
  sh_ShareTarget : bytes; sh_TipHash : bytes; sh_TipHeight : Z; sh_AcceptedAt : Z }.

Record PPLNSSnapshot := mkPPLNSSnapshot {
  ps_SchemaVersion : Z; ps_Network : string; ps_WindowShares : Z; ps_MaxAddresses : Z;
  ps_NextSequence : Z; ps_Shares : list PPLNSShare }.

(** [w_file] is the content of the state file at [w.path]. *)
Record PPLNSWindow := mkWindow {
  w_state : PPLNSSnapshot; w_closed : bool; w_file : option bytes }.

Definition pplnsStateSchemaVersion : Z := 2.
Definition maxPPLNSStateBytes : Z := 256 * 1024.
Definition maxUint64 : Z := two64 - 1.
Definition ErrPPLNSAddressLimit : error := EText "PPLNS payout-address limit reached".
Definition ErrPPLNSDuplicateShare : error := EText "PPLNS share was already accepted".
Definition ErrPPLNSClosed : error := EText "PPLNS window is closed".

(** The instant of the zero [time.Time], year 1. *)
Definition zeroTime : Z := -62135596800 * 1000000000.

Definition pplnsShareKey (share : PPLNSShare) : bytes :=
  sh_JobID share ++ bs ":" ++ dec_string (sh_Nonce share).

Definition set_sequence (share : PPLNSShare) (n : Z) : PPLNSShare :=
  mkShare n (sh_Address share) (sh_JobID share) (sh_Nonce share) (sh_ShareHash share)
    (sh_ShareTarget share) (sh_TipHash share) (sh_TipHeight share) (sh_AcceptedAt share).

Section window.
Context `{Crypto}.

(** [err != nil || pkh == zero || EncodeAddress(pkh) != address] *)
Definition payout_pkh (address : bytes) : option bytes :=
  match DecodeAddress address with
  | Err _ => None
  | Ok pkh => if bool_decide (pkh = zeros 20) || negb (bool_decide (EncodeAddress pkh = address))
              then None else Some pkh
  end.

Definition validatePPLNSShare (share : PPLNSShare) (stored : bool) : result unit :=
  _ ← (if stored
       then check (negb (sh_Sequence share =? 0)) (EText "stored share sequence is missing")
       else check (sh_Sequence share =? 0) (EText "new share must not choose its sequence"));
  _ ← check (bool_decide (is_Some (payout_pkh (sh_Address share))))
        (EText "share payout address is invalid");
  _ ← check (validLowerHex (sh_JobID share) 32 && validLowerHex (sh_ShareHash share) 64
             && validLowerHex (sh_TipHash share) 64) (EText "share proof identity is invalid");
  _ ← check (is_ok (parseCanonicalTarget (sh_ShareTarget share))) (EText "share target is invalid");
  check (negb ((sh_TipHeight share <? 0) || (sh_AcceptedAt share =? zeroTime)))
    (EText "share height or acceptance time is invalid").

Definition network_max_target (network : string) : Z :=
  if decide (network = MainNetMachineID) then MaxTarget MainNet else MaxTarget RegTest.

(** One iteration of [validatePPLNSState]: the state is [addresses], [seen] and
    [previous]. *)
Definition state_step (network : string) (st : gset bytes * gset bytes * Z)
    (ish : nat * PPLNSShare) : result (gset bytes * gset bytes * Z) :=
  let '(addresses, seen, previous) := st in
  let '(index, share) := ish in
  match validatePPLNSShare share true with
  | Err e => Err (EWrap "invalid PPLNS share" (Z.of_nat index) e)
  | Ok _ =>
      target ← parseCanonicalTarget (sh_ShareTarget share);
      _ ← check (target <=? network_max_target network)
            (EText "PPLNS share target exceeds network maximum");
      _ ← check (negb ((0 <? index)%nat && negb (sh_Sequence share =? u64 (previous + 1))))
            (EText "PPLNS share sequence is not contiguous");
      let key := pplnsShareKey share in
      _ ← check (negb (bool_decide (key ∈ seen))) ErrPPLNSDuplicateShare;
      Ok ({[sh_Address share]} ∪ addresses, {[key]} ∪ seen, sh_Sequence share)
  end.

Definition validatePPLNSState (state : PPLNSSnapshot) (network : string)
    (windowShares maxAddresses : Z) : result unit :=
  _ ← check ((ps_SchemaVersion state =? pplnsStateSchemaVersion)
             && bool_decide (ps_Network state = network)
             && (ps_WindowShares state =? windowShares)
             && (ps_MaxAddresses state =? maxAddresses) && negb (ps_NextSequence state <? 1))
        (EText "PPLNS state identity or bounds do not match configuration");
  _ ← check (Z.of_nat (length (ps_Shares state)) <=? windowShares)
        (EText "PPLNS state exceeds its share window");
  '(addresses, _, previous) ←
    foldM (state_step network) (∅, ∅, 0) (indexed (ps_Shares state));
  _ ← (if (length (ps_Shares state) =? 0)%nat
       then check (ps_NextSequence state =? 1) (EText "empty PPLNS state has an invalid sequence")
       else check (negb ((previous =? maxUint64)
                         || negb (ps_NextSequence state =? u64 (previous + 1))))
              (EText "PPLNS next sequence does not follow the window"));
  check (Z.of_nat (size addresses) <=? maxAddresses) ErrPPLNSAddressLimit.

(** The candidate state of [Accept]. *)
Definition append_share (state : PPLNSSnapshot) (share : PPLNSShare) : PPLNSSnapshot :=
  let shares := ps_Shares state ++ [share] in
  let n := Z.of_nat (length shares) in
  mkPPLNSSnapshot (ps_SchemaVersion state) (ps_Network state) (ps_WindowShares state)
    (ps_MaxAddresses state) (u64 (ps_NextSequence state + 1))
    (if n >? ps_WindowShares state then drop (Z.to_nat (n - ps_WindowShares state)) shares
     else shares).

(** The checks of [Accept]: the candidate, its encoding with the final newline,
    and the share with its sequence number. *)
Definition accept_candidate (marshal : PPLNSSnapshot -> result bytes) (hardLink : option error)
    (w : PPLNSWindow) (share : PPLNSShare) : result (PPLNSSnapshot * bytes * PPLNSShare) :=
  _ ← validatePPLNSShare share false;
  _ ← check (negb (w_closed w)) ErrPPLNSClosed;
  let state := w_state w in
  let key := pplnsShareKey share in
  _ ← check (negb (existsb (fun e => bool_decide (pplnsShareKey e = key)) (ps_Shares state)))
        ErrPPLNSDuplicateShare;
  _ ← check (negb (ps_NextSequence state =? maxUint64)) (EText "PPLNS sequence exhausted");
  let share := set_sequence share (ps_NextSequence state) in
  let candidate := append_share state share in
  _ ← validatePPLNSState candidate (ps_Network candidate) (ps_WindowShares candidate)
        (ps_MaxAddresses candidate);
  encoded ← marshal candidate;
  let encoded := encoded ++ [Byte.x0a] in
  _ ← check (Z.of_nat (length encoded) <=? maxPPLNSStateBytes)
        (EText "PPLNS state exceeds size bound");
  _ ← match hardLink with Some e => Err e | None => Ok tt end;
  Ok (candidate, encoded, share).

(** [hardLink] is the outcome of [rejectPPLNSHardLink]; [written] is the outcome
    of the durable replacement and, when it failed, whether the new file is in
    place nevertheless. *)
Definition Accept (marshal : PPLNSSnapshot -> result bytes) (hardLink : option error)
    (written : option error * bool) (w : PPLNSWindow) (share : PPLNSShare)
    : PPLNSWindow * result PPLNSShare :=
  match accept_candidate marshal hardLink w share with
  | Err e => (w, Err e)
  | Ok (candidate, encoded, share) =>
      match written with
      | (None, _) => (mkWindow candidate (w_closed w) (Some encoded), Ok share)
      | (Some e, replaced) =>
          (mkWindow (w_state w) (w_closed w) (if replaced then Some encoded else w_file w),
           Err (EWrap "persist PPLNS share" 0 e))
      end
  end.

Definition Close (w : PPLNSWindow) : PPLNSWindow := mkWindow (w_state w) true (w_file w).

(** ** Payouts *)
Record allocation := mkAlloc {
  al_address : bytes; al_pkh : bytes; al_value : Z; al_remainder : Z }.

(** [sort.Slice] with larger remainders first, ties by address. *)
Definition remainder_le (a b : allocation) : Prop :=
  al_remainder b < al_remainder a \/
  al_remainder a = al_remainder b /\ bytes_le (al_address a) (al_address b).
#[global] Instance remainder_le_dec a b : Decision (remainder_le a b).
Proof. unfold remainder_le. apply _. Defined.

Definition address_le (a b : allocation) : Prop := bytes_le (al_address a) (al_address b).
#[global] Instance address_le_dec a b : Decision (address_le a b).
Proof. unfold address_le. apply _. Defined.

Definition allocate (reward totalWork : Z) (aw : bytes * Z) : allocation :=
  let numerator := reward * aw.2 in
  mkAlloc aw.1 (match DecodeAddress aw.1 with Ok pkh => pkh | Err _ => zeros 20 end)
    (numerator / totalWork) (numerator mod totalWork).

Definition add_unit (a : allocation) : allocation :=
  mkAlloc (al_address a) (al_pkh a) (al_value a + 1) (al_remainder a).

Definition payout_step (reward : Z) (st : list TxOut * Z) (a : allocation)
    : result (list TxOut * Z) :=
  let '(outputs, total) := st in
  _ ← check (negb ((al_value a <=? 0) || (total >? reward - al_value a)))
        (EText "PPLNS payout invariant failed");
  Ok (outputs ++ [mkTxOut (al_value a) (al_pkh a)], total + al_value a).

Definition valid_weight (aw : bytes * Z) : bool :=
  bool_decide (is_Some (payout_pkh aw.1)) && negb ((aw.2 <=? 0) || (2 ^ 268 <=? aw.2)).

(** The body of [pplnsOutputsFromWork]: [ws1] and [ws2] are the orders in which
    the two loops visit the map.  The quotients are at most [reward], so
    [allocated] does not overflow. *)
Definition outputs_in_order (ws1 ws2 : list (bytes * Z)) (reward : Z) : result (list TxOut) :=
  _ ← check (negb ((reward <=? 0) || negb (MoneyRange reward) || (length ws1 =? 0)%nat
                   || (256 <? Z.of_nat (length ws1))))
        (EText "PPLNS payout weights or reward are invalid");
  _ ← check (negb (reward <? Z.of_nat (length ws1)))
        (EText "PPLNS reward cannot produce positive outputs");
  _ ← check (forallb valid_weight ws1) (EText "PPLNS payout weight is invalid");
  let totalWork := sumZ (snd <$> ws1) in
  _ ← check (negb ((totalWork <=? 0) || (2 ^ 268 <=? totalWork)))
        (EText "PPLNS total payout weight is invalid");
  let allocations := allocate reward totalWork <$> ws2 in
  _ ← check (forallb (fun a => al_value a <? two63) allocations)
        (EText "PPLNS payout quotient is out of range");
  let leftover := reward - sumZ (al_value <$> allocations) in
  let sorted := merge_sort remainder_le allocations in
  _ ← check (negb ((leftover <? 0) || (leftover >? Z.of_nat (length sorted))))
        (EText "PPLNS rounding invariant failed");
  let n := Z.to_nat leftover in
  let final := merge_sort address_le ((add_unit <$> take n sorted) ++ drop n sorted) in
  '(outputs, total) ← foldM (payout_step reward) ([], 0) final;
  _ ← check (total =? reward) (EText "PPLNS payouts do not exhaust reward");
  Ok outputs.

Definition pplnsOutputsFromWork (weights : gmap bytes Z) (reward : Z) : result (list TxOut) :=
  outputs_in_order (map_to_list weights) (map_to_list weights) reward.

Definition pplnsOutputsFromCounts (counts : gmap bytes Z) (reward : Z) : result (list TxOut) :=
  _ ← check (forallb (fun e => negb ((e.2 <=? 0) || (4096 <? e.2))) (map_to_list counts))
        (EText "PPLNS payout weight is invalid");
  pplnsOutputsFromWork counts reward.

(** The targets were validated: [parseCanonicalTarget] does not fail here. *)
Definition share_work (share : PPLNSShare) : Z :=
  match parseCanonicalTarget (sh_ShareTarget share) with
  | Ok target => WorkFromTarget target
  | Err _ => 0
  end.

Definition add_weight (weights : gmap bytes Z) (share : PPLNSShare) : gmap bytes Z :=
  <[sh_Address share := default 0 (weights !! sh_Address share) + share_work share]> weights.

Definition pplnsPayouts (state : PPLNSSnapshot) (reward : Z) : result (list TxOut) :=
  _ ← check (negb ((reward <=? 0) || negb (MoneyRange reward))) (EText "PPLNS reward is out of range");
  _ ← check (negb (length (ps_Shares state) =? 0)%nat) (EText "PPLNS window has no shares");
  _ ← check (bool_decide (ps_Network state = MainNetMachineID)
             || bool_decide (ps_Network state = RegTestMachineID))
        (EText "PPLNS snapshot network is invalid");
  _ ← match validatePPLNSState state (ps_Network state) (ps_WindowShares state)
              (ps_MaxAddresses state) with
      | Ok _ => Ok tt
      | Err e => Err (EWrap "invalid PPLNS snapshot" 0 e)
      end;
  pplnsOutputsFromWork (fold_left add_weight (ps_Shares state) ∅) reward.

Definition Payouts (w : PPLNSWindow) (reward : Z) : result (list TxOut) :=
  _ ← check (negb ((reward <=? 0) || negb (MoneyRange reward))) (EText "PPLNS reward is out of range");
  _ ← check (negb (w_closed w)) ErrPPLNSClosed;
  pplnsPayouts (w_state w) reward.
End window.
