(* ===== verification/PplnsProofs.v ===== *)
(** * PPLNS payouts: lemmas

    The largest-remainder allocation: the rounding leftover is smaller than the
    number of addresses, every address receives its proportional share rounded
    down or up, and the result does not depend on the iteration order of the Go
    map. *)
From S2P Require Import Prelude Text Params Crypto Pow Wire Address Merkle Chain ChainView Pplns.

(** ** Sorting *)
#[global] Instance remainder_le_total : Total remainder_le.
Proof.
  intros a b. unfold remainder_le.
  destruct (total bytes_le (al_address a) (al_address b)),
    (Z.lt_trichotomy (al_remainder a) (al_remainder b)) as [?|[E|?]]; rewrite ?E; tauto.
Qed.
#[global] Instance remainder_le_trans : Transitive remainder_le.
Proof.
  intros a b c [H1|[E1 H1]] [H2|[E2 H2]]; [left; lia..|].
  right. split; [lia|]. by etrans.
Qed.
#[global] Instance address_le_total : Total address_le.
Proof. intros a b. apply (total bytes_le). Qed.
#[global] Instance address_le_trans : Transitive address_le.
Proof. intros a b c. unfold address_le. apply transitivity. Qed.

(** Sorting permutations of a list gives one result when elements that compare
    equal are equal. *)
Lemma merge_sort_perm {A} (R : relation A) `{!RelDecision R, !Transitive R, !Total R} l1 l2 :
  (forall x y, x ∈ l1 -> y ∈ l1 -> R x y -> R y x -> x = y) -> l1 ≡ₚ l2 ->
  merge_sort R l1 = merge_sort R l2.
Proof.
  intros Ha Hp. apply (StronglySorted_unique_strong R).
  - intros x y. rewrite !merge_sort_Permutation, <- Hp. apply Ha.
  - by apply StronglySorted_merge_sort.
  - by apply StronglySorted_merge_sort.
  - by rewrite !merge_sort_Permutation.
Qed.

Lemma distinct_keys {A} (f : A -> bytes) l : NoDup (f <$> l) ->
  forall x y, x ∈ l -> y ∈ l -> f x = f y -> x = y.
Proof.
  induction l as [|a l IH]; intros Hnd x y Hx Hy Hf; [by apply elem_of_nil in Hx|].
  apply list.NoDup_cons in Hnd as [Hni Hnd].
  apply elem_of_cons in Hx as [->|Hx]; apply elem_of_cons in Hy as [->|Hy];
    [done| | |by apply IH].
  - exfalso. apply Hni. rewrite Hf. by apply list_elem_of_fmap_2.
  - exfalso. apply Hni. rewrite <- Hf. by apply list_elem_of_fmap_2.
Qed.

(** ** The allocation *)
Section alloc.
Context `{Crypto} (reward T : Z).
Hypothesis (HT : 0 < T).

Abbreviation alloc := (allocate reward T).

Lemma floor_sum (ws : list (bytes * Z)) :
  T * sumZ (al_value <$> (alloc <$> ws)) + sumZ (al_remainder <$> (alloc <$> ws))
  = reward * sumZ (snd <$> ws).
Proof.
  induction ws as [|[a w] ws IH]; cbn in *; [lia|].
  pose proof (Z.div_mod (reward * w) T ltac:(lia)). lia.
Qed.

Lemma remainder_sum (ws : list (bytes * Z)) :
  0 <= sumZ (al_remainder <$> (alloc <$> ws)) /\
  (ws <> [] -> sumZ (al_remainder <$> (alloc <$> ws)) < Z.of_nat (length ws) * T).
Proof.
  induction ws as [|[a w] ws [IH1 IH2]]; [done|]. cbn [fmap list_fmap sumZ length al_remainder allocate snd].
  pose proof (Z.mod_pos_bound (reward * w) T HT). split; [lia|]. intros _.
  destruct ws as [|x ws]; [cbn in *; lia|]. specialize (IH2 ltac:(done)). lia.
Qed.

Definition leftover (ws : list (bytes * Z)) : Z := reward - sumZ (al_value <$> (alloc <$> ws)).

(** The units left by rounding down are fewer than the addresses. *)
Lemma leftover_bound ws : ws <> [] -> sumZ (snd <$> ws) = T ->
  0 <= leftover ws < Z.of_nat (length ws).
Proof.
  intros Hne Hsum. pose proof (floor_sum ws). pose proof (remainder_sum ws) as [? Hlt].
  specialize (Hlt Hne). unfold leftover. rewrite Hsum in *. nia.
Qed.

Lemma value_le_reward ws aw : 0 <= reward -> sumZ (snd <$> ws) = T ->
  Forall (fun x => 0 < x.2) ws -> aw ∈ ws -> 0 <= al_value (alloc aw) <= reward.
Proof.
  intros Hr Hsum Hpos Hin.
  assert (Hw : 0 < aw.2 <= T).
  { rewrite <- Hsum. clear Hsum. induction Hpos as [|x ws Hx Hpos IH]; [by apply elem_of_nil in Hin|].
    cbn. assert (0 <= sumZ (snd <$> ws)).
    { apply sumZ_nonneg, Forall_fmap. eapply list.Forall_impl; [done|]. cbn. lia. }
    apply elem_of_cons in Hin as [->|Hin]; [lia|]. specialize (IH Hin). lia. }
  cbn. split; [apply Z.div_pos; nia|]. apply Z.div_le_upper_bound; nia.
Qed.

(** An address with weight [w] and its final allocation. *)
Definition fair (aw : bytes * Z) (a : allocation) : Prop :=
  al_address a = aw.1 /\ al_pkh a = al_pkh (alloc aw) /\
  reward * aw.2 / T <= al_value a <= reward * aw.2 / T + 1.

Lemma bumped_fair n ws :
  Forall2 fair ws ((add_unit <$> take n (alloc <$> ws)) ++ drop n (alloc <$> ws)).
Proof.
  revert n; induction ws as [|aw ws IH]; intros [|n]; cbn; [constructor..| |].
  - constructor; [split_and!; cbn; (done || lia)|]. apply (IH 0%nat).
  - constructor; [split_and!; cbn; (done || lia)|]. apply IH.
Qed.

Lemma bumped_sum n (l : list allocation) : (n <= length l)%nat ->
  sumZ (al_value <$> ((add_unit <$> take n l) ++ drop n l)) = sumZ (al_value <$> l) + Z.of_nat n.
Proof.
  revert n; induction l as [|a l IH]; intros [|n] Hn; cbn in *; [lia|lia|lia|].
  rewrite IH by lia. lia.
Qed.
End alloc.

Lemma fair_addresses `{Crypto} reward T l ws :
  Forall2 (flip (fair reward T)) l ws -> al_address <$> l = fst <$> ws.
Proof. induction 1 as [|a aw l ws [Ha _] _ IH]; cbn; [done|]. by rewrite Ha, IH. Qed.

Lemma sorted_addresses l : StronglySorted address_le l -> StronglySorted bytes_le (al_address <$> l).
Proof. induction 1 as [|a l _ IH Hall]; cbn; constructor; [done|]. by apply Forall_fmap. Qed.

Lemma payout_steps_ok reward l : forall outs total,
  Forall (fun a => 0 < al_value a) l -> total + sumZ (al_value <$> l) <= reward ->
  foldM (payout_step reward) (outs, total) l
  = Ok (outs ++ ((fun a => mkTxOut (al_value a) (al_pkh a)) <$> l), total + sumZ (al_value <$> l)).
Proof.
  induction l as [|a l IH]; intros outs total Hpos Hle; cbn [foldM fmap list_fmap sumZ] in *.
  { by rewrite app_nil_r, Z.add_0_r. }
  apply Forall_cons_1 in Hpos as [Ha Hpos].
  assert (0 <= sumZ (al_value <$> l)).
  { apply sumZ_nonneg, Forall_fmap. eapply list.Forall_impl; [done|]. cbn. lia. }
  unfold payout_step at 1. rewrite (proj2 (Z.leb_gt _ _)), Z.gtb_ltb, (proj2 (Z.ltb_ge _ _)) by lia.
  cbn [orb negb check mbind result_bind]. rewrite IH by (done || lia).
  rewrite <- app_assoc. cbn. f_equal. f_equal. lia.
Qed.

Lemma payout_steps_inv reward l : forall outs total outs' total',
  foldM (payout_step reward) (outs, total) l = Ok (outs', total') ->
  Forall (fun a => 0 < al_value a) l /\
  outs' = outs ++ ((fun a => mkTxOut (al_value a) (al_pkh a)) <$> l) /\
  total' = total + sumZ (al_value <$> l).
Proof.
  induction l as [|a l IH]; intros outs total outs' total' Hf; cbn [foldM] in Hf.
  { res_simpl. simplify_eq. cbn. rewrite app_nil_r, Z.add_0_r. by split_and!. }
  destruct (payout_step reward (outs, total) a) as [[o t]|] eqn:Es; [|done].
  unfold payout_step in Es. res_simpl. bool_prop. simplify_eq.
  apply IH in Hf as (Hp & -> & ->). cbn [fmap list_fmap sumZ]. rewrite <- app_assoc.
  split_and!; [by constructor|done|lia].
Qed.

(** ** The outputs *)
Section outputs.
Context `{Crypto}.

(** [outs] pays the addresses of [ws], in address order, their shares of
    [reward] rounded to a neighbouring unit. *)
Definition pays_fairly (ws : list (bytes * Z)) (reward : Z) (outs : list TxOut) : Prop :=
  exists ws', ws' ≡ₚ ws /\ StronglySorted bytes_le (fst <$> ws') /\
    Forall2 (fun aw o => payout_pkh aw.1 = Some (out_PubKeyHash o) /\ 0 < out_Value o /\
      reward * aw.2 / sumZ (snd <$> ws) <= out_Value o
        <= reward * aw.2 / sumZ (snd <$> ws) + 1) ws' outs.

(** The conditions checked before the allocation. *)
Record weights_ok (ws : list (bytes * Z)) (reward : Z) : Prop := {
  wo_reward : 0 < reward <= MaxMoneyUnits;
  wo_len : (0 < length ws)%nat /\ Z.of_nat (length ws) <= 256;
  wo_min : Z.of_nat (length ws) <= reward;
  wo_valid : Forall (fun aw => valid_weight aw = true) ws;
  wo_total : 0 < sumZ (snd <$> ws) < 2 ^ 268;
}.

(** What remains of the code after the checks that cannot fail. *)
Definition settle (ws1 ws2 : list (bytes * Z)) (reward : Z) : list allocation :=
  let T := sumZ (snd <$> ws1) in
  let sorted := merge_sort remainder_le (allocate reward T <$> ws2) in
  let n := Z.to_nat (leftover reward T ws2) in
  merge_sort address_le ((add_unit <$> take n sorted) ++ drop n sorted).

Lemma settle_spec ws1 ws2 reward :
  weights_ok ws1 reward -> ws2 ≡ₚ ws1 ->
  sumZ (al_value <$> settle ws1 ws2 reward) = reward /\
  exists ws', ws' ≡ₚ ws1 /\ StronglySorted bytes_le (fst <$> ws') /\
    Forall2 (fair reward (sumZ (snd <$> ws1))) ws' (settle ws1 ws2 reward).
Proof.
  intros [Hr [Hl1 Hl2] Hm Hv [HT _]] Hp. set (T := sumZ (snd <$> ws1)) in *.
  assert (Hsum : sumZ (snd <$> ws2) = T) by (unfold T; by rewrite Hp).
  assert (Hne : ws2 <> []) by (intros ->; apply Permutation_nil in Hp as ->; cbn in Hl1; lia).
  pose proof (leftover_bound reward T HT ws2 Hne Hsum) as Hlo.
  pose proof (merge_sort_Permutation remainder_le (allocate reward T <$> ws2)) as Hms.
  destruct (Permutation_map_inv _ _ Hms) as (ws3 & Hs3 & Hp3).
  unfold settle. fold T. set (n := Z.to_nat (leftover reward T ws2)).
  rewrite Hs3. change (map (allocate reward T) ws3) with (allocate reward T <$> ws3).
  set (bumped := (add_unit <$> take n (allocate reward T <$> ws3)) ++ drop n (allocate reward T <$> ws3)).
  assert (Hb : Forall2 (fair reward T) ws3 bumped) by apply bumped_fair.
  assert (Hbs : sumZ (al_value <$> bumped) = reward).
  { unfold bumped. rewrite bumped_sum by (rewrite length_fmap, <- Hp3; lia).
    assert (sumZ (al_value <$> (allocate reward T <$> ws3))
            = sumZ (al_value <$> (allocate reward T <$> ws2))) as -> by (by rewrite Hp3).
    unfold n, leftover in *. lia. }
  pose proof (merge_sort_Permutation address_le bumped) as Hmp.
  split; [by rewrite Hmp|].
  apply Forall2_flip in Hb. destruct (Permutation_Forall2 (symmetry Hmp) Hb) as (ws4 & Hp4 & Hb4).
  exists ws4. split_and!; [by rewrite <- Hp4, <- Hp3| |by apply Forall2_flip].
  rewrite <- (fair_addresses _ _ _ _ Hb4). apply sorted_addresses, StronglySorted_merge_sort; apply _.
Qed.

(** The code is its checks followed by [settle]; of the later checks only the
    positivity of the outputs can fail. *)
Lemma outputs_in_order_spec ws1 ws2 reward outs :
  ws2 ≡ₚ ws1 ->
  outputs_in_order ws1 ws2 reward = Ok outs <->
  weights_ok ws1 reward /\ Forall (fun a => 0 < al_value a) (settle ws1 ws2 reward) /\
  outs = (fun a => mkTxOut (al_value a) (al_pkh a)) <$> settle ws1 ws2 reward.
Proof.
  intros Hp.
  assert (Hchk : weights_ok ws1 reward ->
    outputs_in_order ws1 ws2 reward =
    ('(outputs, total) ← foldM (payout_step reward) ([], 0) (settle ws1 ws2 reward);
     _ ← check (total =? reward) (EText "PPLNS payouts do not exhaust reward"); Ok outputs)).
  { intros [Hr [Hl1 Hl2] Hm Hv [HT HT2]]. set (T := sumZ (snd <$> ws1)) in *.
    assert (Hsum : sumZ (snd <$> ws2) = T) by (unfold T; by rewrite Hp).
    assert (Hne : ws2 <> []) by (intros ->; apply Permutation_nil in Hp as ->; cbn in Hl1; lia).
    pose proof (leftover_bound reward T HT ws2 Hne Hsum) as Hlo.
    unfold outputs_in_order. fold T.
    assert (Hfv : forallb valid_weight ws1 = true)
      by (apply forallb_forall; intros x Hx%list_elem_of_In; by eapply list.Forall_forall in Hv).
    rewrite Hfv, (proj2 (MoneyRange_spec reward)) by lia.
    rewrite (proj2 (Z.leb_gt reward 0)), (proj2 (Nat.eqb_neq _ _)), (proj2 (Z.ltb_ge 256 _)),
      (proj2 (Z.ltb_ge reward _)), (proj2 (Z.leb_gt T 0)), (proj2 (Z.leb_gt (2 ^ 268) T)) by lia.
    cbn [orb negb check mbind result_bind].
    assert (Hq : forallb (fun a => al_value a <? two63) (allocate reward T <$> ws2) = true).
    { apply forallb_forall. intros x Hx%list_elem_of_In. apply list_elem_of_fmap in Hx as (aw & -> & Hx).
      apply Z.ltb_lt. assert (al_value (allocate reward T aw) <= reward); [|unfold two63, MaxMoneyUnits, UnitsPerCoin in *; lia].
      apply (value_le_reward reward T HT ws2); [lia|done| |done]. rewrite Hp.
      eapply list.Forall_impl; [done|]. intros y Hy. unfold valid_weight in Hy. bool_prop. lia. }
    rewrite Hq. cbn [check mbind result_bind]. fold (leftover reward T ws2).
    rewrite (Permutation_length (merge_sort_Permutation _ _)), length_fmap.
    rewrite (proj2 (Z.ltb_ge _ 0)), Z.gtb_ltb, (proj2 (Z.ltb_ge _ (leftover reward T ws2))) by lia.
    cbn [orb negb check mbind result_bind]. reflexivity. }
  split.
  - intros Ho. assert (Hok : weights_ok ws1 reward).
    { clear Hchk. unfold outputs_in_order in Ho. res_simpl. clear Ho. bool_prop.
      repeat match goal with H : (_ =? _)%nat = _ |- _ => apply Nat.eqb_neq in H end.
      rename select (MoneyRange _ = true) into Hmr. apply MoneyRange_spec in Hmr.
      split; try lia. apply list.Forall_forall. intros aw Hx.
      rename select (forallb _ ws1 = true) into Hfv. rewrite forallb_forall in Hfv.
      by apply Hfv, list_elem_of_In. }
    split; [done|]. rewrite (Hchk Hok) in Ho. res_simpl. destruct x as [o t]. res_simpl.
    rename select (foldM _ _ _ = _) into Hf. by apply payout_steps_inv in Hf as (Hpos & -> & _).
  - intros (Hok & Hpos & ->). rewrite (Hchk Hok).
    destruct (settle_spec _ _ _ Hok Hp) as [Hs _].
    rewrite payout_steps_ok by (done || lia). cbn [mbind result_bind app].
    rewrite Hs, Z.eqb_refl. done.
Qed.

Lemma outputs_fair ws1 ws2 reward outs :
  ws2 ≡ₚ ws1 -> outputs_in_order ws1 ws2 reward = Ok outs ->
  sumZ (out_Value <$> outs) = reward /\ pays_fairly ws1 reward outs.
Proof.
  intros Hp (Hok & Hpos & ->)%outputs_in_order_spec; [|done].
  destruct (settle_spec _ _ _ Hok Hp) as (Hs & ws' & Hp' & Hso & Hf).
  rewrite <- list_fmap_compose. split; [exact Hs|].
  exists ws'. split_and!; [done..|]. apply Forall2_fmap_r.
  assert (Hv : Forall (fun aw => valid_weight aw = true) ws') by (rewrite Hp'; apply Hok).
  clear -Hf Hpos Hv. induction Hf as [|aw a ws l Hfa Hf IH]; [constructor|].
  apply Forall_cons_1 in Hpos as [Ha Hpos], Hv as [Hva Hv]. constructor; [|by apply IH].
  destruct Hfa as (_ & Hpk & Hb). unfold compose. cbn. split_and!; [|done|lia|lia].
  rewrite Hpk. cbn. unfold valid_weight in Hva. bool_prop.
  rename select (is_Some _) into Hi. destruct Hi as [k Hk]. rewrite Hk. unfold payout_pkh in Hk.
  destruct (DecodeAddress aw.1); [|done]. by case_match; simplify_eq.
Qed.

(** Enough work for one unit each is enough. *)
Lemma outputs_defined ws1 ws2 reward :
  ws2 ≡ₚ ws1 -> weights_ok ws1 reward ->
  Forall (fun aw => sumZ (snd <$> ws1) <= reward * aw.2) ws1 ->
  exists outs, outputs_in_order ws1 ws2 reward = Ok outs.
Proof.
  intros Hp Hok Hmin. eexists. apply outputs_in_order_spec; [done|]. split_and!; [done| |done].
  destruct (settle_spec _ _ _ Hok Hp) as (_ & ws' & Hp' & _ & Hf).
  pose proof (wo_total _ _ Hok) as [HT _]. set (T := sumZ _) in *.
  assert (Hmin' : Forall (fun aw => T <= reward * aw.2) ws') by (by rewrite Hp').
  clear -Hf Hmin' HT. rename Hmin' into Hmin. induction Hf as [|aw a ws l Hfa Hf IH]; [constructor|].
  apply Forall_cons_1 in Hmin as [Ha Hmin]. constructor; [|by apply IH].
  destruct Hfa as (_ & _ & Hb). assert (1 <= reward * aw.2 / T); [|lia].
  apply Z.div_le_lower_bound; lia.
Qed.

Lemma weights_ok_perm ws ws' reward : ws ≡ₚ ws' -> weights_ok ws reward -> weights_ok ws' reward.
Proof. intros Hp [? ? ? ? ?]. split; rewrite <- ?Hp; done. Qed.

(** The iteration order does not matter. *)
Lemma settle_perm ws1 ws2 ws1' ws2' reward :
  NoDup (fst <$> ws2) -> ws1 ≡ₚ ws1' -> ws2 ≡ₚ ws2' ->
  settle ws1 ws2 reward = settle ws1' ws2' reward.
Proof.
  intros Hnd H1 H2. unfold settle.
  assert (sumZ (snd <$> ws1') = sumZ (snd <$> ws1)) as -> by (by rewrite H1).
  set (T := sumZ (snd <$> ws1)).
  assert (Hs : merge_sort remainder_le (allocate reward T <$> ws2)
               = merge_sort remainder_le (allocate reward T <$> ws2')).
  { apply merge_sort_perm; [apply _|apply _| |by apply fmap_Permutation].
    intros x y Hx Hy [Hlt|[Er Hxy]] [Hlt'|[Er' Hyx]]; try lia.
    assert (Hk : al_address x = al_address y) by (apply (anti_symm bytes_le); done).
    revert Hk. apply (distinct_keys al_address (allocate reward T <$> ws2)); [|done|done].
    rewrite <- list_fmap_compose. exact Hnd. }
  assert (leftover reward T ws2' = leftover reward T ws2) as -> by (unfold leftover; by rewrite H2).
  by rewrite Hs.
Qed.

Lemma outputs_deterministic ws1 ws2 ws1' ws2' reward :
  NoDup (fst <$> ws2) -> ws1 ≡ₚ ws1' -> ws2 ≡ₚ ws2' -> ws2 ≡ₚ ws1 -> forall outs,
  outputs_in_order ws1 ws2 reward = Ok outs <-> outputs_in_order ws1' ws2' reward = Ok outs.
Proof.
  intros Hnd H1 H2 H12 outs. assert (ws2' ≡ₚ ws1') by (by rewrite <- H1, <- H2).
  rewrite !outputs_in_order_spec, (settle_perm ws1 ws2 ws1' ws2') by done.
  split; intros (Hw & ? & ?); split_and!; try done.
  - by apply (weights_ok_perm ws1).
  - by apply (weights_ok_perm ws1').
Qed.
End outputs.

(** ** The window *)
Section window.
Context `{Crypto}.

Definition share_valid (network : string) (s : PPLNSShare) : Prop :=
  validatePPLNSShare s true = Ok tt /\
  exists t, parseCanonicalTarget (sh_ShareTarget s) = Ok t /\ t <= network_max_target network.

Lemma state_fold_spec network l A S prev :
  foldM (state_step network) (∅, ∅, 0) (indexed l) = Ok (A, S, prev) ->
  A = list_to_set (sh_Address <$> l) /\ S = list_to_set (pplnsShareKey <$> l) /\
  NoDup (pplnsShareKey <$> l) /\ Forall (share_valid network) l /\
  prev = default 0 (sh_Sequence <$> last l).
Proof.
  revert A S prev. induction l as [|s l IH] using rev_ind; intros A S prev Hf.
  { cbn in Hf. simplify_eq. split_and!; try done; constructor. }
  rewrite indexed_snoc, foldM_app in Hf.
  destruct (foldM _ _ (indexed l)) as [[[A0 S0] p0]|] eqn:E; [|done].
  destruct (IH _ _ _ eq_refl) as (-> & -> & Hnd & Hv & ->). cbn [foldM] in Hf.
  destruct (state_step _ _ _) as [[[A1 S1] p1]|] eqn:Es; [|done]. simplify_eq.
  unfold state_step in Es. destruct (validatePPLNSShare s true) as [[]|] eqn:Ev; [|done].
  res_simpl. bool_prop. simplify_eq. rewrite !fmap_app. cbn [fmap list_fmap].
  split_and!.
  - set_solver.
  - set_solver.
  - apply NoDup_app. split_and!; [done| |apply NoDup_singleton].
    intros k Hk Hk'. apply list_elem_of_singleton in Hk' as ->.
    rename select (_ ∉ _) into Hni. apply Hni. set_solver.
  - apply Forall_app. split; [done|]. constructor; [|constructor]. split; eauto.
  - by rewrite last_snoc.
Qed.

Lemma validate_state_spec s network ws ma :
  validatePPLNSState s network ws ma = Ok tt ->
  Z.of_nat (length (ps_Shares s)) <= ws /\ NoDup (pplnsShareKey <$> ps_Shares s) /\
  Forall (share_valid network) (ps_Shares s) /\
  Z.of_nat (size (list_to_set (C := gset bytes) (sh_Address <$> ps_Shares s))) <= ma /\
  (forall sh, last (ps_Shares s) = Some sh -> ps_NextSequence s = u64 (sh_Sequence sh + 1)).
Proof.
  unfold validatePPLNSState. intros Hv. res_simpl. destruct x1 as [[A S] prev]. res_simpl.
  rename select (foldM _ _ _ = _) into Hf. apply state_fold_spec in Hf as (-> & _ & Hnd & Hall & ->).
  bool_prop. split_and!; try done.
  intros sh Hl. rewrite Hl in *. destruct (ps_Shares s) as [|s0 l]; [done|].
  cbn [length Nat.eqb fmap option_fmap option_map default] in *. res_simpl. bool_prop. done.
Qed.

(** ** A history of submissions *)
(** What [Accept] is called with: the share and the outcomes of the file
    operations. *)
Record attempt := mkAttempt {
  at_marshal : PPLNSSnapshot -> result bytes; at_hardLink : option error;
  at_written : option error * bool; at_share : PPLNSShare }.

Definition attempt_step (st : PPLNSWindow * list PPLNSShare) (a : attempt)
    : PPLNSWindow * list PPLNSShare :=
  let '(w, hist) := st in
  match Accept (at_marshal a) (at_hardLink a) (at_written a) w (at_share a) with
  | (w', Ok s) => (w', hist ++ [s])
  | (w', Err _) => (w', hist)
  end.

Definition run_attempts (w : PPLNSWindow) (l : list attempt) : PPLNSWindow * list PPLNSShare :=
  fold_left attempt_step l (w, []).

(** The last [n] elements. *)
Definition last_n {A} (n : nat) (l : list A) : list A := drop (length l - n) l.

(** A window as [NewPPLNSWindow] creates it without a state file. *)
Definition fresh_window (network : string) (windowShares maxAddresses : Z) : PPLNSWindow :=
  mkWindow (mkPPLNSSnapshot pplnsStateSchemaVersion network windowShares maxAddresses 1 [])
    false None.

Record window_inv (network : string) (n m : Z) (hist : list PPLNSShare) (w : PPLNSWindow)
    : Prop := {
  wi_id : ps_SchemaVersion (w_state w) = pplnsStateSchemaVersion /\
    ps_Network (w_state w) = network /\ ps_WindowShares (w_state w) = n /\
    ps_MaxAddresses (w_state w) = m;
  wi_next : ps_NextSequence (w_state w) = Z.of_nat (length hist) + 1 /\
    Z.of_nat (length hist) + 1 <= maxUint64;
  wi_shares : ps_Shares (w_state w) = last_n (Z.to_nat n) hist;
  wi_seq : forall i s, hist !! i = Some s -> sh_Sequence s = Z.of_nat i + 1;
  wi_valid : Forall (share_valid network) (ps_Shares (w_state w)) /\
    NoDup (pplnsShareKey <$> ps_Shares (w_state w)) /\
    Z.of_nat (size (list_to_set (C := gset bytes) (sh_Address <$> ps_Shares (w_state w)))) <= m;
}.

Lemma last_n_snoc {A} n (l : list A) x : (0 < n)%nat ->
  last_n n (l ++ [x]) =
  if decide (n < length (last_n n l) + 1)%nat then tail (last_n n l) ++ [x] else last_n n l ++ [x].
Proof.
  intros Hn. unfold last_n. rewrite length_app, length_drop. cbn [length].
  destruct (decide _) as [Hlt|Hge].
  - assert (Ht : forall l' : list A, tail l' = drop 1 l') by (by intros []).
    rewrite Ht, drop_drop, drop_app_le by lia. f_equal. f_equal. lia.
  - rewrite drop_app_le by lia. f_equal. f_equal. lia.
Qed.

Lemma Accept_inv network n m hist w a :
  0 < n -> window_inv network n m hist w ->
  let '(w', hist') := attempt_step (w, hist) a in
  window_inv network n m hist' w' /\
  (hist' = hist /\ w_state w' = w_state w \/
   exists s, hist' = hist ++ [s] /\ s = set_sequence (at_share a) (ps_NextSequence (w_state w)) /\
     exists enc, at_marshal a (w_state w') = Ok enc /\ w_file w' = Some (enc ++ [Byte.x0a])).
Proof.
  intros Hn [(Hsv & <- & <- & <-) [Hnx Hmax] Hsh Hseq Hval]. set (n := ps_WindowShares _) in *. unfold attempt_step, Accept.
  destruct (accept_candidate _ _ _ _) as [[[cand enc] s]|] eqn:Ea; [|split; [done|by left]].
  destruct (at_written a) as [[e|] b]; [split; [done|by left]|].
  unfold accept_candidate in Ea. res_simpl. bool_prop. simplify_eq.
  rename select (validatePPLNSState _ _ _ _ = _) into Hv. destruct x3.
  apply validate_state_spec in Hv as (Hlen & Hnd & Hall & Haddr & _).
  set (s := set_sequence _ _) in *. set (cand := append_share _ _) in *.
  rename select (ps_NextSequence _ <> maxUint64) into Hne.
  assert (Hu : u64 (ps_NextSequence (w_state w) + 1) = Z.of_nat (length (hist ++ [s])) + 1).
  { rewrite length_app, Hnx. cbn. unfold maxUint64, two64 in *. rewrite u64_small; [lia|].
    unfold in_u64, two64. lia. }
  split; [|right; exists s; split_and!; [done|done|eauto]].
  assert (Hcs : ps_Shares cand = last_n (Z.to_nat n) (hist ++ [s])).
  { rewrite last_n_snoc by lia. unfold cand, append_share. cbn [ps_Shares].
    fold n. rewrite Hsh, length_app. cbn [length]. rewrite Z.gtb_ltb.
    destruct (Z.ltb_spec n (Z.of_nat (length (last_n (Z.to_nat n) hist) + 1)));
      [rewrite decide_True by lia|by rewrite decide_False by lia].
    assert (length (last_n (Z.to_nat n) hist) <= Z.to_nat n)%nat
      by (unfold last_n; rewrite length_drop; lia).
    replace (Z.to_nat _) with 1%nat by lia.
    destruct (last_n (Z.to_nat n) hist) eqn:E; [cbn in *; lia|done]. }
  split; cbn [w_state].
  - done.
  - rewrite <- Hu. split; [done|]. rewrite Hu, length_app. cbn. unfold maxUint64 in *. lia.
  - exact Hcs.
  - intros i t Hi. apply lookup_app_Some in Hi as [Hi|[Hge Hi]]; [by apply Hseq|].
    destruct (i - length hist)%nat eqn:E; [|done]. cbn in Hi. simplify_eq. cbn. lia.
  - done.
Qed.

Lemma run_attempts_inv network n m l w hist : 0 < n -> 0 <= m ->
  run_attempts (fresh_window network n m) l = (w, hist) -> window_inv network n m hist w.
Proof.
  intros Hn Hm Hrun.
  assert (Hinv : forall l st, window_inv network n m st.2 st.1 ->
    window_inv network n m (fold_left attempt_step l st).2 (fold_left attempt_step l st).1).
  { intros l0. induction l0 as [|a l0 IH]; intros [w0 h0] H0; [done|]. cbn [fold_left]. apply IH.
    pose proof (Accept_inv network n m h0 w0 a Hn H0) as Ha.
    destruct (attempt_step (w0, h0) a) as [w1 h1]. apply Ha. }
  unfold run_attempts in Hrun. specialize (Hinv l (fresh_window network n m, [])).
  rewrite Hrun in Hinv. apply Hinv.
  split; cbn [fst snd fresh_window w_state ps_SchemaVersion ps_Network ps_WindowShares
    ps_MaxAddresses ps_NextSequence ps_Shares].
  - done.
  - by vm_compute.
  - unfold last_n. by rewrite drop_nil.
  - by intros [].
  - split_and!; [constructor|constructor|done].
Qed.
End window.

(** ** The weights of a window *)
Definition map_sum (m : gmap bytes Z) : Z := sumZ (snd <$> map_to_list m).

Lemma map_sum_insert (m : gmap bytes Z) k x : m !! k = None -> map_sum (<[k := x]> m) = x + map_sum m.
Proof. intros Hk. unfold map_sum. by rewrite map_to_list_insert. Qed.

Lemma map_sum_add (m : gmap bytes Z) k x :
  map_sum (<[k := default 0 (m !! k) + x]> m) = map_sum m + x.
Proof.
  destruct (m !! k) as [v|] eqn:E; cbn.
  - rewrite <- insert_delete_eq, map_sum_insert by apply lookup_delete_eq.
    pose proof (map_sum_insert (delete k m) k v (lookup_delete_eq _ _)) as Hm.
    rewrite (insert_delete_id m k v E) in Hm. lia.
  - rewrite map_sum_insert by done. lia.
Qed.

Section weights.
Context `{Crypto}.

(** The work an address did in the window. *)
Definition address_work (shares : list PPLNSShare) (a : bytes) : Z :=
  sumZ (share_work <$> filter (fun s => sh_Address s = a) shares).

Definition window_weights (shares : list PPLNSShare) : gmap bytes Z := fold_left add_weight shares ∅.

Lemma window_weights_snoc l s : window_weights (l ++ [s]) = add_weight (window_weights l) s.
Proof. unfold window_weights. by rewrite fold_left_app. Qed.

Lemma address_work_snoc l s a :
  address_work (l ++ [s]) a
  = address_work l a + (if decide (sh_Address s = a) then share_work s else 0).
Proof.
  unfold address_work. rewrite filter_app, fmap_app, sumZ_app. f_equal.
  destruct (decide (sh_Address s = a)); [rewrite filter_cons_True by done|by rewrite filter_cons_False].
  cbn. lia.
Qed.

Lemma address_work_absent l a : a ∉ sh_Address <$> l -> address_work l a = 0.
Proof.
  induction l as [|s l IH] using rev_ind; [done|]. rewrite fmap_app. intros Hn.
  rewrite address_work_snoc, IH by set_solver. rewrite decide_False by set_solver. done.
Qed.

Lemma window_weights_lookup l a :
  window_weights l !! a =
  if decide (a ∈ sh_Address <$> l) then Some (address_work l a) else None.
Proof.
  induction l as [|s l IH] using rev_ind; [done|].
  rewrite window_weights_snoc, address_work_snoc, fmap_app. unfold add_weight.
  destruct (decide (sh_Address s = a)) as [<-|Hne].
  - rewrite lookup_insert_eq, IH, (decide_True (P := _ ∈ _ ++ _)) by set_solver.
    f_equal. case_decide as Hin; cbn; [done|]. by rewrite address_work_absent.
  - rewrite lookup_insert_ne, IH by done. rewrite Z.add_0_r.
    repeat case_decide; set_solver.
Qed.

Lemma window_weights_total l : map_sum (window_weights l) = sumZ (share_work <$> l).
Proof.
  induction l as [|s l IH] using rev_ind; [done|].
  rewrite window_weights_snoc, fmap_app, sumZ_app. unfold add_weight.
  rewrite map_sum_add, IH. cbn. lia.
Qed.

Lemma window_weights_dom l : dom (window_weights l) = list_to_set (sh_Address <$> l).
Proof.
  apply set_eq. intros a. rewrite elem_of_dom, window_weights_lookup, elem_of_list_to_set.
  case_decide; split; try done; intros [? ?]; done.
Qed.

Lemma window_weights_elem l a w :
  (a, w) ∈ map_to_list (window_weights l) <-> a ∈ sh_Address <$> l /\ w = address_work l a.
Proof.
  rewrite elem_of_map_to_list, window_weights_lookup. case_decide; naive_solver.
Qed.

(** *** Bounds of the work of valid shares *)
Lemma valid_share_work network s : share_valid network s -> 1 <= share_work s <= 2 ^ 255.
Proof.
  intros (_ & t & Ht & Hle). unfold share_work. rewrite Ht. unfold parseCanonicalTarget in Ht.
  destruct (canonical_hex 32 _) as [raw|] eqn:E; [|done].
  case_match eqn:Hz; [done|]. bool_prop. simplify_eq.
  assert (Hlen : length raw = 32%nat).
  { unfold canonical_hex in E. destruct (hex_decode _); [|done]. case_match eqn:Eb; [done|].
    simplify_eq. bool_prop. by apply Nat.eqb_eq. }
  pose proof (be_val_bound raw) as Hb. rewrite Hlen in Hb.
  change (256 ^ Z.of_nat 32) with (2 ^ 256) in Hb. split; [apply WorkFromTarget_pos; lia|].
  unfold WorkFromTarget. change (2 ^ 256) with (2 * 2 ^ 255).
  apply Z.div_le_upper_bound; nia.
Qed.

Lemma share_valid_pkh network s : share_valid network s -> is_Some (payout_pkh (sh_Address s)).
Proof. intros [Hv _]. unfold validatePPLNSShare in Hv. res_simpl. by bool_prop. Qed.

Lemma works_bound network l : Forall (share_valid network) l ->
  Z.of_nat (length l) <= sumZ (share_work <$> l) <= Z.of_nat (length l) * 2 ^ 255.
Proof.
  induction 1 as [|s l Hs _ IH]; cbn [fmap list_fmap sumZ length]; [lia|].
  pose proof (valid_share_work _ _ Hs). lia.
Qed.

Lemma address_work_bound network l a : Forall (share_valid network) l -> a ∈ sh_Address <$> l ->
  0 < address_work l a <= Z.of_nat (length l) * 2 ^ 255.
Proof.
  intros Hv Hin. unfold address_work. set (f := filter _ l).
  assert (Hf : Forall (share_valid network) f).
  { apply list.Forall_forall. intros s [_ Hs]%list_elem_of_filter. by eapply list.Forall_forall in Hv. }
  pose proof (works_bound _ _ Hf). pose proof (length_filter (fun s => sh_Address s = a) l) as Hlen.
  fold f in Hlen. assert (0 < length f)%nat; [|nia].
  apply list_elem_of_fmap in Hin as (s & -> & Hs).
  assert (s ∈ f) as Hsf by (by apply list_elem_of_filter).
  destruct f; [by apply elem_of_nil in Hsf|cbn; lia].
Qed.

Lemma window_weights_ok network l reward :
  Forall (share_valid network) l -> l <> [] -> Z.of_nat (length l) <= 4096 ->
  Z.of_nat (size (list_to_set (C := gset bytes) (sh_Address <$> l))) <= 256 ->
  0 < reward <= MaxMoneyUnits ->
  Z.of_nat (size (list_to_set (C := gset bytes) (sh_Address <$> l))) <= reward ->
  weights_ok (map_to_list (window_weights l)) reward.
Proof.
  intros Hv Hne Hlen Ha Hr Hmin.
  assert (Hsz : length (map_to_list (window_weights l))
                = size (list_to_set (C := gset bytes) (sh_Address <$> l)))
    by (by rewrite length_map_to_list, <- size_dom, window_weights_dom).
  pose proof (works_bound _ _ Hv). pose proof (window_weights_total l) as Ht. unfold map_sum in Ht.
  split; rewrite ?Hsz, ?Ht; try lia.
  - split; [|lia]. destruct l as [|s l]; [done|]. cbn.
    rewrite size_union_alt, size_singleton. lia.
  - apply list.Forall_forall. intros [a w] [Hin ->]%window_weights_elem.
    pose proof (address_work_bound _ _ _ Hv Hin). unfold valid_weight. cbn.
    apply andb_true_iff. split.
    + apply bool_decide_eq_true. apply list_elem_of_fmap in Hin as (s & -> & Hs).
      eapply share_valid_pkh. by eapply list.Forall_forall in Hv.
    + rewrite (proj2 (Z.leb_gt _ 0)), (proj2 (Z.leb_gt (2 ^ 268) _)); [done| |lia].
      assert (4096 * 2 ^ 255 < 2 ^ 268) by (vm_compute; done). nia.
  - assert (4096 * 2 ^ 255 < 2 ^ 268) by (vm_compute; done).
    destruct l as [|s l]; [done|]. cbn [length] in *. nia.
Qed.
End weights.
