(* ===== verification/PplnsFile.v ===== *)
(** * Opening the PPLNS window (pool/pplns.go: [NewPPLNSWindow], [loadPPLNSState]
    and the scan for duplicate JSON keys)

    The file system and the JSON decoder are arguments: what opening and reading the
    state file gives, the tokens of its content and the decoded state.  The theorems
    show that the scan accepts exactly the values without a repeated key, and that a
    restart finds the window as it was. *)
From S2P Require Import Prelude Text Params Crypto Pow Wire Address Merkle Chain Pplns PplnsProofs.

(** ** The scan for duplicate keys *)
(** The tokens of [json.Decoder]; [TAtom] is a number, a boolean or null. *)
Inductive token := TObj | TObjEnd | TArr | TArrEnd | TStr (s : bytes) | TAtom.

#[global] Instance token_eq_dec : EqDecision token.
Proof. solve_decision. Defined.

(** [decoder.More()] *)
Definition more (ts : list token) : bool :=
  match ts with [] | TObjEnd :: _ | TArrEnd :: _ => false | _ => true end.

(** Where [walkPPLNSJSONValue] is: before a value, or in the loop of an object with
    the keys seen so far, or of an array. *)
Inductive position := AtValue | InObject (seen : gset bytes) | InArray.

Fixpoint walkPPLNSJSONValue (fuel : nat) (at_ : position) (ts : list token) : result (list token) :=
  match fuel with
  | O => Err (EPanic "out of fuel")
  | S fuel =>
      match at_ with
      | AtValue =>
          match ts with
          | [] => Err (EText "EOF")
          | TObj :: ts => walkPPLNSJSONValue fuel (InObject ∅) ts
          | TArr :: ts => walkPPLNSJSONValue fuel InArray ts
          | _ :: ts => Ok ts
          end
      | InObject seen =>
          if more ts then
            match ts with
            | TStr key :: ts =>
                if decide (key ∈ seen) then Err (EText "duplicate JSON key")
                else ts ← walkPPLNSJSONValue fuel AtValue ts;
                     walkPPLNSJSONValue fuel (InObject ({[key]} ∪ seen)) ts
            | _ => Err (EText "JSON object key is invalid")
            end
          else match ts with
               | TObjEnd :: ts => Ok ts
               | _ => Err (EText "unterminated JSON object")
               end
      | InArray =>
          if more ts then
            ts ← walkPPLNSJSONValue fuel AtValue ts; walkPPLNSJSONValue fuel InArray ts
          else match ts with
               | TArrEnd :: ts => Ok ts
               | _ => Err (EText "unterminated JSON array")
               end
      end
  end.

(** Every call consumes a token or returns, so this fuel is enough (see
    [duplicate_keys_exact]). *)
Definition rejectPPLNSDuplicateJSONKeys (ts : list token) : result unit :=
  rest ← walkPPLNSJSONValue (S (length ts)) AtValue ts;
  check (bool_decide (rest = [])) (EText "trailing JSON data").

(** ** The state file *)
Record PPLNSConfig := mkPPLNSWindowConfig { pf_WindowShares : Z; pf_MaxAddresses : Z }.
Definition defaultPPLNSWindowShares : Z := 256.
Definition defaultPPLNSMaxAddresses : Z := 64.

Record file_info := mkFileInfo { fi_regular : bool; fi_size : Z; fi_perm : Z }.
(** What opening the state file gives: there is none, an error, or the outcomes of
    [Stat] and of reading at most [maxPPLNSStateBytes + 1] bytes. *)
Inductive opened := FileNotExist | OpenError (e : error) | OpenFile (stat : result file_info) (read : result bytes).

(** The strict JSON decoder: the tokens of a text, the snapshot it decodes to, and
    whether anything follows the value. *)
Class SnapshotDecoder := {
  json_tokens : bytes -> list token;
  json_Unmarshal : bytes -> result PPLNSSnapshot;
  json_trailing : bytes -> bool }.

Section load.
Context `{Crypto} `{SnapshotDecoder}.

Definition empty_state (network : string) (windowShares maxAddresses : Z) : PPLNSSnapshot :=
  mkPPLNSSnapshot pplnsStateSchemaVersion network windowShares maxAddresses 1 [].

(** On Unix, where the permissions are checked. *)
Definition loadPPLNSState (hardLink : option error) (file : opened) (network : string)
    (windowShares maxAddresses : Z) : result PPLNSSnapshot :=
  _ ← match hardLink with Some e => Err e | None => Ok tt end;
  match file with
  | FileNotExist => Ok (empty_state network windowShares maxAddresses)
  | OpenError e => Err e
  | OpenFile stat read =>
      info ← stat;
      _ ← check (negb (negb (fi_regular info) || (fi_size info <=? 0)
                       || (fi_size info >? maxPPLNSStateBytes)))
            (EText "PPLNS state size or type is invalid");
      _ ← check (fi_perm info =? 384) (EText "PPLNS state must use mode 0600");
      encoded ← match read with
                | Ok b => if Z.of_nat (length b) >? maxPPLNSStateBytes
                          then Err (EText "PPLNS state exceeds size bound") else Ok b
                | Err _ => Err (EText "PPLNS state exceeds size bound")
                end;
      _ ← match rejectPPLNSDuplicateJSONKeys (json_tokens encoded) with
          | Ok _ => Ok tt | Err e => Err (EWrap "PPLNS state JSON is invalid" 0 e) end;
      state ← match json_Unmarshal encoded with
              | Ok s => Ok s | Err _ => Err (EText "PPLNS state JSON is invalid") end;
      _ ← check (negb (json_trailing encoded)) (EText "PPLNS state contains trailing JSON");
      _ ← validatePPLNSState state network windowShares maxAddresses;
      Ok state
  end.

(** [path] and [lock] are the outcomes of resolving the path and locking it. *)
Definition NewPPLNSWindow (network : string) (config : PPLNSConfig) (path lock : result unit)
    (hardLink : option error) (file : opened) : result PPLNSWindow :=
  _ ← check (bool_decide (network = MainNetMachineID) || bool_decide (network = RegTestMachineID))
        (EText "unsupported PPLNS network");
  let ws := if pf_WindowShares config =? 0 then defaultPPLNSWindowShares else pf_WindowShares config in
  let ma := if pf_MaxAddresses config =? 0 then defaultPPLNSMaxAddresses else pf_MaxAddresses config in
  _ ← check (negb ((ws <? 1) || (ws >? 4096)))
        (EText "PPLNS window must contain between 1 and 4096 shares");
  _ ← check (negb ((ma <? 1) || (ma >? 256) || (ma >? ws)))
        (EText "PPLNS address limit must fit inside the share window");
  _ ← path;
  _ ← match lock with Ok _ => Ok tt | Err e => Err (EWrap "lock PPLNS state" 0 e) end;
  state ← loadPPLNSState hardLink file network ws ma;
  Ok (mkWindow state false (match file with OpenFile _ (Ok b) => Some b | _ => None end)).
End load.

(** ** JSON values *)
Inductive json :=
  | JAtom
  | JString (s : bytes)
  | JObject (fs : fields)
  | JArray (vs : values)
with fields := FNil | FCons (key : bytes) (v : json) (fs : fields)
with values := VNil | VCons (v : json) (vs : values).

Scheme json_mut := Induction for json Sort Prop
  with fields_mut := Induction for fields Sort Prop
  with values_mut := Induction for values Sort Prop.
Combined Scheme json_ind3 from json_mut, fields_mut, values_mut.

Fixpoint tokens (v : json) : list token :=
  match v with
  | JAtom => [TAtom]
  | JString s => [TStr s]
  | JObject fs => TObj :: field_tokens fs
  | JArray vs => TArr :: value_tokens vs
  end
with field_tokens (fs : fields) : list token :=
  match fs with FNil => [TObjEnd] | FCons k v fs => TStr k :: tokens v ++ field_tokens fs end
with value_tokens (vs : values) : list token :=
  match vs with VNil => [TArrEnd] | VCons v vs => tokens v ++ value_tokens vs end.

Fixpoint keys (fs : fields) : list bytes :=
  match fs with FNil => [] | FCons k _ fs => k :: keys fs end.

(** No object in the value repeats a key. *)
Fixpoint distinct (v : json) : Prop :=
  match v with
  | JObject fs => NoDup (keys fs) /\ distinct_fields fs
  | JArray vs => distinct_values vs
  | _ => True
  end
with distinct_fields (fs : fields) : Prop :=
  match fs with FNil => True | FCons _ v fs => distinct v /\ distinct_fields fs end
with distinct_values (vs : values) : Prop :=
  match vs with VNil => True | VCons v vs => distinct v /\ distinct_values vs end.

(** The scan of a value, as a test. *)
Fixpoint scan (v : json) : bool :=
  match v with
  | JObject fs => scan_fields ∅ fs
  | JArray vs => scan_values vs
  | _ => true
  end
with scan_fields (seen : gset bytes) (fs : fields) : bool :=
  match fs with
  | FNil => true
  | FCons k v fs => bool_decide (k ∉ seen) && scan v && scan_fields ({[k]} ∪ seen) fs
  end
with scan_values (vs : values) : bool :=
  match vs with VNil => true | VCons v vs => scan v && scan_values vs end.

Lemma scan_spec :
  (forall v, scan v = true <-> distinct v) /\
  (forall fs seen, scan_fields seen fs = true <->
     NoDup (keys fs) /\ Forall (fun k => k ∉ seen) (keys fs) /\ distinct_fields fs) /\
  (forall vs, scan_values vs = true <-> distinct_values vs).
Proof.
  apply json_ind3; cbn [scan scan_fields scan_values distinct distinct_fields distinct_values keys].
  - done.
  - done.
  - intros fs IH. rewrite IH. split; [by intros (? & _ & ?)|]. intros [? ?]. split_and!; try done.
    apply list.Forall_forall. set_solver.
  - done.
  - intros seen. split; [|done]. intros _. split_and!; constructor.
  - intros k v IHv fs IHfs seen. rewrite !andb_true_iff, bool_decide_eq_true, IHv, IHfs.
    rewrite list.NoDup_cons, Forall_cons, !list.Forall_forall.
    set_solver.
  - done.
  - intros v IHv vs IHvs. by rewrite andb_true_iff, IHv, IHvs.
Qed.

(** The outcome of a scan: the rest of the tokens, or an error. *)
Definition outcome_is (ok : bool) (rest : list token) (r : result (list token)) : Prop :=
  if ok then r = Ok rest else exists e, r = Err e.

Lemma more_tokens v ts : more (tokens v ++ ts) = true.
Proof. by destruct v. Qed.

Lemma tokens_pos v : (1 <= length (tokens v))%nat.
Proof. destruct v; cbn; lia. Qed.
Lemma value_tokens_pos vs : (1 <= length (value_tokens vs))%nat.
Proof. destruct vs as [|v vs]; cbn; [lia|]. rewrite length_app. pose proof (tokens_pos v). lia. Qed.

Lemma then_outcome a b mid rest r f : outcome_is a mid r -> outcome_is b rest (f mid) ->
  outcome_is (a && b) rest (r ≫= f).
Proof. destruct a; cbn [andb outcome_is]; [by intros ->|]. intros [e ->] _. by exists e. Qed.

Lemma walk_spec :
  (forall v fuel rest, (length (tokens v) <= fuel)%nat ->
     outcome_is (scan v) rest (walkPPLNSJSONValue fuel AtValue (tokens v ++ rest))) /\
  (forall fs seen fuel rest, (length (field_tokens fs) <= fuel)%nat ->
     outcome_is (scan_fields seen fs) rest
       (walkPPLNSJSONValue fuel (InObject seen) (field_tokens fs ++ rest))) /\
  (forall vs fuel rest, (length (value_tokens vs) <= fuel)%nat ->
     outcome_is (scan_values vs) rest (walkPPLNSJSONValue fuel InArray (value_tokens vs ++ rest))).
Proof.
  apply json_ind3; cbn [tokens field_tokens value_tokens scan scan_fields scan_values length app].
  - intros [|fuel] rest Hf; [lia|done].
  - intros s [|fuel] rest Hf; [lia|done].
  - intros fs IH [|fuel] rest Hf; [lia|]. apply IH. lia.
  - intros vs IH [|fuel] rest Hf; [lia|]. apply IH. lia.
  - intros seen [|fuel] rest Hf; [lia|done].
  - intros k v IHv fs IHfs seen [|fuel] rest Hf; [lia|]. rewrite length_app in Hf.
    cbn [walkPPLNSJSONValue more]. rewrite <- app_assoc.
    destruct (decide (k ∈ seen)) as [Hin|Hni].
    { rewrite bool_decide_eq_false_2 by (by intros ?). cbn. eauto. }
    rewrite bool_decide_eq_true_2 by done. cbn [andb].
    eapply then_outcome; [apply IHv; lia|apply IHfs; lia].
  - intros [|fuel] rest Hf; [lia|done].
  - intros v IHv vs IHvs fuel rest Hf. rewrite length_app in Hf.
    pose proof (tokens_pos v). pose proof (value_tokens_pos vs). destruct fuel as [|fuel]; [lia|].
    cbn [walkPPLNSJSONValue]. rewrite <- app_assoc, more_tokens.
    eapply then_outcome; [apply IHv; lia|apply IHvs; lia].
Qed.

Lemma duplicate_keys_ok v : rejectPPLNSDuplicateJSONKeys (tokens v) = Ok tt <-> distinct v.
Proof.
  unfold rejectPPLNSDuplicateJSONKeys. rewrite <- (proj1 scan_spec v).
  pose proof (proj1 walk_spec v (S (length (tokens v))) [] ltac:(lia)) as Hw. rewrite app_nil_r in Hw.
  destruct (scan v).
  - unfold outcome_is in Hw. by rewrite Hw.
  - destruct Hw as [e ->]. done.
Qed.

(** The scan accepts the tokens of a JSON value exactly when no
    object in it, at any depth, repeats a key; it always ends. *)
Theorem duplicate_keys_exact v :
  rejectPPLNSDuplicateJSONKeys (tokens v) = Ok tt <-> distinct v.
Proof. apply duplicate_keys_ok. Qed.

(** ** Restarts *)
Section restart.
Context `{Crypto} `{SnapshotDecoder} (marshal : PPLNSSnapshot -> result bytes).
Context (network : string) (n m : Z).

(** The encoder and the decoder agree, and the encoder repeats no key. *)
Definition json_round_trip : Prop := forall s enc, marshal s = Ok enc ->
  let file := enc ++ [Byte.x0a] in
  json_Unmarshal file = Ok s /\ json_trailing file = false /\
  exists v, json_tokens file = tokens v /\ distinct v.

(** What the state file says about the window. *)
Definition stored (w : PPLNSWindow) : Prop :=
  match w_file w with
  | None => w_state w = empty_state network n m
  | Some file => exists enc, file = enc ++ [Byte.x0a] /\ marshal (w_state w) = Ok enc /\
                   Z.of_nat (length file) <= maxPPLNSStateBytes /\
                   validatePPLNSState (w_state w) network n m = Ok tt
  end.

Lemma stored_config w : stored w -> ps_Network (w_state w) = network /\
  ps_WindowShares (w_state w) = n /\ ps_MaxAddresses (w_state w) = m.
Proof.
  unfold stored. destruct (w_file w); [|by intros ->]. intros (enc & _ & _ & _ & Hv).
  unfold validatePPLNSState in Hv. apply bind_Ok in Hv as ([] & Hc & _). apply check_Ok in Hc.
  by bool_prop.
Qed.

Lemma accept_stored a w hist : at_marshal a = marshal -> (forall e, at_written a <> (Some e, true)) ->
  stored w -> stored (attempt_step (w, hist) a).1.
Proof.
  intros Hm Hw Hs. unfold attempt_step, Accept.
  destruct (accept_candidate _ _ _ _) as [[[cand enc] sh]|] eqn:E; [|done].
  destruct (at_written a) as [[e|] replaced].
  { destruct replaced; [by destruct (Hw e)|]. cbn [fst]. exact Hs. }
  cbn [fst]. unfold accept_candidate in E. res_simpl. simplify_eq. bool_prop.
  destruct (stored_config w Hs) as (Hn & Hws & Hma).
  unfold stored. cbn [w_file w_state]. rewrite Hm in *.
  eexists. split_and!; [done|done|done|]. cbn [append_share ps_Network ps_WindowShares ps_MaxAddresses] in *.
  rename select (validatePPLNSState _ _ _ _ = _) into Hv. rewrite Hn, Hws, Hma in Hv.
  match type of Hv with _ = Ok ?x => by destruct x end.
Qed.

Lemma attempts_stored l : forall w hist,
  Forall (fun a => at_marshal a = marshal /\ forall e, at_written a <> (Some e, true)) l ->
  stored w -> stored (fold_left attempt_step l (w, hist)).1.
Proof.
  induction l as [|a l IH]; intros w hist Hall Hs; [done|]. apply Forall_cons_1 in Hall as [[Hm Hw] Hall].
  cbn [fold_left]. pose proof (accept_stored a w hist Hm Hw Hs) as Hs'.
  destruct (attempt_step (w, hist) a) as [w' hist']. by apply IH.
Qed.

(** The state file of a closed window, as the next process finds it. *)
Definition reopened (w : PPLNSWindow) : opened :=
  match w_file w with
  | None => FileNotExist
  | Some file => OpenFile (Ok (mkFileInfo true (Z.of_nat (length file)) 384)) (Ok file)
  end.

Lemma load_stored w : json_round_trip -> stored w ->
  loadPPLNSState None (reopened w) network n m = Ok (w_state w).
Proof.
  intros Hj Hs. unfold stored, reopened in *. destruct (w_file w) as [file|]; [|cbn; by rewrite Hs].
  destruct Hs as (enc & -> & Hm & Hlen & Hv). destruct (Hj _ _ Hm) as (Hu & Ht & v & Htok & Hd).
  unfold loadPPLNSState. cbn [mbind result_bind fi_regular fi_size fi_perm negb orb].
  rewrite (proj2 (Z.leb_gt _ 0)) by (rewrite length_app; cbn; lia).
  rewrite Z.gtb_ltb, (proj2 (Z.ltb_ge _ _)) by done. cbn [negb orb check mbind result_bind Z.eqb Pos.eqb].
  rewrite Htok, (proj2 (duplicate_keys_ok v) Hd), Hu, Ht. cbn [negb check mbind result_bind]. by rewrite Hv.
Qed.
End restart.

(** Whatever shares were submitted, and whatever writes failed
    without replacing the file, a process that opens the window again with the same
    configuration finds exactly the shares that were accepted. *)
Theorem window_survives_restart `{Crypto} `{SnapshotDecoder} marshal network n m l w hist :
  json_round_trip marshal -> network = MainNetMachineID \/ network = RegTestMachineID ->
  1 <= n <= 4096 -> 1 <= m <= 256 -> m <= n ->
  Forall (fun a => at_marshal a = marshal /\ forall e, at_written a <> (Some e, true)) l ->
  run_attempts (fresh_window network n m) l = (w, hist) ->
  exists w', NewPPLNSWindow network (mkPPLNSWindowConfig n m) (Ok tt) (Ok tt) None (reopened w) = Ok w' /\
    w_state w' = w_state w /\ ps_Shares (w_state w') = last_n (Z.to_nat n) hist.
Proof.
  intros Hj Hnet Hn Hm Hle Hall Hrun. unfold run_attempts in Hrun.
  pose proof (attempts_stored marshal network n m l (fresh_window network n m) [] Hall eq_refl) as Hs.
  rewrite Hrun in Hs. cbn [fst] in Hs.
  assert (Hinv : window_inv network n m hist w).
  { apply (run_attempts_inv network n m l); [lia|lia|done]. }
  eexists. unfold NewPPLNSWindow. cbn [pf_WindowShares pf_MaxAddresses].
  assert (bool_decide (network = MainNetMachineID) || bool_decide (network = RegTestMachineID) = true) as ->
    by (apply orb_true_iff; by rewrite !bool_decide_eq_true).
  cbn [check mbind result_bind]. rewrite (proj2 (Z.eqb_neq n 0)), (proj2 (Z.eqb_neq m 0)) by lia.
  rewrite !Z.gtb_ltb, (proj2 (Z.ltb_ge n 1)), (proj2 (Z.ltb_ge 4096 n)), (proj2 (Z.ltb_ge m 1)),
    (proj2 (Z.ltb_ge 256 m)), (proj2 (Z.ltb_ge n m)) by lia. cbn [orb negb check mbind result_bind].
  rewrite (load_stored marshal network n m w Hj Hs). cbn [mbind result_bind].
  split; [reflexivity|]. split; [done|]. apply (wi_shares _ _ _ _ _ Hinv).
Qed.
