(* ===== verification/Coordinator.v ===== *)
(** * The remote-solo mining coordinator (pool/coordinator.go)

    The table of issued jobs, bounded in size and age, and the two operations
    that use it.  [Issue] builds a template and stores a copy of it under a
    random job id; [Submit] rebuilds the job's block with a nonce and hands it to
    the chain.  The job table is shared with the PPLNS coordinator, so it is
    modelled for any type of job.  Times are nanoseconds; [between] is what the
    rest of the node does to the chain while [Submit] does not hold the lock. *)
From S2P Require Import Prelude Text Params Crypto Pow Wire Address Merkle Chain Ledger Sanity.
From S2P Require Import ChainInv ChainView Miner Pplns.

(** ** The job table *)
Section table.
Context {J : Type} (expiresAt : J -> Z).

Abbreviation jobs := (gmap bytes J).

(** One id of [pruneLocked]: the jobs and the ids kept. *)
Definition prune_step (now : Z) (st : jobs * list bytes) (id : bytes) : jobs * list bytes :=
  let '(js, kept) := st in
  match js !! id with
  | None => (js, kept)
  | Some job => if negb (now <? expiresAt job) then (delete id js, kept) else (js, kept ++ [id])
  end.

Definition pruneLocked (now : Z) (js : jobs) (order : list bytes) : jobs * list bytes :=
  fold_left (prune_step now) order (js, []).

Fixpoint evictOldestLocked (js : jobs) (order : list bytes) : jobs * list bytes :=
  match order with
  | [] => (js, [])
  | id :: rest => match js !! id with
                  | Some _ => (delete id js, rest)
                  | None => evictOldestLocked js rest
                  end
  end.

(** [for len(c.jobs) >= MaxJobs { c.evictOldestLocked() }].  The fuel is one
    more than the number of jobs: each call has to remove one. *)
Fixpoint make_room (fuel : nat) (maxJobs : Z) (js : jobs) (order : list bytes)
    : result (jobs * list bytes) :=
  if Z.of_nat (size js) >=? maxJobs then
    match fuel with
    | O => Err (EPanic "eviction does not terminate")
    | S fuel' => let '(js', order') := evictOldestLocked js order in make_room fuel' maxJobs js' order'
    end
  else Ok (js, order).

(** The critical section of [Issue]. *)
Definition insert_job (now maxJobs : Z) (id : bytes) (job : J) (js : jobs) (order : list bytes)
    : result (jobs * list bytes) :=
  let '(js1, order1) := pruneLocked now js order in
  '(js2, order2) ← make_room (S (size js1)) maxJobs js1 order1;
  Ok (<[id := job]> js2, order2 ++ [id]).

(** Every job is in the eviction order. *)
Definition table_ok (js : jobs) (order : list bytes) : Prop :=
  forall id, is_Some (js !! id) -> id ∈ order.

Lemma prune_spec now order : forall js kept js' kept',
  fold_left (prune_step now) order (js, kept) = (js', kept') ->
  (forall id, is_Some (js !! id) -> id ∈ kept \/ id ∈ order) ->
  table_ok js' kept' /\ js' ⊆ js /\
  (forall id job, id ∈ order -> js' !! id = Some job -> now < expiresAt job).
Proof.
  induction order as [|id order IH]; intros js kept js' kept' Hf Hin; cbn in Hf.
  { simplify_eq. split_and!; [|done|by intros ? ? ?%elem_of_nil].
    intros id Hid. destruct (Hin id Hid) as [?|?%elem_of_nil]; done. }
  destruct (js !! id) as [job|] eqn:E.
  - destruct (Z.ltb_spec now (expiresAt job)) as [Hlt|Hge]; cbn [negb] in Hf.
    + apply IH in Hf as (Ht & Hs & Hx); [|set_solver]. split_and!; [done|done|].
      intros id' job' [->|Hid]%elem_of_cons Hj; [|by eapply Hx].
      eapply lookup_weaken in Hj; [|done]. by simplify_eq.
    + apply IH in Hf as (Ht & Hs & Hx).
      2:{ intros id' Hid'. destruct (decide (id' = id)) as [->|Hne].
          - rewrite lookup_delete_eq in Hid'. by destruct Hid'.
          - rewrite lookup_delete_ne in Hid' by done. set_solver. }
      split_and!; [done|by etrans; [|apply delete_subseteq]|].
      intros id' job' [->|Hid]%elem_of_cons Hj; [|by eapply Hx].
      eapply lookup_weaken in Hj; [|done]. by rewrite lookup_delete_eq in Hj.
  - apply IH in Hf as (Ht & Hs & Hx).
    2:{ intros id' Hid'. destruct (Hin id' Hid') as [?|[->|?]%elem_of_cons]; auto.
        rewrite E in Hid'. by destruct Hid'. }
    split_and!; [done|done|]. intros id' job' [->|Hid]%elem_of_cons Hj; [|by eapply Hx].
    eapply lookup_weaken in Hj; [|done]. by simplify_eq.
Qed.

Lemma evict_spec order : forall js js' order',
  table_ok js order -> evictOldestLocked js order = (js', order') ->
  table_ok js' order' /\ js' ⊆ js /\ (0 < size js -> size js = S (size js'))%nat.
Proof.
  induction order as [|id order IH]; intros js js' order' Ht He; cbn in He.
  { simplify_eq. split_and!; [done|done|]. intros Hpos. exfalso.
    destruct (decide (js' = ∅)) as [->|Hne]; [by rewrite map_size_empty in Hpos; lia|].
    apply map_choose in Hne as (i & x & Hi). by apply (elem_of_nil i), Ht; eauto. }
  destruct (js !! id) as [job|] eqn:E; simplify_eq.
  - split_and!; [|apply delete_subseteq|].
    + intros id' Hid'. destruct (decide (id' = id)) as [->|Hne].
      * rewrite lookup_delete_eq in Hid'. by destruct Hid'.
      * rewrite lookup_delete_ne in Hid' by done.
        apply Ht in Hid' as [->|?]%elem_of_cons; done.
    + intros Hpos. rewrite map_size_delete, E. lia.
  - apply (IH js); [|done]. intros id' Hid'. pose proof (Ht _ Hid') as [->|?]%elem_of_cons; [|done].
    rewrite E in Hid'. by destruct Hid'.
Qed.

Lemma make_room_spec maxJobs fuel : 0 < maxJobs -> forall js order,
  table_ok js order -> (size js < fuel)%nat ->
  exists js' order', make_room fuel maxJobs js order = Ok (js', order') /\
    table_ok js' order' /\ js' ⊆ js /\ Z.of_nat (size js') < maxJobs.
Proof.
  intros Hm. induction fuel as [|fuel IH]; intros js order Ht Hf; [lia|]. cbn [make_room].
  rewrite Z.geb_leb. destruct (Z.leb_spec maxJobs (Z.of_nat (size js))); [|eauto 6].
  destruct (evictOldestLocked js order) as [js1 order1] eqn:E.
  apply evict_spec in E as (Ht1 & Hs1 & Hsz); [|done].
  destruct (IH js1 order1 Ht1) as (js' & order' & -> & Ht' & Hs' & Hlt); [lia|].
  exists js', order'. split_and!; [done|done|by etrans|done].
Qed.

(** The critical section terminates, keeps only live jobs, and respects the
    bound. *)
Lemma insert_job_spec now maxJobs id job js order :
  0 < maxJobs -> table_ok js order ->
  exists js' order', insert_job now maxJobs id job js order = Ok (js', order') /\
    table_ok js' order' /\ js' !! id = Some job /\ Z.of_nat (size js') <= maxJobs /\
    (forall id' job', id' <> id -> js' !! id' = Some job' ->
       js !! id' = Some job' /\ now < expiresAt job').
Proof.
  intros Hm Ht. unfold insert_job, pruneLocked.
  destruct (fold_left (prune_step now) order (js, [])) as [js1 order1] eqn:E.
  apply prune_spec in E as (Ht1 & Hs1 & Hx1); [|intros i Hi; right; by apply Ht].
  destruct (make_room_spec maxJobs (S (size js1)) Hm js1 order1 Ht1)
    as (js2 & order2 & -> & Ht2 & Hs2 & Hlt); [lia|].
  eexists _, _. split_and!; [reflexivity| |apply lookup_insert_eq| |].
  - intros i Hi. apply elem_of_app. destruct (decide (i = id)) as [->|Hne]; [right; by left|].
    rewrite lookup_insert_ne in Hi by done. left. by apply Ht2.
  - rewrite map_size_insert. destruct (js2 !! id); cbn; lia.
  - intros id' job' Hne Hl. rewrite lookup_insert_ne in Hl by done.
    eapply lookup_weaken in Hl; [|done]. pose proof (lookup_weaken _ _ _ _ Hl Hs1) as Hj.
    split; [done|]. eapply Hx1; [|done]. apply Ht. by exists job'.
Qed.
End table.

(** ** The solo coordinator *)
Definition ErrUnknownJob : error := EText "unknown mining job".
Definition ErrExpiredJob : error := EText "mining job expired".
Definition ErrStaleJob : error := EText "mining job is stale".
Definition ErrDuplicateSubmission : error := EText "duplicate nonce submission".
Definition ErrLowDifficulty : error := EText "nonce does not meet network target".

Definition second : Z := 1000000000.
Definition defaultJobTTL : Z := 2 * 60 * second.
Definition defaultMaxJobs : Z := 256.

Record CoordinatorConfig := mkConfig { cf_JobTTL : Z; cf_MaxJobs : Z; cf_Tag : bytes }.

Record miningJob := mkJob {
  mj_block : Block; mj_issuedAt : Z; mj_expiresAt : Z; mj_seen : gset Z }.

Record Coordinator := mkCoordinator {
  co_network : string; co_config : CoordinatorConfig;
  co_jobs : gmap bytes miningJob; co_order : list bytes }.

Record SubmitResult := mkSubmitResult {
  sr_SchemaVersion : Z; sr_Network : string; sr_Status : string; sr_BlockID : bytes;
  sr_Height : Z }.

Record Work := mkWork {
  wk_SchemaVersion : Z; wk_Network : string; wk_JobID : bytes; wk_Height : Z;
  wk_HeaderHex : bytes; wk_TargetHex : bytes; wk_ExpiresAt : Z;
  wk_ArgonMemKiB : Z; wk_ArgonTime : Z }.

Definition NewCoordinator (chain : option Chain) (config : CoordinatorConfig)
    : result Coordinator :=
  match chain with
  | None => Err (EText "nil chain")
  | Some c =>
      network ← CanonicalNetworkID (Some (c_params c));
      let ttl := if cf_JobTTL config =? 0 then defaultJobTTL else cf_JobTTL config in
      _ ← check (negb ((ttl <? second) || (10 * 60 * second <? ttl)))
            (EText "job TTL must be between one second and ten minutes");
      let maxJobs := if cf_MaxJobs config =? 0 then defaultMaxJobs else cf_MaxJobs config in
      _ ← check (negb ((maxJobs <? 1) || (4096 <? maxJobs)))
            (EText "max jobs must be between 1 and 4096");
      _ ← check (Z.of_nat (length (cf_Tag config)) <=? 64) (EText "coordinator tag too long");
      Ok (mkCoordinator network (mkConfig ttl maxJobs (cf_Tag config)) ∅ [])
  end.

Definition validWorker (worker : bytes) : bool :=
  (Z.of_nat (length worker) <=? 64) &&
  forallb (fun c => let b := b2z c in
    ((97 <=? b) && (b <=? 122)) || ((65 <=? b) && (b <=? 90)) || ((48 <=? b) && (b <=? 57))
    || (b =? 45) || (b =? 95) || (b =? 46)) worker.

Definition set_jobs (co : Coordinator) (js : gmap bytes miningJob) (order : list bytes)
    : Coordinator := mkCoordinator (co_network co) (co_config co) js order.

Section solo.
Context `{Crypto}.

(** [unixNow] is the time of the template in seconds, [jobID] the outcome of
    [randomJobID], [later] the chain when the height is reported.  A required
    target is below 2^256, so [%064x] prints its 32 bytes. *)
Definition Issue (co : Coordinator) (chain later : Chain) (address worker : bytes)
    (now unixNow : Z) (jobID : result bytes) : Coordinator * result Work :=
  let p := c_params chain in
  let r :=
    payout ← match DecodeAddress address with
             | Ok pkh => if bool_decide (pkh = zeros 20) then Err (EText "invalid payout address")
                         else Ok pkh
             | Err _ => Err (EText "invalid payout address")
             end;
    _ ← check (validWorker worker) (EText "invalid worker label");
    block ← match BuildBlockTemplate (Some chain) payout (cf_Tag (co_config co)) unixNow with
            | Some b => if hdr_Nonce (blk_Header b) =? 0 then Ok b
                        else Err (EText "failed to build canonical template")
            | None => Err (EText "failed to build canonical template")
            end;
    copyBlock ← match DecodeBlock (Block_Bytes block) with
                | Ok b => Ok b
                | Err e => Err (EWrap "copy block template" 0 e)
                end;
    id ← match jobID with Ok id => Ok id | Err e => Err (EWrap "create job id" 0 e) end;
    let expires := now + cf_JobTTL (co_config co) in
    '(js, order) ← insert_job mj_expiresAt now (cf_MaxJobs (co_config co)) id
                     (mkJob copyBlock now expires ∅) (co_jobs co) (co_order co);
    Ok (set_jobs co js order,
        mkWork 1 (co_network co) id (bi_height (c_tip later) + 1)
          (hex_encode (Header_Bytes (blk_Header block)))
          (hex_encode (be_bytes 32 (CompactToTarget (hdr_Bits (blk_Header block))))) expires (ArgonMemKiB p) (ArgonTime p)) in
  match r with
  | Ok (co', w) => (co', Ok w)
  | Err e => (co, Err e)
  end.

Definition drop_job (co : Coordinator) (id : bytes) : Coordinator :=
  set_jobs co (delete id (co_jobs co)) (co_order co).

(** The first critical section of [Submit]: the job, with the nonce marked as
    seen. *)
Definition claim_nonce (co : Coordinator) (chain : Chain) (id : bytes) (nonce now : Z)
    : Coordinator * result miningJob :=
  match co_jobs co !! id with
  | None => (co, Err ErrUnknownJob)
  | Some job =>
      if negb (now <? mj_expiresAt job) then (drop_job co id, Err ErrExpiredJob)
      else if negb (bool_decide (hdr_PrevBlock (blk_Header (mj_block job)) = bi_id (c_tip chain)))
      then (drop_job co id, Err ErrStaleJob)
      else if bool_decide (nonce ∈ mj_seen job) then (co, Err ErrDuplicateSubmission)
      else
        let job' := mkJob (mj_block job) (mj_issuedAt job) (mj_expiresAt job)
                      ({[nonce]} ∪ mj_seen job) in
        (set_jobs co (<[id := job']> (co_jobs co)) (co_order co), Ok job')
  end.

Definition Submit (co : Coordinator) (chain : Chain) (between : Chain -> Chain) (id : bytes)
    (nonce now unixNow : Z) : Coordinator * Chain * result SubmitResult :=
  match claim_nonce co chain id nonce now with
  | (co1, Err e) => (co1, chain, Err e)
  | (co1, Ok job) =>
      match DecodeBlock (Block_Bytes (mj_block job)) with
      | Err e => (co1, chain, Err (EWrap "copy mining job" 0 e))
      | Ok copy =>
          let block := mkBlock (with_nonce (blk_Header copy) nonce) (blk_Txs copy) in
          let chain := between chain in
          if negb (CheckPow (blk_Header block) (c_params chain))
          then (co1, chain, Err ErrLowDifficulty) else
          match AcceptBlock chain (Some block) unixNow with
          | (chain', Err e) => (co1, chain', Err (EWrap "mined block rejected" 0 e))
          | (chain', Ok _) =>
              (set_jobs co1 ∅ [], chain',
               Ok (mkSubmitResult 1 (co_network co) "block_accepted"
                     (hex_encode (Header_ID (blk_Header block))) (Height chain')))
          end
      end
  end.
End solo.

(** ** Receipts of the PPLNS coordinator *)
Section receipts.
Context {R : Type}.

Fixpoint evict_receipts (maxReceipts : Z) (receipts : gmap bytes R) (order : list bytes)
    : gmap bytes R * list bytes :=
  if Z.of_nat (size receipts) >=? maxReceipts then
    match order with
    | [] => (receipts, [])
    | oldest :: rest => evict_receipts maxReceipts (delete oldest receipts) rest
    end
  else (receipts, order).

Definition storeReceiptLocked (maxReceipts : Z) (receipts : gmap bytes R) (order : list bytes)
    (key : bytes) (result : R) : gmap bytes R * list bytes :=
  if decide (is_Some (receipts !! key)) then (<[key := result]> receipts, order) else
  let '(receipts, order) := evict_receipts maxReceipts receipts order in
  (<[key := result]> receipts, order ++ [key]).
End receipts.
