(* ===== verification/PoolWork.v ===== *)
(** * Mining work items and their verification by the miner (pool/work.go,
    pool/pplns_work.go, and the weights of pool/pplns_coordinator.go)

    A miner does not trust the pool: [ParseWork] and [ParsePoolWork] check that a
    work item belongs to the miner's network, that its targets are those of its
    header, and, for pooled work, that the header commits to a coinbase that pays
    the advertised share window.  The JSON encoder that the state hash covers is
    an interface. *)
From S2P Require Import Prelude Text Params Crypto Pow Wire Address Merkle Chain Ledger Sanity.
From S2P Require Import ChainInv ChainView Miner Pplns Coordinator.

(** [json.Marshal] of a window snapshot.  The flag says that its [Shares] are a nil
    slice, which the encoder writes as [null] and an empty one as [[]]. *)
Class SnapshotJSON := { json_Marshal : bool -> PPLNSSnapshot -> result bytes }.

(** [append([]PPLNSShare(nil), shares...)] is nil when there are no shares: the
    snapshots that [clonePPLNSState] returns. *)
Definition cloned_nil (snapshot : PPLNSSnapshot) : bool := (length (ps_Shares snapshot) =? 0)%nat.

Record PPLNSPayoutWeight := mkWeight { pw_Address : bytes; pw_Shares : Z; pw_WorkHex : bytes }.
#[global] Instance PPLNSPayoutWeight_eq_dec : EqDecision PPLNSPayoutWeight.
Proof. solve_decision. Defined.

(** [pk_WindowNil]: the shares of the window are a nil slice. *)
Record PoolWork := mkPoolWork {
  pk_SchemaVersion : Z; pk_Network : string; pk_Mode : string; pk_FeeBPS : Z; pk_JobID : bytes;
  pk_Height : Z; pk_HeaderHex : bytes; pk_NetworkTargetHex : bytes; pk_ShareTargetHex : bytes;
  pk_ExpiresAt : Z; pk_ArgonMemKiB : Z; pk_ArgonTime : Z; pk_WindowShares : Z;
  pk_CurrentShares : Z; pk_PPLNSStateHash : bytes; pk_Window : PPLNSSnapshot;
  pk_WindowNil : bool;
  pk_PayoutBasis : string; pk_PayoutWeights : list PPLNSPayoutWeight; pk_CoinbaseHex : bytes;
  pk_CoinbaseMerkleBranch : list bytes }.

(** [err == nil && v == a] *)
Definition is_value {A} `{EqDecision A} (r : result A) (a : A) : bool :=
  match r with Ok b => bool_decide (b = a) | Err _ => false end.
Lemma is_value_true {A} `{EqDecision A} (r : result A) a : is_value r a = true <-> r = Ok a.
Proof.
  destruct r as [b|e]; cbn; [|done]. rewrite bool_decide_eq_true. split; [by intros ->|by intros [=]].
Qed.

(** [fmt.Sprintf("%0<2n>x", v)] for [0 <= v < 256^n]; targets are below 2^256 and
    the work of a window of at most 4096 shares is below 2^268. *)
Definition hex_pad (n : nat) (v : Z) : bytes := hex_encode (be_bytes n v).

Section work.
Context `{Crypto}.

(** ** Solo work *)
Definition ParseWork (work : Work) (params : option Params) : result (Header * Z) :=
  match params with
  | None => Err (EText "nil network params")
  | Some p =>
      _ ← check (is_value (CanonicalNetworkID (Some p)) (wk_Network work))
            (EText "work network mismatch");
      _ ← check ((wk_SchemaVersion work =? 1) && (0 <? wk_Height work))
            (EText "unsupported work schema");
      _ ← check (match hex_decode (wk_JobID work) with
                 | Ok id => (length id =? 16)%nat | Err _ => false end) (EText "invalid job id");
      raw ← match hex_decode (wk_HeaderHex work) with
            | Ok raw => if (length raw =? 88)%nat then Ok raw else Err (EText "invalid work header")
            | Err _ => Err (EText "invalid work header")
            end;
      let header := decode_header raw in
      _ ← check (hdr_Nonce header =? 0) (EText "work header nonce must be zero");
      _ ← check ((wk_ArgonMemKiB work =? ArgonMemKiB p) && (wk_ArgonTime work =? ArgonTime p))
            (EText "work proof-of-work parameters mismatch");
      targetBytes ← match hex_decode (wk_TargetHex work) with
                    | Ok t => if (length t =? 32)%nat then Ok t else Err (EText "invalid work target")
                    | Err _ => Err (EText "invalid work target")
                    end;
      let target := be_val targetBytes in
      _ ← check ((0 <? target) && (target =? CompactToTarget (hdr_Bits header))
                 && (target <=? MaxTarget p)) (EText "work target mismatch");
      Ok (header, target)
  end.

(** ** Payout weights *)
(** One share of [pplnsWeights]: the state is [counts] and [workByAddress]. *)
Definition weight_step (st : gmap bytes Z * gmap bytes Z) (share : PPLNSShare)
    : result (gmap bytes Z * gmap bytes Z) :=
  let '(counts, works) := st in
  let a := sh_Address share in
  match parseCanonicalTarget (sh_ShareTarget share) with
  | Err _ => Err (EText "PPLNS share target is invalid")
  | Ok target => Ok (<[a := default 0 (counts !! a) + 1]> counts,
                     <[a := default 0 (works !! a) + WorkFromTarget target]> works)
  end.

Definition weight_le (a b : PPLNSPayoutWeight) : Prop := bytes_le (pw_Address a) (pw_Address b).
#[global] Instance weight_le_dec a b : Decision (weight_le a b).
Proof. unfold weight_le. apply _. Defined.

Definition pplnsWeights (snapshot : PPLNSSnapshot) : result (list PPLNSPayoutWeight) :=
  '(counts, works) ← foldM weight_step (∅, ∅) (ps_Shares snapshot);
  Ok (merge_sort weight_le
        ((fun e => mkWeight e.1 e.2 (hex_pad 34 (default 0 (works !! e.1)))) <$> map_to_list counts)).

Definition pplnsSnapshotHash `{SnapshotJSON} (isNil : bool) (snapshot : PPLNSSnapshot) : result bytes :=
  encoded ← json_Marshal isNil snapshot; Ok (hex_encode (SHA256d encoded)).

(** ** Pooled work *)
Definition coinbase_reward (reward : Z) (o : TxOut) : result Z :=
  _ ← check (negb ((out_Value o <=? 0) || negb (MoneyRange (out_Value o))
                   || (reward >? MaxMoneyUnits - out_Value o)))
        (EText "pool coinbase reward is invalid");
  Ok (reward + out_Value o).

Definition decode_sibling (encoded : bytes) : result Hash32 :=
  match canonical_hex 32 encoded with
  | Some raw => Ok raw
  | None => Err (EText "pool coinbase merkle branch is invalid")
  end.

Fixpoint mapR {A B} (f : A -> result B) (l : list A) : result (list B) :=
  match l with [] => Ok [] | a :: l => b ← f a; bs ← mapR f l; Ok (b :: bs) end.

(** One advertised weight: the state is [workWeights], [weightTotal] and
    [previousAddress]. *)
Definition check_weight (st : gmap bytes Z * Z * bytes) (w : PPLNSPayoutWeight)
    : result (gmap bytes Z * Z * bytes) :=
  let '(workWeights, weightTotal, previous) := st in
  _ ← check (bool_decide (is_Some (payout_pkh (pw_Address w)))
             && negb (bool_decide (bytes_le (pw_Address w) previous))
             && negb ((pw_Shares w <? 1) || (pw_Shares w >? 4096)
                      || (weightTotal >? 4096 - pw_Shares w)))
        (EText "pool payout weight is invalid");
  match parseCanonicalWork (pw_WorkHex w) with
  | Err _ => Err (EText "pool payout work is invalid")
  | Ok work => Ok (<[pw_Address w := work]> workWeights, weightTotal + pw_Shares w, pw_Address w)
  end.

Definition is_suffix (s l : bytes) : bool :=
  (length s <=? length l)%nat && bool_decide (drop (length l - length s) l = s).

(** The payout part of [validatePoolCoinbaseProof]. *)
Definition check_payout (work : PoolWork) (coinbase : Tx) (reward : Z) (workWeights : gmap bytes Z)
    (weightTotal : Z) : result unit :=
  if String.eqb (pk_PayoutBasis work) "requester" then
    match pk_PayoutWeights work, tx_Outs coinbase with
    | [w], [o] =>
        _ ← check ((pk_CurrentShares work =? 0) && (length (ps_Shares (pk_Window work)) =? 0)%nat
                   && (weightTotal =? 1) && bool_decide (pw_WorkHex w = hex_pad 34 1))
              (EText "requester payout proof is invalid");
        let pkh := match DecodeAddress (pw_Address w) with Ok pkh => pkh | Err _ => zeros 20 end in
        check (bool_decide (out_PubKeyHash o = pkh) && (out_Value o =? reward))
          (EText "requester payout does not receive coinbase")
    | _, _ => Err (EText "requester payout proof is invalid")
    end
  else if String.eqb (pk_PayoutBasis work) "pplns_window" then
    _ ← check (negb (pk_CurrentShares work <? 1) && (weightTotal =? pk_CurrentShares work))
          (EText "PPLNS payout weights do not match window");
    _ ← match pplnsWeights (pk_Window work) with
        | Ok committed => check (bool_decide (committed = pk_PayoutWeights work))
                            (EText "PPLNS payout weights do not match committed shares")
        | Err _ => Err (EText "PPLNS payout weights do not match committed shares")
        end;
    match pplnsOutputsFromWork workWeights reward with
    | Err _ => Err (EText "PPLNS coinbase allocation is invalid")
    | Ok expected =>
        _ ← check (length expected =? length (tx_Outs coinbase))%nat
              (EText "PPLNS coinbase allocation is invalid");
        check (bool_decide (expected = tx_Outs coinbase))
          (EText "PPLNS coinbase does not match advertised weights")
    end
  else Err (EText "unknown pool payout basis").

Definition validatePoolCoinbaseProof (work : PoolWork) (header : Header) : result unit :=
  coinbaseRaw ← match hex_decode (pk_CoinbaseHex work) with
                | Ok raw => if (length raw =? 0)%nat || (Z.of_nat (length raw) >? 32 * 1024)
                               || negb (bool_decide (hex_encode raw = pk_CoinbaseHex work))
                            then Err (EText "invalid pool coinbase encoding") else Ok raw
                | Err _ => Err (EText "invalid pool coinbase encoding")
                end;
  coinbase ← match DecodeTx coinbaseRaw with
             | Ok cb => if negb (bool_decide (Tx_Bytes cb = coinbaseRaw)) || negb (IsCoinbase cb)
                           || negb (match tx_Ins cb with [i] => (length (in_Sig i) =? 0)%nat
                                                       | _ => false end)
                        then Err (EText "invalid pool coinbase transaction") else Ok cb
             | Err _ => Err (EText "invalid pool coinbase transaction")
             end;
  _ ← check (match tx_Ins coinbase with
             | i :: _ => bool_decide (in_PubKey i = putUvarint (u64 (pk_Height work)))
             | [] => false end) (EText "pool coinbase height mismatch");
  reward ← foldM coinbase_reward 0 (tx_Outs coinbase);
  _ ← check (negb (reward <? SubsidyAt (pk_Height work)))
        (EText "pool coinbase omits block subsidy");
  let commitment := bs ":" ++ pk_PPLNSStateHash work in
  let tag := Z.of_nat (length (tx_LockTag coinbase)) in
  let len := Z.of_nat (length commitment) in
  _ ← check (negb ((tag <=? len) || (tag >? 64 + len)
                   || negb (is_suffix commitment (tx_LockTag coinbase))))
        (EText "pool coinbase does not commit to PPLNS state");
  _ ← check (Z.of_nat (length (pk_CoinbaseMerkleBranch work)) <=? 64)
        (EText "pool coinbase merkle branch is too long");
  branch ← mapR decode_sibling (pk_CoinbaseMerkleBranch work);
  _ ← check (is_value (MerkleRootFromBranch (Tx_ID coinbase) 0 branch) (hdr_MerkleRoot header))
        (EText "pool coinbase is not committed by work header");
  _ ← check (negb ((length (pk_PayoutWeights work) =? 0)%nat
                   || (Z.of_nat (length (pk_PayoutWeights work)) >? 256)))
        (EText "pool payout weights are invalid");
  '(workWeights, weightTotal, _) ← foldM check_weight (∅, 0, []) (pk_PayoutWeights work);
  check_payout work coinbase reward workWeights weightTotal.

Definition ParsePoolWork `{SnapshotJSON} (work : PoolWork) (params : option Params)
    : result (Header * Z * Z) :=
  match params with
  | None => Err (EText "nil network params")
  | Some p =>
      _ ← check (is_value (CanonicalNetworkID (Some p)) (pk_Network work))
            (EText "work network mismatch");
      _ ← check ((pk_SchemaVersion work =? 2) && String.eqb (pk_Mode work) "pplns"
                 && (pk_FeeBPS work =? 0) && (0 <? pk_Height work))
            (EText "unsupported pool work schema");
      _ ← check (negb ((pk_WindowShares work <? 1) || (pk_WindowShares work >? 4096)
                       || (pk_CurrentShares work <? 0)
                       || (pk_CurrentShares work >? pk_WindowShares work)))
            (EText "invalid PPLNS window metadata");
      let w := pk_Window work in
      _ ← check (bool_decide (ps_Network w = pk_Network work)
                 && (ps_WindowShares w =? pk_WindowShares work)
                 && negb ((ps_MaxAddresses w <? 1) || (ps_MaxAddresses w >? 256)
                          || (ps_MaxAddresses w >? pk_WindowShares work))
                 && (Z.of_nat (length (ps_Shares w)) =? pk_CurrentShares work))
            (EText "PPLNS window does not match work metadata");
      _ ← match validatePPLNSState w (pk_Network work) (pk_WindowShares work) (ps_MaxAddresses w) with
          | Ok _ => Ok tt | Err _ => Err (EText "invalid committed PPLNS window") end;
      _ ← check (bool_decide (is_Some (canonical_hex 16 (pk_JobID work)))) (EText "invalid job id");
      _ ← check (bool_decide (is_Some (canonical_hex 32 (pk_PPLNSStateHash work))))
            (EText "invalid PPLNS state hash");
      _ ← check (is_value (pplnsSnapshotHash (pk_WindowNil work) w) (pk_PPLNSStateHash work))
            (EText "committed PPLNS window hash mismatch");
      raw ← match canonical_hex 88 (pk_HeaderHex work) with
            | Some raw => Ok raw | None => Err (EText "invalid work header") end;
      let header := decode_header raw in
      _ ← check (hdr_Nonce header =? 0) (EText "work header nonce must be zero");
      _ ← check ((pk_ArgonMemKiB work =? ArgonMemKiB p) && (pk_ArgonTime work =? ArgonTime p))
            (EText "work proof-of-work parameters mismatch");
      _ ← validatePoolCoinbaseProof work header;
      networkTarget ← match parseCanonicalTarget (pk_NetworkTargetHex work) with
                      | Ok t => Ok t | Err _ => Err (EText "invalid network target") end;
      _ ← check ((networkTarget =? CompactToTarget (hdr_Bits header))
                 && (networkTarget <=? MaxTarget p)) (EText "network target mismatch");
      shareTarget ← match parseCanonicalTarget (pk_ShareTargetHex work) with
                    | Ok t => if (t <? networkTarget) || (t >? MaxTarget p)
                              then Err (EText "share target mismatch") else Ok t
                    | Err _ => Err (EText "share target mismatch")
                    end;
      Ok (header, networkTarget, shareTarget)
  end.
End work.
