(* ===== verification/PplnsCoordinator.v ===== *)
(** * The PPLNS mining coordinator (pool/pplns_coordinator.go)

    [Issue] freezes a snapshot of the share window, builds a template whose coinbase
    pays that snapshot and stores the job; [Submit] checks a nonce once, persists
    the share, keeps a receipt and hands a block that meets the network target to
    the chain.  [Submit] holds the lock only in its critical sections; the
    arguments [gap1] to [gap4] are what the other requests do to the whole state
    between them.  A job is known by the identity [pj_ptr] of its Go pointer.  The
    outcomes of the state file are arguments, as in the share window. *)
From S2P Require Import Prelude Text Params Crypto Pow Wire Address Merkle Chain Ledger Sanity.
From S2P Require Import ChainInv ChainView Miner Pplns Coordinator PoolWork.

Definition ErrLowShareDifficulty : error := EText "nonce does not meet PPLNS share target".
Definition ErrPPLNSSubmissionLimit : error := EText "PPLNS job submission limit reached".
Definition defaultShareTargetMultiplier : Z := 64.
Definition defaultMaxPPLNSSubmissions : Z := 1024.
Definition defaultMaxPPLNSReceipts : Z := 4096.
Definition maxShareTargetMultiplier : Z := 65536.

Record PPLNSCoordinatorConfig := mkPPLNSConfig {
  pc_JobTTL : Z; pc_MaxJobs : Z; pc_MaxSubmissionsPerJob : Z; pc_MaxReceipts : Z;
  pc_ShareTargetMultiplier : Z; pc_Tag : bytes }.

Record pplnsMiningJob := mkPPLNSJob {
  pj_ptr : Z; pj_block : Block; pj_address : bytes; pj_height : Z; pj_issuedAt : Z;
  pj_expiresAt : Z; pj_networkTarget : Z; pj_shareTarget : Z; pj_seen : gset Z }.

Record PoolSubmitResult := mkPoolResult {
  pr_SchemaVersion : Z; pr_Network : string; pr_Status : string; pr_ShareHash : bytes;
  pr_ShareSequence : Z; pr_BlockID : bytes; pr_Height : Z }.

(** The status without its floating-point hashrate. *)
Record PPLNSStatus := mkStatus {
  st_SchemaVersion : Z; st_Network : string; st_Mode : string; st_FeeBPS : Z; st_TipHash : bytes;
  st_TipHeight : Z; st_CoinbaseMaturity : Z; st_WindowShares : Z; st_MaxAddresses : Z;
  st_CurrentShares : Z; st_DistinctAddresses : Z; st_MinPayoutUnits : Z; st_NextSequence : Z;
  st_PPLNSStateHash : bytes; st_Weights : list PPLNSPayoutWeight; st_Shares : list PPLNSShare }.

(** [pq_next] is the next job identity to be allocated. *)
Record PPLNSCoordinator := mkPPLNSCoordinator {
  pq_params : Params; pq_network : string; pq_config : PPLNSCoordinatorConfig;
  pq_jobs : gmap bytes pplnsMiningJob; pq_order : list bytes;
  pq_receipts : gmap bytes PoolSubmitResult; pq_receiptOrder : list bytes; pq_next : Z }.

Definition validPPLNSCoordinatorTag (tag : bytes) : bool :=
  negb ((Z.of_nat (length tag) <? 1) || (Z.of_nat (length tag) >? 64))
  && forallb (fun c => negb ((b2z c <? 0x21) || (b2z c >? 0x7e))) tag.

Definition or_default (v d : Z) : Z := if v =? 0 then d else v.

Definition NewPPLNSCoordinator (chain : option Chain) (window : option PPLNSWindow)
    (config : PPLNSCoordinatorConfig) : result PPLNSCoordinator :=
  match chain, window with
  | Some c, Some w =>
      let params := c_params c in
      network ← CanonicalNetworkID (Some params);
      let snapshot := w_state w in
      _ ← check (bool_decide (ps_Network snapshot = network)
                 && (ps_SchemaVersion snapshot =? pplnsStateSchemaVersion))
            (EText "PPLNS window network mismatch");
      let ttl := or_default (pc_JobTTL config) defaultJobTTL in
      _ ← check (negb ((ttl <? second) || (ttl >? 10 * 60 * second)))
            (EText "job TTL must be between one second and ten minutes");
      let maxJobs := or_default (pc_MaxJobs config) defaultMaxJobs in
      _ ← check (negb ((maxJobs <? 1) || (maxJobs >? 4096)))
            (EText "max jobs must be between 1 and 4096");
      let subs := or_default (pc_MaxSubmissionsPerJob config) defaultMaxPPLNSSubmissions in
      _ ← check (negb ((subs <? 1) || (subs >? 65536)))
            (EText "max submissions per job must be between 1 and 65536");
      let receipts := or_default (pc_MaxReceipts config) defaultMaxPPLNSReceipts in
      _ ← check (negb ((receipts <? 1) || (receipts >? 65536)))
            (EText "max PPLNS receipts must be between 1 and 65536");
      let mult := or_default (pc_ShareTargetMultiplier config) defaultShareTargetMultiplier in
      _ ← check (negb ((mult <? 1) || (mult >? maxShareTargetMultiplier)))
            (EText "share target multiplier is out of range");
      let tag := match pc_Tag config with [] => bs "btc09-pplns-v2" | t => t end in
      _ ← check (validPPLNSCoordinatorTag tag)
            (EText "coordinator tag must be 1 to 64 visible ASCII characters");
      Ok (mkPPLNSCoordinator params network (mkPPLNSConfig ttl maxJobs subs receipts mult tag)
            ∅ [] ∅ [] 0)
  | _, _ => Err (EText "chain and PPLNS window are required")
  end.

Definition set_pplns_jobs (q : PPLNSCoordinator) (js : gmap bytes pplnsMiningJob) (order : list bytes)
    : PPLNSCoordinator :=
  mkPPLNSCoordinator (pq_params q) (pq_network q) (pq_config q) js order (pq_receipts q)
    (pq_receiptOrder q) (pq_next q).
Definition set_receipts (q : PPLNSCoordinator) (rs : gmap bytes PoolSubmitResult) (order : list bytes)
    : PPLNSCoordinator :=
  mkPPLNSCoordinator (pq_params q) (pq_network q) (pq_config q) (pq_jobs q) (pq_order q) rs order
    (pq_next q).
Definition allocate_job (q : PPLNSCoordinator) : PPLNSCoordinator :=
  mkPPLNSCoordinator (pq_params q) (pq_network q) (pq_config q) (pq_jobs q) (pq_order q)
    (pq_receipts q) (pq_receiptOrder q) (pq_next q + 1).

Definition pplnsReceiptKey (jobID : bytes) (nonce : Z) : bytes :=
  jobID ++ bs ":" ++ dec_string nonce.

Definition store_receipt (q : PPLNSCoordinator) (key : bytes) (r : PoolSubmitResult)
    : PPLNSCoordinator :=
  let '(rs, order) := storeReceiptLocked (pc_MaxReceipts (pq_config q)) (pq_receipts q)
                        (pq_receiptOrder q) key r in
  set_receipts q rs order.

(** [c.jobs[jobID] == job] *)
Definition same_job (q : PPLNSCoordinator) (id : bytes) (ptr : Z) : bool :=
  bool_decide (pj_ptr <$> pq_jobs q !! id = Some ptr).

Definition mark_seen (job : pplnsMiningJob) (seen : gset Z) : pplnsMiningJob :=
  mkPPLNSJob (pj_ptr job) (pj_block job) (pj_address job) (pj_height job) (pj_issuedAt job)
    (pj_expiresAt job) (pj_networkTarget job) (pj_shareTarget job) seen.

Definition releaseSubmission (q : PPLNSCoordinator) (id : bytes) (ptr nonce : Z)
    : PPLNSCoordinator :=
  match pq_jobs q !! id with
  | Some job => if pj_ptr job =? ptr
                then set_pplns_jobs q (<[id := mark_seen job (pj_seen job ∖ {[nonce]})]> (pq_jobs q))
                       (pq_order q)
                else q
  | None => q
  end.

Definition drop_pplns_job (q : PPLNSCoordinator) (id : bytes) : PPLNSCoordinator :=
  set_pplns_jobs q (delete id (pq_jobs q)) (pq_order q).

Section pool.
Context `{Crypto} `{SnapshotJSON}.

(** The hashrate, left out of the record, fails only on a share target that
    [pplnsWeights] has already refused. *)
Definition PPLNS_Status (q : PPLNSCoordinator) (w : PPLNSWindow) (chain : Chain)
    : result PPLNSStatus :=
  let snapshot := w_state w in
  _ ← check (bool_decide (ps_Network snapshot = pq_network q)) (EText "PPLNS window network mismatch");
  stateHash ← pplnsSnapshotHash (cloned_nil snapshot) snapshot;
  weights ← pplnsWeights snapshot;
  let '(tipHash, tipHeight) := Tip chain in
  Ok (mkStatus 2 (pq_network q) "pplns" 0 (hex_encode tipHash) tipHeight
        (CoinbaseMaturity (pq_params q)) (ps_WindowShares snapshot) (ps_MaxAddresses snapshot)
        (Z.of_nat (length (ps_Shares snapshot))) (Z.of_nat (length weights)) 0
        (ps_NextSequence snapshot) stateHash weights (ps_Shares snapshot)).

(** The [CoinbaseBuilder] of [Issue]. *)
Definition window_coinbase (snapshot : PPLNSSnapshot) (payout tag : bytes) (height reward : Z)
    : option Tx :=
  if (length (ps_Shares snapshot) =? 0)%nat then Some (NewCoinbase height reward payout tag) else
  match pplnsPayouts snapshot reward with
  | Ok ((o :: _) as outputs) =>
      let cb := NewCoinbase height reward (out_PubKeyHash o) tag in
      Some (mkTx (tx_Version cb) (tx_Ins cb) outputs (tx_LockTag cb))
  | _ => None
  end.

Definition share_target (p : Params) (mult networkTarget : Z) : Z :=
  Z.min (networkTarget * mult) (MaxTarget p).

(** [before] is the chain when its height is read first, [chain] when the template
    is built; [now] and [unixNow] are the time of the request and of the template;
    [jobID] is the outcome of [randomJobID]. *)
Definition PPLNS_Issue (q : PPLNSCoordinator) (w : PPLNSWindow) (before chain : Chain)
    (address worker : bytes) (now unixNow : Z) (jobID : result bytes)
    : PPLNSCoordinator * result PoolWork :=
  let p := pq_params q in
  let r :=
    payout ← match payout_pkh address with
             | Some pkh => Ok pkh | None => Err (EText "invalid payout address") end;
    _ ← check (validWorker worker) (EText "invalid worker label");
    let snapshot := w_state w in
    let current := Z.of_nat (length (ps_Shares snapshot)) in
    _ ← check (bool_decide (ps_Network snapshot = pq_network q))
          (EText "PPLNS window network mismatch");
    stateHash ← pplnsSnapshotHash (cloned_nil snapshot) snapshot;
    _ ← (if current =? 0 then Ok [] else pplnsPayouts snapshot (SubsidyAt (Height before + 1)));
    let coinbaseTag := pc_Tag (pq_config q) ++ bs ":" ++ stateHash in
    block ← match BuildBlockTemplateWithCoinbase (Some chain)
                    (Some (window_coinbase snapshot payout coinbaseTag)) unixNow with
            | Ok b => Ok b | Err e => Err (EWrap "build PPLNS template" 0 e) end;
    let builtHeight := Height chain + 1 in
    _ ← check (hdr_Nonce (blk_Header block) =? 0)
          (EText "build PPLNS template returned an invalid block");
    copyBlock ← match DecodeBlock (Block_Bytes block) with
                | Ok b => Ok b | Err e => Err (EWrap "copy PPLNS template" 0 e) end;
    id ← match jobID with Ok id => Ok id | Err e => Err (EWrap "create job id" 0 e) end;
    branch ← match MerkleBranch (blk_Txs block) 0 with
             | Ok b => Ok b | Err e => Err (EWrap "build coinbase merkle branch" 0 e) end;
    weights ← pplnsWeights snapshot;
    let '(basis, weights) :=
      if current =? 0 then ("requester", [mkWeight address 1 (hex_pad 34 1)])
      else ("pplns_window", weights) in
    let networkTarget := CompactToTarget (hdr_Bits (blk_Header block)) in
    let shareTarget := share_target p (pc_ShareTargetMultiplier (pq_config q)) networkTarget in
    let expires := now + pc_JobTTL (pq_config q) in
    '(js, order) ← insert_job pj_expiresAt now (pc_MaxJobs (pq_config q)) id
                     (mkPPLNSJob (pq_next q) copyBlock address builtHeight now expires networkTarget
                        shareTarget ∅) (pq_jobs q) (pq_order q);
    coinbase ← deref (head (blk_Txs block)) "index out of range";
    Ok (set_pplns_jobs (allocate_job q) js order,
        mkPoolWork 2 (pq_network q) "pplns" 0 id builtHeight
          (hex_encode (Header_Bytes (blk_Header block)))
          (hex_pad 32 networkTarget) (hex_pad 32 shareTarget) expires (ArgonMemKiB p) (ArgonTime p)
          (ps_WindowShares snapshot) current stateHash snapshot
          (cloned_nil snapshot) basis weights
          (hex_encode (Tx_Bytes coinbase)) (hex_encode <$> branch)) in
  match r with
  | Ok (q', work) => (q', Ok work)
  | Err e => (q, Err e)
  end.

(** ** Submission *)
(** The state that the requests of one pool share. *)
Record Pool := mkPool { po_co : PPLNSCoordinator; po_window : PPLNSWindow; po_chain : Chain }.
Definition set_co (s : Pool) (q : PPLNSCoordinator) : Pool := mkPool q (po_window s) (po_chain s).

(** The first critical section: a stored receipt, or the job with the nonce marked
    as seen. *)
Definition claim_share (q : PPLNSCoordinator) (chain : Chain) (id : bytes) (nonce now : Z)
    : PPLNSCoordinator * result (PoolSubmitResult + pplnsMiningJob) :=
  match pq_receipts q !! pplnsReceiptKey id nonce with
  | Some receipt => (q, Ok (inl receipt))
  | None =>
      match pq_jobs q !! id with
      | None => (q, Err ErrUnknownJob)
      | Some job =>
          if negb (now <? pj_expiresAt job) then (drop_pplns_job q id, Err ErrExpiredJob) else
          if negb (bool_decide (hdr_PrevBlock (blk_Header (pj_block job)) = (Tip chain).1))
          then (drop_pplns_job q id, Err ErrStaleJob) else
          if bool_decide (nonce ∈ pj_seen job) then (q, Err ErrDuplicateSubmission) else
          if Z.of_nat (size (pj_seen job)) >=? pc_MaxSubmissionsPerJob (pq_config q)
          then (q, Err ErrPPLNSSubmissionLimit) else
          let job := mark_seen job ({[nonce]} ∪ pj_seen job) in
          (set_pplns_jobs q (<[id := job]> (pq_jobs q)) (pq_order q), Ok (inr job))
      end
  end.

(** [marshal], [hardLink] and [written] are the file outcomes of [Accept]. *)
Definition PPLNS_Submit (s : Pool) (gap1 gap2 gap3 gap4 : Pool -> Pool)
    (marshal : PPLNSSnapshot -> result bytes) (hardLink : option error)
    (written : option error * bool) (id : bytes) (nonce now unixNow : Z)
    : Pool * result PoolSubmitResult :=
  let key := pplnsReceiptKey id nonce in
  let network := pq_network (po_co s) in
  let '(q, claim) := claim_share (po_co s) (po_chain s) id nonce now in
  let s := set_co s q in
  match claim with
  | Err e => (s, Err e)
  | Ok (inl receipt) => (s, Ok receipt)
  | Ok (inr job) =>
      let ptr := pj_ptr job in
      match DecodeBlock (Block_Bytes (pj_block job)) with
      | Err e => let s := gap1 s in
                 (set_co s (releaseSubmission (po_co s) id ptr nonce),
                  Err (EWrap "copy PPLNS mining job" 0 e))
      | Ok copy =>
          let block := mkBlock (with_nonce (blk_Header copy) nonce) (blk_Txs copy) in
          let shareHash := PowHash (Header_Bytes (blk_Header block)) (pq_params (po_co s)) in
          let shareValue := HashToBig shareHash in
          if shareValue >? pj_shareTarget job then (s, Err ErrLowShareDifficulty) else
          let s := gap1 s in
          if negb (bool_decide ((Tip (po_chain s)).1 = hdr_PrevBlock (blk_Header block))) then
            let s := gap2 s in
            (if same_job (po_co s) id ptr then set_co s (drop_pplns_job (po_co s) id) else s,
             Err ErrStaleJob)
          else
          let s := gap2 s in
          let share := mkShare 0 (pj_address job) id nonce (hex_encode shareHash)
                         (hex_pad 32 (pj_shareTarget job))
                         (hex_encode (hdr_PrevBlock (blk_Header block))) (pj_height job - 1) now in
          let '(w, accepted) := Accept marshal hardLink written (po_window s) share in
          let s := gap3 (mkPool (po_co s) w (po_chain s)) in
          match accepted with
          | Err e => (set_co s (releaseSubmission (po_co s) id ptr nonce), Err e)
          | Ok accepted =>
              let result := mkPoolResult 2 network "share_accepted"
                              (sh_ShareHash accepted) (sh_Sequence accepted) [] (pj_height job) in
              let s := gap4 (set_co s (store_receipt (po_co s) key result)) in
              if shareValue >? pj_networkTarget job then (s, Ok result) else
              let '(chain, r) := AcceptBlock (po_chain s) (Some block) unixNow in
              match r with
              | Err e => (mkPool (po_co s) (po_window s) chain,
                          Err (EWrap "mined block rejected" 0 e))
              | Ok _ =>
                  let result := mkPoolResult 2 (pr_Network result) "block_accepted"
                                  (pr_ShareHash result) (pr_ShareSequence result)
                                  (hex_encode (Header_ID (blk_Header block))) (pr_Height result) in
                  let q := set_pplns_jobs (store_receipt (po_co s) key result) ∅ [] in
                  (mkPool q (po_window s) chain, Ok result)
              end
          end
      end
  end.
End pool.
