(* ===== verification/PoolProofs.v ===== *)
(** * Lemmas about pooled work

    What a template carries, that difficulty bits fit 32 bits, lengths of Merkle
    branches, and the relation of the advertised weights to the share window. *)
From S2P Require Import Prelude Text Params Crypto Pow Wire Address Merkle Chain Ledger Sanity.
From S2P Require Import ChainInv ChainView Miner Pplns PplnsProofs Coordinator PoolWork PplnsCoordinator.

(** ** Difficulty bits fit [uint32] *)
Lemma lor_range n a b : 0 <= n -> 0 <= a < 2 ^ n -> 0 <= b < 2 ^ n -> 0 <= Z.lor a b < 2 ^ n.
Proof.
  intros Hn Ha Hb. assert (Hnn : 0 <= Z.lor a b) by (apply Z.lor_nonneg; lia). split; [done|].
  destruct (Z.eq_dec (Z.lor a b) 0) as [->|Hne]; [lia|]. apply Z.log2_lt_pow2; [lia|].
  rewrite Z.log2_lor by lia.
  destruct (Z.eq_dec a 0) as [->|], (Z.eq_dec b 0) as [->|]; cbn [Z.log2].
  - done.
  - rewrite Z.max_r by apply Z.log2_nonneg. apply Z.log2_lt_pow2; lia.
  - rewrite Z.max_l by apply Z.log2_nonneg. apply Z.log2_lt_pow2; lia.
  - apply Z.max_lub_lt; apply Z.log2_lt_pow2; lia.
Qed.

Lemma TargetToCompact_u32 t : in_u32 (TargetToCompact t).
Proof.
  unfold TargetToCompact, in_u32, two32. destruct (t <=? 0); [lia|]. cbv zeta.
  set (m := if _ <=? 3 then _ else _). destruct (if negb _ then _ else _) as [mant size].
  apply (lor_range 32); [lia| |].
  - unfold u32. apply Z.mod_pos_bound. done.
  - assert (Hl : Z.land mant 0x7fffff = mant mod 2 ^ 23) by (by rewrite <- Z.land_ones).
    rewrite Hl. pose proof (Z.mod_pos_bound mant (2 ^ 23)). lia.
Qed.

Lemma NextBits_u32 p height bitsAt timeAt b :
  in_u32 (MaxTargetBits p) -> (forall h bits, bitsAt h = Ok bits -> in_u32 bits) ->
  NextBits p height bitsAt timeAt = Ok b -> in_u32 b.
Proof.
  intros Hm Hb. unfold NextBits. destruct (height =? 0); [by intros [= <-]|].
  destruct (asertActive p height).
  { intros Hn. res_simpl. apply TargetToCompact_u32. }
  destruct (_ =? 0); [done|]. destruct (negb _); [apply Hb|]. intros Hn. res_simpl.
  apply TargetToCompact_u32.
Qed.

Section template.
Context `{Crypto} (p : Params).

Lemma branch_bits_u32 idx bi l : in_u32 (MaxTargetBits p) -> branch p idx bi l ->
  Forall (fun b => in_u32 (hdr_Bits (bi_header b))) l.
Proof.
  intros Hm. induction 1 as [|parent bi l _ IH _ _ _ _ _ [_ Hbits _]].
  - by constructor.
  - apply Forall_app. split; [done|]. constructor; [|done].
    eapply NextBits_u32; [done| |exact Hbits]. intros h bits Hb. unfold at_list in Hb.
    destruct (h <? 0); [done|]. destruct (l !! Z.to_nat h) as [b|] eqn:El; [|done].
    cbn in Hb. apply Ok_inj in Hb as <-. eapply Forall_lookup_1 in IH; eauto.
Qed.

Lemma tip_bits_u32 c bits : in_u32 (MaxTargetBits p) -> chain_inv p c ->
  NextBitsForTip c = Ok bits -> in_u32 bits.
Proof.
  intros Hm Hc. destruct (ci_main _ _ Hc) as (l & Hb & Hids & _).
  unfold NextBitsForTip, nextBitsAtLocked. rewrite (ci_params _ _ Hc).
  apply NextBits_u32; [done|]. intros h b Hb'. res_simpl.
  rename select (main_at _ _ = _) into Hat. unfold main_at in Hat. destruct (h <? 0); [done|].
  res_simpl. rewrite Hids, list_lookup_fmap in *. destruct (l !! Z.to_nat h) as [bi|] eqn:El; [|done].
  pose proof (list_elem_of_lookup_2 _ _ _ El) as Hin.
  pose proof (branch_indexed _ _ _ _ Hb (ci_tip _ _ Hc) _ Hin) as Hix.
  cbn in *. simplify_eq/=.
  pose proof (branch_bits_u32 _ _ _ Hm Hb) as Hall. rewrite list.Forall_forall in Hall. by apply Hall.
Qed.

(** What [BuildBlockTemplateWithCoinbase] returns. *)
Lemma template_shape c build now blk :
  BuildBlockTemplateWithCoinbase (Some c) (Some build) now = Ok blk ->
  exists cb sel bits reward,
    blk = mkBlock (mkHeader 1 (bi_id (c_tip c)) (MerkleRoot (cb :: sel)) now bits 0) (cb :: sel) /\
    NextBitsForTip c = Ok bits /\
    validateTemplateCoinbase (build (bi_height (c_tip c) + 1) reward) (bi_height (c_tip c) + 1) reward
      = Ok cb /\
    SubsidyAt (bi_height (c_tip c) + 1) <= reward /\
    Z.of_nat (length (Block_Bytes blk)) <= MaxBlockBytes.
Proof.
  intros Hb. unfold BuildBlockTemplateWithCoinbase in Hb. cbn [mbind result_bind] in Hb.
  apply bind_Ok in Hb as (pre & Hpre & Hb).
  destruct (template_loop _ _ _ _ _ _ _) as [[sel enc] fees] eqn:El.
  apply bind_Ok in Hb as (reward & Hrew & Hb). apply bind_Ok in Hb as (cb & Hcb & Hb).
  step_if Hb; [done|]. apply bind_Ok in Hb as (bits & Hbits & Hb). step_if Hb; [done|].
  apply Ok_inj in Hb as <-. bool_prop.
  destruct (checkedAddMoney _ fees) as [r|] eqn:Ea; [|done]. apply Ok_inj in Hrew as ->.
  apply checkedAddMoney_Some in Ea as (-> & ? & ? & ?).
  exists cb, sel, bits, (SubsidyAt (bi_height (c_tip c) + 1) + fees). split_and!; try done. lia.
Qed.
End template.

(** ** Merkle branches *)
Lemma list_last_elem {A} (l : list A) d : l <> [] -> List.last l d ∈ l.
Proof.
  induction l as [|a [|b l] IH]; intros Hne; [done|left|]. right. by apply IH.
Qed.

Lemma branch_loop_bound `{CryptoLaws} fuel : forall l pos b k,
  branch_loop fuel l pos = Some b -> (length l <= 2 ^ k)%nat ->
  (length b <= k)%nat /\
  (Forall (fun h => length h = 32%nat) l -> Forall (fun h => length h = 32%nat) b).
Proof.
  induction fuel as [|fuel IH]; intros l pos b k Hb Hk.
  { destruct l as [|? []]; [done|..]; cbn in Hb; simplify_eq. cbn. split; [lia|done]. }
  destruct l as [|x [|y l]]; [done|..].
  { cbn in Hb. simplify_eq. cbn. split; [lia|done]. }
  cbn [branch_loop] in Hb. destruct (merkle_pad (x :: y :: l) !! _) as [sib|] eqn:Es; [|done].
  cbn [mbind option_bind] in Hb. destruct (branch_loop fuel _ _) as [rest|] eqn:Er; [|done].
  cbn in Hb. simplify_eq. destruct k as [|k]; [cbn in Hk; lia|].
  destruct (IH _ _ _ k Er) as [Hl H32].
  { unfold merkle_next. destruct (length_merkle_pad (x :: y :: l)) as (m & Hm & Hb); [done|].
    rewrite (length_merkle_pairs m) by done. rewrite Nat.pow_succ_r' in Hk. lia. }
  split; [cbn; lia|]. intros Hall. constructor; [|apply H32, length_merkle_pairs_32].
  apply list_elem_of_lookup_2 in Es. unfold merkle_pad in Es. destruct (Nat.odd _).
  - apply elem_of_app in Es as [Es|Es%list_elem_of_singleton].
    + rewrite list.Forall_forall in Hall. by apply Hall.
    + subst sib. rewrite list.Forall_forall in Hall. apply Hall.
      by apply list_last_elem.
  - rewrite list.Forall_forall in Hall. by apply Hall.
Qed.

Lemma decode_siblings branch : Forall (fun h => length h = 32%nat) branch ->
  mapR decode_sibling (hex_encode <$> branch) = Ok branch.
Proof.
  induction 1 as [|h branch Hh _ IH]; [done|]. rewrite fmap_cons. cbn [mapR].
  assert (decode_sibling (hex_encode h) = Ok h) as ->
    by (unfold decode_sibling; by rewrite canonical_hex_len). cbn [mbind result_bind].
  rewrite IH. done.
Qed.

Lemma block_txs_bound b : (length (blk_Txs b) <= length (Block_Bytes b))%nat.
Proof.
  unfold Block_Bytes. rewrite !length_app.
  assert (Hf : (length (blk_Txs b) <= length (flat_map (fun t => writeBytes (Tx_Bytes t)) (blk_Txs b)))%nat).
  { induction (blk_Txs b) as [|t l IH]; [done|]. cbn [flat_map length]. rewrite length_app.
    unfold writeBytes at 1, Tx_Bytes at 2, serialize. rewrite !length_app, length_le_bytes. lia. }
  lia.
Qed.

(** ** Canonical numbers *)
Lemma parse_target t : 0 < t < 2 ^ 256 -> parseCanonicalTarget (hex_pad 32 t) = Ok t.
Proof.
  intros Ht. unfold parseCanonicalTarget, hex_pad.
  rewrite canonical_hex_len, be_val_be_bytes by apply length_be_bytes.
  rewrite Z.mod_small by (change (256 ^ Z.of_nat 32) with (2 ^ 256); lia).
  by rewrite (proj2 (Z.leb_gt _ _)) by lia.
Qed.

Lemma parse_work t : 0 < t < 2 ^ 268 -> parseCanonicalWork (hex_pad 34 t) = Ok t.
Proof.
  intros Ht. unfold parseCanonicalWork, hex_pad.
  rewrite canonical_hex_len, be_val_be_bytes by apply length_be_bytes.
  rewrite Z.mod_small by (change (256 ^ Z.of_nat 34) with (2 ^ 272); lia).
  rewrite (proj2 (Z.leb_gt _ _)), (proj2 (Z.leb_gt _ _)) by lia. done.
Qed.

(** ** The advertised weights of a window *)
Section weights.
Context `{Crypto}.

Definition add_count (m : gmap bytes Z) (s : PPLNSShare) : gmap bytes Z :=
  <[sh_Address s := default 0 (m !! sh_Address s) + 1]> m.
Definition share_counts (l : list PPLNSShare) : gmap bytes Z := fold_left add_count l ∅.

Lemma weight_fold l : Forall (fun s => exists t, parseCanonicalTarget (sh_ShareTarget s) = Ok t) l ->
  forall c w, foldM weight_step (c, w) l = Ok (fold_left add_count l c, fold_left add_weight l w).
Proof.
  induction 1 as [|s l [t Ht] _ IH]; intros c w; [done|]. cbn [foldM fold_left].
  unfold weight_step at 1. rewrite Ht, IH. do 2 f_equal.
  unfold add_weight, share_work. by rewrite Ht.
Qed.

Lemma share_counts_snoc l s : share_counts (l ++ [s]) = add_count (share_counts l) s.
Proof. unfold share_counts. by rewrite fold_left_app. Qed.

Lemma share_counts_total l : map_sum (share_counts l) = Z.of_nat (length l).
Proof.
  induction l as [|s l IH] using rev_ind; [done|].
  rewrite share_counts_snoc, length_app. unfold add_count. rewrite map_sum_add, IH. cbn. lia.
Qed.

Lemma share_counts_pos l : forall a n, share_counts l !! a = Some n -> 1 <= n.
Proof.
  induction l as [|s l IH] using rev_ind; intros a n; [done|].
  rewrite share_counts_snoc. unfold add_count.
  intros [[_ <-]|[_ Hn]]%lookup_insert_Some; [|by eapply IH].
  destruct (share_counts l !! sh_Address s) as [m|] eqn:E; cbn; [apply IH in E|]; lia.
Qed.

Lemma share_counts_dom l : dom (share_counts l) = dom (window_weights l).
Proof.
  induction l as [|s l IH] using rev_ind; [done|].
  rewrite share_counts_snoc, window_weights_snoc. unfold add_count, add_weight.
  by rewrite !dom_insert_L, IH.
Qed.
End weights.

(** ** The miner's check of the weights *)
Section check.
Context `{Crypto} (works : gmap bytes Z).

Definition weight_of (e : bytes * Z) : PPLNSPayoutWeight :=
  mkWeight e.1 e.2 (hex_pad 34 (default 0 (works !! e.1))).
Definition put_work (m : gmap bytes Z) (w : PPLNSPayoutWeight) : gmap bytes Z :=
  <[pw_Address w := default 0 (works !! pw_Address w)]> m.

(** What makes an advertised weight acceptable. *)
Definition weight_good (w : PPLNSPayoutWeight) : Prop :=
  is_Some (payout_pkh (pw_Address w)) /\ 1 <= pw_Shares w /\
  pw_WorkHex w = hex_pad 34 (default 0 (works !! pw_Address w)) /\
  0 < default 0 (works !! pw_Address w) < 2 ^ 268.

Lemma check_weights ws : forall m t prev,
  Forall weight_good ws -> Forall (fun w => ~ bytes_le (pw_Address w) prev) ws ->
  StronglySorted (fun a b => ~ bytes_le (pw_Address b) (pw_Address a)) ws ->
  0 <= t -> t + sumZ (pw_Shares <$> ws) <= 4096 ->
  exists last, foldM check_weight (m, t, prev) ws
    = Ok (fold_left put_work ws m, t + sumZ (pw_Shares <$> ws), last).
Proof.
  induction ws as [|w ws IH]; intros m t prev Hgood Hprev Hsort Ht Hsum.
  { exists prev. cbn. by rewrite Z.add_0_r. }
  apply Forall_cons_1 in Hgood as [(Hp & Hs & Hhex & Hw) Hgood].
  apply Forall_cons_1 in Hprev as [Hlt _]. inv Hsort as [|? ? Hsort' Hall].
  assert (Hrest : 0 <= sumZ (pw_Shares <$> ws)).
  { clear -Hgood. induction Hgood as [|x ws (_ & ? & _) _ IH]; cbn; lia. }
  rewrite fmap_cons in *. cbn [sumZ] in *. cbn [foldM fold_left].
  unfold check_weight at 1. rewrite (bool_decide_eq_true_2 (is_Some _)) by done.
  rewrite (bool_decide_eq_false_2 (bytes_le _ _)) by done. rewrite !Z.gtb_ltb.
  rewrite (proj2 (Z.ltb_ge _ _)), (proj2 (Z.ltb_ge _ _)), (proj2 (Z.ltb_ge _ _)) by lia.
  cbn [negb andb orb check mbind result_bind]. rewrite Hhex, parse_work by done.
  destruct (IH (put_work m w) (t + pw_Shares w) (pw_Address w) Hgood Hall Hsort') as [last Hl]; [lia..|].
  exists last. unfold put_work in Hl at 1. rewrite Hl. do 3 f_equal. lia.
Qed.

Lemma put_works_lookup ws a : forall m,
  fold_left put_work ws m !! a =
  if decide (a ∈ pw_Address <$> ws) then Some (default 0 (works !! a)) else m !! a.
Proof.
  induction ws as [|w ws IH]; intros m; cbn [fold_left fmap list_fmap]; [done|].
  rewrite IH. unfold put_work. destruct (decide (a = pw_Address w)) as [->|Hne].
  - rewrite lookup_insert_eq, (decide_True (P := _ ∈ _ :: _)) by left. by case_decide.
  - rewrite lookup_insert_ne by done. repeat case_decide; set_solver.
Qed.
End check.

Section advertised.
Context `{Crypto}.

Lemma payout_nonempty a : is_Some (payout_pkh a) -> ~ bytes_le a [].
Proof. destruct a; [intros [? Hp]; done|]. intros _ Hle. by apply Hle. Qed.

#[local] Instance weight_le_total : Total weight_le.
Proof. intros a b. apply (total bytes_le). Qed.
#[local] Instance weight_le_trans : Transitive weight_le.
Proof. intros a b c. unfold weight_le. apply transitivity. Qed.

Lemma strictly_sorted ws : NoDup (pw_Address <$> ws) -> StronglySorted weight_le ws ->
  StronglySorted (fun a b => ~ bytes_le (pw_Address b) (pw_Address a)) ws.
Proof.
  intros Hnd Hs. induction Hs as [|w ws Hs IH Hall]; [constructor|].
  rewrite fmap_cons, list.NoDup_cons in Hnd. destruct Hnd as [Hni Hnd].
  constructor; [by apply IH|]. apply list.Forall_forall. intros x Hx Hle.
  rewrite list.Forall_forall in Hall. pose proof (Hall x Hx) as Hle'.
  apply Hni. rewrite (anti_symm bytes_le _ _ Hle' Hle). by apply list_elem_of_fmap_2.
Qed.

(** For a valid window the miner accepts the weights the coordinator advertises and
    rebuilds the map from which the payouts are computed. *)
Lemma advertised_weights network l s :
  ps_Shares s = l -> Forall (share_valid network) l -> Z.of_nat (length l) <= 4096 ->
  exists ws, pplnsWeights s = Ok ws /\
    length ws = size (window_weights l) /\
    exists last, foldM check_weight (∅, 0, []) ws
                 = Ok (window_weights l, Z.of_nat (length l), last).
Proof.
  intros Hl Hv Hlen. unfold pplnsWeights. rewrite Hl, weight_fold.
  2:{ eapply list.Forall_impl; [exact Hv|]. intros x (_ & t & Ht & _). eauto. }
  cbn [mbind result_bind]. fold (share_counts l) (window_weights l).
  set (W := window_weights l). set (entries := map_to_list (share_counts l)).
  change (fun e : bytes * Z => mkWeight e.1 e.2 (hex_pad 34 (default 0 (W !! e.1)))) with (weight_of W).
  set (ws := merge_sort weight_le (weight_of W <$> entries)). exists ws.
  assert (Hperm : ws ≡ₚ weight_of W <$> entries) by apply merge_sort_Permutation.
  assert (Haddr : pw_Address <$> ws ≡ₚ fst <$> entries).
  { rewrite Hperm, <- list_fmap_compose. done. }
  assert (Hcount : sumZ (pw_Shares <$> ws) = Z.of_nat (length l)).
  { rewrite Hperm, <- list_fmap_compose. apply share_counts_total. }
  assert (Hin : forall w, w ∈ ws -> exists n, share_counts l !! pw_Address w = Some n /\
            w = weight_of W (pw_Address w, n)).
  { intros w Hw. rewrite Hperm in Hw. apply list_elem_of_fmap in Hw as ([a n] & -> & He).
    apply elem_of_map_to_list in He. by exists n. }
  assert (Hdom : forall a, a ∈ pw_Address <$> ws <-> is_Some (W !! a)).
  { intros a. rewrite Haddr, <- elem_of_dom. unfold W. rewrite <- share_counts_dom, elem_of_dom.
    rewrite list_elem_of_fmap. split.
    - intros ([a' n] & -> & He%elem_of_map_to_list). cbn. eauto.
    - intros [n Hn]. exists (a, n). split; [done|]. by apply elem_of_map_to_list. }
  assert (Hgood : Forall (weight_good W) ws).
  { apply list.Forall_forall. intros w Hw. destruct (Hin w Hw) as (n & Hn & Hw').
    assert (Ha : pw_Address w ∈ sh_Address <$> l).
    { destruct (proj1 (Hdom (pw_Address w)) (list_elem_of_fmap_2 _ _ _ Hw)) as [x Hx].
      unfold W in Hx. rewrite window_weights_lookup in Hx. by case_decide. }
    split; [|split; [|split]].
    - apply list_elem_of_fmap in Ha as (x & -> & Hx). eapply share_valid_pkh.
      by eapply list.Forall_forall in Hv.
    - rewrite Hw'. by eapply share_counts_pos.
    - by rewrite Hw'.
    - unfold W. rewrite window_weights_lookup, decide_True by done. cbn.
      pose proof (address_work_bound _ _ _ Hv Ha).
      assert (4096 * 2 ^ 255 < 2 ^ 268) by (vm_compute; done). nia. }
  split_and!; [done| |].
  - rewrite Hperm, length_fmap. unfold entries. rewrite length_map_to_list, <- size_dom.
    by rewrite share_counts_dom, size_dom.
  - destruct (check_weights W ws ∅ 0 []) as [last Hl'].
    + done.
    + eapply list.Forall_impl; [exact Hgood|]. intros w (Hp & _). by apply payout_nonempty.
    + apply strictly_sorted; [|apply StronglySorted_merge_sort; apply _].
      rewrite Haddr. apply NoDup_fst_map_to_list.
    + done.
    + lia.
    + exists last. rewrite Hl', Hcount. do 3 f_equal. apply map_eq. intros a.
      rewrite put_works_lookup. case_decide as Ha; [|].
      * apply Hdom in Ha as [x Hx]. by rewrite Hx.
      * rewrite lookup_empty. destruct (W !! a) eqn:E; [|done]. exfalso. apply Ha, Hdom. eauto.
Qed.
End advertised.

(** ** The coinbase of an issued job *)
Section coinbase.
Context `{Crypto}.

Lemma payout_pkh_length a pkh : payout_pkh a = Some pkh -> length pkh = 20%nat.
Proof.
  unfold payout_pkh. destruct (DecodeAddress a) as [k|] eqn:E; [|done].
  destruct (_ || _); [done|]. intros [= <-]. unfold DecodeAddress in E. res_simpl.
  repeat (case_match; [done|]). simplify_eq. apply length_to_array.
Qed.

Lemma payouts_shape s reward outs : pplnsPayouts s reward = Ok outs ->
  pplnsOutputsFromWork (window_weights (ps_Shares s)) reward = Ok outs /\
  (length outs <= 256)%nat /\ Forall (fun o => length (out_PubKeyHash o) = 20%nat) outs.
Proof.
  unfold pplnsPayouts. intros Hp. res_simpl. fold (window_weights (ps_Shares s)) in Hp.
  split; [done|]. unfold pplnsOutputsFromWork in Hp.
  destruct (outputs_in_order_spec _ _ reward outs (reflexivity (R := (≡ₚ)) (map_to_list
    (window_weights (ps_Shares s))))) as [Hspec _]. destruct (Hspec Hp) as (Hok & _ & _).
  apply outputs_fair in Hp as (_ & ws' & Hperm & _ & Hall); [|done].
  split.
  - apply Forall2_length in Hall. rewrite <- Hall, Hperm. destruct (wo_len _ _ Hok). lia.
  - clear -Hall. induction Hall as [|aw o ws l (Hpk & _) _ IH]; constructor; [|done].
    by eapply payout_pkh_length.
Qed.

(** Both branches of the builder give a coinbase of the same form. *)
Definition coinbase_in (height : Z) : TxIn :=
  mkTxIn (mkOutPoint zeroHash 0xffffffff) (putUvarint (u64 height)) [].

Lemma window_coinbase_shape s payout tag h r cb : length payout = 20%nat ->
  window_coinbase s payout tag h r = Some cb ->
  tx_Version cb = 1 /\ tx_Ins cb = [coinbase_in h] /\ tx_LockTag cb = tag /\
  (length (tx_Outs cb) <= 256)%nat /\
  Forall (fun o => length (out_PubKeyHash o) = 20%nat) (tx_Outs cb) /\
  if (length (ps_Shares s) =? 0)%nat then tx_Outs cb = [mkTxOut r payout]
  else pplnsPayouts s r = Ok (tx_Outs cb).
Proof.
  intros Hp. unfold window_coinbase. destruct (_ =? 0)%nat.
  - intros [= <-]. cbn. split_and!; try done; [lia|]. by constructor.
  - destruct (pplnsPayouts s r) as [[|o outs]|] eqn:E; [done| |done]. intros [= <-]. cbn.
    destruct (payouts_shape _ _ _ E) as (_ & Hl & Hall). cbn in Hl. split_and!; try done; lia.
Qed.

Lemma length_flat_map_const {A} (f : A -> bytes) n l :
  Forall (fun a => length (f a) = n) l -> length (flat_map f l) = (n * length l)%nat.
Proof. induction 1 as [|a l Ha _ IH]; [cbn; lia|]. cbn [flat_map length]. rewrite length_app. lia. Qed.

Lemma payout_coinbase_wf cb h tag : tx_Version cb = 1 -> tx_Ins cb = [coinbase_in h] ->
  tx_LockTag cb = tag -> Z.of_nat (length tag) <= 256 -> (length (tx_Outs cb) <= 256)%nat ->
  Forall (fun o => length (out_PubKeyHash o) = 20%nat) (tx_Outs cb) ->
  Forall (fun o => 0 < out_Value o <= MaxMoneyUnits) (tx_Outs cb) ->
  wf_tx cb /\ 0 < Z.of_nat (length (Tx_Bytes cb)) <= 32 * 1024.
Proof.
  intros Hv Hi Ht Htl Hol Hpk Hval. pose proof (length_putUvarint (u64 h)) as Hu. split.
  - split; rewrite ?Hv, ?Hi, ?Ht; try (cbn; lia).
    + unfold in_u32, two32. lia.
    + constructor; [|done]. split; cbn [coinbase_in in_Prev in_PubKey in_Sig op_TxID op_Idx length];
        try lia; [done|]. unfold in_u32, two32. lia.
    + apply Forall_lookup_2. intros k o Ho. rewrite Forall_lookup in Hpk, Hval.
      pose proof (Hpk _ _ Ho). pose proof (Hval _ _ Ho). split; [|done].
      unfold in_i64, two63, MaxMoneyUnits, UnitsPerCoin in *. lia.
  - unfold Tx_Bytes, serialize. rewrite Hi, Ht. cbn [flat_map]. unfold serialize_in, writeBytes.
    rewrite !length_app, !length_le_bytes.
    rewrite (length_flat_map_const serialize_out 28).
    2:{ eapply list.Forall_impl; [exact Hpk|]. intros o Ho. cbn beta in Ho. unfold serialize_out.
        rewrite length_app, length_le_bytes. lia. }
    cbn [op_TxID op_Idx in_Prev in_PubKey in_Sig coinbase_in].
    change (length zeroHash) with 32%nat. cbn [length].
    repeat match goal with |- context [length (putUvarint ?v)] =>
      lazymatch goal with
      | _ : (length (putUvarint v) <= 10)%nat |- _ => fail
      | _ => pose proof (length_putUvarint v)
      end end.
    lia.
Qed.
End coinbase.

(** ** The miner accepts an issued coinbase proof *)
Section proof.
Context `{CryptoLaws}.

Lemma rewards_sum outs : forall r, 0 <= r -> Forall (fun o => 0 < out_Value o <= MaxMoneyUnits) outs ->
  r + sumZ (out_Value <$> outs) <= MaxMoneyUnits ->
  foldM coinbase_reward r outs = Ok (r + sumZ (out_Value <$> outs)).
Proof.
  induction outs as [|o outs IH]; intros r Hr Hall Hsum; cbn [foldM].
  { cbn. by rewrite Z.add_0_r. }
  apply Forall_cons_1 in Hall as [Ho Hall]. rewrite fmap_cons in *. cbn [sumZ] in *.
  assert (Hrest : 0 <= sumZ (out_Value <$> outs)).
  { clear -Hall. induction Hall as [|x l Hx _ IH]; cbn; lia. }
  unfold coinbase_reward at 1.
  rewrite (proj2 (Z.leb_gt _ _)), (proj2 (MoneyRange_spec _)), Z.gtb_ltb, (proj2 (Z.ltb_ge _ _)) by lia.
  cbn [orb negb check mbind result_bind]. rewrite IH by (done || lia). f_equal. lia.
Qed.

Lemma is_suffix_app a b : is_suffix b (a ++ b) = true.
Proof.
  unfold is_suffix. rewrite length_app. apply andb_true_iff. split; [apply Nat.leb_le; lia|].
  apply bool_decide_eq_true. replace (length a + length b - length b)%nat with (length a) by lia.
  apply drop_app_length.
Qed.

Lemma coinbase_proof_ok work header cb sel reward tag branch ws total last :
  pk_CoinbaseHex work = hex_encode (Tx_Bytes cb) -> wf_tx cb ->
  0 < Z.of_nat (length (Tx_Bytes cb)) <= 32 * 1024 -> IsCoinbase cb = true ->
  tx_Ins cb = [coinbase_in (pk_Height work)] ->
  Forall (fun o => 0 < out_Value o <= MaxMoneyUnits) (tx_Outs cb) ->
  sumZ (out_Value <$> tx_Outs cb) = reward -> reward <= MaxMoneyUnits ->
  SubsidyAt (pk_Height work) <= reward ->
  tx_LockTag cb = tag ++ bs ":" ++ pk_PPLNSStateHash work -> (1 <= length tag <= 64)%nat ->
  MerkleBranch (cb :: sel) 0 = Ok branch -> Z.of_nat (length (cb :: sel)) <= MaxBlockBytes ->
  hdr_MerkleRoot header = MerkleRoot (cb :: sel) ->
  pk_CoinbaseMerkleBranch work = hex_encode <$> branch ->
  (0 < length (pk_PayoutWeights work) <= 256)%nat ->
  foldM check_weight (∅, 0, []) (pk_PayoutWeights work) = Ok (ws, total, last) ->
  check_payout work cb reward ws total = Ok tt ->
  validatePoolCoinbaseProof work header = Ok tt.
Proof.
  intros Hhex Hwf Hlen Hcb Hins Hval Hsum Hmax Hsub Htag Htl Hbr Htxs Hroot Hbh Hwl Hws Hpay.
  unfold validatePoolCoinbaseProof. rewrite Hhex, hex_decode_encode.
  rewrite (proj2 (Nat.eqb_neq (length (Tx_Bytes cb)) 0)) by lia.
  rewrite (Z.gtb_ltb (Z.of_nat (length (Tx_Bytes cb)))).
  rewrite (proj2 (Z.ltb_ge (32 * 1024) (Z.of_nat (length (Tx_Bytes cb))))) by lia.
  rewrite (bool_decide_eq_true_2 (hex_encode _ = _)) by done. cbn [orb negb mbind result_bind].
  rewrite DecodeTx_Bytes by done. rewrite (bool_decide_eq_true_2 (Tx_Bytes _ = _)), Hcb, Hins by done.
  cbn [coinbase_in in_Sig in_PubKey length Nat.eqb orb negb mbind result_bind].
  rewrite Hins. cbn [coinbase_in in_PubKey].
  rewrite (bool_decide_eq_true_2 (putUvarint _ = _)) by done. cbn [check mbind result_bind].
  rewrite rewards_sum by (done || lia). rewrite Z.add_0_l, Hsum. cbn [mbind result_bind].
  rewrite (proj2 (Z.ltb_ge reward (SubsidyAt (pk_Height work)))) by lia.
  cbn [negb check mbind result_bind]. rewrite Htag, is_suffix_app, !length_app.
  set (len := (length (bs ":") + length (pk_PPLNSStateHash work))%nat).
  rewrite (Z.gtb_ltb (Z.of_nat (length tag + len))).
  rewrite (proj2 (Z.leb_gt (Z.of_nat (length tag + len)) (Z.of_nat len))) by lia.
  rewrite (proj2 (Z.ltb_ge (64 + Z.of_nat len) (Z.of_nat (length tag + len)))) by lia.
  cbn [orb negb check mbind result_bind].
  destruct (MerkleBranch_correct (cb :: sel) 0 cb) as (branch' & Hb' & Hr'); [done|done|].
  rewrite Hbr in Hb'. apply Ok_inj in Hb' as <-.
  assert (Hbl : (length branch <= 64)%nat /\ Forall (fun h => length h = 32%nat) branch).
  { unfold MerkleBranch in Hbr. step_if Hbr; [done|].
    destruct (branch_loop _ _ _) as [b|] eqn:Eb; [|done]. cbn in Hbr. apply Ok_inj in Hbr as ->.
    destruct (branch_loop_bound _ _ _ _ 20 Eb) as [Hl H32].
    { rewrite length_fmap. transitivity (Z.to_nat MaxBlockBytes); [lia|].
      apply Nat2Z.inj_le. rewrite Nat2Z.inj_pow. vm_compute. discriminate. }
    split; [lia|]. apply H32. apply Forall_fmap, Forall_true. intros t. apply length_SHA256d. }
  destruct Hbl as [Hbl H32]. rewrite Hbh, length_fmap.
  rewrite (proj2 (Z.leb_le (Z.of_nat (length branch)) 64)) by lia.
  cbn [check mbind result_bind]. rewrite decode_siblings by done. cbn [mbind result_bind].
  rewrite (proj2 (is_value_true _ _)) by (by rewrite Hroot). cbn [check mbind result_bind].
  set (wl := length (pk_PayoutWeights work)) in *. rewrite (proj2 (Nat.eqb_neq wl 0)) by lia.
  rewrite (Z.gtb_ltb (Z.of_nat wl)), (proj2 (Z.ltb_ge 256 (Z.of_nat wl))) by lia.
  cbn [orb negb check mbind result_bind]. rewrite Hws. cbn [mbind result_bind]. exact Hpay.
Qed.
End proof.

(** ** Payout proofs of issued work *)
Section payout.
Context `{CryptoLaws}.

Lemma requester_weights address pkh : payout_pkh address = Some pkh ->
  foldM check_weight (∅, 0, []) [mkWeight address 1 (hex_pad 34 1)]
  = Ok (<[address := 1]> ∅, 1, address).
Proof.
  intros Hp. cbn [foldM]. unfold check_weight. cbn [pw_Address pw_Shares pw_WorkHex].
  assert (Hi : is_Some (payout_pkh address)) by eauto.
  rewrite (bool_decide_eq_true_2 (is_Some _)) by done.
  rewrite (bool_decide_eq_false_2 (bytes_le _ _)) by (by apply payout_nonempty).
  cbn [negb andb orb check mbind result_bind Z.ltb Z.gtb]. by rewrite parse_work.
Qed.

Lemma requester_payout work cb reward address pkh ws :
  payout_pkh address = Some pkh -> pk_PayoutBasis work = "requester" ->
  pk_PayoutWeights work = [mkWeight address 1 (hex_pad 34 1)] ->
  tx_Outs cb = [mkTxOut reward pkh] -> pk_CurrentShares work = 0 -> ps_Shares (pk_Window work) = [] ->
  check_payout work cb reward ws 1 = Ok tt.
Proof.
  intros Hp Hb Hw Ho Hc Hs. unfold check_payout. rewrite Hb, Hw, Ho, Hc, Hs. cbn [String.eqb].
  rewrite (bool_decide_eq_true_2 (pw_WorkHex _ = _)) by done.
  cbn [Z.eqb length Nat.eqb andb check mbind result_bind pw_Address].
  unfold payout_pkh in Hp. destruct (DecodeAddress address) as [k|]; [|done].
  destruct (_ || _); [done|]. injection Hp as ->. cbn [out_PubKeyHash out_Value].
  by rewrite bool_decide_eq_true_2, Z.eqb_refl.
Qed.

Lemma window_payout work cb reward :
  pk_PayoutBasis work = "pplns_window" -> 1 <= pk_CurrentShares work ->
  pplnsWeights (pk_Window work) = Ok (pk_PayoutWeights work) ->
  pplnsPayouts (pk_Window work) reward = Ok (tx_Outs cb) ->
  check_payout work cb reward (window_weights (ps_Shares (pk_Window work))) (pk_CurrentShares work)
  = Ok tt.
Proof.
  intros Hb Hc Hw Hp. unfold check_payout. rewrite Hb. cbn [String.eqb].
  change (String.eqb "pplns_window" "requester") with false.
  change (String.eqb "pplns_window" "pplns_window") with true. cbn iota.
  rewrite (proj2 (Z.ltb_ge _ _)), Z.eqb_refl, Hw by lia. cbn [negb andb check mbind result_bind].
  rewrite (bool_decide_eq_true_2 (pk_PayoutWeights work = _)) by done. cbn [check mbind result_bind].
  destruct (payouts_shape _ _ _ Hp) as (-> & _ & _). rewrite Nat.eqb_refl.
  cbn [check mbind result_bind]. by rewrite bool_decide_eq_true_2.
Qed.
End payout.

(** ** Issued work *)
Section issue.
Context `{CryptoLaws} `{SnapshotJSON} (p : Params) (Hpow : pow_params_ok p).

(** A coordinator as [NewPPLNSCoordinator] configures it. *)
Record coordinator_ok (q : PPLNSCoordinator) : Prop := {
  cq_params : pq_params q = p;
  cq_network : CanonicalNetworkID (Some p) = Ok (pq_network q);
  cq_tag : validPPLNSCoordinatorTag (pc_Tag (pq_config q)) = true;
  cq_mult : 1 <= pc_ShareTargetMultiplier (pq_config q);
  cq_jobs : 0 < pc_MaxJobs (pq_config q);
  cq_table : table_ok (pq_jobs q) (pq_order q) }.

(** A window as [NewPPLNSWindow] configures it, with a valid state. *)
Record window_ok (network : string) (s : PPLNSSnapshot) : Prop := {
  wk_valid : validatePPLNSState s network (ps_WindowShares s) (ps_MaxAddresses s) = Ok tt;
  wk_shares : 1 <= ps_WindowShares s <= 4096;
  wk_addresses : 1 <= ps_MaxAddresses s <= 256 /\ ps_MaxAddresses s <= ps_WindowShares s }.

Lemma new_coordinator_ok chain w config q : c_params chain = p ->
  NewPPLNSCoordinator (Some chain) (Some w) config = Ok q -> coordinator_ok q.
Proof.
  intros Hp. unfold NewPPLNSCoordinator. rewrite Hp. intros Hn. res_simpl. bool_prop.
  split; cbn [pq_params pq_network pq_config pc_Tag pc_ShareTargetMultiplier pc_MaxJobs pq_jobs pq_order];
    try done; try lia. intros id [y Hy]. by rewrite lookup_empty in Hy.
Qed.

Lemma canonical_bits network : CanonicalNetworkID (Some p) = Ok network -> in_u32 (MaxTargetBits p).
Proof.
  unfold CanonicalNetworkID. repeat case_decide; intros Hn; [..|done]; subst p;
    vm_compute; intuition discriminate.
Qed.

Lemma tip_target c bits : chain_inv p c -> NextBitsForTip c = Ok bits -> target_ok p bits.
Proof.
  intros Hc Hb. apply (bitsOnBranch_ok p Hpow c _ (c_tip c) (bi_height (c_tip c) + 1) bits Hc (ci_tip _ _ Hc)).
  unfold bitsOnBranch. by rewrite bool_decide_eq_true_2, Z.eqb_refl.
Qed.

Lemma template_header_wf c cb sel bits now : chain_inv p c -> in_u32 bits -> in_i64 now ->
  wf_header (mkHeader 1 (bi_id (c_tip c)) (MerkleRoot (cb :: sel)) now bits 0).
Proof.
  intros Hc Hb Ht. split; cbn [hdr_Version hdr_PrevBlock hdr_MerkleRoot hdr_Time hdr_Bits hdr_Nonce].
  - unfold in_u32, two32. lia.
  - rewrite (eo_id p _ (inv_entry_ok p Hpow c _ _ Hc (ci_tip _ _ Hc))). apply length_SHA256d.
  - apply length_MerkleRoot.
  - done.
  - done.
  - unfold in_u64, two64. lia.
Qed.

Lemma decoded_header blk copy : wf_header (blk_Header blk) -> DecodeBlock (Block_Bytes blk) = Ok copy ->
  blk_Header copy = blk_Header blk.
Proof.
  intros Hwf Hd. unfold DecodeBlock in Hd. step_if Hd; [done|]. step_if Hd; [done|].
  apply bind_Ok in Hd as ([n r] & _ & Hd). apply bind_Ok in Hd as ([txs r'] & _ & Hd).
  step_if Hd; [done|]. apply Ok_inj in Hd as <-. unfold Block_Bytes. by apply decode_header_app.
Qed.

Section parse.
Context (q : PPLNSCoordinator) (s : PPLNSSnapshot) (work : PoolWork) (h : Header) (id : bytes).
Context (Hq : coordinator_ok q) (Hs : window_ok (pq_network q) s) (Hnet : ps_Network s = pq_network q).
Context (Hwf : wf_header h) (Hnonce : hdr_Nonce h = 0) (Hid : length id = 16%nat).
Context (Hbits : 0 < CompactToTarget (hdr_Bits h) <= MaxTarget p).

(** The fields that [Issue] fills in from the window, the header and the
    configuration. *)
Record issued_fields : Prop := {
  is_identity : (pk_SchemaVersion work, pk_Mode work, pk_FeeBPS work) = (2, "pplns"%string, 0);
  is_network : pk_Network work = pq_network q;
  is_height : 0 < pk_Height work;
  is_job : pk_JobID work = hex_encode id;
  is_window : pk_Window work = s;
  is_shares : pk_WindowShares work = ps_WindowShares s /\
    pk_CurrentShares work = Z.of_nat (length (ps_Shares s));
  is_hash : pplnsSnapshotHash (pk_WindowNil work) s = Ok (pk_PPLNSStateHash work);
  is_header : pk_HeaderHex work = hex_encode (Header_Bytes h);
  is_argon : pk_ArgonMemKiB work = ArgonMemKiB p /\ pk_ArgonTime work = ArgonTime p;
  is_target : pk_NetworkTargetHex work = hex_pad 32 (CompactToTarget (hdr_Bits h));
  is_share : pk_ShareTargetHex work = hex_pad 32 (share_target p (pc_ShareTargetMultiplier (pq_config q))
               (CompactToTarget (hdr_Bits h))) }.

Lemma share_target_range : let nt := CompactToTarget (hdr_Bits h) in
  nt <= share_target p (pc_ShareTargetMultiplier (pq_config q)) nt <= MaxTarget p.
Proof.
  cbn. unfold share_target. pose proof (cq_mult _ Hq).
  assert (CompactToTarget (hdr_Bits h)
          <= CompactToTarget (hdr_Bits h) * pc_ShareTargetMultiplier (pq_config q)) by nia. lia.
Qed.

Lemma parse_issued : issued_fields -> validatePoolCoinbaseProof work h = Ok tt ->
  ParsePoolWork work (Some p) = Ok (h, CompactToTarget (hdr_Bits h),
    share_target p (pc_ShareTargetMultiplier (pq_config q)) (CompactToTarget (hdr_Bits h))).
Proof.
  intros [[= Hsv Hmode Hfee] Hn Hh Hj Hw [Hws Hcs] Hhash Hhd [Ham Hat] Hnt Hst] Hproof.
  destruct Hs as [Hv Hsh [Hma Hle]]. pose proof Hv as Hv'.
  apply validate_state_spec in Hv' as (Hlen & _). pose proof share_target_range as Hr. cbn in Hr.
  destruct Hpow as [Hmax _ _].
  unfold ParsePoolWork. rewrite (proj2 (is_value_true (CanonicalNetworkID (Some p)) (pk_Network work)))
    by (by rewrite Hn, (cq_network _ Hq)).
  cbn [check mbind result_bind]. rewrite Hsv, Hmode, Hfee.
  rewrite (proj2 (Z.ltb_lt 0 (pk_Height work))) by lia. cbn [Z.eqb String.eqb andb].
  change (String.eqb "pplns" "pplns") with true. cbn [andb check mbind result_bind Pos.eqb].
  rewrite Hws, Hcs, Hw, !Z.gtb_ltb.
  rewrite (proj2 (Z.ltb_ge (ps_WindowShares s) 1)), (proj2 (Z.ltb_ge 4096 (ps_WindowShares s))) by lia.
  rewrite (proj2 (Z.ltb_ge (Z.of_nat (length (ps_Shares s))) 0)) by lia.
  rewrite (proj2 (Z.ltb_ge (ps_WindowShares s) (Z.of_nat (length (ps_Shares s))))) by lia.
  cbn [orb negb check mbind result_bind]. cbv zeta. rewrite Hn, Hnet.
  rewrite (bool_decide_eq_true_2 (pq_network q = pq_network q)) by done.
  rewrite (proj2 (Z.ltb_ge (ps_MaxAddresses s) 1)), (proj2 (Z.ltb_ge 256 (ps_MaxAddresses s))) by lia.
  rewrite (proj2 (Z.ltb_ge (ps_WindowShares s) (ps_MaxAddresses s))), !Z.eqb_refl by lia.
  cbn [orb andb negb check mbind result_bind]. rewrite Hv. cbn [mbind result_bind].
  rewrite Hj, canonical_hex_len by done.
  rewrite (bool_decide_eq_true_2 (is_Some (Some id))) by eauto. cbn [check mbind result_bind].
  assert (Hc : is_Some (canonical_hex 32 (pk_PPLNSStateHash work))).
  { unfold pplnsSnapshotHash in Hhash. apply bind_Ok in Hhash as (enc & _ & Hh').
    apply Ok_inj in Hh' as <-. rewrite canonical_hex_len by apply length_SHA256d. eauto. }
  rewrite (bool_decide_eq_true_2 (is_Some (canonical_hex 32 _))) by done.
  cbn [check mbind result_bind]. rewrite (proj2 (is_value_true _ _)) by done.
  cbn [check mbind result_bind]. rewrite Hhd, canonical_hex_len by (by apply length_Header_Bytes).
  cbn [mbind result_bind]. rewrite <- (app_nil_r (Header_Bytes h)), decode_header_app by done.
  rewrite Hnonce, Ham, Hat, !Z.eqb_refl. cbn [Z.eqb andb check mbind result_bind].
  rewrite Hproof. cbn [mbind result_bind]. rewrite Hnt, parse_target by lia. cbn [mbind result_bind].
  rewrite Z.eqb_refl, (proj2 (Z.leb_le _ (MaxTarget p))) by lia. cbn [andb check mbind result_bind].
  rewrite Hst, parse_target by lia. rewrite Z.gtb_ltb.
  rewrite (proj2 (Z.ltb_ge _ (CompactToTarget (hdr_Bits h)))), (proj2 (Z.ltb_ge (MaxTarget p) _)) by lia.
  done.
Qed.
End parse.

(** *** The steps of [Issue] *)
Definition advertised (s : PPLNSSnapshot) (address : bytes) (ws : list PPLNSPayoutWeight)
    : string * list PPLNSPayoutWeight :=
  if Z.of_nat (length (ps_Shares s)) =? 0 then ("requester"%string, [mkWeight address 1 (hex_pad 34 1)])
  else ("pplns_window"%string, ws).

Definition issued_job (q : PPLNSCoordinator) (chain : Chain) (address : bytes) (now : Z)
    (block copy : Block) : pplnsMiningJob :=
  let nt := CompactToTarget (hdr_Bits (blk_Header block)) in
  mkPPLNSJob (pq_next q) copy address (Height chain + 1) now (now + pc_JobTTL (pq_config q)) nt
    (share_target (pq_params q) (pc_ShareTargetMultiplier (pq_config q)) nt) ∅.

Definition issued_work (q : PPLNSCoordinator) (s : PPLNSSnapshot) (chain : Chain) (address id : bytes)
    (now : Z) (block : Block) (cb : Tx) (stateHash : bytes) (branch : list Hash32)
    (ws : list PPLNSPayoutWeight) : PoolWork :=
  let nt := CompactToTarget (hdr_Bits (blk_Header block)) in
  mkPoolWork 2 (pq_network q) "pplns" 0 id (Height chain + 1)
    (hex_encode (Header_Bytes (blk_Header block))) (hex_pad 32 nt)
    (hex_pad 32 (share_target (pq_params q) (pc_ShareTargetMultiplier (pq_config q)) nt))
    (now + pc_JobTTL (pq_config q)) (ArgonMemKiB (pq_params q)) (ArgonTime (pq_params q))
    (ps_WindowShares s) (Z.of_nat (length (ps_Shares s))) stateHash s (cloned_nil s)
    (advertised s address ws).1 (advertised s address ws).2 (hex_encode (Tx_Bytes cb))
    (hex_encode <$> branch).

Lemma issue_inv q w before chain address worker now unixNow id q' work :
  PPLNS_Issue q w before chain address worker now unixNow (Ok id) = (q', Ok work) ->
  exists payout stateHash block copy branch ws js order cb,
    payout_pkh address = Some payout /\ ps_Network (w_state w) = pq_network q /\
    pplnsSnapshotHash (cloned_nil (w_state w)) (w_state w) = Ok stateHash /\
    BuildBlockTemplateWithCoinbase (Some chain) (Some (window_coinbase (w_state w) payout
      (pc_Tag (pq_config q) ++ bs ":" ++ stateHash))) unixNow = Ok block /\
    DecodeBlock (Block_Bytes block) = Ok copy /\ MerkleBranch (blk_Txs block) 0 = Ok branch /\
    pplnsWeights (w_state w) = Ok ws /\
    insert_job pj_expiresAt now (pc_MaxJobs (pq_config q)) id
      (issued_job q chain address now block copy) (pq_jobs q) (pq_order q) = Ok (js, order) /\
    head (blk_Txs block) = Some cb /\ q' = set_pplns_jobs (allocate_job q) js order /\
    work = issued_work q (w_state w) chain address id now block cb stateHash branch ws.
Proof.
  intros Hi. unfold PPLNS_Issue in Hi. cbv zeta in Hi.
  destruct (mbind _ _) as [[q1 work1]|e] eqn:E in Hi; [|done]. injection Hi as -> ->.
  apply bind_Ok in E as (payout & Hpay & E). apply bind_Ok in E as ([] & Hwork & E).
  destruct (payout_pkh address) as [k|] eqn:Epk; [|done]. apply Ok_inj in Hpay as ->.
  apply bind_Ok in E as ([] & Hnet & E). apply bind_Ok in E as (stateHash & Hhash & E).
  apply bind_Ok in E as (outs0 & _ & E). apply bind_Ok in E as (block & Hblock & E).
  destruct (BuildBlockTemplateWithCoinbase _ _ _) as [b|] eqn:Eb; [|done]. apply Ok_inj in Hblock as ->.
  apply bind_Ok in E as ([] & _ & E). apply bind_Ok in E as (copy & Hcopy & E).
  destruct (DecodeBlock (Block_Bytes block)) as [cp|] eqn:Ed; [|done]. apply Ok_inj in Hcopy as ->.
  apply bind_Ok in E as (id' & Hid & E). apply Ok_inj in Hid as <-.
  apply bind_Ok in E as (branch & Hbr & E).
  destruct (MerkleBranch _ 0) as [br|] eqn:Ebr; [|done]. apply Ok_inj in Hbr as ->.
  apply bind_Ok in E as (ws & Hws & E). change (if _ =? 0 then _ else _) with
    (advertised (w_state w) address ws) in E.
  destruct (advertised (w_state w) address ws) as [basis weights] eqn:Ea.
  apply bind_Ok in E as ([js order] & Hins & E). apply bind_Ok in E as (cb & Hcb & E).
  destruct (head (blk_Txs block)) as [x|] eqn:Eh; [|done]. apply Ok_inj in Hcb as ->.
  apply Ok_inj in E as [= <- <-]. unfold check in Hnet. step_if Hnet; [|done]. bool_prop.
  exists payout, stateHash, block, copy, branch, ws, js, order, cb.
  unfold issued_work. rewrite Ea. split_and!; done.
Qed.

Lemma tag_length tag : validPPLNSCoordinatorTag tag = true -> (1 <= length tag <= 64)%nat.
Proof. unfold validPPLNSCoordinatorTag. intros Ht. bool_prop. lia. Qed.

Lemma issued_proof q w chain address payout stateHash now unixNow id block branch ws cb :
  coordinator_ok q -> window_ok (pq_network q) (w_state w) -> chain_inv p chain ->
  payout_pkh address = Some payout -> ps_Network (w_state w) = pq_network q ->
  pplnsSnapshotHash (cloned_nil (w_state w)) (w_state w) = Ok stateHash ->
  BuildBlockTemplateWithCoinbase (Some chain) (Some (window_coinbase (w_state w) payout
    (pc_Tag (pq_config q) ++ bs ":" ++ stateHash))) unixNow = Ok block ->
  MerkleBranch (blk_Txs block) 0 = Ok branch -> pplnsWeights (w_state w) = Ok ws ->
  head (blk_Txs block) = Some cb ->
  validatePoolCoinbaseProof
    (issued_work q (w_state w) chain address id now block cb stateHash branch ws)
    (blk_Header block) = Ok tt.
Proof.
  intros Hq Hw Hc Hpay Hnet Hhash Hb Hbr Hws Hcb.
  destruct (template_shape _ _ _ _ Hb) as (cb' & sel & bits & reward & -> & _ & Hv & Hsub & Hsz).
  cbn [blk_Txs blk_Header head] in *. injection Hcb as ->.
  destruct (validateTemplateCoinbase_Ok _ _ _ _ Hv) as (Hbuild & Hiscb & (_ & _ & Hval & _) & Hsum & Hrew).
  apply window_coinbase_shape in Hbuild as (Hver & Hins & Htag & Hol & Hpk & Houts);
    [|by eapply payout_pkh_length].
  pose proof (tag_length _ (cq_tag _ Hq)) as Htl.
  assert (Hhl : length stateHash = 64%nat).
  { unfold pplnsSnapshotHash in Hhash. apply bind_Ok in Hhash as (enc & _ & Hh).
    apply Ok_inj in Hh as <-. by rewrite length_hex_encode, length_SHA256d. }
  destruct (payout_coinbase_wf cb (bi_height (c_tip chain) + 1) _ Hver Hins Htag) as [Hwf Hbytes];
    [rewrite !length_app; change (length (bs ":")) with 1%nat; lia|done|done|done|].
  pose proof (wk_valid _ _ Hw) as Hvalid. apply validate_state_spec in Hvalid as (Hlen & _ & Hall & Haddr & _).
  pose proof (wk_shares _ _ Hw) as Hshares. destruct (wk_addresses _ _ Hw) as [Hma _].
  pose proof (block_txs_bound (mkBlock (mkHeader 1 (bi_id (c_tip chain)) (MerkleRoot (cb :: sel)) unixNow
    bits 0) (cb :: sel))) as Htxs. cbn [blk_Txs] in Htxs.
  unfold issued_work. set (work := mkPoolWork _ _ _ _ _ _ _ _ _ _ _ _ _ _ _ _ _ _ _ _ _).
  destruct (ps_Shares (w_state w)) as [|s0 rest] eqn:Es.
  - cbn [length Nat.eqb] in Houts.
    eapply (coinbase_proof_ok work _ cb sel reward); try done; try (cbn; lia).
    + lia.
    + change (pk_PayoutWeights work) with (advertised (w_state w) address ws).2. unfold advertised.
      rewrite Es. change (Z.of_nat (length (@nil PPLNSShare)) =? 0) with true. cbn [snd length]. lia.
    + cbn [pk_PayoutWeights work]. unfold advertised. rewrite Es. by eapply requester_weights.
    + apply (requester_payout work cb reward address payout); try done;
        cbn [pk_PayoutBasis pk_PayoutWeights pk_CurrentShares pk_Window work]; unfold advertised;
        by rewrite ?Es.
  - cbn [length Nat.eqb] in Houts.
    destruct (advertised_weights (pq_network q) (s0 :: rest) (w_state w) Es Hall) as
      (ws' & Hws' & Hwl & last & Hfold); [cbn in *; lia|].
    rewrite Hws in Hws'. apply Ok_inj in Hws' as <-.
    assert (Hadv : advertised (w_state w) address ws = ("pplns_window"%string, ws)).
    { unfold advertised. rewrite Es. done. }
    eapply (coinbase_proof_ok work _ cb sel reward); try done; try (cbn; lia).
    + lia.
    + cbn [pk_PayoutWeights work]. rewrite Hadv. cbn [snd]. rewrite Hwl, <- size_dom, window_weights_dom.
      split; [|lia]. cbn [fmap list_fmap list_to_set]. rewrite size_union_alt, size_singleton. lia.
    + cbn [pk_PayoutWeights work]. rewrite Hadv. exact Hfold.
    + pose proof (window_payout work cb reward) as Hp.
      cbn [pk_PayoutBasis pk_PayoutWeights pk_CurrentShares pk_Window work] in Hp.
      rewrite Es, Hadv in Hp. apply Hp; try done. cbn [length]. lia.
Qed.
End issue.

(** ** What the miner's checks establish *)
Section verified.
Context `{Crypto}.

Lemma rewards_inv outs : forall r total, foldM coinbase_reward r outs = Ok total ->
  total = r + sumZ (out_Value <$> outs).
Proof.
  induction outs as [|o outs IH]; intros r total Hf; cbn [foldM] in Hf.
  { apply Ok_inj in Hf as <-. cbn. lia. }
  apply bind_Ok in Hf as (r' & Hr & Hf). unfold coinbase_reward in Hr.
  apply bind_Ok in Hr as ([] & _ & Hr). apply Ok_inj in Hr as <-. apply IH in Hf as ->. cbn. lia.
Qed.

Lemma is_suffix_inv b l : is_suffix b l = true -> exists a, l = a ++ b.
Proof.
  unfold is_suffix. intros Hs. bool_prop. exists (take (length l - length b) l).
  rewrite <- (take_drop (length l - length b) l) at 1. by f_equal.
Qed.

Lemma check_payout_inv work cb reward ws total : check_payout work cb reward ws total = Ok tt ->
  (pk_PayoutBasis work = "requester"%string /\ ps_Shares (pk_Window work) = [] /\
   exists w o, pk_PayoutWeights work = [w] /\ tx_Outs cb = [o] /\ out_Value o = reward /\
     out_PubKeyHash o = match DecodeAddress (pw_Address w) with Ok pkh => pkh | Err _ => zeros 20 end) \/
  (1 <= pk_CurrentShares work /\ pplnsWeights (pk_Window work) = Ok (pk_PayoutWeights work) /\
   pplnsOutputsFromWork ws reward = Ok (tx_Outs cb)).
Proof.
  unfold check_payout. intros Hc. step_if Hc; [left|step_if Hc; [right|done]].
  - apply String.eqb_eq in E. destruct (pk_PayoutWeights work) as [|w [|]]; try done.
    destruct (tx_Outs cb) as [|o [|]] eqn:Eo; try done. res_simpl. bool_prop.
    rename select ((_ =? 0)%nat = true) into Hl. apply Nat.eqb_eq, nil_length_inv in Hl.
    split_and!; [done|done|]. by exists w, o.
  - apply bind_Ok in Hc as ([] & Hw & Hc). apply bind_Ok in Hc as ([] & Hcommit & Hc).
    destruct (pplnsWeights _) as [ws'|]; [|done]. destruct (pplnsOutputsFromWork ws reward) as [outs|]; [|done].
    res_simpl. bool_prop. subst. done.
Qed.

Lemma check_weights_addresses ws : forall st st', foldM check_weight st ws = Ok st' ->
  Forall (fun w => is_Some (payout_pkh (pw_Address w))) ws.
Proof.
  induction ws as [|w ws IH]; intros [[m t] prev] st' Hf; [constructor|]. cbn [foldM] in Hf.
  apply bind_Ok in Hf as (st1 & Hw & Hf). constructor; [|by eapply IH]. unfold check_weight in Hw.
  apply bind_Ok in Hw as ([] & Hc & _). apply check_Ok in Hc. by bool_prop.
Qed.

(** What an accepted coinbase proof proves about the coinbase [cb]. *)
Record coinbase_proven (work : PoolWork) (header : Header) (cb : Tx) : Prop := {
  cp_coinbase : IsCoinbase cb = true;
  cp_committed : exists branch, MerkleRootFromBranch (Tx_ID cb) 0 branch = Ok (hdr_MerkleRoot header);
  cp_tag : exists tag, tx_LockTag cb = tag ++ bs ":" ++ pk_PPLNSStateHash work;
  cp_subsidy : SubsidyAt (pk_Height work) <= sumZ (out_Value <$> tx_Outs cb) }.

Lemma proof_inv work header : validatePoolCoinbaseProof work header = Ok tt ->
  exists cb ws total last, coinbase_proven work header cb /\
    foldM check_weight (∅, 0, []) (pk_PayoutWeights work) = Ok (ws, total, last) /\
    check_payout work cb (sumZ (out_Value <$> tx_Outs cb)) ws total = Ok tt.
Proof.
  unfold validatePoolCoinbaseProof. intros Hv.
  apply bind_Ok in Hv as (raw & _ & Hv). apply bind_Ok in Hv as (cb & Hcb & Hv).
  destruct (DecodeTx raw) as [cb'|]; [|done]. step_if Hcb; [done|]. apply Ok_inj in Hcb as ->.
  apply bind_Ok in Hv as ([] & _ & Hv). apply bind_Ok in Hv as (reward & Hrew & Hv).
  apply rewards_inv in Hrew as ->. rewrite Z.add_0_l in Hv.
  apply bind_Ok in Hv as ([] & Hsub & Hv). apply bind_Ok in Hv as ([] & Htag & Hv).
  apply bind_Ok in Hv as ([] & _ & Hv). apply bind_Ok in Hv as (branch & _ & Hv).
  apply bind_Ok in Hv as ([] & Hroot & Hv). apply bind_Ok in Hv as ([] & _ & Hv).
  apply bind_Ok in Hv as ([[ws total] last] & Hws & Hv).
  apply check_Ok in Hsub, Htag, Hroot. apply is_value_true in Hroot. bool_prop.
  exists cb, ws, total, last. split_and!; try done. split; [done|by exists branch| |done].
  by apply is_suffix_inv.
Qed.

(** The checks of [pplnsPayouts] that precede the allocation. *)
Lemma payouts_of_weights p network state reward outs :
  CanonicalNetworkID (Some p) = Ok network -> ps_Network state = network ->
  validatePPLNSState state network (ps_WindowShares state) (ps_MaxAddresses state) = Ok tt ->
  ps_Shares state <> [] -> pplnsOutputsFromWork (window_weights (ps_Shares state)) reward = Ok outs ->
  pplnsPayouts state reward = Ok outs.
Proof.
  intros Hn Hnet Hv Hne Hout. unfold pplnsPayouts. rewrite Hnet, Hv.
  assert (Hr : (reward <=? 0) || negb (MoneyRange reward) = false).
  { unfold pplnsOutputsFromWork, outputs_in_order in Hout. apply bind_Ok in Hout as ([] & Hc & _).
    apply check_Ok in Hc. apply negb_true_iff in Hc. apply orb_false_iff in Hc as [Hc _].
    by apply orb_false_iff in Hc as [Hc _]. }
  rewrite Hr. cbn [negb check mbind result_bind].
  rewrite (proj2 (Nat.eqb_neq _ 0)) by (intros Hl; by apply nil_length_inv in Hl).
  cbn [negb check mbind result_bind].
  assert (Hor : bool_decide (network = MainNetMachineID) || bool_decide (network = RegTestMachineID) = true).
  { apply orb_true_iff. rewrite !bool_decide_eq_true. unfold CanonicalNetworkID in Hn.
    repeat case_decide; simplify_eq; auto. }
  rewrite Hor. exact Hout.
Qed.
End verified.
