(* ===== verification/PoolHttp.v ===== *)
(** * The mining API (pool/http.go)

    The handlers of the HTTP service in front of the two coordinators: routing,
    the checks on method and content type, the rate limiter, and the translation
    of errors to status codes.  The coordinators are an interface, a record of the
    calls the handlers make on a shared state.  A request carries what the standard
    library extracts from it: the media type of its content (parsed media types are
    in lower case), the host part of the peer address, the parsed proxy header and
    the outcome of decoding the body. *)
From S2P Require Import Prelude Text Params Crypto Pow Wire Merkle Address Chain Pplns Coordinator.
From S2P Require Import PoolWork PplnsCoordinator.

Definition defaultMaxBodyBytes : Z := 4 * 1024.
Definition minute : Z := 60 * second.
Definition maxRateWindows : Z := 4096.

Record HTTPConfig := mkHTTPConfig {
  hc_MaxBodyBytes : Z; hc_WorkRequestsPerMinute : Z; hc_SubmitsPerMinute : Z;
  hc_PoolWorkRequestsPerMinute : Z; hc_PoolSubmitsPerMinute : Z;
  hc_PoolStatusRequestsPerMinute : Z; hc_TrustProxyHeadersFromLoopback : bool }.

Record rateWindow := mkRateWindow { rw_started : Z; rw_count : Z }.
Abbreviation rate_windows := (gmap bytes rateWindow).

(** What decoding a request body gives: too many bytes, not the expected JSON, or
    the fields. *)
Inductive decoded (A : Type) := TooLarge | BadRequest | Input (a : A).
Arguments TooLarge {A}. Arguments BadRequest {A}. Arguments Input {A} a.

Record request := mkRequest {
  rq_Method : string; rq_Path : string; rq_RawQuery : string;
  rq_mediaType : option string;
  rq_RemoteAddr : bytes; rq_host : option bytes;
  rq_loopback : bool; rq_realIP : option bytes;
  rq_work : decoded (bytes * bytes); rq_submit : decoded (bytes * Z) }.

Inductive payload :=
  | APIError (version : Z) (code : string)
  | WorkPayload (w : Work)
  | SubmitPayload (r : SubmitResult)
  | PoolWorkPayload (w : PoolWork)
  | PoolSubmitPayload (r : PoolSubmitResult)
  | StatusPayload (s : PPLNSStatus).

Record response := mkResponse { rp_status : Z; rp_allow : option string; rp_payload : payload }.
Definition writeAPIError (status : Z) (code : string) : response :=
  mkResponse status None (APIError 1 code).
Definition writeV2APIError (status : Z) (code : string) : response :=
  mkResponse status None (APIError 2 code).
Definition writeVersionError (version status : Z) (code : string) : response :=
  if version =? 2 then writeV2APIError status code else writeAPIError status code.
Definition writeAPIJSON (status : Z) (p : payload) : response := mkResponse status None p.

Definition NewMiningHTTPHandler (config : HTTPConfig) : HTTPConfig :=
  let dflt v d := if v =? 0 then d else v in
  let body := dflt (hc_MaxBodyBytes config) defaultMaxBodyBytes in
  mkHTTPConfig (if body <? 64 then 64 else body)
    (dflt (hc_WorkRequestsPerMinute config) 30) (dflt (hc_SubmitsPerMinute config) 10)
    (dflt (hc_PoolWorkRequestsPerMinute config) 30) (dflt (hc_PoolSubmitsPerMinute config) 240)
    (dflt (hc_PoolStatusRequestsPerMinute config) 60) (hc_TrustProxyHeadersFromLoopback config).

(** ** The rate limiter *)
Definition rate_key (trust : bool) (rq : request) (route : bytes) : bytes :=
  let host := match rq_host rq with
              | Some h => if bool_decide (h = []) then rq_RemoteAddr rq else h
              | None => rq_RemoteAddr rq
              end in
  let host := if trust && rq_loopback rq then default host (rq_realIP rq) else host in
  host ++ bs "|" ++ route.

(** [now.Sub(started) >= time.Minute || now.Before(started)] *)
Definition window_over (now : Z) (w : rateWindow) : bool :=
  (now - rw_started w >=? minute) || (now <? rw_started w).

(** The part of [allow] that runs under the lock. *)
Definition allow_key (windows : rate_windows) (key : bytes) (limit now : Z) : rate_windows * bool :=
  let full := bool_decide (windows !! key = None) && (Z.of_nat (size windows) >=? maxRateWindows) in
  let windows := if full then filter (fun e => window_over now e.2 = false) windows else windows in
  if full && (Z.of_nat (size windows) >=? maxRateWindows) then (windows, false) else
  let w := default (mkRateWindow zeroTime 0) (windows !! key) in
  let w := if (rw_started w =? zeroTime) || window_over now w then mkRateWindow now 0 else w in
  if rw_count w >=? limit then (<[key := w]> windows, false)
  else (<[key := mkRateWindow (rw_started w) (rw_count w + 1)]> windows, true).

Definition allow (config : HTTPConfig) (windows : rate_windows) (rq : request) (route : bytes)
    (limit now : Z) : rate_windows * bool :=
  if limit <? 1 then (windows, false)
  else allow_key windows (rate_key (hc_TrustProxyHeadersFromLoopback config) rq route) limit now.

(** ** The handlers *)
Definition requirePostJSONVersion (rq : request) (version : Z) : option response :=
  if negb (String.eqb (rq_Method rq) "POST")
  then Some (mkResponse 405 (Some "POST") (APIError (if version =? 2 then 2 else 1) "method_not_allowed"))
  else match rq_mediaType rq with
       | Some m => if String.eqb m "application/json" then None
                   else Some (writeVersionError version 415 "unsupported_media_type")
       | None => Some (writeVersionError version 415 "unsupported_media_type")
       end.

(** [errors.Is]: the coordinators return their sentinel errors unwrapped, and the
    texts of the sentinels are distinct. *)
Definition error_is (e sentinel : error) : bool :=
  match e, sentinel with EText a, EText b => String.eqb a b | _, _ => false end.

Definition submit_error (e : error) : response :=
  if error_is e ErrUnknownJob then writeAPIError 404 "unknown_job"
  else if error_is e ErrExpiredJob then writeAPIError 410 "expired_job"
  else if error_is e ErrStaleJob then writeAPIError 409 "stale_job"
  else if error_is e ErrDuplicateSubmission then writeAPIError 409 "duplicate_submission"
  else if error_is e ErrLowDifficulty then writeAPIError 422 "low_difficulty"
  else writeAPIError 500 "internal_error".

Definition pplns_submit_error (e : error) : response :=
  if error_is e ErrUnknownJob then writeV2APIError 404 "unknown_job"
  else if error_is e ErrExpiredJob then writeV2APIError 410 "expired_job"
  else if error_is e ErrStaleJob then writeV2APIError 409 "stale_job"
  else if error_is e ErrDuplicateSubmission then writeV2APIError 409 "duplicate_submission"
  else if error_is e ErrLowShareDifficulty then writeV2APIError 422 "low_share_difficulty"
  else if error_is e ErrPPLNSSubmissionLimit then writeV2APIError 429 "submission_limit"
  else if error_is e ErrPPLNSAddressLimit then writeV2APIError 409 "address_limit"
  else writeV2APIError 500 "internal_error".

(** The calls on the coordinators; [None] is a nil coordinator. *)
Record mining_calls (S : Type) := mkCalls {
  call_Issue : option (S -> bytes -> bytes -> S * result Work);
  call_Submit : option (S -> bytes -> Z -> S * result SubmitResult);
  call_PoolIssue : option (S -> bytes -> bytes -> S * result PoolWork);
  call_PoolSubmit : option (S -> bytes -> Z -> S * result PoolSubmitResult);
  call_Status : option (S -> result PPLNSStatus) }.
Arguments call_Issue {S} m. Arguments call_Submit {S} m. Arguments call_PoolIssue {S} m.
Arguments call_PoolSubmit {S} m. Arguments call_Status {S} m.

Section handlers.
Context {S : Type} (calls : mining_calls S) (config : HTTPConfig).

(** The state of the service: the coordinators' and the limiter's. *)
Definition service : Type := S * rate_windows.

(** The four POST handlers share their shape: the coordinator must exist, the
    request must be a JSON POST, the limiter must allow it and the body must
    decode; then the coordinator is called. *)
Definition handle_post {I A : Type} (version : Z) (route : bytes) (limit : Z)
    (body : request -> decoded I) (call : option (S -> I -> S * result A))
    (reply : A -> payload) (failure : error -> response)
    (sv : service) (rq : request) (now : Z) : service * response :=
  match call with
  | None => (sv, writeVersionError version 503 "unavailable")
  | Some call =>
      match requirePostJSONVersion rq version with
      | Some refused => (sv, refused)
      | None =>
          let '(windows, ok) := allow config sv.2 rq route limit now in
          if negb ok then ((sv.1, windows), writeVersionError version 429 "rate_limited") else
          match body rq with
          | TooLarge => ((sv.1, windows), writeVersionError version 413 "request_too_large")
          | BadRequest => ((sv.1, windows), writeVersionError version 400 "bad_request")
          | Input i =>
              let '(s, r) := call sv.1 i in
              ((s, windows), match r with
                             | Ok a => writeAPIJSON 200 (reply a)
                             | Err e => failure e
                             end)
          end
      end
  end.

Definition uncurry_call {X Y A} (f : S -> X -> Y -> S * result A) (s : S) (i : X * Y) := f s i.1 i.2.

Definition handleWork : service -> request -> Z -> service * response :=
  handle_post 1 (bs "work") (hc_WorkRequestsPerMinute config) rq_work
    (uncurry_call <$> call_Issue calls) WorkPayload (fun _ => writeAPIError 400 "bad_request").

Definition handleSubmit : service -> request -> Z -> service * response :=
  handle_post 1 (bs "submit") (hc_SubmitsPerMinute config) rq_submit
    (uncurry_call <$> call_Submit calls) SubmitPayload submit_error.

Definition handlePPLNSWork : service -> request -> Z -> service * response :=
  handle_post 2 (bs "pplns_work") (hc_PoolWorkRequestsPerMinute config) rq_work
    (uncurry_call <$> call_PoolIssue calls) PoolWorkPayload (fun _ => writeV2APIError 400 "bad_request").

Definition handlePPLNSSubmit : service -> request -> Z -> service * response :=
  handle_post 2 (bs "pplns_submit") (hc_PoolSubmitsPerMinute config) rq_submit
    (uncurry_call <$> call_PoolSubmit calls) PoolSubmitPayload pplns_submit_error.

Definition handlePPLNSStatus (sv : service) (rq : request) (now : Z) : service * response :=
  match call_Status calls with
  | None => (sv, writeV2APIError 503 "unavailable")
  | Some status =>
      if negb (String.eqb (rq_Method rq) "GET")
      then (sv, mkResponse 405 (Some "GET") (APIError 2 "method_not_allowed")) else
      if negb (String.eqb (rq_RawQuery rq) "") then (sv, writeV2APIError 400 "bad_request") else
      let '(windows, ok) := allow config sv.2 rq (bs "pplns_status")
                              (hc_PoolStatusRequestsPerMinute config) now in
      if negb ok then ((sv.1, windows), writeV2APIError 429 "rate_limited") else
      ((sv.1, windows), match status sv.1 with
                        | Ok s => writeAPIJSON 200 (StatusPayload s)
                        | Err _ => writeV2APIError 503 "unavailable"
                        end)
  end.

Definition ServeHTTP (sv : service) (rq : request) (now : Z) : service * response :=
  let path := rq_Path rq in
  if String.eqb path "/api/v1/work" then handleWork sv rq now
  else if String.eqb path "/api/v1/submit" then handleSubmit sv rq now
  else if String.eqb path "/api/v2/pool/work" then handlePPLNSWork sv rq now
  else if String.eqb path "/api/v2/pool/submit" then handlePPLNSSubmit sv rq now
  else if String.eqb path "/api/v2/pool/status" then handlePPLNSStatus sv rq now
  else if String.prefix "/api/v2/" path then (sv, writeV2APIError 404 "not_found")
  else (sv, writeAPIError 404 "not_found").
End handlers.

(** * The rate limiter of the mining API: invariant

    A key's allowed requests fall into windows that start at least one minute apart,
    with at most [limit] requests each, so any minute meets at most two of them. *)

(** ** Windows of requests *)
(** The requests in the minute that starts at [t]. *)
Definition in_minute (t : Z) (times : list Z) : list Z := filter (fun x => t <= x < t + minute) times.

Definition group : Type := Z * list Z.

(** Groups of requests, newest first: a start and the times of its requests. *)
Inductive spaced (limit : Z) : list group -> Prop :=
  | spaced_nil : spaced limit []
  | spaced_cons s ts rest :
      Z.of_nat (length ts) <= limit -> Forall (fun x => s <= x < s + minute) ts ->
      Forall (fun g => g.1 + minute <= s) rest -> spaced limit rest ->
      spaced limit ((s, ts) :: rest).

Definition times_of (gs : list group) : list Z := concat (snd <$> gs).

Lemma in_minute_app t a b : in_minute t (a ++ b) = in_minute t a ++ in_minute t b.
Proof. apply filter_app. Qed.

Lemma in_minute_none t ts : Forall (fun x => x < t \/ t + minute <= x) ts -> in_minute t ts = [].
Proof.
  unfold in_minute. induction 1 as [|x l Hx _ IH]; [done|]. rewrite filter_cons_False by lia. done.
Qed.

Lemma in_minute_le t ts : (length (in_minute t ts) <= length ts)%nat.
Proof. apply length_filter. Qed.

Lemma older_groups limit gs t : spaced limit gs -> Forall (fun g => g.1 + minute <= t) gs ->
  in_minute t (times_of gs) = [].
Proof.
  intros Hs. induction Hs as [|s ts rest _ Hts _ _ IH]; [done|]. intros Ht.
  apply Forall_cons_1 in Ht as [Hs Ht]. cbn in Hs. unfold times_of. cbn [fmap list_fmap snd concat].
  rewrite in_minute_app. fold (times_of rest). rewrite IH by done. rewrite app_nil_r.
  apply in_minute_none. eapply list.Forall_impl; [exact Hts|]. cbn. lia.
Qed.

Lemma groups_before limit gs t : 0 <= limit -> spaced limit gs -> Forall (fun g => g.1 < t) gs ->
  Z.of_nat (length (in_minute t (times_of gs))) <= limit.
Proof.
  intros Hl Hs Ht. destruct Hs as [|s ts rest Hlen Hts Hr Hs]; [done|].
  apply Forall_cons_1 in Ht as [Hst _]. cbn in Hst. unfold times_of. cbn [fmap list_fmap snd concat].
  rewrite in_minute_app. fold (times_of rest). rewrite (older_groups limit) by
    (done || (eapply list.Forall_impl; [exact Hr|]; cbn; lia)).
  rewrite app_nil_r. pose proof (in_minute_le t ts). lia.
Qed.

(** A minute meets at most two groups. *)
Lemma groups_bound limit gs t : 0 <= limit -> spaced limit gs ->
  Z.of_nat (length (in_minute t (times_of gs))) <= 2 * limit.
Proof.
  intros Hl Hs. induction Hs as [|s ts rest Hlen Hts Hr Hs IH]; [cbn; lia|].
  destruct (decide (s < t)) as [Hst|Hst].
  { assert (spaced limit ((s, ts) :: rest)) as Hall by (by constructor).
    pose proof (groups_before limit _ t Hl Hall) as Hb. rewrite Forall_cons in Hb. cbn [fst] in Hb.
    etrans; [apply Hb|lia]. split; [done|]. eapply list.Forall_impl; [exact Hr|].
    unfold minute, second. cbn. lia. }
  unfold times_of. cbn [fmap list_fmap snd concat]. rewrite in_minute_app, length_app.
  fold (times_of rest). destruct (decide (t + minute <= s)) as [Hge|Hlt].
  - rewrite (in_minute_none t ts); [cbn [length]; lia|].
    eapply list.Forall_impl; [exact Hts|]. cbn. lia.
  - assert (Z.of_nat (length (in_minute t (times_of rest))) <= limit).
    { apply groups_before; [done..|]. eapply list.Forall_impl; [exact Hr|]. cbn. lia. }
    pose proof (in_minute_le t ts). lia.
Qed.

(** ** The limiter *)
Section limiter.
Context (key : bytes) (limit : Z) (Hlimit : 1 <= limit).

(** The limiter's entry for [key] is the newest group, or all groups are over. *)
Definition tracks (windows : rate_windows) (gs : list group) (now : Z) : Prop :=
  match windows !! key with
  | Some w => exists ts rest, gs = (rw_started w, ts) :: rest /\ rw_count w = Z.of_nat (length ts) /\
                rw_started w <= now /\ rw_started w <> zeroTime
  | None => Forall (fun g => g.1 + minute <= now) gs
  end.

Lemma spaced_over gs s ts rest now : spaced limit gs -> gs = (s, ts) :: rest -> s + minute <= now ->
  Forall (fun g => g.1 + minute <= now) gs.
Proof.
  intros Hs -> Hn. inv Hs as [|? ? ? _ _ Hr _]. constructor; [done|].
  eapply list.Forall_impl; [exact Hr|]. unfold minute, second in *. cbn. lia.
Qed.

(** Dropping the windows that are over keeps the link. *)
Lemma tracks_filter windows gs now0 now : now0 <= now -> spaced limit gs -> tracks windows gs now0 ->
  tracks (filter (fun e => window_over now e.2 = false) windows) gs now.
Proof.
  intros Hn Hs Ht. unfold tracks in *. rewrite map_lookup_filter. unfold window_over.
  destruct (windows !! key) as [w|]; cbn [mbind option_bind].
  - destruct Ht as (ts & rest & -> & Hc & Hst & Hz).
    case_guard as Hg; cbn [mbind option_bind].
    + exists ts, rest. split_and!; try done. lia.
    + eapply spaced_over; [done|done|]. cbn in Hg. apply not_false_iff_true in Hg.
      apply orb_true_iff in Hg as [Hg|Hg]; [apply Z.geb_le in Hg|apply Z.ltb_lt in Hg]; lia.
  - eapply list.Forall_impl; [exact Ht|]. cbn. lia.
Qed.

Lemma tracks_later windows gs now0 now : now0 <= now -> tracks windows gs now0 -> tracks windows gs now.
Proof.
  intros Hn Ht. unfold tracks in *. destruct (windows !! key) as [w|].
  - destruct Ht as (ts & rest & -> & Hc & Hst & Hz). exists ts, rest. split_and!; try done. lia.
  - eapply list.Forall_impl; [exact Ht|]. cbn. lia.
Qed.

Definition is_full (windows : rate_windows) (k : bytes) : bool :=
  bool_decide (windows !! k = None) && (Z.of_nat (size windows) >=? maxRateWindows).
Definition pruned (windows : rate_windows) (k : bytes) (now : Z) : rate_windows :=
  if is_full windows k then filter (fun e => window_over now e.2 = false) windows else windows.

Lemma tracks_pruned windows gs now0 now k : now0 <= now -> spaced limit gs -> tracks windows gs now0 ->
  tracks (pruned windows k now) gs now.
Proof.
  intros Hn Hs Ht. unfold pruned. destruct (is_full windows k);
    [by eapply tracks_filter|by eapply tracks_later].
Qed.

Lemma tracks_insert_ne windows gs now k w : k <> key -> tracks windows gs now ->
  tracks (<[k := w]> windows) gs now.
Proof. intros Hk. unfold tracks. by rewrite lookup_insert_ne by done. Qed.

(** A request for another key. *)
Lemma other_key windows gs now0 now k lim : k <> key -> now0 <= now -> spaced limit gs ->
  tracks windows gs now0 -> tracks (allow_key windows k lim now).1 gs now.
Proof.
  intros Hk Hn Hs Ht. pose proof (tracks_pruned _ _ _ _ k Hn Hs Ht) as Hp.
  unfold allow_key. fold (is_full windows k). fold (pruned windows k now).
  repeat case_match; cbn [fst]; try done; by apply tracks_insert_ne.
Qed.

(** A request for the key itself: allowed, it joins the newest group or starts a
    new one. *)
Lemma same_key windows gs now0 now : now0 <= now -> now <> zeroTime -> spaced limit gs ->
  tracks windows gs now0 ->
  exists gs', spaced limit gs' /\ tracks (allow_key windows key limit now).1 gs' now /\
    times_of gs' = if (allow_key windows key limit now).2 then now :: times_of gs else times_of gs.
Proof.
  intros Hn Hz Hs Ht. pose proof (tracks_pruned _ _ _ _ key Hn Hs Ht) as Hp.
  unfold allow_key. fold (is_full windows key). fold (pruned windows key now).
  set (ws := pruned windows key now) in *. destruct (is_full windows key && _); [by exists gs|].
  assert (Hnew : Forall (fun g => g.1 + minute <= now) gs -> exists gs', spaced limit gs' /\
    tracks (<[key := mkRateWindow now 1]> ws) gs' now /\ times_of gs' = now :: times_of gs).
  { intros Hg. exists ((now, [now]) :: gs). split_and!.
    - constructor; [cbn; lia| |done|done]. constructor; [unfold minute, second; lia|constructor].
    - unfold tracks. rewrite lookup_insert_eq. by exists [now], gs.
    - done. }
  unfold tracks in Hp. destruct (ws !! key) as [w|] eqn:Ew; cbn [default from_option id rw_started rw_count].
  - destruct Hp as (ts & rest & Hgs & Hc & Hst & Hwz).
    rewrite (proj2 (Z.eqb_neq (rw_started w) zeroTime)) by done. cbn [orb].
    destruct (window_over now w) eqn:Eo; cbn [rw_count rw_started].
    + destruct (Z.geb_spec 0 limit); [lia|]. apply Hnew. eapply spaced_over; [done|done|].
      apply orb_true_iff in Eo as [Eo|Eo]; [apply Z.geb_le in Eo|apply Z.ltb_lt in Eo]; lia.
    + unfold window_over in Eo. apply orb_false_iff in Eo as [Eo _]. rewrite Z.geb_leb in Eo.
      apply Z.leb_gt in Eo. destruct (Z.geb_spec (rw_count w) limit) as [Hge|Hlt]; cbn [fst snd].
      * exists gs. split_and!; [done| |done]. unfold tracks. rewrite lookup_insert_eq. by exists ts, rest.
      * subst gs. inv Hs as [|? ? ? Hlen Hts Hr Hs']. exists ((rw_started w, now :: ts) :: rest).
        split_and!; [constructor| |done].
        -- cbn [length]. lia.
        -- constructor; [lia|done].
        -- done.
        -- done.
        -- unfold tracks. rewrite lookup_insert_eq. exists (now :: ts), rest. cbn [rw_started rw_count length].
           split_and!; [done|lia|done|done].
  - rewrite Z.eqb_refl. cbn [orb rw_count rw_started]. destruct (Z.geb_spec 0 limit); [lia|]. by apply Hnew.
Qed.
End limiter.

(** The table of windows stays bounded. *)
Lemma allow_key_size windows k lim now : Z.of_nat (size windows) <= maxRateWindows ->
  Z.of_nat (size (allow_key windows k lim now).1) <= maxRateWindows.
Proof.
  intros Hs. unfold allow_key. fold (is_full windows k). fold (pruned windows k now).
  assert (Hp : (size (pruned windows k now) <= size windows)%nat).
  { unfold pruned. destruct (is_full windows k); [|done]. apply map_subseteq_size, map_filter_subseteq. }
  destruct (is_full windows k && _) eqn:E; [cbn [fst]; lia|].
  assert (Hi : forall w, Z.of_nat (size (<[k := w]> (pruned windows k now))) <= maxRateWindows).
  { intros w. rewrite map_size_insert. destruct (pruned windows k now !! k) eqn:El; cbn; [lia|].
    apply andb_false_iff in E as [E|E].
    - unfold pruned in *. rewrite E in *. unfold is_full in E. rewrite El in E.
      rewrite bool_decide_eq_true_2 in E by done. rewrite Z.geb_leb in E. cbn [andb] in E.
      apply Z.leb_gt in E. lia.
    - rewrite Z.geb_leb in E. apply Z.leb_gt in E. lia. }
  repeat case_match; apply Hi.
Qed.

(** ** Histories *)
Record rate_call := mkCall { rt_request : request; rt_route : bytes; rt_limit : Z; rt_now : Z }.

Section histories.
Context (config : HTTPConfig) (key : bytes) (limit : Z) (Hlimit : 1 <= limit).

Definition call_key (c : rate_call) : bytes :=
  rate_key (hc_TrustProxyHeadersFromLoopback config) (rt_request c) (rt_route c).

(** The limiter after some calls, and the times at which [key] was allowed, newest
    first. *)
Definition limiter_step (st : rate_windows * list Z) (c : rate_call) : rate_windows * list Z :=
  let '(windows, ok) := allow config st.1 (rt_request c) (rt_route c) (rt_limit c) (rt_now c) in
  (windows, if ok && bool_decide (call_key c = key) then rt_now c :: st.2 else st.2).
Definition run_limiter (calls : list rate_call) : rate_windows * list Z :=
  fold_left limiter_step calls (∅, []).

Lemma limiter_inv calls : forall windows times gs now0,
  Sorted Z.le (now0 :: (rt_now <$> calls)) ->
  Forall (fun c => rt_now c <> zeroTime /\ (call_key c = key -> rt_limit c = limit)) calls ->
  spaced limit gs -> tracks key windows gs now0 -> times = times_of gs ->
  exists gs', spaced limit gs' /\ (fold_left limiter_step calls (windows, times)).2 = times_of gs'.
Proof.
  induction calls as [|c calls IH]; intros windows times gs now0 Hsort Hall Hs Ht ->; [by exists gs|].
  apply Forall_cons_1 in Hall as [[Hz Hlim] Hall]. rewrite fmap_cons in Hsort.
  inv Hsort as [|? ? Hsort' Hrel]. apply HdRel_inv in Hrel. cbn [fold_left].
  unfold limiter_step at 2. unfold allow. cbn [fst snd]. fold (call_key c).
  destruct (Z.ltb_spec (rt_limit c) 1) as [Hl|Hl]; cbn [andb].
  { eapply (IH _ _ gs (rt_now c)); try done. by eapply tracks_later. }
  destruct (decide (call_key c = key)) as [He|He].
  - rewrite He, (Hlim He), bool_decide_eq_true_2 by done.
    destruct (same_key key limit Hlimit windows gs now0 (rt_now c)) as (gs' & Hs' & Ht' & Htimes);
      [done..|]. destruct (allow_key windows key limit (rt_now c)) as [ws ok]. cbn [fst snd] in *.
    eapply (IH _ _ gs' (rt_now c)); try done. rewrite Htimes. by destruct ok.
  - rewrite bool_decide_eq_false_2 by done.
    pose proof (other_key key limit windows gs now0 (rt_now c) (call_key c) (rt_limit c) He Hrel Hs Ht) as Ht'.
    destruct (allow_key windows (call_key c) (rt_limit c) (rt_now c)) as [ws ok]. cbn [fst] in Ht'.
    rewrite andb_false_r. by eapply (IH _ _ gs (rt_now c)).
Qed.

Lemma limiter_size calls : forall windows times, Z.of_nat (size windows) <= maxRateWindows ->
  Z.of_nat (size (fold_left limiter_step calls (windows, times)).1) <= maxRateWindows.
Proof.
  induction calls as [|c calls IH]; intros windows times Hs; [done|]. cbn [fold_left].
  unfold limiter_step at 2. unfold allow. cbn [fst snd].
  destruct (rt_limit c <? 1); [by apply IH|]. fold (call_key c).
  pose proof (allow_key_size windows (call_key c) (rt_limit c) (rt_now c) Hs) as Hk.
  destruct (allow_key _ _ _ _) as [ws ok]. by apply IH.
Qed.
End histories.
