(* ===== verification/PoolClient.v ===== *)
(** * Remote miners (pool/client.go, pool/pplns_client.go, and the nonce search of
    pool/work.go)

    The client asks the mining API for work, verifies it, searches nonces with
    several workers and submits what it finds.  The outcomes of the HTTP exchange
    and of the JSON decoder are arguments; the session loop is a function of the
    list of outcomes it meets.  The number of iterations a worker makes before it
    sees the deadline or the success of another worker is an argument, and so is
    the worker whose result reaches the channel first. *)
From S2P Require Import Prelude Text Params Crypto Pow Wire Address Merkle Chain Miner.
From S2P Require Import Pplns Coordinator PoolWork PplnsCoordinator PoolHttp.

Definition maxClientResponseBytes : Z := 16 * 1024.
Definition maxPPLNSClientResponseBytes : Z := 512 * 1024.

(** ** The nonce search *)
Record MineResult := mkMineResult {
  mr_Found : bool; mr_Nonce : Z; mr_Hashes : Z; mr_Hash : Hash32 }.

Section search.
Context `{Crypto} (p : Params).

(** One worker, with the number of hashes it computed. *)
Fixpoint search_nonces (budget : nat) (header : Header) (target step nonce : Z)
    : Z * option (Z * Hash32) :=
  match budget with
  | O => (0, None)
  | Datatypes.S budget =>
      let hash := PowHash (Header_Bytes (with_nonce header nonce)) p in
      if HashToBig hash <=? target then (1, Some (nonce, hash)) else
      if nonce >? maxUint64 - step then (1, None) else
      let '(n, r) := search_nonces budget header target step (nonce + step) in (n + 1, r)
  end.

Definition pool_worker (budget : nat) (header : Header) (target workers startNonce offset : Z)
    : Z * option (Z * Hash32) :=
  if offset >? maxUint64 - startNonce then (0, None)
  else search_nonces budget header target workers (startNonce + offset).

(** The workers and the channel of capacity one: [first] chooses among the workers
    that found a nonce. *)
Definition gather (runs : list (Z * option (Z * Hash32))) (first : nat) : MineResult :=
  let hashes := u64 (sumZ (fst <$> runs)) in
  let found := omap snd runs in
  match found !! (first mod length found)%nat with
  | Some (nonce, hash) => mkMineResult true nonce hashes hash
  | None => mkMineResult false 0 hashes (zeros 32)
  end.

Definition run_workers (budgets : nat -> nat) (header : Header) (target workers startNonce : Z)
    : list (Z * option (Z * Hash32)) :=
  (fun k => pool_worker (budgets k) header target workers startNonce (Z.of_nat k))
    <$> seq 0 (Z.to_nat workers).

(** [cpus] is [runtime.NumCPU()], [now] the time when the search starts. *)
Definition MineWork (work : Work) (workers cpus now : Z) (budgets : nat -> nat) (first : nat)
    : result MineResult :=
  '(header, target) ← ParseWork work (Some p);
  _ ← check (now <? wk_ExpiresAt work) (EText "work expired");
  let workers := if workers <=? 0 then cpus else workers in
  Ok (gather (run_workers budgets header target workers 0) first).

Definition MinePoolShare `{SnapshotJSON} (work : PoolWork) (workers startNonce cpus now : Z)
    (budgets : nat -> nat) (first : nat) : result MineResult :=
  '(header, _, shareTarget) ← ParsePoolWork work (Some p);
  _ ← check (now <? pk_ExpiresAt work) (EText "work expired");
  let workers := if workers <=? 0 then cpus else workers in
  _ ← check (workers <=? 1024) (EText "worker count is too large");
  Ok (gather (run_workers budgets header shareTarget workers startNonce) first).
End search.

(** ** Errors and retries *)
Inductive client_error :=
  | RemoteAPIError (status : Z) (code : string)
  | URLError
  | OtherError (e : error).
Definition outcome (A : Type) : Type := A + client_error.
Definition lift {A} (r : result A) : outcome A :=
  match r with Ok a => inl a | Err e => inr (OtherError e) end.

Definition normalJobError (e : client_error) : bool :=
  match e with
  | RemoteAPIError _ code => String.eqb code "stale_job" || String.eqb code "expired_job"
                             || String.eqb code "unknown_job"
  | _ => false
  end.

Definition isRetryableMiningError (e : client_error) : bool :=
  match e with
  | RemoteAPIError status _ => (status =? 429) || (status >=? 500)
  | URLError => true
  | OtherError _ => false
  end.

Definition miningErrorText (e : client_error) : string :=
  match e with
  | RemoteAPIError status _ => if status =? 429 then "The mining endpoint is busy."
                               else "The mining endpoint is temporarily unavailable."
  | _ => "The mining endpoint could not be reached."
  end.

(** The doubling loop of [retryDelay]. *)
Fixpoint double_delay (attempt : nat) (retryMax delay : Z) : Z :=
  match attempt with
  | O => delay
  | Datatypes.S n =>
      if negb (delay <? retryMax) then delay
      else if delay >? retryMax / 2 then retryMax
      else double_delay n retryMax (delay * 2)
  end.

(** [jitter] is the random addition [time.Duration(float64(delay) * 0.2 * random())]. *)
Definition retryDelay (retryMin retryMax : Z) (attempt : nat) (jitter : Z -> Z) : Z :=
  let retryMin := if retryMin <=? 0 then second else retryMin in
  let retryMax := if retryMax <? retryMin then retryMin else retryMax in
  let delay := double_delay attempt retryMax retryMin in
  let delay := if delay >? retryMax then retryMax else delay in
  let delay := delay + jitter delay in
  if delay >? retryMax then retryMax else delay.

(** ** Construction *)
(** The parts of a parsed pool URL. *)
Record pool_url := mkURL {
  ur_Scheme : string; ur_Host : string; ur_User : bool; ur_RawQuery : string;
  ur_Fragment : string; ur_Path : string }.

Record RemoteClientConfig := mkClientConfig {
  rc_Address : bytes; rc_Worker : bytes; rc_Params : option Params; rc_Workers : Z;
  rc_AllowInsecureHTTP : bool; rc_ProgressInterval : Z }.

Section client.
Context `{Crypto} `{SnapshotJSON}.

(** [parsed] is the outcome of [url.Parse]. *)
Definition NewRemoteClient (parsed : result pool_url) (config : RemoteClientConfig)
    : result RemoteClientConfig :=
  url ← match parsed with
        | Ok u => if String.eqb (ur_Host u) "" || ur_User u || negb (String.eqb (ur_RawQuery u) "")
                     || negb (String.eqb (ur_Fragment u) "")
                  then Err (EText "invalid pool URL") else Ok u
        | Err _ => Err (EText "invalid pool URL")
        end;
  _ ← check (String.eqb (ur_Scheme url) "https" || String.eqb (ur_Scheme url) "http")
        (EText "pool URL must use HTTPS");
  _ ← check (negb (String.eqb (ur_Scheme url) "http" && negb (rc_AllowInsecureHTTP config)))
        (EText "insecure HTTP pool URL requires explicit opt-in");
  _ ← check (String.eqb (ur_Path url) "" || String.eqb (ur_Path url) "/")
        (EText "pool URL must not include a path");
  _ ← match rc_Params config with None => Err (EText "nil network params") | Some _ => Ok tt end;
  _ ← CanonicalNetworkID (rc_Params config);
  _ ← match DecodeAddress (rc_Address config) with
      | Ok pkh => check (negb (bool_decide (pkh = zeros 20))) (EText "invalid payout address")
      | Err _ => Err (EText "invalid payout address")
      end;
  _ ← check (validWorker (rc_Worker config)) (EText "invalid worker label");
  Ok (mkClientConfig (rc_Address config) (rc_Worker config) (rc_Params config) (rc_Workers config)
        (rc_AllowInsecureHTTP config)
        (if rc_ProgressInterval config <=? 0 then second else rc_ProgressInterval config)).

(** ** One exchange *)
(** What comes back: nothing, or a status, a media type, a length, and the outcomes
    of decoding the body as an error object and as the expected value. *)
Record reply (A : Type) := mkReply {
  ry_status : Z; ry_mediaType : option string; ry_read : result Z; ry_duplicates : bool;
  ry_error : option (Z * string); ry_value : option A }.
Arguments ry_status {A} r. Arguments ry_mediaType {A} r. Arguments ry_read {A} r.
Arguments ry_duplicates {A} r. Arguments ry_error {A} r. Arguments ry_value {A} r.

Definition requestJSON {A} (r : option (reply A)) : outcome A :=
  match r with
  | None => inr URLError
  | Some r =>
      if negb (bool_decide (ry_mediaType r = Some "application/json"%string))
      then inr (OtherError (EText "remote mining API returned a non-JSON response")) else
      match ry_read r with
      | Err e => inr (OtherError e)
      | Ok n =>
          if n >? maxPPLNSClientResponseBytes
          then inr (OtherError (EText "remote pool response too large")) else
          if ry_duplicates r then inr (OtherError (EText "invalid remote pool response")) else
          if (ry_status r <? 200) || (ry_status r >=? 300) then
            inr (RemoteAPIError (ry_status r)
                   match ry_error r with
                   | Some (version, code) =>
                       if negb (version =? 2) || String.eqb code "" then "invalid_error" else code
                   | None => "invalid_error"
                   end)
          else match ry_value r with
               | Some v => inl v
               | None => inr (OtherError (EText "invalid remote pool response"))
               end
      end
  end.

Definition RequestWork (params : Params) (r : option (reply PoolWork)) : outcome PoolWork :=
  match requestJSON r with
  | inr e => inr e
  | inl work => match ParsePoolWork work (Some params) with
                | Ok _ => inl work
                | Err e => inr (OtherError (EWrap "invalid remote pool work" 0 e))
                end
  end.

Definition check_receipt (params : Params) (r : PoolSubmitResult) : result PoolSubmitResult :=
  let network := match CanonicalNetworkID (Some params) with Ok n => n | Err _ => ""%string end in
  _ ← check (negb (negb (pr_SchemaVersion r =? 2) || negb (String.eqb (pr_Network r) network)
                   || (pr_Height r <? 1) || (pr_ShareSequence r <? 1)
                   || negb (validLowerHex (pr_ShareHash r) 64)))
        (EText "invalid pool submit response");
  _ ← (if String.eqb (pr_Status r) "share_accepted"
       then check (bool_decide (pr_BlockID r = [])) (EText "invalid share receipt")
       else if String.eqb (pr_Status r) "block_accepted"
       then check (validLowerHex (pr_BlockID r) 64) (EText "invalid block receipt")
       else Err (EText "invalid pool submit status"));
  Ok r.

Definition Client_Submit (params : Params) (r : option (reply PoolSubmitResult))
    : outcome PoolSubmitResult :=
  match requestJSON r with
  | inr e => inr e
  | inl result => lift (check_receipt params result)
  end.

Definition validatePPLNSReceiptForWork (work : PoolWork) (mined : MineResult)
    (receipt : PoolSubmitResult) (params : Params) : result unit :=
  _ ← check (negb (negb (mr_Found mined) || negb (pr_Height receipt =? pk_Height work)
                   || negb (bool_decide (pr_ShareHash receipt = hex_encode (mr_Hash mined)))))
        (EText "pool receipt does not match submitted work");
  if String.eqb (pr_Status receipt) "block_accepted" then
    match ParsePoolWork work (Some params) with
    | Err _ => Err (EText "pool receipt work header is invalid")
    | Ok (header, _, _) =>
        check (bool_decide (pr_BlockID receipt
                            = hex_encode (Header_ID (with_nonce header (mr_Nonce mined)))))
          (EText "pool block receipt does not match submitted work")
    end
  else Ok tt.

Definition validateRemotePPLNSStatus (status : PPLNSStatus) (params : Params) : result unit :=
  _ ← check (is_value (CanonicalNetworkID (Some params)) (st_Network status)
             && (st_SchemaVersion status =? 2) && String.eqb (st_Mode status) "pplns"
             && (st_FeeBPS status =? 0) && (st_CoinbaseMaturity status =? CoinbaseMaturity params)
             && validLowerHex (st_TipHash status) 64 && negb (st_TipHeight status <? 0))
        (EText "pool status identity is invalid");
  let snapshot := mkPPLNSSnapshot pplnsStateSchemaVersion (st_Network status) (st_WindowShares status)
                    (st_MaxAddresses status) (st_NextSequence status) (st_Shares status) in
  _ ← validatePPLNSState snapshot (ps_Network snapshot) (ps_WindowShares snapshot)
        (ps_MaxAddresses snapshot);
  _ ← check (is_value (pplnsSnapshotHash false snapshot) (st_PPLNSStateHash status)
             && (st_CurrentShares status =? Z.of_nat (length (ps_Shares snapshot))))
        (EText "pool status state hash mismatch");
  weights ← pplnsWeights snapshot;
  _ ← check ((st_DistinctAddresses status =? Z.of_nat (length weights))
             && (length (st_Weights status) =? length weights)%nat)
        (EText "pool status weights are inconsistent");
  check (bool_decide (weights = st_Weights status)) (EText "pool status weights are inconsistent").

(** ** The mining session *)
(** The events of a session, without timestamps, hash counts and rates. *)
Inductive ClientEvent :=
  | EventJob (jobID : bytes) (height : Z)
  | EventAccepted (jobID : bytes) (receipt : PoolSubmitResult)
  | EventRetrying (delay : Z) (text : string).

(** What one round of the session meets: the answer to the request for work, the
    search, and the answers to the attempts to submit. *)
Record round := mkRound {
  rd_request : option (reply PoolWork); rd_cpus : Z; rd_now : Z; rd_budgets : nat -> nat;
  rd_first : nat; rd_submits : list (option (reply PoolSubmitResult)) }.

(** [inl]: the receipt, or [None] to ask for new work; [inr]: the session ends,
    with an error or because the context is done ([None]). *)
Fixpoint submit_loop (params : Params) (delay : nat -> Z)
    (answers : list (option (reply PoolSubmitResult))) (attempt : nat)
    : list ClientEvent * nat * (option PoolSubmitResult + option client_error) :=
  match answers with
  | [] => ([], attempt, inr None)
  | a :: answers =>
      match Client_Submit params a with
      | inl receipt => ([], 0%nat, inl (Some receipt))
      | inr e =>
          if normalJobError e then ([], attempt, inl None) else
          if negb (isRetryableMiningError e) then ([], attempt, inr (Some e)) else
          let '(events, attempt', r) := submit_loop params delay answers (Datatypes.S attempt) in
          (EventRetrying (delay attempt) (miningErrorText e) :: events, attempt', r)
      end
  end.

(** The rounds stop when the context is done.  [delay] is [retryDelay]. *)
Fixpoint RunWithEvents (params : Params) (workers : Z) (delay : nat -> Z) (rounds : list round)
    (attempt : nat) : list ClientEvent * option client_error :=
  match rounds with
  | [] => ([], None)
  | rd :: rounds =>
      match RequestWork params (rd_request rd) with
      | inr e =>
          if normalJobError e then RunWithEvents params workers delay rounds attempt else
          if negb (isRetryableMiningError e) then ([], Some e) else
          let '(events, r) := RunWithEvents params workers delay rounds (Datatypes.S attempt) in
          (EventRetrying (delay attempt) (miningErrorText e) :: events, r)
      | inl work =>
          let job := EventJob (pk_JobID work) (pk_Height work) in
          match MinePoolShare params work workers 0 (rd_cpus rd) (rd_now rd) (rd_budgets rd)
                  (rd_first rd) with
          | Err e => ([job], Some (OtherError e))
          | Ok mined =>
              if negb (mr_Found mined) then
                let '(events, r) := RunWithEvents params workers delay rounds 0 in (job :: events, r)
              else
              match submit_loop params delay (rd_submits rd) 0 with
              | (retries, _, inr e) => (job :: retries, e)
              | (retries, attempt, inl None) =>
                  let '(events, r) := RunWithEvents params workers delay rounds attempt in
                  (job :: retries ++ events, r)
              | (retries, attempt, inl (Some receipt)) =>
                  match validatePPLNSReceiptForWork work mined receipt params with
                  | Err e => (job :: retries, Some (OtherError e))
                  | Ok _ =>
                      let '(events, r) := RunWithEvents params workers delay rounds attempt in
                      (job :: retries ++ EventAccepted (pk_JobID work) receipt :: events, r)
                  end
              end
          end
      end
  end.
End client.
