(* ===== verification/P2p.v ===== *)
(** * The peer-to-peer node (p2p/p2p.go)

    [Node] is the table of peers, handshake reservations and dial targets that the
    node's mutex protects; every method that takes the mutex is one function on it.
    A connection is its peer record: [p_conn] is the identity of the Go pointer,
    which [unregisterPeer] compares.  The JSON codec of messages and the text
    parsers of [net] and [net/netip] are interfaces.  Times are nanoseconds. *)
From S2P Require Import Prelude Text Params Crypto Pow Wire Merkle Chain ChainView.

Definition protocolVersion : Z := 1.
Definition maxMsgBytes : Z := MaxBlockBytes + 4096.
Definition maxPeers : Z := 32.
Definition reservedOutboundSlots : Z := 4.
Definition maxPendingOutbound : Z := 4.
Definition maxPendingInbound : Z := 8.
Definition maxPendingInboundPerIP : Z := 2.
Definition blockBatchSize : Z := 64.
Definition blockBatchBytes : Z := 4 * 1024 * 1024.
Definition duplicateCrossDialWindow : Z := 15 * 1000000000.

Record Msg := mkMsg {
  m_Type : bytes; m_Version : Z; m_Magic : Z; m_Height : Z; m_Hashes : list bytes; m_From : Z;
  m_Raw : bytes; m_Addrs : list bytes; m_Listen : bytes; m_NodeID : bytes; m_Nonce : bytes;
  m_More : bool }.

(** [&Msg{Type: t, ...}] with the other fields zero. *)
Definition msg (t : bytes) : Msg := mkMsg t 0 0 0 [] 0 [] [] [] [] [] false.
Definition getblocks_msg (from : Z) : Msg := mkMsg (bs "getblocks") 0 0 0 [] from [] [] [] [] [] false.
Definition block_msg (raw : bytes) (height : Z) (more : bool) : Msg :=
  mkMsg (bs "block") 0 0 height [] 0 raw [] [] [] [] more.
Definition tx_msg (raw : bytes) : Msg := mkMsg (bs "tx") 0 0 0 [] 0 raw [] [] [] [] false.

(** ** Framing *)
(** [json.Marshal] and [json.Unmarshal] on [Msg].  [Raw] is a [[]byte], which
    encoding/json writes as a base64 string: four characters for every three
    bytes begun. *)
Class MsgCodec := { marshal : Msg -> result bytes; unmarshal : bytes -> result Msg }.
Definition base64_len (n : Z) : Z := 4 * ((n + 2) / 3).
Class MsgCodecLaws `{MsgCodec} : Prop := {
  unmarshal_marshal m b : marshal m = Ok b -> unmarshal b = Ok m;
  marshal_raw m b : marshal m = Ok b -> base64_len (Z.of_nat (length (m_Raw m))) <= Z.of_nat (length b);
}.

Section framing.
Context `{MsgCodec}.

(** The bytes [sendWithTimeout] writes before it flushes the buffered writer. *)
Definition frame (m : Msg) : result bytes :=
  b ← marshal m;
  if Z.of_nat (length b) >? maxMsgBytes then Err (EText "message too large")
  else Ok (be_bytes 4 (u32 (Z.of_nat (length b))) ++ b).

Definition readMsg (r : bytes) : result (Msg * bytes) :=
  '(lenb, r) ← ReadFull 4 r;
  let ln := be_val lenb in
  if ln >? maxMsgBytes then Err (EText "oversize message") else
  '(buf, r) ← ReadFull (Z.to_nat ln) r;
  m ← unmarshal buf;
  Ok (m, r).
End framing.

(** ** Peers and reservations *)
Record handshakeReservation := mkReservation { hr_token : Z; hr_target : bytes; hr_sourceIP : bytes }.
#[global] Instance handshakeReservation_eq_dec : EqDecision handshakeReservation.
Proof. solve_decision. Defined.

Record peer := mkPeer {
  p_conn : Z; p_addr : bytes; p_tieKey : bytes; p_remoteIP : bytes; p_outbound : bool;
  p_connectedAt : Z; p_advertisedHeight : Z }.

Record Node := mkNode {
  n_listen : bytes; n_peers : gmap bytes peer; n_known : gset bytes; n_trustedSeeds : gset bytes;
  n_seedTargets : list bytes; n_suppressed : gset bytes; n_dialing : gmap bytes Z;
  n_pending : gmap Z handshakeReservation; n_targets : gmap bytes bytes; n_nextToken : Z;
  n_seedCursor : Z; n_gossipCursor : Z; n_nodeID : bytes }.

Definition NewNode (listen nodeID : bytes) : Node :=
  mkNode listen ∅ ∅ ∅ [] ∅ ∅ ∅ ∅ 0 0 0 nodeID.

Definition set_peers (n : Node) (v : gmap bytes peer) : Node :=
  mkNode (n_listen n) v (n_known n) (n_trustedSeeds n) (n_seedTargets n) (n_suppressed n)
    (n_dialing n) (n_pending n) (n_targets n) (n_nextToken n) (n_seedCursor n) (n_gossipCursor n)
    (n_nodeID n).
Definition set_known (n : Node) (v : gset bytes) : Node :=
  mkNode (n_listen n) (n_peers n) v (n_trustedSeeds n) (n_seedTargets n) (n_suppressed n)
    (n_dialing n) (n_pending n) (n_targets n) (n_nextToken n) (n_seedCursor n) (n_gossipCursor n)
    (n_nodeID n).
Definition set_targets (n : Node) (v : gmap bytes bytes) : Node :=
  mkNode (n_listen n) (n_peers n) (n_known n) (n_trustedSeeds n) (n_seedTargets n) (n_suppressed n)
    (n_dialing n) (n_pending n) v (n_nextToken n) (n_seedCursor n) (n_gossipCursor n) (n_nodeID n).
Definition set_pending (n : Node) (dialing : gmap bytes Z) (pending : gmap Z handshakeReservation)
    (token : Z) : Node :=
  mkNode (n_listen n) (n_peers n) (n_known n) (n_trustedSeeds n) (n_seedTargets n) (n_suppressed n)
    dialing pending (n_targets n) token (n_seedCursor n) (n_gossipCursor n) (n_nodeID n).
Definition set_cursors (n : Node) (seed gossip : Z) : Node :=
  mkNode (n_listen n) (n_peers n) (n_known n) (n_trustedSeeds n) (n_seedTargets n) (n_suppressed n)
    (n_dialing n) (n_pending n) (n_targets n) (n_nextToken n) seed gossip (n_nodeID n).
Definition set_suppressed (n : Node) (v : gset bytes) : Node :=
  mkNode (n_listen n) (n_peers n) (n_known n) (n_trustedSeeds n) (n_seedTargets n) v
    (n_dialing n) (n_pending n) (n_targets n) (n_nextToken n) (n_seedCursor n) (n_gossipCursor n)
    (n_nodeID n).
Definition set_seeds (n : Node) (trusted : gset bytes) (targets : list bytes) : Node :=
  mkNode (n_listen n) (n_peers n) (n_known n) trusted targets (n_suppressed n)
    (n_dialing n) (n_pending n) (n_targets n) (n_nextToken n) (n_seedCursor n) (n_gossipCursor n)
    (n_nodeID n).

Definition is_empty (s : bytes) : bool := match s with [] => true | _ => false end.
Definition count_pending (f : handshakeReservation -> bool) (n : Node) : Z :=
  Z.of_nat (size (filter (fun e => f e.2 = true) (n_pending n))).
Definition outbound_pending (r : handshakeReservation) : bool := negb (is_empty (hr_target r)).
Definition inbound_pending (r : handshakeReservation) : bool := is_empty (hr_target r).
Definition pending_from (ip : bytes) (r : handshakeReservation) : bool :=
  is_empty (hr_target r) && negb (is_empty ip) && bool_decide (hr_sourceIP r = ip).
Definition inbound_peers (n : Node) : Z :=
  Z.of_nat (size (filter (fun e => negb (p_outbound e.2) = true) (n_peers n))).
Definition slots (n : Node) : Z := Z.of_nat (size (n_peers n)) + Z.of_nat (size (n_pending n)).

Definition reserveHandshakeLocked (n : Node) (target sourceIP : bytes)
    : Node * handshakeReservation :=
  let token := u64 (n_nextToken n + 1) in
  let reservation := mkReservation token target sourceIP in
  (set_pending n (if is_empty target then n_dialing n else <[target := token]> (n_dialing n))
     (<[token := reservation]> (n_pending n)) token, reservation).

Definition releaseHandshakeLocked (n : Node) (r : handshakeReservation) : Node * bool :=
  if bool_decide (n_pending n !! hr_token r = Some r) then
    (set_pending n
       (if negb (is_empty (hr_target r))
           && bool_decide (default 0 (n_dialing n !! hr_target r) = hr_token r)
        then delete (hr_target r) (n_dialing n) else n_dialing n)
       (delete (hr_token r) (n_pending n)) (n_nextToken n), true)
  else (n, false).

(** [sourceIP] is [remoteIPFromAddr] of the connection's remote address. *)
Definition reserveInboundHandshakeFrom (n : Node) (sourceIP : bytes)
    : Node * option handshakeReservation :=
  let pendingInbound := count_pending inbound_pending n in
  if (slots n >=? maxPeers)
     || (inbound_peers n + pendingInbound >=? maxPeers - reservedOutboundSlots)
     || (pendingInbound >=? maxPendingInbound)
     || (negb (is_empty sourceIP)
         && (count_pending (pending_from sourceIP) n >=? maxPendingInboundPerIP))
  then (n, None)
  else let '(n', r) := reserveHandshakeLocked n [] sourceIP in (n', Some r).

(** *** Dialling *)
(** The closure [isAvailable], with its deletions. *)
Definition isAvailable (n : Node) (target : bytes) : Node * bool :=
  if negb (bool_decide (target ∈ n_known n)) then (n, false) else
  if bool_decide (target ∈ n_suppressed n) then (set_known n (n_known n ∖ {[target]}), false) else
  if bool_decide (is_Some (n_dialing n !! target)) then (n, false) else
  match n_targets n !! target with
  | Some key => if bool_decide (is_Some (n_peers n !! key)) then (n, false)
                else (set_targets n (delete target (n_targets n)), true)
  | None => (n, true)
  end.

(** The candidates of a list, with the deletions of their tests. *)
Fixpoint available_of (n : Node) (targets : list bytes) : Node * list bytes :=
  match targets with
  | [] => (n, [])
  | target :: rest =>
      let '(n, ok) := isAvailable n target in
      let '(n, l) := available_of n rest in
      (n, if ok then target :: l else l)
  end.

(** The closure [reserve]; the state is the node and [out]. *)
Definition reserve (available : Z) (st : Node * list handshakeReservation) (target : bytes)
    : Node * list handshakeReservation * bool :=
  let '(n, out) := st in
  if Z.of_nat (length out) >=? available then (n, out, false) else
  let '(n, ok) := isAvailable n target in
  if negb ok then (n, out, false) else
  let '(n, reservation) := reserveHandshakeLocked n target [] in
  (n, out ++ [reservation], true).

(** The loop of [reserveRotating] over the remaining offsets. *)
Fixpoint rotate (available limit start added cursor : Z) (candidates : list bytes)
    (offsets : list Z) (st : Node * list handshakeReservation)
    : Node * list handshakeReservation * Z :=
  match offsets with
  | [] => (st, cursor)
  | offset :: rest =>
      if negb ((added <? limit) && (Z.of_nat (length st.2) <? available)) then (st, cursor) else
      let len := Z.of_nat (length candidates) in
      let index := (start + offset) mod len in
      match candidates !! Z.to_nat index with
      | None => (st, cursor)
      | Some candidate =>
          let '(st, ok) := reserve available st candidate in
          if ok then rotate available limit start (added + 1) ((index + 1) mod len) candidates rest st
          else rotate available limit start added cursor candidates rest st
      end
  end.

Definition reserveRotating (available limit cursor : Z) (candidates : list bytes)
    (st : Node * list handshakeReservation) : Node * list handshakeReservation * Z :=
  if (length candidates =? 0)%nat || (limit <=? 0) then (st, cursor) else
  let len := Z.of_nat (length candidates) in
  rotate available limit (cursor mod len) 0 cursor candidates (seqZ 0 len) st.

Definition rotate_seeds (available limit : Z) (candidates : list bytes)
    (st : Node * list handshakeReservation) : Node * list handshakeReservation :=
  let '((n, out), cursor) := reserveRotating available limit (n_seedCursor st.1) candidates st in
  (set_cursors n cursor (n_gossipCursor n), out).
Definition rotate_gossip (available limit : Z) (candidates : list bytes)
    (st : Node * list handshakeReservation) : Node * list handshakeReservation :=
  let '((n, out), cursor) := reserveRotating available limit (n_gossipCursor st.1) candidates st in
  (set_cursors n (n_seedCursor n) cursor, out).

Definition dial_slots (n : Node) : Z :=
  Z.min (maxPeers - slots n) (maxPendingOutbound - count_pending outbound_pending n).

Definition reserveDialCandidates (n : Node) : Node * list handshakeReservation :=
  let available := dial_slots n in
  if available <=? 0 then (n, []) else
  let '(n, seedCandidates) := available_of n (n_seedTargets n) in
  let '(n, gossip) :=
    available_of n (elements (filter (fun t => t ∉ n_trustedSeeds n) (n_known n))) in
  let gossipTargets := merge_sort bytes_le gossip in
  let has l := negb (length (l : list bytes) =? 0)%nat in
  let st :=
    if has seedCandidates && has gossipTargets && (available >? 1) then
      rotate_gossip available 1 gossipTargets
        (rotate_seeds available (available - 1) seedCandidates (n, []))
    else if has seedCandidates then rotate_seeds available available seedCandidates (n, [])
    else rotate_gossip available available gossipTargets (n, []) in
  let st := if Z.of_nat (length st.2) <? available
            then rotate_seeds available (available - Z.of_nat (length st.2)) seedCandidates st
            else st in
  if Z.of_nat (length st.2) <? available
  then rotate_gossip available (available - Z.of_nat (length st.2)) gossipTargets st
  else st.

(** *** Registration *)
Definition rememberPeerTargetsLocked (n : Node) (target dialable key : bytes) : Node :=
  let n := if negb (is_empty target) && negb (bool_decide (target ∈ n_suppressed n))
           then set_targets n (<[target := key]> (n_targets n)) else n in
  if negb (is_empty dialable) && negb (bool_decide (dialable ∈ n_suppressed n)) then
    let n := set_targets n (<[dialable := key]> (n_targets n)) in
    if Z.of_nat (size (n_known n)) <? 1000 then set_known n ({[dialable]} ∪ n_known n) else n
  else n.

Definition canReplaceConcurrentDuplicate (existing candidate : peer) : bool :=
  negb (is_empty (p_remoteIP existing) || is_empty (p_remoteIP candidate)
        || negb (bool_decide (p_remoteIP existing = p_remoteIP candidate)))
  && negb (is_empty (p_tieKey existing) || is_empty (p_tieKey candidate)
           || bool_decide (bytes_le (p_tieKey existing) (p_tieKey candidate)))
  && (Z.abs (p_connectedAt candidate - p_connectedAt existing) <=? duplicateCrossDialWindow).

Definition set_outbound (p : peer) (v : bool) : peer :=
  mkPeer (p_conn p) (p_addr p) (p_tieKey p) (p_remoteIP p) v (p_connectedAt p)
    (p_advertisedHeight p).

(** The third component is the connection the code closes, if any. *)
Definition registerPeer (n : Node) (r : handshakeReservation) (key dialable : bytes) (p : peer)
    : Node * bool * option Z :=
  let '(n, ok) := releaseHandshakeLocked n r in
  if negb ok then (n, false, None) else
  let p := set_outbound p (negb (is_empty (hr_target r))) in
  match n_peers n !! key with
  | Some existing =>
      let sameSource := negb (is_empty (p_remoteIP p))
                        && bool_decide (p_remoteIP p = p_remoteIP existing) in
      let n := if sameSource then rememberPeerTargetsLocked n (hr_target r) dialable key else n in
      if negb (canReplaceConcurrentDuplicate existing p) then (n, false, None)
      else (set_peers n (<[key := p]> (n_peers n)), true, Some (p_conn existing))
  | None =>
      if Z.of_nat (size (n_peers n)) >=? maxPeers then (n, false, None) else
      (rememberPeerTargetsLocked (set_peers n (<[key := p]> (n_peers n)))
         (hr_target r) dialable key, true, None)
  end.

Definition unregisterPeer (n : Node) (key : bytes) (owner : Z) : Node * bool :=
  if negb (bool_decide (p_conn <$> n_peers n !! key = Some owner)) then (n, false) else
  (set_targets (set_peers n (delete key (n_peers n)))
     (filter (fun e => e.2 <> key) (n_targets n)), true).

Definition suppressSelfTargets (n : Node) (targets : list bytes) : Node :=
  fold_left (fun n target =>
    if is_empty target then n else
    set_targets (set_known (set_suppressed n ({[target]} ∪ n_suppressed n))
                   (n_known n ∖ {[target]})) (delete target (n_targets n))) targets n.

(** *** Identities *)
Definition to_lower (s : bytes) : bytes :=
  (fun c => let v := b2z c in if (65 <=? v) && (v <=? 90) then z2b (v + 32) else c) <$> s.

Definition normalizeHandshakeID (value : bytes) : option bytes :=
  if negb (length value =? 32)%nat then None else
  match hex_decode value with
  | Ok decoded => if (length decoded =? 16)%nat then Some (to_lower value) else None
  | Err _ => None
  end.

Definition connectionTieKey (localNodeID localNonce remoteNodeID remoteNonce : bytes) : bytes :=
  match normalizeHandshakeID localNodeID, normalizeHandshakeID localNonce,
        normalizeHandshakeID remoteNodeID, normalizeHandshakeID remoteNonce with
  | Some lid, Some ln, Some rid, Some rn =>
      let local := lid ++ bs ":" ++ ln in
      let remote := rid ++ bs ":" ++ rn in
      if bytes_ltb remote local then remote ++ bs "|" ++ local else local ++ bs "|" ++ remote
  | _, _, _, _ => []
  end.

Definition notePeerHeight (p : peer) (height : Z) : peer :=
  if height <? 0 then p
  else if height >? p_advertisedHeight p
  then mkPeer (p_conn p) (p_addr p) (p_tieKey p) (p_remoteIP p) (p_outbound p) (p_connectedAt p)
         height
  else p.

Definition PeerCount (n : Node) : Z := Z.of_nat (size (n_peers n)).
Definition HighestAdvertisedHeight (n : Node) : Z :=
  fold_left (fun highest e => if p_advertisedHeight e.2 >? highest then p_advertisedHeight e.2
                              else highest) (map_to_list (n_peers n)) 0.

(** ** Addresses *)
(** [netip.Addr]: the value of an IPv4 or IPv6 address. *)
Inductive Addr := V4 (v : Z) | V6 (v : Z).
#[global] Instance Addr_eq_dec : EqDecision Addr.
Proof. solve_decision. Defined.

(** [netip.Prefix.Contains]: the families must agree. *)
Definition in_prefix (prefix : Addr) (len : Z) (ip : Addr) : bool :=
  match prefix, ip with
  | V4 p, V4 v => Z.shiftr p (32 - len) =? Z.shiftr v (32 - len)
  | V6 p, V6 v => Z.shiftr p (128 - len) =? Z.shiftr v (128 - len)
  | _, _ => false
  end.

Definition v4 (a b c d : Z) : Addr := V4 (((a * 256 + b) * 256 + c) * 256 + d).
(** An IPv6 prefix from its first three groups. *)
Definition v6 (a b c : Z) : Addr := V6 (((a * 2 ^ 16 + b) * 2 ^ 16 + c) * 2 ^ 80).

Definition IsLoopback (ip : Addr) : bool :=
  match ip with V4 _ => in_prefix (v4 127 0 0 0) 8 ip | V6 v => v =? 1 end.
Definition IsUnspecified (ip : Addr) : bool := match ip with V4 v => v =? 0 | V6 v => v =? 0 end.
Definition IsMulticast (ip : Addr) : bool :=
  in_prefix (v4 224 0 0 0) 4 ip || in_prefix (v6 0xff00 0 0) 8 ip.
Definition IsLinkLocalUnicast (ip : Addr) : bool :=
  in_prefix (v4 169 254 0 0) 16 ip || in_prefix (v6 0xfe80 0 0) 10 ip.
Definition IsPrivate (ip : Addr) : bool :=
  in_prefix (v4 10 0 0 0) 8 ip || in_prefix (v4 172 16 0 0) 12 ip
  || in_prefix (v4 192 168 0 0) 16 ip || in_prefix (v6 0xfc00 0 0) 7 ip.
Definition IsGlobalUnicast (ip : Addr) : bool :=
  negb (bool_decide (ip = v4 255 255 255 255)) && negb (IsUnspecified ip) && negb (IsLoopback ip)
  && negb (IsMulticast ip) && negb (IsLinkLocalUnicast ip).
(** [Unmap]: an IPv4-mapped IPv6 address becomes the IPv4 address. *)
Definition Unmap (ip : Addr) : Addr :=
  match ip with
  | V6 v => if Z.shiftr v 32 =? 0xffff then V4 (v mod 2 ^ 32) else V6 v
  | V4 v => V4 v
  end.

Definition ipv6GlobalUnicastPrefix : Addr * Z := (v6 0x2000 0 0, 3).
Definition blockedGossipPrefixes : list (Addr * Z) :=
  [ (v4 0 0 0 0, 8); (v4 100 64 0 0, 10); (v4 192 0 0 0, 24); (v4 192 0 2 0, 24);
    (v4 192 88 99 0, 24); (v4 198 18 0 0, 15); (v4 198 51 100 0, 24); (v4 203 0 113 0, 24);
    (v4 240 0 0 0, 4); (v6 0x64 0xff9b 0, 96); (v6 0x64 0xff9b 1, 48); (v6 0x100 0 0, 64);
    (v6 0x2001 0 0, 23); (v6 0x2001 0xdb8 0, 32); (v6 0x2002 0 0, 16); (v6 0x3ffe 0 0, 16);
    (v6 0x3fff 0 0, 20); (v6 0x5f00 0 0, 16); (v6 0xfec0 0 0, 10) ].

Definition isPublicGossipIP (ip : Addr) : bool :=
  if negb (IsGlobalUnicast ip) || IsPrivate ip || IsLoopback ip || IsLinkLocalUnicast ip
     || IsMulticast ip || IsUnspecified ip then false else
  if match ip with V6 _ => negb (in_prefix ipv6GlobalUnicastPrefix.1 ipv6GlobalUnicastPrefix.2 ip)
                 | V4 _ => false end then false else
  forallb (fun pf => negb (in_prefix pf.1 pf.2 ip)) blockedGossipPrefixes.

(** The text functions of [net], [net/netip], [strings] and [strconv]. *)
Class NetText := {
  SplitHostPort : bytes -> option (bytes * bytes);
  JoinHostPort : bytes -> bytes -> bytes;
  ParseIP : bytes -> option Addr;
  ParseAddr : bytes -> option (Addr * bytes);
  Addr_String : Addr -> bytes;
  Atoi : bytes -> option Z;
  Itoa : Z -> bytes;
  TrimSpace : bytes -> bytes;
  ToLower : bytes -> bytes }.
(** [JoinHostPort] writes a colon between its arguments. *)
Class NetTextLaws `{NetText} : Prop := { JoinHostPort_nonempty h p : JoinHostPort h p <> [] }.

Section addresses.
Context `{NetText}.

Definition TrimSuffix_dot (s : bytes) : bytes :=
  match last s with Some c => if b2z c =? 46 then take (length s - 1) s else s | None => s end.
Definition bad_host_byte (c : byte) : bool :=
  existsb (fun v => b2z c =? v) [32; 47; 92; 9; 13; 10].

Definition normalizeDialTarget (addr : bytes) : option bytes :=
  let addr := TrimSpace addr in
  if is_empty addr || (Z.of_nat (length addr) >? 320) then None else
  match SplitHostPort addr with
  | None => None
  | Some (host, portText) =>
      if is_empty host then None else
      match Atoi portText with
      | None => None
      | Some port =>
          if (port <? 1) || (port >? 65535) then None else
          match ParseIP host with
          | Some ip => Some (JoinHostPort (Addr_String ip) (Itoa port))
          | None =>
              if (Z.of_nat (length host) >? 253) || existsb bad_host_byte host then None
              else Some (JoinHostPort (ToLower (TrimSuffix_dot host)) (Itoa port))
          end
      end
  end.

Definition normalizeGossipAddress (addr : bytes) : option bytes :=
  match normalizeDialTarget addr with
  | None => None
  | Some normalized =>
      let '(host, port) := default ([], []) (SplitHostPort normalized) in
      match ParseAddr host with
      | None => None
      | Some (ip, zone) =>
          if negb (is_empty zone) then None else
          let ip := Unmap ip in
          if negb (isPublicGossipIP ip) then None else Some (JoinHostPort (Addr_String ip) port)
      end
  end.

Definition dialablePeerEndpoint (remoteAddr advertisedListen : bytes) : option bytes :=
  match SplitHostPort remoteAddr with
  | None => None
  | Some (host, _) =>
      if is_empty host then None else
      match SplitHostPort advertisedListen with
      | None => None
      | Some (_, portText) =>
          match Atoi portText with
          | None => None
          | Some port => if (port <? 1) || (port >? 65535) then None
                         else normalizeGossipAddress (JoinHostPort host (Itoa port))
          end
      end
  end.

Definition remoteIPFromAddr (remoteAddr : bytes) : bytes :=
  match SplitHostPort remoteAddr with
  | None => []
  | Some (host, _) => match ParseAddr host with
                      | None => []
                      | Some (ip, zone) =>
                          (* [Unmap] keeps the zone of an IPv6 address *)
                          match Unmap ip with
                          | V4 v => Addr_String (V4 v)
                          | V6 v => Addr_String (V6 v) ++ (if is_empty zone then [] else bs "%" ++ zone)
                          end
                      end
  end.

Definition peerIdentity (remoteNodeID remoteAddr dialable : bytes) : bytes :=
  match normalizeHandshakeID remoteNodeID with
  | Some nodeID =>
      let sourceIP := remoteIPFromAddr remoteAddr in
      if negb (is_empty sourceIP) then bs "node:" ++ nodeID ++ bs "@" ++ sourceIP
      else bs "node:" ++ nodeID
  | None => if negb (is_empty dialable) then bs "legacy:" ++ dialable
            else bs "legacy-conn:" ++ remoteAddr
  end.

(** The seed loop of [startWithListener]. *)
Definition add_seed (n : Node) (s : bytes) : Node :=
  match normalizeDialTarget s with
  | Some target =>
      if bool_decide (target ∈ n_suppressed n) then n else
      let n := set_known n ({[target]} ∪ n_known n) in
      if bool_decide (target ∈ n_trustedSeeds n) then n
      else set_seeds n ({[target]} ∪ n_trustedSeeds n) (n_seedTargets n ++ [target])
  | None => n
  end.

(** One address of an [addr] message. *)
Definition learn_addr (n : Node) (a : bytes) : Node :=
  match normalizeGossipAddress a with
  | Some normalized =>
      if (Z.of_nat (size (n_known n)) <? 1000) && negb (bool_decide (normalized = n_listen n))
         && negb (bool_decide (normalized ∈ n_suppressed n))
      then set_known n ({[normalized]} ∪ n_known n) else n
  | None => n
  end.
End addresses.

(** ** Messages *)
Section messages.
Context `{Crypto} `{NetText}.

(** The first loop of [getblocks]; every [BlockAt] takes the chain's lock, so the
    [i]-th one sees the state [chain i]. *)
Fixpoint collect (fuel : nat) (chain : nat -> Chain) (i : nat) (h totalBytes : Z)
    (batch : list (Z * bytes)) : result (list (Z * bytes)) :=
  match fuel with
  | O => Ok batch
  | S fuel' =>
      blk ← BlockAt (chain i) h;
      match blk with
      | None => Ok batch
      | Some blk =>
          let raw := Block_Bytes blk in
          if negb (length batch =? 0)%nat
             && (totalBytes + Z.of_nat (length raw) >? blockBatchBytes) then Ok batch
          else collect fuel' chain (S i) (h + 1) (totalBytes + Z.of_nat (length raw))
                 (batch ++ [(h, raw)])
      end
  end.

(** [send] is the outcome of [p.send] for a message; the loop stops at the first
    error.  The result lists the messages that were sent. *)
Fixpoint send_batch (send : Msg -> option error) (after : Chain) (batch : list (Z * bytes))
    : result (list Msg * option error) :=
  match batch with
  | [] => Ok ([], None)
  | (height, raw) :: rest =>
      more ← (if (length rest =? 0)%nat
              then next ← BlockAt after (height + 1); Ok (bool_decide (is_Some next))
              else Ok false);
      let m := block_msg raw height more in
      match send m with
      | Some e => Ok ([], Some e)
      | None => '(sent, err) ← send_batch send after rest; Ok (m :: sent, err)
      end
  end.

(** *** The handshake *)
Definition hello_msg (n : Node) (magic height : Z) (nonce : bytes) : Msg :=
  mkMsg (bs "hello") protocolVersion magic height [] 0 [] [] (n_listen n) (n_nodeID n) nonce false.
Definition addr_msg (addrs : list bytes) : Msg := mkMsg (bs "addr") 0 0 0 [] 0 [] addrs [] [] [] false.

(** What the environment contributes to [handleConn]: the connection, the random
    nonce, the clock, the outcome of the two [SetDeadline] calls, and what [readMsg]
    returns first. *)
Record connection := mkConnection {
  cn_conn : Z; cn_remoteAddr : bytes; cn_localNonce : bytes; cn_now : Z; cn_deadline : bool;
  cn_clearDeadline : bool; cn_hello : result Msg }.

(** [handleConn] up to and including [registerPeer].  The result is the registered
    peer and its hello, if the handshake succeeds; on every other exit the deferred
    [releaseHandshake] runs.  The last component is the duplicate connection that
    was closed. *)
Definition handshake (send : Msg -> option error) (n : Node) (c : Chain)
    (reservation : handshakeReservation) (cn : connection)
    : Node * option (peer * Msg) * option Z :=
  let leave n := ((releaseHandshakeLocked n reservation).1, None, None) in
  let addr := cn_remoteAddr cn in
  if negb (cn_deadline cn) then leave n else
  match send (hello_msg n (NetMagic (c_params c)) (Tip c).2 (cn_localNonce cn)) with
  | Some _ => leave n
  | None =>
      match cn_hello cn with
      | Err _ => leave n
      | Ok hello =>
          if negb (bool_decide (m_Type hello = bs "hello"))
             || negb (m_Magic hello =? NetMagic (c_params c)) then leave n else
          let advertised := if m_Height hello >? 0 then m_Height hello else 0 in
          let dialable := default [] (dialablePeerEndpoint addr (m_Listen hello)) in
          if bool_decide (normalizeHandshakeID (m_NodeID hello) = Some (n_nodeID n)) then
            leave (suppressSelfTargets n [hr_target reservation; dialable])
          else
          let key := peerIdentity (m_NodeID hello) addr dialable in
          let p := mkPeer (cn_conn cn) key
                     (connectionTieKey (n_nodeID n) (cn_localNonce cn) (m_NodeID hello) (m_Nonce hello))
                     (remoteIPFromAddr addr) false (cn_now cn) advertised in
          if negb (cn_clearDeadline cn) then leave n else
          let '(n, ok, closed) := registerPeer n reservation key dialable p in
          if negb ok then leave n else
          (n, Some (set_outbound p (negb (is_empty (hr_target reservation))), hello), closed)
      end
  end.

(** The loop that shares known addresses; [order] is the iteration order of
    [n.known]. *)
Fixpoint share_addrs (order addrs : list bytes) : list bytes :=
  match order with
  | [] => addrs
  | a :: rest =>
      let addrs := match normalizeGossipAddress a with
                   | Some normalized => addrs ++ [normalized]
                   | None => addrs
                   end in
      if Z.of_nat (length addrs) >=? 16 then addrs else share_addrs rest addrs
  end.

(** What a registered peer is sent before its first message is read. *)
Definition opening (send : Msg -> option error) (c : Chain) (order : list bytes) (hello : Msg)
    : list Msg * bool :=
  let h := (Tip c).2 in
  let ask := if m_Height hello >? h then [getblocks_msg (h + 1)] else [] in
  if existsb (fun m => bool_decide (is_Some (send m))) ask then ([], false) else
  let m := addr_msg (share_addrs order []) in
  if bool_decide (is_Some (send m)) then (ask, false) else (ask ++ [m], true).

(** *** Broadcast *)
(** [send p m] is the outcome of [p.send(m)].  The result is the number of completed
    writes and the connections that were closed. *)
Definition broadcast (send : peer -> Msg -> option error) (n : Node) (m : Msg) (exceptAddr : bytes)
    : Z * list Z :=
  let ps := filter (fun p => p_addr p <> exceptAddr) (snd <$> map_to_list (n_peers n)) in
  (Z.of_nat (length (filter (fun p => send p m = None) ps)),
   p_conn <$> filter (fun p => send p m <> None) ps).

Definition announceBlock (send : peer -> Msg -> option error) (n : Node) (b : Block) (height : Z)
    : Z * list Z :=
  broadcast send n (block_msg (Block_Bytes b) height false) [].

Definition BroadcastTx (send : peer -> Msg -> option error) (n : Node) (tx : option Tx) : Z :=
  match tx with None => 0 | Some tx => (broadcast send n (tx_msg (Tx_Bytes tx)) []).1 end.

(** One tick of [catchupLoop]. *)
Definition catch_up (send : peer -> Msg -> option error) (n : Node) (c : Chain) : Z * list Z :=
  broadcast send n (getblocks_msg ((Tip c).2 + 1)) [].

(** *** Dispatch *)
Record handled := mkHandled {
  hd_node : Node; hd_chain : Chain; hd_sent : list Msg; hd_broadcast : list Msg;
  hd_error : option error }.

(** [p] is the peer as registered under its key [p_addr p]. *)
Definition note_height (n : Node) (p : peer) (height : Z) : Node :=
  match n_peers n !! p_addr p with
  | Some q => if p_conn q =? p_conn p
              then set_peers n (<[p_addr p := notePeerHeight q height]> (n_peers n)) else n
  | None => n
  end.

(** [return p.send(m)] *)
Definition reply (send : Msg -> option error) (n : Node) (c : Chain) (m : Msg) : handled :=
  match send m with
  | None => mkHandled n c [m] [] None
  | Some e => mkHandled n c [] [] (Some e)
  end.

(** [err.Error() == "orphan: unknown parent"] *)
Definition is_orphan (e : error) : bool :=
  match e with EText s => String.eqb s "orphan: unknown parent" | _ => false end.

Definition handleMsg (send : Msg -> option error) (n : Node) (c : Chain)
    (reads : nat -> Chain) (after : Chain) (now : Z) (p : peer) (m : Msg) : result handled :=
  if bool_decide (m_Type m = bs "ping") then Ok (reply send n c (msg (bs "pong"))) else
  if bool_decide (m_Type m = bs "pong") then Ok (mkHandled n c [] [] None) else
  if bool_decide (m_Type m = bs "addr") then
    Ok (mkHandled (fold_left learn_addr (m_Addrs m) n) c [] [] None) else
  if bool_decide (m_Type m = bs "getblocks") then
    batch ← collect (Z.to_nat blockBatchSize) reads 0 (m_From m) 0 [];
    '(sent, err) ← send_batch send after batch;
    Ok (mkHandled n c sent [] err) else
  if bool_decide (m_Type m = bs "block") then
    let n := note_height n p (m_Height m) in
    match DecodeBlock (m_Raw m) with
    | Err e => Ok (mkHandled n c [] [] (Some (EWrap "bad block" 0 e)))
    | Ok blk =>
        let '(c, r) := AcceptBlock c (Some blk) now in
        match r with
        | Ok _ => if m_More m then Ok (reply send n c (getblocks_msg (i64 (m_Height m + 1))))
                  else Ok (mkHandled n c [] [] None)
        | Err e => if is_orphan e then Ok (reply send n c (getblocks_msg 1))
                   else Ok (mkHandled n c [] [] (Some (EWrap "invalid block" 0 e)))
        end
    end else
  if bool_decide (m_Type m = bs "tx") then
    match DecodeTx (m_Raw m) with
    | Err e => Ok (mkHandled n c [] [] (Some (EWrap "bad tx" 0 e)))
    | Ok tx =>
        let '(c, r) := AcceptTxWithResult c (Some tx) in
        match r with
        | Ok TxAcceptanceAdded => Ok (mkHandled n c [] [tx_msg (m_Raw m)] None)
        | _ => Ok (mkHandled n c [] [] None)
        end
    end else
  if bool_decide (m_Type m = bs "inv") then
    let n := note_height n p (m_Height m) in
    let h := (Tip c).2 in
    if m_Height m >? h then Ok (reply send n c (getblocks_msg (h + 1)))
    else Ok (mkHandled n c [] [] None)
  else Ok (mkHandled n c [] [] None).
End messages.
