(* ===== verification/P2pProofs.v ===== *)
(** * Lemmas about the peer-to-peer node

    The invariant of the peer tables under every operation of the node: slots,
    pending handshakes and dial targets stay within their limits, and a target is
    dialled at most once at a time. *)
From S2P Require Import Prelude Text Params Crypto Pow Wire Merkle Chain ChainInv ChainView P2p.

(** ** Counting in a map *)
Section counting.
Context {K A : Type} `{Countable K} (f : A -> bool).
Definition countm (m : gmap K A) : nat := size (filter (fun e => f e.2 = true) m).

Lemma countm_delete m k x : m !! k = Some x ->
  (countm (delete k m) + (if f x then 1 else 0) = countm m)%nat.
Proof.
  intros Hk. unfold countm. rewrite map_filter_delete, map_size_delete.
  destruct (f x) eqn:Ef.
  - assert (Hl : filter (fun e => f e.2 = true) m !! k = Some x)
      by (apply map_lookup_filter_Some; done).
    rewrite Hl. assert (size (filter (fun e => f e.2 = true) m) <> 0%nat); [|lia].
    intros Hz%map_size_empty_inv. rewrite Hz in Hl. by rewrite lookup_empty in Hl.
  - assert (Hl : filter (fun e => f e.2 = true) m !! k = None).
    { apply map_lookup_filter_None. right. intros y Hy. simplify_eq. cbn. congruence. }
    rewrite Hl. cbn. lia.
Qed.

Lemma countm_delete_le m k : (countm (delete k m) <= countm m)%nat.
Proof.
  destruct (m !! k) as [x|] eqn:Ek; [|by rewrite delete_id].
  rewrite <- (countm_delete m k x Ek). lia.
Qed.

Lemma countm_insert m k x : (countm (<[k := x]> m) <= countm m + (if f x then 1 else 0))%nat.
Proof.
  rewrite <- insert_delete_eq. pose proof (countm_delete_le m k).
  set (m' := delete k m) in *. assert (Hm' : m' !! k = None) by apply lookup_delete_eq.
  pose proof (countm_delete (<[k := x]> m') k x (lookup_insert_eq _ _ _)) as Hd.
  rewrite delete_insert_id in Hd by done. lia.
Qed.
End counting.

Lemma size_insert_le {K A} `{Countable K} (m : gmap K A) k x : (size (<[k := x]> m) <= S (size m))%nat.
Proof. rewrite map_size_insert. destruct (m !! k); cbn; lia. Qed.

Lemma size_delete_eq {K A} `{Countable K} (m : gmap K A) k x :
  m !! k = Some x -> S (size (delete k m)) = size m.
Proof.
  intros Hk. rewrite map_size_delete, Hk. cbn.
  assert (size m <> 0%nat); [|lia]. intros Hz%map_size_empty_inv. subst m.
  by rewrite lookup_empty in Hk.
Qed.

(** ** The invariant *)
Record node_inv (n : Node) : Prop := {
  ni_slots : slots n <= maxPeers;
  ni_outbound : count_pending outbound_pending n <= maxPendingOutbound;
  ni_inbound : count_pending inbound_pending n <= maxPendingInbound;
  ni_reserved : inbound_peers n + count_pending inbound_pending n <= maxPeers - reservedOutboundSlots;
  ni_per_ip : forall ip, count_pending (pending_from ip) n <= maxPendingInboundPerIP;
  ni_known : [] ∉ n_known n;
  ni_token : forall t r, n_pending n !! t = Some r -> hr_token r = t /\ 0 < t <= n_nextToken n;
  ni_dialing : forall t r, n_pending n !! t = Some r -> hr_target r <> [] ->
    n_dialing n !! hr_target r = Some t;
  ni_next : 0 <= n_nextToken n;
}.

(** The parts an operation on the targets leaves alone. *)
Record same_tables (n n' : Node) : Prop := {
  sm_peers : n_peers n' = n_peers n;
  sm_pending : n_pending n' = n_pending n;
  sm_dialing : n_dialing n' = n_dialing n;
  sm_token : n_nextToken n' = n_nextToken n;
  sm_known : n_known n' ⊆ n_known n;
  sm_suppressed : n_suppressed n' = n_suppressed n;
}.

#[global] Instance same_tables_refl : Reflexive same_tables.
Proof. intros n. split; done. Qed.
#[global] Instance same_tables_trans : Transitive same_tables.
Proof. intros n1 n2 n3 [] []. split; try congruence. set_solver. Qed.

Lemma node_inv_same n n' : same_tables n n' -> node_inv n -> node_inv n'.
Proof.
  intros [Hp Hq Hd Ht Hk _] [].
  split; unfold slots, inbound_peers, count_pending in *; rewrite ?Hp, ?Hq, ?Hd, ?Ht; auto.
Qed.

(** ** Reservations *)
Lemma reserve_counts n target ip n' r : reserveHandshakeLocked n target ip = (n', r) ->
  slots n' <= slots n + 1 /\ inbound_peers n' = inbound_peers n /\
  (forall f, count_pending f n' <= count_pending f n + (if f r then 1 else 0)) /\
  r = mkReservation (u64 (n_nextToken n + 1)) target ip.
Proof.
  intros [= <- <-]. unfold slots, inbound_peers, count_pending. cbn [n_peers n_pending set_pending].
  split_and!; try done.
  - pose proof (size_insert_le (n_pending n) (u64 (n_nextToken n + 1))
      (mkReservation (u64 (n_nextToken n + 1)) target ip)). lia.
  - intros f. pose proof (countm_insert f (n_pending n) (u64 (n_nextToken n + 1))
      (mkReservation (u64 (n_nextToken n + 1)) target ip)) as Hc. unfold countm in Hc.
    destruct (f _); lia.
Qed.

(** The part of the invariant about tokens and dial targets. *)
Lemma reserve_tokens n target ip n' r : node_inv n -> n_nextToken n + 1 < two64 ->
  (target <> [] -> n_dialing n !! target = None) ->
  reserveHandshakeLocked n target ip = (n', r) ->
  (forall t r, n_pending n' !! t = Some r -> hr_token r = t /\ 0 < t <= n_nextToken n') /\
  (forall t r, n_pending n' !! t = Some r -> hr_target r <> [] ->
     n_dialing n' !! hr_target r = Some t) /\
  n_nextToken n' = n_nextToken n + 1.
Proof.
  intros Hn Hbig Hfree [= <- <-]. cbn [n_pending n_dialing n_nextToken set_pending].
  pose proof (ni_next _ Hn). rewrite u64_small by (unfold in_u64; lia).
  split_and!; [| |done].
  - intros t r [[<- <-]|[Hne Hr]]%lookup_insert_Some; [cbn; lia|].
    destruct (ni_token _ Hn t r Hr). lia.
  - intros t r [[<- <-]|[Hne Hr]]%lookup_insert_Some Htg.
    + cbn in *. destruct target; [done|]. cbn. by rewrite lookup_insert_eq.
    + pose proof (ni_dialing _ Hn t r Hr Htg) as Hd. destruct (is_empty target) eqn:Ee; [done|].
      rewrite lookup_insert_ne; [done|]. intros Heq.
      rewrite <- Heq, Hfree in Hd by by destruct target. done.
Qed.

Lemma release_spec n r n' : releaseHandshakeLocked n r = (n', true) ->
  n_pending n !! hr_token r = Some r /\ n_peers n' = n_peers n /\ n_known n' = n_known n /\
  n_suppressed n' = n_suppressed n /\ n_nextToken n' = n_nextToken n /\
  n_pending n' = delete (hr_token r) (n_pending n).
Proof.
  unfold releaseHandshakeLocked. destruct (bool_decide_reflect (n_pending n !! hr_token r = Some r));
    [|done]. intros [= <-]. done.
Qed.

Lemma release_counts n r n' : releaseHandshakeLocked n r = (n', true) ->
  slots n' + 1 = slots n /\ inbound_peers n' = inbound_peers n /\
  (forall f, count_pending f n' + (if f r then 1 else 0) = count_pending f n).
Proof.
  intros (Hr & Hp & _ & _ & _ & Hq)%release_spec. unfold slots, inbound_peers, count_pending.
  rewrite Hp, Hq. split_and!; [|done|].
  - pose proof (size_delete_eq _ _ _ Hr). lia.
  - intros f. pose proof (countm_delete f (n_pending n) _ _ Hr) as Hc. unfold countm in Hc.
    destruct (f r); lia.
Qed.

Lemma release_inv n r : node_inv n -> node_inv (releaseHandshakeLocked n r).1.
Proof.
  intros Hn. destruct (releaseHandshakeLocked n r) as [n' [|]] eqn:E; cbn [fst].
  - destruct (release_counts _ _ _ E) as (Hs & Hi & Hc).
    destruct (release_spec _ _ _ E) as (Hr & Hp & Hk & _ & Ht & Hq). destruct Hn.
    split; rewrite ?Hk, ?Ht, ?Hi, ?Hq; try lia; try done.
    + pose proof (Hc outbound_pending). destruct (outbound_pending r); lia.
    + pose proof (Hc inbound_pending). destruct (inbound_pending r); lia.
    + pose proof (Hc inbound_pending). destruct (inbound_pending r); lia.
    + intros ip. pose proof (Hc (pending_from ip)). specialize (ni_per_ip0 ip).
      destruct (pending_from ip r); lia.
    + intros t r' [_ Hr']%lookup_delete_Some. by apply ni_token0.
    + intros t r' [Hne Hr']%lookup_delete_Some Htg.
      pose proof (ni_dialing0 _ _ Hr' Htg) as Hd.
      unfold releaseHandshakeLocked in E. rewrite bool_decide_eq_true_2 in E by done.
      injection E as <-. cbn [n_dialing set_pending].
      destruct (negb (is_empty (hr_target r)) && _); [|done].
      rewrite lookup_delete_ne; [done|]. intros Heq. rewrite <- Heq in Hd.
      assert (hr_target r <> []) as Hr0 by congruence.
      pose proof (ni_dialing0 _ _ Hr Hr0). congruence.
  - unfold releaseHandshakeLocked in E. case_bool_decide; [done|]. by injection E as <-.
Qed.

Lemma inbound_inv n ip : node_inv n -> n_nextToken n + 1 < two64 ->
  node_inv (reserveInboundHandshakeFrom n ip).1.
Proof.
  intros Hn Hbig. unfold reserveInboundHandshakeFrom. destruct (_ || _) eqn:Eg; [done|].
  destruct (reserveHandshakeLocked n [] ip) as [n' r] eqn:Er. cbn [fst].
  destruct (reserve_counts _ _ _ _ _ Er) as (Hs & Hi & Hc & ->).
  destruct (reserve_tokens n [] ip n' _ Hn Hbig ltac:(done) Er) as (Ht & Hd & Hnx).
  assert (Hk : n_known n' = n_known n) by (by injection Er as <-).
  repeat (apply orb_false_iff in Eg as [Eg ?]). bool_prop. destruct Hn.
  split; rewrite ?Hk, ?Hi; try lia; try done.
  - pose proof (Hc outbound_pending). cbn in *. lia.
  - pose proof (Hc inbound_pending). cbn in *. lia.
  - pose proof (Hc inbound_pending). cbn in *. lia.
  - intros ip'. pose proof (Hc (pending_from ip')) as Hcp. specialize (ni_per_ip0 ip').
    unfold pending_from at 3 in Hcp. cbn [hr_target hr_sourceIP is_empty andb] in Hcp.
    destruct (is_empty ip') eqn:Eip; cbn [negb andb] in Hcp; [lia|].
    destruct (bool_decide_reflect (ip = ip')) as [<-|]; [|lia].
    rewrite Eip in *. cbn [negb andb] in *. bool_prop. lia.
Qed.

(** ** Dialling *)
Lemma isAvailable_spec n target n' ok : isAvailable n target = (n', ok) ->
  same_tables n n' /\
  (ok = true -> target ∈ n_known n /\ target ∉ n_suppressed n /\ n_dialing n !! target = None /\
     (forall key, n_targets n !! target = Some key -> n_peers n !! key = None)).
Proof.
  unfold isAvailable. intros Ha.
  destruct (bool_decide_reflect (target ∈ n_known n)); cbn [negb] in Ha; [|by injection Ha as <- <-].
  destruct (bool_decide_reflect (target ∈ n_suppressed n)).
  { injection Ha as <- <-. split; [|done]. split; try done. cbn. set_solver. }
  destruct (bool_decide_reflect (is_Some (n_dialing n !! target))) as [|Hd];
    [by injection Ha as <- <-|]. apply eq_None_not_Some in Hd.
  destruct (n_targets n !! target) as [key|] eqn:Et.
  - destruct (bool_decide_reflect (is_Some (n_peers n !! key))) as [|Hp];
      [by injection Ha as <- <-|]. apply eq_None_not_Some in Hp.
    injection Ha as <- <-. split; [split; done|]. intros _. split_and!; try done.
    intros key' Hk. congruence.
  - injection Ha as <- <-. split; [done|]. intros _. by split_and!.
Qed.

Lemma available_of_same targets : forall n n' l, available_of n targets = (n', l) -> same_tables n n'.
Proof.
  induction targets as [|t targets IH]; intros n n' l Ha; cbn in Ha; [by injection Ha as <- <-|].
  destruct (isAvailable n t) as [n1 ok] eqn:E1. destruct (available_of n1 targets) as [n2 l2] eqn:E2.
  injection Ha as <- _. apply isAvailable_spec in E1 as [? _]. etrans; [done|by eapply IH].
Qed.

(** The state while dial candidates are reserved, relative to the start [n0]. *)
Record dial_state (n0 : Node) (available : Z) (st : Node * list handshakeReservation) : Prop := {
  ds_inv : node_inv st.1;
  ds_slots : slots st.1 <= slots n0 + Z.of_nat (length st.2);
  ds_out : count_pending outbound_pending st.1
           <= count_pending outbound_pending n0 + Z.of_nat (length st.2);
  ds_len : Z.of_nat (length st.2) <= available;
  ds_token : n_nextToken st.1 = n_nextToken n0 + Z.of_nat (length st.2);
  ds_peers : n_peers st.1 = n_peers n0;
  ds_suppressed : n_suppressed st.1 = n_suppressed n0;
  ds_pending : forall r, r ∈ st.2 -> n_pending st.1 !! hr_token r = Some r /\
    hr_target r ∉ n_suppressed n0 /\ hr_target r <> [];
}.

Section dial.
Context (n0 : Node) (available : Z) (Hav : available <= dial_slots n0)
        (Hbig : n_nextToken n0 + maxPeers < two64) (Hslots : 0 <= slots n0).

Lemma dial_same n n' out : same_tables n n' -> dial_state n0 available (n, out) ->
  dial_state n0 available (n', out).
Proof.
  intros Hs []. pose proof (node_inv_same _ _ Hs) as Hinv. destruct Hs as [Hp Hq _ Ht _ Hsup].
  cbn [fst snd] in *.
  split; cbn [fst snd]; unfold slots, count_pending in *; rewrite ?Hp, ?Hq, ?Ht, ?Hsup; auto.
Qed.

Lemma reserve_state st target st' ok : dial_state n0 available st ->
  reserve available st target = (st', ok) -> dial_state n0 available st'.
Proof.
  destruct st as [n out]. intros Hst Hr. unfold reserve in Hr. rewrite Z.geb_leb in Hr.
  destruct (Z.leb_spec available (Z.of_nat (length out))) as [|Hlt]; [by injection Hr as <- _|].
  destruct (isAvailable n target) as [n1 a] eqn:Ea. apply isAvailable_spec in Ea as [Hsame Hok].
  pose proof (dial_same _ _ _ Hsame Hst) as Hst1. destruct a; cbn [negb] in Hr;
    [|by injection Hr as <- _]. destruct (Hok eq_refl) as (Hkn & Hsup & Hdial & _).
  destruct (reserveHandshakeLocked n1 target []) as [n2 r] eqn:Er. injection Hr as <- _.
  destruct Hst1 as [Hinv Hs Ho Hl Ht Hp Hsu Hpd]. cbn [fst snd] in *.
  assert (Hne : target <> []) by (intros ->; by apply (ni_known _ (ds_inv _ _ _ Hst))).
  unfold dial_slots in Hav.
  destruct (reserve_tokens n1 target [] n2 r Hinv) as (Htk & Hdl & Hnx);
    [rewrite Ht; lia|intros _; by rewrite (sm_dialing _ _ Hsame)|done|].
  destruct (reserve_counts _ _ _ _ _ Er) as (Hs2 & Hi2 & Hc2 & Hreq).
  assert (Hout : outbound_pending r = true) by (rewrite Hreq; unfold outbound_pending; by destruct target).
  assert (Hin : inbound_pending r = false) by (rewrite Hreq; unfold inbound_pending; by destruct target).
  assert (Hpf : forall ip, pending_from ip r = false)
    by (intros ip; rewrite Hreq; unfold pending_from; by destruct target).
  assert (Hpeers : n_peers n2 = n_peers n1) by (injection Er as <- _; done).
  assert (Hknown : n_known n2 = n_known n1) by (injection Er as <- _; done).
  assert (Hsup2 : n_suppressed n2 = n_suppressed n1) by (injection Er as <- _; done).
  assert (Hpend : n_pending n2 = <[hr_token r := r]> (n_pending n1))
    by (injection Er as <- <-; done).
  pose proof (Hc2 outbound_pending) as Hco. pose proof (Hc2 inbound_pending) as Hci.
  rewrite Hout in Hco. rewrite Hin in Hci.
  assert (Hlen : Z.of_nat (length (out ++ [r])) = Z.of_nat (length out) + 1)
    by (rewrite length_app; cbn; lia).
  split; cbn [fst snd]; rewrite ?Hlen; try lia; try congruence.
  - destruct Hinv. split; rewrite ?Hknown, ?Hi2; try lia; try done.
    intros ip. pose proof (Hc2 (pending_from ip)) as Hcf. rewrite Hpf in Hcf.
    specialize (ni_per_ip0 ip). lia.
  - intros r' Hr'. rewrite Hpend. apply elem_of_app in Hr' as [Hr'|Hr'].
    + destruct (Hpd r' Hr') as (Hl' & ? & ?). split; [|done]. rewrite lookup_insert_ne; [done|].
      pose proof (ni_token _ Hinv _ _ Hl') as [_ Hb]. rewrite Hreq. cbn.
      rewrite u64_small by (unfold in_u64; lia). lia.
    + apply list_elem_of_singleton in Hr' as ->. rewrite lookup_insert_eq. split; [done|].
      rewrite Hreq. cbn. rewrite <- Hsu, (sm_suppressed _ _ Hsame). done.
Qed.

Lemma rotate_state limit start cands offsets : forall added cursor st st' cursor',
  dial_state n0 available st ->
  rotate available limit start added cursor cands offsets st = (st', cursor') ->
  dial_state n0 available st'.
Proof.
  induction offsets as [|o offsets IH]; intros added cursor st st' cursor' Hst Hr;
    cbn [rotate] in Hr; [by injection Hr as <- _|].
  destruct (negb _); [by injection Hr as <- _|].
  destruct (cands !! _) as [c|]; [|by injection Hr as <- _].
  destruct (reserve available st c) as [st1 ok] eqn:E.
  pose proof (reserve_state _ _ _ _ Hst E). destruct ok; by eapply IH.
Qed.

Lemma reserveRotating_state limit cursor cands st st' cursor' : dial_state n0 available st ->
  reserveRotating available limit cursor cands st = (st', cursor') -> dial_state n0 available st'.
Proof.
  intros Hst. unfold reserveRotating. destruct (_ || _); [by intros [= <- _]|].
  by apply rotate_state.
Qed.

Lemma set_cursors_same n a b : same_tables n (set_cursors n a b).
Proof. by split. Qed.

Lemma rotate_seeds_state limit cands st : dial_state n0 available st ->
  dial_state n0 available (rotate_seeds available limit cands st).
Proof.
  intros Hst. unfold rotate_seeds. destruct (reserveRotating _ _ _ _ _) as [[n out] cur] eqn:E.
  apply reserveRotating_state in E; [|done]. eapply dial_same; [apply set_cursors_same|done].
Qed.

Lemma rotate_gossip_state limit cands st : dial_state n0 available st ->
  dial_state n0 available (rotate_gossip available limit cands st).
Proof.
  intros Hst. unfold rotate_gossip. destruct (reserveRotating _ _ _ _ _) as [[n out] cur] eqn:E.
  apply reserveRotating_state in E; [|done]. eapply dial_same; [apply set_cursors_same|done].
Qed.
End dial.

Lemma slots_nonneg n : 0 <= slots n.
Proof. unfold slots. lia. Qed.

Lemma reserveDial_state n : node_inv n -> n_nextToken n + maxPeers < two64 ->
  dial_state n (Z.max 0 (dial_slots n)) (reserveDialCandidates n).
Proof.
  intros Hn Hbig. unfold reserveDialCandidates.
  destruct (Z.leb_spec (dial_slots n) 0) as [|Hpos].
  { split; cbn [fst snd length]; try done; try lia. by intros r ?%elem_of_nil. }
  rewrite Z.max_r by lia. pose proof (slots_nonneg n).
  destruct (available_of n (n_seedTargets n)) as [n1 seeds] eqn:E1.
  destruct (available_of n1 _) as [n2 gossip] eqn:E2.
  apply available_of_same in E1, E2.
  assert (Hstart : dial_state n (dial_slots n) (n2, [])).
  { eapply dial_same; [exact E2|]. eapply dial_same; [exact E1|].
    split; cbn [fst snd length]; try done; try lia. by intros r ?%elem_of_nil. }
  assert (Hle : dial_slots n <= dial_slots n) by lia.
  pose proof (rotate_seeds_state n (dial_slots n) Hle Hbig) as Hs.
  pose proof (rotate_gossip_state n (dial_slots n) Hle Hbig) as Hg.
  repeat case_match; auto 10.
Qed.

Lemma reserveDial_inv n : node_inv n -> n_nextToken n + maxPeers < two64 ->
  node_inv (reserveDialCandidates n).1.
Proof. intros Hn Hb. exact (ds_inv _ _ _ (reserveDial_state n Hn Hb)). Qed.

(** ** Peers *)
Lemma remember_same n target dialable key :
  let n' := rememberPeerTargetsLocked n target dialable key in
  n_peers n' = n_peers n /\ n_pending n' = n_pending n /\ n_dialing n' = n_dialing n /\
  n_nextToken n' = n_nextToken n /\ ([] ∉ n_known n -> [] ∉ n_known n').
Proof.
  unfold rememberPeerTargetsLocked. destruct dialable as [|b d]; cbn [is_empty negb andb].
  { repeat case_match; done. }
  repeat case_match; cbn; split_and!; try done; set_solver.
Qed.

Lemma node_inv_tables n n' :
  n_peers n' = n_peers n -> n_pending n' = n_pending n -> n_dialing n' = n_dialing n ->
  n_nextToken n' = n_nextToken n -> ([] ∉ n_known n -> [] ∉ n_known n') ->
  node_inv n -> node_inv n'.
Proof.
  intros Hp Hq Hd Ht Hk [].
  split; unfold slots, inbound_peers, count_pending in *; rewrite ?Hp, ?Hq, ?Hd, ?Ht; auto.
Qed.

Lemma remember_inv n target dialable key : node_inv n ->
  node_inv (rememberPeerTargetsLocked n target dialable key).
Proof.
  destruct (remember_same n target dialable key) as (? & ? & ? & ? & ?). by apply node_inv_tables.
Qed.

(** Adding a peer in the slot its reservation leaves. *)
Lemma set_peers_inv n n1 r key p : node_inv n -> releaseHandshakeLocked n r = (n1, true) ->
  p_outbound p = negb (is_empty (hr_target r)) ->
  node_inv (set_peers n1 (<[key := p]> (n_peers n1))).
Proof.
  intros Hn Hr Hp. pose proof (release_inv n r Hn) as Hn1. rewrite Hr in Hn1. cbn [fst] in Hn1.
  destruct (release_counts _ _ _ Hr) as (Hs & Hi & Hc).
  pose proof (Hc inbound_pending) as Hci. unfold inbound_pending at 2 in Hci.
  pose proof (size_insert_le (n_peers n1) key p) as Hsz.
  pose proof (countm_insert (fun q => negb (p_outbound q)) (n_peers n1) key p) as Hcp.
  unfold countm in Hcp. rewrite Hp, negb_involutive in Hcp.
  destruct Hn1. pose proof (ni_slots _ Hn). pose proof (ni_reserved _ Hn).
  split; cbn [set_peers n_known n_pending n_nextToken n_dialing]; try done.
  - unfold slots in *. cbn [set_peers n_peers n_pending]. lia.
  - unfold inbound_peers in *. cbn [set_peers n_peers] in *.
    change (count_pending inbound_pending (set_peers n1 _)) with (count_pending inbound_pending n1).
    destruct (is_empty (hr_target r)); lia.
Qed.

Lemma registerPeer_inv n r key dialable p : node_inv n ->
  node_inv (registerPeer n r key dialable p).1.1.
Proof.
  intros Hn. unfold registerPeer. pose proof (release_inv n r Hn) as Hn1.
  destruct (releaseHandshakeLocked n r) as [n1 [|]] eqn:Er; cbn [fst negb] in *; [|done].
  pose proof (set_peers_inv n n1 r key (set_outbound p (negb (is_empty (hr_target r)))) Hn Er eq_refl)
    as Hset.
  destruct (n_peers n1 !! key) as [existing|].
  - set (same := _ && _). destruct same.
    + destruct (negb (canReplaceConcurrentDuplicate _ _)); [by apply remember_inv|]. cbn [fst].
      destruct (remember_same n1 (hr_target r) dialable key) as (Hp & Hq & Hd & Ht & Hk).
      eapply node_inv_tables; [..|exact Hset]; cbn [set_peers n_peers n_pending n_dialing
        n_nextToken n_known]; congruence || done.
    + by destruct (negb (canReplaceConcurrentDuplicate _ _)).
  - destruct (_ >=? _); [done|]. cbn [fst]. by apply remember_inv.
Qed.

Lemma unregisterPeer_inv n key owner : node_inv n -> node_inv (unregisterPeer n key owner).1.
Proof.
  intros Hn. unfold unregisterPeer. destruct (negb _); [done|]. cbn [fst].
  assert (Hsz : (size (delete key (n_peers n)) <= size (n_peers n))%nat)
    by (rewrite map_size_delete; destruct (n_peers n !! key); cbn; lia).
  pose proof (countm_delete_le (fun q => negb (p_outbound q)) (n_peers n) key) as Hcp.
  unfold countm in Hcp. destruct Hn.
  split; unfold slots, inbound_peers, count_pending in *;
    cbn [set_targets set_peers n_peers n_pending n_known n_nextToken n_dialing] in *; try done; lia.
Qed.

Lemma suppress_inv targets : forall n, node_inv n -> node_inv (suppressSelfTargets n targets).
Proof.
  unfold suppressSelfTargets. induction targets as [|t targets IH]; intros n Hn; [done|]. cbn.
  apply IH. destruct (is_empty t); [done|]. eapply node_inv_tables; [..|exact Hn]; try done.
  cbn. set_solver.
Qed.

Lemma note_height_inv n p h : node_inv n -> node_inv (note_height n p h).
Proof.
  intros Hn. unfold note_height. destruct (n_peers n !! p_addr p) as [q|] eqn:Eq; [|done].
  destruct (_ =? _); [|done].
  assert (Hsz : size (<[p_addr p := notePeerHeight q h]> (n_peers n)) = size (n_peers n))
    by (by rewrite map_size_insert, Eq).
  assert (Hcp : (countm (fun q => negb (p_outbound q)) (<[p_addr p := notePeerHeight q h]> (n_peers n))
                 <= countm (fun q => negb (p_outbound q)) (n_peers n))%nat).
  { rewrite <- insert_delete_eq.
    pose proof (countm_delete (fun q => negb (p_outbound q)) (n_peers n) _ _ Eq) as Hd.
    pose proof (countm_insert (fun q => negb (p_outbound q)) (delete (p_addr p) (n_peers n))
                  (p_addr p) (notePeerHeight q h)) as Hi.
    cbv beta in Hd, Hi. replace (p_outbound (notePeerHeight q h)) with (p_outbound q) in Hi; [lia|].
    unfold notePeerHeight. repeat case_match; done. }
  unfold countm in Hcp. destruct Hn.
  split; unfold slots, inbound_peers, count_pending in *;
    cbn [set_peers n_peers n_pending n_known n_nextToken n_dialing] in *; try done; lia.
Qed.

Section net.
Context `{NetText} `{!NetTextLaws}.

Lemma normalizeDialTarget_nonempty a t : normalizeDialTarget a = Some t -> t <> [].
Proof.
  unfold normalizeDialTarget. intros Ha. repeat case_match; simplify_eq;
    apply JoinHostPort_nonempty.
Qed.

Lemma normalizeGossipAddress_nonempty a t : normalizeGossipAddress a = Some t -> t <> [].
Proof.
  unfold normalizeGossipAddress. intros Ha. repeat case_match; simplify_eq;
    apply JoinHostPort_nonempty.
Qed.

Lemma add_seed_inv n s : node_inv n -> node_inv (add_seed n s).
Proof.
  intros Hn. unfold add_seed. destruct (normalizeDialTarget s) as [t|] eqn:Et; [|done].
  apply normalizeDialTarget_nonempty in Et.
  repeat case_match; try done; (eapply node_inv_tables; [..|exact Hn]; try done; cbn; set_solver).
Qed.

Lemma learn_addr_inv n a : node_inv n -> node_inv (learn_addr n a).
Proof.
  intros Hn. unfold learn_addr. destruct (normalizeGossipAddress a) as [t|] eqn:Et; [|done].
  apply normalizeGossipAddress_nonempty in Et.
  repeat case_match; try done; (eapply node_inv_tables; [..|exact Hn]; try done; cbn; set_solver).
Qed.
End net.

(** ** The handshake *)
Section handshake.
Context `{Crypto} `{NetText}.

Lemma registerPeer_spec n r key dialable p n' ok closed :
  n_pending n !! hr_token r = Some r -> registerPeer n r key dialable p = (n', ok, closed) ->
  n_pending n' = delete (hr_token r) (n_pending n) /\ n_suppressed n' = n_suppressed n /\
  if ok then n_peers n' = <[key := set_outbound p (negb (is_empty (hr_target r)))]> (n_peers n) /\
             closed = p_conn <$> n_peers n !! key
  else n_peers n' = n_peers n.
Proof.
  intros Hr. unfold registerPeer. destruct (releaseHandshakeLocked n r) as [n1 b] eqn:Er.
  assert (b = true) as ->.
  { unfold releaseHandshakeLocked in Er. rewrite bool_decide_eq_true_2 in Er by done. by simplify_eq. }
  apply release_spec in Er as (_ & Hp & _ & Hs & _ & Hq). cbn [negb].
  set (q := set_outbound p _).
  assert (Hrem : forall n t d k, n_peers (rememberPeerTargetsLocked n t d k) = n_peers n /\
            n_pending (rememberPeerTargetsLocked n t d k) = n_pending n /\
            n_suppressed (rememberPeerTargetsLocked n t d k) = n_suppressed n).
  { intros m t d k. unfold rememberPeerTargetsLocked. repeat case_match; done. }
  destruct (n_peers n1 !! key) as [existing|] eqn:Ek; rewrite <- Hp in *.
  - set (n2 := if _ && _ then _ else _).
    assert (H2 : n_peers n2 = n_peers n1 /\ n_pending n2 = n_pending n1 /\
                 n_suppressed n2 = n_suppressed n1) by (subst n2; destruct (_ && _); [apply Hrem|done]).
    destruct H2 as (Hp2 & Hq2 & Hs2).
    destruct (canReplaceConcurrentDuplicate existing q); cbn [negb]; intros [= <- <- <-]; cbn.
    + rewrite Hq2, Hs2, Hp2, Ek. done.
    + rewrite Hq2, Hs2. done.
  - destruct (_ >=? _); intros [= <- <- <-]; cbn; [done|].
    destruct (Hrem (set_peers n1 (<[key := q]> (n_peers n1))) (hr_target r) dialable key)
      as (-> & -> & ->). cbn. rewrite Ek. done.
Qed.

Lemma suppress_tables targets : forall n,
  n_pending (suppressSelfTargets n targets) = n_pending n /\
  n_peers (suppressSelfTargets n targets) = n_peers n /\
  forall t, t ∈ n_suppressed (suppressSelfTargets n targets) <->
            t ∈ n_suppressed n \/ (t <> [] /\ t ∈ targets).
Proof.
  unfold suppressSelfTargets. induction targets as [|t targets IH]; intros n; cbn.
  { split_and!; try done. intros t. set_solver. }
  destruct (IH (if is_empty t then n else
    set_targets (set_known (set_suppressed n ({[t]} ∪ n_suppressed n)) (n_known n ∖ {[t]}))
      (delete t (n_targets n)))) as (Hp & Hq & Hs).
  split_and!; [rewrite Hp|rewrite Hq|intros u; rewrite Hs]; destruct t; cbn; try done; set_solver.
Qed.

Lemma release_pending n r : n_pending n !! hr_token r = Some r \/ n_pending n !! hr_token r = None ->
  let n' := (releaseHandshakeLocked n r).1 in
  n_pending n' = delete (hr_token r) (n_pending n) /\ n_peers n' = n_peers n /\
  n_suppressed n' = n_suppressed n.
Proof.
  intros Hr. unfold releaseHandshakeLocked. destruct (bool_decide_reflect (n_pending n !! hr_token r = Some r));
    [done|]. destruct Hr as [|Hr]; [done|]. by rewrite delete_id.
Qed.

(** Every exit of the handshake. *)
Definition settled (n : Node) (c : Chain) (r : handshakeReservation) (cn : connection)
    (out : Node * option (peer * Msg) * option Z) : Prop :=
  let n' := out.1.1 in
  n_pending n' = delete (hr_token r) (n_pending n) /\
  match out.1.2 with
  | None => n_peers n' = n_peers n
  | Some (p, hello) =>
      cn_hello cn = Ok hello /\ m_Type hello = bs "hello" /\ m_Magic hello = NetMagic (c_params c) /\
      normalizeHandshakeID (m_NodeID hello) <> Some (n_nodeID n) /\
      n_peers n' = <[p_addr p := p]> (n_peers n) /\
      out.2 = p_conn <$> n_peers n !! p_addr p /\ p_conn p = cn_conn cn /\
      p_outbound p = negb (is_empty (hr_target r))
  end.

Lemma handshake_settled send n c r cn :
  n_pending n !! hr_token r = Some r -> settled n c r cn (handshake send n c r cn).
Proof.
  intros Hr. assert (Hleave : settled n c r cn ((releaseHandshakeLocked n r).1, None, None)).
  { destruct (release_pending n r (or_introl Hr)) as (Hp & Hq & _). by split. }
  unfold handshake. destruct (cn_deadline cn); cbn [negb]; [|done]. destruct (send _); [done|].
  destruct (cn_hello cn) as [hello|] eqn:Eh; [|done].
  destruct (negb _ || negb _) eqn:Et; [done|]. bool_prop.
  cbv zeta. set (dialable := default [] _). case_bool_decide as Eself.
  - destruct (suppress_tables [hr_target r; dialable] n) as (Hp & Hq & _).
    destruct (release_pending (suppressSelfTargets n [hr_target r; dialable]) r) as (Hp' & Hq' & _);
      [left; by rewrite Hp|]. split; cbn [fst snd]; [by rewrite Hp', Hp|by rewrite Hq', Hq].
  - destruct (cn_clearDeadline cn); cbn [negb]; [|done]. set (p := mkPeer _ _ _ _ _ _ _).
    destruct (registerPeer n r _ dialable p) as [[n1 ok] closed] eqn:Er.
    apply registerPeer_spec in Er as (Hp & Hs & Hok); [|done].
    destruct ok; cbn [negb].
    + destruct Hok as [Hpeers ->]. split; [done|]. cbn. done.
    + destruct (release_pending n1 r) as (Hp' & Hq' & _); [right; by rewrite Hp, lookup_delete_eq|].
      split; cbn [fst snd]; 
        [by rewrite Hp', Hp, delete_id by apply lookup_delete_eq|by rewrite Hq'].
Qed.

Lemma handshake_inv send n c r cn : node_inv n -> node_inv (handshake send n c r cn).1.1.
Proof.
  intros Hn. pose proof (release_inv n r Hn) as Hl.
  unfold handshake. destruct (cn_deadline cn); cbn [negb]; [|done]. destruct (send _); [done|].
  destruct (cn_hello cn) as [hello|]; [|done]. destruct (negb _ || negb _); [done|].
  cbv zeta. case_bool_decide; cbn [fst]; [by apply release_inv, suppress_inv|].
  destruct (cn_clearDeadline cn); cbn [negb]; [|done].
  destruct (registerPeer _ _ _ _ _) as [[n1 ok] closed] eqn:Er.
  assert (Hreg : node_inv n1) by (change n1 with (n1, ok, closed).1.1; rewrite <- Er;
    by apply registerPeer_inv).
  destruct ok; [done|by apply release_inv].
Qed.

(** A connection of the node to itself is dropped and its targets are suppressed. *)
Lemma handshake_self send n c r cn hello :
  n_pending n !! hr_token r = Some r ->
  cn_deadline cn = true -> send (hello_msg n (NetMagic (c_params c)) (Tip c).2 (cn_localNonce cn)) = None ->
  cn_hello cn = Ok hello -> m_Type hello = bs "hello" -> m_Magic hello = NetMagic (c_params c) ->
  normalizeHandshakeID (m_NodeID hello) = Some (n_nodeID n) -> hr_target r <> [] ->
  (handshake send n c r cn).1.2 = None /\
  hr_target r ∈ n_suppressed (handshake send n c r cn).1.1.
Proof.
  intros Hr Hd Hs Hh Ht Hm Hid Htar. unfold handshake. rewrite Hd. cbn [negb]. rewrite Hs, Hh.
  rewrite (bool_decide_eq_true_2 (m_Type hello = _)), Hm, Z.eqb_refl by done. cbn [negb orb].
  cbv zeta. set (dialable := default [] _).
  rewrite (bool_decide_eq_true_2 (normalizeHandshakeID _ = _)) by done. cbn [fst snd].
  split; [done|]. destruct (suppress_tables [hr_target r; dialable] n) as (Hp & _ & Hsup).
  destruct (release_pending (suppressSelfTargets n [hr_target r; dialable]) r) as (_ & _ & ->);
    [left; by rewrite Hp|]. apply Hsup. right. split; [done|]. left.
Qed.

Lemma share_addrs_spec order : forall addrs, (length addrs < 16)%nat ->
  (length (share_addrs order addrs) <= 16)%nat /\
  forall a, a ∈ share_addrs order addrs -> a ∈ addrs \/ exists k, k ∈ order /\ normalizeGossipAddress k = Some a.
Proof.
  induction order as [|k order IH]; intros addrs Hlen; cbn [share_addrs]; [split; [lia|auto]|].
  set (next := match normalizeGossipAddress k with Some _ => _ | None => _ end).
  assert (Hn : (length next <= 16)%nat /\ forall a, a ∈ next -> a ∈ addrs \/ normalizeGossipAddress k = Some a).
  { subst next. destruct (normalizeGossipAddress k) as [a|]; [|split; [lia|auto]].
    rewrite length_app. cbn. split; [lia|]. intros b [Hb|Hb%list_elem_of_singleton]%elem_of_app; [auto|].
    right. congruence. }
  destruct Hn as [Hl Hin]. rewrite Z.geb_leb. destruct (Z.leb_spec 16 (Z.of_nat (length next))).
  - split; [done|]. intros a [?|?]%Hin; [auto|]. right. exists k. split; [left|done].
  - destruct (IH next) as [Hb Hall]; [lia|]. split; [done|]. intros a Ha.
    destruct (Hall a Ha) as [[?|?]%Hin|(k' & ? & ?)]; [auto| |].
    + right. exists k. split; [left|done].
    + right. exists k'. split; [by right|done].
Qed.
End handshake.
