(* ===== verification/P2pSync.v ===== *)
(** * Block download between two nodes

    What a [getblocks] request returns, and the exchange of requests and blocks by
    which a node catches up with a peer. *)
From S2P Require Import Prelude Text Params Crypto Pow Wire Merkle Chain ChainInv ChainView.
From S2P Require Import Store StoreProofs P2p.

Section batches.
Context `{Crypto}.

Lemma collect_bounds chain fuel : forall i h total batch out,
  collect fuel chain i h total batch = Ok out ->
  total = sumZ ((fun e => Z.of_nat (length e.2)) <$> batch) ->
  (Z.of_nat (length batch) <= 1 \/ total <= blockBatchBytes) ->
  exists new, out = batch ++ new /\ (length new <= fuel)%nat /\
    new.*1 = seqZ h (Z.of_nat (length new)) /\
    (forall k e, new !! k = Some e -> exists blk,
       BlockAt (chain (i + k)%nat) e.1 = Ok (Some blk) /\ e.2 = Block_Bytes blk) /\
    (Z.of_nat (length out) <= 1 \/ sumZ ((fun e => Z.of_nat (length e.2)) <$> out) <= blockBatchBytes).
Proof.
  induction fuel as [|fuel IH]; intros i h total batch out Hc Ht Hb; cbn [collect] in Hc.
  { apply Ok_inj in Hc as <-. exists []. rewrite app_nil_r, <- Ht.
    split_and!; try done. }
  apply bind_Ok in Hc as ([blk|] & Hblk & Hc).
  2:{ apply Ok_inj in Hc as <-. exists []. rewrite app_nil_r, <- Ht. split_and!; try done. cbn; lia. }
  destruct (negb _ && _) eqn:Eb.
  { apply Ok_inj in Hc as <-. exists []. rewrite app_nil_r, <- Ht. split_and!; try done. cbn; lia. }
  apply IH in Hc as (new & -> & Hlen & Hseq & Hbl & Hbound).
  - exists ((h, Block_Bytes blk) :: new). rewrite <- app_assoc. cbn [app length] in *.
    split_and!; [done|lia| | |by rewrite <- app_assoc in Hbound].
    + cbn [fmap list_fmap]. rewrite (seqZ_cons h) by lia. cbn [fst]. f_equal.
      rewrite Nat2Z.inj_succ, Z.pred_succ. replace (Z.succ h) with (h + 1) by lia. exact Hseq.
    + intros [|k] e He; cbn in He.
      * simplify_eq. exists blk. by rewrite Nat.add_0_r.
      * destruct (Hbl k e He) as (b' & Hb' & He'). exists b'. split; [|done].
        by replace (i + S k)%nat with (S i + k)%nat by lia.
  - rewrite fmap_app, sumZ_app, <- Ht. cbn. lia.
  - rewrite length_app. cbn [length].
    apply andb_false_iff in Eb as [Eb|Eb].
    + apply negb_false_iff, Nat.eqb_eq in Eb. left. lia.
    + rewrite Z.gtb_ltb in Eb. bool_prop. by right.
Qed.

Lemma BlockAt_inv p c l h : chain_inv p c -> branch p (c_index c) (c_tip c) l ->
  BlockAt c h = Ok (if h <? 0 then None else bi_block <$> l !! Z.to_nat h).
Proof.
  intros Hc Hb. pose proof (branch_length _ _ _ _ Hb) as Hlen. unfold BlockAt.
  destruct (ci_main _ _ Hc) as (l' & Hb' & Hids & _).
  rewrite (branch_unique _ _ _ _ _ Hb' Hb) in Hids. rewrite Hids, length_fmap, Z.geb_leb.
  destruct (Z.ltb_spec h 0); [done|]. cbn [orb].
  destruct (Z.leb_spec (Z.of_nat (length l)) h).
  - by rewrite lookup_ge_None_2 by lia.
  - destruct (main_at_spec p c l h Hc Hb) as (bi & -> & ->); [lia|done].
Qed.

Lemma collect_defined p chain fuel : (forall i, chain_inv p (chain i)) -> forall i h total batch,
  exists out, collect fuel chain i h total batch = Ok out.
Proof.
  intros Hc. induction fuel as [|fuel IH]; intros i h total batch; cbn [collect]; [eauto|].
  destruct (ci_main _ _ (Hc i)) as (l & Hb & _). rewrite (BlockAt_inv p _ l) by done.
  cbn [mbind result_bind]. destruct (if h <? 0 then _ else _); [|eauto].
  destruct (_ && _); eauto.
Qed.

Lemma collect_app chain fuel : forall i h total batch out,
  collect fuel chain i h total batch = Ok out -> exists new, out = batch ++ new.
Proof.
  induction fuel as [|fuel IH]; intros i h total batch out Hc; cbn [collect] in Hc.
  { apply Ok_inj in Hc as <-. exists []. by rewrite app_nil_r. }
  apply bind_Ok in Hc as ([blk|] & _ & Hc); [destruct (_ && _)|].
  2: apply IH in Hc as [new ->]; exists ((h, Block_Bytes blk) :: new); by rewrite <- app_assoc.
  all: apply Ok_inj in Hc as <-; exists []; by rewrite app_nil_r.
Qed.

Lemma collect_first chain fuel i h total blk out :
  BlockAt (chain i) h = Ok (Some blk) -> collect (S fuel) chain i h total [] = Ok out ->
  exists rest, out = (h, Block_Bytes blk) :: rest.
Proof.
  intros Hb Hc. cbn [collect] in Hc. rewrite Hb in Hc. cbn in Hc.
  by apply collect_app in Hc as [new ->]; exists new.
Qed.

(** The message for each block of a batch. *)
Definition has_block (c : Chain) (h : Z) : bool :=
  match BlockAt c h with Ok (Some _) => true | _ => false end.
Definition batch_msg (after : Chain) (batch : list (Z * bytes)) (k : nat) (e : Z * bytes) : Msg :=
  block_msg e.2 e.1 (bool_decide (S k = length batch) && has_block after (e.1 + 1)).

Lemma send_batch_spec p send after batch : chain_inv p after ->
  (forall k e, batch !! k = Some e -> send (batch_msg after batch k e) = None) ->
  send_batch send after batch = Ok (imap (batch_msg after batch) batch, None).
Proof.
  intros Hc. induction batch as [|[h raw] batch IH]; intros Hsend; [done|].
  cbn [send_batch imap]. destruct (ci_main _ _ Hc) as (l & Hb & _).
  assert (Hm : (if (length batch =? 0)%nat
                then next ← BlockAt after (h + 1); Ok (bool_decide (is_Some next)) else Ok false)
               = Ok (bool_decide (1%nat = length ((h, raw) :: batch)) && has_block after (h + 1))).
  { unfold has_block. rewrite (BlockAt_inv p _ l) by done. cbn [length].
    destruct (Nat.eqb_spec (length batch) 0) as [->|Hne].
    - rewrite bool_decide_eq_true_2 by done. cbn [mbind result_bind andb].
      by destruct (if h + 1 <? 0 then _ else _).
    - by rewrite bool_decide_eq_false_2 by lia. }
  rewrite Hm. cbn [mbind result_bind].
  pose proof (Hsend 0%nat (h, raw) eq_refl) as H0. unfold batch_msg at 1 in H0. cbn [fst snd] in H0.
  rewrite H0, IH.
  - cbn [mbind result_bind]. f_equal. f_equal. f_equal. apply imap_ext.
    intros k e _. unfold batch_msg, compose. f_equal. f_equal. cbn [length].
    apply bool_decide_ext. lia.
  - intros k e He. rewrite <- (Hsend (S k) e He). f_equal. unfold batch_msg. f_equal. f_equal.
    cbn [length]. apply bool_decide_ext. lia.
Qed.

(** The state reads of a batch are defined on reachable chains. *)
Lemma send_batch_defined p send after batch : chain_inv p after ->
  exists sent err, send_batch send after batch = Ok (sent, err) /\
    forall e, err = Some e -> exists m, send m = Some e.
Proof.
  intros Hc. destruct (ci_main _ _ Hc) as (l & Hb & _).
  induction batch as [|[h raw] batch (sent & err & IH & He)]; [by eexists _, _|]. cbn [send_batch].
  destruct (if (length batch =? 0)%nat then _ else _) as [more|e] eqn:Em.
  - cbn [mbind result_bind]. destruct (send _) as [e|] eqn:Es.
    + eexists _, _. split; [done|]. intros ? [= <-]. eauto.
    + rewrite IH. eexists _, _. split; [done|exact He].
  - destruct (_ =? 0)%nat; [|done]. by rewrite (BlockAt_inv p _ l) in Em by done.
Qed.
End batches.

(** ** A request for blocks *)
Section download.
Context `{Crypto} `{NetText} (p : Params).

(** Every main-chain block of [c] can be sent. *)
Definition sendable (send : Msg -> option error) (c : Chain) : Prop :=
  forall h blk more, BlockAt c h = Ok (Some blk) -> send (block_msg (Block_Bytes blk) h more) = None.

(** The [k]-th block message of an answer to a request from height [from]. *)
Definition answers (l : list blockIndex) (from : Z) (sent : list Msg) : Prop :=
  forall k m, sent !! k = Some m -> exists bi,
    0 <= from /\ l !! (Z.to_nat from + k)%nat = Some bi /\
    m = block_msg (Block_Bytes (bi_block bi)) (from + Z.of_nat k)
          (bool_decide (S k = length sent) && (from + Z.of_nat (length sent) <? Z.of_nat (length l))).

Lemma handle_getblocks send n c now pr m :
  m_Type m = bs "getblocks" ->
  handleMsg send n c (fun _ => c) c now pr m =
    (batch ← collect (Z.to_nat blockBatchSize) (fun _ => c) 0 (m_From m) 0 [];
     '(sent, err) ← send_batch send c batch;
     Ok (mkHandled n c sent [] err)).
Proof. intros Ht. unfold handleMsg. by rewrite Ht. Qed.

Lemma has_block_branch c l h : chain_inv p c -> branch p (c_index c) (c_tip c) l -> 0 <= h ->
  has_block c h = (h <? Z.of_nat (length l)).
Proof.
  intros Hc Hb Hh. unfold has_block. rewrite (BlockAt_inv p _ l) by done.
  rewrite (proj2 (Z.ltb_ge _ _)) by lia. destruct (Z.ltb_spec h (Z.of_nat (length l))).
  - by destruct (lookup_lt_is_Some_2 l (Z.to_nat h)) as [bi ->]; [lia|].
  - by rewrite lookup_ge_None_2 by lia.
Qed.

Lemma getblocks_spec send n c l now pr m :
  chain_inv p c -> branch p (c_index c) (c_tip c) l -> sendable send c ->
  m_Type m = bs "getblocks" ->
  exists sent, handleMsg send n c (fun _ => c) c now pr m = Ok (mkHandled n c sent [] None) /\
    Z.of_nat (length sent) <= 64 /\
    (Z.of_nat (length sent) <= 1 \/
     sumZ ((fun m => Z.of_nat (length (m_Raw m))) <$> sent) <= blockBatchBytes) /\
    (0 <= m_From m < Z.of_nat (length l) -> sent <> []) /\ answers l (m_From m) sent.
Proof.
  intros Hc Hb Hsend Ht. rewrite (handle_getblocks _ _ _ _ _ _ Ht). set (from := m_From m).
  destruct (collect_defined p (fun _ => c) (Z.to_nat blockBatchSize) (fun _ => Hc) 0 from 0 [])
    as [out Hout]. rewrite Hout. cbn [mbind result_bind].
  destruct (collect_bounds (fun _ => c) _ 0 from 0 [] out Hout eq_refl) as
    (new & -> & Hlen & Hseq & Hblk & Hbound); [left; cbn; lia|]. cbn [app] in *.
  rewrite (send_batch_spec p); [|done|].
  2:{ intros k e He. destruct (Hblk k e He) as (blk & Hat & Hraw). unfold batch_msg. rewrite Hraw.
      by apply Hsend. }
  cbn [mbind result_bind].
  eexists. split; [reflexivity|]. rewrite length_imap. split_and!.
  - change blockBatchSize with 64 in Hlen. lia.
  - destruct Hbound as [|Hs]; [by left|right]. rewrite fmap_imap. unfold compose. cbn.
    assert (He : imap (fun (_ : nat) (x : Z * bytes) => Z.of_nat (length x.2)) new
              = (fun e => Z.of_nat (length e.2)) <$> new) by apply imap_const.
    rewrite He. exact Hs.
  - intros Hr Hnil. apply (f_equal length) in Hnil. rewrite length_imap in Hnil.
    apply nil_length_inv in Hnil. subst new.
    destruct (lookup_lt_is_Some_2 l (Z.to_nat from)) as [bi Hbi]; [lia|].
    eapply collect_first in Hout as [? ?]; [done|]. rewrite (BlockAt_inv p c l) by done.
    rewrite (proj2 (Z.ltb_ge _ _)) by lia. by rewrite Hbi.
  - intros k m' Hk. rewrite list_lookup_imap in Hk. apply fmap_Some in Hk as (e & He & ->).
    destruct (Hblk k e He) as (blk & Hat & Hraw).
    assert (He1 : e.1 = from + Z.of_nat k).
    { pose proof (list_lookup_fmap fst new k) as Hf. rewrite Hseq, He in Hf.
      apply lookup_seqZ in Hf. lia. }
    rewrite (BlockAt_inv p c l) in Hat by done. apply Ok_inj in Hat.
    destruct (Z.ltb_spec e.1 0); [done|]. apply fmap_Some in Hat as (bi & Hbi & ->).
    assert (Hfrom : 0 <= from).
    { destruct new as [|e0 new0]; [done|]. destruct (Hblk 0%nat e0 eq_refl) as (b0 & Hat0 & _).
      rewrite (BlockAt_inv p c l) in Hat0 by done.
      assert (e0.1 = from) as E0.
      { cbn [fmap list_fmap length] in Hseq. rewrite (seqZ_cons from) in Hseq by lia.
        by injection Hseq. }
      rewrite E0 in Hat0. by destruct (Z.ltb_spec from 0). }
    exists bi. split_and!; [done| |].
    + rewrite <- Hbi. f_equal. lia.
    + unfold batch_msg. rewrite Hraw, He1, length_imap. f_equal.
      destruct (bool_decide_reflect (S k = length new)) as [Hk|]; [|done]. cbn [andb].
      rewrite (has_block_branch c l) by (done || lia). f_equal. lia.
Qed.

(** ** The exchange *)
(** A node handles the messages of a peer in the order in which they arrive; the
    last component is what it sends back. *)
Fixpoint deliver (send : Msg -> option error) (now : Z) (pr : peer) (n : Node) (s : Chain)
    (msgs : list Msg) : result (Node * Chain * list Msg) :=
  match msgs with
  | [] => Ok (n, s, [])
  | m :: rest =>
      h ← handleMsg send n s (fun _ => s) s now pr m;
      match hd_error h with
      | Some e => Err e
      | None => '(n, s, out) ← deliver send now pr (hd_node h) (hd_chain h) rest;
                Ok (n, s, hd_sent h ++ out)
      end
  end.

(** [c] is the chain of the peer that serves blocks; it answers a request, the other
    node handles the blocks and sends its next request. *)
Fixpoint download (fuel : nat) (sendS sendC : Msg -> option error) (now : Z) (prS prC : peer)
    (nS : Node) (c : Chain) (nC : Node) (s : Chain) (request : Msg) : result Chain :=
  match fuel with
  | O => Err (EText "more requests")
  | S fuel =>
      h ← handleMsg sendS nS c (fun _ => c) c now prC request;
      '(nC, s, out) ← deliver sendC now prS nC s (hd_sent h);
      match out with
      | [request] => download fuel sendS sendC now prS prC (hd_node h) (hd_chain h) nC s request
      | _ => Ok s
      end
  end.

Lemma handle_block send n s now pr blk h more s' ev :
  wf_block blk -> Z.of_nat (length (Block_Bytes blk)) <= MaxBlockBytes ->
  AcceptBlock s (Some blk) now = (s', Ok ev) ->
  handleMsg send n s (fun _ => s) s now pr (block_msg (Block_Bytes blk) h more) =
    Ok (if more then reply send (note_height n pr h) s' (getblocks_msg (i64 (h + 1)))
        else mkHandled (note_height n pr h) s' [] [] None).
Proof.
  intros Hwf Hsz Ha. unfold handleMsg. cbn [m_Type block_msg].
  repeat (rewrite (bool_decide_eq_false_2 (bs "block" = _)) by discriminate).
  rewrite (bool_decide_eq_true_2 (bs "block" = _)) by done. cbn [m_Height m_Raw m_More block_msg].
  rewrite DecodeBlock_Bytes by (done || lia). rewrite Ha. by destruct more.
Qed.

Section catch_up.
Context (Hpow : pow_params_ok p) (Hval : validateConsensusParams p = Ok tt).
Context (c : Chain) (l : list blockIndex) (now : Z) (sendS sendC : Msg -> option error).
Context (Hc : chain_inv p c) (Hb : branch p (c_index c) (c_tip c) l).
Context (Hsmall : Z.of_nat (length l) < 2 ^ 63).
Context (Hserve : sendable sendS c) (Hask : forall from, sendC (getblocks_msg from) = None).

(** What the downloading node checks of a block besides its place in the branch. *)
Definition relayable (bi : blockIndex) : Prop :=
  wf_block (bi_block bi) /\ CheckPow (bi_header bi) p = true /\
  not_future p (bi_height bi) (hdr_Time (bi_header bi)) now.

Lemma deliver_spec pr more msgs : forall n s l1 l2,
  l = l1 ++ l2 -> l1 <> [] -> holds_branch p l1 s -> Forall relayable l2 ->
  (forall k m, msgs !! k = Some m -> exists bi, l2 !! k = Some bi /\
     m = block_msg (Block_Bytes (bi_block bi)) (Z.of_nat (length l1 + k))
           (bool_decide (S k = length msgs) && more)) ->
  exists n' s', deliver sendC now pr n s msgs =
      Ok (n', s', if negb (length msgs =? 0)%nat && more
                  then [getblocks_msg (Z.of_nat (length l1 + length msgs))] else []) /\
    holds_branch p (l1 ++ take (length msgs) l2) s'.
Proof.
  induction msgs as [|m msgs IH]; intros n s l1 l2 Hl Hne Hs Hall Hm.
  { exists n, s. cbn. by rewrite take_0, app_nil_r. }
  destruct (Hm 0%nat m eq_refl) as (bi & Hbi & ->).
  destruct l2 as [|bi' l2]; [done|]. injection Hbi as ->.
  apply Forall_cons_1 in Hall as [(Hwf & Hcp & Hnf) Hall].
  rewrite Hl in Hb.
  destruct (accept_branch_next p Hpow Hval c s l1 bi l2 true now Hc Hb Hs)
    as (Hlen & Hok & [Hsz _ _] & s1 & Ha & Ht & Hs'); [done|done|].
  cbn [deliver length]. rewrite Nat.add_0_r.
  erewrite handle_block; [|done|done|unfold AcceptBlock; rewrite Ha; reflexivity].
  cbn [mbind result_bind].
  destruct (IH (note_height n pr (Z.of_nat (length l1))) s1 (l1 ++ [bi]) l2)
    as (n' & s' & Hd & Hh); [by rewrite <- app_assoc|by destruct l1|done|done| |].
  { intros k m1 Hk. destruct (Hm (S k) m1 Hk) as (b & Hbk & ->). exists b. split; [done|].
    f_equal; [rewrite length_app; cbn; lia|]. f_equal. cbn [length]. apply bool_decide_ext. lia. }
  exists n', s'. rewrite <- app_assoc in Hh. split; [|exact Hh]. cbn [Nat.eqb negb andb].
  destruct (bool_decide_reflect (1%nat = S (length msgs))) as [Hlast|Hmore]; cbn [andb].
  - assert (msgs = []) as -> by (destruct msgs; [done|cbn in Hlast; lia]).
    destruct more; cbn [hd_error hd_node hd_chain hd_sent].
    + unfold reply. rewrite Hask. cbn [hd_error hd_node hd_chain hd_sent]. rewrite Hd.
      cbn [mbind result_bind length Nat.eqb negb andb app]. do 2 f_equal. f_equal. f_equal.
      apply (f_equal length) in Hl. rewrite length_app in Hl. cbn in Hl.
      rewrite i64_small by (unfold in_i64, two63; lia). lia.
    + rewrite Hd. done.
  - cbn [hd_error hd_node hd_chain hd_sent]. rewrite Hd. cbn [mbind result_bind app]. do 2 f_equal.
    rewrite (proj2 (Nat.eqb_neq (length msgs) 0)) by lia. cbn [negb andb].
    destruct more; [|done]. f_equal. f_equal. rewrite length_app. cbn. lia.
Qed.

Lemma download_spec prS prC nS fuel : forall nC s l1 l2 request,
  l = l1 ++ l2 -> l1 <> [] -> holds_branch p l1 s -> Forall relayable l2 ->
  m_Type request = bs "getblocks" -> m_From request = Z.of_nat (length l1) ->
  (length l2 < fuel)%nat ->
  exists s', download fuel sendS sendC now prS prC nS c nC s request = Ok s' /\ holds_branch p l s'.
Proof.
  induction fuel as [|fuel IH]; intros nC s l1 l2 request Hl Hne Hs Hall Ht Hfrom Hfuel; [lia|].
  destruct (getblocks_spec sendS nS c l now prC request Hc Hb Hserve Ht)
    as (sent & Hh & _ & _ & Hnil & Hans). cbn [download]. rewrite Hh.
  cbn [mbind result_bind hd_sent hd_node hd_chain].
  assert (Hlen : length l = (length l1 + length l2)%nat) by (by rewrite Hl, length_app).
  set (more := Z.of_nat (length l1 + length sent) <? Z.of_nat (length l)).
  destruct (deliver_spec prS more sent nC s l1 l2 Hl Hne Hs Hall) as (n' & s' & Hd & Hh').
  { intros k m Hk. destruct (Hans k m Hk) as (bi & _ & Hbi & ->). exists bi.
    rewrite Hfrom, Hl, Nat2Z.id, lookup_app_r in Hbi by lia. split; [rewrite <- Hbi; f_equal; lia|].
    rewrite Hfrom. f_equal; [lia|]. subst more. f_equal. f_equal. lia. }
  rewrite Hd. cbn [mbind result_bind]. destruct l2 as [|bi l2].
  { assert (more = false) as -> by (subst more; apply Z.ltb_ge; cbn in Hlen; lia).
    rewrite andb_false_r. exists s'. split; [done|].
    by rewrite take_nil, app_nil_r in Hh'; rewrite Hl, app_nil_r. }
  assert (Hpos : (0 < length sent)%nat).
  { destruct sent; [|cbn; lia]. exfalso. apply Hnil; [|done]. rewrite Hfrom, Hlen. cbn. lia. }
  rewrite (proj2 (Nat.eqb_neq (length sent) 0)) by lia. cbn [negb andb].
  destruct more eqn:Hm; subst more.
  - apply Z.ltb_lt in Hm.
    apply (IH n' s' (l1 ++ take (length sent) (bi :: l2)) (drop (length sent) (bi :: l2))).
    + by rewrite <- app_assoc, take_drop.
    + by destruct l1.
    + done.
    + by apply Forall_drop.
    + done.
    + cbn [m_From getblocks_msg]. rewrite length_app, length_take. lia.
    + rewrite length_drop. cbn [length] in *. lia.
  - apply Z.ltb_ge in Hm. exists s'. split; [done|].
    rewrite take_ge in Hh' by lia. by rewrite Hl.
Qed.
End catch_up.
End download.
