(* ===== verification/CoreTheorems.v ===== *)
(** * What the encodings, hashes and difficulty rules guarantee

    The theorems about the codecs of core/tx.go and core/block.go, addresses,
    Merkle branches, signatures, the compact difficulty encoding, the retarget
    rules and the genesis block. *)
From S2P Require Import Prelude Params Crypto Pow Wire Merkle Address Chain Toy.

(** Decoding the base58 encoding of any byte string, leading
    zero bytes included, gives the string back. *)
Theorem base58_round_trip b : base58Decode (base58Encode b) = Ok b.
Proof. apply base58_roundtrip. Qed.

(** [DecodeAddress] accepts every address produced by
    [EncodeAddress] and returns its key hash; hence distinct key hashes have
    distinct addresses. *)
Theorem address_round_trip `{CryptoLaws} pkh1 pkh2 :
  length pkh1 = 20%nat -> length pkh2 = 20%nat ->
  DecodeAddress (EncodeAddress pkh1) = Ok pkh1 /\
  (EncodeAddress pkh1 = EncodeAddress pkh2 -> pkh1 = pkh2).
Proof.
  intros H1 H2. split; [by apply address_roundtrip|]. intros He.
  apply Ok_inj. rewrite <- (address_roundtrip pkh1), <- (address_roundtrip pkh2) by done.
  by rewrite He.
Qed.

Lemma address_round_trip_witness :
  DecodeAddress (EncodeAddress (Toy.pkh_of Toy.alice)) = Ok (Toy.pkh_of Toy.alice) /\
  EncodeAddress (Toy.pkh_of Toy.alice) <> EncodeAddress (Toy.pkh_of Toy.bob).
Proof.
  destruct (address_round_trip (Toy.pkh_of Toy.alice) (Toy.pkh_of Toy.bob)) as [Hd Hi].
  - reflexivity.
  - reflexivity.
  - split; [exact Hd|]. intros He. apply Hi in He. vm_compute in He. discriminate He.
Defined.

(** An address in which one letter is replaced by a two-byte rune whose low byte
    is that letter. *)
Definition disguise (s : bytes) : bytes :=
  flat_map (fun c => if bool_decide (b2z c = 0x41) then [z2b 0xC5; z2b 0x81] else [c]) s.

(** The decoder truncates runes to bytes, so it also
    accepts strings that are not base58: replacing the letter A of an address by
    the rune U+0141 gives a different string that decodes to the same key hash. *)
Theorem address_accepts_non_ascii :
  let addr := EncodeAddress (Toy.pkh_of Toy.bob) in
  disguise addr <> addr /\ DecodeAddress (disguise addr) = Ok (Toy.pkh_of Toy.bob).
Proof. split; vm_compute; [discriminate|reflexivity]. Qed.

(** [DecodeTx] inverts the transaction encoding on every
    transaction within the decoder's limits, so the encoding that is hashed into
    the transaction id is injective. *)
Theorem tx_codec_round_trip t1 t2 :
  wf_tx t1 -> wf_tx t2 ->
  DecodeTx (Tx_Bytes t1) = Ok t1 /\ (Tx_Bytes t1 = Tx_Bytes t2 -> t1 = t2).
Proof.
  intros H1 H2. split; [by apply DecodeTx_Bytes|]. by apply Tx_Bytes_inj.
Qed.

Lemma coinbase_wf h : wf_tx (Toy.coinbase h Toy.alice).
Proof.
  apply NewCoinbase_wf; [|apply length_PubKeyHash20|cbn; lia].
  pose proof (SubsidyAt_nonneg h). pose proof (SubsidyAt_le_initial h).
  unfold in_i64, two63, InitialRewardUnits, UnitsPerCoin in *. lia.
Qed.

Lemma tx_codec_round_trip_witness :
  DecodeTx (Tx_Bytes (Toy.coinbase 7 Toy.alice)) = Ok (Toy.coinbase 7 Toy.alice).
Proof.
  apply (tx_codec_round_trip (Toy.coinbase 7 Toy.alice) (Toy.coinbase 8 Toy.alice)).
  - apply coinbase_wf.
  - apply coinbase_wf.
Defined.

(** [DecodeBlock] inverts the block encoding on every
    well-formed block within the size limit of the decoder, with no trailing
    bytes left. *)
Theorem block_codec_round_trip b :
  wf_block b -> Z.of_nat (length (Block_Bytes b)) <= MaxBlockBytes + 16 ->
  DecodeBlock (Block_Bytes b) = Ok b.
Proof. apply DecodeBlock_Bytes. Qed.

Lemma toy_block_wf : wf_block Toy.b1.
Proof.
  assert (Ht : wf_tx (Toy.coinbase 1 Toy.alice)) by apply coinbase_wf.
  change Toy.b1 with (Toy.block_on (genesis_index RegTest) (Toy.coinbase 1 Toy.alice) []).
  split.
  - split; try (vm_compute; split; congruence); vm_compute; reflexivity.
  - cbn. lia.
  - by repeat constructor.
Qed.

Lemma block_codec_round_trip_witness : DecodeBlock (Block_Bytes Toy.b1) = Ok Toy.b1.
Proof.
  apply (block_codec_round_trip Toy.b1).
  - exact toy_block_wf.
  - vm_compute. congruence.
Defined.

(** For every position of a block's transaction
    list [MerkleBranch] returns a branch, and recomputing the root from the
    transaction id, the position and that branch gives the block's Merkle root;
    outside the list it returns an error. *)
Theorem merkle_branch_proves_membership `{Crypto} txs index :
  (forall tx, 0 <= index -> txs !! Z.to_nat index = Some tx ->
     exists branch, MerkleBranch txs index = Ok branch /\
       MerkleRootFromBranch (Tx_ID tx) index branch = Ok (MerkleRoot txs)) /\
  ((exists branch, MerkleBranch txs index = Ok branch) <-> 0 <= index < Z.of_nat (length txs)).
Proof. split; [intros tx; apply MerkleBranch_correct|apply MerkleBranch_error]. Qed.

(** [Sign] with one key per input yields a transaction
    whose every input carries its key and a signature that [checkTxLocked] will
    accept, over the digest of the final transaction, and it changes neither the
    outputs nor the outpoints spent. *)
Theorem sign_authorises_inputs `{CryptoLaws} t keys t' :
  Sign t keys = Ok t' ->
  Forall2 (fun i k => in_PubKey i = ed25519_Public k /\
    ed25519_Verify (in_PubKey i) (SigDigest t') (in_Sig i) = true) (tx_Ins t') keys
  /\ tx_Outs t' = tx_Outs t /\ map in_Prev (tx_Ins t') = map in_Prev (tx_Ins t).
Proof. apply Sign_verifies. Qed.

Lemma sign_authorises_inputs_witness :
  Sign Toy.unsigned [Toy.alice] = Ok Toy.payment /\
  tx_Outs Toy.payment = tx_Outs Toy.unsigned.
Proof.
  assert (Hs : Sign Toy.unsigned [Toy.alice] = Ok Toy.payment) by reflexivity.
  split; [exact Hs|]. apply (sign_authorises_inputs Toy.unsigned [Toy.alice] Toy.payment Hs).
Defined.

(** Encoding a positive target in compact form and decoding
    it rounds down, never to zero, with an error below one part in 2^15; compact
    values in canonical form are fixed points. *)
Theorem compact_round_trip :
  (forall t, 0 < t < 256 ^ 254 ->
     let t' := CompactToTarget (TargetToCompact t) in
     0 < t' <= t /\ (t - t') * 2 ^ 15 < t' + 1) /\
  (forall s m, 3 <= s <= 254 -> 2 ^ 15 <= m < 2 ^ 23 ->
     TargetToCompact (CompactToTarget (s * 2 ^ 24 + m)) = s * 2 ^ 24 + m).
Proof. split; [apply compact_round|apply compact_canonical]. Qed.

(** The branches of [calculateASERTTarget] (shift direction, early
    exits for large and small shifts, clamping) compute one formula: the anchor
    target times the cubic approximation of the power of two of the schedule
    deviation, floored, clamped to [1, maxTarget]. *)
Theorem asert_formula ref spacing dt dh hl max :
  0 < ref < 2 ^ 256 -> 0 < max < 2 ^ 256 -> 0 < hl -> 0 < spacing -> 0 <= dh ->
  calculateASERTTarget ref spacing dt dh hl max
    = clamp_target (asert_raw ref (asert_exponent spacing dt dh hl)) max /\
  1 <= calculateASERTTarget ref spacing dt dh hl max <= max.
Proof.
  intros. split; [by apply calculateASERTTarget_formula|].
  rewrite calculateASERTTarget_formula by done. unfold clamp_target.
  pose proof (asert_raw_nonneg ref (asert_exponent spacing dt dh hl)).
  repeat case_match; lia.
Qed.

Lemma asert_formula_witness :
  1 <= calculateASERTTarget (2 ^ 200) 600 7200 3 7200 (2 ^ 224) <= 2 ^ 224.
Proof. apply (asert_formula (2 ^ 200) 600 7200 3 7200 (2 ^ 224)); lia. Defined.

(** A chain ahead or behind schedule by exactly [n] half-lives
    has its target halved or doubled [n] times (up to the clamp): with [n = 0]
    the target is the anchor's, whatever the height. *)
Theorem asert_half_life ref spacing dh hl max n :
  0 < ref < 2 ^ 256 -> 0 < max < 2 ^ 256 -> 0 < hl -> 0 < spacing -> 0 <= dh ->
  calculateASERTTarget ref spacing ((dh + 1) * spacing + n * hl) dh hl max
  = clamp_target (Z.shiftl ref n) max.
Proof. apply calculateASERTTarget_halflives. Qed.

Lemma asert_half_life_witness :
  calculateASERTTarget (2 ^ 200) 600 ((5 + 1) * 600 + -3 * 7200) 5 7200 (2 ^ 224) = 2 ^ 197.
Proof. rewrite (asert_half_life (2 ^ 200) 600 5 7200 (2 ^ 224) (-3)); [reflexivity|lia..]. Defined.

(** Later parent timestamps never make the next block harder:
    the ASERT target is monotone in the elapsed time. *)
Theorem asert_monotone ref spacing dt1 dt2 dh hl max :
  0 < ref < 2 ^ 256 -> 0 < max < 2 ^ 256 -> 0 < hl -> 0 < spacing -> 0 <= dh -> dt1 <= dt2 ->
  calculateASERTTarget ref spacing dt1 dh hl max
  <= calculateASERTTarget ref spacing dt2 dh hl max.
Proof. apply calculateASERTTarget_mono. Qed.

Lemma asert_monotone_witness :
  calculateASERTTarget (2 ^ 200) 600 100 5 7200 (2 ^ 224)
  <= calculateASERTTarget (2 ^ 200) 600 99999 5 7200 (2 ^ 224).
Proof. apply (asert_monotone (2 ^ 200) 600 100 99999 5 7200 (2 ^ 224)); lia. Defined.

(** Below the ASERT height, the required bits on mainnet
    repeat the parent's except at multiples of 2016, where the new target is the
    old one scaled by the clamped timespan: at most four times harder or easier
    (before compact rounding) and never above the limit. *)
Theorem legacy_retarget_clamp height bitsAt timeAt old t1 t2 :
  0 < height < 12096 ->
  bitsAt (height - 1) = Ok old -> timeAt (height - 1) = Ok t1 ->
  timeAt (height - 2016) = Ok t2 -> 0 <= CompactToTarget old <= MaxTarget MainNet ->
  if height mod 2016 =? 0 then
    exists target, NextBits MainNet height bitsAt timeAt = Ok (TargetToCompact target) /\
      CompactToTarget old / 4 <= target <= 4 * CompactToTarget old /\
      0 <= target <= MaxTarget MainNet
  else NextBits MainNet height bitsAt timeAt = Ok old.
Proof.
  intros Hh Hb Ht1 Ht2 Hold.
  assert (Ha : asertActive MainNet height = false).
  { unfold asertActive. change (ASERTActivationHeight MainNet) with 12096.
    rewrite Z.geb_leb, (proj2 (Z.leb_gt _ _)) by lia. apply andb_false_r. }
  rewrite NextBits_legacy by (auto with btc; lia).
  change (RetargetInterval MainNet) with 2016. rewrite Z.rem_mod_nonneg by lia.
  destruct (height mod 2016 =? 0) eqn:E; cbn [negb]; [|done].
  rewrite Ht1, Ht2, Hb. cbn [mbind result_bind].
  eexists. split; [reflexivity|]. split; [|apply retarget_range; [auto with btc|lia]].
  apply retarget_clamped; [auto with btc|vm_compute; congruence|reflexivity|done].
Qed.

Lemma legacy_retarget_clamp_witness :
  exists target, NextBits MainNet 2016 (fun _ => Ok 0x1f00ffff) (fun h => Ok (h * 300))
                 = Ok (TargetToCompact target) /\
    CompactToTarget 0x1f00ffff / 4 <= target <= 4 * CompactToTarget 0x1f00ffff /\
    0 <= target <= MaxTarget MainNet.
Proof.
  apply (legacy_retarget_clamp 2016 (fun _ => Ok 0x1f00ffff) (fun h => Ok (h * 300))
           0x1f00ffff (2015 * 300) 0).
  - lia.
  - reflexivity.
  - reflexivity.
  - reflexivity.
  - vm_compute. split; congruence.
Defined.

(** C38: Whatever bytes arrive, the decoders of transactions and blocks do not
    panic, and what they return is typed: every integer fits its machine width, every
    hash and key hash has its length and every count is within its limit. *)
Theorem decoders_typed raw :
  match DecodeTx raw with Ok t => wf_tx t | Err e => is_panic e = false end /\
  match DecodeBlock raw with Ok b => wf_block b | Err e => is_panic e = false end.
Proof.
  split.
  - destruct (DecodeTx raw) eqn:E; [by eapply DecodeTx_wf|by eapply calm_DecodeTx].
  - destruct (DecodeBlock raw) eqn:E; [by eapply DecodeBlock_wf|by eapply calm_DecodeBlock].
Qed.

(** ** The mainnet genesis block *)
Module RealSha.
(** SHA-256 is the executable model; the other primitives are not used here. *)
#[global] Instance crypto : Crypto := {
  Sum256 := Sha256.sha256;
  argon2_IDKey _ _ _ _ _ _ := zeros 32;
  ed25519_Public k := to_array 32 k;
  ed25519_Sign k m := to_array 64 (to_array 32 k ++ m);
  ed25519_Verify pk m s := bool_decide (s = to_array 64 (pk ++ m));
}.
End RealSha.

(** With SHA-256 the header of the mainnet genesis block,
    built by [GenesisBlock] from the canonical parameters, hashes to the
    published genesis id. *)
Theorem mainnet_genesis_id :
  be_val (@Header_ID RealSha.crypto (blk_Header (@GenesisBlock RealSha.crypto MainNet)))
  = 0xba685f741a04ddad03d37500ff354ce3887e64dd9cb6154ae236952792e90c3f.
Proof. vm_compute. reflexivity. Qed.
