(* ===== verification/ChainTheorems.v ===== *)
(** * What the chain guarantees

    The theorems about every state reachable from [NewChain] through
    [AcceptTxWithResult], [AcceptBlock] and [acceptStoredBlock], each with an
    application to the history of Toy.v. *)
From S2P Require Import Prelude Params Crypto Pow Wire Merkle Chain Ledger ChainInv ChainView Toy.

Section helpers.
Context `{Crypto}.

(** Whatever the state, an error leaves it as it was. *)
Lemma acceptBlockLocked_err c b pow now c' e :
  acceptBlockLocked c b pow now = (c', Err e) -> c' = c.
Proof.
  intros Ha. unfold acceptBlockLocked in Ha. destruct (decide _) in Ha; [done|].
  destruct (c_index c !! hdr_PrevBlock _) as [parent|]; [|by simplify_eq].
  destruct (check_header _ _ _ _ _) as [bi|]; [|by simplify_eq].
  destruct (_ <=? _); [destruct (replayBranch c bi); by simplify_eq|].
  destruct (decide (parent = c_tip c)).
  - unfold connectTipLocked in Ha.
    destruct (validateAndApplyLocked _ _ _ _) as [u [?|e1]] eqn:Ev; [done|].
    apply validateAndApply_err in Ev as ->. simplify_eq. by destruct c.
  - unfold connectBranch in Ha. destruct (replayBranch c bi) as [[? ?]|]; by simplify_eq.
Qed.

(** Half of the sorted list is at or below the median. *)
Lemma sorted_prefix_le (l : list Z) k m :
  StronglySorted Z.le l -> l !! k = Some m -> Forall (fun t => t <= m) (take (S k) l).
Proof.
  intros Hs. revert k. induction Hs as [|a l Hs IH Ha]; intros [|k] Hk; simplify_eq/=.
  - repeat constructor. lia.
  - constructor; [|by apply IH]. rewrite list.Forall_forall in Ha. apply Ha.
    by eapply list_elem_of_lookup_2.
Qed.

Lemma filter_Forall_id {A} (P : A -> Prop) `{!forall a, Decision (P a)} (l : list A) :
  Forall P l -> filter P l = l.
Proof. induction 1 as [|a l Ha _ IH]; [done|]. by rewrite filter_cons_True, IH. Qed.

Lemma median_majority ts m candidate :
  median_time ts = Ok m -> m < candidate ->
  (length ts / 2 < length (filter (fun t => (t < candidate)%Z) ts))%nat.
Proof.
  intros Hm Hlt. unfold median_time in Hm. apply deref_Ok in Hm.
  assert (Hs : StronglySorted Z.le (merge_sort Z.le ts))
    by apply (StronglySorted_merge_sort Z.le).
  pose proof (sorted_prefix_le _ _ _ Hs Hm) as Hpre. pose proof (lookup_lt_Some _ _ _ Hm) as Hl.
  assert (Hp : length (filter (fun t => (t < candidate)%Z) ts)
               = length (filter (fun t => (t < candidate)%Z) (merge_sort Z.le ts))).
  { by rewrite (merge_sort_Permutation Z.le ts). }
  rewrite Hp, <- (take_drop (S (length ts / 2)) (merge_sort Z.le ts)), filter_app, length_app.
  rewrite filter_Forall_id, length_take; [lia|].
  eapply list.Forall_impl; [exact Hpre|]. cbn. lia.
Qed.
End helpers.

(** C1: In every reachable state each unspent output holds a positive
    amount within the money range, and the coins in the UTXO set never exceed the
    subsidies of the heights up to the tip, hence never exceed [MaxMoneyUnits]. *)
Theorem supply_bound `{Crypto} p c :
  pow_params_ok p -> reachable p c ->
  utxo_ok (c_utxo c) /\
  utxo_total (c_utxo c) <= issued_before (Z.to_nat (bi_height (c_tip c) + 1)) /\
  utxo_total (c_utxo c) <= MaxMoneyUnits.
Proof.
  intros Hp Hr. pose proof (reachable_inv _ Hp _ Hr) as Hc.
  destruct (ci_main _ _ Hc) as (l & Hb & _ & Hrep).
  destruct (replay_supply _ l _ (branch_heights _ _ _ _ Hb) Hrep) as [Hok Hle].
  pose proof (branch_length _ _ _ _ Hb) as Hlen.
  replace (Z.to_nat (bi_height (c_tip c) + 1)) with (length l) by lia.
  pose proof (issued_before_money (length l)). split_and!; [done..|lia].
Qed.

Lemma supply_bound_witness :
  utxo_total (c_utxo Toy.c3) = 199 * UnitsPerCoin /\
  utxo_total (c_utxo Toy.c3) <= issued_before (Z.to_nat (bi_height (c_tip Toy.c3) + 1)).
Proof.
  split; [vm_compute; reflexivity|].
  apply (supply_bound RegTest Toy.c3 pow_params_ok_reg Toy.c3_reachable).
Defined.

(** C2: The UTXO set kept incrementally, across tip extensions,
    failed connections and reorganisations, is exactly the UTXO set obtained by
    validating the canonical chain from genesis; [mainIDs] lists that chain. *)
Theorem utxo_is_replay `{Crypto} p c :
  pow_params_ok p -> reachable p c ->
  exists l, branch p (c_index c) (c_tip c) l /\ c_mainIDs c = bi_id <$> l /\
    replay p l = Ok (c_utxo c).
Proof. intros Hp Hr. apply (ci_main _ _ (reachable_inv _ Hp _ Hr)). Qed.

Lemma utxo_is_replay_witness :
  exists l, branch RegTest (c_index Toy.c3) (c_tip Toy.c3) l /\
    c_mainIDs Toy.c3 = bi_id <$> l /\ replay RegTest l = Ok (c_utxo Toy.c3).
Proof. exact (utxo_is_replay RegTest Toy.c3 pow_params_ok_reg Toy.c3_reachable). Defined.

(** C3: Fork choice is sound and optimal: every indexed block,
    side blocks included, ends a branch from genesis that is valid in full, and
    no indexed block has more cumulative work than the tip. *)
Theorem best_valid_chain `{Crypto} p c id bi :
  pow_params_ok p -> reachable p c -> c_index c !! id = Some bi ->
  bi_id bi = id /\ bi_cumWork bi <= bi_cumWork (c_tip c) /\
  exists l u, branch p (c_index c) bi l /\ replay p l = Ok u /\
    bi_cumWork bi = sumZ (block_work <$> l).
Proof.
  intros Hp Hr Hi. pose proof (reachable_inv _ Hp _ Hr) as Hc.
  destruct (ci_index _ _ Hc _ _ Hi) as (Hid & l & u & Hb & Hrep).
  split_and!; [done|by eapply ci_best|]. exists l, u. split_and!; [done..|].
  by eapply branch_work.
Qed.

Lemma best_valid_chain_witness :
  bi_cumWork (genesis_index RegTest) <= bi_cumWork (c_tip Toy.c3).
Proof.
  apply (best_valid_chain RegTest Toy.c3 (bi_id (genesis_index RegTest)) (genesis_index RegTest)
           pow_params_ok_reg Toy.c3_reachable).
  vm_compute. reflexivity.
Defined.

(** No operation lowers the work of the best chain, and the
    tip changes only to a block with strictly more cumulative work. *)
Theorem tip_work_monotone `{Crypto} p c o :
  pow_params_ok p -> reachable p c ->
  c_tip (run_op c o) = c_tip c \/ bi_cumWork (c_tip c) < bi_cumWork (c_tip (run_op c o)).
Proof.
  apply run_op_work.
Qed.

Lemma tip_work_monotone_witness :
  c_tip Toy.c3 = c_tip Toy.c2m \/ bi_cumWork (c_tip Toy.c2m) < bi_cumWork (c_tip Toy.c3).
Proof.
  exact (tip_work_monotone RegTest Toy.c2m (OpBlock (Some Toy.b3) Toy.now)
           pow_params_ok_reg Toy.c2m_reachable).
Defined.

(** A block whose economics are rejected, at any
    transaction and for any reason, leaves the UTXO set exactly as it was: the
    undo log restores every spent and every overwritten output. *)
Theorem rejected_block_rolls_back `{Crypto} p b height utxo utxo' e :
  validateAndApplyLocked p b height utxo = (utxo', Err e) -> utxo' = utxo.
Proof. apply validateAndApply_err. Qed.

(** A block whose second payment is a double spend of the first. *)
Definition double_spend_block : Block :=
  mkBlock (blk_Header Toy.b3) [Toy.coinbase 3 Toy.bob; Toy.payment; Toy.payment].

Lemma rejected_block_rolls_back_witness :
  is_ok (validateAndApplyLocked RegTest double_spend_block 3 (c_utxo Toy.c2)).2 = false /\
  (validateAndApplyLocked RegTest double_spend_block 3 (c_utxo Toy.c2)).1 = c_utxo Toy.c2.
Proof.
  split; [vm_compute; reflexivity|].
  apply (rejected_block_rolls_back RegTest double_spend_block 3 (c_utxo Toy.c2) _
           (EText "input not found or already spent")).
  apply pair_snd. vm_compute. reflexivity.
Defined.

(** C4: A block that is not accepted changes nothing: not
    the index, the tip, the main chain, the UTXO set or the mempool. *)
Theorem failed_accept_unchanged `{Crypto} c b checkPow now c' e :
  acceptBlockLocked c b checkPow now = (c', Err e) -> c' = c.
Proof. apply acceptBlockLocked_err. Qed.

Definition greedy_block : Block :=
  Toy.block_on (c_tip Toy.c2) (NewCoinbase 3 (SubsidyAt 3 + 1) (Toy.pkh_of Toy.bob) []) [].

Lemma failed_accept_unchanged_witness :
  (acceptBlockLocked Toy.c2 greedy_block true Toy.now).1 = Toy.c2.
Proof.
  apply (failed_accept_unchanged Toy.c2 greedy_block true Toy.now _
           (EWrap "block invalid" 3 (ENum "coinbase pays more than subsidy plus fees"
              [SubsidyAt 3 + 1; SubsidyAt 3; 0]))).
  apply pair_snd. vm_compute. reflexivity.
Defined.

(** Connecting a block adds at most the subsidy of
    its height to the coins of the UTXO set, fees included, and keeps every
    output positive and within the money range. *)
Theorem block_mints_at_most_subsidy `{Crypto} p b height utxo utxo' :
  utxo_ok utxo -> validateAndApplyLocked p b height utxo = (utxo', Ok tt) ->
  utxo_ok utxo' /\ utxo_total utxo' <= utxo_total utxo + SubsidyAt height.
Proof. intros Hu Hv. by eapply validateAndApply_total. Qed.

Lemma block_mints_at_most_subsidy_witness :
  utxo_total (validateAndApplyLocked RegTest (GenesisBlock RegTest) 0 ∅).1
  <= utxo_total ∅ + SubsidyAt 0.
Proof.
  apply (block_mints_at_most_subsidy RegTest (GenesisBlock RegTest) 0 ∅).
  - apply map_Forall_empty.
  - reflexivity.
Defined.

(** C5: [checkTxLocked] returns a fee exactly when the transaction
    is valid in the declarative sense of [tx_valid]: inputs and outputs are not
    empty, the inputs are distinct unspent outputs, mature, owned by the given
    keys and signed over the transaction digest, outputs are positive, sums stay
    in the money range and the outputs do not exceed the inputs; the fee is the
    difference. *)
Theorem check_tx_spec `{Crypto} p utxo tx height fee :
  checkTxLocked p utxo tx height = Ok fee <->
  exists entries, tx_valid p utxo tx height entries /\ fee = tx_fee tx entries.
Proof. apply checkTxLocked_spec. Qed.

(** In every reachable state the mempool holds, under their
    own ids, non-coinbase transactions that are valid for the next block and
    spend pairwise disjoint outputs. *)
Theorem mempool_invariant `{Crypto} p c :
  pow_params_ok p -> reachable p c ->
  mempool_valid p (c_mempool c) (c_utxo c) (bi_height (c_tip c) + 1) /\
  conflict_free (c_mempool c).
Proof.
  intros Hp Hr. pose proof (reachable_inv _ Hp _ Hr) as Hc.
  split; [apply (ci_mempool _ _ Hc)|apply (ci_conflicts _ _ Hc)].
Qed.

Lemma mempool_invariant_witness :
  c_mempool Toy.c2m !! Tx_ID Toy.payment = Some Toy.payment /\
  mempool_valid RegTest (c_mempool Toy.c2m) (c_utxo Toy.c2m) (bi_height (c_tip Toy.c2m) + 1) /\
  conflict_free (c_mempool Toy.c2m).
Proof.
  split; [exact Toy.c2m_mempool|].
  exact (mempool_invariant RegTest Toy.c2m pow_params_ok_reg Toy.c2m_reachable).
Defined.

(** Admission is atomic and idempotent: a call that does not
    report "added" leaves the chain unchanged; one that does inserts exactly the
    transaction, leaves the rest of the state alone, and a replay of the same
    transaction then reports "already known" without changing anything. *)
Theorem accept_tx_effect `{Crypto} c tx c' r :
  AcceptTxWithResult c tx = (c', r) ->
  (c' = c /\ r <> Ok TxAcceptanceAdded) \/
  exists t, tx = Some t /\ r = Ok TxAcceptanceAdded /\
    c' = set_mempool c (<[Tx_ID t := t]> (c_mempool c)) /\
    AcceptTxWithResult c' tx = (c', Ok TxAcceptanceAlreadyKnown).
Proof.
  intros Ha. destruct (AcceptTx_cases _ _ _ _ Ha)
    as [?|(t & fee & -> & -> & Hcb & _ & _ & _ & ->)]; [by left|].
  right. exists t. split_and!; [done..|]. unfold AcceptTxWithResult. rewrite Hcb.
  rewrite decide_True; [done|]. cbn. rewrite lookup_insert_eq. by eexists.
Qed.

Lemma accept_tx_effect_witness :
  exists t, Some Toy.payment = Some t /\
    AcceptTxWithResult (AcceptTxWithResult Toy.c2 (Some t)).1 (Some Toy.payment)
      = ((AcceptTxWithResult Toy.c2 (Some t)).1, Ok TxAcceptanceAlreadyKnown).
Proof.
  exists Toy.payment. split; [reflexivity|].
  destruct (accept_tx_effect Toy.c2 (Some Toy.payment)
              (AcceptTxWithResult Toy.c2 (Some Toy.payment)).1 (Ok TxAcceptanceAdded))
    as [[_ Hn]|(t & _ & _ & _ & H)].
  - apply pair_snd. vm_compute. reflexivity.
  - destruct Hn. reflexivity.
  - exact H.
Defined.

(** On a reachable state, accepting an arbitrary block never dereferences a missing index
    entry, walks off the main chain or indexes an empty slice. *)
Theorem accept_never_panics `{Crypto} p c b checkPow now c' e :
  pow_params_ok p -> reachable p c ->
  acceptBlockLocked c b checkPow now = (c', Err e) -> is_panic e = false.
Proof.
  intros Hp Hr. apply (acceptBlock_no_panic p Hp (reachable_valid _ _ Hr)).
  by apply reachable_inv.
Qed.

Definition bad_bits_block : Block :=
  mkBlock (mkHeader 1 (bi_id (genesis_index RegTest)) zeroHash (GenesisTime RegTest) 0 0)
    [Toy.coinbase 1 Toy.bob].

Lemma accept_never_panics_witness :
  is_panic (ENum "wrong difficulty bits" [0; MaxTargetBits RegTest]) = false.
Proof.
  apply (accept_never_panics RegTest Toy.c0 bad_bits_block true Toy.now
           (acceptBlockLocked Toy.c0 bad_bits_block true Toy.now).1 _
           pow_params_ok_reg).
  - apply reach_new, Toy.c0_new.
  - apply pair_snd. vm_compute. reflexivity.
Defined.

(** In every reachable state the consistency checks of
    [validatedCanonicalSequenceLocked] (identities, heights, parent links, Merkle
    roots, cumulative work, genesis bytes) all succeed, and the sequence returned
    is the branch of the tip: the metadata errors of the read methods built on it
    cannot occur. *)
Theorem canonical_sequence_valid `{Crypto} p c :
  pow_params_ok p -> reachable p c ->
  exists l, validatedCanonicalSequenceLocked c = Ok l /\ branch p (c_index c) (c_tip c) l /\
    c_mainIDs c = bi_id <$> l /\ Z.of_nat (length l) = bi_height (c_tip c) + 1.
Proof.
  intros Hp Hr. pose proof (reachable_inv _ Hp _ Hr) as Hc.
  destruct (ci_main _ _ Hc) as (l & Hb & Hids & _). exists l.
  split_and!; [by apply (canonical_sequence_ok p)|done|done|by eapply branch_length].
Qed.

Lemma canonical_sequence_valid_witness :
  exists l, validatedCanonicalSequenceLocked Toy.c3 = Ok l /\ Z.of_nat (length l) = 4.
Proof.
  destruct (canonical_sequence_valid RegTest Toy.c3 pow_params_ok_reg Toy.c3_reachable)
    as (l & Hs & _ & _ & Hl).
  exists l. split; [exact Hs|]. rewrite Hl, Toy.c3_height. reflexivity.
Defined.

(** The difficulty required of a child of any indexed
    block is defined, within the network limit, and read off the branch of that
    block alone: the shortcut through [mainIDs] used when the parent is the tip
    and the walk through parent links both compute [NextBits] on the branch. *)
Theorem next_bits_on_any_branch `{Crypto} p c id parent :
  pow_params_ok p -> reachable p c -> c_index c !! id = Some parent ->
  exists l bits, branch p (c_index c) parent l /\ list_bits p l = Ok bits /\
    bitsOnBranch c parent (bi_height parent + 1) = Ok bits /\ target_ok p bits.
Proof.
  intros Hp Hr Hi. pose proof (reachable_inv _ Hp _ Hr) as Hc.
  pose proof (reachable_valid _ _ Hr) as Hv.
  destruct (ci_index _ _ Hc _ _ Hi) as (_ & l & _ & Hb & _).
  destruct (list_bits_defined p Hp Hv l) as [bits Hbits].
  pose proof (bitsOnBranch_list p Hp Hv c id parent l Hc Hi Hb) as Heq. rewrite Hbits in Heq.
  exists l, bits. split_and!; [done..|]. by eapply bitsOnBranch_ok.
Qed.

Lemma next_bits_on_any_branch_witness :
  exists l bits, list_bits RegTest l = Ok bits /\
    bitsOnBranch Toy.c3 (c_tip Toy.c3) (bi_height (c_tip Toy.c3) + 1) = Ok bits.
Proof.
  destruct (next_bits_on_any_branch RegTest Toy.c3 (bi_id (c_tip Toy.c3)) (c_tip Toy.c3)
              pow_params_ok_reg Toy.c3_reachable) as (l & bits & _ & Hl & Hb & _).
  - vm_compute. reflexivity.
  - exists l, bits. split; [exact Hl|exact Hb].
Defined.

(** Every block of the index satisfies the header rules relative to its own
    branch, whatever reorganisations happened since: the size limit, the required
    difficulty, and the timestamp rule; once ASERT is active its time is later
    than a strict majority of the last [ASERTMedianTimeBlocks] ancestor times, so
    a minority of skewed clocks cannot move time backwards. *)
Theorem indexed_headers_valid `{Crypto} p c id bi :
  pow_params_ok p -> reachable p c -> c_index c !! id = Some bi -> bi_height bi <> 0 ->
  exists l, branch p (c_index c) bi (l ++ [bi]) /\
    Z.of_nat (length (Block_Bytes (bi_block bi))) <= MaxBlockBytes /\
    list_bits p l = Ok (hdr_Bits (bi_header bi)) /\
    time_rule p l (hdr_Time (bi_header bi)) /\
    (asertActive p (bi_height bi) = true ->
     let window := take (Z.to_nat (ASERTMedianTimeBlocks p)) (reverse (times l)) in
     (length window / 2 <
      length (filter (fun t' => (t' < hdr_Time (bi_header bi))%Z) window))%nat).
Proof.
  intros Hp Hr Hi Hh. pose proof (reachable_inv _ Hp _ Hr) as Hc.
  destruct (ci_index _ _ Hc _ _ Hi) as (_ & l0 & _ & Hb & _).
  inv Hb as [|parent ? l Hb0 Hpar Hpid Hht Hw Hok [Hsz Hbits Hts]].
  exists l. split_and!; [by econstructor|done..|].
  intros Ha. pose proof (branch_length _ _ _ _ Hb0). unfold time_rule in Hts.
  replace (Z.of_nat (length l)) with (bi_height bi) in Hts by lia. rewrite Ha in Hts.
  destruct Hts as (m & Hm & Hlt). by eapply median_majority.
Qed.

Lemma indexed_headers_valid_witness :
  exists l, list_bits RegTest l = Ok (hdr_Bits (bi_header (c_tip Toy.c3))) /\
    time_rule RegTest l (hdr_Time (bi_header (c_tip Toy.c3))).
Proof.
  destruct (indexed_headers_valid RegTest Toy.c3 (bi_id (c_tip Toy.c3)) (c_tip Toy.c3)
              pow_params_ok_reg Toy.c3_reachable) as (l & _ & _ & Hb & Ht & _).
  - vm_compute. reflexivity.
  - rewrite Toy.c3_height. discriminate.
  - exists l. split; [exact Hb|exact Ht].
Defined.
