(* ===== verification/ViewTheorems.v ===== *)
(** * What the read snapshots guarantee *)
From S2P Require Import Prelude Params Crypto Pow Wire Merkle Chain Ledger ChainInv ChainView.
From S2P Require Import WalletView WalletViewProofs Toy.

Section lookup.
Context `{Crypto} (p : Params) (Hpow : pow_params_ok p).

(** A block is on the best branch iff its id is the one stored at its height. *)
Lemma canonical_member c l id bi :
  chain_inv p c -> branch p (c_index c) (c_tip c) l -> c_index c !! id = Some bi ->
  (bi_height bi < Z.of_nat (length l) /\ bi_id <$> l !! Z.to_nat (bi_height bi) = Some id)
  <-> id ∈ bi_id <$> l.
Proof.
  intros Hc Hb Hi. split.
  - intros [_ Hl]. apply fmap_Some in Hl as (b & Hl & ->).
    apply list_elem_of_fmap_2. by eapply list_elem_of_lookup_2.
  - intros (b & -> & Hin)%list_elem_of_fmap.
    pose proof (branch_indexed _ _ _ _ Hb (ci_tip _ _ Hc) b Hin) as Hb'. simplify_eq.
    apply list_elem_of_lookup in Hin as [k Hk].
    pose proof (branch_heights _ _ _ _ Hb _ _ Hk). pose proof (lookup_lt_Some _ _ _ Hk).
    split; [lia|]. replace (Z.to_nat (bi_height bi)) with k by lia. by rewrite Hk.
Qed.

Lemma LookupBlock_spec c id net :
  chain_inv p c -> CanonicalNetworkID (Some p) = Ok net ->
  exists s, LookupBlock c id = Ok s /\ bl_Hash s = id /\
    bl_Found s = HasBlock c id /\
    (bl_Canonical s = true <-> id ∈ c_mainIDs c) /\
    (forall bi, c_index c !! id = Some bi -> bl_Height s = bi_height bi).
Proof.
  intros Hc Hnet. destruct (ci_main _ _ Hc) as (l & Hb & Hids & _).
  unfold LookupBlock. rewrite (canonical_tip_ok p Hpow c net Hc Hnet).
  rewrite (canonical_sequence_ok p Hpow c l Hc Hb). cbn [mbind result_bind]. unfold HasBlock.
  destruct (c_index c !! id) as [bi|] eqn:Hi.
  - destruct (ci_index _ _ Hc _ _ Hi) as (Hid & l' & _ & Hb' & _).
    pose proof (branch_height_nonneg _ _ _ _ Hb'). pose proof (branch_end_ok _ Hpow _ _ _ Hb') as He.
    rewrite (proj2 (Z.ltb_ge _ 0)) by done.
    rewrite !bool_decide_true by (done || (rewrite <- Hid; symmetry; apply He)).
    cbn [negb orb]. eexists. split; [done|]. cbn.
    split_and!; [done|done| |by intros ? [= ->]].
    rewrite andb_true_iff, Z.ltb_lt, bool_decide_eq_true, Hids.
    by apply (canonical_member c l id bi).
  - eexists. split; [done|]. cbn. split_and!; [done|done| |done].
    split; [done|]. rewrite Hids. intros (b & -> & Hin)%list_elem_of_fmap.
    pose proof (branch_indexed _ _ _ _ Hb (ci_tip _ _ Hc) b Hin). congruence.
Qed.
End lookup.

(** On every reachable state of a canonical network
    [LookupBlock] succeeds; it reports a block as found exactly when it is
    indexed, with its height, and as canonical exactly when its id is on the
    main chain. *)
Theorem lookup_block_membership `{Crypto} p c id net :
  pow_params_ok p -> CanonicalNetworkID (Some p) = Ok net -> reachable p c ->
  exists s, LookupBlock c id = Ok s /\ bl_Hash s = id /\ bl_Found s = HasBlock c id /\
    (bl_Canonical s = true <-> id ∈ c_mainIDs c) /\
    (forall bi, c_index c !! id = Some bi -> bl_Height s = bi_height bi).
Proof. intros Hp Hn Hr. by eapply LookupBlock_spec; [|apply reachable_inv|]. Qed.

Lemma lookup_block_membership_witness :
  exists s, LookupBlock Toy.c3 (bi_id (c_tip Toy.c2)) = Ok s /\
    bl_Found s = HasBlock Toy.c3 (bi_id (c_tip Toy.c2)).
Proof.
  destruct (lookup_block_membership RegTest Toy.c3 (bi_id (c_tip Toy.c2)) "btc09-regtest"
              pow_params_ok_reg eq_refl Toy.c3_reachable) as (s & Hs & _ & Hf & _).
  exists s. split; [exact Hs|exact Hf].
Defined.

(** C6: When [walletViewForOwnersLocked] succeeds on a reachable
    state, its spendable outputs, computed by scanning every block and the
    mempool, are exactly the entries of the UTXO set that belong to an owner, are
    mature for the next block and are not spent by the mempool; they are sorted
    by outpoint and the reported balance is their sum. *)
Theorem wallet_view_is_utxo `{Crypto} p c owners limit view :
  pow_params_ok p -> reachable p c -> walletViewForOwnersLocked c owners limit = Ok view ->
  (forall so, so ∈ wv_SpendableOutputs view <-> spendable_spec owners c so) /\
  wv_SpendableUnits view = sumZ (so_AmountUnits <$> wv_SpendableOutputs view) /\
  Sorted spendable_le (wv_SpendableOutputs view).
Proof.
  intros Hp Hr. apply (walletView_spendable owners p c limit view Hp).
  by apply reachable_inv.
Qed.

Definition bob_owner : owner_map := {[ Toy.pkh_of Toy.bob := 0 ]}.

Lemma bob_view : exists view, walletViewForOwnersLocked Toy.c3 bob_owner 10 = Ok view.
Proof.
  assert (Hok : is_ok (walletViewForOwnersLocked Toy.c3 bob_owner 10) = true)
    by (vm_compute; reflexivity).
  destruct (walletViewForOwnersLocked Toy.c3 bob_owner 10) as [v|e]; [by exists v|discriminate Hok].
Qed.

Lemma wallet_view_is_utxo_witness :
  exists view, walletViewForOwnersLocked Toy.c3 bob_owner 10 = Ok view /\
    wv_SpendableUnits view = sumZ (so_AmountUnits <$> wv_SpendableOutputs view).
Proof.
  destruct bob_view as [view Hv]. exists view. split; [exact Hv|].
  apply (wallet_view_is_utxo RegTest Toy.c3 bob_owner 10 view pow_params_ok_reg
           Toy.c3_reachable Hv).
Defined.

(** ** Coinbases are not tied to their height *)
Module DuplicateCoinbase.
Import Toy.
(** The second block repeats the coinbase transaction of the first. *)
Definition b2 : Block := block_on (c_tip c1) (coinbase 1 alice) [].
Definition c2 : Chain := run_op c1 (OpBlock (Some b2) now).

Lemma c2_reachable : reachable RegTest c2.
Proof. exact (reach_op _ _ _ (reach_op _ _ _ (reach_new _ _ c0_new))). Qed.
End DuplicateCoinbase.

(** On this chain a block that repeats the coinbase of its parent was accepted, and the
    second output overwrote the first: the subsidy of one block is missing from the UTXO
    set. *)
Fact duplicate_coinbase_accepted :
  reachable RegTest DuplicateCoinbase.c2 /\
  bi_height (c_tip DuplicateCoinbase.c2) = 2 /\
  utxo_total (c_utxo DuplicateCoinbase.c2) = issued_before 3 - InitialRewardUnits.
Proof.
  split; [exact DuplicateCoinbase.c2_reachable|].
  split_and!; vm_compute; reflexivity.
Qed.

