(* ===== verification/WalletTheorems.v ===== *)
(** * Properties of wallet payments

    Payments, maximum sends and cleanups built on a snapshot of the chain are
    admitted by that chain with exactly the requested fee; selection uses the
    fewest inputs; gateway snapshots are checked against the wallet's keys. *)
From S2P Require Import Prelude Text GoHeap Params Crypto Pow Wire Merkle Address Chain Ledger.
From S2P Require Import ChainInv ChainView WalletView WalletViewProofs Wallet WalletSnapshot.
From S2P Require Import WalletSend WalletProofs WalletSendProofs SnapshotHash Toy.

Lemma withKeys_Ok {A} io require (fn : list bytes -> result A) a :
  withKeys io require fn = Ok a ->
  exists keys st, io_read io = Ok (keys, st) /\ fn keys = Ok a.
Proof.
  unfold withKeys. intros Hw. apply bind_Ok in Hw as (? & _ & Hw).
  apply bind_Ok in Hw as (? & _ & Hw). unfold join_release in Hw.
  destruct (ensure (io_hardlink io)) as [[]|] eqn:Eh; cbn [mbind result_bind] in Hw;
    [|by destruct (io_release io)].
  destruct (io_read io) as [[keys st]|]; cbn [mbind result_bind] in Hw;
    [|by destruct (io_release io)].
  exists keys, st. split; [done|]. destruct (_ && _); [by destruct (io_release io)|].
  destruct (_ && _); [by destruct (io_release io)|].
  destruct (fn keys), (io_release io); congruence.
Qed.

Lemma validatePaymentValues_Ok `{Crypto} toAddr amount fee excluded toPKH :
  validatePaymentValues toAddr amount fee excluded = Ok toPKH ->
  0 < amount /\ 0 <= fee /\ amount + fee <= MaxMoneyUnits /\ EncodeAddress toPKH = toAddr.
Proof.
  unfold validatePaymentValues. destruct (_ || _) eqn:E; [done|]. bool_prop.
  destruct (_ >? _); [done|]. destruct (DecodeAddress toAddr); [|done].
  destruct (negb _) eqn:Ea; [done|]. bool_prop. intros [= <-]. repeat split; [lia..|done].
Qed.

(** C10: A payment returned by [BuildPayment] pays the amount
    to the destination and any change to the wallet's first key, spends no excluded
    output, fits the size limit, and is admitted to the mempool of the chain it was
    built on with exactly the requested fee, unless another mempool transaction
    collides with its id. *)
Theorem build_payment_accepted `{CryptoLaws} p w io c between toAddr amount fee excluded prepared :
  pow_params_ok p -> reachable p (between c) ->
  BuildPayment w io (Some c) between toAddr amount fee excluded = Ok prepared ->
  exists keys st toPKH change,
    io_read io = Ok (keys, st) /\ EncodeAddress toPKH = toAddr /\ 0 <= change /\
    accepted (between c) (pp_Tx prepared) fee /\
    tx_Outs (pp_Tx prepared) = payment_outputs keys toPKH amount change /\
    in_Prev <$> tx_Ins (pp_Tx prepared) = pp_SelectedOutpoints prepared /\
    (forall op, op ∈ pp_SelectedOutpoints prepared -> op ∉ excluded) /\
    Z.of_nat (length (Tx_Bytes (pp_Tx prepared))) <= MaxSignedTxBytes.
Proof.
  intros Hp Hr%(reachable_inv p Hp) Hb. unfold BuildPayment in Hb.
  apply bind_Ok in Hb as ([c' toPKH] & Hreq & Hb). unfold validatePaymentRequest in Hreq.
  apply bind_Ok in Hreq as (pkh & Hval & Hreq). apply Ok_inj in Hreq as [= <- <-].
  apply validatePaymentValues_Ok in Hval as (Ha & Hf & Hm & Haddr).
  apply withKeys_Ok in Hb as (keys & st & Hread & Hb).
  apply bind_Ok in Hb as (tip & _ & Hb). apply bind_Ok in Hb as (s & Hs & Hb).
  destruct (snapshotWithKeys_spec p _ _ _ _ _ Hp Hr Hs) as (Hon & Hk & _).
  destruct (built_payment_accepted p _ _ _ _ _ _ _ _ Hr Hon Hk Ha Hf Hm Hb)
    as (change & Hch & Hacc & Hrest).
  exists keys, st, pkh, change. done.
Qed.

(** The toy wallet of Alice on [Toy.c2], where her coinbase is mature. *)
Definition alice_io : walletIO :=
  mkWalletIO None None None (Ok ([Toy.alice], walletV1)) None.
Definition toy_wallet : Wallet := mkWallet RegTestMachineID.
Definition bob_address : bytes := EncodeAddress (Toy.pkh_of Toy.bob).

Lemma toy_payment : exists prepared,
  BuildPayment toy_wallet alice_io (Some Toy.c2) id bob_address (30 * UnitsPerCoin) 1 ∅
  = Ok prepared.
Proof.
  assert (Hok : is_ok (BuildPayment toy_wallet alice_io (Some Toy.c2) id bob_address
                         (30 * UnitsPerCoin) 1 ∅) = true) by (vm_compute; reflexivity).
  destruct (BuildPayment _ _ _ _ _ _ _ _) as [v|e]; [by exists v|discriminate Hok].
Qed.

Lemma build_payment_accepted_witness : exists prepared,
  BuildPayment toy_wallet alice_io (Some Toy.c2) id bob_address (30 * UnitsPerCoin) 1 ∅
    = Ok prepared /\
  Z.of_nat (length (Tx_Bytes (pp_Tx prepared))) <= MaxSignedTxBytes.
Proof.
  destruct toy_payment as [prepared Hb]. exists prepared. split; [exact Hb|].
  destruct (build_payment_accepted RegTest toy_wallet alice_io Toy.c2 id bob_address
              (30 * UnitsPerCoin) 1 ∅ prepared pow_params_ok_reg Toy.toy_c2_reachable Hb)
    as (keys & st & toPKH & change & _ & _ & _ & _ & _ & _ & _ & Hlen). exact Hlen.
Defined.

(** ** Selection *)

(** A built payment spends the fewest outputs possible: no
    smaller choice among the eligible outputs of the snapshot reaches the amount
    plus the fee.  The bounded heap of ten thousand candidates does not change
    this. *)
Theorem payment_fewest_inputs `{Crypto} keys s toPKH amount fee excluded prepared l :
  snapshot_wf keys s -> keys <> [] ->
  0 < amount -> 0 <= fee -> amount + fee <= MaxMoneyUnits ->
  buildPaymentFromSnapshot keys s toPKH amount fee excluded = Ok prepared ->
  l ⊆+ (sn_AmountUnits <$> eligible excluded (sp_Outpoints s)) -> amount + fee <= sumZ l ->
  (length (pp_SelectedOutpoints prepared) <= length l)%nat.
Proof.
  intros Hwf Hk Ha Hf Hm Hb Hl Hsum.
  destruct (buildPayment_cases keys s toPKH amount fee excluded Hwf Hk Ha Hf Hm)
    as (n & signing & _ & Hsh & _ & Hcase). rewrite Hb in Hcase. destruct Hcase as (_ & -> & _).
  rewrite length_fmap, length_take.
  pose proof (shortest_fewest keys excluded s (amount + fee) n l Hwf ltac:(lia) Hsh Hl Hsum). lia.
Qed.

Lemma eligible_empty outs : eligible ∅ outs = outs.
Proof.
  unfold eligible. induction outs as [|o outs IH]; [done|]. rewrite filter_cons, decide_True.
  - by rewrite IH.
  - apply not_elem_of_empty.
Qed.

Lemma toy_snapshot : exists s tip,
  canonicalTipSnapshotLocked Toy.c2 = Ok tip /\
  snapshotWithKeys Toy.c2 RegTestMachineID tip [Toy.alice] = Ok s /\
  is_ok (buildPaymentFromSnapshot [Toy.alice] s (Toy.pkh_of Toy.bob) 1000 1 ∅) = true /\
  sumZ (sn_AmountUnits <$> sp_Outpoints s) = 50 * UnitsPerCoin /\
  length (sp_Outpoints s) = 1%nat.
Proof.
  assert (Hok : (tip ← canonicalTipSnapshotLocked Toy.c2;
                 s ← snapshotWithKeys Toy.c2 RegTestMachineID tip [Toy.alice];
                 Ok (is_ok (buildPaymentFromSnapshot [Toy.alice] s (Toy.pkh_of Toy.bob) 1000 1 ∅),
                     sumZ (sn_AmountUnits <$> sp_Outpoints s), length (sp_Outpoints s)))
                = Ok (true, 50 * UnitsPerCoin, 1%nat)) by (vm_compute; reflexivity).
  apply bind_Ok in Hok as (tip & Htip & Hok). apply bind_Ok in Hok as (s & Hs & Hok).
  exists s, tip. split; [exact Htip|]. split; [exact Hs|].
  apply Ok_inj in Hok. injection Hok as H1 H2 H3.
  split; [exact H1|]. split; [exact H2|exact H3].
Qed.

Lemma toy_snapshot_wf s tip :
  snapshotWithKeys Toy.c2 RegTestMachineID tip [Toy.alice] = Ok s -> snapshot_wf [Toy.alice] s.
Proof.
  intros Hs.
  destruct (snapshotWithKeys_spec RegTest Toy.c2 _ _ _ _ pow_params_ok_reg
              (reachable_inv _ pow_params_ok_reg _ Toy.toy_c2_reachable) Hs) as [Hon _].
  exact (sc_wf _ _ _ Hon).
Qed.

Lemma payment_fewest_inputs_witness : exists s prepared,
  buildPaymentFromSnapshot [Toy.alice] s (Toy.pkh_of Toy.bob) 1000 1 ∅ = Ok prepared /\
  (length (pp_SelectedOutpoints prepared)
     <= length (sn_AmountUnits <$> eligible ∅ (sp_Outpoints s)))%nat.
Proof.
  destruct toy_snapshot as (s & tip & _ & Hs & Hok & Hsum & _). exists s.
  pose proof (toy_snapshot_wf s tip Hs) as Hwf.
  destruct (buildPaymentFromSnapshot [Toy.alice] s (Toy.pkh_of Toy.bob) 1000 1 ∅) as [prepared|]
    eqn:Hb; [|discriminate Hok].
  exists prepared. split; [reflexivity|].
  refine (payment_fewest_inputs [Toy.alice] s (Toy.pkh_of Toy.bob) 1000 1 ∅ prepared _ Hwf _ _ _ _ Hb
            (reflexivity _) _); [discriminate|lia|lia|vm_compute; discriminate|].
  rewrite eligible_empty, Hsum. vm_compute. discriminate.
Defined.

(** On a snapshot of at most ten thousand outputs the result of
    [buildPaymentFromSnapshot] is decided by the eligible funds and the size of the
    signed transaction: with too little money it reports exactly the eligible total
    and the amount needed; otherwise it returns a payment, or fails only because the
    transaction would be larger than ten thousand bytes. *)
Theorem payment_outcomes `{Crypto} keys s toPKH amount fee excluded :
  snapshot_wf keys s -> keys <> [] ->
  0 < amount -> 0 <= fee -> amount + fee <= MaxMoneyUnits ->
  Z.of_nat (length (sp_Outpoints s)) <= MaxPaymentCandidates ->
  let have := sumZ (sn_AmountUnits <$> eligible excluded (sp_Outpoints s)) in
  let r := buildPaymentFromSnapshot keys s toPKH amount fee excluded in
  if amount + fee <=? have
  then is_ok r = true \/ r = Err (EText "signed transaction exceeds 10,000-byte limit")
  else r = Err (ENum "insufficient eligible funds" [have; amount + fee]).
Proof.
  intros Hwf Hk Ha Hf Hm Hlen have r.
  destruct (buildPayment_cases keys s toPKH amount fee excluded Hwf Hk Ha Hf Hm)
    as (n & signing & _ & (Hn & _ & Hend) & _ & Hcase). fold r in Hcase.
  assert (Hall : best_candidates excluded s = ranked excluded (sp_Outpoints s)).
  { unfold best_candidates. apply take_ge. unfold ranked.
    rewrite merge_sort_Permutation, length_fmap. unfold eligible.
    pose proof (length_filter (fun o => sn_OutpointRef o ∉ excluded) (sp_Outpoints s)).
    unfold MaxPaymentCandidates in *. lia. }
  assert (Hhave : sumZ (pc_amount <$> best_candidates excluded s) = have).
  { rewrite Hall. unfold ranked, have. rewrite merge_sort_Permutation.
    by rewrite <- list_fmap_compose. }
  rewrite <- fmap_take in Hend. rewrite Z.add_0_l in Hend. cbn zeta in Hcase.
  set (sum := sumZ (pc_amount <$> take n _)) in *.
  assert (Hle : sum <= have).
  { subst sum. rewrite fmap_take, <- Hhave. apply sumZ_take_le, Forall_fmap.
    apply (best_limits keys excluded s Hwf). }
  assert (Hsum : amount + fee <= sum \/ sum = have).
  { destruct Hend as [?|Hnl]; [by left|right]. rewrite length_fmap in Hnl.
    subst sum. by rewrite Hnl, firstn_all, Hhave. }
  destruct (Z.leb_spec (amount + fee) have) as [Hge|Hlt].
  - destruct r as [prepared|e]; [by left|]. right. destruct Hcase as [[? _]|[_ ->]]; [lia|done].
  - destruct r as [prepared|e]; [destruct Hcase; lia|].
    destruct Hcase as [[_ ->]|[? _]]; [|lia]. destruct Hsum as [?| ->]; [lia|done].
Qed.

Lemma payment_outcomes_witness : exists s,
  buildPaymentFromSnapshot [Toy.alice] s (Toy.pkh_of Toy.bob) (60 * UnitsPerCoin) 1 ∅
  = Err (ENum "insufficient eligible funds" [50 * UnitsPerCoin; 60 * UnitsPerCoin + 1]).
Proof.
  destruct toy_snapshot as (s & tip & _ & Hs & _ & Hsum & Hlen). exists s.
  pose proof (payment_outcomes [Toy.alice] s (Toy.pkh_of Toy.bob) (60 * UnitsPerCoin) 1 ∅
    (toy_snapshot_wf s tip Hs) ltac:(discriminate) ltac:(reflexivity) ltac:(lia)
    ltac:(vm_compute; discriminate) ltac:(rewrite Hlen; vm_compute; discriminate)) as Hout.
  cbn zeta in Hout. rewrite eligible_empty, Hsum in Hout. exact Hout.
Defined.

(** ** Maximum sends and cleanups *)

(** [PrepareMaximumAt] returns a transaction with one
    output that pays the destination the total of all eligible outputs minus the
    fee; it spends every eligible output of the wallet, nothing else, and the chain
    of the snapshot admits it with exactly that fee. *)
Theorem maximum_send_spends_all `{CryptoLaws} p w io c between expected toAddr fee excluded
    s prepared :
  pow_params_ok p -> reachable p c ->
  PrepareMaximumAt w io (Some c) between expected toAddr fee excluded = Ok (s, prepared) ->
  exists keys st toPKH,
    io_read io = Ok (keys, st) /\ EncodeAddress toPKH = toAddr /\
    (forall key, key ∈ keys -> pkhForKey key <> toPKH) /\ snapshot_on c keys s /\
    pp_SelectedOutpoints prepared ≡ₚ refs (eligible excluded (sp_Outpoints s)) /\
    tx_Outs (pp_Tx prepared) =
      [mkTxOut (sumZ (sn_AmountUnits <$> eligible excluded (sp_Outpoints s)) - fee) toPKH] /\
    accepted c (pp_Tx prepared) fee.
Proof.
  intros Hp Hr%(reachable_inv p Hp) Hb. unfold PrepareMaximumAt in Hb.
  apply bind_Ok in Hb as (toPKH & Hval & Hb). apply withKeys_Ok in Hb as (keys & st & Hread & Hb).
  apply bind_Ok in Hb as (u & Hown & Hb). apply bind_Ok in Hb as (s' & Hs & Hb).
  apply bind_Ok in Hb as (pr & Hm & Hb). apply bind_Ok in Hb as (u2 & _ & Hb).
  apply bind_Ok in Hb as (u3 & _ & Hb). apply Ok_inj in Hb as [= -> ->].
  destruct (snapshotWithKeys_spec p _ _ _ _ _ Hp Hr Hs) as (Hon & Hk & _).
  apply buildMaximum_spec in Hm as (Ha & Hf & Hmax & _ & Hpay & Hout & Hsel).
  destruct (built_payment_accepted p _ _ _ _ _ _ _ _ Hr Hon Hk Ha Hf Hmax Hpay)
    as (change & _ & Hacc & _).
  exists keys, st, toPKH. split_and!; try done.
  - unfold validateMaximumValues in Hval. destruct (_ || _); [done|]. destruct (_ >? _); [done|].
    destruct (DecodeAddress toAddr); [|done]. destruct (negb _) eqn:E; [done|]. bool_prop.
    by apply Ok_inj in Hval as <-.
  - intros key Hkey Heq. unfold rejectOwnedDestination in Hown.
    destruct (existsb _ keys) eqn:E; [done|]. apply not_true_iff_false in E. apply E, existsb_exists.
    exists key. split; [by apply list_elem_of_In|by apply bool_decide_eq_true].
Qed.

Definition toy_tip : ChainTipSnapshot :=
  match canonicalTipSnapshotLocked Toy.c2 with Ok t => t | Err _ => mkTipSnapshot "" [] 0 end.

Lemma maximum_send_spends_all_witness : exists s prepared,
  PrepareMaximumAt toy_wallet alice_io (Some Toy.c2) id toy_tip bob_address 7 ∅ = Ok (s, prepared) /\
  accepted Toy.c2 (pp_Tx prepared) 7.
Proof.
  assert (Hok : is_ok (PrepareMaximumAt toy_wallet alice_io (Some Toy.c2) id toy_tip bob_address 7 ∅)
                = true) by (vm_compute; reflexivity).
  destruct (PrepareMaximumAt _ _ _ _ _ _ _ _) as [[s prepared]|e] eqn:Hb; [|discriminate Hok].
  exists s, prepared. split; [reflexivity|].
  destruct (maximum_send_spends_all RegTest toy_wallet alice_io Toy.c2 id toy_tip bob_address 7 ∅
              s prepared pow_params_ok_reg Toy.toy_c2_reachable Hb)
    as (keys & st & toPKH & _ & _ & _ & _ & _ & _ & Hacc). exact Hacc.
Defined.

(** [PrepareCleanupAt] merges outputs of one wallet key back
    to that key's address: it spends the smallest outputs of the key, at least two,
    in the longest batch whose signed transaction fits the size limit (one more
    output would not fit), keeps everything but the fee, and the chain of the
    snapshot admits it with exactly that fee. *)
Theorem cleanup_same_address `{CryptoLaws} p w io c between expected fee excluded s pu :
  pow_params_ok p -> reachable p c ->
  PrepareCleanupAt w io (Some c) between expected fee excluded = Ok (s, pu) ->
  exists keys st k key n,
    io_read io = Ok (keys, st) /\ snapshot_on c keys s /\
    cleanup_ok keys s fee excluded pu k key n /\
    tx_Outs (pu_Tx pu) = [mkTxOut (pu_AmountUnits pu) (pkhForKey key)] /\
    in_Prev <$> tx_Ins (pu_Tx pu) = pu_SelectedOutpoints pu /\
    (forall op, op ∈ pu_SelectedOutpoints pu -> op ∉ excluded) /\
    accepted c (pu_Tx pu) fee.
Proof.
  intros Hp Hr%(reachable_inv p Hp) Hb. unfold PrepareCleanupAt in Hb.
  apply bind_Ok in Hb as (u & _ & Hb). apply withKeys_Ok in Hb as (keys & st & Hread & Hb).
  apply bind_Ok in Hb as (s' & Hs & Hb). apply bind_Ok in Hb as (pu' & Hc & Hb).
  apply bind_Ok in Hb as (u2 & _ & Hb). apply bind_Ok in Hb as (u3 & _ & Hb).
  apply Ok_inj in Hb as [= -> ->].
  destruct (snapshotWithKeys_spec p _ _ _ _ _ Hp Hr Hs) as (Hon & _ & _).
  apply buildCleanup_spec in Hc as (Hfee & _ & k & key & n & Hok).
  destruct (cleanup_accepted p c keys s fee excluded pu k key n Hr Hon Hfee Hok)
    as (Hacc & Hout & Hins & Hex).
  exists keys, st, k, key, n. done.
Qed.

(** Bob's wallet on a chain where he mined two mature blocks. *)
Definition toy_c4 : Chain :=
  let mine_next c := run_op c (OpBlock (Some (Toy.mine c Toy.bob [])) Toy.now) in
  mine_next (mine_next Toy.c3).
Definition bob_io : walletIO := mkWalletIO None None None (Ok ([Toy.bob], walletV1)) None.
Definition toy_tip4 : ChainTipSnapshot :=
  match canonicalTipSnapshotLocked toy_c4 with Ok t => t | Err _ => mkTipSnapshot "" [] 0 end.

Lemma toy_c4_reachable : reachable RegTest toy_c4.
Proof. exact (reach_op _ _ _ (reach_op _ _ _ Toy.c3_reachable)). Qed.

Lemma cleanup_same_address_witness : exists s pu,
  PrepareCleanupAt toy_wallet bob_io (Some toy_c4) id toy_tip4 5 ∅ = Ok (s, pu) /\
  accepted toy_c4 (pu_Tx pu) 5.
Proof.
  assert (Hok : is_ok (PrepareCleanupAt toy_wallet bob_io (Some toy_c4) id toy_tip4 5 ∅) = true)
    by (vm_compute; reflexivity).
  destruct (PrepareCleanupAt _ _ _ _ _ _ _) as [[s pu]|e] eqn:Hb; [|discriminate Hok].
  exists s, pu. split; [reflexivity|].
  destruct (cleanup_same_address RegTest toy_wallet bob_io toy_c4 id toy_tip4 5 ∅ s pu
              pow_params_ok_reg toy_c4_reachable Hb)
    as (keys & st & k & key & n & _ & _ & _ & _ & _ & _ & Hacc). exact Hacc.
Defined.

(** ** Gateway snapshots *)

(** C33: A payment prepared from a gateway snapshot signs only
    outputs that the gateway reported for addresses of this wallet, each with the
    key of its address, listed in strictly increasing order and adding up to the
    reported balance; the destination is not an own address, and the reported
    values of the spent outputs are exactly the amount, the fee and the change that
    returns to the wallet's first key. *)
Theorem remote_payment_checked `{CryptoLaws} w io remote toAddr amount fee excluded s prepared :
  PrepareFromRemoteSnapshot w io remote toAddr amount fee excluded = Ok (s, prepared) ->
  exists keys st toPKH change chosen signing,
    io_read io = Ok (keys, st) /\ EncodeAddress toPKH = toAddr /\
    (forall key, key ∈ keys -> pkhForKey key <> toPKH) /\
    Forall2 (remote_ok keys) (rs_Outpoints remote) (sp_Outpoints s) /\
    NoDup (refs (sp_Outpoints s)) /\
    rs_SpendableUnits remote = sumZ (sn_AmountUnits <$> sp_Outpoints s) /\
    (forall o, o ∈ chosen -> exists so, so ∈ sp_Outpoints s /\ o = cand_of so) /\
    in_Prev <$> tx_Ins (pp_Tx prepared) = pc_op <$> chosen /\
    Forall2 (signer keys) chosen signing /\
    in_PubKey <$> tx_Ins (pp_Tx prepared) = ed25519_Public <$> signing /\
    0 <= change /\ sumZ (pc_amount <$> chosen) = amount + fee + change /\
    tx_Outs (pp_Tx prepared) = payment_outputs keys toPKH amount change.
Proof.
  unfold PrepareFromRemoteSnapshot. intros Hb. apply bind_Ok in Hb as (toPKH & Hval & Hb).
  apply validatePaymentValues_Ok in Hval as (Ha & Hf & Hm & Haddr).
  apply withKeys_Ok in Hb as (keys & st & Hread & Hb). apply bind_Ok in Hb as (u & Hown & Hb).
  apply bind_Ok in Hb as (s' & Hs & Hb). apply bind_Ok in Hb as (pr & Hp & Hb).
  apply bind_Ok in Hb as (u2 & _ & Hb). apply Ok_inj in Hb as [= -> ->].
  apply snapshotFromRemote_spec in Hs as (Hwf & Hk & Hrel & Hunits & Hrs & _).
  destruct (buildPayment_cases keys s toPKH amount fee excluded Hwf Hk Ha Hf Hm)
    as (n & signing & Hsig & _ & _ & Hcase). rewrite Hp in Hcase. cbn zeta in Hcase.
  destruct Hcase as (Hge & _ & Hsign & _). set (chosen := take n _) in *.
  destruct (Sign_verifies _ _ _ Hsign) as (Hver & Hto & Hprev).
  exists keys, st, toPKH, (sumZ (pc_amount <$> chosen) - (amount + fee)), chosen, signing.
  split_and!; try done; try lia.
  - intros key Hkey Heq. unfold rejectOwnedDestination in Hown.
    destruct (existsb _ keys) eqn:E; [done|]. apply not_true_iff_false in E. apply E, existsb_exists.
    exists key. split; [by apply list_elem_of_In|by apply bool_decide_eq_true].
  - apply Hwf.
  - intros o Ho%subseteq_take. apply subseteq_take in Ho.
    apply (ranked_elem keys) in Ho as (so & -> & Hso & _); [by exists so|done].
  - change (in_Prev <$> ?l) with (map in_Prev l). rewrite Hprev. cbn [tx_Ins].
    change (map in_Prev ?l) with (in_Prev <$> l). by rewrite <- list_fmap_compose.
  - clear -Hver. induction Hver as [|i k ins ks [Hpk _] _ IH]; [done|].
    cbn. by rewrite Hpk, IH.
Qed.

(** What the gateway of Alice's light wallet may answer on [Toy.c2]. *)
Definition toy_remote (reported : Z) : RemoteSnapshot :=
  mkRemote RegTestMachineID toy_tip [addressForKey Toy.alice]
    [mkRemoteOut (Tx_ID (Toy.coinbase 1 Toy.alice)) 0 reported (addressForKey Toy.alice)] reported.

Lemma remote_payment_checked_witness : exists s prepared,
  PrepareFromRemoteSnapshot toy_wallet alice_io (toy_remote (50 * UnitsPerCoin)) bob_address
    (30 * UnitsPerCoin) 1 ∅ = Ok (s, prepared) /\
  rs_SpendableUnits (toy_remote (50 * UnitsPerCoin)) = sumZ (sn_AmountUnits <$> sp_Outpoints s).
Proof.
  assert (Hok : is_ok (PrepareFromRemoteSnapshot toy_wallet alice_io
    (toy_remote (50 * UnitsPerCoin)) bob_address (30 * UnitsPerCoin) 1 ∅) = true)
    by (vm_compute; reflexivity).
  destruct (PrepareFromRemoteSnapshot _ _ _ _ _ _ _) as [[s prepared]|e] eqn:Hb;
    [|discriminate Hok].
  exists s, prepared. split; [reflexivity|].
  destruct (remote_payment_checked toy_wallet alice_io (toy_remote (50 * UnitsPerCoin)) bob_address
              (30 * UnitsPerCoin) 1 ∅ s prepared Hb)
    as (keys & st & toPKH & change & chosen & signing & _ & _ & _ & _ & _ & Hunits & _).
  exact Hunits.
Defined.

(** Amounts reported by a gateway are not verified and are
    not covered by signatures: a gateway that reports Alice's output of fifty coins
    as two coins passes every check, and the payment of one coin with a fee of one
    unit that she signs is admitted by the chain with a fee of forty-eight coins
    and one unit. *)
Theorem remote_amount_unverified : exists s prepared,
  PrepareFromRemoteSnapshot toy_wallet alice_io (toy_remote (2 * UnitsPerCoin)) bob_address
    UnitsPerCoin 1 ∅ = Ok (s, prepared) /\
  sp_SpendableUnits s = 2 * UnitsPerCoin /\
  checkTxLocked RegTest (c_utxo Toy.c2) (pp_Tx prepared) 3 = Ok (48 * UnitsPerCoin + 1) /\
  (AcceptTxWithResult Toy.c2 (Some (pp_Tx prepared))).2 = Ok TxAcceptanceAdded.
Proof.
  assert (Hok : ('(s, prepared) ← PrepareFromRemoteSnapshot toy_wallet alice_io
                    (toy_remote (2 * UnitsPerCoin)) bob_address UnitsPerCoin 1 ∅;
                 fee ← checkTxLocked RegTest (c_utxo Toy.c2) (pp_Tx prepared) 3;
                 r ← (AcceptTxWithResult Toy.c2 (Some (pp_Tx prepared))).2;
                 Ok (sp_SpendableUnits s, fee, r))
                = Ok (2 * UnitsPerCoin, 48 * UnitsPerCoin + 1, TxAcceptanceAdded))
    by (vm_compute; reflexivity).
  apply bind_Ok in Hok as ([s prepared] & Hp & Hok). apply bind_Ok in Hok as (fee & Hfee & Hok).
  apply bind_Ok in Hok as (r & Hr & Hok). exists s, prepared. apply Ok_inj in Hok.
  injection Hok as H1 H2 H3. split; [exact Hp|]. split; [exact H1|].
  rewrite Hfee, Hr, H2, H3. split; reflexivity.
Qed.

(** The wallet snapshot hash commits to the network, the tip,
    the addresses and every listed output: two snapshots with the same hash agree on
    all of them, or two different inputs with the same SHA-256 digest are known. *)
Theorem snapshot_hash_commits `{Crypto} s1 s2 h :
  snapshot_typed s1 -> snapshot_typed s2 -> hashSnapshot s1 = Ok h -> hashSnapshot s2 = Ok h ->
  (sp_Network s1 = sp_Network s2 /\ sp_Tip s1 = sp_Tip s2 /\
   sp_PrimaryAddress s1 = sp_PrimaryAddress s2 /\ sp_Addresses s1 = sp_Addresses s2 /\
   committed <$> sp_Outpoints s1 = committed <$> sp_Outpoints s2) \/
  exists b1 b2, b1 <> b2 /\ Sum256 b1 = Sum256 b2.
Proof.
  intros Ht1 Ht2 H1 H2. unfold hashSnapshot in H1, H2.
  apply bind_Ok in H1 as (b1 & Hb1 & H1). apply bind_Ok in H2 as (b2 & Hb2 & H2).
  apply Ok_inj in H1. apply Ok_inj in H2. rewrite <- H2 in H1. apply (inj hex_encode) in H1.
  destruct (decide (b1 = b2)) as [->|Hne]; [left|right; by exists b1, b2].
  by eapply preimage_injective.
Qed.

(** The wallet's own snapshot and the validated answer of an honest gateway. *)
Definition toy_local : Snapshot :=
  match snapshotWithKeys Toy.c2 RegTestMachineID toy_tip [Toy.alice] with
  | Ok s => s | Err _ => mkSnapshot 0 "" toy_tip [] [] [] 0 [] end.
Definition toy_gateway : Snapshot :=
  match snapshotFromRemoteWithKeys RegTestMachineID (toy_remote (50 * UnitsPerCoin)) [Toy.alice] with
  | Ok s => s | Err _ => mkSnapshot 0 "" toy_tip [] [] [] 0 [] end.

Lemma toy_typed : snapshot_typed toy_local /\ snapshot_typed toy_gateway.
Proof.
  assert (Hout : forall o, length (sn_TxID o) = 32%nat -> sn_Vout o = 0 ->
            sn_OwnerAddressIndex o = 0 -> out_typed o).
  { intros o H1 H2 H3. split; rewrite ?H2, ?H3; done. }
  split; (split; [vm_compute; reflexivity|vm_compute; split; [discriminate|reflexivity]|]).
  - assert (Hl : exists o, sp_Outpoints toy_local = [o] /\ length (sn_TxID o) = 32%nat /\
              sn_Vout o = 0 /\ sn_OwnerAddressIndex o = 0)
      by (vm_compute; eexists; split; [reflexivity|split; [|split]; reflexivity]).
    destruct Hl as (o & -> & ? & ? & ?). constructor; [by apply Hout|constructor].
  - assert (Hl : exists o, sp_Outpoints toy_gateway = [o] /\ length (sn_TxID o) = 32%nat /\
              sn_Vout o = 0 /\ sn_OwnerAddressIndex o = 0)
      by (vm_compute; eexists; split; [reflexivity|split; [|split]; reflexivity]).
    destruct Hl as (o & -> & ? & ? & ?). constructor; [by apply Hout|constructor].
Qed.

Lemma snapshot_hash_commits_witness :
  (sp_Network toy_local = sp_Network toy_gateway /\ sp_Tip toy_local = sp_Tip toy_gateway /\
   sp_PrimaryAddress toy_local = sp_PrimaryAddress toy_gateway /\
   sp_Addresses toy_local = sp_Addresses toy_gateway /\
   committed <$> sp_Outpoints toy_local = committed <$> sp_Outpoints toy_gateway) \/
  exists b1 b2, b1 <> b2 /\ Sum256 b1 = Sum256 b2.
Proof.
  apply (snapshot_hash_commits toy_local toy_gateway (sp_WalletSnapshotHash toy_local)
           (proj1 toy_typed) (proj2 toy_typed)); vm_compute; reflexivity.
Defined.
