(* ===== verification/StoreTheorems.v ===== *)
(** * The store: theorems

    Crash safety of a save, monotonicity of the durable work, the round trip of
    a save and a load across a crash, and the safety of a load. *)
From S2P Require Import Prelude Params Crypto Pow Wire Merkle Chain Ledger ChainInv ChainView.
From S2P Require Import Store StoreProofs Toy.

(** Every main-chain block fits the codec and is not in the future when the
    file is read back. *)
Definition storable_chain (p : Params) (clock : Z -> Z) (c : Chain) : Prop :=
  forall id bi, id ∈ c_mainIDs c -> c_index c !! id = Some bi -> 0 < bi_height bi ->
    storable p clock bi.

#[global] Instance storable_dec p clock bi : Decision (storable p clock bi).
Proof. unfold storable, not_future. destruct (asertActive _ _); apply _. Defined.

Definition storable_chainb (p : Params) (clock : Z -> Z) (c : Chain) : bool :=
  forallb (fun id => match c_index c !! id with
                     | Some bi => (bi_height bi <=? 0) || bool_decide (storable p clock bi)
                     | None => true
                     end) (c_mainIDs c).

Lemma storable_chainb_spec p clock c :
  storable_chainb p clock c = true -> storable_chain p clock c.
Proof.
  unfold storable_chainb. rewrite forallb_forall. intros Hall id bi Hid Hi Hh.
  apply list_elem_of_In in Hid. specialize (Hall _ Hid). cbn in Hall. rewrite Hi in Hall.
  apply orb_true_iff in Hall as [Hz|Hs]; bool_prop; [lia|done].
Qed.

Lemma storable_tail `{Crypto} p clock c l :
  chain_inv p c -> branch p (c_index c) (c_tip c) l -> storable_chain p clock c ->
  Forall (storable p clock) (tail l).
Proof.
  intros Hc Hb Hs. destruct (ci_main _ _ Hc) as (l' & Hb' & Hids & _).
  rewrite (branch_unique _ _ _ _ _ Hb' Hb) in *. clear l' Hb'.
  apply list.Forall_forall. intros bi Hin.
  apply list_elem_of_lookup in Hin as [i Hi].
  assert (Hl : l !! S i = Some bi) by (by destruct l).
  pose proof (branch_heights _ _ _ _ Hb _ _ Hl).
  pose proof (list_elem_of_lookup_2 _ _ _ Hl) as Hin.
  apply (Hs (bi_id bi)); [|by apply (branch_indexed _ _ _ _ Hb (ci_tip _ _ Hc))|lia].
  rewrite Hids. by apply list_elem_of_fmap_2.
Qed.

Lemma canonical_params network p :
  canonicalStoreParams network = Some p -> pow_params_ok p /\ supported p.
Proof.
  unfold canonicalStoreParams, supported.
  repeat case_decide; intros; simplify_eq; split; auto using pow_params_ok_reg, pow_params_ok_main.
Qed.

Lemma main_snapshot_fields `{Crypto} c snap :
  canonicalMainSnapshot c = Ok snap ->
  ms_params snap = c_params c /\ ms_tipID snap = bi_id (c_tip c) /\
  ms_tipHeight snap = bi_height (c_tip c) /\ ms_cumWork snap = bi_cumWork (c_tip c).
Proof. unfold canonicalMainSnapshot. intros Hs. res_simpl. done. Qed.

(** A fresh chain is an acceptable destination. *)
Lemma fresh_destination `{Crypto} p fresh :
  pow_params_ok p -> NewChain (Some p) = Ok fresh ->
  c_params fresh = p /\ validateLoadDestinationLocked fresh p = Ok tt.
Proof.
  intros Hpow Hn. pose proof (reachable_inv _ Hpow _ (reach_new _ _ Hn)) as Hi.
  assert (Hm : c_mempool fresh = ∅).
  { unfold NewChain in Hn. res_simpl. step_if Hn; [done|]. by res_simpl. }
  split; [apply Hi|]. unfold validateLoadDestinationLocked. rewrite Hn, (ci_params _ _ Hi).
  rewrite bool_decide_true by done. cbn [check mbind result_bind].
  unfold matchesCanonicalGenesisLocked, equalBlockBytes.
  rewrite Hm, map_size_empty, !Nat.eqb_refl, (ci_tip _ _ Hi), !bool_decide_true by done.
  rewrite !(proj2 (forallb_forall _ _)); [done| |].
  - intros [id bi] Hin. apply list_elem_of_In, elem_of_map_to_list in Hin. cbn. rewrite Hin.
    rewrite !Z.eqb_refl, Nat.eqb_refl, !bool_decide_true by done. done.
  - intros [op u] Hin. apply list_elem_of_In, elem_of_map_to_list in Hin. cbn.
    by rewrite bool_decide_true.
Qed.

(** The disk found after a restart. *)
Definition restart (f : option bytes) : Disk :=
  mkDisk ((fun b => mkFile b true mode0600) <$> f) [] None.

Lemma load_fresh `{Crypto} network p io clock fresh data s snap :
  canonicalStoreParams network = Some p -> NewChain (Some p) = Ok fresh ->
  decodeCanonicalSnapshot p clock data = Ok (s, snap, data) -> ms_params snap = p ->
  io_lock io = None -> io_read io = None -> io_release io = None ->
  LoadInto network io clock (fun x => x) (Some fresh) (restart (Some data))
  = (Some s, ms_tipHeight snap, None).
Proof.
  intros Hnet Hn Hd Hp Hl Hr Hrel. destruct (canonical_params _ _ Hnet) as [Hpow _].
  destruct (fresh_destination p fresh Hpow Hn) as [Hfp Hfd].
  destruct (decode_reachable p Hpow _ _ _ _ _ Hd) as (Hs & Hm & _).
  pose proof (reachable_inv _ Hpow _ Hs) as Hi.
  unfold LoadInto. rewrite Hnet, Hfd, Hl. unfold load_locked, readDurableSnapshotLocked, ReadFile.
  cbn [restart d_file fmap option_fmap option_map]. rewrite Hr. cbn [mbind result_bind fd_bytes].
  rewrite Hfp, Hd. cbn [mbind result_bind]. rewrite bool_decide_true by done.
  cbn [check mbind result_bind negb]. rewrite Hfd, bool_decide_true by done. cbn [negb].
  rewrite Hrel. cbn [join]. do 3 f_equal. rewrite <- (ci_params _ _ Hi), <- Hm. by destruct s.
Qed.

(** C22: A power failure at any point of a save, between any two
    system calls and whatever they returned, leaves a file that was possible
    before the save, or exactly the complete canonical snapshot of the saved
    chain, which decodes to its tip, height and work; never a torn file. *)
Theorem save_crash_safe `{Crypto} network io clock1 clock2 c d t e d' f :
  SaveSnapshot network io clock1 clock2 (Some c) d = (t, e) ->
  d' ∈ t_disk t :: t_trace t -> crash_file d' f ->
  crash_file d f \/
  exists data snap, f = Some data /\ canonicalMainSnapshot c = Ok snap /\
    encodeCanonicalSnapshot snap = Ok data /\ decodes_to (c_params c) clock1 data snap.
Proof.
  intros Hs Hd' Hcr.
  apply save_spec in Hs as [[-> _]|(snap & data & Hc & Hp & Hv & [Hd Ht] & _)].
  - left. apply elem_of_cons in Hd' as [->|[]%elem_of_nil]. done.
  - assert (Hon : old_or_new d data d')
      by (apply elem_of_cons in Hd' as [->|Hd']; [exact Hd|by apply Ht]).
    destruct (old_or_new_crash _ _ _ _ Hon Hcr) as [Hold| ->]; [by left|right].
    apply validateAndEncode_ok in Hv as [He Hdec].
    destruct (main_snapshot_fields _ _ Hc) as [Hpar _]. rewrite Hpar in Hdec. by exists data, snap.
Qed.

(** A save never replaces a stored chain by one with no
    more work: in every state it goes through the visible file is the old one,
    or the old one was missing or held a valid chain of strictly less work. *)
Theorem save_never_regresses `{Crypto} network io clock1 clock2 c d t e d' :
  SaveSnapshot network io clock1 clock2 (Some c) d = (t, e) ->
  d' ∈ t_disk t :: t_trace t ->
  d_file d' = d_file d \/ d_file d = None \/
  exists fd scratch cur, d_file d = Some fd /\
    decodeCanonicalSnapshot (c_params c) clock2 (fd_bytes fd) = Ok (scratch, cur, fd_bytes fd) /\
    ms_cumWork cur < bi_cumWork (c_tip c).
Proof.
  intros Hs Hd'.
  apply save_spec in Hs as [[-> _]|(snap & data & Hc & _ & _ & _ & [Hsame|Hm] & _)].
  - left. by apply elem_of_cons in Hd' as [->|[]%elem_of_nil].
  - left. by apply Hsame.
  - right. destruct (main_snapshot_fields _ _ Hc) as (Hp & _ & _ & Hw).
    unfold may_replace in Hm. by rewrite Hp, Hw in Hm.
Qed.

(** After a successful save and any crash, loading into a
    fresh chain succeeds and restores the saved chain: the same tip, main chain
    and UTXO set, an empty mempool, and a state the consensus code could have
    reached by itself. *)
Theorem saved_chain_reloads `{Crypto} network p io clock1 clock2 clock3 c d t f io' fresh :
  canonicalStoreParams network = Some p -> reachable p c -> storable_chain p clock3 c ->
  (forall fd, d_file d = Some fd -> fd_synced fd = true) ->
  SaveSnapshot network io clock1 clock2 (Some c) d = (t, None) ->
  crash_file (t_disk t) f -> NewChain (Some p) = Ok fresh ->
  io_lock io' = None -> io_read io' = None -> io_release io' = None ->
  exists c', LoadInto network io' clock3 (fun x => x) (Some fresh) (restart f)
             = (Some c', bi_height (c_tip c), None) /\
    c_tip c' = c_tip c /\ c_mainIDs c' = c_mainIDs c /\ c_utxo c' = c_utxo c /\
    c_mempool c' = ∅ /\ reachable p c'.
Proof.
  intros Hnet Hr Hst Hsync Hs Hcr Hn Hl Hrd Hrel.
  destruct (canonical_params _ _ Hnet) as [Hpow Hsup].
  pose proof (reachable_inv _ Hpow _ Hr) as Hc. pose proof (reachable_valid _ _ Hr) as Hval.
  destruct (ci_main _ _ Hc) as (l & Hb & _ & _).
  destruct (snapshot_round_trip p Hpow Hval c l fresh clock3 Hc Hb Hn Hsup
              (storable_tail _ _ _ _ Hc Hb Hst)) as (snap & s & Hsn & Hp & Hh & Henc & Hdec & Hhb).
  apply save_spec in Hs as [[_ He]|(snap' & data & Hsn' & _ & Hv & _ & _ & Hend)]; [done|].
  rewrite Hsn in Hsn'. apply Ok_inj in Hsn' as <-. apply validateAndEncode_ok in Hv as [Henc' _].
  rewrite Henc in Henc'. apply Ok_inj in Henc' as <-.
  destruct (Hend eq_refl) as [Hstale Hfile].
  assert (Hf : f = Some (frames (tail l))).
  { destruct Hcr as (e & He & Hsv). unfold entries in He. rewrite Hstale in He.
    apply elem_of_cons in He as [->|[]%elem_of_nil].
    destruct Hfile as [[m Hm]|[Hf1 Hf2]]; [rewrite Hm in Hsv|rewrite Hf1 in Hsv].
    - destruct Hsv as (b & -> & Hb'). by rewrite Hb'.
    - destruct (d_file d) as [fd|]; [|done]. cbn in Hf2. destruct Hsv as (b & -> & Hb').
      rewrite Hb' by auto. done. }
  subst f. exists s. destruct (holds_state p c l s Hc Hb Hhb) as (Ht & Hids & Hu & _).
  destruct (decode_reachable p Hpow _ _ _ _ _ Hdec) as (Hrs & Hm & _).
  split_and!; [|done..]. rewrite <- Hh. by eapply load_fresh.
Qed.

(** ** A save on a healthy file system *)
(** Every system call succeeds, [n] bytes are written, and an existing snapshot
    file is a private single-link regular file of the writer. *)
Record no_fault (io : IO) (n : Z) : Prop := {
  nf_lock : io_lock io = None; nf_release : io_release io = None; nf_read : io_read io = None;
  nf_temp : io_createTemp io = None; nf_abs : io_abs io = None; nf_inside : io_inside io = true;
  nf_write : io_write io = (n, None); nf_flush : io_flush io = None; nf_open : io_open io = None;
  nf_new : io_newFile io = true;
  nf_stat : exists uid mode, io_stat io = Ok (Some (mkFileInfo true 1 uid mode)) /\
    uid = u32 (io_euid io) /\ (mode = mode0600 \/ mode = mode0640);
  nf_chown : io_chown io = None; nf_chmod : io_chmod io = None; nf_sync : io_sync io = None;
  nf_close : io_close io = None; nf_replace : (io_replace io).1 = None;
  nf_dirOpen : io_dirOpen io = None; nf_dirSync : io_dirSync io = None;
  nf_dirClose : io_dirClose io = None;
}.

Lemma run_steps_ok l : Forall (fun s : Step => forall t, (s t).2 = None) l ->
  forall t, (run_steps l t).2 = None.
Proof.
  induction 1 as [|s l Hs _ IH]; intros t; [done|]. cbn [run_steps].
  specialize (Hs t). destruct (s t) as [t' e]. cbn in Hs. by rewrite Hs.
Qed.

Lemma prepare_no_fault io n t : no_fault io n -> (prepareStoreReplacement io t).2 = None.
Proof.
  intros Hnf. destruct (nf_stat _ _ Hnf) as (uid & mode & Hst & -> & Hmode).
  unfold prepareStoreReplacement.
  rewrite (nf_chmod _ _ Hnf), (nf_chown _ _ Hnf), (nf_open _ _ Hnf), (nf_new _ _ Hnf), Hst.
  cbn [fi_regular fi_nlink fi_uid fi_mode negb orb]. rewrite !Z.eqb_refl. cbn [negb].
  destruct (d_file _); [|done]. by destruct Hmode as [-> | ->].
Qed.

Lemma durableReplace_no_fault io data d :
  no_fault io (Z.of_nat (length data)) -> (durableReplace io data d).2 = None.
Proof.
  intros Hnf. unfold durableReplace. rewrite (nf_temp _ _ Hnf).
  pose proof (replace_steps_triple d data io _ (begin_pending d data mode0600)) as Hr.
  set (t0 := set_temp _ _) in *.
  assert (Hok : (run_steps (replace_steps io data) t0).2 = None).
  { apply run_steps_ok. unfold replace_steps, guard, short_write, write_data, flush, syncFile,
      closeFile, atomicReplaceStoreFile, finalizeStoreReplace.
    rewrite (nf_abs _ _ Hnf), (nf_inside _ _ Hnf), (nf_write _ _ Hnf), (nf_flush _ _ Hnf),
      (nf_sync _ _ Hnf), (nf_close _ _ Hnf), (nf_dirOpen _ _ Hnf), (nf_dirSync _ _ Hnf),
      (nf_dirClose _ _ Hnf). cbn [fst]. rewrite Z.eqb_refl.
    pose proof (nf_replace _ _ Hnf) as Hrep. destruct (io_replace io) as [? ?]. cbn in Hrep. subst.
    repeat (constructor; [first [done|intros t; by eapply prepare_no_fault]|]). constructor. }
  destruct (run_steps _ t0) as [t' e]. cbn in Hok. subst e.
  destruct Hr as (_ & _ & Hc & Hrp). unfold cleanup. by rewrite Hc, Hrp.
Qed.

(** On a healthy file system the save of a reachable chain
    succeeds when there is no snapshot yet or the stored chain has less work, so
    the crash-safety and round-trip theorems are about saves that happen. *)
Theorem save_succeeds `{Crypto} network p io clock1 clock2 c d snap data :
  canonicalStoreParams network = Some p -> reachable p c -> storable_chain p clock1 c ->
  canonicalMainSnapshot c = Ok snap -> encodeCanonicalSnapshot snap = Ok data ->
  no_fault io (Z.of_nat (length data)) ->
  may_replace p clock2 d snap ->
  (SaveSnapshot network io clock1 clock2 (Some c) d).2 = None.
Proof.
  intros Hnet Hr Hst Hsn Henc Hnf Hmay. destruct (canonical_params _ _ Hnet) as [Hpow Hsup].
  pose proof (reachable_inv _ Hpow _ Hr) as Hc. pose proof (reachable_valid _ _ Hr) as Hval.
  destruct (ci_main _ _ Hc) as (l & Hb & _ & _). destruct (reachable_fresh _ _ Hr) as [fresh Hn].
  destruct (snapshot_round_trip p Hpow Hval c l fresh clock1 Hc Hb Hn Hsup
              (storable_tail _ _ _ _ Hc Hb Hst)) as (snap' & s & Hsn' & Hp & _ & Henc' & Hdec & _).
  rewrite Hsn in Hsn'. apply Ok_inj in Hsn' as <-. rewrite Henc in Henc'.
  apply Ok_inj in Henc'. rewrite <- Henc' in Hdec.
  unfold SaveSnapshot. rewrite (nf_lock _ _ Hnf). unfold save_locked.
  rewrite Hsn, Hp, Hnet, bool_decide_true by done. cbn [negb].
  assert (validateAndEncodeCanonicalSnapshot clock1 snap = Ok data) as ->.
  { unfold validateAndEncodeCanonicalSnapshot. rewrite Henc, Hp. cbn [mbind result_bind].
    rewrite Hdec. cbn [mbind result_bind]. by rewrite !Z.eqb_refl, !bool_decide_true. }
  pose proof (durableReplace_no_fault io data d Hnf) as Hok.
  assert (Hrel : forall r : Txn * option error, r.2 = None ->
    (let '(t, e) := r in (t, join e (io_release io))).2 = None).
  { intros [t e] He. cbn in He |- *. by rewrite He, (nf_release _ _ Hnf). }
  apply Hrel. unfold readDurableSnapshotLocked, ReadFile.
  destruct Hmay as [Hd|(fd & scratch & cur & Hd & Hcur & Hlt)]; rewrite Hd.
  - cbn [mbind result_bind]. rewrite Hn. cbn [mbind result_bind].
    destruct (ci_main _ _ (reachable_inv _ Hpow _ (reach_new _ _ Hn))) as (l0 & Hb0 & _ & _).
    rewrite (main_snapshot_ok p Hpow fresh l0 (reachable_inv _ Hpow _ (reach_new _ _ Hn)) Hb0).
    done.
  - rewrite (nf_read _ _ Hnf). cbn [mbind result_bind]. rewrite Hcur. cbn [mbind result_bind].
    rewrite bool_decide_true by done. cbn [check mbind result_bind negb].
    rewrite (proj2 (Z.compare_gt_iff _ _)) by lia. done.
Qed.

(** A load leaves the destination as other goroutines left it, or
    installs a chain decoded from the file; it installs only over a chain that is
    still in the state of [NewChain], and what it installs is reachable, so every
    invariant of the consensus state survives a restart whatever the file holds. *)
Theorem load_is_safe `{Crypto} network p io clock between c d c' h e :
  canonicalStoreParams network = Some p -> reachable p (between c) ->
  LoadInto network io clock between (Some c) d = (Some c', h, e) ->
  c' = c \/ c' = between c \/
  exists fd snap, d_file d = Some fd /\ NewChain (Some p) = Ok (between c) /\
    decodeCanonicalSnapshot p clock (fd_bytes fd) = Ok (c', snap, fd_bytes fd) /\
    reachable p c' /\ h = bi_height (c_tip c').
Proof.
  intros Hnet Hr Hl. destruct (canonical_params _ _ Hnet) as [Hpow _].
  unfold LoadInto in Hl. rewrite Hnet in Hl.
  destruct (validateLoadDestinationLocked c p) as [[]|] eqn:Hv; [|left; by simplify_eq].
  destruct (io_lock io); [left; by simplify_eq|].
  assert (Hcp : c_params c = p) by (unfold validateLoadDestinationLocked in Hv; res_simpl; by bool_prop).
  unfold load_locked in Hl. rewrite Hcp in Hl. right.
  destruct (readDurableSnapshotLocked p io clock d) as [[[[s snap] data] ex]|] eqn:Hrd;
    [|left; by simplify_eq].
  apply read_durable_ok in Hrd. destruct ex; cbn [negb] in Hl; [|left; by simplify_eq].
  destruct Hrd as (fd & Hf & -> & Hdec).
  destruct (validateLoadDestinationLocked (between c) p) as [[]|] eqn:Hv'; [|left; by simplify_eq].
  destruct (bool_decide_reflect (ms_params snap = p)) as [Hsp|]; cbn [negb] in Hl;
    [|left; by simplify_eq].
  right. destruct (decode_reachable p Hpow _ _ _ _ _ Hdec) as (Hs & Hm & Hsn).
  destruct (main_snapshot_fields _ _ Hsn) as (Hp & _ & Hh & _).
  unfold validateLoadDestinationLocked in Hv'. res_simpl. bool_prop.
  destruct (NewChain (Some p)) as [fresh|] eqn:Hn; [|done]. res_simpl.
  rename select (matchesCanonicalGenesisLocked _ _ = true) into Hmatch.
  pose proof (matches_genesis p Hpow _ _ Hr Hn Hmatch) as Hbc.
  assert (c' = s /\ h = ms_tipHeight snap) as [-> ->].
  { injection Hl as Hl <- _. split; [|done]. rewrite <- Hl.
    rewrite (ci_params _ _ (reachable_inv _ Hpow _ Hr)), <- Hsp, Hp, <- Hm. by destruct s. }
  exists fd, snap. split_and!; [done|by rewrite Hbc|done|done|done].
Qed.

(** ** The toy history on disk *)
Definition ideal_io (n : Z) : IO :=
  mkIO None None None None None true (n, None) None None true
    (Ok (Some (mkFileInfo true 1 0 mode0600))) 0 None None None None None (None, true)
    None None None None.
Definition empty_disk : Disk := mkDisk None [] None.
Definition toy_clock (_ : Z) : Z := Toy.now.
Definition toy_snap : MainSnapshot :=
  match canonicalMainSnapshot Toy.c3 with Ok s => s | Err _ => mkMainSnapshot RegTest [] 0 0 [] end.
Definition toy_data : bytes :=
  match encodeCanonicalSnapshot toy_snap with Ok b => b | Err _ => [] end.
Definition toy_io : IO := ideal_io (Z.of_nat (length toy_data)).
Definition toy_save : Txn * option error :=
  SaveSnapshot "regtest" toy_io toy_clock toy_clock (Some Toy.c3) empty_disk.

Lemma toy_snap_ok : canonicalMainSnapshot Toy.c3 = Ok toy_snap.
Proof. apply result_ok_get. vm_compute. reflexivity. Qed.
Lemma toy_data_ok : encodeCanonicalSnapshot toy_snap = Ok toy_data.
Proof. apply result_ok_get. vm_compute. reflexivity. Qed.
Lemma toy_no_fault : no_fault toy_io (Z.of_nat (length toy_data)).
Proof. split; try reflexivity. exists 0, mode0600. by split_and!; [..|left]. Qed.
Lemma toy_storable : storable_chain RegTest toy_clock Toy.c3.
Proof. apply storable_chainb_spec. vm_compute. reflexivity. Qed.
Lemma toy_save_ok : toy_save.2 = None.
Proof. vm_compute. reflexivity. Qed.
Lemma toy_save_file : d_file (t_disk toy_save.1) = Some (mkFile toy_data true mode0600).
Proof. vm_compute. reflexivity. Qed.
Lemma toy_crash : crash_file (t_disk toy_save.1) (Some toy_data).
Proof.
  exists (d_file (t_disk toy_save.1)). split; [left|]. rewrite toy_save_file. by exists toy_data.
Qed.

Lemma save_crash_safe_witness :
  crash_file empty_disk (Some toy_data) \/
  exists data snap, Some toy_data = Some data /\ canonicalMainSnapshot Toy.c3 = Ok snap /\
    encodeCanonicalSnapshot snap = Ok data /\ decodes_to (c_params Toy.c3) toy_clock data snap.
Proof.
  apply (save_crash_safe "regtest" toy_io toy_clock toy_clock Toy.c3 empty_disk
           toy_save.1 toy_save.2 (t_disk toy_save.1) (Some toy_data)).
  - apply surjective_pairing.
  - left.
  - apply toy_crash.
Defined.

Lemma save_never_regresses_witness :
  d_file (t_disk toy_save.1) = None \/ d_file empty_disk = None \/
  exists fd scratch cur, d_file empty_disk = Some fd /\
    decodeCanonicalSnapshot (c_params Toy.c3) toy_clock (fd_bytes fd) = Ok (scratch, cur, fd_bytes fd) /\
    ms_cumWork cur < bi_cumWork (c_tip Toy.c3).
Proof.
  apply (save_never_regresses "regtest" toy_io toy_clock toy_clock Toy.c3 empty_disk
           toy_save.1 toy_save.2 (t_disk toy_save.1)).
  - apply surjective_pairing.
  - left.
Defined.

Lemma saved_chain_reloads_witness :
  exists c', LoadInto "regtest" toy_io toy_clock (fun x => x) (Some Toy.c0) (restart (Some toy_data))
             = (Some c', bi_height (c_tip Toy.c3), None) /\
    c_tip c' = c_tip Toy.c3 /\ c_mainIDs c' = c_mainIDs Toy.c3 /\ c_utxo c' = c_utxo Toy.c3 /\
    c_mempool c' = ∅ /\ reachable RegTest c'.
Proof.
  apply (saved_chain_reloads "regtest" RegTest toy_io toy_clock toy_clock toy_clock Toy.c3
           empty_disk toy_save.1 (Some toy_data) toy_io Toy.c0).
  - reflexivity.
  - apply Toy.c3_reachable.
  - apply toy_storable.
  - discriminate.
  - apply pair_snd. apply toy_save_ok.
  - apply toy_crash.
  - apply Toy.c0_new.
  - reflexivity.
  - reflexivity.
  - reflexivity.
Defined.

Lemma save_succeeds_witness : toy_save.2 = None.
Proof.
  unfold toy_save.
  apply (save_succeeds "regtest" RegTest toy_io toy_clock toy_clock Toy.c3 empty_disk toy_snap
           toy_data).
  - reflexivity.
  - apply Toy.c3_reachable.
  - apply toy_storable.
  - apply toy_snap_ok.
  - apply toy_data_ok.
  - apply toy_no_fault.
  - left. reflexivity.
Defined.

Lemma LoadInto_some `{Crypto} network io clock between c d :
  exists c' h e, LoadInto network io clock between (Some c) d = (Some c', h, e).
Proof.
  unfold LoadInto. destruct (canonicalStoreParams network); [|eauto].
  destruct (validateLoadDestinationLocked c _), (io_lock io); eauto.
  destruct (load_locked _ _ _ _ _ _) as [c' []]; eauto.
Qed.

Lemma load_is_safe_witness :
  exists c' h e, LoadInto "regtest" toy_io toy_clock (fun x => x) (Some Toy.c0)
                   (restart (Some toy_data)) = (Some c', h, e) /\
  (c' = Toy.c0 \/ c' = Toy.c0 \/
   exists fd snap, d_file (restart (Some toy_data)) = Some fd /\ NewChain (Some RegTest) = Ok Toy.c0 /\
     decodeCanonicalSnapshot RegTest toy_clock (fd_bytes fd) = Ok (c', snap, fd_bytes fd) /\
     reachable RegTest c' /\ h = bi_height (c_tip c')).
Proof.
  destruct (LoadInto_some "regtest" toy_io toy_clock (fun x => x) Toy.c0 (restart (Some toy_data)))
    as (c' & h & e & Hl).
  exists c', h, e. split; [exact Hl|].
  apply (load_is_safe "regtest" RegTest toy_io toy_clock (fun x => x) Toy.c0 _ c' h e).
  - reflexivity.
  - exact (reach_new _ _ Toy.c0_new).
  - exact Hl.
Defined.
