(* ===== verification/PplnsTheorems.v ===== *)
(** * The share window and its payouts: theorems *)
From S2P Require Import Prelude Text Params Crypto Pow Wire Address Merkle Chain ChainView.
From S2P Require Import Pplns PplnsProofs PplnsFile Toy.

(** C27: A payout spends exactly the reward.  It has one output
    per address of the window, in address order; every output is positive and is
    the address's part of the reward in proportion to the work of its shares,
    rounded down or up to a unit. *)
Theorem pplns_payouts_fair `{Crypto} state reward outs :
  pplnsPayouts state reward = Ok outs ->
  sumZ (out_Value <$> outs) = reward /\
  exists addrs, NoDup addrs /\ StronglySorted bytes_le addrs /\
    (forall a, a ∈ addrs <-> a ∈ sh_Address <$> ps_Shares state) /\
    Forall2 (fun a o => payout_pkh a = Some (out_PubKeyHash o) /\ 0 < out_Value o /\
      let part := reward * address_work (ps_Shares state) a
                  / sumZ (share_work <$> ps_Shares state) in
      part <= out_Value o <= part + 1) addrs outs.
Proof.
  unfold pplnsPayouts, pplnsOutputsFromWork. intros Hp. res_simpl.
  fold (window_weights (ps_Shares state)) in Hp.
  apply outputs_fair in Hp as (Hs & ws' & Hperm & Hsorted & Hall); [|done].
  split; [done|]. exists (fst <$> ws'). split_and!; [|done| |].
  - rewrite Hperm. apply NoDup_fst_map_to_list.
  - intros a. rewrite Hperm, list_elem_of_fmap. split.
    + intros ([a' w] & -> & Hin). by apply window_weights_elem in Hin as [? _].
    + intros Ha. exists (a, address_work (ps_Shares state) a). split; [done|].
      by apply window_weights_elem.
  - apply Forall2_fmap_l. fold (map_sum (window_weights (ps_Shares state))) in Hall.
    rewrite window_weights_total in Hall.
    assert (Hw : Forall (fun aw => aw.2 = address_work (ps_Shares state) aw.1) ws').
    { rewrite Hperm. apply list.Forall_forall. intros [a w] Hin.
      by apply window_weights_elem in Hin as [_ ->]. }
    clear -Hall Hw. induction Hall as [|aw o ws l Ho Hall IH]; [constructor|].
    apply Forall_cons_1 in Hw as [Ha Hw]. constructor; [|by apply IH].
    unfold compose. rewrite <- Ha. exact Ho.
Qed.

Lemma units_bound T reward (ws : list (bytes * Z)) :
  Forall (fun aw => T <= reward * aw.2) ws ->
  Z.of_nat (length ws) * T <= reward * sumZ (snd <$> ws).
Proof. induction 1; cbn [length fmap list_fmap sumZ]; lia. Qed.

(** A valid window of at most 4096 shares and 256
    addresses, the limits of its configuration, can always be paid when every
    address did enough work to earn one unit; the rounding checks never fail. *)
Theorem pplns_payouts_defined `{Crypto} state reward :
  validatePPLNSState state (ps_Network state) (ps_WindowShares state) (ps_MaxAddresses state) = Ok tt ->
  ps_Network state = MainNetMachineID \/ ps_Network state = RegTestMachineID ->
  ps_Shares state <> [] -> ps_WindowShares state <= 4096 -> ps_MaxAddresses state <= 256 ->
  0 < reward <= MaxMoneyUnits ->
  (forall a, a ∈ sh_Address <$> ps_Shares state ->
     sumZ (share_work <$> ps_Shares state) <= reward * address_work (ps_Shares state) a) ->
  exists outs, pplnsPayouts state reward = Ok outs.
Proof.
  intros Hv Hnet Hne Hws Hma Hr Hmin. pose proof Hv as Hv'.
  apply validate_state_spec in Hv' as (Hlen & _ & Hall & Haddr & _).
  set (l := ps_Shares state) in *. set (A := list_to_set (C := gset bytes) (sh_Address <$> l)) in *.
  pose proof (works_bound _ _ Hall) as Hw.
  assert (Hpos : 0 < sumZ (share_work <$> l)) by (destruct l; [done|]; cbn [length] in Hw; lia).
  assert (Hle : Z.of_nat (size A) <= reward).
  { assert (Z.of_nat (size A) * sumZ (share_work <$> l) <= reward * sumZ (share_work <$> l)); [|nia].
    unfold A. rewrite <- window_weights_dom, size_dom, <- length_map_to_list.
    rewrite <- (window_weights_total l) at 2. apply units_bound, list.Forall_forall.
    intros [a w] [Ha ->]%window_weights_elem. by apply Hmin. }
  unfold pplnsPayouts, pplnsOutputsFromWork.
  rewrite (proj2 (Z.leb_gt reward 0)), (proj2 (MoneyRange_spec reward)) by lia.
  cbn [orb negb check mbind result_bind]. fold l.
  rewrite (proj2 (Nat.eqb_neq (length l) 0)) by (by destruct l).
  cbn [orb negb check mbind result_bind].
  assert (bool_decide (ps_Network state = MainNetMachineID)
          || bool_decide (ps_Network state = RegTestMachineID) = true) as ->.
  { apply orb_true_iff. by rewrite !bool_decide_eq_true. }
  cbn [check mbind result_bind]. rewrite Hv. cbn [mbind result_bind].
  fold (window_weights l). apply outputs_defined; [done| |].
  - apply (window_weights_ok (ps_Network state)); try done; fold A; lia.
  - fold (map_sum (window_weights l)). rewrite window_weights_total.
    apply list.Forall_forall. intros [a w] [Ha ->]%window_weights_elem. by apply Hmin.
Qed.

(** The payout does not depend on the order in which
    Go iterates over the map of weights, in either loop: every node that knows
    the window computes the same coinbase. *)
Theorem pplns_order_independent `{Crypto} weights reward ws1 ws2 outs :
  ws1 ≡ₚ map_to_list weights -> ws2 ≡ₚ map_to_list weights ->
  outputs_in_order ws1 ws2 reward = Ok outs <-> pplnsOutputsFromWork weights reward = Ok outs.
Proof.
  intros H1 H2. apply outputs_deterministic; [|done..|by rewrite H1].
  rewrite H2. apply NoDup_fst_map_to_list.
Qed.

(** C28: Whatever submissions arrive and whatever happens to
    the state file, the window holds exactly the last [WindowShares] accepted
    shares; accepted shares are numbered 1, 2, 3, ... without gaps, and inside
    the window no (job, nonce) appears twice, every share is valid and at most
    [MaxAddresses] addresses are paid. *)
Theorem pplns_window_history `{Crypto} network n m l w hist :
  0 < n -> 0 <= m -> run_attempts (fresh_window network n m) l = (w, hist) ->
  ps_Shares (w_state w) = last_n (Z.to_nat n) hist /\
  (forall i s, hist !! i = Some s -> sh_Sequence s = Z.of_nat i + 1) /\
  ps_NextSequence (w_state w) = Z.of_nat (length hist) + 1 /\
  NoDup (pplnsShareKey <$> ps_Shares (w_state w)) /\
  Forall (share_valid network) (ps_Shares (w_state w)) /\
  Z.of_nat (size (list_to_set (C := gset bytes) (sh_Address <$> ps_Shares (w_state w)))) <= m.
Proof.
  intros Hn Hm Hrun. destruct (run_attempts_inv network n m l w hist Hn Hm Hrun)
    as [_ [Hnx _] Hsh Hseq (Hv & Hnd & Ha)]. by split_and!.
Qed.

(** The bytes of the hexadecimal fields of a share. *)
Definition field_bytes (s : PPLNSShare) : Z :=
  Z.of_nat (length (sh_JobID s) + length (sh_ShareHash s) + length (sh_ShareTarget s)
            + length (sh_TipHash s)).

Lemma canonical_hex_size n v raw : canonical_hex n v = Some raw -> length v = (2 * n)%nat.
Proof.
  unfold canonical_hex. destruct (hex_decode v) as [r|]; [|done]. intros Hc. step_if Hc; [done|].
  bool_prop. simplify_eq. rename select ((_ =? _)%nat = true) into Hl.
  apply Nat.eqb_eq in Hl. rewrite length_hex_encode. lia.
Qed.

Lemma share_field_bytes `{Crypto} network s : share_valid network s -> field_bytes s = 224.
Proof.
  intros (Hv & t & Ht & _). unfold validatePPLNSShare in Hv. res_simpl. unfold validLowerHex in *. bool_prop.
  unfold parseCanonicalTarget in Ht. destruct (canonical_hex 32 (sh_ShareTarget s)) as [raw|] eqn:Ec; [|done].
  apply canonical_hex_size in Ec. unfold field_bytes. lia.
Qed.

(** The configuration allows windows of up to 4096 shares, but a state
    of 1171 shares never fits the size limit of its file: once a window that is
    configured larger holds 1170 shares, every further share is refused. *)
Theorem large_window_stuck `{Crypto} marshal hardLink written w share :
  (forall s enc, marshal s = Ok enc -> sumZ (field_bytes <$> ps_Shares s) <= Z.of_nat (length enc)) ->
  1170 <= Z.of_nat (length (ps_Shares (w_state w))) -> 1170 < ps_WindowShares (w_state w) ->
  exists e, Accept marshal hardLink written w share = (w, Err e).
Proof.
  intros Hjson Hlen Hws. unfold Accept.
  destruct (accept_candidate marshal hardLink w share) as [[[cand enc] sh]|e] eqn:E; [exfalso|by exists e].
  unfold accept_candidate in E. res_simpl. simplify_eq. bool_prop.
  rename select (validatePPLNSState _ _ _ _ = _) into Hv.
  match type of Hv with _ = Ok ?x => destruct x end.
  apply validate_state_spec in Hv as (_ & _ & Hall & _). rename select (marshal _ = _) into Hm.
  apply Hjson in Hm. rename select (Z.of_nat (length (_ ++ [_])) <= _) into Hfit.
  rewrite length_app in Hfit. cbn [length] in Hfit. unfold maxPPLNSStateBytes in Hfit.
  set (cand := append_share _ _) in *.
  assert (Hsum : sumZ (field_bytes <$> ps_Shares cand) = 224 * Z.of_nat (length (ps_Shares cand))).
  { clear -Hall. induction Hall as [|s l Hs _ IH]; [done|]. rewrite fmap_cons. cbn [sumZ length].
    rewrite IH, (share_field_bytes _ _ Hs). lia. }
  assert (Hn : 1171 <= Z.of_nat (length (ps_Shares cand))).
  { unfold cand, append_share. cbn [ps_Shares]. rewrite Z.gtb_ltb.
    match goal with |- context [if ?b then _ else _] => destruct b eqn:Eb end;
      rewrite ?length_drop, length_app; cbn [length]; rewrite ?length_app in *; cbn [length] in *; lia. }
  lia.
Qed.

(** ** A small window *)
Definition toy_share (k job : bytes) (nonce : Z) : PPLNSShare :=
  mkShare 0 (EncodeAddress (Toy.pkh_of k)) job nonce (hex_encode (zeros 32))
    (hex_encode (be_bytes 32 (2 ^ 250))) (hex_encode (zeros 32)) 1 Toy.now.
Definition toy_job : bytes := hex_encode (zeros 16).
Definition toy_attempt (k : bytes) (nonce : Z) : attempt :=
  mkAttempt (fun _ => Ok []) None (None, true) (toy_share k toy_job nonce).
Definition toy_attempts : list attempt :=
  [toy_attempt Toy.alice 1; toy_attempt Toy.bob 2; toy_attempt Toy.bob 2; toy_attempt Toy.bob 3;
   toy_attempt Toy.alice 4].
Definition toy_run : PPLNSWindow * list PPLNSShare :=
  run_attempts (fresh_window RegTestMachineID 3 2) toy_attempts.
Definition toy_state : PPLNSSnapshot := w_state toy_run.1.

Lemma toy_run_length : length toy_run.2 = 4%nat /\ length (ps_Shares toy_state) = 3%nat.
Proof. split; vm_compute; reflexivity. Qed.

Lemma pplns_window_history_witness :
  ps_Shares toy_state = last_n 3 toy_run.2 /\ ps_NextSequence toy_state = 5.
Proof.
  destruct (pplns_window_history RegTestMachineID 3 2 toy_attempts toy_run.1 toy_run.2)
    as (H1 & _ & H2 & _).
  - lia.
  - lia.
  - unfold toy_run. apply surjective_pairing.
  - split; [exact H1|]. unfold toy_state. rewrite H2, (proj1 toy_run_length). reflexivity.
Defined.

Definition toy_payouts : list TxOut :=
  match pplnsPayouts toy_state 1000 with Ok o => o | Err _ => [] end.

Lemma pplns_payouts_fair_witness :
  out_Value <$> toy_payouts = [667; 333] /\ sumZ (out_Value <$> toy_payouts) = 1000.
Proof.
  split; [vm_compute; reflexivity|]. apply (pplns_payouts_fair toy_state 1000 toy_payouts). vm_compute. reflexivity.
Defined.

Lemma pplns_payouts_defined_witness : exists outs, pplnsPayouts toy_state 1000 = Ok outs.
Proof.
  apply pplns_payouts_defined.
  - vm_compute. reflexivity.
  - right. vm_compute. reflexivity.
  - intros Hn. pose proof (proj2 toy_run_length) as Hl. rewrite Hn in Hl. discriminate Hl.
  - vm_compute. discriminate.
  - vm_compute. discriminate.
  - unfold MaxMoneyUnits, UnitsPerCoin. lia.
  - apply list.Forall_forall. apply (bool_decide_unpack _). vm_compute. exact I.
Defined.

Definition toy_weights : gmap bytes Z := window_weights (ps_Shares toy_state).

Lemma pplns_order_independent_witness :
  outputs_in_order (reverse (map_to_list toy_weights)) (map_to_list toy_weights) 1000 = Ok toy_payouts.
Proof.
  apply (pplns_order_independent toy_weights 1000).
  - apply reverse_Permutation.
  - reflexivity.
  - vm_compute. reflexivity.
Defined.

(** The guard [reward >= len(weights)] does not make every output positive: an
    address whose part rounds to nothing makes the whole payout fail. *)
Example small_weight_blocks_payout :
  pplnsOutputsFromWork
    {[EncodeAddress (Toy.pkh_of Toy.alice) := 1; EncodeAddress (Toy.pkh_of Toy.bob) := 1000000]} 1000
  = Err (EText "PPLNS payout invariant failed").
Proof. vm_compute. reflexivity. Qed.

(** ** A restart of the small window *)
#[local] Instance share_eq_dec : EqDecision PPLNSShare.
Proof. solve_decision. Defined.
#[local] Instance snapshot_eq_dec : EqDecision PPLNSSnapshot.
Proof. solve_decision. Defined.
Definition share_parts (s : PPLNSShare) : (Z * Z * Z * Z) * list bytes :=
  ((sh_Sequence s, sh_Nonce s, sh_TipHeight s, sh_AcceptedAt s),
   [sh_Address s; sh_JobID s; sh_ShareHash s; sh_ShareTarget s; sh_TipHash s]).
Definition share_of (x : (Z * Z * Z * Z) * list bytes) : PPLNSShare :=
  match x with
  | ((a, d, h, i), [b; c; e; f; g]) => mkShare a b c d e f g h i
  | ((a, d, h, i), _) => mkShare a [] [] d [] [] [] h i
  end.
Lemma share_of_parts s : share_of (share_parts s) = s.
Proof. by destruct s. Qed.
#[local] Instance share_countable : Countable PPLNSShare := inj_countable' share_parts share_of share_of_parts.
#[local] Program Instance snapshot_countable : Countable PPLNSSnapshot :=
  inj_countable' (fun s => (ps_SchemaVersion s, ps_Network s, ps_WindowShares s, ps_MaxAddresses s,
                            ps_NextSequence s, ps_Shares s))
    (fun '(a, b, c, d, e, f) => mkPPLNSSnapshot a b c d e f) _.
Next Obligation. by intros []. Qed.

(** An encoder that writes the binary digits of a numbering of the snapshots. *)
Fixpoint digits (p : positive) : bytes :=
  match p with xH => [] | xO p => Byte.x30 :: digits p | xI p => Byte.x31 :: digits p end.
Fixpoint of_digits (b : bytes) : positive :=
  match b with
  | Byte.x30 :: b => xO (of_digits b)
  | Byte.x31 :: b => xI (of_digits b)
  | _ => xH
  end.
Lemma of_digits_file p : of_digits (digits p ++ [Byte.x0a]) = p.
Proof. induction p as [p IH|p IH|]; cbn; by rewrite ?IH. Qed.

Definition digit_marshal (s : PPLNSSnapshot) : result bytes := Ok (digits (encode s)).
#[local] Instance digit_decoder : SnapshotDecoder := {|
  json_tokens _ := tokens JAtom;
  json_Unmarshal f := match decode (of_digits f) with Some s => Ok s | None => Err (EText "syntax") end;
  json_trailing _ := false |}.

Lemma digit_round_trip : json_round_trip digit_marshal.
Proof.
  intros s enc [= <-]. cbn [json_Unmarshal json_trailing json_tokens digit_decoder].
  rewrite of_digits_file, decode_encode. split_and!; try done. by exists JAtom.
Qed.

Definition restart_attempts : list attempt :=
  [mkAttempt digit_marshal None (None, true) (toy_share Toy.alice toy_job 1);
   mkAttempt digit_marshal None (Some (EText "disk full"), false) (toy_share Toy.bob toy_job 2);
   mkAttempt digit_marshal None (None, true) (toy_share Toy.bob toy_job 3)].
Definition restart_run : PPLNSWindow * list PPLNSShare :=
  run_attempts (fresh_window RegTestMachineID 3 2) restart_attempts.

Lemma window_survives_restart_witness :
  sh_Nonce <$> restart_run.2 = [1; 3] /\
  exists w', NewPPLNSWindow RegTestMachineID (mkPPLNSWindowConfig 3 2) (Ok tt) (Ok tt) None
      (reopened restart_run.1) = Ok w' /\ w_state w' = w_state restart_run.1.
Proof.
  split; [vm_compute; reflexivity|].
  destruct (window_survives_restart digit_marshal RegTestMachineID 3 2 restart_attempts restart_run.1
    restart_run.2) as (w' & Hw & Hs & _).
  - exact digit_round_trip.
  - by right.
  - lia.
  - lia.
  - lia.
  - repeat (apply Forall_cons_2; [by split|]). apply Forall_nil_2.
  - unfold restart_run. apply surjective_pairing.
  - exists w'. split; [exact Hw|exact Hs].
Defined.

Definition big_window : PPLNSWindow :=
  mkWindow (mkPPLNSSnapshot pplnsStateSchemaVersion RegTestMachineID 4096 2 1171
    (replicate 1170 (toy_share Toy.alice toy_job 1))) false None.

Lemma large_window_stuck_witness :
  exists e, Accept (fun s => Ok (replicate (Z.to_nat (sumZ (field_bytes <$> ps_Shares s))) Byte.x20)) None
    (None, true) big_window (toy_share Toy.bob toy_job 2) = (big_window, Err e).
Proof.
  apply large_window_stuck.
  - intros s enc [= <-]. rewrite length_replicate. lia.
  - unfold big_window. cbn [w_state ps_Shares]. rewrite length_replicate. lia.
  - reflexivity.
Defined.
