(* ===== verification/CoordinatorTheorems.v ===== *)
(** * What the miner and the mining coordinator guarantee *)
From S2P Require Import Prelude Text Params Crypto Pow Wire Merkle Address Chain Ledger Sanity.
From S2P Require Import ChainInv ChainView Supply Miner Toy Pplns Coordinator.

(** C14: A template built on a reachable state, with any
    nonce that satisfies the proof of work, is accepted as the new tip by
    [acceptBlockLocked]: its transactions are sane and connect in the order
    chosen, the coinbase claims exactly subsidy plus fees, size, difficulty bits
    and Merkle root are right; only the clock rule is left to the caller. *)
Theorem mined_template_accepted `{Crypto} p c build now n blk :
  pow_params_ok p -> reachable p c -> template_fresh c blk ->
  BuildBlockTemplateWithCoinbase (Some c) (Some build) now = Ok blk ->
  let mined := mkBlock (with_nonce (blk_Header blk) n) (blk_Txs blk) in
  c_index c !! Header_ID (blk_Header mined) = None ->
  checkBlockTimestamp c (c_tip c) (bi_height (c_tip c) + 1) (hdr_Time (blk_Header mined)) now
    = Ok tt ->
  CheckPow (blk_Header mined) p = true ->
  exists c' bi, acceptBlockLocked c mined true now = (c', Ok (Some bi)) /\
    bi_block bi = mined /\ c_tip c' = bi.
Proof.
  intros Hp Hr Hf Hb. apply (mined_template_connects p c Hp (reachable_inv _ Hp _ Hr) build now n blk);
    done.
Qed.

Definition alice_builder (h r : Z) : option Tx :=
  Some (NewCoinbase h r (Toy.pkh_of Toy.alice) (bs "pool")).

Definition toy_template : Block :=
  match BuildBlockTemplateWithCoinbase (Some Toy.c2m) (Some alice_builder) Toy.now with
  | Ok b => b
  | Err _ => Toy.b1
  end.

Lemma toy_template_ok :
  BuildBlockTemplateWithCoinbase (Some Toy.c2m) (Some alice_builder) Toy.now = Ok toy_template.
Proof. vm_compute. reflexivity. Qed.

Definition id_unused (m : gmap Hash32 Tx) (oe : OutPoint * UTXOEntry) : bool :=
  match m !! op_TxID oe.1 with None => true | Some _ => false end.

Lemma ids_unused (m : gmap Hash32 Tx) (u : utxo_map) :
  forallb (id_unused m) (map_to_list u) = true -> map_Forall (fun op _ => m !! op_TxID op = None) u.
Proof.
  intros Hb op e Hin%elem_of_map_to_list%list_elem_of_In. rewrite forallb_forall in Hb.
  specialize (Hb (op, e) Hin). unfold id_unused in Hb. cbn [fst] in Hb.
  by destruct (m !! op_TxID op).
Qed.

Lemma mined_template_accepted_witness :
  length (blk_Txs toy_template) = 2%nat /\
  exists c' bi, acceptBlockLocked Toy.c2m
      (mkBlock (with_nonce (blk_Header toy_template) 7) (blk_Txs toy_template)) true Toy.now
    = (c', Ok (Some bi)) /\ c_tip c' = bi.
Proof.
  split; [vm_compute; reflexivity|].
  destruct (mined_template_accepted RegTest Toy.c2m alice_builder Toy.now 7 toy_template
              pow_params_ok_reg Toy.c2m_reachable) as (c' & bi & Ha & _ & Ht).
  - split.
    + apply ids_unused. vm_compute. reflexivity.
    + intros cb Hcb. vm_compute in Hcb. injection Hcb as <-. vm_compute. reflexivity.
  - exact toy_template_ok.
  - vm_compute. reflexivity.
  - vm_compute. reflexivity.
  - vm_compute. reflexivity.
  - exists c', bi. split; [exact Ha|exact Ht].
Defined.

(** A block returned by a mining worker differs from the
    template in the nonce only and passes [CheckPow] whenever the template's
    target is positive and within the network limit. *)
Theorem worker_finds_valid_pow `{Crypto} fuel p template workers n b :
  mine_worker fuel p template workers n = Some b ->
  0 < CompactToTarget (hdr_Bits (blk_Header template)) <= MaxTarget p ->
  (exists n', blk_Header b = with_nonce (blk_Header template) n') /\
  blk_Txs b = blk_Txs template /\ CheckPow (blk_Header b) p = true.
Proof.
  intros (n' & -> & Hle)%mine_worker_sound Ht. split_and!; [by exists n'|done|].
  unfold CheckPow. cbn [blk_Header with_nonce hdr_Bits] in *.
  rewrite (proj2 (Z.leb_gt _ _)), Z.gtb_ltb, (proj2 (Z.ltb_ge _ _)) by lia. cbn [orb].
  by apply Z.leb_le.
Qed.

Lemma worker_finds_valid_pow_witness :
  exists b, mine_worker 3 RegTest toy_template 1 0 = Some b /\
    CheckPow (blk_Header b) RegTest = true.
Proof.
  exists (mkBlock (with_nonce (blk_Header toy_template) 0) (blk_Txs toy_template)).
  split; [vm_compute; reflexivity|].
  apply (worker_finds_valid_pow 3 RegTest toy_template 1 0).
  - vm_compute. reflexivity.
  - vm_compute. split; congruence.
Defined.

(** The preliminary coinbase is validated with the
    subsidy alone as its reward, so from height 6,930,000 on, where the subsidy
    is zero, no template can be built, whatever fees the mempool offers. *)
Theorem template_needs_subsidy `{Crypto} c pkh tag now :
  6930000 <= bi_height (c_tip c) + 1 -> BuildBlockTemplate (Some c) pkh tag now = None.
Proof.
  intros Hh. unfold BuildBlockTemplate, BuildBlockTemplateWithCoinbase. cbn [mbind result_bind].
  assert (SubsidyAt (bi_height (c_tip c) + 1) = 0) as ->.
  { rewrite SubsidyAt_nonneg_height by lia. destruct (_ <? MaxHalvings); [|done].
    apply (halving_subsidy_zero 33); [unfold HalvingInterval; mlia|reflexivity]. }
  reflexivity.
Qed.

Definition late_tip : blockIndex := mkBlockIndex (GenesisBlock RegTest) 6929999 1 zeroHash.

Lemma template_needs_subsidy_witness :
  BuildBlockTemplate (Some (mkChain RegTest ∅ late_tip [] ∅ ∅)) (zeros 20) [] 0 = None.
Proof. apply (template_needs_subsidy (mkChain RegTest ∅ late_tip [] ∅ ∅)). cbn. lia. Defined.

(** ** The mining coordinator *)

Section histories.
Context `{Crypto}.

(** The states a coordinator goes through; every operation sees whatever chain
    the node has at that moment. *)
Inductive co_reachable : Coordinator -> Prop :=
  | co_new chain config co : NewCoordinator chain config = Ok co -> co_reachable co
  | co_issue co chain later address worker now unixNow jobID : co_reachable co ->
      co_reachable (Issue co chain later address worker now unixNow jobID).1
  | co_submit co chain between id nonce now unixNow : co_reachable co ->
      co_reachable (Submit co chain between id nonce now unixNow).1.1.

Record co_inv (co : Coordinator) : Prop := {
  cv_max : 0 < cf_MaxJobs (co_config co);
  cv_table : table_ok (co_jobs co) (co_order co);
  cv_size : Z.of_nat (size (co_jobs co)) <= cf_MaxJobs (co_config co);
  cv_wf : forall id job, co_jobs co !! id = Some job -> wf_block (mj_block job);
}.

Lemma NewCoordinator_inv chain config co : NewCoordinator chain config = Ok co -> co_inv co.
Proof.
  unfold NewCoordinator. destruct chain as [c|]; [|done]. intros Hn. res_simpl. bool_prop.
  split; cbn [co_config cf_MaxJobs co_jobs co_order];
    [lia|by intros id [? ?]|rewrite map_size_empty; lia|done].
Qed.

Lemma Issue_inv co chain later address worker now unixNow jobID :
  co_inv co -> co_inv (Issue co chain later address worker now unixNow jobID).1.
Proof.
  intros Hi. unfold Issue.
  match goal with |- co_inv (match ?r with _ => _ end).1 => destruct r as [[co' w]|] eqn:E end; [|done].
  cbn [fst]. res_simpl. destruct x4 as [js order]. res_simpl. simplify_eq.
  rename select (insert_job _ _ _ _ _ _ _ = _) into Hj.
  destruct (insert_job_spec mj_expiresAt now (cf_MaxJobs (co_config co)) x3
    (mkJob x2 now (now + cf_JobTTL (co_config co)) ∅) _ _ (cv_max _ Hi) (cv_table _ Hi))
    as (js' & order' & Hj' & Ht & Hnew & Hsz & Hold).
  rewrite Hj in Hj'. apply Ok_inj in Hj' as [= <- <-].
  split; cbn; [apply Hi|done|done|]. intros id' job' Hl. destruct (decide (id' = x3)) as [->|Hne].
  - rewrite Hnew in Hl. simplify_eq. cbn.
    destruct (DecodeBlock (Block_Bytes x1)) eqn:Edec; [|done]. simplify_eq.
    by eapply DecodeBlock_wf.
  - destruct (Hold _ _ Hne Hl) as [Hl' _]. by eapply (cv_wf _ Hi).
Qed.

Lemma drop_job_inv co id : co_inv co -> co_inv (drop_job co id).
Proof.
  intros [Hm Ht Hs Hw]. split; cbn; [done| | |].
  - intros i Hi. apply Ht. destruct (decide (i = id)) as [->|Hne].
    + rewrite lookup_delete_eq in Hi. by destruct Hi.
    + by rewrite lookup_delete_ne in Hi.
  - rewrite map_size_delete. destruct (co_jobs co !! id); cbn; lia.
  - intros i job [_ Hi]%lookup_delete_Some. by eapply Hw.
Qed.

Lemma claim_nonce_inv co chain id nonce now :
  co_inv co -> co_inv (claim_nonce co chain id nonce now).1.
Proof.
  intros Hi. unfold claim_nonce. destruct (co_jobs co !! id) as [job|] eqn:E; [|done].
  repeat case_match; try done; try by apply drop_job_inv.
  destruct Hi as [Hm Ht Hs Hw]. split; cbn; [done| | |].
  - intros i Hi. apply Ht. destruct (decide (i = id)) as [->|Hne]; [by eauto|].
    by rewrite lookup_insert_ne in Hi.
  - rewrite map_size_insert, E. done.
  - intros i j [[_ <-]|[_ Hi]]%lookup_insert_Some; [exact (Hw id job E)|by eapply Hw].
Qed.

Lemma Submit_inv co chain between id nonce now unixNow :
  co_inv co -> co_inv (Submit co chain between id nonce now unixNow).1.1.
Proof.
  intros Hi. pose proof (claim_nonce_inv co chain id nonce now Hi) as Hc. unfold Submit.
  destruct (claim_nonce co chain id nonce now) as [co1 [job|]]; [|done]. cbn in Hc.
  destruct (DecodeBlock _); [|done]. case_match; [done|].
  destruct (AcceptBlock _ _ _) as [chain' [ev|]]; [|done].
  destruct Hc as [Hm _ _ _]. split; cbn [fst snd set_jobs co_config co_jobs co_order];
    [done|by intros i [? ?]|rewrite map_size_empty; lia|done].
Qed.

Lemma co_reachable_inv co : co_reachable co -> co_inv co.
Proof.
  induction 1; [by eapply NewCoordinator_inv|by apply Issue_inv|by apply Submit_inv].
Qed.
End histories.

(** C36: The coordinator never holds more than [MaxJobs] jobs,
    and the eviction loop of [Issue] always terminates: every job is in the
    eviction order, so each iteration removes one.  Afterwards the new job is in
    the table and every older job that is left has not expired. *)
Theorem job_table_bounded `{Crypto} co now id job :
  co_reachable co ->
  Z.of_nat (size (co_jobs co)) <= cf_MaxJobs (co_config co) /\
  exists js order,
    insert_job mj_expiresAt now (cf_MaxJobs (co_config co)) id job (co_jobs co) (co_order co)
      = Ok (js, order) /\
    js !! id = Some job /\ Z.of_nat (size js) <= cf_MaxJobs (co_config co) /\
    (forall id' job', id' <> id -> js !! id' = Some job' ->
       co_jobs co !! id' = Some job' /\ now < mj_expiresAt job').
Proof.
  intros Hr. apply co_reachable_inv in Hr as [Hm Ht Hs _]. split; [done|].
  destruct (insert_job_spec mj_expiresAt now (cf_MaxJobs (co_config co)) id job _ _ Hm Ht)
    as (js & order & Hi & _ & Hl & Hsz & Hold). by exists js, order.
Qed.

Lemma claim_nonce_ok co chain id nonce now co1 job :
  claim_nonce co chain id nonce now = (co1, Ok job) ->
  (exists job0, co_jobs co !! id = Some job0 /\ mj_block job = mj_block job0 /\
     now < mj_expiresAt job0 /\ nonce ∉ mj_seen job0) /\
  hdr_PrevBlock (blk_Header (mj_block job)) = bi_id (c_tip chain) /\
  co_jobs co1 !! id = Some job /\ nonce ∈ mj_seen job.
Proof.
  unfold claim_nonce. destruct (co_jobs co !! id) as [job0|]; [|done].
  destruct (Z.ltb_spec now (mj_expiresAt job0)); cbn [negb]; [|done].
  case_bool_decide; cbn [negb]; [|done]. case_bool_decide; [done|]. intros. simplify_eq.
  split_and!; [by exists job0|done|apply lookup_insert_eq|set_solver].
Qed.

(** The block a submission stands for. *)
Definition submitted_block (copy : Block) (nonce : Z) : Block :=
  mkBlock (with_nonce (blk_Header copy) nonce) (blk_Txs copy).

(** A submission the coordinator reports as accepted is a
    proof of work on the job's template and extended the best chain: the job was
    known, unexpired and built on the tip, the nonce was new, and the block is the
    new tip one above the old one with the reported id and height (or it was
    already known), and all jobs, now stale, are gone. *)
Theorem solo_submit_extends `{Crypto} p co chain id nonce now unixNow co' chain' res :
  pow_params_ok p -> reachable p chain -> co_reachable co ->
  Submit co chain (fun c => c) id nonce now unixNow = (co', chain', Ok res) ->
  exists job, co_jobs co !! id = Some job /\ now < mj_expiresAt job /\ nonce ∉ mj_seen job /\
    let block := submitted_block (mj_block job) nonce in
    CheckPow (blk_Header block) p = true /\ co_jobs co' = ∅ /\
    sr_BlockID res = hex_encode (Header_ID (blk_Header block)) /\
    sr_Height res = bi_height (c_tip chain') /\
    (is_Some (c_index chain !! Header_ID (blk_Header block)) /\ chain' = chain \/
     bi_block (c_tip chain') = block /\ bi_height (c_tip chain') = bi_height (c_tip chain) + 1).
Proof.
  intros Hp Hr Hco Hs. pose proof (reachable_inv _ Hp _ Hr) as Hc.
  pose proof (reachable_valid _ _ Hr) as Hval. unfold Submit in Hs.
  destruct (claim_nonce co chain id nonce now) as [co1 [job1|]] eqn:Ecl; [|done].
  apply claim_nonce_ok in Ecl as ((job & Hj & Hblk & Hexp & Hseen) & Hprev & _ & _).
  rewrite Hblk in Hs, Hprev.
  destruct (DecodeBlock (Block_Bytes (mj_block job))) as [copy|] eqn:Hd; [|done].
  apply DecodeBlock_copy in Hd as ->; [|by eapply (cv_wf _ (co_reachable_inv _ Hco))].
  fold (submitted_block (mj_block job) nonce) in Hs. rewrite (ci_params _ _ Hc) in Hs.
  destruct (CheckPow _ p) eqn:Hpow; cbn [negb] in Hs; [|done].
  destruct (AcceptBlock chain _ unixNow) as [c1 [ev|]] eqn:Ha; [|done]. simplify_eq.
  exists job. split_and!; try done. intros block. split_and!; try done.
  unfold AcceptBlock in Ha. destruct (acceptBlockLocked _ _ _ _) as [c2 r] eqn:Hacc. simplify_eq.
  destruct (acceptBlock_cases p Hp Hval _ _ _ _ _ _ Hc Hacc)
    as [[-> [[-> Hk]|[e ->]]]|(bi & l & u & Hb & Hid & Hfresh & Hbr & Hrep & Hcase)];
    [by left|done|].
  rewrite Hid in Hfresh. right.
  assert (Hpar : bi_height bi = bi_height (c_tip chain) + 1 /\
                 bi_cumWork (c_tip chain) < bi_cumWork bi).
  { inv Hbr as [Hg|parent ? l0 Hb0 Hpar Hpid Hh Hw Hok].
    - exfalso. pose proof (ci_genesis _ _ Hc) as Hg. unfold bi_header in *.
      rewrite <- Hid in Hfresh. by rewrite Hg in Hfresh.
    - assert (parent = c_tip chain) as ->.
      { unfold bi_header in Hpar. rewrite Hb in Hpar.
        cbn [submitted_block with_nonce blk_Header hdr_PrevBlock] in Hpar.
        rewrite Hprev, (ci_tip _ _ Hc) in Hpar.
        by simplify_eq. }
      pose proof (block_work_pos p Hp _ Hok). split; [done|lia]. }
  destruct Hpar as [Hh Hw]. destruct Hcase as [(Hle & _)|(_ & -> & _)]; [lia|]. cbn. done.
Qed.

(** ** A job on the toy chain *)
Definition toy_config : CoordinatorConfig := mkConfig (60 * second) 1 (bs "solo").
Definition toy_co : Coordinator :=
  match NewCoordinator (Some Toy.c2) toy_config with
  | Ok co => co
  | Err _ => mkCoordinator "none" toy_config ∅ []
  end.
Definition toy_id : bytes := hex_encode (zeros 16).
Definition toy_now : Z := Toy.now * second.
Definition toy_issued : Coordinator :=
  (Issue toy_co Toy.c2 Toy.c2 (EncodeAddress (Toy.pkh_of Toy.alice)) (bs "rig-1") toy_now Toy.now
     (Ok toy_id)).1.
Definition toy_job0 : miningJob :=
  match co_jobs toy_issued !! toy_id with Some j => j | None => mkJob Toy.b1 0 0 ∅ end.

Lemma toy_co_reachable : co_reachable toy_co.
Proof.
  apply (co_new (Some Toy.c2) toy_config). apply result_ok_get. vm_compute. reflexivity.
Qed.
Lemma toy_issued_reachable : co_reachable toy_issued.
Proof. apply co_issue, toy_co_reachable. Qed.
Lemma job_table_bounded_witness :
  Z.of_nat (size (co_jobs toy_issued)) <= 1 /\
  exists js order, insert_job mj_expiresAt toy_now 1 (bs "next") toy_job0 (co_jobs toy_issued)
                     (co_order toy_issued) = Ok (js, order) /\ Z.of_nat (size js) <= 1.
Proof.
  destruct (job_table_bounded toy_issued toy_now (bs "next") toy_job0 toy_issued_reachable)
    as (Hs & js & order & Hi & _ & Hsz & _).
  split; [exact Hs|]. exists js, order. split; [exact Hi|exact Hsz].
Defined.

Definition toy_submit : Coordinator * Chain * result SubmitResult :=
  Submit toy_issued Toy.c2 (fun c => c) toy_id 7 (toy_now + 1) Toy.now.
Definition toy_result : SubmitResult :=
  match toy_submit.2 with Ok r => r | Err _ => mkSubmitResult 0 "none" "none" [] 0 end.

Lemma solo_submit_extends_witness :
  exists job, co_jobs toy_issued !! toy_id = Some job /\
    sr_Height toy_result = bi_height (c_tip toy_submit.1.2) /\ co_jobs toy_submit.1.1 = ∅.
Proof.
  destruct (solo_submit_extends RegTest toy_issued Toy.c2 toy_id 7 (toy_now + 1) Toy.now
              toy_submit.1.1 toy_submit.1.2 toy_result) as (job & Hj & _ & _ & _ & He & _ & Hh & _).
  - exact pow_params_ok_reg.
  - exact Toy.toy_c2_reachable.
  - exact toy_issued_reachable.
  - change (toy_submit = (toy_submit.1.1, toy_submit.1.2, Ok toy_result)). apply triple_snd.
    apply result_ok_get. vm_compute. reflexivity.
  - exists job. split; [exact Hj|]. split; [exact Hh|exact He].
Defined.
