(* ===== verification/P2pTheorems.v ===== *)
(** * Properties of the peer-to-peer node

    Limits of the peer tables in every reachable state, exactness of dial
    reservations, framing, batches of blocks, agreement of the two ends of a
    duplicate connection, and what a message can do to the chain. *)
From S2P Require Import Prelude Text Params Crypto Pow Wire Merkle Chain ChainInv ChainView.
From S2P Require Import Store StoreProofs P2p P2pProofs P2pSync Toy.

(** ** The states of a node *)
Section steps.
Context `{NetText}.

(** Every method that changes the tables is atomic under the node's mutex, so a run
    is any interleaving of them.  Handshake tokens are 64-bit: a run makes fewer
    than 2^64 reservations. *)
Inductive node_step (n : Node) : Node -> Prop :=
  | step_dial : n_nextToken n + maxPeers < two64 -> node_step n (reserveDialCandidates n).1
  | step_inbound ip : n_nextToken n + 1 < two64 -> node_step n (reserveInboundHandshakeFrom n ip).1
  | step_release r : node_step n (releaseHandshakeLocked n r).1
  | step_register r key dialable p : node_step n (registerPeer n r key dialable p).1.1
  | step_unregister key owner : node_step n (unregisterPeer n key owner).1
  | step_suppress targets : node_step n (suppressSelfTargets n targets)
  | step_seed s : node_step n (add_seed n s)
  | step_learn a : node_step n (learn_addr n a)
  | step_height p h : node_step n (note_height n p h).

Inductive node_reachable : Node -> Prop :=
  | node_new listen nodeID : node_reachable (NewNode listen nodeID)
  | node_next n n' : node_reachable n -> node_step n n' -> node_reachable n'.

Lemma new_inv listen nodeID : node_inv (NewNode listen nodeID).
Proof.
  split; cbn; try done.
  all: unfold slots, inbound_peers, count_pending; cbn; rewrite ?map_filter_empty, ?map_size_empty;
    done.
Qed.

Lemma node_reachable_inv `{!NetTextLaws} n : node_reachable n -> node_inv n.
Proof.
  induction 1 as [listen nodeID|n n' _ Hn Hs]; [apply new_inv|].
  destruct Hs; auto using reserveDial_inv, inbound_inv, release_inv, registerPeer_inv,
    unregisterPeer_inv, suppress_inv, add_seed_inv, learn_addr_inv, note_height_inv.
Qed.
End steps.

(** In every state a node can reach by interleaving its
    operations, peers and pending handshakes together fill at most 32 slots, at
    most four dials and eight inbound handshakes are pending, at most two inbound
    handshakes come from one address, and inbound connections leave four slots for
    outbound ones. *)
Theorem peer_slots_bounded `{NetText} `{!NetTextLaws} n :
  node_reachable n ->
  Z.of_nat (size (n_peers n)) + Z.of_nat (size (n_pending n)) <= 32 /\
  count_pending outbound_pending n <= 4 /\ count_pending inbound_pending n <= 8 /\
  inbound_peers n + count_pending inbound_pending n <= 28 /\
  forall ip, count_pending (pending_from ip) n <= 2.
Proof.
  intros [Hs Ho Hi Hr Hip _ _ _ _]%node_reachable_inv. split_and!; try done; lia.
Qed.

(** A network whose addresses are their own text. *)
#[global] Instance toy_net : NetText := {
  SplitHostPort s := Some (s, bs "9009"); JoinHostPort h p := h ++ bs ":" ++ p;
  ParseIP _ := None; ParseAddr _ := Some (v4 8 8 8 8, []); Addr_String _ := bs "8.8.8.8";
  Atoi _ := Some 9009; Itoa _ := bs "9009"; TrimSpace s := s; ToLower s := s }.
#[global] Instance toy_net_laws : NetTextLaws.
Proof. split. intros h p Hn. apply app_eq_nil in Hn as [_ Hn]. discriminate. Qed.

Definition toy_node : Node := add_seed (NewNode (bs "me") (bs "id")) (bs "seed").
Definition toy_dialled : Node := (reserveDialCandidates toy_node).1.

Lemma toy_node_reachable : node_reachable toy_node.
Proof. exact (node_next _ _ (node_new _ _) (step_seed _ _)). Qed.
Lemma toy_dialled_reachable : node_reachable toy_dialled.
Proof.
  refine (node_next _ _ toy_node_reachable (step_dial _ _)). vm_compute. reflexivity.
Qed.

Lemma peer_slots_bounded_witness :
  Z.of_nat (size (n_peers toy_dialled)) + Z.of_nat (size (n_pending toy_dialled)) <= 32 /\
  count_pending outbound_pending toy_dialled = 1.
Proof.
  destruct (peer_slots_bounded toy_dialled toy_dialled_reachable) as [Hs _].
  split; [exact Hs|vm_compute; reflexivity].
Defined.

(** In every reachable state a dial target has at most one
    pending dial; [reserveDialCandidates] returns reservations that are all pending
    with distinct targets, never dials a target that was found to be the node
    itself, and never more than the free slots allow. *)
Theorem dial_reservations_exact `{NetText} `{!NetTextLaws} n n' out :
  node_reachable n -> n_nextToken n + maxPeers < two64 -> reserveDialCandidates n = (n', out) ->
  (forall t1 t2 r1 r2, n_pending n' !! t1 = Some r1 -> n_pending n' !! t2 = Some r2 ->
     hr_target r1 <> [] -> hr_target r1 = hr_target r2 -> t1 = t2) /\
  (forall r, r ∈ out -> n_pending n' !! hr_token r = Some r /\ hr_target r ∉ n_suppressed n') /\
  (forall r1 r2, r1 ∈ out -> r2 ∈ out -> hr_target r1 = hr_target r2 -> r1 = r2) /\
  Z.of_nat (length out) <= Z.max 0 (dial_slots n).
Proof.
  intros Hn%node_reachable_inv Hb Hr. pose proof (reserveDial_state n Hn Hb) as Hst.
  rewrite Hr in Hst. destruct Hst as [Hinv _ _ Hlen _ _ Hsup Hpd]. cbn [fst snd] in *.
  assert (Huniq : forall t1 t2 r1 r2, n_pending n' !! t1 = Some r1 -> n_pending n' !! t2 = Some r2 ->
            hr_target r1 <> [] -> hr_target r1 = hr_target r2 -> t1 = t2).
  { intros t1 t2 r1 r2 H1 H2 Hne Heq. pose proof (ni_dialing _ Hinv _ _ H1 Hne) as D1.
    pose proof (ni_dialing _ Hinv _ _ H2 ltac:(congruence)) as D2. congruence. }
  split_and!; [done| | |done].
  - intros r Hin. destruct (Hpd r Hin) as (? & ? & _). by rewrite Hsup.
  - intros r1 r2 Hin1 Hin2 Heq. destruct (Hpd r1 Hin1) as (H1 & _ & Hne).
    destruct (Hpd r2 Hin2) as (H2 & _). pose proof (Huniq _ _ _ _ H1 H2 Hne Heq). congruence.
Qed.

Lemma dial_reservations_exact_witness :
  exists r, (reserveDialCandidates toy_node).2 = [r] /\
    n_pending toy_dialled !! hr_token r = Some r.
Proof.
  destruct (reserveDialCandidates toy_node) as [n' out] eqn:E.
  assert (Hlen : length out = 1%nat)
    by (change out with (n', out).2; rewrite <- E; vm_compute; reflexivity).
  destruct out as [|r [|]]; try discriminate Hlen. exists r. split; [reflexivity|].
  destruct (dial_reservations_exact toy_node n' [r] toy_node_reachable
              ltac:(vm_compute; reflexivity) E) as (_ & Hp & _).
  unfold toy_dialled. rewrite E. apply Hp. left.
Defined.

(** ** Duplicate connections *)
Lemma connectionTieKey_sym id1 nonce1 id2 nonce2 :
  connectionTieKey id1 nonce1 id2 nonce2 = connectionTieKey id2 nonce2 id1 nonce1.
Proof.
  unfold connectionTieKey.
  destruct (normalizeHandshakeID id1) as [a|], (normalizeHandshakeID nonce1) as [b|],
    (normalizeHandshakeID id2) as [c|], (normalizeHandshakeID nonce2) as [d|]; try done.
  cbv zeta. set (x := a ++ _). set (y := c ++ _). unfold bytes_ltb.
  rewrite (bytes_compare_antisym x y). destruct (bytes_compare x y) eqn:E; cbn; try done.
  apply bytes_compare_eq in E. by rewrite E.
Qed.

(** The order of two connections does not depend on which was registered first. *)
Definition prefers (a b : peer) : Prop :=
  p_remoteIP a <> [] /\ p_remoteIP a = p_remoteIP b /\ p_tieKey a <> [] /\ p_tieKey b <> [] /\
  bytes_compare (p_tieKey a) (p_tieKey b) = Lt /\
  Z.abs (p_connectedAt a - p_connectedAt b) <= duplicateCrossDialWindow.

Lemma prefers_replace a b o1 o2 : prefers a b ->
  canReplaceConcurrentDuplicate (set_outbound b o1) (set_outbound a o2) = true /\
  canReplaceConcurrentDuplicate (set_outbound a o2) (set_outbound b o1) = false.
Proof.
  intros (Hip & Hsame & Hta & Htb & Hlt & Hw). unfold canReplaceConcurrentDuplicate. cbn.
  assert (Hle : bytes_le (p_tieKey a) (p_tieKey b)) by (unfold bytes_le; by rewrite Hlt).
  assert (Hnle : ~ bytes_le (p_tieKey b) (p_tieKey a)).
  { unfold bytes_le. rewrite (bytes_compare_antisym (p_tieKey a)), Hlt. cbn. tauto. }
  rewrite <- Hsame, (bool_decide_eq_true_2 (p_remoteIP a = p_remoteIP a)) by done.
  rewrite (bool_decide_eq_true_2 (bytes_le (p_tieKey a) (p_tieKey b))) by done.
  rewrite (bool_decide_eq_false_2 (bytes_le (p_tieKey b) (p_tieKey a))) by done.
  destruct (p_remoteIP a), (p_tieKey a), (p_tieKey b); try done. cbn [is_empty negb orb andb].
  rewrite (proj2 (Z.leb_le _ _)) by lia. done.
Qed.

Lemma register_first n r key dialable p n' :
  n_pending n !! hr_token r = Some r -> n_peers n !! key = None ->
  Z.of_nat (size (n_peers n)) < maxPeers ->
  (registerPeer n r key dialable p).1.1 = n' ->
  n_peers n' = <[key := set_outbound p (negb (is_empty (hr_target r)))]> (n_peers n) /\
  n_pending n' = delete (hr_token r) (n_pending n).
Proof.
  intros Hr Hk Hsz <-. unfold registerPeer, releaseHandshakeLocked.
  rewrite bool_decide_eq_true_2 by done. cbn [negb set_pending n_peers]. rewrite Hk.
  rewrite Z.geb_leb, (proj2 (Z.leb_gt _ _)) by lia. cbn [fst].
  destruct (remember_same (set_peers (set_pending n
    (if negb (is_empty (hr_target r)) && bool_decide (default 0 (n_dialing n !! hr_target r)
       = hr_token r) then delete (hr_target r) (n_dialing n) else n_dialing n)
    (delete (hr_token r) (n_pending n)) (n_nextToken n))
    (<[key := set_outbound p (negb (is_empty (hr_target r)))]> (n_peers n)))
    (hr_target r) dialable key) as (-> & -> & _). done.
Qed.

Lemma register_second n r key dialable p existing :
  n_pending n !! hr_token r = Some r -> n_peers n !! key = Some existing ->
  n_peers (registerPeer n r key dialable p).1.1 !! key =
    Some (if canReplaceConcurrentDuplicate existing (set_outbound p (negb (is_empty (hr_target r))))
          then set_outbound p (negb (is_empty (hr_target r))) else existing).
Proof.
  intros Hr Hk. unfold registerPeer, releaseHandshakeLocked.
  rewrite bool_decide_eq_true_2 by done. cbn [negb set_pending n_peers]. rewrite Hk.
  set (q := set_outbound p _). set (n1 := if _ && _ then _ else _).
  assert (Hp1 : n_peers n1 = n_peers n).
  { subst n1. destruct (_ && _); [|done]. apply (remember_same (set_pending n _ _ _)). }
  destruct (canReplaceConcurrentDuplicate existing q); cbn [negb fst].
  - cbn [set_peers n_peers]. by rewrite lookup_insert_eq.
  - by rewrite Hp1.
Qed.

(** C32: When two nodes connect to each other twice at the
    same time, the connection with the smaller tie key is the one that stays,
    whichever of the two is registered first; the tie key of a connection is the
    same at both of its ends, so both nodes keep the same connection. *)
Theorem duplicate_connection_agreement n ra rb key da db a b :
  n_pending n !! hr_token ra = Some ra -> n_pending n !! hr_token rb = Some rb ->
  hr_token ra <> hr_token rb -> n_peers n !! key = None ->
  Z.of_nat (size (n_peers n)) < maxPeers -> prefers a b ->
  let keep first second n := (registerPeer (registerPeer n first.1.1 key first.1.2 first.2).1.1
                                second.1.1 key second.1.2 second.2).1.1 in
  p_conn <$> n_peers (keep ((ra, da), a) ((rb, db), b) n) !! key = Some (p_conn a) /\
  p_conn <$> n_peers (keep ((rb, db), b) ((ra, da), a) n) !! key = Some (p_conn a) /\
  (forall id1 nonce1 id2 nonce2,
     connectionTieKey id1 nonce1 id2 nonce2 = connectionTieKey id2 nonce2 id1 nonce1).
Proof.
  intros Ha Hb Hne Hk Hsz Hpref keep. subst keep. cbn [fst snd].
  pose proof (prefers_replace a b (negb (is_empty (hr_target rb))) (negb (is_empty (hr_target ra)))
                Hpref) as [Hrep Hnrep].
  destruct (register_first n ra key da a _ Ha Hk Hsz eq_refl) as [Hp1 Hq1].
  destruct (register_first n rb key db b _ Hb Hk Hsz eq_refl) as [Hp2 Hq2].
  split_and!; [| |intros; apply connectionTieKey_sym].
  - rewrite (register_second _ rb key db b (set_outbound a (negb (is_empty (hr_target ra))))).
    + by rewrite Hnrep.
    + by rewrite Hq1, lookup_delete_ne.
    + by rewrite Hp1, lookup_insert_eq.
  - rewrite (register_second _ ra key da a (set_outbound b (negb (is_empty (hr_target rb))))).
    + by rewrite Hrep.
    + by rewrite Hq2, lookup_delete_ne.
    + by rewrite Hp2, lookup_insert_eq.
Qed.

Definition toy_two : Node :=
  (reserveInboundHandshakeFrom (reserveInboundHandshakeFrom toy_node (bs "9.9.9.9")).1 (bs "9.9.9.9")).1.
Definition toy_peer (conn : Z) (tie : bytes) : peer := mkPeer conn [] tie (bs "9.9.9.9") false 0 0.

Lemma duplicate_connection_agreement_witness :
  let ra := mkReservation 1 [] (bs "9.9.9.9") in
  let rb := mkReservation 2 [] (bs "9.9.9.9") in
  p_conn <$> n_peers (registerPeer (registerPeer toy_two rb (bs "node") [] (toy_peer 20 (bs "k2"))).1.1
                        ra (bs "node") [] (toy_peer 10 (bs "k1"))).1.1 !! (bs "node") = Some 10.
Proof.
  cbv zeta. refine (proj1 (proj2 (duplicate_connection_agreement toy_two
    (mkReservation 1 [] (bs "9.9.9.9")) (mkReservation 2 [] (bs "9.9.9.9")) (bs "node") [] []
    (toy_peer 10 (bs "k1")) (toy_peer 20 (bs "k2")) _ _ _ _ _ _)));
    try (vm_compute; reflexivity); try discriminate.
  split_and!; try discriminate; vm_compute; reflexivity || discriminate.
Defined.

(** ** The handshake *)

(** Whatever a peer answers and whichever call fails, a handshake
    gives back its reservation and leaves the tables within their limits; a peer
    enters the table only after a hello of this network from another node, under
    its identity, and the connection that is closed for it is exactly the one it
    replaces.  A connection of the node to itself is refused and its target is never
    dialled again.  At most 16 addresses are shared, all of them normalised public
    ones. *)
Theorem handshake_settles `{Crypto} `{NetText} `{!NetTextLaws} send n c r cn :
  node_reachable n -> n_pending n !! hr_token r = Some r ->
  let out := handshake send n c r cn in
  settled n c r cn out /\ node_inv out.1.1 /\
  (forall hello, cn_deadline cn = true ->
     send (hello_msg n (NetMagic (c_params c)) (Tip c).2 (cn_localNonce cn)) = None ->
     cn_hello cn = Ok hello -> m_Type hello = bs "hello" -> m_Magic hello = NetMagic (c_params c) ->
     normalizeHandshakeID (m_NodeID hello) = Some (n_nodeID n) -> hr_target r <> [] ->
     out.1.2 = None /\ hr_target r ∈ n_suppressed out.1.1) /\
  (forall order, (length (share_addrs order []) <= 16)%nat /\
     forall a, a ∈ share_addrs order [] -> exists k, k ∈ order /\ normalizeGossipAddress k = Some a).
Proof.
  intros Hn%node_reachable_inv Hr out. split_and!.
  - by apply handshake_settled.
  - by apply handshake_inv.
  - intros hello Hd Hs Hh Ht Hm Hid Htar. by apply (handshake_self send n c r cn hello).
  - intros order. destruct (share_addrs_spec order []) as [Hl Hin]; [cbn; lia|].
    split; [done|]. intros a [Ha%elem_of_nil|?]%Hin; done.
Qed.

Definition toy_hello (id : bytes) : Msg :=
  mkMsg (bs "hello") 1 (NetMagic RegTest) 5 [] 0 [] [] (bs "x") id [] false.
Definition toy_cn : connection :=
  mkConnection 7 (bs "9.9.9.9") [] 0 true true (Ok (toy_hello (bs "other"))).

Lemma handshake_settles_witness :
  exists p, (handshake (fun _ => None) toy_dialled Toy.c0 (mkReservation 1 (bs "seed:9009") []) toy_cn).1.2
            = Some (p, toy_hello (bs "other")) /\
    n_pending (handshake (fun _ => None) toy_dialled Toy.c0
                 (mkReservation 1 (bs "seed:9009") []) toy_cn).1.1 = ∅.
Proof.
  destruct (handshake_settles (fun _ => None) toy_dialled Toy.c0 (mkReservation 1 (bs "seed:9009") [])
              toy_cn toy_dialled_reachable ltac:(vm_compute; reflexivity)) as ([Hp _] & _ & _ & _).
  eexists. split; [vm_compute; reflexivity|]. rewrite Hp. vm_compute. reflexivity.
Defined.

(** ** Framing *)

(** What [send] writes is what [readMsg] reads: a framed message
    followed by any bytes decodes to the same message and leaves those bytes; the
    reader refuses a length above the limit before it allocates a buffer. *)
Theorem frame_round_trip `{MsgCodec} `{!MsgCodecLaws} m b rest :
  frame m = Ok b ->
  readMsg (b ++ rest) = Ok (m, rest) /\
  forall ln tail, maxMsgBytes < ln < two32 -> readMsg (be_bytes 4 ln ++ tail) = Err (EText "oversize message").
Proof.
  unfold frame. intros Hf. apply bind_Ok in Hf as (j & Hj & Hf). rewrite Z.gtb_ltb in Hf.
  destruct (Z.ltb_spec maxMsgBytes (Z.of_nat (length j))) as [|Hle]; [done|].
  apply Ok_inj in Hf as <-. unfold readMsg, maxMsgBytes, MaxBlockBytes in *.
  rewrite u32_small by (unfold in_u32, two32; lia). rewrite <- app_assoc.
  rewrite ReadFull_app by apply length_be_bytes. cbn [mbind result_bind].
  rewrite be_val_be_bytes, Z.mod_small by lia. rewrite Z.gtb_ltb, (proj2 (Z.ltb_ge _ _)) by lia.
  rewrite ReadFull_app by lia. cbn [mbind result_bind].
  rewrite (unmarshal_marshal m j Hj). cbn [mbind result_bind]. split; [done|].
  intros ln tl Hln. rewrite ReadFull_app by apply length_be_bytes. cbn [mbind result_bind].
  unfold two32 in Hln. rewrite be_val_be_bytes, Z.mod_small by lia.
  rewrite Z.gtb_ltb, (proj2 (Z.ltb_lt _ _)) by lia. done.
Qed.

#[global] Instance Msg_eq_dec : EqDecision Msg.
Proof. solve_decision. Defined.

(** A codec for block messages that writes four characters per byte. *)
Fixpoint every_fourth (b : bytes) : bytes :=
  match b with c :: _ :: _ :: _ :: b' => c :: every_fourth b' | _ => [] end.
#[global] Instance toy_codec : MsgCodec := {
  marshal m := if decide (m = block_msg (m_Raw m) 0 false)
               then Ok (flat_map (fun c => [c; Byte.x00; Byte.x00; Byte.x00]) (m_Raw m))
               else Err (EText "unsupported");
  unmarshal b := Ok (block_msg (every_fourth b) 0 false) }.

#[global] Instance toy_codec_laws : MsgCodecLaws.
Proof.
  split; intros m b; cbn; (destruct (decide _) as [E|]; [|done]); intros [= <-].
  - f_equal. transitivity (block_msg (m_Raw m) 0 false); [|done]. f_equal. clear E.
    induction (m_Raw m) as [|c l IH]; [done|]. cbn. by rewrite IH.
  - unfold base64_len. assert (Hl : length (flat_map (fun c => [c; Byte.x00; Byte.x00; Byte.x00]) (m_Raw m))
      = (4 * length (m_Raw m))%nat).
    { clear E. induction (m_Raw m) as [|c l IH]; [done|]. cbn [flat_map app length]. lia. }
    rewrite Hl. mlia.
Qed.

Lemma frame_round_trip_witness :
  exists b, frame (block_msg (bs "abc") 0 false) = Ok b /\
    readMsg (b ++ bs "rest") = Ok (block_msg (bs "abc") 0 false, bs "rest").
Proof.
  destruct (frame (block_msg (bs "abc") 0 false)) as [b|e] eqn:Hb.
  - exists b. split; [reflexivity|].
    destruct (frame_round_trip (block_msg (bs "abc") 0 false) b (bs "rest") Hb) as [Hr _]. exact Hr.
  - exfalso. apply (f_equal is_ok) in Hb. vm_compute in Hb. discriminate Hb.
Defined.

(** ** Batches of blocks *)

(** A request for blocks is answered, whatever its start height,
    with at most 64 consecutive main-chain blocks from that height, at most 4 MiB of
    them unless there is a single block; at least one block when the height is on
    the main chain; only the last message is marked, exactly when the chain goes on
    after it.  Neither the peer table nor the chain changes. *)
Theorem getblocks_batch `{Crypto} `{NetText} p c l send n now pr m :
  pow_params_ok p -> reachable p c -> branch p (c_index c) (c_tip c) l ->
  sendable send c -> m_Type m = bs "getblocks" ->
  exists sent, handleMsg send n c (fun _ => c) c now pr m = Ok (mkHandled n c sent [] None) /\
    Z.of_nat (length sent) <= 64 /\
    (Z.of_nat (length sent) <= 1 \/
     sumZ ((fun m => Z.of_nat (length (m_Raw m))) <$> sent) <= 4 * 1024 * 1024) /\
    (0 <= m_From m <= bi_height (c_tip c) -> sent <> []) /\
    forall k m', sent !! k = Some m' -> exists bi,
      l !! Z.to_nat (m_From m + Z.of_nat k) = Some bi /\
      m_Raw m' = Block_Bytes (bi_block bi) /\ m_Height m' = m_From m + Z.of_nat k /\
      (m_More m' = true <-> S k = length sent /\ m_Height m' < bi_height (c_tip c)).
Proof.
  intros Hp Hr Hb Hsend Ht. pose proof (branch_length _ _ _ _ Hb) as Hlen.
  destruct (getblocks_spec p send n c l now pr m (reachable_inv _ Hp _ Hr) Hb Hsend Ht)
    as (sent & Hh & Hl & Hsz & Hne & Hans).
  exists sent. split_and!; [done|done|done|intros ?; apply Hne; lia|].
  intros k m' Hk. pose proof (lookup_lt_Some _ _ _ Hk).
  destruct (Hans k m' Hk) as (bi & Hf & Hbi & ->). exists bi. cbn.
  split_and!; [rewrite <- Hbi; f_equal; lia|done|done|].
  rewrite andb_true_iff, bool_decide_eq_true, Z.ltb_lt. lia.
Qed.

(** C15: A node with an empty chain that asks a peer for blocks
    from height 1 and keeps asking while the answers are marked ends with the peer's
    tip, main chain and UTXO set, after at most as many requests as the peer has
    blocks.  The peer's blocks must meet the proof-of-work and clock checks at the
    downloading node and fit a message. *)
Theorem initial_block_download `{Crypto} `{NetText} p c l fresh now sendS sendC prS prC nS nC :
  pow_params_ok p -> reachable p c -> branch p (c_index c) (c_tip c) l ->
  NewChain (Some p) = Ok fresh -> bi_height (c_tip c) + 1 < 2 ^ 63 ->
  Forall (relayable p now) (tail l) -> sendable sendS c ->
  (forall from, sendC (getblocks_msg from) = None) ->
  exists s, download (Z.to_nat (bi_height (c_tip c)) + 1) sendS sendC now prS prC nS c nC fresh
              (getblocks_msg 1) = Ok s /\
    c_tip s = c_tip c /\ c_mainIDs s = c_mainIDs c /\ c_utxo s = c_utxo c /\ c_mempool s = ∅.
Proof.
  intros Hp Hr Hb Hn Hh Hall HS HC. pose proof (reachable_inv _ Hp _ Hr) as Hc.
  pose proof (reachable_valid _ _ Hr) as Hval. pose proof (branch_length _ _ _ _ Hb) as Hlen.
  assert (Hg : l = [genesis_index p] ++ tail l).
  { destruct (holds_genesis p _ Hn) as [_ _ _ _]. clear -Hb. induction Hb as [|parent bi l Hb IH];
      [done|]. by rewrite IH. }
  destruct (download_spec p Hp Hval c l now sendS sendC Hc Hb ltac:(lia) HS HC prS prC nS
              (Z.to_nat (bi_height (c_tip c)) + 1) nC fresh [genesis_index p] (tail l)
              (getblocks_msg 1)) as (s & Hd & Hs);
    [done|done|by apply holds_genesis|done|done|done| |].
  { rewrite Hg in Hlen. cbn in Hlen. lia. }
  exists s. split; [done|]. destruct (holds_state p c l s Hc Hb Hs) as (? & ? & ? & _).
  split_and!; [done..|]. by apply (hb_mempool p l).
Qed.

(** ** Blocks that do not fit a message *)
(** [p.send] on a connection that never fails. *)
Definition wire_send `{MsgCodec} (m : Msg) : option error :=
  match frame m with Ok _ => None | Err e => Some e end.

Lemma large_frame `{MsgCodec} `{!MsgCodecLaws} raw h more :
  753072 < Z.of_nat (length raw) -> is_ok (frame (block_msg raw h more)) = false.
Proof.
  intros Hlen. unfold frame. destruct (marshal _) as [b|] eqn:Eb; [|done].
  apply marshal_raw in Eb. cbn [mbind result_bind m_Raw block_msg] in *. rewrite Z.gtb_ltb.
  unfold base64_len in Eb. assert (251025 <= (Z.of_nat (length raw) + 2) / 3)
    by (apply Z.div_le_lower_bound; lia).
  rewrite (proj2 (Z.ltb_lt _ _)); [done|]. unfold maxMsgBytes, MaxBlockBytes. lia.
Qed.

(** A message that cannot be framed reaches no peer and closes every connection. *)
Lemma announce_fails `{MsgCodec} `{Crypto} n blk h :
  is_ok (frame (block_msg (Block_Bytes blk) h false)) = false ->
  (announceBlock (fun _ => wire_send) n blk h).1 = 0 /\
  forall key q, n_peers n !! key = Some q -> p_addr q <> [] ->
    p_conn q ∈ (announceBlock (fun _ => wire_send) n blk h).2.
Proof.
  intros Hf. unfold announceBlock, broadcast. cbn [fst snd].
  assert (Hs : wire_send (block_msg (Block_Bytes blk) h false) <> None)
    by (unfold wire_send; by destruct (frame _)).
  split.
  - set (ps := filter (fun p => p_addr p <> []) _). induction ps as [|q ps IH]; [done|].
    by rewrite filter_cons_False.
  - intros key q Hq Hne. apply list_elem_of_fmap_2, list_elem_of_filter. split; [done|].
    apply list_elem_of_filter. split; [done|]. apply list_elem_of_fmap. exists (key, q).
    split; [done|]. by apply elem_of_map_to_list.
Qed.

(** The block size limit of the consensus rules is 1,000,000
    bytes, but the message limit adds only 4,096 bytes to it although the block
    travels as base64 inside JSON: a block of more than 753,072 bytes cannot be
    framed, a request that starts at such a block gets no block at all, only an
    error that ends the connection, and announcing it as the new tip reaches no peer
    and closes the connection to every one of them. *)
Theorem large_block_not_relayed `{MsgCodec} `{!MsgCodecLaws} raw h more :
  753072 < Z.of_nat (length raw) <= MaxBlockBytes ->
  (exists e, frame (block_msg raw h more) = Err e) /\
  forall (K : Crypto) (T : NetText) p c n now pr m blk,
    pow_params_ok p -> reachable p c -> m_Type m = bs "getblocks" ->
    BlockAt c (m_From m) = Ok (Some blk) -> 753072 < Z.of_nat (length (Block_Bytes blk)) ->
    (exists e, handleMsg wire_send n c (fun _ => c) c now pr m
               = Ok (mkHandled n c [] [] (Some e))) /\
    (announceBlock (fun _ => wire_send) n blk (m_From m)).1 = 0 /\
    forall key q, n_peers n !! key = Some q -> p_addr q <> [] ->
      p_conn q ∈ (announceBlock (fun _ => wire_send) n blk (m_From m)).2.
Proof.
  intros Hlen. split.
  { pose proof (large_frame raw h more ltac:(lia)) as Hf. destruct (frame _) as [|e]; [done|eauto]. }
  intros K T p c n now pr m blk Hp Hr Ht Hat Hbig.
  split; [|by apply announce_fails, large_frame]. rewrite (handle_getblocks _ _ _ _ _ _ Ht).
  pose proof (reachable_inv _ Hp _ Hr) as Hc. destruct (ci_main _ _ Hc) as (l & Hb & _).
  destruct (collect_defined p (fun _ => c) (Z.to_nat blockBatchSize) (fun _ => Hc) 0 (m_From m) 0 [])
    as [out Hout]. rewrite Hout. cbn [mbind result_bind].
  apply (collect_first _ 63 _ _ _ blk) in Hout as [rest ->]; [|done]. cbn [send_batch].
  assert (exists b, (if (length rest =? 0)%nat
     then next ← BlockAt c (m_From m + 1); Ok (bool_decide (is_Some next)) else Ok false) = Ok b)
    as [b ->].
  { destruct (_ =? 0)%nat; [|eauto]. rewrite (BlockAt_inv p _ l) by done. eauto. }
  cbn [mbind result_bind]. unfold wire_send.
  pose proof (large_frame (Block_Bytes blk) (m_From m) b Hbig) as Hf.
  destruct (frame _) as [|e]; [done|]. eauto.
Qed.

Lemma large_block_not_relayed_witness :
  exists e, frame (block_msg (replicate (Z.to_nat 753073) Byte.x00) 1 false) = Err e.
Proof.
  destruct (large_block_not_relayed (replicate (Z.to_nat 753073) Byte.x00) 1 false) as [Hf _];
    [|exact Hf].
  rewrite length_replicate, Z2Nat.id by lia. unfold MaxBlockBytes. lia.
Defined.

(** ** What a message can do *)
Section effects.
Context `{Crypto} `{NetText} (p : Params) (Hp : pow_params_ok p).

Lemma learn_all_reachable addrs : forall n, node_reachable n -> node_reachable (fold_left learn_addr addrs n).
Proof.
  induction addrs as [|a addrs IH]; intros n Hn; [done|]. apply IH.
  exact (node_next _ _ Hn (step_learn _ a)).
Qed.

(** The outcome [h] of a message on a reachable state. *)
Record harmless (send : Msg -> option error) (c : Chain) (m : Msg) (h : handled) : Prop := {
  hm_node : node_reachable (hd_node h);
  hm_chain : hd_chain h = c \/ exists o, hd_chain h = run_op c o;
  hm_error : forall e, hd_error h = Some e -> is_panic e = false;
  hm_relay : forall m', m' ∈ hd_broadcast h -> exists tx, m' = tx_msg (m_Raw m) /\
    DecodeTx (m_Raw m) = Ok tx /\ c_mempool c !! Tx_ID tx = None /\
    c_mempool (hd_chain h) !! Tx_ID tx = Some tx }.

Lemma harmless_quiet send n c m sent err :
  node_reachable n -> (forall e, err = Some e -> is_panic e = false) ->
  harmless send c m (mkHandled n c sent [] err).
Proof. intros Hn He. split; cbn; [done|by left|done|by intros ? ?%elem_of_nil]. Qed.

Lemma harmless_reply send n c c' m r :
  (forall m e, send m = Some e -> is_panic e = false) ->
  node_reachable n -> (c' = c \/ exists o, c' = run_op c o) -> harmless send c m (reply send n c' r).
Proof.
  intros Hs Hn Hc. unfold reply. destruct (send r) eqn:E; split; cbn; try done;
    try by intros ? ?%elem_of_nil. intros ? [= <-]. eauto.
Qed.

Lemma note_height_reachable n pr h : node_reachable n -> node_reachable (note_height n pr h).
Proof. intros Hn. exact (node_next _ _ Hn (step_height _ pr h)). Qed.

Lemma handle_harmless send n c reads after now pr m :
  (forall m e, send m = Some e -> is_panic e = false) ->
  node_reachable n -> reachable p c -> (forall i, reachable p (reads i)) -> reachable p after ->
  exists h, handleMsg send n c reads after now pr m = Ok h /\ harmless send c m h.
Proof.
  intros Hs Hn Hc Hr Ha. pose proof (note_height_reachable n pr (m_Height m) Hn) as Hnh.
  unfold handleMsg. repeat case_bool_decide.
  - eexists. split; [done|]. apply harmless_reply; auto.
  - eexists. split; [done|]. by apply harmless_quiet.
  - eexists. split; [done|]. apply harmless_quiet; [by apply learn_all_reachable|done].
  - destruct (collect_defined p reads (Z.to_nat blockBatchSize)
      (fun i => reachable_inv _ Hp _ (Hr i)) 0 (m_From m) 0 []) as [out ->]. cbn [mbind result_bind].
    destruct (send_batch_defined p send after out (reachable_inv _ Hp _ Ha)) as (sent & err & -> & He).
    cbn [mbind result_bind]. eexists. split; [done|]. apply harmless_quiet; [done|].
    intros e [m' Hm']%He. eauto.
  - destruct (DecodeBlock (m_Raw m)) as [blk|e] eqn:Ed.
    2:{ eexists. split; [done|]. apply harmless_quiet; [done|]. intros ? [= <-]. cbn.
        by eapply calm_DecodeBlock. }
    destruct (AcceptBlock c (Some blk) now) as [c' r] eqn:Ea.
    assert (Hc' : c' = run_op c (OpBlock (Some blk) now)) by (cbn [run_op]; by rewrite Ea).
    assert (Hop : c' = c \/ exists o, c' = run_op c o) by eauto.
    destruct r as [ev|e].
    + destruct (m_More m); eexists; (split; [done|]); [by apply harmless_reply|].
      split; cbn; [done|done|done|by intros ? ?%elem_of_nil].
    + assert (Hpanic : is_panic e = false).
      { unfold AcceptBlock in Ea. destruct (acceptBlockLocked c blk true now) as [c1 r1] eqn:E1.
        simplify_eq. destruct r1 as [[?|]|e1]; try done. simplify_eq/=.
        eapply (acceptBlock_no_panic p Hp (reachable_valid _ _ Hc)), E1.
        by apply reachable_inv. }
      assert (Herr : harmless send c m
        (mkHandled (note_height n pr (m_Height m)) c' [] [] (Some (EWrap "invalid block" 0 e)))).
      { split; cbn; [done|done| |by intros ? ?%elem_of_nil]. by intros ? [= <-]. }
      destruct (is_orphan e); eexists; (split; [done|]); [by apply harmless_reply|exact Herr].
  - destruct (DecodeTx (m_Raw m)) as [tx|e] eqn:Ed.
    2:{ eexists. split; [done|]. apply harmless_quiet; [done|]. intros ? [= <-]. cbn.
        by eapply calm_DecodeTx. }
    destruct (AcceptTxWithResult c (Some tx)) as [c' r] eqn:Ea.
    assert (Hc' : c' = run_op c (OpTx (Some tx))) by (cbn [run_op]; by rewrite Ea).
    apply AcceptTx_cases in Ea as [[_ Hr']|(t & fee & [= <-] & -> & _ & Hnew & _ & _ & Hset)].
    + repeat case_match; try done; eexists; (split; [done|]); split; cbn; eauto;
        try (by intros ? ?%elem_of_nil); done.
    + eexists. split; [done|]. split; cbn; [done|eauto|done|].
      intros m' [->|[]%elem_of_nil]%elem_of_cons. exists tx. split_and!; try done.
      rewrite Hset. cbn. by rewrite lookup_insert_eq.
  - destruct (_ >? _); eexists; (split; [done|]);
      [apply harmless_reply; auto|by apply harmless_quiet].
  - eexists. split; [done|]. by apply harmless_quiet.
Qed.
End effects.

(** C35: Whatever message a peer sends, in whatever reachable state of
    the node and the chain: handling it returns (no panic, no endless loop), the
    tables of the node keep the invariant of all reachable nodes ([node_inv]), the chain
    stays reachable and its tip is the old one or one with more work, and a transaction
    is relayed only when it was new and is now in the mempool. *)
Theorem message_effects `{Crypto} `{NetText} `{!NetTextLaws} p send n c reads after now pr m :
  pow_params_ok p -> (forall m e, send m = Some e -> is_panic e = false) ->
  node_reachable n -> reachable p c -> (forall i, reachable p (reads i)) -> reachable p after ->
  exists h, handleMsg send n c reads after now pr m = Ok h /\
    node_inv (hd_node h) /\ reachable p (hd_chain h) /\
    (c_tip (hd_chain h) = c_tip c \/ bi_cumWork (c_tip c) < bi_cumWork (c_tip (hd_chain h))) /\
    (forall e, hd_error h = Some e -> is_panic e = false) /\
    forall m', m' ∈ hd_broadcast h -> exists tx, m' = tx_msg (m_Raw m) /\
      DecodeTx (m_Raw m) = Ok tx /\ c_mempool c !! Tx_ID tx = None /\
      c_mempool (hd_chain h) !! Tx_ID tx = Some tx.
Proof.
  intros Hp Hs Hn Hc Hr Ha.
  destruct (handle_harmless p Hp send n c reads after now pr m Hs Hn Hc Hr Ha)
    as (h & Hh & [Hnode Hchain Herr Hrelay]).
  exists h. split_and!; [done|by apply node_reachable_inv| | |done|done].
  - destruct Hchain as [->|[o ->]]; [done|by apply reach_op].
  - destruct Hchain as [->|[o ->]]; [by left|by apply (run_op_work p)].
Qed.

(** ** A node with three blocks and its downloading peer *)
Lemma toy_branch : exists l, branch RegTest (c_index Toy.c3) (c_tip Toy.c3) l.
Proof.
  destruct (ci_main _ _ (reachable_inv _ pow_params_ok_reg _ Toy.c3_reachable)) as (l & Hl & _).
  by exists l.
Qed.

Lemma toy_sendable : sendable (fun _ => None) Toy.c3.
Proof. done. Qed.

Lemma getblocks_batch_witness :
  exists sent, handleMsg (fun _ => None) toy_node Toy.c3 (fun _ => Toy.c3) Toy.c3 Toy.now
      (toy_peer 1 []) (getblocks_msg 1) = Ok (mkHandled toy_node Toy.c3 sent [] None) /\ sent <> [].
Proof.
  destruct toy_branch as [l Hl].
  destruct (getblocks_batch RegTest Toy.c3 l (fun _ => None) toy_node Toy.now (toy_peer 1 [])
              (getblocks_msg 1) pow_params_ok_reg Toy.c3_reachable Hl toy_sendable eq_refl)
    as (sent & Hs & _ & _ & Hne & _).
  exists sent. split; [exact Hs|]. apply Hne. rewrite Toy.c3_height. cbn. lia.
Defined.

#[global] Instance relayable_dec `{Crypto} p now bi : Decision (relayable p now bi).
Proof. unfold relayable, not_future. destruct (asertActive _ _); apply _. Defined.

Definition relayable_chainb `{Crypto} (p : Params) (now : Z) (c : Chain) : bool :=
  forallb (fun id => match c_index c !! id with
                     | Some bi => (bi_height bi <=? 0) || bool_decide (relayable p now bi)
                     | None => true
                     end) (c_mainIDs c).

Lemma relayable_chainb_spec `{Crypto} p now c l :
  chain_inv p c -> branch p (c_index c) (c_tip c) l -> relayable_chainb p now c = true ->
  Forall (relayable p now) (tail l).
Proof.
  intros Hc Hb Hs. destruct (ci_main _ _ Hc) as (l' & Hb' & Hids & _).
  rewrite (branch_unique _ _ _ _ _ Hb' Hb) in *. clear l' Hb'.
  unfold relayable_chainb in Hs. rewrite forallb_forall in Hs.
  apply list.Forall_forall. intros bi Hin. apply list_elem_of_lookup in Hin as [i Hi].
  assert (Hl : l !! S i = Some bi) by (by destruct l).
  pose proof (branch_heights _ _ _ _ Hb _ _ Hl). pose proof (list_elem_of_lookup_2 _ _ _ Hl) as Hin.
  specialize (Hs (bi_id bi)). rewrite (branch_indexed _ _ _ _ Hb (ci_tip _ _ Hc) _ Hin) in Hs.
  rewrite Hids in Hs. cbn in Hs.
  apply orb_true_iff in Hs as [Hz|Hr]; [bool_prop; lia|by bool_prop|].
  by apply list_elem_of_In, list_elem_of_fmap_2.
Qed.

Lemma toy_relayable l : branch RegTest (c_index Toy.c3) (c_tip Toy.c3) l ->
  Forall (relayable RegTest Toy.now) (tail l).
Proof.
  intros Hl. apply (relayable_chainb_spec _ _ Toy.c3); [|done|vm_compute; reflexivity].
  exact (reachable_inv _ pow_params_ok_reg _ Toy.c3_reachable).
Qed.

Lemma initial_block_download_witness :
  exists s, download 4 (fun _ => None) (fun _ => None) Toy.now (toy_peer 1 []) (toy_peer 2 [])
              toy_node Toy.c3 toy_node Toy.c0 (getblocks_msg 1) = Ok s /\ c_tip s = c_tip Toy.c3.
Proof.
  destruct toy_branch as [l Hl].
  destruct (initial_block_download RegTest Toy.c3 l Toy.c0 Toy.now (fun _ => None) (fun _ => None)
              (toy_peer 1 []) (toy_peer 2 []) toy_node toy_node pow_params_ok_reg Toy.c3_reachable Hl
              Toy.c0_new ltac:(rewrite Toy.c3_height; lia) (toy_relayable l Hl) toy_sendable
              (fun _ => eq_refl)) as (s & Hs & Ht & _).
  rewrite Toy.c3_height in Hs. exists s. split; [exact Hs|exact Ht].
Defined.

Lemma message_effects_witness :
  exists h, handleMsg (fun _ => None) toy_node Toy.c2m (fun _ => Toy.c2m) Toy.c2m Toy.now
      (toy_peer 1 []) (block_msg (Block_Bytes Toy.b3) 3 false) = Ok h /\ reachable RegTest (hd_chain h).
Proof.
  destruct (message_effects RegTest (fun _ => None) toy_node Toy.c2m (fun _ => Toy.c2m) Toy.c2m
              Toy.now (toy_peer 1 []) (block_msg (Block_Bytes Toy.b3) 3 false) pow_params_ok_reg
              ltac:(discriminate) toy_node_reachable Toy.c2m_reachable (fun _ => Toy.c2m_reachable)
              Toy.c2m_reachable) as (h & Hh & _ & Hr & _).
  exists h. split; [exact Hh|exact Hr].
Defined.
