(* ===== verification/PoolTheorems.v ===== *)
(** * Pooled mining: theorems

    Work issued by the PPLNS coordinator passes the miner's verification; verified
    work pays the committed window; a submission is persisted before it is
    acknowledged and acknowledged once. *)
From S2P Require Import Prelude Text Params Crypto Pow Wire Address Merkle Chain Ledger Sanity.
From S2P Require Import ChainInv ChainView Miner Pplns PplnsProofs Coordinator PoolWork.
From S2P Require Import PplnsCoordinator PoolProofs Toy PplnsTheorems.

(** An issued work item, its job and what the miner makes of it. *)
Lemma issue_verified `{CryptoLaws} `{SnapshotJSON} p q w before chain address worker now
    unixNow raw q' work :
  pow_params_ok p -> reachable p chain -> coordinator_ok p q ->
  window_ok (pq_network q) (w_state w) -> in_i64 unixNow -> length raw = 16%nat ->
  (forall bits, NextBitsForTip chain = Ok bits -> 0 < CompactToTarget bits) ->
  PPLNS_Issue q w before chain address worker now unixNow (Ok (hex_encode raw)) = (q', Ok work) ->
  exists job, pq_jobs q' !! hex_encode raw = Some job /\
    ParsePoolWork work (Some p) =
      Ok (blk_Header (pj_block job), pj_networkTarget job, pj_shareTarget job) /\
    pj_address job = address /\ pj_height job = bi_height (c_tip chain) + 1 /\
    hdr_PrevBlock (blk_Header (pj_block job)) = bi_id (c_tip chain) /\
    Z.of_nat (size (pq_jobs q')) <= pc_MaxJobs (pq_config q) /\ coordinator_ok p q' /\
    wf_block (pj_block job) /\ pk_Height work = pj_height job /\ 1 <= pj_height job.
Proof.
  intros Hpow Hr Hq Hw Hnow Hraw Hpos Hi. pose proof (reachable_inv _ Hpow _ Hr) as Hc.
  apply issue_inv in Hi as (payout & sh & block & copy & branch & ws & js & order & cb & Hpay & Hnet &
    Hhash & Hb & Hcopy & Hbr & Hws & Hins & Hcb & -> & ->).
  destruct (insert_job_spec pj_expiresAt now _ (hex_encode raw) (issued_job q chain address now block copy)
    _ _ (cq_jobs _ _ Hq) (cq_table _ _ Hq)) as (js' & order' & Hins' & Ht & Hl & Hsz & _).
  rewrite Hins in Hins'. apply Ok_inj in Hins' as [= <- <-].
  destruct (template_shape _ _ _ _ Hb) as (cb' & sel & bits & reward & Hblk & Hbits & _).
  pose proof (tip_bits_u32 p _ _ (canonical_bits p Hpow _ (cq_network _ _ Hq)) Hc Hbits) as Hu.
  pose proof (template_header_wf p Hpow chain cb' sel bits unixNow Hc Hu Hnow) as Hwf.
  assert (Hh : blk_Header copy = blk_Header block) by (apply decoded_header; [by rewrite Hblk|done]).
  exists (issued_job q chain address now block copy). cbn [pq_jobs set_pplns_jobs issued_job pj_block
    pj_networkTarget pj_shareTarget pj_address pj_height]. rewrite Hh. split_and!; try done.
  - rewrite (cq_params _ _ Hq). eapply (parse_issued p Hpow q (w_state w)); try done.
    + by rewrite Hblk.
    + by rewrite Hblk.
    + rewrite Hblk. cbn [blk_Header hdr_Bits]. split; [by apply Hpos|]. by eapply tip_target.
    + split; try done; unfold issued_work; cbn [pk_Height pk_ArgonMemKiB pk_ArgonTime pk_ShareTargetHex];
        rewrite ?(cq_params _ _ Hq); try done.
      destruct (ci_main _ _ Hc) as (l & Hbr' & _). pose proof (branch_height_nonneg p _ _ _ Hbr').
      change (0 < bi_height (c_tip chain) + 1). lia.
    + by eapply issued_proof.
  - rewrite Hblk. done.
  - destruct Hq. split; done.
  - by eapply DecodeBlock_wf.
  - destruct (ci_main _ _ Hc) as (l & Hbr' & _). pose proof (branch_height_nonneg p _ _ _ Hbr').
    change (1 <= bi_height (c_tip chain) + 1). lia.
Qed.

(** C16: Every work item the coordinator issues passes the checks of
    an honest miner of the same network and parses to exactly the header and the
    targets of the stored job: the window, its hash, the coinbase proof and the
    payout weights agree.  The job table stays within its bound.  The required
    target must be positive, and the random job id has 16 bytes. *)
Theorem issued_work_verifies `{CryptoLaws} `{SnapshotJSON} p q w before chain address worker now
    unixNow raw q' work :
  pow_params_ok p -> reachable p chain -> coordinator_ok p q ->
  window_ok (pq_network q) (w_state w) -> in_i64 unixNow -> length raw = 16%nat ->
  (forall bits, NextBitsForTip chain = Ok bits -> 0 < CompactToTarget bits) ->
  PPLNS_Issue q w before chain address worker now unixNow (Ok (hex_encode raw)) = (q', Ok work) ->
  exists job, pq_jobs q' !! hex_encode raw = Some job /\
    ParsePoolWork work (Some p) =
      Ok (blk_Header (pj_block job), pj_networkTarget job, pj_shareTarget job) /\
    pj_address job = address /\ pj_height job = bi_height (c_tip chain) + 1 /\
    hdr_PrevBlock (blk_Header (pj_block job)) = bi_id (c_tip chain) /\
    Z.of_nat (size (pq_jobs q')) <= pc_MaxJobs (pq_config q) /\ coordinator_ok p q'.
Proof.
  intros Hpow Hr Hq Hw Hnow Hraw Hpos Hi.
  destruct (issue_verified p q w before chain address worker now unixNow raw q' work)
    as (job & ? & ? & ? & ? & ? & ? & ? & _); [done..|]. by exists job.
Qed.

(** C17: What a miner knows about work that passed its checks: the
    header commits to a coinbase that collects at least the subsidy and names the
    hash of the window, the window is valid, and the outputs are exactly the payout
    of that window at the whole reward, or, for an empty window, one output to one
    advertised address.  Both targets are in range and the network target is the
    header's. *)
Theorem verified_work_pays `{Crypto} `{SnapshotJSON} p work header networkTarget shareTarget :
  ParsePoolWork work (Some p) = Ok (header, networkTarget, shareTarget) ->
  networkTarget = CompactToTarget (hdr_Bits header) /\
  0 < networkTarget <= shareTarget /\ shareTarget <= MaxTarget p /\ hdr_Nonce header = 0 /\
  exists cb, let window := pk_Window work in
    let reward := sumZ (out_Value <$> tx_Outs cb) in
    coinbase_proven work header cb /\ pplnsSnapshotHash (pk_WindowNil work) window = Ok (pk_PPLNSStateHash work) /\
    validatePPLNSState window (pk_Network work) (ps_WindowShares window) (ps_MaxAddresses window)
      = Ok tt /\
    ((ps_Shares window = [] /\ exists address pkh, payout_pkh address = Some pkh /\
        pw_Address <$> pk_PayoutWeights work = [address] /\ tx_Outs cb = [mkTxOut reward pkh]) \/
     pplnsPayouts window reward = Ok (tx_Outs cb)).
Proof.
  unfold ParsePoolWork. intros Hp.
  apply bind_Ok in Hp as ([] & Hnet & Hp). apply bind_Ok in Hp as ([] & _ & Hp).
  apply bind_Ok in Hp as ([] & Hmeta & Hp). apply bind_Ok in Hp as ([] & Hwin & Hp).
  apply bind_Ok in Hp as ([] & Hval & Hp). apply bind_Ok in Hp as ([] & _ & Hp).
  apply bind_Ok in Hp as ([] & _ & Hp). apply bind_Ok in Hp as ([] & Hhash & Hp).
  apply bind_Ok in Hp as (raw & _ & Hp). apply bind_Ok in Hp as ([] & Hnonce & Hp).
  apply bind_Ok in Hp as ([] & _ & Hp). apply bind_Ok in Hp as ([] & Hproof & Hp).
  apply bind_Ok in Hp as (nt & Hnt & Hp). apply bind_Ok in Hp as ([] & Htarget & Hp).
  apply bind_Ok in Hp as (st & Hst & Hp). apply Ok_inj in Hp as [= <- <- <-].
  apply check_Ok in Hnet, Hmeta, Hwin, Hhash, Hnonce, Htarget. apply is_value_true in Hnet, Hhash.
  bool_prop. destruct (validatePPLNSState _ _ _ _) as [[]|] eqn:Evs; [|done].
  rename select (ps_WindowShares _ = pk_WindowShares _) into Hws.
  rename select (Z.of_nat _ = pk_CurrentShares _) into Hcur. rewrite <- Hws in Evs.
  assert (Hpos : 0 < nt).
  { destruct (parseCanonicalTarget (pk_NetworkTargetHex work)) as [t|] eqn:Et; [|done].
    apply Ok_inj in Hnt as ->. unfold parseCanonicalTarget in Et.
    destruct (canonical_hex _ _); [|done]. cbv zeta in Et. step_if Et; [done|].
    apply Ok_inj in Et as <-. bool_prop. lia. }
  destruct (parseCanonicalTarget (pk_ShareTargetHex work)) as [t|]; [|done]. step_if Hst; [done|].
  apply Ok_inj in Hst as ->. bool_prop. split_and!; try done; try lia.
  destruct (proof_inv _ _ Hproof) as (cb & ws & total & last & Hcb & Hfold & Hpay).
  exists cb. cbv zeta. split_and!; try done.
  apply check_payout_inv in Hpay as [(_ & He & w & o & Hw & Ho & Hv & Hpk)|(Hc & Hpw & Hout)].
  - left. split; [done|]. rewrite Hw in Hfold. apply check_weights_addresses in Hfold.
    apply Forall_cons_1 in Hfold as [[pkh Hpkh] _]. exists (pw_Address w), pkh. rewrite Hw.
    split_and!; [done|done|]. rewrite Ho. cbn [fmap list_fmap sumZ]. rewrite Z.add_0_r.
    unfold payout_pkh in Hpkh. destruct (DecodeAddress _); [|done]. step_if Hpkh; [done|].
    injection Hpkh as ->. destruct o. cbn in *. by subst.
  - right. pose proof Evs as Hspec. apply validate_state_spec in Hspec as (Hlen & _ & Hall & _).
    destruct (advertised_weights (pk_Network work) _ (pk_Window work) eq_refl Hall) as
      (ws' & Hws' & _ & last' & Hfold'); [lia|].
    rewrite Hpw in Hws'. apply Ok_inj in Hws' as <-. rewrite Hfold in Hfold'.
    apply Ok_inj in Hfold' as [= -> _ _]. apply (payouts_of_weights p (pk_Network work)); try done.
    intros Hn. rewrite Hn in Hcur. cbn in Hcur. lia.
Qed.

(** ** Submission *)
(** The block and the share that a nonce stands for. *)
Definition solved (copy : Block) (nonce : Z) : Block :=
  mkBlock (with_nonce (blk_Header copy) nonce) (blk_Txs copy).
Definition solved_share (job : pplnsMiningJob) (id : bytes) (nonce now : Z) (hash prev : bytes)
    : PPLNSShare :=
  mkShare 0 (pj_address job) id nonce (hex_encode hash) (hex_pad 32 (pj_shareTarget job))
    (hex_encode prev) (pj_height job - 1) now.

Section submission.
Context `{Crypto} `{SnapshotJSON}.

Lemma claim_share_ok q chain id nonce now q' job :
  claim_share q chain id nonce now = (q', Ok (inr job)) ->
  exists job0, pq_jobs q !! id = Some job0 /\ now < pj_expiresAt job0 /\ nonce ∉ pj_seen job0 /\
    hdr_PrevBlock (blk_Header (pj_block job0)) = bi_id (c_tip chain) /\
    job = mark_seen job0 ({[nonce]} ∪ pj_seen job0) /\
    q' = set_pplns_jobs q (<[id := job]> (pq_jobs q)) (pq_order q).
Proof.
  unfold claim_share. destruct (pq_receipts q !! _); [done|].
  destruct (pq_jobs q !! id) as [job0|]; [|done].
  destruct (Z.ltb_spec now (pj_expiresAt job0)); cbn [negb]; [|done].
  case_bool_decide; cbn [negb]; [|done]. case_bool_decide; [done|]. destruct (_ >=? _); [done|].
  intros [= <- <-]. by exists job0.
Qed.

Lemma store_receipt_lookup q key r : pq_receipts (store_receipt q key r) !! key = Some r.
Proof.
  unfold store_receipt, storeReceiptLocked. case_decide; [apply lookup_insert_eq|].
  destruct (evict_receipts _ _ _) as [rs order]. apply lookup_insert_eq.
Qed.

Lemma stored_receipt_returned s g1 g2 g3 g4 marshal hardLink written id nonce now unixNow r :
  pq_receipts (po_co s) !! pplnsReceiptKey id nonce = Some r ->
  PPLNS_Submit s g1 g2 g3 g4 marshal hardLink written id nonce now unixNow = (s, Ok r).
Proof. intros Hr. unfold PPLNS_Submit, claim_share. rewrite Hr. by destruct s. Qed.

Lemma Accept_Ok marshal hardLink written w share w' accepted :
  Accept marshal hardLink written w share = (w', Ok accepted) ->
  exists encoded, w_file w' = Some encoded /\ marshal (w_state w') = Ok (removelast encoded) /\
    accepted = set_sequence share (ps_NextSequence (w_state w)) /\
    w_state w' = append_share (w_state w) accepted.
Proof.
  unfold Accept. destruct (accept_candidate _ _ _ _) as [[[cand enc] sh]|] eqn:E; [|done].
  destruct written as [[e|] replaced]; [done|]. intros [= <- <-]. unfold accept_candidate in E.
  res_simpl. exists (x4 ++ [Byte.x0a]). simplify_eq.
  split_and!; try done. by rewrite removelast_last.
Qed.

(** The pool after the first critical section of a submission. *)
Definition claimed (s : Pool) (id : bytes) (job : pplnsMiningJob) (nonce : Z) : Pool :=
  set_co s (set_pplns_jobs (po_co s)
    (<[id := mark_seen job ({[nonce]} ∪ pj_seen job)]> (pq_jobs (po_co s))) (pq_order (po_co s))).

(** The pool after the third critical section: the window that [Accept] returned,
    then the receipt of the share. *)
Definition recorded (s : Pool) (gap3 : Pool -> Pool) (w : PPLNSWindow) (key : bytes)
    (receipt : PoolSubmitResult) : Pool :=
  let s := gap3 (mkPool (po_co s) w (po_chain s)) in set_co s (store_receipt (po_co s) key receipt).

(** Everything a successful submission went through. *)
Lemma submit_success s gap1 gap2 gap3 gap4 marshal hardLink written id nonce now unixNow s' r :
  PPLNS_Submit s gap1 gap2 gap3 gap4 marshal hardLink written id nonce now unixNow = (s', Ok r) ->
  (pq_receipts (po_co s) !! pplnsReceiptKey id nonce = Some r /\ s' = s) \/
  exists job copy w' accepted, pq_jobs (po_co s) !! id = Some job /\ now < pj_expiresAt job /\
    nonce ∉ pj_seen job /\ hdr_PrevBlock (blk_Header (pj_block job)) = bi_id (c_tip (po_chain s)) /\
    DecodeBlock (Block_Bytes (pj_block job)) = Ok copy /\
    let block := solved copy nonce in
    let hash := PowHash (Header_Bytes (blk_Header block)) (pq_params (po_co s)) in
    let before := gap2 (gap1 (claimed s id job nonce)) in
    let receipt := mkPoolResult 2 (pq_network (po_co s)) "share_accepted" (hex_encode hash)
                     (sh_Sequence accepted) [] (pj_height job) in
    let after := gap4 (recorded before gap3 w' (pplnsReceiptKey id nonce) receipt) in
    HashToBig hash <= pj_shareTarget job /\
    Accept marshal hardLink written (po_window before)
      (solved_share job id nonce now hash (hdr_PrevBlock (blk_Header block))) = (w', Ok accepted) /\
    po_window s' = po_window after /\
    (pr_SchemaVersion r, pr_Network r, pr_ShareHash r, pr_ShareSequence r, pr_Height r) =
      (2, pq_network (po_co s), hex_encode hash, sh_Sequence accepted, pj_height job) /\
    (pj_networkTarget job < HashToBig hash /\ pr_Status r = "share_accepted"%string /\ pr_BlockID r = [] /\
     s' = after \/
     HashToBig hash <= pj_networkTarget job /\ pr_Status r = "block_accepted"%string /\
     pr_BlockID r = hex_encode (Header_ID (blk_Header block)) /\ pq_jobs (po_co s') = ∅ /\
     exists ev, AcceptBlock (po_chain after) (Some block) unixNow = (po_chain s', Ok ev)) /\
    ((forall t, gap4 t = t) -> pq_receipts (po_co s') !! pplnsReceiptKey id nonce = Some r).
Proof.
  intros Hs. unfold PPLNS_Submit in Hs. cbv zeta in Hs.
  destruct (claim_share (po_co s) (po_chain s) id nonce now) as [q1 claim] eqn:Ec.
  destruct claim as [[r0|job1]|]; [| |done].
  { left. unfold claim_share in Ec. injection Hs as <- ->.
    destruct (pq_receipts (po_co s) !! _) as [r1|]; [|repeat case_match; done].
    injection Ec as <- <-. by destruct s. }
  right. apply claim_share_ok in Ec as (job & Hj & Hexp & Hseen & Hprev & -> & ->).
  cbn [pj_ptr pj_block pj_address pj_height pj_networkTarget pj_shareTarget mark_seen] in Hs.
  destruct (DecodeBlock (Block_Bytes (pj_block job))) as [copy|] eqn:Edec; [|done].
  fold (solved copy nonce) in Hs. cbn [set_co po_co set_pplns_jobs pq_params] in Hs.
  set (hash := PowHash (Header_Bytes (blk_Header (solved copy nonce))) (pq_params (po_co s))) in *.
  step_if Hs; [done|]. step_if Hs; [done|]. bool_prop.
  fold (solved_share job id nonce now hash (hdr_PrevBlock (blk_Header (solved copy nonce)))) in Hs.
  destruct (Accept _ _ _ _ _) as [w' [accepted|]] eqn:Ea in Hs; [|done].
  pose proof Ea as Ha. apply Accept_Ok in Ha as (_ & _ & _ & Hacc & _).
  exists job, copy, w', accepted. do 5 (split; [done|]). cbv zeta. fold hash. unfold recorded.
  assert (Hh : sh_ShareHash accepted = hex_encode hash) by by subst accepted. rewrite Hh in Hs.
  step_if Hs; [|destruct (AcceptBlock _ _ _) as [chain' [ev|]] eqn:Eb in Hs; [|done]];
    injection Hs as <- <-; bool_prop; (split; [done|]); (split; [exact Ea|]); (split; [done|]); (split; [done|]).
  - split; [by left|]. intros Hg. rewrite Hg. apply store_receipt_lookup.
  - split; [right; split_and!; try done; by exists ev|]. intros _. apply store_receipt_lookup.
Qed.
End submission.

(** C21: Whatever other requests do between its critical sections ([gap1] to
    [gap4]), a submission that succeeds either repeats a stored receipt without any
    effect, or its job was live and built on the tip, its nonce new and its proof of
    work within the share target.  In the second case [Accept] appended the share to
    the window that the pool had at that point ([before]), under the sequence number of
    the receipt, and wrote the state file; that window, with that file, is the one the
    pool continues with ([recorded]), and the window of the pool at the end is the one
    the requests in the last two gaps made of it.  When no other request intervenes,
    the pool ends with its old window plus exactly this share, in memory and in the
    file.  The receipt reports a block exactly when the network target is met and the
    chain of the pool accepted that block, and sending the same nonce again then
    returns the same receipt and changes nothing. *)
Theorem pplns_submit_persists `{Crypto} `{SnapshotJSON} s gap1 gap2 gap3 gap4 marshal hardLink written
    id nonce now unixNow s' r :
  PPLNS_Submit s gap1 gap2 gap3 gap4 marshal hardLink written id nonce now unixNow = (s', Ok r) ->
  (pq_receipts (po_co s) !! pplnsReceiptKey id nonce = Some r /\ s' = s) \/
  exists job copy w' accepted encoded, pq_jobs (po_co s) !! id = Some job /\ now < pj_expiresAt job /\
    nonce ∉ pj_seen job /\ hdr_PrevBlock (blk_Header (pj_block job)) = bi_id (c_tip (po_chain s)) /\
    DecodeBlock (Block_Bytes (pj_block job)) = Ok copy /\
    let block := solved copy nonce in
    let hash := PowHash (Header_Bytes (blk_Header block)) (pq_params (po_co s)) in
    let share := solved_share job id nonce now hash (hdr_PrevBlock (blk_Header block)) in
    let before := gap2 (gap1 (claimed s id job nonce)) in
    let receipt := mkPoolResult 2 (pq_network (po_co s)) "share_accepted" (hex_encode hash)
                     (sh_Sequence accepted) [] (pj_height job) in
    let after := gap4 (recorded before gap3 w' (pplnsReceiptKey id nonce) receipt) in
    HashToBig hash <= pj_shareTarget job /\ pr_ShareHash r = hex_encode hash /\
    (Accept marshal hardLink written (po_window before) share = (w', Ok accepted) /\
     accepted = set_sequence share (ps_NextSequence (w_state (po_window before))) /\
     w_state w' = append_share (w_state (po_window before)) accepted /\
     sh_Sequence accepted = pr_ShareSequence r /\
     w_file w' = Some encoded /\ marshal (w_state w') = Ok (removelast encoded)) /\
    po_window s' = po_window after /\
    ((forall t, gap1 t = t /\ gap2 t = t /\ gap3 t = t /\ gap4 t = t) ->
       w_state (po_window s') = append_share (w_state (po_window s)) accepted /\
       w_file (po_window s') = Some encoded /\ marshal (w_state (po_window s')) = Ok (removelast encoded)) /\
    (pj_networkTarget job < HashToBig hash /\ pr_Status r = "share_accepted"%string /\ s' = after \/
     HashToBig hash <= pj_networkTarget job /\ pr_Status r = "block_accepted"%string /\
     pr_BlockID r = hex_encode (Header_ID (blk_Header block)) /\ pq_jobs (po_co s') = ∅ /\
     exists ev, AcceptBlock (po_chain after) (Some block) unixNow = (po_chain s', Ok ev)) /\
    ((forall t, gap4 t = t) -> forall marshal' hardLink' written' now' unixNow',
       PPLNS_Submit s' gap1 gap2 gap3 gap4 marshal' hardLink' written' id nonce now' unixNow'
       = (s', Ok r)).
Proof.
  intros Hs. apply submit_success in Hs as [Hr|(job & copy & w' & accepted & H1 & H2 & H3 & H4 & H5 & H6 &
    Ha & Hw' & [= _ _ Hh Hseq _] & Hst & Hrec)]; [by left|right].
  pose proof Ha as Hok. apply Accept_Ok in Hok as (encoded & Hf & Hm & Hacc & Hw).
  exists job, copy, w', accepted, encoded. do 5 (split; [done|]). cbv zeta in *.
  split; [done|]. split; [done|]. split_and!; try done.
  - intros Hg. assert (Hb : po_window s' = w') by (rewrite Hw', (proj2 (proj2 (proj2 (Hg _)))); unfold recorded;
      by rewrite (proj1 (proj2 (proj2 (Hg _))))).
    rewrite Hb. split; [|done]. rewrite Hw, (proj1 (proj2 (Hg _))), (proj1 (Hg _)). done.
  - destruct Hst as [(? & ? & _ & ?)|?]; [by left|by right].
  - intros Hg *. apply stored_receipt_returned, Hrec, Hg.
Qed.

Lemma claim_share_err `{Crypto} q chain id nonce now q' e :
  claim_share q chain id nonce now = (q', Err e) ->
  pq_receipts q' = pq_receipts q /\ pq_jobs q' ⊆ pq_jobs q.
Proof.
  unfold claim_share. intros Hc.
  repeat case_match; simplify_eq; cbn [drop_pplns_job set_pplns_jobs pq_receipts pq_jobs];
    split; try done; apply delete_subseteq.
Qed.

Lemma release_claimed q id job nonce : pq_jobs q !! id = Some job -> nonce ∉ pj_seen job ->
  pq_jobs (releaseSubmission (set_pplns_jobs q (<[id := mark_seen job ({[nonce]} ∪ pj_seen job)]> (pq_jobs q))
    (pq_order q)) id (pj_ptr job) nonce) = pq_jobs q.
Proof.
  intros Hj Hn. unfold releaseSubmission. cbn [pq_jobs set_pplns_jobs]. rewrite lookup_insert_eq.
  cbn [mark_seen pj_ptr]. rewrite Z.eqb_refl. cbn [pq_jobs set_pplns_jobs]. rewrite insert_insert_eq.
  apply insert_id. rewrite Hj. f_equal. destruct job as [ptr b a h i x nt st seen]. unfold mark_seen. cbn.
  f_equal. cbn in Hn. apply leibniz_equiv. set_solver.
Qed.

(** A submission that fails outright leaves the window, the
    receipts and the chain as they were, and uses up its nonce only when the proof
    of work was too weak; after a failure to persist the share the same nonce can
    be sent again.  The one failure after the share was persisted is a block the
    chain rejects: the share counts, and a retry of the submission reports it as an
    accepted share. *)
Theorem pplns_submit_failure `{Crypto} `{SnapshotJSON} s marshal hardLink written id nonce now unixNow
    s' e :
  let nothing := fun t : Pool => t in
  PPLNS_Submit s nothing nothing nothing nothing marshal hardLink written id nonce now unixNow
    = (s', Err e) ->
  (w_state (po_window s') = w_state (po_window s) /\ po_chain s' = po_chain s /\
   pq_receipts (po_co s') = pq_receipts (po_co s) /\
   (pq_jobs (po_co s') ⊆ pq_jobs (po_co s) \/ e = ErrLowShareDifficulty)) \/
  (exists block rejected accepted r, e = EWrap "mined block rejected" 0 rejected /\
     AcceptBlock (po_chain s) (Some block) unixNow = (po_chain s', Err rejected) /\
     w_state (po_window s') = append_share (w_state (po_window s)) accepted /\
     pr_Status r = "share_accepted"%string /\ pr_ShareSequence r = sh_Sequence accepted /\
     forall marshal' hardLink' written' now' unixNow',
       PPLNS_Submit s' nothing nothing nothing nothing marshal' hardLink' written' id nonce now' unixNow'
       = (s', Ok r)).
Proof.
  intros nothing Hs. unfold PPLNS_Submit in Hs. cbv zeta in Hs.
  destruct (claim_share (po_co s) (po_chain s) id nonce now) as [q1 claim] eqn:Ec.
  destruct claim as [[r0|job1]|e0]; [done| |].
  2:{ injection Hs as <- ->. apply claim_share_err in Ec as [Hr Hj]. left. split_and!; try done. by left. }
  apply claim_share_ok in Ec as (job & Hj & _ & Hseen & Hprev & -> & ->).
  cbn [pj_ptr pj_block pj_address pj_height pj_networkTarget pj_shareTarget mark_seen] in Hs.
  unfold nothing in Hs. cbn [set_co po_co po_window po_chain] in Hs.
  destruct (DecodeBlock (Block_Bytes (pj_block job))) as [copy|] eqn:Edec.
  2:{ injection Hs as <- _. left. cbn [set_co po_co po_window po_chain]. rewrite release_claimed by done.
      split_and!; try done; [|by left]. unfold releaseSubmission. by repeat case_match. }
  step_if Hs. { injection Hs as <- <-. left. split_and!; try done. by right. }
  step_if Hs.
  { injection Hs as <- _. left. unfold same_job. cbn [set_pplns_jobs pq_jobs]. rewrite lookup_insert_eq.
    rewrite bool_decide_eq_true_2 by done. split_and!; try done. left.
    cbn [set_co po_co drop_pplns_job set_pplns_jobs pq_jobs]. rewrite delete_insert_eq. apply delete_subseteq. }
  destruct (Accept _ _ _ _ _) as [w' [accepted|]] eqn:Ea in Hs.
  - apply Accept_Ok in Ea as (encoded & _ & _ & Hacc & Hst). step_if Hs; [done|].
    destruct (AcceptBlock _ _ _) as [chain' [ev|rej]] eqn:Eb in Hs; [done|]. injection Hs as <- <-.
    right. eexists _, rej, accepted, _. split_and!; [done|exact Eb|done| | |].
    3:{ intros marshal' hl' wr' now' unow'. apply stored_receipt_returned. apply store_receipt_lookup. }
    all: done.
  - unfold Accept in Ea. left. injection Hs as <- _.
    cbn [set_co po_co po_window po_chain]. rewrite release_claimed by done.
    split_and!; try done; [|unfold releaseSubmission; by repeat case_match|by left].
    repeat case_match; by simplify_eq.
Qed.

(** ** A small pool *)
Definition or_else {A} (r : result A) (d : A) : A := match r with Ok a => a | Err _ => d end.
#[export] Instance toy_json : SnapshotJSON :=
  {| json_Marshal isNil s := Ok (bs "window " ++ dec_string (ps_NextSequence s)
                                 ++ (if isNil then bs "null" else bs "[]")) |}.
Lemma pair_of_snd {A B} (x : A * B) b : x.2 = b -> x = (x.1, b).
Proof. destruct x. by intros <-. Qed.

Definition toy_pool_config : PPLNSCoordinatorConfig := mkPPLNSConfig 0 0 0 0 0 [].
Definition toy_coordinator : result PPLNSCoordinator :=
  NewPPLNSCoordinator (Some Toy.c2m) (Some toy_run.1) toy_pool_config.
Definition toy_co : PPLNSCoordinator :=
  or_else toy_coordinator (mkPPLNSCoordinator RegTest "" toy_pool_config ∅ [] ∅ [] 0).
Definition toy_issue : PPLNSCoordinator * result PoolWork :=
  PPLNS_Issue toy_co toy_run.1 Toy.c2m Toy.c2m (EncodeAddress (Toy.pkh_of Toy.bob)) (bs "rig") 0 Toy.now
    (Ok (hex_encode (zeros 16))).
Definition toy_work : PoolWork :=
  or_else toy_issue.2
    (mkPoolWork 0 "" "" 0 [] 0 [] [] [] 0 0 0 0 0 [] (w_state toy_run.1) false "" [] [] []).

Lemma toy_co_new : toy_coordinator = Ok toy_co.
Proof. vm_compute. reflexivity. Qed.
Lemma toy_issue_ok : toy_issue.2 = Ok toy_work.
Proof. vm_compute. reflexivity. Qed.
Lemma toy_window_ok : window_ok (pq_network toy_co) (w_state toy_run.1).
Proof.
  split; [vm_compute; reflexivity| |]; [split|split; [split|]]; vm_compute; discriminate.
Qed.

Lemma issued_work_verifies_witness :
  exists job, pq_jobs toy_issue.1 !! hex_encode (zeros 16) = Some job /\
    ParsePoolWork toy_work (Some RegTest) =
      Ok (blk_Header (pj_block job), pj_networkTarget job, pj_shareTarget job).
Proof.
  destruct (issued_work_verifies RegTest toy_co toy_run.1 Toy.c2m Toy.c2m
    (EncodeAddress (Toy.pkh_of Toy.bob)) (bs "rig") 0 Toy.now (zeros 16) toy_issue.1 toy_work)
    as (job & Hj & Hp & _).
  - exact pow_params_ok_reg.
  - exact Toy.c2m_reachable.
  - exact (new_coordinator_ok RegTest Toy.c2m toy_run.1 toy_pool_config toy_co eq_refl toy_co_new).
  - exact toy_window_ok.
  - vm_compute. split; [discriminate|reflexivity].
  - reflexivity.
  - intros bits Hb. vm_compute in Hb. injection Hb as <-. vm_compute. reflexivity.
  - exact (pair_of_snd toy_issue _ toy_issue_ok).
  - exists job. split; [exact Hj|exact Hp].
Defined.

Definition toy_parsed : Header * Z * Z :=
  or_else (ParsePoolWork toy_work (Some RegTest)) (blk_Header (GenesisBlock RegTest), 0, 0).

Lemma verified_work_pays_witness :
  exists cb, coinbase_proven toy_work toy_parsed.1.1 cb /\
    SubsidyAt 3 <= sumZ (out_Value <$> tx_Outs cb).
Proof.
  destruct (verified_work_pays RegTest toy_work toy_parsed.1.1 toy_parsed.1.2 toy_parsed.2)
    as (_ & _ & _ & _ & cb & Hcb & _).
  - vm_compute. reflexivity.
  - exists cb. split; [exact Hcb|]. assert (E : pk_Height toy_work = 3) by (vm_compute; reflexivity).
    rewrite <- E. exact (cp_subsidy _ _ _ Hcb).
Defined.

Definition toy_pool : Pool := mkPool toy_issue.1 toy_run.1 Toy.c2m.
Definition toy_submit (hardLink : option error) : Pool * result PoolSubmitResult :=
  PPLNS_Submit toy_pool (fun t => t) (fun t => t) (fun t => t) (fun t => t) (json_Marshal false) hardLink
    (None, true) (hex_encode (zeros 16)) 7 0 Toy.now.
Definition toy_receipt : PoolSubmitResult :=
  or_else (toy_submit None).2 (mkPoolResult 0 "" "" [] 0 [] 0).

Lemma toy_submit_ok : (toy_submit None).2 = Ok toy_receipt /\ pr_Status toy_receipt = "block_accepted"%string
  /\ pr_ShareSequence toy_receipt = 5.
Proof. vm_compute. auto. Qed.

Lemma pplns_submit_persists_witness :
  PPLNS_Submit (toy_submit None).1 (fun t => t) (fun t => t) (fun t => t) (fun t => t) (json_Marshal false) None
    (None, true) (hex_encode (zeros 16)) 7 1 (Toy.now + 1) = ((toy_submit None).1, Ok toy_receipt) /\
  exists accepted, w_state (po_window (toy_submit None).1) = append_share (w_state toy_run.1) accepted.
Proof.
  destruct (pplns_submit_persists toy_pool (fun t => t) (fun t => t) (fun t => t) (fun t => t) (json_Marshal false)
    None (None, true) (hex_encode (zeros 16)) 7 0 Toy.now (toy_submit None).1 toy_receipt)
    as [[Hr _]|(job & copy & w' & accepted & encoded & _ & _ & _ & _ & _ & _ & _ & _ & _ & Hwin & _ & Hretry)].
  - exact (pair_of_snd (toy_submit None) _ (proj1 toy_submit_ok)).
  - vm_compute in Hr. discriminate Hr.
  - split; [apply Hretry; reflexivity|]. exists accepted. apply Hwin. by intros t.
Defined.

Lemma toy_submit_fails : (toy_submit (Some (EText "hard link"))).2 = Err (EText "hard link").
Proof. vm_compute. reflexivity. Qed.

Lemma pplns_submit_failure_witness :
  w_state (po_window (toy_submit (Some (EText "hard link"))).1) = w_state toy_run.1.
Proof.
  destruct (pplns_submit_failure toy_pool (json_Marshal false) (Some (EText "hard link")) (None, true)
    (hex_encode (zeros 16)) 7 0 Toy.now (toy_submit (Some (EText "hard link"))).1 (EText "hard link"))
    as [[Hw _]|(block & rej & acc & r & He & _)].
  - exact (pair_of_snd (toy_submit (Some (EText "hard link"))) _ toy_submit_fails).
  - exact Hw.
  - discriminate He.
Defined.
