(* ===== verification/PoolClientTheorems.v ===== *)
(** * The mining API and its clients: theorems *)
From S2P Require Import Prelude Text Params Crypto Pow Wire Address Merkle Chain Ledger Sanity.
From S2P Require Import ChainInv ChainView Miner Pplns PplnsProofs Coordinator PoolWork.
From S2P Require Import PplnsCoordinator PoolProofs PoolHttp PoolClient Toy PplnsTheorems PoolTheorems.

(** ** The nonce search *)
Section search.
Context `{Crypto} (p : Params) (header : Header) (target step : Z) (Hstep : 1 <= step).

Definition meets (n : Z) : Prop := HashToBig (PowHash (Header_Bytes (with_nonce header n)) p) <= target.

Lemma search_sound budget : forall nonce n h, nonce <= maxUint64 ->
  (search_nonces p budget header target step nonce).2 = Some (n, h) ->
  nonce <= n <= maxUint64 /\ meets n /\ h = PowHash (Header_Bytes (with_nonce header n)) p.
Proof.
  induction budget as [|budget IH]; intros nonce n h Hn Hs; cbn [search_nonces] in Hs; [done|].
  destruct (Z.leb_spec (HashToBig (PowHash (Header_Bytes (with_nonce header nonce)) p)) target).
  { cbn [snd] in Hs. simplify_eq. split_and!; done. }
  destruct (Z.gtb_spec nonce (maxUint64 - step)); [done|].
  destruct (search_nonces p budget header target step (nonce + step)) as [m r] eqn:E.
  cbn [snd] in Hs. subst r. destruct (IH (nonce + step) n h) as (? & ? & ?); [lia|by rewrite E|].
  split_and!; [lia..|done|done].
Qed.

Lemma search_complete budget : forall nonce k, 0 <= k -> nonce + k * step <= maxUint64 ->
  maxUint64 < nonce + step * Z.of_nat budget -> meets (nonce + k * step) ->
  is_Some (search_nonces p budget header target step nonce).2.
Proof.
  induction budget as [|budget IH]; intros nonce k Hk Hmax Hb Hm; cbn [search_nonces]; [lia|].
  destruct (Z.leb_spec (HashToBig (PowHash (Header_Bytes (with_nonce header nonce)) p)) target); [done|].
  assert (k <> 0). { intros ->. unfold meets in Hm. rewrite Z.mul_0_l, Z.add_0_r in Hm. lia. }
  destruct (Z.gtb_spec nonce (maxUint64 - step)); [nia|].
  destruct (IH (nonce + step) (k - 1)) as [x Hx]; [lia|lia|lia| |].
  { by replace (nonce + step + (k - 1) * step) with (nonce + k * step) by ring. }
  destruct (search_nonces p budget header target step (nonce + step)) as [m r]. cbn in *. eauto.
Qed.
End search.

(** What a worker or the whole search reports is a solution. *)
Lemma mined_sound `{Crypto} `{SnapshotJSON} p work workers startNonce cpus now budgets first header nt st mined :
  ParsePoolWork work (Some p) = Ok (header, nt, st) ->
  1 <= cpus -> 0 <= startNonce <= maxUint64 ->
  MinePoolShare p work workers startNonce cpus now budgets first = Ok mined -> mr_Found mined = true ->
  startNonce <= mr_Nonce mined <= maxUint64 /\ meets p header st (mr_Nonce mined) /\
  mr_Hash mined = PowHash (Header_Bytes (with_nonce header (mr_Nonce mined))) p.
Proof.
  intros Hp Hcpu Hstart Hm. unfold MinePoolShare in Hm. rewrite Hp in Hm. res_simpl.
  set (W := if workers <=? 0 then cpus else workers) in *.
  assert (HW : 1 <= W) by (unfold W; destruct (Z.leb_spec workers 0); lia).
  set (runs := run_workers p budgets header st W startNonce) in *. unfold gather.
  destruct (omap snd runs !! _) as [[n h]|] eqn:E; [|done]. intros _. cbn [mr_Nonce mr_Hash].
  apply list_elem_of_lookup_2, list_elem_of_omap in E as ([m r] & Hin & Hr). cbn in Hr. subst r.
  unfold runs, run_workers in Hin. apply list_elem_of_fmap in Hin as (k & Hk & _).
  unfold pool_worker in Hk. destruct (Z.gtb_spec (Z.of_nat k) (maxUint64 - startNonce)); [done|].
  apply (f_equal snd) in Hk. cbn [snd] in Hk.
  apply (eq_sym) in Hk. apply search_sound in Hk as ((? & ?) & ? & ?); [|lia..]. split_and!; [lia..|done|done].
Qed.

(** A nonce reported by the share search is at or above the start
    nonce, fits 64 bits and its proof of work meets the share target of the verified
    work.  When no worker is stopped early, the search reports a nonce exactly when
    there is one: the workers cover all nonces from the start without wrapping
    around. *)
Theorem share_search_exact `{Crypto} `{SnapshotJSON} p work workers startNonce cpus now budgets first
    header networkTarget shareTarget mined :
  ParsePoolWork work (Some p) = Ok (header, networkTarget, shareTarget) ->
  1 <= cpus -> 0 <= startNonce <= maxUint64 ->
  MinePoolShare p work workers startNonce cpus now budgets first = Ok mined ->
  (mr_Found mined = true ->
     startNonce <= mr_Nonce mined <= maxUint64 /\ meets p header shareTarget (mr_Nonce mined) /\
     mr_Hash mined = PowHash (Header_Bytes (with_nonce header (mr_Nonce mined))) p) /\
  ((forall k, maxUint64 < startNonce + (if workers <=? 0 then cpus else workers) * Z.of_nat (budgets k)) ->
   (exists n, startNonce <= n <= maxUint64 /\ meets p header shareTarget n) ->
   mr_Found mined = true).
Proof.
  intros Hp Hcpu Hstart Hm. split; [by eapply mined_sound|].
  unfold MinePoolShare in Hm. rewrite Hp in Hm. res_simpl.
  set (W := if workers <=? 0 then cpus else workers) in *.
  assert (HW : 1 <= W) by (unfold W; destruct (Z.leb_spec workers 0); lia).
  set (runs := run_workers p budgets header shareTarget W startNonce) in *. unfold gather.
  intros Hb (n & Hn & Hmeet). set (k := (n - startNonce) mod W).
    assert (Hk : 0 <= k < W) by (apply Z.mod_pos_bound; lia).
    pose proof (Z.div_mod (n - startNonce) W ltac:(lia)) as Hdm. fold k in Hdm.
    assert (Hq : 0 <= (n - startNonce) / W) by (apply Z.div_pos; lia).
    assert (Hf : exists y, y ∈ omap snd runs).
    { destruct (search_complete p header shareTarget W HW (budgets (Z.to_nat k)) (startNonce + k)
        ((n - startNonce) / W)) as [y Hy]; [done|lia|pose proof (Hb (Z.to_nat k)); nia| |].
      { replace (startNonce + k + (n - startNonce) / W * W) with n by lia. done. }
      exists y. apply list_elem_of_omap. eexists. split; [|exact Hy].
      unfold runs, run_workers. apply list_elem_of_fmap. exists (Z.to_nat k). split.
      - unfold pool_worker. rewrite Z2Nat.id by lia.
        destruct (Z.gtb_spec k (maxUint64 - startNonce)); [nia|done].
      - apply elem_of_seq. lia. }
    destruct Hf as [y Hy].
    destruct (omap snd runs !! (first mod length (omap snd runs))%nat) as [[n' h]|] eqn:E; [done|].
    apply lookup_ge_None in E. destruct (omap snd runs) as [|z l]; [by apply not_elem_of_nil in Hy|].
    pose proof (Nat.mod_upper_bound first (length (z :: l)) ltac:(done)). lia.
Qed.

(** ** Receipts *)
Lemma lower_hex_encode b n : n = 2 * Z.of_nat (length b) -> validLowerHex (hex_encode b) n = true.
Proof.
  intros ->. unfold validLowerHex. rewrite length_hex_encode. apply andb_true_iff. split.
  - apply Z.eqb_eq. lia.
  - induction b as [|x b IH]; [done|]. cbn [hex_encode flat_map app forallb].
    change (flat_map _ b) with (hex_encode b). rewrite IH. by destruct x.
Qed.

(** The receipt of a solved share, from the job, passes the miner's checks. *)
Lemma receipt_checks `{CryptoLaws} `{SnapshotJSON} p work header nt st mined r seq :
  CanonicalNetworkID (Some p) = Ok (pr_Network r) ->
  ParsePoolWork work (Some p) = Ok (header, nt, st) ->
  (pr_SchemaVersion r, pr_ShareHash r, pr_ShareSequence r, pr_Height r) =
    (2, hex_encode (mr_Hash mined), seq, pk_Height work) -> 1 <= seq -> 1 <= pk_Height work ->
  mr_Found mined = true -> length (mr_Hash mined) = 32%nat ->
  (pr_Status r = "share_accepted"%string /\ pr_BlockID r = [] \/
   pr_Status r = "block_accepted"%string /\
   pr_BlockID r = hex_encode (Header_ID (with_nonce header (mr_Nonce mined)))) ->
  check_receipt p r = Ok r /\ validatePPLNSReceiptForWork work mined r p = Ok tt.
Proof.
  intros Hnet Hp [= Hv Hh Hs Hht] Hseq Hheight Hf Hlen Hst. unfold check_receipt, validatePPLNSReceiptForWork.
  rewrite Hnet, Hv, Hs, Hht, Hf, Hh, String.eqb_refl, lower_hex_encode by (rewrite Hlen; done).
  rewrite (proj2 (Z.ltb_ge (pk_Height work) 1)), (proj2 (Z.ltb_ge seq 1)), !Z.eqb_refl by lia.
  rewrite (bool_decide_eq_true_2 (hex_encode (mr_Hash mined) = _)) by done.
  cbn [negb orb check mbind result_bind Z.eqb Pos.eqb].
  destruct Hst as [[-> Hb]|[-> Hb]]; rewrite Hb.
  - change (String.eqb "share_accepted" "block_accepted") with false.
    change (String.eqb "share_accepted" "share_accepted") with true. cbn iota.
    by rewrite bool_decide_eq_true_2.
  - change (String.eqb "block_accepted" "share_accepted") with false.
    change (String.eqb "block_accepted" "block_accepted") with true. cbn iota. rewrite Hp.
    rewrite lower_hex_encode by (unfold Header_ID; by rewrite length_SHA256d).
    by rewrite bool_decide_eq_true_2.
Qed.

(** The two ends of the pool protocol agree: when a nonce found for
    an issued work item is submitted while its job is still in the table, the
    receipt of the coordinator passes every check of the client, for a share and for
    a block.  The window may have received other shares since the job was issued. *)
Theorem receipt_verifies `{CryptoLaws} `{SnapshotJSON} p q w before chain address worker now unixNow raw
    q' work s seen marshal hardLink written later unixLater s' r mined header nt st :
  let nothing := fun t : Pool => t in
  pow_params_ok p -> reachable p chain -> coordinator_ok p q ->
  window_ok (pq_network q) (w_state w) -> in_i64 unixNow -> length raw = 16%nat ->
  (forall bits, NextBitsForTip chain = Ok bits -> 0 < CompactToTarget bits) ->
  PPLNS_Issue q w before chain address worker now unixNow (Ok (hex_encode raw)) = (q', Ok work) ->
  ParsePoolWork work (Some p) = Ok (header, nt, st) ->
  mr_Found mined = true ->
  mr_Hash mined = PowHash (Header_Bytes (with_nonce header (mr_Nonce mined))) p ->
  pq_params (po_co s) = p -> pq_network (po_co s) = pq_network q ->
  pq_jobs (po_co s) !! hex_encode raw = (fun j => mark_seen j seen) <$> pq_jobs q' !! hex_encode raw ->
  window_ok (pq_network q) (w_state (po_window s)) ->
  pq_receipts (po_co s) !! pplnsReceiptKey (hex_encode raw) (mr_Nonce mined) = None ->
  PPLNS_Submit s nothing nothing nothing nothing marshal hardLink written (hex_encode raw)
    (mr_Nonce mined) later unixLater = (s', Ok r) ->
  check_receipt p r = Ok r /\ validatePPLNSReceiptForWork work mined r p = Ok tt.
Proof.
  intros nothing Hpow Hr Hq Hw Hnow Hraw Hpos Hi Hparse Hf Hmh Hps Hnet Hjob Hws Hnone Hs.
  destruct (issue_verified p q w before chain address worker now unixNow raw q' work) as
    (job & Hj & Hp & _ & _ & _ & _ & _ & Hwf & Hheight & Hpos'); [done..|].
  rewrite Hp in Hparse. apply Ok_inj in Hparse as [= <- <- <-].
  apply submit_success in Hs as [[Hrec _]|(job' & copy & w' & accepted & Hj' & _ & _ & _ & Hd & _ & Ha & _ & Hr' & Hst & _)];
    [by rewrite Hnone in Hrec|].
  rewrite Hjob, Hj in Hj'. cbn in Hj'. injection Hj' as <-. cbn [mark_seen pj_block pj_height pj_shareTarget
    pj_networkTarget] in *. apply DecodeBlock_copy in Hd as ->; [|done].
  apply Accept_Ok in Ha as (_ & _ & _ & -> & _).
  rewrite Hps in *. cbn [set_sequence sh_Sequence] in Hr'.
  assert (Hnext : 1 <= ps_NextSequence (w_state (po_window s))).
  { pose proof (wk_valid _ _ Hws) as Hv. unfold validatePPLNSState in Hv.
    apply bind_Ok in Hv as ([] & Hc & _). apply check_Ok in Hc. bool_prop. lia. }
  injection Hr' as Hv Hn Hh Hseq Hht.
  eapply receipt_checks; try done.
  - rewrite Hn, Hnet. apply (cq_network _ _ Hq).
  - rewrite Hv, Hh, Hseq, Hht, Hheight, Hmh. reflexivity.
  - lia.
  - rewrite Hmh. apply length_to_array.
  - destruct Hst as [(_ & ? & ? & _)|(_ & ? & ? & _)]; [by left|by right].
Qed.

(** ** The service *)
(** With a clock that does not run backwards, the limiter lets at most
    twice the configured number of requests of one host and route through in any
    minute, whatever other hosts do, and its table never exceeds 4096 entries. *)
Theorem rate_limit_bound config key limit calls t :
  1 <= limit -> Sorted Z.le (rt_now <$> calls) ->
  Forall (fun c => rt_now c <> zeroTime /\ (call_key config c = key -> rt_limit c = limit)) calls ->
  Z.of_nat (length (in_minute t (run_limiter config key calls).2)) <= 2 * limit /\
  Z.of_nat (size (run_limiter config key calls).1) <= maxRateWindows.
Proof.
  intros Hl Hsort Hall. unfold run_limiter. split; [|by apply limiter_size].
  set (now0 := match calls with c :: _ => rt_now c | [] => 0 end).
  assert (Hs0 : Sorted Z.le (now0 :: (rt_now <$> calls))).
  { constructor; [done|]. unfold now0. destruct calls; constructor. cbn. lia. }
  destruct (limiter_inv config key limit Hl calls ∅ [] [] now0 Hs0 Hall) as (gs & Hgs & ->);
    [constructor|unfold tracks; by rewrite lookup_empty|done|].
  apply groups_bound; [lia|done].
Qed.

(** No request changes the state of a coordinator unless it is a JSON POST to
    one of the four mining routes, the rate limiter allows it and its body decodes;
    every other request is answered with an error (or the status) and changes at
    most the limiter's counters. *)
Theorem http_gate {S} (calls : mining_calls S) config sv rq now sv' resp :
  ServeHTTP calls config sv rq now = (sv', resp) ->
  sv'.1 = sv.1 \/
  (rq_Method rq = "POST"%string /\ rq_mediaType rq = Some "application/json"%string /\
   exists route limit, (allow config sv.2 rq route limit now).2 = true /\ 1 <= limit /\
     ((rq_Path rq ∈ ["/api/v1/work"; "/api/v2/pool/work"]%string /\ exists i, rq_work rq = Input i) \/
      (rq_Path rq ∈ ["/api/v1/submit"; "/api/v2/pool/submit"]%string /\ exists i, rq_submit rq = Input i))).
Proof.
  assert (Hpost : forall I A v route limit (body : request -> decoded I) call (rep : A -> payload) fail,
    handle_post config v route limit body call rep fail sv rq now = (sv', resp) ->
    sv'.1 = sv.1 \/ (rq_Method rq = "POST"%string /\ rq_mediaType rq = Some "application/json"%string /\
      (allow config sv.2 rq route limit now).2 = true /\ 1 <= limit /\ exists i, body rq = Input i)).
  { intros I A v route limit body call rep fail Hh. unfold handle_post in Hh.
    destruct call as [call|]; [|simplify_eq; by left].
    destruct (requirePostJSONVersion rq v) eqn:Er; [simplify_eq; by left|].
    unfold requirePostJSONVersion in Er. step_if Er; [done|]. bool_prop.
    destruct (rq_mediaType rq) as [m|]; [|done]. step_if Er; [|done]. apply String.eqb_eq in E, E0. subst m.
    destruct (allow config sv.2 rq route limit now) as [ws ok] eqn:Ea.
    destruct ok; cbn [negb] in Hh; [|simplify_eq; by left].
    destruct (body rq) as [| |i] eqn:Eb; [simplify_eq; by left..|]. right. split_and!; try done; [|eauto].
    unfold allow in Ea. destruct (Z.ltb_spec limit 1); [done|lia]. }
  unfold ServeHTTP. intros Hs.
  destruct (String.eqb_spec (rq_Path rq) "/api/v1/work") as [Hp|_];
    [|destruct (String.eqb_spec (rq_Path rq) "/api/v1/submit") as [Hp|_];
    [|destruct (String.eqb_spec (rq_Path rq) "/api/v2/pool/work") as [Hp|_];
    [|destruct (String.eqb_spec (rq_Path rq) "/api/v2/pool/submit") as [Hp|_]]]].
  1-4: apply Hpost in Hs as [?|(? & ? & ? & ? & ?)]; [by left|right]; rewrite Hp;
    split_and!; [done..|]; eexists _, _; split_and!; [done..|];
    first [left; split; [set_solver|done]|right; split; [set_solver|done]].
  left. unfold handlePPLNSStatus in Hs. repeat case_match; by simplify_eq.
Qed.

(** ** Errors across the protocol *)
(** What the client does with an error: ask for new work, try again, or stop. *)
Inductive reaction := Refresh | Retry | Stop.
Definition react (e : client_error) : reaction :=
  if normalJobError e then Refresh else if isRetryableMiningError e then Retry else Stop.

(** A response of the service as the client receives it, complete and unmodified. *)
Definition transmitted {A} (value : payload -> option A) (n : Z) (r : response) : option (reply A) :=
  Some (mkReply A (rp_status r) (Some "application/json"%string) (Ok n) false
          (match rp_payload r with APIError v code => Some (v, code) | _ => None end)
          (value (rp_payload r))).
Definition pool_receipt (p : payload) : option PoolSubmitResult :=
  match p with PoolSubmitPayload r => Some r | _ => None end.

Lemma error_is_eq e text : error_is e (EText text) = true -> e = EText text.
Proof. destruct e; cbn; try done. by intros ->%String.eqb_eq. Qed.

(** What happens at the client when the coordinator refuses a share:
    a job that is unknown, expired or stale makes it ask for new work; a duplicate, a
    share of too little work and a full address table end the session; the
    submission limit and every other failure are retried. *)
Theorem submit_error_policy {S} (calls : mining_calls S) config sv rq now f id nonce s' e n params :
  rq_Path rq = "/api/v2/pool/submit"%string -> rq_Method rq = "POST"%string ->
  rq_mediaType rq = Some "application/json"%string -> rq_submit rq = Input (id, nonce) ->
  (allow config sv.2 rq (bs "pplns_submit") (hc_PoolSubmitsPerMinute config) now).2 = true ->
  call_PoolSubmit calls = Some f -> f sv.1 id nonce = (s', Err e) -> n <= maxPPLNSClientResponseBytes ->
  exists err, Client_Submit params (transmitted pool_receipt n (ServeHTTP calls config sv rq now).2)
              = inr err /\
    react err =
      (if existsb (error_is e) [ErrUnknownJob; ErrExpiredJob; ErrStaleJob] then Refresh
       else if existsb (error_is e) [ErrDuplicateSubmission; ErrLowShareDifficulty; ErrPPLNSAddressLimit]
       then Stop else Retry).
Proof.
  intros Hpath Hm Hmedia Hbody Ha Hc Hf Hn.
  assert (Hr : (ServeHTTP calls config sv rq now).2 = pplns_submit_error e).
  { unfold ServeHTTP. rewrite Hpath. cbn [String.eqb Ascii.eqb Bool.eqb].
    unfold handlePPLNSSubmit, handle_post. rewrite Hc. cbn [fmap option_fmap option_map].
    unfold requirePostJSONVersion. rewrite Hm, Hmedia, !String.eqb_refl. cbn [negb].
    destruct (allow _ _ _ _ _ _) as [ws ok]. cbn [snd] in Ha. subst ok. cbn [negb]. rewrite Hbody.
    unfold uncurry_call. cbn [fst snd]. by rewrite Hf. }
  rewrite Hr. unfold Client_Submit, requestJSON, transmitted. cbn [ry_mediaType ry_read ry_duplicates].
  rewrite bool_decide_eq_true_2 by done. cbn [negb].
  rewrite Z.gtb_ltb, (proj2 (Z.ltb_ge maxPPLNSClientResponseBytes n)) by done.
  destruct (error_is e ErrPPLNSSubmissionLimit) eqn:El.
  { apply error_is_eq in El as ->. by eexists. }
  unfold pplns_submit_error. rewrite El. cbn [existsb].
  repeat match goal with |- context [if error_is e ?x then _ else _] => destruct (error_is e x) end;
    cbn [orb]; by eexists.
Qed.

(** ** Status *)
Lemma snapshot_eta `{Crypto} s network : validatePPLNSState s network (ps_WindowShares s) (ps_MaxAddresses s) = Ok tt ->
  mkPPLNSSnapshot pplnsStateSchemaVersion network (ps_WindowShares s) (ps_MaxAddresses s)
    (ps_NextSequence s) (ps_Shares s) = s.
Proof.
  intros Hv. unfold validatePPLNSState in Hv. apply bind_Ok in Hv as ([] & Hc & _).
  apply check_Ok in Hc. bool_prop. destruct s. cbn in *. by subst.
Qed.

Lemma status_inv `{Crypto} `{SnapshotJSON} q w chain st : PPLNS_Status q w chain = Ok st ->
  exists hash ws, ps_Network (w_state w) = pq_network q /\
    pplnsSnapshotHash (cloned_nil (w_state w)) (w_state w) = Ok hash /\ pplnsWeights (w_state w) = Ok ws /\
    st = mkStatus 2 (pq_network q) "pplns" 0 (hex_encode (bi_id (c_tip chain))) (bi_height (c_tip chain))
      (CoinbaseMaturity (pq_params q)) (ps_WindowShares (w_state w)) (ps_MaxAddresses (w_state w))
      (Z.of_nat (length (ps_Shares (w_state w)))) (Z.of_nat (length ws)) 0
      (ps_NextSequence (w_state w)) hash ws (ps_Shares (w_state w)).
Proof.
  unfold PPLNS_Status. cbv zeta. intros Hs. apply bind_Ok in Hs as ([] & Hc & Hs).
  apply bind_Ok in Hs as (hash & Hh & Hs). apply bind_Ok in Hs as (ws & Hw & Hs).
  apply check_Ok in Hc. bool_prop. apply Ok_inj in Hs as <-. by exists hash, ws.
Qed.

(** What the client checks of a status that the coordinator computed, up to the hash. *)
Lemma status_checks `{CryptoLaws} `{SnapshotJSON} p q w chain st :
  pow_params_ok p -> reachable p chain -> coordinator_ok p q -> window_ok (pq_network q) (w_state w) ->
  PPLNS_Status q w chain = Ok st ->
  validateRemotePPLNSStatus st p =
    check (is_value (pplnsSnapshotHash false (w_state w)) (st_PPLNSStateHash st))
      (EText "pool status state hash mismatch").
Proof.
  intros Hpow Hr Hq Hw Hs. apply status_inv in Hs as (hash & ws & Hnet & Hh & Hws & ->).
  pose proof (reachable_inv _ Hpow _ Hr) as Hc. destruct (ci_main _ _ Hc) as (l & Hb & _).
  pose proof (branch_height_nonneg p _ _ _ Hb) as Hheight.
  pose proof (inv_entry_ok p Hpow _ _ _ Hc (ci_tip _ _ Hc)) as Hid. apply eo_id in Hid.
  unfold validateRemotePPLNSStatus. cbn [st_Network st_SchemaVersion st_Mode st_FeeBPS st_CoinbaseMaturity
    st_TipHash st_TipHeight st_WindowShares st_MaxAddresses st_NextSequence st_Shares st_PPLNSStateHash
    st_CurrentShares st_DistinctAddresses st_Weights].
  rewrite (proj2 (is_value_true _ _) (cq_network _ _ Hq)), (cq_params _ _ Hq), !Z.eqb_refl.
  rewrite lower_hex_encode by (rewrite Hid; unfold Header_ID; by rewrite length_SHA256d).
  rewrite (proj2 (Z.ltb_ge (bi_height (c_tip chain)) 0)) by lia.
  cbn [String.eqb Z.eqb andb negb]. change (String.eqb "pplns" "pplns") with true.
  cbn [andb check mbind result_bind]. rewrite (snapshot_eta _ _ (wk_valid _ _ Hw)). cbv zeta.
  rewrite Hnet, (wk_valid _ _ Hw). cbn [mbind result_bind]. rewrite Hws, ?Z.eqb_refl, andb_true_r.
  destruct (is_value _ _); [|done]. cbn [check mbind result_bind].
  rewrite Z.eqb_refl, Nat.eqb_refl. cbn [andb check mbind result_bind].
  by rewrite bool_decide_eq_true_2.
Qed.

(** The status the coordinator publishes passes the client's audit when
    the window holds a share: the window is valid, its hash matches and the weights
    are those of the shares. *)
Theorem status_verifies `{CryptoLaws} `{SnapshotJSON} p q w chain st :
  pow_params_ok p -> reachable p chain -> coordinator_ok p q -> window_ok (pq_network q) (w_state w) ->
  ps_Shares (w_state w) <> [] -> PPLNS_Status q w chain = Ok st ->
  validateRemotePPLNSStatus st p = Ok tt.
Proof.
  intros Hpow Hr Hq Hw Hne Hs. rewrite (status_checks p q w chain st) by done.
  apply status_inv in Hs as (hash & ws & _ & Hh & _ & ->). unfold cloned_nil in Hh.
  rewrite (proj2 (Nat.eqb_neq _ 0)) in Hh by (intros Hl; by apply nil_length_inv in Hl).
  cbn [st_PPLNSStateHash]. by rewrite (proj2 (is_value_true _ _) Hh).
Qed.

(** The client rejects the status of every pool whose window is
    empty: the coordinator hashes the snapshot with a nil slice of shares, which the
    JSON encoder writes as null, the client with an empty one, written as []. *)
Theorem empty_status_rejected `{CryptoLaws} `{SnapshotJSON} p q w chain st :
  pow_params_ok p -> reachable p chain -> coordinator_ok p q -> window_ok (pq_network q) (w_state w) ->
  ps_Shares (w_state w) = [] ->
  pplnsSnapshotHash true (w_state w) <> pplnsSnapshotHash false (w_state w) ->
  PPLNS_Status q w chain = Ok st ->
  validateRemotePPLNSStatus st p = Err (EText "pool status state hash mismatch").
Proof.
  intros Hpow Hr Hq Hw He Hne Hs. rewrite (status_checks p q w chain st) by done.
  apply status_inv in Hs as (hash & ws & _ & Hh & _ & ->). unfold cloned_nil in Hh.
  rewrite He in Hh. cbn [length Nat.eqb] in Hh. cbn [st_PPLNSStateHash].
  destruct (is_value _ _) eqn:Ei; [|done]. apply is_value_true in Ei. by rewrite Hh, Ei in Hne.
Qed.

(** ** The mining session *)
(** An accepted share, with everything the client verified about it. *)
Definition accepted_ok `{Crypto} `{SnapshotJSON} (p : Params) (e : ClientEvent) : Prop :=
  match e with
  | EventAccepted id receipt =>
      exists work header nt st mined, pk_JobID work = id /\
        ParsePoolWork work (Some p) = Ok (header, nt, st) /\
        mr_Found mined = true /\ 0 <= mr_Nonce mined <= maxUint64 /\ meets p header st (mr_Nonce mined) /\
        check_receipt p receipt = Ok receipt /\ validatePPLNSReceiptForWork work mined receipt p = Ok tt
  | _ => True
  end.

Lemma Client_Submit_inl params a receipt : Client_Submit params a = inl receipt ->
  check_receipt params receipt = Ok receipt.
Proof.
  unfold Client_Submit. destruct (requestJSON a) as [r|]; [|done]. unfold lift.
  destruct (check_receipt params r) as [r'|] eqn:E; [|done]. intros [= <-].
  assert (r' = r) as -> by (unfold check_receipt in E; by res_simpl). done.
Qed.

Lemma submit_loop_spec `{Crypto} `{SnapshotJSON} params delay answers : forall attempt events attempt' r,
  submit_loop params delay answers attempt = (events, attempt', r) ->
  Forall (accepted_ok params) events /\
  (forall receipt, r = inl (Some receipt) -> check_receipt params receipt = Ok receipt).
Proof.
  induction answers as [|a answers IH]; intros attempt events attempt' r Hl; cbn [submit_loop] in Hl.
  { simplify_eq. by split. }
  destruct (Client_Submit params a) as [receipt|e] eqn:Es.
  { simplify_eq. split; [constructor|]. intros ? [= <-]. by eapply Client_Submit_inl. }
  step_if Hl; [simplify_eq; by split|]. step_if Hl; [simplify_eq; by split|].
  destruct (submit_loop params delay answers (Datatypes.S attempt)) as [[ev at'] r'] eqn:El.
  simplify_eq. apply IH in El as [He Hr]. split; [by constructor|done].
Qed.

(** Whatever the pool answers, every share the miner reports as
    accepted belongs to work it verified, with a nonce it found itself that meets the
    share target, and with a receipt that matches the submitted work. *)
Theorem session_accepts_verified `{Crypto} `{SnapshotJSON} p workers delay rounds attempt events r :
  Forall (fun rd => 1 <= rd_cpus rd) rounds ->
  RunWithEvents p workers delay rounds attempt = (events, r) -> Forall (accepted_ok p) events.
Proof.
  intros Hc. revert attempt events r. induction Hc as [|rd rounds Hcpu _ IH]; intros attempt events r Hrun;
    cbn [RunWithEvents] in Hrun; [by simplify_eq|].
  destruct (RequestWork p (rd_request rd)) as [work|e] eqn:Ew.
  2:{ step_if Hrun; [by eapply IH|]. step_if Hrun; [by simplify_eq|].
      destruct (RunWithEvents p workers delay rounds _) as [ev r'] eqn:El. simplify_eq.
      constructor; [done|by eapply IH]. }
  destruct (MinePoolShare p work workers 0 _ _ _ _) as [mined|e] eqn:Em; [|simplify_eq; by repeat constructor].
  destruct (mr_Found mined) eqn:Ef; cbn [negb] in Hrun.
  2:{ destruct (RunWithEvents p workers delay rounds _) as [ev r'] eqn:El. simplify_eq.
      constructor; [done|by eapply IH]. }
  destruct (submit_loop p delay (rd_submits rd) 0) as [[retries at'] [[receipt|]|e]] eqn:Es;
    apply submit_loop_spec in Es as [Hret Hrec].
  - specialize (Hrec receipt eq_refl).
    destruct (validatePPLNSReceiptForWork work mined receipt p) as [[]|] eqn:Ev;
      [|simplify_eq; by constructor].
    destruct (RunWithEvents p workers delay rounds _) as [ev r'] eqn:El. simplify_eq.
    constructor; [done|]. apply Forall_app. split; [done|]. constructor; [|by eapply IH].
    unfold RequestWork in Ew. destruct (requestJSON _) as [work'|]; [|done].
    destruct (ParsePoolWork work' (Some p)) as [[[header nt] st]|] eqn:Ep; [|done]. injection Ew as ->.
    destruct (mined_sound p work workers 0 (rd_cpus rd) (rd_now rd) (rd_budgets rd) (rd_first rd) header nt st
      mined) as (? & ? & _); try done.
    by exists work, header, nt, st, mined.
  - destruct (RunWithEvents p workers delay rounds _) as [ev r'] eqn:El. simplify_eq.
    constructor; [done|]. apply Forall_app. split; [done|by eapply IH].
  - simplify_eq. by constructor.
Qed.

(** ** The small pool, continued *)
Definition toy_mined : MineResult := or_else
  (MinePoolShare RegTest toy_work 2 0 4 0 (fun _ => 1%nat) 1) (mkMineResult false 0 0 []).

Lemma toy_mined_ok :
  MinePoolShare RegTest toy_work 2 0 4 0 (fun _ => 1%nat) 1 = Ok toy_mined /\ mr_Found toy_mined = true /\
  mr_Nonce toy_mined = 1.
Proof. vm_compute. auto. Qed.
Lemma toy_parsed_ok :
  ParsePoolWork toy_work (Some RegTest) = Ok (toy_parsed.1.1, toy_parsed.1.2, toy_parsed.2).
Proof. vm_compute. reflexivity. Qed.

Lemma share_search_exact_witness : mr_Found toy_mined = true /\
  meets RegTest toy_parsed.1.1 toy_parsed.2 (mr_Nonce toy_mined).
Proof.
  destruct toy_mined_ok as (Hm & Hf & _).
  destruct (share_search_exact RegTest toy_work 2 0 4 0 (fun _ => 1%nat) 1 toy_parsed.1.1 toy_parsed.1.2
    toy_parsed.2 toy_mined toy_parsed_ok) as [Hs _].
  - lia.
  - vm_compute. split; discriminate.
  - exact Hm.
  - split; [exact Hf|]. exact (proj1 (proj2 (Hs Hf))).
Defined.

Definition toy_request (path : string) : request :=
  mkRequest "POST" path "" (Some "application/json"%string) (bs "203.0.113.7:5000") (Some (bs "203.0.113.7"))
    false None BadRequest (Input (bs "job", 7)).
Definition toy_http : HTTPConfig := NewMiningHTTPHandler (mkHTTPConfig 0 0 0 0 0 0 false).
Definition toy_calls : list rate_call :=
  (fun t => mkCall (toy_request "/api/v1/submit") (bs "submit") 2 t) <$> [1; 2; 3; minute + 1; minute + 2].

Lemma rate_limit_bound_witness :
  (run_limiter toy_http (bs "203.0.113.7|submit") toy_calls).2 = [minute + 2; minute + 1; 2; 1] /\
  Z.of_nat (length (in_minute 2 (run_limiter toy_http (bs "203.0.113.7|submit") toy_calls).2)) <= 2 * 2.
Proof.
  split; [vm_compute; reflexivity|].
  apply (rate_limit_bound toy_http (bs "203.0.113.7|submit") 2 toy_calls 2).
  - lia.
  - repeat constructor; vm_compute; discriminate.
  - apply list.Forall_forall. intros c Hc. apply list_elem_of_fmap in Hc as (t & -> & Ht). cbn.
    split; [|done]. set_unfold in Ht. destruct_or?; subst; try done; vm_compute; discriminate.
Defined.

(** A service whose pool refuses every share as stale. *)
Definition stale_calls : mining_calls unit :=
  mkCalls unit None None None (Some (fun _ _ _ => (tt, Err ErrStaleJob))) None.

Lemma http_gate_witness : forall sv' resp,
  ServeHTTP stale_calls toy_http (tt, ∅) (toy_request "/api/v2/pool/submit") 1 = (sv', resp) ->
  sv'.1 = tt.
Proof.
  intros sv' resp Hs.
  destruct (http_gate stale_calls toy_http (tt, ∅) (toy_request "/api/v2/pool/submit") 1 sv' resp Hs) as [Hu|_];
    [exact Hu|by destruct sv'.1].
Defined.

Lemma submit_error_policy_witness :
  exists err, Client_Submit RegTest (transmitted pool_receipt 100
      (ServeHTTP stale_calls toy_http (tt, ∅) (toy_request "/api/v2/pool/submit") 1).2) = inr err /\
    react err = Refresh.
Proof.
  destruct (submit_error_policy stale_calls toy_http (tt, ∅) (toy_request "/api/v2/pool/submit") 1
    (fun _ _ _ => (tt, Err ErrStaleJob)) (bs "job") 7 tt ErrStaleJob 100 RegTest) as (err & He & Hr);
    try reflexivity.
  - vm_compute. discriminate.
  - exists err. split; [exact He|exact Hr].
Defined.

Definition toy_status : PPLNSStatus := or_else (PPLNS_Status toy_co toy_run.1 Toy.c2m)
  (mkStatus 0 "" "" 0 [] 0 0 0 0 0 0 0 0 [] [] []).

Lemma toy_co_ok : coordinator_ok RegTest toy_co.
Proof. exact (new_coordinator_ok RegTest Toy.c2m toy_run.1 toy_pool_config toy_co eq_refl toy_co_new). Qed.

Lemma status_verifies_witness : validateRemotePPLNSStatus toy_status RegTest = Ok tt.
Proof.
  apply (status_verifies RegTest toy_co toy_run.1 Toy.c2m).
  - exact pow_params_ok_reg.
  - exact Toy.c2m_reachable.
  - exact toy_co_ok.
  - exact toy_window_ok.
  - intros Hn. pose proof (proj2 toy_run_length) as Hl. unfold toy_state in Hl. rewrite Hn in Hl. discriminate Hl.
  - vm_compute. reflexivity.
Defined.

(** The same coordinator before its first share. *)
Definition empty_window : PPLNSWindow := fresh_window RegTestMachineID 3 2.
Definition empty_status : PPLNSStatus := or_else (PPLNS_Status toy_co empty_window Toy.c2m) toy_status.

Lemma empty_status_rejected_witness :
  validateRemotePPLNSStatus empty_status RegTest = Err (EText "pool status state hash mismatch").
Proof.
  apply (empty_status_rejected RegTest toy_co empty_window Toy.c2m).
  - exact pow_params_ok_reg.
  - exact Toy.c2m_reachable.
  - exact toy_co_ok.
  - split; [vm_compute; reflexivity| |]; [split|split; [split|]]; vm_compute; discriminate.
  - reflexivity.
  - vm_compute. discriminate.
  - vm_compute. reflexivity.
Defined.

(** Submitting the mined nonce. *)
Definition toy_submit_mined : Pool * result PoolSubmitResult :=
  PPLNS_Submit toy_pool (fun t => t) (fun t => t) (fun t => t) (fun t => t) (json_Marshal false) None
    (None, true) (hex_encode (zeros 16)) (mr_Nonce toy_mined) 0 Toy.now.
Definition mined_receipt : PoolSubmitResult := or_else toy_submit_mined.2 toy_receipt.

Lemma toy_submit_mined_ok : toy_submit_mined.2 = Ok mined_receipt.
Proof. vm_compute. reflexivity. Qed.
Lemma toy_mined_hash :
  mr_Hash toy_mined = PowHash (Header_Bytes (with_nonce toy_parsed.1.1 (mr_Nonce toy_mined))) RegTest.
Proof. vm_compute. reflexivity. Qed.

Lemma receipt_verifies_witness : check_receipt RegTest mined_receipt = Ok mined_receipt /\
  validatePPLNSReceiptForWork toy_work toy_mined mined_receipt RegTest = Ok tt.
Proof.
  apply (receipt_verifies RegTest toy_co toy_run.1 Toy.c2m Toy.c2m
    (EncodeAddress (Toy.pkh_of Toy.bob)) (bs "rig") 0 Toy.now (zeros 16) toy_issue.1 toy_work toy_pool ∅
    (json_Marshal false) None (None, true) 0 Toy.now toy_submit_mined.1 mined_receipt toy_mined
    toy_parsed.1.1 toy_parsed.1.2 toy_parsed.2).
  - exact pow_params_ok_reg.
  - exact Toy.c2m_reachable.
  - exact toy_co_ok.
  - exact toy_window_ok.
  - vm_compute. split; [discriminate|reflexivity].
  - reflexivity.
  - intros bits Hb. vm_compute in Hb. injection Hb as <-. vm_compute. reflexivity.
  - exact (pair_of_snd toy_issue _ toy_issue_ok).
  - exact toy_parsed_ok.
  - exact (proj1 (proj2 toy_mined_ok)).
  - exact toy_mined_hash.
  - vm_compute. reflexivity.
  - vm_compute. reflexivity.
  - vm_compute. reflexivity.
  - exact toy_window_ok.
  - vm_compute. reflexivity.
  - exact (pair_of_snd toy_submit_mined _ toy_submit_mined_ok).
Defined.

(** One round of a session: work arrives, the second attempt to submit gets through. *)
Definition answer {A} (v : A) : option (reply A) :=
  Some (mkReply A 200 (Some "application/json"%string) (Ok 100) false None (Some v)).
Definition toy_rounds : list round :=
  [mkRound (answer toy_work) 4 0 (fun _ => 1%nat) 1 [None; answer mined_receipt]].
Definition toy_events : list ClientEvent * option client_error :=
  RunWithEvents RegTest 2 (fun n => retryDelay second (30 * second) n (fun _ => 0)) toy_rounds 0.

Lemma session_accepts_verified_witness :
  length toy_events.1 = 3%nat /\ Forall (accepted_ok RegTest) toy_events.1.
Proof.
  split; [vm_compute; reflexivity|].
  apply (session_accepts_verified RegTest 2 (fun n => retryDelay second (30 * second) n (fun _ => 0)) toy_rounds 0
    toy_events.1 toy_events.2).
  - apply Forall_cons_2; [cbn; lia|apply Forall_nil_2].
  - unfold toy_events. apply surjective_pairing.
Defined.

(** A work item that pays Bob, for an empty window. *)
Definition bob_work : PoolWork := or_else
  (PPLNS_Issue toy_co empty_window Toy.c2m Toy.c2m (EncodeAddress (Toy.pkh_of Toy.bob)) (bs "rig") 0 Toy.now
    (Ok (hex_encode (zeros 16)))).2 toy_work.
Definition alice_config : RemoteClientConfig :=
  mkClientConfig (EncodeAddress (Toy.pkh_of Toy.alice)) (bs "rig") (Some RegTest) 2 false second.

(** The client does not compare the payout of the first job of a
    pool with its own address: a client configured with Alice's address accepts a
    work item whose whole reward goes to Bob. *)
Theorem requester_not_checked :
  NewRemoteClient (Ok (mkURL "https" "pool.example" false "" "" "/")) alice_config = Ok alice_config /\
  RequestWork RegTest (answer bob_work) = inl bob_work /\
  pk_PayoutBasis bob_work = "requester"%string /\
  pw_Address <$> pk_PayoutWeights bob_work = [EncodeAddress (Toy.pkh_of Toy.bob)] /\
  rc_Address alice_config <> EncodeAddress (Toy.pkh_of Toy.bob).
Proof. vm_compute. split_and!; try reflexivity. discriminate. Qed.
