(* ===== verification/GoStrings.v ===== *)
(** * Text: the package strings

    The functions of [strings] that the inbox and the wallet recovery use, on byte
    strings.  White space is that of [unicode.IsSpace] in UTF-8; since the first byte of
    such a sequence never occurs inside another encoded character, looking for the
    sequences byte by byte finds what decoding runes finds. *)
From S2P Require Import Prelude Text.

Definition HasPrefix (s prefix : bytes) : bool := bool_decide (take (length prefix) s = prefix).
Definition TrimPrefix (s prefix : bytes) : bytes := if HasPrefix s prefix then drop (length prefix) s else s.
Definition HasSuffix (s suffix : bytes) : bool :=
  (length suffix <=? length s)%nat && bool_decide (drop (length s - length suffix) s = suffix).
Definition TrimSuffix (s suffix : bytes) : bytes :=
  if HasSuffix s suffix then take (length s - length suffix) s else s.

(** ** White space *)
Definition ascii_spaces : list bytes := map (fun n => [z2b n]) [9; 10; 11; 12; 13; 32].
Definition wide_spaces : list bytes :=
  map (map z2b) ([[0xc2; 0x85]; [0xc2; 0xa0]; [0xe1; 0x9a; 0x80]] ++
    map (fun n => [0xe2; 0x80; n]) [0x80; 0x81; 0x82; 0x83; 0x84; 0x85; 0x86; 0x87; 0x88; 0x89; 0x8a; 0xa8; 0xa9; 0xaf] ++
    [[0xe2; 0x81; 0x9f]; [0xe3; 0x80; 0x80]]).
Definition spaces : list bytes := Eval vm_compute in ascii_spaces ++ wide_spaces.

(** The length of the white-space character at the head, or zero. *)
Definition space_len (ws : list bytes) (s : bytes) : nat :=
  match find (HasPrefix s) ws with Some w => length w | None => 0 end.

(** Removal of leading white space; [skip] bytes belong to a character already seen. *)
Fixpoint trim_left (ws : list bytes) (skip : nat) (s : bytes) : bytes :=
  match s with
  | [] => []
  | _ :: s' => match skip with
               | S skip => trim_left ws skip s'
               | O => match space_len ws s with O => s | S n => trim_left ws n s' end
               end
  end.
Definition TrimSpace (s : bytes) : bytes :=
  reverse (trim_left (reverse <$> spaces) 0 (reverse (trim_left spaces 0 s))).

(** [strings.Fields]: [cur] is the field that is being read. *)
Definition flush (cur : bytes) : list bytes := match cur with [] => [] | _ => [cur] end.
Fixpoint fields (skip : nat) (cur s : bytes) : list bytes :=
  match s with
  | [] => flush cur
  | c :: s' => match skip with
               | S skip => fields skip cur s'
               | O => match space_len spaces s with
                      | O => fields 0 (cur ++ [c]) s'
                      | S n => flush cur ++ fields n [] s'
                      end
               end
  end.
Definition Fields (s : bytes) : list bytes := fields 0 [] s.

(** [strings.ToLower] on ASCII letters; other letters are left as they are. *)
Definition lower (c : byte) : byte := if (65 <=? b2z c) && (b2z c <=? 90) then z2b (b2z c + 32) else c.
Definition ToLower (s : bytes) : bytes := map lower s.

(** [strings.Contains] *)
Fixpoint Contains (s sub : bytes) : bool :=
  HasPrefix s sub || match s with [] => false | _ :: s => Contains s sub end.

Definition space : byte := Byte.x20.
(** [strings.Join(words, " ")] *)
Fixpoint Join (words : list bytes) : bytes :=
  match words with
  | [] => []
  | [w] => w
  | w :: words => w ++ space :: Join words
  end.

(** [strings.Split] around one character: always at least one part. *)
Fixpoint Split (c : byte) (s : bytes) : list bytes :=
  match s with
  | [] => [[]]
  | x :: s' => if bool_decide (x = c) then [] :: Split c s'
               else match Split c s' with [] => [[x]] | part :: rest => (x :: part) :: rest end
  end.

(** ** Fields of joined words *)
(** A word: not empty, without ASCII white space and without any of the bytes that begin
    a wider one. *)
Definition plain (c : byte) : bool := (33 <=? b2z c) && (b2z c <? 127).
Definition word (w : bytes) : bool := match w with [] => false | _ => forallb plain w end.

Lemma spaces_not_plain : forallb (fun w => match w with c :: _ => negb (plain c) | [] => false end) spaces = true.
Proof. vm_compute. reflexivity. Qed.

Lemma space_len_plain c s : plain c = true -> space_len spaces (c :: s) = 0%nat.
Proof.
  intros Hc. unfold space_len. destruct (find _ spaces) as [w|] eqn:E; [|done].
  apply find_some in E as [Hin Hp]. pose proof spaces_not_plain as Hall. rewrite forallb_forall in Hall.
  specialize (Hall w Hin). destruct w as [|c' w]; [done|]. unfold HasPrefix in Hp. apply bool_decide_eq_true in Hp.
  simpl in Hp. injection Hp as -> _. by rewrite Hc in Hall.
Qed.

Lemma space_len_space s : space_len spaces (space :: s) = 1%nat.
Proof.
  unfold space_len, spaces, HasPrefix. cbn [find]. cbn [length take].
  repeat first [rewrite bool_decide_false by (intros E; injection E; done)|rewrite bool_decide_true by done]. done.
Qed.

Lemma fields_plain cur w s : forallb plain w = true -> fields 0 cur (w ++ s) = fields 0 (cur ++ w) s.
Proof.
  revert cur. induction w as [|c w IH]; intros cur Hw; [by rewrite app_nil_r|].
  simpl in Hw. apply andb_true_iff in Hw as [Hc Hw]. cbn [app fields]. rewrite space_len_plain by done.
  rewrite IH by done. by rewrite <- app_assoc.
Qed.

Lemma Fields_Join words : Forall (fun w => word w = true) words -> Fields (Join words) = words.
Proof.
  unfold Fields. induction 1 as [|w words Hw Hall IH]; [done|].
  assert (Hp : forallb plain w = true /\ w <> []) by (destruct w; [done|by split]). destruct Hp as [Hp Hne].
  destruct words as [|w2 words].
  - simpl. rewrite <- (app_nil_r w) at 1. rewrite fields_plain by done. simpl. by destruct w.
  - change (Join (w :: w2 :: words)) with (w ++ space :: Join (w2 :: words)).
    rewrite fields_plain by done. cbn [fields]. rewrite space_len_space, IH. by destruct w.
Qed.

(** * Text: base64

    The parts of [encoding/base64] that the program uses: [RawStdEncoding] in the
    wallet file and [RawURLEncoding] in the message inbox.  Both have no padding; their
    decoders skip carriage returns and line feeds and ignore the unused bits of the
    last character. *)

(** The two alphabets. *)
Definition std_alphabet : bytes :=
  bs "ABCDEFGHIJKLMNOPQRSTUVWXYZabcdefghijklmnopqrstuvwxyz0123456789+/".
Definition url_alphabet : bytes :=
  bs "ABCDEFGHIJKLMNOPQRSTUVWXYZabcdefghijklmnopqrstuvwxyz0123456789-_".

Section base64.
Variable alphabet : bytes.

Definition b64_char (d : Z) : byte := nth (Z.to_nat d) alphabet Byte.x00.
Definition b64_value (c : byte) : option Z :=
  Z.of_nat ∘ fst <$> list_find (fun x => x = c) alphabet.

(** [EncodeToString]: three bytes give four characters, a rest of one or two bytes
    two or three. *)
Fixpoint b64_encode (b : bytes) : bytes :=
  match b with
  | [] => []
  | [x] => let v := b2z x * 16 in [b64_char (v / 64); b64_char (v mod 64)]
  | [x; y] => let v := (b2z x * 256 + b2z y) * 4 in
      [b64_char (v / 4096); b64_char (v / 64 mod 64); b64_char (v mod 64)]
  | x :: y :: z :: b' =>
      let v := (b2z x * 256 + b2z y) * 256 + b2z z in
      b64_char (v / 262144) :: b64_char (v / 4096 mod 64) ::
      b64_char (v / 64 mod 64) :: b64_char (v mod 64) :: b64_encode b'
  end.

(** The quanta of the decoder, on the values of the characters. *)
Fixpoint b64_quanta (l : list Z) : option bytes :=
  match l with
  | [] => Some []
  | [_] => None
  | [a; b] => let v := a * 64 + b in Some [z2b (v / 16)]
  | [a; b; c] => let v := (a * 64 + b) * 64 + c in Some [z2b (v / 1024); z2b (v / 4)]
  | a :: b :: c :: d :: l' =>
      let v := ((a * 64 + b) * 64 + c) * 64 + d in
      rest ← b64_quanta l'; Some (z2b (v / 65536) :: z2b (v / 256) :: z2b v :: rest)
  end.

Definition b64_skipped (c : byte) : bool := (b2z c =? 10) || (b2z c =? 13).

(** [DecodeString] *)
Definition b64_decode (s : bytes) : option bytes :=
  l ← mapM b64_value (filter (fun c => b64_skipped c = false) s); b64_quanta l.

(** ** The decoder inverts the encoder *)
Definition alphabet_ok : bool :=
  (length alphabet =? 64)%nat && bool_decide (NoDup alphabet) && forallb (fun c => negb (b64_skipped c)) alphabet.

Context (Hok : alphabet_ok = true).

Lemma b64_char_elem d : 0 <= d < 64 -> b64_char d ∈ alphabet.
Proof.
  intros Hd. pose proof Hok as H. unfold alphabet_ok in H. bool_prop.
  apply Nat.eqb_eq in H. unfold b64_char. apply list_elem_of_In, nth_In. lia.
Qed.

Lemma b64_value_char d : 0 <= d < 64 -> b64_value (b64_char d) = Some d.
Proof.
  intros Hd. pose proof Hok as H. unfold alphabet_ok in H. bool_prop.
  apply Nat.eqb_eq in H. unfold b64_value, b64_char. rewrite fmap_Some.
  exists (Z.to_nat d, nth (Z.to_nat d) alphabet Byte.x00). split; [|simpl; lia].
  apply list_find_Some. split_and!; [|done|].
  - destruct (nth_lookup_or_length alphabet (Z.to_nat d) Byte.x00); [done|lia].
  - intros j y Hj Hlt ->.
    destruct (nth_lookup_or_length alphabet (Z.to_nat d) Byte.x00) as [Hd'|]; [|lia].
    pose proof (NoDup_lookup _ _ _ _ ltac:(eassumption) Hj Hd'). lia.
Qed.

Lemma b64_not_skipped d : 0 <= d < 64 -> b64_skipped (b64_char d) = false.
Proof.
  intros Hd%b64_char_elem. pose proof Hok as H. unfold alphabet_ok in H. bool_prop.
  rewrite forallb_forall in *. apply negb_true_iff. by apply H0, list_elem_of_In.
Qed.

(** A character of a digit, followed by more text. *)
Lemma b64_step d s : 0 <= d < 64 ->
  mapM b64_value (filter (fun c => b64_skipped c = false) (b64_char d :: s)) =
    (l ← mapM b64_value (filter (fun c => b64_skipped c = false) s); Some (d :: l)).
Proof.
  intros Hd. rewrite filter_cons_True by by apply b64_not_skipped.
  cbn [mapM]. by rewrite b64_value_char by done.
Qed.

(** Induction over groups of three bytes. *)
Lemma bytes_ind3 (P : bytes -> Prop) :
  P [] -> (forall x, P [x]) -> (forall x y, P [x; y]) ->
  (forall x y z l, P l -> P (x :: y :: z :: l)) -> forall l, P l.
Proof.
  intros H0 H1 H2 H3. fix IH 1. intros [|x [|y [|z l]]]; [done|done|done|]. apply H3, IH.
Qed.

Lemma b64_digits_encode b : exists l,
  mapM b64_value (filter (fun c => b64_skipped c = false) (b64_encode b)) = Some l /\
  b64_quanta l = Some b.
Proof.
  induction b as [|x|x y|x y z b (l & Hl & Hq)] using bytes_ind3; cbn [b64_encode].
  - by exists [].
  - pose proof (b2z_range x). rewrite !b64_step by mlia. eexists; split; [done|].
    cbn [b64_quanta]. do 2 f_equal. rewrite <- (z2b_b2z x) at 3. f_equal. mlia.
  - pose proof (b2z_range x). pose proof (b2z_range y).
    rewrite !b64_step by mlia. eexists; split; [done|].
    cbn [b64_quanta]. f_equal. f_equal; [|f_equal].
    + apply b2z_inj. rewrite b2z_z2b. mlia.
    + apply b2z_inj. rewrite b2z_z2b. mlia.
  - pose proof (b2z_range x). pose proof (b2z_range y). pose proof (b2z_range z).
    rewrite !b64_step by mlia. rewrite Hl. eexists; split; [done|].
    cbn [b64_quanta]. rewrite Hq. cbn [mbind option_bind]. f_equal. f_equal; [|f_equal; [|f_equal]].
    all: apply b2z_inj; rewrite b2z_z2b; mlia.
Qed.

Lemma b64_decode_encode b : b64_decode (b64_encode b) = Some b.
Proof. unfold b64_decode. destruct (b64_digits_encode b) as (l & -> & Hq). exact Hq. Qed.

#[global] Instance b64_encode_inj : Inj (=) (=) b64_encode.
Proof. intros a b H. apply (inj Some). by rewrite <- !b64_decode_encode, H. Qed.

Lemma length_b64_encode b :
  length (b64_encode b) = ((length b / 3) * 4 + match length b mod 3 with 0 => 0 | 1 => 2 | _ => 3 end)%nat.
Proof.
  induction b as [|x|x y|x y z b IH] using bytes_ind3; [done..|].
  cbn [b64_encode length]. rewrite IH. change (S (S (S (length b)))) with (3 + length b)%nat.
  replace (3 + length b)%nat with (length b + 1 * 3)%nat by lia.
  rewrite Nat.div_add, Nat.Div0.mod_add by lia. lia.
Qed.

Lemma b64_encode_elem b c : c ∈ b64_encode b -> c ∈ alphabet.
Proof.
  induction b as [|x|x y|x y z b IH] using bytes_ind3; cbn [b64_encode];
    rewrite ?elem_of_cons, ?elem_of_nil;
    try pose proof (b2z_range x); try pose proof (b2z_range y); try pose proof (b2z_range z);
    intuition (subst; auto; apply b64_char_elem; mlia).
Qed.
End base64.

Lemma std_alphabet_ok : alphabet_ok std_alphabet = true.
Proof. vm_compute. reflexivity. Qed.
Lemma url_alphabet_ok : alphabet_ok url_alphabet = true.
Proof. vm_compute. reflexivity. Qed.
