(* ===== verification/FileTree.v ===== *)
(** * A file system with faults and crashes

    The part of [os] that the message inbox uses, as programs over a [world]: a tree of
    files below the root directory of the store, the outcomes of the coming system
    calls, the coming bytes of [crypto/rand] and the coming readings of the clock.

    A planned fault makes a call return an error.  A fault that is a crash also takes
    the machine down: the code that runs after it, cleanup included, has no effect on
    the tree any more, so the tree of the final world is what a restart finds.  Writes
    and recursive removals can be interrupted half way.  What was written before a
    crash is kept: the model is that of a process or kernel that stops, not of a disk
    that forgets.  Symbolic links are not followed: a call on one fails. *)
From S2P Require Import Prelude Text GoStrings.

(** ** Stateful programs that can fail *)
Definition prog (S A : Type) : Type := S -> S * result A.

#[global] Instance prog_ret {S} : MRet (prog S) := fun A a s => (s, Ok a).
#[global] Instance prog_bind {S} : MBind (prog S) := fun A B f m s =>
  match m s with (s', Ok a) => f a s' | (s', Err e) => (s', Err e) end.

Definition fail {S A} (e : error) : prog S A := fun s => (s, Err e).
Definition guard {S} (b : bool) (e : error) : prog S unit := fun s => (s, check b e).
Definition lift {S A} (r : result A) : prog S A := fun s => (s, r).
(** A call whose error the program looks at. *)
Definition try {S A} (m : prog S A) : prog S (result A) := fun s => let (s', r) := m s in (s', Ok r).
(** [_ = f()] *)
Definition ignore {S A} (m : prog S A) : prog S unit := fun s => ((m s).1, Ok tt).
(** [for _, x := range l { if err := f(x); err != nil { return err } }] *)
Fixpoint each {S A} (f : A -> prog S unit) (l : list A) : prog S unit :=
  match l with [] => mret tt | a :: l => _ ← f a; each f l end.

(** ** Errors *)
(** [errors.Is] for sentinel errors. *)
Fixpoint errors_Is (e : error) (target : string) : bool :=
  match e with
  | EText msg => bool_decide (msg = target)
  | EWrap _ _ cause => errors_Is cause target
  | EJoin a b => errors_Is a target || errors_Is b target
  | _ => false
  end.
Definition ErrNotExist : string := "file does not exist".
Definition wrap (msg : string) (e : error) : error := EWrap msg 0 e.
(** [fmt.Errorf("...: %w", err)] around the error of a call. *)
Definition wrapping {S A} (msg : string) (m : prog S A) : prog S A := fun s =>
  let (s', r) := m s in (s', match r with Ok a => Ok a | Err e => Err (wrap msg e) end).

(** ** The tree *)
Abbreviation path := (list (list Byte.byte)).
Inductive node := NFile (content : bytes) | NDir | NLink.
#[global] Instance path_eq_dec : EqDecision path := _.
#[global] Instance path_countable : Countable path := _.
Abbreviation tree := (@gmap (list (list Byte.byte)) path_eq_dec path_countable node).

#[global] Instance node_eq_dec : EqDecision node.
Proof. solve_decision. Defined.

Inductive outcome := Fine | Fault (crash : bool) (part : nat) (removed : list path).

Record world := mkWorld {
  w_tree : tree;
  w_plan : list outcome;
  w_up : bool;
  w_rand : bytes;
  w_clock : list Z;
}.
Definition set_tree (t : tree) (w : world) : world :=
  mkWorld t (w_plan w) (w_up w) (w_rand w) (w_clock w).

Abbreviation io := (prog world).

(** A system call: [good] is what it does, [bad] what an interrupted one leaves. *)
Definition syscall {A} (good : tree -> tree * result A) (bad : nat -> list path -> tree -> tree) : io A := fun w =>
  if negb (w_up w) then (w, Err (EText "machine is down"))
  else match w_plan w with
       | Fault crash part removed :: plan =>
           (mkWorld (bad part removed (w_tree w)) plan (negb crash) (w_rand w) (w_clock w),
            Err (EText "input/output error"))
       | Fine :: plan => let (t, r) := good (w_tree w) in
           (mkWorld t plan true (w_rand w) (w_clock w), r)
       | [] => let (t, r) := good (w_tree w) in (set_tree t w, r)
       end.

Definition no_effect (part : nat) (removed : list path) (t : tree) : tree := t.
Definition not_exist {A} : result A := Err (EText ErrNotExist).

Definition parent (p : path) : path := removelast p.
Definition below (dir p : path) : bool :=
  (length dir <=? length p)%nat && bool_decide (take (length dir) p = dir).

(** The names in a directory, in no particular order. *)
Definition dir_names (dir : path) (t : tree) : list bytes :=
  omap (fun '(p, _) => if bool_decide (p <> [] /\ parent p = dir) then last p else None) (map_to_list t).

(** [os.OpenFile] with [O_CREATE|O_EXCL|O_WRONLY] *)
Definition create_excl (p : path) : io unit :=
  syscall (fun t => match t !! p, t !! parent p with
                    | Some _, _ => (t, Err (EText "file already exists"))
                    | None, Some NDir => (<[p := NFile []]> t, Ok tt)
                    | None, _ => (t, not_exist)
                    end) no_effect.

(** [file.Write] on the file opened at [p]. *)
Definition append_file (p : path) (data : bytes) (t : tree) : tree :=
  match t !! p with Some (NFile c) => <[p := NFile (c ++ data)]> t | _ => t end.
Definition write_file (p : path) (data : bytes) : io unit :=
  syscall (fun t => (append_file p data t, Ok tt)) (fun part _ t => append_file p (take part data) t).

(** [file.Sync] and [file.Close] *)
Definition sync_file (p : path) : io unit := syscall (fun t => (t, Ok tt)) no_effect.
Definition close_file (p : path) : io unit := syscall (fun t => (t, Ok tt)) no_effect.

(** [os.ReadFile] *)
Definition ReadFile (p : path) : io bytes :=
  syscall (fun t => (t, match t !! p with
                        | Some (NFile c) => Ok c
                        | Some _ => Err (EText "is a directory")
                        | None => not_exist
                        end)) no_effect.

(** [os.Lstat] *)
Definition Lstat (p : path) : io node :=
  syscall (fun t => (t, match t !! p with Some n => Ok n | None => not_exist end)) no_effect.

(** [os.Remove]: a directory has to be empty. *)
Definition os_Remove (p : path) : io unit :=
  syscall (fun t => match t !! p with
                    | None => (t, not_exist)
                    | Some NDir => match dir_names p t with
                                   | [] => (delete p t, Ok tt)
                                   | _ => (t, Err (EText "directory not empty"))
                                   end
                    | Some _ => (delete p t, Ok tt)
                    end) no_effect.

(** [os.RemoveAll]: interrupted, it has removed some of the entries. *)
Definition os_RemoveAll (dir : path) : io unit :=
  syscall (fun t => (filter (fun '(p, _) => below dir p = false) t, Ok tt))
          (fun _ removed t => filter (fun '(p, _) => below dir p && bool_decide (p ∈ removed) = false) t).

(** [os.Rename] of a file. *)
Definition os_Rename (p q : path) : io unit :=
  syscall (fun t => match t !! p, t !! q, t !! parent q with
                    | None, _, _ => (t, not_exist)
                    | Some _, Some NDir, _ => (t, Err (EText "file exists"))
                    | Some n, _, Some NDir => (<[q := n]> (delete p t), Ok tt)
                    | Some _, _, _ => (t, not_exist)
                    end) no_effect.

(** [os.MkdirAll]: creates the missing directories from the top; an interrupted call
    has made some of them. *)
Definition mkdir_prefix (r : tree * result unit) (p : path) : tree * result unit :=
  match r with
  | (t, Ok _) => match t !! p with
                 | None => (<[p := NDir]> t, Ok tt)
                 | Some NDir => (t, Ok tt)
                 | Some _ => (t, Err (EText "not a directory"))
                 end
  | _ => r
  end.
Definition prefixes (p : path) : list path := (fun n => take n p) <$> seq 1 (length p).
Definition mkdir_all (t : tree) (ps : list path) : tree * result unit := foldl mkdir_prefix (t, Ok tt) ps.
Definition MkdirAll (p : path) : io unit :=
  syscall (fun t => mkdir_all t (prefixes p)) (fun part _ t => (mkdir_all t (take part (prefixes p))).1).

(** [os.ReadDir]: the entries in the order of their names. *)
Definition ReadDir (dir : path) : io (list (bytes * node)) :=
  syscall (fun t => (t, match t !! dir with
                        | Some NDir => Ok (omap (fun n => pair n <$> t !! (dir ++ [n]))
                                             (merge_sort bytes_le (dir_names dir t)))
                        | Some _ => Err (EText "not a directory")
                        | None => not_exist
                        end)) no_effect.

(** [io.ReadFull(rand.Reader, buf)] *)
Definition rand_read (n : nat) : io bytes := fun w =>
  if (length (w_rand w) <? n)%nat then (w, Err (EText "unexpected EOF"))
  else (mkWorld (w_tree w) (w_plan w) (w_up w) (drop n (w_rand w)) (w_clock w), Ok (take n (w_rand w))).

(** A reading of the clock, in nanoseconds; the last planned one is repeated. *)
Definition time_now : io Z := fun w =>
  match w_clock w with
  | [] => (w, Ok 0)
  | [t] => (w, Ok t)
  | t :: clock => (mkWorld (w_tree w) (w_plan w) (w_up w) (w_rand w) clock, Ok t)
  end.

(** A world without planned faults. *)
Definition healthy (w : world) : Prop := w_up w = true /\ Forall (eq Fine) (w_plan w).

(** * Reasoning about programs on the file tree

    Two judgements: [triple] describes every outcome of a program, faults and crashes
    included, and is used for invariants; [runs] says that a program succeeds in a world
    without faults, and what it then gives.  Then: suffixes of names, the entries of
    directories, and sums over finite maps. *)

(** ** Every outcome *)
(** From a state with [P], success ends in [Q] and an error in [R]. *)
Definition triple {S A} (P : S -> Prop) (m : prog S A) (Q : A -> S -> Prop) (R : S -> Prop) : Prop :=
  forall s, P s -> match m s with (s', Ok a) => Q a s' | (s', Err _) => R s' end.

Section triple.
Context {S : Type}.
Implicit Types (P R : S -> Prop).

Lemma triple_ret {A : Type} P R (a : A) (Q : A -> S -> Prop) : (forall s, P s -> Q a s) -> triple P (mret a) Q R.
Proof. intros HQ s Hs. by apply HQ. Qed.

Lemma triple_bind {A B : Type} P (m : prog S A) (k : A -> prog S B) Q Q' R :
  triple P m Q R -> (forall a, triple (Q a) (k a) Q' R) -> triple P (m ≫= k) Q' R.
Proof.
  intros Hm Hk s Hs. unfold mbind, prog_bind. specialize (Hm s Hs).
  destruct (m s) as [s' [a|e]]; [|done]. by apply (Hk a s').
Qed.

Lemma triple_weaken {A : Type} P P' (m : prog S A) (Q Q' : A -> S -> Prop) R R' :
  triple P' m Q' R' -> (forall s, P s -> P' s) -> (forall a s, Q' a s -> Q a s) -> (forall s, R' s -> R s) ->
  triple P m Q R.
Proof.
  intros Hm HP HQ HR s Hs. specialize (Hm s (HP s Hs)). destruct (m s) as [s' []]; auto.
Qed.

Lemma triple_fail {A : Type} P R e Q : (forall s, P s -> R s) -> triple (A := A) P (fail e) Q R.
Proof. intros HR s Hs. by apply HR. Qed.

Lemma triple_guard P R b e Q : (forall s, P s -> b = true -> Q tt s) -> (forall s, P s -> R s) ->
  triple P (guard b e) Q R.
Proof. intros HQ HR s Hs. unfold guard. destruct b; simpl; auto. Qed.

Lemma triple_lift {A : Type} P R (r : result A) Q : (forall a s, P s -> r = Ok a -> Q a s) -> (forall s, P s -> R s) ->
  triple P (lift r) Q R.
Proof. intros HQ HR s Hs. unfold lift. destruct r; auto. Qed.

Lemma triple_try {A : Type} P R R' (m : prog S A) (Q : A -> S -> Prop) :
  triple P m Q R' -> triple P (try m) (fun r s => match r with Ok a => Q a s | Err _ => R' s end) R.
Proof. intros Hm s Hs. unfold try. specialize (Hm s Hs). by destruct (m s) as [s' []]. Qed.

Lemma triple_ignore {A : Type} P R (m : prog S A) Q : triple P m (fun _ => Q) Q -> triple P (ignore m) (fun _ => Q) R.
Proof. intros Hm s Hs. unfold ignore. specialize (Hm s Hs). by destruct (m s) as [s' []]. Qed.

Lemma triple_wrapping {A : Type} P R (m : prog S A) Q msg : triple P m Q R -> triple P (wrapping msg m) Q R.
Proof. intros Hm s Hs. unfold wrapping. specialize (Hm s Hs). by destruct (m s) as [s' []]. Qed.

Lemma triple_each {A : Type} P (f : A -> prog S unit) l :
  (forall a, a ∈ l -> triple P (f a) (fun _ => P) P) -> triple P (each f l) (fun _ => P) P.
Proof.
  induction l as [|a l IH]; intros Hf; [intros s Hs; exact Hs|].
  eapply triple_bind; [apply Hf; by left|]. intros u. apply IH. intros b Hb. apply Hf. by right.
Qed.

(** A precondition that is a fact about the starting state. *)
Lemma triple_at {A : Type} P (m : prog S A) Q R :
  (forall s, P s -> triple (fun s' => s' = s) m Q R) -> triple P m Q R.
Proof. intros Hm s Hs. by apply (Hm s Hs s). Qed.

Lemma triple_pure {A : Type} (phi : Prop) P (m : prog S A) Q R :
  (phi -> triple P m Q R) -> triple (fun s => phi /\ P s) m Q R.
Proof. intros Hm s [Hphi Hs]. by apply Hm. Qed.
End triple.

(** The same on trees: the rest of the world does not matter. *)
Definition on_tree (P : tree -> Prop) (w : world) : Prop := P (w_tree w).

Lemma triple_syscall {A : Type} (P R : tree -> Prop) (Q : A -> tree -> Prop) (good : tree -> tree * result A) bad :
  (forall t, P t -> match good t with (t', Ok a) => Q a t' | (t', Err _) => R t' end) ->
  (forall part removed t, P t -> R (bad part removed t)) -> (forall t, P t -> R t) ->
  triple (on_tree P) (syscall good bad) (fun a => on_tree (Q a)) (on_tree R).
Proof.
  intros Hg Hb Hd w Hw. unfold syscall, on_tree in *. destruct (w_up w); simpl; [|auto].
  specialize (Hg _ Hw). destruct (w_plan w) as [|[|crash part removed] plan]; simpl; auto.
  all: by destruct (good (w_tree w)) as [t' [a|e]].
Qed.

(** A call that only reads the tree. *)
Lemma triple_reads {A : Type} (P : tree -> Prop) (f : tree -> result A) :
  triple (on_tree P) (syscall (fun t => (t, f t)) no_effect)
    (fun a => on_tree (fun t => P t /\ f t = Ok a)) (on_tree P).
Proof. apply triple_syscall; auto. intros t Ht. destruct (f t) eqn:E; by auto. Qed.

Lemma triple_rand (P : tree -> Prop) n : triple (on_tree P) (rand_read n) (fun _ => on_tree P) (on_tree P).
Proof. intros w Hw. unfold rand_read. by destruct (length (w_rand w) <? n)%nat. Qed.

Lemma triple_now (P : tree -> Prop) : triple (on_tree P) time_now (fun _ => on_tree P) (on_tree P).
Proof. intros w Hw. unfold time_now. by destruct (w_clock w) as [|t [|]]. Qed.

(** ** Success without faults *)
(** In a healthy world whose clock always shows [now], the program succeeds from a tree
    [t] with result [a] and tree [t']. *)
Definition quiet (now : Z) (w : world) : Prop := healthy w /\ w_clock w = [now].

Definition runs {A : Type} (now : Z) (t : tree) (m : io A) (a : A) (t' : tree) : Prop :=
  forall w, quiet now w -> w_tree w = t -> exists w', m w = (w', Ok a) /\ quiet now w' /\ w_tree w' = t'.

Lemma runs_ret {A : Type} now t (a : A) : runs now t (mret a) a t.
Proof. intros w Hq Ht. by exists w. Qed.

Lemma runs_bind {A B : Type} now t (m : io A) (k : A -> io B) a t1 b t2 :
  runs now t m a t1 -> runs now t1 (k a) b t2 -> runs now t (m ≫= k) b t2.
Proof.
  intros Hm Hk w Hq Ht. destruct (Hm w Hq Ht) as (w1 & E1 & Hq1 & Ht1).
  destruct (Hk w1 Hq1 Ht1) as (w2 & E2 & Hq2 & Ht2).
  exists w2. split; [|done]. unfold mbind, prog_bind. by rewrite E1.
Qed.

Lemma runs_syscall {A : Type} now t (good : tree -> tree * result A) bad a t' :
  good t = (t', Ok a) -> runs now t (syscall good bad) a t'.
Proof.
  intros Hg w [[Hup Hpl] Hc] <-. unfold syscall. rewrite Hup. simpl.
  destruct (w_plan w) as [|o plan] eqn:E.
  - rewrite Hg. eexists. split; [done|]. unfold quiet, healthy. simpl. rewrite Hup, E. auto.
  - apply Forall_cons in Hpl as [<- Hpl]. rewrite Hg. eexists. split; [done|].
    unfold quiet, healthy. simpl. auto.
Qed.

(** A call that fails without a fault. *)
Lemma runs_try_err {A : Type} now t (good : tree -> tree * result A) bad e t' :
  good t = (t', Err e) -> runs now t (try (syscall good bad)) (Err e) t'.
Proof.
  intros Hg w [[Hup Hpl] Hc] <-. unfold try, syscall. rewrite Hup. simpl.
  destruct (w_plan w) as [|o plan] eqn:E.
  - rewrite Hg. eexists. split; [done|]. unfold quiet, healthy. simpl. rewrite Hup, E. auto.
  - apply Forall_cons in Hpl as [<- Hpl]. rewrite Hg. eexists. split; [done|].
    unfold quiet, healthy. simpl. auto.
Qed.

Lemma runs_try {A : Type} now t (m : io A) a t' : runs now t m a t' -> runs now t (try m) (Ok a) t'.
Proof.
  intros Hm w Hq Ht. destruct (Hm w Hq Ht) as (w' & E & Hq' & Ht').
  exists w'. split; [|done]. unfold try. by rewrite E.
Qed.

Lemma runs_ignore {A : Type} now t (m : io A) a t' : runs now t m a t' -> runs now t (ignore m) tt t'.
Proof.
  intros Hm w Hq Ht. destruct (Hm w Hq Ht) as (w' & E & Hq' & Ht').
  exists w'. split; [|done]. unfold ignore. by rewrite E.
Qed.

Lemma runs_wrapping {A : Type} now t (m : io A) a t' msg : runs now t m a t' -> runs now t (wrapping msg m) a t'.
Proof.
  intros Hm w Hq Ht. destruct (Hm w Hq Ht) as (w' & E & Hq' & Ht').
  exists w'. split; [|done]. unfold wrapping. by rewrite E.
Qed.

Lemma runs_guard now t b e : b = true -> runs now t (guard b e) tt t.
Proof. intros -> w Hq Ht. by exists w. Qed.

Lemma runs_lift {A : Type} now t r (a : A) : r = Ok a -> runs now t (lift r) a t.
Proof. intros -> w Hq Ht. by exists w. Qed.

Lemma runs_now now t : runs now t time_now now t.
Proof. intros w [Hh Hc] Ht. exists w. unfold time_now. rewrite Hc. done. Qed.

Lemma runs_each {A : Type} now (I : tree -> Prop) (f : A -> io unit) (g : A -> tree -> tree) l t :
  (forall a t', a ∈ l -> I t' -> runs now t' (f a) tt (g a t') /\ I (g a t')) -> I t ->
  runs now t (each f l) tt (foldl (fun t a => g a t) t l).
Proof.
  revert t. induction l as [|a l IH]; intros t Hf Ht; [apply runs_ret|]. cbn [each foldl].
  destruct (Hf a t ltac:(by left) Ht) as [Hr Ht'].
  eapply runs_bind; [exact Hr|]. apply IH; [|done]. intros b t' Hb. apply Hf. by right.
Qed.

(** Steps that only delete entries. *)
Section deleting.
Context {A : Type} (g : A -> tree -> tree) (Hg : forall a t, g a t ⊆ t).

Lemma foldl_subseteq l t : foldl (fun t a => g a t) t l ⊆ t.
Proof. revert t. induction l as [|a l IH]; intros t; simpl; [done|]. etrans; [apply IH|apply Hg]. Qed.

Lemma foldl_kept l t p : (forall a t', a ∈ l -> g a t' !! p = t' !! p) -> foldl (fun t a => g a t) t l !! p = t !! p.
Proof.
  revert t. induction l as [|a l IH]; intros t Hk; simpl; [done|].
  rewrite IH by (intros; apply Hk; by right). apply Hk. by left.
Qed.

Lemma foldl_deleted l t p a : a ∈ l -> (forall t', g a t' !! p = None) -> foldl (fun t a => g a t) t l !! p = None.
Proof.
  intros Ha Hd. apply list_elem_of_split in Ha as (l1 & l2 & ->). rewrite foldl_app. simpl.
  destruct (foldl _ (g a _) l2 !! p) as [n|] eqn:E; [|done].
  eapply lookup_weaken in E; [|apply foldl_subseteq]. by rewrite Hd in E.
Qed.
End deleting.

Lemma runs_remove now t p c : t !! p = Some (NFile c) -> runs now t (os_Remove p) tt (delete p t).
Proof. intros Ht. apply runs_syscall. by rewrite Ht. Qed.

(** ** Names with suffixes *)
Lemma HasSuffix_spec s suffix : HasSuffix s suffix = true <-> exists a, s = a ++ suffix.
Proof.
  unfold HasSuffix. rewrite andb_true_iff, bool_decide_eq_true, Nat.leb_le. split.
  - intros [_ Hd]. exists (take (length s - length suffix) s).
    rewrite <- (take_drop (length s - length suffix) s) at 1. by rewrite Hd.
  - intros [a ->]. rewrite length_app. split; [lia|].
    by rewrite Nat.add_sub, drop_app_length.
Qed.

Lemma HasSuffix_app a suffix : HasSuffix (a ++ suffix) suffix = true.
Proof. apply HasSuffix_spec. eauto. Qed.

Lemma TrimSuffix_app a suffix : TrimSuffix (a ++ suffix) suffix = a.
Proof.
  unfold TrimSuffix. by rewrite HasSuffix_app, length_app, Nat.add_sub, take_app_length.
Qed.

Lemma HasSuffix_trim s suffix : HasSuffix s suffix = true -> s = TrimSuffix s suffix ++ suffix.
Proof. intros [a ->]%HasSuffix_spec. by rewrite TrimSuffix_app. Qed.

(** Suffixes that end in different characters exclude each other. *)
Lemma suffix_differs {A : Type} (a b s1 s2 : list A) x y :
  last s1 = Some x -> last s2 = Some y -> x <> y -> a ++ s1 <> b ++ s2.
Proof.
  intros H1 H2 Hxy H. apply (f_equal last) in H. rewrite !last_app, H1, H2 in H. congruence.
Qed.

Lemma HasSuffix_differs a s1 s2 x y :
  last s1 = Some x -> last s2 = Some y -> x <> y -> HasSuffix (a ++ s1) s2 = false.
Proof.
  intros H1 H2 Hxy. apply not_true_iff_false. intros [b Hb]%HasSuffix_spec.
  by apply (suffix_differs a b s1 s2 x y) in Hb.
Qed.

(** ** Directories *)
Lemma dir_names_spec dir t n : n ∈ dir_names dir t <-> is_Some (t !! (dir ++ [n])).
Proof.
  unfold dir_names. rewrite list_elem_of_omap. split.
  - intros ([p nd] & Hp & Hx). apply elem_of_map_to_list in Hp. case_bool_decide as Hd; [|done].
    destruct Hd as [Hne <-]. exists nd. rewrite <- Hp. f_equal.
    destruct p as [|p' x _] using rev_ind; [done|]. rewrite last_snoc in Hx. simplify_eq.
    unfold parent. by rewrite removelast_last.
  - intros [nd Hn]. exists (dir ++ [n], nd). split; [by apply elem_of_map_to_list|].
    rewrite bool_decide_true; [by rewrite last_snoc|].
    split; [by destruct dir|]. unfold parent. by rewrite removelast_last.
Qed.

Lemma NoDup_dir_names dir t : NoDup (dir_names dir t).
Proof.
  unfold dir_names. pose proof (NoDup_fst_map_to_list t) as Hnd. revert Hnd.
  induction (map_to_list t) as [|[p nd] l IH]; intros Hnd; [constructor|].
  rewrite fmap_cons in Hnd. apply NoDup_cons in Hnd as [Hp Hnd]. simpl.
  case_bool_decide as Hd; [|by apply IH]. destruct Hd as [Hne Hpar].
  destruct (last p) as [x|] eqn:Hx; [|by apply IH]. constructor; [|by apply IH].
  intros ([q nd'] & Hq & Hlast)%list_elem_of_omap. case_bool_decide as Hd; [|done]. destruct Hd as [Hneq Hparq].
  apply Hp. apply list_elem_of_fmap. exists (q, nd'). split; [|done]. simpl.
  destruct p as [|p' y _] using rev_ind; [done|]. destruct q as [|q' z _] using rev_ind; [done|].
  rewrite last_snoc in Hx, Hlast. unfold parent in *. rewrite removelast_last in *. congruence.
Qed.

(** The entries that [ReadDir] gives. *)
Definition dir_entries (dir : path) (t : tree) : list (bytes * node) :=
  omap (fun n => pair n <$> t !! (dir ++ [n])) (merge_sort bytes_le (dir_names dir t)).

Lemma dir_entries_spec dir t n nd : (n, nd) ∈ dir_entries dir t <-> t !! (dir ++ [n]) = Some nd.
Proof.
  unfold dir_entries. rewrite list_elem_of_omap. split.
  - intros (m & _ & Hm). apply fmap_Some in Hm as (? & ? & ?). by simplify_eq.
  - intros Hn. exists n. rewrite merge_sort_Permutation, dir_names_spec, Hn. by eauto.
Qed.

Lemma NoDup_dir_entries dir t : NoDup (dir_entries dir t).*1.
Proof.
  assert (Hnd : NoDup (merge_sort bytes_le (dir_names dir t)))
    by (rewrite merge_sort_Permutation; apply NoDup_dir_names).
  unfold dir_entries. induction Hnd as [|n l Hn Hnd IH]; [constructor|]. simpl.
  destruct (t !! (dir ++ [n])); simpl; [|done]. constructor; [|done].
  intros ([m nd] & -> & Hm)%list_elem_of_fmap.
  apply list_elem_of_omap in Hm as (m' & Hm' & Hx). apply fmap_Some in Hx as (? & ? & ?). by simplify_eq.
Qed.

Lemma runs_ReadDir now t dir : t !! dir = Some NDir -> runs now t (ReadDir dir) (dir_entries dir t) t.
Proof. intros Hd. apply runs_syscall. by rewrite Hd. Qed.

(** ** Sums over maps *)
Section msum.
Context {K V : Type} `{Countable K}.
Implicit Types (m : gmap K V) (f : V -> Z).

Definition msum f m : Z := sumZ (f <$> (map_to_list m).*2).

Lemma msum_empty f : msum f ∅ = 0.
Proof. unfold msum. by rewrite map_to_list_empty. Qed.

Lemma msum_insert f m k v : m !! k = None -> msum f (<[k := v]> m) = f v + msum f m.
Proof. intros Hk. unfold msum. by rewrite map_to_list_insert. Qed.

Lemma msum_delete f m k v : m !! k = Some v -> msum f (delete k m) = msum f m - f v.
Proof.
  intros Hk. rewrite <- (insert_delete_id m k v Hk) at 2.
  rewrite msum_insert by apply lookup_delete_eq. lia.
Qed.

Lemma msum_replace f m k v v' : m !! k = Some v -> msum f (<[k := v']> m) = msum f m - f v + f v'.
Proof.
  intros Hk. rewrite <- insert_delete_eq, msum_insert by apply lookup_delete_eq.
  rewrite (msum_delete f m k v Hk). lia.
Qed.

Lemma msum_nonneg f m : (forall k v, m !! k = Some v -> 0 <= f v) -> 0 <= msum f m.
Proof.
  intros Hf. unfold msum. apply sumZ_nonneg, list.Forall_forall.
  intros z (v & -> & (x & -> & Hx)%list_elem_of_fmap)%list_elem_of_fmap.
  destruct x as [k v]. apply elem_of_map_to_list in Hx. by eapply Hf.
Qed.
End msum.

Lemma msum_mono {K V W} `{Countable K} (f : V -> Z) (g : W -> Z) (m1 : gmap K V) (m2 : gmap K W) :
  (forall k v, m1 !! k = Some v -> exists w, m2 !! k = Some w /\ f v <= g w) ->
  (forall k w, m2 !! k = Some w -> 0 <= g w) -> msum f m1 <= msum g m2.
Proof.
  revert m2. induction m1 as [|k v m1 Hk IH] using map_ind; intros m2 Hle Hnn.
  - rewrite msum_empty. by apply msum_nonneg.
  - destruct (Hle k v (lookup_insert_eq _ _ _)) as (w & Hw & Hfg).
    rewrite msum_insert by done.
    assert (msum f m1 <= msum g (delete k m2)) as Hr.
    { apply IH.
      - intros k' v' Hv'. destruct (decide (k = k')) as [<-|Hne]; [congruence|].
        rewrite lookup_delete_ne by done. apply Hle. by rewrite lookup_insert_ne.
      - intros k' w' [_ Hw']%lookup_delete_Some. by eapply Hnn. }
    rewrite (msum_delete g m2 k w Hw) in Hr. lia.
Qed.

Lemma msum_size {K V} `{Countable K} (m : gmap K V) : msum (fun _ => 1) m = Z.of_nat (size m).
Proof.
  induction m as [|k v m Hk IH] using map_ind; [done|].
  rewrite msum_insert, map_size_insert_None by done. lia.
Qed.

Lemma size_mono {K V W} `{Countable K} (m1 : gmap K V) (m2 : gmap K W) :
  (forall k v, m1 !! k = Some v -> is_Some (m2 !! k)) -> (size m1 <= size m2)%nat.
Proof.
  intros Hsub. cut (Z.of_nat (size m1) <= Z.of_nat (size m2)); [lia|].
  rewrite <- !msum_size. apply msum_mono; [|lia].
  intros k v [w Hw]%Hsub. exists w. split; [done|lia].
Qed.

Lemma size_mono_lt {K V W} `{Countable K} (m1 : gmap K V) (m2 : gmap K W) k :
  (forall k v, m1 !! k = Some v -> is_Some (m2 !! k)) -> m1 !! k = None -> is_Some (m2 !! k) ->
  (size m1 < size m2)%nat.
Proof.
  intros Hsub Hk [w Hw]. cut (size (<[k := w]> (const w <$> m1)) <= size m2)%nat.
  { rewrite map_size_insert_None by by rewrite lookup_fmap, Hk. rewrite map_size_fmap. lia. }
  apply size_mono. intros k' v' [[<- _]|[_ Hv]]%lookup_insert_Some; [by eauto|].
  rewrite lookup_fmap in Hv. apply fmap_Some in Hv as (v & Hv & _). by eapply Hsub.
Qed.
