(* ===== verification/Inbox.v ===== *)
(** * The message inbox (nineinbox/store.go)

    A relay for encrypted items: inboxes with a write token and a recovery token, items
    with a retention, and quotas per item, inbox and service.  The state in memory is
    mirrored on disk, below the directory [inboxes] of the root; [openStore] rebuilds
    it.  Paths are relative to the root, whose own name has no further role.  The JSON
    codec of the two kinds of metadata files is the interface [InboxJson]. *)
From S2P Require Import Prelude Text GoStrings Params Crypto FileTree.

(** ** Errors and data *)
Definition ErrInvalid : error := EText "invalid inbox input".
Definition ErrUnauthorized : error := EText "inbox authorization failed".
Definition ErrNotFound : error := EText "inbox item not found".
Definition ErrExpired : error := EText "inbox item expired".
Definition ErrTooLarge : error := EText "inbox item too large".
Definition ErrInboxFull : error := EText "inbox is full".
Definition ErrServiceFull : error := EText "inbox service is full".
Definition ErrUnsafeStorage : error := EText "unsafe inbox storage".

(** A [Retention] is any string; two of them are meaningful. *)
Definition RetentionStandard : bytes := bs "standard".
Definition RetentionPinned : bytes := bs "pinned".

Record Limits := mkLimits {
  li_MaxItemBytes : Z;
  li_MaxInboxBytes : Z;
  li_MaxInboxItems : Z;
  li_MaxInboxes : Z;
  li_MaxServiceBytes : Z;
  li_StandardTTL : Z;
  li_PinnedTTL : Z;
  li_MaxPinnedItemBytes : Z;
}.

Record Inbox := mkInbox { in_ID : bytes; in_CreatedAt : Z; in_Bytes : Z; in_Items : Z }.

(** An [io.Reader]: the data it gives and whether it then fails instead of ending. *)
Record reader := mkReader { rd_data : bytes; rd_fails : bool }.

Record PutItemInput := mkPutItemInput {
  pi_ID : bytes;
  pi_Ciphertext : option reader;
  pi_Size : Z;
  pi_Retention : bytes;
}.

Record ItemHeader := mkItemHeader {
  ih_ID : bytes; ih_Size : Z; ih_CreatedAt : Z; ih_ExpiresAt : Z; ih_Retention : bytes }.
Record Item := mkItem { it_header : ItemHeader; it_Ciphertext : bytes }.

Record diskInbox := mkDiskInbox {
  di_ID : bytes; di_WriteTokenHash : bytes; di_RecoveryTokenHash : bytes; di_CreatedAt : Z }.
Record diskItem := mkDiskItem {
  dt_ID : bytes; dt_Size : Z; dt_CreatedAt : Z; dt_ExpiresAt : Z; dt_Retention : bytes }.

Record inboxState := mkInboxState {
  is_meta : diskInbox;
  is_items : gmap bytes diskItem;
  is_bytes : Z;
}.
Record Store := mkStore {
  st_limits : Limits;
  st_inboxes : gmap bytes inboxState;
  st_totalBytes : Z;
}.
Definition set_inboxes (m : gmap bytes inboxState) (total : Z) (s : Store) : Store :=
  mkStore (st_limits s) m total.

#[global] Instance diskInbox_eq_dec : EqDecision diskInbox.
Proof. solve_decision. Defined.
#[global] Instance diskItem_eq_dec : EqDecision diskItem.
Proof. solve_decision. Defined.

(** [encoding/json] on the two structs: [Marshal], a strict [Decode] that gives the
    value and the rest of the input, and what a second [Decode] finds in the rest:
    [None] is [io.EOF]. *)
Class InboxJson := {
  json_inbox : diskInbox -> result bytes;
  json_item : diskItem -> result bytes;
  decode_inbox : bytes -> result (diskInbox * bytes);
  decode_item : bytes -> result (diskItem * bytes);
  decode_any : bytes -> option (result unit);
}.
Class InboxJsonLaws `{InboxJson} : Prop := {
  decode_json_inbox m b : json_inbox m = Ok b ->
    exists rest, decode_inbox b = Ok (m, rest) /\ decode_any rest = None;
  decode_json_item m b : json_item m = Ok b ->
    exists rest, decode_item b = Ok (m, rest) /\ decode_any rest = None;
}.

(** Programs over the store and the world it runs in. *)
Abbreviation op := (prog (Store * world)).
Definition lift_io {A} (m : io A) : op A := fun '(s, w) => let (w', r) := m w in ((s, w'), r).
Definition get_store : op Store := fun sw => (sw, Ok sw.1).
Definition put_store (s : Store) : op unit := fun sw => ((s, sw.2), Ok tt).

(** ** Limits and names *)
Definition validLimits (l : Limits) : bool :=
  (0 <? li_MaxItemBytes l) &&
  (li_MaxItemBytes l <=? li_MaxInboxBytes l) &&
  (0 <? li_MaxInboxItems l) &&
  (0 <? li_MaxInboxes l) &&
  (li_MaxInboxBytes l <=? li_MaxServiceBytes l) &&
  (0 <? li_StandardTTL l) &&
  (li_StandardTTL l <=? li_PinnedTTL l) &&
  (0 <? li_MaxPinnedItemBytes l) &&
  (li_MaxPinnedItemBytes l <=? li_MaxItemBytes l).

Definition randomID (size : nat) : io bytes :=
  raw ← rand_read size; mret (b64_encode url_alphabet raw).

Definition validPublicID (value : bytes) : bool :=
  if (length value <? 20)%nat || (64 <? length value)%nat ||
     existsb (fun c => bool_decide (c ∈ bs "/\.")) value then false
  else match b64_decode url_alphabet value with
       | Some raw => (16 <=? length raw)%nat && (length raw <=? 48)%nat
       | None => false
       end.

Definition headerFromDisk (item : diskItem) : ItemHeader :=
  mkItemHeader (dt_ID item) (dt_Size item) (dt_CreatedAt item) (dt_ExpiresAt item) (dt_Retention item).

Definition inboxesDir : path := [bs "inboxes"].
Definition inboxDir (id : bytes) : path := [bs "inboxes"; id].
Definition metaPath (id : bytes) : path := [bs "inboxes"; id; bs "meta.json"].
Definition itemsDir (id : bytes) : path := [bs "inboxes"; id; bs "items"].
Definition itemPath (id name : bytes) : path := [bs "inboxes"; id; bs "items"; name].
Definition dot_json : bytes := bs ".json".
Definition dot_blob : bytes := bs ".blob".
Definition dot_tmp : bytes := bs ".tmp".
Definition tmp_name (id : bytes) : bytes := bs "." ++ id ++ dot_tmp.

(** ** Files *)
(** [io.Copy] of at most [size + 1] bytes of the reader: what is written, and whether
    the reader failed before the limit was reached. *)
Definition limited_copy (r : reader) (size : Z) : bytes * bool :=
  let n := Z.to_nat (i64 (size + 1)) in
  (take n (rd_data r), (length (rd_data r) <? n)%nat && rd_fails r).

Definition writeExact (p : path) (r : reader) (size : Z) : io unit :=
  _ ← wrapping "create item temp file" (create_excl p);
  let (data, failed) := limited_copy r size in
  copied ← try (write_file p data);
  synced ← try (sync_file p);
  closed ← try (close_file p);
  _ ← wrapping "write item temp file" (lift copied);
  _ ← guard (negb failed) (wrap "write item temp file" (EText "read error"));
  _ ← guard (Z.of_nat (length data) =? size) ErrInvalid;
  _ ← wrapping "sync item temp file" (lift synced);
  wrapping "close item temp file" (lift closed).

(** [body] is the outcome of [json.Marshal]. *)
Definition writeJSONAtomic (p : path) (body : result bytes) : io unit :=
  body ← lift body;
  tmpID ← randomID 8;
  let tmpPath := parent p ++ [tmp_name tmpID] in
  _ ← create_excl tmpPath;
  written ← try (_ ← write_file tmpPath body;
                 _ ← sync_file tmpPath;
                 _ ← close_file tmpPath;
                 os_Rename tmpPath p);
  _ ← ignore (close_file tmpPath);
  _ ← (if is_ok written then mret tt else ignore (os_Remove tmpPath));
  lift written.

Definition remove_if_exists (p : path) : io unit :=
  removed ← try (os_Remove p);
  match removed with
  | Ok _ => mret tt
  | Err e => guard (errors_Is e ErrNotExist) (wrap "delete inbox item" e)
  end.
Definition removeItemFiles (id itemID : bytes) : io unit :=
  each (fun suffix => remove_if_exists (itemPath id (itemID ++ suffix))) [dot_json; dot_blob].

Definition readJSON {A} (decode : bytes -> result (A * bytes)) (any : bytes -> option (result unit))
    (p : path) : io A :=
  body ← ReadFile p;
  '(target, rest) ← lift (decode body);
  match any rest with
  | None => mret target
  | Some (Ok _) => fail ErrInvalid
  | Some (Err e) => fail e
  end.

(** [filepath.WalkDir] over the whole root. *)
Definition rejectSymlinks : io unit :=
  syscall (fun t => (t, check (bool_decide (map_Forall (fun _ n => n <> NLink) t)) ErrUnsafeStorage)) no_effect.

Section store.
Context `{Crypto} `{InboxJson}.

(** ** Authorisation *)
Definition matchesTokenHash (token expected : bytes) : bool :=
  let digest := Sum256 token in
  (length expected =? 32)%nat && bool_decide (digest = expected).

Definition authorizeWrite (id token : bytes) (s : Store) : result inboxState :=
  _ ← check (validPublicID id) ErrNotFound;
  match st_inboxes s !! id with
  | None => Err ErrNotFound
  | Some state => _ ← check (matchesTokenHash token (di_WriteTokenHash (is_meta state))) ErrUnauthorized; Ok state
  end.

(** ** Operations *)
Definition insert_inbox (id : bytes) (state : inboxState) (s : Store) : Store :=
  set_inboxes (<[id := state]> (st_inboxes s)) (st_totalBytes s) s.

(** One attempt of the loop of [CreateInbox] with a fresh identifier. *)
Definition create_with (writeHash recoveryHash id : bytes) : op Inbox :=
  createdAt ← lift_io time_now;
  let meta := mkDiskInbox id writeHash recoveryHash createdAt in
  _ ← lift_io (wrapping "create inbox items directory" (MkdirAll (itemsDir id)));
  written ← lift_io (try (writeJSONAtomic (metaPath id) (json_inbox meta)));
  match written with
  | Err e => _ ← lift_io (ignore (os_RemoveAll (inboxDir id))); fail (wrap "write inbox metadata" e)
  | Ok _ =>
      s ← get_store;
      _ ← put_store (insert_inbox id (mkInboxState meta ∅ 0) s);
      mret (mkInbox id createdAt 0 0)
  end.

Fixpoint create_attempts (attempts : nat) (writeHash recoveryHash : bytes) : op Inbox :=
  match attempts with
  | O => fail (EText "generate unique inbox id")
  | S attempts =>
      id ← lift_io (wrapping "generate inbox id" (randomID 16));
      s ← get_store;
      match st_inboxes s !! id with
      | Some _ => create_attempts attempts writeHash recoveryHash
      | None => create_with writeHash recoveryHash id
      end
  end.

Definition CreateInbox (writeHash recoveryHash : bytes) : op Inbox :=
  _ ← guard ((length writeHash =? 32)%nat && (length recoveryHash =? 32)%nat) ErrInvalid;
  s ← get_store;
  _ ← guard (Z.of_nat (size (st_inboxes s)) <? li_MaxInboxes (st_limits s)) ErrServiceFull;
  create_attempts 8 writeHash recoveryHash.

(** The order of [List]: newest first, then by descending identifier. *)
Definition newer (a b : ItemHeader) : Prop :=
  if bool_decide (ih_CreatedAt a = ih_CreatedAt b) then bytes_le (ih_ID b) (ih_ID a)
  else ih_CreatedAt b < ih_CreatedAt a.
#[global] Instance newer_dec a b : Decision (newer a b).
Proof. unfold newer. case_bool_decide; apply _. Defined.

(** The range over the map visits the items in some order, which [sort.Slice] makes
    irrelevant ([sorted_headers_unique]). *)
Definition List_ (id token : bytes) : op (list ItemHeader) :=
  s ← get_store;
  state ← lift (authorizeWrite id token s);
  now ← lift_io time_now;
  let items := filter (fun item => now < dt_ExpiresAt item) (map_to_list (is_items state)).*2 in
  mret (merge_sort newer (headerFromDisk <$> items)).

Fixpoint item_attempts (attempts : nat) (state : inboxState) : io bytes :=
  match attempts with
  | O => fail (EText "generate unique item id")
  | S attempts =>
      id ← wrapping "generate item id" (randomID 16);
      match is_items state !! id with
      | None => mret id
      | Some _ => item_attempts attempts state
      end
  end.
Definition uniqueItemID (state : inboxState) : io bytes := item_attempts 8 state.

Definition add_item (id itemID : bytes) (item : diskItem) (s : Store) : Store :=
  match st_inboxes s !! id with
  | Some state =>
      set_inboxes (<[id := mkInboxState (is_meta state) (<[itemID := item]> (is_items state))
                             (i64 (is_bytes state + dt_Size item))]> (st_inboxes s))
        (i64 (st_totalBytes s + dt_Size item)) s
  | None => s
  end.

(** The retention of an item: its time to live, or why it is refused. *)
Definition retention_ttl (l : Limits) (retention : bytes) (size : Z) : result Z :=
  if bool_decide (retention = RetentionStandard) then Ok (li_StandardTTL l)
  else if bool_decide (retention = RetentionPinned) then
    _ ← check (negb (li_MaxPinnedItemBytes l <? size)) ErrTooLarge; Ok (li_PinnedTTL l)
  else Err ErrInvalid.

(** The files of an item: the blob first, then its metadata. *)
Definition store_item_files (id itemID : bytes) (r : reader) (item : diskItem) : io unit :=
  let tmpPath := itemPath id (tmp_name itemID) in
  let blobPath := itemPath id (itemID ++ dot_blob) in
  let metaPath := itemPath id (itemID ++ dot_json) in
  exact ← try (writeExact tmpPath r (dt_Size item));
  match exact with
  | Err e => _ ← ignore (os_Remove tmpPath); fail e
  | Ok _ =>
      published ← try (os_Rename tmpPath blobPath);
      match published with
      | Err e => _ ← ignore (os_Remove tmpPath); fail (wrap "publish inbox item" e)
      | Ok _ =>
          written ← try (writeJSONAtomic metaPath (json_item item));
          match written with
          | Err e => _ ← ignore (os_Remove blobPath); fail (wrap "write item metadata" e)
          | Ok _ => mret tt
          end
      end
  end.

Definition Put (id token : bytes) (input : PutItemInput) : op ItemHeader :=
  match pi_Ciphertext input with
  | None => fail ErrInvalid
  | Some ciphertext =>
      _ ← guard (0 <=? pi_Size input) ErrInvalid;
      s ← get_store;
      state ← lift (authorizeWrite id token s);
      _ ← guard (pi_Size input <=? li_MaxItemBytes (st_limits s)) ErrTooLarge;
      ttl ← lift (retention_ttl (st_limits s) (pi_Retention input) (pi_Size input));
      _ ← guard ((Z.of_nat (size (is_items state)) <? li_MaxInboxItems (st_limits s)) &&
                 (i64 (is_bytes state + pi_Size input) <=? li_MaxInboxBytes (st_limits s))) ErrInboxFull;
      _ ← guard (i64 (st_totalBytes s + pi_Size input) <=? li_MaxServiceBytes (st_limits s)) ErrServiceFull;
      itemID ← (if bool_decide (pi_ID input = []) then lift_io (uniqueItemID state)
                else _ ← guard (validPublicID (pi_ID input)) ErrInvalid;
                     _ ← guard (bool_decide (is_items state !! pi_ID input = None)) ErrInvalid;
                     mret (pi_ID input));
      createdAt ← lift_io time_now;
      let item := mkDiskItem itemID (pi_Size input) createdAt (createdAt + ttl) (pi_Retention input) in
      _ ← lift_io (store_item_files id itemID ciphertext item);
      _ ← put_store (add_item id itemID item s);
      mret (headerFromDisk item)
  end.

Definition Get (id itemID token : bytes) : op Item :=
  s ← get_store;
  state ← lift (authorizeWrite id token s);
  match is_items state !! itemID with
  | None => fail ErrNotFound
  | Some item =>
      now ← lift_io time_now;
      _ ← guard (now <? dt_ExpiresAt item) ErrExpired;
      read ← lift_io (try (ReadFile (itemPath id (itemID ++ dot_blob))));
      match read with
      | Err e => fail (if errors_Is e ErrNotExist then ErrNotFound else wrap "read inbox item" e)
      | Ok body =>
          _ ← guard (Z.of_nat (length body) =? dt_Size item) (EText "inbox item size mismatch");
          mret (mkItem (headerFromDisk item) body)
      end
  end.

Definition drop_item (id itemID : bytes) (s : Store) : Store :=
  match st_inboxes s !! id with
  | Some state =>
      match is_items state !! itemID with
      | Some item =>
          set_inboxes (<[id := mkInboxState (is_meta state) (delete itemID (is_items state))
                                 (i64 (is_bytes state - dt_Size item))]> (st_inboxes s))
            (i64 (st_totalBytes s - dt_Size item)) s
      | None => s
      end
  | None => s
  end.

Definition remove_item (id itemID : bytes) : op unit :=
  _ ← lift_io (removeItemFiles id itemID);
  s ← get_store;
  put_store (drop_item id itemID s).

Definition DeleteItem (id itemID token : bytes) : op unit :=
  s ← get_store;
  state ← lift (authorizeWrite id token s);
  match is_items state !! itemID with
  | None => fail ErrNotFound
  | Some _ => remove_item id itemID
  end.

Definition DeleteInbox (id recoveryToken : bytes) : op unit :=
  s ← get_store;
  match st_inboxes s !! id with
  | None => fail ErrNotFound
  | Some state =>
      _ ← guard (matchesTokenHash recoveryToken (di_RecoveryTokenHash (is_meta state))) ErrUnauthorized;
      _ ← lift_io (wrapping "delete inbox" (os_RemoveAll (inboxDir id)));
      put_store (set_inboxes (delete id (st_inboxes s)) (i64 (st_totalBytes s - is_bytes state)) s)
  end.

(** [order] lists the items in the order in which the two ranges over maps visit them. *)
Definition sweep_item (now : Z) (at_ : bytes * bytes) : op unit :=
  s ← get_store;
  match st_inboxes s !! at_.1 ≫= fun state => is_items state !! at_.2 with
  | Some item => if now <? dt_ExpiresAt item then mret tt else remove_item at_.1 at_.2
  | None => mret tt
  end.
Definition Sweep (order : list (bytes * bytes)) (now : Z) : op unit := each (sweep_item now) order.

(** ** Opening the store *)
(** The item of one metadata file, or what to do about it. *)
Definition load_item (l : Limits) (id name : bytes) : io (option diskItem) :=
  let p := itemPath id name in
  item ← wrapping "read item metadata" (readJSON decode_item decode_any p);
  let itemID := TrimSuffix name dot_json in
  _ ← guard (bool_decide (dt_ID item = itemID) && validPublicID (dt_ID item) &&
             (0 <=? dt_Size item) && (dt_Size item <=? li_MaxItemBytes l))
        (wrap "invalid item metadata" ErrUnsafeStorage);
  now ← time_now;
  if negb (now <? dt_ExpiresAt item) then _ ← removeItemFiles id itemID; mret None
  else
    info ← try (Lstat (itemPath id (itemID ++ dot_blob)));
    match info with
    | Err e => if errors_Is e ErrNotExist then _ ← ignore (os_Remove p); mret None else fail e
    | Ok n =>
        match n with
        | NFile body =>
            _ ← guard (Z.of_nat (length body) =? dt_Size item) (wrap "invalid item blob" ErrUnsafeStorage);
            mret (Some item)
        | _ => fail (wrap "invalid item blob" ErrUnsafeStorage)
        end
    end.

Definition is_tmp (name : bytes) : bool := HasPrefix name (bs ".") && HasSuffix name dot_tmp.

Definition is_dir (n : node) : bool := bool_decide (n = NDir).

(** The first loop over the entries: stale temporary files and metadata. *)
Fixpoint load_items (l : Limits) (id : bytes) (entries : list (bytes * node))
    (items : gmap bytes diskItem) (total : Z) : io (gmap bytes diskItem * Z) :=
  match entries with
  | [] => mret (items, total)
  | (name, n) :: entries =>
      if is_tmp name then
        _ ← os_Remove (itemPath id name); load_items l id entries items total
      else if is_dir n || negb (HasSuffix name dot_json) then load_items l id entries items total
      else
        loaded ← load_item l id name;
        match loaded with
        | None => load_items l id entries items total
        | Some item => load_items l id entries (<[TrimSuffix name dot_json := item]> items)
                         (i64 (total + dt_Size item))
        end
  end.

(** The second loop: blobs without metadata. *)
Definition drop_orphan (id : bytes) (known : gmap bytes diskItem) (entry : bytes * node) : io unit :=
  let (name, n) := entry in
  if is_dir n || negb (HasSuffix name dot_blob) then mret tt
  else if bool_decide (is_Some (known !! TrimSuffix name dot_blob)) then mret tt
  else removed ← try (os_Remove (itemPath id name));
       match removed with
       | Ok _ => mret tt
       | Err e => guard (errors_Is e ErrNotExist) e
       end.

Definition loadInbox (id : bytes) : op unit :=
  s ← get_store;
  let l := st_limits s in
  _ ← guard (Z.of_nat (size (st_inboxes s)) <? li_MaxInboxes l)
        (wrap "stored inbox count exceeds configured limit" ErrUnsafeStorage);
  meta ← lift_io (wrapping "read inbox metadata" (readJSON decode_inbox decode_any (metaPath id)));
  _ ← guard (bool_decide (di_ID meta = id) && (length (di_WriteTokenHash meta) =? 32)%nat &&
             (length (di_RecoveryTokenHash meta) =? 32)%nat) (wrap "invalid inbox metadata" ErrUnsafeStorage);
  _ ← lift_io (MkdirAll (itemsDir id));
  entries ← lift_io (ReadDir (itemsDir id));
  '(items, total) ← lift_io (load_items l id entries ∅ 0);
  _ ← lift_io (each (drop_orphan id items) entries);
  _ ← guard ((Z.of_nat (size items) <=? li_MaxInboxItems l) && (total <=? li_MaxInboxBytes l) &&
             (i64 (st_totalBytes s + total) <=? li_MaxServiceBytes l))
        (wrap "stored quota exceeds configured limits" ErrUnsafeStorage);
  put_store (set_inboxes (<[id := mkInboxState meta items total]> (st_inboxes s))
               (i64 (st_totalBytes s + total)) s).

Definition load_entry (entry : bytes * node) : op unit :=
  if negb (is_dir entry.2) || negb (validPublicID entry.1) then mret tt else loadInbox entry.1.

Definition reconcile : op unit :=
  _ ← lift_io rejectSymlinks;
  entries ← lift_io (wrapping "read inbox directory" (ReadDir inboxesDir));
  each load_entry entries.

(** [blank] tells whether the name of the root directory is blank.  Creating the root
    itself is a call without effect below it. *)
Definition openStore (blank : bool) (limits : Limits) : io Store := fun w =>
  match (_ ← guard (negb blank && validLimits limits) ErrInvalid;
         _ ← wrapping "create inbox root" (MkdirAll []);
         _ ← rejectSymlinks;
         wrapping "create inbox directory" (MkdirAll inboxesDir)) w with
  | (w, Err e) => (w, Err e)
  | (w, Ok _) =>
      match reconcile (mkStore limits ∅ 0, w) with
      | ((_, w), Err e) => (w, Err e)
      | ((s, w), Ok _) => (w, Ok s)
      end
  end.
End store.
