(* ===== verification/InboxProofs.v ===== *)
(** * The message inbox: invariants

    [mem_inv] is the invariant of the state in memory: the byte counts are the sums of
    the sizes of the items and stay within the limits.  [linked] ties memory to the tree:
    what is on disk is what memory says, apart from leftovers that a restart removes.
    Every operation keeps both, whatever faults and crashes it meets, except that
    creating and deleting an inbox need their system calls to succeed for [linked]. *)
From S2P Require Import Prelude Text GoStrings Params Crypto FileTree Inbox.

(** ** Names *)
Lemma tmp_not_json x : HasSuffix (tmp_name x) dot_json = false.
Proof. unfold tmp_name. rewrite app_assoc. by eapply HasSuffix_differs. Qed.
Lemma blob_not_json x : HasSuffix (x ++ dot_blob) dot_json = false.
Proof. by eapply HasSuffix_differs. Qed.
Lemma tmp_ne_blob x k : tmp_name x <> k ++ dot_blob.
Proof. unfold tmp_name. rewrite app_assoc. by eapply suffix_differs. Qed.
Lemma json_ne_blob x k : x ++ dot_json <> k ++ dot_blob.
Proof. by eapply suffix_differs. Qed.
Lemma is_tmp_suffix name : is_tmp name = true -> exists x, name = x ++ dot_tmp.
Proof. unfold is_tmp. intros [_ H]%andb_true_iff. by apply HasSuffix_spec. Qed.
Lemma json_not_tmp x : is_tmp (x ++ dot_json) = false.
Proof. unfold is_tmp. erewrite HasSuffix_differs; [apply andb_false_r|done..]. Qed.
Lemma is_tmp_ne_json name k : is_tmp name = true -> name <> k ++ dot_json.
Proof. intros H ->. by rewrite json_not_tmp in H. Qed.
Lemma is_tmp_ne_blob name k : is_tmp name = true -> name <> k ++ dot_blob.
Proof. intros [x ->]%is_tmp_suffix. by eapply suffix_differs. Qed.
Create HintDb inbox.
#[export] Hint Resolve tmp_not_json blob_not_json tmp_ne_blob json_ne_blob : inbox.

(** Identifiers made from sixteen random bytes are valid. *)
Lemma validPublicID_random raw : length raw = 16%nat -> validPublicID (b64_encode url_alphabet raw) = true.
Proof.
  intros Hl. unfold validPublicID. rewrite b64_decode_encode by apply url_alphabet_ok.
  rewrite length_b64_encode by apply url_alphabet_ok. rewrite Hl. simpl.
  replace (existsb _ _) with false; [done|]. symmetry. apply not_true_iff_false.
  intros (c & Hc & Hd)%existsb_exists. apply bool_decide_eq_true in Hd.
  apply list_elem_of_In in Hc. apply b64_encode_elem in Hc; [|apply url_alphabet_ok].
  assert (Hall : forallb (fun c => negb (bool_decide (c ∈ bs "/\."))) url_alphabet = true) by (vm_compute; reflexivity).
  rewrite forallb_forall in Hall. apply list_elem_of_In, Hall, negb_true_iff, bool_decide_eq_false in Hc. done.
Qed.

(** ** The invariant of memory *)
Definition item_sizes (m : gmap bytes diskItem) : Z := msum dt_Size m.

Record item_ok (l : Limits) (k : bytes) (item : diskItem) : Prop := {
  io_id : dt_ID item = k;
  io_valid : validPublicID k = true;
  io_size : 0 <= dt_Size item <= li_MaxItemBytes l;
}.
Record inbox_ok (l : Limits) (id : bytes) (state : inboxState) : Prop := {
  ib_valid : validPublicID id = true;
  ib_id : di_ID (is_meta state) = id;
  ib_write : length (di_WriteTokenHash (is_meta state)) = 32%nat;
  ib_recovery : length (di_RecoveryTokenHash (is_meta state)) = 32%nat;
  ib_items : map_Forall (item_ok l) (is_items state);
  ib_bytes : is_bytes state = item_sizes (is_items state);
  ib_max : is_bytes state <= li_MaxInboxBytes l;
  ib_count : Z.of_nat (size (is_items state)) <= li_MaxInboxItems l;
}.
Record mem_inv (s : Store) : Prop := {
  mi_limits : validLimits (st_limits s) = true;
  mi_small : li_MaxServiceBytes (st_limits s) <= 2 ^ 62 - 1;
  mi_inboxes : map_Forall (inbox_ok (st_limits s)) (st_inboxes s);
  mi_total : st_totalBytes s = msum is_bytes (st_inboxes s);
  mi_max : st_totalBytes s <= li_MaxServiceBytes (st_limits s);
  mi_count : Z.of_nat (size (st_inboxes s)) <= li_MaxInboxes (st_limits s);
}.

Lemma validLimits_spec l : validLimits l = true ->
  0 < li_MaxItemBytes l <= li_MaxInboxBytes l /\ li_MaxInboxBytes l <= li_MaxServiceBytes l /\
  0 < li_MaxInboxItems l /\ 0 < li_MaxInboxes l /\ 0 < li_StandardTTL l <= li_PinnedTTL l /\
  0 < li_MaxPinnedItemBytes l <= li_MaxItemBytes l.
Proof. unfold validLimits. intros H. bool_prop. lia. Qed.

Lemma item_sizes_nonneg l m : map_Forall (item_ok l) m -> 0 <= item_sizes m.
Proof. intros Hm. apply msum_nonneg. intros k v Hv. destruct (Hm k v Hv). lia. Qed.

Lemma inbox_bytes_nonneg l id state : inbox_ok l id state -> 0 <= is_bytes state.
Proof. intros []. rewrite ib_bytes0. by eapply item_sizes_nonneg. Qed.

Lemma total_nonneg s : mem_inv s -> 0 <= st_totalBytes s.
Proof.
  intros Hs. rewrite (mi_total _ Hs). apply msum_nonneg. intros id state Hst.
  eapply inbox_bytes_nonneg, (mi_inboxes _ Hs _ _ Hst).
Qed.

Lemma inbox_le_total s id state : mem_inv s -> st_inboxes s !! id = Some state -> is_bytes state <= st_totalBytes s.
Proof.
  intros Hs Hst. rewrite (mi_total _ Hs). pose proof (msum_delete is_bytes _ _ _ Hst) as Hd.
  cut (0 <= msum is_bytes (delete id (st_inboxes s))); [lia|]. apply msum_nonneg.
  intros id' state' [_ Hs']%lookup_delete_Some. eapply inbox_bytes_nonneg, (mi_inboxes _ Hs _ _ Hs').
Qed.

Lemma item_le_inbox l id state k item : inbox_ok l id state -> is_items state !! k = Some item ->
  0 <= dt_Size item <= is_bytes state.
Proof.
  intros Hok Hk. rewrite (ib_bytes _ _ _ Hok). destruct (ib_items _ _ _ Hok k item Hk).
  split; [lia|]. pose proof (msum_delete dt_Size _ _ _ Hk) as Hd. unfold item_sizes.
  cut (0 <= msum dt_Size (delete k (is_items state))); [lia|]. apply msum_nonneg.
  intros k' v' [_ Hv]%lookup_delete_Some. destruct (ib_items _ _ _ Hok k' v' Hv). lia.
Qed.

Lemma i64_bounded z : 0 <= z < 2 ^ 63 -> i64 z = z.
Proof. intros Hz. apply i64_small. unfold in_i64, two63. lia. Qed.

(** Sums of sizes below the limits do not overflow. *)
Lemma add_within s a b : mem_inv s -> 0 <= a <= li_MaxServiceBytes (st_limits s) ->
  0 <= b <= li_MaxServiceBytes (st_limits s) -> i64 (a + b) = a + b.
Proof. intros Hs Ha Hb. pose proof (mi_small _ Hs). apply i64_bounded. lia. Qed.

Lemma mem_inv_create s id meta :
  mem_inv s -> st_inboxes s !! id = None -> validPublicID id = true -> di_ID meta = id ->
  length (di_WriteTokenHash meta) = 32%nat -> length (di_RecoveryTokenHash meta) = 32%nat ->
  Z.of_nat (size (st_inboxes s)) < li_MaxInboxes (st_limits s) ->
  mem_inv (insert_inbox id (mkInboxState meta ∅ 0) s).
Proof.
  intros Hs Hid Hv Hm Hw Hr Hc. pose proof (validLimits_spec _ (mi_limits _ Hs)) as Hl.
  destruct Hs. constructor; simpl; try done.
  - apply map_Forall_insert; [done|]. split; [|done]. constructor; simpl; try done; try lia.
    rewrite map_size_empty. lia.
  - rewrite msum_insert by done. simpl. lia.
  - rewrite map_size_insert_None by done. lia.
Qed.

Lemma mem_inv_add s id state k item :
  mem_inv s -> st_inboxes s !! id = Some state -> is_items state !! k = None ->
  item_ok (st_limits s) k item ->
  Z.of_nat (size (is_items state)) < li_MaxInboxItems (st_limits s) ->
  i64 (is_bytes state + dt_Size item) <= li_MaxInboxBytes (st_limits s) ->
  i64 (st_totalBytes s + dt_Size item) <= li_MaxServiceBytes (st_limits s) ->
  mem_inv (add_item id k item s).
Proof.
  intros Hs Hst Hk Hi Hc Hb Ht. pose proof (mi_inboxes _ Hs _ _ Hst) as Hok.
  pose proof (validLimits_spec _ (mi_limits _ Hs)) as Hl. pose proof (inbox_le_total _ _ _ Hs Hst).
  pose proof (inbox_bytes_nonneg _ _ _ Hok). pose proof (mi_max _ Hs). pose proof (io_size _ _ _ Hi).
  rewrite (add_within s) in Hb by (done || lia). rewrite (add_within s) in Ht by (done || lia).
  unfold add_item. rewrite Hst. rewrite !(add_within s) by (done || lia).
  destruct Hs, Hok. constructor; simpl; try done.
  - apply map_Forall_insert_2; [|done]. constructor; simpl; try done.
    + by apply map_Forall_insert_2.
    + unfold item_sizes. rewrite msum_insert by done. unfold item_sizes in *. lia.
    + rewrite map_size_insert_None by done. lia.
  - rewrite (msum_replace _ _ _ state) by done. simpl. lia.
  - rewrite map_size_insert_Some by (by eexists). done.
Qed.

Lemma mem_inv_drop s id k : mem_inv s -> mem_inv (drop_item id k s).
Proof.
  intros Hs. unfold drop_item. destruct (st_inboxes s !! id) as [state|] eqn:Hst; [|done].
  destruct (is_items state !! k) as [item|] eqn:Hk; [|done].
  pose proof (mi_inboxes _ Hs _ _ Hst) as Hok. pose proof (item_le_inbox _ _ _ _ _ Hok Hk).
  pose proof (inbox_le_total _ _ _ Hs Hst). pose proof (mi_max _ Hs). pose proof (mi_small _ Hs).
  pose proof (validLimits_spec _ (mi_limits _ Hs)).
  rewrite !i64_bounded by lia. destruct Hs, Hok. constructor; simpl; try done; try lia.
  - apply map_Forall_insert_2; [|done]. constructor; simpl; try done; try lia.
    + by apply map_Forall_delete.
    + unfold item_sizes. rewrite (msum_delete _ _ _ item) by done. unfold item_sizes in *. lia.
    + rewrite map_size_delete_Some by (by eexists). lia.
  - rewrite (msum_replace _ _ _ state) by done. simpl. lia.
  - rewrite map_size_insert_Some by (by eexists). done.
Qed.

Lemma mem_inv_delete s id state : mem_inv s -> st_inboxes s !! id = Some state ->
  mem_inv (set_inboxes (delete id (st_inboxes s)) (i64 (st_totalBytes s - is_bytes state)) s).
Proof.
  intros Hs Hst. pose proof (mi_inboxes _ Hs _ _ Hst) as Hok.
  pose proof (inbox_bytes_nonneg _ _ _ Hok).
  pose proof (inbox_le_total _ _ _ Hs Hst). pose proof (mi_max _ Hs). pose proof (mi_small _ Hs).
  rewrite !i64_bounded by lia. destruct Hs. constructor; simpl; try done; try lia.
  - by apply map_Forall_delete.
  - rewrite (msum_delete _ _ _ state) by done. lia.
  - rewrite map_size_delete_Some by (by eexists). lia.
Qed.

(** ** Memory and disk *)
Section linked.
Context `{Crypto} `{InboxJson}.

Definition reads_item (n : node) (item : diskItem) : Prop :=
  exists body rest, n = NFile body /\ decode_item body = Ok (item, rest) /\ decode_any rest = None.
Definition reads_inbox (n : node) (meta : diskInbox) : Prop :=
  exists body rest, n = NFile body /\ decode_inbox body = Ok (meta, rest) /\ decode_any rest = None.

(** The blob of an item is there; its metadata file may already be gone, when a removal
    was interrupted, but never says anything else. *)
Record item_files (t : tree) (id k : bytes) (item : diskItem) : Prop := {
  if_blob : exists body, t !! itemPath id (k ++ dot_blob) = Some (NFile body) /\
                         Z.of_nat (length body) = dt_Size item;
  if_json : forall n, t !! itemPath id (k ++ dot_json) = Some n -> reads_item n item;
}.
Record inbox_files (t : tree) (id : bytes) (state : inboxState) : Prop := {
  if_dir : t !! inboxDir id = Some NDir;
  if_items_dir : t !! itemsDir id = Some NDir;
  if_meta : exists n, t !! metaPath id = Some n /\ reads_inbox n (is_meta state);
  if_items : forall k item, is_items state !! k = Some item -> item_files t id k item;
  if_names : forall name n, t !! itemPath id name = Some n ->
    (exists c, n = NFile c) /\
    (HasSuffix name dot_json = true -> is_Some (is_items state !! TrimSuffix name dot_json));
}.
Definition wf_tree (t : tree) : Prop := forall p n x, t !! (p ++ [x]) = Some n -> p = [] \/ t !! p = Some NDir.

Record linked (s : Store) (t : tree) : Prop := {
  lk_wf : wf_tree t;
  lk_links : map_Forall (fun _ n => n <> NLink) t;
  lk_root : t !! inboxesDir = Some NDir;
  lk_inboxes : forall id state, st_inboxes s !! id = Some state -> inbox_files t id state;
  lk_dirs : forall id, t !! inboxDir id = Some NDir -> validPublicID id = true -> is_Some (st_inboxes s !! id);
}.

(** The blobs of the items of [s] are the same in both trees. *)
Definition same_blobs (s : Store) (t t' : tree) : Prop :=
  forall id state k item, st_inboxes s !! id = Some state -> is_items state !! k = Some item ->
    t' !! itemPath id (k ++ dot_blob) = t !! itemPath id (k ++ dot_blob).
Definition same_jsons (s : Store) (t t' : tree) : Prop :=
  forall id state k item, st_inboxes s !! id = Some state -> is_items state !! k = Some item ->
    t' !! itemPath id (k ++ dot_json) = t !! itemPath id (k ++ dot_json).

(** A name of a file that is not part of an item in memory. *)
Definition foreign (state : inboxState) (name : bytes) : Prop :=
  HasSuffix name dot_json = false /\ forall k, name = k ++ dot_blob -> is_items state !! k = None.

Lemma foreign_tmp state x : foreign state (tmp_name x).
Proof. split; [apply tmp_not_json|]. intros k Hk. by apply tmp_ne_blob in Hk. Qed.

Lemma foreign_blob state k : is_items state !! k = None -> foreign state (k ++ dot_blob).
Proof. intros Hk. split; [apply blob_not_json|]. intros k' E. by simplify_list_eq. Qed.

(** Changes of one entry of the items directory. *)
Definition set_node (p : path) (o : option node) (t : tree) : tree :=
  match o with Some n => <[p := n]> t | None => delete p t end.

Lemma lookup_set_node_eq p o t : set_node p o t !! p = o.
Proof. destruct o; [apply lookup_insert_eq|apply lookup_delete_eq]. Qed.
Lemma lookup_set_node_ne p q o t : p <> q -> set_node p o t !! q = t !! q.
Proof. destruct o; intros; [by apply lookup_insert_ne|by apply lookup_delete_ne]. Qed.

Lemma wf_set_file t id name o :
  wf_tree t -> t !! itemsDir id = Some NDir -> (forall n, t !! itemPath id name = Some n -> n <> NDir) ->
  (forall n, o = Some n -> exists c, n = NFile c) -> wf_tree (set_node (itemPath id name) o t).
Proof.
  intros Hwf Hdir Hold Hnew p n x Hp. destruct (decide (itemPath id name = p ++ [x])) as [E|Hne].
  - right. change (itemPath id name) with (itemsDir id ++ [name]) in E. apply app_inj_tail in E as [<- <-].
    by rewrite lookup_set_node_ne.
  - rewrite lookup_set_node_ne in Hp by done. destruct (Hwf p n x Hp) as [->|Hd]; [by left|right].
    rewrite lookup_set_node_ne; [done|]. intros <-. by apply Hold in Hd.
Qed.

Lemma links_set_file t p o : map_Forall (fun _ n => n <> NLink) t ->
  (forall n, o = Some n -> exists c, n = NFile c) -> map_Forall (fun _ n => n <> NLink) (set_node p o t).
Proof.
  intros Ht Hn q n Hq. destruct (decide (p = q)) as [<-|Hne].
  - rewrite lookup_set_node_eq in Hq. by destruct (Hn n Hq) as [? ->].
  - rewrite lookup_set_node_ne in Hq by done. by eapply Ht.
Qed.

(** [inbox_files] after a change of an entry of its own items directory. *)
Lemma inbox_files_set t id state state' name o :
  inbox_files t id state -> is_meta state' = is_meta state ->
  (forall n, o = Some n -> exists c, n = NFile c) ->
  (forall k item, is_items state' !! k = Some item -> item_files (set_node (itemPath id name) o t) id k item) ->
  (forall name' n, name' <> name -> t !! itemPath id name' = Some n -> HasSuffix name' dot_json = true ->
     is_Some (is_items state' !! TrimSuffix name' dot_json)) ->
  (is_Some o -> HasSuffix name dot_json = true -> is_Some (is_items state' !! TrimSuffix name dot_json)) ->
  inbox_files (set_node (itemPath id name) o t) id state'.
Proof.
  intros [] Hm Ho Hi Hj Hjn. constructor.
  - by rewrite lookup_set_node_ne.
  - by rewrite lookup_set_node_ne.
  - rewrite lookup_set_node_ne by done. by rewrite Hm.
  - done.
  - intros name' n Hn. destruct (decide (name' = name)) as [->|Hne].
    + rewrite lookup_set_node_eq in Hn. split; [by apply Ho|]. apply Hjn. by rewrite Hn.
    + rewrite lookup_set_node_ne in Hn by (unfold itemPath; congruence). split; [by eapply if_names0|]. by eapply Hj.
Qed.

Lemma inbox_files_other t id id' state name o : id <> id' ->
  inbox_files t id' state -> inbox_files (set_node (itemPath id name) o t) id' state.
Proof.
  intros Hne []. constructor; try (rewrite lookup_set_node_ne by (unfold inboxDir, itemsDir, metaPath, itemPath; congruence); done).
  - intros k item Hk. destruct (if_items0 k item Hk). constructor.
    + by rewrite lookup_set_node_ne by (unfold itemPath; congruence).
    + by rewrite lookup_set_node_ne by (unfold itemPath; congruence).
  - intros name' n. by rewrite lookup_set_node_ne by (unfold itemPath; congruence); apply if_names0.
Qed.

(** Replacing the state of one inbox together with one entry of its directory. *)
Lemma linked_set s t id state state' name o total :
  linked s t -> st_inboxes s !! id = Some state ->
  (forall n, o = Some n -> exists c, n = NFile c) ->
  inbox_files (set_node (itemPath id name) o t) id state' ->
  linked (set_inboxes (<[id := state']> (st_inboxes s)) total s) (set_node (itemPath id name) o t).
Proof.
  intros [] Hst Ho Hif. pose proof (lk_inboxes0 _ _ Hst) as Hf. constructor; simpl.
  - apply wf_set_file; [done|by apply Hf| |done].
    intros n Hn. destruct (if_names _ _ _ Hf _ _ Hn) as [[c ->] _]. done.
  - by apply links_set_file.
  - by rewrite lookup_set_node_ne.
  - intros id' state'' [[<- <-]|[Hne Hs']]%lookup_insert_Some; [done|].
    apply inbox_files_other; [done|]. by apply lk_inboxes0.
  - intros id' Hd Hv. rewrite lookup_set_node_ne in Hd by done.
    destruct (decide (id = id')) as [<-|Hne]; [by rewrite lookup_insert_eq|].
    rewrite lookup_insert_ne by done. by apply lk_dirs0.
Qed.

Lemma linked_total s t m total : linked (set_inboxes m total s) t <-> linked (mkStore (st_limits s) m 0) t.
Proof. split; intros []; by constructor. Qed.

Lemma insert_same_inboxes s id state : st_inboxes s !! id = Some state ->
  set_inboxes (<[id := state]> (st_inboxes s)) (st_totalBytes s) s = s.
Proof. intros Hst. unfold set_inboxes. rewrite insert_id by done. by destruct s. Qed.

(** Creating, writing and removing foreign files, and removing metadata. *)
Lemma linked_foreign s t id state name o :
  linked s t -> st_inboxes s !! id = Some state ->
  (forall n, o = Some n -> exists c, n = NFile c) ->
  foreign state name -> linked s (set_node (itemPath id name) o t).
Proof.
  intros Hl Hst Ho [Hj Hb]. rewrite <- (insert_same_inboxes s id state Hst).
  apply (linked_set s t id state); [done..|]. pose proof (lk_inboxes _ _ Hl _ _ Hst) as Hf.
  apply (inbox_files_set t id state); [done..| | |].
  - intros k item Hk. destruct (if_items _ _ _ Hf k item Hk). constructor.
    + rewrite lookup_set_node_ne; [done|]. intros E. injection E as E. apply Hb in E. congruence.
    + rewrite lookup_set_node_ne; [done|]. intros E. injection E as ->. by rewrite HasSuffix_app in Hj.
  - intros name' n _ Hn. by apply (if_names _ _ _ Hf _ _ Hn).
  - intros _. by rewrite Hj.
Qed.

Lemma linked_remove_json s t id state k :
  linked s t -> st_inboxes s !! id = Some state -> linked s (delete (itemPath id (k ++ dot_json)) t).
Proof.
  intros Hl Hst. rewrite <- (insert_same_inboxes s id state Hst).
  apply (linked_set s t id state state (k ++ dot_json) None); [done..|].
  pose proof (lk_inboxes _ _ Hl _ _ Hst) as Hf. apply (inbox_files_set t id state); [done..| | |by intros []].
  - intros k' item Hk. destruct (if_items _ _ _ Hf k' item Hk). constructor.
    + rewrite lookup_set_node_ne; [done|]. intros E. injection E as E. by apply json_ne_blob in E.
    + intros n Hn. destruct (decide (k = k')) as [<-|Hne]; [by rewrite lookup_set_node_eq in Hn|].
      rewrite lookup_set_node_ne in Hn by (unfold itemPath; intros E; injection E as E; by simplify_list_eq).
      by apply if_json0.
  - intros name' n _ Hn. by apply (if_names _ _ _ Hf _ _ Hn).
Qed.

(** Publishing the metadata of a stored blob makes the item part of the store. *)
Lemma linked_add s t id state k item n :
  linked s t -> st_inboxes s !! id = Some state -> is_items state !! k = None ->
  (exists body, t !! itemPath id (k ++ dot_blob) = Some (NFile body) /\ Z.of_nat (length body) = dt_Size item) ->
  reads_item n item -> linked (add_item id k item s) (<[itemPath id (k ++ dot_json) := n]> t).
Proof.
  intros Hl Hst Hk Hblob Hn. unfold add_item. rewrite Hst.
  assert (Hno : forall n', Some n = Some n' -> exists c, n' = NFile c) by (destruct Hn as (? & ? & -> & _); intros; naive_solver).
  apply (linked_set s t id state _ (k ++ dot_json) (Some n)); [done..|].
  pose proof (lk_inboxes _ _ Hl _ _ Hst) as Hf. apply (inbox_files_set t id state); [done..| | |]; simpl.
  - intros k' item' [[<- <-]|[Hne Hk']]%lookup_insert_Some.
    + constructor.
      * rewrite lookup_insert_ne; [done|]. intros E. injection E as E. by apply json_ne_blob in E.
      * intros n'. rewrite lookup_insert_eq. by intros [= <-].
    + destruct (if_items _ _ _ Hf k' item' Hk'). constructor.
      * rewrite lookup_insert_ne; [done|]. intros E. injection E as E. by apply json_ne_blob in E.
      * intros n'. rewrite lookup_insert_ne; [apply if_json0|]. intros E. injection E as E. by simplify_list_eq.
  - intros name' n' _ Hn' Hs. destruct (if_names _ _ _ Hf _ _ Hn') as [_ Hj]. specialize (Hj Hs).
    destruct (decide (k = TrimSuffix name' dot_json)) as [->|]; [by rewrite lookup_insert_eq|by rewrite lookup_insert_ne].
  - intros _ _. rewrite TrimSuffix_app. by rewrite lookup_insert_eq.
Qed.

(** Removing the blob of an item whose metadata is gone ends the item. *)
Lemma linked_drop s t id k :
  linked s t -> is_Some (st_inboxes s !! id) -> t !! itemPath id (k ++ dot_json) = None ->
  linked (drop_item id k s) (delete (itemPath id (k ++ dot_blob)) t).
Proof.
  intros Hl [state Hst] Hj. unfold drop_item. rewrite Hst. destruct (is_items state !! k) as [item|] eqn:Hk.
  - apply (linked_set s t id state _ (k ++ dot_blob) None); [done..|].
    pose proof (lk_inboxes _ _ Hl _ _ Hst) as Hf. apply (inbox_files_set t id state); [done..| | |by intros []]; simpl.
    + intros k' item' [Hne Hk']%lookup_delete_Some. destruct (if_items _ _ _ Hf k' item' Hk'). constructor.
      * rewrite lookup_delete_ne; [done|]. intros E. injection E as E. by simplify_list_eq.
      * rewrite lookup_delete_ne; [done|]. intros E. injection E as E. by apply eq_sym, json_ne_blob in E.
    + intros name' n' _ Hn' Hs. destruct (if_names _ _ _ Hf _ _ Hn') as [_ Hx]. specialize (Hx Hs).
      rewrite lookup_delete_ne; [done|]. intros ->. rewrite <- HasSuffix_trim in Hj by done. congruence.
  - apply (linked_foreign s t id state _ None); [done..|]. by apply foreign_blob.
Qed.
End linked.

(** ** The file operations, on every outcome *)
(** A condition that survives writing and removing the file [p]. *)
Definition survives (K : tree -> Prop) (p : path) : Prop :=
  (forall c t, K t -> K (set_node p (Some (NFile c)) t)) /\ (forall t, K t -> K (set_node p None t)).

Section file_operations.
Context (K : tree -> Prop).

Lemma triple_create p (HK : survives K p) :
  triple (on_tree K) (create_excl p) (fun _ => on_tree (fun t => K t /\ t !! p = Some (NFile []))) (on_tree K).
Proof.
  apply triple_syscall; try done. intros t Ht. destruct (t !! p); [done|].
  destruct (t !! parent p) as [[]|]; try done. split; [by apply HK|]. apply lookup_insert_eq.
Qed.

Lemma append_file_eq p c data t : t !! p = Some (NFile c) -> append_file p data t = <[p := NFile (c ++ data)]> t.
Proof. intros E. unfold append_file. by rewrite E. Qed.

Lemma triple_write p data (HK : survives K p) :
  triple (on_tree (fun t => K t /\ t !! p = Some (NFile []))) (write_file p data)
    (fun _ => on_tree (fun t => K t /\ t !! p = Some (NFile data))) (on_tree K).
Proof.
  apply triple_syscall.
  - intros t [Ht Hp]. rewrite (append_file_eq _ _ _ _ Hp). split; [by apply HK|]. apply lookup_insert_eq.
  - intros part _ t [Ht Hp]. rewrite (append_file_eq _ _ _ _ Hp). by apply HK.
  - by intros t [Ht _].
Qed.

Lemma triple_sync (Q : tree -> Prop) p : (forall t, Q t -> K t) ->
  triple (on_tree Q) (sync_file p) (fun _ => on_tree Q) (on_tree K).
Proof. intros HQ. by apply triple_syscall. Qed.

Lemma triple_remove p (HK : survives K p) :
  (forall t, K t -> t !! p <> Some NDir) ->
  triple (on_tree K) (os_Remove p) (fun _ => on_tree (fun t => K t /\ t !! p = None)) (on_tree K).
Proof.
  intros Hd. apply triple_syscall; try done. intros t Ht. specialize (Hd t Ht).
  destruct (t !! p) as [[]|] eqn:E; try done; (split; [by apply (proj2 HK)|apply lookup_delete_eq]).
Qed.

Lemma triple_rename (Q : tree -> Prop) p q n :
  (forall t, K t -> t !! p = Some n -> Q (<[q := n]> (delete p t))) ->
  triple (on_tree (fun t => K t /\ t !! p = Some n)) (os_Rename p q) (fun _ => on_tree Q) (on_tree K).
Proof.
  intros HQ. apply triple_syscall; [|by intros ??? []|by intros ? []].
  intros t [Ht Hp]. rewrite Hp. destruct (t !! q) as [[]|]; destruct (t !! parent q) as [[]|]; try done; by apply HQ.
Qed.

(** [writeJSONAtomic] publishes the whole text or leaves nothing. *)
Lemma triple_writeJSONAtomic (Q : tree -> Prop) p body :
  (forall x, survives K (parent p ++ [tmp_name x])) ->
  (forall x t, K t -> t !! (parent p ++ [tmp_name x]) <> Some NDir) ->
  (forall b t, body = Ok b -> K t -> Q (<[p := NFile b]> t)) ->
  triple (on_tree K) (writeJSONAtomic p body) (fun _ => on_tree Q) (on_tree K).
Proof.
  intros HK Hd HQ. unfold writeJSONAtomic.
  eapply triple_bind; [apply (triple_lift _ _ _ (fun b w => body = Ok b /\ on_tree K w)); auto|].
  intros b. apply triple_pure. intros Hb. unfold randomID.
  eapply triple_bind; [eapply triple_bind; [apply triple_rand|intros raw; by apply (triple_ret _ _ _ (fun _ => on_tree K))]|].
  intros x. eapply triple_bind; [apply triple_create, HK|]. intros _u1. cbv beta.
  eapply triple_bind.
  { apply (triple_try _ _ (on_tree K) _ (fun _ => on_tree Q)).
    eapply triple_bind; [by apply triple_write|]. intros _u2.
    eapply triple_bind; [apply (triple_sync (fun t => K t /\ _)); by intros t []|]. intros _u3.
    eapply triple_bind; [apply (triple_sync (fun t => K t /\ _)); by intros t []|]. intros _u4.
    apply triple_rename. intros t Ht _. apply HQ; [done|]. by apply (proj2 (HK x)). }
  intros [[]|e]; cbv beta iota.
  - eapply triple_bind; [apply triple_ignore, (triple_syscall Q Q (fun _ => Q)); auto|]. intros _u5.
    eapply triple_bind; [by apply (triple_ret _ _ _ (fun _ => on_tree Q))|]. intros _u6 w Hw. exact Hw.
  - eapply triple_bind; [apply triple_ignore, (triple_syscall K K (fun _ => K)); auto|]. intros _u5.
    eapply triple_bind.
    { apply (triple_ignore _ _ _ (on_tree K)). eapply triple_weaken; [apply triple_remove; [apply HK|apply Hd]|done| |done].
      by intros ? w []. }
    intros _u6 w Hw. exact Hw.
Qed.

(** [writeExact] succeeds only with the whole of the reader, of exactly [size] bytes. *)
Definition exact_copy (p : path) (r : reader) (size : Z) (t : tree) : Prop :=
  t !! p = Some (NFile (rd_data r)) /\ Z.of_nat (length (rd_data r)) = size.

Lemma limited_copy_exact r size : 0 <= size < 2 ^ 63 - 1 ->
  Z.of_nat (length (limited_copy r size).1) = size -> (limited_copy r size).1 = rd_data r.
Proof.
  intros Hs. unfold limited_copy. rewrite i64_bounded by lia. simpl. rewrite length_take. intros Hl.
  apply take_ge. lia.
Qed.

Lemma triple_writeExact p r size (HK : survives K p) : 0 <= size < 2 ^ 63 - 1 ->
  triple (on_tree K) (writeExact p r size) (fun _ => on_tree (fun t => K t /\ exact_copy p r size t)) (on_tree K).
Proof.
  intros Hs. unfold writeExact. eapply triple_bind; [by apply triple_wrapping, triple_create|]. intros _u1.
  pose proof (limited_copy_exact r size Hs) as Hex. destruct (limited_copy r size) as [data failed]. simpl in Hex.
  set (W := fun copied : result unit => fun t => K t /\ (is_ok copied = true -> t !! p = Some (NFile data))).
  eapply triple_bind.
  { eapply triple_weaken; [apply (triple_try _ (on_tree K) (on_tree K)), (triple_write p data HK)|done| |done].
    intros copied w Hw. instantiate (1 := fun copied => on_tree (W copied)).
    unfold W, on_tree in *. destruct copied; [naive_solver|]. by split. }
  intros copied. cbv beta.
  assert (Hstill : triple (on_tree (W copied)) (try (sync_file p)) (fun _ => on_tree (W copied)) (on_tree K)).
  { eapply triple_weaken; [apply (triple_try _ (on_tree K) (on_tree (W copied))), (triple_syscall (W copied) (W copied) (fun _ => W copied)); auto|done| |done].
    by intros [] w Hw. }
  eapply triple_bind; [exact Hstill|]. intros synced. eapply triple_bind; [exact Hstill|]. intros closed.
  assert (HWK : forall w, on_tree (W copied) w -> on_tree K w) by (by intros w []).
  eapply triple_bind; [apply triple_wrapping, (triple_lift _ _ _ (fun _ w => is_ok copied = true /\ on_tree (W copied) w)); [|done]|].
  { by intros a w Hw ->. }
  intros _u2. apply triple_pure. intros Hok.
  eapply triple_bind; [by apply (triple_guard _ _ _ _ (fun _ => on_tree (W copied)))|]. intros _u3.
  eapply triple_bind; [apply (triple_guard _ _ _ _ (fun _ w => (Z.of_nat (length data) =? size) = true /\ on_tree (W copied) w)); auto|].
  intros _u4. apply triple_pure. intros Hsz. apply Z.eqb_eq in Hsz. pose proof (Hex Hsz) as Hd.
  eapply triple_bind; [by apply triple_wrapping, (triple_lift _ _ _ (fun _ => on_tree (W copied)))|]. intros _u5.
  apply triple_wrapping, triple_lift; [|done]. intros _u6 w [Hw Hc] _. split; [done|].
  split; [rewrite <- Hd; by apply Hc|by rewrite <- Hd].
Qed.
End file_operations.
