(* ===== verification/InboxOps.v ===== *)
(** * The message inbox: what each operation does

    For every operation, a [triple] that covers all outcomes: on success the exact
    change of the store, on an error that neither the store nor any item changed.  All
    of them keep the invariants of InboxProofs.v. *)
From S2P Require Import Prelude Text GoStrings Params Crypto FileTree Inbox InboxProofs.

Section operations.
Context `{Crypto} `{InboxJsonLaws}.

(** The store is [s] and the tree satisfies [P]. *)
Definition at_ (s : Store) (P : tree -> Prop) (sw : Store * world) : Prop := sw.1 = s /\ P (w_tree sw.2).

Lemma triple_io {A : Type} s (P R : tree -> Prop) (m : io A) (Q : A -> tree -> Prop) :
  triple (on_tree P) m (fun a => on_tree (Q a)) (on_tree R) ->
  triple (at_ s P) (lift_io m) (fun a => at_ s (Q a)) (at_ s R).
Proof.
  intros Hm [s' w] [E HP]. simpl in *. subst s'. specialize (Hm w HP). unfold lift_io.
  destruct (m w) as [w' [a|e]]; by split.
Qed.

Lemma triple_get s P (R : Store * world -> Prop) :
  triple (at_ s P) get_store (fun s' sw => s' = s /\ at_ s P sw) R.
Proof. intros [s' w] [E HP]. simpl in *. by subst. Qed.

(** Nothing happened to the store and its items. *)
Definition untouched (s : Store) (t0 t : tree) : Prop :=
  linked s t /\ same_blobs s t0 t /\ same_jsons s t0 t.

Lemma untouched_refl s t : linked s t -> untouched s t t.
Proof. intros Hl. by split_and!. Qed.

Lemma untouched_foreign s t0 t id state name o :
  untouched s t0 t -> st_inboxes s !! id = Some state ->
  (forall n, o = Some n -> exists c, n = NFile c) -> foreign state name ->
  untouched s t0 (set_node (itemPath id name) o t).
Proof.
  intros (Hl & Hb & Hj) Hst Ho Hf. split_and!; [by eapply linked_foreign| |].
  - intros id' state' k item Hs Hk. rewrite lookup_set_node_ne; [by eapply Hb|].
    intros E. injection E as <- ->. simplify_eq. destruct Hf as [_ Hf]. by rewrite (Hf k eq_refl) in Hk.
  - intros id' state' k item Hs Hk. rewrite lookup_set_node_ne; [by eapply Hj|].
    intros E. injection E as <- ->. destruct Hf as [Hf _]. by rewrite HasSuffix_app in Hf.
Qed.

Lemma untouched_survives s t0 id state name :
  st_inboxes s !! id = Some state -> foreign state name -> survives (untouched s t0) (itemPath id name).
Proof.
  intros Hst Hf. split; intros; (eapply untouched_foreign; [done..| |done]); naive_solver.
Qed.

Lemma linked_not_dir s t id state name : linked s t -> st_inboxes s !! id = Some state ->
  t !! itemPath id name <> Some NDir.
Proof. intros Hl Hst Hn. destruct (if_names _ _ _ (lk_inboxes _ _ Hl _ _ Hst) _ _ Hn) as [[c ?] _]. done. Qed.

(** ** Storing an item *)
(** The item [k] has become part of the store, with its data on disk. *)
Record stored (s : Store) (t0 : tree) (id k : bytes) (item : diskItem) (data : bytes) (t : tree) : Prop := {
  sd_linked : linked (add_item id k item s) t;
  sd_blobs : same_blobs s t0 t;
  sd_jsons : same_jsons s t0 t;
  sd_blob : t !! itemPath id (k ++ dot_blob) = Some (NFile data);
  sd_json : is_Some (t !! itemPath id (k ++ dot_json));
}.

Lemma reads_marshalled item b : json_item item = Ok b -> reads_item (NFile b) item.
Proof. intros (rest & Hd & Ha)%decode_json_item. by exists b, rest. Qed.

Lemma stored_published s t0 t id state k item data b :
  untouched s t0 t -> st_inboxes s !! id = Some state -> is_items state !! k = None ->
  t !! itemPath id (k ++ dot_blob) = Some (NFile data) -> Z.of_nat (length data) = dt_Size item ->
  json_item item = Ok b -> stored s t0 id k item data (<[itemPath id (k ++ dot_json) := NFile b]> t).
Proof.
  intros (Hl & Hb & Hj) Hst Hk Hblob Hsz Hb64.
  constructor; [|intros id' state' k' item' Hs Hk'..| |].
  - eapply linked_add; eauto. by apply reads_marshalled.
  - rewrite lookup_insert_ne; [by eapply Hb|]. intros E. injection E as _ E. by apply json_ne_blob in E.
  - rewrite lookup_insert_ne; [by eapply Hj|]. intros E. injection E as <- E. apply app_inj_2 in E as [<- _]; [|done]. congruence.
  - rewrite lookup_insert_ne; [done|]. intros E. injection E as E. by apply json_ne_blob in E.
  - by rewrite lookup_insert_eq.
Qed.

Lemma triple_store_item_files s t0 id state k r item :
  st_inboxes s !! id = Some state -> is_items state !! k = None -> 0 <= dt_Size item < 2 ^ 63 - 1 ->
  triple (on_tree (untouched s t0)) (store_item_files id k r item)
    (fun _ => on_tree (stored s t0 id k item (rd_data r))) (on_tree (untouched s t0)).
Proof.
  intros Hst Hk Hsz. unfold store_item_files.
  pose proof (untouched_survives s t0 id state _ Hst (foreign_tmp state k)) as Htmp.
  pose proof (untouched_survives s t0 id state _ Hst (foreign_blob state k Hk)) as Hblob.
  set (B := fun t : tree => untouched s t0 t /\
    t !! itemPath id (k ++ dot_blob) = Some (NFile (rd_data r)) /\ Z.of_nat (length (rd_data r)) = dt_Size item).
  assert (Hrm : forall name, survives (untouched s t0) (itemPath id name) ->
    triple (on_tree (untouched s t0)) (ignore (os_Remove (itemPath id name))) (fun _ => on_tree (untouched s t0)) (on_tree (untouched s t0))).
  { intros name Hs. apply triple_ignore. eapply triple_weaken; [apply triple_remove; [done|]|done|by intros ? w []|done].
    intros t (Hl & _) Hn. by eapply linked_not_dir. }
  eapply triple_bind; [by apply (triple_try _ _ (on_tree (untouched s t0))), triple_writeExact|].
  intros [[]|e]; cbv beta iota; [|eapply triple_bind; [by apply Hrm|]; intros _u; by apply triple_fail].
  eapply triple_bind.
  { apply (triple_try _ _ (on_tree (untouched s t0)) _ (fun _ => on_tree B)).
    eapply triple_weaken; [apply (triple_rename (fun t => untouched s t0 t /\ Z.of_nat (length (rd_data r)) = dt_Size item) B)| | |].
    - intros t [Ht Hlen] _. split_and!; [|apply lookup_insert_eq|done]. apply (proj1 Hblob), (proj2 Htmp), Ht.
    - intros w (Hu & Hc & Hl). by split.
    - done.
    - by intros w []. }
  intros [[]|e]; cbv beta iota; [|eapply triple_bind; [by apply Hrm|]; intros _u; by apply triple_fail].
  eapply triple_bind.
  { apply (triple_try _ _ (on_tree (untouched s t0)) _ (fun _ => on_tree (stored s t0 id k item (rd_data r)))).
    eapply triple_weaken; [apply (triple_writeJSONAtomic B (stored s t0 id k item (rd_data r)))|done|done|by intros w []].
    - intros x. change (parent _ ++ [tmp_name x]) with (itemPath id (tmp_name x)).
      pose proof (untouched_survives s t0 id state _ Hst (foreign_tmp state x)) as [Hs1 Hs2].
      split; [intros c t (Hu & Hx)|intros t (Hu & Hx)]; (split; [auto|]); rewrite lookup_set_node_ne;
        try done; intros E; injection E as E; by apply tmp_ne_blob in E.
    - intros x t [(Hl & _) _] Hn. change (parent _ ++ [tmp_name x]) with (itemPath id (tmp_name x)) in Hn.
      by eapply linked_not_dir.
    - intros b t Hb (Hu & Hd & Hlen). by eapply stored_published. }
  intros [[]|e]; cbv beta iota; [by apply triple_ret|].
  eapply triple_bind; [by apply Hrm|]; intros _u; by apply triple_fail.
Qed.

(** [authorizeWrite] succeeds exactly for an inbox with the hash of the token. *)
Lemma authorizeWrite_spec id token s state : authorizeWrite id token s = Ok state <->
  validPublicID id = true /\ st_inboxes s !! id = Some state /\
  Sum256 token = di_WriteTokenHash (is_meta state) /\ length (di_WriteTokenHash (is_meta state)) = 32%nat.
Proof.
  unfold authorizeWrite, matchesTokenHash. split.
  - intros Ha. res_simpl. destruct (st_inboxes s !! id) as [st|]; [|done]. res_simpl. bool_prop.
    match goal with Hl : (_ =? _)%nat = true |- _ => apply Nat.eqb_eq in Hl end. done.
  - intros (-> & -> & Ht & Hl). simpl. rewrite Hl, Ht, bool_decide_true by done. done.
Qed.

(** The item that [Put] stores for [input] at [now] under the name [k]. *)
Definition new_item (k : bytes) (input : PutItemInput) (now ttl : Z) : diskItem :=
  mkDiskItem k (pi_Size input) now (now + ttl) (pi_Retention input).

(** A successful [Put]. *)
Record put_done (s : Store) (t0 : tree) (id token : bytes) (input : PutItemInput) (r : reader)
    (h : ItemHeader) (sw : Store * world) (state : inboxState) (k : bytes) (now ttl : Z) : Prop := {
  pd_auth : authorizeWrite id token s = Ok state;
  pd_fresh : is_items state !! k = None;
  pd_name : k = pi_ID input \/ pi_ID input = [];
  pd_ttl : retention_ttl (st_limits s) (pi_Retention input) (pi_Size input) = Ok ttl;
  pd_header : h = headerFromDisk (new_item k input now ttl);
  pd_store : sw.1 = add_item id k (new_item k input now ttl) s;
  pd_inv : mem_inv sw.1;
  pd_stored : stored s t0 id k (new_item k input now ttl) (rd_data r) (w_tree sw.2);
}.

Lemma triple_item_id s (P : tree -> Prop) state input :
  triple (at_ s P)
    (if bool_decide (pi_ID input = []) then lift_io (uniqueItemID state)
     else _ ← guard (validPublicID (pi_ID input)) ErrInvalid;
          _ ← guard (bool_decide (is_items state !! pi_ID input = None)) ErrInvalid;
          mret (pi_ID input))
    (fun k sw => (validPublicID k = true /\ is_items state !! k = None /\ (k = pi_ID input \/ pi_ID input = [])) /\ at_ s P sw)
    (at_ s P).
Proof.
  case_bool_decide as Hid.
  - unfold uniqueItemID. generalize 8%nat as n. induction n as [|n IH]; [by intros [s' w] HP|].
    intros [s' w] [E HP]. simpl in E. subst s'. unfold lift_io in *. cbn [item_attempts].
    unfold mbind at 1, prog_bind at 1, wrapping, randomID, mbind at 1, prog_bind at 1, rand_read.
    destruct (length (w_rand w) <? 16)%nat eqn:Hr; [done|]. cbn [mret prog_ret fmap].
    set (w1 := mkWorld _ _ _ _ _). set (k := b64_encode _ _).
    unfold mret, prog_ret. cbv beta iota.
    destruct (is_items state !! k) eqn:Hk; [exact (IH (s, w1) (conj eq_refl HP))|].
    unfold mret, prog_ret. split; [|by split]. split_and!; [|done|by right].
    apply validPublicID_random. apply Nat.ltb_ge in Hr. rewrite length_take. lia.
  - eapply triple_bind; [apply (triple_guard _ _ _ _ (fun _ sw => validPublicID (pi_ID input) = true /\ at_ s P sw)); auto|].
    intros _u. apply triple_pure. intros Hv.
    eapply triple_bind; [apply (triple_guard _ _ _ _ (fun _ sw => bool_decide (is_items state !! pi_ID input = None) = true /\ at_ s P sw)); auto|].
    intros _u2. apply triple_pure. intros Hn%bool_decide_eq_true. apply triple_ret. intros sw Hsw. split; [|done]. auto.
Qed.

Lemma retention_ttl_pos l retention size ttl : validLimits l = true ->
  retention_ttl l retention size = Ok ttl -> 0 < ttl.
Proof.
  intros Hl%validLimits_spec. unfold retention_ttl. intros Ht. repeat case_bool_decide; res_simpl; lia.
Qed.

Lemma triple_Put s t0 id token input : mem_inv s -> linked s t0 ->
  triple (at_ s (fun t => t = t0)) (Put id token input)
    (fun h sw => exists r state k now ttl, pi_Ciphertext input = Some r /\
       put_done s t0 id token input r h sw state k now ttl)
    (at_ s (untouched s t0)).
Proof.
  intros Hm Hl. unfold Put. set (R := at_ s (untouched s t0)).
  assert (HR : forall sw, at_ s (fun t => t = t0) sw -> R sw) by (intros sw [E Ht]; split; [done|]; rewrite Ht; by apply untouched_refl).
  destruct (pi_Ciphertext input) as [r|]; [|by apply triple_fail].
  eapply triple_bind; [apply (triple_guard _ _ _ _ (fun _ sw => (0 <=? pi_Size input) = true /\ at_ s (fun t => t = t0) sw)); auto|].
  intros _u1. apply triple_pure. intros Hs0.
  eapply triple_bind; [apply triple_get|]. intros s'. apply triple_pure. intros ->.
  eapply triple_bind; [apply (triple_lift _ _ _ (fun st sw => authorizeWrite id token s = Ok st /\ at_ s (fun t => t = t0) sw)); auto|].
  intros state. apply triple_pure. intros Ha. pose proof Ha as (Hv & Hst & _ & _)%authorizeWrite_spec.
  eapply triple_bind; [apply (triple_guard _ _ _ _ (fun _ sw => (pi_Size input <=? li_MaxItemBytes (st_limits s)) = true /\ at_ s (fun t => t = t0) sw)); auto|].
  intros _u2. apply triple_pure. intros Hs1.
  eapply triple_bind; [apply (triple_lift _ _ _ (fun ttl sw => retention_ttl (st_limits s) (pi_Retention input) (pi_Size input) = Ok ttl /\ at_ s (fun t => t = t0) sw)); auto|].
  intros ttl. apply triple_pure. intros Httl.
  eapply triple_bind; [apply (triple_guard _ _ ((Z.of_nat (size (is_items state)) <? li_MaxInboxItems (st_limits s)) && _)
    _ (fun _ sw => ((Z.of_nat (size (is_items state)) <? li_MaxInboxItems (st_limits s)) &&
     (i64 (is_bytes state + pi_Size input) <=? li_MaxInboxBytes (st_limits s))) = true /\ at_ s (fun t => t = t0) sw)); auto|].
  intros _u3. apply triple_pure. intros Hs2.
  eapply triple_bind; [apply (triple_guard _ _ _ _ (fun _ sw => (i64 (st_totalBytes s + pi_Size input) <=? li_MaxServiceBytes (st_limits s)) = true /\ at_ s (fun t => t = t0) sw)); auto|].
  intros _u4. apply triple_pure. intros Hs3. bool_prop.
  eapply triple_bind; [eapply triple_weaken; [apply (triple_item_id s (fun t => t = t0))|done| |exact HR]|].
  { intros k sw Hk. exact Hk. }
  intros k. apply triple_pure. intros (Hvk & Hk & Hname).
  eapply triple_bind; [apply (triple_io s _ (untouched s t0)); eapply triple_weaken; [apply triple_now|done| |]|].
  { intros now w Hw. exact Hw. }
  { intros w Ht. unfold on_tree in *. rewrite Ht. by apply untouched_refl. }
  intros now. cbv beta. fold (new_item k input now ttl).
  pose proof (validLimits_spec _ (mi_limits _ Hm)) as Hlim. pose proof (mi_small _ Hm) as Hsm.
  eapply triple_bind; [apply (triple_io s); eapply triple_weaken; [apply (triple_store_item_files s t0 id state k r (new_item k input now ttl)); [done..|simpl; lia]| |intros a w Hw; exact Hw|done]|].
  { intros w Ht. unfold on_tree in *. rewrite Ht. by apply untouched_refl. }
  intros _u5. eapply triple_bind.
  { intros sw [E Hsd]. instantiate (1 := fun _ sw => sw.1 = add_item id k (new_item k input now ttl) s /\
      stored s t0 id k (new_item k input now ttl) (rd_data r) (w_tree sw.2)). by split. }
  intros _u6. apply triple_ret. intros sw [E Hsd]. exists r, state, k, now, ttl. split; [done|].
  constructor; try done. rewrite E. apply (mem_inv_add s id state); done.
Qed.

(** ** Removing an item *)
Lemma remove_if_exists_spec p w : w_tree w !! p <> Some NDir ->
  match remove_if_exists p w with
  | (w', Ok _) => w_tree w' = delete p (w_tree w)
  | (w', Err _) => w_tree w' = w_tree w
  end.
Proof.
  intros Hd. unfold remove_if_exists, os_Remove, syscall, try, mbind, prog_bind.
  destruct (w_up w); simpl; [|done].
  destruct (w_plan w) as [|[|crash part removed] plan]; simpl; [| |done].
  all: destruct (w_tree w !! p) as [[]|] eqn:E; simpl; try done; by rewrite delete_id.
Qed.

(** Nothing but the metadata file of the item [k] has changed. *)
Definition untouched_but (s : Store) (id k : bytes) (t0 t : tree) : Prop :=
  linked s t /\ same_blobs s t0 t /\
  forall id' k', (id', k') <> (id, k) -> t !! itemPath id' (k' ++ dot_json) = t0 !! itemPath id' (k' ++ dot_json).

Lemma drop_item_lookup id k s id' : st_inboxes (drop_item id k s) !! id' =
  if bool_decide (id = id') then
    (fun state => match is_items state !! k with
                  | Some item => mkInboxState (is_meta state) (delete k (is_items state)) (i64 (is_bytes state - dt_Size item))
                  | None => state
                  end) <$> st_inboxes s !! id'
  else st_inboxes s !! id'.
Proof.
  unfold drop_item. case_bool_decide as E; [subst id'|].
  - destruct (st_inboxes s !! id) as [state|] eqn:Hst; simpl; [|by rewrite Hst].
    destruct (is_items state !! k); simpl; by rewrite ?lookup_insert_eq, ?Hst.
  - destruct (st_inboxes s !! id) as [state|] eqn:Hst; simpl; [|done].
    destruct (is_items state !! k); simpl; by rewrite ?lookup_insert_ne.
Qed.

(** The items of the store as one map. *)
Definition item_at (s : Store) (id k : bytes) : option diskItem :=
  st_inboxes s !! id ≫= fun state => is_items state !! k.

Lemma item_at_drop id k s id' k' :
  item_at (drop_item id k s) id' k' = if bool_decide ((id, k) = (id', k')) then None else item_at s id' k'.
Proof.
  unfold item_at. rewrite drop_item_lookup. case_bool_decide as E1; [subst id'|].
  - destruct (st_inboxes s !! id) as [state|]; simpl; [|by case_bool_decide].
    destruct (is_items state !! k) eqn:Hk; simpl; case_bool_decide; simplify_eq; try done.
    + apply lookup_delete_eq.
    + apply lookup_delete_ne. congruence.
  - rewrite (bool_decide_false ((id, k) = (id', k'))); [done|congruence].
Qed.

Lemma item_at_add id k item s id' k' : is_Some (st_inboxes s !! id) ->
  item_at (add_item id k item s) id' k' = if bool_decide ((id, k) = (id', k')) then Some item else item_at s id' k'.
Proof.
  intros [state Hst]. unfold item_at, add_item. rewrite Hst. simpl. case_bool_decide as E.
  - injection E as <- <-. rewrite lookup_insert_eq. simpl. apply lookup_insert_eq.
  - destruct (decide (id = id')) as [<-|Hne].
    + rewrite lookup_insert_eq, Hst. simpl. apply lookup_insert_ne. congruence.
    + by rewrite lookup_insert_ne.
Qed.

Lemma item_at_Some s id k item : item_at s id k = Some item <->
  exists state, st_inboxes s !! id = Some state /\ is_items state !! k = Some item.
Proof. unfold item_at. rewrite bind_Some. done. Qed.

Lemma same_blobs_at s t t' : same_blobs s t t' <-> forall id k, is_Some (item_at s id k) ->
  t' !! itemPath id (k ++ dot_blob) = t !! itemPath id (k ++ dot_blob).
Proof.
  unfold same_blobs. split.
  - intros Hs id k [item (state & Hst & Hk)%item_at_Some]. eauto.
  - intros Hs id state k item Hst Hk. apply Hs. exists item. apply item_at_Some. eauto.
Qed.

Lemma same_jsons_at s t t' : same_jsons s t t' <-> forall id k, is_Some (item_at s id k) ->
  t' !! itemPath id (k ++ dot_json) = t !! itemPath id (k ++ dot_json).
Proof.
  unfold same_jsons. split.
  - intros Hs id k [item (state & Hst & Hk)%item_at_Some]. eauto.
  - intros Hs id state k item Hst Hk. apply Hs. exists item. apply item_at_Some. eauto.
Qed.

(** What a removal of [k] leaves, on success and on an error. *)
Definition removed (s : Store) (id k : bytes) (t0 : tree) (sw : Store * world) : Prop :=
  at_ (drop_item id k s) (untouched (drop_item id k s) t0) sw.

Lemma triple_removeItemFiles s t0 id k : is_Some (st_inboxes s !! id) -> linked s t0 ->
  triple (on_tree (fun t => t = t0)) (removeItemFiles id k)
    (fun _ => on_tree (untouched (drop_item id k s) t0)) (on_tree (untouched_but s id k t0)).
Proof.
  intros Hst Hl. unfold removeItemFiles, each.
  assert (Hnd : forall name t, linked s t -> t !! itemPath id name <> Some NDir)
    by (intros; destruct Hst as [state Hst]; by eapply linked_not_dir).
  eapply (triple_bind _ _ _ (fun _ => on_tree (fun t => untouched_but s id k t0 t /\ t !! itemPath id (k ++ dot_json) = None))).
  - intros w Hw. unfold on_tree in *. pose proof (remove_if_exists_spec (itemPath id (k ++ dot_json)) w) as Hr.
    rewrite Hw in Hr. specialize (Hr (Hnd _ _ Hl)).
    destruct (remove_if_exists _ w) as [w' [u|e]]; rewrite Hr; [|by split_and!].
    split; [|apply lookup_delete_eq]. destruct Hst as [state Hst]. split_and!; [by eapply linked_remove_json| |].
    + intros id' state' k' item Hs' Hk'. rewrite lookup_delete_ne; [done|].
      intros E. injection E as _ E. by apply json_ne_blob in E.
    + intros id' k' Hne. rewrite lookup_delete_ne; [done|].
      intros E. injection E as <- E. apply app_inj_2 in E as [<- _]; done.
  - intros u1. cbv beta. eapply (triple_bind _ _ _ (fun _ => on_tree (untouched (drop_item id k s) t0))).
    2: { intros u2. by apply triple_ret. }
    intros w [(Ht & Hb & Hj) Hnone]. unfold on_tree.
    pose proof (remove_if_exists_spec (itemPath id (k ++ dot_blob)) w (Hnd _ _ Ht)) as Hr.
    destruct (remove_if_exists _ w) as [w' [u|e]]; rewrite Hr; [|by split_and!].
    split_and!; [by apply linked_drop| |].
    + apply same_blobs_at. intros id' k' Hi. rewrite item_at_drop in Hi. case_bool_decide as Hne; [by destruct Hi|].
      rewrite lookup_delete_ne by (intros E; injection E as <- E; apply app_inj_2 in E as [<- _]; done).
      by apply (proj1 (same_blobs_at s _ _)).
    + apply same_jsons_at. intros id' k' Hi. rewrite item_at_drop in Hi. case_bool_decide as Hne; [by destruct Hi|].
      rewrite lookup_delete_ne by (intros E; injection E as _ E; by apply eq_sym, json_ne_blob in E).
      apply Hj. congruence.
Qed.

Lemma triple_remove_item s t0 id k : is_Some (st_inboxes s !! id) -> linked s t0 ->
  triple (at_ s (fun t => t = t0)) (remove_item id k)
    (fun _ => removed s id k t0) (at_ s (untouched_but s id k t0)).
Proof.
  intros Hst Hl. unfold remove_item.
  eapply triple_bind; [by apply triple_io, triple_removeItemFiles|]. intros u. cbv beta.
  eapply triple_bind; [apply triple_get|]. intros s'. apply triple_pure. intros ->.
  intros sw [_ Ht]. by split.
Qed.

Lemma triple_DeleteItem s t0 id k token : linked s t0 ->
  triple (at_ s (fun t => t = t0)) (DeleteItem id k token)
    (fun _ sw => (exists state, authorizeWrite id token s = Ok state /\ is_Some (is_items state !! k)) /\
                 removed s id k t0 sw)
    (at_ s (untouched_but s id k t0)).
Proof.
  intros Hl. unfold DeleteItem.
  assert (HR : forall sw, at_ s (fun t => t = t0) sw -> at_ s (untouched_but s id k t0) sw)
    by (intros sw [E Ht]; split; [done|]; rewrite Ht; by split_and!).
  eapply triple_bind; [apply triple_get|]. intros s'. apply triple_pure. intros ->.
  eapply triple_bind; [apply (triple_lift _ _ _ (fun st sw => authorizeWrite id token s = Ok st /\ at_ s (fun t => t = t0) sw)); auto|].
  intros state. apply triple_pure. intros Ha. pose proof Ha as (Hv & Hst & _ & _)%authorizeWrite_spec.
  destruct (is_items state !! k) eqn:Hk; [|by apply triple_fail].
  eapply triple_weaken; [apply (triple_remove_item s t0)|done| |done]; [by eexists|done|].
  intros u sw Hr. split; [|done]. exists state. by rewrite Hk.
Qed.

(** ** Sweeping *)
(** Some expired items of [s] are gone; the rest is as it was. *)
Record swept (now : Z) (s : Store) (t0 : tree) (done_ : list (bytes * bytes)) (sw : Store * world) : Prop := {
  sp_inv : mem_inv sw.1;
  sp_linked : linked sw.1 (w_tree sw.2);
  sp_limits : st_limits sw.1 = st_limits s;
  sp_metas : is_meta <$> st_inboxes sw.1 = is_meta <$> st_inboxes s;
  sp_blobs : same_blobs sw.1 t0 (w_tree sw.2);
  sp_items : forall id k, item_at sw.1 id k = item_at s id k \/
    (item_at sw.1 id k = None /\ exists item, item_at s id k = Some item /\ dt_ExpiresAt item <= now);
  sp_done : forall at_ item, at_ ∈ done_ -> item_at sw.1 at_.1 at_.2 = Some item -> now < dt_ExpiresAt item;
}.

Lemma same_blobs_trans s t1 t2 t3 : same_blobs s t1 t2 -> same_blobs s t2 t3 -> same_blobs s t1 t3.
Proof. intros H12 H23 id state k item Hst Hk. by rewrite (H23 id state k item Hst Hk), (H12 id state k item Hst Hk). Qed.

Lemma same_blobs_drop s id k t t' : same_blobs s t t' -> same_blobs (drop_item id k s) t t'.
Proof.
  rewrite !same_blobs_at. intros Hs id' k' Hi. rewrite item_at_drop in Hi.
  case_bool_decide; [by destruct Hi|]. by apply Hs.
Qed.

Lemma metas_drop id k s : is_meta <$> st_inboxes (drop_item id k s) = is_meta <$> st_inboxes s.
Proof.
  apply map_eq. intros id'. rewrite !lookup_fmap, drop_item_lookup. case_bool_decide; [|done].
  destruct (st_inboxes s !! id') as [state|]; simpl; [|done]. by destruct (is_items state !! k).
Qed.

Lemma limits_drop id k s : st_limits (drop_item id k s) = st_limits s.
Proof. unfold drop_item. by repeat case_match. Qed.

(** Sweeping one item of any swept store. *)
Lemma triple_sweep_item now s t0 done_ at_ :
  triple (swept now s t0 done_) (sweep_item now at_)
    (fun _ => swept now s t0 (done_ ++ [at_])) (swept now s t0 []).
Proof.
  destruct at_ as [id k]. intros [s1 w1] Hsw. unfold sweep_item. simpl.
  unfold mbind at 1, prog_bind at 1, get_store. simpl. fold (item_at s1 id k).
  assert (Hkeep : (forall item, item_at s1 id k = Some item -> now < dt_ExpiresAt item) ->
    swept now s t0 (done_ ++ [(id, k)]) (s1, w1)).
  { intros Hk. destruct Hsw. constructor; try done. intros at_ item [Hin|Hin]%elem_of_app; [eauto|].
    apply list_elem_of_singleton in Hin as ->. apply Hk. }
  destruct (item_at s1 id k) as [item|] eqn:Hi; [|by apply Hkeep].
  destruct (now <? dt_ExpiresAt item) eqn:Hx; bool_prop; [apply Hkeep; intros ? [= <-]; done|].
  assert (Hst : is_Some (st_inboxes s1 !! id)) by (apply item_at_Some in Hi as (st & -> & _); by eexists).
  pose proof (triple_remove_item s1 (w_tree w1) id k Hst (sp_linked _ _ _ _ _ Hsw) (s1, w1)) as Hr.
  specialize (Hr ltac:(by split)). destruct (remove_item id k (s1, w1)) as [[s2 w2] [u|e]].
  - destruct Hr as [E Hr]. simpl in E. subst s2. destruct Hr as (Hl & Hb & _). destruct Hsw. constructor; simpl in *; try done.
    + by apply mem_inv_drop.
    + by rewrite limits_drop.
    + by rewrite metas_drop.
    + eapply same_blobs_trans; [by apply same_blobs_drop|done].
    + intros id' k'. rewrite item_at_drop. case_bool_decide as E; [|done]. injection E as <- <-. right. split; [done|].
      exists item. split; [|done]. destruct (sp_items0 id k) as [<-|[? _]]; congruence.
    + intros at_ item' Hin. rewrite item_at_drop. case_bool_decide as E; [done|]. intros Hx'.
      apply elem_of_app in Hin as [Hin|Hin]; [by eapply sp_done0|].
      by apply list_elem_of_singleton in Hin as ->.
  - destruct Hr as [E (Hl & Hb & _)]. simpl in E. subst s2. destruct Hsw. constructor; simpl in *; try done.
    + by eapply same_blobs_trans.
    + intros at_ item' Hin. by apply not_elem_of_nil in Hin.
Qed.

Lemma swept_weaken now s t0 l sw : swept now s t0 l sw -> swept now s t0 [] sw.
Proof. intros []. constructor; try done. intros at_ item Hin. by apply not_elem_of_nil in Hin. Qed.

Lemma triple_Sweep now s t0 order : mem_inv s -> linked s t0 ->
  triple (at_ s (fun t => t = t0)) (Sweep order now) (fun _ => swept now s t0 order) (swept now s t0 []).
Proof.
  intros Hm Hl. unfold Sweep. eapply triple_weaken with (P' := swept now s t0 []) (Q' := fun _ => swept now s t0 ([] ++ order)); [|..|done].
  - generalize (@nil (bytes * bytes)) at 1 2 as done_. induction order as [|a order IH]; intros done_.
    + rewrite app_nil_r. intros sw Hsw. exact Hsw.
    + cbn [each]. replace (done_ ++ a :: order) with ((done_ ++ [a]) ++ order) by (by rewrite <- app_assoc).
      eapply triple_bind; [apply triple_sweep_item|]. intros u. apply IH.
  - intros [s' w] [E Ht]. simpl in *. subst. constructor; simpl; try done; [by left|].
    intros at_ item Hin. by apply not_elem_of_nil in Hin.
  - intros u sw Hsw. exact Hsw.
Qed.

(** ** Creating and deleting an inbox *)
Lemma below_spec dir p : below dir p = true <-> exists rest, p = dir ++ rest.
Proof.
  unfold below. rewrite andb_true_iff, bool_decide_eq_true, Nat.leb_le. split.
  - intros [_ E]. exists (drop (length dir) p). rewrite <- E at 1. by rewrite take_drop.
  - intros [rest ->]. rewrite length_app, take_app_length. by split; [lia|].
Qed.
Lemma below_app dir rest : below dir (dir ++ rest) = true.
Proof. apply below_spec. eauto. Qed.
Lemma below_itemPath id name : below (inboxDir id) (itemPath id name) = true.
Proof. unfold below. by rewrite bool_decide_true. Qed.

Lemma inbox_files_frame t t' id state :
  (forall p, below (inboxDir id) p = true -> t' !! p = t !! p) -> inbox_files t id state -> inbox_files t' id state.
Proof.
  intros Hf [Hdir Hitems Hmeta Hall Hnames]. assert (Hb : forall rest, t' !! (inboxDir id ++ rest) = t !! (inboxDir id ++ rest)).
  { intros rest. apply Hf. unfold below. by rewrite bool_decide_true. }
  assert (Hi : forall name, t' !! itemPath id name = t !! itemPath id name) by (intros name; apply (Hb [bs "items"; name])).
  assert (Hm : t' !! metaPath id = t !! metaPath id) by apply (Hb [bs "meta.json"]).
  constructor.
  - exact (eq_trans (Hb []) Hdir).
  - exact (eq_trans (Hb [bs "items"]) Hitems).
  - by rewrite Hm.
  - intros k item Hk. destruct (Hall k item Hk). constructor; by rewrite Hi.
  - intros name n. rewrite Hi. apply Hnames.
Qed.

(** [linked], but nothing is known below the directory of [id], which is not in memory. *)
Record linked_except (s : Store) (id : bytes) (t : tree) : Prop := {
  le_wf : wf_tree t;
  le_links : map_Forall (fun _ n => n <> NLink) t;
  le_root : t !! inboxesDir = Some NDir;
  le_new : st_inboxes s !! id = None;
  le_inboxes : forall id' state, st_inboxes s !! id' = Some state -> inbox_files t id' state;
  le_dirs : forall id', id' <> id -> t !! inboxDir id' = Some NDir -> validPublicID id' = true ->
    is_Some (st_inboxes s !! id');
}.

Lemma below_other id id' p : id <> id' -> below (inboxDir id') p = true -> below (inboxDir id) p = false.
Proof.
  unfold below. intros Hne Hb. bool_prop. apply andb_false_iff. right. apply bool_decide_eq_false.
  intros E. apply Hne. cut (inboxDir id = inboxDir id'); [by intros [= ->]|]. by rewrite <- E.
Qed.

(** Removing the directory of an inbox that memory does not know. *)
Definition without_inbox (id : bytes) (t : tree) : tree := filter (fun '(p, _) => below (inboxDir id) p = false) t.

Lemma without_inbox_lookup id t p : without_inbox id t !! p = if below (inboxDir id) p then None else t !! p.
Proof.
  unfold without_inbox. rewrite map_lookup_filter. destruct (t !! p) as [n|]; simpl; [|by destruct (below _ p)].
  destruct (below (inboxDir id) p) eqn:E; [by rewrite option_guard_False by (intros ?; congruence)|by rewrite option_guard_True].
Qed.

Lemma linked_without s id t : linked_except s id t -> linked s (without_inbox id t).
Proof.
  intros []. constructor.
  - intros p n x Hp. rewrite without_inbox_lookup in *. destruct (below (inboxDir id) (p ++ [x])) eqn:E; [done|].
    destruct (le_wf0 p n x Hp) as [->|Hd]; [by left|right]. destruct (below (inboxDir id) p) eqn:E'; [|done].
    apply below_spec in E' as [rest ->]. rewrite <- app_assoc in E. by rewrite below_app in E.
  - intros p n Hp. rewrite without_inbox_lookup in Hp. destruct (below _ p); [done|]. by eapply le_links0.
  - rewrite without_inbox_lookup. done.
  - intros id' state Hst. eapply inbox_files_frame; [|by apply le_inboxes0].
    intros p Hp. rewrite without_inbox_lookup, (below_other id id'); [done| |done]. congruence.
  - intros id' Hd Hv. rewrite without_inbox_lookup in Hd. destruct (below (inboxDir id) (inboxDir id')) eqn:E; [done|].
    apply le_dirs0; [|done..]. intros ->. pose proof (below_app (inboxDir id) []) as E'. rewrite app_nil_r in E'. congruence.
Qed.

Lemma linked_delete s t id total : linked s t -> linked_except (set_inboxes (delete id (st_inboxes s)) total s) id t.
Proof.
  intros [Hwf Hlinks Hroot Hin Hdirs]. constructor; simpl; try done.
  - apply lookup_delete_eq.
  - intros id' state [_ Hs]%lookup_delete_Some. by apply Hin.
  - intros id' Hne Hd Hv. rewrite lookup_delete_ne by done. by apply Hdirs.
Qed.

Lemma without_blobs s id t : st_inboxes s !! id = None ->
  same_blobs s t (without_inbox id t) /\ same_jsons s t (without_inbox id t).
Proof.
  intros Hid. split; intros id' state k item Hst Hk; rewrite without_inbox_lookup;
    (rewrite (below_other id id'); [done|congruence|apply below_itemPath]).
Qed.

Lemma triple_DeleteInbox s t0 id token : mem_inv s -> linked s t0 ->
  triple (at_ s (fun t => t = t0)) (DeleteInbox id token)
    (fun _ sw => exists state, st_inboxes s !! id = Some state /\
       Sum256 token = di_RecoveryTokenHash (is_meta state) /\
       sw.1 = set_inboxes (delete id (st_inboxes s)) (i64 (st_totalBytes s - is_bytes state)) s /\
       mem_inv sw.1 /\ untouched sw.1 t0 (w_tree sw.2))
    (at_ s (fun _ => True)).
Proof.
  intros Hm Hl. unfold DeleteInbox.
  eapply triple_bind; [apply triple_get|]. intros s'. apply triple_pure. intros ->.
  destruct (st_inboxes s !! id) as [state|] eqn:Hst; [|apply triple_fail; by intros sw []].
  eapply triple_bind; [apply (triple_guard _ _ _ _ (fun _ sw => matchesTokenHash token (di_RecoveryTokenHash (is_meta state)) = true /\ at_ s (fun t => t = t0) sw)); auto|].
  { by intros sw []. }
  intros u. apply triple_pure. intros Ht. unfold matchesTokenHash in Ht. bool_prop.
  eapply triple_bind; [apply (triple_io s _ (fun _ => True)), triple_wrapping, (triple_syscall _ _ (fun _ t => t = without_inbox id t0))|].
  - by intros t ->.
  - done.
  - done.
  - intros u1 sw [E Hw]. simpl. exists state. split_and!; try done.
    + by apply mem_inv_delete.
    + rewrite Hw. unfold untouched. pose proof (linked_delete s t0 id (i64 (st_totalBytes s - is_bytes state)) Hl) as Hle.
      split; [by apply linked_without|]. apply without_blobs, Hle.
Qed.

(** A directory for a new inbox, with only files besides its empty items directory. *)
Record fresh_dir (s : Store) (t0 : tree) (id : bytes) (t : tree) : Prop := {
  fd_linked : linked_except s id t;
  fd_dir : t !! inboxDir id = Some NDir;
  fd_items_dir : t !! itemsDir id = Some NDir;
  fd_empty : forall name, t !! itemPath id name = None;
  fd_files : forall name, name <> bs "items" -> t !! (inboxDir id ++ [name]) <> Some NDir;
  fd_others : forall p, below (inboxDir id) p = false -> t !! p = t0 !! p;
}.

Lemma fresh_dir_blobs s t0 id t : st_inboxes s !! id = None -> (forall p, below (inboxDir id) p = false -> t !! p = t0 !! p) ->
  same_blobs s t0 t /\ same_jsons s t0 t.
Proof.
  intros Hid Hf. split; intros id' state k item Hst Hk;
    (apply Hf, (below_other id id'); [congruence|apply below_itemPath]).
Qed.

(** Changing a file directly in the new directory. *)
Lemma linked_except_set s id t name o :
  linked_except s id t -> t !! inboxDir id = Some NDir -> t !! (inboxDir id ++ [name]) <> Some NDir ->
  (forall n, o = Some n -> exists c, n = NFile c) -> linked_except s id (set_node (inboxDir id ++ [name]) o t).
Proof.
  intros [Hwf Hlinks Hroot Hnew Hin Hdirs] Hd Hold Ho. constructor; try done.
  - intros p n x Hp. destruct (decide (inboxDir id ++ [name] = p ++ [x])) as [E|Hne].
    + right. apply app_inj_tail in E as [<- <-]. by rewrite lookup_set_node_ne.
    + rewrite lookup_set_node_ne in Hp by done. destruct (Hwf p n x Hp) as [->|Hpd]; [by left|right].
      rewrite lookup_set_node_ne; [done|]. by intros <-.
  - by apply links_set_file.
  - by rewrite lookup_set_node_ne.
  - intros id' state Hst. eapply inbox_files_frame; [|by apply Hin].
    intros p Hp. apply lookup_set_node_ne. intros <-. apply (below_other id id') in Hp; [|congruence].
    by rewrite below_app in Hp.
  - intros id' Hne Hd'. rewrite lookup_set_node_ne in Hd' by done. by apply Hdirs.
Qed.

Lemma fresh_dir_survives s t0 id name : name <> bs "items" -> survives (fresh_dir s t0 id) (inboxDir id ++ [name]).
Proof.
  intros Hname. assert (Hset : forall o t, (forall n, o = Some n -> exists c, n = NFile c) ->
    fresh_dir s t0 id t -> fresh_dir s t0 id (set_node (inboxDir id ++ [name]) o t)).
  { intros o t Ho [Hl Hd Hi He Hf Hot]. constructor.
    - by apply linked_except_set; auto.
    - by rewrite lookup_set_node_ne.
    - rewrite lookup_set_node_ne; [done|]. intros E. by injection E.
    - intros name'. by rewrite lookup_set_node_ne.
    - intros name' Hne. destruct (decide (name = name')) as [<-|Hnn].
      + rewrite lookup_set_node_eq. destruct o as [n|]; [|done]. by destruct (Ho n eq_refl) as [c ->].
      + rewrite lookup_set_node_ne; [by apply Hf|]. intros [_ E]%app_inj_tail. done.
    - intros p Hp. rewrite lookup_set_node_ne; [by apply Hot|]. intros <-. by rewrite below_app in Hp. }
  split; intros; apply Hset; try done; naive_solver.
Qed.

Lemma mkdir_fresh s t0 id : linked s t0 -> st_inboxes s !! id = None -> validPublicID id = true ->
  match mkdir_all t0 (prefixes (itemsDir id)) with
  | (t, Ok _) => fresh_dir s t0 id t
  | (t, Err _) => True
  end.
Proof.
  intros [Hwf Hlinks Hroot Hin Hdirs] Hid Hv. unfold mkdir_all, prefixes. simpl.
  fold inboxesDir (inboxDir id) (itemsDir id). rewrite Hroot. simpl.
  assert (Hnd : t0 !! inboxDir id <> Some NDir) by (intros Hd; apply Hdirs in Hd as [? ?]; [congruence|done]).
  destruct (t0 !! inboxDir id) as [[]|] eqn:Hd; try done.
  assert (Hno : forall x, t0 !! (inboxDir id ++ [x]) = None).
  { intros x. destruct (t0 !! (inboxDir id ++ [x])) as [n|] eqn:E; [|done].
    destruct (Hwf _ _ _ E) as [?|?]; [done|congruence]. }
  assert (Hno2 : forall x, t0 !! itemPath id x = None).
  { intros x. destruct (t0 !! itemPath id x) as [n|] eqn:E; [|done].
    destruct (Hwf (itemsDir id) n x E) as [?|Hi]; [done|]. pose proof (Hno (bs "items")) as Hn. change (inboxDir id ++ [bs "items"]) with (itemsDir id) in Hn. congruence. }
  cbn [mkdir_prefix]. rewrite lookup_insert_ne by done. change (t0 !! itemsDir id) with (t0 !! (inboxDir id ++ [bs "items"])). rewrite Hno.
  assert (Hot : forall p, below (inboxDir id) p = false ->
    (<[itemsDir id := NDir]> (<[inboxDir id := NDir]> t0) : tree) !! p = t0 !! p).
  { intros p Hp. rewrite !lookup_insert_ne; [done| |]; intros <-; [pose proof (below_app (inboxDir id) []) as Hb|pose proof (below_app (inboxDir id) [bs "items"]) as Hb].
    - rewrite app_nil_r in Hb. congruence.
    - change (inboxDir id ++ [bs "items"]) with (itemsDir id) in Hb. congruence. }
  constructor; [constructor|..]; try done.
  - intros p n x Hp. destruct (decide (p = inboxDir id)) as [->|Hp1]; [right; by rewrite lookup_insert_ne, lookup_insert_eq|].
    destruct (decide (p = inboxesDir)) as [->|Hp2]; [right; by rewrite !lookup_insert_ne|].
    rewrite !lookup_insert_ne in Hp by (intros E; change (itemsDir id) with (inboxDir id ++ [bs "items"]) in E;
      change (inboxDir id) with (inboxesDir ++ [id]) in E; apply app_inj_tail in E as [? _]; done).
    destruct (Hwf p n x Hp) as [->|Hpd]; [by left|right].
    rewrite !lookup_insert_ne; [done|congruence|]. intros <-. pose proof (Hno2 x). unfold itemPath in *. simpl in *. congruence.
  - by do 2 (apply map_Forall_insert_2; [done|]).
  - by rewrite !lookup_insert_ne.
  - intros id' state Hst. eapply inbox_files_frame; [|by apply Hin].
    intros p Hp. apply Hot. apply (below_other id id'); [congruence|done].
  - intros id' Hne Hd'. rewrite !lookup_insert_ne in Hd' by first [done|intros E; injection E as ->; done]. by apply Hdirs.
  - by rewrite lookup_insert_ne, lookup_insert_eq.
  - by rewrite lookup_insert_eq.
  - intros name. rewrite !lookup_insert_ne by done. apply Hno2.
  - intros name Hne. rewrite !lookup_insert_ne; [by rewrite Hno|done|]. intros E. injection E as E. congruence.
Qed.

Lemma reads_marshalled_inbox meta b : json_inbox meta = Ok b -> reads_inbox (NFile b) meta.
Proof. intros (rest & Hd & Ha)%decode_json_inbox. by exists b, rest. Qed.

Lemma linked_create s t0 t id meta b : fresh_dir s t0 id t -> json_inbox meta = Ok b ->
  untouched (insert_inbox id (mkInboxState meta ∅ 0) s) t0 (<[metaPath id := NFile b]> t).
Proof.
  intros Hfd Hb. destruct (fresh_dir_survives s t0 id (bs "meta.json") ltac:(done)) as [Hsv _].
  specialize (Hsv b t Hfd). change (set_node _ _ t) with (<[metaPath id := NFile b]> t) in Hsv.
  destruct Hsv as [Hl Hd Hi He Hf Hot]. destruct Hl as [Hwf Hlinks Hroot Hnew Hin Hdirs].
  destruct (fresh_dir_blobs s t0 id _ Hnew Hot) as [Hbl Hjs]. unfold untouched, insert_inbox, set_inboxes.
  split_and!; [constructor; try done|..]; simpl.
  - intros id' state [[<- <-]|[Hne Hst]]%lookup_insert_Some; [|by apply Hin]. constructor; try done.
    + exists (NFile b). rewrite lookup_insert_eq. split; [done|]. by apply reads_marshalled_inbox.
    + intros name n Hn. by rewrite He in Hn.
  - intros id' Hd' Hv. destruct (decide (id = id')) as [<-|Hne]; [by rewrite lookup_insert_eq|].
    rewrite lookup_insert_ne by done. by apply Hdirs.
  - intros id' state k item Hst Hk. simpl in Hst. apply lookup_insert_Some in Hst as [[<- <-]|[Hne Hst]]; [done|by eapply Hbl].
  - intros id' state k item Hst Hk. simpl in Hst. apply lookup_insert_Some in Hst as [[<- <-]|[Hne Hst]]; [done|by eapply Hjs].
Qed.

(** A successful [CreateInbox]. *)
Definition created (s : Store) (t0 : tree) (wh rh : bytes) (inbox : Inbox) (sw : Store * world) : Prop :=
  exists meta, meta = mkDiskInbox (in_ID inbox) wh rh (in_CreatedAt inbox) /\
    st_inboxes s !! in_ID inbox = None /\
    sw.1 = insert_inbox (in_ID inbox) (mkInboxState meta ∅ 0) s /\ mem_inv sw.1 /\ untouched sw.1 t0 (w_tree sw.2).

Section create.
Context (s : Store) (t0 : tree) (wh rh : bytes).
Context (Hm : mem_inv s) (Hl : linked s t0) (Hwh : length wh = 32%nat) (Hrh : length rh = 32%nat).
Context (Hroom : Z.of_nat (size (st_inboxes s)) < li_MaxInboxes (st_limits s)).

Lemma triple_create_with id : st_inboxes s !! id = None -> validPublicID id = true ->
  triple (at_ s (fun t => t = t0)) (create_with wh rh id) (created s t0 wh rh) (at_ s (fun _ => True)).
Proof.
  intros Hid Hv. unfold create_with.
  eapply triple_bind; [apply (triple_io s (fun t => t = t0) (fun _ => True)); eapply triple_weaken; [apply (triple_now (fun t => t = t0))|done|intros a w Hw; exact Hw|done]|].
  intros now. cbv beta zeta. set (meta := mkDiskInbox id wh rh now).
  eapply triple_bind.
  { apply (triple_io s (fun t => t = t0) (fun _ => True) _ (fun _ => fresh_dir s t0 id)), triple_wrapping, triple_syscall; [|done..].
    intros t ->. pose proof (mkdir_fresh s t0 id Hl Hid Hv) as Hmk.
    by destruct (mkdir_all t0 (prefixes (itemsDir id))) as [t [u|e]]. }
  intros u1. eapply triple_bind.
  { apply (triple_io s (fresh_dir s t0 id) (fun _ => True) _ (fun r t => match r with
      | Ok _ => untouched (insert_inbox id (mkInboxState meta ∅ 0) s) t0 t | Err _ => True end)). eapply triple_weaken;
      [apply (triple_try _ (on_tree (fun _ => True)) (on_tree (fun _ => True)) _
               (fun _ => on_tree (untouched (insert_inbox id (mkInboxState meta ∅ 0) s) t0)))|done|by intros [] w Hw|done].
    eapply triple_weaken; [apply (triple_writeJSONAtomic (fresh_dir s t0 id) (untouched (insert_inbox id (mkInboxState meta ∅ 0) s) t0))|done|done|done].
    - intros x. apply fresh_dir_survives. unfold tmp_name. rewrite app_assoc. by apply (suffix_differs _ (bs "item") dot_tmp (bs "s") Byte.x70 Byte.x73).
    - intros x t Ht. apply (fd_files _ _ _ _ Ht). unfold tmp_name. rewrite app_assoc. by apply (suffix_differs _ (bs "item") dot_tmp (bs "s") Byte.x70 Byte.x73).
    - intros b t Hb Ht. by apply linked_create. }
  intros [[]|e]; cbv beta iota.
  - eapply triple_bind; [apply triple_get|]. intros s'. apply triple_pure. intros ->.
    intros sw [E Ht]. exists meta. simpl. split_and!; try done. by apply mem_inv_create.
  - eapply (triple_bind _ _ _ (fun _ => at_ s (fun _ => True))); [|intros u2; by apply triple_fail].
    intros [s' w] [E _]. unfold lift_io. destruct (ignore _ w) as [w' [u|e']]; by split.
Qed.

Lemma triple_create_attempts n :
  triple (at_ s (fun t => t = t0)) (create_attempts n wh rh) (created s t0 wh rh) (at_ s (fun _ => True)).
Proof.
  induction n as [|n IH]; [by apply triple_fail; intros sw []|]. cbn [create_attempts].
  eapply (triple_bind _ _ _ (fun id sw => validPublicID id = true /\ at_ s (fun t => t = t0) sw)).
  - intros [s' w] [E Ht]. simpl in *. subst s'. unfold lift_io, wrapping, randomID, mbind, prog_bind, rand_read.
    destruct (length (w_rand w) <? 16)%nat eqn:Hr; simpl; [done|]. split; [|done].
    apply validPublicID_random. apply Nat.ltb_ge in Hr. rewrite length_take. lia.
  - intros id. apply triple_pure. intros Hv. eapply triple_bind; [apply triple_get|].
    intros s'. apply triple_pure. intros ->. destruct (st_inboxes s !! id) eqn:Hid; [exact IH|by apply triple_create_with].
Qed.
End create.

Lemma triple_CreateInbox s t0 wh rh : mem_inv s -> linked s t0 ->
  triple (at_ s (fun t => t = t0)) (CreateInbox wh rh) (created s t0 wh rh) (at_ s (fun _ => True)).
Proof.
  intros Hm Hl. unfold CreateInbox.
  assert (HR : forall sw, at_ s (fun t => t = t0) sw -> at_ s (fun _ => True) sw) by (by intros sw []).
  eapply triple_bind; [apply (triple_guard _ _ _ _ (fun _ sw => ((length wh =? 32)%nat && (length rh =? 32)%nat) = true /\ at_ s (fun t => t = t0) sw)); auto|].
  intros u. apply triple_pure. intros Hlen. bool_prop.
  eapply triple_bind; [apply triple_get|]. intros s'. apply triple_pure. intros ->.
  eapply triple_bind; [apply (triple_guard _ _ _ _ (fun _ sw => (Z.of_nat (size (st_inboxes s)) <? li_MaxInboxes (st_limits s)) = true /\ at_ s (fun t => t = t0) sw)); auto|].
  intros u2. apply triple_pure. intros Hc. apply triple_create_attempts; try done; [by apply Nat.eqb_eq..|lia].
Qed.
End operations.
