(* ===== verification/InboxRestart.v ===== *)
(** * The message inbox: restarts

    [openStore] in a world without faults, on the tree that a store left behind at any
    moment, finds the inboxes of that store with their unexpired items. *)
From S2P Require Import Prelude Text GoStrings Params Crypto FileTree Inbox InboxProofs InboxOps.

Section restart.
Context `{Crypto} `{InboxJsonLaws}.
Context (now : Z).

Definition live (item : diskItem) : bool := now <? dt_ExpiresAt item.

(** ** One inbox *)
Section one.
Context (l : Limits) (id : bytes) (state : inboxState).

(** What an entry of the items directory contributes, and what loading it removes. *)
Definition entry_item (e : bytes * node) : option (bytes * diskItem) :=
  if is_tmp e.1 || negb (HasSuffix e.1 dot_json) then None
  else let k := TrimSuffix e.1 dot_json in
       match is_items state !! k with
       | Some item => if live item then Some (k, item) else None
       | None => None
       end.
Definition entry_purge (e : bytes * node) (t : tree) : tree :=
  if is_tmp e.1 then delete (itemPath id e.1) t
  else if negb (HasSuffix e.1 dot_json) then t
  else let k := TrimSuffix e.1 dot_json in
       match is_items state !! k with
       | Some item => if live item then t
                      else delete (itemPath id (k ++ dot_blob)) (delete (itemPath id (k ++ dot_json)) t)
       | None => t
       end.
Definition loaded (entries : list (bytes * node)) (m : gmap bytes diskItem) : gmap bytes diskItem :=
  foldl (fun m e => match entry_item e with Some (k, item) => <[k := item]> m | None => m end) m entries.

(** The loader finds at [t] what it needs for the entry. *)
Definition entry_ok (t : tree) (e : bytes * node) : Prop :=
  (exists c, e.2 = NFile c) /\
  (is_tmp e.1 = true -> exists c, t !! itemPath id e.1 = Some (NFile c)) /\
  (forall k, e.1 = k ++ dot_json -> exists item n, is_items state !! k = Some item /\
     item_ok l k item /\ item_files t id k item /\ t !! itemPath id (k ++ dot_json) = Some n).

Lemma entry_purge_subseteq e t : entry_purge e t ⊆ t.
Proof.
  unfold entry_purge. repeat case_match; try done; try apply delete_subseteq.
  etrans; apply delete_subseteq.
Qed.

(** Entries with other names are not disturbed. *)
Lemma entry_purge_other e t p : entry_purge e t !! p <> t !! p ->
  p = itemPath id e.1 \/ exists k, e.1 = k ++ dot_json /\ p = itemPath id (k ++ dot_blob).
Proof.
  unfold entry_purge. destruct (is_tmp e.1).
  { intros Hne. left. destruct (decide (p = itemPath id e.1)); [done|]. by rewrite lookup_delete_ne in Hne. }
  destruct (HasSuffix e.1 dot_json) eqn:Hs; simpl; [|done]. apply HasSuffix_trim in Hs.
  destruct (is_items state !! _) as [item|]; [|done]. destruct (live item); [done|]. intros Hne.
  destruct (decide (p = itemPath id (TrimSuffix e.1 dot_json ++ dot_blob))) as [->|Hb]; [right; eauto|].
  rewrite lookup_delete_ne in Hne by done. left. rewrite Hs.
  destruct (decide (p = itemPath id (TrimSuffix e.1 dot_json ++ dot_json))) as [|Hj]; [done|].
  by rewrite lookup_delete_ne in Hne.
Qed.

Lemma entry_purge_same e t p : p <> itemPath id e.1 ->
  (forall k, e.1 = k ++ dot_json -> p <> itemPath id (k ++ dot_blob)) -> entry_purge e t !! p = t !! p.
Proof.
  intros Hown Hblob. destruct (decide (entry_purge e t !! p = t !! p)) as [|Hne]; [done|].
  apply entry_purge_other in Hne as [?|(k & Hk & ?)]; [done|]. by apply Hblob in Hk.
Qed.

Lemma entry_ok_purge t e e' : e.1 <> e'.1 -> entry_ok t e' -> entry_ok (entry_purge e t) e'.
Proof.
  intros Hne (Hf & Htmp & Hj). split; [done|]. split.
  - intros Ht. rewrite entry_purge_same; [by apply Htmp|unfold itemPath; congruence|].
    intros k _ E. injection E as E. by apply (is_tmp_ne_blob _ k) in Ht.
  - intros k Hk. destruct (Hj k Hk) as (item & n & Hi & Hok & [Hb Hjs] & Hn). exists item, n.
    assert (Hsame : entry_purge e t !! itemPath id (k ++ dot_json) = t !! itemPath id (k ++ dot_json)).
    { apply entry_purge_same; [unfold itemPath; congruence|]. intros k' _ E. injection E as E. by apply json_ne_blob in E. }
    split_and!; [done|done| |by rewrite Hsame]. constructor; [|by rewrite Hsame].
    destruct Hb as (body & Hb & Hl). exists body. split; [|done].
    destruct (is_tmp e.1) eqn:Htm.
    + rewrite entry_purge_same; [done| |].
      * intros E. injection E as E. by apply (is_tmp_ne_blob _ k) in Htm.
      * intros k' Hk'. by apply (is_tmp_ne_json _ k') in Htm.
    + destruct (HasSuffix e.1 dot_json) eqn:Hs.
      * apply HasSuffix_trim in Hs. rewrite entry_purge_same; [done| |].
        -- rewrite Hs. intros E. injection E as E. by apply eq_sym, json_ne_blob in E.
        -- intros k' Hk' E. injection E as E. apply app_inj_2 in E as [<- _]; [|done]. congruence.
      * unfold entry_purge. by rewrite Htm, Hs.
Qed.

(** *** Loading one entry and all entries *)
Lemma runs_readJSON {A : Type} (decode : bytes -> result (A * bytes)) any p t body rest v :
  t !! p = Some (NFile body) -> decode body = Ok (v, rest) -> any rest = None ->
  runs now t (readJSON decode any p) v t.
Proof.
  intros Hp Hd Ha. unfold readJSON. eapply runs_bind; [apply runs_syscall; by rewrite Hp|].
  eapply runs_bind; [by apply runs_lift|]. cbv beta iota. rewrite Ha. apply runs_ret.
Qed.

Lemma runs_remove_if_exists t p : t !! p <> Some NDir -> runs now t (remove_if_exists p) tt (delete p t).
Proof.
  intros Hp. unfold remove_if_exists. destruct (t !! p) as [[]|] eqn:E; try done.
  1,2: eapply runs_bind; [apply runs_try, runs_syscall; by rewrite E|]; apply runs_ret.
  eapply runs_bind; [apply runs_try_err; by rewrite E|]. rewrite delete_id by done. by apply runs_guard.
Qed.

Lemma runs_load_item t k item n :
  item_ok l k item -> item_files t id k item -> t !! itemPath id (k ++ dot_json) = Some n ->
  runs now t (load_item l id (k ++ dot_json)) (if live item then Some item else None)
    (if live item then t else delete (itemPath id (k ++ dot_blob)) (delete (itemPath id (k ++ dot_json)) t)).
Proof.
  intros [Hid Hv Hsz] [(body & Hb & Hlen) Hj] Hn. destruct (Hj n Hn) as (jb & rest & -> & Hd & Ha).
  unfold load_item. rewrite TrimSuffix_app.
  eapply runs_bind; [by eapply runs_wrapping, runs_readJSON|].
  eapply runs_bind; [apply runs_guard|].
  { rewrite Hid, bool_decide_true, Hv by done. destruct Hsz.
    rewrite (proj2 (Z.leb_le _ _)) by done. by apply Z.leb_le. }
  eapply runs_bind; [apply runs_now|]. fold (live item). destruct (live item); simpl.
  - eapply runs_bind; [apply runs_try, runs_syscall; by rewrite Hb|]. cbv beta iota.
    eapply runs_bind; [apply runs_guard; by apply Z.eqb_eq|]. apply runs_ret.
  - eapply runs_bind; [|apply runs_ret]. unfold removeItemFiles, each.
    eapply runs_bind; [apply runs_remove_if_exists; by rewrite Hn|].
    eapply runs_bind; [apply runs_remove_if_exists|apply runs_ret].
    rewrite lookup_delete_ne by (intros E; injection E as E; by apply json_ne_blob in E). by rewrite Hb.
Qed.

Lemma loaded_cons e entries m : loaded (e :: entries) m =
  loaded entries (match entry_item e with Some (k, item) => <[k := item]> m | None => m end).
Proof. done. Qed.

(** The items loaded so far belong to the inbox, and none of them is still to come. *)
Definition partial (entries : list (bytes * node)) (m : gmap bytes diskItem) : Prop :=
  m ⊆ is_items state /\ forall k, is_Some (m !! k) -> (k ++ dot_json) ∉ entries.*1.

Lemma partial_step e entries m : NoDup (e :: entries).*1 -> partial (e :: entries) m ->
  partial entries (match entry_item e with Some (k, item) => <[k := item]> m | None => m end) /\
  (forall k item, entry_item e = Some (k, item) -> m !! k = None /\ is_items state !! k = Some item /\ e.1 = k ++ dot_json).
Proof.
  rewrite fmap_cons. intros [Hn Hnd]%NoDup_cons [Hsub Hfr].
  assert (Hit : forall k item, entry_item e = Some (k, item) -> m !! k = None /\ is_items state !! k = Some item /\ e.1 = k ++ dot_json).
  { intros k item He. unfold entry_item in He. destruct (is_tmp e.1); [done|].
    destruct (HasSuffix e.1 dot_json) eqn:Hs; [|done]. simpl in He. apply HasSuffix_trim in Hs.
    destruct (is_items state !! _) as [it|] eqn:Hi; [|done]. destruct (live it); [|done]. simplify_eq. split_and!; [|done|done].
    destruct (m !! _) eqn:Hm; [|done]. exfalso. apply (Hfr _ (mk_is_Some _ _ Hm)). rewrite <- Hs. by left. }
  split; [|done]. destruct (entry_item e) as [[k item]|] eqn:He.
  - destruct (Hit k item eq_refl) as (Hm & Hi & Hname). split; [by apply insert_subseteq_l|].
    intros k' [x Hx]. apply lookup_insert_Some in Hx as [[<- _]|[_ Hx]]; [by rewrite <- Hname|].
    intros Hin. apply (Hfr k' (mk_is_Some _ _ Hx)). by right.
  - split; [done|]. intros k' Hx Hin. apply (Hfr k' Hx). by right.
Qed.

Lemma msum_partial m : inbox_ok l id state -> m ⊆ is_items state -> 0 <= msum dt_Size m <= is_bytes state.
Proof.
  intros Hok Hsub. assert (Hnn : forall k v, is_items state !! k = Some v -> 0 <= dt_Size v)
    by (intros k v Hv; destruct (ib_items _ _ _ Hok k v Hv); lia).
  split.
  - apply msum_nonneg. intros k v Hv. eapply Hnn, lookup_weaken; done.
  - rewrite (ib_bytes _ _ _ Hok). apply msum_mono; [|done].
    intros k v Hv. exists v. split; [by eapply lookup_weaken|lia].
Qed.

Lemma runs_load_items entries t m : inbox_ok l id state -> is_bytes state < 2 ^ 63 ->
  NoDup entries.*1 -> Forall (entry_ok t) entries -> partial entries m ->
  runs now t (load_items l id entries m (msum dt_Size m))
    (loaded entries m, msum dt_Size (loaded entries m)) (foldl (fun t e => entry_purge e t) t entries)
  /\ loaded entries m ⊆ is_items state.
Proof.
  intros Hok Hbig. revert t m. induction entries as [|e entries IH]; intros t m Hnd Hall Hp.
  { split; [apply runs_ret|apply Hp]. }
  pose proof (partial_step e entries m Hnd Hp) as [Hp' Hit].
  apply Forall_cons in Hall as [(Hf & Htmp & Hj) Hall]. pose proof Hnd as Hnd0. rewrite fmap_cons in Hnd.
  apply NoDup_cons in Hnd as [Hn Hnd].
  assert (Hall' : Forall (entry_ok (entry_purge e t)) entries).
  { rewrite list.Forall_forall in *. intros e' He'. apply entry_ok_purge; [|by apply Hall].
    intros E. apply Hn. rewrite E. by apply list_elem_of_fmap_2. }
  destruct (IH (entry_purge e t) _ Hnd Hall' Hp') as [Hrun Hsub].
  rewrite loaded_cons. split; [|done]. cbn [foldl].
  destruct e as [name n]. simpl in *. cbn [load_items]. unfold entry_purge, entry_item in *. simpl in *.
  destruct (is_tmp name) eqn:Htm; simpl in *.
  { destruct (Htmp eq_refl) as [c Hc]. eapply runs_bind; [by eapply runs_remove|]. exact Hrun. }
  destruct Hf as [c ->]. unfold is_dir. rewrite bool_decide_false by done. simpl.
  destruct (HasSuffix name dot_json) eqn:Hs; simpl in *; [|exact Hrun].
  pose proof (HasSuffix_trim _ _ Hs) as Hname.
  destruct (Hj _ Hname) as (item & nd & Hi & Hiok & Hif & Hnd'). rewrite Hi in *.
  eapply runs_bind; [rewrite Hname at 1; by eapply runs_load_item|].
  destruct (live item); [|exact Hrun].
  rewrite msum_insert in Hrun by by destruct (Hit _ _ eq_refl).
  rewrite Z.add_comm in Hrun. rewrite i64_bounded; [exact Hrun|].
  destruct Hp' as [Hsub' _]. pose proof (msum_partial _ Hok Hsub') as Hb.
  rewrite msum_insert in Hb by by destruct (Hit _ _ eq_refl). lia.
Qed.

Lemma loaded_lookup entries m k item : m ⊆ is_items state ->
  loaded entries m !! k = Some item <->
    m !! k = Some item \/ (is_items state !! k = Some item /\ live item = true /\ (k ++ dot_json) ∈ entries.*1).
Proof.
  revert m. induction entries as [|e entries IH]; intros m Hsub.
  { simpl. split; [by left|]. intros [?|(_ & _ & Hin)]; [done|]. by apply not_elem_of_nil in Hin. }
  rewrite loaded_cons, fmap_cons. rewrite IH.
  2: { unfold entry_item. repeat case_match; simplify_eq; try done. apply insert_subseteq_l; [|done].
       naive_solver. }
  rewrite elem_of_cons. unfold entry_item. destruct (is_tmp e.1) eqn:Htm; simpl.
  { split; [naive_solver|]. intros [?|(? & ? & [E|?])]; [by left| |by right]. by rewrite <- E, json_not_tmp in Htm. }
  destruct (HasSuffix e.1 dot_json) eqn:Hs; simpl.
  2: { split; [naive_solver|]. intros [?|(? & ? & [E|?])]; [by left| |by right]. by rewrite <- E, HasSuffix_app in Hs. }
  pose proof (HasSuffix_trim _ _ Hs) as Hname. set (k0 := TrimSuffix e.1 dot_json) in *.
  assert (Heq : k ++ dot_json = e.1 <-> k = k0).
  { rewrite Hname. split; [|by intros ->]. intros E. by apply app_inj_2 in E as [? _]. }
  rewrite Heq. destruct (is_items state !! k0) as [it|] eqn:Hi; simpl.
  - destruct (live it) eqn:Hlv.
    + rewrite lookup_insert_Some. split.
      * intros [[[<- <-]|[_ ?]]|?]; [right; naive_solver|by left|right; naive_solver].
      * intros [Hm|(Hk & Hl & [->|Hin])]; [|simplify_eq; naive_solver|naive_solver].
        left. destruct (decide (k0 = k)) as [<-|]; [|by right]. left. split; [done|].
        eapply lookup_weaken in Hm; [|exact Hsub]. congruence.
    + split; [naive_solver|]. intros [?|(Hk & Hl & [->|?])]; [by left|simplify_eq; congruence|naive_solver].
  - split; [naive_solver|]. intros [?|(Hk & Hl & [->|?])]; [by left|congruence|naive_solver].
Qed.

(** The items that survive: unexpired, and not in the middle of a removal. *)
Definition kept (t : tree) : gmap bytes diskItem :=
  filter (fun '(k, item) => live item = true /\ is_Some (t !! itemPath id (k ++ dot_json))) (is_items state).
Definition reload (t : tree) : inboxState := mkInboxState (is_meta state) (kept t) (item_sizes (kept t)).

Lemma kept_lookup t k item : kept t !! k = Some item <->
  is_items state !! k = Some item /\ live item = true /\ is_Some (t !! itemPath id (k ++ dot_json)).
Proof. unfold kept. by rewrite map_lookup_filter_Some. Qed.

Lemma kept_subseteq t : kept t ⊆ is_items state.
Proof. apply map_filter_subseteq. Qed.

Lemma entry_names t name : name ∈ (dir_entries (itemsDir id) t).*1 <-> is_Some (t !! itemPath id name).
Proof.
  rewrite list_elem_of_fmap. change (itemPath id name) with (itemsDir id ++ [name]). split.
  - intros ([n nd] & -> & Hin). apply dir_entries_spec in Hin. by eexists.
  - intros [nd Hn]. exists (name, nd). split; [done|]. by apply dir_entries_spec.
Qed.

Lemma loaded_kept t : loaded (dir_entries (itemsDir id) t) ∅ = kept t.
Proof.
  apply map_eq. intros k. apply option_eq. intros item.
  rewrite loaded_lookup by apply map_empty_subseteq. rewrite kept_lookup, entry_names, lookup_empty. naive_solver.
Qed.

(** The second loop, on the entries that were read before the first. *)
Definition orphan_purge (known : gmap bytes diskItem) (e : bytes * node) (t : tree) : tree :=
  if is_dir e.2 || negb (HasSuffix e.1 dot_blob) || bool_decide (is_Some (known !! TrimSuffix e.1 dot_blob)) then t
  else delete (itemPath id e.1) t.

Lemma orphan_purge_subseteq known e t : orphan_purge known e t ⊆ t.
Proof. unfold orphan_purge. case_match; [done|apply delete_subseteq]. Qed.

Lemma runs_drop_orphan known e t : (forall name, t !! itemPath id name <> Some NDir) ->
  runs now t (drop_orphan id known e) tt (orphan_purge known e t).
Proof.
  intros Hnd. destruct e as [name n]. unfold drop_orphan, orphan_purge. simpl.
  destruct (is_dir n || negb (HasSuffix name dot_blob)); [apply runs_ret|].
  case_bool_decide; simpl; [apply runs_ret|].
  destruct (t !! itemPath id name) as [[]|] eqn:E; try (by apply Hnd in E).
  1,2: eapply runs_bind; [apply runs_try, runs_syscall; by rewrite E|]; apply runs_ret.
  eapply runs_bind; [apply runs_try_err; by rewrite E|]. rewrite delete_id by done. by apply runs_guard.
Qed.

(** The tree after both loops. *)
Definition clean (t : tree) : tree :=
  let entries := dir_entries (itemsDir id) t in
  foldl (fun t' e => orphan_purge (kept t) e t') (foldl (fun t' e => entry_purge e t') t entries) entries.

Lemma clean_subseteq t : clean t ⊆ t.
Proof.
  unfold clean. etrans; [apply foldl_subseteq; intros; apply orphan_purge_subseteq|].
  apply foldl_subseteq; intros; apply entry_purge_subseteq.
Qed.

Lemma clean_kept t p : (forall name, p <> itemPath id name) \/
  (exists k, is_Some (kept t !! k) /\ (p = itemPath id (k ++ dot_json) \/ p = itemPath id (k ++ dot_blob))) ->
  clean t !! p = t !! p.
Proof.
  intros Hp. unfold clean. rewrite foldl_kept; [rewrite foldl_kept; [done|]|].
  - intros [name n] t' _. destruct (decide (entry_purge (name, n) t' !! p = t' !! p)) as [|Hne]; [done|].
    exfalso. destruct Hp as [Hp|(k & [item Hk] & Hp)].
    { apply entry_purge_other in Hne as [->|(k & _ & ->)]; by apply (Hp _ eq_refl). }
    apply kept_lookup in Hk as (Hi & Hlv & _). unfold entry_purge in Hne. simpl in Hne.
    destruct (is_tmp name) eqn:Htm.
    { rewrite lookup_delete_ne in Hne; [done|]. intros <-.
      destruct Hp as [E|E]; injection E as ->; [by rewrite json_not_tmp in Htm|by apply (is_tmp_ne_blob _ k) in Htm]. }
    destruct (HasSuffix name dot_json) eqn:Hs; [|done]. simpl in Hne.
    destruct (is_items state !! TrimSuffix name dot_json) as [it|] eqn:Hit; [|done].
    destruct (live it) eqn:Hlt; [done|]. rewrite !lookup_delete_ne in Hne; try done.
    + intros <-. destruct Hp as [E|E]; injection E as E.
      * apply app_inj_2 in E as [E _]; [|done]. congruence.
      * by apply json_ne_blob in E.
    + intros <-. destruct Hp as [E|E]; injection E as E.
      * by apply eq_sym, json_ne_blob in E.
      * apply app_inj_2 in E as [E _]; [|done]. congruence.
  - intros [name n] t' _. unfold orphan_purge. simpl.
    destruct (is_dir n || negb (HasSuffix name dot_blob) || _) eqn:E; [done|]. bool_prop.
    rewrite lookup_delete_ne; [done|]. intros <-. destruct Hp as [Hp|(k & Hk & [Ep|Ep])]; [by apply (Hp name)| |]; injection Ep as ->.
    + pose proof (HasSuffix_trim (k ++ dot_json) dot_blob ltac:(done)) as Ht. by apply json_ne_blob in Ht.
    + rewrite TrimSuffix_app in *. done.
Qed.

Lemma clean_json t k : inbox_files t id state ->
  is_Some (clean t !! itemPath id (k ++ dot_json)) -> is_Some (kept t !! k).
Proof.
  intros Hf [n Hn]. pose proof Hn as Ht. eapply lookup_weaken in Ht; [|apply clean_subseteq].
  destruct (if_names _ _ _ Hf _ _ Ht) as [_ Hj]. rewrite HasSuffix_app, TrimSuffix_app in Hj. destruct (Hj eq_refl) as [item Hi].
  destruct (live item) eqn:Hlv; [exists item; apply kept_lookup; by rewrite Ht|]. exfalso.
  unfold clean in Hn. eapply lookup_weaken in Hn; [|apply foldl_subseteq; intros; apply orphan_purge_subseteq].
  rewrite (foldl_deleted entry_purge entry_purge_subseteq _ _ _ (k ++ dot_json, n)) in Hn; [done| |].
  - by apply dir_entries_spec.
  - intros t'. unfold entry_purge. simpl. rewrite json_not_tmp, HasSuffix_app. simpl. rewrite TrimSuffix_app, Hi, Hlv.
    rewrite lookup_delete_ne by (intros E; injection E as E; by apply eq_sym, json_ne_blob in E). apply lookup_delete_eq.
Qed.

Lemma clean_files t : inbox_files t id state -> inbox_files (clean t) id (reload t).
Proof.
  intros Hf. pose proof Hf as [Hdir Hitems Hmeta Hall Hnames]. constructor; simpl.
  - by rewrite clean_kept by (by left).
  - by rewrite clean_kept by (by left).
  - by rewrite clean_kept by (by left).
  - intros k item Hk. pose proof Hk as (Hi & _ & _)%kept_lookup. destruct (Hall k item Hi). constructor;
      (rewrite clean_kept; [done|]); right; exists k; eauto.
  - intros name n Hn. split.
    + eapply Hnames, lookup_weaken; [exact Hn|apply clean_subseteq].
    + intros Hs. apply (clean_json t); [done|]. rewrite <- HasSuffix_trim by done. by eexists.
Qed.

Lemma inbox_ok_reload t : inbox_ok l id state -> inbox_ok l id (reload t).
Proof.
  intros Hok. pose proof (msum_partial (kept t) Hok (kept_subseteq t)) as Hb.
  destruct Hok as [Hv Hid Hw Hr Hi Hby Hmx Hct]. constructor; simpl; try done.
  - intros k item Hk. eapply Hi, lookup_weaken; [done|apply kept_subseteq].
  - unfold item_sizes. lia.
  - etrans; [|done]. apply inj_le, size_mono. intros k v Hkv. eexists. eapply lookup_weaken; [done|apply kept_subseteq].
Qed.

Lemma entries_ok t : inbox_ok l id state -> inbox_files t id state ->
  Forall (entry_ok t) (dir_entries (itemsDir id) t).
Proof.
  intros Hok Hf. apply list.Forall_forall. intros [name n] Hin. apply dir_entries_spec in Hin.
  change (itemsDir id ++ [name]) with (itemPath id name) in Hin.
  destruct (if_names _ _ _ Hf _ _ Hin) as [[c ->] Hj]. split_and!; simpl; [by eexists|by eexists|].
  intros k ->. rewrite HasSuffix_app, TrimSuffix_app in Hj. destruct (Hj eq_refl) as [item Hi].
  exists item, (NFile c). split_and!; [done|by apply (ib_items _ _ _ Hok)|by apply (if_items _ _ _ Hf)|done].
Qed.
End one.

(** ** The whole store *)
Definition runs_op {A} (s : Store) (t : tree) (m : op A) (a : A) (s' : Store) (t' : tree) : Prop :=
  forall w, quiet now w -> w_tree w = t -> exists w', m (s, w) = ((s', w'), Ok a) /\ quiet now w' /\ w_tree w' = t'.

Lemma runs_op_io {A : Type} s t (m : io A) a t' : runs now t m a t' -> runs_op s t (lift_io m) a s t'.
Proof.
  intros Hm w Hq Ht. destruct (Hm w Hq Ht) as (w' & E & Hq' & Ht'). exists w'. split; [|done].
  unfold lift_io. by rewrite E.
Qed.
Lemma runs_op_bind {A B : Type} s t (m : op A) (k : A -> op B) a s1 t1 b s2 t2 :
  runs_op s t m a s1 t1 -> runs_op s1 t1 (k a) b s2 t2 -> runs_op s t (m ≫= k) b s2 t2.
Proof.
  intros Hm Hk w Hq Ht. destruct (Hm w Hq Ht) as (w1 & E1 & Hq1 & Ht1).
  destruct (Hk w1 Hq1 Ht1) as (w2 & E2 & Hq2 & Ht2). exists w2. split; [|done].
  unfold mbind, prog_bind. by rewrite E1.
Qed.
Lemma runs_op_get s t : runs_op s t get_store s s t.
Proof. intros w Hq Ht. by exists w. Qed.
Lemma runs_op_put s t s' : runs_op s t (put_store s') tt s' t.
Proof. intros w Hq Ht. by exists w. Qed.
Lemma runs_op_ret {A : Type} s t (a : A) : runs_op s t (mret a) a s t.
Proof. intros w Hq Ht. by exists w. Qed.
Lemma runs_op_guard s t b e : b = true -> runs_op s t (guard b e) tt s t.
Proof. intros -> w Hq Ht. by exists w. Qed.
Lemma runs_op_lift {A : Type} s t r (a : A) : r = Ok a -> runs_op s t (lift r) a s t.
Proof. intros -> w Hq Ht. by exists w. Qed.

Lemma runs_mkdir_existing t id : t !! inboxesDir = Some NDir -> t !! inboxDir id = Some NDir ->
  t !! itemsDir id = Some NDir -> runs now t (MkdirAll (itemsDir id)) tt t.
Proof.
  intros Ha Hb Hc. apply runs_syscall. unfold mkdir_all, prefixes. simpl.
  fold inboxesDir (inboxDir id) (itemsDir id). rewrite Ha. simpl. rewrite Hb. simpl. by rewrite Hc.
Qed.

Lemma runs_loadInbox s t id state :
  t !! inboxesDir = Some NDir -> inbox_ok (st_limits s) id state -> inbox_files t id state ->
  li_MaxServiceBytes (st_limits s) <= 2 ^ 62 - 1 -> validLimits (st_limits s) = true ->
  Z.of_nat (size (st_inboxes s)) < li_MaxInboxes (st_limits s) ->
  0 <= st_totalBytes s <= li_MaxServiceBytes (st_limits s) ->
  st_totalBytes s + item_sizes (kept id state t) <= li_MaxServiceBytes (st_limits s) ->
  runs_op s t (loadInbox id) tt
    (set_inboxes (<[id := reload id state t]> (st_inboxes s)) (st_totalBytes s + item_sizes (kept id state t)) s)
    (clean id state t).
Proof.
  intros Hroot Hok Hf Hsm Hlim Hc Htot Hq. pose proof (validLimits_spec _ Hlim).
  pose proof (msum_partial _ _ _ (kept id state t) Hok (kept_subseteq id state t)) as Hb.
  pose proof (ib_max _ _ _ Hok). unfold item_sizes in *.
  unfold loadInbox. eapply runs_op_bind; [apply runs_op_get|].
  eapply runs_op_bind; [apply runs_op_guard; by apply Z.ltb_lt|].
  destruct (if_meta _ _ _ Hf) as (n & Hn & mb & rest & -> & Hd & Ha).
  eapply runs_op_bind; [by eapply runs_op_io, runs_wrapping, runs_readJSON|].
  eapply runs_op_bind; [apply runs_op_guard|].
  { by rewrite bool_decide_true, (ib_write _ _ _ Hok), (ib_recovery _ _ _ Hok) by apply (ib_id _ _ _ Hok). }
  eapply runs_op_bind; [apply runs_op_io, runs_mkdir_existing; [done|apply Hf|apply Hf]|].
  eapply runs_op_bind; [apply runs_op_io, runs_ReadDir, Hf|].
  destruct (runs_load_items (st_limits s) id state (dir_entries (itemsDir id) t) t ∅) as [Hrun _].
  { done. } { lia. } { apply NoDup_dir_entries. } { by apply entries_ok. }
  { split; [apply map_empty_subseteq|]. intros k Hk. rewrite lookup_empty in Hk. by destruct Hk. }
  rewrite msum_empty, loaded_kept in Hrun. eapply runs_op_bind; [by apply runs_op_io|]. cbv beta iota.
  eapply runs_op_bind.
  { apply runs_op_io. apply (runs_each _ (fun t' => forall name, t' !! itemPath id name <> Some NDir)
      _ (orphan_purge id (kept id state t))).
    - intros e t' _ Hnd. split; [by apply runs_drop_orphan|]. intros name Hn'.
      eapply lookup_weaken in Hn'; [|apply orphan_purge_subseteq]. by apply Hnd in Hn'.
    - intros name Hn'. eapply lookup_weaken in Hn'; [|apply foldl_subseteq; intros; apply entry_purge_subseteq].
      by destruct (if_names _ _ _ Hf _ _ Hn') as [[c ?] _]. }
  fold (clean id state t). eapply runs_op_bind; [apply runs_op_guard|].
  { rewrite i64_bounded by lia. pose proof (ib_count _ _ _ (inbox_ok_reload _ _ _ t Hok)) as Hcnt. simpl in Hcnt.
    rewrite !(proj2 (Z.leb_le _ _)) by (done || lia). done. }
  rewrite i64_bounded by lia. apply runs_op_put.
Qed.

(** The loop of [reconcile] over the entries that are left: [s] is the store before the
    restart with its tree [t], [acc] and [t'] what the restart has built so far. *)
Record reloading (s : Store) (t : tree) (rest : list (bytes * node)) (acc : Store) (t' : tree) : Prop := {
  rl_limits : st_limits acc = st_limits s;
  rl_total : st_totalBytes acc = msum is_bytes (st_inboxes acc);
  rl_acc : forall id x, st_inboxes acc !! id = Some x -> id ∉ rest.*1 /\
    exists state, st_inboxes s !! id = Some state /\ x = reload id state t /\ inbox_files t' id x;
  rl_all : forall id state, st_inboxes s !! id = Some state ->
    is_Some (st_inboxes acc !! id) \/ (id, NDir) ∈ rest;
  rl_sub : t' ⊆ t;
  rl_rest : forall id p, id ∈ rest.*1 -> below (inboxDir id) p = true -> t' !! p = t !! p;
  rl_same : forall p, (forall id name, is_Some (st_inboxes s !! id) -> p <> itemPath id name) -> t' !! p = t !! p;
  rl_kept : forall id x k, st_inboxes acc !! id = Some x -> is_Some (is_items x !! k) ->
    t' !! itemPath id (k ++ dot_blob) = t !! itemPath id (k ++ dot_blob) /\
    t' !! itemPath id (k ++ dot_json) = t !! itemPath id (k ++ dot_json);
}.

Lemma reloading_skip s t e rest acc t' : NoDup (e :: rest).*1 ->
  (forall state, e.2 = NDir -> st_inboxes s !! e.1 <> Some state) ->
  reloading s t (e :: rest) acc t' -> reloading s t rest acc t'.
Proof.
  intros Hnd Hno []. constructor; try done.
  - intros id x Hx. destruct (rl_acc0 id x Hx) as [Hn Hs]. split; [|done]. intros Hin. apply Hn. by right.
  - intros id state Hst. destruct (rl_all0 id state Hst) as [|Hin]; [by left|].
    apply elem_of_cons in Hin as [<-|]; [|by right]. exfalso. by apply (Hno state).
  - intros id p Hin. apply rl_rest0. by right.
Qed.

Lemma reload_bytes_le s id state t : mem_inv s -> st_inboxes s !! id = Some state ->
  0 <= is_bytes (reload id state t) <= is_bytes state.
Proof.
  intros Hm Hst. apply (msum_partial (st_limits s) id); [by apply (mi_inboxes _ Hm)|apply kept_subseteq].
Qed.

(** One more inbox. *)
Lemma reloading_load s t id state rest acc t' : mem_inv s -> linked s t ->
  NoDup ((id, NDir) :: rest).*1 -> st_inboxes s !! id = Some state ->
  reloading s t ((id, NDir) :: rest) acc t' ->
  exists acc' t'', runs_op acc t' (loadInbox id) tt acc' t'' /\ reloading s t rest acc' t''.
Proof.
  intros Hm Hl Hnd Hst Hrl. rewrite fmap_cons in Hnd. apply NoDup_cons in Hnd as [Hnr Hnd]. simpl in Hnr.
  destruct Hrl as [Hlim Htot Hacc Hall Hsub Hrest Hsame Hkept].
  assert (Hnew : st_inboxes acc !! id = None).
  { destruct (st_inboxes acc !! id) as [x|] eqn:E; [|done]. destruct (Hacc id x E) as [Hn _]. exfalso. apply Hn. by left. }
  assert (Hown : forall p, below (inboxDir id) p = true -> t' !! p = t !! p) by (intros p; apply Hrest; by left).
  assert (Hkeq : kept id state t' = kept id state t).
  { unfold kept. apply map_filter_ext. intros k item _. by rewrite Hown by apply below_itemPath. }
  assert (Hrq : reload id state t' = reload id state t) by (unfold reload; by rewrite Hkeq).
  pose proof (lk_inboxes _ _ Hl _ _ Hst) as Hf.
  assert (Hf' : inbox_files t' id state) by (eapply inbox_files_frame; [exact Hown|done]).
  assert (Hsum : msum is_bytes (<[id := reload id state t]> (st_inboxes acc)) <= st_totalBytes s).
  { rewrite (mi_total _ Hm). apply msum_mono.
    - intros k v [[<- <-]|[_ Hv]]%lookup_insert_Some.
      + exists state. split; [done|]. by eapply reload_bytes_le.
      + destruct (Hacc k v Hv) as (_ & st & Hst' & -> & _). exists st. split; [done|]. by eapply reload_bytes_le.
    - intros k v Hv. eapply inbox_bytes_nonneg, (mi_inboxes _ Hm _ _ Hv). }
  rewrite msum_insert, <- Htot in Hsum by done. simpl in Hsum.
  assert (Hnn : 0 <= st_totalBytes acc).
  { rewrite Htot. apply msum_nonneg. intros k v Hv. destruct (Hacc k v Hv) as (_ & st & Hst' & -> & _). by eapply reload_bytes_le. }
  pose proof (reload_bytes_le s id state t Hm Hst) as [Hrb _]. simpl in Hrb. pose proof (mi_max _ Hm).
  eexists _, _. split.
  - apply (runs_loadInbox acc t' id state).
    + rewrite Hsame by done. apply Hl.
    + rewrite Hlim. by apply (mi_inboxes _ Hm).
    + done.
    + rewrite Hlim. apply Hm.
    + rewrite Hlim. apply Hm.
    + rewrite Hlim. eapply Z.lt_le_trans; [|apply (mi_count _ Hm)]. apply inj_lt, (size_mono_lt _ _ id); [|done|by eexists].
      intros k v Hv. destruct (Hacc k v Hv) as (_ & st & Hst' & _). by eexists.
    + rewrite Hlim. lia.
    + rewrite Hlim, Hkeq. lia.
  - rewrite Hrq, Hkeq. constructor; simpl.
    + done.
    + rewrite msum_insert by done. simpl. lia.
    + intros id' x [[<- <-]|[Hne Hx]]%lookup_insert_Some.
      * split; [done|]. exists state. split_and!; [done|done|]. rewrite <- Hrq. by apply clean_files.
      * destruct (Hacc id' x Hx) as (Hn & st & Hst' & -> & Hfx). split; [intros Hin; apply Hn; by right|].
        exists st. split_and!; [done|done|]. eapply inbox_files_frame; [|exact Hfx].
        intros p Hp. apply clean_kept. left. intros name ->. apply (below_other id id') in Hp; [|done].
        by rewrite below_itemPath in Hp.
    + intros id' st Hst'. destruct (Hall id' st Hst') as [Hs|Hin].
      * left. destruct (decide (id = id')) as [<-|]; [by rewrite lookup_insert_eq|by rewrite lookup_insert_ne].
      * apply elem_of_cons in Hin as [[= ->]|Hin]; [left; by rewrite lookup_insert_eq|by right].
    + etrans; [apply clean_subseteq|done].
    + intros id' p Hin Hp. rewrite clean_kept; [apply (Hrest id'); [by right|done]|]. left. intros name ->.
      apply (below_other id id') in Hp; [|by intros ->]. by rewrite below_itemPath in Hp.
    + intros p Hp. rewrite clean_kept by (left; intros name; apply (Hp id name); by eexists). by apply Hsame.
    + intros id' x k [[<- <-]|[Hne Hx]]%lookup_insert_Some Hk.
      * simpl in Hk. rewrite <- Hkeq in Hk. rewrite !clean_kept by (right; eauto). split; apply Hown, below_itemPath.
      * rewrite !clean_kept by (left; intros name E; by injection E). by apply (Hkept id' x).
Qed.

Lemma runs_load_entries s t rest acc t' : mem_inv s -> linked s t -> NoDup rest.*1 ->
  (forall id n, (id, n) ∈ rest -> t !! inboxDir id = Some n) -> reloading s t rest acc t' ->
  exists acc' t'', runs_op acc t' (each load_entry rest) tt acc' t'' /\ reloading s t [] acc' t''.
Proof.
  intros Hm Hl. revert acc t'. induction rest as [|[id n] rest IH]; intros acc t' Hnd Hin Hrl.
  { exists acc, t'. split; [apply runs_op_ret|done]. }
  assert (Hnd' : NoDup rest.*1) by (rewrite fmap_cons in Hnd; by apply NoDup_cons in Hnd as [_ ?]).
  assert (Hin' : forall id n, (id, n) ∈ rest -> t !! inboxDir id = Some n) by (intros; apply Hin; by right).
  pose proof (Hin id n ltac:(by left)) as Hn. cbn [each].
  assert (Hle : load_entry (id, n) = if negb (is_dir n) || negb (validPublicID id) then mret tt else loadInbox id) by done.
  rewrite Hle. clear Hle.
  assert (Hskip : (forall state, n = NDir -> st_inboxes s !! id <> Some state) ->
    exists acc' t'', runs_op acc t' (_ ← mret (M := op) tt; each load_entry rest) tt acc' t'' /\ reloading s t [] acc' t'').
  { intros Hno. destruct (IH acc t' Hnd' Hin' (reloading_skip _ _ (id, n) _ _ _ Hnd Hno Hrl)) as (acc' & t'' & Hr & Hx).
    exists acc', t''. split; [|done]. eapply runs_op_bind; [apply runs_op_ret|done]. }
  unfold is_dir. case_bool_decide as Hd; simpl; [|apply Hskip; naive_solver]. subst n.
  destruct (validPublicID id) eqn:Hv; simpl.
  - destruct (lk_dirs _ _ Hl id Hn Hv) as [state Hst].
    destruct (reloading_load s t id state rest acc t' Hm Hl Hnd Hst Hrl) as (acc1 & t1 & Hr1 & Hx1).
    destruct (IH acc1 t1 Hnd' Hin' Hx1) as (acc' & t'' & Hr & Hx). exists acc', t''. split; [|done].
    by eapply runs_op_bind.
  - apply Hskip. intros state _ Hst. pose proof (ib_valid _ _ _ (mi_inboxes _ Hm _ _ Hst)). congruence.
Qed.

(** What a restart at [now] finds. *)
Record restarted (s : Store) (t : tree) (s' : Store) (t' : tree) : Prop := {
  rs_limits : st_limits s' = st_limits s;
  rs_inboxes : forall id, st_inboxes s' !! id = (fun state => reload id state t) <$> st_inboxes s !! id;
  rs_inv : mem_inv s';
  rs_linked : linked s' t';
  rs_blobs : same_blobs s' t t';
  rs_jsons : same_jsons s' t t';
}.

Lemma reloading_done s t s' t' : mem_inv s -> linked s t -> reloading s t [] s' t' -> restarted s t s' t'.
Proof.
  intros Hm Hl [Hlim Htot Hacc Hall Hsub _ Hsame Hkept].
  assert (Hin : forall id, st_inboxes s' !! id = (fun state => reload id state t) <$> st_inboxes s !! id).
  { intros id. destruct (st_inboxes s !! id) as [state|] eqn:Hst; simpl.
    - destruct (Hall id state Hst) as [[x Hx]|Hn]; [|by apply not_elem_of_nil in Hn]. rewrite Hx.
      destruct (Hacc id x Hx) as (_ & st & Hst' & -> & _). congruence.
    - destruct (st_inboxes s' !! id) as [x|] eqn:Hx; [|done].
      destruct (Hacc id x Hx) as (_ & st & Hst' & _). congruence. }
  constructor; [done|done| | | |].
  - assert (Hold : forall id x, st_inboxes s' !! id = Some x -> exists state, st_inboxes s !! id = Some state /\
      x = reload id state t) by (intros id x Hx; destruct (Hacc id x Hx) as (_ & st & ? & -> & _); eauto).
    pose proof Hm as [Hvl Hsm Hok Ht Hmx Hct]. constructor; rewrite ?Hlim; try done.
    + intros id x Hx. destruct (Hold id x Hx) as (state & Hst & ->). apply inbox_ok_reload. by apply Hok.
    + etrans; [|exact Hmx]. rewrite Htot, Ht. apply msum_mono.
      * intros id x Hx. destruct (Hold id x Hx) as (state & Hst & ->). exists state. split; [done|]. by eapply reload_bytes_le.
      * intros id x Hx. eapply inbox_bytes_nonneg, (Hok _ _ Hx).
    + etrans; [|exact Hct]. apply inj_le, size_mono. intros id x Hx. destruct (Hold id x Hx) as (state & Hst & _). by eexists.
  - destruct Hl as [Hwf Hlk Hroot Hf Hd]. constructor.
    + intros p n x Hp. assert (Hp' := Hp). eapply lookup_weaken in Hp'; [|exact Hsub].
      destruct (Hwf p n x Hp') as [->|Hpd]; [by left|right]. destruct (t' !! p) as [n'|] eqn:E.
      { eapply lookup_weaken in E; [|exact Hsub]. congruence. }
      assert (Hno : forall id name, is_Some (st_inboxes s !! id) -> p <> itemPath id name).
      { intros id name [st Hst] ->. by destruct (if_names _ _ _ (Hf id st Hst) _ _ Hpd) as [[c ?] _]. }
      rewrite Hsame in E by done. congruence.
    + intros p n Hp. eapply Hlk, lookup_weaken; done.
    + by rewrite Hsame.
    + intros id x Hx. by destruct (Hacc id x Hx) as (_ & st & _ & -> & ?).
    + intros id Hdir Hv. rewrite Hsame in Hdir by done. destruct (Hd id Hdir Hv) as [st Hst]. rewrite Hin, Hst. by eexists.
  - intros id x k item Hx Hk. by apply (Hkept id x k Hx).
  - intros id x k item Hx Hk. by apply (Hkept id x k Hx).
Qed.

Lemma reloading_start s t : linked s t -> mem_inv s ->
  reloading s t (dir_entries inboxesDir t) (mkStore (st_limits s) ∅ 0) t.
Proof.
  intros Hl Hm. constructor; simpl; try done.
  intros id state Hst. right. apply dir_entries_spec. apply (lk_inboxes _ _ Hl _ _ Hst).
Qed.

Lemma runs_openStore s t : mem_inv s -> linked s t ->
  exists s' t', runs now t (openStore false (st_limits s)) s' t' /\ restarted s t s' t'.
Proof.
  intros Hm Hl. pose proof Hl as [Hwf Hlk Hroot Hf Hd].
  destruct (runs_load_entries s t (dir_entries inboxesDir t) (mkStore (st_limits s) ∅ 0) t) as (s' & t' & Hr & Hx); try done.
  { apply NoDup_dir_entries. }
  { intros id n Hin. by apply dir_entries_spec in Hin. }
  { by apply reloading_start. }
  exists s', t'. split; [|by apply reloading_done].
  assert (Hsym : runs now t rejectSymlinks tt t) by (apply runs_syscall; by rewrite bool_decide_true).
  assert (Hpre : runs now t (_ ← guard (negb false && validLimits (st_limits s)) ErrInvalid;
     _ ← wrapping "create inbox root" (MkdirAll []); _ ← rejectSymlinks;
     wrapping "create inbox directory" (MkdirAll inboxesDir)) tt t).
  { eapply runs_bind; [apply runs_guard, Hm|]. eapply runs_bind; [by apply runs_wrapping, runs_syscall|].
    eapply runs_bind; [exact Hsym|]. apply runs_wrapping, runs_syscall. unfold mkdir_all, prefixes. simpl.
    fold inboxesDir. by rewrite Hroot. }
  assert (Hrec : runs_op (mkStore (st_limits s) ∅ 0) t reconcile tt s' t').
  { unfold reconcile. eapply runs_op_bind; [by apply runs_op_io|].
    eapply runs_op_bind; [by apply runs_op_io, runs_wrapping, runs_ReadDir|]. exact Hr. }
  intros w Hq Ht. destruct (Hpre w Hq Ht) as (w1 & E1 & Hq1 & Ht1). destruct (Hrec w1 Hq1 Ht1) as (w2 & E2 & Hq2 & Ht2).
  exists w2. split; [|done]. unfold openStore. by rewrite E1, E2.
Qed.

(** The same, item by item. *)
Lemma restarted_items s t s' t' w' : restarted s t s' t' -> w_tree w' = t' ->
  is_meta <$> st_inboxes s' = is_meta <$> st_inboxes s /\
  (forall id k item, item_at s' id k = Some item <->
     item_at s id k = Some item /\ now < dt_ExpiresAt item /\ is_Some (t !! itemPath id (k ++ dot_json))) /\
  (forall id k, is_Some (item_at s' id k) ->
     w_tree w' !! itemPath id (k ++ dot_blob) = t !! itemPath id (k ++ dot_blob)).
Proof.
  intros [Hlim Hin Hinv Hl Hb _] ->. split_and!.
  - apply map_eq. intros id. rewrite !lookup_fmap, Hin. by destruct (st_inboxes s !! id).
  - intros id k item. unfold item_at. rewrite Hin. destruct (st_inboxes s !! id) as [state|]; simpl; [|naive_solver].
    rewrite kept_lookup. unfold live. by rewrite Z.ltb_lt.
  - by apply same_blobs_at.
Qed.
End restart.
