(* ===== verification/InboxMachine.v ===== *)
(** * The message inbox as a state machine

    The states that a store and its disk can reach by sequences of requests and restarts,
    with faults and crashes of the requests on items (see [istep] for what is left out),
    and what reading them gives. *)
From S2P Require Import Prelude Text GoStrings Params Crypto FileTree Inbox InboxProofs InboxOps InboxRestart.

Inductive request :=
  | QCreate (writeHash recoveryHash : bytes)
  | QList (id token : bytes)
  | QPut (id token : bytes) (input : PutItemInput)
  | QGet (id itemID token : bytes)
  | QDeleteItem (id itemID token : bytes)
  | QDeleteInbox (id token : bytes)
  | QSweep (order : list (bytes * bytes)) (now : Z).

Section machine.
Context `{Crypto} `{InboxJson}.

Definition discard {A} (m : op A) : op unit := _ ← m; mret tt.
Definition perform (q : request) : op unit :=
  match q with
  | QCreate wh rh => discard (CreateInbox wh rh)
  | QList id token => discard (List_ id token)
  | QPut id token input => discard (Put id token input)
  | QGet id k token => discard (Get id k token)
  | QDeleteItem id k token => DeleteItem id k token
  | QDeleteInbox id token => DeleteInbox id token
  | QSweep order now => Sweep order now
  end.

Definition inbox_level (q : request) : bool :=
  match q with QCreate _ _ | QDeleteInbox _ _ => true | _ => false end.

(** A request on items, or a sweep, meets any faults, a crash among them.  The machine
    leaves out the creations and deletions of an inbox that fail and leave the disk
    changed (a crash half way through a creation makes every later opening fail, see
    [interrupted_create_blocks_restart]), and restarts that meet faults. *)
Inductive istep : Store * tree -> Store * tree -> Prop :=
  | istep_request q s t plan rand clock s' w' r :
      perform q (s, mkWorld t plan true rand clock) = ((s', w'), r) ->
      (inbox_level q = true -> is_ok r = true \/ w_tree w' = t) ->
      istep (s, t) (s', w_tree w')
  | istep_restart s t now w s' w' :
      quiet now w -> w_tree w = t -> openStore false (st_limits s) w = (w', Ok s') ->
      istep (s, t) (s', w_tree w').

(** The store that is opened on an empty directory. *)
Definition initial (l : Limits) : Store * tree := (mkStore l ∅ 0, {[ inboxesDir := NDir ]}).

Definition ireach (l : Limits) (st : Store * tree) : Prop := rtc istep (initial l) st.
End machine.

Section machine_proofs.
Context `{Crypto} `{InboxJsonLaws}.

(** [openStore] on an empty root gives the initial state. *)
Lemma openStore_empty l w now : quiet now w -> w_tree w = ∅ -> validLimits l = true ->
  exists w', openStore false l w = (w', Ok (initial l).1) /\ w_tree w' = (initial l).2.
Proof.
  intros Hq Ht Hv.
  assert (Hpre : runs now ∅ (_ ← guard (negb false && validLimits l) ErrInvalid;
     _ ← wrapping "create inbox root" (MkdirAll []); _ ← rejectSymlinks;
     wrapping "create inbox directory" (MkdirAll inboxesDir)) tt {[ inboxesDir := NDir ]}).
  { eapply runs_bind; [by apply runs_guard|]. eapply runs_bind; [by apply runs_wrapping, runs_syscall|].
    eapply runs_bind; [apply runs_syscall; by rewrite bool_decide_true by apply map_Forall_empty|].
    apply runs_wrapping, runs_syscall. done. }
  destruct (Hpre w Hq Ht) as (w1 & E1 & Hq1 & Ht1).
  assert (Hrec : runs_op now (mkStore l ∅ 0) {[ inboxesDir := NDir ]} reconcile tt (mkStore l ∅ 0) {[ inboxesDir := NDir ]}).
  { unfold reconcile. eapply runs_op_bind; [apply runs_op_io, runs_syscall|].
    { by rewrite bool_decide_true by by apply map_Forall_singleton. }
    eapply runs_op_bind; [by apply runs_op_io, runs_wrapping, runs_ReadDir|].
    replace (dir_entries _ _) with (@nil (bytes * node)); [apply runs_op_ret|].
    destruct (dir_entries _ _) as [|[n nd] rest] eqn:E; [done|].
    assert (Hin : (n, nd) ∈ dir_entries inboxesDir {[ inboxesDir := NDir ]}) by (rewrite E; by left).
    apply dir_entries_spec in Hin. by rewrite lookup_singleton_ne in Hin. }
  destruct (Hrec w1 Hq1 Ht1) as (w2 & E2 & Hq2 & Ht2). exists w2. split; [|done].
  unfold openStore. by rewrite E1, E2.
Qed.

Definition inv (st : Store * tree) : Prop := mem_inv st.1 /\ linked st.1 st.2.

Lemma inv_initial l : validLimits l = true -> li_MaxServiceBytes l <= 2 ^ 62 - 1 -> inv (initial l).
Proof.
  intros Hv Hs. pose proof (validLimits_spec _ Hv). split; constructor; simpl; try done.
  all: rewrite ?map_size_empty; try lia.
  - intros p n x Hp. apply lookup_singleton_Some in Hp as [E <-]. destruct p as [|a [|]]; simplify_eq. by left.
  - by apply map_Forall_singleton.
  - intros id Hd. by rewrite lookup_singleton_ne in Hd.
Qed.

(** The two requests that only read. *)
Lemma List_same id token s w : (List_ id token (s, w)).1.1 = s /\ w_tree (List_ id token (s, w)).1.2 = w_tree w.
Proof.
  unfold List_, mbind, prog_bind, get_store, lift, lift_io, time_now. simpl.
  destruct (authorizeWrite id token s); simpl; [|done]. by destruct (w_clock w) as [|? []].
Qed.

Lemma triple_Get s t0 id k token :
  triple (at_ s (fun t => t = t0)) (Get id k token)
    (fun item sw => at_ s (fun t => t = t0) sw /\ exists state di, authorizeWrite id token s = Ok state /\
       is_items state !! k = Some di /\ it_header item = headerFromDisk di /\
       t0 !! itemPath id (k ++ dot_blob) = Some (NFile (it_Ciphertext item)))
    (at_ s (fun t => t = t0)).
Proof.
  unfold Get. eapply triple_bind; [apply triple_get|]. intros s'. apply triple_pure. intros ->.
  eapply triple_bind; [apply (triple_lift _ _ _ (fun st sw => authorizeWrite id token s = Ok st /\ at_ s (fun t => t = t0) sw)); auto|].
  intros state. apply triple_pure. intros Ha. destruct (is_items state !! k) as [di|] eqn:Hk; [|by apply triple_fail].
  eapply triple_bind; [apply (triple_io s), (triple_now (fun t => t = t0))|]. intros now. cbv beta.
  eapply triple_bind; [by apply (triple_guard _ _ _ _ (fun _ => at_ s (fun t => t = t0)))|]. intros u.
  eapply triple_bind.
  { apply (triple_io s (fun t => t = t0) (fun t => t = t0) _ (fun r t => t = t0 /\ match r with
      | Ok body => t0 !! itemPath id (k ++ dot_blob) = Some (NFile body) | Err _ => True end)).
    eapply triple_weaken; [apply (triple_try _ (on_tree (fun t => t = t0)) (on_tree (fun t => t = t0))), (triple_reads (fun t => t = t0))|done| |done].
    intros [body|e] w Hw; unfold on_tree in *; [|done]. destruct Hw as [Hw Hr]. split; [done|]. rewrite Hw in Hr.
    by destruct (t0 !! _) as [[]|]; simplify_eq. }
  intros [body|e]; cbv beta iota.
  - eapply triple_bind; [apply (triple_guard _ _ _ _ (fun _ => at_ s (fun t => t = t0 /\ t0 !! itemPath id (k ++ dot_blob) = Some (NFile body)))); [done|]|].
    { by intros sw (E & Ht & _). }
    intros u2. apply triple_ret. intros sw (E & Ht & Hb). split; [by split|]. by exists state, di.
  - apply triple_fail. by intros sw (E & Ht & _).
Qed.

Lemma discard_triple {A : Type} (P : Store * world -> Prop) (m : op A) Q R :
  triple P m (fun _ => Q) R -> triple P (discard m) (fun _ => Q) R.
Proof. intros Hm. eapply triple_bind; [exact Hm|]. intros a. by apply triple_ret. Qed.

(** The invariant of a world with a store that kept its limits. *)
Definition inv_w (l : Limits) (sw : Store * world) : Prop := inv (sw.1, w_tree sw.2) /\ st_limits sw.1 = l.

Lemma limits_add id k item s : st_limits (add_item id k item s) = st_limits s.
Proof. unfold add_item. by case_match. Qed.

(** Requests on items keep the invariant on every outcome. *)
Lemma perform_inv q s t : inv (s, t) ->
  triple (at_ s (fun t' => t' = t)) (perform q) (fun _ => inv_w (st_limits s))
    (if inbox_level q then at_ s (fun _ => True) else inv_w (st_limits s)).
Proof.
  intros [Hm Hl]. simpl in *.
  assert (Hsame : forall sw, sw.1 = s -> linked s (w_tree sw.2) -> inv_w (st_limits s) sw)
    by (intros sw E Hu; split; [split|]; simpl; by rewrite E).
  destruct q as [wh rh|id token|id token input|id k token|id k token|id token|order now]; simpl.
  - apply discard_triple. eapply triple_weaken; [by apply triple_CreateInbox|done| |done].
    intros inbox sw (meta & _ & _ & E & Hi & (Hu & _)). split; [by split|]. by rewrite E.
  - intros [s' w] [E Ht]. simpl in *. subst. pose proof (List_same id token s w) as [E1 E2].
    unfold discard, mbind, prog_bind. destruct (List_ id token (s, w)) as [[s' w'] [a|e]]; simpl in *;
      apply Hsame; simpl; by rewrite ?E2.
  - apply discard_triple. eapply triple_weaken; [by apply triple_Put|done| |].
    + intros h sw (r & state & k & now & ttl & _ & Hp). split; [split; simpl|].
      * apply Hp.
      * rewrite (pd_store _ _ _ _ _ _ _ _ _ _ _ _ Hp). apply Hp.
      * rewrite (pd_store _ _ _ _ _ _ _ _ _ _ _ _ Hp). apply limits_add.
    + intros sw [E (Hu & _)]. by apply Hsame.
  - apply discard_triple. eapply triple_weaken; [apply triple_Get|done| |].
    + intros item sw [[E Ht] _]. apply Hsame; [done|]. by rewrite Ht.
    + intros sw [E Ht]. apply Hsame; [done|]. by rewrite Ht.
  - eapply triple_weaken; [by apply triple_DeleteItem|done| |].
    + intros u sw [_ [E (Hu & _)]]. split; [split|]; simpl; rewrite E; [by apply mem_inv_drop|done|apply limits_drop].
    + intros sw [E (Hu & _)]. by apply Hsame.
  - eapply triple_weaken; [by apply triple_DeleteInbox|done| |done].
    intros u sw (state & _ & _ & E & Hi & (Hu & _)). split; [by split|]. by rewrite E.
  - eapply triple_weaken; [by apply triple_Sweep|done| |].
    + intros u sw []. by split.
    + intros sw []. by split.
Qed.

Lemma inv_istep a b : inv a -> istep a b -> inv b /\ st_limits b.1 = st_limits a.1.
Proof.
  intros Ha Hs. destruct Hs as [q s t plan rand clock s' w' r Hp Hlv|s t now w s' w' Hq Ht Ho].
  - pose proof (perform_inv q s t Ha (s, mkWorld t plan true rand clock)) as Hx.
    rewrite Hp in Hx. specialize (Hx ltac:(by split)). destruct r as [u|e]; [exact Hx|].
    destruct (inbox_level q); [|exact Hx]. destruct (Hlv eq_refl) as [|Ht]; [done|]. destruct Hx as [E _]. simpl in E.
    by rewrite E, Ht.
  - destruct Ha as [Hm Hl]. destruct (runs_openStore now s t Hm Hl) as (s1 & t1 & Hr & Hx).
    destruct (Hr w Hq Ht) as (w1 & E1 & _ & Ht1). rewrite Ho in E1. simplify_eq. split; [split|]; apply Hx.
Qed.

Lemma inv_reach l st : validLimits l = true -> li_MaxServiceBytes l <= 2 ^ 62 - 1 -> ireach l st ->
  inv st /\ st_limits st.1 = l.
Proof.
  intros Hv Hs Hr. revert st Hr. apply (rtc_ind_r (fun st => inv st /\ st_limits st.1 = l)).
  - split; [by apply inv_initial|done].
  - intros y z _ Hyz [Hi El]. destruct (inv_istep _ _ Hi Hyz) as [Hi' El']. split; [done|congruence].
Qed.

(** Reading an item in a quiet world. *)
Lemma runs_Get now s t id k token state item body :
  authorizeWrite id token s = Ok state -> is_items state !! k = Some item -> now < dt_ExpiresAt item ->
  t !! itemPath id (k ++ dot_blob) = Some (NFile body) -> Z.of_nat (length body) = dt_Size item ->
  runs_op now s t (Get id k token) (mkItem (headerFromDisk item) body) s t.
Proof.
  intros Ha Hk Hx Hb Hl. unfold Get. eapply runs_op_bind; [apply runs_op_get|].
  eapply runs_op_bind; [by apply runs_op_lift|]. rewrite Hk.
  eapply runs_op_bind; [apply runs_op_io, runs_now|]. eapply runs_op_bind; [apply runs_op_guard; by apply Z.ltb_lt|].
  eapply runs_op_bind; [apply runs_op_io, runs_try, runs_syscall; by rewrite Hb|]. cbv beta iota.
  eapply runs_op_bind; [apply runs_op_guard; by apply Z.eqb_eq|]. apply runs_op_ret.
Qed.

(** ** The order of [List] *)
#[global] Instance newer_total : Total newer.
Proof.
  intros a b. unfold newer. repeat case_bool_decide; try congruence; [|lia].
  destruct (total bytes_le (ih_ID a) (ih_ID b)); auto.
Qed.
#[global] Instance newer_trans : Transitive newer.
Proof.
  intros a b c. unfold newer. repeat case_bool_decide; try lia; try congruence.
  intros Hab Hbc. by etrans.
Qed.
Lemma newer_antisym a b : newer a b -> newer b a -> ih_CreatedAt a = ih_CreatedAt b /\ ih_ID a = ih_ID b.
Proof.
  unfold newer. repeat case_bool_decide; try congruence; [|lia].
  intros Hab Hba. split; [done|]. by apply (anti_symm bytes_le).
Qed.

(** Two sorted lists of headers with distinct identifiers that are permutations of each
    other are equal: the order in which the map is visited does not matter. *)
Lemma sorted_headers_unique l1 l2 : l1 ≡ₚ l2 -> NoDup (ih_ID <$> l1) ->
  StronglySorted newer l1 -> StronglySorted newer l2 -> l1 = l2.
Proof.
  revert l2. induction l1 as [|a l1 IH]; intros l2 Hp Hnd Hs1 Hs2.
  { by apply Permutation_nil_l in Hp. }
  destruct l2 as [|b l2]; [by apply Permutation_nil_r in Hp|].
  assert (a = b) as ->.
  { apply StronglySorted_inv in Hs1 as [_ Ha], Hs2 as [_ Hb].
    assert (Hina : a ∈ b :: l2) by (rewrite <- Hp; by left). assert (Hinb : b ∈ a :: l1) by (rewrite Hp; by left).
    apply elem_of_cons in Hina as [->|Hina]; [done|]. apply elem_of_cons in Hinb as [->|Hinb]; [done|].
    rewrite list.Forall_forall in Ha, Hb. destruct (newer_antisym a b (Ha b Hinb) (Hb a Hina)) as [_ E].
    rewrite fmap_cons in Hnd. apply NoDup_cons in Hnd as [Hn _]. exfalso. apply Hn. rewrite E. by apply list_elem_of_fmap_2. }
  f_equal. apply IH.
  - by eapply Permutation_cons_inv.
  - rewrite fmap_cons in Hnd. by apply NoDup_cons in Hnd as [_ ?].
  - by apply StronglySorted_inv in Hs1 as [? _].
  - by apply StronglySorted_inv in Hs2 as [? _].
Qed.

(** The headers [List] works on, in the order in which [range] visits the items. *)
Definition live_headers (now : Z) (items : list diskItem) : list ItemHeader :=
  headerFromDisk <$> filter (fun item => now < dt_ExpiresAt item) items.

Lemma runs_List now s t id token state :
  authorizeWrite id token s = Ok state ->
  runs_op now s t (List_ id token) (merge_sort newer (live_headers now (map_to_list (is_items state)).*2)) s t.
Proof.
  intros Ha. unfold List_. eapply runs_op_bind; [apply runs_op_get|].
  eapply runs_op_bind; [by apply runs_op_lift|].
  eapply runs_op_bind; [apply runs_op_io, runs_now|]. apply runs_op_ret.
Qed.

Lemma live_headers_NoDup (l : Limits) (now : Z) (m : gmap bytes diskItem) : map_Forall (item_ok l) m -> NoDup (ih_ID <$> live_headers now (map_to_list m).*2).
Proof.
  intros Hm. unfold live_headers. rewrite <- list_fmap_compose.
  assert (Hnd : NoDup (dt_ID <$> (map_to_list m).*2)).
  { rewrite <- list_fmap_compose. replace ((dt_ID ∘ snd) <$> map_to_list m) with (map_to_list m).*1.
    - apply NoDup_fst_map_to_list.
    - apply list_fmap_ext. intros i [k item] Hi. apply list_elem_of_lookup_2, elem_of_map_to_list in Hi. simpl.
      symmetry. apply (Hm k item Hi). }
  apply (NoDup_fmap_filter dt_ID (fun item => now < dt_ExpiresAt item)). done.
Qed.

(** ** A directory without metadata *)
(** A condition that a program keeps whatever happens. *)
Definition keeps {A} (P : tree -> Prop) (m : io A) : Prop := triple (on_tree P) m (fun _ => on_tree P) (on_tree P).

Lemma keeps_bind {A B : Type} (P : tree -> Prop) (m : io A) (k : A -> io B) :
  keeps P m -> (forall a, keeps P (k a)) -> keeps P (m ≫= k).
Proof. intros Hm Hk. by eapply triple_bind. Qed.
Lemma keeps_ret {A : Type} (P : tree -> Prop) (a : A) : keeps P (mret a).
Proof. by apply triple_ret. Qed.
Lemma keeps_fail {A : Type} (P : tree -> Prop) e : keeps (A := A) P (fail e).
Proof. by apply triple_fail. Qed.
Lemma keeps_guard (P : tree -> Prop) b e : keeps P (guard b e).
Proof. by apply triple_guard. Qed.
Lemma keeps_lift {A : Type} (P : tree -> Prop) (r : result A) : keeps P (lift r).
Proof. by apply triple_lift. Qed.
Lemma keeps_try {A : Type} (P : tree -> Prop) (m : io A) : keeps P m -> keeps P (try m).
Proof.
  intros Hm. eapply triple_weaken; [by apply (triple_try _ (on_tree P))|done| |done]. by intros [] w Hw.
Qed.
Lemma keeps_ignore {A : Type} (P : tree -> Prop) (m : io A) : keeps P m -> keeps P (ignore m).
Proof. intros Hm. by apply triple_ignore. Qed.
Lemma keeps_wrapping {A : Type} (P : tree -> Prop) msg (m : io A) : keeps P m -> keeps P (wrapping msg m).
Proof. apply triple_wrapping. Qed.
Lemma keeps_reads {A : Type} (P : tree -> Prop) (f : tree -> result A) : keeps P (syscall (fun t => (t, f t)) no_effect).
Proof. eapply triple_weaken; [apply triple_reads|done|by intros a w []|done]. Qed.
Lemma keeps_now (P : tree -> Prop) : keeps P time_now.
Proof. apply triple_now. Qed.
Lemma keeps_each {A : Type} (P : tree -> Prop) (f : A -> io unit) l : (forall a, keeps P (f a)) -> keeps P (each f l).
Proof. intros Hf. apply triple_each. intros a _. apply Hf. Qed.

Section no_meta.
Context (id : bytes).

Definition no_meta (t : tree) : Prop := t !! inboxDir id = Some NDir /\ t !! metaPath id = None.

Lemma keeps_remove id' name : keeps no_meta (os_Remove (itemPath id' name)).
Proof.
  apply triple_syscall; try done. intros t [Hd Hm].
  assert (Hdel : no_meta (delete (itemPath id' name) t)).
  { split; [by rewrite lookup_delete_ne|]. rewrite lookup_delete_ne; [done|]. intros E. by injection E. }
  destruct (t !! itemPath id' name) as [[]|]; try done. by destruct (dir_names _ t).
Qed.

Lemma mkdir_all_no_meta t ps : metaPath id ∉ ps -> no_meta t -> no_meta (mkdir_all t ps).1.
Proof.
  unfold mkdir_all. intros Hn Ht. cut (forall r, no_meta r.1 -> no_meta (foldl mkdir_prefix r ps).1); [intros Hc; by apply Hc|].
  clear t Ht. induction ps as [|p ps IH]; intros r Hr; [done|]. simpl. apply not_elem_of_cons in Hn as [Hp Hn].
  apply IH; [done|]. destruct r as [t [u|e]]; [|done]. simpl in *. destruct Hr as [Hd Hm].
  destruct (t !! p) as [[]|] eqn:E; try done. split; simpl.
  - rewrite lookup_insert_ne; [done|]. intros ->. congruence.
  - by rewrite lookup_insert_ne.
Qed.

Lemma keeps_mkdir id' : keeps no_meta (MkdirAll (itemsDir id')).
Proof.
  assert (Hn : metaPath id ∉ prefixes (itemsDir id')).
  { unfold prefixes. simpl. repeat (apply not_elem_of_cons; split; [first [done|intros E; by injection E]|]). apply not_elem_of_nil. }
  apply triple_syscall.
  - intros t Ht. pose proof (mkdir_all_no_meta t _ Hn Ht) as Hx.
    by destruct (mkdir_all t (prefixes (itemsDir id'))) as [t' [u|e]].
  - intros part _ t Ht. apply mkdir_all_no_meta; [|done]. intros (i & Hi & _)%elem_of_take. by apply list_elem_of_lookup_2, Hn in Hi.
  - done.
Qed.
End no_meta.

Create HintDb keeps.
#[local] Hint Resolve keeps_bind keeps_ret keeps_fail keeps_guard keeps_lift keeps_try keeps_ignore keeps_wrapping
  keeps_reads keeps_now keeps_each keeps_remove keeps_mkdir : keeps.
Ltac keeps := repeat first [progress auto with keeps|apply keeps_bind; [|intros]|apply keeps_try|apply keeps_ignore|apply keeps_wrapping|apply keeps_reads|case_match].

Lemma keeps_removeItemFiles id id' k : keeps (no_meta id) (removeItemFiles id' k).
Proof. unfold removeItemFiles, remove_if_exists. keeps. Qed.
#[local] Hint Resolve keeps_removeItemFiles : keeps.

Lemma keeps_load_items id l id' entries m total : keeps (no_meta id) (load_items l id' entries m total).
Proof.
  revert m total. induction entries as [|[name n] entries IH]; intros m total; cbn [load_items]; [keeps|].
  unfold load_item, readJSON, ReadFile, Lstat. keeps.
Qed.

(** [loadInbox] keeps the condition and fails on the directory itself. *)
Lemma triple_loadInbox_no_meta id id' :
  triple (fun sw => no_meta id (w_tree sw.2)) (loadInbox id')
    (fun _ sw => no_meta id (w_tree sw.2) /\ id' <> id) (fun _ => True).
Proof.
  assert (Hio : forall {A : Type} (m : io A) (Q : A -> Store * world -> Prop), keeps (no_meta id) m ->
    (forall a sw, no_meta id (w_tree sw.2) -> Q a sw) ->
    triple (fun sw => no_meta id (w_tree sw.2)) (lift_io m) Q (fun _ => True)).
  { intros A m Q Hm HQ [s w] Hw. unfold lift_io. specialize (Hm w Hw). destruct (m w) as [w' [a|e]]; [|done]. by apply HQ. }
  unfold loadInbox. eapply (triple_bind _ _ _ (fun _ sw => no_meta id (w_tree sw.2))); [intros [s w] Hw; exact Hw|]. intros s. cbv beta.
  eapply triple_bind; [by apply (triple_guard _ _ _ _ (fun _ sw => no_meta id (w_tree sw.2)))|]. intros u.
  eapply (triple_bind _ _ _ (fun _ sw => id' <> id /\ no_meta id (w_tree sw.2))).
  { intros [s' w] Hw. unfold lift_io, wrapping, readJSON. unfold mbind at 1, prog_bind at 1.
    assert (Hrd : match ReadFile (metaPath id') w with (w', Ok b) => id' <> id /\ no_meta id (w_tree w') | _ => True end).
    { unfold ReadFile, syscall. destruct (w_up w); [|done].
      destruct (w_plan w) as [|[|]]; try done; destruct (w_tree w !! metaPath id') as [[]|] eqn:E; try done;
        (split; [|done]); intros ->; destruct Hw as [_ Hw]; simpl in *; congruence. }
    destruct (ReadFile (metaPath id') w) as [w' [b|e]]; [|done]. unfold lift, mbind, prog_bind.
    destruct (decode_inbox b) as [[m rest]|]; [|done]. destruct (decode_any rest) as [[]|]; done. }
  intros meta. apply triple_pure. intros Hne.
  eapply triple_bind; [by apply (triple_guard _ _ _ _ (fun _ sw => no_meta id (w_tree sw.2)))|]. intros u2.
  eapply triple_bind; [apply (Hio unit _ (fun _ sw => no_meta id (w_tree sw.2))); [apply keeps_mkdir|done]|]. intros u3.
  eapply triple_bind; [apply (Hio _ _ (fun _ sw => no_meta id (w_tree sw.2))); [apply keeps_reads|done]|]. intros entries.
  eapply triple_bind; [apply (Hio _ _ (fun _ sw => no_meta id (w_tree sw.2))); [apply keeps_load_items|done]|]. intros [items total].
  eapply triple_bind; [apply (Hio _ _ (fun _ sw => no_meta id (w_tree sw.2))); [|done]|].
  { apply keeps_each. intros [name n]. unfold drop_orphan. keeps. }
  intros u4. eapply triple_bind; [by apply (triple_guard _ _ _ _ (fun _ sw => no_meta id (w_tree sw.2)))|]. intros u5.
  intros sw Hw. by split.
Qed.

Lemma triple_each_no_meta id entries :
  triple (fun sw => no_meta id (w_tree sw.2)) (each load_entry entries)
    (fun _ _ => validPublicID id = true -> (id, NDir) ∉ entries) (fun _ => True).
Proof.
  induction entries as [|[id' n] entries IH]; [intros sw Hw _; apply not_elem_of_nil|]. cbn [each].
  eapply (triple_bind _ _ _ (fun _ sw => (validPublicID id = true -> (id', n) <> (id, NDir)) /\ no_meta id (w_tree sw.2))).
  - unfold load_entry. destruct (negb (is_dir (id', n).2) || negb (validPublicID (id', n).1)) eqn:E.
    + apply triple_ret. intros sw Hw. split; [|done]. intros Hv [= -> ->]. simpl in E. by rewrite Hv in E.
    + eapply triple_weaken; [apply (triple_loadInbox_no_meta id)|intros sw Hw; exact Hw| |done]. intros u sw [Hw Hne]. split; [|done]. intros _ [= Eid _]. by apply Hne.
  - intros u. apply triple_pure. intros Hne. eapply triple_weaken; [exact IH|done| |done].
    intros u2 sw Hn Hv. apply not_elem_of_cons. split; [|by apply Hn]. intros E. by apply (Hne Hv).
Qed.

Lemma openStore_no_meta l id w blank : validPublicID id = true ->
  w_tree w !! inboxDir id = Some NDir -> w_tree w !! metaPath id = None -> is_ok (openStore blank l w).2 = false.
Proof.
  intros Hv Hd Hm. unfold openStore.
  assert (Hpre : keeps (no_meta id) (_ ← guard (negb blank && validLimits l) ErrInvalid;
         _ ← wrapping "create inbox root" (MkdirAll []);
         _ ← rejectSymlinks; wrapping "create inbox directory" (MkdirAll inboxesDir))).
  { apply keeps_bind; [apply keeps_guard|intros _]. apply keeps_bind; [|intros _].
    - apply keeps_wrapping, triple_syscall; simpl; try done. by intros [] rm t Ht.
    - apply keeps_bind; [apply keeps_reads|intros _]. apply keeps_wrapping, triple_syscall.
      + intros t Ht. pose proof (mkdir_all_no_meta id t (prefixes inboxesDir)) as Hx.
        destruct (mkdir_all t (prefixes inboxesDir)) as [t' [u|e]]; apply Hx; try done;
          (apply not_elem_of_cons; split; [done|apply not_elem_of_nil]).
      + intros part _ t Ht. apply mkdir_all_no_meta; [|done]. intros (i & Hi & _)%elem_of_take.
        apply list_elem_of_lookup_2 in Hi. by apply list_elem_of_singleton in Hi.
      + done. }
  specialize (Hpre w ltac:(by split)). match type of Hpre with context [match ?x with (_, _) => _ end] => destruct x as [w1 [u|e]] end; [|done].
  assert (Hrec : triple (fun sw => no_meta id (w_tree sw.2)) reconcile (fun _ _ => False) (fun _ => True)).
  { unfold reconcile. eapply (triple_bind _ _ _ (fun _ sw => no_meta id (w_tree sw.2))).
    { intros [s w2] Hw. unfold lift_io. assert (Hks : keeps (no_meta id) rejectSymlinks) by apply keeps_reads.
      specialize (Hks w2 Hw). by destruct (rejectSymlinks w2) as [w3 []]. }
    intros u2. eapply (triple_bind _ _ _ (fun entries sw => (id, NDir) ∈ entries /\ no_meta id (w_tree sw.2))).
    { intros [s w2] [Hd2 Hm2]. unfold lift_io, wrapping, ReadDir, syscall. simpl in *.
      destruct (w_up w2); [|done]. destruct (w_plan w2) as [|[|]]; try done; destruct (w_tree w2 !! inboxesDir) as [[]|]; try done;
        (split; [by apply (dir_entries_spec inboxesDir)|done]). }
    intros entries. apply triple_pure. intros Hin. eapply triple_weaken; [apply (triple_each_no_meta id)|done| |done].
    intros u3 sw Hn. by apply Hn. }
  specialize (Hrec (mkStore l ∅ 0, w1) Hpre). by destruct (reconcile _) as [[s w2] [u2|e]].
Qed.
End machine_proofs.
