(* ===== verification/InboxHttp.v ===== *)
(** * The HTTP interface of the message inbox (nineinbox/http.go)

    Requests and responses are records of what the handlers read and write.  A response
    body is the value that is encoded, not its text.  The JSON decoder of the request to
    create an inbox is the interface [CreateDecoder]. *)
From S2P Require Import Prelude Text GoStrings Params Crypto FileTree Inbox InboxProofs InboxOps InboxRestart InboxMachine.

Record http_request := mkHttpRequest {
  hq_Method : bytes;
  hq_Path : bytes;
  hq_ContentType : bytes;
  hq_Authorization : bytes;
  hq_ItemID : bytes;
  hq_Retention : bytes;
  hq_ContentLength : Z;
  hq_Body : reader;
}.

Inductive reply :=
  | RError (code message : string)
  | RHealthy
  | RCreated (inbox : Inbox) (limits : list (string * Z))
  | RItems (items : list ItemHeader)
  | RStored (header : ItemHeader)
  | RContent (item : Item)
  | REmpty.
Record http_response := mkHttpResponse { hr_Status : Z; hr_Allow : option string; hr_Reply : reply; hr_RequestID : bytes }.

(** The strict decoder of the two token hashes of a request to create an inbox. *)
Class CreateDecoder := decode_create : reader -> result (bytes * bytes).

Definition apiPrefix : bytes := bs "/api/nine/v1/inboxes".
Definition MethodGet : bytes := bs "GET".
Definition MethodPost : bytes := bs "POST".
Definition MethodDelete : bytes := bs "DELETE".

(** ** Errors *)
Definition apiErrorMessage (code : string) : string :=
  if bool_decide (code = "bad_request"%string) then "The request was not accepted."
  else if bool_decide (code = "unauthorized"%string) then "Authorization failed."
  else if bool_decide (code = "not_found"%string) then "The inbox or item was not found."
  else if bool_decide (code = "expired"%string) then "This item has expired."
  else if bool_decide (code = "too_large"%string) then "This item is too large."
  else if bool_decide (code = "inbox_full"%string) then "This inbox is full."
  else if bool_decide (code = "service_full"%string) then "The relay is temporarily full."
  else "The relay could not complete the request.".

Definition writeAPIError (status : Z) (code : string) : Z * option string * reply :=
  (status, None, RError code (apiErrorMessage code)).
Definition methodNotAllowed (allow : string) : Z * option string * reply :=
  (405, Some allow, RError "bad_request" (apiErrorMessage "bad_request")).
Definition writeJSON (status : Z) (value : reply) : Z * option string * reply := (status, None, value).

Definition sentinel (e : error) : string := match e with EText msg => msg | _ => "" end.
Definition isErr (err target : error) : bool := errors_Is err (sentinel target).

Definition writeStoreError (err : error) : Z * option string * reply :=
  if isErr err ErrInvalid then writeAPIError 400 "bad_request"
  else if isErr err ErrUnauthorized then writeAPIError 401 "unauthorized"
  else if isErr err ErrNotFound then writeAPIError 404 "not_found"
  else if isErr err ErrExpired then writeAPIError 410 "expired"
  else if isErr err ErrTooLarge then writeAPIError 413 "too_large"
  else if isErr err ErrInboxFull then writeAPIError 507 "inbox_full"
  else if isErr err ErrServiceFull then writeAPIError 507 "service_full"
  else writeAPIError 500 "internal_error".

(** ** Reading requests *)
Definition decodeFixedBase64 (value : bytes) (size : nat) : option bytes :=
  if bool_decide (value = []) || existsb (fun c => bool_decide (c = Byte.x3d)) value then None
  else match b64_decode url_alphabet value with
       | Some decoded => if (length decoded =? size)%nat then Some decoded else None
       | None => None
       end.

Definition requestTokenSize (r : http_request) (size : nat) : option bytes :=
  let value := TrimSpace (hq_Authorization r) in
  if negb (HasPrefix value (bs "Bearer ")) then None
  else decodeFixedBase64 (TrimPrefix value (bs "Bearer ")) size.
Definition requestToken (r : http_request) : option bytes := requestTokenSize r 32.

(** [http.MaxBytesReader]: the reader fails when there is more than the limit. *)
Definition MaxBytesReader (r : reader) (limit : Z) : reader :=
  if Z.of_nat (length (rd_data r)) <=? limit then r else mkReader (take (Z.to_nat limit) (rd_data r)) true.

Definition media_type (r : http_request) : bytes := TrimSpace (default [] (head (Split Byte.x3b (hq_ContentType r)))).

Section handlers.
Context `{Crypto} `{InboxJson} `{CreateDecoder}.

Definition decodeJSONBody (r : http_request) (limit : Z) : result (bytes * bytes) :=
  decode_create (MaxBytesReader (hq_Body r) limit).

(** A handler never fails: an error of the store becomes a response. *)
Definition respond {A} (m : op A) (ok : A -> Z * option string * reply) : op (Z * option string * reply) :=
  r ← try m;
  mret (match r with Ok a => ok a | Err e => writeStoreError e end).

Definition limits_reply (l : Limits) : list (string * Z) :=
  [("max_item_bytes"%string, li_MaxItemBytes l); ("max_inbox_bytes"%string, li_MaxInboxBytes l);
   ("max_inbox_items"%string, li_MaxInboxItems l); ("max_inboxes"%string, li_MaxInboxes l);
   ("max_pinned_item_bytes"%string, li_MaxPinnedItemBytes l);
   ("standard_ttl_seconds"%string, li_StandardTTL l / 1000000000);
   ("pinned_ttl_seconds"%string, li_PinnedTTL l / 1000000000)].

Definition createInbox (r : http_request) : op (Z * option string * reply) :=
  if negb (bool_decide (media_type r = bs "application/json")) then mret (writeAPIError 400 "bad_request")
  else match decodeJSONBody r 4096 with
       | Err _ => mret (writeAPIError 400 "bad_request")
       | Ok (writeText, recoveryText) =>
           match decodeFixedBase64 writeText 32, decodeFixedBase64 recoveryText 32 with
           | Some writeHash, Some recoveryHash =>
               s ← get_store;
               respond (CreateInbox writeHash recoveryHash)
                 (fun inbox => writeJSON 201 (RCreated inbox (limits_reply (st_limits s))))
           | _, _ => mret (writeAPIError 400 "bad_request")
           end
       end.

Definition listInbox (r : http_request) (inboxID : bytes) : op (Z * option string * reply) :=
  match requestToken r with
  | None => mret (writeAPIError 401 "unauthorized")
  | Some token => respond (List_ inboxID token) (fun items => writeJSON 200 (RItems items))
  end.

Definition putItem (r : http_request) (inboxID : bytes) : op (Z * option string * reply) :=
  match requestToken r with
  | None => mret (writeAPIError 401 "unauthorized")
  | Some token =>
      s ← get_store;
      let itemID := TrimSpace (hq_ItemID r) in
      if hq_ContentLength r <? 0 then mret (writeAPIError 411 "bad_request")
      else if li_MaxItemBytes (st_limits s) <? hq_ContentLength r then mret (writeAPIError 413 "too_large")
      else if negb (bool_decide (media_type r = bs "application/octet-stream")) then mret (writeAPIError 400 "bad_request")
      else if bool_decide (itemID = []) || negb (bool_decide (itemID = hq_ItemID r)) || negb (validPublicID itemID) then
        mret (writeAPIError 400 "bad_request")
      else
        let body := MaxBytesReader (hq_Body r) (i64 (li_MaxItemBytes (st_limits s) + 1)) in
        respond (Put inboxID token (mkPutItemInput itemID (Some body) (hq_ContentLength r) (hq_Retention r)))
          (fun item => writeJSON 201 (RStored item))
  end.

Definition getItem (r : http_request) (inboxID itemID : bytes) : op (Z * option string * reply) :=
  match requestToken r with
  | None => mret (writeAPIError 401 "unauthorized")
  | Some token => respond (Get inboxID itemID token) (fun item => (200, None, RContent item))
  end.

Definition deleteItem (r : http_request) (inboxID itemID : bytes) : op (Z * option string * reply) :=
  match requestToken r with
  | None => mret (writeAPIError 401 "unauthorized")
  | Some token => respond (DeleteItem inboxID itemID token) (fun _ => (204, None, REmpty))
  end.

Definition deleteInbox (r : http_request) (inboxID : bytes) : op (Z * option string * reply) :=
  match requestTokenSize r 16 with
  | None => mret (writeAPIError 401 "unauthorized")
  | Some token => respond (DeleteInbox inboxID token) (fun _ => (204, None, REmpty))
  end.

(** The routes below [apiPrefix]. *)
Definition route (r : http_request) (parts : list bytes) : op (Z * option string * reply) :=
  let is_method m := bool_decide (hq_Method r = m) in
  match parts with
  | inboxID :: rest =>
      if negb (validPublicID inboxID) then mret (writeAPIError 404 "not_found")
      else match rest with
           | [] => if is_method MethodGet then listInbox r inboxID
                   else if is_method MethodDelete then deleteInbox r inboxID
                   else mret (methodNotAllowed "GET, DELETE")
           | [items] =>
               if bool_decide (items = bs "items") then
                 if is_method MethodPost then putItem r inboxID else mret (methodNotAllowed "POST")
               else mret (writeAPIError 404 "not_found")
           | [items; itemID] =>
               if bool_decide (items = bs "items") && validPublicID itemID then
                 if is_method MethodGet then getItem r inboxID itemID
                 else if is_method MethodDelete then deleteItem r inboxID itemID
                 else mret (methodNotAllowed "GET, DELETE")
               else mret (writeAPIError 404 "not_found")
           | _ => mret (writeAPIError 404 "not_found")
           end
  | [] => mret (writeAPIError 404 "not_found")
  end.

Definition dispatch (has_store : bool) (r : http_request) : op (Z * option string * reply) :=
  if negb has_store then mret (writeAPIError 503 "internal_error")
  else if bool_decide (hq_Path r = bs "/healthz") then
    if bool_decide (hq_Method r = MethodGet) then mret (writeJSON 200 RHealthy)
    else mret (methodNotAllowed "GET")
  else if bool_decide (hq_Path r = apiPrefix) then
    if bool_decide (hq_Method r = MethodPost) then createInbox r else mret (methodNotAllowed "POST")
  else if negb (HasPrefix (hq_Path r) (apiPrefix ++ bs "/")) then mret (writeAPIError 404 "not_found")
  else route r (Split Byte.x2f (TrimPrefix (hq_Path r) (apiPrefix ++ bs "/"))).

Definition setAPIHeaders : op bytes :=
  requestID ← try (lift_io (randomID 12));
  mret (match requestID with Ok id => id | Err _ => bs "request-unavailable" end).

Definition ServeHTTP (has_store : bool) (r : http_request) : op http_response :=
  requestID ← setAPIHeaders;
  '(status, allow, body) ← dispatch has_store r;
  mret (mkHttpResponse status allow body requestID).
End handlers.

(** ** What responses say about the store *)
Section proofs.
Context `{Crypto} `{InboxJsonLaws} `{CreateDecoder}.

Definition is_2xx (status : Z) : bool := (200 <=? status) && (status <? 300).

Lemma writeStoreError_status e : is_2xx (writeStoreError e).1.1 = false.
Proof. unfold writeStoreError. by repeat case_match. Qed.

(** A handler answers, and without success the store is as before. *)
Definition honest (m : op (Z * option string * reply)) : Prop := forall s w, inv (s, w_tree w) ->
  match m (s, w) with
  | ((s', _), Ok r) => is_2xx r.1.1 = true \/ s' = s
  | (_, Err _) => False
  end.

Lemma honest_ret r : honest (mret r).
Proof. intros s w _. by right. Qed.

Lemma honest_respond {A : Type} (m : op A) ok (Q : Store -> tree -> A -> Store * world -> Prop) (R : Store -> tree -> tree -> Prop) :
  (forall s t, inv (s, t) -> triple (at_ s (fun t' => t' = t)) m (Q s t) (at_ s (R s t))) ->
  (forall a, is_2xx (ok a).1.1 = true) -> honest (respond m ok).
Proof.
  intros Hm Hok s w Hinv. specialize (Hm s (w_tree w) Hinv (s, w) (conj eq_refl eq_refl)).
  unfold respond, mbind, prog_bind, try. destruct (m (s, w)) as [[s' w'] [a|e]]; simpl; [left; apply Hok|right; apply Hm].
Qed.

Lemma honest_get (k : Store -> op (Z * option string * reply)) : (forall s, honest (k s)) -> honest (s ← get_store; k s).
Proof. intros Hk s w Hinv. apply (Hk s s w Hinv). Qed.

Lemma triple_List s t id token : triple (at_ s (fun t' => t' = t)) (List_ id token)
  (fun _ => at_ s (fun t' => t' = t)) (at_ s (fun t' => t' = t)).
Proof.
  intros [s' w] [E Ht]. simpl in *. subst. pose proof (List_same id token s w) as [E1 E2].
  destruct (List_ id token (s, w)) as [[s' w'] [a|e]]; by split.
Qed.

Lemma honest_dispatch has_store r : honest (dispatch has_store r).
Proof.
  unfold dispatch, createInbox, route, listInbox, putItem, getItem, deleteItem, deleteInbox.
  repeat first [apply honest_ret|apply honest_get; intros|case_match].
  - eapply honest_respond; [intros s' t [Hm Hl]; by apply triple_CreateInbox|done].
  - eapply honest_respond; [intros s' t _; apply triple_List|done].
  - eapply honest_respond; [intros s' t [Hm Hl]; by apply triple_DeleteInbox|done].
  - eapply honest_respond; [intros s' t [Hm Hl]; by apply triple_Put|done].
  - eapply honest_respond; [intros s' t _; apply triple_Get|done].
  - eapply honest_respond; [intros s' t [Hm Hl]; by apply triple_DeleteItem|done].
Qed.

(** Success on a route of an inbox comes with one of its tokens. *)
Definition holds_token (r : http_request) (s : Store) (id : bytes) : Prop := exists token state,
  st_inboxes s !! id = Some state /\
  ((requestToken r = Some token /\ Sum256 token = di_WriteTokenHash (is_meta state)) \/
   (requestTokenSize r 16 = Some token /\ Sum256 token = di_RecoveryTokenHash (is_meta state))).

Definition guarded (r : http_request) (id : bytes) (m : op (Z * option string * reply)) : Prop := forall s w,
  match m (s, w) with (_, Ok a) => is_2xx a.1.1 = true -> holds_token r s id | _ => True end.

Lemma guarded_ret r id a : is_2xx a.1.1 = false -> guarded r id (mret a).
Proof. intros Ha s w. simpl. congruence. Qed.

Lemma guarded_respond {A : Type} r id (m : op A) ok :
  (forall s w, is_ok (m (s, w)).2 = true -> holds_token r s id) -> guarded r id (respond m ok).
Proof.
  intros Hm s w. specialize (Hm s w). unfold respond, mbind, prog_bind, try.
  destruct (m (s, w)) as [sw [a|e]]; simpl; [auto|]. by rewrite writeStoreError_status.
Qed.

Lemma write_token r token s id state : requestToken r = Some token ->
  authorizeWrite id token s = Ok state -> holds_token r s id.
Proof. intros Ht (_ & Hst & Hh & _)%authorizeWrite_spec. exists token, state. auto. Qed.

Lemma guarded_get r id (k : Store -> op (Z * option string * reply)) :
  (forall s, guarded r id (k s)) -> guarded r id (s ← get_store; k s).
Proof. intros Hk s w. apply (Hk s s w). Qed.

(** An operation that begins with [authorizeWrite] succeeds only past it. *)
Lemma authorized_ok {A : Type} id token (k : Store -> inboxState -> op A) s w :
  is_ok ((s ← get_store; state ← lift (authorizeWrite id token s); k s state) (s, w)).2 = true ->
  exists state, authorizeWrite id token s = Ok state.
Proof.
  unfold mbind, prog_bind, get_store, lift. simpl. destruct (authorizeWrite id token s) as [state|]; [eauto|done].
Qed.

Lemma Put_authorized id token input s w : is_ok (Put id token input (s, w)).2 = true ->
  exists state, authorizeWrite id token s = Ok state.
Proof.
  unfold Put. destruct (pi_Ciphertext input) as [c|]; [|done]. unfold mbind at 1, prog_bind at 1, guard at 1.
  destruct (0 <=? pi_Size input); simpl; [|done]. apply authorized_ok.
Qed.

Lemma guarded_route r id rest : guarded r id (route r (id :: rest)).
Proof.
  unfold route, listInbox, putItem, getItem, deleteItem, deleteInbox.
  repeat first [apply guarded_ret; reflexivity|apply guarded_get; intros|case_match]; apply guarded_respond; intros s' w' Hok.
  - apply authorized_ok in Hok as [state Ha]. by eapply write_token.
  - unfold DeleteInbox, mbind, prog_bind, get_store, guard in Hok. simpl in Hok.
    destruct (st_inboxes s' !! id) as [state|] eqn:Hst; [|done].
    destruct (matchesTokenHash _ _) eqn:Hm; simpl in Hok; [|done]. unfold matchesTokenHash in Hm. bool_prop.
    eexists _, state. split; [done|]. right. by split.
  - apply Put_authorized in Hok as [state Ha]. by eapply write_token.
  - apply authorized_ok in Hok as [state Ha]. by eapply write_token.
  - apply authorized_ok in Hok as [state Ha]. by eapply write_token.
Qed.

(** A limited reader that an upload accepted held the whole body. *)
Lemma MaxBytesReader_exact r limit size : 0 <= size < limit ->
  Z.of_nat (length (rd_data (MaxBytesReader r limit))) = size -> rd_data (MaxBytesReader r limit) = rd_data r.
Proof.
  intros Hs. unfold MaxBytesReader. destruct (Z.of_nat (length (rd_data r)) <=? limit) eqn:E; [done|]. bool_prop.
  simpl. rewrite length_take. lia.
Qed.
End proofs.
