(* ===== verification/InboxTheorems.v ===== *)
(** * Properties of the message inbox *)
From S2P Require Import Prelude Text GoStrings Params Crypto FileTree Inbox InboxProofs InboxOps InboxRestart InboxMachine InboxHttp Toy.

(** ** An inbox to try things on *)
Module InboxToy.
(** A stand-in for the JSON codec: the code of a value in binary digits. *)
Fixpoint digits (p : positive) : bytes :=
  match p with xH => [Byte.x31] | xO p => Byte.x30 :: digits p | xI p => Byte.x32 :: digits p end.
Fixpoint undigits (b : bytes) : option positive :=
  match b with
  | [Byte.x31] => Some xH
  | Byte.x30 :: b => xO <$> undigits b
  | Byte.x32 :: b => xI <$> undigits b
  | _ => None
  end.
Lemma undigits_digits p : undigits (digits p) = Some p.
Proof. induction p as [p IH|p IH|]; simpl; by rewrite ?IH. Qed.

#[global] Instance diskInbox_countable : Countable diskInbox :=
  inj_countable' (fun m => (di_ID m, di_WriteTokenHash m, di_RecoveryTokenHash m, di_CreatedAt m))
    (fun '(a, b, c, d) => mkDiskInbox a b c d) ltac:(by intros []).
#[global] Instance diskItem_countable : Countable diskItem :=
  inj_countable' (fun m => (dt_ID m, dt_Size m, dt_CreatedAt m, dt_ExpiresAt m, dt_Retention m))
    (fun '(a, b, c, d, e) => mkDiskItem a b c d e) ltac:(by intros []).

Definition undo {A} `{Countable A} (b : bytes) : result (A * bytes) :=
  match undigits b ≫= decode with Some a => Ok (a, []) | None => Err (EText "invalid character") end.
#[global] Instance json : InboxJson := {
  json_inbox m := Ok (digits (encode m));
  json_item m := Ok (digits (encode m));
  decode_inbox := undo;
  decode_item := undo;
  decode_any rest := match rest with [] => None | _ => Some (Ok tt) end;
}.
Lemma undo_digits {A} `{Countable A} (a : A) : undo (digits (encode a)) = Ok (a, []).
Proof. unfold undo. rewrite undigits_digits. simpl. by rewrite decode_encode. Qed.
#[global] Instance json_laws : InboxJsonLaws.
Proof. split; intros m b E; apply Ok_inj in E as <-; exists []; (split; [apply (undo_digits m)|done]). Qed.

Definition limits : Limits := mkLimits 100 200 2 5 1000 50 90 60.
Definition token : bytes := bs "write".
Definition recovery : bytes := bs "recovery".
Definition entropy : bytes := (fun n => z2b (Z.of_nat n * 7)) <$> seq 0 60.
Definition calm (t : tree) (now : Z) : world := mkWorld t [] true entropy [now].
Definition ran (q : request) (st : Store * tree) (now : Z) : Store * tree :=
  let sw := (perform q (st.1, calm st.2 now)).1 in (sw.1, w_tree sw.2).
Definition succeeds (q : request) (st : Store * tree) (now : Z) : bool :=
  is_ok (perform q (st.1, calm st.2 now)).2.
Lemma ran_step q st now : implb (inbox_level q) (succeeds q st now) = true -> istep st (ran q st now).
Proof.
  destruct st as [s t]. unfold ran, succeeds. simpl. intros Hok.
  destruct (perform q (s, calm t now)) as [[s' w'] r] eqn:E. simpl in *.
  apply (istep_request q s t [] entropy [now] s' w' r E). intros Hlv. left. by rewrite Hlv in Hok.
Qed.
Lemma calm_quiet t now : quiet now (calm t now).
Proof. split; [split; [done|constructor]|done]. Qed.

(** An inbox, created at time 10, with an item stored at time 20. *)
Definition q1 : request := QCreate (Sum256 token) (Sum256 recovery).
Definition s1 : Store * tree := ran q1 (initial limits) 10.
Definition id : bytes := Eval vm_compute in (map_to_list (st_inboxes s1.1)).*1 !!! 0%nat.
Definition note : reader := mkReader (bs "hello") false.
Definition key : bytes := bs "AAAAAAAAAAAAAAAAAAAAAA".
Definition input : PutItemInput := mkPutItemInput key (Some note) 5 RetentionStandard.
Definition s2 : Store * tree := ran (QPut id token input) s1 20.

Lemma s1_reached : ireach limits s1.
Proof. apply rtc_once, ran_step. vm_compute. reflexivity. Qed.
Lemma s2_reached : ireach limits s2.
Proof. eapply rtc_r; [exact s1_reached|]. apply ran_step. reflexivity. Qed.
Lemma put_works : is_ok (Put id token input (s1.1, calm s1.2 20)).2 = true.
Proof. vm_compute. reflexivity. Qed.
Lemma auth1 : is_ok (authorizeWrite id token s2.1) = true.
Proof. vm_compute. reflexivity. Qed.
End InboxToy.

Section properties.
Context `{Crypto} `{InboxJsonLaws}.

(** ** Quotas *)
(** C26: the quotas of a service whose byte limit is at most 2^62 - 1.  In every state
    that a store reaches by requests and restarts ([ireach]: requests on items and sweeps
    with any faults and crashes, the creation and the deletion of an inbox where they
    succeed or leave the disk as it was, restarts without faults), the byte counts of the
    inboxes and of the service are exactly the sums of the sizes of their items, and every
    limit holds: bytes per item, bytes and items per inbox, inboxes and bytes in all. *)
Theorem inbox_quotas l s t :
  validLimits l = true -> li_MaxServiceBytes l <= 2 ^ 62 - 1 -> ireach l (s, t) ->
  Z.of_nat (size (st_inboxes s)) <= li_MaxInboxes l /\
  st_totalBytes s = msum is_bytes (st_inboxes s) /\ st_totalBytes s <= li_MaxServiceBytes l /\
  forall id state, st_inboxes s !! id = Some state ->
    is_bytes state = msum dt_Size (is_items state) /\ is_bytes state <= li_MaxInboxBytes l /\
    Z.of_nat (size (is_items state)) <= li_MaxInboxItems l /\
    forall k item, is_items state !! k = Some item -> 0 <= dt_Size item <= li_MaxItemBytes l.
Proof.
  intros Hv Hs Hr. destruct (inv_reach l _ Hv Hs Hr) as [[Hm _] El]. simpl in *. subst l.
  destruct Hm as [_ _ Hin Ht Hmx Hct]. split_and!; [done..|]. intros id state Hst.
  destruct (Hin id state Hst) as [_ _ _ _ Hi Hb Hbm Hc]. split_and!; [done..|].
  intros k item Hk. by destruct (Hi k item Hk).
Qed.

(** ** Restarts *)
(** C25: uploads, downloads, deletions of items and sweeps may meet any faults, a crash in
    the middle of them included; the creation and the deletion of an inbox succeed or
    leave the disk as it was, and earlier restarts met no faults ([ireach]).  After any
    sequence of these, opening the store again without faults succeeds and finds every
    inbox with its tokens, and exactly the items that have not expired and were not being
    removed, with the same data.  The condition on inboxes is needed: a creation that a
    crash stops half way makes every later opening fail
    ([interrupted_create_blocks_restart]). *)
Theorem inbox_survives_restart l s t now w :
  validLimits l = true -> li_MaxServiceBytes l <= 2 ^ 62 - 1 -> ireach l (s, t) ->
  quiet now w -> w_tree w = t ->
  exists w' s', openStore false l w = (w', Ok s') /\
    is_meta <$> st_inboxes s' = is_meta <$> st_inboxes s /\
    (forall id k item, item_at s' id k = Some item <->
       item_at s id k = Some item /\ now < dt_ExpiresAt item /\ is_Some (t !! itemPath id (k ++ dot_json))) /\
    (forall id k, is_Some (item_at s' id k) ->
       w_tree w' !! itemPath id (k ++ dot_blob) = t !! itemPath id (k ++ dot_blob)).
Proof.
  intros Hv Hs Hr Hq Ht. destruct (inv_reach l _ Hv Hs Hr) as [[Hm Hl] El]. simpl in *. subst l.
  destruct (runs_openStore now s t Hm Hl) as (s' & t' & Hrun & Hx).
  destruct (Hrun w Hq Ht) as (w' & E & _ & Ht'). exists w', s'. split; [done|]. by eapply restarted_items.
Qed.

(** ** Storing and reading *)
(** The state after a successful [Put], with the stored item. *)
Lemma put_ok l s t id token input plan rand clock s' w' h r :
  validLimits l = true -> li_MaxServiceBytes l <= 2 ^ 62 - 1 -> ireach l (s, t) ->
  Put id token input (s, mkWorld t plan true rand clock) = ((s', w'), Ok h) ->
  pi_Ciphertext input = Some r ->
  inv (s, t) /\ st_limits s' = l /\ linked s' (w_tree w') /\ mem_inv s' /\
  exists state k now ttl, put_done s t id token input r h (s', w') state k now ttl.
Proof.
  intros Hv Hs Hr Hput Hc. destruct (inv_reach l _ Hv Hs Hr) as [[Hm Hl] El]. simpl in *. subst l.
  pose proof (triple_Put s t id token input Hm Hl (s, mkWorld t plan true rand clock) ltac:(by split)) as Hp.
  rewrite Hput in Hp. destruct Hp as (r' & state & k & now & ttl & Hc' & Hd). simplify_eq.
  pose proof Hd as [_ _ _ _ _ Est Hi Hsd]. simpl in *. split_and!.
  - by split.
  - rewrite Est. apply limits_add.
  - rewrite Est. apply Hsd.
  - done.
  - eauto 10.
Qed.

(** an item that [Put] accepted is read back by [Get] until it expires,
    with the same header and exactly the bytes of the upload, from the running store and
    after a restart; the upload had exactly the announced size. *)
Theorem put_get_round_trip l s t id token input plan rand clock s' w' h r now w :
  validLimits l = true -> li_MaxServiceBytes l <= 2 ^ 62 - 1 -> ireach l (s, t) ->
  Put id token input (s, mkWorld t plan true rand clock) = ((s', w'), Ok h) ->
  pi_Ciphertext input = Some r -> now < ih_ExpiresAt h -> quiet now w -> w_tree w = w_tree w' ->
  Z.of_nat (length (rd_data r)) = pi_Size input /\
  (Get id (ih_ID h) token (s', w)).2 = Ok (mkItem h (rd_data r)) /\
  exists w1 s1, openStore false l w = (w1, Ok s1) /\
    (Get id (ih_ID h) token (s1, w1)).2 = Ok (mkItem h (rd_data r)).
Proof.
  intros Hv Hs Hr Hput Hc Hx Hq Hw.
  destruct (put_ok _ _ _ _ _ _ _ _ _ _ _ _ _ Hv Hs Hr Hput Hc) as (_ & El & Hl' & Hm' & state & k & now0 & ttl & Hd).
  destruct Hd as [Ha Hfresh Hname Httl -> Est _ [_ _ _ Hblob [n Hj]]]. simpl in *.
  pose proof Ha as (Hvid & Hst & Htok & Hlen)%authorizeWrite_spec.
  assert (Hst' : exists st', st_inboxes s' !! id = Some st' /\ is_meta st' = is_meta state /\
     is_items st' !! k = Some (new_item k input now0 ttl)).
  { rewrite Est. unfold add_item. rewrite Hst. simpl. eexists. rewrite lookup_insert_eq. split_and!; [done|done|].
    simpl. apply lookup_insert_eq. }
  destruct Hst' as (st' & Hst' & Emeta & Hk').
  pose proof (if_blob _ _ _ _ (if_items _ _ _ (lk_inboxes _ _ Hl' _ _ Hst') _ _ Hk')) as (body & Hb & Hlb).
  rewrite Hblob in Hb. injection Hb as <-. simpl in Hlb. split; [done|].
  assert (Ha' : authorizeWrite id token s' = Ok st') by (apply authorizeWrite_spec; by rewrite Emeta).
  split.
  - destruct (runs_Get now s' (w_tree w') id k token st' _ _ Ha' Hk' Hx Hblob Hlb w Hq Hw) as (w2 & E2 & _). by rewrite E2.
  - destruct (runs_openStore now s' (w_tree w') Hm' Hl') as (s1 & t1 & Hrun & Hre).
    destruct (Hrun w Hq Hw) as (w1 & E1 & Hq1 & Ht1). rewrite El in E1. exists w1, s1. split; [done|].
    pose proof Hre as [_ Hin _ _ Hbl _].
    assert (Hst1 : st_inboxes s1 !! id = Some (reload now id st' (w_tree w'))) by (by rewrite Hin, Hst').
    assert (Hk1 : is_items (reload now id st' (w_tree w')) !! k = Some (new_item k input now0 ttl)).
    { simpl. apply kept_lookup. split_and!; [done|by apply Z.ltb_lt|by rewrite Hj]. }
    assert (Ha1 : authorizeWrite id token s1 = Ok (reload now id st' (w_tree w'))).
    { apply authorizeWrite_spec. simpl. by rewrite Emeta. }
    assert (Hb1 : t1 !! itemPath id (k ++ dot_blob) = Some (NFile (rd_data r))) by (rewrite (Hbl _ _ _ _ Hst1 Hk1); done).
    destruct (runs_Get now s1 t1 id k token _ _ _ Ha1 Hk1 Hx Hb1 Hlb w1 Hq1 Ht1) as (w2 & E2 & _). by rewrite E2.
Qed.

(** a [Put] that fails for whatever reason, a crash included, leaves
    the store as it was, and a restart on what it left on the disk finds the items that
    a restart before it would have found, with the same data. *)
Theorem failed_put_invisible l s t id token input plan rand clock s' w' e now w :
  validLimits l = true -> li_MaxServiceBytes l <= 2 ^ 62 - 1 -> ireach l (s, t) ->
  Put id token input (s, mkWorld t plan true rand clock) = ((s', w'), Err e) ->
  quiet now w -> w_tree w = w_tree w' ->
  s' = s /\ exists w1 s1, openStore false l w = (w1, Ok s1) /\
    (forall id k item, item_at s1 id k = Some item <->
       item_at s id k = Some item /\ now < dt_ExpiresAt item /\ is_Some (t !! itemPath id (k ++ dot_json))) /\
    (forall id k, is_Some (item_at s1 id k) ->
       w_tree w1 !! itemPath id (k ++ dot_blob) = t !! itemPath id (k ++ dot_blob)).
Proof.
  intros Hv Hs Hr Hput Hq Hw. destruct (inv_reach l _ Hv Hs Hr) as [[Hm Hl] El]. simpl in *. subst l.
  pose proof (triple_Put s t id token input Hm Hl (s, mkWorld t plan true rand clock) ltac:(by split)) as Hp.
  rewrite Hput in Hp. destruct Hp as [E (Hl' & Hb & Hj)]. simpl in *. subst s'. split; [done|].
  destruct (runs_openStore now s (w_tree w') Hm Hl') as (s1 & t1 & Hrun & Hre).
  destruct (Hrun w Hq Hw) as (w1 & E1 & _ & Ht1). exists w1, s1. split; [done|].
  destruct (restarted_items now _ _ _ _ w1 Hre Ht1) as (_ & Hit & Hbl). split.
  - intros id' k item. rewrite Hit. split; intros (Hi & Hx & Hn); (split_and!; [done|done|]);
      by rewrite (proj1 (same_jsons_at s _ _) Hj id' k) in * by (by eexists).
  - intros id' k Hi. rewrite Hbl by done. apply (proj1 (same_blobs_at s _ _) Hb). destruct Hi as [item Hi].
    apply Hit in Hi as (Hi & _). by eexists.
Qed.

(** ** Authorisation *)
Lemma unauthorized id token s state : st_inboxes s !! id = Some state ->
  Sum256 token <> di_WriteTokenHash (is_meta state) ->
  authorizeWrite id token s = Err (if validPublicID id then ErrUnauthorized else ErrNotFound).
Proof.
  intros Hst Ht. unfold authorizeWrite, matchesTokenHash. rewrite Hst.
  destruct (validPublicID id); simpl; [|done]. by rewrite bool_decide_false, andb_false_r by done.
Qed.

(** without a token whose hash the inbox knows, no request about it
    reads or changes anything: listing, reading, storing and deleting items need the
    write token, deleting the inbox the recovery token. *)
Theorem inbox_authorisation id token s state w k input :
  st_inboxes s !! id = Some state ->
  (Sum256 token <> di_WriteTokenHash (is_meta state) ->
     (exists e, List_ id token (s, w) = ((s, w), Err e)) /\
     (exists e, Get id k token (s, w) = ((s, w), Err e)) /\
     (exists e, Put id token input (s, w) = ((s, w), Err e)) /\
     (exists e, DeleteItem id k token (s, w) = ((s, w), Err e))) /\
  (Sum256 token <> di_RecoveryTokenHash (is_meta state) ->
     DeleteInbox id token (s, w) = ((s, w), Err ErrUnauthorized)).
Proof.
  intros Hst. split.
  - intros Ht. pose proof (unauthorized id token s state Hst Ht) as Ha.
    unfold List_, Get, Put, DeleteItem, mbind, prog_bind, get_store, lift, guard, fail. simpl. rewrite Ha.
    split_and!; eauto. destruct (pi_Ciphertext input); [|eauto]. destruct (0 <=? pi_Size input); simpl; eauto. rewrite Ha. eauto.
  - intros Ht. unfold DeleteInbox, mbind, prog_bind, get_store, guard, matchesTokenHash. simpl. rewrite Hst.
    by rewrite bool_decide_false, andb_false_r by done.
Qed.

(** ** Listing and expiry *)
(** [List] gives the headers of exactly the unexpired items, newest
    first, and the same list whatever the order in which the map is visited. *)
Theorem list_newest_first l s t id token state now w order :
  validLimits l = true -> li_MaxServiceBytes l <= 2 ^ 62 - 1 -> ireach l (s, t) ->
  quiet now w -> w_tree w = t -> authorizeWrite id token s = Ok state ->
  order ≡ₚ (map_to_list (is_items state)).*2 ->
  exists headers, (List_ id token (s, w)).2 = Ok headers /\
    headers = merge_sort newer (live_headers now order) /\
    StronglySorted newer headers /\ NoDup (ih_ID <$> headers) /\
    (forall h, h ∈ headers <-> exists k item, is_items state !! k = Some item /\ now < dt_ExpiresAt item /\ h = headerFromDisk item).
Proof.
  intros Hv Hs Hr Hq Ht Ha Hord. destruct (inv_reach l _ Hv Hs Hr) as [[Hm Hl] El]. simpl in *. subst l.
  destruct (runs_List now s t id token state Ha w Hq Ht) as (w' & E & _). rewrite E. simpl.
  pose proof Ha as (_ & Hst & _)%authorizeWrite_spec. pose proof (mi_inboxes _ Hm _ _ Hst) as Hok.
  set (h1 := merge_sort newer (live_headers now (map_to_list (is_items state)).*2)).
  assert (Hids : NoDup (ih_ID <$> live_headers now (map_to_list (is_items state)).*2)).
  { eapply live_headers_NoDup, Hok. }
  assert (Hp : h1 ≡ₚ live_headers now (map_to_list (is_items state)).*2) by apply merge_sort_Permutation.
  assert (Hs1 : StronglySorted newer h1) by (apply StronglySorted_merge_sort; apply _).
  assert (Hnd : NoDup (ih_ID <$> h1)) by by rewrite Hp.
  exists h1. split; [done|]. split_and!; [|done|done|].
  - apply sorted_headers_unique; [|done|done|apply StronglySorted_merge_sort; apply _].
    rewrite Hp, merge_sort_Permutation. unfold live_headers. by rewrite Hord.
  - intros h. rewrite Hp. unfold live_headers. rewrite list_elem_of_fmap. split.
    + intros (item & -> & [Hx Hi]%list_elem_of_filter). apply list_elem_of_fmap in Hi as ([k it] & -> & Hin).
      apply elem_of_map_to_list in Hin. eauto.
    + intros (k & item & Hk & Hx & ->). exists item. split; [done|]. apply list_elem_of_filter. split; [done|].
      apply list_elem_of_fmap. exists (k, item). split; [done|]. by apply elem_of_map_to_list.
Qed.

(** when [Sweep] succeeds it has removed exactly the expired items, with their
    bytes from the counts, and kept the data of the others. *)
Theorem sweep_exact l s t order now plan rand clock s' w' :
  validLimits l = true -> li_MaxServiceBytes l <= 2 ^ 62 - 1 -> ireach l (s, t) ->
  (forall id k, is_Some (item_at s id k) -> (id, k) ∈ order) ->
  Sweep order now (s, mkWorld t plan true rand clock) = ((s', w'), Ok tt) ->
  (forall id k item, item_at s' id k = Some item <-> item_at s id k = Some item /\ now < dt_ExpiresAt item) /\
  (forall id k, is_Some (item_at s' id k) ->
     w_tree w' !! itemPath id (k ++ dot_blob) = t !! itemPath id (k ++ dot_blob)) /\ mem_inv s'.
Proof.
  intros Hv Hs Hr Hall Hsw. destruct (inv_reach l _ Hv Hs Hr) as [[Hm Hl] El]. simpl in *. subst l.
  pose proof (triple_Sweep now s t order Hm Hl (s, mkWorld t plan true rand clock) ltac:(by split)) as Hp.
  rewrite Hsw in Hp. destruct Hp as [Hi Hlk _ _ Hb Hit Hdone]. simpl in *. split_and!; [|by apply same_blobs_at|done].
  intros id k item. destruct (Hit id k) as [E|(E & item' & E' & Hx)]; rewrite E.
  - split; [|by intros []]. intros Hi'. split; [done|].
    apply (Hdone (id, k)); simpl; [|congruence]. apply Hall. by eexists.
  - split; [done|]. intros [E2 Hlt]. rewrite E' in E2. injection E2 as ->. lia.
Qed.

(** expired items count until they are swept: an inbox of which
    nothing is left to list can still be full and refuse every new item. *)
Theorem expired_items_fill_inbox s id token state input ciphertext ttl now w :
  authorizeWrite id token s = Ok state ->
  (forall k item, is_items state !! k = Some item -> dt_ExpiresAt item <= now) ->
  li_MaxInboxItems (st_limits s) <= Z.of_nat (size (is_items state)) ->
  pi_Ciphertext input = Some ciphertext -> 0 <= pi_Size input <= li_MaxItemBytes (st_limits s) ->
  retention_ttl (st_limits s) (pi_Retention input) (pi_Size input) = Ok ttl -> quiet now w ->
  (List_ id token (s, w)).2 = Ok [] /\ Put id token input (s, w) = ((s, w), Err ErrInboxFull).
Proof.
  intros Ha Hexp Hfull Hc Hsz Httl Hq. split.
  - destruct (runs_List now s (w_tree w) id token state Ha w Hq eq_refl) as (w' & E & _). rewrite E. simpl.
    replace (live_headers _ _) with (@nil ItemHeader); [done|]. symmetry. apply elem_of_nil_inv.
    intros h (item & -> & [Hx Hi]%list_elem_of_filter)%list_elem_of_fmap.
    apply list_elem_of_fmap in Hi as ([k it] & -> & Hin). apply elem_of_map_to_list, Hexp in Hin. simpl in *. lia.
  - unfold Put, mbind, prog_bind, get_store, lift, guard. rewrite Hc.
    rewrite (proj2 (Z.leb_le 0 _)) by lia. simpl. rewrite Ha. rewrite (proj2 (Z.leb_le _ _)) by lia. simpl.
    rewrite Httl. rewrite (proj2 (Z.ltb_ge _ _)) by lia. done.
Qed.

(** ** The HTTP interface *)
(** every request gets a response; a response other than success means
    that the store did not change; and a success on a path below an inbox was asked for
    with the write token of that inbox, or with its recovery token. *)
Theorem http_inbox_contract `{!CreateDecoder} l s t r plan rand clock :
  validLimits l = true -> li_MaxServiceBytes l <= 2 ^ 62 - 1 -> ireach l (s, t) ->
  exists s' w' resp, ServeHTTP true r (s, mkWorld t plan true rand clock) = ((s', w'), Ok resp) /\
    (is_2xx (hr_Status resp) = false -> s' = s) /\
    (forall id rest, HasPrefix (hq_Path r) (apiPrefix ++ bs "/") = true ->
       Split Byte.x2f (TrimPrefix (hq_Path r) (apiPrefix ++ bs "/")) = id :: rest ->
       is_2xx (hr_Status resp) = true -> holds_token r s id).
Proof.
  intros Hv Hs Hr. destruct (inv_reach l _ Hv Hs Hr) as [Hinv El].
  unfold ServeHTTP, setAPIHeaders, mbind, prog_bind, try, lift_io, mret, prog_ret.
  set (w := mkWorld t plan true rand clock).
  assert (Hw1 : exists w1 rid, randomID 12 w = (w1, rid) /\ w_tree w1 = t).
  { unfold randomID, mbind, prog_bind, rand_read. destruct (length (w_rand w) <? 12)%nat; eauto. }
  destruct Hw1 as (w1 & rid & -> & Ht1). cbv beta iota zeta.
  pose proof (honest_dispatch true r s w1 ltac:(by rewrite Ht1)) as Hh.
  assert (Hg : forall id rest, HasPrefix (hq_Path r) (apiPrefix ++ bs "/") = true ->
       Split Byte.x2f (TrimPrefix (hq_Path r) (apiPrefix ++ bs "/")) = id :: rest ->
       match dispatch true r (s, w1) with (_, Ok a) => is_2xx a.1.1 = true -> holds_token r s id | _ => True end).
  { intros id rest Hp Hsp. unfold dispatch. cbn [negb].
    rewrite (bool_decide_false (hq_Path r = bs "/healthz")) by (intros E; by rewrite E in Hp).
    rewrite (bool_decide_false (hq_Path r = apiPrefix)) by (intros E; by rewrite E in Hp).
    rewrite Hp, Hsp. cbn [negb]. apply guarded_route. }
  destruct (dispatch true r (s, w1)) as [[s' w'] [[[status allow] body]|e]]; [|done].
  exists s', w', (mkHttpResponse status allow body (match rid with Ok id => id | Err _ => bs "request-unavailable" end)).
  split; [done|]. simpl in *. split.
  - intros Hx. destruct Hh as [Hh|Hh]; [congruence|done].
  - intros id rest Hp Hsp. exact (Hg id rest Hp Hsp).
Qed.

(** ** An interrupted creation *)
(** when [CreateInbox] is interrupted after it made the
    directory and before the metadata file is in place, the store cannot be opened any
    more: [openStore] returns an error on every later attempt, faults or not, because it
    requires the metadata of every directory with a valid name. *)
Theorem interrupted_create_blocks_restart l blank s w writeHash recoveryHash id w' e plan rand clock :
  validPublicID id = true ->
  CreateInbox writeHash recoveryHash (s, w) = ((s, w'), Err e) ->
  w_tree w' !! inboxDir id = Some NDir -> w_tree w' !! metaPath id = None ->
  is_ok (openStore blank l (mkWorld (w_tree w') plan true rand clock)).2 = false.
Proof. intros Hv _ Hd Hm. by apply (openStore_no_meta l id). Qed.
End properties.

(** ** The properties on the example *)
Section witnesses.
Import InboxToy.

Lemma limits_valid : validLimits limits = true.
Proof. reflexivity. Qed.
Lemma limits_small : li_MaxServiceBytes limits <= 2 ^ 62 - 1.
Proof. done. Qed.
Lemma surj (st : Store * tree) : ireach limits st -> ireach limits (st.1, st.2).
Proof. by destruct st. Qed.

Lemma inbox_quotas_witness : st_totalBytes s2.1 <= li_MaxServiceBytes limits.
Proof.
  destruct (inbox_quotas limits s2.1 s2.2 limits_valid limits_small (surj _ s2_reached)) as (_ & _ & Hm & _). exact Hm.
Defined.

Lemma inbox_survives_restart_witness :
  exists w' s', openStore false limits (calm s2.2 30) = (w', Ok s').
Proof.
  destruct (inbox_survives_restart limits s2.1 s2.2 30 (calm s2.2 30) limits_valid limits_small (surj _ s2_reached)
    (calm_quiet _ _) eq_refl) as (w' & s' & E & _). exact (ex_intro _ w' (ex_intro _ s' E)).
Defined.

Definition put_result : Store * world * result ItemHeader := Put id token input (s1.1, calm s1.2 20).
Definition header : ItemHeader := mkItemHeader key 5 20 70 RetentionStandard.
Lemma put_result_ok : put_result.2 = Ok header.
Proof. vm_compute. reflexivity. Qed.

Lemma put_get_round_trip_witness :
  (Get id key token (put_result.1.1, calm (w_tree put_result.1.2) 40)).2 = Ok (mkItem header (bs "hello")).
Proof.
  destruct (put_get_round_trip limits s1.1 s1.2 id token input [] entropy [20] put_result.1.1 put_result.1.2 header note 40
    (calm (w_tree put_result.1.2) 40) limits_valid limits_small (surj _ s1_reached)
    (triple_snd put_result _ put_result_ok) eq_refl (ltac:(done) : 40 < 70) (calm_quiet _ _) eq_refl) as (_ & Hg & _).
  exact Hg.
Defined.

(** The fourth system call of the upload fails and the machine goes down. *)
Definition crash_plan : list outcome := [Fine; Fine; Fine; Fault true 0 []].
Definition crashed : Store * world * result ItemHeader :=
  Put id token input (s1.1, mkWorld s1.2 crash_plan true entropy [20]).
Definition crash_error : error := EWrap "close item temp file" 0 (EText "input/output error").
Lemma crashed_err : crashed.2 = Err crash_error.
Proof. vm_compute. reflexivity. Qed.

Lemma failed_put_invisible_witness : crashed.1.1 = s1.1.
Proof.
  destruct (failed_put_invisible limits s1.1 s1.2 id token input crash_plan entropy [20] crashed.1.1 crashed.1.2 crash_error 30
    (calm (w_tree crashed.1.2) 30) limits_valid limits_small (surj _ s1_reached) (triple_snd crashed _ crashed_err)
    (calm_quiet _ _) eq_refl) as [E _]. exact E.
Defined.

Definition state1 : inboxState := default (mkInboxState (mkDiskInbox [] [] [] 0) ∅ 0) (st_inboxes s1.1 !! id).
Lemma state1_found : st_inboxes s1.1 !! id = Some state1.
Proof.
  unfold state1. destruct (st_inboxes s1.1 !! id) as [st|] eqn:E; [reflexivity|].
  assert (Hx : bool_decide (is_Some (st_inboxes s1.1 !! id)) = true) by (vm_compute; reflexivity).
  apply bool_decide_eq_true in Hx as [? Hx]. congruence.
Qed.
Lemma wrong_token : Sum256 (bs "guess") <> di_WriteTokenHash (is_meta state1).
Proof. apply (bool_decide_eq_true_1 _). vm_compute. reflexivity. Qed.

Lemma inbox_authorisation_witness : exists e, Get id key (bs "guess") (s1.1, calm s1.2 20) = ((s1.1, calm s1.2 20), Err e).
Proof.
  destruct (inbox_authorisation id (bs "guess") s1.1 state1 (calm s1.2 20) key input state1_found) as [Hw _].
  destruct (Hw wrong_token) as (_ & Hg & _). exact Hg.
Defined.

Definition state2 : inboxState := default state1 (st_inboxes s2.1 !! id).
Lemma auth2 : authorizeWrite id token s2.1 = Ok state2.
Proof.
  pose proof auth1 as Ha. destruct (authorizeWrite id token s2.1) as [st|] eqn:E; [|done].
  apply authorizeWrite_spec in E as (_ & E & _). unfold state2. by rewrite E.
Qed.

Lemma list_newest_first_witness : exists headers,
  (List_ id token (s2.1, calm s2.2 30)).2 = Ok headers /\ StronglySorted newer headers.
Proof.
  destruct (list_newest_first limits s2.1 s2.2 id token state2 30 (calm s2.2 30) (map_to_list (is_items state2)).*2
    limits_valid limits_small (surj _ s2_reached) (calm_quiet _ _) eq_refl auth2 (Permutation_refl _)) as (hs & E & _ & Hs & _).
  exact (ex_intro _ hs (conj E Hs)).
Defined.

(** Sweeping the item after its expiry. *)
Definition order2 : list (bytes * bytes) := [(id, key)].
Lemma order2_all i k : is_Some (item_at s2.1 i k) -> (i, k) ∈ order2.
Proof.
  assert (Hall : forallb (fun '(i, st) => forallb (fun '(k, _) => bool_decide ((i, k) ∈ order2)) (map_to_list (is_items st)))
            (map_to_list (st_inboxes s2.1)) = true) by (vm_compute; reflexivity).
  intros [item (st & Hst & Hk)%item_at_Some]. rewrite forallb_forall in Hall.
  specialize (Hall (i, st) (proj1 (list_elem_of_In _ _) (proj2 (elem_of_map_to_list _ _ _) Hst))). simpl in Hall.
  rewrite forallb_forall in Hall.
  specialize (Hall (k, item) (proj1 (list_elem_of_In _ _) (proj2 (elem_of_map_to_list _ _ _) Hk))).
  by apply bool_decide_eq_true in Hall.
Qed.
Definition swept2 : Store * world * result unit := Sweep order2 75 (s2.1, calm s2.2 75).
Lemma swept2_ok : swept2.2 = Ok tt.
Proof. vm_compute. reflexivity. Qed.

Lemma sweep_exact_witness : mem_inv swept2.1.1.
Proof.
  destruct (sweep_exact limits s2.1 s2.2 order2 75 [] entropy [75] swept2.1.1 swept2.1.2 limits_valid limits_small
    (surj _ s2_reached) order2_all (triple_snd swept2 _ swept2_ok)) as (_ & _ & Hm). exact Hm.
Defined.

(** The same store with room for one item only, after the item has expired. *)
Definition tight : Store := mkStore (mkLimits 100 200 1 5 1000 50 90 60) (st_inboxes s2.1) (st_totalBytes s2.1).
Definition second : PutItemInput := mkPutItemInput (bs "BAAAAAAAAAAAAAAAAAAAAA") (Some note) 5 RetentionStandard.
Lemma auth_tight : authorizeWrite id token tight = Ok state2.
Proof. exact auth2. Qed.
Lemma expired2 k item : is_items state2 !! k = Some item -> dt_ExpiresAt item <= 80.
Proof.
  intros Hk. assert (Hall : forallb (fun '(_, item) => dt_ExpiresAt item <=? 80) (map_to_list (is_items state2)) = true)
    by (vm_compute; reflexivity).
  rewrite forallb_forall in Hall.
  specialize (Hall (k, item) (proj1 (list_elem_of_In _ _) (proj2 (elem_of_map_to_list _ _ _) Hk))).
  simpl in Hall. by apply Z.leb_le in Hall.
Qed.
Lemma full2 : 1 <= Z.of_nat (size (is_items state2)).
Proof. apply Z.leb_le. vm_compute. reflexivity. Qed.

Lemma expired_items_fill_inbox_witness :
  Put id token second (tight, calm s2.2 80) = ((tight, calm s2.2 80), Err ErrInboxFull).
Proof.
  destruct (expired_items_fill_inbox tight id token state2 second note 50 80 (calm s2.2 80) auth_tight expired2 full2 eq_refl
    (conj (ltac:(done) : 0 <= 5) (ltac:(done) : 5 <= 100)) eq_refl (calm_quiet _ _)) as [_ E]. exact E.
Defined.

#[local] Instance no_decoder : CreateDecoder := fun _ => Err (EText "EOF").
(** Reading the item over HTTP with the token of the inbox. *)
Definition get_request : http_request :=
  mkHttpRequest MethodGet (apiPrefix ++ bs "/" ++ id ++ bs "/items/" ++ key) [] [] [] [] 0 (mkReader [] false).
Lemma http_inbox_contract_witness : exists s' w' resp,
  ServeHTTP true get_request (s2.1, calm s2.2 30) = ((s', w'), Ok resp).
Proof.
  destruct (http_inbox_contract limits s2.1 s2.2 get_request [] entropy [30] limits_valid limits_small (surj _ s2_reached))
    as (s' & w' & resp & E & _). exact (ex_intro _ s' (ex_intro _ w' (ex_intro _ resp E))).
Defined.

(** The creation is interrupted when it writes the metadata. *)
Definition broken_world : world := mkWorld (initial limits).2 [Fine; Fine; Fault true 0 []] true entropy [10].
Definition broken : Store * world * result Inbox :=
  CreateInbox (Sum256 token) (Sum256 recovery) ((initial limits).1, broken_world).
Definition broken_error : error := EWrap "write inbox metadata" 0 (EText "input/output error").
Lemma broken_result : broken.2 = Err broken_error.
Proof. vm_compute. reflexivity. Qed.
Lemma broken_err : broken = (((initial limits).1, broken.1.2), Err broken_error).
Proof.
  destruct (inv_initial limits limits_valid limits_small) as [Hm Hl].
  pose proof (triple_CreateInbox _ _ (Sum256 token) (Sum256 recovery) Hm Hl ((initial limits).1, broken_world) (conj eq_refl eq_refl)) as Hx.
  fold broken in Hx. pose proof broken_result as Er. destruct broken as [[s w] r]. simpl in Er. subst r.
  destruct Hx as [E _]. simpl in E. by subst s.
Qed.
Lemma broken_dir : w_tree broken.1.2 !! inboxDir id = Some NDir.
Proof. vm_compute. reflexivity. Qed.
Lemma broken_meta : w_tree broken.1.2 !! metaPath id = None.
Proof. vm_compute. reflexivity. Qed.
Lemma id_valid : validPublicID id = true.
Proof. vm_compute. reflexivity. Qed.

Lemma interrupted_create_blocks_restart_witness :
  is_ok (openStore false limits (mkWorld (w_tree broken.1.2) [] true entropy [20])).2 = false.
Proof.
  exact (interrupted_create_blocks_restart limits false (initial limits).1 broken_world (Sum256 token) (Sum256 recovery) id
    broken.1.2 broken_error [] entropy [20] id_valid broken_err broken_dir broken_meta).
Defined.
End witnesses.
