(* ===== verification/Mnemonic.v ===== *)
(** * Recovery phrases and key derivation (wallet/recovery_v2.go)

    A recovery phrase is 24 words for the 256 bits of an entropy and the first eight bits
    of its SHA-256.  The word list, the functions of SHA-512 and the AEAD come from other
    packages and are interfaces.  A private key is represented by its seed. *)
From S2P Require Import Prelude Text Params Crypto GoStrings.

Definition RecoveryEntropyBytes : nat := 32.
Definition RecoveryWordCount : nat := 24.

(** The list of 2048 words of the package bip39. *)
Class WordList := recoveryWordList : list bytes.
Class WordListLaws `{WordList} : Prop := {
  words_length : length recoveryWordList = 2048%nat;
  words_distinct : NoDup recoveryWordList;
  words_plain : Forall (fun w => word w = true) recoveryWordList;
}.

(** HMAC and PBKDF2 with SHA-512, and XChaCha20-Poly1305. *)
Class RecoveryCrypto := {
  hmac_sha512 : bytes -> bytes -> bytes;
  pbkdf2_sha512 : bytes -> bytes -> Z -> nat -> bytes;
  aead_seal : bytes -> bytes -> bytes -> bytes -> bytes;
  aead_open : bytes -> bytes -> bytes -> bytes -> option bytes;
}.
(** Lengths, and that opening succeeds exactly on sealed data. *)
Class RecoveryCryptoLaws `{RecoveryCrypto} : Prop := {
  length_hmac k m : length (hmac_sha512 k m) = 64%nat;
  length_pbkdf2 p s i n : length (pbkdf2_sha512 p s i n) = n;
  length_seal k n p a : length (aead_seal k n p a) = (length p + 16)%nat;
  open_seal k n p a : aead_open k n (aead_seal k n p a) a = Some p;
  seal_open k n c a p : aead_open k n c a = Some p -> c = aead_seal k n p a;
}.

(** ** Phrases *)
(** The bit of a byte string at a position, from the most significant one. *)
Definition bit_at (l : bytes) (position : nat) : Z :=
  Z.land (Z.shiftr (b2z (nth (position / 8) l Byte.x00)) (7 - Z.of_nat (position mod 8))) 1.

Section phrase.
Context `{Crypto} `{WordList}.

Definition phrase_bit (entropy checksum : bytes) (position : nat) : Z :=
  if (position <? RecoveryEntropyBytes * 8)%nat then bit_at entropy position
  else bit_at checksum (position - RecoveryEntropyBytes * 8).

(** The [uint16] index of a word. *)
Definition word_index (entropy checksum : bytes) (w : nat) : Z :=
  foldl (fun index offset => Z.lor (Z.shiftl index 1 mod 65536) (phrase_bit entropy checksum (w * 11 + offset)))
    0 (seq 0 11).

Definition recoveryMnemonicBytesFromEntropy (entropy : bytes) : result bytes :=
  _ ← check (length entropy =? RecoveryEntropyBytes)%nat (ENum "recovery entropy must be %d bytes" [32]);
  let checksum := Sum256 entropy in
  words ← foldM (fun words w =>
             word ← deref (recoveryWordList !! Z.to_nat (word_index entropy checksum w)) "index out of range";
             Ok (words ++ [word])) [] (seq 0 RecoveryWordCount);
  Ok (Join words).

Definition recoveryPhraseFromEntropy (entropy : bytes) : result bytes :=
  mnemonic ← recoveryMnemonicBytesFromEntropy entropy;
  _ ← check (length (Fields mnemonic) =? RecoveryWordCount)%nat (EText "recovery phrase word count mismatch");
  Ok mnemonic.

Definition buildRecoveryWordIndexes (words : list bytes) : gmap bytes Z :=
  foldl (fun indexes '(index, word) => <[word := Z.of_nat index mod 65536]> indexes) ∅
    (zip (seq 0 (length words)) words).
Definition recoveryWordIndexes : gmap bytes Z := buildRecoveryWordIndexes recoveryWordList.

(** [withChecksum[position/8] |= 1 << uint(7-(position%8))] *)
Definition set_bit (l : bytes) (position : nat) : bytes :=
  <[(position / 8)%nat := z2b (Z.lor (b2z (nth (position / 8) l Byte.x00))
                                 (Z.shiftl 1 (7 - Z.of_nat (position mod 8)) mod 256))]> l.

(** The bits of one word. *)
Definition set_word (l : bytes) (wordPosition : nat) (index : Z) : bytes :=
  foldl (fun l bitPosition =>
      if Z.land index (Z.shiftl 1 (10 - Z.of_nat bitPosition)) =? 0 then l
      else set_bit l (wordPosition * 11 + bitPosition)) l (seq 0 11).

Definition recoveryEntropyFromPhrase (phrase : bytes) : result bytes :=
  let words := Fields phrase in
  let canonical := Join words in
  _ ← check (bool_decide (phrase = canonical) && (length words =? RecoveryWordCount)%nat)
        (EText "recovery phrase must contain exactly 24 canonical words");
  withChecksum ← foldM (fun l '(wordPosition, word) =>
        match recoveryWordIndexes !! word with
        | Some index => Ok (set_word l wordPosition index)
        | None => Err (EText "recovery phrase checksum or words are invalid")
        end) (zeros (RecoveryEntropyBytes + 1)) (zip (seq 0 (length words)) words);
  let entropy := take RecoveryEntropyBytes withChecksum in
  let checksum := Sum256 entropy in
  _ ← check (bool_decide (nth RecoveryEntropyBytes withChecksum Byte.x00 = nth 0 checksum Byte.x00))
        (EText "recovery phrase checksum or words are invalid");
  Ok entropy.

(** ** Keys *)
Context `{RecoveryCrypto}.

Definition recoverySeedFromEntropy (entropy : bytes) : result bytes :=
  mnemonic ← recoveryMnemonicBytesFromEntropy entropy;
  Ok (pbkdf2_sha512 mnemonic (bs "mnemonic") 2048 64).

(** One step of the path: the private key and the chain code of a hardened child. *)
Definition slip10_child (state : bytes * bytes) (component : Z) : result (bytes * bytes) :=
  _ ← check (component <? 2 ^ 31) (EText "SLIP-0010 path component out of range");
  let '(private, chainCode) := state in
  let data := [Byte.x00] ++ private ++ be_bytes 4 (Z.lor component (2 ^ 31)) in
  let sum := hmac_sha512 chainCode data in
  Ok (take 32 sum, drop 32 sum).

Definition deriveSLIP10Ed25519 (seed : bytes) (path : list Z) : result (bytes * bytes) :=
  _ ← check (negb ((length seed <? 16)%nat || (64 <? length seed)%nat)) (EText "SLIP-0010 seed length out of range");
  let sum := hmac_sha512 (bs "ed25519 seed") seed in
  foldM slip10_child (take 32 sum, drop 32 sum) path.

Definition deriveRecoveryPrivateKeyFromSeed (seed : bytes) (network : string) (index : Z) : result bytes :=
  _ ← check (index <? 2 ^ 31) (EText "recovery address index out of range");
  networkBranch ← (if bool_decide (network = MainNetMachineID) then Ok 0
                   else if bool_decide (network = RegTestMachineID) then Ok 1
                   else Err (EText "unsupported wallet network"));
  '(privateSeed, _) ← deriveSLIP10Ed25519 seed [9009; networkBranch; 0; index];
  Ok privateSeed.

Definition deriveRecoveryPrivateKeyFromEntropy (entropy : bytes) (network : string) (index : Z) : result bytes :=
  seed ← recoverySeedFromEntropy entropy;
  deriveRecoveryPrivateKeyFromSeed seed network index.

Definition deriveRecoveryPrivateKey (phrase : bytes) (network : string) (index : Z) : result bytes :=
  _ ← check (index <? 2 ^ 31) (EText "recovery address index out of range");
  entropy ← recoveryEntropyFromPhrase phrase;
  seed ← recoverySeedFromEntropy entropy;
  deriveRecoveryPrivateKeyFromSeed seed network index.
End phrase.

(** * Recovery phrases: the two directions agree *)

(** ** Bits of byte strings *)
Lemma land_one z : Z.land z 1 = Z.b2z (Z.testbit z 0).
Proof. change 1 with (Z.ones 1) at 1. rewrite Z.land_ones by lia. by rewrite Z.bit0_mod. Qed.

Lemma bit_at_testbit l p :
  bit_at l p = Z.b2z (Z.testbit (b2z (nth (p / 8) l Byte.x00)) (7 - Z.of_nat (p mod 8))).
Proof.
  unfold bit_at. pose proof (Nat.mod_upper_bound p 8). rewrite land_one, Z.shiftr_spec by lia. done.
Qed.

Lemma bit_at_range l p : bit_at l p = 0 \/ bit_at l p = 1.
Proof. rewrite bit_at_testbit. destruct (Z.testbit _ _); auto. Qed.

Lemma byte_bits_above b n : 8 <= n -> Z.testbit (b2z b) n = false.
Proof.
  intros Hn. pose proof (b2z_range b). rewrite <- (Z.mod_small (b2z b) (2 ^ 8)) by lia.
  apply Z.mod_pow2_bits_high. lia.
Qed.

(** Byte strings of the same length with the same bits are equal. *)
Lemma bits_ext l1 l2 : length l1 = length l2 ->
  (forall p, (p < length l1 * 8)%nat -> bit_at l1 p = bit_at l2 p) -> l1 = l2.
Proof.
  intros Hl Hb. apply list_eq_same_length with (length l1); [done|done|].
  intros i x y Hi Hx Hy. apply b2z_inj, Z.bits_inj'. intros n Hn.
  destruct (Z.lt_ge_cases n 8) as [Hn8|Hn8].
  - specialize (Hb (i * 8 + (7 - Z.to_nat n))%nat ltac:(lia)). rewrite !bit_at_testbit in Hb.
    replace ((i * 8 + (7 - Z.to_nat n)) / 8)%nat with i in Hb by (apply (Nat.div_unique _ _ _ (7 - Z.to_nat n)); lia).
    replace ((i * 8 + (7 - Z.to_nat n)) mod 8)%nat with (7 - Z.to_nat n)%nat in Hb by (apply (Nat.mod_unique _ _ i); lia).
    rewrite (nth_lookup_Some _ _ _ _ Hx), (nth_lookup_Some _ _ _ _ Hy) in Hb.
    replace (7 - Z.of_nat (7 - Z.to_nat n)) with n in Hb by lia. by apply Z.b2z_inj.
  - rewrite !byte_bits_above; done.
Qed.

(** Setting a bit. *)
Lemma set_bit_length l p : length (set_bit l p) = length l.
Proof. apply length_insert. Qed.

Lemma set_bit_at l p q : (p < length l * 8)%nat ->
  bit_at (set_bit l p) q = if decide (q = p) then 1 else bit_at l q.
Proof.
  intros Hp. assert (Hlen : (p / 8 < length l)%nat) by (apply Nat.Div0.div_lt_upper_bound; lia).
  pose proof (Nat.mod_upper_bound p 8 ltac:(lia)). pose proof (Nat.mod_upper_bound q 8 ltac:(lia)).
  rewrite !bit_at_testbit. unfold set_bit. set (v := z2b _).
  assert (Hv : forall n, 0 <= n < 8 -> Z.testbit (b2z v) n =
    (Z.testbit (b2z (nth (p / 8) l Byte.x00)) n || (n =? 7 - Z.of_nat (p mod 8)))%bool).
  { intros n Hn. unfold v. rewrite b2z_z2b. change 256 with (2 ^ 8). rewrite Z.mod_pow2_bits_low by lia.
    rewrite Z.lor_spec, Z.mod_pow2_bits_low by lia. f_equal.
    rewrite Z.shiftl_1_l, Z.pow2_bits_eqb by lia. apply Z.eqb_sym. }
  destruct (decide (q / 8 = p / 8)%nat) as [E|Hne].
  - rewrite E. rewrite (nth_lookup_Some _ _ _ v) by by apply list_lookup_insert_eq.
    rewrite Hv by lia. destruct (decide (q = p)) as [->|Hqp].
    + by rewrite Z.eqb_refl, orb_true_r.
    + rewrite (proj2 (Z.eqb_neq _ _)), orb_false_r; [done|].
      pose proof (Nat.div_mod_eq q 8). pose proof (Nat.div_mod_eq p 8). lia.
  - rewrite decide_False by (intros ->; done). f_equal. f_equal. f_equal.
    rewrite !nth_lookup. by rewrite list_lookup_insert_ne.
Qed.

(** Setting the bits of a list of distinct positions where [f] holds. *)
Definition set_where (f : nat -> bool) (l : bytes) (ps : list nat) : bytes :=
  foldl (fun l p => if f p then set_bit l p else l) l ps.

Lemma set_where_length f l ps : length (set_where f l ps) = length l.
Proof.
  revert l. induction ps as [|p ps IH]; intros l; [done|]. simpl. rewrite IH. destruct (f p); [apply set_bit_length|done].
Qed.

Lemma set_where_at f l ps q : Forall (fun p => p < length l * 8)%nat ps ->
  bit_at (set_where f l ps) q = if decide (q ∈ ps) then if f q then 1 else bit_at l q else bit_at l q.
Proof.
  revert l. induction ps as [|p ps IH]; intros l Hall; [by rewrite decide_False by apply not_elem_of_nil|].
  apply Forall_cons in Hall as [Hp Hall]. cbn [set_where foldl]. fold (set_where f (if f p then set_bit l p else l) ps).
  rewrite IH by (destruct (f p); rewrite ?set_bit_length; done).
  assert (Hstep : bit_at (if f p then set_bit l p else l) q = if decide (q = p) then if f q then 1 else bit_at l q else bit_at l q).
  { destruct (f p) eqn:Hf; rewrite ?set_bit_at by done; destruct (decide (q = p)) as [->|]; by rewrite ?Hf. }
  rewrite Hstep. destruct (decide (q ∈ p :: ps)) as [Hin|Hin].
  - apply elem_of_cons in Hin. destruct (decide (q ∈ ps)), (decide (q = p)); try done; [by destruct (f q)|naive_solver].
  - apply not_elem_of_cons in Hin as [Hne Hin]. by rewrite !decide_False.
Qed.

(** ** Words *)
(** The value of a list of bits. *)
Lemma fold_bits (f : nat -> Z) os acc : (forall o, f o = 0 \/ f o = 1) -> 0 <= acc ->
  acc * 2 ^ Z.of_nat (length os) + 2 ^ Z.of_nat (length os) <= 65536 ->
  let r := foldl (fun index o => Z.lor (Z.shiftl index 1 mod 65536) (f o)) acc os in
  0 <= r < (acc + 1) * 2 ^ Z.of_nat (length os) /\
  (forall i o, os !! i = Some o -> Z.b2z (Z.testbit r (Z.of_nat (length os) - 1 - Z.of_nat i)) = f o) /\
  (forall n, 0 <= n -> Z.testbit r (Z.of_nat (length os) + n) = Z.testbit acc n).
Proof.
  intros Hf. revert acc. induction os as [|o os IH]; intros acc Ha Hb; cbn [foldl length] in *.
  { split_and!; [simpl; lia..|done|]. intros n Hn. by rewrite Z.add_0_l. }
  rewrite Nat2Z.inj_succ in *. rewrite Z.pow_succ_r in * by lia.
  pose proof (Z.pow_pos_nonneg 2 (Z.of_nat (length os)) ltac:(lia) ltac:(lia)) as Hpos.
  set (P := 2 ^ Z.of_nat (length os)) in *. assert (Hsm : acc * 2 <= acc * (2 * P)) by (apply Z.mul_le_mono_nonneg_l; lia).
  assert (Hacc : Z.lor (Z.shiftl acc 1 mod 65536) (f o) = acc * 2 + f o).
  { rewrite Z.shiftl_mul_pow2 by lia. change (2 ^ 1) with 2. rewrite Z.mod_small by lia.
    change (acc * 2) with (acc * 2 ^ 1). rewrite lor_disjoint_add; [done|lia|]. destruct (Hf o) as [->| ->]; simpl; lia. }
  rewrite Hacc. assert (Hfo : 0 <= f o <= 1) by (destruct (Hf o); lia).
  destruct (IH (acc * 2 + f o)) as (Hr & Hbits & Hhigh); [lia|nia|]. clear IH. split_and!; [nia|nia|..].
  - intros [|i] o' Hi; simpl in Hi; simplify_eq.
    + replace (Z.succ (Z.of_nat (length os)) - 1 - Z.of_nat 0) with (Z.of_nat (length os) + 0) by lia.
      rewrite Hhigh by lia. destruct (Hf o') as [->| ->].
      * rewrite Z.add_0_r, Z.mul_comm. by rewrite Z.testbit_even_0.
      * rewrite Z.mul_comm. by rewrite Z.testbit_odd_0.
    + replace (Z.succ (Z.of_nat (length os)) - 1 - Z.of_nat (S i)) with (Z.of_nat (length os) - 1 - Z.of_nat i) by lia.
      by apply Hbits.
  - intros n Hn. replace (Z.succ (Z.of_nat (length os)) + n) with (Z.of_nat (length os) + Z.succ n) by lia.
    rewrite Hhigh by lia. destruct (Hf o) as [->| ->].
    + rewrite Z.add_0_r, Z.mul_comm. by rewrite Z.testbit_even_succ.
    + rewrite Z.mul_comm. by rewrite Z.testbit_odd_succ.
Qed.

Section phrases.
Context `{Crypto} `{WordList}.

Lemma phrase_bit_range e c p : phrase_bit e c p = 0 \/ phrase_bit e c p = 1.
Proof. unfold phrase_bit. case_match; apply bit_at_range. Qed.

Lemma word_index_spec e c w : 0 <= word_index e c w < 2048 /\
  forall o, (o < 11)%nat -> Z.b2z (Z.testbit (word_index e c w) (10 - Z.of_nat o)) = phrase_bit e c (w * 11 + o).
Proof.
  unfold word_index. destruct (fold_bits (fun o => phrase_bit e c (w * 11 + o)) (seq 0 11) 0) as (Hr & Hb & _).
  - intros o. apply phrase_bit_range.
  - lia.
  - done.
  - split; [exact Hr|]. intros o Ho. specialize (Hb o o). rewrite length_seq in Hb.
    replace (Z.of_nat 11 - 1 - Z.of_nat o) with (10 - Z.of_nat o) in Hb by lia. apply Hb. by apply lookup_seq.
Qed.

(** Numbers of eleven bits with the same bits are equal. *)
Lemma index_ext a b : 0 <= a < 2048 -> 0 <= b < 2048 ->
  (forall o, (o < 11)%nat -> Z.testbit a (10 - Z.of_nat o) = Z.testbit b (10 - Z.of_nat o)) -> a = b.
Proof.
  intros Ha Hb Hbits. rewrite <- (Z.mod_small a (2 ^ 11)), <- (Z.mod_small b (2 ^ 11)) by lia.
  apply Z.bits_inj'. intros n Hn. destruct (Z.lt_ge_cases n 11) as [Hl|Hl].
  - rewrite !Z.mod_pow2_bits_low by lia. specialize (Hbits (Z.to_nat (10 - n)) ltac:(lia)).
    replace (10 - Z.of_nat (Z.to_nat (10 - n))) with n in Hbits by lia. done.
  - by rewrite !Z.mod_pow2_bits_high by lia.
Qed.

Lemma land_pow2 z n : 0 <= n -> (Z.land z (Z.shiftl 1 n) =? 0) = negb (Z.testbit z n).
Proof.
  intros Hn. rewrite Z.shiftl_1_l. destruct (Z.testbit z n) eqn:E; simpl.
  - apply Z.eqb_neq. intros Hz. apply (f_equal (fun v => Z.testbit v n)) in Hz.
    rewrite Z.land_spec, E, Z.pow2_bits_true, Z.bits_0 in Hz by done. done.
  - apply Z.eqb_eq, Z.bits_inj'. intros m Hm. rewrite Z.land_spec, Z.bits_0.
    destruct (decide (m = n)) as [->|Hne]; [by rewrite E|]. by rewrite Z.pow2_bits_false, andb_false_r.
Qed.

Lemma set_word_where l j index : set_word l j index =
  set_where (fun p => Z.testbit index (10 - Z.of_nat (p - j * 11))) l (seq (j * 11) 11).
Proof.
  unfold set_word, set_where.
  assert (Hgen : forall n o l, (o + n <= 11)%nat ->
    foldl (fun l b => if Z.land index (Z.shiftl 1 (10 - Z.of_nat b)) =? 0 then l else set_bit l (j * 11 + b)) l (seq o n) =
    foldl (fun l p => if Z.testbit index (10 - Z.of_nat (p - j * 11)) then set_bit l p else l) l (seq (j * 11 + o) n)).
  { induction n as [|n IH]; intros o l' Ho; [done|]. cbn [seq foldl]. rewrite land_pow2 by lia.
    replace (j * 11 + o - j * 11)%nat with o by lia.
    replace (S (j * 11 + o)) with (j * 11 + S o)%nat by lia. rewrite <- IH by lia.
    by destruct (Z.testbit index (10 - Z.of_nat o)). }
  rewrite (Hgen 11%nat 0%nat l) by lia. by rewrite Nat.add_0_r.
Qed.

(** The loop over the words, once their indexes are known. *)
Fixpoint set_words (l : bytes) (j : nat) (indexes : list Z) : bytes :=
  match indexes with [] => l | i :: indexes => set_words (set_word l j i) (S j) indexes end.

Lemma set_words_spec indexes l j : (length l = 33)%nat -> (j + length indexes <= 24)%nat ->
  length (set_words l j indexes) = 33%nat /\
  forall p, bit_at (set_words l j indexes) p =
    match indexes !! (p / 11 - j)%nat with
    | Some i => if (j * 11 <=? p)%nat && Z.testbit i (10 - Z.of_nat (p mod 11)) then 1 else bit_at l p
    | None => bit_at l p
    end.
Proof.
  revert l j. induction indexes as [|i indexes IH]; intros l j Hl Hj; cbn [set_words length] in *.
  { split; [done|]. intros p. by rewrite lookup_nil. }
  assert (Hlen : length (set_word l j i) = 33%nat) by by rewrite set_word_where, set_where_length.
  destruct (IH (set_word l j i) (S j) Hlen ltac:(lia)) as [Hl' Hb]. split; [done|]. intros p. rewrite Hb.
  assert (Hw : bit_at (set_word l j i) p = if decide (p ∈ seq (j * 11) 11) then
      if Z.testbit i (10 - Z.of_nat (p - j * 11)) then 1 else bit_at l p else bit_at l p).
  { rewrite set_word_where. apply set_where_at. apply list.Forall_forall. intros q Hq%elem_of_seq. lia. }
  rewrite Hw. pose proof (Nat.div_mod_eq p 11) as Hdm. pose proof (Nat.mod_upper_bound p 11 ltac:(lia)) as Hmb.
  destruct (Nat.lt_trichotomy (p / 11) j) as [Hlt|[Heq|Hgt]].
  - replace (p / 11 - j)%nat with 0%nat by lia. replace (p / 11 - S j)%nat with 0%nat by lia. cbn [lookup list_lookup].
    rewrite decide_False by (intros Hq%elem_of_seq; lia).
    rewrite (proj2 (Nat.leb_gt (j * 11) p)), (proj2 (Nat.leb_gt (S j * 11) p)) by lia. simpl. by destruct indexes.
  - replace (p / 11 - j)%nat with 0%nat by lia. replace (p / 11 - S j)%nat with 0%nat by lia. cbn [lookup list_lookup].
    rewrite decide_True by (apply elem_of_seq; lia).
    rewrite (proj2 (Nat.leb_le (j * 11) p)), (proj2 (Nat.leb_gt (S j * 11) p)) by lia. simpl.
    replace (p - j * 11)%nat with (p mod 11)%nat by lia. by destruct indexes.
  - replace (p / 11 - j)%nat with (S (p / 11 - S j)) by lia. cbn [lookup list_lookup].
    rewrite decide_False by (intros Hq%elem_of_seq; lia).
    by rewrite (proj2 (Nat.leb_le (j * 11) p)), (proj2 (Nat.leb_le (S j * 11) p)) by lia.
Qed.

Lemma foldM_words words l j :
  foldM (fun l '(wordPosition, word) =>
      match recoveryWordIndexes !! word with
      | Some index => Ok (set_word l wordPosition index)
      | None => Err (EText "recovery phrase checksum or words are invalid")
      end) l (zip (seq j (length words)) words) =
  match mapM (fun w => recoveryWordIndexes !! w) words with
  | Some indexes => Ok (set_words l j indexes)
  | None => Err (EText "recovery phrase checksum or words are invalid")
  end.
Proof.
  revert l j. induction words as [|w words IH]; intros l j; [done|]. cbn [length seq zip foldM mapM].
  unfold mapM in *. simpl. destruct (recoveryWordIndexes !! w) as [i|]; simpl; [|done]. rewrite IH.
  by destruct (_ words).
Qed.

(** ** The index of words *)
Definition add_words (m : gmap bytes Z) (j : nat) (words : list bytes) : gmap bytes Z :=
  foldl (fun indexes '(index, word) => <[word := Z.of_nat index mod 65536]> indexes) m (zip (seq j (length words)) words).

Lemma add_words_sound words m j w i : Z.of_nat (j + length words) <= 65536 -> add_words m j words !! w = Some i ->
  m !! w = Some i \/ exists n, words !! n = Some w /\ i = Z.of_nat (j + n).
Proof.
  unfold add_words. revert m j. induction words as [|w' words IH]; intros m j Hj Hi; [by left|].
  cbn [length seq zip foldl] in *. apply IH in Hi; [|lia]. destruct Hi as [Hi|(n & Hn & ->)].
  - apply lookup_insert_Some in Hi as [[<- <-]|[_ Hi]]; [|by left]. right. exists 0%nat. split; [done|].
    rewrite Z.mod_small; [f_equal|]; lia.
  - right. exists (S n). split; [done|]. f_equal. lia.
Qed.

Lemma add_words_other words m j w : w ∉ words -> add_words m j words !! w = m !! w.
Proof.
  unfold add_words. revert m j. induction words as [|w' words IH]; intros m j Hw; [done|]. cbn [length seq zip foldl].
  apply not_elem_of_cons in Hw as [Hne Hw]. rewrite IH by done. by rewrite lookup_insert_ne.
Qed.

Lemma add_words_complete words m j n w : Z.of_nat (j + length words) <= 65536 -> NoDup words -> words !! n = Some w ->
  add_words m j words !! w = Some (Z.of_nat (j + n)).
Proof.
  revert m j n. induction words as [|w' words IH]; intros m j n Hj Hnd Hn; [done|].
  apply NoDup_cons in Hnd as [Hw Hnd]. destruct n as [|n]; simpl in Hn.
  - injection Hn as ->. cbn [add_words length seq zip foldl].
    change (add_words (<[w := Z.of_nat j mod 65536]> m) (S j) words !! w = Some (Z.of_nat (j + 0))).
    rewrite add_words_other, lookup_insert_eq by done. rewrite Z.mod_small; [do 2 f_equal|]; simpl in Hj; lia.
  - change (add_words (<[w' := Z.of_nat j mod 65536]> m) (S j) words !! w = Some (Z.of_nat (j + S n))).
    rewrite (IH _ _ n); [do 2 f_equal; lia|simpl in Hj; lia|done|done].
Qed.
End phrases.

(** ** Both directions *)
Section round_trip.
Context `{CryptoLaws} `{WordListLaws}.

Lemma index_lookup n w : recoveryWordList !! n = Some w -> recoveryWordIndexes !! w = Some (Z.of_nat n).
Proof.
  intros Hn. change recoveryWordIndexes with (add_words ∅ 0 recoveryWordList).
  apply (add_words_complete _ _ 0 n w); [rewrite words_length; lia|apply words_distinct|done].
Qed.

Lemma index_sound w i : recoveryWordIndexes !! w = Some i ->
  0 <= i < 2048 /\ recoveryWordList !! Z.to_nat i = Some w.
Proof.
  change recoveryWordIndexes with (add_words ∅ 0 recoveryWordList). intros Hi.
  apply add_words_sound in Hi; [|rewrite words_length; lia]. destruct Hi as [Hi|(n & Hn & ->)]; [by rewrite lookup_empty in Hi|].
  simpl. rewrite Nat2Z.id. split; [|done]. apply lookup_lt_Some in Hn. rewrite words_length in Hn. lia.
Qed.

(** The words of an entropy. *)
Definition entropy_words (e : bytes) : list bytes :=
  (fun w => default [] (recoveryWordList !! Z.to_nat (word_index e (Sum256 e) w))) <$> seq 0 24.

Lemma entropy_word_lookup e w : recoveryWordList !! Z.to_nat (word_index e (Sum256 e) w) =
  Some (default [] (recoveryWordList !! Z.to_nat (word_index e (Sum256 e) w))).
Proof.
  destruct (recoveryWordList !! _) as [x|] eqn:E; [done|]. apply lookup_ge_None in E. rewrite words_length in E.
  destruct (word_index_spec e (Sum256 e) w). lia.
Qed.

Lemma mnemonic_words e : length e = 32%nat -> recoveryMnemonicBytesFromEntropy e = Ok (Join (entropy_words e)).
Proof.
  intros He. unfold recoveryMnemonicBytesFromEntropy. rewrite He. cbn [Nat.eqb RecoveryEntropyBytes check mbind result_bind].
  assert (Hf : forall ws l, foldM (fun words w =>
      word ← deref (recoveryWordList !! Z.to_nat (word_index e (Sum256 e) w)) "index out of range"; Ok (words ++ [word])) l ws =
    Ok (l ++ ((fun w => default [] (recoveryWordList !! Z.to_nat (word_index e (Sum256 e) w))) <$> ws))).
  { induction ws as [|w ws IH]; intros l; cbn [foldM]; [by rewrite app_nil_r|].
    rewrite entropy_word_lookup. cbn [deref mbind result_bind]. rewrite IH. by rewrite <- app_assoc. }
  by rewrite Hf.
Qed.

Lemma entropy_words_plain e : Forall (fun w => word w = true) (entropy_words e).
Proof.
  apply list.Forall_forall. intros x (w & -> & _)%list_elem_of_fmap. pose proof words_plain as Hall.
  rewrite list.Forall_forall in Hall. eapply Hall, list_elem_of_lookup_2, entropy_word_lookup.
Qed.

Lemma phrase_words e : length e = 32%nat -> recoveryPhraseFromEntropy e = Ok (Join (entropy_words e)).
Proof.
  intros He. unfold recoveryPhraseFromEntropy. rewrite mnemonic_words by done. cbn [mbind result_bind].
  rewrite Fields_Join by apply entropy_words_plain. done.
Qed.

(** The bits of an entropy with its checksum byte. *)
Lemma phrase_bit_bytes e p : length e = 32%nat -> (p < 264)%nat ->
  phrase_bit e (Sum256 e) p = bit_at (e ++ [nth 0 (Sum256 e) Byte.x00]) p.
Proof.
  intros He Hp. unfold phrase_bit, RecoveryEntropyBytes. rewrite !bit_at_testbit.
  destruct (p <? 32 * 8)%nat eqn:E; [apply Nat.ltb_lt in E|apply Nat.ltb_ge in E].
  - rewrite app_nth1 by (rewrite He; apply Nat.Div0.div_lt_upper_bound; lia). done.
  - replace (p / 8)%nat with 32%nat by (apply (Nat.div_unique _ _ _ (p - 256)); lia).
    replace ((p - 32 * 8) / 8)%nat with 0%nat by (symmetry; apply Nat.div_small; lia).
    rewrite app_nth2, He by lia. simpl nth at 2. do 3 f_equal.
    replace (p mod 8)%nat with ((p - 32 * 8) mod 8)%nat; [done|].
    rewrite <- (Nat.Div0.mod_add (p - 32 * 8) 32 8). f_equal. lia.
Qed.

Lemma mapM_entropy_words e : mapM (fun w => recoveryWordIndexes !! w) (entropy_words e) =
  Some ((fun w => word_index e (Sum256 e) w) <$> seq 0 24).
Proof.
  unfold entropy_words. generalize (seq 0 24) as ws. induction ws as [|w ws IH]; [done|].
  rewrite !fmap_cons. cbn [mapM]. rewrite (index_lookup _ _ (entropy_word_lookup e w)), Z2Nat.id by apply word_index_spec.
  cbn [mbind option_bind]. by rewrite IH.
Qed.

Lemma bit_at_zeros n p : bit_at (zeros n) p = 0.
Proof.
  rewrite bit_at_testbit. unfold zeros. replace (nth _ _ _) with Byte.x00; [by rewrite Z.testbit_0_l|].
  symmetry. destruct (nth_in_or_default (p / 8) (replicate n Byte.x00) Byte.x00) as [Hin|]; [|done].
  apply list_elem_of_In, elem_of_replicate in Hin. by destruct Hin.
Qed.

(** The bytes that the loop builds from the words of an entropy. *)
Lemma set_words_entropy e : length e = 32%nat ->
  set_words (zeros 33) 0 ((fun w => word_index e (Sum256 e) w) <$> seq 0 24) = e ++ [nth 0 (Sum256 e) Byte.x00].
Proof.
  intros He. destruct (set_words_spec ((fun w => word_index e (Sum256 e) w) <$> seq 0 24) (zeros 33) 0) as [Hl Hb]; [done|done|].
  apply bits_ext; [by rewrite Hl, length_app, He|]. rewrite Hl. intros p Hp.
  rewrite Hb, Nat.sub_0_r, bit_at_zeros. assert (Hd : (p / 11 < 24)%nat) by (apply Nat.Div0.div_lt_upper_bound; lia).
  rewrite list_lookup_fmap, (proj2 (lookup_seq 0 24 (p / 11) (p / 11))) by lia. simpl.
  destruct (word_index_spec e (Sum256 e) (p / 11)) as [_ Hw].
  specialize (Hw (p mod 11)%nat ltac:(apply Nat.mod_upper_bound; lia)).
  replace (p / 11 * 11 + p mod 11)%nat with p in Hw by (pose proof (Nat.div_mod_eq p 11); lia).
  rewrite <- phrase_bit_bytes, <- Hw by (done || lia). by destruct (Z.testbit _ _).
Qed.

Lemma entropy_of_phrase e : length e = 32%nat -> recoveryEntropyFromPhrase (Join (entropy_words e)) = Ok e.
Proof.
  intros He. unfold recoveryEntropyFromPhrase. rewrite Fields_Join by apply entropy_words_plain.
  rewrite bool_decide_true by done. cbn [andb].
  replace (length (entropy_words e) =? RecoveryWordCount)%nat with true by done. cbn [check mbind result_bind].
  rewrite foldM_words, mapM_entropy_words. change (RecoveryEntropyBytes + 1)%nat with 33%nat.
  rewrite set_words_entropy by done. cbn [mbind result_bind]. unfold RecoveryEntropyBytes.
  set (x := nth 0 (Sum256 e) Byte.x00).
  assert (Ht : take 32 (e ++ [x]) = e) by (rewrite <- He; apply take_app_length).
  assert (Hn : nth 32 (e ++ [x]) Byte.x00 = x) by (by rewrite app_nth2, He by lia).
  rewrite Ht, Hn. by rewrite bool_decide_true.
Qed.

Lemma mapM_index_words words indexes : mapM (fun w => recoveryWordIndexes !! w) words = Some indexes ->
  length indexes = length words /\ forall n i, indexes !! n = Some i ->
    0 <= i < 2048 /\ words !! n = recoveryWordList !! Z.to_nat i.
Proof.
  intros Hm%mapM_Some. split; [by apply Forall2_length in Hm|]. intros n i Hi.
  apply (Forall2_lookup_r _ _ _ _ _ Hm) in Hi as (w & Hw & Hwi). apply index_sound in Hwi as [Hr Hl].
  split; [done|congruence].
Qed.

Lemma phrase_of_entropy phrase e : recoveryEntropyFromPhrase phrase = Ok e ->
  length e = 32%nat /\ phrase = Join (entropy_words e).
Proof.
  unfold recoveryEntropyFromPhrase. intros He. res_simpl. bool_prop.
  match goal with Hc : (_ =? _)%nat = true |- _ => apply Nat.eqb_eq in Hc; rename Hc into Hcount end.
  match goal with Hc : phrase = _ |- _ => rename Hc into Hcanon end.
  rewrite foldM_words in *. destruct (mapM _ (Fields phrase)) as [indexes|] eqn:Hm; [|done]. res_simpl.
  destruct (mapM_index_words _ _ Hm) as [Hlen Hidx]. rewrite Hcount in Hlen. unfold RecoveryWordCount, RecoveryEntropyBytes in *.
  destruct (set_words_spec indexes (zeros 33) 0) as [Hl Hb]; [done|lia|].
  set (L := set_words (zeros (32 + 1)) 0 indexes) in *. change (zeros 33) with (zeros (32 + 1)) in *. fold L in Hl, Hb.
  assert (Htk : length (take 32 L) = 32%nat) by (rewrite length_take; lia). split; [done|].
  assert (HL : L = take 32 L ++ [nth 0 (Sum256 (take 32 L)) Byte.x00]).
  { rewrite <- (take_drop 32 L) at 1. f_equal. apply list_eq_same_length with 1%nat; [done|rewrite length_drop; lia|].
    intros i b b' Hi. destruct i; [|lia]. rewrite lookup_drop, Nat.add_0_r. intros Hx [= <-].
    rewrite <- (nth_lookup_Some _ _ Byte.x00 _ Hx). congruence. }
  rewrite Hcanon. f_equal. apply list_eq_same_length with 24%nat; [done|done|].
  intros w b b' Hw Hx Hy. unfold entropy_words in Hy. rewrite list_lookup_fmap, (proj2 (lookup_seq 0 24 w w)) in Hy by lia.
  cbn [fmap option_fmap option_map] in Hy. destruct (lookup_lt_is_Some_2 indexes w) as [i Hi]; [lia|]. destruct (Hidx w i Hi) as [Hr Hwi].
  assert (Ei : i = word_index (take 32 L) (Sum256 (take 32 L)) w).
  { destruct (word_index_spec (take 32 L) (Sum256 (take 32 L)) w) as [Hr' Hbits]. apply index_ext; [done|done|].
    intros o Ho. apply Z.b2z_inj. rewrite Hbits by done. rewrite phrase_bit_bytes, <- HL by (done || lia). rewrite Hb.
    replace ((w * 11 + o) / 11 - 0)%nat with w by (rewrite Nat.sub_0_r; apply (Nat.div_unique _ _ _ o); lia).
    replace ((w * 11 + o) mod 11)%nat with o by (apply (Nat.mod_unique _ _ w); lia).
    rewrite Hi, bit_at_zeros. by destruct (Z.testbit i _). }
  rewrite <- Ei, <- Hwi, Hx in Hy. unfold default, from_option, id in Hy. congruence.
Qed.
End round_trip.
