(* ===== verification/Recovery.v ===== *)
(** * Encrypted recovery wallets (wallet/recovery_v2.go)

    The payload of a V2 wallet (entropy, number of addresses, derivation), the envelope
    it is sealed in, and the strict reading of both.  The JSON codec is the interface
    [RecoveryJson]; randomness comes from the world. *)
From S2P Require Import Prelude Text Params Crypto Wallet PplnsFile GoStrings FileTree.
From S2P Require Import FileTree Mnemonic.

Definition SchemaVersionV2 : Z := 2.
Definition RecoveryDerivationID : string := "slip10-ed25519:m/9009'/network'/0'/index'".
Definition v2KDFName : string := "argon2id".
Definition v2CipherName : string := "xchacha20poly1305".
Definition v2SaltBytes : nat := 16.
Definition v2NonceBytes : nat := 24.
Definition minV2KDFMemoryKiB : Z := 8 * 1024.
Definition maxV2KDFMemoryKiB : Z := 256 * 1024.
Definition minV2KDFTime : Z := 1.
Definition maxV2KDFTime : Z := 10.
Definition maxV2KDFParallel : Z := 16.
Definition MaxWalletFileBytes : Z := 1048576.
(** [chacha20poly1305.Overhead] and [KeySize] *)
Definition aead_overhead : nat := 16.
Definition aead_key_size : nat := 32.

Definition ErrWalletUnlock : error := EText "wallet could not be unlocked".
Definition ErrWalletV2Format : error := EText "wallet V2 format is invalid".
Definition walletV2FormatError (message : string) : error := EWrap message 0 ErrWalletV2Format.

Record v2KDFParams := mkKDF {
  kd_Name : string; kd_Salt : bytes; kd_Time : Z; kd_MemoryKiB : Z; kd_Parallelism : Z }.
Record v2Cipher := mkCipher { ci_Name : string; ci_Nonce : bytes; ci_Ciphertext : bytes }.
Record v2Envelope := mkEnvelope {
  ve_SchemaVersion : Z; ve_Network : string; ve_KDF : v2KDFParams; ve_Cipher : v2Cipher }.
Record recoveryPayload := mkPayload { rp_Entropy : bytes; rp_AddressCount : Z; rp_Derivation : string }.
Record v2AuthenticatedHeader := mkHeaderV2 {
  vh_SchemaVersion : Z; vh_Network : string; vh_KDF : v2KDFParams; vh_CipherName : string }.

#[global] Instance v2KDFParams_eq_dec : EqDecision v2KDFParams.
Proof. solve_decision. Defined.
#[global] Instance recoveryPayload_eq_dec : EqDecision recoveryPayload.
Proof. solve_decision. Defined.

(** [encoding/json] on these types: [Marshal] and [MarshalIndent]; the tokens of a text
    and whether it ends after them; a strict [Decode] with the rest of the input, and
    whether nothing follows in the rest. *)
Class RecoveryJson := {
  json_payload : recoveryPayload -> result bytes;
  json_header : v2AuthenticatedHeader -> result bytes;
  json_envelope : v2Envelope -> result bytes;
  wallet_tokens : bytes -> list token * bool;
  decode_payload : bytes -> result (recoveryPayload * bytes);
  decode_envelope : bytes -> result (v2Envelope * bytes);
  at_eof : bytes -> bool;
  (** [json.Unmarshal] of the field [schema_version] alone. *)
  probe_schema : bytes -> option Z;
}.

(** ** Strict reading *)
(** [walkJSONValue]: unlike the scan of the pool, a closing delimiter is not a value. *)
Fixpoint walkJSONValue (fuel : nat) (at_ : position) (ts : list token) : result (list token) :=
  match fuel with
  | O => Err (EPanic "out of fuel")
  | S fuel =>
      match at_ with
      | AtValue =>
          match ts with
          | [] => Err (EText "EOF")
          | TObj :: ts => walkJSONValue fuel (InObject ∅) ts
          | TArr :: ts => walkJSONValue fuel InArray ts
          | TObjEnd :: _ | TArrEnd :: _ => Err (EText "unexpected JSON delimiter")
          | _ :: ts => Ok ts
          end
      | InObject seen =>
          if more ts then
            match ts with
            | TStr key :: ts =>
                if decide (key ∈ seen) then Err (EText "duplicate JSON key")
                else ts ← walkJSONValue fuel AtValue ts;
                     walkJSONValue fuel (InObject ({[key]} ∪ seen)) ts
            | _ => Err (EText "JSON object key is invalid")
            end
          else match ts with
               | TObjEnd :: ts => Ok ts
               | _ => Err (EText "unterminated JSON object")
               end
      | InArray =>
          if more ts then ts ← walkJSONValue fuel AtValue ts; walkJSONValue fuel InArray ts
          else match ts with
               | TArrEnd :: ts => Ok ts
               | _ => Err (EText "unterminated JSON array")
               end
      end
  end.

Section recovery.
Context `{Crypto} `{WordList} `{RecoveryCrypto} `{RecoveryJson}.

Definition rejectDuplicateJSONKeys (data : bytes) : result unit :=
  let '(ts, ended) := wallet_tokens data in
  rest ← walkJSONValue (S (length ts)) AtValue ts;
  check (bool_decide (rest = []) && ended) (EText "trailing JSON data").

Definition decodeStrictJSON {A} (decode : bytes -> result (A * bytes)) (data : bytes) : result A :=
  '(destination, rest) ← decode data;
  _ ← check (at_eof rest) (EText "trailing JSON data");
  Ok destination.

Definition decodeCanonicalBase64Range (value : bytes) (minimum maximum : Z) : result bytes :=
  match b64_decode std_alphabet value with
  | Some decoded =>
      if (Z.of_nat (length decoded) <? minimum) || (maximum <? Z.of_nat (length decoded))
         || negb (bool_decide (b64_encode std_alphabet decoded = value))
      then Err (EText "invalid canonical base64") else Ok decoded
  | None => Err (EText "invalid canonical base64")
  end.
Definition decodeCanonicalBase64 (value : bytes) (size : nat) : result bytes :=
  decodeCanonicalBase64Range value (Z.of_nat size) (Z.of_nat size).

(** ** Validation *)
Definition defaultV2KDFParams (parallelism : Z) : v2KDFParams :=
  let parallelism := if parallelism <? 1 then 1 else parallelism in
  let parallelism := if 4 <? parallelism then 4 else parallelism in
  mkKDF v2KDFName [] 3 (64 * 1024) parallelism.

Definition validateRecoveryPayload (payload : recoveryPayload) : result unit :=
  _ ← check (length (rp_Entropy payload) =? RecoveryEntropyBytes)%nat
        (EText "wallet recovery entropy length is invalid");
  _ ← check (negb ((rp_AddressCount payload <? 1) || (MaxWalletKeys <? rp_AddressCount payload)))
        (EText "wallet recovery address count is invalid");
  check (bool_decide (rp_Derivation payload = RecoveryDerivationID)) (EText "wallet recovery derivation is invalid").

Definition validateV2KDFParams (params : v2KDFParams) (requireSalt : bool) : result unit :=
  _ ← check (negb (negb (bool_decide (kd_Name params = v2KDFName)) ||
              (kd_Time params <? minV2KDFTime) || (maxV2KDFTime <? kd_Time params) ||
              (kd_MemoryKiB params <? minV2KDFMemoryKiB) || (maxV2KDFMemoryKiB <? kd_MemoryKiB params) ||
              (kd_Parallelism params <? 1) || (maxV2KDFParallel <? kd_Parallelism params)))
        (EText "wallet KDF parameters are out of range");
  if requireSalt then _ ← decodeCanonicalBase64 (kd_Salt params) v2SaltBytes; Ok tt
  else check (bool_decide (kd_Salt params = [])) (EText "wallet KDF salt must be generated internally").

Definition supported (network : string) : bool :=
  bool_decide (network = MainNetMachineID) || bool_decide (network = RegTestMachineID).

Definition v2AssociatedData (envelope : v2Envelope) : result bytes :=
  json_header (mkHeaderV2 (ve_SchemaVersion envelope) (ve_Network envelope) (ve_KDF envelope)
                 (ci_Name (ve_Cipher envelope))).

(** [chacha20poly1305.NewX] *)
Definition newX (key : bytes) : result bytes :=
  _ ← check (length key =? aead_key_size)%nat (EText "chacha20poly1305: bad key length"); Ok key.

Definition password_key (password salt : bytes) (params : v2KDFParams) : bytes :=
  argon2_IDKey password salt (kd_Time params) (kd_MemoryKiB params) (kd_Parallelism params) 32.

(** ** Sealing and opening *)
(** What [sealRecoveryPayload] does once it has a salt and a nonce. *)
Definition seal_with (network : string) (password : bytes) (payload : recoveryPayload) (params : v2KDFParams)
    (salt nonce : bytes) : result bytes :=
  let params := mkKDF v2KDFName (b64_encode std_alphabet salt) (kd_Time params) (kd_MemoryKiB params) (kd_Parallelism params) in
  let envelope := mkEnvelope SchemaVersionV2 network params
                    (mkCipher v2CipherName (b64_encode std_alphabet nonce) []) in
  associatedData ← v2AssociatedData envelope;
  plaintext ← json_payload payload;
  aead ← newX (password_key password salt params);
  let ciphertext := aead_seal aead nonce plaintext associatedData in
  let envelope := mkEnvelope SchemaVersionV2 network params
                    (mkCipher v2CipherName (b64_encode std_alphabet nonce) (b64_encode std_alphabet ciphertext)) in
  encoded ← json_envelope envelope;
  let encoded := encoded ++ [Byte.x0a] in
  _ ← check (Z.of_nat (length encoded) <=? MaxWalletFileBytes) (EText "wallet V2 encoding exceeds size bound");
  Ok encoded.

Definition sealRecoveryPayload (network : string) (password : bytes) (payload : recoveryPayload)
    (params : v2KDFParams) : io bytes :=
  _ ← guard (supported network) (EText "unsupported wallet network");
  _ ← guard (negb ((length password <? 1)%nat || (1024 <? Z.of_nat (length password))))
        (EText "wallet password length out of range");
  _ ← lift (validateRecoveryPayload payload);
  _ ← lift (validateV2KDFParams params false);
  salt ← wrapping "read wallet salt" (rand_read v2SaltBytes);
  nonce ← wrapping "read wallet nonce" (rand_read v2NonceBytes);
  lift (seal_with network password payload params salt nonce).

(** The error of a step replaced by a format error. *)
Definition or_format {A} (r : result A) (message : string) : result A :=
  match r with Ok a => Ok a | Err _ => Err (walletV2FormatError message) end.

Definition openRecoveryPayload (encoded password : bytes) (expectedNetwork : string) : result recoveryPayload :=
  _ ← check (negb ((length encoded =? 0)%nat || (MaxWalletFileBytes <? Z.of_nat (length encoded))))
        (walletV2FormatError "wallet file size is invalid");
  _ ← check (negb ((length password <? 1)%nat || (1024 <? Z.of_nat (length password)))) ErrWalletUnlock;
  _ ← check (supported expectedNetwork) (walletV2FormatError "expected network is invalid");
  _ ← or_format (rejectDuplicateJSONKeys encoded) "wallet JSON is invalid";
  envelope ← or_format (decodeStrictJSON decode_envelope encoded) "wallet envelope is invalid";
  _ ← check ((ve_SchemaVersion envelope =? SchemaVersionV2) && bool_decide (ve_Network envelope = expectedNetwork))
        (walletV2FormatError "wallet schema or network mismatch");
  _ ← or_format (validateV2KDFParams (ve_KDF envelope) true) "wallet KDF is invalid";
  _ ← check (bool_decide (ci_Name (ve_Cipher envelope) = v2CipherName)) (walletV2FormatError "wallet cipher is invalid");
  salt ← or_format (decodeCanonicalBase64 (kd_Salt (ve_KDF envelope)) v2SaltBytes) "wallet salt is invalid";
  nonce ← or_format (decodeCanonicalBase64 (ci_Nonce (ve_Cipher envelope)) v2NonceBytes) "wallet nonce is invalid";
  ciphertext ← or_format (decodeCanonicalBase64Range (ci_Ciphertext (ve_Cipher envelope))
                            (Z.of_nat aead_overhead + 1) MaxWalletFileBytes) "wallet ciphertext is invalid";
  associatedData ← or_format (v2AssociatedData envelope) "wallet header is invalid";
  aead ← match newX (password_key password salt (ve_KDF envelope)) with Ok k => Ok k | Err _ => Err ErrWalletUnlock end;
  plaintext ← match aead_open aead nonce ciphertext associatedData with
              | Some p => Ok p | None => Err ErrWalletUnlock end;
  _ ← or_format (rejectDuplicateJSONKeys plaintext) "wallet payload JSON is invalid";
  payload ← or_format (decodeStrictJSON decode_payload plaintext) "wallet payload is invalid";
  _ ← or_format (validateRecoveryPayload payload) "wallet recovery payload is invalid";
  Ok payload.

(** ** Keys of a payload *)
Definition recoveryKeysFromPayload (payload : recoveryPayload) (network : string) : result (list bytes) :=
  _ ← validateRecoveryPayload payload;
  seed ← recoverySeedFromEntropy (rp_Entropy payload);
  foldM (fun keys index => key ← deriveRecoveryPrivateKeyFromSeed seed network index; Ok (keys ++ [key]))
    [] (seqZ 0 (rp_AddressCount payload)).
End recovery.

(** * Sealing, opening and key derivation: proofs

    The laws of the JSON codec, the strict readers on its output, that a sealed payload
    opens to itself, what an opened file must contain, and the keys of a payload. *)

(** Texts that JSON carries unchanged, and the range of the numbers. *)
Definition ascii (s : bytes) : Prop := Forall (fun c => b2z c < 128) s.
Definition kdf_plain (k : v2KDFParams) : Prop :=
  ascii (bs (kd_Name k)) /\ ascii (kd_Salt k) /\ in_u32 (kd_Time k) /\ in_u32 (kd_MemoryKiB k) /\ 0 <= kd_Parallelism k < 256.
Definition envelope_plain (e : v2Envelope) : Prop :=
  in_i64 (ve_SchemaVersion e) /\ ascii (bs (ve_Network e)) /\ kdf_plain (ve_KDF e) /\
  ascii (bs (ci_Name (ve_Cipher e))) /\ ascii (ci_Nonce (ve_Cipher e)) /\ ascii (ci_Ciphertext (ve_Cipher e)).
Definition payload_plain (p : recoveryPayload) : Prop := in_u32 (rp_AddressCount p) /\ ascii (bs (rp_Derivation p)).

(** The number of bytes of the texts of a value. *)
Definition envelope_texts (e : v2Envelope) : nat :=
  (length (bs (ve_Network e)) + length (bs (kd_Name (ve_KDF e))) + length (kd_Salt (ve_KDF e)) +
   length (bs (ci_Name (ve_Cipher e))) + length (ci_Nonce (ve_Cipher e)) + length (ci_Ciphertext (ve_Cipher e)))%nat.
Definition payload_texts (p : recoveryPayload) : nat := (length (rp_Entropy p) + length (bs (rp_Derivation p)))%nat.

(** A text is one JSON value that repeats no key and is followed by nothing. *)
Definition one_value `{RecoveryJson} (text : bytes) : Prop :=
  exists v, wallet_tokens text = (tokens v, true) /\ distinct v.

(** Marshalling these structs succeeds; its output is one value without repeated keys,
    decodes to what was marshalled, contains the texts, and is at most six bytes per byte
    of text longer than the names and numbers around them. *)
Class RecoveryJsonLaws `{RecoveryJson} : Prop := {
  header_marshals h : exists b, json_header h = Ok b;
  payload_marshals p : exists b, json_payload p = Ok b;
  envelope_marshals e : exists b, json_envelope e = Ok b;
  payload_decodes p b : payload_plain p -> json_payload p = Ok b ->
    one_value b /\ exists rest, decode_payload b = Ok (p, rest) /\ at_eof rest = true;
  envelope_decodes e b : envelope_plain e -> json_envelope e = Ok b ->
    one_value (b ++ [Byte.x0a]) /\ probe_schema (b ++ [Byte.x0a]) = Some (ve_SchemaVersion e) /\
    exists rest, decode_envelope (b ++ [Byte.x0a]) = Ok (e, rest) /\ at_eof rest = true;
  payload_size p b : payload_plain p -> json_payload p = Ok b ->
    (1 <= length b <= 512 + 6 * payload_texts p)%nat;
  envelope_size e b : envelope_plain e -> json_envelope e = Ok b ->
    (length (ci_Ciphertext (ve_Cipher e)) <= length b <= 512 + 6 * envelope_texts e)%nat;
}.

(** ** The strict readers *)
Lemma walk_json_spec :
  (forall v fuel rest, (length (tokens v) <= fuel)%nat ->
     outcome_is (scan v) rest (walkJSONValue fuel AtValue (tokens v ++ rest))) /\
  (forall fs seen fuel rest, (length (field_tokens fs) <= fuel)%nat ->
     outcome_is (scan_fields seen fs) rest (walkJSONValue fuel (InObject seen) (field_tokens fs ++ rest))) /\
  (forall vs fuel rest, (length (value_tokens vs) <= fuel)%nat ->
     outcome_is (scan_values vs) rest (walkJSONValue fuel InArray (value_tokens vs ++ rest))).
Proof.
  apply json_ind3; cbn [tokens field_tokens value_tokens scan scan_fields scan_values length app];
    try (intros; (destruct fuel as [|fuel]; [lia|done])).
  - intros fs IH [|fuel] rest Hf; [lia|]. apply IH. lia.
  - intros vs IH [|fuel] rest Hf; [lia|]. apply IH. lia.
  - intros k v IHv fs IHfs seen [|fuel] rest Hf; [lia|]. rewrite length_app in Hf.
    cbn [walkJSONValue more]. rewrite <- app_assoc. destruct (decide (k ∈ seen)) as [Hin|Hni].
    + rewrite bool_decide_eq_false_2 by (by intros ?). cbn. eauto.
    + rewrite bool_decide_eq_true_2 by done. cbn [andb]. eapply then_outcome; [apply IHv; lia|apply IHfs; lia].
  - intros v IHv vs IHvs fuel rest Hf. rewrite length_app in Hf.
    pose proof (tokens_pos v). pose proof (value_tokens_pos vs). destruct fuel as [|fuel]; [lia|].
    cbn [walkJSONValue]. rewrite <- app_assoc, more_tokens. eapply then_outcome; [apply IHv; lia|apply IHvs; lia].
Qed.

Section strict.
Context `{RecoveryJson}.

Lemma one_value_passes text : one_value text -> rejectDuplicateJSONKeys text = Ok tt.
Proof.
  intros (v & Ht & Hd). unfold rejectDuplicateJSONKeys. rewrite Ht.
  pose proof (proj1 walk_json_spec v (S (length (tokens v))) [] ltac:(lia)) as Hw. rewrite app_nil_r in Hw.
  rewrite (proj2 (proj1 scan_spec v) Hd) in Hw. unfold outcome_is in Hw. by rewrite Hw.
Qed.

Lemma strict_Ok {A : Type} (decode : bytes -> result (A * bytes)) data a rest :
  decode data = Ok (a, rest) -> at_eof rest = true -> decodeStrictJSON decode data = Ok a.
Proof. intros Hd He. unfold decodeStrictJSON. rewrite Hd. cbn [mbind result_bind]. by rewrite He. Qed.
End strict.

(** ** Base64 fields *)
Lemma ascii_b64 b : ascii (b64_encode std_alphabet b).
Proof.
  apply list.Forall_forall. intros c Hc. apply (b64_encode_elem _ std_alphabet_ok) in Hc.
  assert (Hall : forallb (fun c => b2z c <? 128) std_alphabet = true) by (vm_compute; reflexivity).
  rewrite forallb_forall in Hall. apply list_elem_of_In, Hall in Hc. by bool_prop.
Qed.

Lemma b64_longer b : (length b <= length (b64_encode std_alphabet b) <= 2 * length b)%nat.
Proof. induction b as [|x|x y|x y z b IH] using bytes_ind3; cbn [b64_encode length] in *; lia. Qed.

Lemma canonical_range b lo hi : lo <= Z.of_nat (length b) <= hi ->
  decodeCanonicalBase64Range (b64_encode std_alphabet b) lo hi = Ok b.
Proof.
  intros [Hlo Hhi]. unfold decodeCanonicalBase64Range. rewrite (b64_decode_encode _ std_alphabet_ok).
  rewrite (proj2 (Z.ltb_ge _ _) Hlo), (proj2 (Z.ltb_ge _ _) Hhi), bool_decide_eq_true_2 by done. done.
Qed.

Lemma canonical_exact b n : length b = n -> decodeCanonicalBase64 (b64_encode std_alphabet b) n = Ok b.
Proof. intros <-. apply canonical_range. lia. Qed.

Lemma canonical_range_inv s lo hi b : decodeCanonicalBase64Range s lo hi = Ok b ->
  s = b64_encode std_alphabet b /\ lo <= Z.of_nat (length b) <= hi.
Proof.
  unfold decodeCanonicalBase64Range. destruct (b64_decode _ s) as [d|]; [|done].
  destruct (_ || _) eqn:E; [done|]. intros ?. res_simpl. bool_prop. done.
Qed.

(** ** Sealing and opening *)
Lemma supported_cases network : supported network = true <-> network = MainNetMachineID \/ network = RegTestMachineID.
Proof. unfold supported. by rewrite orb_true_iff, !bool_decide_eq_true. Qed.

Lemma supported_ascii network : supported network = true -> ascii (bs network) /\ (length (bs network) <= 64)%nat.
Proof.
  intros [-> | ->]%supported_cases; (split; [|vm_compute; lia]); apply list.Forall_forall; intros c Hc;
    apply list_elem_of_In in Hc; vm_compute in Hc; intuition (subst; vm_compute; reflexivity).
Qed.

Lemma payload_valid p u : validateRecoveryPayload p = Ok u <->
  length (rp_Entropy p) = RecoveryEntropyBytes /\ 1 <= rp_AddressCount p <= MaxWalletKeys /\ rp_Derivation p = RecoveryDerivationID.
Proof.
  destruct u. unfold validateRecoveryPayload. split.
  - intros E. res_simpl. bool_prop. by rewrite <- Nat.eqb_eq.
  - intros (-> & Hc & ->). cbn [check mbind result_bind Nat.eqb RecoveryEntropyBytes].
    rewrite (proj2 (Z.ltb_ge _ 1)), (proj2 (Z.ltb_ge _ _)) by lia. cbn [negb orb check mbind result_bind].
    by rewrite bool_decide_eq_true_2.
Qed.

Lemma kdf_range k b u : validateV2KDFParams k b = Ok u -> kd_Name k = v2KDFName /\
  minV2KDFTime <= kd_Time k <= maxV2KDFTime /\ minV2KDFMemoryKiB <= kd_MemoryKiB k <= maxV2KDFMemoryKiB /\
  1 <= kd_Parallelism k <= maxV2KDFParallel.
Proof. unfold validateV2KDFParams. intros E. res_simpl. bool_prop. done. Qed.

Lemma kdf_salted k salt u : validateV2KDFParams k false = Ok u -> length salt = v2SaltBytes ->
  validateV2KDFParams (mkKDF v2KDFName (b64_encode std_alphabet salt) (kd_Time k) (kd_MemoryKiB k) (kd_Parallelism k)) true = Ok tt.
Proof.
  intros Hk Hs. unfold validateV2KDFParams in *. res_simpl. bool_prop. cbn [kd_Name kd_Salt kd_Time kd_MemoryKiB kd_Parallelism].
  rewrite bool_decide_eq_true_2 by done. rewrite !(proj2 (Z.ltb_ge _ _)) by done.
  cbn [negb orb check mbind result_bind]. by rewrite (canonical_exact salt).
Qed.

(** [argon2.IDKey] returns as many bytes as it is asked for. *)
Class KdfLaws `{Crypto} : Prop := { length_IDKey p s t m k : length (argon2_IDKey p s t m k 32) = 32%nat }.

Definition password_ok (password : bytes) : Prop := 1 <= Z.of_nat (length password) <= 1024.

Section seal.
Context `{Crypto} `{!KdfLaws} `{RecoveryCrypto} `{!RecoveryCryptoLaws} `{RecoveryJson} `{!RecoveryJsonLaws}.
Context (network : string) (password : bytes) (payload : recoveryPayload) (params : v2KDFParams) (salt nonce : bytes).
Hypothesis Hnet : supported network = true.
Hypothesis Hpass : password_ok password.
Hypothesis Hpay : validateRecoveryPayload payload = Ok tt.
Hypothesis Hkdf : validateV2KDFParams params false = Ok tt.
Hypothesis Hsalt : length salt = v2SaltBytes.
Hypothesis Hnonce : length nonce = v2NonceBytes.

Let salted : v2KDFParams :=
  mkKDF v2KDFName (b64_encode std_alphabet salt) (kd_Time params) (kd_MemoryKiB params) (kd_Parallelism params).
Let sealed (ciphertext : bytes) : v2Envelope :=
  mkEnvelope SchemaVersionV2 network salted
    (mkCipher v2CipherName (b64_encode std_alphabet nonce) (b64_encode std_alphabet ciphertext)).

Lemma salted_plain : kdf_plain salted.
Proof.
  destruct (kdf_range params false tt Hkdf) as (_ & Ht & Hm & Hp).
  unfold kdf_plain, salted, in_u32, two32, minV2KDFTime, maxV2KDFTime, minV2KDFMemoryKiB, maxV2KDFMemoryKiB, maxV2KDFParallel in *.
  cbn [kd_Name kd_Salt kd_Time kd_MemoryKiB kd_Parallelism]. split_and!; [|apply ascii_b64|lia..].
  apply list.Forall_forall. intros c Hc. apply list_elem_of_In in Hc. vm_compute in Hc.
  intuition (subst; vm_compute; reflexivity).
Qed.

Lemma sealed_plain c : envelope_plain (sealed c).
Proof.
  unfold envelope_plain, sealed. cbn [ve_SchemaVersion ve_Network ve_KDF ve_Cipher ci_Name ci_Nonce ci_Ciphertext].
  split; [by vm_compute|]. split; [apply supported_ascii, Hnet|]. split; [apply salted_plain|].
  split; [|split; apply ascii_b64].
  apply list.Forall_forall. intros b Hc. apply list_elem_of_In in Hc. vm_compute in Hc.
  intuition (subst; vm_compute; reflexivity).
Qed.

Lemma derivation_plain : payload_plain payload.
Proof.
  apply payload_valid in Hpay as (_ & Hc & Hd). split.
  - unfold in_u32, two32, MaxWalletKeys in *. lia.
  - rewrite Hd. apply list.Forall_forall. intros b Hb. apply list_elem_of_In in Hb. vm_compute in Hb.
    intuition (subst; vm_compute; reflexivity).
Qed.

Lemma newX_key (k : v2KDFParams) : newX (password_key password salt k) = Ok (password_key password salt k).
Proof. unfold newX, password_key. by rewrite length_IDKey. Qed.

Lemma seal_with_inv encoded : seal_with network password payload params salt nonce = Ok encoded ->
  exists associatedData plaintext text, v2AssociatedData (sealed []) = Ok associatedData /\ json_payload payload = Ok plaintext /\
    json_envelope (sealed (aead_seal (password_key password salt salted) nonce plaintext associatedData)) = Ok text /\
    encoded = text ++ [Byte.x0a] /\ Z.of_nat (length encoded) <= MaxWalletFileBytes.
Proof.
  unfold seal_with. intros E. apply bind_Ok in E as (ad & Had & E). apply bind_Ok in E as (plain & Hp & E).
  rewrite newX_key in E. cbn [mbind result_bind] in E. apply bind_Ok in E as (text & Ht & E). res_simpl. bool_prop. by eauto 9.
Qed.

Lemma sealed_opens encoded : seal_with network password payload params salt nonce = Ok encoded ->
  openRecoveryPayload encoded password network = Ok payload /\ probe_schema encoded = Some SchemaVersionV2.
Proof using All.
  intros (ad & plain & text & Had & Hp & Ht & -> & Hsize)%seal_with_inv.
  destruct (envelope_decodes _ _ (sealed_plain _) Ht) as (Hv & Hprobe & rest & Hdec & Heof).
  destruct (payload_decodes _ _ derivation_plain Hp) as (Hv' & rest' & Hdec' & Heof').
  split; [|done]. unfold openRecoveryPayload.
  pose proof (envelope_size _ _ (sealed_plain _) Ht) as Hlen. pose proof (payload_size _ _ derivation_plain Hp) as Hlen'.
  unfold sealed in Hlen at 1. cbn [ve_Cipher ci_Ciphertext] in Hlen.
  rewrite (proj2 (Nat.eqb_neq _ 0)) by (rewrite length_app; cbn [length]; lia).
  rewrite (proj2 (Z.ltb_ge _ _) Hsize). cbn [orb negb check mbind result_bind].
  destruct Hpass as [Hlo Hhi]. rewrite (proj2 (Nat.ltb_ge _ 1)), (proj2 (Z.ltb_ge _ _) Hhi) by lia.
  cbn [orb negb check mbind result_bind]. rewrite Hnet. cbn [check mbind result_bind].
  rewrite (one_value_passes _ Hv), (strict_Ok _ _ _ _ Hdec Heof). cbn [or_format mbind result_bind].
  cbn [ve_SchemaVersion ve_Network ve_KDF ve_Cipher ci_Name ci_Nonce ci_Ciphertext sealed].
  rewrite bool_decide_eq_true_2 by done. cbn [SchemaVersionV2 Z.eqb Pos.eqb andb check mbind result_bind].
  rewrite (kdf_salted params salt tt Hkdf Hsalt : validateV2KDFParams salted true = Ok tt). cbn [or_format mbind result_bind].
  rewrite bool_decide_eq_true_2 by done. cbn [check mbind result_bind].
  change (kd_Salt salted) with (b64_encode std_alphabet salt).
  rewrite (canonical_exact salt _ Hsalt), (canonical_exact nonce _ Hnonce). cbn [or_format mbind result_bind].
  rewrite canonical_range; cycle 1.
  { rewrite length_seal. pose proof (b64_longer (aead_seal (password_key password salt salted) nonce plain ad)) as Hb.
    rewrite length_seal in Hb. unfold aead_overhead. rewrite length_app in Hsize. cbn [length] in Hsize. lia. }
  cbn [or_format mbind result_bind].
  change (v2AssociatedData _) with (v2AssociatedData (sealed [])). rewrite Had. cbn [or_format mbind result_bind].
  change (mkKDF _ _ _ _ _) with salted. rewrite newX_key. cbn [mbind result_bind]. rewrite open_seal. cbn [mbind result_bind].
  rewrite (one_value_passes _ Hv'), (strict_Ok _ _ _ _ Hdec' Heof'). cbn [or_format mbind result_bind].
  by rewrite Hpay.
Qed.

Lemma seal_succeeds : exists encoded, seal_with network password payload params salt nonce = Ok encoded.
Proof using All.
  destruct (header_marshals (mkHeaderV2 SchemaVersionV2 network salted v2CipherName)) as [ad Had].
  destruct (payload_marshals payload) as [plain Hp]. set (c := aead_seal (password_key password salt salted) nonce plain ad).
  destruct (envelope_marshals (sealed c)) as [text Ht]. exists (text ++ [Byte.x0a]).
  unfold seal_with. change (v2AssociatedData _) with (json_header (mkHeaderV2 SchemaVersionV2 network salted v2CipherName)).
  rewrite Had, Hp. cbn [mbind result_bind]. change (mkKDF _ _ _ _ _) with salted. rewrite newX_key. cbn [mbind result_bind].
  change (json_envelope _) with (json_envelope (sealed c)). rewrite Ht. cbn [mbind result_bind].
  rewrite (proj2 (Z.leb_le _ _)); [done|].
  pose proof (envelope_size _ _ (sealed_plain c) Ht) as [_ Hlen]. pose proof (payload_size _ _ derivation_plain Hp) as [_ Hlen'].
  pose proof (proj2 (supported_ascii network Hnet)) as Hn. apply payload_valid in Hpay as (He & _ & Hd).
  unfold payload_texts in Hlen'. rewrite He, Hd in Hlen'. change (length (bs RecoveryDerivationID)) with 41%nat in Hlen'.
  unfold RecoveryEntropyBytes in Hlen'. pose proof (proj2 (b64_longer salt)) as Hbs. pose proof (proj2 (b64_longer nonce)) as Hbn.
  pose proof (proj2 (b64_longer c)) as Hbc. rewrite Hsalt in Hbs. rewrite Hnonce in Hbn. unfold c in Hbc at 2.
  rewrite length_seal in Hbc. unfold envelope_texts, sealed, salted in Hlen.
  cbn [ve_Network ve_KDF ve_Cipher ci_Name ci_Nonce ci_Ciphertext kd_Name kd_Salt] in Hlen.
  change (length (bs v2KDFName)) with 8%nat in Hlen. change (length (bs v2CipherName)) with 17%nat in Hlen.
  unfold v2SaltBytes, v2NonceBytes, MaxWalletFileBytes in *. rewrite length_app. cbn [length]. lia.
Qed.
End seal.

Lemma or_format_Ok {A : Type} (r : result A) m a : or_format r m = Ok a <-> r = Ok a.
Proof. by destruct r. Qed.

Section open.
Context `{Crypto} `{RecoveryCrypto} `{!RecoveryCryptoLaws} `{RecoveryJson}.

(** What a file that opens contains: the authenticated header of this network, within
    the bounds of the key derivation, and a ciphertext sealed under the password. *)
Definition authentic (encoded password : bytes) (network : string) (payload : recoveryPayload) : Prop :=
  exists envelope salt nonce plaintext associatedData,
    decodeStrictJSON decode_envelope encoded = Ok envelope /\
    ve_SchemaVersion envelope = SchemaVersionV2 /\ ve_Network envelope = network /\
    validateV2KDFParams (ve_KDF envelope) true = Ok tt /\ ci_Name (ve_Cipher envelope) = v2CipherName /\
    v2AssociatedData envelope = Ok associatedData /\
    kd_Salt (ve_KDF envelope) = b64_encode std_alphabet salt /\ length salt = v2SaltBytes /\
    ci_Nonce (ve_Cipher envelope) = b64_encode std_alphabet nonce /\ length nonce = v2NonceBytes /\
    ci_Ciphertext (ve_Cipher envelope) =
      b64_encode std_alphabet (aead_seal (password_key password salt (ve_KDF envelope)) nonce plaintext associatedData) /\
    decodeStrictJSON decode_payload plaintext = Ok payload.

Lemma unlock_Ok {A : Type} (r : result A) a : match r with Ok k => Ok k | Err _ => Err ErrWalletUnlock end = Ok a <-> r = Ok a.
Proof. by destruct r. Qed.

Lemma opened_authentic encoded password network payload : openRecoveryPayload encoded password network = Ok payload ->
  validateRecoveryPayload payload = Ok tt /\ supported network = true /\ password_ok password /\
  authentic encoded password network payload.
Proof.
  unfold openRecoveryPayload. intros E. res_simpl.
  repeat match goal with
  | H : or_format _ _ = Ok _ |- _ => apply or_format_Ok in H
  | H : match newX _ with Ok _ => _ | Err _ => _ end = Ok _ |- _ => apply (proj1 (unlock_Ok _ _)) in H
  | H : match aead_open _ _ _ _ with Some _ => _ | None => _ end = Ok _ |- _ =>
      let E := fresh "Hopen" in destruct (aead_open _ _ _ _) eqn:E; [|done]
  | H : decodeCanonicalBase64 _ _ = Ok _ |- _ => apply canonical_range_inv in H as [? ?]
  | H : decodeCanonicalBase64Range _ _ _ = Ok _ |- _ => apply canonical_range_inv in H as [? ?]
  | H : newX _ = Ok _ |- _ => unfold newX in H; res_simpl
  | H : unit |- _ => destruct H
  end. res_simpl. bool_prop. apply seal_open in Hopen. subst.
  split_and!; [done|done|unfold password_ok; repeat match goal with H : (_ <? _)%nat = false |- _ => apply Nat.ltb_ge in H end; lia|].
  unfold authentic. do 5 eexists. split_and!; try done; lia.
Qed.

Lemma walletV2FormatError_Is m : errors_Is (walletV2FormatError m) "wallet V2 format is invalid" = true.
Proof. reflexivity. Qed.

(** The errors of a chain of steps are those of its steps. *)
Lemma bind_errors {A B : Type} (P : error -> Prop) (m : result A) (k : A -> result B) :
  (forall e, m = Err e -> P e) -> (forall a e, k a = Err e -> P e) -> forall e, mbind k m = Err e -> P e.
Proof. intros Hm Hk e. destruct m as [a|e0]; cbn; [apply Hk|]. intros E. res_simpl. by apply Hm. Qed.

Lemma open_errors encoded password network e : openRecoveryPayload encoded password network = Err e ->
  e = ErrWalletUnlock \/ exists m, e = walletV2FormatError m.
Proof.
  revert e. unfold openRecoveryPayload.
  repeat (apply bind_errors;
    [intros e; unfold check, or_format; case_match; intros ?; res_simpl; by eauto|intros ? ]).
  done.
Qed.
End open.

(** ** Keys *)
Section keys.
Context `{Crypto} `{!CryptoLaws} `{WordList} `{!WordListLaws} `{RecoveryCrypto} `{!RecoveryCryptoLaws}.

Lemma slip10_lengths st c st' : slip10_child st c = Ok st' -> length st'.1 = 32%nat /\ length st'.2 = 32%nat.
Proof.
  unfold slip10_child. destruct st as [private chainCode]. intros E. res_simpl. cbn [fst snd].
  by rewrite length_take, length_drop, !length_hmac.
Qed.

Lemma derive_path seed path : (16 <= length seed <= 64)%nat -> Forall (fun c => c < 2 ^ 31) path ->
  exists private chainCode, deriveSLIP10Ed25519 seed path = Ok (private, chainCode) /\ length private = 32%nat.
Proof.
  intros Hs Hp. unfold deriveSLIP10Ed25519. rewrite (proj2 (Nat.ltb_ge _ 16)), (proj2 (Nat.ltb_ge 64 _)) by lia.
  cbn [orb negb check mbind result_bind]. set (sum := hmac_sha512 _ _).
  assert (Hl : length (take 32 sum) = 32%nat) by (unfold sum; by rewrite length_take, length_hmac).
  revert Hl. generalize (take 32 sum) (drop 32 sum). induction Hp as [|c path Hc Hp IH]; intros a b Hl; [by do 2 eexists|].
  cbn [foldM]. unfold slip10_child at 1. rewrite (proj2 (Z.ltb_lt _ _) Hc). cbn [check mbind result_bind].
  apply IH. by rewrite length_take, length_hmac.
Qed.

(** The address key of an index, which always exists. *)
Definition key_at (entropy : bytes) (network : string) (index : Z) : bytes :=
  match deriveRecoveryPrivateKeyFromEntropy entropy network index with Ok key => key | Err _ => [] end.

Lemma seed_of_entropy entropy : length entropy = RecoveryEntropyBytes ->
  exists seed, recoverySeedFromEntropy entropy = Ok seed /\ length seed = 64%nat.
Proof.
  intros He. unfold recoverySeedFromEntropy. rewrite (mnemonic_words entropy He). cbn [mbind result_bind].
  eexists. split; [done|]. apply length_pbkdf2.
Qed.

Lemma derive_ok seed network index : length seed = 64%nat -> supported network = true -> index < 2 ^ 31 ->
  exists key, deriveRecoveryPrivateKeyFromSeed seed network index = Ok key /\ length key = 32%nat.
Proof.
  intros Hs Hnet Hi. unfold deriveRecoveryPrivateKeyFromSeed. rewrite (proj2 (Z.ltb_lt _ _) Hi).
  cbn [check mbind result_bind]. apply supported_cases in Hnet as [-> | ->];
    (rewrite ?(bool_decide_eq_true_2 _ eq_refl); try (rewrite bool_decide_eq_false_2 by done));
    cbn [mbind result_bind];
    match goal with |- context [deriveSLIP10Ed25519 seed ?p] =>
      destruct (derive_path seed p) as (k & c & -> & Hk); [lia|repeat constructor; lia|] end;
    cbn [mbind result_bind]; by eauto.
Qed.

Lemma key_at_ok entropy network index : length entropy = RecoveryEntropyBytes -> supported network = true -> index < 2 ^ 31 ->
  deriveRecoveryPrivateKeyFromEntropy entropy network index = Ok (key_at entropy network index) /\
  length (key_at entropy network index) = 32%nat.
Proof.
  intros He Hnet Hi. unfold key_at, deriveRecoveryPrivateKeyFromEntropy.
  destruct (seed_of_entropy entropy He) as (seed & -> & Hs). cbn [mbind result_bind].
  by destruct (derive_ok seed network index Hs Hnet Hi) as (key & -> & Hk).
Qed.

Lemma foldM_collect {A B : Type} (f : A -> result B) (g : A -> B) l acc : Forall (fun x => f x = Ok (g x)) l ->
  foldM (fun acc x => y ← f x; Ok (acc ++ [y])) acc l = Ok (acc ++ map g l).
Proof.
  intros Hl. revert acc. induction Hl as [|x l Hx Hl IH]; intros acc; cbn [foldM map]; [by rewrite app_nil_r|].
  rewrite Hx. cbn [mbind result_bind]. rewrite IH. by rewrite <- app_assoc.
Qed.

Definition payload_keys (p : recoveryPayload) (network : string) : list bytes :=
  map (key_at (rp_Entropy p) network) (seqZ 0 (rp_AddressCount p)).

Lemma recovery_keys p network : validateRecoveryPayload p = Ok tt -> supported network = true ->
  recoveryKeysFromPayload p network = Ok (payload_keys p network).
Proof.
  intros Hv Hnet. unfold recoveryKeysFromPayload. rewrite Hv. apply payload_valid in Hv as (He & Hc & _).
  cbn [mbind result_bind]. destruct (seed_of_entropy _ He) as (seed & Hseed & Hlen). rewrite Hseed. cbn [mbind result_bind].
  rewrite (foldM_collect _ (key_at (rp_Entropy p) network)); [done|].
  apply list.Forall_forall. intros i Hi%elem_of_seqZ. unfold MaxWalletKeys in Hc.
  destruct (key_at_ok (rp_Entropy p) network i He Hnet ltac:(lia)) as [Hk _].
  unfold deriveRecoveryPrivateKeyFromEntropy in Hk. by rewrite Hseed in Hk.
Qed.

Lemma length_payload_keys p network : 0 <= rp_AddressCount p ->
  Z.of_nat (length (payload_keys p network)) = rp_AddressCount p.
Proof. intros Hc. unfold payload_keys. rewrite length_map, length_seqZ. lia. Qed.

(** One more address adds one key and keeps the others. *)
Lemma payload_keys_snoc e n d network : 0 <= n ->
  payload_keys (mkPayload e (n + 1) d) network = payload_keys (mkPayload e n d) network ++ [key_at e network n].
Proof.
  intros Hn. unfold payload_keys. cbn [rp_Entropy rp_AddressCount].
  rewrite seqZ_app, map_app by lia. by rewrite Z.add_0_l.
Qed.
End keys.
