(* ===== verification/WalletPath.v ===== *)
(** * The files under a wallet (wallet/wallet.go, filelock_unix.go, durable_replace_unix.go)

    Canonical paths, the lock file, the check for hard links and the durable replacement
    of the wallet file, on the file tree with faults and crashes.

    [readlink] gives the absolute target of a symbolic link, [nlink] the number of names of
    a file, [temp_name] the name [os.CreateTemp] ends up trying; [Abs] is [filepath.Abs]
    followed by [filepath.Clean], as a list of components.  Links are followed when a path
    is made canonical; the calls on a canonical path do not meet any.  Permissions are not
    part of the tree; [flock] makes every locked operation run by itself, so it only
    appears as a call that can fail. *)
From S2P Require Import Prelude Text GoStrings FileTree.

Class WalletFs := {
  readlink : path -> path;
  nlink : tree -> path -> Z;
  temp_name : tree -> bytes;
  Abs : bytes -> result path;
}.

(** ** Symbolic links *)
Section paths.
Context `{WalletFs}.

(** The path of the file that a path leads to; at most 255 links are followed. *)
Fixpoint resolve (fuel : nat) (t : tree) (at_ rest : path) {struct fuel} : result path :=
  match fuel with
  | O => Err (EText "too many links")
  | S fuel =>
      (fix walk (at_ rest : path) {struct rest} : result path :=
         match rest with
         | [] => Ok at_
         | name :: rest =>
             let q := at_ ++ [name] in
             match t !! q with
             | None => Err (EText ErrNotExist)
             | Some NLink => resolve fuel t [] (readlink q ++ rest)
             | Some NDir => walk q rest
             | Some (NFile _) => match rest with [] => Ok q | _ => Err (EText "not a directory") end
             end
         end) at_ rest
  end.
Definition follow (t : tree) (p : path) : result path := resolve 256 t [] p.

(** [filepath.EvalSymlinks] and [os.Stat] *)
Definition EvalSymlinks (p : path) : io path := syscall (fun t => (t, follow t p)) no_effect.
Definition Stat (p : path) : io node :=
  syscall (fun t => (t, q ← follow t p; match t !! q with Some n => Ok n | None => not_exist end)) no_effect.

(** [os.MkdirAll], through links. *)
Definition mkdir_at (r : tree * result unit) (p : path) : tree * result unit :=
  match r with
  | (t, Ok _) =>
      match follow t p with
      | Ok q => (t, match t !! q with Some NDir => Ok tt | _ => Err (EText "not a directory") end)
      | Err _ =>
          match follow t (parent p), last p with
          | Ok dir, Some name =>
              match t !! (dir ++ [name]) with
              | None => (<[dir ++ [name] := NDir]> t, Ok tt)
              | Some _ => (t, Err (EText "file exists"))
              end
          | Ok _, None => (t, Ok tt)
          | Err e, _ => (t, Err e)
          end
      end
  | _ => r
  end.
Definition mkdir_links (t : tree) (ps : list path) : tree * result unit := foldl mkdir_at (t, Ok tt) ps.
Definition MkdirAll_links (p : path) : io unit :=
  syscall (fun t => mkdir_links t (prefixes p)) (fun part _ t => (mkdir_links t (take part (prefixes p))).1).

Definition base (p : path) : path := match last p with Some name => [name] | None => [] end.

Definition canonicalWalletPath (path_ : bytes) : io path :=
  abs ← lift (Abs path_);
  _ ← MkdirAll_links (parent abs);
  canonicalDir ← EvalSymlinks (parent abs);
  let candidate := canonicalDir ++ base abs in
  resolved ← try (EvalSymlinks candidate);
  match resolved with
  | Ok p => mret p
  | Err err =>
      linkInfo ← try (Lstat candidate);
      match linkInfo with
      | Ok NLink => fail (EText "dangling wallet symlink is not supported")
      | _ => if errors_Is err ErrNotExist then mret candidate else fail err
      end
  end.

(** ** Locks and hard links *)
Definition lock_path (p : path) : path :=
  parent p ++ (match last p with Some name => [name ++ bs ".lock"] | None => [bs ".lock"] end).

(** [os.OpenFile(path, O_CREATE|O_RDWR, 0600)] *)
Definition open_create (p : path) : io unit :=
  syscall (fun t => match t !! p, t !! parent p with
                    | Some NDir, _ => (t, Err (EText "is a directory"))
                    | Some _, _ => (t, Ok tt)
                    | None, Some NDir => (<[p := NFile []]> t, Ok tt)
                    | None, _ => (t, not_exist)
                    end) no_effect.
Definition chmod (p : path) : io unit := syscall (fun t => (t, Ok tt)) no_effect.
Definition flock (p : path) : io unit := syscall (fun t => (t, Ok tt)) no_effect.

(** [if err != nil { file.Close(); return err }] *)
Definition or_close {A} (p : path) (m : io A) : io A :=
  r ← try m;
  match r with Ok a => mret a | Err e => _ ← ignore (close_file p); fail e end.

Definition acquireWalletFileLock (p : path) : io unit :=
  _ ← open_create p;
  _ ← or_close p (chmod p);
  or_close p (flock p).

(** [errors.Join] of two outcomes *)
Definition join_results (a b : result unit) : result unit :=
  match a, b with
  | Ok _, Ok _ => Ok tt
  | Err e, Ok _ | Ok _, Err e => Err e
  | Err e, Err e' => Err (EJoin e e')
  end.

Definition release (p : path) : io unit :=
  unlockErr ← try (flock p);
  closeErr ← try (close_file p);
  lift (join_results unlockErr closeErr).

Definition rejectWalletHardLink (p : path) : io unit :=
  r ← try (syscall (fun t => (t, match t !! p with Some _ => Ok (nlink t p) | None => not_exist end)) no_effect);
  match r with
  | Err e => if errors_Is e ErrNotExist then mret tt else fail e
  | Ok n => guard (n =? 1) (EText "hard-linked wallet files are not supported")
  end.

(** [lock, err := acquire(...); defer func() { err = errors.Join(err, lock.release()) }()]:
    the value of a body whose lock could not be released is dropped. *)
Definition locked {A} (p : path) (body : io A) : io A :=
  _ ← acquireWalletFileLock (lock_path p);
  r ← try body;
  released ← try (release (lock_path p));
  lift (match r, released with
        | Ok a, Ok _ => Ok a
        | Ok _, Err e => Err e
        | Err e, Ok _ => Err e
        | Err e, Err e' => Err (EJoin e e')
        end).

(** ** Durable replacement *)
(** [os.CreateTemp(dir, ".wallet-*.tmp")] *)
Definition temp_path (dir : path) (t : tree) : path := dir ++ [bs ".wallet-" ++ temp_name t ++ bs ".tmp"].
Definition CreateTemp (dir : path) : io path :=
  syscall (fun t => let p := temp_path dir t in
             match t !! p, t !! dir with
             | Some _, _ => (t, Err (EText "file exists"))
             | None, Some NDir => (<[p := NFile []]> t, Ok p)
             | None, _ => (t, not_exist)
             end) no_effect.

(** Opening, syncing and closing the directory. *)
Definition open_dir (p : path) : io unit :=
  syscall (fun t => (t, match t !! p with Some _ => Ok tt | None => not_exist end)) no_effect.
Definition sync_dir (dir : path) : io unit :=
  _ ← open_dir dir;
  syncErr ← try (sync_file dir);
  closeErr ← try (close_file dir);
  lift (join_results syncErr closeErr).

(** What is done with the temporary file until it has replaced the old one. *)
Definition fill_and_rename (tempPath p : path) (data : bytes) : io unit :=
  _ ← or_close tempPath (chmod tempPath);
  _ ← or_close tempPath (write_file tempPath data);
  _ ← or_close tempPath (sync_file tempPath);
  _ ← close_file tempPath;
  os_Rename tempPath p.

Definition durableReplaceWalletFile (p : path) (data : bytes) : io unit :=
  let dir := parent p in
  tempPath ← CreateTemp dir;
  renamed ← try (fill_and_rename tempPath p data);
  match renamed with
  | Err e => _ ← ignore (os_Remove tempPath); fail e
  | Ok _ => sync_dir dir
  end.
End paths.
