(* ===== verification/KeyFile.v ===== *)
(** * Wallet key files (wallet/wallet.go, wallet/recovery_v2.go)

    The operations that create, open, read and extend a wallet file in its three formats:
    the keys alone (legacy), keys with schema and network (V1), and the encrypted recovery
    wallet (V2).  A private key is represented by its seed.  Wiping memory and the test
    hooks are not modelled; a value returned next to an error is dropped. *)
From S2P Require Import Prelude Text GoStrings Params Crypto Address Wallet FileTree WalletPath Mnemonic Recovery.

Record keyFile := mkKeyFile { kf_SchemaVersion : Z; kf_Network : bytes; kf_Keys : option (list bytes) }.

Record walletHandle := mkHandle {
  wh_path : path; wh_network : string; wh_allowLegacy : bool; wh_requireV2 : bool; wh_v2Password : bytes }.

(** The tokens of a JSON text with their values: an integer that fits an [int], or a
    number that does not.  The text ends after them, or goes on with what is not JSON. *)
Inductive jtoken := JObj | JObjEnd | JArr | JArrEnd | JText (s : bytes) | JInt (z : Z) | JOther | JNull.
#[global] Instance jtoken_eq_dec : EqDecision jtoken.
Proof. solve_decision. Defined.
Record jstream := mkStream { js_tokens : list jtoken; js_eof : bool }.

Class KeyJson := {
  json_keyFile : keyFile -> result bytes;
  key_stream : bytes -> jstream;
}.

(** ** Decoding a key file *)
(** [dec.More] *)
Definition more_tokens (s : jstream) : bool :=
  match js_tokens s with [] => negb (js_eof s) | JObjEnd :: _ | JArrEnd :: _ => false | _ => true end.

(** [dec.Token] *)
Definition Token (s : jstream) : result (jtoken * jstream) :=
  match js_tokens s with
  | t :: ts => Ok (t, mkStream ts (js_eof s))
  | [] => Err (EText (if js_eof s then "EOF" else "invalid character"))
  end.

(** The next token has to be a certain delimiter. *)
Definition expect (d : jtoken) (e : error) (s : jstream) : result jstream :=
  match Token s with
  | Ok (t, s) => if decide (t = d) then Ok s else Err e
  | Err _ => Err e
  end.

(** [dec.Decode] into an [int] and into a [string] that held a value before. *)
Definition decode_int (old : Z) (s : jstream) : result (Z * jstream) :=
  '(t, s) ← Token s;
  match t with
  | JInt z => Ok (z, s)
  | JNull => Ok (old, s)
  | _ => Err (EText "json: cannot unmarshal into Go value of type int")
  end.
Definition decode_string (old : bytes) (s : jstream) : result (bytes * jstream) :=
  '(t, s) ← Token s;
  match t with
  | JText v => Ok (v, s)
  | JNull => Ok (old, s)
  | _ => Err (EText "json: cannot unmarshal into Go value of type string")
  end.

(** The loop over the elements; every one takes a token, so [fuel] is their number. *)
Fixpoint array_values (fuel : nat) (maximum : Z) (values : list bytes) (s : jstream) : result (list bytes * jstream) :=
  match fuel with
  | O => Err (EPanic "out of fuel")
  | S fuel =>
      if more_tokens s then
        if Z.of_nat (length values) >=? maximum then Err (EText "wallet key limit exceeded") else
        '(value, s) ← match decode_string [] s with Ok r => Ok r | Err e => Err (wrap "decode wallet key" e) end;
        array_values fuel maximum (values ++ [value]) s
      else Ok (values, s)
  end.

Definition decodeBoundedStringArray (maximum : Z) (s : jstream) : result (list bytes * jstream) :=
  s ← expect JArr (EText "wallet key array is required") s;
  '(values, s) ← array_values (S (length (js_tokens s))) maximum [] s;
  s ← expect JArrEnd (EText "unterminated wallet key array") s;
  Ok (values, s).

(** The value of one field. *)
Definition decode_field (name : bytes) (disk : keyFile) (s : jstream) : result (keyFile * jstream) :=
  let field (r : result (keyFile * jstream)) := match r with Ok v => Ok v | Err e => Err (wrap "decode wallet field" e) end in
  if decide (name = bs "schema_version") then
    field ('(v, s) ← decode_int (kf_SchemaVersion disk) s; Ok (mkKeyFile v (kf_Network disk) (kf_Keys disk), s))
  else if decide (name = bs "network") then
    field ('(v, s) ← decode_string (kf_Network disk) s; Ok (mkKeyFile (kf_SchemaVersion disk) v (kf_Keys disk), s))
  else if decide (name = bs "keys") then
    field ('(v, s) ← decodeBoundedStringArray MaxWalletKeys s;
           Ok (mkKeyFile (kf_SchemaVersion disk) (kf_Network disk) (Some v), s))
  else Err (EText "decode wallet: unknown key").

(** The loop over the fields. *)
Fixpoint decode_fields (fuel : nat) (seen : gset bytes) (disk : keyFile) (s : jstream)
    : result (gset bytes * keyFile * jstream) :=
  match fuel with
  | O => Err (EPanic "out of fuel")
  | S fuel =>
      if more_tokens s then
        '(token, s) ← match Token s with Ok r => Ok r | Err e => Err (wrap "decode wallet" e) end;
        match token with
        | JText name =>
            if decide (name ∈ seen) then Err (EText "decode wallet: duplicate key") else
            '(disk, s) ← decode_field name disk s;
            decode_fields fuel ({[name]} ∪ seen) disk s
        | _ => Err (EText "decode wallet: invalid key")
        end
      else Ok (seen, disk, s)
  end.

Definition decodeKeyFile (s : jstream) : result (keyFile * walletDiskState) :=
  s ← expect JObj (EText "decode wallet: expected object") s;
  '(seen, disk, s) ← decode_fields (S (length (js_tokens s))) ∅ (mkKeyFile 0 [] None) s;
  s ← expect JObjEnd (EText "decode wallet: unterminated object") s;
  _ ← check (bool_decide (js_tokens s = []) && js_eof s) (EText "decode wallet: trailing data");
  let hasKeys := bool_decide (bs "keys" ∈ seen) in
  let hasSchema := bool_decide (bs "schema_version" ∈ seen) in
  let hasNetwork := bool_decide (bs "network" ∈ seen) in
  _ ← check hasKeys (EText "decode wallet: missing required key");
  if (size seen =? 1)%nat && negb hasSchema && negb hasNetwork then Ok (disk, walletLegacy) else
  _ ← check (negb (negb (size seen =? 3)%nat || negb hasSchema || negb hasNetwork))
        (EText "decode wallet: missing required key");
  Ok (disk, walletV1).

Section keys.
Context `{Crypto} `{WordList} `{RecoveryCrypto} `{RecoveryJson} `{KeyJson}.

Definition ed25519_SeedSize : nat := 32.

(** One key of a V1 file: the keys so far, their texts and their addresses. *)
Definition read_key (acc : list bytes * gset bytes * gset bytes) (encoded : bytes)
    : result (list bytes * gset bytes * gset bytes) :=
  let '(keys, seen, seenAddresses) := acc in
  _ ← check (bool_decide (encoded = ToLower encoded)) (EText "corrupt noncanonical key in wallet");
  seed ← match hex_decode encoded with
         | Ok seed => if (length seed =? ed25519_SeedSize)%nat then Ok seed else Err (EText "corrupt key in wallet")
         | Err _ => Err (EText "corrupt key in wallet")
         end;
  _ ← check (bool_decide (encoded ∉ seen)) (EText "duplicate key in wallet");
  let address := addressForKey seed in
  _ ← check (bool_decide (address ∉ seenAddresses)) (EText "duplicate address in wallet");
  Ok (keys ++ [seed], {[encoded]} ∪ seen, {[address]} ∪ seenAddresses).

(** What [readKeysLocked] makes of the bytes of the file. *)
Definition decode_keys (w : walletHandle) (b : bytes) : result (list bytes * walletDiskState) :=
  if bool_decide (probe_schema b = Some SchemaVersionV2) then
    _ ← check (negb (length (wh_v2Password w) =? 0)%nat) ErrWalletUnlock;
    payload ← openRecoveryPayload b (wh_v2Password w) (wh_network w);
    keys ← recoveryKeysFromPayload payload (wh_network w);
    Ok (keys, walletV2)
  else
    _ ← check (negb (wh_requireV2 w)) (walletV2FormatError "wallet is not a V2 recovery wallet");
    '(disk, state) ← decodeKeyFile (key_stream b);
    let legacy := bool_decide (state = walletLegacy) in
    _ ← check (negb ((negb legacy && (negb (kf_SchemaVersion disk =? SchemaVersion) ||
                        negb (bool_decide (kf_Network disk = bs (wh_network w))))) ||
                     (legacy && negb (wh_allowLegacy w))))
          (EText "wallet schema or network mismatch");
    let encoded := match kf_Keys disk with Some l => l | None => [] end in
    _ ← check (negb (match kf_Keys disk with None => true | Some _ => false end ||
                     (length encoded <? 1)%nat || (MaxWalletKeys <? Z.of_nat (length encoded))))
          (EText "wallet key count out of range");
    '(keys, _, _) ← foldM read_key ([], ∅, ∅) encoded;
    Ok (keys, state).

(** What [writeKeysLocked] writes. *)
Definition encode_keys (network : string) (keys : list bytes) : result bytes :=
  b ← json_keyFile (mkKeyFile SchemaVersion (bs network) (Some (map hex_encode keys)));
  let b := b ++ [Byte.x0a] in
  _ ← check (Z.of_nat (length b) <=? MaxWalletFileBytes) (EText "wallet encoding exceeds size bound");
  Ok b.

(** ** The locked operations *)
Context `{WalletFs}.

(** [file.Stat] and [io.ReadAll] on the opened file *)
Definition os_Open (p : path) : io unit :=
  syscall (fun t => (t, match t !! p with
                        | Some NLink => Err (EText "too many links") | Some _ => Ok tt | None => not_exist end)) no_effect.
Definition file_Stat (p : path) : io node := Lstat p.
Definition is_regular (n : node) : bool := match n with NFile _ => true | _ => false end.
Definition node_size (n : node) : Z := match n with NFile c => Z.of_nat (length c) | _ => 0 end.
Definition ReadAll_limited (p : path) (limit : Z) : io bytes :=
  b ← ReadFile p; mret (take (Z.to_nat limit) b).

Definition readWalletBytesLocked (w : walletHandle) : io (bytes * walletDiskState) :=
  file ← try (os_Open (wh_path w));
  match file with
  | Err e => if errors_Is e ErrNotExist then mret ([], walletMissing) else fail e
  | Ok _ =>
      r ← try (
        info ← file_Stat (wh_path w);
        _ ← guard (negb (negb (is_regular info) || (node_size info <=? 0) || (MaxWalletFileBytes <? node_size info)))
              (EText "wallet file size or type is invalid");
        b ← ReadAll_limited (wh_path w) (MaxWalletFileBytes + 1);
        _ ← guard (negb ((length b =? 0)%nat || (MaxWalletFileBytes <? Z.of_nat (length b))))
              (EText "wallet file exceeds size bound");
        _ ← rejectWalletHardLink (wh_path w);
        mret (b, walletV1));
      _ ← ignore (close_file (wh_path w));
      lift r
  end.

Definition readKeysLocked (w : walletHandle) : io (list bytes * walletDiskState) :=
  '(b, state) ← readWalletBytesLocked w;
  if bool_decide (state = walletMissing) then mret ([], state) else lift (decode_keys w b).

Definition writeKeysLocked (w : walletHandle) (keys : list bytes) : io unit :=
  _ ← guard (negb ((length keys <? 1)%nat || (MaxWalletKeys <? Z.of_nat (length keys)))) (EText "wallet key count out of range");
  _ ← rejectWalletHardLink (wh_path w);
  b ← lift (encode_keys (wh_network w) keys);
  durableReplaceWalletFile (wh_path w) b.

Definition unlocked (w : walletHandle) : bool := wh_requireV2 w && negb (length (wh_v2Password w) =? 0)%nat.

Definition readRecoveryPayloadLocked (w : walletHandle) : io recoveryPayload :=
  _ ← guard (unlocked w) ErrWalletUnlock;
  '(encoded, state) ← readWalletBytesLocked w;
  _ ← guard (negb (bool_decide (state = walletMissing))) ErrWalletNotFound;
  lift (openRecoveryPayload encoded (wh_v2Password w) (wh_network w)).

(** [cpus] is [runtime.NumCPU()]. *)
Definition walletV2KDFParams (cpus : Z) : v2KDFParams := defaultV2KDFParams (Z.min cpus 255).

Definition writeRecoveryPayloadLocked (cpus : Z) (w : walletHandle) (payload : recoveryPayload) : io unit :=
  _ ← guard (unlocked w) ErrWalletUnlock;
  _ ← rejectWalletHardLink (wh_path w);
  encoded ← sealRecoveryPayload (wh_network w) (wh_v2Password w) payload (walletV2KDFParams cpus);
  durableReplaceWalletFile (wh_path w) encoded.

(** ** Using a wallet *)
Definition not_nil (w : option walletHandle) : result walletHandle :=
  match w with Some w => Ok w | None => Err (EText "nil wallet") end.

Definition with_keys {A} (w : option walletHandle) (requireKey : bool) (fn : list bytes -> result A) : io A :=
  w ← lift (not_nil w);
  _ ← MkdirAll (parent (wh_path w));
  locked (wh_path w) (
    _ ← rejectWalletHardLink (wh_path w);
    '(keys, state) ← readKeysLocked w;
    _ ← guard (negb (bool_decide (state = walletMissing) && requireKey)) ErrWalletNotFound;
    _ ← guard (negb (requireKey && (length keys =? 0)%nat)) (EText "wallet has no keys");
    lift (fn keys)).

(** [core.NewKey]: the seed of a new key. *)
Definition NewKey : io bytes := rand_read ed25519_SeedSize.

(** The two ways to add a key to the keys that were read. *)
Definition next_recovery_key (cpus : Z) (w : walletHandle) (keys : list bytes) : io bytes :=
  payload ← readRecoveryPayloadLocked w;
  _ ← guard (rp_AddressCount payload =? Z.of_nat (length keys))
        (walletV2FormatError "wallet address count changed during locked update");
  key ← lift (deriveRecoveryPrivateKeyFromEntropy (rp_Entropy payload) (wh_network w) (rp_AddressCount payload));
  _ ← writeRecoveryPayloadLocked cpus w (mkPayload (rp_Entropy payload) (u32 (rp_AddressCount payload + 1)) (rp_Derivation payload));
  mret (addressForKey key).
Definition next_random_key (w : walletHandle) (keys : list bytes) : io bytes :=
  key ← NewKey;
  let newAddress := addressForKey key in
  _ ← guard (negb (existsb (fun existing => bool_decide (addressForKey existing = newAddress)) keys))
        (EText "generated duplicate wallet address");
  _ ← writeKeysLocked w (keys ++ [key]);
  mret newAddress.

Definition NewAddress (cpus : Z) (w : option walletHandle) : io bytes :=
  w ← lift (not_nil w);
  _ ← MkdirAll (parent (wh_path w));
  locked (wh_path w) (
    _ ← rejectWalletHardLink (wh_path w);
    '(keys, state) ← readKeysLocked w;
    _ ← guard (negb (Z.of_nat (length keys) >=? MaxWalletKeys)) (EText "wallet key count limit reached");
    if bool_decide (state = walletV2) then next_recovery_key cpus w keys else next_random_key w keys).

(** ** Opening and creating *)
Definition Close (w : option walletHandle) : option walletHandle :=
  match w with
  | None => None
  | Some w => Some (mkHandle (wh_path w) (wh_network w) (wh_allowLegacy w) (wh_requireV2 w) [])
  end.
Definition Schema (w : option walletHandle) : Z :=
  match w with Some w => if wh_requireV2 w then SchemaVersionV2 else SchemaVersion | None => SchemaVersion end.

Definition check_network (network : string) : io unit := guard (supported network) (EText "unsupported wallet network").

Definition Open (path_ : bytes) (network : string) : io walletHandle :=
  _ ← guard (negb (bool_decide (path_ = []))) (EText "empty wallet file");
  _ ← check_network network;
  canonicalPath ← canonicalWalletPath path_;
  let w := mkHandle canonicalPath network false false [] in
  _ ← with_keys (Some w) false (fun _ => Ok tt);
  mret w.

Definition loadWalletForNetwork (path_ : bytes) (network : string) (allowLegacy : bool) : io walletHandle :=
  _ ← check_network network;
  canonicalPath ← canonicalWalletPath path_;
  let w := mkHandle canonicalPath network allowLegacy false [] in
  _ ← with_keys (Some w) false (fun keys => check (negb (length keys =? 0)%nat) ErrWalletNotFound);
  mret w.

Definition LoadForNetwork (path_ : bytes) (network : string) : io walletHandle :=
  _ ← guard (negb (bool_decide (path_ = []))) (EText "empty wallet file");
  abs ← lift (Abs path_);
  st ← try (Stat abs);
  match st with
  | Err e => fail (if errors_Is e ErrNotExist then ErrWalletNotFound else e)
  | Ok _ => loadWalletForNetwork path_ network true
  end.

(** [filepath.Base] of the path as text: what follows the last slash. *)
Definition Base (path_ : bytes) : bytes := default [] (last (filter (fun c => c <> []) (Split Byte.x2f path_))).
Definition Load (path_ : bytes) : io walletHandle :=
  LoadForNetwork path_ (if Contains (ToLower (Base path_)) (bs "regtest") then RegTestMachineID else MainNetMachineID).

Definition LoadOrCreateForNetwork (path_ : bytes) (network : string) : io walletHandle :=
  _ ← check_network network;
  canonicalPath ← canonicalWalletPath path_;
  let w := mkHandle canonicalPath network true false [] in
  locked (wh_path w) (
    _ ← rejectWalletHardLink (wh_path w);
    '(keys, state) ← readKeysLocked w;
    match state with
    | walletMissing => key ← NewKey; _ ← writeKeysLocked w (keys ++ [key]); mret w
    | walletLegacy => _ ← writeKeysLocked w keys; mret w
    | _ => mret w
    end).

Definition OpenV2 (path_ : bytes) (network : string) (password : bytes) : io walletHandle :=
  _ ← check_network network;
  canonicalPath ← canonicalWalletPath path_;
  let w := mkHandle canonicalPath network false true password in
  _ ← with_keys (Some w) true (fun _ => Ok tt);
  mret w.

Definition ValidateCopy (w : option walletHandle) (path_ : bytes) : io unit :=
  w ← lift (not_nil w);
  if wh_requireV2 w then
    _ ← guard (negb (length (wh_v2Password w) =? 0)%nat) ErrWalletUnlock;
    _ ← OpenV2 path_ (wh_network w) (wh_v2Password w); mret tt
  else _ ← Open path_ (wh_network w); mret tt.

Definition RecoveryPhrase (w : option walletHandle) : io bytes :=
  w ← lift (match w with Some w => if unlocked w then Ok w else Err ErrWalletUnlock | None => Err ErrWalletUnlock end);
  locked (wh_path w) (
    _ ← rejectWalletHardLink (wh_path w);
    payload ← readRecoveryPayloadLocked w;
    lift (recoveryPhraseFromEntropy (rp_Entropy payload))).

Definition createV2FromEntropy (cpus : Z) (path_ : bytes) (network : string) (password entropy : bytes) (addressCount : Z)
    : io walletHandle :=
  _ ← check_network network;
  canonicalPath ← canonicalWalletPath path_;
  let w := mkHandle canonicalPath network false true password in
  locked (wh_path w) (
    _ ← rejectWalletHardLink (wh_path w);
    '(_, state) ← readWalletBytesLocked w;
    _ ← guard (bool_decide (state = walletMissing)) (EText "wallet file already exists");
    let payload := mkPayload entropy addressCount RecoveryDerivationID in
    _ ← lift (validateRecoveryPayload payload);
    _ ← writeRecoveryPayloadLocked cpus w payload;
    '(_, state) ← readKeysLocked w;
    _ ← guard (bool_decide (state = walletV2)) (walletV2FormatError "created wallet did not reopen as V2");
    mret w).

Definition CreateV2 (cpus : Z) (path_ : bytes) (network : string) (password : bytes) : io (walletHandle * bytes) :=
  entropy ← wrapping "read wallet recovery entropy" (rand_read RecoveryEntropyBytes);
  phrase ← lift (recoveryPhraseFromEntropy entropy);
  w ← createV2FromEntropy cpus path_ network password entropy 1;
  mret (w, phrase).

Definition RestoreV2 (cpus : Z) (path_ : bytes) (network : string) (password phrase : bytes) (addressCount : Z) : io walletHandle :=
  entropy ← lift (recoveryEntropyFromPhrase phrase);
  createV2FromEntropy cpus path_ network password entropy addressCount.
End keys.
