(* ===== verification/KeyFileProofs.v ===== *)
(** * Wallet key files: proofs

    First the formats: what is written decodes to the same keys.  Then the programs on the
    file tree: every outcome of a read, of a replacement of the file and of the locked
    operations, faults and crashes included. *)
From S2P Require Import Prelude Text GoStrings Params Crypto Address Wallet FileTree PplnsFile Mnemonic Recovery WalletPath KeyFile.

(** Letters, digits and dashes, which JSON does not escape. *)
Definition plain_char (c : byte) : bool :=
  let z := b2z c in (48 <=? z) && (z <=? 57) || (97 <=? z) && (z <=? 122) || (65 <=? z) && (z <=? 90) || (z =? 45).
Definition plain_text (s : bytes) : Prop := forallb plain_char s = true.

(** The tokens of a key file in V1. *)
Definition key_tokens (version : Z) (network : bytes) (keys : list bytes) : list jtoken :=
  [JObj; JText (bs "schema_version"); JInt version; JText (bs "network"); JText network; JText (bs "keys"); JArr]
  ++ map JText keys ++ [JArrEnd; JObjEnd].

(** Marshalling a key file succeeds; its tokens are its fields in order, and every key
    takes a line with four spaces, two quotes, a comma and the line break. *)
Class KeyJsonLaws `{RecoveryJson} `{KeyJson} : Prop := {
  keyFile_marshals kf : exists b, json_keyFile kf = Ok b;
  keyFile_tokens v n keys b : in_i64 v -> plain_text n -> Forall plain_text keys ->
    json_keyFile (mkKeyFile v n (Some keys)) = Ok b ->
    key_stream (b ++ [Byte.x0a]) = mkStream (key_tokens v n keys) true /\ probe_schema (b ++ [Byte.x0a]) = Some v;
  keyFile_size v n keys b : plain_text n -> Forall plain_text keys ->
    json_keyFile (mkKeyFile v n (Some keys)) = Ok b ->
    Z.of_nat (length b) <= 512 + Z.of_nat (length n) + sumZ (map (fun k => Z.of_nat (length k) + 8) keys);
}.

(** ** The decoder on its own output *)
Lemma array_values_ok fuel maximum vals l rest eof : (length l < fuel)%nat ->
  Z.of_nat (length vals + length l) <= maximum ->
  array_values fuel maximum vals (mkStream (map JText l ++ JArrEnd :: rest) eof) =
    Ok (vals ++ l, mkStream (JArrEnd :: rest) eof).
Proof.
  revert vals fuel. induction l as [|x l IH]; intros vals fuel Hf Hm; (destruct fuel as [|fuel]; [cbn [length] in Hf; lia|]).
  - cbn. by rewrite app_nil_r.
  - cbn [array_values map app more_tokens js_tokens]. rewrite Z.geb_leb, (proj2 (Z.leb_gt _ _)) by (cbn [length] in Hm; lia).
    cbn [decode_string Token js_tokens js_eof mbind result_bind]. rewrite IH; cbn [length] in *; [|lia|rewrite length_app; cbn; lia].
    by rewrite <- app_assoc.
Qed.

Lemma expect_ok d e ts eof : expect d e (mkStream (d :: ts) eof) = Ok (mkStream ts eof).
Proof. unfold expect. cbn [Token js_tokens js_eof]. by rewrite decide_True. Qed.

Lemma bounded_array_ok maximum l rest eof : Z.of_nat (length l) <= maximum ->
  decodeBoundedStringArray maximum (mkStream (JArr :: map JText l ++ JArrEnd :: rest) eof) = Ok (l, mkStream rest eof).
Proof.
  intros Hm. unfold decodeBoundedStringArray. rewrite expect_ok. cbn [mbind result_bind js_tokens].
  rewrite array_values_ok; [|rewrite length_app, length_map; cbn; lia|cbn; lia].
  cbn [mbind result_bind app]. by rewrite expect_ok.
Qed.

Lemma fields_step fuel seen disk name ts eof disk' s' : name ∉ seen ->
  decode_field name disk (mkStream ts eof) = Ok (disk', s') ->
  decode_fields (S fuel) seen disk (mkStream (JText name :: ts) eof) = decode_fields fuel ({[name]} ∪ seen) disk' s'.
Proof.
  intros Hn Hd. cbn [decode_fields more_tokens js_tokens Token js_eof mbind result_bind].
  rewrite decide_False by done. by rewrite Hd.
Qed.

Lemma keys_field disk l rest eof : Z.of_nat (length l) <= MaxWalletKeys ->
  decode_field (bs "keys") disk (mkStream (JArr :: map JText l ++ JArrEnd :: rest) eof) =
    Ok (mkKeyFile (kf_SchemaVersion disk) (kf_Network disk) (Some l), mkStream rest eof).
Proof.
  intros Hm. unfold decode_field. rewrite (bounded_array_ok MaxWalletKeys l rest eof Hm). reflexivity.
Qed.

Lemma decode_key_tokens v n l : Z.of_nat (length l) <= MaxWalletKeys ->
  decodeKeyFile (mkStream (key_tokens v n l) true) = Ok (mkKeyFile v n (Some l), walletV1).
Proof.
  intros Hm. unfold decodeKeyFile, key_tokens. cbn [app]. rewrite expect_ok. cbn [mbind result_bind js_tokens].
  cbn [length]. erewrite fields_step; [|set_solver|reflexivity].
  erewrite fields_step; [|vm_compute; set_solver|reflexivity].
  erewrite fields_step; [|vm_compute; set_solver|by apply keys_field].
  cbn [decode_fields more_tokens js_tokens kf_SchemaVersion kf_Network mbind result_bind]. rewrite expect_ok. reflexivity.
Qed.

(** ** Keys of a file *)
Lemma hex_digit_chars d : 0 <= d < 16 -> plain_char (hex_digit d) = true /\ lower (hex_digit d) = hex_digit d.
Proof. intros Hd. assert (Hall : forallb (fun d => plain_char (hex_digit d) && bool_decide (lower (hex_digit d) = hex_digit d)) (seqZ 0 16) = true)
    by (vm_compute; reflexivity).
  rewrite forallb_forall in Hall. specialize (Hall d). rewrite <- list_elem_of_In, elem_of_seqZ in Hall.
  specialize (Hall ltac:(lia)). by bool_prop.
Qed.

Lemma hex_plain b : plain_text (hex_encode b) /\ ToLower (hex_encode b) = hex_encode b.
Proof.
  unfold plain_text, ToLower. induction b as [|x b [IH1 IH2]]; [done|]. pose proof (b2z_range x).
  unfold hex_encode in *. cbn [flat_map app].
  destruct (hex_digit_chars (b2z x / 16)) as [H1 H2]; [mlia|]. destruct (hex_digit_chars (b2z x mod 16)) as [H3 H4]; [mlia|].
  cbn [forallb map]. by rewrite H1, H2, H3, H4, IH1, IH2.
Qed.

Lemma hex_texts keys : Forall plain_text (map hex_encode keys).
Proof. apply Forall_fmap, list.Forall_forall. intros k _. apply hex_plain. Qed.

Lemma hex_inj a b : hex_encode a = hex_encode b -> a = b.
Proof. intros E. apply Ok_inj. by rewrite <- !hex_decode_encode, E. Qed.

Section keys.
Context `{Crypto} `{!CryptoLaws} `{WordList} `{!WordListLaws} `{RecoveryCrypto} `{!RecoveryCryptoLaws}.
Context `{RecoveryJson} `{!RecoveryJsonLaws} `{KeyJson} `{!KeyJsonLaws}.

Record valid_keys (keys : list bytes) : Prop := {
  vk_count : 1 <= Z.of_nat (length keys) <= MaxWalletKeys;
  vk_seeds : Forall (fun k => length k = ed25519_SeedSize) keys;
  vk_addresses : NoDup (map addressForKey keys);
}.

(** What the loop over the keys has collected. *)
Definition collected (keys : list bytes) (acc : list bytes * gset bytes * gset bytes) : Prop :=
  acc.1.1 = keys /\ acc.1.2 = list_to_set (map hex_encode keys) /\ acc.2 = list_to_set (map addressForKey keys).

Lemma collected_snoc keys seed :
  collected (keys ++ [seed]) (keys ++ [seed], {[hex_encode seed]} ∪ list_to_set (map hex_encode keys),
    {[addressForKey seed]} ∪ list_to_set (map addressForKey keys)).
Proof. unfold collected. cbn [fst snd]. rewrite !map_app, !list_to_set_app_L. cbn. split_and!; [done|set_solver..]. Qed.

Lemma read_key_ok keys seed acc : collected keys acc -> length seed = ed25519_SeedSize ->
  addressForKey seed ∉ map addressForKey keys ->
  exists acc', read_key acc (hex_encode seed) = Ok acc' /\ collected (keys ++ [seed]) acc'.
Proof.
  destruct acc as [[ks seen] addrs]. intros (E1 & E2 & E3) Hl Ha. cbn [fst snd] in *. subst ks seen addrs.
  eexists. split; [|apply collected_snoc]. unfold read_key. rewrite (proj2 (hex_plain seed)).
  rewrite (bool_decide_eq_true_2 _ eq_refl). cbn [check mbind result_bind]. rewrite hex_decode_encode, Hl. cbn [Nat.eqb ed25519_SeedSize mbind result_bind].
  assert (Hs : hex_encode seed ∉@{gset bytes} list_to_set (map hex_encode keys)).
  { rewrite elem_of_list_to_set, list_elem_of_fmap. intros (k & E & Hk). apply hex_inj in E as <-.
    apply Ha. by apply list_elem_of_fmap_2. }
  assert (Hs' : addressForKey seed ∉@{gset bytes} list_to_set (map addressForKey keys)) by (by rewrite elem_of_list_to_set).
  rewrite (bool_decide_eq_true_2 _ Hs). cbn [check mbind result_bind]. by rewrite (bool_decide_eq_true_2 _ Hs').
Qed.

Lemma read_keys_ok l : forall keys acc, collected keys acc -> Forall (fun k => length k = ed25519_SeedSize) l ->
  NoDup (map addressForKey (keys ++ l)) ->
  exists acc', foldM read_key acc (map hex_encode l) = Ok acc' /\ collected (keys ++ l) acc'.
Proof.
  induction l as [|seed l IH]; intros keys acc Hc Hl Hnd; cbn [map foldM].
  { exists acc. by rewrite app_nil_r. }
  apply Forall_cons in Hl as [Hs Hl]. destruct (read_key_ok keys seed acc Hc Hs) as (acc' & -> & Hc').
  { rewrite map_app in Hnd. apply NoDup_app in Hnd as (_ & Hd & _). intros Hin. apply (Hd _ Hin). by left. }
  cbn [mbind result_bind]. destruct (IH _ _ Hc' Hl) as (acc'' & -> & Hc''); [by rewrite <- app_assoc|].
  exists acc''. by rewrite <- app_assoc in Hc''.
Qed.

(** A key file is read back as the keys that were written. *)
Lemma decode_encode_keys w keys b : valid_keys keys -> wh_requireV2 w = false -> supported (wh_network w) = true ->
  encode_keys (wh_network w) keys = Ok b -> decode_keys w b = Ok (keys, walletV1).
Proof.
  intros [Hcount Hseeds Haddr] Hv2 Hnet He. unfold encode_keys in He. apply bind_Ok in He as (text & Ht & He). res_simpl.
  assert (Hplain : plain_text (bs (wh_network w))) by (apply supported_cases in Hnet as [-> | ->]; by vm_compute).
  assert (Hv : in_i64 SchemaVersion) by (by vm_compute).
  destruct (keyFile_tokens SchemaVersion _ _ _ Hv Hplain (hex_texts keys) Ht) as [Hs Hp].
  unfold decode_keys. rewrite Hp, bool_decide_eq_false_2 by done. rewrite Hv2. cbn [negb check mbind result_bind].
  rewrite Hs, decode_key_tokens by (rewrite length_map; lia). cbn [mbind result_bind kf_SchemaVersion kf_Network kf_Keys].
  rewrite bool_decide_eq_false_2, bool_decide_eq_true_2 by done. cbn [SchemaVersion Z.eqb Pos.eqb negb andb orb check mbind result_bind].
  rewrite length_map, (proj2 (Nat.ltb_ge _ 1)), (proj2 (Z.ltb_ge _ _)) by lia. cbn [negb orb check mbind result_bind].
  destruct (read_keys_ok keys [] ([], ∅, ∅)) as ([[ks seen] addrs] & -> & E & _); [done|done|done|].
  cbn [fst app] in E. by subst.
Qed.

Lemma sumZ_const {A : Type} (f : A -> Z) c (l : list A) : Forall (fun x => f x = c) l -> sumZ (map f l) = c * Z.of_nat (length l).
Proof. induction 1 as [|x l Hx Hl IH]; cbn [map sumZ length]; [lia|]. rewrite Hx, IH. lia. Qed.

Lemma encode_succeeds network keys : valid_keys keys -> supported network = true ->
  exists b, encode_keys network keys = Ok b /\ 1 <= Z.of_nat (length b) <= MaxWalletFileBytes.
Proof.
  intros [Hcount Hseeds Haddr] Hnet. unfold encode_keys.
  destruct (keyFile_marshals (mkKeyFile SchemaVersion (bs network) (Some (map hex_encode keys)))) as [text Ht].
  rewrite Ht. cbn [mbind result_bind].
  assert (Hplain : plain_text (bs network) /\ (length (bs network) <= 64)%nat)
    by (split; [apply supported_cases in Hnet as [-> | ->]; by vm_compute|by apply supported_ascii]).
  assert (Hsize : Z.of_nat (length (text ++ [Byte.x0a])) <= MaxWalletFileBytes).
  { rewrite length_app. cbn [length]. pose proof (keyFile_size _ _ _ _ (proj1 Hplain) (hex_texts keys) Ht) as Hs.
    rewrite map_map, (sumZ_const _ 72) in Hs; [unfold MaxWalletFileBytes, MaxWalletKeys in *; lia|].
    eapply Forall_impl; [exact Hseeds|]. intros k Hk. cbn. rewrite length_hex_encode, Hk. done. }
  rewrite (proj2 (Z.leb_le _ _) Hsize). cbn [check mbind result_bind]. eexists. split; [done|].
  rewrite length_app in *. cbn [length] in *. lia.
Qed.

(** What the loop over the keys guarantees. *)
Definition checked (acc : list bytes * gset bytes * gset bytes) : Prop :=
  Forall (fun k => length k = ed25519_SeedSize) acc.1.1 /\ NoDup (map addressForKey acc.1.1) /\
  acc.2 = list_to_set (map addressForKey acc.1.1).

Lemma checked_empty : checked ([], ∅, ∅).
Proof. unfold checked. cbn. split_and!; [constructor|constructor|done]. Qed.

Lemma read_key_checked acc encoded acc' : checked acc -> read_key acc encoded = Ok acc' ->
  checked acc' /\ length acc'.1.1 = S (length acc.1.1).
Proof.
  destruct acc as [[ks seen] addrs]. unfold checked. cbn [fst snd]. intros (Hs & Hnd & ->) E.
  unfold read_key in E. apply bind_Ok in E as ([] & _ & E). apply bind_Ok in E as (seed & Hseed & E). res_simpl. bool_prop.
  destruct (hex_decode encoded) as [s|]; [|done]. destruct (length s =? ed25519_SeedSize)%nat eqn:El; [|done]. res_simpl.
  apply Nat.eqb_eq in El. cbn [fst snd]. rewrite length_app, !map_app. cbn [map length]. split; [|lia]. split_and!.
  - apply Forall_app. by repeat constructor.
  - apply NoDup_app. split_and!; [done| |apply NoDup_singleton]. intros y Hy ->%list_elem_of_singleton.
    rename select (addressForKey seed ∉ _) into Hni. apply Hni. by apply elem_of_list_to_set.
  - rewrite list_to_set_app_L. cbn. set_solver.
Qed.

Lemma read_keys_checked l : forall acc acc', checked acc -> foldM read_key acc l = Ok acc' ->
  checked acc' /\ length acc'.1.1 = (length acc.1.1 + length l)%nat.
Proof.
  induction l as [|x l IH]; intros acc acc' Hc E; cbn [foldM] in E.
  { res_simpl. cbn. split; [done|lia]. }
  apply bind_Ok in E as (mid & Hx & E). destruct (read_key_checked _ _ _ Hc Hx) as [Hm Hl].
  destruct (IH _ _ Hm E) as [Hc' Hl']. split; [done|]. cbn [length]. lia.
Qed.

(** The keys of a file are those of its recovery payload, or a list of distinct
    addresses within the limit. *)
Lemma decode_keys_cases w b keys state : decode_keys w b = Ok (keys, state) ->
  (state = walletV2 /\ wh_v2Password w <> [] /\ exists payload, openRecoveryPayload b (wh_v2Password w) (wh_network w) = Ok payload /\
     validateRecoveryPayload payload = Ok tt /\ supported (wh_network w) = true /\ keys = payload_keys payload (wh_network w)) \/
  ((state = walletV1 \/ state = walletLegacy /\ wh_allowLegacy w = true) /\ wh_requireV2 w = false /\ valid_keys keys).
Proof.
  unfold decode_keys. case_bool_decide; intros E.
  - left. apply bind_Ok in E as ([] & Hpw & E). apply bind_Ok in E as (payload & Ho & E). apply bind_Ok in E as (ks & Hk & E).
    destruct (opened_authentic _ _ _ _ Ho) as (Hv & Hnet & _). rewrite (recovery_keys _ _ Hv Hnet) in Hk. res_simpl. simplify_eq.
    split; [done|]. split; [|by eauto]. intros Hn. by rewrite Hn in Hpw.
  - right. apply bind_Ok in E as ([] & Hv2 & E). apply bind_Ok in E as ([disk st] & Hd & E).
    apply bind_Ok in E as ([] & Hs & E). apply bind_Ok in E as ([] & Hc & E). apply bind_Ok in E as ([[ks seen] addrs] & Hf & E).
    res_simpl. simplify_eq. destruct (read_keys_checked _ _ _ checked_empty Hf) as [[Hks [Hnd _]] Hlen].
    cbn [fst length] in *. bool_prop. repeat match goal with H : (_ <? _)%nat = false |- _ => apply Nat.ltb_ge in H end.
    split_and!; [|done|split; [lia|done|done]].
    unfold decodeKeyFile in Hd. apply bind_Ok in Hd as (s1 & _ & Hd). apply bind_Ok in Hd as ([[? ?] ?] & _ & Hd).
    apply bind_Ok in Hd as (? & _ & Hd). apply bind_Ok in Hd as (? & _ & Hd). apply bind_Ok in Hd as (? & _ & Hd).
    destruct (_ && _ && _) in Hd; [|apply bind_Ok in Hd as (? & _ & Hd)]; res_simpl; simplify_eq; [right|by left].
    split; [done|]. rename select (bool_decide (walletLegacy = walletLegacy) && _ = false) into Hl.
    rewrite bool_decide_eq_true_2 in Hl by done. cbn [andb] in Hl. by apply negb_false_iff in Hl.
Qed.
End keys.

(** * Wallet key files: the operations on the file tree

    Every outcome of the programs of [WalletPath] and [KeyFile], with faults and crashes.
    [keeps t0] says that no entry of [t0] was changed or removed; [replaced] that at most
    the wallet file was, and what it now holds. *)

Definition keeps (t0 t : tree) : Prop := t0 ⊆ t.
Definition replaced (t0 : tree) (p : path) (data : bytes) (t : tree) : Prop :=
  delete p t0 ⊆ t /\ t !! p = Some (NFile data).

Lemma keeps_insert t0 t p n : keeps t0 t -> t0 !! p = None -> keeps t0 (<[p := n]> t).
Proof. intros Hk Hp. unfold keeps. by apply insert_subseteq_r. Qed.
Lemma keeps_fresh t0 t p n : keeps t0 t -> t !! p = None -> keeps t0 (<[p := n]> t).
Proof. intros Hk Hp. apply keeps_insert; [done|]. by eapply lookup_weaken_None. Qed.
Lemma keeps_delete t0 t p : keeps t0 t -> t0 !! p = None -> keeps t0 (delete p t).
Proof. intros Hk Hp. apply map_subseteq_spec. intros q n Hq. rewrite lookup_delete_ne by (intros ->; congruence). by eapply lookup_weaken. Qed.
Lemma keeps_trans t0 t1 t2 : keeps t0 t1 -> keeps t1 t2 -> keeps t0 t2.
Proof. unfold keeps. apply transitivity. Qed.
Create HintDb wallet.
#[export] Hint Resolve keeps_insert keeps_fresh keeps_delete : wallet.

(** ** Calls whose error the program looks at *)
Definition fault {A : Type} (r : result A) : Prop :=
  r = Err (EText "input/output error") \/ r = Err (EText "machine is down").

Lemma triple_try_reads {A : Type} (P : tree -> Prop) (f : tree -> result A) R :
  triple (on_tree P) (try (syscall (fun t => (t, f t)) no_effect))
    (fun r => on_tree (fun t => P t /\ (f t = r \/ fault r))) R.
Proof.
  intros w Hw. unfold try, syscall, on_tree, fault, no_effect in *. destruct (w_up w); simpl; [|by auto].
  destruct (w_plan w) as [|[|crash part removed] plan]; simpl; auto.
Qed.

Lemma fault_not_missing {A : Type} (r : result A) e : fault r -> r = Err e -> errors_Is e ErrNotExist = false.
Proof. by intros [-> | ->] [= <-]. Qed.

(** A call without effect on the tree. *)
Lemma triple_none (P : tree -> Prop) : triple (on_tree P) (syscall (fun t => (t, Ok tt)) no_effect) (fun _ => on_tree P) (on_tree P).
Proof. apply triple_syscall; auto. Qed.


(** A call that keeps a predicate, whatever its outcome. *)
Lemma triple_try_same {A : Type} (P : world -> Prop) (m : io A) R : triple P m (fun _ => P) P -> triple P (try m) (fun _ => P) R.
Proof. intros Hm s Hs. unfold try. specialize (Hm s Hs). by destruct (m s) as [s' []]. Qed.

Lemma triple_pre {A : Type} (P' P : world -> Prop) (m : io A) Q R : (forall s, P s -> P' s) -> triple P' m Q R -> triple P m Q R.
Proof. intros HP Hm s Hs. apply Hm, HP, Hs. Qed.

Section paths.
Context `{WalletFs}.
Implicit Types (P : tree -> Prop) (t : tree) (p q : path).

Lemma triple_or_close {A : Type} P R (m : io A) p Q : triple (on_tree P) m Q (on_tree R) ->
  triple (on_tree P) (or_close p m) Q (on_tree R).
Proof.
  intros Hm. eapply triple_bind; [apply triple_try, Hm|]. intros [a|e]; [by apply triple_ret|].
  eapply triple_bind; [apply triple_ignore, triple_none|]. intros ?u. by apply triple_fail.
Qed.

Lemma triple_release P p : triple (on_tree P) (release p) (fun _ => on_tree P) (on_tree P).
Proof.
  eapply triple_bind; [apply triple_try_same, triple_none|]. intros a.
  eapply triple_bind; [apply triple_try_same, triple_none|]. intros b. by apply triple_lift.
Qed.

(** The check for hard links only reads. *)
Lemma triple_hardlink P p : triple (on_tree P) (rejectWalletHardLink p) (fun _ => on_tree P) (on_tree P).
Proof.
  eapply triple_bind; [apply triple_try_same|].
  { eapply triple_weaken; [apply (triple_reads P)|done| |done]. by intros a s []. }
  intros [n|e]; [by apply triple_guard|]. destruct (errors_Is e ErrNotExist); [by apply triple_ret|by apply triple_fail].
Qed.

(** Predicates that survive new directories and new empty files. *)
Definition stable (I : tree -> Prop) : Prop :=
  forall t p n, I t -> t !! p = None -> n = NDir \/ n = NFile [] -> I (<[p := n]> t).

Lemma stable_keeps t0 : stable (keeps t0).
Proof. intros t p n Ht Hp _. auto with wallet. Qed.

Lemma triple_acquire I p : stable I -> triple (on_tree I) (acquireWalletFileLock p) (fun _ => on_tree I) (on_tree I).
Proof.
  intros HI. eapply triple_bind; [apply (triple_syscall _ _ (fun _ => I)); [|done|done]|].
  { intros t Ht. destruct (t !! p) as [[]|] eqn:E; [done..|]. destruct (t !! parent p) as [[]|]; auto. }
  intros ?u. eapply triple_bind; [apply triple_or_close, triple_none|]. intros ?u. apply triple_or_close, triple_none.
Qed.

(** A locked body: what holds after it still holds when the lock is released. *)
Lemma triple_locked {A : Type} I p (body : io A) Q R : stable I ->
  triple (on_tree I) body (fun a => on_tree (Q a)) (on_tree R) ->
  (forall t, I t -> R t) -> (forall a t, Q a t -> R t) ->
  triple (on_tree I) (locked p body) (fun a => on_tree (Q a)) (on_tree R).
Proof.
  intros HI Hb Hk HQ. eapply triple_bind; [eapply triple_weaken; [apply triple_acquire, HI|done..|intros ?; apply Hk]|]. intros ?u.
  eapply triple_bind; [apply triple_try, Hb|]. intros [a|e].
  - eapply triple_bind; [apply triple_try_same, triple_release|]. intros [[]|e]; [by apply triple_ret|]. apply triple_fail. intros s. apply HQ.
  - eapply triple_bind; [apply triple_try_same, triple_release|]. intros [[]|e']; by apply triple_fail.
Qed.

(** Making directories only adds directories. *)
Section mkdir.
Context (I : tree -> Prop) (HI : stable I).

Lemma foldl_step (step : tree * result unit -> path -> tree * result unit) ps t r :
  (forall p t r, I t -> I (step (t, r) p).1) -> I t -> I (foldl step (t, r) ps).1.
Proof.
  intros Hs. revert t r. induction ps as [|p ps IH]; intros t r Ht; [done|]. cbn [foldl].
  pose proof (Hs p t r Ht). destruct (step (t, r) p) as [t' r']. by apply IH.
Qed.

Lemma mkdir_prefix_stable p t r : I t -> I (mkdir_prefix (t, r) p).1.
Proof using HI. intros Ht. unfold mkdir_prefix. destruct r; [|exact Ht]. destruct (t !! p) as [[]|] eqn:Ep; cbn [fst]; auto. Qed.
Lemma mkdir_at_stable p t r : I t -> I (mkdir_at (t, r) p).1.
Proof using HI.
  intros Ht. unfold mkdir_at. destruct r; [|exact Ht]. destruct (follow t p); [exact Ht|]. destruct (follow t (parent p)) as [dir|]; [|exact Ht].
  destruct (last p); [|exact Ht]. destruct (t !! (dir ++ _)) eqn:Ep; [exact Ht|]. cbn [fst]. auto.
Qed.

Lemma triple_mkdir p : triple (on_tree I) (MkdirAll p) (fun _ => on_tree I) (on_tree I).
Proof using HI.
  apply triple_syscall; [|intros; apply foldl_step; auto using mkdir_prefix_stable|done].
  intros t Ht. pose proof (foldl_step _ (prefixes p) t (Ok tt) mkdir_prefix_stable Ht) as Hk. unfold mkdir_all.
  by destruct (foldl _ _ _) as [t' [u|e]].
Qed.
Lemma triple_mkdir_links p : triple (on_tree I) (MkdirAll_links p) (fun _ => on_tree I) (on_tree I).
Proof using HI.
  apply triple_syscall; [|intros; apply foldl_step; auto using mkdir_at_stable|done].
  intros t Ht. pose proof (foldl_step _ (prefixes p) t (Ok tt) mkdir_at_stable Ht) as Hk. unfold mkdir_links.
  by destruct (foldl _ _ _) as [t' [u|e]].
Qed.
End mkdir.

Lemma triple_reads_same {A : Type} P (f : tree -> result A) :
  triple (on_tree P) (syscall (fun t => (t, f t)) no_effect) (fun _ => on_tree P) (on_tree P).
Proof. eapply triple_weaken; [apply (triple_reads P)|done| |done]. by intros a s []. Qed.

Lemma triple_canonical I (name : bytes) : stable I ->
  triple (on_tree I) (canonicalWalletPath name) (fun _ => on_tree I) (on_tree I).
Proof.
  intros HI. eapply triple_bind; [by apply (triple_lift _ _ _ (fun _ => on_tree I))|]. intros abs.
  eapply triple_bind; [apply triple_mkdir_links, HI|]. intros ?u. eapply triple_bind; [apply triple_reads_same|]. intros dir.
  eapply triple_bind; [apply triple_try_same, triple_reads_same|]. intros [q|e]; [by apply triple_ret|].
  eapply triple_bind; [apply triple_try_same, triple_reads_same|].
  intros [[]|e']; try (by apply triple_fail); (destruct (errors_Is e ErrNotExist); [by apply triple_ret|by apply triple_fail]).
Qed.

(** ** Durable replacement *)
(** The temporary file: not an entry of [t0], with some content so far. *)
Definition temp_state t0 q (c : bytes) t : Prop := keeps t0 t /\ t0 !! q = None /\ t !! q = Some (NFile c).
Definition temp_some t0 q t : Prop := exists c, temp_state t0 q c t.

Lemma temp_chmod t0 q c : triple (on_tree (temp_state t0 q c)) (or_close q (chmod q)) (fun _ => on_tree (temp_state t0 q c))
  (on_tree (temp_some t0 q)).
Proof.
  eapply triple_weaken; [apply triple_or_close, triple_none|done|done|]. intros s Hs. by exists c.
Qed.

Lemma temp_write t0 q data : triple (on_tree (temp_state t0 q [])) (or_close q (write_file q data))
  (fun _ => on_tree (temp_state t0 q data)) (on_tree (temp_some t0 q)).
Proof.
  apply triple_or_close, (triple_syscall _ _ (fun _ => temp_state t0 q data)).
  - intros t (Hk & H0 & Ht). unfold append_file. rewrite Ht. split_and!; [auto with wallet|done|]. by rewrite lookup_insert_eq.
  - intros part rm t (Hk & H0 & Ht). exists (take part data). unfold append_file. rewrite Ht.
    split_and!; [auto with wallet|done|]. by rewrite lookup_insert_eq.
  - intros t Ht. by exists [].
Qed.

Lemma temp_rename t0 q p data : triple (on_tree (temp_state t0 q data)) (os_Rename q p)
  (fun _ => on_tree (replaced t0 p data)) (on_tree (temp_some t0 q)).
Proof.
  apply (triple_syscall _ _ (fun _ => replaced t0 p data)).
  - intros t (Hk & H0 & Ht). rewrite Ht. assert (Hs : temp_some t0 q t) by (by exists data).
    destruct (t !! p) as [[]|]; try done; (destruct (t !! parent p) as [[]|]; try done);
      (split; [|by rewrite lookup_insert_eq]); apply map_subseteq_spec; intros x n [Hx Hn]%lookup_delete_Some;
      rewrite lookup_insert_ne, lookup_delete_ne by (done || intros ->; congruence); by eapply lookup_weaken.
  - intros part rm t Ht. by exists data.
  - intros t Ht. by exists data.
Qed.

Lemma triple_fill t0 q p data : triple (on_tree (temp_state t0 q [])) (fill_and_rename q p data)
  (fun _ => on_tree (replaced t0 p data)) (on_tree (temp_some t0 q)).
Proof.
  eapply triple_bind; [apply temp_chmod|]. intros ?u. eapply triple_bind; [apply temp_write|]. intros ?u.
  eapply triple_bind; [apply temp_chmod|]. intros ?u. eapply triple_bind; [|intros ?u; apply temp_rename].
  eapply triple_weaken; [apply triple_none|done|done|]. intros s Hs. by exists data.
Qed.

Lemma triple_sync_dir P p : triple (on_tree P) (sync_dir p) (fun _ => on_tree P) (on_tree P).
Proof.
  eapply triple_bind; [apply triple_reads_same|]. intros ?u. eapply triple_bind; [apply triple_try_same, triple_none|].
  intros ?u. eapply triple_bind; [apply triple_try_same, triple_none|]. intros ?u. by apply triple_lift.
Qed.

(** Whatever happens, only the wallet file is touched, and it is as before or complete. *)
Lemma triple_replace t0 p data : triple (on_tree (keeps t0)) (durableReplaceWalletFile p data)
  (fun _ => on_tree (replaced t0 p data)) (on_tree (fun t => keeps t0 t \/ replaced t0 p data t)).
Proof.
  eapply triple_bind; [apply (triple_syscall _ _ (fun q => temp_state t0 q []))|].
  - intros t Ht. cbv zeta. destruct (t !! temp_path (parent p) t) eqn:E; [by left|].
    destruct (t !! parent p) as [[]|]; try (by left). split_and!; [auto with wallet|by eapply lookup_weaken_None|by rewrite lookup_insert_eq].
  - intros part rm t Ht. by left.
  - intros t Ht. by left.
  - intros q. eapply triple_bind; [apply triple_try, triple_fill|]. intros [[]|e].
    + eapply triple_weaken; [apply triple_sync_dir|done|done|]. intros s Hs. by right.
    + eapply triple_bind; [eapply (triple_ignore _ _ _ (on_tree (keeps t0)))|].
      * eapply triple_weaken; [apply (triple_syscall (temp_some t0 q) (keeps t0) (fun _ => keeps t0))|done..].
        -- intros t (c & Hk & H0 & Ht). rewrite Ht. auto with wallet.
        -- by intros part rm t (c & Hk & _).
        -- by intros t (c & Hk & _).
      * intros ?u. apply triple_fail. intros s Hs. by left.
Qed.
End paths.

(** ** Reading the wallet *)
Section ops.
Context `{Crypto} `{!CryptoLaws} `{!KdfLaws} `{WordList} `{!WordListLaws} `{RecoveryCrypto} `{!RecoveryCryptoLaws}.
Context `{RecoveryJson} `{!RecoveryJsonLaws} `{KeyJson} `{!KeyJsonLaws} `{WalletFs}.
Implicit Types (P : tree -> Prop) (t : tree) (w : walletHandle).

Definition size_ok (c : bytes) : Prop := 1 <= Z.of_nat (length c) <= MaxWalletFileBytes.

(** The bytes in the file and the state they are read with. *)
Definition file_bytes w t (b : bytes) (state : walletDiskState) : Prop :=
  match t !! wh_path w with
  | None => b = [] /\ state = walletMissing
  | Some (NFile c) => b = c /\ size_ok c /\ state = walletV1
  | Some _ => False
  end.

(** The keys in the file. *)
Definition holds w t (keys : list bytes) (state : walletDiskState) : Prop :=
  match t !! wh_path w with
  | None => keys = [] /\ state = walletMissing
  | Some (NFile c) => size_ok c /\ decode_keys w c = Ok (keys, state)
  | Some _ => False
  end.

Lemma triple_bytes P w : triple (on_tree P) (readWalletBytesLocked w)
  (fun r => on_tree (fun t => P t /\ file_bytes w t r.1 r.2)) (on_tree P).
Proof.
  eapply triple_bind; [apply (triple_try_reads P)|]. intros [[]|e].
  - eapply triple_bind; [apply (triple_try _ _ (on_tree P) _ (fun r => on_tree (fun t => P t /\ file_bytes w t r.1 r.2)))|].
    + eapply triple_bind; [eapply triple_weaken; [apply (triple_reads P)|by intros s []|done|done]|]. intros info.
      eapply triple_bind; [apply (triple_guard _ _ _ _ (fun _ => on_tree (fun t => P t /\ exists c, t !! wh_path w = Some (NFile c) /\ size_ok c)))|].
      * intros s [HP Hi] Hg. split; [done|]. destruct (w_tree s !! wh_path w) as [n|]; [|done]. res_simpl.
        bool_prop. destruct info as [c| |]; [|done..]. exists c. cbn [node_size] in *. split; [done|unfold size_ok; lia].
      * by intros s [].
      * intros ?u. eapply triple_bind.
        -- eapply triple_bind; [eapply triple_weaken; [apply (triple_reads (fun t => P t /\ exists c, t !! wh_path w = Some (NFile c) /\ size_ok c))|done..|by intros s []]|].
           intros b. apply (triple_ret _ _ _ (fun b => on_tree (fun t => P t /\ file_bytes w t b walletV1))).
           intros s [[HP (c & Hc & Hsz)] Hr]. split; [done|]. rewrite Hc in Hr. res_simpl. unfold file_bytes. rewrite Hc.
           split_and!; [|done|done]. apply take_ge. unfold size_ok in *. lia.
        -- intros b. eapply triple_bind; [apply (triple_guard _ _ _ _ (fun _ => on_tree (fun t => P t /\ file_bytes w t b walletV1))); [done|by intros s []]|].
           intros ?u. eapply triple_bind; [eapply triple_weaken; [apply triple_hardlink|done|done|by intros s []]|].
           intros ?u. by apply triple_ret.
    + intros [[b st]|e]; (eapply triple_bind; [apply triple_ignore, triple_none|]); intros ?u.
      * apply triple_ret. by intros s Hs.
      * by apply triple_fail.
  - destruct (errors_Is e ErrNotExist) eqn:Ee; [|apply triple_fail; by intros s []].
    apply triple_ret. intros s [HP Hr]. split; [done|]. unfold file_bytes. cbn [fst snd].
    destruct Hr as [Hr|Hf]; [|by rewrite (fault_not_missing _ e Hf eq_refl) in Ee].
    destruct (w_tree s !! wh_path w) as [[]|]; [done|done| |done]. res_simpl. done.
Qed.

Lemma triple_read_keys P w : triple (on_tree P) (readKeysLocked w)
  (fun r => on_tree (fun t => P t /\ holds w t r.1 r.2)) (on_tree P).
Proof.
  eapply triple_bind; [apply triple_bytes|]. intros [b st]. cbn [fst snd]. case_bool_decide as Hst.
  - subst st. apply triple_ret. intros s [HP Hb]. split; [done|]. unfold file_bytes, holds in *. cbn [fst snd].
    destruct (w_tree s !! wh_path w) as [[]|]; [|done..]. by destruct Hb as (_ & _ & ?).
  - apply triple_lift; [|by intros s []]. intros [keys st'] s [HP Hb] Hd. split; [done|]. unfold file_bytes, holds in *. cbn [fst snd] in *.
    destruct (w_tree s !! wh_path w) as [[]|]; [|done|done|by destruct Hb]. by destruct Hb as (-> & ? & _).
Qed.

(** ** Writing the wallet *)
(** Bytes that hold a payload, or keys. *)
Definition sealed_bytes w (payload : recoveryPayload) (c : bytes) : Prop :=
  size_ok c /\ probe_schema c = Some SchemaVersionV2 /\ openRecoveryPayload c (wh_v2Password w) (wh_network w) = Ok payload.
Definition key_bytes w (keys : list bytes) (state : walletDiskState) (c : bytes) : Prop :=
  size_ok c /\ decode_keys w c = Ok (keys, state).

(** The wallet file was replaced by bytes with a property, and nothing else was touched. *)
Definition rewritten (t0 : tree) w (phi : bytes -> Prop) t : Prop := exists c, phi c /\ replaced t0 (wh_path w) c t.

Lemma password_nonempty (password : bytes) : password_ok password -> negb (length password =? 0)%nat = true.
Proof. unfold password_ok. intros Hp. apply negb_true_iff, Nat.eqb_neq. lia. Qed.

Lemma sealed_keys w payload c : sealed_bytes w payload c ->
  key_bytes w (payload_keys payload (wh_network w)) walletV2 c /\ validateRecoveryPayload payload = Ok tt /\ supported (wh_network w) = true.
Proof.
  intros (Hs & Hp & Ho). destruct (opened_authentic _ _ _ _ Ho) as (Hv & Hn & Hpw & _). split; [|done]. split; [done|].
  unfold decode_keys. rewrite Hp, bool_decide_eq_true_2 by done. rewrite (password_nonempty _ Hpw).
  cbn [check mbind result_bind]. rewrite Ho. cbn [mbind result_bind]. by rewrite (recovery_keys _ _ Hv Hn).
Qed.

Lemma rewritten_keys t0 w payload t : rewritten t0 w (sealed_bytes w payload) t ->
  rewritten t0 w (key_bytes w (payload_keys payload (wh_network w)) walletV2) t.
Proof. intros (c & Hc & Hr). exists c. split; [by apply sealed_keys|done]. Qed.

Lemma triple_rand_read P n : triple (on_tree P) (rand_read n) (fun b => on_tree (fun t => P t /\ length b = n)) (on_tree P).
Proof.
  intros s Hs. unfold rand_read. destruct (length (w_rand s) <? n)%nat eqn:E; [done|]. apply Nat.ltb_ge in E.
  split; [exact Hs|]. rewrite length_take. lia.
Qed.

Lemma triple_seal P w payload params : triple (on_tree P)
  (sealRecoveryPayload (wh_network w) (wh_v2Password w) payload params)
  (fun c => on_tree (fun t => P t /\ sealed_bytes w payload c)) (on_tree P).
Proof.
  eapply triple_bind; [apply (triple_guard _ _ _ _ (fun _ s => supported (wh_network w) = true /\ on_tree P s)); done|].
  intros ?u. apply triple_pure. intros Hnet. eapply triple_bind; [apply (triple_guard _ _ _ _ (fun _ s => password_ok (wh_v2Password w) /\ on_tree P s)); [|done]|].
  { intros s Hs Hg. split; [|done]. bool_prop.
    match goal with Hl : (_ <? 1)%nat = false |- _ => apply Nat.ltb_ge in Hl end. unfold password_ok. lia. }
  intros ?u. apply triple_pure. intros Hpw.
  eapply triple_bind; [apply (triple_lift _ _ _ (fun _ s => validateRecoveryPayload payload = Ok tt /\ on_tree P s)); [by intros [] s Hs E|done]|].
  intros ?u. apply triple_pure. intros Hpay.
  eapply triple_bind; [apply (triple_lift _ _ _ (fun _ s => validateV2KDFParams params false = Ok tt /\ on_tree P s)); [by intros [] s Hs E|done]|].
  intros ?u. apply triple_pure. intros Hkdf.
  eapply triple_bind; [apply triple_wrapping, triple_rand_read|]. intros salt.
  apply (triple_pre (fun s => length salt = v2SaltBytes /\ on_tree P s)); [by intros s []|]. apply triple_pure. intros Hsalt. eapply triple_bind; [apply triple_wrapping, triple_rand_read|]. intros nonce.
  apply triple_lift; [|by intros s []]. intros c s [HP Hnonce] Hseal. split; [done|].
  destruct (sealed_opens (wh_network w) (wh_v2Password w) payload params salt nonce Hnet Hpw Hpay Hkdf Hsalt Hnonce c Hseal) as [Ho Hp].
  split_and!; [|done|done]. apply seal_with_inv in Hseal as (? & ? & ? & _ & _ & _ & -> & Hsz); try done.
  unfold size_ok. rewrite length_app in *. cbn [length] in *. lia.
Qed.

Definition write_outcome (t0 : tree) w (phi : bytes -> Prop) t : Prop := keeps t0 t \/ rewritten t0 w phi t.

Lemma triple_write_bytes t0 w (c : bytes) (phi : bytes -> Prop) : phi c ->
  triple (on_tree (keeps t0)) (durableReplaceWalletFile (wh_path w) c) (fun _ => on_tree (rewritten t0 w phi))
    (on_tree (write_outcome t0 w phi)).
Proof.
  intros Hc. eapply triple_weaken; [apply triple_replace|done| |].
  - intros ?u s Hs. by exists c.
  - intros s [Hs|Hs]; [by left|right; by exists c].
Qed.

Lemma triple_write_payload t0 cpus w payload : triple (on_tree (keeps t0)) (writeRecoveryPayloadLocked cpus w payload)
  (fun _ => on_tree (rewritten t0 w (sealed_bytes w payload))) (on_tree (write_outcome t0 w (sealed_bytes w payload))).
Proof.
  assert (Hl : forall s, on_tree (keeps t0) s -> on_tree (write_outcome t0 w (sealed_bytes w payload)) s) by (intros s Hs; by left).
  eapply triple_bind; [apply (triple_guard _ _ _ _ (fun _ => on_tree (keeps t0))); [done|exact Hl]|]. intros ?u.
  eapply triple_bind; [eapply triple_weaken; [apply (triple_hardlink (keeps t0))|done|done|exact Hl]|]. intros ?u.
  eapply triple_bind; [eapply triple_weaken; [apply (triple_seal (keeps t0))|done|done|exact Hl]|]. intros c.
  apply (triple_pre (fun s => sealed_bytes w payload c /\ on_tree (keeps t0) s)); [by intros s []|]. apply triple_pure. apply triple_write_bytes.
Qed.

Lemma triple_write_keys t0 w keys : valid_keys keys -> wh_requireV2 w = false -> supported (wh_network w) = true ->
  triple (on_tree (keeps t0)) (writeKeysLocked w keys)
    (fun _ => on_tree (rewritten t0 w (key_bytes w keys walletV1))) (on_tree (write_outcome t0 w (key_bytes w keys walletV1))).
Proof.
  intros Hv Hr Hnet.
  assert (Hl : forall s, on_tree (keeps t0) s -> on_tree (write_outcome t0 w (key_bytes w keys walletV1)) s) by (intros s Hs; by left).
  eapply triple_bind; [apply (triple_guard _ _ _ _ (fun _ => on_tree (keeps t0))); [done|exact Hl]|]. intros ?u.
  eapply triple_bind; [eapply triple_weaken; [apply (triple_hardlink (keeps t0))|done|done|exact Hl]|]. intros ?u.
  eapply triple_bind; [apply (triple_lift _ _ _ (fun c s => key_bytes w keys walletV1 c /\ on_tree (keeps t0) s)); [|exact Hl]|].
  - intros c s Hs Hc. split; [|done]. destruct (encode_succeeds (wh_network w) keys Hv Hnet) as (c' & Hc' & Hsz).
    rewrite Hc in Hc'. res_simpl. split; [exact Hsz|]. by eapply decode_encode_keys.
  - intros c. apply triple_pure. apply triple_write_bytes.
Qed.
End ops.

(** * Wallet key files: what the operations do

    For every operation on a wallet, all of its outcomes from a tree [t0]: what it returns,
    what the wallet file holds afterwards, and that nothing else changed. *)

(** What locking and making directories can do: add directories and empty files. *)
Definition grown (t0 t : tree) : Prop :=
  keeps t0 t /\ forall p n, t !! p = Some n -> t0 !! p = Some n \/ n = NDir \/ n = NFile [].

Lemma grown_refl t : grown t t.
Proof. split; [done|]. auto. Qed.
Lemma stable_grown t0 : stable (grown t0).
Proof.
  intros t p n [Hk Hg] Hp Hn. split; [auto with wallet|]. intros q m. rewrite lookup_insert_Some. intros [[-> ->]|[_ Hq]]; auto.
Qed.
Lemma grown_keeps t0 t : grown t0 t -> keeps t0 t.
Proof. by intros []. Qed.
#[export] Hint Resolve grown_refl stable_grown stable_keeps grown_keeps : wallet.

Section specs.
Context `{Crypto} `{!CryptoLaws} `{!KdfLaws} `{WordList} `{!WordListLaws} `{RecoveryCrypto} `{!RecoveryCryptoLaws}.
Context `{RecoveryJson} `{!RecoveryJsonLaws} `{KeyJson} `{!KeyJsonLaws} `{WalletFs}.
Implicit Types (P : tree -> Prop) (t : tree) (w : walletHandle).

Lemma rewritten_mono t0 t1 w phi t : keeps t0 t1 -> rewritten t1 w phi t -> rewritten t0 w phi t.
Proof.
  intros Hk (c & Hc & Hd & Hp). exists c. split; [done|]. split; [|done]. etrans; [|exact Hd]. by apply delete_mono.
Qed.
Lemma write_outcome_mono t0 t1 w phi t : keeps t0 t1 -> write_outcome t1 w phi t -> write_outcome t0 w phi t.
Proof. intros Hk [Ht|Ht]; [left; by eapply keeps_trans|right; by eapply rewritten_mono]. Qed.

(** A file that is created hides nothing. *)
Lemma rewritten_new t0 w phi t : t0 !! wh_path w = None -> rewritten t0 w phi t -> keeps t0 t.
Proof. intros Hn (c & _ & Hd & _). by rewrite delete_id in Hd. Qed.

(** What was read from a grown tree is what the first tree held. *)
Lemma holds_grown t0 t w keys state : grown t0 t -> holds w t keys state -> holds w t0 keys state.
Proof.
  intros [Hk Hg]. unfold holds. destruct (t !! wh_path w) as [n|] eqn:E.
  - destruct n as [c| |]; [|done..]. intros [Hs Hd]. destruct (Hg _ _ E) as [->|[?|?]]; [done|done|]. simplify_eq.
    unfold size_ok in Hs. cbn in Hs. lia.
  - intros [-> ->]. unfold keeps in Hk. rewrite (lookup_weaken_None _ _ _ E Hk). done.
Qed.

(** ** Reading under the lock *)
Lemma triple_with_keys {A : Type} t0 (w : option walletHandle) requireKey (fn : list bytes -> result A) :
  triple (on_tree (grown t0)) (with_keys w requireKey fn) (fun _ => on_tree (grown t0)) (on_tree (grown t0)).
Proof.
  eapply triple_bind; [by apply (triple_lift _ _ _ (fun _ => on_tree (grown t0)))|]. intros h.
  eapply triple_bind; [apply triple_mkdir; auto with wallet|]. intros ?u.
  apply (triple_locked _ _ _ (fun _ => grown t0)); auto with wallet.
  eapply triple_bind; [apply triple_hardlink|]. intros ?u.
  eapply triple_bind; [apply triple_read_keys|]. intros [keys state].
  apply (triple_pre (on_tree (grown t0))); [by intros s []|].
  eapply triple_bind; [apply (triple_guard _ _ _ _ (fun _ => on_tree (grown t0))); done|]. intros ?u.
  eapply triple_bind; [apply (triple_guard _ _ _ _ (fun _ => on_tree (grown t0))); done|]. intros ?u. by apply triple_lift.
Qed.

(** ** Adding a key *)
(** The recovery phrase of the wallet file. *)
Definition phrase_of w t (phrase : bytes) : Prop := exists c payload, t !! wh_path w = Some (NFile c) /\
  openRecoveryPayload c (wh_v2Password w) (wh_network w) = Ok payload /\ recoveryPhraseFromEntropy (rp_Entropy payload) = Ok phrase.

(** One key more than before, and the same recovery phrase. *)
Definition one_more t0 w (keys : list bytes) (state : walletDiskState) (key c : bytes) : Prop :=
  key_bytes w (keys ++ [key]) (if bool_decide (state = walletV2) then walletV2 else walletV1) c /\
  (state = walletV2 -> forall phrase, phrase_of w t0 phrase -> exists payload,
     openRecoveryPayload c (wh_v2Password w) (wh_network w) = Ok payload /\ recoveryPhraseFromEntropy (rp_Entropy payload) = Ok phrase).

Definition added t0 w keys state (address : bytes) t : Prop :=
  exists key, address = addressForKey key /\ rewritten t0 w (one_more t0 w keys state key) t.
Definition maybe_added t0 w keys state t : Prop :=
  keeps t0 t \/ exists key, rewritten t0 w (one_more t0 w keys state key) t.

Lemma rewritten_weaken t0 w (phi psi : bytes -> Prop) t : (forall c, phi c -> psi c) -> rewritten t0 w phi t -> rewritten t0 w psi t.
Proof. intros Hw (c & Hc & Hr). exists c. split; [by apply Hw|done]. Qed.

Lemma triple_next_random t0 w keys state : holds w t0 keys state -> state <> walletV2 -> wh_requireV2 w = false ->
  supported (wh_network w) = true -> Z.of_nat (length keys) < MaxWalletKeys ->
  triple (on_tree (keeps t0)) (next_random_key w keys) (fun a => on_tree (added t0 w keys state a))
    (on_tree (maybe_added t0 w keys state)).
Proof.
  intros Hh Hst Hv2 Hnet Hmax.
  assert (Hold : Forall (fun k => length k = ed25519_SeedSize) keys /\ NoDup (map addressForKey keys)).
  { unfold holds in Hh. destruct (t0 !! wh_path w) as [[c| |]|]; [|done..|].
    - destruct Hh as [_ [(-> & _)|(_ & _ & [_ Hs Hn])]%decode_keys_cases]; done.
    - destruct Hh as [-> _]. split; constructor. }
  assert (Hl : forall s, on_tree (keeps t0) s -> on_tree (maybe_added t0 w keys state) s) by (intros s Hs; by left).
  eapply triple_bind; [eapply triple_weaken; [apply (triple_rand_read (keeps t0))|done|done|exact Hl]|]. intros key.
  apply (triple_pre (fun s => length key = ed25519_SeedSize /\ on_tree (keeps t0) s)); [by intros s []|]. apply triple_pure. intros Hk.
  eapply triple_bind; [apply (triple_guard _ _ _ _ (fun _ s => addressForKey key ∉ map addressForKey keys /\ on_tree (keeps t0) s)); [|exact Hl]|].
  { intros s Hs Hg. split; [|done]. apply negb_true_iff in Hg. intros (k & E & Hin)%list_elem_of_fmap.
    assert (Ht : existsb (fun existing => bool_decide (addressForKey existing = addressForKey key)) keys = true); [|congruence].
    apply existsb_exists. exists k. split; [by apply list_elem_of_In|]. by apply bool_decide_eq_true. }
  intros ?u. apply triple_pure. intros Hni.
  assert (Hv : valid_keys (keys ++ [key])).
  { split; [rewrite length_app; cbn [length]; lia|apply Forall_app; split; [apply Hold|by repeat constructor]|].
    rewrite map_app. apply NoDup_app. split_and!; [apply Hold| |apply NoDup_singleton]. intros x Hx ->%list_elem_of_singleton. done. }
  assert (Hmore : forall c, key_bytes w (keys ++ [key]) walletV1 c -> one_more t0 w keys state key c).
  { intros c Hc. split; [by rewrite bool_decide_eq_false_2|done]. }
  eapply triple_bind; [eapply triple_weaken; [apply (triple_write_keys t0 w _ Hv Hv2 Hnet)|done| |]|].
  - intros ?u s Hs. exact Hs.
  - intros s [Hs|Hs]; [by left|right; exists key]. by eapply rewritten_weaken.
  - intros ?u. apply triple_ret. intros s Hs. exists key. split; [done|]. by eapply rewritten_weaken.
Qed.

Lemma triple_read_payload P w : triple (on_tree P) (readRecoveryPayloadLocked w)
  (fun payload => on_tree (fun t => P t /\ exists c, t !! wh_path w = Some (NFile c) /\
     openRecoveryPayload c (wh_v2Password w) (wh_network w) = Ok payload)) (on_tree P).
Proof.
  eapply triple_bind; [apply (triple_guard _ _ _ _ (fun _ => on_tree P)); done|]. intros ?u.
  eapply triple_bind; [apply triple_bytes|]. intros [b st].
  eapply triple_bind; [apply (triple_guard _ _ _ _ (fun _ => on_tree (fun t => P t /\ t !! wh_path w = Some (NFile b))))|].
  - intros s [HP Hb] Hg. split; [done|]. unfold file_bytes in Hb. cbn [fst snd] in Hb. bool_prop.
    destruct (w_tree s !! wh_path w) as [[]|]; [by destruct Hb as (-> & _)|done|done|by destruct Hb].
  - by intros s [].
  - intros ?u. apply triple_lift; [|by intros s []]. intros payload s [HP Hb] Ho. split; [done|]. by exists b.
Qed.

Lemma triple_next_recovery t0 cpus w keys : holds w t0 keys walletV2 -> Z.of_nat (length keys) < MaxWalletKeys ->
  triple (on_tree (keeps t0)) (next_recovery_key cpus w keys) (fun a => on_tree (added t0 w keys walletV2 a))
    (on_tree (maybe_added t0 w keys walletV2)).
Proof.
  intros Hh Hmax. unfold holds in Hh. destruct (t0 !! wh_path w) as [[c| |]|] eqn:E0; [|done|done|by destruct Hh].
  destruct Hh as [_ [(_ & _ & p0 & Hp0 & Hv0 & Hnet & ->)|([?|[? ?]] & _)]%decode_keys_cases]; [|done|done].
  assert (Hl : forall s, on_tree (keeps t0) s -> on_tree (maybe_added t0 w (payload_keys p0 (wh_network w)) walletV2) s) by (intros s Hs; by left).
  eapply triple_bind; [eapply triple_weaken; [apply (triple_read_payload (keeps t0))|done|done|exact Hl]|]. intros payload.
  apply (triple_pre (fun s => payload = p0 /\ on_tree (keeps t0) s)).
  { intros s [Hk (c' & Hc' & Ho)]. split; [|done]. pose proof (lookup_weaken _ _ _ _ E0 Hk). simplify_eq. congruence. }
  apply triple_pure. intros ->. apply payload_valid in Hv0 as (He & Hc & Hd). rewrite length_payload_keys in Hmax by lia.
  eapply triple_bind; [apply (triple_guard _ _ _ _ (fun _ => on_tree (keeps t0))); [done|exact Hl]|]. intros ?u.
  destruct (key_at_ok (rp_Entropy p0) (wh_network w) (rp_AddressCount p0) He Hnet) as [Hkey _].
  { unfold MaxWalletKeys in Hc. lia. }
  eapply triple_bind; [apply (triple_lift _ _ _ (fun k s => k = key_at (rp_Entropy p0) (wh_network w) (rp_AddressCount p0) /\ on_tree (keeps t0) s)); [|exact Hl]|].
  { intros k s Hs Hk. rewrite Hkey in Hk. by res_simpl. }
  intros key. apply triple_pure. intros ->.
  assert (Hmore : payload_keys (mkPayload (rp_Entropy p0) (u32 (rp_AddressCount p0 + 1)) (rp_Derivation p0)) (wh_network w) =
    payload_keys p0 (wh_network w) ++ [key_at (rp_Entropy p0) (wh_network w) (rp_AddressCount p0)]).
  { rewrite u32_small by (unfold in_u32, two32, MaxWalletKeys in *; lia). rewrite payload_keys_snoc by lia. by destruct p0. }
  set (more := mkPayload (rp_Entropy p0) (u32 (rp_AddressCount p0 + 1)) (rp_Derivation p0)) in *.
  assert (Hone : forall c', sealed_bytes w more c' ->
    one_more t0 w (payload_keys p0 (wh_network w)) walletV2 (key_at (rp_Entropy p0) (wh_network w) (rp_AddressCount p0)) c').
  { intros c' Hc'. split; [rewrite <- Hmore; by apply sealed_keys|]. intros _ phrase (c1 & p1 & Hc1 & Hp1 & Hph).
    rewrite E0 in Hc1. simplify_eq. assert (p1 = p0) as -> by congruence. exists more. split; [by apply Hc'|done]. }
  eapply triple_bind; [eapply triple_weaken; [apply (triple_write_payload t0)|done| |]|].
  - intros ?u s Hs. exact Hs.
  - intros s [Hs|Hs]; [by left|right]. eexists. by eapply rewritten_weaken.
  - intros ?u. apply triple_ret. intros s Hs. eexists. split; [done|]. by eapply rewritten_weaken.
Qed.

(** [NewAddress]: the file holds the old keys, or one more; on success the new one's
    address is returned. *)
Lemma new_address_outcomes cpus w t0 keys state : holds w t0 keys state -> supported (wh_network w) = true ->
  (wh_requireV2 w = true -> state = walletV2) ->
  triple (on_tree (grown t0)) (NewAddress cpus (Some w)) (fun a => on_tree (added t0 w keys state a))
    (on_tree (maybe_added t0 w keys state)).
Proof.
  intros Hh Hnet Hv2.
  assert (Hl : forall s, on_tree (grown t0) s -> on_tree (maybe_added t0 w keys state) s) by (intros s Hs; left; by apply grown_keeps).
  eapply triple_bind; [apply (triple_lift _ _ _ (fun h s => h = w /\ on_tree (grown t0) s)); [|exact Hl]|].
  { intros h s Hs E. cbn in E. by res_simpl. }
  intros h. apply triple_pure. intros ->.
  eapply triple_bind; [eapply triple_weaken; [apply (triple_mkdir (grown t0)); auto with wallet|done|done|exact Hl]|]. intros ?u.
  apply (triple_locked _ _ _ (fun a => added t0 w keys state a));
    [auto with wallet| |intros t Ht; left; by apply grown_keeps|intros a t (key & _ & Hr); right; by exists key].
  eapply triple_bind; [eapply triple_weaken; [apply (triple_hardlink (grown t0))|done|done|exact Hl]|]. intros ?u.
  eapply triple_bind; [eapply triple_weaken; [apply (triple_read_keys (grown t0))|done|done|exact Hl]|]. intros [ks st].
  apply (triple_pre (fun s => (ks = keys /\ st = state) /\ on_tree (keeps t0) s)).
  { intros s [Hs Hr]. split; [|by apply grown_keeps]. apply (holds_grown t0) in Hr; [|done]. cbn [fst snd] in Hr. clear Hl Hv2 Hs.
    unfold holds in *. destruct (t0 !! wh_path w) as [[c| |]|]; [|done..|].
    - destruct Hh as [_ Hh], Hr as [_ Hr]. rewrite Hh in Hr. by simplify_eq.
    - by destruct Hh, Hr; subst. }
  apply triple_pure. intros [-> ->].
  eapply triple_bind; [apply (triple_guard _ _ _ _ (fun _ s => Z.of_nat (length keys) < MaxWalletKeys /\ on_tree (keeps t0) s))|].
  - intros s Hs Hg. split; [by bool_prop|done].
  - intros s Hs. by left.
  - intros ?u. apply triple_pure. intros Hmax. case_bool_decide as Hst.
    + subst state. by apply triple_next_recovery.
    + apply triple_next_random; [done|done| |done|done]. destruct (wh_requireV2 w); [by rewrite Hv2 in Hst|done].
Qed.

(** The bytes of a V1 file are refused by a handle of a recovery wallet. *)
Lemma clear_file_refused w keys c : valid_keys keys -> wh_requireV2 w = true -> supported (wh_network w) = true ->
  encode_keys (wh_network w) keys = Ok c ->
  decode_keys w c = Err (walletV2FormatError "wallet is not a V2 recovery wallet").
Proof.
  intros Hv Hr2 Hnet He. unfold encode_keys in He. apply bind_Ok in He as (text & Ht & He). res_simpl.
  assert (Hplain : plain_text (bs (wh_network w))) by (apply supported_cases in Hnet as [-> | ->]; by vm_compute).
  assert (Hi : in_i64 SchemaVersion) by (by vm_compute).
  destruct (keyFile_tokens SchemaVersion _ _ _ Hi Hplain (hex_texts keys) Ht) as [_ Hp].
  unfold decode_keys. by rewrite Hp, bool_decide_eq_false_2, Hr2.
Qed.

Definition in_clear w (address : bytes) t : Prop := exists key c, length key = ed25519_SeedSize /\ address = addressForKey key /\
  encode_keys (wh_network w) [key] = Ok c /\ t !! wh_path w = Some (NFile c).

Lemma triple_clear_key t0 w : triple (on_tree (keeps t0)) (next_random_key w []) (fun a => on_tree (in_clear w a)) (on_tree (fun _ => True)).
Proof.
  eapply triple_bind; [eapply triple_weaken; [apply (triple_rand_read (keeps t0))|done|done|done]|]. intros key.
  apply (triple_pre (fun s => length key = ed25519_SeedSize /\ on_tree (keeps t0) s)); [by intros s []|]. apply triple_pure. intros Hk.
  eapply triple_bind; [apply (triple_guard _ _ _ _ (fun _ => on_tree (keeps t0))); done|]. intros ?u.
  eapply triple_bind; [eapply triple_bind; [apply (triple_guard _ _ _ _ (fun _ => on_tree (keeps t0))); done|]; intros ?u;
    (eapply triple_bind; [eapply triple_weaken; [apply (triple_hardlink (keeps t0))|done|done|done]|]); intros ?u|].
  - eapply triple_bind; [apply (triple_lift _ _ _ (fun c s => encode_keys (wh_network w) [key] = Ok c /\ on_tree (keeps t0) s)); done|].
    intros c. apply triple_pure. intros Hc. eapply triple_weaken; [apply (triple_write_bytes t0 w c (fun c' => encode_keys (wh_network w) [key] = Ok c') Hc)|done|done|done].
  - intros ?u. apply triple_ret. intros s (c & Hc & _ & Hp). by exists key, c.
Qed.

Lemma clear_address_outcomes cpus w t0 : t0 !! wh_path w = None ->
  triple (on_tree (grown t0)) (NewAddress cpus (Some w)) (fun a => on_tree (in_clear w a)) (on_tree (fun _ => True)).
Proof.
  intros Hn. eapply triple_bind; [apply (triple_lift _ _ _ (fun h s => h = w /\ on_tree (grown t0) s)); [|done]|].
  { intros h s Hs E. cbn in E. by res_simpl. }
  intros h. apply triple_pure. intros ->.
  eapply triple_bind; [eapply triple_weaken; [apply (triple_mkdir (grown t0)); auto with wallet|done|done|done]|]. intros ?u.
  apply (triple_locked (grown t0) _ _ (fun a => in_clear w a)); [auto with wallet| |done|done].
  eapply triple_bind; [eapply triple_weaken; [apply (triple_hardlink (grown t0))|done|done|done]|]. intros ?u.
  eapply triple_bind; [eapply triple_weaken; [apply (triple_read_keys (grown t0))|done|done|done]|]. intros [ks st].
  apply (triple_pre (fun s => (ks = [] /\ st = walletMissing) /\ on_tree (keeps t0) s)).
  { intros s [Hs Hr]. split; [|by apply grown_keeps]. apply (holds_grown t0) in Hr; [|done]. unfold holds in Hr. by rewrite Hn in Hr. }
  apply triple_pure. intros [-> ->]. eapply triple_bind; [apply (triple_guard _ _ _ _ (fun _ => on_tree (keeps t0))); done|]. intros ?u.
  rewrite bool_decide_eq_false_2 by done. eapply triple_weaken; [apply triple_clear_key|done|done|done].
Qed.

(** ** Creating and restoring *)
Definition created t0 (network : string) (password : bytes) (payload : recoveryPayload) w t : Prop :=
  wh_network w = network /\ wh_v2Password w = password /\ wh_requireV2 w = true /\ t0 !! wh_path w = None /\
  keeps t0 t /\ exists c, t !! wh_path w = Some (NFile c) /\ sealed_bytes w payload c.

Lemma create_outcomes t0 cpus name network password entropy count :
  triple (on_tree (keeps t0)) (createV2FromEntropy cpus name network password entropy count)
    (fun w => on_tree (created t0 network password (mkPayload entropy count RecoveryDerivationID) w)) (on_tree (keeps t0)).
Proof.
  eapply triple_bind; [apply (triple_guard _ _ _ _ (fun _ => on_tree (keeps t0))); done|]. intros ?u.
  eapply triple_bind; [apply triple_canonical; auto with wallet|]. intros p. cbv zeta. set (w := mkHandle p network false true password).
  apply (triple_locked _ _ _ (fun h => created t0 network password (mkPayload entropy count RecoveryDerivationID) h));
    [auto with wallet| |done|by intros a t (_ & _ & _ & _ & ? & _)].
  eapply triple_bind; [apply triple_hardlink|]. intros ?u. eapply triple_bind; [apply triple_bytes|]. intros [b st].
  eapply triple_bind; [apply (triple_guard _ _ _ _ (fun _ s => t0 !! p = None /\ on_tree (keeps t0) s))|].
  { intros s [Hs Hb] Hg. split; [|done]. bool_prop. subst st. unfold file_bytes in Hb. cbn [fst snd wh_path w] in Hb.
    destruct (w_tree s !! p) as [[]|] eqn:E; [by destruct Hb as (_ & _ & ?)|done|done|]. by eapply lookup_weaken_None. }
  { by intros s []. }
  intros ?u. apply triple_pure. intros Hnone. eapply triple_bind; [by apply (triple_lift _ _ _ (fun _ => on_tree (keeps t0)))|]. intros ?u.
  eapply triple_bind; [eapply triple_weaken; [apply (triple_write_payload t0)|done|done|]|].
  { intros s [Hs|Hs]; [done|]. exact (rewritten_new t0 w _ _ Hnone Hs). }
  intros ?u. set (payload := mkPayload entropy count RecoveryDerivationID).
  assert (Hpost : forall s, on_tree (rewritten t0 w (sealed_bytes w payload)) s -> on_tree (keeps t0) s) by (intros s Hs; exact (rewritten_new t0 w _ _ Hnone Hs)).
  eapply triple_bind; [eapply triple_weaken; [apply (triple_read_keys (rewritten t0 w (sealed_bytes w payload)))|done|done|exact Hpost]|].
  intros [ks st']. eapply triple_bind; [apply (triple_guard _ _ _ _ (fun _ => on_tree (rewritten t0 w (sealed_bytes w payload))))|].
  { by intros s [Hs _]. } { intros s [Hs _]. by apply Hpost. }
  intros ?u. apply triple_ret. intros s Hs. split_and!; [done|done|done|done|by apply Hpost|].
  destruct Hs as (c & Hc & _ & Hp). by exists c.
Qed.

Lemma rewritten_holds t0 w keys state t : rewritten t0 w (key_bytes w keys state) t -> holds w t keys state.
Proof. intros (c & Hc & _ & Hp). unfold holds. by rewrite Hp. Qed.

Lemma holds_keeps t0 t w keys state : keeps t0 t -> holds w t0 keys state -> state <> walletMissing -> holds w t keys state.
Proof.
  intros Hk Hh Hst. unfold holds in *. destruct (t0 !! wh_path w) as [n|] eqn:E; [|by destruct Hh].
  by rewrite (lookup_weaken _ _ _ _ E Hk).
Qed.

(** ** Opening for writing *)
(** The wallet file now holds the keys it held before in the current format, or one new key. *)
Definition upgraded t0 w t : Prop := exists keys state keys', holds w t0 keys state /\ holds w t keys' walletV1 /\
  (if bool_decide (state = walletMissing) then exists key, keys' = [key] else keys' = keys) /\ delete (wh_path w) t0 ⊆ t.

Lemma load_body_outcomes t0 w : wh_requireV2 w = false -> supported (wh_network w) = true ->
  triple (on_tree (grown t0)) (
    _ ← rejectWalletHardLink (wh_path w);
    '(keys, state) ← readKeysLocked w;
    match state with
    | walletMissing => key ← NewKey; _ ← writeKeysLocked w (keys ++ [key]); mret w
    | walletLegacy => _ ← writeKeysLocked w keys; mret w
    | _ => mret w
    end) (fun h => on_tree (fun t => h = w /\ (wh_v2Password w = [] -> upgraded t0 w t))) (on_tree (fun t => keeps t0 t \/ upgraded t0 w t)).
Proof.
  intros Hv2 Hnet. set (R := on_tree (fun t => keeps t0 t \/ upgraded t0 w t)).
  assert (Hl : forall s, on_tree (grown t0) s -> R s) by (intros s Hs; left; by apply grown_keeps).
  assert (Hup : forall keys state keys' t, holds w t0 keys state ->
    (if bool_decide (state = walletMissing) then exists key, keys' = [key] else keys' = keys) ->
    rewritten t0 w (key_bytes w keys' walletV1) t -> upgraded t0 w t).
  { intros keys state keys' t Hh Hk Hr. exists keys, state, keys'. split_and!; [done|by eapply rewritten_holds|done|]. by destruct Hr as (c & _ & Hd & _). }
  eapply triple_bind; [eapply triple_weaken; [apply (triple_hardlink (grown t0))|done|done|exact Hl]|]. intros ?u.
  eapply triple_bind; [eapply triple_weaken; [apply (triple_read_keys (grown t0))|done|done|exact Hl]|]. intros [keys st].
  apply (triple_pre (fun s => holds w t0 keys st /\ on_tree (keeps t0) s)).
  { intros s [Hs Hr]. split; [by eapply holds_grown|by apply grown_keeps]. }
  apply triple_pure. intros Hh.
  assert (Hw : forall ks, valid_keys ks -> (if bool_decide (st = walletMissing) then exists key, ks = [key] else ks = keys) ->
    triple (on_tree (keeps t0)) (_ ← writeKeysLocked w ks; mret w)
      (fun h => on_tree (fun t => h = w /\ (wh_v2Password w = [] -> upgraded t0 w t))) R).
  { intros ks Hv Hks. eapply triple_bind; [eapply triple_weaken; [apply (triple_write_keys t0 w ks Hv Hv2 Hnet)|done|done|]|].
    - intros s [Hs|Hs]; [by left|right; by eapply Hup].
    - intros ?u. apply triple_ret. intros s Hs. split; [done|]. intros _. by eapply Hup. }
  assert (Hvalid : st <> walletMissing -> st <> walletV2 -> valid_keys keys).
  { intros H1' H2'. unfold holds in Hh. destruct (t0 !! wh_path w) as [[c| |]|]; [|done|done|by destruct Hh].
    destruct Hh as [_ [(-> & _)|(_ & _ & Hv)]%decode_keys_cases]; done. }
  destruct st.
  - eapply triple_bind; [eapply triple_weaken; [apply (triple_rand_read (keeps t0))|done|done|intros s Hs; by left]|]. intros key.
    apply (triple_pre (fun s => length key = ed25519_SeedSize /\ on_tree (keeps t0) s)); [by intros s []|]. apply triple_pure. intros Hk.
    assert (keys = []) as -> by (unfold holds in Hh; destruct (t0 !! wh_path w) as [[c| |]|]; [|done|done|by destruct Hh];
      destruct Hh as [_ [(? & _)|([?|[? _]] & _)]%decode_keys_cases]; done).
    apply Hw; [|by exists key]. split; [by vm_compute|by repeat constructor|apply NoDup_singleton].
  - apply Hw; [by apply Hvalid|done].
  - apply triple_ret. intros s Hs. split; [done|]. intros _. exists keys, walletV1, keys. split_and!; [done| |done|].
    + by eapply holds_keeps.
    + etrans; [apply delete_subseteq|exact Hs].
  - apply triple_ret. intros s Hs. split; [done|]. intros Hpw. exfalso. unfold holds in Hh.
    destruct (t0 !! wh_path w) as [[c| |]|]; [|done|done|by destruct Hh].
    destruct Hh as [_ [(_ & Hne & _)|([?|[? _]] & _)]%decode_keys_cases]; done.
Qed.

Lemma load_or_create_outcomes t0 name network :
  triple (on_tree (grown t0)) (LoadOrCreateForNetwork name network)
    (fun w => on_tree (fun t => wh_network w = network /\ wh_requireV2 w = false /\ upgraded t0 w t))
    (on_tree (fun t => keeps t0 t \/ exists w, upgraded t0 w t)).
Proof.
  assert (Hl : forall s, on_tree (grown t0) s -> on_tree (fun t => keeps t0 t \/ exists w, upgraded t0 w t) s) by (intros s Hs; left; by apply grown_keeps).
  eapply triple_bind; [apply (triple_guard _ _ _ _ (fun _ s => supported network = true /\ on_tree (grown t0) s)); [done|exact Hl]|].
  intros ?u. apply triple_pure. intros Hnet.
  eapply triple_bind; [eapply triple_weaken; [apply (triple_canonical (grown t0)); auto with wallet|done|done|exact Hl]|]. intros p.
  set (w := mkHandle p network true false []).
  apply (triple_locked _ _ _ (fun h t => wh_network h = network /\ wh_requireV2 h = false /\ upgraded t0 h t));
    [auto with wallet| |intros t Ht; left; by apply grown_keeps|intros a t (_ & _ & ?); right; by exists a].
  eapply triple_weaken; [apply (load_body_outcomes t0 w eq_refl Hnet)|done| |].
  - intros h s [-> Hu]. split_and!; [done|done|by apply Hu].
  - intros s [Hs|Hs]; [by left|right; by exists w].
Qed.

(** ** Opening for reading *)
Lemma open_outcomes t0 name network : triple (on_tree (grown t0)) (Open name network) (fun _ => on_tree (grown t0)) (on_tree (grown t0)).
Proof.
  eapply triple_bind; [apply (triple_guard _ _ _ _ (fun _ => on_tree (grown t0))); done|]. intros ?u.
  eapply triple_bind; [apply (triple_guard _ _ _ _ (fun _ => on_tree (grown t0))); done|]. intros ?u.
  eapply triple_bind; [apply triple_canonical; auto with wallet|]. intros p.
  eapply triple_bind; [apply triple_with_keys|]. intros ?u. by apply triple_ret.
Qed.
Lemma open_v2_outcomes t0 name network password :
  triple (on_tree (grown t0)) (OpenV2 name network password) (fun _ => on_tree (grown t0)) (on_tree (grown t0)).
Proof.
  eapply triple_bind; [apply (triple_guard _ _ _ _ (fun _ => on_tree (grown t0))); done|]. intros ?u.
  eapply triple_bind; [apply triple_canonical; auto with wallet|]. intros p.
  eapply triple_bind; [apply triple_with_keys|]. intros ?u. by apply triple_ret.
Qed.
Lemma load_outcomes t0 name network : triple (on_tree (grown t0)) (LoadForNetwork name network) (fun _ => on_tree (grown t0)) (on_tree (grown t0)).
Proof.
  eapply triple_bind; [apply (triple_guard _ _ _ _ (fun _ => on_tree (grown t0))); done|]. intros ?u.
  eapply triple_bind; [by apply (triple_lift _ _ _ (fun _ => on_tree (grown t0)))|]. intros abs.
  eapply triple_bind; [apply triple_try_same, triple_reads_same|]. intros [n|e]; [|by apply triple_fail].
  eapply triple_bind; [apply (triple_guard _ _ _ _ (fun _ => on_tree (grown t0))); done|]. intros ?u.
  eapply triple_bind; [apply triple_canonical; auto with wallet|]. intros p.
  eapply triple_bind; [apply triple_with_keys|]. intros ?u. by apply triple_ret.
Qed.
Lemma validate_copy_outcomes t0 (w : option walletHandle) name :
  triple (on_tree (grown t0)) (ValidateCopy w name) (fun _ => on_tree (grown t0)) (on_tree (grown t0)).
Proof.
  eapply triple_bind; [by apply (triple_lift _ _ _ (fun _ => on_tree (grown t0)))|]. intros h. destruct (wh_requireV2 h).
  - eapply triple_bind; [apply (triple_guard _ _ _ _ (fun _ => on_tree (grown t0))); done|]. intros ?u.
    eapply triple_bind; [apply open_v2_outcomes|]. intros ?u. by apply triple_ret.
  - eapply triple_bind; [apply open_outcomes|]. intros ?u. by apply triple_ret.
Qed.

(** The phrase of an open recovery wallet is that of the payload in its file. *)
Lemma phrase_outcomes t0 w : triple (on_tree (grown t0)) (RecoveryPhrase (Some w))
  (fun phrase => on_tree (fun t => grown t0 t /\ exists c payload, t0 !! wh_path w = Some (NFile c) /\
     openRecoveryPayload c (wh_v2Password w) (wh_network w) = Ok payload /\ recoveryPhraseFromEntropy (rp_Entropy payload) = Ok phrase))
  (on_tree (grown t0)).
Proof.
  eapply triple_bind; [apply (triple_lift _ _ _ (fun h s => h = w /\ on_tree (grown t0) s)); [|done]|].
  { intros h s Hs E. destruct (unlocked w); res_simpl. done. }
  intros h. apply triple_pure. intros ->.
  apply (triple_locked _ _ _ (fun phrase t => grown t0 t /\ exists c payload, t0 !! wh_path w = Some (NFile c) /\
     openRecoveryPayload c (wh_v2Password w) (wh_network w) = Ok payload /\ recoveryPhraseFromEntropy (rp_Entropy payload) = Ok phrase));
    [auto with wallet| |done|by intros a t []].
  eapply triple_bind; [apply triple_hardlink|]. intros ?u. eapply triple_bind; [apply triple_read_payload|]. intros payload.
  apply triple_lift; [|by intros s []]. intros phrase s [Hs (c & Hc & Ho)] Hp. split; [done|]. exists c, payload. split_and!; [|done|done].
  destruct (proj2 Hs _ _ Hc) as [?|[?|?]]; [done|done|]. by simplify_eq.
Qed.
End specs.
