(* ===== verification/KeyToy.v ===== *)
(** * A concrete instance for wallet files

    An executable word list, cryptography, JSON codec and file naming that satisfy the
    laws of the interfaces, so that the theorems about wallet files apply to runs that can
    be evaluated.  The codec ends every field with a byte that no text contains. *)
From S2P Require Import Prelude Text GoStrings Params Crypto Toy FileTree PplnsFile Wallet.
From S2P Require Import Mnemonic Recovery WalletPath KeyFile KeyFileProofs.

Module KeyToy.
(** ** Words *)
Definition letter (d : Z) : byte := z2b (97 + d).
Definition toy_word (n : Z) : bytes := [letter (n mod 16); letter (n / 16 mod 16); letter (n / 256)].
Definition word_value (w : bytes) : Z :=
  match w with [a; b; c] => (b2z a - 97) + 16 * (b2z b - 97) + 256 * (b2z c - 97) | _ => 0 end.
Definition toy_list : list bytes := Eval vm_compute in map toy_word (seqZ 0 2048).
#[global] Instance words : WordList := toy_list.
#[global] Instance words_laws : WordListLaws.
Proof.
  split.
  - vm_compute. reflexivity.
  - apply (NoDup_fmap_1 word_value). replace (word_value <$> recoveryWordList) with (seqZ 0 2048); [apply NoDup_seqZ|].
    vm_compute. reflexivity.
  - apply list.Forall_forall. intros w Hw. assert (Hall : forallb word recoveryWordList = true) by (vm_compute; reflexivity).
    rewrite forallb_forall in Hall. by apply Hall, list_elem_of_In.
Qed.

(** ** Cryptography *)
#[global] Instance kdf_laws : KdfLaws.
Proof. split. intros. reflexivity. Qed.

Definition tag (k n p a : bytes) : bytes := take 16 (Toy.toy_hash (k ++ n ++ p ++ a)).
#[global] Instance crypto2 : RecoveryCrypto := {
  hmac_sha512 k m := to_array 64 (Toy.toy_hash (k ++ m) ++ Toy.toy_hash (m ++ k));
  pbkdf2_sha512 p s i n := to_array n (Toy.toy_hash (p ++ s));
  aead_seal k n p a := p ++ tag k n p a;
  aead_open k n c a := let p := take (length c - 16) c in
                       if (16 <=? length c)%nat && bool_decide (c = p ++ tag k n p a) then Some p else None;
}.
Lemma length_tag k n p a : length (tag k n p a) = 16%nat.
Proof. unfold tag, Toy.toy_hash. rewrite length_take, length_le_bytes. done. Qed.
#[global] Instance crypto2_laws : RecoveryCryptoLaws.
Proof.
  split; cbn [hmac_sha512 pbkdf2_sha512 aead_seal aead_open crypto2]; intros.
  - apply length_to_array.
  - apply length_to_array.
  - rewrite length_app, length_tag. done.
  - rewrite length_app, length_tag, Nat.add_sub, take_app_length. rewrite (proj2 (Nat.leb_le _ _)) by lia.
    by rewrite bool_decide_eq_true_2.
  - destruct (_ && _) eqn:E; [|done]. bool_prop. by simplify_eq.
Qed.

(** ** Fields *)
Definition stop : byte := Byte.xff.
Definition no_stop (f : bytes) : Prop := stop ∉ f.
Definition enc_fields (fs : list bytes) : bytes := flat_map (fun f => f ++ [stop]) fs.
Definition num (z : Z) : bytes := hex_encode (le_bytes 8 z).
Definition num_value (f : bytes) : option Z :=
  match hex_decode f with Ok b => if (length b =? 8)%nat then Some (i64 (le_val b)) else None | Err _ => None end.

Lemma Split_field f s : no_stop f -> Split stop (f ++ stop :: s) = f :: Split stop s.
Proof.
  unfold no_stop. induction f as [|c f IH]; intros Hf; cbn [app Split].
  - by rewrite bool_decide_eq_true_2.
  - rewrite bool_decide_eq_false_2 by set_solver. rewrite IH by set_solver. done.
Qed.
Lemma Split_enc fs rest : Forall no_stop fs -> no_stop rest -> Split stop (enc_fields fs ++ rest) = fs ++ [rest].
Proof.
  intros Hfs Hr. induction Hfs as [|f fs Hf Hfs IH]; cbn [enc_fields flat_map app].
  - unfold no_stop in Hr. induction rest as [|c rest IHr]; [done|]. cbn [Split]. rewrite bool_decide_eq_false_2 by set_solver.
    cbn [app] in IHr. rewrite IHr by set_solver. done.
  - rewrite <- !app_assoc. cbn [app]. rewrite Split_field by done. f_equal. apply IH.
Qed.
Lemma length_enc fs : length (enc_fields fs) = (foldr (fun f n => length f + 1 + n) 0 fs)%nat.
Proof. induction fs as [|f fs IH]; [done|]. cbn [enc_fields flat_map foldr]. rewrite !length_app. unfold enc_fields in IH. rewrite IH. done. Qed.

Lemma num_ok z : in_i64 z -> num_value (num z) = Some z.
Proof.
  intros Hz. unfold num_value, num. rewrite hex_decode_encode, length_le_bytes. cbn [Nat.eqb]. f_equal.
  rewrite le_val_le_bytes. by apply (i64_u64 z).
Qed.
Lemma length_num z : length (num z) = 16%nat.
Proof. unfold num. by rewrite length_hex_encode, length_le_bytes. Qed.

Lemma ascii_no_stop s : ascii s -> no_stop s.
Proof. unfold ascii, no_stop. rewrite list.Forall_forall. intros Ha Hin. specialize (Ha _ Hin). by vm_compute in Ha. Qed.
Lemma plain_ascii s : plain_text s -> ascii s.
Proof.
  unfold plain_text, ascii. rewrite forallb_forall, list.Forall_forall. intros Hp c Hc. specialize (Hp c (proj1 (list_elem_of_In _ _) Hc)).
  unfold plain_char in Hp. rewrite !orb_true_iff, !andb_true_iff in Hp. rewrite !Z.leb_le, Z.eqb_eq in Hp. lia.
Qed.
Lemma hex_no_stop b : no_stop (hex_encode b).
Proof. apply ascii_no_stop, plain_ascii, hex_plain. Qed.
Lemma bs_back s : String.string_of_list_byte (bs s) = s.
Proof. apply String.string_of_list_byte_of_string. Qed.

(** ** The codec *)
Definition text (f : bytes) : string := String.string_of_list_byte f.
Definition kdf_fields (k : v2KDFParams) : list bytes :=
  [bs (kd_Name k); kd_Salt k; num (kd_Time k); num (kd_MemoryKiB k); num (kd_Parallelism k)].
Definition envelope_fields (e : v2Envelope) : list bytes :=
  [bs "envelope"; num (ve_SchemaVersion e); bs (ve_Network e)] ++ kdf_fields (ve_KDF e) ++
  [bs (ci_Name (ve_Cipher e)); ci_Nonce (ve_Cipher e); ci_Ciphertext (ve_Cipher e)].
Definition payload_fields (p : recoveryPayload) : list bytes :=
  [bs "payload"; hex_encode (rp_Entropy p); num (rp_AddressCount p); bs (rp_Derivation p)].
Definition key_fields (version : Z) (network : bytes) (keys : list bytes) : list bytes :=
  bs "keys" :: num version :: network :: keys.

Definition parse_envelope (fs : list bytes) : option (v2Envelope * bytes) :=
  match fs with
  | [t; v; n; kn; ks; kt; km; kp; cn; no; ct; rest] =>
      if bool_decide (t = bs "envelope") then
        v ← num_value v; kt ← num_value kt; km ← num_value km; kp ← num_value kp;
        Some (mkEnvelope v (text n) (mkKDF (text kn) ks kt km kp) (mkCipher (text cn) no ct), rest)
      else None
  | _ => None
  end.
Definition parse_payload (fs : list bytes) : option (recoveryPayload * bytes) :=
  match fs with
  | [t; e; n; d; rest] =>
      if bool_decide (t = bs "payload") then
        n ← num_value n; e ← match hex_decode e with Ok b => Some b | Err _ => None end;
        Some (mkPayload e n (text d), rest)
      else None
  | _ => None
  end.
Definition parse_keys (fs : list bytes) : option (Z * bytes * list bytes) :=
  match fs with
  | t :: v :: n :: ks => if bool_decide (t = bs "keys") then v ← num_value v; Some (v, n, removelast ks) else None
  | _ => None
  end.
(** A legacy file: the keys alone. *)
Definition parse_legacy (fs : list bytes) : option (list bytes) :=
  match fs with t :: ks => if bool_decide (t = bs "legacy") then Some (removelast ks) else None | [] => None end.

Definition or_error {A} (o : option A) : result A := match o with Some a => Ok a | None => Err (EText "unexpected end of JSON input") end.

#[global] Instance rjson : RecoveryJson := {
  json_payload p := Ok (enc_fields (payload_fields p));
  json_header h := Ok (enc_fields (num (vh_SchemaVersion h) :: bs (vh_Network h) :: kdf_fields (vh_KDF h) ++ [bs (vh_CipherName h)]));
  json_envelope e := Ok (enc_fields (envelope_fields e));
  wallet_tokens b := let fs := Split stop b in
    match parse_envelope fs, parse_payload fs with None, None => ([], false) | _, _ => (tokens (JObject FNil), true) end;
  decode_payload b := or_error (parse_payload (Split stop b));
  decode_envelope b := or_error (parse_envelope (Split stop b));
  at_eof rest := bool_decide (rest = [] \/ rest = [Byte.x0a]);
  probe_schema b := let fs := Split stop b in
    match parse_envelope fs, parse_keys fs with
    | Some (e, _), _ => Some (ve_SchemaVersion e)
    | _, Some (v, _, _) => Some v
    | _, _ => Some 0
    end;
}.
#[global] Instance kjson : KeyJson := {
  json_keyFile kf := Ok (enc_fields (key_fields (kf_SchemaVersion kf) (kf_Network kf) (default [] (kf_Keys kf))));
  key_stream b := let fs := Split stop b in
    match parse_keys fs, parse_legacy fs with
    | Some (v, n, ks), _ => mkStream (key_tokens v n ks) true
    | _, Some ks => mkStream ([JObj; JText (bs "keys"); JArr] ++ map JText ks ++ [JArrEnd; JObjEnd]) true
    | _, _ => mkStream [] false
    end;
}.

Lemma u32_i64 z : in_u32 z -> in_i64 z.
Proof. unfold in_u32, in_i64, two32, two63. lia. Qed.

Lemma literal_no_stop s : forallb (fun c => b2z c <? 128) (bs s) = true -> no_stop (bs s).
Proof.
  intros Hf. apply ascii_no_stop, list.Forall_forall. intros c Hc. rewrite forallb_forall in Hf.
  apply list_elem_of_In, Hf in Hc. by bool_prop.
Qed.

Lemma envelope_no_stop e : envelope_plain e -> Forall no_stop (envelope_fields e).
Proof.
  intros (_ & Hn & (Hkn & Hks & _) & Hcn & Hno & Hct). unfold envelope_fields, kdf_fields, num. cbn [app].
  repeat (constructor; [first [by apply ascii_no_stop|apply hex_no_stop|by apply literal_no_stop]|]). constructor.
Qed.
Lemma parse_envelope_ok e rest : envelope_plain e -> parse_envelope (envelope_fields e ++ [rest]) = Some (e, rest).
Proof.
  intros (Hv & _ & (_ & _ & Ht & Hm & Hp) & _). unfold envelope_fields, kdf_fields. cbn [app parse_envelope].
  rewrite bool_decide_eq_true_2 by done. rewrite !num_ok by (done || (by apply u32_i64) || (unfold in_i64, two63; lia)).
  cbn [mbind option_bind]. unfold text. rewrite !bs_back. destruct e as [? ? [] []]. done.
Qed.

Lemma payload_no_stop p : payload_plain p -> Forall no_stop (payload_fields p).
Proof.
  intros [_ Hd]. unfold payload_fields, num.
  repeat (constructor; [first [by apply ascii_no_stop|apply hex_no_stop|by apply literal_no_stop]|]). constructor.
Qed.
Lemma parse_payload_ok p rest : payload_plain p -> parse_payload (payload_fields p ++ [rest]) = Some (p, rest).
Proof.
  intros [Hn _]. unfold payload_fields. cbn [app parse_payload]. rewrite bool_decide_eq_true_2 by done.
  rewrite num_ok by (by apply u32_i64). cbn [mbind option_bind]. rewrite hex_decode_encode. cbn [mbind option_bind].
  unfold text. rewrite bs_back. by destruct p.
Qed.

Lemma newline_no_stop : no_stop [Byte.x0a].
Proof. unfold no_stop. by rewrite list_elem_of_singleton. Qed.
Lemma empty_no_stop : no_stop [].
Proof. unfold no_stop. apply not_elem_of_nil. Qed.

Lemma Split_enc_nil fs : Forall no_stop fs -> Split stop (enc_fields fs) = fs ++ [[]].
Proof. intros Hf. rewrite <- (Split_enc fs [] Hf empty_no_stop). by rewrite app_nil_r. Qed.

Lemma one_value_payload p : payload_plain p -> one_value (enc_fields (payload_fields p)).
Proof.
  intros Hp. exists (JObject FNil). split; [|by repeat constructor]. cbn [wallet_tokens rjson].
  rewrite (Split_enc_nil _ (payload_no_stop p Hp)). rewrite (parse_payload_ok p [] Hp).
  by destruct (parse_envelope _).
Qed.

Lemma length_fields fs k : (length fs <= k)%nat -> (length (enc_fields fs) <= foldr (fun f n => length f + n) 0 fs + k)%nat.
Proof. rewrite length_enc. revert k. induction fs as [|f fs IH]; intros k Hk; cbn [foldr length] in *; [lia|]. specialize (IH (k - 1)%nat ltac:(lia)). lia. Qed.

#[global] Instance rjson_laws : RecoveryJsonLaws.
Proof.
  split.
  - by eexists.
  - by eexists.
  - by eexists.
  - intros p b Hp E. apply Ok_inj in E as <-. split; [by apply one_value_payload|]. exists []. split; [|done]. unfold decode_payload, rjson.
    rewrite (Split_enc_nil _ (payload_no_stop p Hp)). by rewrite parse_payload_ok.
  - intros e b He E. apply Ok_inj in E as <-. pose proof (Split_enc _ _ (envelope_no_stop e He) newline_no_stop) as Hs.
    pose proof (parse_envelope_ok e [Byte.x0a] He) as Hpe. split; [|split].
    + exists (JObject FNil). split; [|by repeat constructor]. cbn [wallet_tokens rjson]. by rewrite Hs, Hpe.
    + cbn [probe_schema rjson]. by rewrite Hs, Hpe.
    + exists [Byte.x0a]. split; [|done]. cbn [decode_envelope rjson]. by rewrite Hs, Hpe.
  - intros p b Hp E. apply Ok_inj in E as <-. rewrite length_enc. unfold payload_fields, payload_texts. cbn [foldr]. rewrite length_num, length_hex_encode.
    change (length (bs "payload")) with 7%nat. lia.
  - intros e b He E. apply Ok_inj in E as <-. rewrite length_enc. unfold envelope_fields, kdf_fields, envelope_texts. cbn [foldr app]. rewrite !length_num.
    change (length (bs "envelope")) with 8%nat. lia.
Qed.

Lemma length_key_fields keys : Z.of_nat (length (enc_fields keys)) <= sumZ (map (fun k => Z.of_nat (length k) + 8) keys).
Proof.
  rewrite length_enc. induction keys as [|k keys IH]; cbn [foldr map sumZ length]; [lia|]. lia.
Qed.

#[global] Instance kjson_laws : KeyJsonLaws.
Proof.
  split.
  - by eexists.
  - intros v n keys b Hv Hn Hk E. apply Ok_inj in E as <-. cbn [kf_SchemaVersion kf_Network kf_Keys default id].
    assert (Hs : Split stop (enc_fields (key_fields v n keys) ++ [Byte.x0a]) = key_fields v n keys ++ [[Byte.x0a]]).
    { apply Split_enc; [|apply newline_no_stop]. unfold key_fields, num. constructor; [by apply literal_no_stop|].
      constructor; [apply hex_no_stop|]. constructor; [by apply ascii_no_stop, plain_ascii|].
      eapply Forall_impl; [exact Hk|]. intros k Hp. by apply ascii_no_stop, plain_ascii. }
    assert (Hp : parse_keys (key_fields v n keys ++ [[Byte.x0a]]) = Some (v, n, keys)).
    { unfold key_fields. cbn [app parse_keys]. rewrite bool_decide_eq_true_2 by done. rewrite num_ok by done. cbn [mbind option_bind].
      rewrite removelast_last. done. }
    unfold key_stream, probe_schema, kjson, rjson, id. rewrite Hs, Hp. split; [done|].
    replace (parse_envelope _) with (@None (v2Envelope * bytes)); [done|]. unfold key_fields. cbn [app parse_envelope].
    repeat (match goal with |- context [match ?l with [] => _ | _ :: _ => _ end] => destruct l end; try done).
  - intros v n keys b Hn Hk E. apply Ok_inj in E as <-. cbn [kf_SchemaVersion kf_Network kf_Keys default id].
    pose proof (length_key_fields keys) as Hl. unfold key_fields, enc_fields in *. cbn [flat_map].
    rewrite !length_app, length_num. change (length (bs "keys")) with 4%nat. cbn [length]. lia.
Qed.

(** ** Files *)
#[global] Instance fs : WalletFs := {
  readlink p := [bs "data"];
  nlink _ _ := 1;
  temp_name _ := bs "1";
  Abs b := Ok (filter (fun c => c <> []) (Split Byte.x2f b));
}.
Definition empty_tree : tree := {[ [] := NDir ]}.
Definition calm (t : tree) : world := mkWorld t [] true (map z2b (seqZ 1 200)) [0].
(** The machine stops at the [n]-th call from now. *)
Definition crash_at (n : nat) (t : tree) : world :=
  mkWorld t (replicate n Fine ++ [Fault true 3 []]) true (map z2b (seqZ 7 200)) [0].
Definition outcome {A} (r : world * result A) (d : A) : world * A :=
  match r with (s, Ok a) => (s, a) | (s, Err _) => (s, d) end.
Definition nobody : walletHandle := mkHandle [] MainNetMachineID false false [].

Definition password : bytes := bs "correct horse".
Definition creation := CreateV2 8 (bs "/home/me/wallet.json") MainNetMachineID password (calm empty_tree).
Definition wallet2 : walletHandle := (outcome creation (nobody, [])).2.1.
Definition phrase2 : bytes := (outcome creation (nobody, [])).2.2.
Definition tree2 : tree := w_tree (outcome creation (nobody, [])).1.
End KeyToy.
