(* ===== verification/KeyTheorems.v ===== *)
(** * Properties of wallet files and recovery

    Recovery phrases, the encrypted envelope, and the operations on wallet files, with
    their applications to the instance of [KeyToy]. *)
From S2P Require Import Prelude Text GoStrings Params Crypto Address Toy Wallet FileTree.
From S2P Require Import PplnsFile Mnemonic Recovery WalletPath KeyFile KeyFileProofs KeyToy.

(** ** The key file behind the payment operations *)
Definition err_of {A} (r : result A) : option error := match r with Ok _ => None | Err e => Some e end.

Section observe.
Context `{Crypto} `{WordList} `{RecoveryCrypto} `{RecoveryJson} `{KeyJson} `{WalletFs}.

(** The outcomes of the file operations of one [withKeys]. *)
Definition observe (w : walletHandle) (s : world) : walletIO :=
  let (s1, r1) := MkdirAll (parent (wh_path w)) s in
  let (s2, r2) := acquireWalletFileLock (lock_path (wh_path w)) s1 in
  let (s3, r3) := rejectWalletHardLink (wh_path w) s2 in
  let (s4, r4) := match r3 with Ok _ => readKeysLocked w s3 | Err e => (s3, Err e) end in
  let (_, r5) := release (lock_path (wh_path w)) s4 in
  mkWalletIO (err_of r1) (err_of r2) (err_of r3) r4 (err_of r5).

Lemma with_keys_observed {A : Type} w requireKey (fn : list bytes -> result A) s :
  (with_keys (Some w) requireKey fn s).2 = withKeys (observe w s) requireKey fn.
Proof.
  unfold with_keys, withKeys, observe, locked, mbind, prog_bind, lift, not_nil, try, guard.
  destruct (MkdirAll _ s) as [s1 [[]|e1]], (acquireWalletFileLock _ s1) as [s2 [[]|e2]],
    (rejectWalletHardLink _ s2) as [s3 [[]|e3]]; cbn;
    try (destruct (readKeysLocked w s3) as [s4 [[keys state]|e4]]; cbn);
    match goal with |- context [release _ ?s'] => destruct (release _ s') as [s5 [[]|e5]] eqn:Er; cbn end; try done.
  all: destruct (bool_decide _), requireKey; cbn; try (destruct keys; cbn); try destruct (fn _); cbn; by rewrite ?Er.
Qed.
End observe.

Lemma triple_result {A : Type} (P : tree -> Prop) (m : io A) (Q : A -> tree -> Prop) (R : tree -> Prop) s s' r :
  triple (on_tree P) m (fun a => on_tree (Q a)) (on_tree R) -> P (w_tree s) -> m s = (s', r) ->
  match r with Ok a => Q a (w_tree s') | Err _ => R (w_tree s') end.
Proof. intros Ht Hs Hm. specialize (Ht s Hs). rewrite Hm in Ht. by destruct r. Qed.

(** Every field of a later wallet with the phrase [phrase] is determined by it. *)
Lemma phrase_entropy `{Crypto} `{!CryptoLaws} `{WordList} `{!WordListLaws} e phrase :
  length e = RecoveryEntropyBytes -> recoveryPhraseFromEntropy e = Ok phrase -> recoveryEntropyFromPhrase phrase = Ok e.
Proof. intros He Hp. rewrite (phrase_words e He) in Hp. res_simpl. by apply entropy_of_phrase. Qed.

Section theorems.
Context `{Crypto} `{!CryptoLaws} `{!KdfLaws} `{WordList} `{!WordListLaws} `{RecoveryCrypto} `{!RecoveryCryptoLaws}.
Context `{RecoveryJson} `{!RecoveryJsonLaws} `{KeyJson} `{!KeyJsonLaws} `{WalletFs}.
Implicit Types (t : tree) (w : walletHandle) (s : world).

Lemma seal_runs s network password payload params : supported network = true -> password_ok password ->
  validateRecoveryPayload payload = Ok tt -> validateV2KDFParams params false = Ok tt -> (40 <= length (w_rand s))%nat ->
  exists s' encoded, sealRecoveryPayload network password payload params s = (s', Ok encoded) /\ w_tree s' = w_tree s /\
    openRecoveryPayload encoded password network = Ok payload.
Proof.
  intros Hnet Hpw Hpay Hkdf Hr. set (salt := take 16 (w_rand s)). set (nonce := take 24 (drop 16 (w_rand s))).
  assert (Hsalt : length salt = v2SaltBytes) by (unfold salt, v2SaltBytes; rewrite length_take; lia).
  assert (Hnonce : length nonce = v2NonceBytes) by (unfold nonce, v2NonceBytes; rewrite length_take, length_drop; lia).
  destruct (seal_succeeds network password payload params salt nonce Hnet Hpw Hpay Hkdf Hsalt Hnonce) as [encoded He].
  exists (mkWorld (w_tree s) (w_plan s) (w_up s) (drop 24 (drop 16 (w_rand s))) (w_clock s)), encoded. split_and!; [|done|].
  - unfold sealRecoveryPayload, mbind, prog_bind, guard, lift, wrapping, rand_read. rewrite Hnet, Hpay, Hkdf. cbn [check].
    unfold password_ok in Hpw. rewrite (proj2 (Nat.ltb_ge _ 1)), (proj2 (Z.ltb_ge _ _)) by lia. cbn [orb negb check].
    unfold v2SaltBytes, v2NonceBytes. rewrite (proj2 (Nat.ltb_ge _ 16)) by lia. cbn [w_tree w_plan w_up w_rand w_clock].
    rewrite (proj2 (Nat.ltb_ge _ 24)) by (rewrite length_drop; lia). cbn [w_tree w_plan w_up w_rand w_clock]. unfold salt, nonce in He. by rewrite He.
  - by destruct (sealed_opens network password payload params salt nonce Hnet Hpw Hpay Hkdf Hsalt Hnonce encoded He).
Qed.

Lemma restore_created name network password phrase n cpus s s' w : 
  RestoreV2 cpus name network password phrase n s = (s', Ok w) -> exists e, recoveryEntropyFromPhrase phrase = Ok e /\
    created (w_tree s) network password (mkPayload e n RecoveryDerivationID) w (w_tree s').
Proof.
  unfold RestoreV2, mbind, prog_bind, lift. destruct (recoveryEntropyFromPhrase phrase) as [e|]; [|done]. intros Hc.
  exists e. split; [done|]. exact (triple_result _ _ _ _ _ _ _ (create_outcomes (w_tree s) cpus name network password e n) ltac:(done) Hc).
Qed.

Lemma create_created name network password cpus s s' w phrase :
  CreateV2 cpus name network password s = (s', Ok (w, phrase)) -> exists e, length e = RecoveryEntropyBytes /\
    recoveryPhraseFromEntropy e = Ok phrase /\ created (w_tree s) network password (mkPayload e 1 RecoveryDerivationID) w (w_tree s').
Proof.
  unfold CreateV2, mbind, prog_bind, lift, wrapping, rand_read. destruct (length (w_rand s) <? _)%nat eqn:El; [done|]. apply Nat.ltb_ge in El.
  set (e := take _ _). set (s1 := mkWorld _ _ _ _ _). destruct (recoveryPhraseFromEntropy e) as [ph|] eqn:Ep; [|done].
  destruct (createV2FromEntropy _ _ _ _ _ _ s1) as [s2 [h|]] eqn:Ec; [|done]. intros E. injection E as <- <- <-.
  exists e. split_and!; [unfold e; rewrite length_take; lia|done|].
  exact (triple_result _ _ _ _ s1 _ _ (create_outcomes (w_tree s) cpus name network password e 1) ltac:(done) Ec).
Qed.

Lemma created_holds t0 network password payload w t : created t0 network password payload w t ->
  holds w t (payload_keys payload network) walletV2 /\ validateRecoveryPayload payload = Ok tt.
Proof.
  intros (<- & _ & _ & _ & _ & c & Hc & Hs). unfold holds. rewrite Hc. by destruct (sealed_keys w payload c Hs) as (? & ? & _).
Qed.

(** C24: Every entropy of 32 bytes has a recovery phrase of 24
    words that reads back as the same entropy, and every phrase that is accepted is the
    phrase of the entropy it gives: word order, bit packing and checksum are inverse. *)
Theorem recovery_phrase_round_trip :
  (forall e, length e = RecoveryEntropyBytes -> exists phrase, recoveryPhraseFromEntropy e = Ok phrase /\
     length (Fields phrase) = RecoveryWordCount /\ recoveryEntropyFromPhrase phrase = Ok e) /\
  (forall phrase e, recoveryEntropyFromPhrase phrase = Ok e ->
     length e = RecoveryEntropyBytes /\ recoveryPhraseFromEntropy e = Ok phrase).
Proof.
  split.
  - intros e He. exists (Join (entropy_words e)). split; [by apply phrase_words|]. split; [|by apply entropy_of_phrase].
    rewrite Fields_Join by apply entropy_words_plain. unfold entropy_words. by rewrite length_fmap, length_seq.
  - intros phrase e Hp. destruct (phrase_of_entropy phrase e Hp) as [He ->]. split; [done|]. by apply phrase_words.
Qed.

(** With forty random bytes and arguments in range, a payload is
    always sealed; the file opens with the same password to the same payload, and for no
    other network. *)
Theorem sealed_wallet_opens s network password payload params :
  supported network = true -> password_ok password -> validateRecoveryPayload payload = Ok tt ->
  validateV2KDFParams params false = Ok tt -> (40 <= length (w_rand s))%nat ->
  exists s' encoded, sealRecoveryPayload network password payload params s = (s', Ok encoded) /\ w_tree s' = w_tree s /\
    openRecoveryPayload encoded password network = Ok payload /\
    forall password' network', network' <> network -> exists e, openRecoveryPayload encoded password' network' = Err e.
Proof.
  intros Hnet Hpw Hpay Hkdf Hr. destruct (seal_runs s network password payload params Hnet Hpw Hpay Hkdf Hr) as (s' & c & Hc & Ht & Ho).
  exists s', c. split_and!; [done|done|done|]. intros pw' net' Hne. destruct (openRecoveryPayload c pw' net') as [p'|e] eqn:E; [|by exists e].
  exfalso. apply Hne. destruct (opened_authentic _ _ _ _ E) as (_ & _ & _ & env' & ? & ? & ? & ? & Hd' & _ & Hn' & _).
  destruct (opened_authentic _ _ _ _ Ho) as (_ & _ & _ & env & ? & ? & ? & ? & Hd & _ & Hn & _). congruence.
Qed.

(** A wallet file opens only to a valid payload that was sealed
    under this password, with the header of this network, a key derivation within its
    bounds and the nonce and salt of the file; every other outcome is one of two errors. *)
Theorem opened_wallet_authentic encoded password network :
  match openRecoveryPayload encoded password network with
  | Ok payload => validateRecoveryPayload payload = Ok tt /\ supported network = true /\ password_ok password /\
                  authentic encoded password network payload
  | Err e => e = ErrWalletUnlock \/ exists m, e = walletV2FormatError m
  end.
Proof.
  destruct (openRecoveryPayload encoded password network) as [payload|e] eqn:E; [by apply opened_authentic|by eapply open_errors].
Qed.

(** C18: Whatever faults and crashes [NewAddress] meets, the wallet file
    afterwards holds exactly the keys it held before, or these and one more; when an
    address is returned it is that of the new key and the key is in the file; no other
    entry of the file system is changed. *)
Theorem new_address_atomic cpus w s s' r keys state :
  holds w (w_tree s) keys state -> state <> walletMissing -> supported (wh_network w) = true ->
  (wh_requireV2 w = true -> state = walletV2) ->
  NewAddress cpus (Some w) s = (s', r) ->
  delete (wh_path w) (w_tree s) ⊆ w_tree s' /\
  (holds w (w_tree s') keys state \/
   exists key state', holds w (w_tree s') (keys ++ [key]) state' /\ (state = walletV2 -> state' = walletV2)) /\
  (forall address, r = Ok address -> exists key state', holds w (w_tree s') (keys ++ [key]) state' /\ address = addressForKey key).
Proof.
  intros Hh Hst Hnet Hv2 Hr.
  pose proof (triple_result _ _ _ _ s s' r (new_address_outcomes cpus w (w_tree s) keys state Hh Hnet Hv2) (grown_refl _) Hr) as Ho.
  assert (Hadd : forall key, rewritten (w_tree s) w (one_more (w_tree s) w keys state key) (w_tree s') ->
    delete (wh_path w) (w_tree s) ⊆ w_tree s' /\
    exists state', holds w (w_tree s') (keys ++ [key]) state' /\ (state = walletV2 -> state' = walletV2)).
  { intros key Hk. split; [by destruct Hk as (c & _ & Hd & _)|]. eexists. split.
    - eapply rewritten_holds, rewritten_weaken; [|exact Hk]. by intros c [Hc _].
    - intros ->. by rewrite bool_decide_eq_true_2. }
  destruct r as [a|e].
  - destruct Ho as (key & -> & Hk). destruct (Hadd key Hk) as (Hd & st' & Hh' & Hst'). split_and!; [done|by eauto|].
    intros a' [= <-]. by eauto.
  - destruct Ho as [Hk|(key & Hk)].
    + split_and!; [etrans; [apply delete_subseteq|exact Hk]|left; by eapply holds_keeps|done].
    + destruct (Hadd key Hk) as (Hd & st' & Hh' & Hst'). split_and!; [done|by eauto|done].
Qed.

(** The phrase that [CreateV2] returns, and that [RecoveryPhrase]
    returns, is the phrase of the wallet file; [NewAddress] never changes it, whatever
    faults and crashes it meets. *)
Theorem recovery_phrase_kept cpus name network password w phrase s s' :
  (CreateV2 cpus name network password s = (s', Ok (w, phrase)) -> phrase_of w (w_tree s') phrase) /\
  (RecoveryPhrase (Some w) s = (s', Ok phrase) -> phrase_of w (w_tree s) phrase /\ phrase_of w (w_tree s') phrase) /\
  (forall r keys, holds w (w_tree s) keys walletV2 -> phrase_of w (w_tree s) phrase ->
     NewAddress cpus (Some w) s = (s', r) -> phrase_of w (w_tree s') phrase).
Proof.
  assert (Hkeep : keeps (w_tree s) (w_tree s') -> phrase_of w (w_tree s) phrase -> phrase_of w (w_tree s') phrase).
  { intros Hk (c & p & Hc & Hp). exists c, p. split; [by eapply lookup_weaken|done]. }
  split_and!.
  - intros (e & He & Hp & (Hn & Hpw & _ & _ & _ & c & Hc & _ & _ & Ho))%create_created. exists c. eexists. by split_and!.
  - intros Hr. destruct (triple_result _ _ _ _ _ _ _ (phrase_outcomes (w_tree s) w) (grown_refl _) Hr) as [Hg Hp]. split; [exact Hp|].
    apply Hkeep; [by apply grown_keeps|exact Hp].
  - intros r keys Hh Hp Hr. assert (Hnet : supported (wh_network w) = true).
    { destruct Hp as (c & p & _ & Ho & _). by destruct (opened_authentic _ _ _ _ Ho) as (_ & ? & _). }
    pose proof (triple_result _ _ _ _ s s' r (new_address_outcomes cpus w (w_tree s) keys walletV2 Hh Hnet (fun _ => eq_refl)) (grown_refl _) Hr) as Ho.
    assert (Hone : forall key, rewritten (w_tree s) w (one_more (w_tree s) w keys walletV2 key) (w_tree s') -> phrase_of w (w_tree s') phrase).
    { intros key (c & [_ Hc] & _ & Hat). destruct (Hc eq_refl phrase Hp) as (p & Hop & Hph). by exists c, p. }
    destruct r as [a|e]; [destruct Ho as (key & _ & Hk); by eapply Hone|]. destruct Ho as [Hk|(key & Hk)]; [by apply Hkeep|by eapply Hone].
Qed.

(** C19: Restoring the recovery phrase of a wallet, on the same
    network, anywhere and with any password, gives a wallet with the requested number of
    addresses and the same phrase, whose addresses are those of the original in the same
    order. *)
Theorem restore_recovers_addresses w t keys phrase cpus name password n s s' w' :
  phrase_of w t phrase -> holds w t keys walletV2 ->
  RestoreV2 cpus name (wh_network w) password phrase n s = (s', Ok w') ->
  exists keys', holds w' (w_tree s') keys' walletV2 /\ Z.of_nat (length keys') = n /\ phrase_of w' (w_tree s') phrase /\
    forall i key key', keys !! i = Some key -> keys' !! i = Some key' -> addressForKey key = addressForKey key'.
Proof.
  intros (c & p & Hc & Ho & Hp) Hh Hr. destruct (restore_created _ _ _ _ _ _ _ _ _ Hr) as (e & He & Hcr).
  unfold holds in Hh. rewrite Hc in Hh. destruct Hh as [_ [(_ & _ & p' & Ho' & Hv & Hnet & ->)|([?|[? _]] & _)]%decode_keys_cases]; [|done|done].
  assert (p' = p) as -> by congruence. apply payload_valid in Hv as (Hlen & Hcount & _).
  rewrite (phrase_entropy _ _ Hlen Hp) in He. res_simpl. destruct (created_holds _ _ _ _ _ _ Hcr) as [Hh' Hv'].
  apply payload_valid in Hv' as (_ & Hn & _). cbn [rp_AddressCount] in Hn.
  eexists. split; [exact Hh'|]. split; [apply (length_payload_keys (mkPayload (rp_Entropy p) n RecoveryDerivationID)); cbn; lia|]. split.
  - destruct Hcr as (Hn' & Hpw & _ & _ & _ & c' & Hc' & _ & _ & Ho2). exists c'. eexists. by split_and!.
  - intros i k k'. unfold payload_keys. cbn [rp_Entropy rp_AddressCount]. rewrite !list_lookup_fmap_Some.
    intros (x & -> & [-> _]%lookup_seqZ) (y & -> & [-> _]%lookup_seqZ). done.
Qed.

(** C23: Creating, restoring, opening, loading or checking a wallet,
    reading its phrase or its keys never changes or removes any entry of the file system,
    whatever faults and crashes they meet: a second [CreateV2] cannot destroy a wallet. *)
Theorem existing_files_kept cpus name network password phrase n (w : option walletHandle) requireKey (fn : list bytes -> result unit) s :
  w_tree s ⊆ w_tree (CreateV2 cpus name network password s).1 /\
  w_tree s ⊆ w_tree (RestoreV2 cpus name network password phrase n s).1 /\
  w_tree s ⊆ w_tree (Open name network s).1 /\ w_tree s ⊆ w_tree (LoadForNetwork name network s).1 /\
  w_tree s ⊆ w_tree (OpenV2 name network password s).1 /\ w_tree s ⊆ w_tree (ValidateCopy w name s).1 /\
  w_tree s ⊆ w_tree (RecoveryPhrase w s).1 /\ w_tree s ⊆ w_tree (with_keys w requireKey fn s).1.
Proof.
  assert (Hgr : forall A (m : io A) (Q : A -> tree -> Prop), (forall a t, Q a t -> grown (w_tree s) t) ->
    triple (on_tree (grown (w_tree s))) m (fun a => on_tree (Q a)) (on_tree (grown (w_tree s))) -> w_tree s ⊆ w_tree (m s).1).
  { intros A m Q HQ Hm. destruct (m s) as [s' r] eqn:E. pose proof (triple_result _ _ _ _ _ _ _ Hm (grown_refl _) E) as Hr.
    destruct r as [a|e]; cbn [fst]; [by apply grown_keeps, (HQ a)|by apply grown_keeps]. }
  assert (Hcreate : forall e k s1, w_tree s1 = w_tree s -> w_tree s ⊆ w_tree (createV2FromEntropy cpus name network password e k s1).1).
  { intros e k s1 Hs1. destruct (createV2FromEntropy cpus name network password e k s1) as [s' r] eqn:E.
    assert (Hk : keeps (w_tree s) (w_tree s1)) by (rewrite Hs1; done).
    pose proof (triple_result _ _ _ _ _ _ _ (create_outcomes (w_tree s) cpus name network password e k) Hk E) as Hr.
    destruct r as [a|e']; [by destruct Hr as (_ & _ & _ & _ & ? & _)|exact Hr]. }
  split_and!.
  - unfold CreateV2, mbind, prog_bind, lift, wrapping, rand_read. destruct (_ <? _)%nat; [done|].
    destruct (recoveryPhraseFromEntropy _) as [ph|]; [|done].
    match goal with |- context [createV2FromEntropy _ _ _ _ ?e _ ?s1] => pose proof (Hcreate e 1 s1 eq_refl) as Hc;
      by destruct (createV2FromEntropy cpus name network password e 1 s1) as [s' []] end.
  - unfold RestoreV2, mbind, prog_bind, lift. destruct (recoveryEntropyFromPhrase phrase); [|done]. by apply Hcreate.
  - eapply (Hgr _ _ (fun _ => grown (w_tree s))); [done|apply open_outcomes].
  - eapply (Hgr _ _ (fun _ => grown (w_tree s))); [done|apply load_outcomes].
  - eapply (Hgr _ _ (fun _ => grown (w_tree s))); [done|apply open_v2_outcomes].
  - eapply (Hgr _ _ (fun _ => grown (w_tree s))); [done|apply validate_copy_outcomes].
  - destruct w as [w|]; [|done]. eapply Hgr; [|apply phrase_outcomes]. by intros a t [].
  - eapply (Hgr _ _ (fun _ => grown (w_tree s))); [done|apply triple_with_keys].
Qed.

(** [LoadOrCreateForNetwork] leaves a file with one new key where
    there was none, and a file with exactly the keys it held, in order, where there was
    one, in the current format; whatever happens the file is old or complete. *)
Theorem upgrade_keeps_keys name network s s' r : LoadOrCreateForNetwork name network s = (s', r) ->
  match r with
  | Ok w => wh_network w = network /\ upgraded (w_tree s) w (w_tree s')
  | Err _ => w_tree s ⊆ w_tree s' \/ exists w, upgraded (w_tree s) w (w_tree s')
  end.
Proof.
  intros Hr. pose proof (triple_result _ _ _ _ _ _ _ (load_or_create_outcomes (w_tree s) name network) (grown_refl _) Hr) as Ho.
  destruct r as [w|e]; [by destruct Ho as (? & _ & ?)|done].
Qed.

(** The keys that an operation reads are those of the wallet file. *)
Lemma observe_holds w s keys state : io_read (observe w s) = Ok (keys, state) -> holds w (w_tree s) keys state.
Proof.
  unfold observe. destruct (MkdirAll _ s) as [s1 r1] eqn:E1.
  pose proof (triple_result _ _ _ _ _ _ _ (triple_mkdir (grown (w_tree s)) (stable_grown _) _) (grown_refl _) E1) as H1'.
  destruct (acquireWalletFileLock _ s1) as [s2 r2] eqn:E2.
  pose proof (triple_result _ _ _ _ _ _ _ (triple_acquire (grown (w_tree s)) _ (stable_grown _)) ltac:(by destruct r1) E2) as H2'.
  destruct (rejectWalletHardLink _ s2) as [s3 r3] eqn:E3.
  pose proof (triple_result _ _ _ _ _ _ _ (triple_hardlink (grown (w_tree s)) _) ltac:(by destruct r2) E3) as H3'.
  destruct r3 as [[]|e3]; [|by destruct (release _ _)].
  destruct (readKeysLocked w s3) as [s4 r4] eqn:E4.
  pose proof (triple_result _ _ _ _ _ _ _ (triple_read_keys (grown (w_tree s)) w) H3' E4) as H4'.
  destruct (release _ s4) as [s5 r5]. cbn [io_read]. intros ->. destruct H4' as [Hg Hh]. by eapply holds_grown.
Qed.

(** When the file of an open recovery wallet is gone,
    a [NewAddress] that succeeds writes a new random key unencrypted in the old format;
    the recovery phrase does not cover it and the handle cannot read the file any more. *)
Theorem missing_recovery_wallet_in_clear cpus w s s' address :
  wh_requireV2 w = true -> supported (wh_network w) = true -> w_tree s !! wh_path w = None ->
  NewAddress cpus (Some w) s = (s', Ok address) ->
  exists key c, address = addressForKey key /\ w_tree s' !! wh_path w = Some (NFile c) /\
    encode_keys (wh_network w) [key] = Ok c /\
    decode_keys w c = Err (walletV2FormatError "wallet is not a V2 recovery wallet").
Proof.
  intros Hv2 Hnet Hn Hr.
  destruct (triple_result _ _ _ _ _ _ _ (clear_address_outcomes cpus w (w_tree s) Hn) (grown_refl _) Hr) as (key & c & Hl & Ha & He & Hc).
  exists key, c. split_and!; [done|done|done|]. eapply clear_file_refused; [|done|done|exact He].
  split; [by vm_compute|by repeat constructor|apply NoDup_singleton].
Qed.
End theorems.

(** ** Applications *)
Section applications.
Import KeyToy.

(** A run that ended well, and what it gave. *)
Lemma outcome_ok {A : Type} (x : world * result A) d : is_ok x.2 = true -> x = ((outcome x d).1, Ok (outcome x d).2).
Proof. by destruct x as [s [a|e]]. Qed.

Lemma creation_ok : is_ok creation.2 = true.
Proof. vm_compute. reflexivity. Qed.

Lemma toy_creation : exists s', CreateV2 8 (bs "/home/me/wallet.json") MainNetMachineID password (calm empty_tree) =
  (s', Ok (wallet2, phrase2)) /\ w_tree s' = tree2.
Proof.
  exists (outcome creation (nobody, [])).1. split; [|reflexivity].
  rewrite <- (surjective_pairing (outcome creation (nobody, [])).2 : _ = (wallet2, phrase2)).
  exact (outcome_ok creation (nobody, []) creation_ok).
Qed.

Lemma toy_wallet : phrase_of wallet2 tree2 phrase2 /\ exists keys, holds wallet2 tree2 keys walletV2 /\
  supported (wh_network wallet2) = true /\ wh_requireV2 wallet2 = true.
Proof.
  destruct toy_creation as (s' & Hc & Ht). revert Hc Ht. generalize (calm empty_tree) wallet2 phrase2 tree2. intros s w ph t Hc <-.
  destruct (create_created _ _ _ _ _ _ _ _ Hc) as (e & He & Hp & Hcr).
  destruct (created_holds _ _ _ _ _ _ Hcr) as [Hh _]. destruct Hcr as (Hn & Hpw & H2 & _ & _ & c & Hat & _ & _ & Ho). split.
  - exists c. eexists. by split_and!.
  - eexists. split; [exact Hh|]. by rewrite Hn.
Qed.

Definition toy_entropy : bytes := map z2b (seqZ 1 32).

Lemma recovery_phrase_round_trip_witness : exists phrase, recoveryPhraseFromEntropy toy_entropy = Ok phrase /\
  length (Fields phrase) = RecoveryWordCount /\ recoveryEntropyFromPhrase phrase = Ok toy_entropy.
Proof. destruct recovery_phrase_round_trip as [Hf _]. exact (Hf toy_entropy eq_refl). Defined.

Definition toy_payload : recoveryPayload := mkPayload toy_entropy 3 RecoveryDerivationID.

Lemma sealed_wallet_opens_witness : exists s' encoded,
  sealRecoveryPayload RegTestMachineID password toy_payload (walletV2KDFParams 2) (calm empty_tree) = (s', Ok encoded) /\
  w_tree s' = empty_tree /\ openRecoveryPayload encoded password RegTestMachineID = Ok toy_payload /\
  forall password' network', network' <> RegTestMachineID -> exists e, openRecoveryPayload encoded password' network' = Err e.
Proof.
  apply (sealed_wallet_opens (calm empty_tree) RegTestMachineID password toy_payload (walletV2KDFParams 2)).
  - vm_compute. reflexivity.
  - split; vm_compute; discriminate.
  - vm_compute. reflexivity.
  - vm_compute. reflexivity.
  - apply Nat.leb_le. vm_compute. reflexivity.
Defined.

Lemma opened_wallet_authentic_witness : match openRecoveryPayload (bs "{}") password MainNetMachineID with
  | Ok payload => validateRecoveryPayload payload = Ok tt /\ supported MainNetMachineID = true /\ password_ok password /\
                  authentic (bs "{}") password MainNetMachineID payload
  | Err e => e = ErrWalletUnlock \/ exists m, e = walletV2FormatError m
  end.
Proof. exact (opened_wallet_authentic (bs "{}") password MainNetMachineID). Defined.

(** The machine stops while the new file is being written. *)
Definition toy_crash := NewAddress 8 (Some wallet2) (crash_at 12 tree2).
Lemma new_address_atomic_witness : exists keys, holds wallet2 tree2 keys walletV2 /\
  (holds wallet2 (w_tree toy_crash.1) keys walletV2 \/
   exists key state', holds wallet2 (w_tree toy_crash.1) (keys ++ [key]) state' /\ (walletV2 = walletV2 -> state' = walletV2)).
Proof.
  destruct toy_wallet as (_ & keys & Hh & Hn & H2). exists keys. split; [exact Hh|].
  destruct (new_address_atomic 8 wallet2 (crash_at 12 tree2) toy_crash.1 toy_crash.2 keys walletV2 Hh ltac:(discriminate) Hn
    (fun _ => eq_refl) (surjective_pairing _)) as (_ & Ho & _). exact Ho.
Defined.

Lemma recovery_phrase_kept_witness : phrase_of wallet2 (w_tree (NewAddress 8 (Some wallet2) (calm tree2)).1) phrase2.
Proof.
  destruct toy_wallet as (Hp & keys & Hh & _). destruct (recovery_phrase_kept 8 [] MainNetMachineID [] wallet2 phrase2 (calm tree2)
    (NewAddress 8 (Some wallet2) (calm tree2)).1) as (_ & _ & Hk).
  exact (Hk (NewAddress 8 (Some wallet2) (calm tree2)).2 keys Hh Hp (surjective_pairing _)).
Defined.

Definition toy_restore := RestoreV2 4 (bs "/backup/wallet.json") MainNetMachineID (bs "another") phrase2 3 (calm tree2).
Definition restored : walletHandle := (outcome toy_restore nobody).2.
Lemma toy_restored : exists s', RestoreV2 4 (bs "/backup/wallet.json") MainNetMachineID (bs "another") phrase2 3 (calm tree2) =
  (s', Ok restored) /\ s' = (outcome toy_restore nobody).1.
Proof.
  eexists. split; [|reflexivity]. assert (Hok : is_ok toy_restore.2 = true) by (vm_compute; reflexivity).
  exact (outcome_ok toy_restore nobody Hok).
Qed.
Lemma restore_recovers_addresses_witness : exists keys keys', holds wallet2 tree2 keys walletV2 /\
  holds restored (w_tree (outcome toy_restore nobody).1) keys' walletV2 /\ Z.of_nat (length keys') = 3 /\
  phrase_of restored (w_tree (outcome toy_restore nobody).1) phrase2 /\
  forall i key key', keys !! i = Some key -> keys' !! i = Some key' -> addressForKey key = addressForKey key'.
Proof.
  destruct toy_wallet as (Hp & keys & Hh & _). exists keys.
  destruct toy_restored as (s' & Hr & <-).
  destruct (restore_recovers_addresses wallet2 tree2 keys phrase2 4 (bs "/backup/wallet.json") (bs "another") 3 (calm tree2) s' restored
    Hp Hh Hr) as (keys' & Hr'). exists keys'. exact (conj Hh Hr').
Defined.

(** A second wallet at the same place. *)
Lemma existing_files_kept_witness : tree2 ⊆ w_tree (CreateV2 8 (bs "/home/me/wallet.json") MainNetMachineID (bs "x") (calm tree2)).1.
Proof.
  destruct (existing_files_kept 8 (bs "/home/me/wallet.json") MainNetMachineID (bs "x") [] 1 None false (fun _ => Ok tt) (calm tree2)) as [Hk _].
  exact Hk.
Defined.

(** A legacy file with two keys. *)
Definition legacy_file : bytes := enc_fields [bs "legacy"; hex_encode toy_entropy; hex_encode (zeros 32)] ++ [Byte.x0a].
Definition legacy_tree : tree := <[[bs "old.json"] := NFile legacy_file]> empty_tree.
Definition toy_upgrade := LoadOrCreateForNetwork (bs "/old.json") RegTestMachineID (calm legacy_tree).
Definition old_wallet : walletHandle := mkHandle [bs "old.json"] RegTestMachineID true false [].
Lemma toy_upgraded : toy_upgrade = (toy_upgrade.1, Ok old_wallet).
Proof.
  destruct toy_upgrade as [s' r] eqn:E. assert (Hok : toy_upgrade.2 = Ok old_wallet) by (vm_compute; reflexivity).
  rewrite E in Hok. cbn in Hok. by subst.
Qed.
Lemma upgrade_keeps_keys_witness : wh_network old_wallet = RegTestMachineID /\ upgraded legacy_tree old_wallet (w_tree toy_upgrade.1).
Proof. exact (upgrade_keeps_keys (bs "/old.json") RegTestMachineID (calm legacy_tree) toy_upgrade.1 (Ok old_wallet) toy_upgraded). Defined.

Definition lost := NewAddress 8 (Some wallet2) (calm empty_tree).
Lemma toy_lost : NewAddress 8 (Some wallet2) (calm empty_tree) = ((outcome lost []).1, Ok (outcome lost []).2).
Proof. assert (Hok : is_ok lost.2 = true) by (vm_compute; reflexivity). exact (outcome_ok lost [] Hok). Qed.
Lemma missing_recovery_wallet_in_clear_witness : exists key c, (outcome lost []).2 = addressForKey key /\
  w_tree (outcome lost []).1 !! wh_path wallet2 = Some (NFile c) /\ encode_keys (wh_network wallet2) [key] = Ok c /\
  decode_keys wallet2 c = Err (walletV2FormatError "wallet is not a V2 recovery wallet").
Proof.
  destruct toy_wallet as (_ & keys & _ & Hn & H2).
  assert (Hnone : w_tree (calm empty_tree) !! wh_path wallet2 = None) by (vm_compute; reflexivity).
  exact (missing_recovery_wallet_in_clear 8 wallet2 (calm empty_tree) (outcome lost []).1 (outcome lost []).2 H2 Hn Hnone toy_lost).
Defined.
End applications.
