(* ===== verification/GoJson.v ===== *)
(** * JSON texts (encoding/json)

    What [json.Marshal] writes for the messages of the light wallet, and the interface of
    the decoder.  Every text in these messages consists of printable ASCII characters that
    JSON writes as they are, so printing does not escape.  Integers fit [int64].  A
    decoder is an interface: reading back what was printed is its law, what it does with
    other bytes is open. *)
From S2P Require Import Prelude Text.

Inductive value :=
  | VInt (z : Z) | VText (s : bytes) | VBool (b : bool) | VNull | VArray (l : list value) | VObject (l : list (bytes * value)).

(** ** Printing *)
Definition quote : byte := Byte.x22.
Definition comma : byte := Byte.x2c.
Definition colon : byte := Byte.x3a.

Definition print_int (z : Z) : bytes := if z <? 0 then Byte.x2d :: dec_string (- z) else dec_string z.
Definition quoted (s : bytes) : bytes := quote :: s ++ [quote].
Fixpoint commas (l : list bytes) : bytes :=
  match l with [] => [] | [a] => a | a :: l => a ++ comma :: commas l end.

Fixpoint print (v : value) : bytes :=
  match v with
  | VInt z => print_int z
  | VText s => quoted s
  | VBool b => if b then bs "true" else bs "false"
  | VNull => bs "null"
  | VArray l => Byte.x5b :: commas (map print l) ++ [Byte.x5d]
  | VObject l => Byte.x7b :: commas (map (fun f => quoted (fst f) ++ colon :: print (snd f)) l) ++ [Byte.x7d]
  end.

(** Characters that need no escape, also with HTML escaping. *)
Definition plain_char (c : byte) : bool :=
  (32 <=? b2z c) && (b2z c <? 127) && negb (existsb (fun d => bool_decide (c = d)) [quote; Byte.x5c; Byte.x3c; Byte.x3e; Byte.x26]).
Definition plain_text (s : bytes) : bool := forallb plain_char s.

Fixpoint plain_value (v : value) : bool :=
  match v with
  | VInt z => bool_decide (in_i64 z)
  | VText s => plain_text s
  | VBool _ | VNull => true
  | VArray l => forallb plain_value l
  | VObject l => forallb (fun f => plain_text (fst f) && plain_value (snd f)) l
  end.

(** JSON white space *)
Definition blank (s : bytes) : bool := forallb (fun c => existsb (Z.eqb (b2z c)) [9; 10; 13; 32]) s.

(** ** Messages *)
(** The fields of a struct with their names and types. *)
Class JsonRecord (A : Type) := { to_json : A -> value; from_json : value -> option A }.

(** [json.Marshal]; [json.Encoder.Encode] adds a newline. *)
Definition Marshal {A} `{JsonRecord A} (a : A) : bytes := print (to_json a).
Definition Encode {A} `{JsonRecord A} (a : A) : bytes := Marshal a ++ [Byte.x0a].

(** [json.Decoder.Decode] with [DisallowUnknownFields]: the value and what follows it.
    [json_ahead] is how many bytes the decoder has taken from its reader by then. *)
Class JsonDecoder := {
  json_Decode : forall A, JsonRecord A -> bytes -> result (A * bytes);
  json_ahead : bytes -> nat;
}.
Arguments json_Decode {_} A {_} data.

Class JsonDecoderLaws `{JsonDecoder} : Prop := {
  decode_printed : forall A (R : JsonRecord A) (a : A) rest,
    plain_value (to_json a) = true -> from_json (to_json a) = Some a -> blank rest = true ->
    json_Decode A (Marshal a ++ rest) = Ok (a, rest);
  ahead_bounded : forall data, (json_ahead data <= length data)%nat;
}.

(** ** Reading the fields of a struct *)
Fixpoint assoc (name : bytes) (l : list (bytes * value)) : option value :=
  match l with
  | [] => None
  | (n, v) :: l => if bool_decide (n = name) then Some v else assoc name l
  end.
Definition field {A} (name : string) (read : value -> option A) (v : value) : option A :=
  match v with VObject l => assoc (bs name) l ≫= read | _ => None end.
Definition as_int (lo hi : Z) (v : value) : option Z :=
  match v with VInt z => if (lo <=? z) && (z <? hi) then Some z else None | _ => None end.
Definition as_int64 : value -> option Z := as_int (- two63) two63.
Definition as_uint32 : value -> option Z := as_int 0 two32.
Definition as_bool (v : value) : option bool := match v with VBool b => Some b | _ => None end.
(** A pointer field: [null] is nil. *)
Definition as_pointer {A} (read : value -> option A) (v : value) : option (option A) :=
  match v with VNull => Some None | _ => Some <$> read v end.
Definition pointer {A} (show : A -> value) (a : option A) : value := match a with Some a => show a | None => VNull end.
Definition as_bytes (v : value) : option bytes := match v with VText s => Some s | _ => None end.
Definition text (s : string) : value := VText (bs s).
Definition as_text (v : value) : option string :=
  match v with VText s => Some (String.string_of_list_byte s) | _ => None end.
Definition as_list {A} (read : value -> option A) (v : value) : option (list A) :=
  match v with VArray l => mapM read l | _ => None end.
Definition object (l : list (string * value)) : value := VObject (map (fun f => (bs (fst f), snd f)) l).

(** * A JSON parser

    An executable decoder that satisfies the law of the decoder interface: it reads back
    every plain value that was printed, whatever white space follows. *)

(** ** Induction over values *)
Section value_ind.
Context (P : value -> Prop) (Hint : forall z, P (VInt z)) (Htext : forall s, P (VText s))
  (Hbool : forall b, P (VBool b)) (Hnull : P VNull)
  (Harray : forall l, Forall P l -> P (VArray l))
  (Hobject : forall l, Forall (fun f => P f.2) l -> P (VObject l)).

Fixpoint value_induction (v : value) : P v :=
  match v with
  | VInt z => Hint z
  | VText s => Htext s
  | VBool b => Hbool b
  | VNull => Hnull
  | VArray l => Harray l ((fix go l := match l return Forall P l with
                             | [] => Forall_nil_2 P | v :: l => Forall_cons_2 P v l (value_induction v) (go l) end) l)
  | VObject l => Hobject l ((fix go l := match l return Forall (fun f => P f.2) l with
                   | [] => Forall_nil_2 _ | f :: l => Forall_cons_2 (fun f => P f.2) f l (value_induction f.2) (go l) end) l)
  end.
End value_ind.

(** ** The parser *)
Definition digit (c : byte) : bool := (48 <=? b2z c) && (b2z c <=? 57).
Fixpoint span (f : byte -> bool) (s : bytes) : bytes * bytes :=
  match s with
  | [] => ([], [])
  | c :: s' => if f c then let (a, r) := span f s' in (c :: a, r) else ([], s)
  end.
Definition dec_step (v : Z) (c : byte) : Z := 10 * v + (b2z c - 48).
Definition dec_value (s : bytes) : Z := foldl dec_step 0 s.

Definition parse_text (s : bytes) : option (bytes * bytes) :=
  match span plain_char s with
  | (t, c :: r) => if bool_decide (c = quote) then Some (t, r) else None
  | _ => None
  end.
Definition parse_digits (s : bytes) : option (Z * bytes) :=
  match span digit s with ([], _) => None | (d, r) => Some (dec_value d, r) end.

(** The rest of a keyword. *)
Definition parse_word (w s : bytes) : option bytes :=
  if bool_decide (take (length w) s = w) then Some (drop (length w) s) else None.

(** The items of an array or object up to its closing bracket. *)
Section items.
Context {A : Type} (close : byte) (item : bytes -> option (A * bytes)).
Fixpoint items (n : nat) (s : bytes) : option (list A * bytes) :=
  match n with
  | O => None
  | S n =>
      '(a, r) ← item s;
      match r with
      | [] => None
      | c :: r => if bool_decide (c = comma) then '(l, r) ← items n r; Some (a :: l, r)
                  else if bool_decide (c = close) then Some ([a], r) else None
      end
  end.
Definition bracketed (n : nat) (s : bytes) : option (list A * bytes) :=
  match s with
  | c :: r => if bool_decide (c = close) then Some ([], r) else items n s
  | [] => None
  end.
End items.

Definition parse_field (parse : bytes -> option (value * bytes)) (s : bytes) : option ((bytes * value) * bytes) :=
  match s with
  | q :: s => if negb (bool_decide (q = quote)) then None else
      '(name, r) ← parse_text s;
      match r with
      | c :: r => if negb (bool_decide (c = colon)) then None else '(v, r) ← parse r; Some ((name, v), r)
      | [] => None
      end
  | [] => None
  end.

Fixpoint parse (fuel : nat) (s : bytes) : option (value * bytes) :=
  match fuel with
  | O => None
  | S fuel =>
      match s with
      | [] => None
      | c :: r =>
          if bool_decide (c = quote) then '(t, r) ← parse_text r; Some (VText t, r)
          else if bool_decide (c = Byte.x5b) then '(l, r) ← bracketed Byte.x5d (parse fuel) fuel r; Some (VArray l, r)
          else if bool_decide (c = Byte.x7b) then
            '(l, r) ← bracketed Byte.x7d (parse_field (parse fuel)) fuel r; Some (VObject l, r)
          else if bool_decide (c = Byte.x2d) then '(z, r) ← parse_digits r; Some (VInt (- z), r)
          else if bool_decide (c = Byte.x74) then r ← parse_word (bs "rue") r; Some (VBool true, r)
          else if bool_decide (c = Byte.x66) then r ← parse_word (bs "alse") r; Some (VBool false, r)
          else if bool_decide (c = Byte.x6e) then r ← parse_word (bs "ull") r; Some (VNull, r)
          else '(z, r) ← parse_digits s; Some (VInt z, r)
      end
  end.

(** ** Reading back *)
(** What follows a value does not continue a number. *)
Definition ends (rest : bytes) : Prop := match rest with [] => True | c :: _ => digit c = false end.

Lemma span_app f a rest : forallb f a = true -> match rest with [] => True | c :: _ => f c = false end ->
  span f (a ++ rest) = (a, rest).
Proof.
  induction a as [|c a IH]; simpl; intros Ha Hr.
  - destruct rest as [|c rest]; simpl; [done|]. by rewrite Hr.
  - apply andb_true_iff in Ha as [-> Ha]. by rewrite IH.
Qed.

Lemma dec_digits_value fuel n acc : 0 <= n < 10 ^ Z.of_nat fuel -> (0 < fuel)%nat ->
  foldl dec_step 0 (dec_digits fuel n acc) = foldl dec_step n acc.
Proof.
  revert n acc. induction fuel as [|fuel IH]; intros n acc Hn Hf; [lia|]. cbn [dec_digits].
  assert (Hd : b2z (z2b (48 + n mod 10)) = 48 + n mod 10) by (rewrite b2z_z2b, Z.mod_small; mlia).
  rewrite Nat2Z.inj_succ, Z.pow_succ_r in Hn by lia. destruct (Z.ltb_spec n 10).
  - cbn [foldl]. f_equal. unfold dec_step. rewrite Hd, Z.mod_small by lia. lia.
  - destruct fuel as [|fuel]; [simpl in Hn; lia|]. rewrite IH by (split; [mlia|apply Z.div_lt_upper_bound; lia]||lia).
    cbn [foldl]. f_equal. unfold dec_step. rewrite Hd. mlia.
Qed.

Lemma dec_digits_digits fuel n acc : 0 <= n -> forallb digit acc = true -> forallb digit (dec_digits fuel n acc) = true.
Proof.
  revert n acc. induction fuel as [|fuel IH]; intros n acc Hn Ha; [done|]. cbn [dec_digits].
  assert (Hd : digit (z2b (48 + n mod 10)) = true).
  { unfold digit. rewrite b2z_z2b, Z.mod_small by mlia. apply andb_true_iff. split; apply Z.leb_le; mlia. }
  destruct (n <? 10); [by rewrite <- Ha; simpl; rewrite Hd|]. apply IH; [mlia|]. simpl. by rewrite Hd, Ha.
Qed.

Lemma dec_string_nonempty n : exists c s, dec_string n = c :: s.
Proof.
  assert (Hg : forall fuel m acc, acc <> [] \/ (0 < fuel)%nat -> dec_digits fuel m acc <> []).
  { induction fuel as [|fuel IH]; intros m acc Ha; [destruct Ha; [done|lia]|]. cbn [dec_digits].
    destruct (m <? 10); [done|]. apply IH. by left. }
  destruct (dec_string n) as [|c s] eqn:E; [|by exists c, s]. apply Hg in E; [done|right; lia].
Qed.

Lemma parse_dec_string n rest : 0 <= n < 10 ^ 20 -> ends rest -> parse_digits (dec_string n ++ rest) = Some (n, rest).
Proof.
  intros Hn Hr. unfold parse_digits. rewrite span_app; [|by apply dec_digits_digits; [lia|]|done].
  assert (Hv : dec_value (dec_string n) = n) by (unfold dec_value, dec_string; rewrite dec_digits_value by lia; done).
  destruct (dec_string_nonempty n) as (c & s & E). rewrite E in *. by rewrite Hv.
Qed.

Lemma parse_plain_text s rest : plain_text s = true -> parse_text (s ++ quote :: rest) = Some (s, rest).
Proof. intros Hs. unfold parse_text. rewrite span_app by done. by rewrite bool_decide_eq_true_2. Qed.

(** Items printed between commas are read back when every single one is. *)
Lemma items_commas {A} close item (show : A -> bytes) l n rest :
  close <> comma -> digit close = false -> l <> [] -> (length l <= n)%nat ->
  Forall (fun a => forall rest, ends rest -> item (show a ++ rest) = Some (a, rest)) l ->
  items close item n (commas (map show l) ++ close :: rest) = Some (l, rest).
Proof.
  intros Hne Hd Hl Hn Hall. revert n Hn. induction Hall as [|a l Ha Hall IH]; intros n Hn; [done|].
  destruct n as [|n]; [simpl in Hn; lia|]. cbn [items map commas]. destruct l as [|b l].
  - rewrite Ha by done. cbn. rewrite bool_decide_eq_false_2 by done. by rewrite bool_decide_eq_true_2.
  - cbn [map]. rewrite <- app_assoc, <- app_comm_cons, Ha by done. cbn [mbind option_bind].
    rewrite bool_decide_eq_true_2 by done. change (show b :: map show l) with (map show (b :: l)).
    rewrite IH by (done || (simpl in *; lia)). done.
Qed.

Lemma bracketed_commas {A} close item (show : A -> bytes) l n rest :
  close <> comma -> digit close = false -> (length l <= n)%nat ->
  Forall (fun a => (exists c s, show a = c :: s /\ c <> close) /\
                   forall rest, ends rest -> item (show a ++ rest) = Some (a, rest)) l ->
  bracketed close item n (commas (map show l) ++ close :: rest) = Some (l, rest).
Proof.
  intros Hne Hd Hn Hall. destruct l as [|a l].
  { simpl. by rewrite bool_decide_eq_true_2. }
  assert (Hfirst : exists c s, commas (map show (a :: l)) ++ close :: rest = c :: s /\ c <> close).
  { inv Hall as [|? ? [(c & s & Hs & Hc) _] _]. destruct l; cbn [map commas]; rewrite Hs; by eexists _, _. }
  destruct Hfirst as (c & s & Hs & Hc). unfold bracketed. rewrite Hs. rewrite bool_decide_eq_false_2 by done.
  rewrite <- Hs. apply items_commas; [done..|]. eapply Forall_impl; [exact Hall|]. by intros x [_ ?].
Qed.

(** The number of nodes bounds the fuel. *)
Fixpoint weight (v : value) : nat :=
  match v with
  | VInt _ | VText _ | VBool _ | VNull => 1
  | VArray l => S (sum_list_with weight l)
  | VObject l => S (sum_list_with (fun f => weight (snd f)) l)
  end.

Lemma weight_pos v : (1 <= weight v)%nat.
Proof. destruct v; simpl; lia. Qed.

Lemma weights {A} (f : A -> nat) l : (forall a, (1 <= f a)%nat) ->
  (length l <= sum_list_with f l)%nat /\ Forall (fun a => (f a <= sum_list_with f l)%nat) l.
Proof.
  intros Hf. induction l as [|a l [IH1 IH2]]; simpl; [split; [lia|constructor]|]. pose proof (Hf a).
  split; [lia|]. constructor; [lia|]. eapply Forall_impl; [exact IH2|]. simpl. intros b Hb. lia.
Qed.

Lemma print_int_first z : exists c s, print_int z = c :: s /\ c <> Byte.x5d /\
  (c = Byte.x2d /\ z < 0 /\ s = dec_string (- z) \/ digit c = true /\ 0 <= z /\ c :: s = dec_string z).
Proof.
  unfold print_int. destruct (Z.ltb_spec z 0); [exists Byte.x2d, (dec_string (- z)); split_and!; [done|done|by left]|].
  destruct (dec_string_nonempty z) as (c & s & E). assert (Hd : forallb digit (dec_string z) = true) by (apply dec_digits_digits; [lia|done]).
  rewrite E in *. simpl in Hd. apply andb_true_iff in Hd as [Hd _]. exists c, s. split_and!; [done| |auto].
  intros ->. done.
Qed.

Lemma print_first v : exists c s, print v = c :: s /\ c <> Byte.x5d.
Proof.
  destruct v as [z| |[] | | |]; [|by eexists _, _..]. destruct (print_int_first z) as (c & s & ? & ? & _). by exists c, s.
Qed.

Lemma parse_print v : plain_value v = true -> forall fuel rest, (weight v <= fuel)%nat -> ends rest ->
  parse fuel (print v ++ rest) = Some (v, rest).
Proof.
  induction v as [z|s|b| |l IH|l IH] using value_induction; intros Hp fuel rest Hw Hr;
    (destruct fuel as [|fuel]; [simpl in Hw; lia|]).
  - cbn [plain_value] in Hp. apply bool_decide_eq_true in Hp. unfold in_i64, two63 in Hp. cbn [print].
    destruct (print_int_first z) as (c & s & E & Hb & [(-> & Hz & Es)|(Hd & Hz & Es)]); rewrite E; cbn [app parse].
    + rewrite !bool_decide_eq_false_2 by done. rewrite bool_decide_eq_true_2 by done. rewrite Es, parse_dec_string by (done || lia).
      cbn. by rewrite Z.opp_involutive.
    + rewrite !bool_decide_eq_false_2 by (intros ->; done). rewrite app_comm_cons, Es, parse_dec_string by (done || lia). done.
  - cbn [print quoted app parse]. rewrite bool_decide_eq_true_2 by done. rewrite <- app_assoc. cbn [app].
    rewrite parse_plain_text by done. done.
  - destruct b; done.
  - done.
  - cbn [print app parse weight] in *. rewrite bool_decide_eq_false_2, bool_decide_eq_true_2 by done. rewrite <- app_assoc. cbn [app].
    destruct (weights weight l weight_pos) as [Hlen Hall]. rewrite bracketed_commas; [done|done|done|lia|].
    rewrite Forall_forall in IH, Hall |- *. intros v Hv. split; [apply print_first|]. intros r Hr'. apply IH; [done| |by apply Hall in Hv; lia|done].
    cbn [plain_value] in Hp. rewrite forallb_forall in Hp. by apply Hp, list_elem_of_In.
  - cbn [print app parse weight] in *. rewrite bool_decide_eq_false_2, bool_decide_eq_false_2, bool_decide_eq_true_2 by done.
    rewrite <- app_assoc. cbn [app]. destruct (weights (fun f => weight (snd f)) l) as [Hlen Hall]; [intros; apply weight_pos|].
    rewrite bracketed_commas; [done|done|done|lia|]. rewrite Forall_forall in IH, Hall |- *. intros [n v] Hv.
    cbn [plain_value] in Hp. rewrite forallb_forall in Hp. specialize (Hp (n, v) ltac:(by apply list_elem_of_In)). simpl in Hp. apply andb_true_iff in Hp as [Hpn Hpv].
    split; [by eexists _, _|]. intros r Hr'. cbn [fst snd quoted app parse_field]. rewrite bool_decide_eq_true_2 by done. cbn [negb].
    rewrite <- !app_assoc. cbn [app]. rewrite parse_plain_text by done. cbn [mbind option_bind]. rewrite bool_decide_eq_true_2 by done. cbn [negb].
    rewrite (IH (n, v)); [done|done|done|by apply Hall in Hv; simpl in *; lia|done].
Qed.

Lemma length_commas l : (sum_list_with length l <= length (commas l))%nat.
Proof.
  induction l as [|a l IH]; [done|]. cbn [sum_list_with commas]. destruct l as [|b l]; [simpl; lia|].
  rewrite length_app. cbn [length]. lia.
Qed.

Lemma sum_list_with_map {A B} (f : A -> B) (g : B -> nat) l : sum_list_with g (map f l) = sum_list_with (fun a => g (f a)) l.
Proof. induction l as [|a l IH]; simpl; congruence. Qed.
Lemma sum_list_with_mono {A} (f g : A -> nat) l : Forall (fun a => (f a <= g a)%nat) l ->
  (sum_list_with f l <= sum_list_with g l)%nat.
Proof. induction 1; simpl; lia. Qed.

Lemma weight_print v : (weight v <= length (print v))%nat.
Proof.
  induction v as [z|s|b| |l IH|l IH] using value_induction.
  - destruct (print_first (VInt z)) as (c & s & -> & _). simpl. lia.
  - simpl. lia.
  - destruct b; simpl; lia.
  - simpl. lia.
  - cbn [weight print length]. rewrite length_app. pose proof (length_commas (map print l)) as Hl.
    rewrite sum_list_with_map in Hl. pose proof (sum_list_with_mono _ _ _ IH). lia.
  - cbn [weight print length]. rewrite length_app. pose proof (length_commas (map (fun f => quoted f.1 ++ colon :: print f.2) l)) as Hl.
    rewrite sum_list_with_map in Hl. assert (Hm := sum_list_with_mono (fun f : bytes * value => weight f.2)
      (fun f => length (quoted f.1 ++ colon :: print f.2)) l). cut (sum_list_with (fun f : bytes * value => weight f.2) l <=
      sum_list_with (fun f => length (quoted f.1 ++ colon :: print f.2)) l)%nat; [lia|]. apply Hm.
    eapply Forall_impl; [exact IH|]. intros [n v] Hv. cbn [fst snd] in *. rewrite length_app. simpl. lia.
Qed.

(** ** The decoder *)
Definition parse_decoder : JsonDecoder := {|
  json_Decode A R data :=
    match parse (length data) data with
    | Some (v, rest) => match from_json v with Some a => Ok (a, rest) | None => Err (EText "json: cannot unmarshal") end
    | None => Err (EText "unexpected end of JSON input")
    end;
  json_ahead data := length data;
|}.

Lemma blank_ends rest : blank rest = true -> ends rest.
Proof.
  destruct rest as [|c rest]; [done|]. unfold blank. cbn [forallb existsb]. unfold ends, digit. intros H.
  apply andb_true_iff in H as [H _]. apply andb_false_iff. left. apply Z.leb_gt.
  repeat (apply orb_true_iff in H as [H|H]; [apply Z.eqb_eq in H; lia|]). done.
Qed.

Lemma parse_decoder_laws : @JsonDecoderLaws parse_decoder.
Proof.
  split; [|done]. intros A R a rest Hp Hf Hb. cbn [json_Decode parse_decoder]. unfold Marshal.
  rewrite parse_print; [by rewrite Hf|done| |by apply blank_ends].
  rewrite length_app. pose proof (weight_print (to_json a)). lia.
Qed.
