(* ===== verification/WalletViewFacts.v ===== *)
(** * More about the wallet view

    Immature outputs, the order and distinctness of all listed outputs, the shape of the
    activity list and the net amounts of pending payments: what a reader of the view relies on beyond the spendable outputs. *)
From S2P Require Import Prelude Params Crypto Pow Wire Merkle Chain Ledger ChainInv ChainView.
From S2P Require Import WalletView WalletViewProofs WalletProofs WalletSendProofs.

(** ** The parts of a scan *)
Record view_parts `{Crypto} (owners : owner_map) (p : Params) (c : Chain) (lim : Z) (view : WalletViewSnapshot)
    (created : created_map) (spent : gset OutPoint) (confirmed mempool : list WalletActivityItem) (totals : view_totals) : Prop := {
  vp_tip : canonicalTipSnapshotLocked c = Ok (wv_Tip view);
  vp_height : ts_Height (wv_Tip view) = bi_height (c_tip c);
  vp_matches : matches created (c_utxo c);
  vp_owners : owners_ok owners created;
  vp_scan : exists l, Z.of_nat (length l) = bi_height (c_tip c) + 1 /\
    foldM (view_block owners p (bi_height (c_tip c))) (∅, []) (indexed l) = Ok (created, confirmed);
  vp_pool : foldM mempool_entry_check tt (map_to_list (c_mempool c)) = Ok tt;
  vp_mempool : foldM (mempool_tx owners created (c_mempool c)) (∅, []) (merge_sort bytes_le ((map_to_list (c_mempool c)).*1))
               = Ok (spent, mempool);
  vp_spent : forall op, op ∈ spent <-> op ∈ mempool_spent (c_mempool c);
  vp_totals : foldM (classify p (bi_height (c_tip c)) spent) (mkTotals [] 0 [] 0) ((map_to_list created).*2) = Ok totals;
  vp_view : view = mkWalletView (ts_Network (wv_Tip view)) true (wv_Tip view)
              (merge_sort spendable_le (vt_spendable totals)) (vt_spendableUnits totals)
              (merge_sort immature_le (vt_immature totals)) (vt_immatureUnits totals)
              (take (Z.to_nat lim) (mempool ++ merge_sort activity_le confirmed));
}.

Section facts.
Context `{Crypto} (owners : owner_map).

Lemma walletView_parts p c lim view :
  pow_params_ok p -> chain_inv p c -> walletViewForOwnersLocked c owners lim = Ok view ->
  exists created spent confirmed mempool totals, view_parts owners p c lim view created spent confirmed mempool totals.
Proof.
  intros Hpow Hc Hv. unfold walletViewForOwnersLocked in Hv. apply bind_Ok in Hv as (tip & Htip & Hv).
  assert (Htiph : ts_Height tip = bi_height (c_tip c)) by (unfold canonicalTipSnapshotLocked in Htip; res_simpl; done).
  destruct (ci_main _ _ Hc) as (l & Hb & _ & Hrep).
  rewrite (canonical_sequence_ok p Hpow c l Hc Hb) in Hv. cbn [mbind result_bind] in Hv.
  apply bind_Ok in Hv as ([created act] & Hscan & Hv). rewrite (ci_params _ _ Hc) in *. pose proof Hscan as Hscan'.
  apply view_chain_sim with (u := c_utxo c) in Hscan as [Hm Ho]; [|by eapply branch_heights|by eapply branch_entry_ok|done].
  cbn [fst] in Hm, Ho. apply bind_Ok in Hv as ([] & Hpool & Hv). apply bind_Ok in Hv as ([spent mact] & Hmem & Hv).
  apply bind_Ok in Hv as (totals & Hcl & Hv). apply Ok_inj in Hv as <-. rewrite Htiph in Hcl, Hscan'.
  exists created, spent, act, mact, totals. split; cbn; try done; [by exists l; split; [eapply branch_length|]|].
  intros op. rewrite (mempool_txs_spent _ _ _ _ _ _ Hmem op), mempool_spent_spec. cbn [fst]. split.
  - intros [?|(id & tx & i & _ & ?)]; [set_solver|eauto].
  - intros (id & tx & i & Hid & ?). right. exists id, tx, i. split; [|done].
    rewrite merge_sort_Permutation. apply list_elem_of_fmap. exists (id, tx). split; [done|]. by apply elem_of_map_to_list.
Qed.

(** ** Immature outputs *)
Definition immature_of (p : Params) (tipHeight : Z) (o : canonicalWalletOutput) : option ImmatureOutputSnapshot :=
  if negb (cw_owned o) || cw_spent o then None
  else if cw_coinbase o && (tipHeight - cw_height o + 1 <? CoinbaseMaturity p)
  then Some (mkImmature (cw_outpoint o) (cw_value o) (cw_pkh o) (cw_ownerIndex o) (cw_height o) (tipHeight - cw_height o + 1))
  else None.

Lemma addWalletMoney_Ok total v detail t : addWalletMoney total v detail = Ok t -> t = total + v /\ t <= MaxMoneyUnits.
Proof.
  unfold addWalletMoney. destruct (checkedAddMoney total v) eqn:E; [|done]. intros [= ->].
  apply checkedAddMoney_Some in E as (-> & ?). lia.
Qed.

Lemma classify_immature p tipHeight spent l : forall st st',
  foldM (classify p tipHeight spent) st l = Ok st' ->
  vt_immature st' = vt_immature st ++ omap (immature_of p tipHeight) l /\
  vt_immatureUnits st' = vt_immatureUnits st + sumZ (io_AmountUnits <$> omap (immature_of p tipHeight) l) /\
  (vt_immatureUnits st <= MaxMoneyUnits -> vt_immatureUnits st' <= MaxMoneyUnits) /\
  (vt_spendableUnits st <= MaxMoneyUnits -> vt_spendableUnits st' <= MaxMoneyUnits).
Proof.
  induction l as [|o l IH]; intros st st' Hf; cbn [foldM] in Hf.
  { simplify_eq. cbn. rewrite app_nil_r. split_and!; done || lia. }
  destruct (classify p tipHeight spent st o) as [st1|] eqn:Ec; [|done].
  destruct (IH _ _ Hf) as (Hi & Hu & Hm & Hs). cbn [omap list_omap].
  assert (Hstep : vt_immature st1 = vt_immature st ++ option_list (immature_of p tipHeight o) /\
    vt_immatureUnits st1 = vt_immatureUnits st + sumZ (io_AmountUnits <$> option_list (immature_of p tipHeight o)) /\
    (vt_immatureUnits st <= MaxMoneyUnits -> vt_immatureUnits st1 <= MaxMoneyUnits) /\
    (vt_spendableUnits st <= MaxMoneyUnits -> vt_spendableUnits st1 <= MaxMoneyUnits)).
  { unfold classify, immature_of in *. destruct (_ || _); [simplify_eq; cbn; rewrite app_nil_r; split_and!; done || lia|].
    destruct (_ && _); [res_simpl; rename select (addWalletMoney _ _ _ = _) into Ha; apply addWalletMoney_Ok in Ha as [-> ?]; cbn;
      split_and!; done || lia|].
    destruct (decide _); [simplify_eq; cbn; rewrite app_nil_r; split_and!; done || lia|]. res_simpl.
    rename select (addWalletMoney _ _ _ = _) into Ha. apply addWalletMoney_Ok in Ha as [-> ?]. cbn. rewrite app_nil_r. split_and!; done || lia. }
  destruct Hstep as (Hi1 & Hu1 & Hm1 & Hs1). split_and!; [| |auto..].
  - rewrite Hi, Hi1, <- app_assoc. by destruct (immature_of p tipHeight o).
  - rewrite Hu, Hu1. destruct (immature_of p tipHeight o); cbn; lia.
Qed.

#[global] Instance immature_le_total : Total immature_le.
Proof. intros a b. apply outpoint_le_total. Qed.

(** What an immature output stands for. *)
Definition immature_spec (c : Chain) (io : ImmatureOutputSnapshot) : Prop :=
  exists e, c_utxo c !! io_OutPoint io = Some e /\ io_AmountUnits io = ue_Value e /\ io_OwnerPKH io = ue_PKH e /\
    owners !! ue_PKH e = Some (io_OwnerIndex io) /\ ue_Coinbase e = true /\ io_BlockHeight io = ue_Height e /\
    io_Confirmations io = bi_height (c_tip c) - ue_Height e + 1 /\ io_Confirmations io < CoinbaseMaturity (c_params c).

Lemma immature_of_spec p c created op o io :
  c_params c = p -> matches created (c_utxo c) -> owners_ok owners created ->
  created !! op = Some o -> immature_of p (bi_height (c_tip c)) o = Some io -> io_OutPoint io = op /\ immature_spec c io.
Proof.
  intros Hp Hm Ho Hl Hi. destruct (Ho _ _ Hl) as [Hop How]. specialize (Hm op). rewrite Hl in Hm. cbn in Hm.
  unfold unspent_entry in Hm. unfold immature_of in Hi. destruct (cw_owned o); [|done]. destruct (cw_spent o); [done|]. cbn [negb orb] in Hi.
  destruct (_ && _) eqn:Emat; [|done]. bool_prop. simplify_eq. split; [done|]. eexists. split; [exact Hm|]. cbn.
  split_and!; try done. by destruct (owners !! cw_pkh o); [destruct How as [_ <-]|].
Qed.

(** ** All listed outputs are distinct *)
Lemma created_keys created : owners_ok owners created -> cw_outpoint <$> (map_to_list created).*2 = (map_to_list created).*1.
Proof.
  intros Ho. rewrite <- list_fmap_compose. apply list_fmap_ext. intros i [op o] Hi. cbn.
  apply list_elem_of_lookup_2, elem_of_map_to_list in Hi. by apply Ho in Hi as [? _].
Qed.

Lemma omap_NoDup {A B C} (f : A -> option B) (g : A -> C) (h : B -> C) l :
  (forall a b, f a = Some b -> h b = g a) -> NoDup (g <$> l) -> NoDup (h <$> omap f l).
Proof.
  intros Hf. induction l as [|a l IH]; [done|]. rewrite fmap_cons, NoDup_cons. intros [Hn Hnd].
  cbn [omap list_omap]. destruct (f a) as [b|] eqn:E; [|by apply IH]. rewrite fmap_cons, NoDup_cons. split; [|by apply IH].
  rewrite (Hf _ _ E). intros (b' & Hb & (a' & Ha & Hb')%list_elem_of_omap)%list_elem_of_fmap. apply Hn. apply list_elem_of_fmap.
  exists a'. split; [|done]. by rewrite Hb, (Hf _ _ Hb').
Qed.

Lemma spendable_of_outpoint p tip spent o so : spendable_of p tip spent o = Some so -> so_OutPoint so = cw_outpoint o.
Proof. unfold spendable_of. repeat case_match; intros; by simplify_eq. Qed.
Lemma immature_of_outpoint p tip o io : immature_of p tip o = Some io -> io_OutPoint io = cw_outpoint o.
Proof. unfold immature_of. repeat case_match; intros; by simplify_eq. Qed.

Lemma spendable_not_immature p tip spent o o' so io l : NoDup (cw_outpoint <$> l) -> o ∈ l -> o' ∈ l ->
  spendable_of p tip spent o = Some so -> immature_of p tip o' = Some io -> so_OutPoint so <> io_OutPoint io.
Proof.
  intros Hnd Ho Ho' Hs Hi Heq. rewrite (spendable_of_outpoint _ _ _ _ _ Hs), (immature_of_outpoint _ _ _ _ Hi) in Heq.
  apply list_elem_of_lookup in Ho as [i Hl1]. apply list_elem_of_lookup in Ho' as [j Hl2].
  assert (i = j) as <-.
  { apply (NoDup_lookup (cw_outpoint <$> l) i j (cw_outpoint o)); [done| |]; rewrite list_lookup_fmap; [by rewrite Hl1|by rewrite Hl2, Heq]. }
  rewrite Hl1 in Hl2. simplify_eq. unfold spendable_of, immature_of in *. destruct (_ || _); [done|]. by destruct (_ && _).
Qed.

(** ** Order *)
Lemma outpoint_le_compare a b : outpoint_le a b <-> op_compare a b <> Gt.
Proof. unfold outpoint_le, op_compare. destruct (bytes_compare _ _); [|done..]. by rewrite Z.compare_le_iff. Qed.

#[global] Instance outpoint_le_trans : Transitive outpoint_le.
Proof.
  intros a b c. rewrite !outpoint_le_compare. intros H1 H2.
  destruct (op_compare a b) eqn:E1; [apply op_compare_eq in E1 as ->; done| |done].
  destruct (op_compare b c) eqn:E2; [apply op_compare_eq in E2 as ->; by rewrite E1| |done].
  by rewrite (op_compare_lt_trans _ _ _ E1 E2).
Qed.

Lemma ascending_of {A} (f : A -> OutPoint) l :
  Sorted (fun a b => outpoint_le (f a) (f b)) l -> NoDup (f <$> l) -> ascending (f <$> l).
Proof.
  intros Hs%Sorted_StronglySorted; [|by intros a b c ? ?; etrans]. induction Hs as [|a l _ IH Hall]; [constructor|].
  rewrite fmap_cons. intros [Hn Hnd]%NoDup_cons. constructor; [by apply IH|]. apply Forall_fmap.
  apply list.Forall_forall. intros b Hb. rewrite list.Forall_forall in Hall. specialize (Hall b Hb).
  apply outpoint_le_compare in Hall. cbn. destruct (op_compare (f a) (f b)) eqn:E; [|done..].
  apply op_compare_eq in E. destruct Hn. apply list_elem_of_fmap. by exists b.
Qed.

(** ** Ids *)
Lemma length_Tx_ID `{!CryptoLaws} tx : length (Tx_ID tx) = 32%nat.
Proof. unfold Tx_ID, SHA256d. apply length_Sum256. Qed.

(** Entries of the table: ids have 32 bytes and heights lie between zero and [top]. *)
Definition ids_ok (top : Z) (created : created_map) : Prop :=
  map_Forall (fun op o => length (op_TxID op) = 32%nat /\ 0 <= cw_height o <= top) created.
Definition items_ok (status : ActivityStatus) (l : list WalletActivityItem) : Prop :=
  Forall (fun a => length (wa_TxID a) = 32%nat /\ wa_Status a = status) l.

Section ids.
Context (top : Z).

Lemma view_inputs_ids ins : forall st st', foldM view_input st ins = Ok st' -> ids_ok top st.1.1 -> ids_ok top st'.1.1.
Proof.
  induction ins as [|i ins IH]; intros st st' Hf Hi; cbn [foldM] in Hf; [by simplify_eq|].
  destruct (view_input st i) as [st1|] eqn:E; [|done]. apply (IH _ _ Hf). destruct st as [[created oi] ho]. unfold view_input in E.
  destruct (created !! in_Prev i) as [o|] eqn:El; [|done]. destruct (cw_spent o); [done|].
  assert (ids_ok top (<[in_Prev i := mark_spent o]> created)) by (apply map_Forall_insert_2; [by apply (Hi _ _ El)|done]).
  destruct (cw_owned o); res_simpl; done.
Qed.

Lemma view_outputs_ids id h cb outs : length id = 32%nat -> 0 <= h <= top -> forall st st',
  foldM (view_output owners id h cb) st outs = Ok st' -> ids_ok top st.1.1 -> ids_ok top st'.1.1.
Proof.
  intros Hid Hh. induction outs as [|io outs IH]; intros st st' Hf Hi; cbn [foldM] in Hf; [by simplify_eq|].
  destruct (view_output owners id h cb st io) as [st1|] eqn:E; [|done]. apply (IH _ _ Hf).
  apply view_output_inv in E as (_ & o & -> & Hue & _). apply map_Forall_insert_2; [|done]. split; [done|].
  unfold unspent_entry in Hue. destruct (cw_spent o); [done|]. injection Hue as _ _ -> _. done.
Qed.

Lemma view_txs_ids `{!CryptoLaws} p bid h conf txs : 0 <= h <= top -> forall n st st',
  foldM (view_tx owners p bid h conf) st (zip (seq n (length txs)) txs) = Ok st' ->
  ids_ok top st.1 -> items_ok ActConfirmed st.2 -> ids_ok top st'.1 /\ items_ok ActConfirmed st'.2.
Proof.
  intros Hh. induction txs as [|tx txs IH]; intros n st st' Hf Hi Ha; cbn [length seq zip zip_with foldM] in Hf; [by simplify_eq|].
  destruct (view_tx owners p bid h conf st (n, tx)) as [st1|] eqn:E; [|done]. apply (IH _ _ _ Hf); clear Hf;
    destruct st as [created act]; unfold view_tx in E; destruct (_ >? _); try done;
    apply bind_Ok in E as ([[c1 oi] ho] & H1 & E); apply bind_Ok in E as ([[c2 oo] he] & H2 & E).
  - assert (ids_ok top c1) by (destruct (IsCoinbase tx); [by simplify_eq|by apply (view_inputs_ids _ _ _ H1)]).
    apply (view_outputs_ids _ _ _ _ (length_Tx_ID tx) Hh) in H2; [|done]. destruct (activity_kind _ _ _ _); res_simpl; done.
  - destruct (activity_kind _ _ _ _); res_simpl; [|done]. apply Forall_app. split; [done|]. constructor; [|constructor].
    split; [apply length_Tx_ID|done].
Qed.

Lemma view_blocks_ids `{!CryptoLaws} p tip l : Forall (fun nb => Z.of_nat nb.1 <= top) l ->
  forall st st', foldM (view_block owners p tip) st l = Ok st' ->
  ids_ok top st.1 -> items_ok ActConfirmed st.2 -> ids_ok top st'.1 /\ items_ok ActConfirmed st'.2.
Proof.
  induction 1 as [|[n bi] l Hn _ IH]; intros st st' Hf Hi Ha; cbn [foldM] in Hf; [by simplify_eq|].
  destruct (view_block owners p tip st (n, bi)) as [st1|] eqn:E; [|done]. unfold view_block in E. cbn in Hn.
  apply view_txs_ids in E as [? ?]; [|lia|done..]. by apply (IH _ _ Hf).
Qed.
End ids.

Lemma pool_ids `{!CryptoLaws} (m : gmap Hash32 Tx) : foldM mempool_entry_check tt (map_to_list m) = Ok tt ->
  forall id, id ∈ (map_to_list m).*1 -> length id = 32%nat.
Proof.
  intros Hf id ([id' tx] & -> & Hin)%list_elem_of_fmap. apply foldM_Forall in Hf. rewrite list.Forall_forall in Hf.
  destruct (Hf _ Hin) as (? & ? & Hc). unfold mempool_entry_check in Hc. cbn in *.
  destruct (bool_decide (Tx_ID tx = id')) eqn:E; [|done]. apply bool_decide_eq_true in E. rewrite <- E. apply length_Tx_ID.
Qed.

(** The activity of the mempool is in the order of its ids. *)
Lemma mempool_activity created m ids : forall st st', foldM (mempool_tx owners created m) st ids = Ok st' ->
  exists new, st'.2 = st.2 ++ new /\ (wa_TxID <$> new) `sublist_of` ids /\ Forall (fun a => wa_Status a = ActMempool) new.
Proof.
  induction ids as [|id ids IH]; intros st st' Hf; cbn [foldM] in Hf.
  { simplify_eq. exists []. rewrite app_nil_r. split_and!; [done|constructor|constructor]. }
  destruct (mempool_tx owners created m st id) as [st1|] eqn:E; [|done]. destruct (IH _ _ Hf) as (new & Hn & Hs & Ha).
  destruct st as [spent act]. unfold mempool_tx in E. destruct (m !! id) as [tx|]; [|done]. cbn [deref mbind result_bind] in E.
  apply bind_Ok in E as ([[sp oi] ho] & _ & E). apply bind_Ok in E as ([oo he] & _ & E).
  destruct (activity_kind _ _ _ _) as [kind|]; res_simpl.
  - eexists (_ :: new). rewrite Hn. cbn [snd]. rewrite <- app_assoc. split_and!; [done|cbn; by constructor|by constructor].
  - exists new. split_and!; [done|by constructor|done].
Qed.

(** ** Net amounts of pending payments *)
(** What a payment spends of the outputs that [own] accepts, and what it pays back. *)
Definition own_input (own : bytes -> bool) (u : utxo_map) (i : TxIn) : Z :=
  match u !! in_Prev i with Some e => if own (ue_PKH e) then ue_Value e else 0 | None => 0 end.
Definition own_output (own : bytes -> bool) (o : TxOut) : Z := if own (out_PubKeyHash o) then out_Value o else 0.
Definition is_owner (pkh : bytes) : bool := bool_decide (is_Some (owners !! pkh)).

Lemma mempool_input_own created u st i st' : matches created u -> owners_ok owners created ->
  mempool_input created st i = Ok st' -> st'.1.2 = st.1.2 + own_input is_owner u i /\
  (st.2 = true -> st'.2 = true) /\ ((exists e, u !! in_Prev i = Some e /\ is_owner (ue_PKH e) = true) -> st'.2 = true).
Proof.
  intros Hm Ho Hi. destruct st as [[spent oi] ho]. unfold mempool_input in Hi.
  destruct (created !! in_Prev i) as [o|] eqn:El; [|done]. destruct (cw_spent o) eqn:Es; [done|]. destruct (decide _); [done|].
  destruct (Ho _ _ El) as [_ Hown]. unfold own_input. rewrite (Hm (in_Prev i)), El. unfold unspent_entry. cbn [mbind option_bind].
  rewrite Es. cbn [ue_PKH ue_Value]. unfold is_owner in *. destruct (owners !! cw_pkh o) as [k|] eqn:Eo.
  - destruct Hown as [Hown _]. rewrite Hown in Hi. rewrite bool_decide_eq_true_2 by by eexists. apply bind_Ok in Hi as (total & Ht & Hi).
    apply Ok_inj in Hi as <-. apply addWalletMoney_Ok in Ht as [-> _]. done.
  - rewrite Hown in Hi. apply Ok_inj in Hi as <-. rewrite bool_decide_eq_false_2 by by intros [? ?]. cbn [fst snd].
    split_and!; [lia|done|]. intros (e & [= <-] & He). cbn [ue_PKH] in He. rewrite Eo in He. by apply bool_decide_eq_true in He as [? ?].
Qed.

Lemma mempool_inputs_own created u ins : matches created u -> owners_ok owners created ->
  forall st st', foldM (mempool_input created) st ins = Ok st' -> st'.1.2 = st.1.2 + sumZ (own_input is_owner u <$> ins) /\
  (st.2 = true -> st'.2 = true) /\
  ((exists i e, i ∈ ins /\ u !! in_Prev i = Some e /\ is_owner (ue_PKH e) = true) -> st'.2 = true).
Proof.
  intros Hm Ho. induction ins as [|i ins IH]; intros st st' Hf; cbn [foldM] in Hf.
  { simplify_eq. cbn. split_and!; [lia|done|]. intros (i & ? & Hi & _). by apply not_elem_of_nil in Hi. }
  destruct (mempool_input created st i) as [st1|] eqn:E; [|done].
  destruct (mempool_input_own _ _ _ _ _ Hm Ho E) as (Hs & Hk & Hn). destruct (IH _ _ Hf) as (Hs' & Hk' & Hn').
  rewrite fmap_cons. cbn [sumZ fold_right]. split_and!; [rewrite Hs', Hs; unfold sumZ; cbn; lia|by auto|].
  intros (j & e & [->|Hj]%elem_of_cons & He); [apply Hk', Hn; by exists e|apply Hn'; by exists j, e].
Qed.

Lemma mempool_outputs_own outs : forall st st', foldM (mempool_output owners) st outs = Ok st' ->
  st'.1 = st.1 + sumZ (own_output is_owner <$> outs) /\ (st.2 = true -> st'.2 = true) /\
  ((exists o, o ∈ outs /\ is_owner (out_PubKeyHash o) = false) -> st'.2 = true).
Proof.
  induction outs as [|o outs IH]; intros [oo he] st' Hf; cbn [foldM] in Hf.
  { simplify_eq. cbn. split_and!; [lia|done|]. intros (o & Ho & _). by apply not_elem_of_nil in Ho. }
  destruct (mempool_output owners (oo, he) o) as [st1|] eqn:E; [|done]. destruct (IH _ _ Hf) as (Hs & Hk & Hn).
  assert (Hstep : st1.1 = oo + own_output is_owner o /\ (he = true -> st1.2 = true) /\ (is_owner (out_PubKeyHash o) = false -> st1.2 = true)).
  { unfold mempool_output in E. destruct (negb _); [done|]. unfold own_output, is_owner. destruct (owners !! out_PubKeyHash o) as [k|] eqn:Eo.
    - destruct (_ <=? _); [done|]. apply bind_Ok in E as (total & Ht & E). apply Ok_inj in E as <-. apply addWalletMoney_Ok in Ht as [-> _].
      rewrite bool_decide_eq_true_2 by by eexists. done.
    - apply Ok_inj in E as <-. rewrite bool_decide_eq_false_2 by by intros [? ?]. cbn. split_and!; [lia|done|done]. }
  destruct Hstep as (Hs1 & Hk1 & Hn1). rewrite fmap_cons. cbn [fst snd]. split_and!; [rewrite Hs, Hs1; unfold sumZ; cbn; lia|by auto|].
  intros (o' & [->|Ho']%elem_of_cons & He); [by auto|apply Hn; by exists o'].
Qed.

(** A pending payment with an input of the wallet and an output to somebody else is listed
    as sent, with the difference of what it returns and what it spends. *)
Lemma pending_payment_listed created u m ids id tx st st' : matches created u -> owners_ok owners created ->
  foldM (mempool_tx owners created m) st ids = Ok st' -> id ∈ ids -> m !! id = Some tx ->
  (exists i e, i ∈ tx_Ins tx /\ u !! in_Prev i = Some e /\ is_owner (ue_PKH e) = true) ->
  (exists o, o ∈ tx_Outs tx /\ is_owner (out_PubKeyHash o) = false) ->
  exists item, item ∈ st'.2 /\ wa_TxID item = id /\ wa_Kind item = ActSent /\
    wa_NetUnits item = sumZ (own_output is_owner <$> tx_Outs tx) - sumZ (own_input is_owner u <$> tx_Ins tx).
Proof.
  intros Hm Ho Hf (ids1 & ids2 & ->)%list_elem_of_split Hid Hin Hout. rewrite foldM_app in Hf.
  destruct (foldM _ st ids1) as [[spent act]|]; [|done]. cbn [foldM] in Hf.
  destruct (mempool_tx owners created m (spent, act) id) as [st1|] eqn:E; [|done].
  destruct (mempool_activity _ _ _ _ _ Hf) as (new & -> & _). unfold mempool_tx in E. rewrite Hid in E. cbn [deref mbind result_bind] in E.
  apply bind_Ok in E as ([[sp oi] ho] & Hi & E). apply bind_Ok in E as ([oo he] & Hos & E).
  destruct (mempool_inputs_own _ _ _ Hm Ho _ _ Hi) as (Hoi & _ & Hho). destruct (mempool_outputs_own _ _ _ Hos) as (Hoo & _ & Hhe).
  cbn [fst snd] in *. rewrite (Hho Hin), (Hhe Hout) in E. cbn [activity_kind andb negb] in E. apply bind_Ok in E as (net & Hnet & E).
  apply Ok_inj in E as <-. eexists. split; [cbn [snd]; apply elem_of_app; left; apply elem_of_app; right; by left|].
  split; [done|]. split; [done|]. cbn [wa_NetUnits]. unfold checkedWalletNet in Hnet. destruct (_ || _); [done|].
  destruct (_ >=? _); apply Ok_inj in Hnet as <-; lia.
Qed.
End facts.

(** ** Everything a reader of the view relies on *)
Lemma Sorted_strict_ids (l : list Hash32) : Sorted bytes_le l -> NoDup l -> StronglySorted (fun a b => bytes_compare a b = Lt) l.
Proof.
  intros Hs%Sorted_StronglySorted; [|apply bytes_le_trans]. induction Hs as [|a l _ IH Hall]; [constructor|].
  intros [Hn Hnd]%NoDup_cons. constructor; [by apply IH|]. apply list.Forall_forall. intros b Hb. rewrite list.Forall_forall in Hall.
  specialize (Hall b Hb). unfold bytes_le in Hall. destruct (bytes_compare a b) eqn:E; [|done..]. by apply bytes_compare_eq in E as ->.
Qed.

Lemma StronglySorted_sublist {A} (R : A -> A -> Prop) l k : l `sublist_of` k -> StronglySorted R k -> StronglySorted R l.
Proof.
  induction 1 as [|a l k Hs IH|a l k Hs IH]; [done| |]; intros Hk; inv Hk as [|? ? Hk' Hall]; [|by apply IH].
  constructor; [by apply IH|]. rewrite list.Forall_forall in *. intros b Hb. apply Hall. by eapply elem_of_sublist.
Qed.

Record view_facts `{Crypto} (owners : owner_map) (c : Chain) (lim : Z) (view : WalletViewSnapshot) : Prop := {
  vf_network : CanonicalNetworkID (Some (c_params c)) = Ok (wv_Network view);
  vf_tip_network : ts_Network (wv_Tip view) = wv_Network view;
  vf_complete : wv_Complete view = true;
  vf_height : ts_Height (wv_Tip view) = bi_height (c_tip c) /\ 0 <= bi_height (c_tip c);
  vf_hash : length (ts_Hash (wv_Tip view)) = 32%nat;
  vf_spendable : forall so, so ∈ wv_SpendableOutputs view <-> spendable_spec owners c so;
  vf_units : wv_SpendableUnits view = sumZ (so_AmountUnits <$> wv_SpendableOutputs view) /\ wv_SpendableUnits view <= MaxMoneyUnits;
  vf_sorted : ascending (so_OutPoint <$> wv_SpendableOutputs view);
  vf_immature : forall io, io ∈ wv_ImmatureOutputs view -> immature_spec owners c io /\ 0 <= io_BlockHeight io <= bi_height (c_tip c);
  vf_immature_units : wv_ImmatureUnits view = sumZ (io_AmountUnits <$> wv_ImmatureOutputs view) /\
                      wv_ImmatureUnits view <= MaxMoneyUnits;
  vf_immature_sorted : ascending (io_OutPoint <$> wv_ImmatureOutputs view);
  vf_disjoint : forall op, op ∈ io_OutPoint <$> wv_ImmatureOutputs view -> op ∉ so_OutPoint <$> wv_SpendableOutputs view;
  vf_ids : forall op, op ∈ (so_OutPoint <$> wv_SpendableOutputs view) ++ (io_OutPoint <$> wv_ImmatureOutputs view) ->
           length (op_TxID op) = 32%nat;
  vf_activity : Z.of_nat (length (wv_Activity view)) <= Z.max 0 lim /\
    exists mem conf, wv_Activity view = mem ++ conf /\ items_ok ActMempool mem /\ items_ok ActConfirmed conf /\
      StronglySorted (fun a b => bytes_compare a b = Lt) (wa_TxID <$> mem) /\
      StronglySorted Z.ge (wa_BlockHeight <$> conf);
}.

#[global] Instance activity_le_total : Total activity_le.
Proof.
  intros a b. unfold activity_le. destruct (decide (wa_BlockHeight a = wa_BlockHeight b)) as [E|E].
  - rewrite (decide_True (P := wa_BlockHeight b = _)) by done.
    destruct (decide (wa_TransactionIndex a = wa_TransactionIndex b)) as [E2|E2].
    + rewrite decide_True by done. apply bytes_le_total.
    + rewrite decide_False by done. lia.
  - rewrite (decide_False (P := wa_BlockHeight b = _)) by done. lia.
Qed.

Lemma activity_heights l : Sorted activity_le l -> StronglySorted Z.ge (wa_BlockHeight <$> l).
Proof.
  intros Hs. apply Sorted_StronglySorted; [intros x y z; lia|]. induction Hs as [|a l _ IH Hd]; [constructor|].
  cbn. constructor; [done|]. destruct Hd as [|b l Hab]; [constructor|]. constructor. unfold activity_le in Hab. case_decide; lia.
Qed.

Lemma items_sublist status l k : l `sublist_of` k -> items_ok status k -> items_ok status l.
Proof. unfold items_ok. rewrite !list.Forall_forall. intros Hs Hk a Ha. apply Hk. by eapply elem_of_sublist. Qed.

Lemma take_split {A} n (l k : list A) : exists l' k', take n (l ++ k) = l' ++ k' /\ l' `sublist_of` l /\ k' `sublist_of` k.
Proof. exists (take n l), (take (n - length l) k). rewrite take_app. split_and!; [done|apply sublist_take..]. Qed.

Lemma canonicalTip_facts `{CryptoLaws} c tip : canonicalTipSnapshotLocked c = Ok tip ->
  CanonicalNetworkID (Some (c_params c)) = Ok (ts_Network tip) /\ ts_Height tip = bi_height (c_tip c) /\
  ts_Hash tip = bi_id (c_tip c) /\ length (ts_Hash tip) = 32%nat.
Proof.
  unfold canonicalTipSnapshotLocked. intros Ht. apply bind_Ok in Ht as (net & Hn & Ht). apply bind_Ok in Ht as ([] & _ & Ht).
  apply bind_Ok in Ht as ([] & Hid%check_Ok & Ht). apply bind_Ok in Ht as (gid & _ & Ht). apply bind_Ok in Ht as (g & _ & Ht).
  apply bind_Ok in Ht as (u & _ & Ht). apply Ok_inj in Ht as <-. cbn. bool_prop. split_and!; try done.
  rename select (Header_ID _ = _) into Hh. rewrite <- Hh. unfold Header_ID, SHA256d. apply length_Sum256.
Qed.

Lemma indexed_below {A} (l : list A) : Forall (fun nb => (nb.1 < length l)%nat) (indexed l).
Proof.
  apply list.Forall_forall. intros [n b] Hin. unfold indexed in Hin. apply elem_of_zip_l, elem_of_seq in Hin. cbn. lia.
Qed.

Lemma walletView_facts `{CryptoLaws} owners p c lim view :
  pow_params_ok p -> chain_inv p c -> walletViewForOwnersLocked c owners lim = Ok view -> view_facts owners c lim view.
Proof.
  intros Hpow Hc Hv. destruct (walletView_spendable owners p c lim view Hpow Hc Hv) as (Hspec & Hsum & Hsort).
  destruct (walletView_parts owners p c lim view Hpow Hc Hv) as (created & spent & conf & mem & totals & [Ht Hh Hm Ho (bl & Hbl & Hscan) Hpool Hmem Hset Htot Hview]).
  apply canonicalTip_facts in Ht as (Hnet & _ & _ & Hhash).
  assert (Hheight : 0 <= bi_height (c_tip c)) by (destruct (ci_main _ _ Hc) as (l & Hb & _); by eapply branch_height_nonneg).
  apply (view_blocks_ids owners (bi_height (c_tip c))) in Hscan as [Hids Hconf];
    [|eapply Forall_impl; [apply indexed_below|]; cbn; lia|by intros op o Hop; cbn in Hop; rewrite lookup_empty in Hop|constructor].
  cbn [fst snd] in Hids, Hconf.
  pose proof (classify_spendable _ _ _ _ _ _ Htot) as [Hsp _]. cbn in Hsp.
  destruct (classify_immature _ _ _ _ _ _ Htot) as (Him & Himu & Himm & Hspm). cbn in Him, Himu, Himm, Hspm.
  pose proof (created_keys owners created Ho) as Hkeys. set (os := (map_to_list created).*2) in *.
  assert (Hnd : NoDup (cw_outpoint <$> os)) by (rewrite Hkeys; apply NoDup_fst_map_to_list).
  assert (Hos : forall o, o ∈ os -> created !! cw_outpoint o = Some o).
  { intros o ([op o'] & -> & Hin)%list_elem_of_fmap. apply elem_of_map_to_list in Hin. cbn. by destruct (Ho _ _ Hin) as [-> _]. }
  set (sp := omap (spendable_of p (bi_height (c_tip c)) spent) os) in *.
  set (im := omap (immature_of p (bi_height (c_tip c))) os) in *.
  assert (Hs1 : wv_SpendableOutputs view ≡ₚ sp) by (rewrite Hview; cbn; rewrite merge_sort_Permutation; by rewrite Hsp).
  assert (Hi1 : wv_ImmatureOutputs view ≡ₚ im) by (rewrite Hview; cbn; rewrite merge_sort_Permutation; by rewrite Him).
  assert (Hmax : 0 <= MaxMoneyUnits) by (unfold MaxMoneyUnits, UnitsPerCoin; lia).
  assert (Hdisj : forall so io, so ∈ sp -> io ∈ im -> so_OutPoint so <> io_OutPoint io).
  { intros so io (o & Hin & Hso)%list_elem_of_omap (o' & Hin' & Hio)%list_elem_of_omap. exact (spendable_not_immature _ _ _ _ _ _ _ _ Hnd Hin Hin' Hso Hio). }
  assert (Hids' : forall o, o ∈ os -> length (op_TxID (cw_outpoint o)) = 32%nat /\ 0 <= cw_height o <= bi_height (c_tip c))
    by (intros o Hin; apply (Hids _ _ (Hos o Hin))).
  assert (Hiu : vt_immatureUnits totals = sumZ (io_AmountUnits <$> wv_ImmatureOutputs view))
    by (rewrite Hi1, Himu; done).
  destruct (mempool_activity owners created _ _ _ _ Hmem) as (new & Hnew & Hsub & Hst). cbn in Hnew. subst new.
  destruct (take_split (Z.to_nat lim) mem (merge_sort activity_le conf)) as (mem' & conf' & Htake & Hsm & Hsc).
  split; try done.
  - by rewrite Hview.
  - by rewrite Hview.
  - by rewrite Hview.
  - split; [done|]. rewrite Hview. cbn. by apply Hspm.
  - apply (ascending_of so_OutPoint); [done|]. rewrite Hs1. by eapply omap_NoDup; [apply spendable_of_outpoint|].
  - intros io. rewrite Hi1. intros (o & Hin & Hio)%list_elem_of_omap.
    destruct (immature_of_spec owners p c created _ o io (ci_params _ _ Hc) Hm Ho (Hos o Hin) Hio) as [Hop Hspec'].
    split; [done|]. unfold immature_of in Hio. repeat case_match; simplify_eq. cbn. by apply Hids'.
  - split; [rewrite Hview; cbn; by rewrite Hiu, Hview|]. rewrite Hview. cbn. by apply Himm.
  - apply (ascending_of io_OutPoint); [rewrite Hview; apply (Sorted_merge_sort immature_le)|].
    rewrite Hi1. by eapply omap_NoDup; [apply immature_of_outpoint|].
  - intros op. rewrite Hi1, Hs1. intros (io & -> & Hio)%list_elem_of_fmap (so & Heq & Hso)%list_elem_of_fmap.
    by apply (Hdisj so io).
  - intros op. rewrite Hi1, Hs1. intros [(so & -> & (o & Hin & Hso)%list_elem_of_omap)%list_elem_of_fmap|
      (io & -> & (o & Hin & Hio)%list_elem_of_omap)%list_elem_of_fmap]%elem_of_app.
    + rewrite (spendable_of_outpoint _ _ _ _ _ Hso). by apply Hids'.
    + rewrite (immature_of_outpoint _ _ _ _ Hio). by apply Hids'.
  - split; [rewrite Hview; cbn [wv_Activity]; rewrite length_take; lia|]. exists mem', conf'.
    assert (Hmids : StronglySorted (fun a b => bytes_compare a b = Lt) (merge_sort bytes_le (map_to_list (c_mempool c)).*1)).
    { apply Sorted_strict_ids; [apply (Sorted_merge_sort bytes_le)|]. rewrite merge_sort_Permutation. apply NoDup_fst_map_to_list. }
    split_and!; [by rewrite Hview| | | |].
    + eapply items_sublist; [exact Hsm|]. unfold items_ok. rewrite list.Forall_forall in Hst |- *. intros a Ha. split; [|by apply Hst].
      apply (pool_ids (c_mempool c) Hpool). rewrite <- (merge_sort_Permutation bytes_le). eapply elem_of_sublist; [|exact Hsub].
      apply list_elem_of_fmap. by exists a.
    + eapply items_sublist; [exact Hsc|]. unfold items_ok. by rewrite merge_sort_Permutation.
    + eapply StronglySorted_sublist; [|exact Hmids]. etrans; [|exact Hsub]. by apply fmap_sublist.
    + eapply StronglySorted_sublist; [|apply activity_heights, (Sorted_merge_sort activity_le)]. by apply fmap_sublist.
Qed.
