(* ===== verification/LightGateway.v ===== *)
(** * The light-wallet gateway (lightwallet/gateway.go, lightwallet/types.go)

    The HTTP service of a full node that shows wallets without a chain the outputs of
    their addresses and takes their signed transactions, and the messages it exchanges
    with them.  A request carries what net/http and mime extract from it; every response
    has the media type application/json. *)
From S2P Require Import Prelude Text GoJson Chain WalletView GoStrings Params Crypto Pow Wire Address ChainView WalletSnapshot.

(** ** Messages *)
Definition SchemaVersion : Z := 1.
Definition SnapshotPath : string := "/api/wallet/v1/snapshot".
Definition ViewPath : string := "/api/wallet/v1/view".
Definition BroadcastPath : string := "/api/wallet/v1/broadcast".
Definition MaxSnapshotAddresses : Z := 100.
Definition MaxSnapshotOutputs : Z := 10000.
Definition MaxRequestBytes : Z := 65536.
Definition MaxResponseBytes : Z := 1048576.
Definition MaxSignedTransactionBytes : Z := 10000.

Record SnapshotRequest := mkSnapshotRequest { sq_Addresses : list bytes }.
Record WalletTip := mkWalletTip { tp_Hash : bytes; tp_Height : Z }.
Record SnapshotOutput := mkSnapshotOutput {
  lo_TxID : bytes; lo_Vout : Z; lo_AmountUnits : Z; lo_Address : bytes }.
Record SnapshotResponse := mkSnapshotResponse {
  sr_SchemaVersion : Z; sr_Network : string; sr_Tip : WalletTip; sr_Addresses : list bytes;
  sr_Outputs : list SnapshotOutput; sr_SpendableUnits : Z }.
Record ViewRequest := mkViewRequest { vq_Addresses : list bytes; vq_ActivityLimit : Z }.
Record ViewImmatureOutput := mkViewImmature {
  vi_TxID : bytes; vi_Vout : Z; vi_AmountUnits : Z; vi_Address : bytes; vi_BlockHeight : Z; vi_Confirmations : Z }.
Record ViewActivityItem := mkViewActivity {
  va_TxID : bytes; va_Kind : string; va_Status : string; va_NetUnits : Z; va_BlockHeight : Z;
  va_Confirmations : Z; va_BlocksUntilMature : Z }.
Record ViewResponse := mkViewResponse {
  vr_SchemaVersion : Z; vr_Network : string; vr_Tip : WalletTip; vr_Addresses : list bytes;
  vr_Outputs : list SnapshotOutput; vr_SpendableUnits : Z; vr_SpendableOutputCount : Z;
  vr_ImmatureOutputs : list ViewImmatureOutput; vr_ImmatureUnits : Z; vr_Activity : list ViewActivityItem }.
Record ErrorResponse := mkErrorResponse { er_SchemaVersion : Z; er_Network : string; er_ErrorCode : string }.
Record BroadcastRequest := mkBroadcastRequest { bq_TransactionHex : bytes; bq_ExpectedTxID : bytes }.
Record BroadcastResponse := mkBroadcastResponse {
  br_SchemaVersion : Z; br_Network : string; br_TxID : bytes; br_Admission : string; br_Status : string;
  br_PeerWrites : Z }.

(** The texts of the constants of package core. *)
Definition kind_text (k : ActivityKind) : string :=
  match k with
  | ActReceived => "received" | ActSent => "sent" | ActMiningReward => "mining_reward" | ActCleanup => "cleanup"
  end.
Definition status_text (s : ActivityStatus) : string :=
  match s with ActMempool => "mempool" | ActConfirmed => "confirmed" end.
Definition admission_text (a : TxAcceptanceResult) : string :=
  match a with TxAcceptanceAdded => "added" | TxAcceptanceAlreadyKnown => "already_known" end.

(** *** Their JSON *)
Definition texts (l : list bytes) : value := VArray (map VText l).

#[global] Instance SnapshotRequest_json : JsonRecord SnapshotRequest := {
  to_json r := object [("addresses", texts (sq_Addresses r))];
  from_json v := a ← field "addresses" (as_list as_bytes) v; Some (mkSnapshotRequest a) }.
#[global] Instance WalletTip_json : JsonRecord WalletTip := {
  to_json t := object [("hash", VText (tp_Hash t)); ("height", VInt (tp_Height t))];
  from_json v := h ← field "hash" as_bytes v; n ← field "height" as_int64 v; Some (mkWalletTip h n) }.
#[global] Instance SnapshotOutput_json : JsonRecord SnapshotOutput := {
  to_json o := object [("txid", VText (lo_TxID o)); ("vout", VInt (lo_Vout o));
                       ("amount_units", VInt (lo_AmountUnits o)); ("address", VText (lo_Address o))];
  from_json v := t ← field "txid" as_bytes v; i ← field "vout" as_uint32 v; a ← field "amount_units" as_int64 v;
                 o ← field "address" as_bytes v; Some (mkSnapshotOutput t i a o) }.
#[global] Instance SnapshotResponse_json : JsonRecord SnapshotResponse := {
  to_json r := object [("schema_version", VInt (sr_SchemaVersion r)); ("network", text (sr_Network r));
                       ("tip", to_json (sr_Tip r)); ("addresses", texts (sr_Addresses r));
                       ("outputs", VArray (map to_json (sr_Outputs r))); ("spendable_units", VInt (sr_SpendableUnits r))];
  from_json v := s ← field "schema_version" as_int64 v; n ← field "network" as_text v; t ← field "tip" from_json v;
                 a ← field "addresses" (as_list as_bytes) v; o ← field "outputs" (as_list from_json) v;
                 u ← field "spendable_units" as_int64 v; Some (mkSnapshotResponse s n t a o u) }.
#[global] Instance ViewRequest_json : JsonRecord ViewRequest := {
  to_json r := object [("addresses", texts (vq_Addresses r)); ("activity_limit", VInt (vq_ActivityLimit r))];
  from_json v := a ← field "addresses" (as_list as_bytes) v; l ← field "activity_limit" as_int64 v;
                 Some (mkViewRequest a l) }.
#[global] Instance ViewImmatureOutput_json : JsonRecord ViewImmatureOutput := {
  to_json o := object [("txid", VText (vi_TxID o)); ("vout", VInt (vi_Vout o));
                       ("amount_units", VInt (vi_AmountUnits o)); ("address", VText (vi_Address o));
                       ("block_height", VInt (vi_BlockHeight o)); ("confirmations", VInt (vi_Confirmations o))];
  from_json v := t ← field "txid" as_bytes v; i ← field "vout" as_uint32 v; a ← field "amount_units" as_int64 v;
                 o ← field "address" as_bytes v; h ← field "block_height" as_int64 v;
                 c ← field "confirmations" as_int64 v; Some (mkViewImmature t i a o h c) }.
#[global] Instance ViewActivityItem_json : JsonRecord ViewActivityItem := {
  to_json a := object [("txid", VText (va_TxID a)); ("kind", text (va_Kind a)); ("status", text (va_Status a));
                       ("net_units", VInt (va_NetUnits a)); ("block_height", VInt (va_BlockHeight a));
                       ("confirmations", VInt (va_Confirmations a)); ("blocks_until_mature", VInt (va_BlocksUntilMature a))];
  from_json v := t ← field "txid" as_bytes v; k ← field "kind" as_text v; s ← field "status" as_text v;
                 n ← field "net_units" as_int64 v; h ← field "block_height" as_int64 v;
                 c ← field "confirmations" as_int64 v; b ← field "blocks_until_mature" as_int64 v;
                 Some (mkViewActivity t k s n h c b) }.
#[global] Instance ViewResponse_json : JsonRecord ViewResponse := {
  to_json r := object [("schema_version", VInt (vr_SchemaVersion r)); ("network", text (vr_Network r));
                       ("tip", to_json (vr_Tip r)); ("addresses", texts (vr_Addresses r));
                       ("outputs", VArray (map to_json (vr_Outputs r))); ("spendable_units", VInt (vr_SpendableUnits r));
                       ("spendable_output_count", VInt (vr_SpendableOutputCount r));
                       ("immature_outputs", VArray (map to_json (vr_ImmatureOutputs r)));
                       ("immature_units", VInt (vr_ImmatureUnits r)); ("activity", VArray (map to_json (vr_Activity r)))];
  from_json v := s ← field "schema_version" as_int64 v; n ← field "network" as_text v; t ← field "tip" from_json v;
                 a ← field "addresses" (as_list as_bytes) v; o ← field "outputs" (as_list from_json) v;
                 u ← field "spendable_units" as_int64 v; c ← field "spendable_output_count" as_int64 v;
                 i ← field "immature_outputs" (as_list from_json) v; m ← field "immature_units" as_int64 v;
                 y ← field "activity" (as_list from_json) v; Some (mkViewResponse s n t a o u c i m y) }.
#[global] Instance ErrorResponse_json : JsonRecord ErrorResponse := {
  to_json r := object [("schema_version", VInt (er_SchemaVersion r)); ("network", text (er_Network r));
                       ("error_code", text (er_ErrorCode r))];
  from_json v := s ← field "schema_version" as_int64 v; n ← field "network" as_text v;
                 c ← field "error_code" as_text v; Some (mkErrorResponse s n c) }.
#[global] Instance BroadcastRequest_json : JsonRecord BroadcastRequest := {
  to_json r := object [("tx_hex", VText (bq_TransactionHex r)); ("expected_txid", VText (bq_ExpectedTxID r))];
  from_json v := t ← field "tx_hex" as_bytes v; e ← field "expected_txid" as_bytes v; Some (mkBroadcastRequest t e) }.
#[global] Instance BroadcastResponse_json : JsonRecord BroadcastResponse := {
  to_json r := object [("schema_version", VInt (br_SchemaVersion r)); ("network", text (br_Network r));
                       ("txid", VText (br_TxID r)); ("admission", text (br_Admission r));
                       ("status", text (br_Status r)); ("peer_writes", VInt (br_PeerWrites r))];
  from_json v := s ← field "schema_version" as_int64 v; n ← field "network" as_text v; t ← field "txid" as_bytes v;
                 a ← field "admission" as_text v; u ← field "status" as_text v; p ← field "peer_writes" as_int64 v;
                 Some (mkBroadcastResponse s n t a u p) }.

(** ** Requests and responses *)

Record http_request := mkHttpRequest {
  hq_Method : string; hq_Path : string; hq_RawQuery : string; hq_mediaType : option string; hq_Body : bytes }.
Record http_response := mkHttpResponse {
  hs_Status : Z; hs_mediaType : option string; hs_Allow : option string; hs_Body : bytes }.

(** [BroadcastTx] of the broadcaster returns the number of peers it wrote to. *)
Record Gateway := mkGateway { g_broadcaster : option (Tx -> Z); g_network : string }.

Definition NewGateway (chain : option Chain) (broadcaster : option (Tx -> Z)) : result Gateway :=
  match chain with
  | None => Err (EText "nil light wallet chain")
  | Some c => network ← CanonicalNetworkID (Some (c_params c)); Ok (mkGateway broadcaster network)
  end.

(** ** Responses *)
Definition writeJSON {A} `{JsonRecord A} (status : Z) (a : A) : http_response :=
  let encoded := Encode a in
  if Z.of_nat (length encoded) >? MaxResponseBytes
  then mkHttpResponse 500 (Some "application/json"%string) None []
  else mkHttpResponse status (Some "application/json"%string) None encoded.
Definition writeError (g : Gateway) (status : Z) (code : string) : http_response :=
  writeJSON status (mkErrorResponse SchemaVersion (g_network g) code).

(** ** Requests *)
Definition errRequestTooLarge : error := EText "request too large".

(** The limited reader ends after [MaxRequestBytes + 1] bytes; it is used up when the
    decoder has seen the end of a body of that length. *)
Definition decodeStrictJSON {A} `{JsonRecord A} `{JsonDecoder} (body : bytes) : result A :=
  let data := take (Z.to_nat (MaxRequestBytes + 1)) body in
  match json_Decode A data with
  | Err _ => Err (EText "invalid JSON")
  | Ok (a, rest) =>
      if negb (blank rest) then Err (EText "trailing JSON data")
      else if MaxRequestBytes + 1 - Z.of_nat (length data) <=? 0 then Err errRequestTooLarge
      else Ok a
  end.
Definition decode_failed (g : Gateway) (e : error) : http_response :=
  match e with
  | EText msg => if String.eqb msg "request too large" then writeError g 413 "request_too_large"
                 else writeError g 400 "bad_request"
  | _ => writeError g 400 "bad_request"
  end.

Definition decodeCanonicalTransactionHex (value : bytes) : result bytes :=
  if (length value =? 0)%nat || negb (Z.of_nat (length value) mod 2 =? 0) || negb (bool_decide (value = ToLower value))
  then Err (EText "noncanonical transaction hex") else
  match hex_decode value with
  | Err _ => Err (EText "invalid transaction hex")
  | Ok decoded => if (length decoded =? 0)%nat || (Z.of_nat (length decoded) >? MaxSignedTransactionBytes)
                  then Err (EText "invalid transaction hex") else Ok decoded
  end.

Definition decodeCanonicalHash (value : bytes) : result Hash32 :=
  if negb (length value =? 64)%nat || negb (bool_decide (value = ToLower value))
  then Err (EText "noncanonical hash") else
  match hex_decode value with
  | Err _ => Err (EText "invalid hash")
  | Ok decoded => if negb (length decoded =? 32)%nat then Err (EText "invalid hash") else Ok decoded
  end.

Section gateway.
Context `{Crypto} `{JsonDecoder}.

(** The previous address and the key hashes so far. *)
Definition canonical_pkh (st : option bytes * list bytes) (address : bytes) : result (option bytes * list bytes) :=
  let '(previous, pkhs) := st in
  if match previous with Some p => bool_decide (bytes_le address p) | None => false end
  then Err (EText "addresses are not strictly sorted") else
  match DecodeAddress address with
  | Err _ => Err (EText "invalid canonical address")
  | Ok pkh => if bool_decide (EncodeAddress pkh = address) then Ok (Some address, pkhs ++ [pkh])
              else Err (EText "invalid canonical address")
  end.
Definition canonicalPKHs (addresses : list bytes) : result (list bytes) :=
  if (length addresses =? 0)%nat then Err (EText "empty address list") else
  '(_, pkhs) ← foldM canonical_pkh (None, []) addresses; Ok pkhs.

(** What makes the gateway answer [chain_unavailable]. *)
Definition unavailable : error := EText "chain_unavailable".

(** The address of the owner of an output, if owner and amount are consistent. *)
Definition output_owner (addresses pkhs : list bytes) (index : Z) (pkh : bytes) (amount : Z) : result bytes :=
  if (index >=? Z.of_nat (length addresses)) || negb (bool_decide (pkhs !! Z.to_nat index = Some pkh))
     || (amount <=? 0) || negb (MoneyRange amount)
  then Err unavailable else
  match addresses !! Z.to_nat index with Some address => Ok address | None => Err unavailable end.
(** The running total and the order of the outpoints. *)
Definition next_output (total : Z) (previous : option OutPoint) (op : OutPoint) (amount : Z) : result (Z * option OutPoint) :=
  if match previous with Some p => negb (strictly_before p (op_TxID op) (op_Idx op)) | None => false end
  then Err unavailable else
  if total >? MaxMoneyUnits - amount then Err unavailable else Ok (total + amount, Some op).

Definition spendable_output (addresses pkhs : list bytes) (st : Z * option OutPoint * list SnapshotOutput)
    (o : SpendableOutputSnapshot) : result (Z * option OutPoint * list SnapshotOutput) :=
  let '(total, previous, outs) := st in
  address ← output_owner addresses pkhs (so_OwnerIndex o) (so_OwnerPKH o) (so_AmountUnits o);
  '(total, previous) ← next_output total previous (so_OutPoint o) (so_AmountUnits o);
  Ok (total, previous, outs ++ [mkSnapshotOutput (hex_encode (op_TxID (so_OutPoint o))) (op_Idx (so_OutPoint o))
                                  (so_AmountUnits o) address]).

Definition immature_output (addresses pkhs : list bytes) (tipHeight maturity : Z)
    (st : Z * option OutPoint * list ViewImmatureOutput) (o : ImmatureOutputSnapshot)
    : result (Z * option OutPoint * list ViewImmatureOutput) :=
  let '(total, previous, outs) := st in
  address ← output_owner addresses pkhs (io_OwnerIndex o) (io_OwnerPKH o) (io_AmountUnits o);
  _ ← check (negb ((io_BlockHeight o <? 0) || (io_BlockHeight o >? tipHeight)
                   || negb (io_Confirmations o =? tipHeight - io_BlockHeight o + 1)
                   || (io_Confirmations o >=? maturity))) unavailable;
  '(total, previous) ← next_output total previous (io_OutPoint o) (io_AmountUnits o);
  Ok (total, previous, outs ++ [mkViewImmature (hex_encode (op_TxID (io_OutPoint o))) (op_Idx (io_OutPoint o))
                                  (io_AmountUnits o) address (io_BlockHeight o) (io_Confirmations o)]).

Definition validGatewayActivity (item : WalletActivityItem) (tipHeight maturity : Z) : bool :=
  if (wa_NetUnits item <? - MaxMoneyUnits) || (wa_NetUnits item >? MaxMoneyUnits) then false else
  if match wa_Kind item with
     | ActReceived | ActMiningReward => wa_NetUnits item <=? 0
     | ActSent => wa_NetUnits item >=? 0
     | ActCleanup => wa_NetUnits item >? 0
     end
  then false else
  match wa_Status item with
  | ActMempool =>
      negb (bool_decide (wa_Kind item = ActMiningReward)) && (wa_BlockHeight item =? -1) && (wa_Confirmations item =? 0)
      && bool_decide (wa_BlockHash item = zeroHash) && (wa_BlocksUntilMature item =? 0)
  | ActConfirmed =>
      if (wa_BlockHeight item <? 0) || (wa_BlockHeight item >? tipHeight)
         || negb (wa_Confirmations item =? tipHeight - wa_BlockHeight item + 1) || bool_decide (wa_BlockHash item = zeroHash)
      then false else
      let wantBlocks := if bool_decide (wa_Kind item = ActMiningReward) && (wa_Confirmations item <? maturity)
                        then maturity - wa_Confirmations item else 0 in
      wa_BlocksUntilMature item =? wantBlocks
  end.

Definition activity_output (tipHeight maturity : Z) (item : WalletActivityItem) : result ViewActivityItem :=
  if validGatewayActivity item tipHeight maturity
  then Ok (mkViewActivity (hex_encode (wa_TxID item)) (kind_text (wa_Kind item)) (status_text (wa_Status item))
             (wa_NetUnits item) (wa_BlockHeight item) (wa_Confirmations item) (wa_BlocksUntilMature item))
  else Err unavailable.

(** ** The view *)
Definition view_response (g : Gateway) (c : Chain) (request : ViewRequest) (pkhs : list bytes) : result ViewResponse :=
  match WalletViewForPKHs c pkhs (vq_ActivityLimit request) with
  | Err _ => Err unavailable
  | Ok view =>
      let tipHeight := ts_Height (wv_Tip view) in
      let maturity := CoinbaseMaturity (c_params c) in
      _ ← check (negb (negb (wv_Complete view) || negb (bool_decide (wv_Network view = g_network g))
                       || negb (bool_decide (ts_Network (wv_Tip view) = g_network g)) || (tipHeight <? 0)
                       || (Z.of_nat (length (wv_SpendableOutputs view)) >? MaxSnapshotOutputs)
                       || (Z.of_nat (length (wv_ImmatureOutputs view)) >? MaxSnapshotOutputs)
                       || (Z.of_nat (length (wv_Activity view)) >? vq_ActivityLimit request))) unavailable;
      '(spendableTotal, _, outputs) ←
        foldM (spendable_output (vq_Addresses request) pkhs) (0, None, []) (wv_SpendableOutputs view);
      _ ← check (spendableTotal =? wv_SpendableUnits view) unavailable;
      '(immatureTotal, _, immature) ←
        foldM (immature_output (vq_Addresses request) pkhs tipHeight maturity) (0, None, []) (wv_ImmatureOutputs view);
      _ ← check (immatureTotal =? wv_ImmatureUnits view) unavailable;
      activity ← foldM (fun l item => a ← activity_output tipHeight maturity item; Ok (l ++ [a])) [] (wv_Activity view);
      Ok (mkViewResponse SchemaVersion (g_network g) (mkWalletTip (hex_encode (ts_Hash (wv_Tip view))) tipHeight)
            (vq_Addresses request) outputs (wv_SpendableUnits view) (Z.of_nat (length (wv_SpendableOutputs view)))
            immature (wv_ImmatureUnits view) activity)
  end.

Definition handleView (g : Gateway) (c : Chain) (body : bytes) : http_response :=
  match decodeStrictJSON body with
  | Err e => decode_failed g e
  | Ok request =>
      if Z.of_nat (length (vq_Addresses request)) >? MaxSnapshotAddresses then writeError g 413 "too_many_addresses" else
      if (vq_ActivityLimit request <? 0) || (vq_ActivityLimit request >? MaxWalletActivityLimit)
      then writeError g 400 "invalid_activity_limit" else
      match canonicalPKHs (vq_Addresses request) with
      | Err _ => writeError g 400 "invalid_addresses"
      | Ok pkhs => match view_response g c request pkhs with
                   | Err _ => writeError g 503 "chain_unavailable"
                   | Ok response => writeJSON 200 response
                   end
      end
  end.

(** ** The snapshot *)
Definition snapshot_response (g : Gateway) (c : Chain) (request : SnapshotRequest) (pkhs : list bytes)
    : result SnapshotResponse :=
  match SpendableOutputsForPKHs c pkhs with
  | Err _ => Err unavailable
  | Ok snapshot =>
      _ ← check (negb (negb (ss_Complete snapshot) || negb (bool_decide (ss_Network snapshot = g_network g))
                       || negb (bool_decide (ts_Network (ss_Tip snapshot) = g_network g)) || (ts_Height (ss_Tip snapshot) <? 0)
                       || (Z.of_nat (length (ss_Outputs snapshot)) >? MaxSnapshotOutputs))) unavailable;
      '(total, _, outputs) ← foldM (spendable_output (sq_Addresses request) pkhs) (0, None, []) (ss_Outputs snapshot);
      Ok (mkSnapshotResponse SchemaVersion (g_network g)
            (mkWalletTip (hex_encode (ts_Hash (ss_Tip snapshot))) (ts_Height (ss_Tip snapshot)))
            (sq_Addresses request) outputs total)
  end.

Definition handleSnapshot (g : Gateway) (c : Chain) (body : bytes) : http_response :=
  match decodeStrictJSON body with
  | Err e => decode_failed g e
  | Ok request =>
      if Z.of_nat (length (sq_Addresses request)) >? MaxSnapshotAddresses then writeError g 413 "too_many_addresses" else
      match canonicalPKHs (sq_Addresses request) with
      | Err _ => writeError g 400 "invalid_addresses"
      | Ok pkhs => match snapshot_response g c request pkhs with
                   | Err _ => writeError g 503 "chain_unavailable"
                   | Ok response => writeJSON 200 response
                   end
      end
  end.

(** ** Signed transactions *)
Definition handleBroadcast (g : Gateway) (c : Chain) (body : bytes) : Chain * http_response :=
  match decodeStrictJSON body with
  | Err e => (c, decode_failed g e)
  | Ok request =>
      if Z.of_nat (length (bq_TransactionHex request)) >? MaxSignedTransactionBytes * 2
      then (c, writeError g 413 "transaction_too_large") else
      match decodeCanonicalTransactionHex (bq_TransactionHex request) with
      | Err _ => (c, writeError g 400 "invalid_transaction")
      | Ok wire =>
          match decodeCanonicalHash (bq_ExpectedTxID request) with
          | Err _ => (c, writeError g 400 "invalid_txid")
          | Ok expected =>
              match DecodeTx wire with
              | Err _ => (c, writeError g 400 "invalid_transaction")
              | Ok transaction =>
                  if IsCoinbase transaction then (c, writeError g 422 "transaction_rejected") else
                  if negb (bool_decide (Tx_Bytes transaction = wire)) then (c, writeError g 400 "invalid_transaction") else
                  if negb (bool_decide (Tx_ID transaction = expected)) then (c, writeError g 400 "txid_mismatch") else
                  let '(c, r) := AcceptTxWithResult c (Some transaction) in
                  match r with
                  | Err _ => (c, writeError g 422 "transaction_rejected")
                  | Ok admission =>
                      let writes := match g_broadcaster g with Some BroadcastTx => BroadcastTx transaction | None => 0 end in
                      if writes <? 1 then (c, writeError g 503 "transaction_not_relayed")
                      else (c, writeJSON 200 (mkBroadcastResponse SchemaVersion (g_network g) (bq_ExpectedTxID request)
                                                (admission_text admission) "submitted" writes))
                  end
              end
          end
      end
  end.

(** ** Routing *)
Definition ServeHTTP (g : Gateway) (c : Chain) (r : http_request) : Chain * http_response :=
  if negb (String.eqb (hq_Path r) SnapshotPath) && negb (String.eqb (hq_Path r) ViewPath)
     && negb (String.eqb (hq_Path r) BroadcastPath)
  then (c, writeError g 404 "not_found") else
  if negb (String.eqb (hq_Method r) "POST") then
    let e := writeError g 405 "method_not_allowed" in
    (c, mkHttpResponse (hs_Status e) (hs_mediaType e) (Some "POST"%string) (hs_Body e)) else
  if negb (String.eqb (hq_RawQuery r) "") then (c, writeError g 400 "bad_request") else
  if negb (bool_decide (hq_mediaType r = Some "application/json"%string))
  then (c, writeError g 415 "unsupported_media_type") else
  if String.eqb (hq_Path r) SnapshotPath then (c, handleSnapshot g c (hq_Body r))
  else if String.eqb (hq_Path r) ViewPath then (c, handleView g c (hq_Body r))
  else handleBroadcast g c (hq_Body r).
End gateway.
