(* ===== verification/LightClient.v ===== *)
(** * The light-wallet client (lightwallet/client.go)

    The client asks a gateway for the outputs of its addresses and hands it signed
    transactions.  Nothing the gateway answers is trusted before it is validated.  The
    HTTP exchange is an argument, a stateful call; in the theorems it is the gateway
    itself, or anything. *)
From S2P Require Import Prelude Text GoStrings GoJson Params Crypto Wire Address Chain WalletView WalletSnapshot FileTree.
From S2P Require Import LightGateway.

(** What [url.Parse] finds in the base URL, and whether its host is a loopback address. *)
Record parsed_url := mkUrl {
  url_Scheme : string; url_Host : string; url_User : bool; url_RawQuery : string; url_Fragment : string;
  url_Path : string; url_hostname : string; url_loopback : bool }.
Record Client := mkClient { cl_baseURL : bytes; cl_network : string }.

Definition NewClient (baseURL : bytes) (parsed : result parsed_url) (network : string) : result Client :=
  _ ← check (String.eqb network MainNetMachineID || String.eqb network RegTestMachineID)
        (EText "invalid light wallet network");
  let invalid := EText "invalid light wallet gateway URL" in
  match parsed with
  | Err _ => Err invalid
  | Ok u =>
      _ ← check (negb (String.eqb (url_Host u) "" || url_User u || negb (String.eqb (url_RawQuery u) "")
                       || negb (String.eqb (url_Fragment u) "")
                       || (negb (String.eqb (url_Path u) "") && negb (String.eqb (url_Path u) "/"))
                       || (negb (String.eqb (url_Scheme u) "https") && negb (String.eqb (url_Scheme u) "http")))) invalid;
      _ ← check (negb (String.eqb network MainNetMachineID && negb (String.eqb (url_Scheme u) "https")))
            (EText "mainnet light wallet gateway requires HTTPS");
      _ ← check (negb (String.eqb (url_Scheme u) "http" && negb (String.eqb (url_hostname u) "localhost")
                       && negb (url_loopback u))) (EText "plain HTTP light wallet gateway must be loopback");
      Ok (mkClient (TrimSuffix baseURL (bs "/")) network)
  end.

Definition coinbaseMaturity (c : Client) : Z := if String.eqb (cl_network c) MainNetMachineID then 100 else 2.

(** ** Validation *)
Definition max_int64 : Z := two63 - 1.
Definition viewConfirmations (tipHeight blockHeight : Z) : option Z :=
  if (tipHeight <? 0) || (blockHeight <? 0) || (blockHeight >? tipHeight) then None else
  let distance := tipHeight - blockHeight in
  if distance =? max_int64 then None else Some (distance + 1).

Definition validViewActivityAmount (item : ViewActivityItem) : bool :=
  if (va_NetUnits item <? - MaxMoneyUnits) || (va_NetUnits item >? MaxMoneyUnits) then false else
  if String.eqb (va_Kind item) "received" || String.eqb (va_Kind item) "mining_reward" then va_NetUnits item >? 0
  else if String.eqb (va_Kind item) "sent" then va_NetUnits item <? 0
  else if String.eqb (va_Kind item) "cleanup" then va_NetUnits item <=? 0
  else false.

(** What the loops over outputs check of every one, in this order; the texts of the errors
    differ between the loops. *)
Definition checked_output (owners : gset bytes) (txID : result Hash32) (vout amount : Z) (address : bytes)
    (total : Z) (previous : option OutPoint) (duplicate : OutPoint -> bool) : result (Z * OutPoint) :=
  match txID with
  | Err _ => Err (EText "output is invalid")
  | Ok txID =>
      _ ← check (negb ((amount <=? 0) || negb (MoneyRange amount))) (EText "output is invalid");
      _ ← check (bool_decide (address ∈ owners)) (EText "output has a foreign owner");
      _ ← check (negb (duplicate (mkOutPoint txID vout))) (EText "duplicate outpoint");
      _ ← check (match previous with Some p => strictly_before p txID vout | None => true end)
            (EText "outputs are not strictly sorted");
      _ ← check (negb (total >? MaxMoneyUnits - amount)) (EText "amount overflow");
      Ok (total + amount, mkOutPoint txID vout)
  end.

(** The loop over the outputs of a snapshot: the total and the previous outpoint. *)
Definition snapshot_step (owners : gset bytes) (st : Z * option OutPoint) (o : SnapshotOutput)
    : result (Z * option OutPoint) :=
  '(total, op) ← checked_output owners (decodeCanonicalHash (lo_TxID o)) (lo_Vout o) (lo_AmountUnits o) (lo_Address o)
                   st.1 st.2 (fun _ => false);
  Ok (total, Some op).

Definition validateSnapshot (c : Client) (response : SnapshotResponse) (addresses : list bytes) : result unit :=
  _ ← check (negb (negb (sr_SchemaVersion response =? SchemaVersion)
                   || negb (String.eqb (sr_Network response) (cl_network c)) || (tp_Height (sr_Tip response) <? 0)
                   || negb (length (sr_Addresses response) =? length addresses)%nat
                   || (Z.of_nat (length (sr_Outputs response)) >? MaxSnapshotOutputs)))
        (EText "snapshot identity is inconsistent");
  _ ← decodeCanonicalHash (tp_Hash (sr_Tip response));
  _ ← check (bool_decide (sr_Addresses response = addresses)) (EText "snapshot address set changed");
  '(total, _) ← foldM (snapshot_step (list_to_set addresses)) (0, None) (sr_Outputs response);
  check (total =? sr_SpendableUnits response) (EText "snapshot spendable total is inconsistent").

(** The outpoints seen so far, the total and the previous outpoint. *)
Definition seen_step (owners : gset bytes) (txID : bytes) (vout amount : Z) (address : bytes)
    (st : gset OutPoint * Z * option OutPoint) : result (gset OutPoint * Z * option OutPoint) :=
  let '(seen, total, previous) := st in
  '(total, op) ← checked_output owners (decodeCanonicalHash txID) vout amount address total previous
                   (fun op => bool_decide (op ∈ seen));
  Ok ({[op]} ∪ seen, total, Some op).

Definition view_output_step (owners : gset bytes) (st : gset OutPoint * Z * option OutPoint) (o : SnapshotOutput)
    : result (gset OutPoint * Z * option OutPoint) :=
  seen_step owners (lo_TxID o) (lo_Vout o) (lo_AmountUnits o) (lo_Address o) st.
Definition validateViewOutputs (outputs : list SnapshotOutput) (owners : gset bytes) (seen : gset OutPoint)
    : result (gset OutPoint * Z) :=
  '(seen, total, _) ← foldM (view_output_step owners) (seen, 0, None) outputs; Ok (seen, total).

Definition immature_numbers (tipHeight maturity : Z) (o : ViewImmatureOutput) : bool :=
  bool_decide (viewConfirmations tipHeight (vi_BlockHeight o) = Some (vi_Confirmations o))
  && (0 <? vi_Confirmations o) && (vi_Confirmations o <? maturity).
Definition view_immature_step (owners : gset bytes) (tipHeight maturity : Z) (st : gset OutPoint * Z * option OutPoint)
    (o : ViewImmatureOutput) : result (gset OutPoint * Z * option OutPoint) :=
  _ ← check (immature_numbers tipHeight maturity o) (EText "view immature output is invalid");
  seen_step owners (vi_TxID o) (vi_Vout o) (vi_AmountUnits o) (vi_Address o) st.

(** The state of the activity loop; [ac_previous] is the status of the item before. *)
Record activity_state := mkActivityState {
  ac_seen : gset Hash32; ac_confirmedPhase : bool; ac_previousHeight : option Z; ac_previousID : Hash32;
  ac_previous : option string }.

Definition view_activity_step (tipHeight maturity : Z) (st : activity_state) (item : ViewActivityItem)
    : result activity_state :=
  txID ← decodeCanonicalHash (va_TxID item);
  _ ← check (bool_decide (txID ∉ ac_seen st)) (EText "view contains duplicate activity");
  let seen := {[txID]} ∪ ac_seen st in
  _ ← check (validViewActivityAmount item) (EText "view activity amount or kind is invalid");
  if String.eqb (va_Status item) "mempool" then
    _ ← check (negb (ac_confirmedPhase st || String.eqb (va_Kind item) "mining_reward"
                     || negb (va_BlockHeight item =? -1) || negb (va_Confirmations item =? 0)
                     || negb (va_BlocksUntilMature item =? 0))) (EText "view mempool activity is inconsistent");
    _ ← check (negb (bool_decide (ac_previous st = Some "mempool"%string) && bool_decide (bytes_le txID (ac_previousID st))))
          (EText "view mempool activity is not strictly sorted");
    Ok (mkActivityState seen (ac_confirmedPhase st) (ac_previousHeight st) txID (Some (va_Status item)))
  else if String.eqb (va_Status item) "confirmed" then
    _ ← check (bool_decide (viewConfirmations tipHeight (va_BlockHeight item) = Some (va_Confirmations item))
               && negb (match ac_previousHeight st with Some h => va_BlockHeight item >? h | None => false end)
               && (0 <? va_Confirmations item)) (EText "view confirmed activity is inconsistent");
    let wantBlocks := if String.eqb (va_Kind item) "mining_reward" && (va_Confirmations item <? maturity)
                      then maturity - va_Confirmations item else 0 in
    _ ← check (va_BlocksUntilMature item =? wantBlocks) (EText "view mining reward maturity is inconsistent");
    Ok (mkActivityState seen true (Some (va_BlockHeight item)) (ac_previousID st) (Some (va_Status item)))
  else Err (EText "view activity status is invalid").

Definition validateView (c : Client) (response : ViewResponse) (addresses : list bytes) (activityLimit : Z) : result unit :=
  _ ← check (negb (negb (vr_SchemaVersion response =? SchemaVersion)
                   || negb (String.eqb (vr_Network response) (cl_network c)) || (tp_Height (vr_Tip response) <? 0)
                   || negb (length (vr_Addresses response) =? length addresses)%nat
                   || (Z.of_nat (length (vr_Outputs response)) >? MaxSnapshotOutputs)
                   || (Z.of_nat (length (vr_ImmatureOutputs response)) >? MaxSnapshotOutputs)
                   || (Z.of_nat (length (vr_Activity response)) >? activityLimit)
                   || negb (vr_SpendableOutputCount response =? Z.of_nat (length (vr_Outputs response)))))
        (EText "view identity is inconsistent");
  _ ← decodeCanonicalHash (tp_Hash (vr_Tip response));
  _ ← check (bool_decide (vr_Addresses response = addresses)) (EText "view address set changed");
  let owners := list_to_set addresses in
  let tipHeight := tp_Height (vr_Tip response) in
  '(seen, spendableTotal) ← validateViewOutputs (vr_Outputs response) owners ∅;
  _ ← check (spendableTotal =? vr_SpendableUnits response) (EText "view spendable outputs are inconsistent");
  '(_, immatureTotal, _) ← foldM (view_immature_step owners tipHeight (coinbaseMaturity c)) (seen, 0, None)
                             (vr_ImmatureOutputs response);
  _ ← check (immatureTotal =? vr_ImmatureUnits response) (EText "view immature total is inconsistent");
  _ ← foldM (view_activity_step tipHeight (coinbaseMaturity c)) (mkActivityState ∅ false None zeroHash None)
        (vr_Activity response);
  Ok tt.

(** ** Requests *)
Section client.
Context `{Crypto} `{JsonDecoder} {S : Type}.
(** [httpClient.Do] for a POST of a JSON body to a path of the gateway. *)
Context (Do : string -> bytes -> prog S http_response).

(** What is read from the body of a response; the decoder has taken [json_ahead] bytes
    of it when the first value is complete. *)
Definition read_error (c : Client) (status : Z) (data : bytes) : error :=
  let plain := ENum "wallet gateway returned HTTP" [status] in
  match json_Decode ErrorResponse data with
  | Err _ => plain
  | Ok (e, _) =>
      if (MaxResponseBytes + 1 - Z.of_nat (json_ahead data) <=? 0) || negb (er_SchemaVersion e =? SchemaVersion)
         || negb (String.eqb (er_Network e) (cl_network c)) || String.eqb (er_ErrorCode e) ""
      then plain else EWrap "wallet gateway rejected request" status (EText (er_ErrorCode e))
  end.
Definition read_response {R} `{JsonRecord R} (c : Client) (response : http_response) : result R :=
  _ ← check (bool_decide (hs_mediaType response = Some "application/json"%string))
        (EText "wallet gateway returned an invalid content type");
  let data := take (Z.to_nat (MaxResponseBytes + 1)) (hs_Body response) in
  if (hs_Status response <? 200) || (hs_Status response >=? 300) then Err (read_error c (hs_Status response) data) else
  match json_Decode R data with
  | Err e => Err (wrap "decode wallet gateway response" e)
  | Ok (a, rest) =>
      _ ← check (blank rest && negb (MaxResponseBytes + 1 - Z.of_nat (length data) <=? 0))
            (EText "wallet gateway response is oversized or has trailing data");
      Ok a
  end.

Definition post {A R} `{JsonRecord A} `{JsonRecord R} (c : Client) (path : string) (request : A) : prog S R :=
  let body := Marshal request in
  _ ← guard (Z.of_nat (length body) <=? MaxRequestBytes) (EText "light wallet request is out of bounds");
  response ← wrapping "wallet gateway unavailable" (Do path body);
  lift (read_response c response).

Definition valid_address (address : bytes) : bool :=
  match DecodeAddress address with Ok pkh => bool_decide (EncodeAddress pkh = address) | Err _ => false end.
(** [canonical[index-1] == canonical[index]] for some index *)
Fixpoint adjacent_equal (l : list bytes) : bool :=
  match l with
  | a :: (b :: _) as l' => bool_decide (a = b) || adjacent_equal l'
  | _ => false
  end.
Definition canonicalClientAddresses (addresses : list bytes) : result (list bytes) :=
  _ ← check (negb ((length addresses =? 0)%nat || (Z.of_nat (length addresses) >? MaxSnapshotAddresses)))
        (EText "wallet address count is out of bounds");
  _ ← check (forallb valid_address addresses) (EText "wallet contains an invalid address");
  let canonical := merge_sort bytes_le addresses in
  _ ← check (negb (adjacent_equal canonical)) (EText "wallet contains duplicate addresses");
  Ok canonical.

Definition Client_Snapshot (c : Client) (addresses : list bytes) : prog S SnapshotResponse :=
  canonical ← lift (canonicalClientAddresses addresses);
  response ← post c SnapshotPath (mkSnapshotRequest canonical);
  _ ← wrapping "invalid gateway snapshot" (lift (validateSnapshot c response canonical));
  mret response.

Definition Client_View (c : Client) (addresses : list bytes) (activityLimit : Z) : prog S ViewResponse :=
  _ ← guard (negb ((activityLimit <? 0) || (activityLimit >? MaxWalletActivityLimit)))
        (ENum "activity limit must be between 0 and" [MaxWalletActivityLimit]);
  canonical ← lift (canonicalClientAddresses addresses);
  response ← post c ViewPath (mkViewRequest canonical activityLimit);
  _ ← wrapping "invalid gateway view" (lift (validateView c response canonical activityLimit));
  mret response.

Definition Client_Broadcast (c : Client) (transaction : option Tx) : prog S BroadcastResponse :=
  match transaction with
  | None => fail (EText "invalid signed transaction")
  | Some transaction =>
      _ ← guard (negb (IsCoinbase transaction)) (EText "invalid signed transaction");
      let wire := Tx_Bytes transaction in
      _ ← guard (negb ((length wire =? 0)%nat || (Z.of_nat (length wire) >? MaxSignedTransactionBytes)))
            (EText "signed transaction is out of bounds");
      let txID := hex_encode (Tx_ID transaction) in
      response ← post c BroadcastPath (mkBroadcastRequest (hex_encode wire) txID);
      _ ← guard (negb (negb (br_SchemaVersion response =? SchemaVersion)
                       || negb (String.eqb (br_Network response) (cl_network c)) || negb (bool_decide (br_TxID response = txID))
                       || (negb (String.eqb (br_Admission response) "added")
                           && negb (String.eqb (br_Admission response) "already_known"))
                       || negb (String.eqb (br_Status response) "submitted") || (br_PeerWrites response <? 1)))
            (EText "invalid gateway broadcast response");
      mret response
  end.
End client.
