(* ===== verification/LightProofs.v ===== *)
(** * What the light-wallet client accepts

    Declarative forms of the client's checks: the loops over outputs accept exactly the
    lists of well-formed, owned outputs in strictly ascending order whose sum is within
    the money supply. *)
From S2P Require Import Prelude Text GoStrings GoJson Params Crypto Wire Address Chain WalletView Wallet WalletSnapshot WalletProofs WalletSendProofs FileTree LightGateway LightClient.

(** ** Hexadecimal hashes *)
Lemma from_hex_lower c d : from_hex c = Some d -> lower c = c -> hex_digit d = c /\ 0 <= d < 16.
Proof.
  unfold from_hex, lower, hex_digit. intros Hc Hl. pose proof (b2z_range c).
  destruct ((48 <=? b2z c) && (b2z c <=? 57)) eqn:E1.
  { bool_prop. injection Hc as <-. rewrite (proj2 (Z.ltb_lt _ _)) by lia.
    replace (48 + (b2z c - 48)) with (b2z c) by lia. rewrite z2b_b2z. split; [done|lia]. }
  destruct ((97 <=? b2z c) && (b2z c <=? 102)) eqn:E2.
  { bool_prop. injection Hc as <-. rewrite (proj2 (Z.ltb_ge _ _)) by lia.
    replace (87 + (b2z c - 87)) with (b2z c) by lia. rewrite z2b_b2z. split; [done|lia]. }
  destruct ((65 <=? b2z c) && (b2z c <=? 70)) eqn:E3; [|done]. bool_prop.
  rewrite (proj2 (Z.leb_le 65 _)), (proj2 (Z.leb_le _ 90)) in Hl by lia. cbn [andb] in Hl.
  apply (f_equal b2z) in Hl. rewrite b2z_z2b, Z.mod_small in Hl by lia. lia.
Qed.

Lemma hex_decode_lower s b : hex_decode s = Ok b -> s = ToLower s -> s = hex_encode b.
Proof.
  revert b. induction s as [s IH] using (induction_ltof1 _ (@length byte)). unfold ltof in IH.
  destruct s as [|x [|y s]]; cbn [hex_decode]; intros b Hd Hl; [by apply Ok_inj in Hd as <-|done|].
  destruct (from_hex x) as [dx|] eqn:Ex; [|done]. destruct (from_hex y) as [dy|] eqn:Ey; [|done].
  apply bind_Ok in Hd as (b' & Hd & Hb). apply Ok_inj in Hb as <-. cbn [ToLower map] in Hl. injection Hl as Hx Hy Hl.
  apply from_hex_lower in Ex as [Ex Hdx]; [|done]. apply from_hex_lower in Ey as [Ey Hdy]; [|done].
  apply IH in Hd; [|simpl; lia|done]. cbn [hex_encode flat_map app]. rewrite b2z_z2b, Z.mod_small by lia.
  replace ((dx * 16 + dy) / 16) with dx by mlia. replace ((dx * 16 + dy) mod 16) with dy by mlia.
  rewrite Ex, Ey. do 2 f_equal. exact Hd.
Qed.

Lemma ToLower_hex b : ToLower (hex_encode b) = hex_encode b.
Proof.
  assert (Hd : forall d, 0 <= d < 16 -> lower (hex_digit d) = hex_digit d).
  { intros d Hd. assert (Hall : forallb (fun d => bool_decide (lower (hex_digit d) = hex_digit d)) (seqZ 0 16) = true)
      by (vm_compute; reflexivity).
    rewrite forallb_forall in Hall. apply (bool_decide_eq_true_1 _), Hall, list_elem_of_In, elem_of_seqZ. lia. }
  induction b as [|x b IH]; [done|]. cbn [hex_encode flat_map app ToLower map]. pose proof (b2z_range x).
  rewrite !Hd by mlia. do 2 f_equal. exact IH.
Qed.

Lemma decodeCanonicalHash_spec v h : decodeCanonicalHash v = Ok h <-> v = hex_encode h /\ length h = 32%nat.
Proof.
  unfold decodeCanonicalHash. split.
  - destruct (_ || _) eqn:E; [done|]. bool_prop. destruct (hex_decode v) as [d|] eqn:Ed; [|done].
    destruct (length d =? 32)%nat eqn:El; [|done]. cbn [negb]. intros [= ->]. apply Nat.eqb_eq in El.
    split; [by apply hex_decode_lower|done].
  - intros [-> Hl]. rewrite length_hex_encode, Hl, ToLower_hex, bool_decide_eq_true_2, hex_decode_encode by done.
    cbn. by rewrite Hl.
Qed.

Lemma decodeCanonicalTransactionHex_encode b : 0 < Z.of_nat (length b) <= MaxSignedTransactionBytes ->
  decodeCanonicalTransactionHex (hex_encode b) = Ok b.
Proof.
  intros Hb. unfold decodeCanonicalTransactionHex.
  rewrite length_hex_encode, ToLower_hex, bool_decide_eq_true_2, hex_decode_encode by done.
  replace (2 * length b =? 0)%nat with false by (symmetry; apply Nat.eqb_neq; lia).
  replace (Z.of_nat (2 * length b) mod 2) with 0 by (rewrite Nat2Z.inj_mul; change (Z.of_nat 2) with 2; mlia).
  cbn [orb negb Z.eqb]. replace (length b =? 0)%nat with false by (symmetry; apply Nat.eqb_neq; lia).
  rewrite Z.gtb_ltb, (proj2 (Z.ltb_ge _ _)) by lia. done.
Qed.

(** ** One output *)
Definition before (previous : option OutPoint) (op : OutPoint) : Prop :=
  forall p, previous = Some p -> op_compare p op = Lt.

(** An output of a message names an outpoint, an amount and an owner. *)
Record output_ok (owners : gset bytes) (txID : bytes) (vout amount : Z) (address : bytes) (op : OutPoint) : Prop := {
  ok_txid : txID = hex_encode (op_TxID op);
  ok_length : length (op_TxID op) = 32%nat;
  ok_vout : vout = op_Idx op;
  ok_amount : 0 < amount <= MaxMoneyUnits;
  ok_owner : address ∈ owners;
}.

Lemma before_spec previous txID vout :
  match previous with Some p => strictly_before p txID vout | None => true end = true <->
  before previous (mkOutPoint txID vout).
Proof.
  destruct previous as [p|]; [|by split; [intros _ p|]]. rewrite strictly_before_compare. unfold before. split; [by intros ? ? [= <-]|auto].
Qed.

Lemma checked_output_spec owners txID vout amount address total previous dup t op :
  checked_output owners (decodeCanonicalHash txID) vout amount address total previous dup = Ok (t, op) <->
  output_ok owners txID vout amount address op /\ dup op = false /\ before previous op /\
  t = total + amount /\ t <= MaxMoneyUnits.
Proof.
  unfold checked_output. split.
  - destruct (decodeCanonicalHash txID) as [h|] eqn:Eh; [|done]. apply decodeCanonicalHash_spec in Eh as [Eh Hl]. intros Hc. res_simpl.
    simplify_eq. bool_prop. rewrite MoneyRange_spec in *. split_and!; [split; simpl; try done; lia|done|by apply before_spec|done|lia].
  - intros ([Ht Hl Hv Ha Ho] & Hd & Hb & -> & Hm). rewrite (proj2 (decodeCanonicalHash_spec txID (op_TxID op))) by done.
    subst vout. destruct op as [h i]. cbn [op_Idx op_TxID] in *. rewrite (proj2 (before_spec previous h i) Hb), Hd.
    rewrite (proj2 (Z.leb_gt amount 0)), (proj2 (MoneyRange_spec amount)) by lia.
    rewrite Z.gtb_ltb, (proj2 (Z.ltb_ge _ _)), bool_decide_eq_true_2 by (done || lia). done.
Qed.

(** ** The loops *)
Definition ascending_from (previous : option OutPoint) (ops : list OutPoint) : Prop :=
  ascending (option_list previous ++ ops).

Lemma ascending_from_cons previous op ops :
  ascending_from previous (op :: ops) <-> before previous op /\ ascending_from (Some op) ops.
Proof.
  unfold ascending_from, before, ascending. destruct previous as [p|]; cbn [option_list app]; [|by split; [intros H; split; [|]|intros []]].
  split.
  - intros H. inv H as [|? ? H1 H2]. inv H2. split; [by intros ? [= <-]|done].
  - intros [Hp Ho]. constructor; [done|]. specialize (Hp p eq_refl). constructor; [done|].
    inv Ho as [|? ? _ Hall]. eapply Forall_impl; [exact Hall|]. intros x Hx. by eapply op_compare_lt_trans.
Qed.

Lemma ascending_from_not_in op ops : ascending_from (Some op) ops -> op ∉ ops.
Proof.
  unfold ascending_from. cbn [option_list app]. intros H Hin. inv H as [|? ? _ Hall].
  rewrite list.Forall_forall in Hall. specialize (Hall op Hin). by rewrite (proj2 (op_compare_eq op op) eq_refl) in Hall.
Qed.

Section loops.
Context {A : Type} (owners : gset bytes) (txID address : A -> bytes) (vout amount : A -> Z).
Abbreviation listed := (fun a op => output_ok owners (txID a) (vout a) (amount a) (address a) op).

Lemma amounts_nonneg l ops : Forall2 listed l ops -> 0 <= sumZ (amount <$> l).
Proof. induction 1 as [|a op l ops [] _ IH]; cbn; lia. Qed.

(** The loop that also keeps the set of outpoints, after a check of its own. *)
Lemma seen_loop (extra : A -> bool) (e : error) l : forall seen total previous s' t', total <= MaxMoneyUnits ->
  (exists p', foldM (fun st a => _ ← check (extra a) e; seen_step owners (txID a) (vout a) (amount a) (address a) st)
                (seen, total, previous) l = Ok (s', t', p')) <->
  exists ops, Forall2 listed l ops /\ Forall (fun a => extra a = true) l /\ (forall op, op ∈ ops -> op ∉ seen) /\
    ascending_from previous ops /\ s' = list_to_set ops ∪ seen /\
    t' = total + sumZ (amount <$> l) /\ t' <= MaxMoneyUnits.
Proof.
  induction l as [|a l IH]; intros seen total previous s' t' Ht; cbn [foldM].
  - split.
    + intros [p' [= -> -> ->]]. exists []. split_and!; try constructor; cbn; try done; [set_solver|destruct p'; repeat constructor|set_solver|lia].
    + intros (ops & Hf & _ & _ & _ & -> & -> & _). inv Hf. exists previous. cbn. rewrite Z.add_0_r. do 3 f_equal. set_solver.
  - split.
    + intros [p' Hf]. destruct (check (extra a) e) eqn:Ec; [|done]. cbn [mbind result_bind] in Hf. apply check_Ok in Ec.
      unfold seen_step in Hf at 1. destruct (checked_output _ _ _ _ _ _ _ _) as [[t op]|] eqn:Eo; [|done].
      apply checked_output_spec in Eo as (Hok & Hdup & Hb & -> & Hm). cbn [mbind result_bind] in Hf.
      apply bool_decide_eq_false in Hdup. destruct (proj1 (IH _ _ _ _ _ Hm) (ex_intro _ p' Hf)) as (ops & H1 & H2 & H3 & H4 & -> & -> & H5).
      exists (op :: ops). split_and!; try by constructor.
      * intros x [->|Hx]%elem_of_cons; [done|]. specialize (H3 x Hx). set_solver.
      * by apply ascending_from_cons.
      * cbn. set_solver.
      * cbn. lia.
      * done.
    + intros (ops & Hf & Hex & Hns & Hasc & -> & -> & Hm). inv Hf as [|? op ? ops' Hok Hrest]. inv Hex as [|? ? Ha Hex'].
      apply ascending_from_cons in Hasc as [Hb Hasc]. pose proof (amounts_nonneg _ _ Hrest). cbn in Hm.
      rewrite Ha. cbn [check mbind result_bind]. unfold seen_step at 1.
      rewrite (proj2 (checked_output_spec owners (txID a) (vout a) (amount a) (address a) total previous
                 (fun op => bool_decide (op ∈ seen)) (total + amount a) op)).
      2: { split_and!; try done; [|lia]. apply bool_decide_eq_false. apply Hns. by left. }
      cbn [mbind result_bind]. apply IH; [lia|]. exists ops'. split_and!; try done.
      * intros x Hx. pose proof (ascending_from_not_in _ _ Hasc). specialize (Hns x ltac:(by right)). set_solver.
      * cbn. set_solver.
      * cbn. lia.
Qed.
End loops.

(** The loop of the snapshot. *)
Lemma snapshot_loop owners l : forall total previous t', total <= MaxMoneyUnits ->
  (exists p', foldM (snapshot_step owners) (total, previous) l = Ok (t', p')) <->
  exists ops, Forall2 (fun o op => output_ok owners (lo_TxID o) (lo_Vout o) (lo_AmountUnits o) (lo_Address o) op) l ops /\
    ascending_from previous ops /\ t' = total + sumZ (lo_AmountUnits <$> l) /\ t' <= MaxMoneyUnits.
Proof.
  induction l as [|a l IH]; intros total previous t' Ht; cbn [foldM].
  - split.
    + intros [p' [= -> ->]]. exists []. split_and!; try constructor; cbn; try done; [destruct p'; repeat constructor|lia].
    + intros (ops & Hf & _ & -> & _). exists previous. cbn. by rewrite Z.add_0_r.
  - unfold snapshot_step at 1. cbn [fst snd]. split.
    + intros [p' Hf]. destruct (checked_output _ _ _ _ _ _ _ _) as [[t op]|] eqn:Eo; [|done].
      apply checked_output_spec in Eo as (Hok & _ & Hb & -> & Hm). cbn [mbind result_bind] in Hf.
      destruct (proj1 (IH _ _ _ Hm) (ex_intro _ p' Hf)) as (ops & H1 & H2 & -> & H3).
      exists (op :: ops). split_and!; [by constructor|by apply ascending_from_cons|cbn; lia|done].
    + intros (ops & Hf & Hasc & -> & Hm). inv Hf as [|? op ? ops' Hok Hrest].
      apply ascending_from_cons in Hasc as [Hb Hasc]. cbn in Hm.
      assert (0 <= sumZ (lo_AmountUnits <$> l)) by (eapply (amounts_nonneg owners lo_TxID lo_Address lo_Vout), Hrest).
      rewrite (proj2 (checked_output_spec owners (lo_TxID a) (lo_Vout a) (lo_AmountUnits a) (lo_Address a) total previous
                 (fun _ => false) (total + lo_AmountUnits a) op)) by (split_and!; done || lia).
      cbn [mbind result_bind]. apply IH; [lia|]. exists ops'. split_and!; try done. cbn. lia.
Qed.

(** ** Activity *)
Record mempool_item (item : ViewActivityItem) (id : Hash32) : Prop := {
  mi_txid : va_TxID item = hex_encode id; mi_length : length id = 32%nat;
  mi_amount : validViewActivityAmount item = true; mi_status : va_Status item = "mempool"%string;
  mi_kind : va_Kind item <> "mining_reward"%string; mi_height : va_BlockHeight item = -1;
  mi_confirmations : va_Confirmations item = 0; mi_blocks : va_BlocksUntilMature item = 0;
}.
Record confirmed_item (tipHeight maturity : Z) (item : ViewActivityItem) (id : Hash32) : Prop := {
  cf_txid : va_TxID item = hex_encode id; cf_length : length id = 32%nat;
  cf_amount : validViewActivityAmount item = true; cf_status : va_Status item = "confirmed"%string;
  cf_height : 0 <= va_BlockHeight item <= tipHeight; cf_distance : tipHeight - va_BlockHeight item <> max_int64;
  cf_confirmations : va_Confirmations item = tipHeight - va_BlockHeight item + 1;
  cf_blocks : va_BlocksUntilMature item = if String.eqb (va_Kind item) "mining_reward" && (va_Confirmations item <? maturity)
                                          then maturity - va_Confirmations item else 0;
}.

Lemma viewConfirmations_spec tip h n :
  viewConfirmations tip h = Some n <-> 0 <= h <= tip /\ tip - h <> max_int64 /\ n = tip - h + 1.
Proof.
  unfold viewConfirmations. destruct (_ || _) eqn:E.
  { split; [done|]. intros (? & ? & ?). apply orb_true_iff in E as [E|E]; [apply orb_true_iff in E as [E|E]|];
      rewrite ?Z.gtb_ltb in E; apply Z.ltb_lt in E; lia. }
  bool_prop. destruct (Z.eqb_spec (tip - h) max_int64); split; try done.
  - by intros (_ & ? & _).
  - intros [= <-]. split_and!; done || lia.
  - by intros (_ & _ & ->).
Qed.

Lemma bytes_not_le a b : ~ bytes_le a b <-> bytes_compare b a = Lt.
Proof.
  unfold bytes_le. rewrite (bytes_compare_antisym b a). destruct (bytes_compare b a); cbn; split; try done;
    first [by intros _ H; apply H|intros H; exfalso; by apply H].
Qed.

Section activity.
Context (tipHeight maturity : Z).

(** What an iteration accepts and the state after it. *)
Definition activity_next (st : activity_state) (item : ViewActivityItem) (st' : activity_state) : Prop :=
  exists id, id ∉ ac_seen st /\
    (mempool_item item id /\ ac_confirmedPhase st = false /\
     (ac_previous st = Some "mempool"%string -> bytes_compare (ac_previousID st) id = Lt) /\
     st' = mkActivityState ({[id]} ∪ ac_seen st) false (ac_previousHeight st) id (Some "mempool"%string) \/
     confirmed_item tipHeight maturity item id /\
     (forall h, ac_previousHeight st = Some h -> va_BlockHeight item <= h) /\
     st' = mkActivityState ({[id]} ∪ ac_seen st) true (Some (va_BlockHeight item)) (ac_previousID st) (Some "confirmed"%string)).

Lemma activity_step_1 st item st' : view_activity_step tipHeight maturity st item = Ok st' -> activity_next st item st'.
Proof.
  unfold view_activity_step. intros Hs. apply bind_Ok in Hs as (id & Hid & Hs). apply decodeCanonicalHash_spec in Hid as [Hid Hl].
  apply bind_Ok in Hs as (? & Hn%check_Ok & Hs). apply bind_Ok in Hs as (? & Ha%check_Ok & Hs).
  apply bool_decide_eq_true in Hn. exists id. split; [done|].
  destruct (String.eqb_spec (va_Status item) "mempool") as [Em|_]; [left|destruct (String.eqb_spec (va_Status item) "confirmed") as [Ec|_]; [right|done]].
  - apply bind_Ok in Hs as (? & H1%check_Ok & Hs). apply bind_Ok in Hs as (? & H2%check_Ok & Hs). apply Ok_inj in Hs as <-.
    bool_prop. rename select ((_ =? _)%string = false) into Hk. apply String.eqb_neq in Hk.
    rename select (ac_confirmedPhase st = false) into Hph. split; [split; done|]. split; [done|]. split; [|by rewrite Hph, Em].
    intros Hp. rewrite Hp, bool_decide_eq_true_2 in H2 by done. cbn [andb] in H2. apply bool_decide_eq_false in H2. by apply bytes_not_le.
  - apply bind_Ok in Hs as (? & H1%check_Ok & Hs). apply bind_Ok in Hs as (? & H2%check_Ok & Hs). apply Ok_inj in Hs as <-.
    bool_prop. rename select (viewConfirmations _ _ = _) into Hv. apply viewConfirmations_spec in Hv as (Hh & Hd & Hc). split; [split; done|]. split; [|by rewrite Ec].
    intros h Hh'. rewrite Hh' in *. bool_prop. lia.
Qed.

Lemma activity_step_2 st item st' : activity_next st item st' -> view_activity_step tipHeight maturity st item = Ok st'.
Proof.
  intros (id & Hn & [([] & Hp & Hlt & ->)|([] & Hh & ->)]); unfold view_activity_step;
    rewrite (proj2 (decodeCanonicalHash_spec _ id)) by done; cbn [mbind result_bind];
    rewrite (bool_decide_eq_true_2 (id ∉ _)) by done; cbn [check mbind result_bind].
  - rewrite mi_amount0, mi_status0, String.eqb_refl. cbn [check mbind result_bind].
    rewrite Hp, mi_height0, mi_confirmations0, mi_blocks0, (proj2 (String.eqb_neq _ _) mi_kind0). cbn [negb orb Z.eqb check mbind result_bind].
    destruct (bool_decide (ac_previous st = _)) eqn:Ep; [|done]. apply bool_decide_eq_true in Ep. specialize (Hlt Ep).
    rewrite bool_decide_eq_false_2 by by apply bytes_not_le. done.
  - rewrite cf_amount0, cf_status0. cbn [check mbind result_bind String.eqb Ascii.eqb Bool.eqb].
    rewrite bool_decide_eq_true_2 by (by apply viewConfirmations_spec). rewrite cf_blocks0, Z.eqb_refl.
    rewrite (proj2 (Z.ltb_lt _ _)) by lia. destruct (ac_previousHeight st) as [h|]; [|done].
    rewrite Z.gtb_ltb, (proj2 (Z.ltb_ge _ _)) by (by apply Hh). done.
Qed.

(** The confirmed part of the list. *)
Lemma confirmed_loop l : forall seen h pid,
  is_ok (foldM (view_activity_step tipHeight maturity) (mkActivityState seen true (Some h) pid (Some "confirmed"%string)) l) = true <->
  exists ids, Forall2 (confirmed_item tipHeight maturity) l ids /\ NoDup ids /\ (forall id, id ∈ ids -> id ∉ seen) /\
    StronglySorted Z.ge (h :: (va_BlockHeight <$> l)).
Proof.
  induction l as [|item l IH]; intros seen h pid; cbn [foldM].
  - split; [|done]. intros _. exists []. split_and!; [constructor|constructor|by intros ? ?%elem_of_nil|repeat constructor].
  - split.
    + destruct (view_activity_step _ _ _ item) as [st'|] eqn:E; [|done]. apply activity_step_1 in E as (id & Hn & [(_ & ? & _)|(Hc & Hh & ->)]); [done|].
      cbn [ac_seen ac_previousID ac_previousHeight] in *. intros (ids & H1 & H2 & H3 & H4)%IH. specialize (Hh h eq_refl). exists (id :: ids).
      split_and!; [by constructor| |..].
      * constructor; [|done]. intros Hin. specialize (H3 id Hin). set_solver.
      * intros x [->|Hx]%elem_of_cons; [done|]. specialize (H3 x Hx). set_solver.
      * cbn. constructor; [done|]. constructor; [lia|]. inv H4 as [|? ? _ Hall]. eapply Forall_impl; [exact Hall|]. cbn. lia.
    + intros (ids & Hf & Hnd & Hns & Hs). inv Hf as [|? id ? ids' Hc Hrest]. inv Hnd as [|? ? Hni Hnd']. cbn in Hs. inv Hs as [|? ? Hs' Hall].
      inv Hall. rewrite (activity_step_2 _ _ (mkActivityState ({[id]} ∪ seen) true (Some (va_BlockHeight item)) pid (Some "confirmed"%string))).
      * apply IH. exists ids'. split_and!; try done. intros x Hx. specialize (Hns x ltac:(by right)).
        assert (x <> id) by (intros ->; done). set_solver.
      * exists id. cbn. split; [apply Hns; by left|]. right. split_and!; [done|intros ? [= <-]; lia|done].
Qed.

(** Unconfirmed items in the order of their ids come before confirmed ones. *)
Definition activity_list (l : list ViewActivityItem) (ids : list Hash32) : Prop :=
  exists mem conf mids cids, l = mem ++ conf /\ ids = mids ++ cids /\ NoDup ids /\
    Forall2 mempool_item mem mids /\ StronglySorted (fun a b => bytes_compare a b = Lt) mids /\
    Forall2 (confirmed_item tipHeight maturity) conf cids /\ StronglySorted Z.ge (va_BlockHeight <$> conf).

Lemma activity_loop l : forall seen pid prev, prev = None \/ prev = Some "mempool"%string ->
  is_ok (foldM (view_activity_step tipHeight maturity) (mkActivityState seen false None pid prev) l) = true <->
  exists ids, activity_list l ids /\ (forall id, id ∈ ids -> id ∉ seen) /\
    (prev <> None -> forall item id, head l = Some item -> head ids = Some id -> va_Status item = "mempool"%string ->
       bytes_compare pid id = Lt).
Proof.
  induction l as [|item l IH]; intros seen pid prev Hprev; cbn [foldM].
  { split; [|done]. intros _. exists []. split_and!; [|set_solver|done]. exists [], [], [], [].
    split_and!; try constructor; done. }
  split.
  - destruct (view_activity_step _ _ _ item) as [st'|] eqn:E; [|done].
    apply activity_step_1 in E as (id & Hn & [(Hm & _ & Hlt & ->)|(Hc & Hh & ->)]); cbn [ac_seen ac_previousID ac_previousHeight ac_previous] in *.
    + intros (ids & (mem & conf & mids & cids & -> & -> & Hnd & H1 & H2 & H3 & H4) & Hns & Hfirst)%IH; [|by right].
      exists (id :: mids ++ cids). split_and!.
      * exists (item :: mem), conf, (id :: mids), cids. split_and!; try done; [|by constructor|].
        { constructor; [|done]. intros Hin. specialize (Hns id Hin). set_solver. }
        constructor; [done|]. destruct H1 as [|i2 id2 mem mids Hi2 _]; [constructor|].
        assert (Hl : bytes_compare id id2 = Lt) by (eapply Hfirst; [done|done|done|apply Hi2]). constructor; [done|].
        inv H2 as [|? ? _ Hall]. eapply Forall_impl; [exact Hall|]. intros x Hx. by eapply bytes_compare_lt_trans.
      * intros x [->|Hx]%elem_of_cons; [done|]. specialize (Hns x Hx). set_solver.
      * intros Hp i x [= <-] [= <-] _. destruct Hprev as [->|Hprev]; [done|auto].
    + intros (cids & H1 & H2 & H3 & H4)%confirmed_loop. exists (id :: cids). split_and!.
      * exists [], (item :: l), [], (id :: cids). split_and!; try done; try constructor; try done. intros Hin. specialize (H3 id Hin). set_solver.
      * intros x [->|Hx]%elem_of_cons; [done|]. specialize (H3 x Hx). set_solver.
      * intros _ i x [= <-] [= <-] Hs. destruct Hc. rewrite cf_status0 in Hs. done.
  - intros (ids & (mem & conf & mids & cids & Hl & -> & Hnd & H1 & H2 & H3 & H4) & Hns & Hfirst).
    destruct H1 as [|i2 id2 mem mids Hi2 Hmem]; cbn [app] in *.
    + subst conf. inv H3 as [|? id ? cids' Hc Hrest]. inv Hnd as [|? ? Hni Hnd'].
      rewrite (activity_step_2 _ _ (mkActivityState ({[id]} ∪ seen) true (Some (va_BlockHeight item)) pid (Some "confirmed"%string))).
      * apply confirmed_loop. exists cids'. split_and!; try done. intros x Hx. specialize (Hns x ltac:(by right)).
        assert (x <> id) by (intros ->; done). set_solver.
      * exists id. cbn. split; [apply Hns; by left|]. right. split_and!; [done|done|done].
    + injection Hl as <- ->. inv Hnd as [|? ? Hni Hnd'].
      rewrite (activity_step_2 _ _ (mkActivityState ({[id2]} ∪ seen) false None id2 (Some "mempool"%string))).
      * apply IH; [by right|]. exists (mids ++ cids). split_and!.
        -- exists mem, conf, mids, cids. split_and!; try done. by inv H2.
        -- intros x Hx. specialize (Hns x ltac:(by right)). assert (x <> id2) by (intros ->; done). set_solver.
        -- intros _ i x Hi Hx Hs. destruct Hmem as [|i3 id3 mem mids Hi3 _]; cbn in Hi, Hx.
           ++ destruct H3 as [|i4 id4 ? ? Hc _]; [done|]. cbn in Hi, Hx. simplify_eq. destruct Hc. rewrite cf_status0 in Hs. done.
           ++ simplify_eq. inv H2 as [|? ? _ Hall]. by inv Hall.
      * exists id2. cbn. split; [apply Hns; by left|]. left. split_and!; [done|done| |done].
        intros Hp. apply (Hfirst ltac:(by rewrite Hp) item id2); [done|done|apply Hi2].
Qed.
End activity.

(** ** Whole responses *)
Definition listed (owners : gset bytes) (o : SnapshotOutput) (op : OutPoint) : Prop :=
  output_ok owners (lo_TxID o) (lo_Vout o) (lo_AmountUnits o) (lo_Address o) op.
Definition listed_immature (owners : gset bytes) (o : ViewImmatureOutput) (op : OutPoint) : Prop :=
  output_ok owners (vi_TxID o) (vi_Vout o) (vi_AmountUnits o) (vi_Address o) op.

Record snapshot_ok (c : Client) (r : SnapshotResponse) (addresses : list bytes) (ops : list OutPoint) : Prop := {
  sk_schema : sr_SchemaVersion r = SchemaVersion;
  sk_network : sr_Network r = cl_network c;
  sk_height : 0 <= tp_Height (sr_Tip r);
  sk_tip : exists h, tp_Hash (sr_Tip r) = hex_encode h /\ length h = 32%nat;
  sk_addresses : sr_Addresses r = addresses;
  sk_count : Z.of_nat (length (sr_Outputs r)) <= MaxSnapshotOutputs;
  sk_outputs : Forall2 (listed (list_to_set addresses)) (sr_Outputs r) ops;
  sk_sorted : ascending ops;
  sk_units : sr_SpendableUnits r = sumZ (lo_AmountUnits <$> sr_Outputs r);
  sk_supply : sr_SpendableUnits r <= MaxMoneyUnits;
}.

Lemma zero_supply : 0 <= MaxMoneyUnits.
Proof. unfold MaxMoneyUnits, UnitsPerCoin. lia. Qed.

(** Steps of a successful validation. *)
Lemma bind_check b e {A} (k : unit -> result A) a : (check b e ≫= k) = Ok a <-> b = true /\ k tt = Ok a.
Proof.
  rewrite bind_Ok. split; [intros ([] & H%check_Ok & Hk); done|]. intros [-> Hk]. by exists tt.
Qed.
Lemma tip_hash_ok v {A} (k : Hash32 -> result A) a : (forall h h', k h = k h') ->
  (decodeCanonicalHash v ≫= k) = Ok a <-> (exists h, v = hex_encode h /\ length h = 32%nat) /\ k [] = Ok a.
Proof.
  intros Hk. rewrite bind_Ok. split.
  - intros (h & Hh%decodeCanonicalHash_spec & Ha). split; [by exists h|]. by rewrite (Hk [] h).
  - intros [(h & Hh) Ha]. exists h. split; [by apply decodeCanonicalHash_spec|]. by rewrite (Hk h []).
Qed.

Lemma validateSnapshot_spec c r addresses :
  validateSnapshot c r addresses = Ok tt <-> exists ops, snapshot_ok c r addresses ops.
Proof.
  unfold validateSnapshot. rewrite bind_check, tip_hash_ok by done. rewrite bind_check, bind_Ok. split.
  - intros (Hid & Htip & Ha & [t p] & Hloop & Ht%check_Ok). apply bool_decide_eq_true in Ha. bool_prop.
    rename select ((_ =? _)%string = true) into Hnet. apply String.eqb_eq in Hnet.
    destruct (proj1 (snapshot_loop _ _ _ _ t zero_supply) (ex_intro _ p Hloop)) as (ops & Ho & Hasc & Hu & Hm).
    exists ops. split; try done; lia.
  - intros (ops & [Hs Hn Hh Htip Ha Hc Ho Has Hu Hm]).
    destruct (proj2 (snapshot_loop (list_to_set addresses) (sr_Outputs r) 0 None (sr_SpendableUnits r) zero_supply))
      as [p Hloop]; [by exists ops|].
    split_and!; [|done|by apply bool_decide_eq_true|].
    + rewrite Hs, Hn, Ha, String.eqb_refl, Nat.eqb_refl, Z.gtb_ltb, (proj2 (Z.ltb_ge _ _)), (proj2 (Z.ltb_ge _ _)) by lia. done.
    + exists (sr_SpendableUnits r, p). split; [done|]. cbn. by rewrite Z.eqb_refl.
Qed.

Record view_ok (c : Client) (r : ViewResponse) (addresses : list bytes) (activityLimit : Z)
    (ops iops : list OutPoint) (ids : list Hash32) : Prop := {
  vk_schema : vr_SchemaVersion r = SchemaVersion;
  vk_network : vr_Network r = cl_network c;
  vk_height : 0 <= tp_Height (vr_Tip r);
  vk_tip : exists h, tp_Hash (vr_Tip r) = hex_encode h /\ length h = 32%nat;
  vk_addresses : vr_Addresses r = addresses;
  vk_count : Z.of_nat (length (vr_Outputs r)) <= MaxSnapshotOutputs;
  vk_immature_count : Z.of_nat (length (vr_ImmatureOutputs r)) <= MaxSnapshotOutputs;
  vk_limit : Z.of_nat (length (vr_Activity r)) <= activityLimit;
  vk_output_count : vr_SpendableOutputCount r = Z.of_nat (length (vr_Outputs r));
  vk_outputs : Forall2 (listed (list_to_set addresses)) (vr_Outputs r) ops;
  vk_sorted : ascending ops;
  vk_units : vr_SpendableUnits r = sumZ (lo_AmountUnits <$> vr_Outputs r);
  vk_supply : vr_SpendableUnits r <= MaxMoneyUnits;
  vk_immature : Forall2 (listed_immature (list_to_set addresses)) (vr_ImmatureOutputs r) iops;
  vk_numbers : Forall (fun o => immature_numbers (tp_Height (vr_Tip r)) (coinbaseMaturity c) o = true) (vr_ImmatureOutputs r);
  vk_immature_sorted : ascending iops;
  vk_disjoint : forall op, op ∈ iops -> op ∉ ops;
  vk_immature_units : vr_ImmatureUnits r = sumZ (vi_AmountUnits <$> vr_ImmatureOutputs r);
  vk_immature_supply : vr_ImmatureUnits r <= MaxMoneyUnits;
  vk_activity : activity_list (tp_Height (vr_Tip r)) (coinbaseMaturity c) (vr_Activity r) ids;
}.

Lemma view_outputs_loop owners l s' t' :
  validateViewOutputs l owners ∅ = Ok (s', t') <->
  exists ops, Forall2 (listed owners) l ops /\ ascending ops /\ s' = list_to_set ops /\
    t' = sumZ (lo_AmountUnits <$> l) /\ t' <= MaxMoneyUnits.
Proof.
  unfold validateViewOutputs. rewrite bind_Ok. transitivity (exists p', foldM (view_output_step owners) (∅, 0, None) l = Ok (s', t', p')).
  { split; [intros ([[s t] p] & Hf & [= -> ->]); by exists p|]. intros [p Hf]. by exists (s', t', p). }
  pose proof (seen_loop owners lo_TxID lo_Address lo_Vout lo_AmountUnits (fun _ => true) (EText "") l ∅ 0 None s' t' zero_supply) as Hloop.
  etransitivity; [exact Hloop|]. split; intros (ops & H); exists ops.
  - destruct H as (? & _ & _ & ? & -> & -> & ?). split_and!; try done. set_solver.
  - destruct H as (? & ? & -> & -> & ?). split_and!; try done; first [by apply list.Forall_forall|set_solver].
Qed.

Lemma view_immature_loop owners tip maturity l seen t' :
  (exists s' p', foldM (view_immature_step owners tip maturity) (seen, 0, None) l = Ok (s', t', p')) <->
  exists ops, Forall2 (listed_immature owners) l ops /\ Forall (fun o => immature_numbers tip maturity o = true) l /\
    (forall op, op ∈ ops -> op ∉ seen) /\ ascending ops /\ t' = sumZ (vi_AmountUnits <$> l) /\ t' <= MaxMoneyUnits.
Proof.
  pose proof (seen_loop owners vi_TxID vi_Address vi_Vout vi_AmountUnits (immature_numbers tip maturity)
    (EText "view immature output is invalid") l seen 0 None) as Hloop. split.
  - intros (s' & p' & Hf). destruct (proj1 (Hloop s' t' zero_supply) (ex_intro _ p' Hf)) as (ops & H). exists ops.
    destruct H as (? & ? & ? & ? & _ & -> & ?). by split_and!.
  - intros (ops & H1 & H2 & H3 & H4 & -> & H5). exists (list_to_set ops ∪ seen).
    apply (proj2 (Hloop _ _ zero_supply)). exists ops. by split_and!.
Qed.

Lemma validateView_spec c r addresses lim :
  validateView c r addresses lim = Ok tt <-> exists ops iops ids, view_ok c r addresses lim ops iops ids.
Proof.
  unfold validateView. rewrite bind_check, tip_hash_ok by done. rewrite bind_check, bind_Ok. split.
  - intros (Hid & Htip & Ha & [s t] & Hout & Hrest). apply bool_decide_eq_true in Ha. apply view_outputs_loop in Hout as (ops & H1 & H2 & -> & H3 & H4).
    apply bind_check in Hrest as [Ht Hrest]. apply bind_Ok in Hrest as ([[s' t'] p'] & Him & Hrest).
    apply bind_check in Hrest as [Ht' Hrest]. apply bind_Ok in Hrest as (st & Hact & _).
    destruct (proj1 (view_immature_loop _ _ _ _ _ t') (ex_intro _ s' (ex_intro _ p' Him))) as (iops & H5 & H6 & H7 & H8 & H9 & H10).
    destruct (proj1 (activity_loop (tp_Height (vr_Tip r)) (coinbaseMaturity c) (vr_Activity r) ∅ zeroHash None (or_introl eq_refl)))
      as (ids & H11 & _); [by rewrite Hact|]. bool_prop.
    rename select ((_ =? _)%string = true) into Hnet. apply String.eqb_eq in Hnet.
    exists ops, iops, ids. split; try done; try lia. intros op Hop. specialize (H7 op Hop). set_solver.
  - intros (ops & iops & ids & []).
    assert (Hout : validateViewOutputs (vr_Outputs r) (list_to_set addresses) ∅ = Ok (list_to_set ops, vr_SpendableUnits r))
      by (apply view_outputs_loop; exists ops; by split_and!).
    destruct (proj2 (view_immature_loop (list_to_set addresses) (tp_Height (vr_Tip r)) (coinbaseMaturity c) (vr_ImmatureOutputs r)
                (list_to_set ops) (vr_ImmatureUnits r))) as (s' & p' & Him).
    { exists iops. split_and!; try done. intros op Hop. specialize (vk_disjoint0 op Hop). set_solver. }
    assert (Hact : is_ok (foldM (view_activity_step (tp_Height (vr_Tip r)) (coinbaseMaturity c)) (mkActivityState ∅ false None zeroHash None)
              (vr_Activity r)) = true) by (apply activity_loop; [by left|]; exists ids; split_and!; [done|set_solver|done]).
    split_and!; [|done|by apply bool_decide_eq_true|].
    + rewrite vk_schema0, vk_network0, vk_addresses0, vk_output_count0, String.eqb_refl, Nat.eqb_refl, !Z.gtb_ltb, !Z.eqb_refl,
        !(proj2 (Z.ltb_ge _ _)) by lia. done.
    + eexists. split; [exact Hout|]. apply bind_check. split; [apply Z.eqb_refl|]. apply bind_Ok. exists (s', vr_ImmatureUnits r, p').
      split; [done|]. apply bind_check. split; [apply Z.eqb_refl|]. destruct (foldM (view_activity_step _ _) _ _); done.
Qed.

(** * The messages of the light wallet survive their JSON

    The texts of the messages are plain and their numbers fit their types, so that a
    decoder reads back every message that gateway and client write. *)

(** ** Plain texts *)
Lemma hex_text_plain b : plain_text (hex_encode b) = true.
Proof.
  assert (Hd : forall d, 0 <= d < 16 -> plain_char (hex_digit d) = true).
  { intros d Hd. assert (Hall : forallb (fun d => plain_char (hex_digit d)) (seqZ 0 16) = true) by (vm_compute; reflexivity).
    rewrite forallb_forall in Hall. apply Hall, list_elem_of_In, elem_of_seqZ. lia. }
  unfold plain_text. induction b as [|x b IH]; [done|]. cbn [hex_encode flat_map app forallb]. pose proof (b2z_range x).
  rewrite !Hd by mlia. exact IH.
Qed.

Lemma b58char_plain d : 0 <= d < 58 -> plain_char (b58char d) = true.
Proof. apply (b58_all (fun d => plain_char (b58char d))). vm_compute. reflexivity. Qed.

Section addresses.
Context `{Crypto}.

Lemma address_chars pkh : exists ds, EncodeAddress pkh = reverse (b58char <$> ds) /\ Forall (fun d => 0 <= d < 58) ds /\
  (length ds <= 2 * (5 + length pkh))%nat.
Proof.
  unfold EncodeAddress, base58Encode. eexists. split; [rewrite app_nil_r; reflexivity|]. split.
  - apply b58_digits_range. apply be_val_bound.
  - assert (Hl : forall fuel x, (length (b58_digits fuel x) <= fuel)%nat).
    { induction fuel as [|fuel IH]; intros x; cbn [b58_digits]; [done|]. destruct (x >? 0); cbn; [|lia]. specialize (IH (x / 58)). lia. }
    etrans; [apply Hl|]. cbn [length app]. rewrite length_app, length_take. lia.
Qed.

Lemma address_plain pkh : plain_text (EncodeAddress pkh) = true.
Proof.
  destruct (address_chars pkh) as (ds & -> & Hds & _). unfold plain_text. apply forallb_forall. intros c Hc.
  apply list_elem_of_In, elem_of_reverse, list_elem_of_fmap in Hc as (d & -> & Hd). apply b58char_plain.
  rewrite list.Forall_forall in Hds. by apply Hds.
Qed.

Lemma DecodeAddress_length a pkh : DecodeAddress a = Ok pkh -> length pkh = 20%nat.
Proof.
  unfold DecodeAddress. intros Hd. apply bind_Ok in Hd as (raw & _ & Hd). destruct (_ || _); [done|]. destruct (negb _); [done|].
  apply Ok_inj in Hd as <-. apply length_to_array.
Qed.

Lemma valid_address_spec a : valid_address a = true <-> exists pkh, DecodeAddress a = Ok pkh /\ EncodeAddress pkh = a.
Proof.
  unfold valid_address. destruct (DecodeAddress a) as [pkh|].
  - rewrite bool_decide_eq_true. split; [by exists pkh|]. by intros (? & [= <-] & ?).
  - split; [done|]. by intros (? & ? & _).
Qed.

Lemma valid_address_plain a : valid_address a = true -> plain_text a = true /\ (length a <= 50)%nat.
Proof.
  intros (pkh & Hd & <-)%valid_address_spec. split; [apply address_plain|]. apply DecodeAddress_length in Hd.
  destruct (address_chars pkh) as (ds & -> & _ & Hl). rewrite length_reverse, length_fmap. lia.
Qed.
End addresses.

(** ** Reading fields *)
Ltac eval_names := repeat match goal with
  |- context [bool_decide (bs ?a = bs ?b)] =>
    let v := eval vm_compute in (bool_decide (bs a = bs b)) in change (bool_decide (bs a = bs b)) with v end.
Ltac read_fields := unfold field, object; cbn [map fst snd assoc]; eval_names; cbn [mbind option_bind].

Lemma as_text_text s : as_text (text s) = Some s.
Proof. cbn. by rewrite String.string_of_list_byte_of_string. Qed.
Lemma as_int64_int z : in_i64 z -> as_int64 (VInt z) = Some z.
Proof. intros [? ?]. cbn. rewrite (proj2 (Z.leb_le _ _)), (proj2 (Z.ltb_lt _ _)) by done. done. Qed.
Lemma as_uint32_int z : in_u32 z -> as_uint32 (VInt z) = Some z.
Proof. intros [? ?]. cbn. rewrite (proj2 (Z.leb_le _ _)), (proj2 (Z.ltb_lt _ _)) by done. done. Qed.
Lemma as_list_map {A} (read : value -> option A) (show : A -> value) l :
  Forall (fun a => read (show a) = Some a) l -> as_list read (VArray (map show l)) = Some l.
Proof. cbn. induction 1 as [|a l Ha _ IH]; [done|]. cbn. by rewrite Ha, IH. Qed.
Lemma as_texts l : as_list as_bytes (texts l) = Some l.
Proof. apply as_list_map. by apply list.Forall_forall. Qed.

(** ** Messages *)
Definition output_typed (o : SnapshotOutput) : Prop := in_u32 (lo_Vout o) /\ in_i64 (lo_AmountUnits o).
Definition immature_typed (o : ViewImmatureOutput) : Prop :=
  in_u32 (vi_Vout o) /\ in_i64 (vi_AmountUnits o) /\ in_i64 (vi_BlockHeight o) /\ in_i64 (vi_Confirmations o).
Definition activity_typed (a : ViewActivityItem) : Prop :=
  in_i64 (va_NetUnits a) /\ in_i64 (va_BlockHeight a) /\ in_i64 (va_Confirmations a) /\ in_i64 (va_BlocksUntilMature a).
Record view_typed (r : ViewResponse) : Prop := {
  vt_schema : in_i64 (vr_SchemaVersion r); vt_tip : in_i64 (tp_Height (vr_Tip r));
  vt_outputs : Forall output_typed (vr_Outputs r); vt_units : in_i64 (vr_SpendableUnits r);
  vt_count : in_i64 (vr_SpendableOutputCount r); vt_immature : Forall immature_typed (vr_ImmatureOutputs r);
  vt_iunits : in_i64 (vr_ImmatureUnits r); vt_activity : Forall activity_typed (vr_Activity r);
}.

Lemma output_read o : output_typed o -> from_json (to_json o) = Some o.
Proof. intros [? ?]. cbn [to_json from_json SnapshotOutput_json]. read_fields. rewrite as_uint32_int, as_int64_int by done. by destruct o. Qed.
Lemma immature_read o : immature_typed o -> from_json (to_json o) = Some o.
Proof. intros (? & ? & ? & ?). cbn [to_json from_json ViewImmatureOutput_json]. read_fields. rewrite as_uint32_int, !as_int64_int by done. by destruct o. Qed.
Lemma activity_read a : activity_typed a -> from_json (to_json a) = Some a.
Proof. intros (? & ? & ? & ?). cbn [to_json from_json ViewActivityItem_json]. read_fields. rewrite !as_text_text, !as_int64_int by done. by destruct a. Qed.
Lemma tip_read t : in_i64 (tp_Height t) -> from_json (to_json t) = Some t.
Proof. intros ?. cbn [to_json from_json WalletTip_json]. read_fields. rewrite as_int64_int by done. by destruct t. Qed.
Lemma view_read r : view_typed r -> from_json (to_json r) = Some r.
Proof.
  intros []. cbn [to_json from_json ViewResponse_json]. read_fields. rewrite !as_text_text, as_texts, !as_int64_int, tip_read by done.
  rewrite !as_list_map by (eapply Forall_impl; [eassumption|]; intros ?; apply output_read || apply immature_read || apply activity_read).
  by destruct r.
Qed.
Lemma view_request_read r : in_i64 (vq_ActivityLimit r) -> from_json (to_json r) = Some r.
Proof. intros ?. cbn [to_json from_json ViewRequest_json]. read_fields. rewrite as_texts, as_int64_int by done. by destruct r. Qed.
Lemma error_read r : in_i64 (er_SchemaVersion r) -> from_json (to_json r) = Some r.
Proof. intros ?. cbn [to_json from_json ErrorResponse_json]. read_fields. rewrite !as_text_text, as_int64_int by done. by destruct r. Qed.
Lemma broadcast_request_read (r : BroadcastRequest) : from_json (to_json r) = Some r.
Proof. cbn [to_json from_json BroadcastRequest_json]. read_fields. by destruct r. Qed.
Lemma broadcast_read r : in_i64 (br_SchemaVersion r) -> in_i64 (br_PeerWrites r) -> from_json (to_json r) = Some r.
Proof. intros ? ?. cbn [to_json from_json BroadcastResponse_json]. read_fields. rewrite !as_text_text, !as_int64_int by done. by destruct r. Qed.

(** ** Plain messages *)
Ltac plain_names := repeat match goal with
  |- context [plain_text (bs ?a)] => is_var a; fail 1
  | |- context [plain_text (bs ?a)] =>
    let v := eval vm_compute in (plain_text (bs a)) in
    match v with true => idtac end;
    replace (plain_text (bs a)) with true by (vm_compute; reflexivity) end.
Ltac plain_fields := unfold object, texts, text; cbn [map fst snd plain_value forallb]; plain_names; cbn [andb].

Lemma plain_texts l : Forall (fun s => plain_text s = true) l -> forallb plain_value (map VText l) = true.
Proof. induction 1 as [|s l Hs _ IH]; [done|]. cbn. by rewrite Hs, IH. Qed.
Lemma plain_list {A} (show : A -> value) l : Forall (fun a => plain_value (show a) = true) l -> forallb plain_value (map show l) = true.
Proof. induction 1 as [|s l Hs _ IH]; [done|]. cbn. by rewrite Hs, IH. Qed.
Lemma plain_int z : in_i64 z -> plain_value (VInt z) = true.
Proof. intros Hz. cbn. by apply bool_decide_eq_true. Qed.
Lemma u32_in_i64 z : in_u32 z -> in_i64 z.
Proof. unfold in_u32, in_i64, two32, two63. lia. Qed.

Definition output_plain (o : SnapshotOutput) : Prop := plain_text (lo_TxID o) = true /\ plain_text (lo_Address o) = true.
Definition immature_plain (o : ViewImmatureOutput) : Prop := plain_text (vi_TxID o) = true /\ plain_text (vi_Address o) = true.
Definition activity_plain (a : ViewActivityItem) : Prop :=
  plain_text (va_TxID a) = true /\ plain_text (bs (va_Kind a)) = true /\ plain_text (bs (va_Status a)) = true.

Lemma output_plain_json o : output_typed o -> output_plain o -> plain_value (to_json o) = true.
Proof.
  intros [Hv Ha] [Ht Hd]. cbn [to_json SnapshotOutput_json]. plain_fields. rewrite Ht, Hd.
  rewrite !bool_decide_eq_true_2 by (done || by apply u32_in_i64). done.
Qed.
Lemma immature_plain_json o : immature_typed o -> immature_plain o -> plain_value (to_json o) = true.
Proof.
  intros (Hv & Ha & Hh & Hc) [Ht Hd]. cbn [to_json ViewImmatureOutput_json]. plain_fields. rewrite Ht, Hd.
  rewrite !bool_decide_eq_true_2 by (done || by apply u32_in_i64). done.
Qed.
Lemma activity_plain_json a : activity_typed a -> activity_plain a -> plain_value (to_json a) = true.
Proof.
  intros (Hn & Hh & Hc & Hb) (Ht & Hk & Hs). cbn [to_json ViewActivityItem_json]. unfold object, text. cbn [map fst snd plain_value forallb].
  rewrite Ht, Hk, Hs. rewrite !bool_decide_eq_true_2 by done. vm_compute. reflexivity.
Qed.

Record view_plain (r : ViewResponse) : Prop := {
  vl_network : plain_text (bs (vr_Network r)) = true; vl_tip : plain_text (tp_Hash (vr_Tip r)) = true;
  vl_addresses : Forall (fun s => plain_text s = true) (vr_Addresses r); vl_outputs : Forall output_plain (vr_Outputs r);
  vl_immature : Forall immature_plain (vr_ImmatureOutputs r); vl_activity : Forall activity_plain (vr_Activity r);
}.

Lemma Forall_and2 {A} (P Q R : A -> Prop) l : (forall a, P a -> Q a -> R a) -> Forall P l -> Forall Q l -> Forall R l.
Proof. intros H HP HQ. induction HP; inv HQ; constructor; auto. Qed.

Lemma view_plain_json r : view_typed r -> view_plain r -> plain_value (to_json r) = true.
Proof.
  intros [] []. cbn [to_json ViewResponse_json]. unfold object, text, texts. cbn [map fst snd plain_value forallb].
  cbn [to_json WalletTip_json]. unfold object. cbn [map fst snd plain_value forallb].
  rewrite vl_network0, vl_tip0, plain_texts by done.
  rewrite (plain_list (A := SnapshotOutput)) by (apply (Forall_and2 output_typed output_plain); [apply output_plain_json|done|done]).
  rewrite (plain_list (A := ViewImmatureOutput)) by (apply (Forall_and2 immature_typed immature_plain); [apply immature_plain_json|done|done]).
  rewrite (plain_list (A := ViewActivityItem)) by (apply (Forall_and2 activity_typed activity_plain); [apply activity_plain_json|done|done]).
  rewrite !bool_decide_eq_true_2 by done. vm_compute. reflexivity.
Qed.

Lemma view_request_plain r : in_i64 (vq_ActivityLimit r) -> Forall (fun s => plain_text s = true) (vq_Addresses r) ->
  plain_value (to_json r) = true.
Proof.
  intros Hl Ha. cbn [to_json ViewRequest_json]. unfold object, texts. cbn [map fst snd plain_value forallb].
  rewrite plain_texts by done. rewrite bool_decide_eq_true_2 by done. vm_compute. reflexivity.
Qed.
Lemma error_plain r : in_i64 (er_SchemaVersion r) -> plain_text (bs (er_Network r)) = true -> plain_text (bs (er_ErrorCode r)) = true ->
  plain_value (to_json r) = true.
Proof.
  intros Hs Hn Hc. cbn [to_json ErrorResponse_json]. unfold object, text. cbn [map fst snd plain_value forallb].
  rewrite Hn, Hc. rewrite bool_decide_eq_true_2 by done. vm_compute. reflexivity.
Qed.
Lemma broadcast_request_plain r : plain_text (bq_TransactionHex r) = true -> plain_text (bq_ExpectedTxID r) = true ->
  plain_value (to_json r) = true.
Proof.
  intros Ht He. cbn [to_json BroadcastRequest_json]. unfold object. cbn [map fst snd plain_value forallb].
  rewrite Ht, He. vm_compute. reflexivity.
Qed.
Lemma broadcast_plain r : in_i64 (br_SchemaVersion r) -> in_i64 (br_PeerWrites r) -> plain_text (bs (br_Network r)) = true ->
  plain_text (br_TxID r) = true -> plain_text (bs (br_Admission r)) = true -> plain_text (bs (br_Status r)) = true ->
  plain_value (to_json r) = true.
Proof.
  intros Hs Hw Hn Ht Ha Hu. cbn [to_json BroadcastResponse_json]. unfold object, text. cbn [map fst snd plain_value forallb].
  rewrite Hn, Ht, Ha, Hu. rewrite !bool_decide_eq_true_2 by done. vm_compute. reflexivity.
Qed.

(** ** Sizes *)
Lemma length_commas_le l : (length (commas l) <= sum_list_with (fun s => S (length s)) l)%nat.
Proof.
  induction l as [|a l IH]; [done|]. cbn [commas sum_list_with]. destruct l as [|b l]; [lia|]. rewrite length_app. cbn [length]. lia.
Qed.

Lemma length_dec_string z : (length (dec_string z) <= 20)%nat.
Proof.
  unfold dec_string. assert (H : forall fuel n acc, (length (dec_digits fuel n acc) <= fuel + length acc)%nat).
  { induction fuel as [|fuel IH]; intros n acc; cbn [dec_digits]; [lia|]. destruct (n <? 10); [cbn; lia|]. etrans; [apply IH|]. cbn. lia. }
  etrans; [apply H|]. done.
Qed.
Lemma length_print_int z : (length (print_int z) <= 21)%nat.
Proof. unfold print_int. destruct (z <? 0); [pose proof (length_dec_string (- z))|pose proof (length_dec_string z)]; cbn [length]; lia. Qed.

Lemma length_texts l n : Forall (fun s => (length s <= n)%nat) l -> (length (print (texts l)) <= 2 + (n + 3) * length l)%nat.
Proof.
  intros Hl. cbn [texts print length]. rewrite length_app, map_map. cbn [length].
  pose proof (length_commas_le (map (fun s => print (VText s)) l)) as Hc. rewrite sum_list_with_map in Hc.
  cut (sum_list_with (fun s => S (length (print (VText s)))) l <= (n + 3) * length l)%nat; [lia|].
  clear Hc. induction Hl as [|s l Hs _ IH]; [cbn; lia|]. cbn [sum_list_with length].
  assert (length (print (VText s)) = 2 + length s)%nat by (cbn [print quoted length]; rewrite length_app; cbn [length]; lia).
  rewrite Nat.mul_succ_r. lia.
Qed.

(** The request of a wallet always fits. *)
Lemma view_request_size r : (length (vq_Addresses r) <= 100)%nat -> Forall (fun s => (length s <= 50)%nat) (vq_Addresses r) ->
  Z.of_nat (length (Marshal r)) <= MaxRequestBytes.
Proof.
  intros Hn Hl. unfold Marshal. cbn [to_json ViewRequest_json]. unfold object. cbn [map fst snd print commas length].
  rewrite !length_app. pose proof (length_texts _ _ Hl) as Ht. pose proof (length_print_int (vq_ActivityLimit r)) as Hi.
  cbn [length quoted app]. rewrite ?length_app. cbn [length]. rewrite ?length_app. cbn [length].
  change (length (bs "addresses")) with 9%nat. change (length (bs "activity_limit")) with 14%nat. unfold MaxRequestBytes. lia.
Qed.

Lemma length_object l : (length (print (object l)) <= 2 + sum_list_with (fun f => 4 + length (bs (fst f)) + length (print (snd f))) l)%nat.
Proof.
  cbn [object print length]. rewrite length_app, map_map. cbn [length fst snd].
  pose proof (length_commas_le (map (fun f => quoted (bs (fst f)) ++ colon :: print (snd f)) l)) as Hc. rewrite sum_list_with_map in Hc.
  cut (sum_list_with (fun f => S (length (quoted (bs (fst f)) ++ colon :: print (snd f)))) l <=
       sum_list_with (fun f => 4 + length (bs (fst f)) + length (print (snd f))) l)%nat; [lia|].
  apply sum_list_with_mono, list.Forall_forall. intros [n v] _. cbn [fst snd]. unfold quoted. rewrite length_app. cbn [length]. rewrite length_app. cbn [length]. lia.
Qed.
Lemma length_text s : length (print (VText s)) = (2 + length s)%nat.
Proof. cbn [print]. unfold quoted. cbn [length]. rewrite length_app. cbn [length]. lia. Qed.

Lemma broadcast_request_size r : Z.of_nat (length (bq_TransactionHex r)) <= 20000 -> (length (bq_ExpectedTxID r) <= 64)%nat ->
  Z.of_nat (length (Marshal r)) <= MaxRequestBytes.
Proof.
  intros Ht He. unfold Marshal. cbn [to_json BroadcastRequest_json]. etrans; [apply inj_le, length_object|].
  cbn [sum_list_with fst snd]. rewrite !length_text. change (length (bs "tx_hex")) with 6%nat. change (length (bs "expected_txid")) with 13%nat.
  unfold MaxRequestBytes. lia.
Qed.

Lemma broadcast_size r : (length (bs (br_Network r)) <= 100)%nat -> (length (br_TxID r) <= 64)%nat ->
  (length (bs (br_Admission r)) <= 100)%nat -> (length (bs (br_Status r)) <= 100)%nat ->
  Z.of_nat (length (Encode r)) <= MaxResponseBytes.
Proof.
  intros Hn Ht Ha Hs. unfold Encode, Marshal. rewrite length_app. cbn [to_json BroadcastResponse_json length]. etrans; [apply inj_le, Nat.add_le_mono_r, length_object|].
  cbn [sum_list_with fst snd]. unfold text. rewrite !length_text. cbn [print]. pose proof (length_print_int (br_SchemaVersion r)). pose proof (length_print_int (br_PeerWrites r)).
  change (length (bs "schema_version")) with 14%nat. change (length (bs "network")) with 7%nat. change (length (bs "txid")) with 4%nat.
  change (length (bs "admission")) with 9%nat. change (length (bs "status")) with 6%nat. change (length (bs "peer_writes")) with 11%nat.
  unfold MaxResponseBytes. lia.
Qed.

(** Every output of a view takes at least 115 bytes, the separator included. *)
Lemma print_int_nonempty z : (1 <= length (print_int z))%nat.
Proof. destruct (print_int_first z) as (c & s & -> & _). cbn. lia. Qed.

Lemma output_length o : length (lo_TxID o) = 64%nat -> (115 <= S (length (print (to_json o))))%nat.
Proof.
  intros Ht. pose proof (print_int_nonempty (lo_Vout o)). pose proof (print_int_nonempty (lo_AmountUnits o)).
  cbn [to_json SnapshotOutput_json]. unfold object. cbn [map fst snd print commas]. unfold quoted. repeat (rewrite length_app || cbn [length]).
  change (length (bs "txid")) with 4%nat. change (length (bs "vout")) with 4%nat. change (length (bs "amount_units")) with 12%nat.
  change (length (bs "address")) with 7%nat. lia.
Qed.

Lemma length_commas_eq l : l <> [] -> S (length (commas l)) = sum_list_with (fun s => S (length s)) l.
Proof.
  induction l as [|a l IH]; [done|]. intros _. cbn [commas sum_list_with]. destruct l as [|b l]; [cbn; lia|].
  rewrite length_app. cbn [length]. specialize (IH ltac:(done)). lia.
Qed.

Lemma view_length r : Forall (fun o => length (lo_TxID o) = 64%nat) (vr_Outputs r) ->
  115 * Z.of_nat (length (vr_Outputs r)) <= Z.of_nat (length (Encode r)).
Proof.
  intros Ho. destruct (decide (vr_Outputs r = [])) as [->|Hne]; [cbn [length]; lia|].
  assert (Hl : (115 * length (vr_Outputs r) <= length (print (VArray (map to_json (vr_Outputs r)))))%nat).
  { cbn [print length]. rewrite length_app, map_map. cbn [length].
    pose proof (length_commas_eq (map (fun o => print (to_json o)) (vr_Outputs r)) ltac:(by destruct (vr_Outputs r))) as Hc.
    rewrite sum_list_with_map in Hc. cut (115 * length (vr_Outputs r) <= sum_list_with (fun o => S (length (print (to_json o)))) (vr_Outputs r))%nat; [lia|].
    clear Hc Hne. induction Ho as [|o l H1 _ IH]; [done|]. cbn [sum_list_with length]. pose proof (output_length o H1). lia. }
  unfold Encode, Marshal. rewrite length_app. cbn [to_json ViewResponse_json]. unfold object. cbn [map fst snd].
  set (outs := VArray (map to_json (vr_Outputs r))) in *.
  cbn [print commas map fst snd]. repeat (rewrite length_app || cbn [length]). lia.
Qed.
