(* ===== verification/LightTheorems.v ===== *)
(** * Gateway and client together

    The client talks to the gateway of an honest node: what the gateway shows of a
    reachable chain passes every check of the client, and is exactly what the UTXO set
    says. *)
From S2P Require Import Prelude Text Params Crypto Pow Wire Merkle Address Chain Ledger ChainInv.
From S2P Require Import ChainView WalletView WalletViewProofs Wallet WalletSnapshot WalletProofs.
From S2P Require Import WalletSendProofs Toy GoStrings FileTree GoJson WalletViewFacts LightGateway.
From S2P Require Import LightClient LightProofs.

Section service.
Context `{Crypto} `{JsonDecoder}.

(** The exchange with a gateway whose node is in state [c]. *)
Definition gateway_do (g : Gateway) (path : string) (body : bytes) : prog Chain http_response := fun c =>
  let '(c, response) := ServeHTTP g c (mkHttpRequest "POST" path "" (Some "application/json"%string) body) in (c, Ok response).

(** ** What the gateway shows *)
Definition shown (so : SpendableOutputSnapshot) : SnapshotOutput :=
  mkSnapshotOutput (hex_encode (op_TxID (so_OutPoint so))) (op_Idx (so_OutPoint so)) (so_AmountUnits so) (EncodeAddress (so_OwnerPKH so)).
Definition shown_immature (io : ImmatureOutputSnapshot) : ViewImmatureOutput :=
  mkViewImmature (hex_encode (op_TxID (io_OutPoint io))) (op_Idx (io_OutPoint io)) (io_AmountUnits io) (EncodeAddress (io_OwnerPKH io))
    (io_BlockHeight io) (io_Confirmations io).
Definition shown_activity (a : WalletActivityItem) : ViewActivityItem :=
  mkViewActivity (hex_encode (wa_TxID a)) (kind_text (wa_Kind a)) (status_text (wa_Status a)) (wa_NetUnits a) (wa_BlockHeight a)
    (wa_Confirmations a) (wa_BlocksUntilMature a).
Definition shown_view (network : string) (addresses : list bytes) (view : WalletViewSnapshot) : ViewResponse :=
  mkViewResponse SchemaVersion network (mkWalletTip (hex_encode (ts_Hash (wv_Tip view))) (ts_Height (wv_Tip view))) addresses
    (shown <$> wv_SpendableOutputs view) (wv_SpendableUnits view) (Z.of_nat (length (wv_SpendableOutputs view)))
    (shown_immature <$> wv_ImmatureOutputs view) (wv_ImmatureUnits view) (shown_activity <$> wv_Activity view).

(** ** Addresses *)
Definition address_of (a pkh : bytes) : Prop := DecodeAddress a = Ok pkh /\ EncodeAddress pkh = a.

Lemma canonicalPKHs_spec addresses pkhs : canonicalPKHs addresses = Ok pkhs -> Forall2 address_of addresses pkhs.
Proof.
  unfold canonicalPKHs. destruct (_ =? _)%nat; [done|]. intros Hc. apply bind_Ok in Hc as ([prev l] & Hf & [= ->]).
  assert (Hgen : forall l st st', foldM canonical_pkh st l = Ok st' -> exists new, st'.2 = st.2 ++ new /\ Forall2 address_of l new).
  { induction l as [|a l IH]; intros st st' Hs; cbn [foldM] in Hs; [simplify_eq; exists []; by rewrite app_nil_r|].
    destruct (canonical_pkh st a) as [st1|] eqn:E; [|done]. destruct (IH _ _ Hs) as (new & Hn & Hall).
    destruct st as [p ks]. unfold canonical_pkh in E. destruct (match p with Some _ => _ | None => _ end); [done|].
    destruct (DecodeAddress a) as [k|] eqn:Ed; [|done]. destruct (bool_decide _) eqn:Ee; [|done]. apply bool_decide_eq_true in Ee.
    apply Ok_inj in E as <-. exists (k :: new). split; [rewrite Hn; cbn; by rewrite <- app_assoc|by constructor]. }
  destruct (Hgen _ _ _ Hf) as (new & Hn & Hall). cbn in Hn. by subst.
Qed.

Lemma canonicalPKHs_Ok addresses : addresses <> [] -> StronglySorted (fun a b => bytes_compare a b = Lt) addresses ->
  Forall (fun a => valid_address a = true) addresses -> exists pkhs, canonicalPKHs addresses = Ok pkhs.
Proof.
  intros Hne Hs Hv. unfold canonicalPKHs. destruct (Nat.eqb_spec (length addresses) 0) as [E|_]; [by destruct addresses|].
  assert (Hgen : forall l prev ks, StronglySorted (fun a b => bytes_compare a b = Lt) (option_list prev ++ l) ->
            Forall (fun a => valid_address a = true) l -> exists st, foldM canonical_pkh (prev, ks) l = Ok st).
  { induction l as [|a l IH]; intros prev ks Hsl Hvl; [by eexists|]. inv Hvl as [|? ? Ha Hvl']. cbn [foldM]. unfold canonical_pkh at 1.
    apply valid_address_spec in Ha as (k & Hd & He). rewrite Hd, bool_decide_eq_true_2 by done.
    replace (match prev with Some p => bool_decide (bytes_le a p) | None => false end) with false.
    - apply IH; [|done]. destruct prev; cbn in *; [by inv Hsl|done].
    - destruct prev as [p|]; [|done]. cbn in Hsl. inv Hsl as [|? ? _ Hall]. inv Hall. symmetry. apply bool_decide_eq_false, bytes_not_le. done. }
  destruct (Hgen addresses None [] Hs Hv) as [[prev ks] Hf]. exists ks. by rewrite Hf.
Qed.

Lemma adjacent_equal_NoDup l : Sorted bytes_le l -> adjacent_equal l = false -> StronglySorted (fun a b => bytes_compare a b = Lt) l.
Proof.
  intros Hs Ha. apply Sorted_StronglySorted; [by intros a b c; apply bytes_compare_lt_trans|].
  induction Hs as [|a l Hs IH Hd]; [constructor|]. destruct l as [|b l]; [by repeat constructor|]. cbn [adjacent_equal] in Ha.
  apply orb_false_iff in Ha as [Hab Ha]. apply bool_decide_eq_false in Hab. constructor; [by apply IH|]. constructor.
  inv Hd as [|? ? Hle]. unfold bytes_le in Hle. destruct (bytes_compare a b) eqn:E; [|done..]. by apply bytes_compare_eq in E.
Qed.

Lemma canonicalClientAddresses_spec addresses canonical : canonicalClientAddresses addresses = Ok canonical ->
  canonical ≡ₚ addresses /\ addresses <> [] /\ (length addresses <= 100)%nat /\ Forall (fun a => valid_address a = true) canonical /\
  StronglySorted (fun a b => bytes_compare a b = Lt) canonical.
Proof.
  unfold canonicalClientAddresses. intros Hc. apply bind_check in Hc as [Hn Hc]. apply bind_check in Hc as [Hv Hc].
  apply bind_check in Hc as [Ha Hc]. apply Ok_inj in Hc as <-. bool_prop. apply Nat.eqb_neq in H1. unfold MaxSnapshotAddresses in *.
  split_and!; [apply merge_sort_Permutation|by intros ->|lia| |].
  - rewrite merge_sort_Permutation. apply list.Forall_forall. intros a Hin. rewrite forallb_forall in Hv. by apply Hv, list_elem_of_In.
  - apply adjacent_equal_NoDup; [apply (Sorted_merge_sort bytes_le)|done].
Qed.

(** ** The loops of the gateway succeed *)
Section loops.
Context (addresses pkhs : list bytes) (Haddr : Forall2 address_of addresses pkhs).

Lemma output_owner_Ok index pkh amount : 0 <= index < Z.of_nat (length pkhs) -> pkhs !! Z.to_nat index = Some pkh ->
  0 < amount <= MaxMoneyUnits -> output_owner addresses pkhs index pkh amount = Ok (EncodeAddress pkh).
Proof.
  intros Hi Hp Ha. unfold output_owner. rewrite (Forall2_length _ _ _ Haddr), bool_decide_eq_true_2 by done.
  rewrite Z.geb_leb, (proj2 (Z.leb_gt _ _)), (proj2 (Z.leb_gt _ _)), (proj2 (MoneyRange_spec amount)) by lia. cbn [orb negb].
  destruct (Forall2_lookup_r _ _ _ _ _ Haddr Hp) as (a & -> & _ & ->). done.
Qed.

Lemma next_output_Ok total previous op amount : before previous op -> total + amount <= MaxMoneyUnits ->
  next_output total previous op amount = Ok (total + amount, Some op).
Proof.
  intros Hb Ht. unfold next_output. assert (Hx : match previous with Some p => strictly_before p (op_TxID op) (op_Idx op) | None => true end = true)
    by (apply before_spec; by destruct op). replace (match previous with Some p => negb _ | None => false end) with false
    by (destruct previous; [by rewrite Hx|done]). rewrite Z.gtb_ltb, (proj2 (Z.ltb_ge _ _)) by lia. done.
Qed.

(** The owner of an output is one of the addresses, and its amount is possible. *)
Definition owned (index : Z) (pkh : bytes) (amount : Z) : Prop :=
  0 <= index < Z.of_nat (length pkhs) /\ pkhs !! Z.to_nat index = Some pkh /\ 0 < amount <= MaxMoneyUnits.

Lemma spendable_fold l : forall total previous outs,
  Forall (fun so => owned (so_OwnerIndex so) (so_OwnerPKH so) (so_AmountUnits so)) l ->
  ascending_from previous (so_OutPoint <$> l) -> total + sumZ (so_AmountUnits <$> l) <= MaxMoneyUnits ->
  exists p, foldM (spendable_output addresses pkhs) (total, previous, outs) l
    = Ok (total + sumZ (so_AmountUnits <$> l), p, outs ++ (shown <$> l)).
Proof.
  induction l as [|so l IH]; intros total previous outs Ho Hasc Hm; cbn [foldM].
  { exists previous. cbn. by rewrite Z.add_0_r, app_nil_r. }
  inv Ho as [|? ? (Hi & Hp & Ha) Ho']. cbn in Hasc, Hm. apply ascending_from_cons in Hasc as [Hb Hasc].
  assert (0 <= sumZ (so_AmountUnits <$> l)).
  { clear -Ho'. induction Ho' as [|x l (_ & _ & ?) _ IH]; cbn; lia. }
  unfold spendable_output at 1. rewrite output_owner_Ok by done. cbn [mbind result_bind].
  rewrite next_output_Ok by (done || lia). cbn [mbind result_bind].
  destruct (IH (total + so_AmountUnits so) (Some (so_OutPoint so)) (outs ++ [shown so])) as [p Hf]; [done|done|lia|].
  exists p. etrans; [exact Hf|]. cbn. rewrite <- app_assoc. do 3 f_equal. lia.
Qed.

Lemma immature_fold tip maturity l : forall total previous outs,
  Forall (fun io => owned (io_OwnerIndex io) (io_OwnerPKH io) (io_AmountUnits io) /\ 0 <= io_BlockHeight io <= tip /\
                    io_Confirmations io = tip - io_BlockHeight io + 1 /\ io_Confirmations io < maturity) l ->
  ascending_from previous (io_OutPoint <$> l) -> total + sumZ (io_AmountUnits <$> l) <= MaxMoneyUnits ->
  exists p, foldM (immature_output addresses pkhs tip maturity) (total, previous, outs) l
    = Ok (total + sumZ (io_AmountUnits <$> l), p, outs ++ (shown_immature <$> l)).
Proof.
  induction l as [|io l IH]; intros total previous outs Ho Hasc Hm; cbn [foldM].
  { exists previous. cbn. by rewrite Z.add_0_r, app_nil_r. }
  inv Ho as [|? ? ((Hi & Hp & Ha) & Hh & Hc & Hmat) Ho']. cbn in Hasc, Hm. apply ascending_from_cons in Hasc as [Hb Hasc].
  assert (0 <= sumZ (io_AmountUnits <$> l)).
  { clear -Ho'. induction Ho' as [|x l [(_ & _ & ?) _] _ IH]; cbn; lia. }
  unfold immature_output at 1. rewrite output_owner_Ok by done. cbn [mbind result_bind].
  rewrite !Z.gtb_ltb, Z.geb_leb, Hc, Z.eqb_refl, (proj2 (Z.ltb_ge _ 0)), (proj2 (Z.ltb_ge _ _)), (proj2 (Z.leb_gt _ _)) by lia.
  cbn [negb orb check mbind result_bind]. rewrite next_output_Ok by (done || lia). cbn [mbind result_bind].
  destruct (IH (total + io_AmountUnits io) (Some (io_OutPoint io)) (outs ++ [shown_immature io])) as [p Hf]; [done|done|lia|].
  exists p. unfold shown_immature in Hf at 1. rewrite <- Hc at 1. etrans; [exact Hf|]. cbn. rewrite <- app_assoc. do 3 f_equal. lia.
Qed.

Lemma activity_fold tip maturity l : forall outs, Forall (fun a => validGatewayActivity a tip maturity = true) l ->
  foldM (fun l item => a ← activity_output tip maturity item; Ok (l ++ [a])) outs l = Ok (outs ++ (shown_activity <$> l)).
Proof.
  induction l as [|a l IH]; intros outs Hv; cbn [foldM]; [by rewrite app_nil_r|]. inv Hv as [|? ? Ha Hv'].
  unfold activity_output at 1. rewrite Ha. cbn [mbind result_bind]. rewrite IH by done. cbn. by rewrite <- app_assoc.
Qed.
End loops.

(** ** The view of a reachable chain *)
Section view.
Context `{!CryptoLaws} (p : Params) (c : Chain) (g : Gateway) (addresses pkhs : list bytes) (lim : Z) (view : WalletViewSnapshot).
Context (Hpow : pow_params_ok p) (Hinv : chain_inv p c) (Hnet : CanonicalNetworkID (Some (c_params c)) = Ok (g_network g)).
Context (Haddr : Forall2 address_of addresses pkhs) (Hlim : 0 <= lim <= MaxWalletActivityLimit).
Context (Hview : WalletViewForPKHs c pkhs lim = Ok view).
Context (Hcount : Z.of_nat (length (wv_SpendableOutputs view)) <= MaxSnapshotOutputs).
Context (Hicount : Z.of_nat (length (wv_ImmatureOutputs view)) <= MaxSnapshotOutputs).
Context (Hactivity : Forall (fun a => validGatewayActivity a (bi_height (c_tip c)) (CoinbaseMaturity (c_params c)) = true) (wv_Activity view)).

Lemma view_owners : exists owners, walletOwners pkhs true = Ok owners /\ view_facts owners c lim view.
Proof.
  clear Hactivity Hcount Hicount. unfold WalletViewForPKHs in Hview. destruct (_ || _); [done|]. apply bind_Ok in Hview as (owners & Ho & Hv).
  exists owners. split; [done|]. by apply (walletView_facts owners p).
Qed.

Lemma view_spendable_owned : Forall (fun so => owned pkhs (so_OwnerIndex so) (so_OwnerPKH so) (so_AmountUnits so)) (wv_SpendableOutputs view).
Proof.
  destruct view_owners as (owners & Ho & Hf). apply list.Forall_forall. intros so Hso. apply (vf_spendable _ _ _ _ Hf) in Hso as (e & He & -> & -> & Hi & _).
  destruct (walletOwners_index _ _ _ _ _ Ho Hi) as [? ?]. split_and!; try done. all: apply (inv_utxo_ok p c Hinv) in He; lia.
Qed.

Lemma view_immature_owned : Forall (fun io => owned pkhs (io_OwnerIndex io) (io_OwnerPKH io) (io_AmountUnits io) /\
  0 <= io_BlockHeight io <= bi_height (c_tip c) /\ io_Confirmations io = bi_height (c_tip c) - io_BlockHeight io + 1 /\
  io_Confirmations io < CoinbaseMaturity (c_params c)) (wv_ImmatureOutputs view).
Proof.
  destruct view_owners as (owners & Ho & Hf). apply list.Forall_forall. intros io Hio.
  apply (vf_immature _ _ _ _ Hf) in Hio as [(e & He & -> & -> & Hi & _ & Hh & Hc & Hm) Hr]. rewrite Hh in *.
  destruct (walletOwners_index _ _ _ _ _ Ho Hi) as [? ?]. split_and!; try done; try lia. split_and!; try done. all: apply (inv_utxo_ok p c Hinv) in He; lia.
Qed.

Lemma view_response_shown : view_response g c (mkViewRequest addresses lim) pkhs = Ok (shown_view (g_network g) addresses view).
Proof.
  destruct view_owners as (owners & _ & [Hn Htn Hco [Hh Hh0] _ _ [Hu Hum] Hso _ [Hiu Hium] Hiso _ _ [Hal _]]).
  rewrite Hnet in Hn. apply Ok_inj in Hn. unfold view_response. cbn [vq_ActivityLimit vq_Addresses]. rewrite Hview, Hco, Htn, <- Hn, Hh.
  rewrite !bool_decide_eq_true_2, !Z.gtb_ltb, !(proj2 (Z.ltb_ge _ _)) by (done || lia). cbn [negb orb check mbind result_bind].
  destruct (spendable_fold addresses pkhs Haddr (wv_SpendableOutputs view) 0 None []) as [ps Hs];
    [apply view_spendable_owned|done|rewrite Z.add_0_l, <- Hu; done|]. rewrite Hs. cbn [mbind result_bind].
  rewrite Z.add_0_l, <- Hu, Z.eqb_refl. cbn [check mbind result_bind].
  destruct (immature_fold addresses pkhs Haddr (bi_height (c_tip c)) (CoinbaseMaturity (c_params c)) (wv_ImmatureOutputs view) 0 None []) as [pi Hi];
    [apply view_immature_owned|done|rewrite Z.add_0_l, <- Hiu; done|]. rewrite Hi. cbn [mbind result_bind].
  rewrite Z.add_0_l, <- Hiu, Z.eqb_refl. cbn [check mbind result_bind]. rewrite activity_fold by done. cbn [mbind result_bind].
  unfold shown_view. by rewrite Hh.
Qed.

(** ** The client accepts it *)
Context (Htip : bi_height (c_tip c) < max_int64) (Hids : NoDup (wa_TxID <$> wv_Activity view)).

Lemma network_maturity net : CanonicalNetworkID (Some (c_params c)) = Ok net -> forall cl, cl_network cl = net ->
  coinbaseMaturity cl = CoinbaseMaturity (c_params c) /\ 0 < CoinbaseMaturity (c_params c) <= 100.
Proof.
  unfold CanonicalNetworkID, coinbaseMaturity. intros Hn cl ->. destruct (decide (c_params c = canonicalMainNetParams)) as [->|].
  { apply Ok_inj in Hn as <-. vm_compute. split; [reflexivity|split; [reflexivity|discriminate]]. }
  destruct (decide (c_params c = canonicalRegTestParams)) as [->|]; [|done].
  apply Ok_inj in Hn as <-. vm_compute. split; [reflexivity|split; [reflexivity|discriminate]].
Qed.

Lemma kind_text_reward k : String.eqb (kind_text k) "mining_reward" = bool_decide (k = ActMiningReward).
Proof. by destruct k. Qed.

Lemma shown_amount a tip maturity : validGatewayActivity a tip maturity = true -> validViewActivityAmount (shown_activity a) = true.
Proof.
  unfold validGatewayActivity, validViewActivityAmount. cbn [shown_activity va_NetUnits va_Kind]. destruct (_ || _); [done|].
  destruct (wa_Kind a); cbn [kind_text String.eqb Ascii.eqb Bool.eqb orb]; intros Hv;
    (destruct (_ <=? _) eqn:E in Hv || destruct (_ >=? _) eqn:E in Hv || destruct (_ >? _) eqn:E in Hv); try done; bool_prop;
    rewrite ?Z.gtb_ltb; first [apply Z.ltb_lt|apply Z.leb_le]; lia.
Qed.

Lemma shown_mempool a tip maturity : length (wa_TxID a) = 32%nat -> wa_Status a = ActMempool ->
  validGatewayActivity a tip maturity = true -> mempool_item (shown_activity a) (wa_TxID a).
Proof.
  intros Hl Hs Hv. pose proof (shown_amount _ _ _ Hv) as Ham. unfold validGatewayActivity in Hv. rewrite Hs in Hv.
  destruct (_ || _); [done|]. destruct (match wa_Kind a with ActReceived => _ | _ => _ end); [done|]. bool_prop.
  split; cbn [shown_activity va_TxID va_Status va_Kind va_BlockHeight va_Confirmations va_BlocksUntilMature]; try done; [by rewrite Hs|].
  intros Hk. apply String.eqb_eq in Hk. rewrite kind_text_reward in Hk. bool_prop. done.
Qed.

Lemma shown_confirmed a tip maturity : tip < max_int64 -> length (wa_TxID a) = 32%nat -> wa_Status a = ActConfirmed ->
  validGatewayActivity a tip maturity = true -> confirmed_item tip maturity (shown_activity a) (wa_TxID a).
Proof.
  intros Ht Hl Hs Hv. pose proof (shown_amount _ _ _ Hv) as Ham. unfold validGatewayActivity in Hv. rewrite Hs in Hv.
  destruct (_ || _); [done|]. destruct (match wa_Kind a with ActReceived => _ | _ => _ end); [done|]. destruct (_ || _) eqn:E; [done|]. bool_prop.
  split; cbn [shown_activity va_TxID va_Status va_Kind va_BlockHeight va_Confirmations va_BlocksUntilMature]; try done; try lia; [by rewrite Hs|].
  by rewrite kind_text_reward.
Qed.

Lemma shown_items {P : ViewActivityItem -> Hash32 -> Prop} status l : items_ok status l ->
  (forall a, a ∈ l -> length (wa_TxID a) = 32%nat -> wa_Status a = status -> P (shown_activity a) (wa_TxID a)) ->
  Forall2 P (shown_activity <$> l) (wa_TxID <$> l).
Proof.
  unfold items_ok. rewrite list.Forall_forall. intros Hl HP. rewrite Forall2_fmap. apply Forall2_same_length_lookup_2.
  - done.
  - intros i a b Ha Hb. rewrite Ha in Hb. injection Hb as <-. apply list_elem_of_lookup_2 in Ha. destruct (Hl a Ha). by apply HP.
Qed.

Lemma view_accepted cl : cl_network cl = g_network g ->
  validateView cl (shown_view (g_network g) addresses view) addresses lim = Ok tt.
Proof.
  intros Hcl. apply validateView_spec. destruct (network_maturity _ Hnet cl Hcl) as [Hmat Hmat0].
  destruct view_owners as (owners & Ho & [Hn Htn Hco [Hh Hh0] Hha Hsp [Hu Hum] Hso Him [Hiu Hium] Hiso Hdj Hid [Hal (mem & conf & Hact & Hmem & Hconf & Hms & Hcs)]]).
  pose proof view_spendable_owned as Hown. pose proof view_immature_owned as Hiown. rewrite list.Forall_forall in Hown. rewrite list.Forall_forall in Hiown.
  assert (Hin : forall i pkh, pkhs !! i = Some pkh -> EncodeAddress pkh ∈ (list_to_set addresses : gset bytes)).
  { intros i pkh Hi. destruct (Forall2_lookup_r _ _ _ _ _ Haddr Hi) as (a & Ha & _ & ->). apply elem_of_list_to_set. by eapply list_elem_of_lookup_2. }
  assert (Hsum : lo_AmountUnits <$> (shown <$> wv_SpendableOutputs view) = so_AmountUnits <$> wv_SpendableOutputs view)
    by (by rewrite <- list_fmap_compose).
  assert (Hisum : vi_AmountUnits <$> (shown_immature <$> wv_ImmatureOutputs view) = io_AmountUnits <$> wv_ImmatureOutputs view)
    by (by rewrite <- list_fmap_compose).
  exists (so_OutPoint <$> wv_SpendableOutputs view), (io_OutPoint <$> wv_ImmatureOutputs view), (wa_TxID <$> wv_Activity view).
  split; cbn [shown_view vr_SchemaVersion vr_Network vr_Tip vr_Addresses vr_Outputs vr_SpendableUnits vr_SpendableOutputCount vr_ImmatureOutputs
    vr_ImmatureUnits vr_Activity tp_Hash tp_Height]; rewrite ?length_fmap; try done; try lia.
  - eexists. split; [reflexivity|done].
  - rewrite Forall2_fmap. apply Forall2_same_length_lookup_2; [done|]. intros i so so' Hi Hi'. rewrite Hi in Hi'. injection Hi' as <-.
    apply list_elem_of_lookup_2 in Hi. destruct (Hown so Hi) as (_ & Hp & Ha). split; try done; [|by eapply Hin].
    apply Hid, elem_of_app. left. by apply list_elem_of_fmap_2.
  - by rewrite Hsum.
  - rewrite Forall2_fmap. apply Forall2_same_length_lookup_2; [done|]. intros i io io' Hi Hi'. rewrite Hi in Hi'. injection Hi' as <-.
    apply list_elem_of_lookup_2 in Hi. destruct (Hiown io Hi) as ((_ & Hp & Ha) & _). split; try done; [|by eapply Hin].
    apply Hid, elem_of_app. right. by apply list_elem_of_fmap_2.
  - apply Forall_fmap, list.Forall_forall. intros io Hi. destruct (Hiown io Hi) as (_ & Hr & Hc & Hm). unfold immature_numbers. cbn.
    rewrite bool_decide_eq_true_2 by (apply viewConfirmations_spec; lia). rewrite Hmat, !(proj2 (Z.ltb_lt _ _)) by lia. done.
  - by rewrite Hisum.
  - rewrite Hmat, Hh. exists (shown_activity <$> mem), (shown_activity <$> conf), (wa_TxID <$> mem), (wa_TxID <$> conf).
    rewrite Hact in *. rewrite !fmap_app in *. apply Forall_app in Hactivity as [Hvm Hvc]. rewrite list.Forall_forall in Hvm. rewrite list.Forall_forall in Hvc.
    split_and!; try done.
    + eapply shown_items; [exact Hmem|]. intros a Ha Hl Hs. eapply shown_mempool; [done|done|by apply Hvm].
    + eapply shown_items; [exact Hconf|]. intros a Ha Hl Hs. eapply shown_confirmed; [done|done|done|by apply Hvc].
    + by rewrite <- list_fmap_compose.
Qed.

(** ** The numbers of the message fit, its texts are plain *)
Lemma network_plain net : CanonicalNetworkID (Some (c_params c)) = Ok net -> plain_text (bs net) = true.
Proof.
  unfold CanonicalNetworkID. intros Hn. destruct (decide _); [apply Ok_inj in Hn as <-; vm_compute; reflexivity|].
  destruct (decide _); [|done]. apply Ok_inj in Hn as <-. vm_compute. reflexivity.
Qed.

Lemma money_i64 z : - MaxMoneyUnits <= z <= MaxMoneyUnits -> in_i64 z.
Proof. unfold MaxMoneyUnits, UnitsPerCoin, in_i64, two63. lia. Qed.
Lemma height_i64 z : -1 <= z <= max_int64 -> in_i64 z.
Proof. unfold max_int64, in_i64, two63. lia. Qed.

Lemma activity_numbers a tip maturity : tip < max_int64 -> 0 < maturity <= 100 -> validGatewayActivity a tip maturity = true ->
  activity_typed (shown_activity a) /\ activity_plain (shown_activity a).
Proof.
  intros Ht Hm Hv. split.
  - unfold validGatewayActivity in Hv. destruct (_ || _) eqn:E; [done|]. bool_prop.
    destruct (match wa_Kind a with ActReceived => _ | _ => _ end); [done|].
    unfold activity_typed. cbn [shown_activity va_NetUnits va_BlockHeight va_Confirmations va_BlocksUntilMature].
    destruct (wa_Status a).
    + bool_prop. split_and!; [apply money_i64; lia|apply height_i64; unfold max_int64, two63; lia..].
    + destruct (_ || _) eqn:E2; [done|]. bool_prop. split_and!; [apply money_i64; lia|apply height_i64; lia|apply height_i64; lia|].
      apply height_i64. rewrite Hv. destruct (_ && _) eqn:E3; [bool_prop|]; unfold max_int64, two63; lia.
  - split_and!; cbn; [apply hex_text_plain|by destruct (wa_Kind a)|by destruct (wa_Status a)].
Qed.

Lemma shown_view_message : view_typed (shown_view (g_network g) addresses view) /\ view_plain (shown_view (g_network g) addresses view).
Proof.
  destruct (network_maturity _ Hnet (mkClient [] (g_network g)) eq_refl) as [_ Hmat].
  destruct view_owners as (owners & Ho & [Hn Htn Hco [Hh Hh0] Hha Hsp [Hu Hum] Hso Him [Hiu Hium] Hiso Hdj Hid [Hal _]]).
  pose proof view_spendable_owned as Hown. pose proof view_immature_owned as Hiown. rewrite list.Forall_forall in Hown. rewrite list.Forall_forall in Hiown.
  pose proof (utxo_idx_small p c Hinv) as Hidx. assert (Hmb : MaxBlockBytes < two32) by (vm_compute; reflexivity).
  assert (Hpos : 0 <= wv_SpendableUnits view).
  { rewrite Hu. apply sumZ_nonneg, Forall_fmap, list.Forall_forall. intros so Hin. cbn. destruct (Hown so Hin) as (_ & _ & ?). lia. }
  assert (Hipos : 0 <= wv_ImmatureUnits view).
  { rewrite Hiu. apply sumZ_nonneg, Forall_fmap, list.Forall_forall. intros io Hin. cbn. destruct (Hiown io Hin) as ((_ & _ & ?) & _). lia. }
  assert (Hact : Forall (fun a => activity_typed (shown_activity a) /\ activity_plain (shown_activity a)) (wv_Activity view))
    by (eapply Forall_impl; [exact Hactivity|]; intros a Ha; by eapply activity_numbers).
  split; split; cbn [shown_view vr_SchemaVersion vr_Network vr_Tip vr_Addresses vr_Outputs vr_SpendableUnits vr_SpendableOutputCount vr_ImmatureOutputs
    vr_ImmatureUnits vr_Activity tp_Hash tp_Height].
  - done.
  - apply height_i64. lia.
  - apply Forall_fmap, list.Forall_forall. intros so Hin. destruct (Hown so Hin) as (_ & _ & ?). apply Hsp in Hin as (e & He & _).
    apply Hidx in He. cbn in He. split; cbn; [split; lia|apply money_i64; lia].
  - apply money_i64. lia.
  - apply height_i64. unfold MaxSnapshotOutputs, max_int64, two63 in *. lia.
  - apply Forall_fmap, list.Forall_forall. intros io Hin. destruct (Hiown io Hin) as ((_ & _ & ?) & ? & ? & ?).
    apply Him in Hin as [(e & He & _) _]. apply Hidx in He. cbn in He. split_and!; cbn; [split; lia|apply money_i64; lia|apply height_i64; lia..].
  - apply money_i64. lia.
  - apply Forall_fmap. eapply Forall_impl; [exact Hact|]. by intros a [? _].
  - by apply network_plain.
  - apply hex_text_plain.
  - apply list.Forall_forall. intros a [i Hi]%list_elem_of_lookup. destruct (Forall2_lookup_l _ _ _ _ _ Haddr Hi) as (pkh & _ & _ & <-). apply address_plain.
  - apply Forall_fmap, list.Forall_forall. intros so _. split; [apply hex_text_plain|apply address_plain].
  - apply Forall_fmap, list.Forall_forall. intros io _. split; [apply hex_text_plain|apply address_plain].
  - apply Forall_fmap. eapply Forall_impl; [exact Hact|]. by intros a [_ ?].
Qed.
End view.

(** ** One exchange *)
Context `{!JsonDecoderLaws}.

Lemma decodeStrictJSON_Marshal {A} `{JsonRecord A} (a : A) : plain_value (to_json a) = true -> from_json (to_json a) = Some a ->
  Z.of_nat (length (Marshal a)) <= MaxRequestBytes -> decodeStrictJSON (Marshal a) = Ok a.
Proof.
  intros Hp Hf Hl. unfold decodeStrictJSON. rewrite take_ge by (unfold MaxRequestBytes in *; lia).
  pose proof (decode_printed A _ a [] Hp Hf eq_refl) as Hd. rewrite app_nil_r in Hd. rewrite Hd. cbn [blank forallb negb].
  rewrite (proj2 (Z.leb_gt _ _)) by lia. done.
Qed.

Lemma read_response_Encode {R} `{JsonRecord R} cl (r : R) : plain_value (to_json r) = true -> from_json (to_json r) = Some r ->
  Z.of_nat (length (Encode r)) <= MaxResponseBytes ->
  read_response cl (mkHttpResponse 200 (Some "application/json"%string) None (Encode r)) = Ok r.
Proof.
  intros Hp Hf Hl. unfold read_response. cbn [hs_mediaType hs_Status hs_Body]. rewrite bool_decide_eq_true_2 by done. cbn [check mbind result_bind Z.ltb Z.geb Z.compare orb].
  rewrite take_ge by (unfold MaxResponseBytes in *; lia). unfold Encode. rewrite (decode_printed R _ r [Byte.x0a] Hp Hf) by done.
  unfold Encode in Hl. rewrite (proj2 (Z.leb_gt _ _)) by lia. done.
Qed.

(** The request of a client reaches the handler as it was. *)
Lemma view_request_arrives addresses lim : (length addresses <= 100)%nat -> Forall (fun a => valid_address a = true) addresses ->
  0 <= lim <= MaxWalletActivityLimit ->
  Z.of_nat (length (Marshal (mkViewRequest addresses lim))) <= MaxRequestBytes /\
  decodeStrictJSON (Marshal (mkViewRequest addresses lim)) = Ok (mkViewRequest addresses lim).
Proof.
  intros Hn Hv Hl. assert (Hi : in_i64 lim) by (unfold in_i64, two63, MaxWalletActivityLimit in *; lia).
  assert (Hs : Z.of_nat (length (Marshal (mkViewRequest addresses lim))) <= MaxRequestBytes).
  { apply view_request_size; [done|]. eapply Forall_impl; [exact Hv|]. intros a Ha. by apply valid_address_plain. }
  split; [done|]. apply decodeStrictJSON_Marshal; [|by apply view_request_read|done]. apply view_request_plain; [done|].
  eapply Forall_impl; [exact Hv|]. intros a Ha. by apply valid_address_plain.
Qed.

Lemma serve_view g c body : ServeHTTP g c (mkHttpRequest "POST" ViewPath "" (Some "application/json"%string) body) = (c, handleView g c body).
Proof. reflexivity. Qed.

Lemma handleView_arrived g c addresses lim pkhs : (length addresses <= 100)%nat -> Forall (fun a => valid_address a = true) addresses ->
  0 <= lim <= MaxWalletActivityLimit -> canonicalPKHs addresses = Ok pkhs ->
  handleView g c (Marshal (mkViewRequest addresses lim)) =
  match view_response g c (mkViewRequest addresses lim) pkhs with
  | Err _ => writeError g 503 "chain_unavailable"
  | Ok response => writeJSON 200 response
  end.
Proof.
  intros Hn Hv Hl Hp. unfold handleView. destruct (view_request_arrives addresses lim Hn Hv Hl) as [_ ->]. cbn [vq_Addresses vq_ActivityLimit].
  rewrite !Z.gtb_ltb, !(proj2 (Z.ltb_ge _ _)) by (unfold MaxSnapshotAddresses; lia). cbn [orb]. by rewrite Hp.
Qed.

(** The client asks, the gateway answers, the client checks. *)
Lemma Client_View_exchange g c cl addresses canonical lim pkhs : canonicalClientAddresses addresses = Ok canonical ->
  canonicalPKHs canonical = Ok pkhs -> 0 <= lim <= MaxWalletActivityLimit ->
  Client_View (gateway_do g) cl addresses lim c =
  (c, match read_response cl (match view_response g c (mkViewRequest canonical lim) pkhs with
                              | Err _ => writeError g 503 "chain_unavailable"
                              | Ok response => writeJSON 200 response
                              end) with
      | Err e => Err e
      | Ok r => match validateView cl r canonical lim with Ok _ => Ok r | Err e => Err (wrap "invalid gateway view" e) end
      end).
Proof.
  intros Hc Hp Hl. destruct (canonicalClientAddresses_spec _ _ Hc) as (Hperm & _ & Hn & Hv & _). rewrite <- Hperm in Hn.
  unfold Client_View, post, mbind, prog_bind, guard, lift, wrapping, mret, prog_ret. rewrite Z.gtb_ltb, !(proj2 (Z.ltb_ge _ _)) by lia.
  cbn [orb negb check]. rewrite Hc. destruct (view_request_arrives canonical lim Hn Hv Hl) as [Hs _].
  rewrite (proj2 (Z.leb_le _ _)) by done. cbn [check]. unfold gateway_do. rewrite serve_view, (handleView_arrived _ _ _ _ pkhs) by done.
  destruct (read_response _ _) as [r|e]; [|done]. by destruct (validateView _ _ _ _).
Qed.

(** Looking at the chain does not change it. *)
Lemma Client_View_state g c cl addresses lim : (Client_View (gateway_do g) cl addresses lim c).1 = c.
Proof.
  unfold Client_View, post, mbind, prog_bind, guard, lift, wrapping, mret, prog_ret, gateway_do. destruct (check _ _); [|done].
  destruct (canonicalClientAddresses addresses); [|done]. destruct (check _ _); [|done]. rewrite serve_view.
  destruct (read_response _ _); [|done]. by destruct (validateView _ _ _ _).
Qed.

(** ** Errors *)
Lemma canonical_networks c g : CanonicalNetworkID (Some (c_params c)) = Ok (g_network g) ->
  g_network g = MainNetMachineID \/ g_network g = RegTestMachineID.
Proof. unfold CanonicalNetworkID. destruct (decide _); [intros [= <-]; by left|]. destruct (decide _); [intros [= <-]; by right|done]. Qed.

(** The codes of errors are short. *)
Definition short_code (code : string) : bool :=
  plain_text (bs code) && negb (String.eqb code "") &&
  forallb (fun net => Z.of_nat (length (Encode (mkErrorResponse SchemaVersion net code))) <=? 1000) [MainNetMachineID; RegTestMachineID].

Lemma read_writeError c g cl status code : CanonicalNetworkID (Some (c_params c)) = Ok (g_network g) -> cl_network cl = g_network g ->
  short_code code = true -> (status <? 200) || (status >=? 300) = true -> forall R (J : JsonRecord R),
  @read_response _ R J cl (writeError g status code) = Err (EWrap "wallet gateway rejected request" status (EText code)).
Proof.
  intros Hnet Hcl Hcode Hst R J. set (er := mkErrorResponse SchemaVersion (g_network g) code).
  apply andb_true_iff in Hcode as [Hcode Hlen]. apply andb_true_iff in Hcode as [Hplain Hne]. apply negb_true_iff in Hne.
  assert (Hl : Z.of_nat (length (Encode er)) <= 1000).
  { cbn [forallb] in Hlen. apply andb_true_iff in Hlen as [Hl1 Hl2]. apply andb_true_iff in Hl2 as [Hl2 _]. apply Z.leb_le in Hl1. apply Z.leb_le in Hl2.
    unfold er. by destruct (canonical_networks c g Hnet) as [-> | ->]. }
  unfold writeError, writeJSON. fold er. rewrite Z.gtb_ltb, (proj2 (Z.ltb_ge _ _)) by (unfold MaxResponseBytes; lia).
  unfold read_response. cbn [hs_mediaType hs_Status hs_Body]. rewrite bool_decide_eq_true_2 by done. cbn [check mbind result_bind]. rewrite Hst.
  rewrite take_ge by (unfold MaxResponseBytes; lia). unfold read_error.
  assert (Hdec : json_Decode ErrorResponse (Encode er) = Ok (er, [Byte.x0a])).
  { apply (decode_printed ErrorResponse _ er [Byte.x0a]); [|by apply error_read|done]. apply error_plain; [done|by eapply network_plain|done]. }
  rewrite Hdec. pose proof (ahead_bounded (Encode er)). rewrite (proj2 (Z.leb_gt _ _)) by (unfold MaxResponseBytes; lia).
  cbn [er er_SchemaVersion er_Network er_ErrorCode]. rewrite Hcl, String.eqb_refl, Hne. done.
Qed.

(** A response that is not a success gives an error, whatever its body. *)
Definition failed (r : http_response) : Prop := (hs_Status r <? 200) || (hs_Status r >=? 300) = true.
Lemma read_response_failed {R} `{JsonRecord R} cl r : failed r -> exists e, read_response (R := R) cl r = Err e.
Proof.
  unfold failed, read_response. intros Hr. destruct (check _ _); [|by eexists]. cbn [mbind result_bind]. rewrite Hr. by eexists.
Qed.
Lemma writeError_failed g : failed (writeError g 503 "chain_unavailable").
Proof. unfold writeError, writeJSON, failed. by destruct (_ >? _). Qed.
Lemma writeJSON_too_large {A} `{JsonRecord A} (a : A) : MaxResponseBytes < Z.of_nat (length (Encode a)) -> failed (writeJSON 200 a).
Proof. intros Hl. unfold writeJSON, failed. rewrite Z.gtb_ltb, (proj2 (Z.ltb_lt MaxResponseBytes _)) by done. done. Qed.

(** The response lists the outputs of the view, one by one. *)
Lemma spendable_outputs_listed addresses pkhs l : forall st st', foldM (spendable_output addresses pkhs) st l = Ok st' ->
  exists new, st'.2 = st.2 ++ new /\ Forall2 (fun so o => lo_TxID o = hex_encode (op_TxID (so_OutPoint so))) l new.
Proof.
  induction l as [|so l IH]; intros st st' Hf; cbn [foldM] in Hf; [simplify_eq; exists []; by rewrite app_nil_r|].
  destruct (spendable_output addresses pkhs st so) as [st1|] eqn:E; [|done]. destruct (IH _ _ Hf) as (new & Hn & Hall).
  destruct st as [[total prev] outs]. unfold spendable_output in E. apply bind_Ok in E as (a & _ & E). apply bind_Ok in E as ([t p] & _ & E).
  apply Ok_inj in E as <-. eexists (_ :: new). split; [rewrite Hn; cbn; by rewrite <- app_assoc|by constructor].
Qed.

Lemma view_response_outputs g c addresses lim pkhs view r : WalletViewForPKHs c pkhs lim = Ok view ->
  view_response g c (mkViewRequest addresses lim) pkhs = Ok r ->
  Forall2 (fun so o => lo_TxID o = hex_encode (op_TxID (so_OutPoint so))) (wv_SpendableOutputs view) (vr_Outputs r).
Proof.
  intros Hv Hr. unfold view_response in Hr. cbn [vq_ActivityLimit vq_Addresses] in Hr. rewrite Hv in Hr.
  apply bind_Ok in Hr as ([] & _ & Hr). apply bind_Ok in Hr as ([[t pr] outs] & Hf & Hr). apply bind_Ok in Hr as ([] & _ & Hr).
  apply bind_Ok in Hr as ([[it ip] im] & _ & Hr). apply bind_Ok in Hr as ([] & _ & Hr). apply bind_Ok in Hr as (act & _ & Hr).
  apply Ok_inj in Hr as <-. cbn. destruct (spendable_outputs_listed _ _ _ _ _ Hf) as (new & Hn & Hall). cbn in Hn. by subst.
Qed.

(** ** Signed transactions *)
Lemma serve_broadcast g c body :
  ServeHTTP g c (mkHttpRequest "POST" BroadcastPath "" (Some "application/json"%string) body) = handleBroadcast g c body.
Proof. reflexivity. Qed.

(** What the gateway does with the transaction of a client. *)
Lemma handleBroadcast_arrived `{!CryptoLaws} g c tx : wf_tx tx -> IsCoinbase tx = false -> 0 < Z.of_nat (length (Tx_Bytes tx)) <= MaxSignedTransactionBytes ->
  handleBroadcast g c (Marshal (mkBroadcastRequest (hex_encode (Tx_Bytes tx)) (hex_encode (Tx_ID tx)))) =
  let '(c', r) := AcceptTxWithResult c (Some tx) in
  (c', match r with
       | Err _ => writeError g 422 "transaction_rejected"
       | Ok admission =>
           let writes := match g_broadcaster g with Some BroadcastTx => BroadcastTx tx | None => 0 end in
           if writes <? 1 then writeError g 503 "transaction_not_relayed"
           else writeJSON 200 (mkBroadcastResponse SchemaVersion (g_network g) (hex_encode (Tx_ID tx)) (admission_text admission) "submitted" writes)
       end).
Proof.
  intros Hwf Hcb Hlen. unfold handleBroadcast. set (rq := mkBroadcastRequest _ _).
  assert (Hd : decodeStrictJSON (Marshal rq) = Ok rq).
  { apply decodeStrictJSON_Marshal; [apply broadcast_request_plain; apply hex_text_plain|apply broadcast_request_read|].
    apply broadcast_request_size; cbn [rq bq_TransactionHex bq_ExpectedTxID]; rewrite length_hex_encode.
    - unfold MaxSignedTransactionBytes in Hlen. lia.
    - rewrite length_Tx_ID. lia. }
  rewrite Hd. cbn [rq bq_TransactionHex bq_ExpectedTxID].
  rewrite length_hex_encode, Z.gtb_ltb, (proj2 (Z.ltb_ge _ _)) by lia. rewrite decodeCanonicalTransactionHex_encode by done.
  rewrite (proj2 (decodeCanonicalHash_spec _ (Tx_ID tx))) by (split; [done|apply length_Tx_ID]).
  rewrite DecodeTx_Bytes, Hcb, !bool_decide_eq_true_2 by done. cbn [negb].
  destruct (AcceptTxWithResult c (Some tx)) as [c' [adm|e]]; [|done]. cbn zeta. by destruct (_ <? 1).
Qed.

Definition broadcast_outcome (g : Gateway) (tx : Tx) (r : result TxAcceptanceResult) : result BroadcastResponse :=
  match r with
  | Err _ => Err (EWrap "wallet gateway rejected request" 422 (EText "transaction_rejected"))
  | Ok admission =>
      let writes := match g_broadcaster g with Some BroadcastTx => BroadcastTx tx | None => 0 end in
      if writes <? 1 then Err (EWrap "wallet gateway rejected request" 503 (EText "transaction_not_relayed"))
      else Ok (mkBroadcastResponse SchemaVersion (g_network g) (hex_encode (Tx_ID tx)) (admission_text admission) "submitted" writes)
  end.

Lemma Client_Broadcast_exchange `{!CryptoLaws} g c cl tx : CanonicalNetworkID (Some (c_params c)) = Ok (g_network g) ->
  cl_network cl = g_network g -> (forall send, g_broadcaster g = Some send -> in_i64 (send tx)) ->
  wf_tx tx -> IsCoinbase tx = false -> 0 < Z.of_nat (length (Tx_Bytes tx)) <= MaxSignedTransactionBytes ->
  Client_Broadcast (gateway_do g) cl (Some tx) c =
  let '(c', r) := AcceptTxWithResult c (Some tx) in (c', broadcast_outcome g tx r).
Proof.
  intros Hnet Hcl Hw Hwf Hcb Hlen. unfold Client_Broadcast, post, mbind, prog_bind, guard, lift, wrapping, mret, prog_ret. rewrite Hcb.
  cbn [negb check]. rewrite Z.gtb_ltb, (proj2 (Z.ltb_ge _ _)) by lia. replace (length (Tx_Bytes tx) =? 0)%nat with false by (symmetry; apply Nat.eqb_neq; lia).
  cbn [orb negb check]. rewrite (proj2 (Z.leb_le _ _)).
  2: { apply broadcast_request_size; cbn [bq_TransactionHex bq_ExpectedTxID]; rewrite length_hex_encode;
       [unfold MaxSignedTransactionBytes in Hlen; lia|rewrite length_Tx_ID; lia]. }
  cbn [check]. unfold gateway_do. rewrite serve_broadcast, handleBroadcast_arrived by done.
  destruct (AcceptTxWithResult c (Some tx)) as [c' [adm|e]]; cbn [broadcast_outcome];
    [|by rewrite (read_writeError c g cl) by (done || vm_compute; reflexivity)].
  set (writes := match g_broadcaster g with Some BroadcastTx => BroadcastTx tx | None => 0 end).
  assert (Hwi : in_i64 writes) by (unfold writes; destruct (g_broadcaster g); [by apply Hw|split; vm_compute; done]).
  destruct (Z.ltb_spec writes 1); [by rewrite (read_writeError c g cl) by (done || vm_compute; reflexivity)|].
  set (br := mkBroadcastResponse _ _ _ _ _ _). assert (Hsize : Z.of_nat (length (Encode br)) <= MaxResponseBytes).
  { apply broadcast_size; cbn [br br_Network br_TxID br_Admission br_Status].
    - destruct (canonical_networks c g Hnet) as [-> | ->]; vm_compute; lia.
    - rewrite length_hex_encode, length_Tx_ID. lia.
    - destruct adm; vm_compute; lia.
    - vm_compute; lia. }
  unfold writeJSON. rewrite Z.gtb_ltb, (proj2 (Z.ltb_ge _ _)) by done. rewrite read_response_Encode; [|..|done].
  - cbn [br br_SchemaVersion br_Network br_TxID br_Admission br_Status br_PeerWrites]. rewrite Hcl, String.eqb_refl, bool_decide_eq_true_2, (proj2 (Z.ltb_ge _ _)) by (done || lia).
    destruct adm; done.
  - apply broadcast_plain; cbn [br br_SchemaVersion br_Network br_TxID br_Admission br_Status br_PeerWrites]; try done;
      [by eapply network_plain|apply hex_text_plain|by destruct adm].
  - by apply broadcast_read.
Qed.
End service.

(** * Properties of the light wallet

    The gateway shows exactly the spendable part of the UTXO set, the client accepts it
    and only accepts consistent answers, and a signed transaction reaches the mempool. *)

(** ** The instance of the examples *)
Module LightToy.
#[global] Instance json : JsonDecoder := parse_decoder.
#[global] Instance json_laws : JsonDecoderLaws := parse_decoder_laws.
Definition gateway (writes : Z) : Gateway := mkGateway (Some (fun _ => writes)) RegTestMachineID.
Definition client : Client := mkClient (bs "http://localhost") RegTestMachineID.
Definition alice_address : bytes := EncodeAddress (Toy.pkh_of Toy.alice).
Definition alice_view : WalletViewSnapshot :=
  match WalletViewForPKHs Toy.c2 [Toy.pkh_of Toy.alice] 0 with
  | Ok v => v
  | Err _ => mkWalletView "" false (mkTipSnapshot "" [] 0) [] 0 [] 0 []
  end.
End LightToy.

(** An output of a message shows an outpoint with its amount and owner. *)
Definition shows (o : SnapshotOutput) (op : OutPoint) (amount : Z) (address : bytes) : Prop :=
  lo_TxID o = hex_encode (op_TxID op) /\ lo_Vout o = op_Idx op /\ lo_AmountUnits o = amount /\ lo_Address o = address.

(** C7: The view of a client whose gateway runs on a reachable chain: when the node can
    compute the view and it fits the limits of the protocol, the client accepts it, and
    lists exactly the mature, unreserved entries of the UTXO set that its addresses own,
    with their amounts and their sum.  With an activity limit of zero the conditions on
    activity hold by themselves. *)
Theorem light_view_exact `{CryptoLaws} `{JsonDecoderLaws} p c b g cl addresses canonical pkhs lim view :
  pow_params_ok p -> reachable p c -> bi_height (c_tip c) < max_int64 ->
  NewGateway (Some c) b = Ok g -> cl_network cl = g_network g -> 0 <= lim <= MaxWalletActivityLimit ->
  canonicalClientAddresses addresses = Ok canonical -> canonicalPKHs canonical = Ok pkhs ->
  WalletViewForPKHs c pkhs lim = Ok view ->
  Z.of_nat (length (wv_SpendableOutputs view)) <= MaxSnapshotOutputs ->
  Z.of_nat (length (wv_ImmatureOutputs view)) <= MaxSnapshotOutputs ->
  Forall (fun a => validGatewayActivity a (bi_height (c_tip c)) (CoinbaseMaturity (c_params c)) = true) (wv_Activity view) ->
  NoDup (wa_TxID <$> wv_Activity view) ->
  Z.of_nat (length (Encode (shown_view (g_network g) canonical view))) <= MaxResponseBytes ->
  exists r, Client_View (gateway_do g) cl addresses lim c = (c, Ok r) /\
    tp_Height (vr_Tip r) = bi_height (c_tip c) /\ tp_Hash (vr_Tip r) = hex_encode (bi_id (c_tip c)) /\
    vr_SpendableUnits r = sumZ (lo_AmountUnits <$> vr_Outputs r) /\
    forall op amount address,
      (exists o, o ∈ vr_Outputs r /\ shows o op amount address) <->
      (exists e, spendable_entry c op e /\ ue_Value e = amount /\ address ∈ addresses /\ DecodeAddress address = Ok (ue_PKH e)).
Proof.
  intros Hpow Hreach Htip Hg Hcl Hlim Hc Hp Hv Hn Hin Hact Hids Hsize.
  assert (Hinv : chain_inv p c) by (by apply reachable_inv). pose proof (canonicalPKHs_spec _ _ Hp) as Haddr.
  assert (Hnet : CanonicalNetworkID (Some (c_params c)) = Ok (g_network g)).
  { unfold NewGateway in Hg. apply bind_Ok in Hg as (net & Hnet & [= <-]). done. }
  destruct (canonicalClientAddresses_spec _ _ Hc) as (Hperm & _).
  destruct (shown_view_message p c g canonical pkhs lim view Hpow Hinv Hnet Haddr Hv Hn Hact Htip) as [Htyped Hplain].
  exists (shown_view (g_network g) canonical view). split_and!.
  - rewrite (Client_View_exchange g c cl addresses canonical lim pkhs) by done.
    rewrite (view_response_shown p c g canonical pkhs lim view) by done.
    unfold writeJSON. rewrite Z.gtb_ltb, (proj2 (Z.ltb_ge _ _)) by done.
    rewrite read_response_Encode; [|by apply view_plain_json|by apply view_read|done].
    rewrite (view_accepted p c g canonical pkhs lim view) by done. done.
  - destruct (view_owners p c pkhs lim view Hpow Hinv Hv) as (owners & _ & Hf). apply (vf_height _ _ _ _ Hf).
  - destruct (view_owners p c pkhs lim view Hpow Hinv Hv) as (owners & _ & Hf).
    unfold WalletViewForPKHs in Hv. destruct (_ || _); [done|]. apply bind_Ok in Hv as (? & _ & Hv).
    apply walletView_tip, canonicalTip_facts in Hv as (_ & _ & Hh & _). cbn. by rewrite Hh.
  - destruct (view_owners p c pkhs lim view Hpow Hinv Hv) as (owners & _ & Hf). cbn [shown_view vr_SpendableUnits vr_Outputs].
    rewrite <- list_fmap_compose. apply (vf_units _ _ _ _ Hf).
  - intros op amount address. destruct (view_owners p c pkhs lim view Hpow Hinv Hv) as (owners & Ho & Hf).
    cbn [shown_view vr_Outputs]. split.
    + intros (o & (so & -> & Hso)%list_elem_of_fmap & Ht & Hi & Ham & Had).
      pose proof (view_spendable_owned p c pkhs lim view Hpow Hinv Hv) as Hown. rewrite list.Forall_forall in Hown.
      destruct (Hown so Hso) as (_ & Hl & _). apply (vf_spendable _ _ _ _ Hf) in Hso as (e & He & Hva & Hpk & _ & Hm & Hns).
      cbn [shown lo_TxID lo_Vout lo_AmountUnits lo_Address] in *. apply (inj hex_encode) in Ht.
      assert (so_OutPoint so = op) as Hop by (destruct op, (so_OutPoint so); cbn in *; congruence).
      destruct (Forall2_lookup_r _ _ _ _ _ Haddr Hl) as (a & Ha & Hd & He'). exists e. rewrite Hop in *. split_and!; [done|congruence| |].
      * rewrite <- Hperm, <- Had, He'. by eapply list_elem_of_lookup_2.
      * rewrite <- Had, He', Hd, Hpk. done.
    + intros (e & (He & Hm & Hns) & <- & Hin' & Hd). rewrite <- Hperm in Hin'. apply list_elem_of_lookup in Hin' as [i Hi].
      destruct (Forall2_lookup_l _ _ _ _ _ Haddr Hi) as (pkh & Hl & Hd' & Hea). assert (pkh = ue_PKH e) as -> by congruence.
      destruct (walletOwners_complete _ _ _ (ue_PKH e) Ho) as [idx Hidx]; [by eapply list_elem_of_lookup_2|].
      exists (shown (mkSpendable op (ue_Value e) (ue_PKH e) idx)). split; [|by split_and!].
      apply list_elem_of_fmap_2. apply (vf_spendable _ _ _ _ Hf). by exists e.
Qed.

Lemma light_view_exact_witness : exists r,
  Client_View (gateway_do (LightToy.gateway 1)) LightToy.client [LightToy.alice_address] 0 Toy.c2 = (Toy.c2, Ok r) /\
  vr_SpendableUnits r = sumZ (lo_AmountUnits <$> vr_Outputs r).
Proof.
  destruct (light_view_exact RegTest Toy.c2 (g_broadcaster (LightToy.gateway 1)) (LightToy.gateway 1) LightToy.client
              [LightToy.alice_address] [LightToy.alice_address] [Toy.pkh_of Toy.alice] 0 LightToy.alice_view
              pow_params_ok_reg Toy.toy_c2_reachable) as (r & Hr & _ & _ & Hu & _).
  - vm_compute. reflexivity.
  - vm_compute. reflexivity.
  - reflexivity.
  - split; [done|vm_compute; discriminate].
  - vm_compute. reflexivity.
  - vm_compute. reflexivity.
  - vm_compute. reflexivity.
  - vm_compute. discriminate.
  - vm_compute. discriminate.
  - replace (wv_Activity LightToy.alice_view) with (@nil WalletActivityItem) by (vm_compute; reflexivity). constructor.
  - replace (wv_Activity LightToy.alice_view) with (@nil WalletActivityItem) by (vm_compute; reflexivity). constructor.
  - vm_compute. discriminate.
  - exists r. split; [exact Hr|exact Hu].
Defined.

(** C34: Whatever the other end answers, a view that the client returns is consistent: it is
    for the sorted addresses of the request, its outputs name distinct outpoints in
    ascending order, each with a possible amount and an owner among the addresses, no
    outpoint is listed as spendable and immature, both totals are the sums and within the
    supply, immature outputs have the confirmations of their height, unconfirmed activity
    precedes confirmed activity, and no transaction is listed twice. *)
Theorem validated_view `{Crypto} `{JsonDecoder} {S} (Do : string -> bytes -> prog S http_response) cl addresses lim s s' r :
  Client_View Do cl addresses lim s = (s', Ok r) ->
  exists canonical ops iops ids, canonicalClientAddresses addresses = Ok canonical /\ canonical ≡ₚ addresses /\
    view_ok cl r canonical lim ops iops ids.
Proof.
  unfold Client_View, mbind, prog_bind, guard, lift, wrapping, mret, prog_ret. destruct (check _ _); [|done].
  destruct (canonicalClientAddresses addresses) as [canonical|] eqn:Hc; [|done]. destruct (post _ _ _ _ s) as [s1 [r1|]]; [|done].
  destruct (validateView cl r1 canonical lim) as [[]|] eqn:Hv; [|done]. intros [= <- <-].
  apply validateView_spec in Hv as (ops & iops & ids & Hv). destruct (canonicalClientAddresses_spec _ _ Hc) as (Hperm & _).
  by exists canonical, ops, iops, ids.
Qed.

Lemma validated_view_witness : exists r canonical ops iops ids,
  Client_View (gateway_do (LightToy.gateway 1)) LightToy.client [LightToy.alice_address] 0 Toy.c2 = (Toy.c2, Ok r) /\
  canonical ≡ₚ [LightToy.alice_address] /\ view_ok LightToy.client r canonical 0 ops iops ids.
Proof.
  assert (Hok : is_ok (Client_View (gateway_do (LightToy.gateway 1)) LightToy.client [LightToy.alice_address] 0 Toy.c2).2 = true)
    by (vm_compute; reflexivity).
  pose proof (Client_View_state (LightToy.gateway 1) Toy.c2 LightToy.client [LightToy.alice_address] 0) as Hs.
  destruct (Client_View (gateway_do (LightToy.gateway 1)) LightToy.client [LightToy.alice_address] 0 Toy.c2) as [s' [r|e]] eqn:E;
    [|discriminate Hok]. cbn in Hs. subst s'.
  destruct (validated_view (gateway_do (LightToy.gateway 1)) LightToy.client [LightToy.alice_address] 0 Toy.c2 Toy.c2 r E)
    as (canonical & ops & iops & ids & _ & Hp & Hv).
  exists r, canonical, ops, iops, ids. split; [reflexivity|]. split; [exact Hp|exact Hv].
Defined.

(** Broadcasting a signed transaction through the gateway has the effect of admitting it
    to the mempool of the node, and the client learns which: it returns the id and the
    admission when the transaction was admitted or known and reached a peer, and an error
    when it was rejected.  It also returns an error when no peer could be reached,
    although the transaction then stays in the mempool of the node. *)
Theorem broadcast_admits `{CryptoLaws} `{JsonDecoderLaws} c b g cl tx :
  NewGateway (Some c) b = Ok g -> cl_network cl = g_network g -> (forall send, b = Some send -> in_i64 (send tx)) ->
  wf_tx tx -> IsCoinbase tx = false -> 0 < Z.of_nat (length (Tx_Bytes tx)) <= MaxSignedTransactionBytes ->
  let writes := match b with Some send => send tx | None => 0 end in
  (Client_Broadcast (gateway_do g) cl (Some tx) c).1 = (AcceptTxWithResult c (Some tx)).1 /\
  match (AcceptTxWithResult c (Some tx)).2, (Client_Broadcast (gateway_do g) cl (Some tx) c).2 with
  | Ok admission, Ok r => 1 <= writes /\ br_TxID r = hex_encode (Tx_ID tx) /\ br_Admission r = admission_text admission /\ br_PeerWrites r = writes
  | Ok _, Err e => writes < 1 /\ e = EWrap "wallet gateway rejected request" 503 (EText "transaction_not_relayed")
  | Err _, r => r = Err (EWrap "wallet gateway rejected request" 422 (EText "transaction_rejected"))
  end.
Proof.
  intros Hg Hcl Hw Hwf Hcb Hlen writes. unfold NewGateway in Hg. apply bind_Ok in Hg as (net & Hnet & Hg). apply Ok_inj in Hg as <-.
  rewrite Client_Broadcast_exchange by done. destruct (AcceptTxWithResult c (Some tx)) as [c' [adm|e]]; [|done].
  cbn [fst snd broadcast_outcome g_broadcaster]. fold writes. split; [done|].
  destruct (Z.ltb_spec writes 1); [done|]. cbn. split_and!; done.
Qed.

Lemma broadcast_admits_witness :
  (AcceptTxWithResult Toy.c2 (Some Toy.payment)).2 = Ok TxAcceptanceAdded /\
  is_ok (Client_Broadcast (gateway_do (LightToy.gateway 0)) LightToy.client (Some Toy.payment) Toy.c2).2 = false /\
  (Client_Broadcast (gateway_do (LightToy.gateway 0)) LightToy.client (Some Toy.payment) Toy.c2).1
    = (AcceptTxWithResult Toy.c2 (Some Toy.payment)).1.
Proof.
  assert (Hwf : wf_tx Toy.payment).
  { apply (DecodeTx_wf (Tx_Bytes Toy.payment)). vm_compute. reflexivity. }
  assert (Hacc : (AcceptTxWithResult Toy.c2 (Some Toy.payment)).2 = Ok TxAcceptanceAdded) by (vm_compute; reflexivity).
  destruct (broadcast_admits Toy.c2 (Some (fun _ => 0)) (LightToy.gateway 0) LightToy.client Toy.payment) as [H1 H2].
  - vm_compute. reflexivity.
  - reflexivity.
  - intros send [= <-]. split; vm_compute; done.
  - exact Hwf.
  - vm_compute. reflexivity.
  - vm_compute. split; [reflexivity|discriminate].
  - split; [exact Hacc|]. split; [|exact H1]. rewrite Hacc in H2.
    destruct (Client_Broadcast _ _ _ _).2 as [r|e]; [|reflexivity]. destruct H2 as [H2 _]. exfalso. clear -H2. cbn in H2. lia.
Defined.

(** The protocol allows ten thousand outputs, but a view with more than 9118 spendable
    outputs does not fit a response of one mebibyte: the gateway answers with an empty
    body, and the wallet can neither see its balance nor prepare a payment. *)
Theorem large_wallet_unavailable `{CryptoLaws} `{JsonDecoderLaws} p c b g cl addresses canonical pkhs lim view :
  pow_params_ok p -> reachable p c -> NewGateway (Some c) b = Ok g -> 0 <= lim <= MaxWalletActivityLimit ->
  canonicalClientAddresses addresses = Ok canonical -> canonicalPKHs canonical = Ok pkhs ->
  WalletViewForPKHs c pkhs lim = Ok view -> 9118 < Z.of_nat (length (wv_SpendableOutputs view)) ->
  is_ok (Client_View (gateway_do g) cl addresses lim c).2 = false.
Proof.
  intros Hpow Hreach Hg Hlim Hc Hp Hv Hn. rewrite (Client_View_exchange g c cl addresses canonical lim pkhs) by done. cbn [snd].
  destruct (view_owners p c pkhs lim view Hpow (reachable_inv _ Hpow _ Hreach) Hv) as (owners & _ & Hf).
  destruct (view_response g c _ pkhs) as [r|e] eqn:Er; [|by destruct (read_response_failed (R := ViewResponse) cl _ (writeError_failed g)) as [e' ->]].
  pose proof (view_response_outputs _ _ _ _ _ _ _ Hv Er) as Ho.
  assert (Hbig : failed (writeJSON 200 r)); [|by destruct (read_response_failed (R := ViewResponse) cl _ Hbig) as [e' ->]].
  apply writeJSON_too_large. pose proof (view_length r) as Hl.
  assert (length (vr_Outputs r) = length (wv_SpendableOutputs view)) as Heq by (symmetry; by eapply Forall2_length).
  rewrite Heq in Hl. unfold MaxResponseBytes. cut (115 * Z.of_nat (length (wv_SpendableOutputs view)) <= Z.of_nat (length (Encode r))); [lia|].
  apply Hl. apply list.Forall_forall. intros o [i Hi]%list_elem_of_lookup. destruct (Forall2_lookup_r _ _ _ _ _ Ho Hi) as (so & Hso & ->).
  rewrite length_hex_encode, (vf_ids _ _ _ _ Hf); [done|]. apply elem_of_app. left. apply list_elem_of_fmap_2. by eapply list_elem_of_lookup_2.
Qed.

(** A payment from two addresses of which the wallet at hand knows one: it spends fifty
    coins of each and returns ninety to the first. *)
Definition shared_unsigned : Tx :=
  mkTx 1 [mkTxIn (mkOutPoint (Tx_ID (Toy.coinbase 1 Toy.alice)) 0) [] []; mkTxIn (mkOutPoint (Tx_ID (Toy.coinbase 2 Toy.bob)) 0) [] []]
    [mkTxOut (90 * UnitsPerCoin) (Toy.pkh_of Toy.alice); mkTxOut (9 * UnitsPerCoin) (Toy.pkh_of (bs "carol"))] [].
Definition shared_payment : Tx := match Sign shared_unsigned [Toy.alice; Toy.bob] with Ok t => t | Err _ => shared_unsigned end.
Definition shared_chain : Chain := run_op (run_op Toy.c2 (OpBlock (Some (Toy.mine Toy.c2 Toy.bob [])) Toy.now)) (OpTx (Some shared_payment)).

(** The owners of a view are the requested addresses. *)
Lemma is_owner_requested pkhs allow owners pkh : walletOwners pkhs allow = Ok owners ->
  is_owner owners pkh = bool_decide (pkh ∈ pkhs).
Proof.
  intros Ho. unfold is_owner. apply bool_decide_ext. split.
  - intros [i Hi]. destruct (walletOwners_index _ _ _ _ _ Ho Hi) as [_ Hl]. by eapply list_elem_of_lookup_2.
  - by apply (walletOwners_complete _ _ _ _ Ho).
Qed.

(** The requested addresses take part in a pending payment to somebody else that costs
    them nothing. *)
Record shared_pending (c : Chain) (pkhs : list bytes) (id : Hash32) (tx : Tx) : Prop := {
  sp_pending : c_mempool c !! id = Some tx;
  sp_own : exists i e, i ∈ tx_Ins tx /\ c_utxo c !! in_Prev i = Some e /\ ue_PKH e ∈ pkhs;
  sp_foreign : exists o, o ∈ tx_Outs tx /\ out_PubKeyHash o ∉ pkhs;
  sp_gain : sumZ (own_input (fun pkh => bool_decide (pkh ∈ pkhs)) (c_utxo c) <$> tx_Ins tx)
            <= sumZ (own_output (fun pkh => bool_decide (pkh ∈ pkhs)) <$> tx_Outs tx);
}.

Lemma shared_pending_listed `{Crypto} p c pkhs lim view id tx : pow_params_ok p -> reachable p c ->
  shared_pending c pkhs id tx -> Z.of_nat (size (c_mempool c)) <= lim -> WalletViewForPKHs c pkhs lim = Ok view ->
  exists item, item ∈ wv_Activity view /\ wa_Kind item = ActSent /\ 0 <= wa_NetUnits item.
Proof.
  intros Hpow Hreach [Hid (i & e & Hi & He & Hie) (o & Ho & Hof) Hgain] Hlim Hv. unfold WalletViewForPKHs in Hv. destruct (_ || _); [done|].
  apply bind_Ok in Hv as (owners & Hos & Hv).
  destruct (walletView_parts owners p c lim view Hpow (reachable_inv _ Hpow _ Hreach) Hv) as (created & spent & conf & mem & totals & Hparts).
  assert (Hown : forall pkh, is_owner owners pkh = bool_decide (pkh ∈ pkhs)) by (intros pkh; by apply (is_owner_requested _ true)).
  pose proof (vp_mempool _ _ _ _ _ _ _ _ _ _ Hparts) as Hmem. set (ids := merge_sort bytes_le ((map_to_list (c_mempool c)).*1)) in Hmem.
  assert (Hids : length ids = size (c_mempool c)) by (unfold ids; by rewrite merge_sort_Permutation, length_fmap, length_map_to_list).
  destruct (pending_payment_listed owners created (c_utxo c) (c_mempool c) ids id tx _ _ (vp_matches _ _ _ _ _ _ _ _ _ _ Hparts)
    (vp_owners _ _ _ _ _ _ _ _ _ _ Hparts) Hmem) as (item & Hitem & _ & Hkind & Hunits); [|done| | |].
  { unfold ids. rewrite merge_sort_Permutation. apply list_elem_of_fmap. exists (id, tx). split; [done|]. by apply elem_of_map_to_list. }
  { exists i, e. split_and!; [done..|]. rewrite Hown. by apply bool_decide_eq_true. }
  { exists o. split; [done|]. rewrite Hown. by apply bool_decide_eq_false. }
  destruct (mempool_activity _ _ _ _ _ _ Hmem) as (new & Hnew & Hsub & _). cbn [snd app] in Hnew, Hitem. subst new.
  apply sublist_length in Hsub. rewrite length_fmap, Hids in Hsub. exists item. split_and!; [|done|].
  - rewrite (vp_view _ _ _ _ _ _ _ _ _ _ Hparts). cbn [wv_Activity]. rewrite take_app_ge by lia. apply elem_of_app. by left.
  - rewrite Hunits. assert (Hi' : own_input (is_owner owners) (c_utxo c) <$> tx_Ins tx
      = own_input (fun pkh => bool_decide (pkh ∈ pkhs)) (c_utxo c) <$> tx_Ins tx)
      by (apply list_fmap_ext; intros k x _; unfold own_input; case_match; [by rewrite Hown|done]).
    assert (Ho' : own_output (is_owner owners) <$> tx_Outs tx = own_output (fun pkh => bool_decide (pkh ∈ pkhs)) <$> tx_Outs tx)
      by (apply list_fmap_ext; intros k x _; unfold own_output; by rewrite Hown).
    rewrite Hi', Ho'. lia.
Qed.

(** One item that the gateway does not expect spoils the whole answer. *)
Lemma view_response_item `{Crypto} g c addresses lim pkhs view item r : WalletViewForPKHs c pkhs lim = Ok view -> item ∈ wv_Activity view ->
  view_response g c (mkViewRequest addresses lim) pkhs = Ok r ->
  validGatewayActivity item (ts_Height (wv_Tip view)) (CoinbaseMaturity (c_params c)) = true.
Proof.
  intros Hv Hi Hr. unfold view_response in Hr. cbn [vq_ActivityLimit] in Hr. rewrite Hv in Hr. cbv zeta in Hr.
  apply bind_Ok in Hr as (? & _ & Hr). apply bind_Ok in Hr as ([[? ?] ?] & _ & Hr). apply bind_Ok in Hr as (? & _ & Hr).
  apply bind_Ok in Hr as ([[? ?] ?] & _ & Hr). apply bind_Ok in Hr as (? & _ & Hr). apply bind_Ok in Hr as (activity & Hf & _).
  apply foldM_Forall in Hf. rewrite list.Forall_forall in Hf. destruct (Hf _ Hi) as (t & t' & Ha). cbn beta in Ha.
  apply bind_Ok in Ha as (a & Ha & _). unfold activity_output in Ha. by destruct (validGatewayActivity _ _ _).
Qed.

(** C40: The gateway assumes that a payment with an output to somebody else costs the
    wallet something.  On any reachable chain, while the mempool holds a payment that
    spends an output of the requested addresses, pays somebody else and returns to these
    addresses at least what it took from them (another party has paid the rest), every
    request for the activity of these addresses whose limit reaches over the mempool is
    answered with an error, and the client shows nothing. *)
Theorem shared_payment_hides_activity `{CryptoLaws} `{JsonDecoderLaws} p c g cl addresses canonical pkhs lim id tx :
  pow_params_ok p -> reachable p c ->
  canonicalClientAddresses addresses = Ok canonical -> canonicalPKHs canonical = Ok pkhs ->
  shared_pending c pkhs id tx -> Z.of_nat (size (c_mempool c)) <= lim <= MaxWalletActivityLimit ->
  gateway_do g ViewPath (Marshal (mkViewRequest canonical lim)) c = (c, Ok (writeError g 503 "chain_unavailable")) /\
  is_ok (Client_View (gateway_do g) cl addresses lim c).2 = false.
Proof.
  intros Hpow Hreach Hc Hp Hs Hlim.
  assert (Herr : exists e, view_response g c (mkViewRequest canonical lim) pkhs = Err e).
  { destruct (view_response _ _ _ _) as [r|e] eqn:Er; [exfalso|by exists e]. pose proof Er as Er'. unfold view_response in Er'. cbn [vq_ActivityLimit] in Er'.
    destruct (WalletViewForPKHs c pkhs lim) as [view|] eqn:Hv; [|done]. clear Er'.
    destruct (shared_pending_listed p c pkhs lim view id tx) as (item & Hi & Hk & Hn); [done..|lia|done|].
    pose proof (view_response_item _ _ _ _ _ _ _ _ Hv Hi Er) as Hok. unfold validGatewayActivity in Hok. destruct (_ || _); [done|].
    rewrite Hk, (proj2 (Z.geb_le _ _)) in Hok by lia. done. }
  destruct Herr as [e He]. destruct (canonicalClientAddresses_spec _ _ Hc) as (Hperm & _ & Hn & Hvalid & _). rewrite <- Hperm in Hn. split.
  - unfold gateway_do. rewrite serve_view, (handleView_arrived _ _ _ _ pkhs) by (done || lia). by rewrite He.
  - rewrite (Client_View_exchange g c cl addresses canonical lim pkhs) by (done || lia). rewrite He. cbn [snd].
    by destruct (read_response_failed (R := ViewResponse) cl _ (writeError_failed g)) as [e' ->].
Qed.

Lemma shared_chain_reachable : reachable RegTest shared_chain.
Proof. exact (reach_op _ _ _ (reach_op _ _ _ Toy.toy_c2_reachable)). Qed.

(** In contrast, a request for no activity at the same state is answered. *)
Lemma shared_payment_hides_activity_witness :
  is_ok (Client_View (gateway_do (LightToy.gateway 1)) LightToy.client [LightToy.alice_address] 0 shared_chain).2 = true /\
  is_ok (Client_View (gateway_do (LightToy.gateway 1)) LightToy.client [LightToy.alice_address] 1 shared_chain).2 = false.
Proof.
  split; [vm_compute; reflexivity|].
  refine (proj2 (shared_payment_hides_activity RegTest shared_chain (LightToy.gateway 1) LightToy.client [LightToy.alice_address]
    [LightToy.alice_address] [Toy.pkh_of Toy.alice] 1 (Tx_ID shared_payment) shared_payment pow_params_ok_reg shared_chain_reachable _ _ _ _)).
  - vm_compute. reflexivity.
  - vm_compute. reflexivity.
  - split.
    + vm_compute. reflexivity.
    + exists (nth 0 (tx_Ins shared_payment) (mkTxIn (mkOutPoint [] 0) [] [])), (mkUTXOEntry (50 * UnitsPerCoin) (Toy.pkh_of Toy.alice) 1 true).
      split; [apply list_elem_of_lookup; exists 0%nat; vm_compute; reflexivity|]. split; [vm_compute; reflexivity|by left].
    + exists (mkTxOut (9 * UnitsPerCoin) (Toy.pkh_of (bs "carol"))). split; [apply list_elem_of_lookup; exists 1%nat; vm_compute; reflexivity|].
      intros [Heq|Hn]%elem_of_cons; [vm_compute in Heq; discriminate Heq|by apply not_elem_of_nil in Hn].
    + vm_compute. discriminate.
  - vm_compute. split; discriminate.
Defined.
