(* ===== verification/MobileWallet.v ===== *)
(** * The mobile wallet (mobilewallet/amount.go, models.go, engine.go)

    The engine behind the phone apps: one encrypted wallet file, an unlocked handle for a
    while, a table of signed payments that wait for confirmation, and a wallet service that
    is asked for views and given transactions.

    A method takes the wallet lock, releases it to ask the service, and takes it again; the
    table of payments has a lock of its own.  The calls [View] and [Broadcast] of the
    service are programs on the whole state, so that other methods can run while they are
    under way; [others] is what runs between the two parts of a method, and [confirming]
    what uses the lock of the table while the wallet lock is held.  The result of a method
    is the record whose fields [encodeJSON] prints. *)
From S2P Require Import Prelude Text GoStrings Params Crypto Wire Address Chain ChainView WalletView Wallet WalletSnapshot FileTree WalletPath.
From S2P Require Import Mnemonic Recovery KeyFile GoJson LightGateway LightClient.

(** ** Amounts *)
(** [strconv.ParseUint(s, 10, 64)] *)
Definition uint_digit (v : Z) (c : byte) : result Z :=
  if (b2z c <? 48) || (57 <? b2z c) then Err (EText "invalid syntax") else
  let v := v * 10 + (b2z c - 48) in
  if v >=? two64 then Err (EText "value out of range") else Ok v.
Definition ParseUint (s : bytes) : result Z :=
  if (length s =? 0)%nat then Err (EText "invalid syntax") else foldM uint_digit 0 s.

Definition dot : byte := Byte.x2e.
Definition zero_char : byte := Byte.x30.

Definition parseAmount (text : bytes) (allowZero : bool) : result Z :=
  _ ← check (negb ((length text =? 0)%nat || (32 <? Z.of_nat (length text)))) (EText "invalid decimal length");
  _ ← check (forallb (fun c => negb (((b2z c <? 48) || (b2z c >? 57)) && negb (bool_decide (c = dot)))) text)
        (EText "amount must be a plain decimal");
  let parts := Split dot text in
  let places := EText "amount must have up to eight decimal places" in
  '(whole_part, fraction_part) ← match parts with
                                 | [whole] => Ok (whole, None)
                                 | [whole; fraction] =>
                                     if (length fraction =? 0)%nat || (8 <? Z.of_nat (length fraction))
                                     then Err places else Ok (whole, Some fraction)
                                 | _ => Err places
                                 end;
  _ ← check (negb (length whole_part =? 0)%nat) places;
  let exceeds := EText "amount exceeds the maximum supply" in
  whole ← match ParseUint whole_part with
          | Ok whole => if whole >? 21000000 then Err exceeds else Ok whole
          | Err _ => Err exceeds
          end;
  fraction ← match fraction_part with
             | None => Ok 0
             | Some f => match ParseUint (f ++ replicate (8 - length f) zero_char) with
                         | Ok v => Ok v
                         | Err _ => Err (EText "invalid fractional amount")
                         end
             end;
  _ ← check (negb ((whole =? 21000000) && negb (fraction =? 0))) exceeds;
  let units := u64 (u64 (whole * UnitsPerCoin) + fraction) in
  _ ← check (negb ((units >? MaxMoneyUnits) || (negb allowZero && (units =? 0)))) (EText "amount is out of range");
  Ok units.

(** ** Results *)
Definition mobileSchemaVersion : Z := 1.
Definition walletStateMissing : string := "missing".
Definition walletStateLocked : string := "locked".
Definition walletStateReady : string := "ready".
Definition syncStateOffline : string := "offline".
Definition syncStateLocked : string := "locked".
Definition syncStateConnected : string := "connected".
Definition syncStateUnavailable : string := "unavailable".

Record createResult := mkCreateResult {
  cr_SchemaVersion : Z; cr_Network : string; cr_Address : bytes; cr_RecoveryPhrase : bytes }.
Record statusResult := mkStatus {
  st_SchemaVersion : Z; st_Network : string; st_WalletState : string; st_NeedsUnlock : bool; st_Address : bytes;
  st_BalanceUnits : Z; st_ImmatureUnits : Z; st_SpendableOutputCount : Z; st_BalanceAvailable : bool; st_Height : Z;
  st_TipHash : bytes; st_SyncState : string; st_SendAvailable : bool }.
Record activityItem := mkActivityItem {
  ai_TxID : bytes; ai_Kind : string; ai_Status : string; ai_NetUnits : Z; ai_BlockHeight : Z; ai_Confirmations : Z;
  ai_BlocksUntilMature : Z }.
Record activityResult := mkActivityResult {
  ar_SchemaVersion : Z; ar_Network : string; ar_Height : Z; ar_Items : list activityItem }.
Record receiveResult := mkReceiveResult { rr_SchemaVersion : Z; rr_Address : bytes; rr_QRPNGBase64 : bytes }.
Record sendPreview := mkSendPreview {
  pv_SchemaVersion : Z; pv_PendingID : bytes; pv_Destination : bytes; pv_AmountUnits : Z; pv_FeeUnits : Z;
  pv_TotalUnits : Z; pv_TxID : bytes; pv_SelectedInputs : list bytes; pv_ChainHeight : Z; pv_ExpiresAtUnix : Z;
  pv_ConfirmationCode : bytes }.
Record sendResult := mkSendResult { sd_SchemaVersion : Z; sd_TxID : bytes; sd_Status : string; sd_PeerWrites : Z }.

(** ** The engine *)
Definition deviceKeyBytes : nat := 32.
Definition defaultFeeUnits : Z := 10000.
(** in nanoseconds, as the clock *)
Definition pendingLifetime : Z := 5 * 60 * 1000000000.
Definition maximumPending : nat := 16.
Definition mobileWalletFile : bytes := bs "btc09-wallet-v2.dat".
Definition maximumPendingLen : nat := 128.

Record pendingPayment := mkPending { pd_transaction : Tx; pd_expiresAt : Z; pd_inFlight : bool }.
Record Engine := mkEngine {
  en_walletPath : path; en_network : string; en_unlocked : option walletHandle; en_walletGeneration : Z;
  en_pending : gmap bytes pendingPayment }.

Definition Mainnet : string := MainNetMachineID.
Definition DefaultFee : Z := defaultFeeUnits.

(** The text of an absolute path. *)
Definition path_text (p : path) : bytes := flat_map (fun name => Byte.x2f :: name) p.

Definition upper (c : byte) : byte := if (97 <=? b2z c) && (b2z c <=? 122) then z2b (b2z c - 32) else c.
Definition ToUpper (s : bytes) : bytes := map upper s.

Definition copyDeviceKey (deviceKey : bytes) : result bytes :=
  if negb (length deviceKey =? deviceKeyBytes)%nat then Err (EText "The device security key is not valid.") else Ok deviceKey.

Definition walletServiceError : error :=
  EText "The BTC09 wallet service is temporarily unavailable. Your funds are safe; try again.".

Definition remote_outpoint (output : SnapshotOutput) : result RemoteSnapshotOutpoint :=
  match hex_decode (lo_TxID output) with
  | Ok transactionID => if (length transactionID =? 32)%nat
      then Ok (mkRemoteOut transactionID (lo_Vout output) (lo_AmountUnits output) (lo_Address output))
      else Err (EText "invalid wallet service transaction")
  | Err _ => Err (EText "invalid wallet service transaction")
  end.
Definition remoteSnapshot (response : ViewResponse) : result RemoteSnapshot :=
  match hex_decode (tp_Hash (vr_Tip response)) with
  | Err _ => Err (EText "invalid wallet service tip")
  | Ok tipBytes =>
      if negb (length tipBytes =? 32)%nat then Err (EText "invalid wallet service tip") else
      outpoints ← foldM (fun l output => o ← remote_outpoint output; Ok (l ++ [o])) [] (vr_Outputs response);
      Ok (mkRemote (vr_Network response) (mkTipSnapshot (vr_Network response) tipBytes (tp_Height (vr_Tip response)))
            (vr_Addresses response) outpoints (vr_SpendableUnits response))
  end.

Section mobile.
Context `{Crypto} `{WordList} `{RecoveryCrypto} `{RecoveryJson} `{KeyJson} `{WalletFs}.
(** The state of the wallet service. *)
Context {G : Type}.

Record device := mkDevice { dv_engine : Engine; dv_world : world; dv_service : G }.
Abbreviation app := (prog device).

Definition disk {A} (m : io A) : app A := fun d =>
  let (w, r) := m (dv_world d) in (mkDevice (dv_engine d) w (dv_service d), r).
Definition service {A} (m : prog G A) : app A := fun d =>
  let (g, r) := m (dv_service d) in (mkDevice (dv_engine d) (dv_world d) g, r).
Definition get_engine : app Engine := fun d => (d, Ok (dv_engine d)).
Definition put_engine (e : Engine) : app unit := fun d => (mkDevice e (dv_world d) (dv_service d), Ok tt).
Definition set_pending (pending : gmap bytes pendingPayment) (e : Engine) : Engine :=
  mkEngine (en_walletPath e) (en_network e) (en_unlocked e) (en_walletGeneration e) pending.
(** [if err != nil { return "", errors.New(message) }] *)
Definition saying {S A} (message : string) (m : prog S A) : prog S A := fun s =>
  let (s', r) := m s in (s', match r with Ok a => Ok a | Err _ => Err (EText message) end).

(** *** The wallet operations on the file *)
Definition handle_addresses (w : walletHandle) : io (list bytes) :=
  with_keys (Some w) false (fun keys => Ok (addressForKey <$> keys)).
Definition handle_validate (w : walletHandle) (remote : RemoteSnapshot) : io Snapshot :=
  with_keys (Some w) true (fun keys => snapshotFromRemoteWithKeys (wh_network w) remote keys).
Definition handle_prepare (w : walletHandle) (remote : RemoteSnapshot) (toAddr : bytes) (amount fee : Z)
    (excluded : gset OutPoint) : io (Snapshot * PreparedPayment) :=
  toPKH ← lift (validatePaymentValues toAddr amount fee excluded);
  with_keys (Some w) true (fun keys =>
    _ ← rejectOwnedDestination keys toPKH;
    snapshot ← snapshotFromRemoteWithKeys (wh_network w) remote keys;
    prepared ← buildPaymentFromSnapshot keys snapshot toPKH amount fee excluded;
    _ ← validateSelectedAnchored (pp_SelectedOutpoints prepared) (anchoredOutpoints snapshot);
    Ok (snapshot, prepared)).

(** *** Construction *)
Definition newEngine (storageDirectory : bytes) (network : string) : io Engine :=
  _ ← guard (String.eqb network MainNetMachineID || String.eqb network RegTestMachineID)
        (EText "The BTC09 wallet configuration is not valid.");
  _ ← guard (negb (length (TrimSpace storageDirectory) =? 0)%nat) (EText "The app storage directory is not available.");
  absolute ← saying "The app storage directory is not available." (lift (Abs storageDirectory));
  _ ← saying "The app storage directory could not be opened." (MkdirAll_links absolute);
  info ← saying "The app storage directory could not be opened." (Stat absolute);
  _ ← guard (bool_decide (info = NDir)) (EText "The app storage directory could not be opened.");
  mret (mkEngine (absolute ++ [mobileWalletFile]) network None 0 ∅).
Definition NewEngine (storageDirectory gatewayURL : bytes) (parsed : result parsed_url) (network : string)
    : io (Engine * Client) :=
  client ← saying "The BTC09 wallet service address is not valid." (lift (NewClient gatewayURL parsed network));
  e ← newEngine storageDirectory network;
  mret (e, client).

Definition ValidAddress (value : bytes) : bool :=
  match DecodeAddress value with Ok decoded => bool_decide (EncodeAddress decoded = value) | Err _ => false end.

(** *** Pending payments *)
Definition prunePendingLocked : app unit :=
  now ← disk time_now;
  e ← get_engine;
  put_engine (set_pending (filter (fun '(_, pending) => now < pd_expiresAt pending) (en_pending e)) e).

Definition pendingRestrictions : app (gset OutPoint) :=
  _ ← prunePendingLocked;
  e ← get_engine;
  _ ← guard (size (en_pending e) <? maximumPending)%nat (EText "Finish or cancel an existing payment review first.");
  mret (list_to_set (flat_map (fun '(_, payment) => in_Prev <$> tx_Ins (pd_transaction payment)) (map_to_list (en_pending e)))).

Definition storePending (transaction : Tx) : app (bytes * Z) :=
  randomID ← saying "The payment preview could not be saved." (disk (rand_read 32));
  let pendingID := hex_encode randomID in
  now ← disk time_now;
  let expiresAt := now + pendingLifetime in
  _ ← prunePendingLocked;
  e ← get_engine;
  _ ← guard (size (en_pending e) <? maximumPending)%nat (EText "Finish or cancel an existing payment review first.");
  _ ← guard (bool_decide (en_pending e !! pendingID = None)) (EText "The payment preview could not be saved.");
  _ ← put_engine (set_pending (<[pendingID := mkPending transaction expiresAt false]> (en_pending e)) e);
  mret (pendingID, expiresAt).

(** [previous.Close] wipes a handle that nothing refers to any more. *)
Definition replaceUnlocked (next : walletHandle) : app unit :=
  e ← get_engine;
  put_engine (mkEngine (en_walletPath e) (en_network e) (Some next) (u64 (en_walletGeneration e + 1)) ∅).

Definition Lock : app unit :=
  e ← get_engine;
  put_engine (mkEngine (en_walletPath e) (en_network e) None (u64 (en_walletGeneration e + 1)) ∅).
Definition engine_Close : app unit := Lock.

Definition localStatusLocked : app (statusResult * list bytes * Z) :=
  e ← get_engine;
  let base := mkStatus mobileSchemaVersion (en_network e) walletStateMissing false [] 0 0 0 false 0 [] syncStateOffline false in
  match en_unlocked e with
  | None =>
      r ← try (disk (Stat (en_walletPath e)));
      match r with
      | Ok _ => mret (mkStatus mobileSchemaVersion (en_network e) walletStateLocked true [] 0 0 0 false 0 [] syncStateLocked false,
                      [], en_walletGeneration e)
      | Err err => if errors_Is err ErrNotExist then mret (base, [], en_walletGeneration e)
                   else fail (EText "The wallet file could not be checked safely.")
      end
  | Some w =>
      let unreadable := "The wallet could not read its receive address."%string in
      addresses ← saying unreadable (disk (handle_addresses w));
      match addresses with
      | [] => fail (EText unreadable)
      | address :: _ =>
          mret (mkStatus mobileSchemaVersion (en_network e) walletStateReady false address 0 0 0 false 0 [] syncStateUnavailable false,
                addresses, en_walletGeneration e)
      end
  end.

(** The handle, if the wallet is still the one that the service was asked about. *)
Definition same_wallet (generation : Z) (e : Engine) : option walletHandle :=
  if en_walletGeneration e =? generation then en_unlocked e else None.
(** The handle with its addresses and generation, or the error of a locked wallet. *)
Definition wallet_in_use (locked_message unreadable : string) : app (list bytes * Z) :=
  e ← get_engine;
  match en_unlocked e with
  | None => fail (EText locked_message)
  | Some w =>
      addresses ← saying unreadable (disk (handle_addresses w));
      _ ← guard (negb (length addresses =? 0)%nat) (EText unreadable);
      mret (addresses, en_walletGeneration e)
  end.

(** *** With the service *)
Context (View : list bytes -> Z -> app ViewResponse) (Broadcast : Tx -> app BroadcastResponse).
Context (others confirming : app unit) (qr_png : bytes -> result bytes) (cpus : Z).

Definition CreateWallet (deviceKey : bytes) : app createResult :=
  key ← lift (copyDeviceKey deviceKey);
  e ← get_engine;
  '(unlocked, phrase) ← saying "A wallet already exists on this device, or the new wallet could not be saved safely."
                          (disk (CreateV2 cpus (path_text (en_walletPath e)) (en_network e) key));
  r ← try (disk (handle_addresses unlocked));
  match r with
  | Ok [address] =>
      _ ← replaceUnlocked unlocked;
      mret (mkCreateResult mobileSchemaVersion (en_network e) address phrase)
  | _ => fail (EText "The new wallet could not be opened safely.")
  end.

Definition Status : app statusResult :=
  '(base, addresses, generation) ← localStatusLocked;
  if (length addresses =? 0)%nat then mret base else
  viewed ← try (View addresses 0);
  let snapshot := view ← viewed; remoteSnapshot view in
  e ← get_engine;
  match same_wallet generation e with
  | None => '(current, _, _) ← localStatusLocked; mret current
  | Some w =>
      match viewed, snapshot with
      | Ok view, Ok remote =>
          r ← try (disk (handle_validate w remote));
          match r with
          | Err _ => mret base
          | Ok validated =>
              mret (mkStatus (st_SchemaVersion base) (st_Network base) (st_WalletState base) (st_NeedsUnlock base) (st_Address base)
                      (sp_SpendableUnits validated) (vr_ImmatureUnits view) (Z.of_nat (length (sp_Outpoints validated))) true
                      (tp_Height (vr_Tip view)) (tp_Hash (vr_Tip view)) syncStateConnected true)
          end
      | _, _ => mret base
      end
  end.

Definition RestoreWallet (deviceKey recoveryPhrase : bytes) : app statusResult :=
  key ← lift (copyDeviceKey deviceKey);
  e ← get_engine;
  unlocked ← saying "Check all 24 recovery words. A wallet may already exist on this device."
               (disk (RestoreV2 cpus (path_text (en_walletPath e)) (en_network e) key recoveryPhrase 1));
  _ ← replaceUnlocked unlocked;
  _ ← others;
  Status.

Definition Unlock (deviceKey : bytes) : app statusResult :=
  key ← lift (copyDeviceKey deviceKey);
  e ← get_engine;
  unlocked ← saying "The device could not unlock this wallet."
               (disk (OpenV2 (path_text (en_walletPath e)) (en_network e) key));
  _ ← replaceUnlocked unlocked;
  _ ← others;
  Status.

Definition engine_RecoveryPhrase (deviceKey : bytes) : app bytes :=
  key ← lift (copyDeviceKey deviceKey);
  e ← get_engine;
  verified ← saying "The device could not unlock this wallet."
               (disk (OpenV2 (path_text (en_walletPath e)) (en_network e) key));
  saying "The recovery words could not be read safely." (disk (RecoveryPhrase (Some verified))).

Definition activity_item (item : ViewActivityItem) : activityItem :=
  mkActivityItem (va_TxID item) (va_Kind item) (va_Status item) (va_NetUnits item) (va_BlockHeight item) (va_Confirmations item)
    (va_BlocksUntilMature item).

Definition Activity (limit : Z) : app activityResult :=
  _ ← guard (negb ((limit <? 1) || (limit >? MaxWalletActivityLimit)))
        (ENum "Choose between 1 and %d recent transactions." [MaxWalletActivityLimit]);
  '(addresses, generation) ← wallet_in_use "Unlock your wallet to see its activity."
                               "The wallet could not read its activity safely.";
  view ← try (View addresses limit);
  view ← lift (match view with Ok view => Ok view | Err _ => Err walletServiceError end);
  snapshot ← lift (match remoteSnapshot view with Ok s => Ok s | Err _ => Err walletServiceError end);
  e ← get_engine;
  match same_wallet generation e with
  | None => fail (EText "Unlock your wallet to see its activity.")
  | Some w =>
      r ← try (disk (handle_validate w snapshot));
      match r with
      | Err _ => fail walletServiceError
      | Ok _ => mret (mkActivityResult mobileSchemaVersion (en_network e) (tp_Height (vr_Tip view))
                        (activity_item <$> vr_Activity view))
      end
  end.

Definition Receive : app receiveResult :=
  '(addresses, _) ← wallet_in_use "Unlock your wallet to receive 09C." "The wallet could not read its receive address.";
  address ← lift (deref (head addresses) "index out of range");
  png ← saying "The receive QR code could not be created." (lift (qr_png address));
  mret (mkReceiveResult mobileSchemaVersion address (b64_encode std_alphabet png)).

Definition PreviewSend (destination amountText feeText : bytes) : app sendPreview :=
  amount ← saying "Enter a valid 09C amount with up to eight decimal places." (lift (parseAmount amountText false));
  let bad_fee := "Enter a valid fee with up to eight decimal places."%string in
  fee ← saying bad_fee (lift (parseAmount feeText true));
  _ ← guard (negb (amount >? MaxMoneyUnits - fee)) (EText bad_fee);
  _ ← guard (ValidAddress destination) (EText "Enter a valid BTC09 recipient address.");
  '(addresses, generation) ← wallet_in_use "Unlock your wallet before sending 09C."
                               "The wallet could not prepare this payment safely.";
  view ← try (View addresses 0);
  view ← lift (match view with Ok view => Ok view | Err _ => Err walletServiceError end);
  remote ← lift (match remoteSnapshot view with Ok s => Ok s | Err _ => Err walletServiceError end);
  e ← get_engine;
  match same_wallet generation e with
  | None => fail (EText "Unlock your wallet before sending 09C.")
  | Some w =>
      restricted ← pendingRestrictions;
      _ ← confirming;
      '(validated, prepared) ←
        saying "The payment could not be prepared. Check the address, amount, fee, and balance."
          (disk (handle_prepare w remote destination amount fee restricted));
      _ ← confirming;
      '(pendingID, expiresAt) ← storePending (pp_Tx prepared);
      let transactionID := Tx_ID (pp_Tx prepared) in
      mret (mkSendPreview mobileSchemaVersion pendingID destination amount fee (amount + fee) (hex_encode transactionID)
              ((fun op => outpoint_text (op_TxID op) (op_Idx op)) <$> pp_SelectedOutpoints prepared)
              (ts_Height (sp_Tip validated)) (expiresAt / 1000000000) (ToUpper (hex_encode (take 3 transactionID))))
  end.

Definition pending_id_ok (pendingID : bytes) : bool :=
  negb ((length pendingID =? 0)%nat || (maximumPendingLen <? length pendingID)%nat).
Definition set_in_flight (inFlight : bool) (p : pendingPayment) : pendingPayment :=
  mkPending (pd_transaction p) (pd_expiresAt p) inFlight.

(** Taking a payment from the table to send it. *)
Definition claim_pending (pendingID : bytes) : app Tx :=
  e ← get_engine;
  match en_pending e !! pendingID with
  | None => fail (EText "That payment preview is no longer available.")
  | Some pending =>
      now ← disk time_now;
      if negb (now <? pd_expiresAt pending) then
        _ ← put_engine (set_pending (delete pendingID (en_pending e)) e);
        fail (EText "That payment preview expired. Review it again.")
      else if pd_inFlight pending then fail (EText "That payment is already being sent.")
      else
        _ ← put_engine (set_pending (<[pendingID := set_in_flight true pending]> (en_pending e)) e);
        mret (pd_transaction pending)
  end.

Definition accepted_response (e : Engine) (txID : bytes) (response : BroadcastResponse) : bool :=
  (br_SchemaVersion response =? LightGateway.SchemaVersion) && String.eqb (br_Network response) (en_network e)
  && bool_decide (br_TxID response = txID) && String.eqb (br_Status response) "submitted" && (br_PeerWrites response >? 0)
  && (String.eqb (br_Admission response) (admission_text TxAcceptanceAdded)
      || String.eqb (br_Admission response) (admission_text TxAcceptanceAlreadyKnown)).

Definition ConfirmSend (pendingID : bytes) : app sendResult :=
  _ ← guard (pending_id_ok pendingID) (EText "That payment preview is not valid.");
  transaction ← claim_pending pendingID;
  r ← try (Broadcast transaction);
  let txID := hex_encode (Tx_ID transaction) in
  e ← get_engine;
  match r with
  | Ok response =>
      if accepted_response e txID response then
        _ ← put_engine (set_pending (delete pendingID (en_pending e)) e);
        mret (mkSendResult mobileSchemaVersion txID (br_Status response) (br_PeerWrites response))
      else
        _ ← put_engine (set_pending (alter (set_in_flight false) pendingID (en_pending e)) e);
        fail (EText "The payment could not reach the BTC09 network. Check the connection and try again.")
  | Err _ =>
      _ ← put_engine (set_pending (alter (set_in_flight false) pendingID (en_pending e)) e);
      fail (EText "The payment could not reach the BTC09 network. Check the connection and try again.")
  end.

Definition CancelSend (pendingID : bytes) : app unit :=
  _ ← guard (pending_id_ok pendingID) (EText "That payment preview is not valid.");
  e ← get_engine;
  if match en_pending e !! pendingID with Some pending => pd_inFlight pending | None => false end
  then fail (EText "That payment is already being sent.")
  else put_engine (set_pending (delete pendingID (en_pending e)) e).
End mobile.
Arguments device : clear implicits.
