(* ===== verification/MobileProofs.v ===== *)
(** * Reasoning about the mobile wallet

    Decimal amounts, the table of pending payments under interleaved methods, and the
    connection of a preview with the chain behind an honest gateway. *)
From S2P Require Import Prelude Text GoStrings Params Crypto Wire Address Chain ChainView WalletView Wallet WalletSnapshot FileTree WalletPath.
From S2P Require Import Mnemonic Recovery KeyFile GoJson LightGateway LightClient MobileWallet FileTree.
From S2P Require Import Pow Merkle Ledger ChainInv WalletViewProofs WalletViewFacts WalletProofs WalletSendProofs WalletTheorems KeyTheorems.
From S2P Require Import LightProofs LightTheorems.

(** ** Decimal amounts *)
Definition digits (s : bytes) : Prop := Forall (fun c => 48 <= b2z c <= 57) s.

(** The text is a decimal number of coins with at most eight decimals, worth [units]. *)
Definition denotes (text : bytes) (units : Z) : Prop :=
  (text <> [] /\ digits text /\ units = dec_value text * UnitsPerCoin) \/
  exists whole fraction, text = whole ++ dot :: fraction /\ whole <> [] /\ digits whole /\ digits fraction /\
    1 <= Z.of_nat (length fraction) <= 8 /\
    units * 10 ^ Z.of_nat (length fraction)
      = (dec_value whole * 10 ^ Z.of_nat (length fraction) + dec_value fraction) * UnitsPerCoin.

Lemma dec_fold_mono s : digits s -> forall v, 0 <= v -> v <= foldl dec_step v s.
Proof.
  induction 1 as [|c s Hc _ IH]; intros v Hv; cbn [foldl]; [lia|].
  assert (v <= dec_step v c) by (unfold dec_step; lia). specialize (IH (dec_step v c) ltac:(lia)). lia.
Qed.
Lemma dec_value_nonneg s : digits s -> 0 <= dec_value s.
Proof. intros Hs. by apply dec_fold_mono. Qed.

Lemma uint_digits s : forall v r, 0 <= v < two64 ->
  foldM uint_digit v s = Ok r <-> digits s /\ r = foldl dec_step v s /\ r < two64.
Proof.
  induction s as [|c s IH]; intros v r Hv; cbn [foldM foldl].
  - split; [intros [= <-]; split_and!; [constructor|done|lia]|by intros (_ & -> & _)].
  - unfold uint_digit at 1. destruct ((b2z c <? 48) || (57 <? b2z c)) eqn:E.
    + split; [done|]. intros (Hd & _). apply Forall_cons in Hd as [Hc _]. apply orb_true_iff in E as [E|E]; apply Z.ltb_lt in E; lia.
    + apply orb_false_iff in E as [E1%Z.ltb_ge E2%Z.ltb_ge]. cbn zeta. replace (v * 10 + (b2z c - 48)) with (dec_step v c) by (unfold dec_step; lia). rewrite Z.geb_leb.
      assert (0 <= dec_step v c) by (unfold dec_step; lia).
      destruct (Z.leb_spec two64 (dec_step v c)) as [Hl|Hl].
      * split; [done|]. intros (Hd & -> & Hlt). apply Forall_cons in Hd as [_ Hd]. pose proof (dec_fold_mono s Hd (dec_step v c)). lia.
      * rewrite IH by lia. unfold digits. rewrite Forall_cons. split; intros Hx; [destruct Hx as (?&?&?)|destruct Hx as ([??]&?&?)]; split_and!; try done; lia.
Qed.

Lemma ParseUint_spec s r : ParseUint s = Ok r <-> s <> [] /\ digits s /\ r = dec_value s /\ r < two64.
Proof.
  unfold ParseUint. destruct s as [|c s]; [cbn; split; [done|by intros []]|]. cbn [length Nat.eqb].
  rewrite uint_digits by (split; [done|reflexivity]). unfold dec_value. split; [intros Hx; split; [done|exact Hx]|by intros []].
Qed.

Lemma dec_value_zeros s n : dec_value (s ++ replicate n zero_char) = dec_value s * 10 ^ Z.of_nat n.
Proof.
  unfold dec_value. rewrite foldl_app. generalize (foldl dec_step 0 s). induction n as [|n IH]; intros v; cbn [replicate foldl].
  - rewrite Z.pow_0_r. lia.
  - rewrite IH. replace (dec_step v zero_char) with (10 * v) by (unfold dec_step; change (b2z zero_char) with 48; lia).
    rewrite Nat2Z.inj_succ, Z.pow_succ_r by lia. lia.
Qed.
Lemma dec_value_bound s : digits s -> dec_value s < 10 ^ Z.of_nat (length s).
Proof.
  intros Hs. unfold dec_value. enough (Hg : forall v, foldl dec_step v s < (v + 1) * 10 ^ Z.of_nat (length s)) by (specialize (Hg 0); lia).
  induction Hs as [|c s Hc _ IH]; intros v; cbn [foldl length]; [rewrite Z.pow_0_r; lia|].
  specialize (IH (dec_step v c)). rewrite Nat2Z.inj_succ, Z.pow_succ_r by lia.
  assert (0 < 10 ^ Z.of_nat (length s)) by (apply Z.pow_pos_nonneg; lia).
  assert (dec_step v c + 1 <= 10 * (v + 1)) by (unfold dec_step; lia). nia.
Qed.

Lemma Split_none c s : c ∉ s -> Split c s = [s].
Proof.
  induction s as [|x s IH]; [done|]. intros Hs. apply not_elem_of_cons in Hs as [Hx Hs]. cbn [Split].
  rewrite bool_decide_eq_false_2 by congruence. by rewrite IH.
Qed.
Lemma Split_first c w s : c ∉ w -> Split c (w ++ c :: s) = w :: Split c s.
Proof.
  induction w as [|x w IH]; intros Hw; cbn [app Split]; [by rewrite bool_decide_eq_true_2|].
  apply not_elem_of_cons in Hw as [Hx Hw]. rewrite bool_decide_eq_false_2 by congruence. by rewrite IH.
Qed.
(** The parts of a text give it back. *)
Lemma Split_parts c s : exists p ps, Split c s = p :: ps /\ s = p ++ flat_map (cons c) ps /\ c ∉ p.
Proof.
  induction s as [|x s (p & ps & Hs & Heq & Hp)]; [exists [], []; split_and!; [done|done|apply not_elem_of_nil]|]. cbn [Split].
  case_bool_decide as Hx.
  - subst x. exists [], (p :: ps). split_and!; [by rewrite Hs|cbn; by rewrite Heq at 1|apply not_elem_of_nil].
  - rewrite Hs. exists (x :: p), ps. split_and!; [done|cbn; by rewrite Heq at 1|]. apply not_elem_of_cons. split; [congruence|done].
Qed.
Lemma digits_no_dot s : digits s -> dot ∉ s.
Proof. intros Hs Hin. unfold digits in Hs. rewrite list.Forall_forall in Hs. specialize (Hs _ Hin). change (b2z dot) with 46 in Hs. lia. Qed.

(** The last part of [parseAmount], from the two numbers. *)
Definition amount_of (allowZero : bool) (whole fraction : Z) : result Z :=
  _ ← check (negb ((whole =? 21000000) && negb (fraction =? 0))) (EText "amount exceeds the maximum supply");
  let units := u64 (u64 (whole * UnitsPerCoin) + fraction) in
  _ ← check (negb ((units >? MaxMoneyUnits) || (negb allowZero && (units =? 0)))) (EText "amount is out of range");
  Ok units.

Lemma amount_of_spec allowZero whole fraction units : 0 <= whole <= 21000000 -> 0 <= fraction < 100000000 ->
  amount_of allowZero whole fraction = Ok units <->
  units = whole * UnitsPerCoin + fraction /\ units <= MaxMoneyUnits /\ (units = 0 -> allowZero = true).
Proof.
  intros Hw Hf. unfold amount_of, MaxMoneyUnits, UnitsPerCoin, u64, two64. rewrite (Z.mod_small (whole * _)), Z.mod_small by lia.
  set (u := whole * 100000000 + fraction). rewrite Z.gtb_ltb.
  destruct (Z.eqb_spec whole 21000000), (Z.eqb_spec fraction 0); cbn [andb negb check mbind result_bind];
    try (split; [done|]; intros (-> & Hm & _); unfold u in Hm; lia).
  all: destruct (Z.ltb_spec (21000000 * 100000000) u); cbn [orb negb check mbind result_bind]; [split; [done|]; intros (-> & Hm & _); lia|].
  all: destruct allowZero; cbn [negb andb check mbind result_bind]; [split; [intros [= <-]; split_and!; done|by intros (-> & _)]|].
  all: destruct (Z.eqb_spec u 0) as [Hz|Hz]; cbn [negb check mbind result_bind].
  all: try (split; [done|]; intros (-> & _ & Hzero); by specialize (Hzero Hz)).
  all: split; [intros [= <-]; split_and!; [done|lia|done]|by intros (-> & _)].
Qed.

Lemma plain_decimal text : forallb (fun c => negb (((b2z c <? 48) || (b2z c >? 57)) && negb (bool_decide (c = dot)))) text = true <->
  Forall (fun c => 48 <= b2z c <= 57 \/ c = dot) text.
Proof.
  rewrite forallb_forall, list.Forall_forall. setoid_rewrite <- list_elem_of_In. apply forall_proper. intros c. apply forall_proper. intros _.
  rewrite negb_true_iff, andb_false_iff, orb_false_iff, negb_false_iff, bool_decide_eq_true, Z.gtb_ltb, !Z.ltb_ge. tauto.
Qed.
Lemma whole_value p whole : (match ParseUint p with
          | Ok whole => if whole >? 21000000 then Err (EText "amount exceeds the maximum supply") else Ok whole
          | Err _ => Err (EText "amount exceeds the maximum supply")
          end) = Ok whole <-> p <> [] /\ digits p /\ whole = dec_value p /\ whole <= 21000000.
Proof.
  destruct (ParseUint p) as [w|e] eqn:E.
  - apply ParseUint_spec in E as (Hn & Hd & -> & Hlt). rewrite Z.gtb_ltb. destruct (Z.ltb_spec 21000000 (dec_value p)).
    + split; [done|]. intros (_ & _ & -> & ?). lia.
    + split; [intros [= <-]; done|by intros (_ & _ & -> & _)].
  - split; [done|]. intros (Hn & Hd & -> & Hle). rewrite (proj2 (ParseUint_spec p (dec_value p))) in E; [done|].
    split_and!; try done. unfold two64. lia.
Qed.
Lemma fraction_value f v : Z.of_nat (length f) <= 8 -> f <> [] ->
  (match ParseUint (f ++ replicate (8 - length f) zero_char) with
   | Ok v => Ok v
   | Err _ => Err (EText "invalid fractional amount")
   end) = Ok v <-> digits f /\ v = dec_value f * 10 ^ (8 - Z.of_nat (length f)).
Proof.
  intros Hl Hn. assert (Hzeros : digits (replicate (8 - length f) zero_char)).
  { apply Forall_replicate. change (b2z zero_char) with 48. lia. }
  assert (Hv : dec_value (f ++ replicate (8 - length f) zero_char) = dec_value f * 10 ^ (8 - Z.of_nat (length f)))
    by (rewrite dec_value_zeros; repeat f_equal; lia).
  destruct (ParseUint _) as [w|e] eqn:E.
  - apply ParseUint_spec in E as (_ & Hd & -> & _). apply Forall_app in Hd as [Hd _]. rewrite Hv.
    split; [by intros [= <-]|by intros (_ & ->)].
  - split; [done|]. intros (Hd & ->). rewrite (proj2 (ParseUint_spec _ (dec_value (f ++ replicate (8 - length f) zero_char)))) in E; [done|].
    split_and!; [by destruct f| |done|].
    + by apply Forall_app.
    + pose proof (dec_value_bound (f ++ replicate (8 - length f) zero_char)) as Hb. rewrite length_app, length_replicate in Hb.
      replace (Z.of_nat (length f + (8 - length f))) with 8 in Hb by lia.
      eapply Z.lt_trans; [apply Hb; by apply Forall_app|reflexivity].
Qed.
Lemma fraction_range f : digits f -> Z.of_nat (length f) <= 8 -> 0 <= dec_value f * 10 ^ (8 - Z.of_nat (length f)) < 100000000.
Proof.
  intros Hd Hl. pose proof (dec_value_nonneg f Hd). pose proof (dec_value_bound f Hd).
  assert (0 < 10 ^ (8 - Z.of_nat (length f))) by (apply Z.pow_pos_nonneg; lia).
  assert (10 ^ Z.of_nat (length f) * 10 ^ (8 - Z.of_nat (length f)) = 100000000) by (rewrite <- Z.pow_add_r by lia; by replace (_ + _) with 8 by lia).
  nia.
Qed.

(** *** The two shapes of an amount *)
Lemma parse_whole text allowZero : Z.of_nat (length text) <= 32 -> text <> [] -> Forall (fun c => 48 <= b2z c <= 57 \/ c = dot) text ->
  dot ∉ text -> parseAmount text allowZero =
  (whole ← match ParseUint text with
           | Ok whole => if whole >? 21000000 then Err (EText "amount exceeds the maximum supply") else Ok whole
           | Err _ => Err (EText "amount exceeds the maximum supply")
           end; amount_of allowZero whole 0).
Proof.
  intros Hl Hn Hp Hd. unfold parseAmount. rewrite (proj2 (Z.ltb_ge _ _)) by lia. rewrite (proj2 (plain_decimal text) Hp), Split_none by done.
  destruct text as [|c text]; [done|]. reflexivity.
Qed.
Lemma parse_parts w f allowZero : Z.of_nat (length (w ++ dot :: f)) <= 32 -> Forall (fun c => 48 <= b2z c <= 57 \/ c = dot) (w ++ dot :: f) ->
  dot ∉ w -> dot ∉ f -> w <> [] -> 1 <= Z.of_nat (length f) <= 8 -> parseAmount (w ++ dot :: f) allowZero =
  (whole ← match ParseUint w with
           | Ok whole => if whole >? 21000000 then Err (EText "amount exceeds the maximum supply") else Ok whole
           | Err _ => Err (EText "amount exceeds the maximum supply")
           end;
   fraction ← match ParseUint (f ++ replicate (8 - length f) zero_char) with
              | Ok v => Ok v
              | Err _ => Err (EText "invalid fractional amount")
              end; amount_of allowZero whole fraction).
Proof.
  intros Hl Hp Hw Hf Hn Hlf. unfold parseAmount. rewrite (proj2 (Z.ltb_ge 32 _)) by lia. rewrite (proj2 (plain_decimal _) Hp), Split_first, Split_none by done.
  replace (length (w ++ dot :: f) =? 0)%nat with false by (symmetry; apply Nat.eqb_neq; rewrite length_app; cbn; lia).
  cbn [orb negb check mbind result_bind]. rewrite (proj2 (Z.ltb_ge 8 _)) by lia.
  replace (length f =? 0)%nat with false by (symmetry; apply Nat.eqb_neq; lia). destruct w; done.
Qed.

Lemma whole_decimal text allowZero units : text <> [] -> Z.of_nat (length text) <= 32 -> digits text ->
  parseAmount text allowZero = Ok units <->
  units = dec_value text * UnitsPerCoin /\ units <= MaxMoneyUnits /\ (units = 0 -> allowZero = true).
Proof.
  intros Hn Hl Hd. pose proof (dec_value_nonneg _ Hd) as H0.
  rewrite parse_whole; [|done..|eapply Forall_impl; [exact Hd|]; by left|by apply digits_no_dot].
  destruct (match ParseUint text with Ok _ => _ | Err _ => _ end) as [whole|e] eqn:Ew.
  - apply whole_value in Ew as (_ & _ & -> & Hle). cbn [mbind result_bind]. rewrite amount_of_spec by lia. by rewrite Z.add_0_r.
  - split; [done|]. intros (-> & Hm & _). rewrite (proj2 (whole_value text (dec_value text))) in Ew; [done|]. split_and!; try done.
    unfold MaxMoneyUnits, UnitsPerCoin in Hm. lia.
Qed.

Lemma point_decimal w f allowZero units : w <> [] -> 1 <= Z.of_nat (length f) <= 8 -> Z.of_nat (length (w ++ dot :: f)) <= 32 ->
  digits w -> digits f ->
  parseAmount (w ++ dot :: f) allowZero = Ok units <->
  units = dec_value w * UnitsPerCoin + dec_value f * 10 ^ (8 - Z.of_nat (length f)) /\ units <= MaxMoneyUnits /\ (units = 0 -> allowZero = true).
Proof.
  intros Hn Hlf Hl Hw Hf. pose proof (dec_value_nonneg _ Hw) as H0. pose proof (fraction_range f Hf ltac:(lia)) as Hfr.
  assert (Hfn : f <> []) by (intros ->; cbn in Hlf; lia).
  assert (Hplain : forall s, digits s -> Forall (fun c => 48 <= b2z c <= 57 \/ c = dot) s).
  { intros s Hs. eapply Forall_impl; [exact Hs|]. by left. }
  rewrite parse_parts; try done; [|apply Forall_app; split; [|constructor; [by right|]]; by apply Hplain|by apply digits_no_dot..].
  destruct (match ParseUint w with Ok _ => _ | Err _ => _ end) as [whole|e] eqn:Ew.
  - apply whole_value in Ew as (_ & _ & -> & Hle). cbn [mbind result_bind].
    rewrite (proj2 (fraction_value f (dec_value f * 10 ^ (8 - Z.of_nat (length f))) ltac:(lia) Hfn)) by done.
    cbn [mbind result_bind]. by rewrite amount_of_spec by lia.
  - split; [done|]. intros (-> & Hm & _). rewrite (proj2 (whole_value w (dec_value w))) in Ew; [done|]. split_and!; try done.
    unfold MaxMoneyUnits, UnitsPerCoin in Hm. lia.
Qed.

Lemma point_value w f units : 1 <= Z.of_nat (length f) <= 8 ->
  units * 10 ^ Z.of_nat (length f) = (dec_value w * 10 ^ Z.of_nat (length f) + dec_value f) * UnitsPerCoin <->
  units = dec_value w * UnitsPerCoin + dec_value f * 10 ^ (8 - Z.of_nat (length f)).
Proof.
  intros Hl. assert (0 < 10 ^ Z.of_nat (length f)) by (apply Z.pow_pos_nonneg; lia).
  replace UnitsPerCoin with (10 ^ Z.of_nat (length f) * 10 ^ (8 - Z.of_nat (length f)))
    by (rewrite <- Z.pow_add_r by lia; by replace (_ + _) with 8 by lia).
  split; nia.
Qed.

(** An amount that is accepted has one of the two shapes. *)
Lemma parse_shape text allowZero units : parseAmount text allowZero = Ok units -> Z.of_nat (length text) <= 32 /\
  ((text <> [] /\ digits text) \/ exists w f, text = w ++ dot :: f /\ w <> [] /\ 1 <= Z.of_nat (length f) <= 8 /\ digits w /\ digits f).
Proof.
  unfold parseAmount. intros Hp. apply bind_Ok in Hp as ([] & H1 & Hp). apply bind_Ok in Hp as ([] & H2 & Hp).
  destruct ((length text =? 0)%nat || (32 <? Z.of_nat (length text))) eqn:E1; [done|]. apply orb_false_iff in E1 as [E0%Nat.eqb_neq E1%Z.ltb_ge].
  split; [done|]. clear H1 H2. destruct (Split_parts dot text) as (p & ps & Hs & Heq & _). rewrite Hs in Hp. cbn zeta in Hp.
  apply bind_Ok in Hp as ([whole fraction] & Hparts & Hp). apply bind_Ok in Hp as ([] & Hw & Hp).
  apply bind_Ok in Hp as (wv & Hwv & Hp). apply bind_Ok in Hp as (fv & Hfv & _).
  destruct ps as [|f [|]]; [| |done].
  - apply Ok_inj in Hparts as [= <- <-]. rewrite app_nil_r in Heq. subst p. left. by apply whole_value in Hwv as (? & ? & _).
  - destruct ((length f =? 0)%nat || (8 <? Z.of_nat (length f))) eqn:Ef; [done|]. apply orb_false_iff in Ef as [Ef0%Nat.eqb_neq Ef%Z.ltb_ge].
    apply Ok_inj in Hparts as [= <- <-]. right. exists p, f. cbn [flat_map] in Heq. rewrite app_nil_r in Heq.
    apply whole_value in Hwv as (Hpn & Hpd & _). apply fraction_value in Hfv as (Hfd & _); [|lia|by destruct f].
    split_and!; try done; lia.
Qed.

Lemma parseAmount_spec text allowZero units : parseAmount text allowZero = Ok units <->
  Z.of_nat (length text) <= 32 /\ denotes text units /\ 0 <= units <= MaxMoneyUnits /\ (units = 0 -> allowZero = true).
Proof.
  split.
  - intros Hp. destruct (parse_shape _ _ _ Hp) as [Hl [[Hn Hd]|(w & f & -> & Hn & Hlf & Hw & Hf)]]; (split; [done|]).
    + apply whole_decimal in Hp as (-> & Hm & Hz); try done. pose proof (dec_value_nonneg _ Hd).
      split_and!; try done; [left; done|unfold UnitsPerCoin; lia].
    + apply point_decimal in Hp as (Hu & Hm & Hz); try done.
      pose proof (dec_value_nonneg _ Hw). pose proof (fraction_range f Hf ltac:(lia)). split_and!; try done.
      * right. exists w, f. split_and!; try done; try lia. by apply point_value.
      * unfold UnitsPerCoin in Hu. lia.
  - intros (Hl & [(Hn & Hd & Hu)|(w & f & -> & Hn & Hw & Hf & Hlf & Hu)] & Hr & Hz).
    + apply whole_decimal; try done. split_and!; [done|lia|done].
    + apply point_decimal; try done. apply point_value in Hu; [|done]. split_and!; [done|lia|done].
Qed.

(** ** The table of pending payments *)
Definition inputs (p : pendingPayment) : list OutPoint := in_Prev <$> tx_Ins (pd_transaction p).

(** At most sixteen payments wait, none while the wallet is locked, and no two of them
    spend the same output. *)
Record table_ok (e : Engine) : Prop := {
  tk_bounded : (size (en_pending e) <= maximumPending)%nat;
  tk_locked : en_unlocked e = None -> en_pending e = ∅;
  tk_disjoint : forall i j p q op, en_pending e !! i = Some p -> en_pending e !! j = Some q ->
    op ∈ inputs p -> op ∈ inputs q -> i = j;
}.

(** What can happen to an engine while the wallet lock is held by somebody else: payments
    leave the table or change their mark. *)
Record settled (e e' : Engine) : Prop := {
  se_wallet : en_unlocked e' = en_unlocked e /\ en_walletGeneration e' = en_walletGeneration e /\
              en_network e' = en_network e /\ en_walletPath e' = en_walletPath e;
  se_pending : forall i p, en_pending e' !! i = Some p -> exists q, en_pending e !! i = Some q /\
    pd_transaction q = pd_transaction p /\ pd_expiresAt q = pd_expiresAt p;
}.

Lemma settled_refl e : settled e e.
Proof. split; [done|]. eauto. Qed.
Lemma settled_trans e1 e2 e3 : settled e1 e2 -> settled e2 e3 -> settled e1 e3.
Proof.
  intros [Hw1 Hp1] [Hw2 Hp2]. split; [intuition congruence|]. intros i p Hp. destruct (Hp2 i p Hp) as (q & Hq & ? & ?).
  destruct (Hp1 i q Hq) as (r & Hr & ? & ?). exists r. split_and!; [done|congruence..].
Qed.
Lemma settled_ok e e' : settled e e' -> table_ok e -> table_ok e'.
Proof.
  intros [(Hu & _) Hp] [Hb Hl Hd]. split.
  - etrans; [|exact Hb]. rewrite <- !size_dom. apply subseteq_size. intros i. rewrite !elem_of_dom.
    intros [p Hi]. destruct (Hp i p Hi) as (q & Hq & _). eauto.
  - rewrite Hu. intros Hn. apply Hl in Hn. apply map_empty. intros i. destruct (en_pending e' !! i) as [p|] eqn:E; [|done].
    destruct (Hp i p E) as (q & Hq & _). rewrite Hn in Hq. by rewrite lookup_empty in Hq.
  - intros i j p q op Hi Hj H1 H2. destruct (Hp i p Hi) as (p' & Hp' & Ht & _), (Hp j q Hj) as (q' & Hq' & Ht' & _).
    unfold inputs in *. eapply Hd; [exact Hp'|exact Hq'|unfold inputs; by rewrite Ht|unfold inputs; by rewrite Ht'].
Qed.

(** A table changed to a part of it with marks changed. *)
Lemma settled_pending e m : (forall i p, m !! i = Some p -> exists q, en_pending e !! i = Some q /\
    pd_transaction q = pd_transaction p /\ pd_expiresAt q = pd_expiresAt p) -> settled e (set_pending m e).
Proof. intros Hm. by split. Qed.
Lemma settled_delete e i : settled e (set_pending (delete i (en_pending e)) e).
Proof. apply settled_pending. intros j p. rewrite lookup_delete_Some. intros [_ Hj]. eauto. Qed.
Lemma settled_filter e P `{forall x, Decision (P x)} : settled e (set_pending (filter P (en_pending e)) e).
Proof. apply settled_pending. intros j p. rewrite map_lookup_filter_Some. intros [Hj _]. eauto. Qed.
Lemma settled_alter e b i : settled e (set_pending (alter (set_in_flight b) i (en_pending e)) e).
Proof.
  apply settled_pending. intros j p. rewrite lookup_alter_Some. intros [(-> & q & Hq & ->)|[_ Hj]]; eauto.
Qed.
Lemma settled_mark e b i p : en_pending e !! i = Some p -> settled e (set_pending (<[i := set_in_flight b p]> (en_pending e)) e).
Proof.
  intros Hi. apply settled_pending. intros j q. rewrite lookup_insert_Some. intros [[<- <-]|[_ Hj]]; eauto.
Qed.
Create HintDb mobile.
#[export] Hint Resolve settled_refl settled_delete settled_filter settled_alter settled_mark : mobile.

(** The outputs spent by the waiting payments are all among [r]. *)
Definition covers (r : gset OutPoint) (e : Engine) : Prop :=
  forall i p op, en_pending e !! i = Some p -> op ∈ inputs p -> op ∈ r.
Lemma covers_settled r e e' : settled e e' -> covers r e -> covers r e'.
Proof.
  intros [_ Hp] Hc i p op Hi Hop. destruct (Hp i p Hi) as (q & Hq & Ht & _). eapply Hc; [exact Hq|]. unfold inputs in *. by rewrite Ht.
Qed.

Lemma table_insert e i tx at_ r : table_ok e -> (size (en_pending e) < maximumPending)%nat -> en_unlocked e <> None ->
  covers r e -> (forall op, op ∈ in_Prev <$> tx_Ins tx -> op ∉ r) -> en_pending e !! i = None ->
  table_ok (set_pending (<[i := mkPending tx at_ false]> (en_pending e)) e).
Proof.
  intros [Hb Hl Hd] Hs Hu Hc Hr Hi. split; cbn [set_pending en_pending en_unlocked].
  - rewrite map_size_insert_None by done. lia.
  - intros Hn. done.
  - intros j k p q op Hj Hk Hp Hq. rewrite lookup_insert_Some in Hj. rewrite lookup_insert_Some in Hk.
    destruct Hj as [[<- <-]|[Hj1 Hj]], Hk as [[<- <-]|[Hk1 Hk]]; [done|..].
    + destruct (Hr op Hp). by eapply Hc.
    + destruct (Hr op Hq). by eapply Hc.
    + by eapply Hd.
Qed.

(** ** Methods and the table *)
Definition on_engine {G} (P : Engine -> Prop) (d : device G) : Prop := P (dv_engine d).
(** The program keeps [P], however it ends. *)
Definition safe {G A} (P : Engine -> Prop) (m : prog (device G) A) : Prop :=
  triple (on_engine P) m (fun _ => on_engine P) (on_engine P).
Definition closed (P : Engine -> Prop) : Prop := forall e e', settled e e' -> P e -> P e'.
Lemma closed_ok : closed table_ok.
Proof. intros e e'. apply settled_ok. Qed.
Lemma closed_settled e0 : closed (settled e0).
Proof. intros e e' H1 H2. by eapply settled_trans. Qed.

Section programs.
Context {G : Type}.
Implicit Types (P Q R : Engine -> Prop) (e : Engine).

Lemma safe_bind {A B : Type} P (m : prog (device G) A) (k : A -> prog (device G) B) :
  safe P m -> (forall a, safe P (k a)) -> safe P (m ≫= k).
Proof. intros Hm Hk. eapply triple_bind; [exact Hm|]. intros a. apply Hk. Qed.
Lemma safe_ret {A : Type} P (a : A) : safe (G := G) P (mret a).
Proof. by apply triple_ret. Qed.
Lemma safe_fail {A : Type} P err : safe (G := G) (A := A) P (fail err).
Proof. by apply triple_fail. Qed.
Lemma safe_lift {A : Type} P (r : result A) : safe (G := G) P (lift r).
Proof. by apply triple_lift. Qed.
Lemma safe_guard P b err : safe (G := G) P (guard b err).
Proof. by apply triple_guard. Qed.
Lemma safe_disk {A : Type} P (m : io A) : safe (G := G) P (disk m).
Proof. intros d Hd. unfold disk. by destruct (m (dv_world d)) as [w []]. Qed.
Lemma safe_service {A : Type} P (m : prog G A) : safe P (service m).
Proof. intros d Hd. unfold service. by destruct (m (dv_service d)) as [g []]. Qed.
Lemma safe_try {A : Type} P (m : prog (device G) A) : safe P m -> safe P (try m).
Proof. intros Hm d Hd. unfold try. specialize (Hm d Hd). by destruct (m d) as [d' []]. Qed.
Lemma safe_saying {A : Type} P (m : prog (device G) A) message : safe P m -> safe P (saying message m).
Proof. intros Hm d Hd. unfold saying. specialize (Hm d Hd). by destruct (m d) as [d' []]. Qed.

(** Errors need less. *)
Lemma safe_error {A : Type} P R (m : prog (device G) A) : safe P m -> (forall e, P e -> R e) ->
  triple (on_engine P) m (fun _ => on_engine P) (on_engine R).
Proof. intros Hm HR. eapply triple_weaken; [exact Hm|done..|]. intros d. apply HR. Qed.

(** Reading the engine and writing it back. *)
Lemma triple_engine {A : Type} P (k : Engine -> prog (device G) A) (Q' : A -> device G -> Prop) (R' : device G -> Prop) :
  (forall e, P e -> triple (on_engine (fun e' => e' = e)) (k e) Q' R') -> triple (on_engine P) (get_engine ≫= k) Q' R'.
Proof. intros Hk d Hd. by apply (Hk _ Hd d). Qed.
Lemma triple_put P Q e (R' : device G -> Prop) : Q e -> triple (on_engine P) (put_engine e) (fun _ => on_engine Q) R'.
Proof. intros HQ d _. exact HQ. Qed.
Lemma safe_get {A : Type} P (k : Engine -> prog (device G) A) : (forall e, safe P (k e)) -> safe P (get_engine ≫= k).
Proof. intros Hk d Hd. by apply (Hk _ d). Qed.
(** A method that writes the engine last. *)
Lemma safe_update P f : (forall e, P e -> P (f e)) -> safe (G := G) P (e ← get_engine; put_engine (f e)).
Proof. intros Hf d Hd. by apply Hf. Qed.
End programs.
#[export] Hint Resolve safe_ret safe_fail safe_lift safe_guard safe_disk safe_service safe_try safe_saying closed_ok closed_settled : mobile.
Ltac safe_step := first [apply safe_bind; [solve [auto with mobile]|intros]|apply safe_get; intros ?e|solve [auto with mobile]].

Section methods.
Context `{Crypto} `{!CryptoLaws} `{WordList} `{RecoveryCrypto} `{RecoveryJson} `{KeyJson} `{WalletFs} {G : Type}.
Implicit Types (P : Engine -> Prop) (e : Engine) (d : device G).

Lemma time_passes (w : world) : exists w' now, time_now w = (w', Ok now).
Proof. unfold time_now. destruct (w_clock w) as [|t [|]]; eauto. Qed.

Lemma prune_safe P : closed P -> safe (G := G) P prunePendingLocked.
Proof. intros HP. unfold prunePendingLocked. apply safe_bind; [auto with mobile|intros now]. intros d Hd. eapply HP; [|exact Hd]. apply settled_filter. Qed.

Lemma claim_safe P id : closed P -> safe (G := G) P (claim_pending id).
Proof.
  intros HP d Hd. unfold claim_pending, get_engine, put_engine, mbind, prog_bind, fail, mret, prog_ret, disk.
  destruct (en_pending (dv_engine d) !! id) as [p|] eqn:Ep; [|exact Hd].
  destruct (time_passes (dv_world d)) as (w' & now & ->). destruct (negb _); [eapply HP; [|exact Hd]; apply settled_delete|].
  destruct (pd_inFlight p); [exact Hd|]. eapply HP; [|exact Hd]. by apply settled_mark.
Qed.

Lemma confirm_safe P (Broadcast : Tx -> prog (device G) BroadcastResponse) id : closed P ->
  (forall tx, safe P (Broadcast tx)) -> safe P (ConfirmSend Broadcast id).
Proof.
  intros HP HB. unfold ConfirmSend. apply safe_bind; [auto with mobile|intros _]. apply safe_bind; [by apply claim_safe|intros tx].
  apply safe_bind; [auto with mobile|intros r]. cbn zeta. intros d Hd. unfold get_engine, put_engine, mbind, prog_bind, fail, mret, prog_ret.
  destruct r as [resp|]; [destruct (accepted_response _ _ _)|]; (eapply HP; [|exact Hd]);
    [apply settled_delete|apply settled_alter..].
Qed.
Lemma cancel_safe P id : closed P -> safe (G := G) P (CancelSend id).
Proof.
  intros HP. unfold CancelSend. apply safe_bind; [auto with mobile|intros _]. intros d Hd.
  unfold get_engine, put_engine, mbind, prog_bind, fail. destruct (match _ with Some _ => _ | None => _ end); [exact Hd|].
  eapply HP; [|exact Hd]. apply settled_delete.
Qed.

Lemma status_safe P : safe (G := G) P localStatusLocked.
Proof.
  unfold localStatusLocked. apply safe_get. intros e. cbn zeta. destruct (en_unlocked e); repeat safe_step.
  - destruct a; auto with mobile.
  - destruct a as [n|err]; [auto with mobile|]. destruct (errors_Is _ _); auto with mobile.
Qed.
Lemma in_use_safe P a b : safe (G := G) P (wallet_in_use a b).
Proof. unfold wallet_in_use. apply safe_get. intros e. destruct (en_unlocked e); repeat safe_step. Qed.

Lemma replace_ok P w : triple (S := device G) (on_engine P) (replaceUnlocked w) (fun _ => on_engine table_ok) (on_engine table_ok).
Proof.
  intros d _. split; cbn; [rewrite map_size_empty; lia|done|]. intros i j p q op Hi. by rewrite lookup_empty in Hi.
Qed.
Lemma lock_ok P : triple (S := device G) (on_engine P) Lock (fun _ => on_engine table_ok) (on_engine table_ok).
Proof.
  intros d _. split; cbn; [rewrite map_size_empty; lia|done|]. intros i j p q op Hi. by rewrite lookup_empty in Hi.
Qed.
Hint Resolve prune_safe claim_safe confirm_safe cancel_safe status_safe in_use_safe replace_ok lock_ok : mobile.

(** What the restrictions cover. *)
Lemma restrictions_cover e0 : triple (S := device G) (on_engine (fun e => e = e0)) pendingRestrictions
  (fun r => on_engine (fun e => settled e0 e /\ covers r e)) (on_engine (settled e0)).
Proof.
  unfold pendingRestrictions. eapply triple_bind with (Q := fun _ => on_engine (settled e0)).
  { eapply triple_weaken; [apply (prune_safe (settled e0)); apply closed_settled|..]; try done. intros d <-. apply settled_refl. }
  intros _. apply triple_engine. intros e He. eapply triple_bind with (Q := fun _ => on_engine (fun e' => e' = e)).
  { apply triple_guard; [done|]. by intros d <-. }
  intros _. apply triple_ret. intros d Hd. unfold on_engine in *. subst e. split; [done|]. intros i p op Hi Hop. apply elem_of_list_to_set.
  rewrite list_elem_of_In, in_flat_map. exists (i, p). split; [by apply list_elem_of_In, elem_of_map_to_list|by apply list_elem_of_In].
Qed.

(** *** Preparing a payment *)
Lemma with_keys_Ok {A : Type} w requireKey (fn : list bytes -> result A) s s' a :
  with_keys (Some w) requireKey fn s = (s', Ok a) -> exists keys, fn keys = Ok a.
Proof.
  intros Hr. pose proof (with_keys_observed w requireKey fn s) as Ho. rewrite Hr in Ho. symmetry in Ho.
  apply withKeys_Ok in Ho as (keys & _ & _ & Ho). eauto.
Qed.

Lemma prepare_Ok w remote toAddr amount fee excluded s s' snap prepared :
  handle_prepare w remote toAddr amount fee excluded s = (s', Ok (snap, prepared)) ->
  exists keys toPKH, 0 < amount /\ 0 <= fee /\ amount + fee <= MaxMoneyUnits /\ (EncodeAddress toPKH = toAddr /\ length toPKH = 20%nat) /\
    snapshotFromRemoteWithKeys (wh_network w) remote keys = Ok snap /\ keys <> [] /\
    buildPaymentFromSnapshot keys snap toPKH amount fee excluded = Ok prepared.
Proof.
  unfold handle_prepare, mbind at 1, prog_bind, lift. destruct (validatePaymentValues _ _ _ _) as [toPKH|] eqn:Ev; [|done].
  assert (length toPKH = 20%nat).
  { unfold validatePaymentValues in Ev. destruct (_ || _); [done|]. destruct (_ >? _); [done|]. destruct (DecodeAddress toAddr) eqn:Ed; [|done].
    destruct (negb _); [done|]. apply Ok_inj in Ev as <-. by eapply DecodeAddress_length. }
  apply validatePaymentValues_Ok in Ev as (Ha & Hf & Hm & Haddr). intros (keys & Hk)%with_keys_Ok.
  apply bind_Ok in Hk as ([] & _ & Hk). apply bind_Ok in Hk as (sn & Hs & Hk). apply bind_Ok in Hk as (pr & Hp & Hk).
  apply bind_Ok in Hk as ([] & _ & Hk). apply Ok_inj in Hk as [= -> ->].
  exists keys, toPKH. destruct (snapshotFromRemote_spec _ _ _ _ Hs) as (_ & Hn & _). by split_and!.
Qed.

(** The payment spends what was selected, and nothing that was excluded. *)
Lemma built_inputs network remote keys snap toPKH amount fee excluded prepared : 0 < amount -> 0 <= fee -> amount + fee <= MaxMoneyUnits ->
  snapshotFromRemoteWithKeys network remote keys = Ok snap ->
  buildPaymentFromSnapshot keys snap toPKH amount fee excluded = Ok prepared ->
  in_Prev <$> tx_Ins (pp_Tx prepared) = pp_SelectedOutpoints prepared /\
  forall op, op ∈ pp_SelectedOutpoints prepared -> op ∉ excluded.
Proof.
  intros Ha Hf Hm Hs Hb. destruct (snapshotFromRemote_spec _ _ _ _ Hs) as (Hwf & Hk & _).
  destruct (buildPayment_cases keys snap toPKH amount fee excluded Hwf Hk Ha Hf Hm) as (n & signing & _ & _ & _ & Hcase).
  rewrite Hb in Hcase. cbn zeta in Hcase. destruct Hcase as (_ & Hsel & Hsign & _). set (chosen := take n _) in *.
  destruct (Sign_verifies _ _ _ Hsign) as (_ & _ & Hprev). split.
  - change (in_Prev <$> ?l) with (map in_Prev l). rewrite Hprev, Hsel. cbn [tx_Ins].
    change (map in_Prev ?l) with (in_Prev <$> l). by rewrite <- list_fmap_compose.
  - intros op Hop. rewrite Hsel in Hop. apply list_elem_of_fmap in Hop as (cand & -> & Hc%subseteq_take%subseteq_take).
    apply (ranked_elem keys) in Hc as (o & -> & _ & Hx & _); done.
Qed.

(** *** Storing a preview *)
Definition reviewed (r : gset OutPoint) (e : Engine) : Prop := table_ok e /\ en_unlocked e <> None /\ covers r e.
Lemma closed_reviewed r : closed (reviewed r).
Proof.
  intros e e' Hs (Ht & Hu & Hc). split_and!; [by eapply settled_ok| |by eapply covers_settled]. by destruct Hs as [[-> _] _].
Qed.

Lemma store_ok tx r : (forall op, op ∈ in_Prev <$> tx_Ins tx -> op ∉ r) ->
  triple (S := device G) (on_engine (reviewed r)) (storePending tx) (fun _ => on_engine table_ok) (on_engine table_ok).
Proof.
  intros Htx. unfold storePending. assert (Hout : forall e, reviewed r e -> table_ok e) by by intros e [].
  eapply triple_bind; [apply safe_error; [apply safe_saying, safe_disk|exact Hout]|]. intros rid. cbn zeta.
  eapply triple_bind; [apply safe_error; [apply safe_disk|exact Hout]|]. intros now.
  eapply triple_bind; [apply safe_error; [apply prune_safe, closed_reviewed|exact Hout]|]. intros u. cbv beta. apply triple_engine. intros e (Ht & Hu & Hc). assert (Hback : forall d : device G, on_engine (fun e' => e' = e) d -> on_engine table_ok d)
    by (intros d Hd; unfold on_engine in *; congruence).
  eapply triple_bind with (Q := fun _ d => (size (en_pending e) <? maximumPending)%nat = true /\ on_engine (fun e' => e' = e) d).
  { apply triple_guard; eauto. }
  intros u1. apply triple_pure. intros Hsize%Nat.ltb_lt. eapply triple_bind with (Q := fun _ d => en_pending e !! hex_encode rid = None /\ on_engine (fun e' => e' = e) d).
  { apply triple_guard; [|eauto]. intros d Hd Hn%bool_decide_eq_true. by split. }
  intros u2. apply triple_pure. intros Hnone. eapply triple_bind with (Q := fun _ => on_engine table_ok); [|intros _; by apply triple_ret].
  apply triple_put. by eapply table_insert.
Qed.

(** ** All methods *)
Section interleaving.
Context (View : list bytes -> Z -> prog (device G) ViewResponse) (Broadcast : Tx -> prog (device G) BroadcastResponse).
Context (others confirming : prog (device G) unit) (qr_png : bytes -> result bytes) (cpus : Z).

(** Whatever runs during a call keeps the table in order, and what runs while the wallet
    lock is held only settles payments. *)
Record orderly : Prop := {
  or_View : forall addresses limit, safe table_ok (View addresses limit);
  or_Broadcast : forall tx, safe table_ok (Broadcast tx);
  or_others : safe table_ok others;
  or_confirming : forall e, safe (settled e) confirming;
}.

Inductive method :=
  | MCreate (key : bytes) | MRestore (key phrase : bytes) | MUnlock (key : bytes) | MPhrase (key : bytes) | MStatus
  | MActivity (limit : Z) | MReceive | MPreview (destination amount fee : bytes) | MConfirm (id : bytes) | MCancel (id : bytes) | MLock.
Definition call (m : method) : prog (device G) unit :=
  match m with
  | MCreate key => ignore (CreateWallet cpus key)
  | MRestore key phrase => ignore (RestoreWallet View others cpus key phrase)
  | MUnlock key => ignore (Unlock View others key)
  | MPhrase key => ignore (engine_RecoveryPhrase key)
  | MStatus => ignore (Status View)
  | MActivity limit => ignore (Activity View limit)
  | MReceive => ignore (Receive qr_png)
  | MPreview destination amount fee => ignore (PreviewSend View confirming destination amount fee)
  | MConfirm id => ignore (ConfirmSend Broadcast id)
  | MCancel id => ignore (CancelSend id)
  | MLock => Lock
  end.

Lemma Status_safe P : (forall addresses limit, safe P (View addresses limit)) -> safe P (Status View).
Proof.
  intros HV. unfold Status. apply safe_bind; [apply status_safe|intros [[base addresses] generation]].
  destruct (length addresses =? 0)%nat; [apply safe_ret|]. apply safe_bind; [apply safe_try, HV|intros viewed]. cbn zeta.
  apply safe_get. intros e. destruct (same_wallet generation e).
  - destruct viewed as [view|]; [|apply safe_ret]. cbn [mbind result_bind]. destruct (remoteSnapshot view); [|apply safe_ret].
    apply safe_bind; [apply safe_try, safe_disk|intros [validated|]]; apply safe_ret.
  - apply safe_bind; [apply status_safe|intros [[current ?] ?]; apply safe_ret].
Qed.

Lemma Activity_safe P limit : (forall addresses limit, safe P (View addresses limit)) -> safe P (Activity View limit).
Proof.
  intros HV. unfold Activity. apply safe_bind; [apply safe_guard|intros _]. apply safe_bind; [apply in_use_safe|intros [addresses generation]].
  apply safe_bind; [apply safe_try, HV|intros viewed]. apply safe_bind; [apply safe_lift|intros view]. apply safe_bind; [apply safe_lift|intros remote].
  apply safe_get. intros e. destruct (same_wallet generation e); [|apply safe_fail].
  apply safe_bind; [apply safe_try, safe_disk|intros [validated|]]; [apply safe_ret|apply safe_fail].
Qed.

(** The second part of [PreviewSend], under the wallet lock. *)
Lemma preview_ok {B : Type} w remote destination amount fee e0 (k : Snapshot -> PreparedPayment -> bytes -> Z -> B) : orderly -> table_ok e0 -> en_unlocked e0 <> None ->
  triple (on_engine (fun e => e = e0)) (restricted ← pendingRestrictions; _ ← confirming;
    '(validated, prepared) ← saying "The payment could not be prepared. Check the address, amount, fee, and balance."
                               (disk (handle_prepare w remote destination amount fee restricted));
    _ ← confirming; '(pendingID, expiresAt) ← storePending (pp_Tx prepared);
    mret (k validated prepared pendingID expiresAt)) (fun _ => on_engine table_ok) (on_engine table_ok).
Proof.
  intros Hor Ht Hu. assert (Hs : forall e, settled e0 e -> table_ok e) by (intros e He; by eapply settled_ok).
  assert (Hok : forall r e, settled e0 e /\ covers r e -> table_ok e) by (intros r e [He _]; auto).
  eapply triple_bind; [eapply triple_weaken; [apply restrictions_cover|done..|]; intros d; apply Hs|]. intros r. cbv beta.
  assert (Hconf : safe (fun e => settled e0 e /\ covers r e) confirming).
  { intros d Hd. pose proof (or_confirming Hor (dv_engine d) d (settled_refl _)) as Hc. unfold on_engine in *. destruct Hd as [Hd1 Hd2].
    destruct (confirming d) as [d' []]; (split; [by eapply settled_trans|by eapply covers_settled]). }
  eapply triple_bind; [apply safe_error; [exact Hconf|apply Hok]|]. intros u1. cbv beta.
  eapply triple_bind with (Q := fun vp d => on_engine (fun e => settled e0 e /\ covers r e) d /\
    forall op, op ∈ in_Prev <$> tx_Ins (pp_Tx vp.2) -> op ∉ r).
  { intros d Hd. unfold saying, disk. destruct (handle_prepare _ _ _ _ _ _ _) as [s' [[snap prepared]|err]] eqn:E; [|by eapply Hok].
    split; [exact Hd|]. apply prepare_Ok in E as (keys & toPKH & Ha & Hf & Hm & _ & Hsn & _ & Hb).
    destruct (built_inputs _ _ _ _ _ _ _ _ _ Ha Hf Hm Hsn Hb) as [Hin Hex]. cbn [snd]. by rewrite Hin. }
  intros [validated prepared] d [Hd Hin]. revert d Hd. cbn [snd] in Hin.
  eapply triple_bind; [apply safe_error; [exact Hconf|apply Hok]|]. intros u2. cbv beta.
  eapply triple_bind; [eapply triple_weaken; [by apply (store_ok (pp_Tx prepared) r)| |done..]|].
  - intros d [Hd1 Hd2]. split_and!; [by apply Hs| |done]. by destruct Hd1 as [[-> _] _].
  - intros [id at_]. by apply triple_ret.
Qed.

Lemma preview_safe destination amountText feeText : orderly -> safe table_ok (PreviewSend View confirming destination amountText feeText).
Proof.
  intros Hor. unfold PreviewSend. apply safe_bind; [apply safe_saying, safe_lift|intros amount]. cbn zeta.
  apply safe_bind; [apply safe_saying, safe_lift|intros fee]. do 2 (apply safe_bind; [apply safe_guard|intros _]).
  apply safe_bind; [apply in_use_safe|intros [addresses generation]]. apply safe_bind; [apply safe_try, Hor|intros viewed].
  apply safe_bind; [apply safe_lift|intros view]. apply safe_bind; [apply safe_lift|intros remote]. apply triple_engine. intros e He.
  unfold same_wallet. destruct (en_walletGeneration e =? generation); [|intros d <-; exact He].
  destruct (en_unlocked e) as [w|] eqn:Eu; [|intros d <-; exact He].
  apply (preview_ok w remote destination amount fee e (fun validated prepared pendingID expiresAt =>
    mkSendPreview mobileSchemaVersion pendingID destination amount fee (amount + fee) (hex_encode (Tx_ID (pp_Tx prepared)))
      ((fun op => outpoint_text (op_TxID op) (op_Idx op)) <$> pp_SelectedOutpoints prepared)
      (ts_Height (sp_Tip validated)) (expiresAt / 1000000000) (ToUpper (hex_encode (take 3 (Tx_ID (pp_Tx prepared))))))); [done..|].
  by rewrite Eu.
Qed.

Lemma safe_ignore {A : Type} P (m : prog (device G) A) : safe P m -> safe P (ignore m).
Proof. intros Hm d Hd. unfold ignore. specialize (Hm d Hd). by destruct (m d) as [d' []]. Qed.

Lemma call_safe m : orderly -> safe table_ok (call m).
Proof.
  intros Hor. pose proof (or_View Hor) as HV. destruct m; cbn [call]; [apply safe_ignore..|apply lock_ok].
  - apply safe_bind; [apply safe_lift|intros k]. apply safe_get. intros e. apply safe_bind; [apply safe_saying, safe_disk|intros [w phrase]].
    apply safe_bind; [apply safe_try, safe_disk|]. intros [[|a [|]]|]; try apply safe_fail. apply safe_bind; [apply replace_ok|intros _]. apply safe_ret.
  - apply safe_bind; [apply safe_lift|intros k]. apply safe_get. intros e. apply safe_bind; [apply safe_saying, safe_disk|intros w].
    apply safe_bind; [apply replace_ok|intros _]. apply safe_bind; [apply Hor|intros _]. by apply Status_safe.
  - apply safe_bind; [apply safe_lift|intros k]. apply safe_get. intros e. apply safe_bind; [apply safe_saying, safe_disk|intros w].
    apply safe_bind; [apply replace_ok|intros _]. apply safe_bind; [apply Hor|intros _]. by apply Status_safe.
  - apply safe_bind; [apply safe_lift|intros k]. apply safe_get. intros e. apply safe_bind; [apply safe_saying, safe_disk|intros w].
    apply safe_saying, safe_disk.
  - by apply Status_safe.
  - by apply Activity_safe.
  - apply safe_bind; [apply in_use_safe|intros [addresses generation]]. apply safe_bind; [apply safe_lift|intros a].
    apply safe_bind; [apply safe_saying, safe_lift|intros png]. apply safe_ret.
  - by apply preview_safe.
  - apply confirm_safe; [apply closed_ok|apply Hor].
  - apply cancel_safe, closed_ok.
Qed.
End interleaving.
End methods.

(** ** An honest gateway *)
Section honest.
Context `{Crypto} `{!CryptoLaws} `{JsonDecoder} `{!JsonDecoderLaws}.
Context (p : Params) (c : Chain) (g : Gateway) (cl : Client).
Context (Hpow : pow_params_ok p) (Hinv : chain_inv p c) (Htip : bi_height (c_tip c) < max_int64).
Context (Hnet : CanonicalNetworkID (Some (c_params c)) = Ok (g_network g)) (Hcl : cl_network cl = g_network g).

Lemma view_response_limits addresses pkhs lim view r : WalletViewForPKHs c pkhs lim = Ok view ->
  view_response g c (mkViewRequest addresses lim) pkhs = Ok r ->
  Z.of_nat (length (wv_SpendableOutputs view)) <= MaxSnapshotOutputs /\ Z.of_nat (length (wv_ImmatureOutputs view)) <= MaxSnapshotOutputs.
Proof.
  intros Hv Hr. unfold view_response in Hr. cbn [vq_ActivityLimit vq_Addresses] in Hr. rewrite Hv in Hr.
  apply bind_check in Hr as [Hr _]. bool_prop. lia.
Qed.

(** A view without activity that the client accepts is what the gateway shows. *)
Lemma honest_view addresses c' r : Client_View (gateway_do g) cl addresses 0 c = (c', Ok r) -> c' = c /\
  exists canonical pkhs view, canonical ≡ₚ addresses /\ Forall2 address_of canonical pkhs /\ WalletViewForPKHs c pkhs 0 = Ok view /\
    r = shown_view (g_network g) canonical view.
Proof.
  intros Hr. pose proof (Client_View_state g c cl addresses 0) as Hst. rewrite Hr in Hst. split; [done|].
  destruct (canonicalClientAddresses addresses) as [canonical|e] eqn:Ec.
  2: { unfold Client_View, mbind, prog_bind, lift in Hr. rewrite Ec in Hr. cbn in Hr. done. }
  destruct (canonicalClientAddresses_spec _ _ Ec) as (Hperm & Hne & _ & Hval & Hsort).
  destruct (canonicalPKHs_Ok canonical) as [pkhs Hp]; [intros ->; by apply Permutation_nil_l in Hperm|done..|].
  rewrite (Client_View_exchange g c cl addresses canonical 0 pkhs) in Hr by (done || (split; [done|vm_compute; discriminate])).
  exists canonical, pkhs. pose proof (canonicalPKHs_spec _ _ Hp) as Haddr.
  assert (Hfail : forall R (J : JsonRecord R) a, @read_response _ R J cl (writeError g 503 "chain_unavailable") <> Ok a).
  { intros R J a Ha. destruct (@read_response_failed _ R J cl _ (writeError_failed g)) as [e He]. congruence. }
  destruct (WalletViewForPKHs c pkhs 0) as [view|e] eqn:Ev.
  2: { unfold view_response in Hr. cbn [vq_ActivityLimit] in Hr. rewrite Ev in Hr.
       destruct (read_response _ _) eqn:Er; [by apply Hfail in Er|done]. }
  exists view. split_and!; try done. destruct (view_response g c (mkViewRequest canonical 0) pkhs) as [r0|e] eqn:Evr.
  2: { destruct (read_response _ _) eqn:Er; [by apply Hfail in Er|done]. }
  destruct (view_response_limits _ _ _ _ _ Ev Evr) as [Hn Hin].
  destruct (view_owners p c pkhs 0 view Hpow Hinv Ev) as (owners & _ & Hf).
  assert (wv_Activity view = []) as Hact by (destruct (vf_activity _ _ _ _ Hf) as [Hl _]; destruct (wv_Activity view); [done|cbn in Hl; lia]).
  rewrite (view_response_shown p c g canonical pkhs 0 view) in Evr; try done; [|by rewrite Hact]. apply Ok_inj in Evr as <-.
  destruct (shown_view_message p c g canonical pkhs 0 view) as [Htyped Hplain]; try done; [by rewrite Hact|].
  destruct (Z.le_gt_cases (Z.of_nat (length (Encode (shown_view (g_network g) canonical view)))) MaxResponseBytes) as [Hs|Hs].
  - unfold writeJSON in Hr. rewrite Z.gtb_ltb, (proj2 (Z.ltb_ge _ _)) in Hr by done.
    rewrite read_response_Encode in Hr; [|by apply view_plain_json|by apply view_read|done]. destruct (validateView _ _ _ _); congruence.
  - destruct (read_response_failed (R := ViewResponse) cl _ (writeJSON_too_large _ Hs)) as [e He]. rewrite He in Hr. done.
Qed.

(** *** The snapshot that the wallet makes of it *)
Definition remote_of (so : SpendableOutputSnapshot) : RemoteSnapshotOutpoint :=
  mkRemoteOut (op_TxID (so_OutPoint so)) (op_Idx (so_OutPoint so)) (so_AmountUnits so) (EncodeAddress (so_OwnerPKH so)).

Lemma remote_outpoints l : Forall (fun so => length (op_TxID (so_OutPoint so)) = 32%nat) l -> forall acc,
  foldM (fun l output => o ← remote_outpoint output; Ok (l ++ [o])) acc (shown <$> l) = Ok (acc ++ (remote_of <$> l)).
Proof.
  induction 1 as [|so l Hso _ IH]; intros acc; [by rewrite app_nil_r|]. cbn [fmap list_fmap foldM]. unfold remote_outpoint at 1.
  cbn [shown lo_TxID lo_Vout lo_AmountUnits lo_Address]. rewrite hex_decode_encode, (proj2 (Nat.eqb_eq _ _) Hso). cbn [mbind result_bind].
  change (list_fmap _ _ shown l) with (shown <$> l). rewrite IH. by rewrite <- app_assoc.
Qed.

Lemma matched_addresses remote l : forall n st st', foldM (match_address remote) st (zip (seq n (length l)) l) = Ok st' ->
  forall i, (i < length l)%nat -> remote !! (n + i)%nat = l !! i.
Proof.
  induction l as [|a l IH]; intros n st st' Hf i Hi; [cbn in Hi; lia|]. cbn [length seq zip zip_with foldM] in Hf.
  destruct (match_address remote st (n, a)) as [st1|] eqn:E; [|done]. destruct i as [|i].
  - unfold match_address in E. cbn [fst snd] in E. rewrite Nat.add_0_r. unfold deref in E. destruct (remote !! n) as [b|]; [|done]. cbn [mbind result_bind] in E.
    destruct (negb _) eqn:Eb; [done|]. bool_prop. by subst.
  - change ((a :: l) !! S i) with (l !! i). rewrite <- (IH (S n) st1 st' Hf i) by (cbn in Hi; lia). f_equal. lia.
Qed.

Lemma remote_addresses network remote keys s : snapshotFromRemoteWithKeys network remote keys = Ok s ->
  rs_Addresses remote = merge_sort bytes_le (addressForKey <$> keys).
Proof.
  unfold snapshotFromRemoteWithKeys. destruct (Nat.eqb_spec (length (rs_Addresses remote)) (length keys)) as [Hl|Hl]; cbn [negb].
  2: { rewrite !orb_true_r, !orb_true_l. done. }
  destruct (_ || _) eqn:E; [done|]. intros Hs. apply bind_Ok in Hs as (ki & _ & Hs). apply bind_Ok in Hs as (ai & Hai & _).
  assert (Hlen : length (rs_Addresses remote) = length (merge_sort bytes_le (addressForKey <$> keys))).
  { rewrite merge_sort_Permutation, length_fmap. done. }
  apply list_eq. intros i. destruct (Nat.lt_ge_cases i (length (rs_Addresses remote))) as [Hi|Hi].
  - unfold indexed in Hai. by apply (matched_addresses _ _ 0 _ _ Hai i ltac:(lia)).
  - rewrite !lookup_ge_None_2 by lia. done.
Qed.

Lemma EncodeAddress_inj a b : length a = 20%nat -> length b = 20%nat -> EncodeAddress a = EncodeAddress b -> a = b.
Proof. intros Ha Hb He. apply address_roundtrip in Ha. apply address_roundtrip in Hb. rewrite He in Ha. congruence. Qed.
Lemma cand_owner keys o : cand_ok keys o -> exists key, key ∈ keys /\ pkhForKey key = sn_OwnerPKH o.
Proof.
  intros [Ho _]. unfold key_owns in Ho. bool_prop. destruct (keys !! _) as [key|] eqn:Ek; [|done]. exists key.
  split; [by eapply list_elem_of_lookup_2|]. bool_prop. done.
Qed.
(** The snapshot built from what an honest gateway shows is the state of its chain. *)
Lemma honest_snapshot canonical pkhs view remote keys network s : Forall2 address_of canonical pkhs -> WalletViewForPKHs c pkhs 0 = Ok view ->
  remoteSnapshot (shown_view (g_network g) canonical view) = Ok remote -> snapshotFromRemoteWithKeys network remote keys = Ok s ->
  snapshot_on c keys s /\ keys <> [] /\ Forall (fun o => length (op_TxID (sn_OutpointRef o)) = 32%nat) (sp_Outpoints s).
Proof.
  intros Haddr Hv Hr Hs. destruct (view_owners p c pkhs 0 view Hpow Hinv Hv) as (owners & Ho & Hf).
  assert (Hids : Forall (fun so => length (op_TxID (so_OutPoint so)) = 32%nat) (wv_SpendableOutputs view)).
  { apply list.Forall_forall. intros so Hso. apply (vf_ids _ _ _ _ Hf), elem_of_app. left. by apply list_elem_of_fmap_2. }
  unfold remoteSnapshot in Hr. cbn [shown_view vr_Tip tp_Hash vr_Outputs] in Hr. rewrite hex_decode_encode, (vf_hash _ _ _ _ Hf) in Hr. cbn [Nat.eqb negb] in Hr.
  rewrite remote_outpoints in Hr by done. cbn [app mbind result_bind] in Hr. apply Ok_inj in Hr as <-.
  pose proof (remote_addresses _ _ _ _ Hs) as Hsame. apply snapshotFromRemote_spec in Hs as (Hwf & Hk & Hrel & Hunits & _ & _ & _).
  cbn [rs_Outpoints rs_Addresses shown_view vr_Addresses] in *. rewrite Forall2_fmap_l in Hrel.
  assert (Howner : forall so o, so ∈ wv_SpendableOutputs view -> remote_ok keys (remote_of so) o -> sn_OwnerPKH o = so_OwnerPKH so).
  { intros so o Hso (_ & _ & _ & He & Hc). destruct (cand_owner keys o Hc) as (key & _ & Hpk).
    pose proof (view_spendable_owned p c pkhs 0 view Hpow Hinv Hv) as Hown. rewrite list.Forall_forall in Hown. destruct (Hown so Hso) as (_ & Hl & _).
    destruct (Forall2_lookup_r _ _ _ _ _ Haddr Hl) as (a & _ & Hd & _). apply EncodeAddress_inj; [|by eapply DecodeAddress_length|done].
    rewrite <- Hpk. apply length_PubKeyHash20. }
  split_and!; [split; [done| | |done]|done|].
  - intros o [i Hi]%list_elem_of_lookup. destruct (Forall2_lookup_r _ _ _ _ _ Hrel Hi) as (so & Hso & Hro). apply list_elem_of_lookup_2 in Hso.
    pose proof (Howner so o Hso Hro) as Hpk. destruct Hro as (Hop & Ham & _). apply (vf_spendable _ _ _ _ Hf) in Hso as (e & He & Hva & Hpe & _ & Hm & Hns).
    assert (sn_OutpointRef o = so_OutPoint so) as -> by (rewrite Hop; cbn [remote_of ro_TxID ro_Vout]; by destruct (so_OutPoint so)). exists e. split_and!; [done| |congruence].
    by rewrite Ham.
  - intros op e key (He & Hm & Hns) Hkey Hpk. assert (Hin : addressForKey key ∈ canonical).
    { rewrite Hsame, merge_sort_Permutation. by apply list_elem_of_fmap_2. }
    apply list_elem_of_lookup in Hin as [i Hi]. destruct (Forall2_lookup_l _ _ _ _ _ Haddr Hi) as (pkh & Hl & Hd & Hea).
    assert (pkh = ue_PKH e) as ->. { rewrite Hpk. apply EncodeAddress_inj; [by eapply DecodeAddress_length|apply length_PubKeyHash20|done]. }
    destruct (walletOwners_complete _ _ _ (ue_PKH e) Ho) as [idx Hidx]; [by eapply list_elem_of_lookup_2|].
    assert (Hso : mkSpendable op (ue_Value e) (ue_PKH e) idx ∈ wv_SpendableOutputs view) by (apply (vf_spendable _ _ _ _ Hf); by exists e).
    apply list_elem_of_lookup in Hso as [j Hj]. destruct (Forall2_lookup_l _ _ _ _ _ Hrel Hj) as (o & Hoj & (Hop & _)).
    apply list_elem_of_fmap. exists o. split; [|by eapply list_elem_of_lookup_2]. rewrite Hop. by destruct op.
  - apply list.Forall_forall. intros o [i Hi]%list_elem_of_lookup. destruct (Forall2_lookup_r _ _ _ _ _ Hrel Hi) as (so & Hso & (Hop & _)).
    rewrite Hop. cbn. rewrite list.Forall_forall in Hids. apply Hids. by eapply list_elem_of_lookup_2.
Qed.
(** *** The payment as a message *)
Lemma signed_ins t keys t' : Sign t keys = Ok t' ->
  Forall (fun i => length (op_TxID (in_Prev i)) = 32%nat /\ in_u32 (op_Idx (in_Prev i))) (tx_Ins t) ->
  tx_Version t' = tx_Version t /\ tx_LockTag t' = tx_LockTag t /\ length (tx_Ins t') = length (tx_Ins t) /\ Forall wf_in (tx_Ins t').
Proof.
  unfold Sign. destruct (Nat.eqb_spec (length keys) (length (tx_Ins t))) as [Hl|]; [|done]. cbn [negb]. set (d := SigDigest _). clearbody d.
  intros [= <-] Hi. cbn [with_ins tx_Version tx_LockTag tx_Ins]. rewrite !length_zip_with. split_and!; [done..|lia|].
  revert keys Hl. induction Hi as [|i ins [Hid Hix] _ IH]; intros [|k keys] Hl; try done. cbn [zip_with]. constructor; [|apply IH; cbn in Hl; lia].
  split; cbn; [done|done|rewrite length_ed25519_Public; unfold ed25519_PublicKeySize; lia|rewrite length_ed25519_Sign; lia].
Qed.

Lemma built_message keys s toPKH amount fee excluded prepared : snapshot_on c keys s -> keys <> [] -> 0 < amount -> 0 <= fee ->
  amount + fee <= MaxMoneyUnits -> length toPKH = 20%nat -> Forall (fun o => length (op_TxID (sn_OutpointRef o)) = 32%nat) (sp_Outpoints s) ->
  buildPaymentFromSnapshot keys s toPKH amount fee excluded = Ok prepared ->
  wf_tx (pp_Tx prepared) /\ IsCoinbase (pp_Tx prepared) = false.
Proof.
  intros Hon Hk Ha Hf Hm Hto Hids Hb. destruct (buildPayment_cases keys s toPKH amount fee excluded) as (n & signing & Hsig & _ & Hmax & Hcase);
    [apply Hon|done..|]. rewrite Hb in Hcase. cbn zeta in Hcase. destruct Hcase as (Hge & _ & Hsign & _).
  set (chosen := take n (best_candidates excluded s)) in *.
  assert (Hin : forall cand, cand ∈ chosen -> exists e, c_utxo c !! pc_op cand = Some e /\ length (op_TxID (pc_op cand)) = 32%nat).
  { intros cand Hc. unfold chosen in Hc. apply subseteq_take in Hc. destruct (entry_of_candidate c keys s excluded cand Hon Hc) as (_ & e & key & (He & _) & _).
    exists e. split; [done|]. apply subseteq_take in Hc. apply (ranked_elem keys) in Hc as (o & -> & Ho & _); [|apply Hon].
    rewrite list.Forall_forall in Hids. by apply Hids. }
  assert (Hins : Forall (fun i => length (op_TxID (in_Prev i)) = 32%nat /\ in_u32 (op_Idx (in_Prev i))) ((fun c => mkTxIn (pc_op c) [] []) <$> chosen)).
  { apply Forall_fmap, list.Forall_forall. intros cand Hc. destruct (Hin cand Hc) as (e & He & Hl). cbn. split; [done|].
    apply (utxo_idx_small p c Hinv) in He. unfold MaxBlockBytes in He. unfold in_u32, two32. lia. }
  destruct (signed_ins _ _ _ Hsign Hins) as (Hver & Htag & Hlen & Hwf). cbn [tx_Version tx_LockTag tx_Ins] in *. rewrite length_fmap in Hlen.
  destruct (Sign_verifies _ _ _ Hsign) as (_ & Houts & Hprev). split; [split|].
  - rewrite Hver. split; vm_compute; done.
  - rewrite Hlen. destruct (best_limits keys excluded s (sc_wf _ _ _ Hon)) as (_ & _ & Hl & _). unfold chosen. rewrite length_take.
    unfold MaxPaymentInputs in Hl. lia.
  - rewrite Houts. cbn [tx_Outs]. unfold payment_outputs. cbn [length]. destruct (_ >? 0); [|cbn; lia]. rewrite length_fmap, length_take. lia.
  - exact Hwf.
  - rewrite Houts. cbn [tx_Outs]. unfold payment_outputs. assert (Hmoney : forall z, 0 <= z <= MaxMoneyUnits -> in_i64 z)
      by (intros z Hz; unfold in_i64, two63; unfold MaxMoneyUnits, UnitsPerCoin in Hz; lia). constructor; [split; [apply Hmoney; cbn [out_Value]; lia|done]|]. rewrite Z.gtb_ltb. destruct (Z.ltb_spec 0 (sumZ (pc_amount <$> chosen) - (amount + fee))); [|constructor].
    apply Forall_fmap, Forall_take, list.Forall_forall. intros key _. split; [apply Hmoney; cbn [out_Value]; lia|apply length_PubKeyHash20].
  - rewrite Htag. cbn. lia.
  - apply (spends_not_coinbase p c _ Hinv). intros i Hi. assert (Hp : in_Prev i ∈ map in_Prev (tx_Ins (pp_Tx prepared))) by by apply list_elem_of_fmap_2.
    rewrite Hprev in Hp. cbn [tx_Ins] in Hp. change (map in_Prev ?l) with (in_Prev <$> l) in Hp. rewrite <- list_fmap_compose in Hp. cbn in Hp.
    apply list_elem_of_fmap in Hp as (cand & -> & Hc). destruct (Hin cand Hc) as (e & He & _). cbn. by exists e.
Qed.
End honest.
