(* ===== verification/MobileTheorems.v ===== *)
(** * Properties of the mobile wallet

    Amounts are read exactly; signed payments that wait for confirmation never compete and
    vanish with the lock; a payment prepared with an honest gateway is admitted by its node
    with the fee that was shown. *)
From S2P Require Import Prelude Text GoStrings Params Crypto Pow Wire Address Merkle Chain Ledger ChainInv ChainView WalletView Wallet WalletSnapshot.
From S2P Require Import WalletProofs WalletSendProofs WalletTheorems FileTree WalletPath Mnemonic Recovery KeyFile GoJson Toy KeyToy.
From S2P Require Import Mnemonic Recovery KeyFileProofs KeyTheorems LightGateway LightClient LightProofs LightTheorems MobileWallet MobileProofs.

(** ** Running a method *)
Lemma bind_run {S A B : Type} (m : prog S A) (k : A -> prog S B) s s' b : (m ≫= k) s = (s', Ok b) ->
  exists s1 a, m s = (s1, Ok a) /\ k a s1 = (s', Ok b).
Proof. unfold mbind, prog_bind. destruct (m s) as [s1 [a|e]]; [eauto|done]. Qed.
Lemma guard_run {S : Type} b e (s s' : S) u : guard b e s = (s', Ok u) -> s' = s /\ b = true.
Proof. unfold guard. by destruct b; intros [= <-]. Qed.
Lemma lift_run {S A : Type} (r : result A) (s s' : S) a : lift r s = (s', Ok a) -> s' = s /\ r = Ok a.
Proof. by intros [= <- ->]. Qed.
Lemma saying_run {S A : Type} message (m : prog S A) s s' a : saying message m s = (s', Ok a) -> m s = (s', Ok a).
Proof. unfold saying. destruct (m s) as [s1 [b|e]]; congruence. Qed.
Lemma try_run {S A : Type} (m : prog S A) s s' r : try m s = (s', Ok r) -> m s = (s', r).
Proof. unfold try. by destruct (m s); intros [= <- <-]. Qed.

Section runs.
Context {G : Type}.
Implicit Types (d : device G).
Lemma disk_run {A : Type} (m : io A) d d' a : disk m d = (d', Ok a) ->
  dv_engine d' = dv_engine d /\ dv_service d' = dv_service d /\ m (dv_world d) = (dv_world d', Ok a).
Proof. unfold disk. destruct (m (dv_world d)) as [w r] eqn:E. by intros [= <- ->]. Qed.
Lemma get_run d d' e : get_engine d = (d', Ok e) -> d' = d /\ e = dv_engine d.
Proof. by intros [= <- <-]. Qed.
Lemma service_run {A : Type} (m : prog G A) d d' r : service m d = (d', r) ->
  dv_engine d' = dv_engine d /\ dv_world d' = dv_world d /\ m (dv_service d) = (dv_service d', r).
Proof. unfold service. destruct (m (dv_service d)) as [g r'] eqn:E. by intros [= <- ->]. Qed.
End runs.

Section engines.
Context `{Crypto} `{WordList} `{RecoveryCrypto} `{RecoveryJson} `{KeyJson} `{WalletFs} {G : Type}.
Implicit Types (d : device G).

Lemma in_use_run a b d d' r : wallet_in_use a b d = (d', Ok r) ->
  dv_engine d' = dv_engine d /\ dv_service d' = dv_service d /\ r.2 = en_walletGeneration (dv_engine d).
Proof.
  intros Hr. apply bind_run in Hr as (d1 & e & [-> ->]%get_run & Hr). destruct (en_unlocked (dv_engine d)) as [w|]; [|done].
  apply bind_run in Hr as (d1 & addresses & (He & Hs & _)%saying_run%disk_run & Hr). apply bind_run in Hr as (d2 & u & [-> _]%guard_run & Hr).
  by injection Hr as <- <-.
Qed.
Lemma localStatus_run d d' x : localStatusLocked d = (d', Ok x) ->
  dv_engine d' = dv_engine d /\ x.2 = en_walletGeneration (dv_engine d) /\ st_BalanceAvailable x.1.1 = false.
Proof.
  intros Hl. unfold localStatusLocked in Hl. apply bind_run in Hl as (? & e & [-> ->]%get_run & Hl). cbn zeta in Hl.
  destruct (en_unlocked (dv_engine d)).
  - apply bind_run in Hl as (d2 & l & (He & _ & _)%saying_run%disk_run & Hl). destruct l; [done|]. by injection Hl as <- <-.
  - apply bind_run in Hl as (d2 & rs & Hs%try_run & Hl). unfold disk in Hs. destruct (Stat _ _) as [w' r']. injection Hs as <- ->.
    destruct rs; [by injection Hl as <- <-|]. destruct (errors_Is _ _); [by injection Hl as <- <-|done].
Qed.

(** A view during which the wallet was locked or replaced. *)
Definition overtaken (View : list bytes -> Z -> prog (device G) ViewResponse) : Prop := forall addresses lim d,
  en_walletGeneration (dv_engine (View addresses lim d).1) <> en_walletGeneration (dv_engine d).
Lemma overtaken_run View addresses lim d d' r generation : overtaken View -> View addresses lim d = (d', r) ->
  generation = en_walletGeneration (dv_engine d) -> same_wallet generation (dv_engine d') = None.
Proof.
  intros HV Hv ->. specialize (HV addresses lim d). rewrite Hv in HV. cbn [fst] in HV. unfold same_wallet. by rewrite (proj2 (Z.eqb_neq _ _) HV).
Qed.
End engines.

Section payment.
Context `{Crypto} `{!CryptoLaws} `{WordList} `{RecoveryCrypto} `{RecoveryJson} `{KeyJson} `{WalletFs} `{JsonDecoder} `{!JsonDecoderLaws}.

(** The service behind the client of a gateway. *)
Definition honest_View (g : Gateway) (cl : Client) (addresses : list bytes) (limit : Z) : prog (device Chain) ViewResponse :=
  service (Client_View (gateway_do g) cl addresses limit).
Definition honest_Broadcast (g : Gateway) (cl : Client) (tx : Tx) : prog (device Chain) BroadcastResponse :=
  service (Client_Broadcast (gateway_do g) cl (Some tx)).
Implicit Types (d : device Chain).

Lemma prune_run d d' u : prunePendingLocked d = (d', Ok u) -> dv_service d' = dv_service d.
Proof.
  intros Hr. apply bind_run in Hr as (d1 & now & (_ & Hs & _)%disk_run & Hr). apply bind_run in Hr as (d2 & e & [-> ->]%get_run & Hr).
  by injection Hr as <- _.
Qed.
Lemma restrictions_run d d' r : pendingRestrictions d = (d', Ok r) -> dv_service d' = dv_service d.
Proof.
  intros Hr. apply bind_run in Hr as (d1 & u & Hp%prune_run & Hr). apply bind_run in Hr as (d2 & e & [-> ->]%get_run & Hr).
  apply bind_run in Hr as (d3 & u1 & [-> _]%guard_run & Hr). by injection Hr as <- _.
Qed.

(** A stored preview can be confirmed under its identifier. *)
Lemma store_run tx d d' id at_ : storePending tx d = (d', Ok (id, at_)) -> dv_service d' = dv_service d /\
  en_pending (dv_engine d') !! id = Some (mkPending tx at_ false) /\ pending_id_ok id = true.
Proof.
  intros Hr. apply bind_run in Hr as (d1 & rid & (_ & Hs1 & Hrand)%saying_run%disk_run & Hr). cbn zeta in Hr.
  apply bind_run in Hr as (d2 & now & (_ & Hs2 & _)%disk_run & Hr). apply bind_run in Hr as (d3 & u & Hs3%prune_run & Hr).
  apply bind_run in Hr as (d4 & e & [-> ->]%get_run & Hr). do 2 apply bind_run in Hr as (? & ? & [-> _]%guard_run & Hr).
  apply bind_run in Hr as (d5 & ? & Hp & Hr). injection Hp as <- _. injection Hr as <- <- <-. cbn.
  split_and!; [congruence|apply lookup_insert_eq|]. assert (length rid = 32%nat) as Hl.
  { unfold rand_read in Hrand. destruct (Nat.ltb_spec (length (w_rand (dv_world d))) 32); [done|]. injection Hrand as _ <-. rewrite length_take. lia. }
  unfold pending_id_ok. rewrite length_hex_encode, Hl. done.
Qed.
(** What a preview holds, with a gateway on a chain in order. *)
Definition previewed (c : Chain) (destination : bytes) (pv : sendPreview) (tx : Tx) : Prop :=
  exists keys toPKH change, EncodeAddress toPKH = destination /\ 0 <= change /\
    tx_Outs tx = payment_outputs keys toPKH (pv_AmountUnits pv) change /\ accepted c tx (pv_FeeUnits pv) /\
    pv_TxID pv = hex_encode (Tx_ID tx) /\ pv_TotalUnits pv = pv_AmountUnits pv + pv_FeeUnits pv.
Definition sendable (tx : Tx) : Prop :=
  wf_tx tx /\ IsCoinbase tx = false /\ 0 < Z.of_nat (length (Tx_Bytes tx)) <= MaxSignedTransactionBytes.

Lemma bytes_nonempty tx : 0 < Z.of_nat (length (Tx_Bytes tx)).
Proof. unfold Tx_Bytes, serialize. rewrite !length_app, length_le_bytes. lia. Qed.

Lemma preview_run p g cl destination amountText feeText d d' pv : pow_params_ok p -> chain_inv p (dv_service d) ->
  bi_height (c_tip (dv_service d)) < max_int64 -> CanonicalNetworkID (Some (c_params (dv_service d))) = Ok (g_network g) -> cl_network cl = g_network g ->
  PreviewSend (honest_View g cl) (mret tt) destination amountText feeText d = (d', Ok pv) ->
  parseAmount amountText false = Ok (pv_AmountUnits pv) /\ parseAmount feeText true = Ok (pv_FeeUnits pv) /\ dv_service d' = dv_service d /\
  exists tx at_, previewed (dv_service d) destination pv tx /\ sendable tx /\ pv_ExpiresAtUnix pv = at_ / 1000000000 /\
    en_pending (dv_engine d') !! pv_PendingID pv = Some (mkPending tx at_ false) /\ pending_id_ok (pv_PendingID pv) = true.
Proof.
  intros Hpow Hinv Htip Hnet Hcl Hr. apply bind_run in Hr as (? & amount & [-> Ha]%saying_run%lift_run & Hr). cbn zeta in Hr.
  apply bind_run in Hr as (? & fee & [-> Hf]%saying_run%lift_run & Hr). do 2 apply bind_run in Hr as (? & ? & [-> _]%guard_run & Hr).
  apply bind_run in Hr as (d1 & [addresses generation] & (He1 & Hs1 & _)%in_use_run & Hr).
  apply bind_run in Hr as (d2 & viewed & Hview%try_run & Hr). apply bind_run in Hr as (? & view & [-> Hv]%lift_run & Hr).
  destruct viewed as [view0|]; [|done]. apply Ok_inj in Hv as ->. apply service_run in Hview as (He2 & _ & Hview). rewrite Hs1 in Hview.
  apply (honest_view p (dv_service d) g cl) in Hview as (Hs2 & canonical & pkhs & wv & Hperm & Haddr & Hwv & ->); try done.
  apply bind_run in Hr as (? & remote & [-> Hrem]%lift_run & Hr). apply bind_run in Hr as (? & e & [-> ->]%get_run & Hr).
  destruct (remoteSnapshot _) as [remote0|] eqn:Erem; [|done]. apply Ok_inj in Hrem as ->.
  destruct (same_wallet _ _) as [w|]; [|done]. apply bind_run in Hr as (d3 & restricted & Hs3%restrictions_run & Hr).
  apply bind_run in Hr as (? & ? & [= <- _] & Hr). apply bind_run in Hr as (d4 & [snap prepared] & (He4 & Hs4 & Hprep)%saying_run%disk_run & Hr).
  apply bind_run in Hr as (? & ? & [= <- _] & Hr). apply bind_run in Hr as (d5 & [id at_] & (Hs5 & Hpend & Hid)%store_run & Hr).
  injection Hr as <- <-. cbn [pv_AmountUnits pv_FeeUnits pv_PendingID pv_ExpiresAtUnix]. split_and!; [done|done|congruence|].
  apply prepare_Ok in Hprep as (keys & toPKH & H0a & H0f & Hm & [Henc Hlen] & Hsnap & Hk & Hb).
  destruct (honest_snapshot p (dv_service d) g Hpow Hinv canonical pkhs wv remote keys (wh_network w) snap) as (Hon & _ & Hids); try done.
  destruct (built_payment_accepted p _ _ _ _ _ _ _ _ Hinv Hon Hk H0a H0f Hm Hb) as (change & Hch & Hacc & Houts & _ & _ & Hsize).
  destruct (built_message p _ Hinv keys snap toPKH amount fee restricted prepared) as [Hwf Hcb]; try done.
  exists (pp_Tx prepared), at_. split; [exists keys, toPKH, change; by split_and!|]. split; [|by split_and!].
  pose proof (bytes_nonempty (pp_Tx prepared)). split; [done|]. split; [done|]. unfold MaxSignedTxBytes in Hsize. unfold MaxSignedTransactionBytes. lia.
Qed.

(** Confirming a stored preview hands its transaction to the node. *)
Lemma confirm_run g cl id d tx at_ now w : CanonicalNetworkID (Some (c_params (dv_service d))) = Ok (g_network g) -> cl_network cl = g_network g ->
  en_network (dv_engine d) = g_network g -> (forall send, g_broadcaster g = Some send -> in_i64 (send tx)) -> sendable tx ->
  pending_id_ok id = true -> en_pending (dv_engine d) !! id = Some (mkPending tx at_ false) -> time_now (dv_world d) = (w, Ok now) -> now < at_ ->
  let writes := match g_broadcaster g with Some send => send tx | None => 0 end in
  let sent := is_ok (AcceptTxWithResult (dv_service d) (Some tx)).2 && (1 <=? writes) in
  ConfirmSend (honest_Broadcast g cl) id d =
    (mkDevice (set_pending (if sent then delete id (en_pending (dv_engine d)) else en_pending (dv_engine d)) (dv_engine d)) w
       (AcceptTxWithResult (dv_service d) (Some tx)).1,
     if sent then Ok (mkSendResult mobileSchemaVersion (hex_encode (Tx_ID tx)) "submitted" writes)
     else Err (EText "The payment could not reach the BTC09 network. Check the connection and try again.")).
Proof.
  intros Hnet Hcl Hen Hw (Hwf & Hcb & Hlen) Hid Hp Ht Hnow writes sent.
  unfold ConfirmSend, claim_pending, mbind, prog_bind, guard, get_engine, put_engine, try, mret, prog_ret, fail, disk, honest_Broadcast, service.
  rewrite Hid. cbn [check]. rewrite Hp, Ht. cbn [pd_expiresAt pd_inFlight pd_transaction]. rewrite (proj2 (Z.ltb_lt _ _) Hnow). cbn [negb dv_service dv_engine dv_world].
  rewrite Client_Broadcast_exchange by done. unfold sent. destruct (AcceptTxWithResult (dv_service d) (Some tx)) as [c' [adm|err]]; cbn [broadcast_outcome is_ok fst snd].
  2: { cbn [andb dv_engine dv_world dv_service set_pending en_pending en_walletPath en_network en_unlocked en_walletGeneration].
       rewrite alter_insert_eq, insert_id by done. reflexivity. }
  fold writes. destruct (Z.ltb_spec writes 1) as [Hlt|Hge].
  - rewrite (proj2 (Z.leb_gt _ _)) by done. cbn [andb dv_engine dv_world dv_service set_pending en_pending en_walletPath en_network en_unlocked en_walletGeneration].
    rewrite alter_insert_eq, insert_id by done. reflexivity.
  - rewrite (proj2 (Z.leb_le _ _)) by done. unfold accepted_response. cbn [andb set_pending dv_engine dv_world dv_service en_network br_Network br_TxID br_SchemaVersion br_Status br_PeerWrites br_Admission].
    rewrite Hen, String.eqb_refl, bool_decide_eq_true_2, Z.gtb_ltb, (proj2 (Z.ltb_lt _ _)) by (done || lia).
    destruct adm; cbn [admission_text set_pending en_pending en_walletPath en_unlocked en_walletGeneration dv_engine]; cbn; by rewrite delete_insert_eq.
Qed.
End payment.

(** ** The same wallet on another phone *)
Section recovery.
Context `{Crypto} `{!CryptoLaws} `{!KdfLaws} `{WordList} `{!WordListLaws} `{RecoveryCrypto} `{!RecoveryCryptoLaws}.
Context `{RecoveryJson} `{!RecoveryJsonLaws} `{KeyJson} `{!KeyJsonLaws} `{WalletFs} {G : Type}.
Implicit Types (d : device G).

Lemma holds_keys w t keys1 keys2 s1 s2 : holds w t keys1 s1 -> holds w t keys2 s2 -> keys1 = keys2.
Proof.
  unfold holds. destruct (t !! wh_path w) as [[c| |]|]; try done; [|by intros [-> _] [-> _]]. intros [_ H1'] [_ H2']. congruence.
Qed.

Lemma addresses_run w s s' addresses : handle_addresses w s = (s', Ok addresses) ->
  exists keys state, holds w (w_tree s) keys state /\ addresses = addressForKey <$> keys.
Proof.
  intros Hr. pose proof (with_keys_observed w false (fun keys => Ok (addressForKey <$> keys)) s) as Ho.
  unfold handle_addresses in Hr. rewrite Hr in Ho. symmetry in Ho. apply withKeys_Ok in Ho as (keys & state & Hread & Ha).
  apply Ok_inj in Ha as <-. exists keys, state. split; [|done]. by apply observe_holds.
Qed.

(** The addresses of a wallet that was just created. *)
Lemma created_addresses t0 network password payload w s s' addresses : created t0 network password payload w (w_tree s) ->
  handle_addresses w s = (s', Ok addresses) -> addresses = addressForKey <$> payload_keys payload network.
Proof.
  intros Hc (keys & state & Hh & ->)%addresses_run. destruct (created_holds _ _ _ _ _ _ Hc) as [Hh' _]. by rewrite (holds_keys _ _ _ _ _ _ Hh Hh').
Qed.

Lemma CreateWallet_run cpus key d d' r : CreateWallet cpus key d = (d', Ok r) -> exists e,
  length e = RecoveryEntropyBytes /\ recoveryPhraseFromEntropy e = Ok (cr_RecoveryPhrase r) /\
  [cr_Address r] = addressForKey <$> payload_keys (mkPayload e 1 RecoveryDerivationID) (en_network (dv_engine d)).
Proof.
  intros Hr. apply bind_run in Hr as (? & k & [-> _]%lift_run & Hr). apply bind_run in Hr as (? & e & [-> ->]%get_run & Hr).
  apply bind_run in Hr as (d1 & [w phrase] & (_ & _ & Hc)%saying_run%disk_run & Hr). apply create_created in Hc as (e & Hl & Hp & Hcr).
  apply bind_run in Hr as (d2 & ra & Ha%try_run & Hr). destruct ra as [[|a [|]]|]; try done. apply disk_run in Ha as (_ & _ & Ha).
  apply bind_run in Hr as (d3 & u & _ & Hr). injection Hr as _ <-. exists e. cbn. split_and!; [done..|].
  exact (created_addresses _ _ _ _ _ _ _ _ Hcr Ha).
Qed.

(** The status of an unlocked wallet shows the first address in its file. *)
Lemma Status_run (View : list bytes -> Z -> prog (device G) ViewResponse) d d' st w : (forall addresses limit d0, dv_engine (View addresses limit d0).1 = dv_engine d0) ->
  en_unlocked (dv_engine d) = Some w -> Status View d = (d', Ok st) ->
  st_WalletState st = walletStateReady /\ exists s' addresses, handle_addresses w (dv_world d) = (s', Ok addresses) /\ head addresses = Some (st_Address st).
Proof.
  intros HV Hu Hr. apply bind_run in Hr as (d1 & [[base addresses] generation] & Hl & Hr). unfold localStatusLocked in Hl.
  apply bind_run in Hl as (? & e & [-> ->]%get_run & Hl). rewrite Hu in Hl.
  apply bind_run in Hl as (d2 & l & (He & _ & Ha)%saying_run%disk_run & Hl). destruct l as [|a l]; [done|]. injection Hl as <- <- <- <-.
  cbn [length Nat.eqb] in Hr. apply bind_run in Hr as (d3 & viewed & Hv%try_run & Hr). cbn zeta in Hr.
  apply bind_run in Hr as (? & e & [-> ->]%get_run & Hr). pose proof (HV (a :: l) 0 d2) as Hd3. rewrite Hv in Hd3. cbn [fst] in Hd3.
  unfold same_wallet in Hr. rewrite Hd3, He, Z.eqb_refl, Hu in Hr.
  enough (st_WalletState st = walletStateReady /\ st_Address st = a) as [? ->] by (split; [done|]; eauto).
  destruct viewed as [view|]; [|by injection Hr as _ <-]. cbn [mbind result_bind] in Hr. destruct (remoteSnapshot view); [|by injection Hr as _ <-].
  apply bind_run in Hr as (d4 & rv & _ & Hr). destruct rv; by injection Hr as _ <-.
Qed.

(** C20: The recovery phrase that is shown when a wallet is created restores it on another
    phone, with another device key: the wallet there is ready and has the same address. *)
Theorem phrase_moves_wallet (View : list bytes -> Z -> prog (device G) ViewResponse) cpus cpus' key key' d d' r d2 d2' st :
  CreateWallet cpus key d = (d', Ok r) -> en_network (dv_engine d2) = en_network (dv_engine d) ->
  (forall addresses limit d0, dv_engine (View addresses limit d0).1 = dv_engine d0) ->
  RestoreWallet View (mret tt) cpus' key' (cr_RecoveryPhrase r) d2 = (d2', Ok st) ->
  st_WalletState st = walletStateReady /\ st_Address st = cr_Address r.
Proof.
  intros (e & Hl & Hp & Ha)%CreateWallet_run Hnet HV Hr.
  apply bind_run in Hr as (? & k & [-> _]%lift_run & Hr). apply bind_run in Hr as (? & e' & [-> ->]%get_run & Hr).
  apply bind_run in Hr as (d3 & w & (He & _ & Hc)%saying_run%disk_run & Hr). apply restore_created in Hc as (e2 & He2 & Hcr).
  rewrite (phrase_entropy e _ Hl Hp) in He2. apply Ok_inj in He2 as <-. apply bind_run in Hr as (d4 & u & Hrep & Hr).
  injection Hrep as <- _. apply bind_run in Hr as (? & ? & [= <- _] & Hr).
  apply (Status_run _ _ _ _ w HV) in Hr as (Hst & s' & addresses & Haddr & Hhd); [|done]. split; [done|].
  rewrite (created_addresses _ _ _ _ _ _ _ _ Hcr Haddr) in Hhd. rewrite Hnet, <- Ha in Hhd. by injection Hhd.
Qed.
End recovery.

(** ** Amounts *)
(** An amount is accepted exactly when it is a plain decimal number of coins of at most 32
    characters, with at most eight decimals, that does not exceed the supply and is only
    zero where zero is allowed; the result is its exact value in units. *)
Theorem amounts_exact text allowZero units : parseAmount text allowZero = Ok units <->
  Z.of_nat (length text) <= 32 /\ denotes text units /\ 0 <= units <= MaxMoneyUnits /\ (units = 0 -> allowZero = true).
Proof. apply parseAmount_spec. Qed.

(** ** The table of payments *)
Section table.
Context `{Crypto} `{!CryptoLaws} `{WordList} `{RecoveryCrypto} `{RecoveryJson} `{KeyJson} `{WalletFs} {G : Type}.
Implicit Types (d : device G).

(** C29: At all times at most sixteen signed payments wait for confirmation, none of them while
    the wallet is locked, and no two of them spend the same output.  Every method keeps
    this, whatever the wallet service answers, whatever faults the storage has, and
    whatever other methods do while the service is asked or a lock is free; confirming and
    cancelling, which can also run while a payment is being prepared, only take payments
    from the table. *)
Theorem previews_never_compete (View : list bytes -> Z -> prog (device G) ViewResponse) Broadcast others confirming qr_png cpus :
  orderly View Broadcast others confirming ->
  (forall directory network s s' e, newEngine directory network s = (s', Ok e) -> table_ok e) /\
  (forall m d, table_ok (dv_engine d) -> table_ok (dv_engine (call View Broadcast others confirming qr_png cpus m d).1)) /\
  (forall id d, settled (dv_engine d) (dv_engine (CancelSend id d).1)) /\
  (forall id, (forall e tx, safe (settled e) (Broadcast tx)) -> forall d, settled (dv_engine d) (dv_engine (ConfirmSend Broadcast id d).1)).
Proof.
  intros Hor. assert (Hsafe : forall (A : Type) P (m : prog (device G) A) d, safe P m -> P (dv_engine d) -> P (dv_engine (m d).1)).
  { intros A P m d Hm Hd. specialize (Hm d Hd). by destruct (m d) as [d' []]. }
  split_and!.
  - intros directory network s s' e Hr. unfold newEngine in Hr. do 2 apply bind_run in Hr as (? & ? & _ & Hr).
    do 3 apply bind_run in Hr as (? & ? & _ & Hr). apply bind_run in Hr as (? & ? & _ & Hr). injection Hr as _ <-.
    split; cbn; [rewrite map_size_empty; lia|done|]. intros i j p q op Hi. by rewrite lookup_empty in Hi.
  - intros m d Hd. by apply (Hsafe _ table_ok); [apply call_safe|].
  - intros id d. apply (Hsafe _ (settled (dv_engine d))); [apply cancel_safe, closed_settled|apply settled_refl].
  - intros id HB d. apply (Hsafe _ (settled (dv_engine d))); [apply confirm_safe; [apply closed_settled|apply HB]|apply settled_refl].
Qed.

(** While the service is asked, the wallet can be locked or replaced.  A payment that was
    being prepared is then not stored, no activity is returned, and the status that is
    returned shows no balance. *)
Theorem stale_view_dropped (View : list bytes -> Z -> prog (device G) ViewResponse) confirming destination amount fee limit d :
  overtaken View ->
  is_ok (PreviewSend View confirming destination amount fee d).2 = false /\
  is_ok (Activity View limit d).2 = false /\
  match Status View d with (_, Ok st) => st_BalanceAvailable st = false | _ => True end.
Proof.
  intros HV. split_and!.
  - destruct (PreviewSend _ _ _ _ _ d) as [d' [pv|]] eqn:Hr; [|done]. exfalso. apply bind_run in Hr as (? & a & [-> _]%saying_run%lift_run & Hr). cbn zeta in Hr.
    apply bind_run in Hr as (? & f & [-> _]%saying_run%lift_run & Hr). do 2 apply bind_run in Hr as (? & ? & [-> _]%guard_run & Hr).
    apply bind_run in Hr as (d1 & [addresses gen] & (He & _ & Hg)%in_use_run & Hr). apply bind_run in Hr as (d2 & viewed & Hv%try_run & Hr).
    do 2 apply bind_run in Hr as (? & ? & [-> _]%lift_run & Hr). apply bind_run in Hr as (? & e & [-> ->]%get_run & Hr).
    rewrite (overtaken_run _ _ _ _ _ _ gen HV Hv) in Hr; [done|]. cbn in Hg. by rewrite He.
  - destruct (Activity _ _ d) as [d' [pv|]] eqn:Hr; [|done]. exfalso. apply bind_run in Hr as (? & ? & [-> _]%guard_run & Hr).
    apply bind_run in Hr as (d1 & [addresses gen] & (He & _ & Hg)%in_use_run & Hr). apply bind_run in Hr as (d2 & viewed & Hv%try_run & Hr).
    do 2 apply bind_run in Hr as (? & ? & [-> _]%lift_run & Hr). apply bind_run in Hr as (? & e & [-> ->]%get_run & Hr).
    rewrite (overtaken_run _ _ _ _ _ _ gen HV Hv) in Hr; [done|]. cbn in Hg. by rewrite He.
  - destruct (Status _ d) as [d' [st|]] eqn:Hr; [|done]. apply bind_run in Hr as (d1 & [[base addresses] gen] & (He & Hg & Hb)%localStatus_run & Hr).
    destruct (length addresses =? 0)%nat; [by injection Hr as _ <-|]. apply bind_run in Hr as (d2 & viewed & Hv%try_run & Hr). cbn zeta in Hr.
    apply bind_run in Hr as (? & e & [-> ->]%get_run & Hr). cbn in Hg. rewrite (overtaken_run _ _ _ _ _ _ gen HV Hv) in Hr by (by rewrite He).
    apply bind_run in Hr as (d3 & [[current ?] ?] & (_ & _ & Hc)%localStatus_run & Hr). by injection Hr as _ <-.
Qed.
End table.

(** ** Sending *)
Section sending.
Context `{Crypto} `{!CryptoLaws} `{WordList} `{RecoveryCrypto} `{RecoveryJson} `{KeyJson} `{WalletFs} `{JsonDecoder} `{!JsonDecoderLaws}.

(** C11: Sending with a gateway whose node is on a reachable chain.  A preview shows exactly the
    amount and fee that were typed, and stands for a signed transaction that pays this
    amount to the destination and the rest to the wallet, and that the node admits with
    exactly this fee (unless another transaction collides with its id).  Confirming it in
    time sends it: the node has it in its mempool, the result names the transaction that
    was shown, and the preview is gone, so it is not sent twice. *)
Theorem mobile_payment_admitted p b g cl destination amountText feeText d d' pv :
  pow_params_ok p -> reachable p (dv_service d) -> bi_height (c_tip (dv_service d)) < max_int64 -> NewGateway (Some (dv_service d)) b = Ok g ->
  cl_network cl = g_network g -> PreviewSend (honest_View g cl) (mret tt) destination amountText feeText d = (d', Ok pv) ->
  denotes amountText (pv_AmountUnits pv) /\ denotes feeText (pv_FeeUnits pv) /\ 0 < pv_AmountUnits pv /\
  exists tx at_, previewed (dv_service d) destination pv tx /\ pv_ExpiresAtUnix pv = at_ / 1000000000 /\
    forall now w send, time_now (dv_world d') = (w, Ok now) -> now < at_ -> en_network (dv_engine d') = g_network g ->
      b = Some send -> 1 <= send tx < two63 -> is_ok (AcceptTxWithResult (dv_service d) (Some tx)).2 = true ->
      exists d2, ConfirmSend (honest_Broadcast g cl) (pv_PendingID pv) d' = (d2, Ok (mkSendResult mobileSchemaVersion (pv_TxID pv) "submitted" (send tx))) /\
        dv_service d2 = (AcceptTxWithResult (dv_service d) (Some tx)).1 /\ en_pending (dv_engine d2) !! pv_PendingID pv = None.
Proof.
  intros Hpow Hreach Htip Hg Hcl Hr. unfold NewGateway in Hg. apply bind_Ok in Hg as (net & Hnet & Hg). apply Ok_inj in Hg as <-.
  destruct (preview_run p (mkGateway b net) cl destination amountText feeText d d' pv Hpow (reachable_inv _ Hpow _ Hreach) Htip Hnet Hcl Hr)
    as (Ha & Hf & Hs & tx & at_ & Hpv & Hsend & Hexp & Hpend & Hid).
  apply parseAmount_spec in Ha as (_ & Hda & Hra & Hz). apply parseAmount_spec in Hf as (_ & Hdf & _). split_and!; [done|done| |].
  { destruct (Z.eq_dec (pv_AmountUnits pv) 0) as [E|E]; [by apply Hz in E|lia]. }
  exists tx, at_. split_and!; [done|done|]. intros now w send Ht Hnow Hen -> Hwrites Hok.
  destruct Hpv as (keys & toPKH & change & _ & _ & _ & _ & -> & _).
  eexists. rewrite (confirm_run _ cl _ d' tx at_ now w); try done; cbn [g_broadcaster g_network].
  - rewrite Hs, Hok, (proj2 (Z.leb_le _ _)) by lia. cbn [andb]. split_and!; [done|done|]. cbn. apply lookup_delete_eq.
  - by rewrite Hs.
  - intros send' [= <-]. unfold in_i64, two63 in *. lia.
Qed.

(** C39: When the node admits a confirmed payment but its broadcast reaches no peer (the
    broadcaster reports less than one write, or there is none), the wallet reports that the
    payment could not reach the network and lets the user cancel it; the payment stays in
    the mempool of the node and can still be mined. *)
Theorem unsent_payment_still_pending g cl id d tx at_ now w : CanonicalNetworkID (Some (c_params (dv_service d))) = Ok (g_network g) ->
  cl_network cl = g_network g -> en_network (dv_engine d) = g_network g -> sendable tx -> pending_id_ok id = true ->
  en_pending (dv_engine d) !! id = Some (mkPending tx at_ false) -> time_now (dv_world d) = (w, Ok now) -> now < at_ ->
  (forall BroadcastTx, g_broadcaster g = Some BroadcastTx -> in_i64 (BroadcastTx tx) /\ BroadcastTx tx < 1) ->
  (AcceptTxWithResult (dv_service d) (Some tx)).2 = Ok TxAcceptanceAdded ->
  let confirmed := ConfirmSend (honest_Broadcast g cl) id d in
  confirmed.2 = Err (EText "The payment could not reach the BTC09 network. Check the connection and try again.") /\
  let cancelled := CancelSend id confirmed.1 in
  cancelled.2 = Ok tt /\ en_pending (dv_engine cancelled.1) !! id = None /\
  c_mempool (dv_service cancelled.1) !! Tx_ID tx = Some tx.
Proof.
  intros Hnet Hcl Hen Hs Hid Hp Ht Hnow Hb Hadd confirmed. unfold confirmed.
  rewrite (confirm_run g cl id d tx at_ now w) by (done || (intros send Hsend; by apply Hb)).
  assert (1 <=? match g_broadcaster g with Some send => send tx | None => 0 end = false) as ->.
  { destruct (g_broadcaster g) as [send|]; [|done]. apply Z.leb_gt. by apply Hb. }
  rewrite Hadd. cbn [is_ok andb fst snd]. split; [done|]. set (cancelled := CancelSend id _).
  assert (cancelled = (mkDevice (set_pending (delete id (en_pending (dv_engine d))) (dv_engine d)) w (AcceptTxWithResult (dv_service d) (Some tx)).1, Ok tt)) as ->.
  { unfold cancelled, CancelSend, mbind, prog_bind, guard, get_engine, put_engine. rewrite Hid. cbn [check dv_engine set_pending en_pending]. rewrite Hp. done. }
  cbn [fst snd dv_engine dv_service set_pending en_pending]. split_and!; [done|apply lookup_delete_eq|].
  unfold AcceptTxWithResult in *. repeat (case_match; try done). cbn. apply lookup_insert_eq.
Qed.
End sending.

(** ** Applications *)
(** A phone on which a wallet was created, with a node that has mined a block to its
    address; thirty coins are sent to Bob. *)
Module MobileToy.
Definition device_key : bytes := replicate 32 Byte.x6b.
Definition seed : bytes :=
  match deriveRecoveryPrivateKeyFromEntropy (map z2b (seqZ 1 32)) RegTestMachineID 0 with Ok k => k | Err _ => [] end.
Definition chain1 : Chain := run_op Toy.c0 (OpBlock (Some (Toy.mine Toy.c0 seed [])) Toy.now).
Definition chain2 : Chain := run_op chain1 (OpBlock (Some (Toy.mine chain1 Toy.bob [])) Toy.now).
Definition engine_at (directory : bytes) : world * result Engine := newEngine directory RegTestMachineID (KeyToy.calm KeyToy.empty_tree).
Definition start (directory : bytes) : device Chain :=
  mkDevice (KeyToy.outcome (engine_at directory) (mkEngine [] RegTestMachineID None 0 ∅)).2 (engine_at directory).1 chain2.
Definition creation : device Chain * result createResult := CreateWallet 8 device_key (start (bs "/app")).
Definition phone : device Chain := mkDevice (dv_engine creation.1) (dv_world creation.1) chain2.
Definition no_service (addresses : list bytes) (limit : Z) : prog (device Chain) ViewResponse := fail (EText "offline").
Definition preview (g : Gateway) : device Chain * result sendPreview :=
  PreviewSend (honest_View g LightToy.client) (mret tt) bob_address (bs "30") (bs "0.0001") phone.
(** A gateway whose node has no peers to write to. *)
Definition lonely : Gateway := LightToy.gateway 0.
Definition unsent : device Chain := (preview lonely).1.
Definition id_of (r : result sendPreview) : bytes := match r with Ok pv => pv_PendingID pv | Err _ => [] end.
Definition unsent_id : bytes := id_of (preview lonely).2.
Definition unsent_tx : Tx := match en_pending (dv_engine unsent) !! unsent_id with Some p => pd_transaction p | None => Toy.payment end.
End MobileToy.

Section applications.
Import MobileToy.

Lemma chain2_reachable : reachable RegTest chain2.
Proof. exact (reach_op _ _ _ (reach_op _ _ _ (reach_new _ _ Toy.c0_new))). Qed.
Lemma phone_chain : dv_service phone = chain2.
Proof. reflexivity. Qed.

Lemma mobile_payment_admitted_witness : exists d' pv d2 r,
  preview (LightToy.gateway 1) = (d', Ok pv) /\ denotes (bs "30") (pv_AmountUnits pv) /\
  ConfirmSend (honest_Broadcast (LightToy.gateway 1) LightToy.client) (pv_PendingID pv) d' = (d2, Ok r) /\ sd_TxID r = pv_TxID pv.
Proof.
  assert (Hall : match preview (LightToy.gateway 1) with
    | (d', Ok pv) => bool_decide (pv_ExpiresAtUnix pv = 300 /\ w_clock (dv_world d') = [0] /\ en_network (dv_engine d') = RegTestMachineID)
    | _ => false end = true) by (vm_compute; reflexivity).
  destruct (preview (LightToy.gateway 1)) as [d' [pv|]] eqn:Hr; [|discriminate Hall]. exists d', pv. apply bool_decide_eq_true in Hall as (He & Hc & Hn).
  destruct (mobile_payment_admitted RegTest (Some (fun _ => 1)) (LightToy.gateway 1) LightToy.client bob_address (bs "30") (bs "0.0001") phone d' pv)
    as (Hd & _ & _ & tx & at_ & Hpv & Hexp & Hsend); [exact pow_params_ok_reg|rewrite phone_chain; exact chain2_reachable|
    rewrite phone_chain; vm_compute; reflexivity|rewrite phone_chain; vm_compute; reflexivity|reflexivity|exact Hr|].
  destruct (Hsend 0 (dv_world d') (fun _ => 1)) as (d2 & Hconf & _).
  - unfold time_now. rewrite Hc. reflexivity.
  - rewrite He in Hexp. pose proof (Z.div_mod at_ 1000000000 ltac:(lia)). pose proof (Z.mod_pos_bound at_ 1000000000 ltac:(lia)). lia.
  - exact Hn.
  - reflexivity.
  - split; [lia|reflexivity].
  - destruct Hpv as (_ & _ & _ & _ & _ & _ & [_ [Hacc|(other & Hm & _)]] & _); [rewrite Hacc; reflexivity|]. exfalso. revert Hm.
    rewrite phone_chain. replace (c_mempool chain2) with (∅ : gmap Hash32 Tx) by (vm_compute; reflexivity). by rewrite lookup_empty.
  - exists d2. eexists. split; [reflexivity|]. split; [exact Hd|]. split; [exact Hconf|reflexivity].
Defined.

Lemma start_engine directory : is_ok (engine_at directory).2 = true -> exists s, engine_at directory = (s, Ok (dv_engine (start directory))).
Proof. unfold start. destruct (engine_at directory) as [s [e|]]; [|discriminate]. by exists s. Qed.

(** A phone that is locked whenever it asks the service, and on which the waiting payment
    is cancelled while another one is prepared. *)
Definition hasty_View (addresses : list bytes) (limit : Z) : prog (device Chain) ViewResponse :=
  _ ← Lock; no_service addresses limit.
Lemma hasty_orderly g : orderly hasty_View (honest_Broadcast g LightToy.client) Lock (ignore (CancelSend [Byte.x61])).
Proof.
  split.
  - intros addresses limit. apply safe_bind; [apply lock_ok|intros _]. apply safe_fail.
  - intros tx. apply safe_service.
  - apply lock_ok.
  - intros e. apply safe_ignore, cancel_safe, closed_settled.
Qed.

Definition hasty_call (m : method) : prog (device Chain) unit :=
  call hasty_View (honest_Broadcast lonely LightToy.client) Lock (ignore (CancelSend [Byte.x61])) (fun _ => Ok []) 8 m.

Lemma previews_never_compete_witness :
  orderly hasty_View (honest_Broadcast lonely LightToy.client) Lock (ignore (CancelSend [Byte.x61])) /\
  table_ok (dv_engine (hasty_call (MPreview bob_address (bs "30") (bs "1")) (hasty_call (MCreate device_key) (start (bs "/app"))).1).1).
Proof.
  split; [apply hasty_orderly|].
  destruct (previews_never_compete hasty_View (honest_Broadcast lonely LightToy.client) Lock (ignore (CancelSend [Byte.x61])) (fun _ => Ok []) 8 (hasty_orderly lonely))
    as (Hnew & Hcall & _). fold hasty_call in Hcall.
  apply Hcall, Hcall. destruct (start_engine (bs "/app")) as [s Hs]; [vm_compute; reflexivity|].
  exact (Hnew _ _ _ _ _ Hs).
Defined.

Lemma hasty_overtaken : overtaken hasty_View.
Proof.
  intros addresses lim d. set (n := en_walletGeneration (dv_engine d)). change (u64 (n + 1) <> n). unfold u64. intros E.
  pose proof (Z.mod_pos_bound (n + 1) two64 ltac:(reflexivity)) as Hb. rewrite E in Hb. destruct (Z.eq_dec n (two64 - 1)) as [E2|E2].
  - rewrite E2, Z.sub_add, Z.mod_same in E; discriminate E.
  - rewrite Z.mod_small in E by lia. lia.
Qed.
Lemma stale_view_dropped_witness : overtaken hasty_View /\
  is_ok (PreviewSend hasty_View (mret tt) bob_address (bs "30") (bs "1") phone).2 = false.
Proof.
  split; [exact hasty_overtaken|]. exact (proj1 (stale_view_dropped hasty_View (mret tt) bob_address (bs "30") (bs "1") 1 phone hasty_overtaken)).
Defined.

Lemma phrase_moves_wallet_witness : exists d' r d2' st, creation = (d', Ok r) /\
  RestoreWallet no_service (mret tt) 4 (replicate 32 Byte.x6c) (cr_RecoveryPhrase r) (start (bs "/other")) = (d2', Ok st) /\ st_Address st = cr_Address r.
Proof.
  assert (Hall : match creation with
    | (d', Ok r) => is_ok (RestoreWallet no_service (mret tt) 4 (replicate 32 Byte.x6c) (cr_RecoveryPhrase r) (start (bs "/other"))).2
    | _ => false end = true) by (vm_compute; reflexivity).
  destruct creation as [d' [r|]] eqn:Hc; [|discriminate Hall]. exists d', r.
  destruct (RestoreWallet _ _ _ _ _ _) as [d2' [st|]] eqn:Hr; [|discriminate Hall]. exists d2', st. split; [reflexivity|]. split; [reflexivity|].
  refine (proj2 (phrase_moves_wallet no_service 8 4 device_key (replicate 32 Byte.x6c) (start (bs "/app")) d' r (start (bs "/other")) d2' st Hc _ _ Hr)).
  - vm_compute. reflexivity.
  - intros addresses limit d0. reflexivity.
Defined.

Lemma unsent_payment_still_pending_witness :
  is_ok (ConfirmSend (honest_Broadcast lonely LightToy.client) unsent_id unsent).2 = false /\
  c_mempool (dv_service (CancelSend unsent_id (ConfirmSend (honest_Broadcast lonely LightToy.client) unsent_id unsent).1).1) !! Tx_ID unsent_tx = Some unsent_tx.
Proof.
  assert (Hwf : wf_tx unsent_tx) by (apply (DecodeTx_wf (Tx_Bytes unsent_tx)); vm_compute; reflexivity).
  destruct (unsent_payment_still_pending lonely LightToy.client unsent_id unsent unsent_tx 300000000000 0 (dv_world unsent)) as (H1' & H2' & H3' & H4').
  - vm_compute. reflexivity.
  - reflexivity.
  - vm_compute. reflexivity.
  - split; [exact Hwf|]. split; [vm_compute; reflexivity|]. vm_compute. split; [reflexivity|discriminate].
  - vm_compute. reflexivity.
  - vm_compute. reflexivity.
  - vm_compute. reflexivity.
  - reflexivity.
  - intros send [= <-]. unfold in_i64. vm_compute. split; [split; [discriminate|reflexivity]|reflexivity].
  - vm_compute. reflexivity.
  - split; [|exact H4']. rewrite H1'. reflexivity.
Defined.
End applications.
