(* ===== verification/Explorer.v ===== *)
(** * The explorer service (explorer/explorer.go)

    The versioned JSON interface (tip, block, transaction and address outputs, with its
    path and query rules, its consistency checks and its size limit), the limit on
    concurrent queries, and the data of the transaction and address pages.  The queries of
    the server are the read methods of the chain (ChainView.v).  Templates, the home and
    block pages and the mining statistics (floating point) are left out. *)
From S2P Require Import Prelude Text Params Crypto Pow Wire Address Merkle Chain ChainView.
From S2P Require Import Supply GoStrings GoJson.

(** ** Query strings (net/url) *)
(** [strings.Cut] at one character: what precedes it and what follows. *)
Fixpoint Cut (c : byte) (s : bytes) : bytes * option bytes :=
  match s with
  | [] => ([], None)
  | x :: s' => if bool_decide (x = c) then ([], Some s') else let '(a, b) := Cut c s' in (x :: a, b)
  end.

(** [url.QueryUnescape] *)
Fixpoint QueryUnescape (s : bytes) : option bytes :=
  match s with
  | [] => Some []
  | c :: s =>
      if bool_decide (c = Byte.x25) then
        match s with
        | a :: b :: s => match from_hex a, from_hex b with
                         | Some x, Some y => cons (z2b (x * 16 + y)) <$> QueryUnescape s
                         | _, _ => None
                         end
        | _ => None
        end
      else cons (if bool_decide (c = Byte.x2b) then space else c) <$> QueryUnescape s
  end.

(** One [key=value] of [url.ParseQuery]: the values and whether all was well so far. *)
Definition query_step (st : gmap bytes (list bytes) * bool) (part : bytes) : gmap bytes (list bytes) * bool :=
  let '(m, ok) := st in
  if Contains part (bs ";") then (m, false) else
  if bool_decide (part = []) then (m, ok) else
  let '(key, value) := Cut Byte.x3d part in
  match QueryUnescape key, QueryUnescape (default [] value) with
  | Some key, Some value => (<[key := default [] (m !! key) ++ [value]]> m, ok)
  | _, _ => (m, false)
  end.
Definition max_query_params : Z := 10000.
Definition ParseQuery (query : bytes) : gmap bytes (list bytes) * bool :=
  let parts := Split Byte.x26 query in
  if Z.of_nat (length parts) >? max_query_params then (∅, false) else foldl query_step (∅, true) parts.

(** [strconv.ParseInt] in base ten for [int64] *)
Definition ParseInt (s : bytes) : option Z :=
  let '(sign, digits) := match s with
                         | c :: r => if bool_decide (c = Byte.x2b) then (1, r)
                                     else if bool_decide (c = Byte.x2d) then (-1, r) else (1, s)
                         | [] => (1, [])
                         end in
  if (length digits =? 0)%nat || negb (forallb digit digits) then None else
  let v := sign * dec_value digits in
  if bool_decide (in_i64 v) then Some v else None.

(** ** The server *)
Definition v1SchemaVersion : Z := 1.
Definition v1MaxResponseBytes : Z := Z.shiftl 4 20.
Definition v1ExpensiveQueryLimit : nat := 4.

Record Server := mkServer {
  s_network : string; s_coinbaseMaturity : Z; s_maxV1ResponseBytes : Z }.

Definition New (chain : option Chain) : result Server :=
  match chain with
  | None => Err (EText "nil explorer chain")
  | Some c => network ← CanonicalNetworkID (Some (c_params c));
              Ok (mkServer network (CoinbaseMaturity (c_params c)) v1MaxResponseBytes)
  end.

(** The highest height a peer advertised, if the peer set reports one, and the lag. *)
Definition advertisedPeerHeightHealth (reported : option Z) (localHeight : Z) : Z * Z :=
  match reported with
  | None => (0, 0)
  | Some highest =>
      let highest := if highest <? 0 then 0 else highest in
      (highest, if highest >? localHeight then highest - localHeight else 0)
  end.

(** ** Messages *)
Record v1Tip := mkV1Tip { vt_Hash : bytes; vt_Height : Z }.
Record v1Block := mkV1Block { vb_Hash : bytes; vb_Height : option Z; vb_Canonical : bool }.
Record v1BlockAnchor := mkAnchor { va_Hash : bytes; va_Height : Z }.
Record v1ConfirmedSpend := mkV1Spend { vc_TxID : bytes; vc_InputIndex : Z; vc_Block : v1BlockAnchor }.
Record v1AddressOutput := mkV1Output {
  vo_TxID : bytes; vo_TransactionIndex : Z; vo_Vout : Z; vo_AmountUnits : Z; vo_Block : v1BlockAnchor;
  vo_Confirmations : Z; vo_Coinbase : bool; vo_Mature : bool; vo_SpentBy : option v1ConfirmedSpend }.

Inductive v1_payload :=
  | v1TipResponse (network : string) (tip : v1Tip)
  | v1BlockResponse (network : string) (found : bool) (block : v1Block) (tip : v1Tip)
  | v1TransactionResponse (network : string) (txid : bytes) (status : TransactionStatus)
      (block : option v1BlockAnchor) (confirmations : Z) (tip : v1Tip)
  | v1AddressResponse (network : string) (address : bytes) (tip : v1Tip) (outputs : list v1AddressOutput)
  | v1TipMismatchResponse (network : string) (address : bytes) (tip : v1Tip)
  | v1ErrorResponse (network : string) (code : string).

Definition tx_status_text (s : TransactionStatus) : string :=
  match s with
  | TransactionStatusUnknown => "unknown"
  | TransactionStatusMempool => "mempool"
  | TransactionStatusConfirmed => "confirmed"
  end.

Definition tip_json (t : v1Tip) : value := object [("hash", VText (vt_Hash t)); ("height", VInt (vt_Height t))].
Definition anchor_json (a : v1BlockAnchor) : value := object [("hash", VText (va_Hash a)); ("height", VInt (va_Height a))].
Definition block_json (b : v1Block) : value :=
  object [("hash", VText (vb_Hash b)); ("height", pointer VInt (vb_Height b)); ("canonical", VBool (vb_Canonical b))].
Definition spend_json (s : v1ConfirmedSpend) : value :=
  object [("txid", VText (vc_TxID s)); ("input_index", VInt (vc_InputIndex s)); ("block", anchor_json (vc_Block s))].
Definition output_json (o : v1AddressOutput) : value :=
  object [("txid", VText (vo_TxID o)); ("transaction_index", VInt (vo_TransactionIndex o)); ("vout", VInt (vo_Vout o));
          ("amount_units", VInt (vo_AmountUnits o)); ("block", anchor_json (vo_Block o));
          ("confirmations", VInt (vo_Confirmations o)); ("coinbase", VBool (vo_Coinbase o));
          ("mature", VBool (vo_Mature o)); ("spent_by", pointer spend_json (vo_SpentBy o))].

Definition payload_json (p : v1_payload) : value :=
  match p with
  | v1TipResponse network tip =>
      object [("schema_version", VInt v1SchemaVersion); ("network", text network); ("tip", tip_json tip)]
  | v1BlockResponse network found block tip =>
      object [("schema_version", VInt v1SchemaVersion); ("network", text network); ("found", VBool found);
              ("block", block_json block); ("tip", tip_json tip)]
  | v1TransactionResponse network txid status block confirmations tip =>
      object [("schema_version", VInt v1SchemaVersion); ("network", text network); ("txid", VText txid);
              ("status", text (tx_status_text status)); ("block", pointer anchor_json block);
              ("confirmations", VInt confirmations); ("tip", tip_json tip)]
  | v1AddressResponse network address tip outputs =>
      object [("schema_version", VInt v1SchemaVersion); ("network", text network); ("address", VText address);
              ("complete", VBool true); ("tip", tip_json tip); ("outputs", VArray (map output_json outputs))]
  | v1TipMismatchResponse network address tip =>
      object [("schema_version", VInt v1SchemaVersion); ("network", text network); ("address", VText address);
              ("complete", VBool false); ("tip", tip_json tip)]
  | v1ErrorResponse network code =>
      object [("schema_version", VInt v1SchemaVersion); ("network", text network); ("error_code", text code)]
  end.

(** ** Requests and replies *)
Record v1_request := mkV1Request {
  rq_Method : string; rq_RequestURI : bytes; rq_Path : bytes; rq_RawPath : bytes; rq_RawQuery : bytes }.
Record v1_reply := mkV1Reply { rp_Status : Z; rp_Allow : option string; rp_Body : bytes }.

Definition writeV1 (s : Server) (r : v1_request) (status : Z) (payload : v1_payload) : v1_reply :=
  if String.eqb (rq_Method r) "HEAD" then mkV1Reply status None [] else
  let body := print (payload_json payload) in
  if Z.of_nat (length body) >? s_maxV1ResponseBytes s
  then mkV1Reply 503 None (print (payload_json (v1ErrorResponse (s_network s) "snapshot_too_large")))
  else mkV1Reply status None body.
Definition writeV1Error (s : Server) (r : v1_request) (status : Z) (code : string) : v1_reply :=
  writeV1 s r status (v1ErrorResponse (s_network s) code).

(** What a handler does: it answers, or asks the chain, possibly within a query slot. *)
Inductive handling :=
  | Answer (reply : v1_reply)
  | Ask (query : Chain -> v1_reply)
  | AskExpensive (query : Chain -> v1_reply).

(** *** Paths *)
Inductive v1Route := v1RouteUnknown | v1RouteTip | v1RouteBlock | v1RouteTransaction | v1RouteAddressOutputs.
#[global] Instance v1Route_eq_dec : EqDecision v1Route.
Proof. solve_decision. Defined.

Definition hasNoncanonicalV1Path (r : v1_request) : bool :=
  let rawPath := (Cut Byte.x3f (rq_RequestURI r)).1 in
  if negb (bool_decide (rq_RawPath r = [])) || Contains rawPath (bs "%") || Contains (rq_Path r) (bs "//") then true
  else existsb (fun segment => bool_decide (segment = bs ".") || bool_decide (segment = bs "..")) (Split Byte.x2f (rq_Path r)).

Definition route_argument (route : v1Route) (argument : bytes) : v1Route * bytes :=
  if negb (bool_decide (argument = [])) && negb (Contains argument (bs "/")) then (route, argument) else (v1RouteUnknown, []).

Definition classifyV1Route (path : bytes) : v1Route * bytes :=
  if bool_decide (path = bs "/api/v1/tip") then (v1RouteTip, []) else
  if bool_decide (path = bs "/api/v1") then (v1RouteUnknown, []) else
  if HasPrefix path (bs "/api/v1/block/") then route_argument v1RouteBlock (TrimPrefix path (bs "/api/v1/block/")) else
  if HasPrefix path (bs "/api/v1/transaction/")
  then route_argument v1RouteTransaction (TrimPrefix path (bs "/api/v1/transaction/")) else
  if HasPrefix path (bs "/api/v1/address/") && HasSuffix path (bs "/outputs")
  then route_argument v1RouteAddressOutputs (TrimSuffix (TrimPrefix path (bs "/api/v1/address/")) (bs "/outputs"))
  else (v1RouteUnknown, []).

(** *** Arguments *)
Definition parseLowerHash (value : bytes) : result Hash32 :=
  if negb (length value =? 64)%nat || negb (bool_decide (value = ToLower value))
  then Err (EText "noncanonical hash") else
  match hex_decode value with
  | Err _ => Err (EText "invalid hash")
  | Ok decoded => if negb (length decoded =? 32)%nat then Err (EText "invalid hash") else Ok decoded
  end.

Record expectedTip := mkExpected { et_hash : Hash32; et_height : Z }.

(** [None] is the tip that is not set. *)
Definition parseExpectedTip (rawQuery : bytes) : result (option expectedTip) :=
  if bool_decide (rawQuery = []) then Ok None else
  let '(values, ok) := ParseQuery rawQuery in
  if negb ok || negb (size values =? 2)%nat then Err (EText "invalid expected tip query") else
  match values !! bs "expected_tip_hash", values !! bs "expected_tip_height" with
  | Some [hashText], Some [heightText] =>
      if bool_decide (hashText = []) || bool_decide (heightText = [])
      then Err (EText "incomplete expected tip query") else
      hash ← parseLowerHash hashText;
      if negb (bool_decide (heightText = bs "0"))
         && match heightText with c :: _ => (b2z c <? 49) || (57 <? b2z c) | [] => false end
      then Err (EText "noncanonical expected tip height") else
      if negb (forallb digit heightText) then Err (EText "invalid expected tip height") else
      match ParseInt heightText with
      | Some height => if height <? 0 then Err (EText "invalid expected tip height") else Ok (Some (mkExpected hash height))
      | None => Err (EText "invalid expected tip height")
      end
  | _, _ => Err (EText "incomplete expected tip query")
  end.

(** ** Snapshots as messages *)
Definition hashText (id : Hash32) : bytes := hex_encode id.

Definition tip_message (s : Server) (snapshot : ChainTipSnapshot) : result v1Tip :=
  if negb (bool_decide (ts_Network snapshot = s_network s)) || (ts_Height snapshot <? 0)
  then Err (EText "inconsistent tip snapshot") else Ok (mkV1Tip (hashText (ts_Hash snapshot)) (ts_Height snapshot)).

(** The tables of [v1AddressOutputs] and the messages so far. *)
Record check_state := mkCheck {
  ck_outputs : list v1AddressOutput; ck_previous : option ConfirmedAddressOutput;
  ck_seenOutputs : gset OutPoint; ck_seenSpends : gset (Hash32 * Z);
  ck_heightHashes : gmap Z Hash32; ck_transactionIDs : gmap (Z * Z) Hash32 }.

(** The table records the hash, unless it holds another one. *)
Definition record_hash {K} `{Countable K} (m : gmap K Hash32) (k : K) (h : Hash32) (e : string)
    : result (gmap K Hash32) :=
  if match m !! k with Some prior => negb (bool_decide (prior = h)) | None => false end
  then Err (EText e) else Ok (<[k := h]> m).

Definition out_of_order (previous output : ConfirmedAddressOutput) : bool :=
  (co_BlockHeight previous >? co_BlockHeight output)
  || ((co_BlockHeight previous =? co_BlockHeight output) && (co_TransactionIndex previous >? co_TransactionIndex output))
  || ((co_BlockHeight previous =? co_BlockHeight output) && (co_TransactionIndex previous =? co_TransactionIndex output)
      && (co_Vout previous >=? co_Vout output)).

Definition spend_message (s : Server) (tip : ChainTipSnapshot) (output : ConfirmedAddressOutput) (st : gset (Hash32 * Z) * gmap Z Hash32)
    : result (gset (Hash32 * Z) * gmap Z Hash32 * option v1ConfirmedSpend) :=
  let '(seenSpends, heightHashes) := st in
  match co_SpentBy output with
  | None => Ok (seenSpends, heightHashes, None)
  | Some spent =>
      if (cs_BlockHeight spent <? co_BlockHeight output) || (cs_BlockHeight spent >? ts_Height tip)
         || (co_Coinbase output && (cs_BlockHeight spent - co_BlockHeight output <? s_coinbaseMaturity s))
         || negb (Bool.eqb (cs_BlockHeight spent =? ts_Height tip) (bool_decide (cs_BlockHash spent = ts_Hash tip)))
      then Err (EText "inconsistent confirmed spend") else
      heightHashes ← record_hash heightHashes (cs_BlockHeight spent) (cs_BlockHash spent) "conflicting spending block hash";
      if decide ((cs_TxID spent, cs_InputIndex spent) ∈ seenSpends) then Err (EText "duplicate confirmed spending input") else
      Ok ({[(cs_TxID spent, cs_InputIndex spent)]} ∪ seenSpends, heightHashes,
          Some (mkV1Spend (hashText (cs_TxID spent)) (cs_InputIndex spent)
                  (mkAnchor (hashText (cs_BlockHash spent)) (cs_BlockHeight spent))))
  end.

Definition output_message (o : ConfirmedAddressOutput) (spent : option v1ConfirmedSpend) : v1AddressOutput :=
  mkV1Output (hashText (co_TxID o)) (co_TransactionIndex o) (co_Vout o) (co_AmountUnits o)
    (mkAnchor (hashText (co_BlockHash o)) (co_BlockHeight o)) (co_Confirmations o) (co_Coinbase o) (co_Mature o) spent.

Definition check_address_output (s : Server) (tip : ChainTipSnapshot) (st : check_state) (output : ConfirmedAddressOutput)
    : result check_state :=
  if negb (MoneyRange (co_AmountUnits output)) || (co_AmountUnits output =? 0)
     || (co_BlockHeight output <? 0) || (co_BlockHeight output >? ts_Height tip)
     || negb (co_Confirmations output =? ts_Height tip - co_BlockHeight output + 1)
     || negb (Bool.eqb (co_Mature output) (negb (co_Coinbase output) || (co_Confirmations output >=? s_coinbaseMaturity s)))
  then Err (EText "inconsistent address output") else
  if match ck_previous st with Some previous => out_of_order previous output | None => false end
  then Err (EText "noncanonical address output order") else
  if negb (Bool.eqb (co_BlockHeight output =? ts_Height tip) (bool_decide (co_BlockHash output = ts_Hash tip)))
  then Err (EText "address output tip identity mismatch") else
  heightHashes ← record_hash (ck_heightHashes st) (co_BlockHeight output) (co_BlockHash output) "conflicting canonical block hash";
  transactionIDs ← record_hash (ck_transactionIDs st) (co_BlockHeight output, co_TransactionIndex output) (co_TxID output)
                     "conflicting transaction identity";
  let identity := mkOutPoint (co_TxID output) (co_Vout output) in
  if decide (identity ∈ ck_seenOutputs st) then Err (EText "duplicate address outpoint") else
  '(seenSpends, heightHashes, spent) ← spend_message s tip output (ck_seenSpends st, heightHashes);
  Ok (mkCheck (ck_outputs st ++ [output_message output spent]) (Some output) ({[identity]} ∪ ck_seenOutputs st)
        seenSpends heightHashes transactionIDs).

Definition v1AddressOutputs (s : Server) (snapshot : AddressOutputSnapshot) : result (list v1AddressOutput) :=
  st ← foldM (check_address_output s (ao_Tip snapshot)) (mkCheck [] None ∅ ∅ ∅ ∅) (ao_Outputs snapshot);
  Ok (ck_outputs st).

(** ** Handlers *)
Section handlers.
Context `{Crypto}.

Definition chain_unavailable (s : Server) (r : v1_request) : v1_reply := writeV1Error s r 503 "chain_unavailable".

Definition handleV1Tip (s : Server) (r : v1_request) (c : Chain) : v1_reply :=
  match snapshot ← canonicalTipSnapshotLocked c; tip_message s snapshot with
  | Err _ => chain_unavailable s r
  | Ok tip => writeV1 s r 200 (v1TipResponse (s_network s) tip)
  end.

Definition handleV1Block (s : Server) (r : v1_request) (id : Hash32) (c : Chain) : v1_reply :=
  match snapshot ← LookupBlock c id; tip ← tip_message s (bl_Tip snapshot); Ok (snapshot, tip) with
  | Err _ => chain_unavailable s r
  | Ok (snapshot, tip) =>
      if negb (bool_decide (bl_Network snapshot = s_network s)) || negb (bool_decide (bl_Hash snapshot = id))
      then chain_unavailable s r else
      let response height := v1BlockResponse (s_network s) (bl_Found snapshot)
                               (mkV1Block (hashText id) height (bl_Canonical snapshot)) tip in
      let tipHeight := ts_Height (bl_Tip snapshot) in
      let tipHash := ts_Hash (bl_Tip snapshot) in
      if negb (bl_Found snapshot) then
        if negb (bl_Height snapshot =? -1) || bl_Canonical snapshot then chain_unavailable s r
        else writeV1 s r 404 (response None)
      else
        if (bl_Height snapshot <? 0) || (bl_Canonical snapshot && (bl_Height snapshot >? tipHeight))
           || (bl_Canonical snapshot && (bl_Height snapshot =? tipHeight) && negb (bool_decide (bl_Hash snapshot = tipHash)))
           || (bool_decide (bl_Hash snapshot = tipHash) && (negb (bl_Canonical snapshot) || negb (bl_Height snapshot =? tipHeight)))
        then chain_unavailable s r
        else writeV1 s r 200 (response (Some (bl_Height snapshot)))
  end.

(** The checks of a transaction lookup, shared by the JSON interface and the page. *)
Definition transaction_consistent (t : TransactionLookupSnapshot) : bool :=
  match tl_Status t with
  | TransactionStatusUnknown | TransactionStatusMempool =>
      bool_decide (tl_BlockHash t = zeroHash) && (tl_BlockHeight t =? -1) && (tl_Confirmations t =? 0)
  | TransactionStatusConfirmed =>
      negb ((tl_BlockHeight t <? 0) || (tl_BlockHeight t >? ts_Height (tl_Tip t))
            || negb (tl_Confirmations t =? ts_Height (tl_Tip t) - tl_BlockHeight t + 1)
            || negb (Bool.eqb (tl_BlockHeight t =? ts_Height (tl_Tip t)) (bool_decide (tl_BlockHash t = ts_Hash (tl_Tip t)))))
  end.

Definition handleV1Transaction (s : Server) (r : v1_request) (id : Hash32) (c : Chain) : v1_reply :=
  match snapshot ← LookupTransaction c id; tip ← tip_message s (tl_Tip snapshot); Ok (snapshot, tip) with
  | Err _ => chain_unavailable s r
  | Ok (snapshot, tip) =>
      if negb (bool_decide (tl_Network snapshot = s_network s)) || negb (bool_decide (tl_TxID snapshot = id))
         || negb (transaction_consistent snapshot)
      then chain_unavailable s r else
      let block := match tl_Status snapshot with
                   | TransactionStatusConfirmed => Some (mkAnchor (hashText (tl_BlockHash snapshot)) (tl_BlockHeight snapshot))
                   | _ => None
                   end in
      writeV1 s r 200 (v1TransactionResponse (s_network s) (hashText id) (tl_Status snapshot) block
                         (tl_Confirmations snapshot) tip)
  end.

Definition handleV1AddressOutputs (s : Server) (r : v1_request) (address pkh : bytes) (expected : option expectedTip) (c : Chain)
    : v1_reply :=
  match snapshot ← ConfirmedOutputsForPKH c pkh; tip ← tip_message s (ao_Tip snapshot); Ok (snapshot, tip) with
  | Err _ => chain_unavailable s r
  | Ok (snapshot, tip) =>
      if negb (bool_decide (ao_Network snapshot = s_network s)) || negb (ao_Complete snapshot) then chain_unavailable s r else
      if match expected with
         | Some e => negb (bool_decide (ts_Hash (ao_Tip snapshot) = et_hash e)) || negb (ts_Height (ao_Tip snapshot) =? et_height e)
         | None => false
         end
      then writeV1 s r 409 (v1TipMismatchResponse (s_network s) address tip) else
      match v1AddressOutputs s snapshot with
      | Err _ => chain_unavailable s r
      | Ok outputs => writeV1 s r 200 (v1AddressResponse (s_network s) address tip outputs)
      end
  end.

Definition with_allow (allow : string) (r : v1_reply) : v1_reply := mkV1Reply (rp_Status r) (Some allow) (rp_Body r).

Definition serveV1 (s : Server) (r : v1_request) : handling :=
  let bad_request := Answer (writeV1Error s r 400 "bad_request") in
  if hasNoncanonicalV1Path r then bad_request else
  let '(route, argument) := classifyV1Route (rq_Path r) in
  if bool_decide (route = v1RouteUnknown) then Answer (writeV1Error s r 404 "not_found") else
  if negb (String.eqb (rq_Method r) "GET")
  then Answer (with_allow "GET" (writeV1Error s r 405 "method_not_allowed")) else
  match route with
  | v1RouteUnknown => Answer (writeV1Error s r 404 "not_found")
  | v1RouteTip => if negb (bool_decide (rq_RawQuery r = [])) then bad_request else Ask (handleV1Tip s r)
  | v1RouteBlock =>
      if negb (bool_decide (rq_RawQuery r = [])) then bad_request else
      match parseLowerHash argument with
      | Err _ => bad_request
      | Ok id => AskExpensive (handleV1Block s r id)
      end
  | v1RouteTransaction =>
      if negb (bool_decide (rq_RawQuery r = [])) then bad_request else
      match parseLowerHash argument with
      | Err _ => bad_request
      | Ok id => AskExpensive (handleV1Transaction s r id)
      end
  | v1RouteAddressOutputs =>
      match DecodeAddress argument with
      | Err _ => bad_request
      | Ok pkh =>
          if negb (bool_decide (EncodeAddress pkh = argument)) then bad_request else
          match parseExpectedTip (rq_RawQuery r) with
          | Err _ => bad_request
          | Ok expected => AskExpensive (handleV1AddressOutputs s r argument pkh expected)
          end
      end
  end.

(** The versioned interface takes its own paths, the pages take the others. *)
Definition serves_v1 (r : v1_request) : bool :=
  bool_decide (rq_Path r = bs "/api/v1") || HasPrefix (rq_Path r) (bs "/api/v1/").

(** ** Pages *)
Record transactionData := mkTransactionData {
  td_TxID : bytes; td_StatusLabel : string; td_BlockHash : bytes; td_BlockHeight : Z;
  td_ConfirmationText : bytes; td_HasBlock : bool }.

Record addressTransactionRow := mkRow {
  ar_TxID : bytes; ar_Direction : string; ar_Net : bytes; ar_BlockHeight : Z; ar_Confirmations : Z;
  ar_receivedUnits : Z; ar_sentUnits : Z }.
Record addressData := mkAddressData {
  ad_Address : bytes; ad_Balance : bytes; ad_Mined : list Z; ad_Transactions : list addressTransactionRow }.

Inductive page :=
  | NotFoundPage
  | ErrorPage (status : Z) (message : string)
  | RedirectTo (status : Z) (location : bytes)
  | TransactionPage (d : transactionData)
  | AddressPage (d : addressData).

Definition transaction_page (canonical : bytes) (t : TransactionLookupSnapshot) : transactionData :=
  match tl_Status t with
  | TransactionStatusUnknown =>
      mkTransactionData canonical "Not found" [] 0 (bs "Not found in the confirmed chain or mempool") false
  | TransactionStatusMempool => mkTransactionData canonical "In mempool" [] 0 (bs "Waiting for confirmation") false
  | TransactionStatusConfirmed =>
      mkTransactionData canonical "Confirmed" (hashText (tl_BlockHash t)) (tl_BlockHeight t)
        (if tl_Confirmations t =? 1 then bs "1 confirmation" else print_int (tl_Confirmations t) ++ bs " confirmations") true
  end.

Definition handleTransaction (s : Server) (path : bytes) (c : Chain) : page :=
  let text := TrimPrefix path (bs "/tx/") in
  let canonical := ToLower text in
  match parseLowerHash canonical with
  | Err _ => NotFoundPage
  | Ok id =>
      if Contains text (bs "/") then NotFoundPage else
      if negb (bool_decide (text = canonical)) then RedirectTo 301 (bs "/tx/" ++ canonical) else
      match LookupTransaction c id with
      | Err _ => ErrorPage 503 "transaction data unavailable"
      | Ok t =>
          if negb (bool_decide (tl_Network t = s_network s)) || negb (bool_decide (tl_TxID t = id))
             || negb (bool_decide (ts_Network (tl_Tip t) = s_network s)) || (ts_Height (tl_Tip t) <? 0)
             || negb (transaction_consistent t)
          then ErrorPage 503 "transaction data unavailable" else TransactionPage (transaction_page canonical t)
      end
  end.

(** *** The address page *)
Abbreviation row_map := (gmap bytes addressTransactionRow).
Definition rowFor (rows : row_map) (txID : bytes) (height confirmations : Z) : result addressTransactionRow :=
  match rows !! txID with
  | None => Ok (mkRow txID "" [] height confirmations 0 0)
  | Some row => if negb (ar_BlockHeight row =? height) || negb (ar_Confirmations row =? confirmations)
                then Err (EText "conflicting address transaction anchor") else Ok row
  end.
Definition add_received (row : addressTransactionRow) (amount : Z) : addressTransactionRow :=
  mkRow (ar_TxID row) (ar_Direction row) (ar_Net row) (ar_BlockHeight row) (ar_Confirmations row)
    (ar_receivedUnits row + amount) (ar_sentUnits row).
Definition add_sent (row : addressTransactionRow) (amount : Z) : addressTransactionRow :=
  mkRow (ar_TxID row) (ar_Direction row) (ar_Net row) (ar_BlockHeight row) (ar_Confirmations row)
    (ar_receivedUnits row) (ar_sentUnits row + amount).

(** The rows, the heights mined and the balance after one output. *)
Definition page_output (tipHeight : Z) (st : row_map * gset Z * Z) (o : v1AddressOutput) : result (row_map * gset Z * Z) :=
  let '(rows, mined, balance) := st in
  created ← rowFor rows (vo_TxID o) (va_Height (vo_Block o)) (vo_Confirmations o);
  if ar_receivedUnits created >? MaxMoneyUnits - vo_AmountUnits o
  then Err (EText "address transaction received amount outside money range") else
  let rows := <[vo_TxID o := add_received created (vo_AmountUnits o)]> rows in
  let mined := if vo_Coinbase o then {[va_Height (vo_Block o)]} ∪ mined else mined in
  match vo_SpentBy o with
  | None =>
      if vo_Mature o then
        if balance >? MaxMoneyUnits - vo_AmountUnits o then Err (EText "address balance outside money range")
        else Ok (rows, mined, balance + vo_AmountUnits o)
      else Ok (rows, mined, balance)
  | Some sp =>
      spent ← rowFor rows (vc_TxID sp) (va_Height (vc_Block sp)) (tipHeight - va_Height (vc_Block sp) + 1);
      if ar_sentUnits spent >? MaxMoneyUnits - vo_AmountUnits o
      then Err (EText "address transaction sent amount outside money range") else
      Ok (<[vc_TxID sp := add_sent spent (vo_AmountUnits o)]> rows, mined, balance)
  end.

Definition finish_row (row : addressTransactionRow) : addressTransactionRow :=
  let net := ar_receivedUnits row - ar_sentUnits row in
  let '(direction, text) :=
    if net >? 0 then ("Received"%string, bs "+" ++ bs (coins net))
    else if net <? 0 then ("Sent"%string, bs "-" ++ bs (coins (- net)))
    else ("Moved"%string, bs (coins 0)) in
  mkRow (ar_TxID row) direction text (ar_BlockHeight row) (ar_Confirmations row) (ar_receivedUnits row) (ar_sentUnits row).

(** Newest first, then by id. *)
Definition row_le (a b : addressTransactionRow) : Prop :=
  if decide (ar_BlockHeight a = ar_BlockHeight b) then bytes_le (ar_TxID a) (ar_TxID b)
  else ar_BlockHeight b <= ar_BlockHeight a.
#[global] Instance row_le_dec a b : Decision (row_le a b).
Proof. unfold row_le. case_decide; apply _. Defined.

Definition addressPageData (s : Server) (address : bytes) (snapshot : AddressOutputSnapshot) : result addressData :=
  outputs ← v1AddressOutputs s snapshot;
  '(rows, mined, balance) ← foldM (page_output (ts_Height (ao_Tip snapshot))) (∅, ∅, 0) outputs;
  if negb (MoneyRange balance) then Err (EText "address balance outside money range") else
  Ok (mkAddressData address (bs (coins balance)) (merge_sort Z.ge (elements mined))
        (merge_sort row_le (finish_row <$> (map_to_list rows).*2))).

Definition handleAddress (s : Server) (path : bytes) (c : Chain) : page :=
  let addr := TrimPrefix path (bs "/address/") in
  match DecodeAddress addr with
  | Err _ => ErrorPage 400 "bad address"
  | Ok pkh =>
      if negb (bool_decide (EncodeAddress pkh = addr)) then ErrorPage 400 "bad address" else
      let unavailable := ErrorPage 503 "address data unavailable" in
      match ConfirmedOutputsForPKH c pkh with
      | Err _ => unavailable
      | Ok snapshot =>
          if negb (bool_decide (ao_Network snapshot = s_network s)) || negb (bool_decide (ts_Network (ao_Tip snapshot) = s_network s))
             || negb (ao_Complete snapshot) then unavailable else
          match _ ← tip_message s (ao_Tip snapshot); addressPageData s addr snapshot with
          | Err _ => unavailable
          | Ok d => AddressPage d
          end
      end
  end.

(** A height leads to its block, an address to its page, an id to its transaction. *)
Definition handleSearch (rawQuery : bytes) : page :=
  let q := TrimSpace (default [] (head (default [] ((ParseQuery rawQuery).1 !! bs "q")))) in
  match ParseInt q with
  | Some h => RedirectTo 302 (bs "/block/" ++ print_int h)
  | None =>
      match DecodeAddress q with
      | Ok _ => RedirectTo 302 (bs "/address/" ++ q)
      | Err _ => match parseLowerHash (ToLower q) with
                 | Ok _ => RedirectTo 302 (bs "/tx/" ++ ToLower q)
                 | Err _ => RedirectTo 302 (bs "/")
                 end
      end
  end.
End handlers.

(** ** Query slots *)
(** [withExpensiveQuery]: a request sends to the channel [expensive] of capacity four,
    unless the channel is full; its context may be done at any time. *)
Inductive request_phase :=
  | Arrived (r : v1_request) (query : Chain -> v1_reply)
  | SlotHeld (r : v1_request) (query : Chain -> v1_reply)
  | Finished (r : v1_request) (reply : option v1_reply).

Record slots := mkSlots { sl_expensive : nat; sl_chain : Chain; sl_requests : list request_phase }.

Definition set_request (st : slots) (n : nat) (expensive : nat) (ph : request_phase) : slots :=
  mkSlots expensive (sl_chain st) (<[n := ph]> (sl_requests st)).

Section slots.
Context `{Crypto} (s : Server).

Inductive slot_step : slots -> slots -> Prop :=
  (** a new request *)
  | slot_arrive st r query :
      serveV1 s r = AskExpensive query ->
      slot_step st (mkSlots (sl_expensive st) (sl_chain st) (sl_requests st ++ [Arrived r query]))
  (** the chain moves on *)
  | slot_chain st o : slot_step st (mkSlots (sl_expensive st) (run_op (sl_chain st) o) (sl_requests st))
  (** [case s.expensive <- struct{}{}] *)
  | slot_take st n r query :
      sl_requests st !! n = Some (Arrived r query) -> (sl_expensive st < v1ExpensiveQueryLimit)%nat ->
      slot_step st (set_request st n (S (sl_expensive st)) (SlotHeld r query))
  (** [case <-r.Context().Done()] *)
  | slot_cancel st n r query :
      sl_requests st !! n = Some (Arrived r query) ->
      slot_step st (set_request st n (sl_expensive st) (Finished r None))
  (** [default]: no slot is free *)
  | slot_busy st n r query :
      sl_requests st !! n = Some (Arrived r query) -> (v1ExpensiveQueryLimit <= sl_expensive st)%nat ->
      slot_step st (set_request st n (sl_expensive st) (Finished r (Some (writeV1Error s r 503 "busy"))))
  (** the second [select]; the deferred receive frees the slot *)
  | slot_abandon st n r query :
      sl_requests st !! n = Some (SlotHeld r query) ->
      slot_step st (set_request st n (pred (sl_expensive st)) (Finished r None))
  | slot_query st n r query :
      sl_requests st !! n = Some (SlotHeld r query) ->
      slot_step st (set_request st n (pred (sl_expensive st)) (Finished r (Some (query (sl_chain st))))).

(** A run from the chain [c], with the states it went through before the last one. *)
Inductive slot_run (c : Chain) : list slots -> slots -> Prop :=
  | slot_start : slot_run c [] (mkSlots 0 c [])
  | slot_next past st st' : slot_run c past st -> slot_step st st' -> slot_run c (st :: past) st'.
End slots.
