(* ===== verification/ExplorerChain.v ===== *)
(** * The history of a chain

    What the blocks of a valid chain say about outputs and their spenders: every
    transaction at its place, the outputs it creates, the outputs it spends.  If the ids of
    the transactions are distinct, the UTXO set is what was created and not spent, every
    output is spent at most once and after it was created, and [ConfirmedOutputsForPKH]
    (core/chain.go) returns exactly the history of the address.  If an id is repeated, the
    scans of the wallet view and of [ConfirmedOutputsForPKH] meet an outpoint twice. *)
From S2P Require Import Prelude Params Crypto Pow Wire Merkle Chain Ledger Sanity ChainInv ChainView.
From S2P Require Import WalletView WalletViewProofs.

(** ** Transactions in their places *)
Record placed := mkPlaced { pl_height : Z; pl_block : Hash32; pl_index : nat; pl_tx : Tx }.

Definition placed_block (hb : nat * blockIndex) : list placed :=
  (fun itx => mkPlaced (Z.of_nat hb.1) (bi_id hb.2) itx.1 itx.2) <$> indexed (blk_Txs (bi_block hb.2)).
Definition placed_txs (l : list blockIndex) : list placed := flat_map placed_block (indexed l).

Section history.
Context `{Crypto} (p : Params).

Definition pl_id (pl : placed) : Hash32 := Tx_ID (pl_tx pl).

Definition creates (pl : placed) (op : OutPoint) (e : UTXOEntry) : Prop :=
  exists n o, tx_Outs (pl_tx pl) !! n = Some o /\ op = mkOutPoint (pl_id pl) (Z.of_nat n) /\
    e = out_entry (pl_height pl) (IsCoinbase (pl_tx pl)) o.

Definition spends (pl : placed) : list OutPoint := if IsCoinbase (pl_tx pl) then [] else tx_prevs (pl_tx pl).

(** What an input of a transaction at a height spends: an output created before, mature. *)
Definition spends_entry (before : list placed) (height : Z) (op : OutPoint) (e : UTXOEntry) : Prop :=
  (exists pl, pl ∈ before /\ creates pl op e) /\ (ue_Coinbase e = true -> CoinbaseMaturity p <= height - ue_Height e).

Definition backed (before : list placed) (pl : placed) : Prop :=
  exists entries, Forall2 (spends_entry before (pl_height pl)) (spends pl) entries /\
    sumZ (ue_Value <$> entries) <= MaxMoneyUnits.

Record history (done : list placed) (u : utxo_map) : Prop := {
  h_utxo : forall op e, u !! op = Some e <-> (exists pl, pl ∈ done /\ creates pl op e) /\ op ∉ flat_map spends done;
  h_once : NoDup (flat_map spends done);
  h_backed : forall before pl after, done = before ++ pl :: after -> backed before pl;
}.

Lemma history_nil : history [] ∅.
Proof.
  split; [|constructor|by intros [] ? ?]. intros op e. rewrite lookup_empty. split; [done|].
  intros [(pl & Hpl & _) _]. by apply not_elem_of_nil in Hpl.
Qed.

Lemma creates_id pl op e : creates pl op e -> op_TxID op = pl_id pl.
Proof. by intros (n & o & _ & -> & _). Qed.

Lemma spends_entry_mono before before' h op e :
  (forall pl, pl ∈ before -> pl ∈ before') -> spends_entry before h op e -> spends_entry before' h op e.
Proof. intros Hsub [(pl & Hpl & Hc) Hm]. split; [|done]. exists pl. auto. Qed.

Lemma backed_mono before before' pl : (forall pl, pl ∈ before -> pl ∈ before') -> backed before pl -> backed before' pl.
Proof.
  intros Hsub (entries & Hall & Hsum). exists entries. split; [|done].
  eapply Forall2_impl; [exact Hall|]. intros op e. by apply spends_entry_mono.
Qed.

Lemma spends_coinbase pl : IsCoinbase (pl_tx pl) = true -> spends pl = [].
Proof. unfold spends. by intros ->. Qed.

(** ** One transaction *)
Lemma delete_ins_lookup ins u op e :
  delete_ins ins u !! op = Some e <-> op ∉ in_Prev <$> ins /\ u !! op = Some e.
Proof.
  revert u. induction ins as [|i ins IH]; intros u; cbn [delete_ins fold_left].
  { split; [intros ?; split; [apply not_elem_of_nil|done]|by intros [_ ?]]. }
  fold (delete_ins ins (delete (in_Prev i) u)). rewrite IH, fmap_cons, not_elem_of_cons, lookup_delete_Some. naive_solver.
Qed.

Lemma insert_outs_lookup id h cb outs n u op e :
  Z.of_nat (n + length outs) <= two32 -> (forall k, u !! mkOutPoint id k = None) ->
  insert_outs id h cb (zip (seq n (length outs)) outs) u !! op = Some e <->
  (exists k o, outs !! k = Some o /\ op = mkOutPoint id (Z.of_nat (n + k)) /\ e = out_entry h cb o) \/ u !! op = Some e.
Proof.
  intros Hn Hfresh. induction outs as [|o outs IH] using rev_ind.
  { cbn. split; [by right|]. intros [(k & o & Hk & _)|?]; [by rewrite lookup_nil in Hk|done]. }
  rewrite length_app in Hn |- *. cbn [length] in *. rewrite seq_app, zip_with_app by by rewrite length_seq.
  unfold insert_outs. rewrite fold_left_app. cbn [fold_left seq zip_with fst snd].
  fold (insert_outs id h cb (zip (seq n (length outs)) outs) u). rewrite lookup_insert_Some, u32_small by (split; lia).
  rewrite IH by lia. split.
  - intros [[<- <-]|[Hne [(k & o' & Hk & -> & ->)|?]]].
    + left. exists (length outs), o. split_and!; [by rewrite lookup_app_r, Nat.sub_diag by lia|f_equal; lia|done].
    + left. exists k, o'. split_and!; [by apply lookup_app_l_Some|done..].
    + by right.
  - intros [(k & o' & Hk & -> & ->)|Hu].
    + apply lookup_app_Some in Hk as [Hk|[Hl Hk]].
      * right. split; [|left; exists k, o'; done]. intros [= He]. apply lookup_lt_Some in Hk. lia.
      * apply list_lookup_singleton_Some in Hk as [Hk ->]. left. split; [f_equal; lia|done].
    + right. split; [|by right]. intros <-. by rewrite Hfresh in Hu.
Qed.

Lemma spendAndCreate_lookup tx h (u : utxo_map) op e :
  Z.of_nat (length (tx_Outs tx)) <= two32 -> (forall k, u !! mkOutPoint (Tx_ID tx) k = None) ->
  spendAndCreate tx h (IsCoinbase tx) u !! op = Some e <->
  creates (mkPlaced h [] 0 tx) op e \/ u !! op = Some e /\ op ∉ spends (mkPlaced h [] 0 tx).
Proof.
  intros Hlen Hfresh. unfold spendAndCreate, spends, creates, pl_id. cbn [pl_tx pl_height].
  fold (delete_ins (tx_Ins tx) u). set (u0 := if IsCoinbase tx then u else delete_ins (tx_Ins tx) u).
  assert (Hu0 : forall op e, u0 !! op = Some e <-> u !! op = Some e /\ op ∉ (if IsCoinbase tx then [] else tx_prevs tx)).
  { intros op' e'. unfold u0, tx_prevs. destruct (IsCoinbase tx); [|rewrite delete_ins_lookup; tauto].
    split; [|tauto]. intros ?. split; [done|apply not_elem_of_nil]. }
  fold (insert_outs (Tx_ID tx) h (IsCoinbase tx) (indexed (tx_Outs tx)) u0). unfold indexed.
  rewrite insert_outs_lookup; [|lia|].
  - rewrite Hu0. done.
  - intros k. destruct (u0 !! _) as [e'|] eqn:E; [|done]. apply Hu0 in E as [E _]. by rewrite Hfresh in E.
Qed.

Lemma history_snoc done u pl :
  history done u -> pl_id pl ∉ pl_id <$> done -> Z.of_nat (length (tx_Outs (pl_tx pl))) <= MaxBlockBytes ->
  backed done pl -> NoDup (spends pl) -> (forall op, op ∈ spends pl -> is_Some (u !! op)) ->
  history (done ++ [pl]) (spendAndCreate (pl_tx pl) (pl_height pl) (IsCoinbase (pl_tx pl)) u).
Proof.
  intros [Hu Honce Hback] Hid Hlen Hbk Hnd Hin. destruct pl as [h b n tx]. cbn [pl_tx pl_height] in *.
  assert (Hfresh : forall k, u !! mkOutPoint (Tx_ID tx) k = None).
  { intros k. destruct (u !! _) as [e|] eqn:E; [|done]. apply Hu in E as [(pl & Hpl & Hc) _]. destruct Hid.
    apply creates_id in Hc. change (Tx_ID tx = pl_id pl) in Hc. unfold pl_id at 1. cbn [pl_tx]. rewrite Hc. by apply list_elem_of_fmap_2. }
  split.
  - intros op e. rewrite spendAndCreate_lookup; [|unfold MaxBlockBytes, two32 in *; lia|done].
    rewrite Hu, flat_map_app. cbn [flat_map]. rewrite app_nil_r, not_elem_of_app.
    change (spends (mkPlaced h [] 0 tx)) with (spends (mkPlaced h b n tx)).
    change (creates (mkPlaced h [] 0 tx)) with (creates (mkPlaced h b n tx)). split.
    + intros [Hc|[[(pl & Hpl & Hc) Hn1] Hn2]].
      * split; [exists (mkPlaced h b n tx); split; [set_solver|done]|]. apply creates_id in Hc. split.
        -- intros Hs. apply list_elem_of_In, in_flat_map in Hs as (pl & Hpl & Hs). apply list_elem_of_In in Hpl, Hs.
           apply list_elem_of_split in Hpl as (a & d & Ha). destruct (Hback a pl d Ha) as (es & Hall & _).
           apply list_elem_of_lookup in Hs as [i Hi]. destruct (Forall2_lookup_l _ _ _ _ _ Hall Hi) as (e' & _ & [(pl0 & Hpl0 & Hc0) _]).
           apply creates_id in Hc0. apply Hid. rewrite <- Hc, Hc0. apply list_elem_of_fmap_2. rewrite Ha. set_solver.
        -- intros Hs. destruct (Hin op Hs) as [e' He']. destruct op as [i k]. cbn in Hc. subst i. unfold pl_id in He'. cbn in He'. by rewrite Hfresh in He'.
      * split; [exists pl; split; [set_solver|done]|done].
    + intros [(pl & [Hpl| ->%list_elem_of_singleton]%elem_of_app & Hc) [Hn1 Hn2]]; [right|by left].
      split; [|done]. split; [by exists pl|done].
  - rewrite flat_map_app. cbn [flat_map]. rewrite app_nil_r. apply NoDup_app. split_and!; [done| |done].
    intros op Hop Hs. destruct (Hin op Hs) as [e He]. by apply Hu in He as [_ He].
  - intros before pl after Heq. destruct after as [|x after _] using rev_ind.
    + apply app_inj_tail in Heq as [<- <-]. done.
    + rewrite app_comm_cons, app_assoc in Heq. apply app_inj_tail in Heq as [-> _]. by eapply Hback.
Qed.

(** ** A block *)
Lemma history_payments h bid txs : forall n done st fees st' fees',
  apply_txs p h txs st fees = (st', Ok fees') -> history done st.1 ->
  Forall (fun t => IsCoinbase t = false) txs -> NoDup ((pl_id <$> done) ++ (Tx_ID <$> txs)) ->
  Forall (fun t => Z.of_nat (length (tx_Outs t)) <= MaxBlockBytes) txs ->
  history (done ++ ((fun itx => mkPlaced h bid itx.1 itx.2) <$> zip (seq n (length txs)) txs)) st'.1.
Proof.
  induction txs as [|tx txs IH]; intros n done st fees st' fees' Ha Hh Hcb Hnd Hlen; cbn [apply_txs] in Ha.
  { cbn. rewrite app_nil_r. by simplify_eq. }
  inv Hcb as [|? ? Hcb1 Hcbs]. inv Hlen as [|? ? Hlen1 Hlens].
  destruct (checkTxLocked p st.1 tx h) as [fee|] eqn:Ec; [|done].
  destruct (checkedAddMoney fees fee); [|done]. apply checkTxLocked_spec in Ec as (es & [_ _ Hd Hins Hsum _ _] & _).
  cbn [length seq zip zip_with fmap list_fmap]. set (pl := mkPlaced h bid n tx).
  assert (Hsp : spends pl = tx_prevs tx) by (unfold spends; cbn; by rewrite Hcb1).
  assert (Hpairs : Forall2 (fun op e => st.1 !! op = Some e /\ (ue_Coinbase e = true -> CoinbaseMaturity p <= h - ue_Height e)) (spends pl) es).
  { rewrite Hsp. unfold tx_prevs. apply Forall2_fmap_l. eapply Forall2_impl; [exact Hins|]. by intros i e [? _ ? _ _ _]. }
  assert (Hstep : history (done ++ [pl]) (spendAndCreate tx h false st.1)).
  { rewrite <- Hcb1. apply (history_snoc done st.1 pl); [done| |done| | |].
    - cbn in Hnd. apply NoDup_app in Hnd as (_ & Hn & _). intros Hin. apply (Hn _ Hin). by left.
    - exists es. split; [|done]. eapply Forall2_impl; [exact Hpairs|]. cbn beta. intros op e [He Hm].
      apply (h_utxo _ _ Hh) in He as [He _]. by split.
    - by rewrite Hsp.
    - intros op [i Hi]%list_elem_of_lookup. destruct (Forall2_lookup_l _ _ _ _ _ Hpairs Hi) as (e & _ & He & _). by exists e. }
  rewrite cons_middle, app_assoc.
  eapply (IH (S n)); [exact Ha|by rewrite spendAndCreateWithUndo_fst|done| |done].
  rewrite fmap_app, <- app_assoc. exact Hnd.
Qed.

(** The coinbase of a block is applied last and stands first. *)
Lemma history_reorder before cb payments u :
  IsCoinbase (pl_tx cb) = true -> history (before ++ payments ++ [cb]) u -> history (before ++ cb :: payments) u.
Proof.
  intros Hcb [Hu Honce Hback].
  assert (Hperm : before ++ cb :: payments ≡ₚ before ++ payments ++ [cb]) by (by rewrite (Permutation_app_comm payments [cb])).
  assert (Hsp : flat_map spends (before ++ cb :: payments) = flat_map spends (before ++ payments ++ [cb])).
  { rewrite !flat_map_app. cbn [flat_map]. by rewrite spends_coinbase, !app_nil_r. }
  split.
  - intros op e. rewrite Hu, Hsp. by setoid_rewrite Hperm.
  - by rewrite Hsp.
  - intros a pl b Heq. apply app_eq_app in Heq as (k & [[-> Hk]|[-> Hk]]).
    + destruct k as [|x k]; cbn in Hk; simplify_eq.
      * rewrite app_nil_r in *. exists []. rewrite spends_coinbase by done. split; [constructor|]. unfold MaxMoneyUnits, UnitsPerCoin. cbn. lia.
      * apply (Hback a x (k ++ payments ++ [cb])). by rewrite <- app_assoc.
    + destruct k as [|x k]; cbn in Hk; simplify_eq.
      * exists []. rewrite spends_coinbase by done. split; [constructor|]. unfold MaxMoneyUnits, UnitsPerCoin. cbn. lia.
      * eapply backed_mono; [|apply (Hback (before ++ k) pl (b ++ [x])); by rewrite <- !app_assoc].
        intros pl'. rewrite !elem_of_app, elem_of_cons. tauto.
Qed.

Lemma history_block done u u' n bi :
  entry_ok p bi -> bi_height bi = Z.of_nat n -> validateAndApplyLocked p (bi_block bi) (bi_height bi) u = (u', Ok tt) ->
  history done u -> NoDup (pl_id <$> done ++ placed_block (n, bi)) -> history (done ++ placed_block (n, bi)) u'.
Proof.
  intros [_ _ Hs _ [_ Hcounts]] Hn Hva Hh Hnd. destruct (sanity_coinbase _ Hs) as (cb & txs & Hb & Hcb & Hcbs).
  unfold placed_block in *. cbn [fst snd] in *. unfold validateAndApplyLocked in Hva. rewrite Hb in *. cbn [tail] in Hva.
  destruct (apply_txs p _ txs (u, []) 0) as [[u1 undo] [fees|]] eqn:Ea; [|done].
  destruct (foldM coinbase_outputs 0 (tx_Outs cb)); [|done].
  destruct (checkedAddMoney _ fees); [|done]. destruct (_ >? _); [done|].
  rewrite spendAndCreateWithUndo_fst in Hva. injection Hva as <-. cbn [fst].
  cbn [indexed length seq zip zip_with fmap list_fmap] in *. rewrite Hn in *.
  inv Hcounts as [|? ? [_ Hcbl] Htxs].
  apply (history_reorder done); [done|]. rewrite app_assoc. rewrite fmap_app, fmap_cons in Hnd.
  assert (Hids : forall k, pl_id <$> ((fun itx => mkPlaced (Z.of_nat n) (bi_id bi) itx.1 itx.2) <$> zip (seq k (length txs)) txs) = Tx_ID <$> txs).
  { clear. induction txs as [|t txs IH]; intros k; [done|]. cbn. f_equal. apply IH. }
  rewrite Hids in Hnd. unfold pl_id at 2 in Hnd. cbn [pl_tx snd] in Hnd.
  assert (Hpay : history (done ++ ((fun itx => mkPlaced (Z.of_nat n) (bi_id bi) itx.1 itx.2) <$> zip (seq 1 (length txs)) txs)) u1).
  { apply (history_payments (Z.of_nat n) (bi_id bi) txs 1 done (u, []) 0 (u1, undo) fees Ea); [done|done| |].
    - apply NoDup_app in Hnd as (? & Hn' & [_ ?]%NoDup_cons). apply NoDup_app. split_and!; [done| |done]. set_solver.
    - eapply Forall_impl; [exact Htxs|]. by intros t [_ ?]. }
  set (pl := mkPlaced (Z.of_nat n) (bi_id bi) 0 cb).
  rewrite <- Hcb. apply (history_snoc _ _ pl); [done| |done| | |].
  - rewrite fmap_app, Hids. change (pl_id pl) with (Tx_ID cb). apply NoDup_app in Hnd as (_ & Hn' & [Hn2 _]%NoDup_cons).
    rewrite not_elem_of_app. split; [|done]. intros Hin. apply (Hn' _ Hin). by left.
  - exists []. rewrite spends_coinbase by done. split; [constructor|]. unfold MaxMoneyUnits, UnitsPerCoin. cbn. lia.
  - rewrite spends_coinbase by done. constructor.
  - rewrite spends_coinbase by done. intros op Hop. by apply not_elem_of_nil in Hop.
Qed.

(** ** The chain *)
Definition distinct_ids (l : list blockIndex) : Prop := NoDup (pl_id <$> placed_txs l).

Lemma placed_txs_snoc l bi : placed_txs (l ++ [bi]) = placed_txs l ++ placed_block (length l, bi).
Proof. unfold placed_txs. rewrite indexed_snoc, flat_map_app. cbn [flat_map]. by rewrite app_nil_r. Qed.

Lemma history_chain l u :
  (forall i b, l !! i = Some b -> bi_height b = Z.of_nat i) -> Forall (entry_ok p) l ->
  replay p l = Ok u -> distinct_ids l -> history (placed_txs l) u.
Proof.
  revert u. induction l as [|bi l IH] using rev_ind; intros u Hh Hok Hr Hd.
  { cbn in *. simplify_eq. apply history_nil. }
  rewrite replay_snoc in Hr. unfold distinct_ids in *. rewrite placed_txs_snoc in *.
  apply Forall_app in Hok as [Hok Hbi]. inv Hbi as [|? ? Hbi' _].
  destruct (replay p l) as [u0|] eqn:Hr0; [|done]. unfold replay_one in Hr.
  destruct (validateAndApplyLocked p _ _ u0) as [u1 [[]|]] eqn:Ev; [|done]. simplify_eq.
  eapply history_block; [done| |exact Ev| |done].
  - apply Hh. by rewrite lookup_app_r, Nat.sub_diag by done.
  - apply IH; [|done|done|].
    + intros i b Hi. apply Hh. by apply lookup_app_l_Some.
    + rewrite fmap_app in Hd. by apply NoDup_app in Hd as [? _].
Qed.

(** ** What the scan of an address works with *)
Definition small (pl : placed) : Prop :=
  Z.of_nat (pl_index pl) < MaxBlockBytes /\ Z.of_nat (length (tx_Ins (pl_tx pl))) <= MaxBlockBytes /\
  Z.of_nat (length (tx_Outs (pl_tx pl))) <= MaxBlockBytes.

Record clean (done : list placed) : Prop := {
  cl_ids : NoDup (pl_id <$> done);
  cl_once : NoDup (flat_map spends done);
  cl_backed : forall before pl after, done = before ++ pl :: after -> backed before pl;
  cl_small : Forall small done;
}.

Lemma clean_prefix done pl : clean (done ++ [pl]) -> clean done.
Proof.
  intros [Hi Ho Hb Hs]. rewrite fmap_app in Hi. rewrite flat_map_app in Ho. split.
  - by apply NoDup_app in Hi as [? _].
  - by apply NoDup_app in Ho as [? _].
  - intros before pl' after ->. eapply (Hb before pl' (after ++ [pl])). by rewrite <- app_assoc.
  - by apply Forall_app in Hs as [? _].
Qed.

Lemma indexed_lookup {A} (l : list A) n a : (n, a) ∈ indexed l <-> l !! n = Some a.
Proof.
  unfold indexed. split.
  - intros [k Hk]%list_elem_of_lookup. rewrite lookup_zip_with in Hk.
    destruct (seq 0 (length l) !! k) eqn:E; [|done]. apply lookup_seq in E as [-> _]. cbn in Hk.
    destruct (l !! k) eqn:El; [|done]. cbn in Hk. by simplify_eq.
  - intros Hn. apply list_elem_of_lookup. exists n. rewrite lookup_zip_with, lookup_seq_lt, Hn; [done|]. by eapply lookup_lt_Some.
Qed.

Lemma placed_elem l pl : pl ∈ placed_txs l <->
  exists n bi, l !! n = Some bi /\ blk_Txs (bi_block bi) !! pl_index pl = Some (pl_tx pl) /\
    pl_height pl = Z.of_nat n /\ pl_block pl = bi_id bi.
Proof.
  unfold placed_txs. rewrite list_elem_of_In, in_flat_map. split.
  - intros ([n bi] & Hn & Hin). apply list_elem_of_In in Hn, Hin. apply indexed_lookup in Hn.
    apply list_elem_of_fmap in Hin as ([k tx] & -> & Hk). apply indexed_lookup in Hk. by exists n, bi.
  - intros (n & bi & Hn & Htx & Hh & Hb). exists (n, bi). split; [by apply list_elem_of_In, indexed_lookup|].
    apply list_elem_of_In, list_elem_of_fmap. exists (pl_index pl, pl_tx pl). split; [|by apply indexed_lookup].
    destruct pl; cbn in *. by subst.
Qed.

Lemma placed_clean l u :
  (forall i b, l !! i = Some b -> bi_height b = Z.of_nat i) -> Forall (entry_ok p) l ->
  replay p l = Ok u -> distinct_ids l -> clean (placed_txs l).
Proof.
  intros Hh Hok Hr Hd. destruct (history_chain l u Hh Hok Hr Hd) as [_ Ho Hb]. split; [done|done|done|].
  apply list.Forall_forall. intros pl (n & bi & Hn & Htx & _)%placed_elem. rewrite Forall_lookup in Hok.
  destruct (Hok _ _ Hn) as [_ _ _ _ [Hlen Hall]]. rewrite Forall_lookup in Hall. destruct (Hall _ _ Htx) as [? ?].
  apply lookup_lt_Some in Htx. unfold small. split_and!; [lia|done..].
Qed.

(** The outputs of a transaction for an address, and the spends of its inputs. *)
Section address.
Context (pkh : bytes) (tip : Z).

Definition placed_output (pl : placed) (io : nat * TxOut) : option ConfirmedAddressOutput :=
  if bool_decide (out_PubKeyHash io.2 = pkh) then
    Some (mkConfirmedOutput (pl_id pl) (Z.of_nat (pl_index pl)) (Z.of_nat io.1) (out_Value io.2) (pl_block pl) (pl_height pl)
            (tip - pl_height pl + 1) (IsCoinbase (pl_tx pl))
            (negb (IsCoinbase (pl_tx pl)) || (CoinbaseMaturity p <=? tip - pl_height pl + 1)) None)
  else None.
Definition placed_outputs (pl : placed) : list ConfirmedAddressOutput := omap (placed_output pl) (indexed (tx_Outs (pl_tx pl))).

Definition spend_of (pl : placed) (ii : nat * TxIn) : OutPoint * ConfirmedSpend :=
  (in_Prev ii.2, mkConfirmedSpend (pl_id pl) (Z.of_nat ii.1) (pl_block pl) (pl_height pl)).
Definition placed_spends (pl : placed) : list (OutPoint * ConfirmedSpend) :=
  if IsCoinbase (pl_tx pl) then [] else spend_of pl <$> indexed (tx_Ins (pl_tx pl)).
Definition all_spends (done : list placed) : list (OutPoint * ConfirmedSpend) := flat_map placed_spends done.
Definition spend_map (done : list placed) : gmap OutPoint ConfirmedSpend := list_to_map (all_spends done).

Definition outpoint_of (o : ConfirmedAddressOutput) : OutPoint := mkOutPoint (co_TxID o) (co_Vout o).
Definition mark (m : gmap OutPoint ConfirmedSpend) (o : ConfirmedAddressOutput) : ConfirmedAddressOutput :=
  match m !! outpoint_of o with Some sp => set_spent o sp | None => o end.

Definition base (done : list placed) : list ConfirmedAddressOutput := flat_map placed_outputs done.
(** The history of the address: its outputs in chain order, each with its spender. *)
Definition address_history (done : list placed) : list ConfirmedAddressOutput := mark (spend_map done) <$> base done.

Lemma snd_indexed {A} (l : list A) n : (zip (seq n (length l)) l).*2 = l.
Proof. apply snd_zip. by rewrite length_seq. Qed.

Lemma all_spends_keys done : (all_spends done).*1 = flat_map spends done.
Proof.
  unfold all_spends. induction done as [|pl done IH]; [done|]. cbn [flat_map]. rewrite fmap_app, IH. f_equal.
  unfold placed_spends, spends, tx_prevs. destruct (IsCoinbase _); [done|].
  rewrite <- list_fmap_compose. change (fst ∘ spend_of pl) with (in_Prev ∘ @snd nat TxIn). rewrite list_fmap_compose.
  unfold indexed. by rewrite snd_indexed.
Qed.

Lemma all_spends_snoc done pl : all_spends (done ++ [pl]) = all_spends done ++ placed_spends pl.
Proof. unfold all_spends. rewrite flat_map_app. cbn [flat_map]. by rewrite app_nil_r. Qed.
Lemma base_snoc done pl : base (done ++ [pl]) = base done ++ placed_outputs pl.
Proof. unfold base. rewrite flat_map_app. cbn [flat_map]. by rewrite app_nil_r. Qed.

Lemma placed_outputs_elem pl o : o ∈ placed_outputs pl <->
  exists n out, tx_Outs (pl_tx pl) !! n = Some out /\ placed_output pl (n, out) = Some o.
Proof.
  unfold placed_outputs. rewrite list_elem_of_omap. split.
  - intros ([n out] & Hin & Ho). apply indexed_lookup in Hin. eauto.
  - intros (n & out & Hn & Ho). exists (n, out). split; [by apply indexed_lookup|done].
Qed.

Lemma placed_output_fields pl io o : placed_output pl io = Some o ->
  co_TxID o = pl_id pl /\ co_Vout o = Z.of_nat io.1 /\ co_SpentBy o = None /\ co_AmountUnits o = out_Value io.2 /\
  out_PubKeyHash io.2 = pkh.
Proof. unfold placed_output. case_bool_decide; [|done]. intros [= <-]. done. Qed.

Lemma base_elem done o : o ∈ base done <-> exists pl, pl ∈ done /\ o ∈ placed_outputs pl.
Proof. unfold base. rewrite list_elem_of_In, in_flat_map. by setoid_rewrite <- list_elem_of_In. Qed.

(** ** The scan *)
Definition index_ok (created : gmap OutPoint nat) (outs : list ConfirmedAddressOutput) : Prop :=
  forall op k, created !! op = Some k <-> exists o, outs !! k = Some o /\ outpoint_of o = op.

Lemma index_ok_None created outs op : index_ok created outs ->
  created !! op = None <-> (forall o, o ∈ outs -> outpoint_of o <> op).
Proof.
  intros Hi. split.
  - intros Hn o [k Hk]%list_elem_of_lookup Ho. assert (created !! op = Some k) by (apply Hi; eauto). congruence.
  - intros Ho. destruct (created !! op) as [k|] eqn:E; [|done]. apply Hi in E as (o & Hk & Hop).
    destruct (Ho o); [by eapply list_elem_of_lookup_2|done].
Qed.

Lemma scan_input_mark created outs m txID bid h n i :
  index_ok created outs -> Forall (fun o => co_SpentBy o = None) outs -> m !! in_Prev i = None -> in_u32 (Z.of_nat n) ->
  scan_input txID bid h (created, mark m <$> outs) (n, i)
  = Ok (created, mark (<[in_Prev i := mkConfirmedSpend txID (Z.of_nat n) bid h]> m) <$> outs).
Proof.
  intros Hi Hs Hm Hn. unfold scan_input. cbn [fst snd]. set (sp := mkConfirmedSpend txID (Z.of_nat n) bid h).
  assert (Hother : forall o, outpoint_of o <> in_Prev i -> mark (<[in_Prev i := sp]> m) o = mark m o).
  { intros o Ho. unfold mark. by rewrite lookup_insert_ne. }
  destruct (created !! in_Prev i) as [k|] eqn:E.
  - apply Hi in E as (o & Hk & Hop). rewrite list_lookup_fmap, Hk. cbn [fmap option_fmap option_map deref mbind result_bind].
    assert (Hmo : mark m o = o) by (unfold mark; by rewrite Hop, Hm). rewrite Hmo.
    rewrite Forall_lookup in Hs. rewrite (Hs _ _ Hk), u32_small by done. fold sp. do 2 f_equal. apply list_eq. intros j.
    destruct (decide (j = k)) as [->|Hj].
    + rewrite list_lookup_insert_eq by (rewrite length_fmap; by eapply lookup_lt_Some).
      rewrite list_lookup_fmap, Hk. cbn. f_equal. unfold mark. by rewrite Hop, lookup_insert_eq.
    + rewrite list_lookup_insert_ne, !list_lookup_fmap by done. destruct (outs !! j) as [o'|] eqn:Ej; [|done]. cbn. f_equal.
      symmetry. apply Hother. intros Ho'. assert (created !! in_Prev i = Some j) by (apply Hi; eauto).
      assert (created !! in_Prev i = Some k) by (apply Hi; eauto). congruence.
  - do 2 f_equal. apply list_fmap_ext. intros j o Hj. symmetry. apply Hother.
    apply (proj1 (index_ok_None _ _ (in_Prev i) Hi) E). by eapply list_elem_of_lookup_2.
Qed.

Lemma scan_inputs_mark created outs pl ins : forall n L,
  index_ok created outs -> Forall (fun o => co_SpentBy o = None) outs ->
  NoDup (L.*1 ++ (in_Prev <$> ins)) -> Z.of_nat (n + length ins) <= two32 ->
  foldM (scan_input (pl_id pl) (pl_block pl) (pl_height pl)) (created, mark (list_to_map L) <$> outs) (zip (seq n (length ins)) ins)
  = Ok (created, mark (list_to_map (L ++ (spend_of pl <$> zip (seq n (length ins)) ins))) <$> outs).
Proof.
  induction ins as [|i ins IH]; intros n L Hi Hs Hnd Hn; cbn [length seq zip zip_with foldM fmap list_fmap].
  { by rewrite app_nil_r. }
  cbn [length fmap list_fmap] in *. assert (Hk : in_Prev i ∉ L.*1).
  { apply NoDup_app in Hnd as (_ & Hd & _). intros Hk. apply (Hd _ Hk). by left. }
  rewrite scan_input_mark; [|done|done|by apply not_elem_of_list_to_map_1|split; lia].
  rewrite <- list_to_map_snoc by done. rewrite IH; [|done|done| |lia].
  - rewrite <- app_assoc. done.
  - rewrite fmap_app, <- app_assoc. exact Hnd.
Qed.

Lemma scan_outputs_mark pl m outs : forall n created old,
  index_ok created old -> (forall k, m !! mkOutPoint (pl_id pl) k = None) ->
  (forall o, o ∈ old -> co_TxID o = pl_id pl -> co_Vout o < Z.of_nat n) -> Z.of_nat (n + length outs) <= two32 ->
  in_u32 (Z.of_nat (pl_index pl)) ->
  exists created',
  foldM (scan_output pkh p (pl_id pl) (pl_block pl) (pl_height pl) (tip - pl_height pl + 1) (pl_index pl) (IsCoinbase (pl_tx pl)))
    (created, mark m <$> old) (zip (seq n (length outs)) outs)
  = Ok (created', mark m <$> (old ++ omap (placed_output pl) (zip (seq n (length outs)) outs))) /\
  index_ok created' (old ++ omap (placed_output pl) (zip (seq n (length outs)) outs)).
Proof.
  induction outs as [|out outs IH]; intros n created old Hi Hm Hold Hn Hix; cbn [length seq zip zip_with foldM omap list_omap].
  { exists created. by rewrite app_nil_r. }
  cbn [length] in Hn. unfold scan_output at 1. cbn [fst snd].
  destruct (decide (out_PubKeyHash out = pkh)) as [Hpk|Hpk].
  2:{ assert (placed_output pl (n, out) = None) as -> by (unfold placed_output; by rewrite bool_decide_eq_false_2).
      rewrite bool_decide_eq_false_2 by done. cbn [negb]. apply (IH (S n)); [done|done| |lia|done].
      intros o Ho Hid. specialize (Hold o Ho Hid). lia. }
  destruct (placed_output pl (n, out)) as [new|] eqn:Eo; unfold placed_output in Eo; cbn [fst snd] in Eo;
    rewrite bool_decide_eq_true_2 in Eo by done; [|done]. injection Eo as Eo.
  rewrite bool_decide_eq_true_2 by done. cbn [negb].
  rewrite !u32_small by (done || split; lia). rewrite decide_False; [|].
  2:{ intros [k (o & Hk & [= Hid Hv])%Hi]. assert (Hlt : co_Vout o < Z.of_nat n) by (apply Hold; [by eapply list_elem_of_lookup_2|done]). lia. }
  rewrite Eo. assert (Hop : outpoint_of new = mkOutPoint (pl_id pl) (Z.of_nat n)) by (by rewrite <- Eo).
  assert (Hnew : mark m new = new) by (unfold mark; by rewrite Hop, Hm).
  replace ((mark m <$> old) ++ [new]) with (mark m <$> (old ++ [new])) by (rewrite fmap_app; cbn; by rewrite Hnew).
  destruct (IH (S n) (<[mkOutPoint (pl_id pl) (Z.of_nat n) := length (mark m <$> old)]> created) (old ++ [new]))
    as (created' & Hf & Hi'); [| |intros o|lia|done|].
  - rewrite length_fmap. intros op k. rewrite lookup_insert_Some. split.
    + intros [[<- <-]|[Hne (o & Hk & Ho)%Hi]]; [exists new; split; [by rewrite lookup_app_r, Nat.sub_diag by done|done]|].
      exists o. split; [by apply lookup_app_l_Some|done].
    + intros (o & [Hk|[Hl Hk]]%lookup_app_Some & Ho).
      * right. split; [|apply Hi; by exists o]. rewrite <- Ho. unfold outpoint_of. intros [= Hid Hv].
        assert (Hlt : co_Vout o < Z.of_nat n) by (apply Hold; [by eapply list_elem_of_lookup_2|done]). lia.
      * apply list_lookup_singleton_Some in Hk as [Hk ->]. left. split; [by rewrite <- Ho|lia].
  - done.
  - intros [Ho| ->%list_elem_of_singleton]%elem_of_app Hid; [specialize (Hold o Ho Hid); lia|].
    rewrite <- Eo. cbn. lia.
  - rewrite <- app_assoc in *. cbn [app] in *. by exists created'.
Qed.

Definition scan_placed (st : gmap OutPoint nat * list ConfirmedAddressOutput) (pl : placed)
    : result (gmap OutPoint nat * list ConfirmedAddressOutput) :=
  scan_tx pkh p (pl_block pl) (pl_height pl) (tip - pl_height pl + 1) st (pl_index pl, pl_tx pl).

Lemma foldM_flat_map {S A B} (f : S -> B -> result S) (g : A -> list B) l s :
  foldM f s (flat_map g l) = foldM (fun s a => foldM f s (g a)) s l.
Proof.
  revert s. induction l as [|a l IH]; intros s; [done|]. cbn [flat_map foldM]. rewrite foldM_app.
  destruct (foldM f s (g a)); [apply IH|done].
Qed.
Lemma foldM_fmap {S A B} (f : S -> B -> result S) (g : A -> B) l s : foldM f s (g <$> l) = foldM (fun s a => f s (g a)) s l.
Proof. revert s. induction l as [|a l IH]; intros s; [done|]. cbn. destruct (f s (g a)); [apply IH|done]. Qed.
Lemma foldM_ext {S A} (f g : S -> A -> result S) l s : (forall s a, f s a = g s a) -> foldM f s l = foldM g s l.
Proof. intros Hfg. revert s. induction l as [|a l IH]; intros s; [done|]. cbn. rewrite Hfg. destruct (g s a); [apply IH|done]. Qed.

Lemma scan_blocks l st : foldM (scan_block pkh p tip) st (indexed l) = foldM scan_placed st (placed_txs l).
Proof.
  unfold placed_txs. rewrite foldM_flat_map. apply foldM_ext. intros s [n bi].
  unfold placed_block, scan_block. cbn [fst snd]. rewrite foldM_fmap. apply foldM_ext. by intros s' [k tx].
Qed.

Lemma spent_ids done pl op : clean (done ++ [pl]) -> op ∈ flat_map spends (done ++ [pl]) -> op_TxID op ∈ pl_id <$> done.
Proof.
  intros Hc. rewrite flat_map_app, elem_of_app. cbn [flat_map]. rewrite app_nil_r.
  assert (Hcase : forall before pl', backed before pl' -> op ∈ spends pl' -> (forall x, x ∈ before -> x ∈ done) -> op_TxID op ∈ pl_id <$> done).
  { intros before pl' (es & Hall & _) [i Hi]%list_elem_of_lookup Hsub.
    destruct (Forall2_lookup_l _ _ _ _ _ Hall Hi) as (e & _ & [(pl0 & Hpl0 & Hcr) _]).
    rewrite (creates_id _ _ _ Hcr). by apply list_elem_of_fmap_2, Hsub. }
  intros [Hin|Hin].
  - apply list_elem_of_In, in_flat_map in Hin as (pl' & Hpl & Hs). apply list_elem_of_In in Hpl, Hs.
    apply list_elem_of_split in Hpl as (a & b & ->). eapply (Hcase a pl'); [|done|set_solver].
    eapply (cl_backed _ Hc a pl' (b ++ [pl])). by rewrite <- app_assoc.
  - apply (Hcase done pl); [|done|done]. by eapply (cl_backed _ Hc done pl []).
Qed.

Lemma base_facts done o : clean done -> o ∈ base done ->
  co_TxID o ∈ pl_id <$> done /\ 0 <= co_Vout o < MaxBlockBytes /\ co_SpentBy o = None.
Proof.
  intros Hc (pl & Hpl & (n & out & Hn & (Hid & Hv & Hs & _)%placed_output_fields)%placed_outputs_elem)%base_elem.
  pose proof (cl_small _ Hc) as Hsm. rewrite list.Forall_forall in Hsm. destruct (Hsm _ Hpl) as (_ & _ & Hlen).
  apply lookup_lt_Some in Hn. cbn in Hv. split_and!; [|lia|lia|done]. rewrite Hid. by apply list_elem_of_fmap_2.
Qed.

Lemma scan_placed_step done pl created :
  clean (done ++ [pl]) -> index_ok created (base done) ->
  exists created', scan_placed (created, address_history done) pl = Ok (created', address_history (done ++ [pl])) /\
    index_ok created' (base (done ++ [pl])).
Proof.
  intros Hc Hi. pose proof (clean_prefix _ _ Hc) as Hc0. pose proof (cl_small _ Hc) as Hsm.
  apply Forall_app in Hsm as [_ [(Hix & Hins & Houts) _]%Forall_cons].
  assert (Hnone : Forall (fun o => co_SpentBy o = None) (base done)).
  { apply list.Forall_forall. intros o Ho. by apply (base_facts done). }
  assert (Hnew : pl_id pl ∉ pl_id <$> done).
  { pose proof (cl_ids _ Hc) as Hnd. rewrite fmap_app in Hnd. apply NoDup_app in Hnd as (_ & Hd & _).
    intros Hin. apply (Hd _ Hin). by left. }
  assert (Hin : foldM (scan_input (pl_id pl) (pl_block pl) (pl_height pl)) (created, address_history done) (indexed (tx_Ins (pl_tx pl)))
                = Ok (created, mark (spend_map (done ++ [pl])) <$> base done)).
  { unfold address_history, spend_map. rewrite all_spends_snoc. unfold placed_spends. destruct (IsCoinbase (pl_tx pl)) eqn:Ecb.
    - rewrite app_nil_r. unfold IsCoinbase in Ecb. destruct (tx_Ins (pl_tx pl)) as [|i [|? ?]]; try done.
      cbn [indexed length seq zip zip_with foldM]. unfold scan_input. cbn [fst snd].
      rewrite (proj2 (index_ok_None _ _ (in_Prev i) Hi)); [done|]. intros o Ho Hop. bool_prop.
      destruct (base_facts _ _ Hc0 Ho) as (_ & Hv & _). rewrite <- Hop in *. cbn in *. unfold MaxBlockBytes in *. lia.
    - unfold indexed. apply scan_inputs_mark; [done|done| |unfold MaxBlockBytes, two32 in *; lia].
      rewrite all_spends_keys. pose proof (cl_once _ Hc) as Ho. rewrite flat_map_app in Ho. cbn [flat_map] in Ho.
      rewrite app_nil_r in Ho. unfold spends at 2 in Ho. by rewrite Ecb in Ho. }
  unfold scan_placed, scan_tx. fold (pl_id pl). rewrite Hin. cbn [mbind result_bind]. unfold address_history. rewrite base_snoc.
  unfold placed_outputs, indexed. apply scan_outputs_mark; [done| | |unfold MaxBlockBytes, two32 in *; lia|unfold in_u32, two32, MaxBlockBytes in *; lia].
  - intros k. apply not_elem_of_list_to_map_1. rewrite all_spends_keys. intros Hs. by apply (spent_ids _ _ _ Hc) in Hs.
  - intros o Ho Hid. destruct (base_facts _ _ Hc0 Ho) as (Hin' & _). by rewrite Hid in Hin'.
Qed.

Lemma scan_history done : clean done ->
  exists created, foldM scan_placed (∅, []) done = Ok (created, address_history done) /\ index_ok created (base done).
Proof.
  induction done as [|pl done IH] using rev_ind; intros Hc.
  { exists ∅. split; [done|]. intros op k. rewrite lookup_empty. split; [done|]. intros (o & Hk & _). by destruct k. }
  destruct (IH (clean_prefix _ _ Hc)) as (created & Hf & Hi). rewrite foldM_app, Hf.
  destruct (scan_placed_step done pl created Hc Hi) as (created' & Hs & Hi'). cbn [foldM]. rewrite Hs. by exists created'.
Qed.
End address.

(** ** The read method *)
Lemma ConfirmedOutputs_history c l net pkh :
  pow_params_ok p -> chain_inv p c -> branch p (c_index c) (c_tip c) l -> CanonicalNetworkID (Some p) = Ok net ->
  distinct_ids l ->
  ConfirmedOutputsForPKH c pkh
  = Ok (mkAddressOutputs net true (mkTipSnapshot net (bi_id (c_tip c)) (bi_height (c_tip c)))
          (address_history pkh (bi_height (c_tip c)) (placed_txs l))).
Proof.
  intros Hpow Hc Hb Hnet Hd. destruct (ci_main _ _ Hc) as (l' & Hb' & _ & Hrep).
  rewrite (branch_unique _ _ _ _ _ Hb' Hb) in *. clear l' Hb'.
  unfold ConfirmedOutputsForPKH. rewrite (canonical_tip_ok p Hpow c net Hc Hnet), (canonical_sequence_ok p Hpow c l Hc Hb).
  cbn [mbind result_bind ts_Height ts_Network]. rewrite (ci_params _ _ Hc), scan_blocks.
  destruct (scan_history pkh (bi_height (c_tip c)) (placed_txs l)) as (created & -> & _); [|done].
  eapply placed_clean; [by eapply branch_heights|by eapply branch_entry_ok|done|done].
Qed.
End history.

(** ** Repeated ids *)
(** Loops over a state with a set of keys: [f] keeps the keys there are, and the step of
    some elements requires a key to be new and adds it. *)
Section keys.
Context {S A K : Type} (has : S -> K -> Prop) (f : S -> A -> result S).

Definition grows : Prop := forall s a s', f s a = Ok s' -> forall k, has s k -> has s' k.
Definition makes (a : A) (k : K) : Prop := forall s s', f s a = Ok s' -> ~ has s k /\ has s' k.

Lemma foldM_grows : grows -> forall l s s', foldM f s l = Ok s' -> forall k, has s k -> has s' k.
Proof. intros Hg l s s' Hf k Hk. refine (foldM_invariant f (fun t => has t k) l _ s s' Hk Hf). eauto. Qed.

Lemma foldM_makes : grows -> forall l a k s s', a ∈ l -> makes a k -> foldM f s l = Ok s' -> ~ has s k /\ has s' k.
Proof.
  intros Hg l a k s s' (l1 & l2 & ->)%list_elem_of_split Hm Hf. rewrite foldM_app in Hf.
  destruct (foldM f s l1) as [s1|] eqn:E1; [|done]. cbn [foldM] in Hf.
  destruct (f s1 a) as [s2|] eqn:E2; [|done]. destruct (Hm _ _ E2) as [Hno Hyes].
  split; [intros Hk; apply Hno; by eapply foldM_grows|by eapply foldM_grows].
Qed.

Lemma foldM_makes_once : grows -> forall l i j a b k s s', i <> j -> l !! i = Some a -> l !! j = Some b ->
  makes a k -> makes b k -> foldM f s l <> Ok s'.
Proof.
  intros Hg. assert (Hlt : forall l i j a b k s s', (i < j)%nat -> l !! i = Some a -> l !! j = Some b ->
    makes a k -> makes b k -> foldM f s l <> Ok s').
  { intros l i j a b k s s' Hij Hi Hj Ha Hb Hf. rewrite <- (take_drop_middle _ _ _ Hj), foldM_app in Hf.
    destruct (foldM f s (take j l)) as [s1|] eqn:E1; [|done]. cbn [foldM] in Hf.
    destruct (f s1 b) as [s2|] eqn:E2; [|done]. apply (proj1 (Hb _ _ E2)).
    eapply foldM_makes; [done| |exact Ha|exact E1]. apply list_elem_of_lookup. exists i. by rewrite lookup_take_lt. }
  intros l i j a b k s s' Hij Hi Hj Ha Hb. destruct (decide (i < j)%nat) as [|Hge]; [by eapply (Hlt l i j)|].
  eapply (Hlt l j i); [lia|done..].
Qed.
End keys.

Section repeated.
Context `{Crypto}.

Definition created_key (st : created_map * list WalletActivityItem) (op : OutPoint) : Prop := is_Some (st.1 !! op).
Definition output_key (st : created_map * Z * bool) (op : OutPoint) : Prop := is_Some (st.1.1 !! op).
Definition scanned_key (st : gmap OutPoint nat * list ConfirmedAddressOutput) (op : OutPoint) : Prop := is_Some (st.1 !! op).
(** The wallet scan at one place of the chain. *)
Definition view_placed (owners : owner_map) (p : Params) (tip : Z) (st : created_map * list WalletActivityItem)
    (pl : placed) : result (created_map * list WalletActivityItem) :=
  view_tx owners p (pl_block pl) (pl_height pl) (tip - pl_height pl + 1) st (pl_index pl, pl_tx pl).

Lemma view_blocks owners p tip l st :
  foldM (view_block owners p tip) st (indexed l) = foldM (view_placed owners p tip) st (placed_txs l).
Proof.
  unfold placed_txs. rewrite foldM_flat_map. apply foldM_ext. intros s [n bi].
  unfold placed_block, view_block. cbn [fst snd]. rewrite foldM_fmap. apply foldM_ext. by intros s' [k tx].
Qed.

Lemma view_output_makes owners id h cb io :
  makes output_key (view_output owners id h cb) io (mkOutPoint id (u32 (Z.of_nat io.1))).
Proof.
  intros st st' (Hn & o & Ho & _)%view_output_inv. unfold output_key. rewrite Ho, Hn, lookup_insert_eq.
  split; [by intros [? ?]|by eexists].
Qed.
Lemma view_output_grows owners id h cb : grows output_key (view_output owners id h cb).
Proof.
  intros st io st' (Hn & o & Ho & _)%view_output_inv k. unfold output_key. rewrite Ho, lookup_insert_is_Some'. by right.
Qed.
Lemma view_input_grows : grows output_key view_input.
Proof.
  intros [[created oi] ho] i st' Hv k Hk. unfold view_input in Hv. destruct (created !! in_Prev i) as [o|] eqn:El; [|done].
  destruct (cw_spent o); [done|]. assert (is_Some (<[in_Prev i := mark_spent o]> created !! k)) by (rewrite lookup_insert_is_Some'; by right).
  destruct (cw_owned o); res_simpl; done.
Qed.

Lemma view_tx_keys owners p bid h conf st n tx st' : view_tx owners p bid h conf st (n, tx) = Ok st' ->
  exists st1 st2, (forall k, created_key st k -> output_key st1 k) /\ (forall k, output_key st2 k -> created_key st' k) /\
    foldM (view_output owners (Tx_ID tx) h (IsCoinbase tx)) st1 (indexed (tx_Outs tx)) = Ok st2.
Proof.
  destruct st as [created act]. unfold view_tx. intros E. destruct (_ >? _); [done|].
  apply bind_Ok in E as ([[c1 oi] ho] & H1 & E). apply bind_Ok in E as ([[c2 oo] he] & H2 & E).
  exists (c1, 0, false), (c2, oo, he). split; [|split; [|exact H2]].
  - intros k Hk. destruct (IsCoinbase tx); [by simplify_eq|]. exact (foldM_grows _ _ view_input_grows _ _ _ H1 _ Hk).
  - intros k Hk. destruct (activity_kind _ _ _ _); res_simpl; done.
Qed.

Lemma view_placed_grows owners p tip : grows created_key (view_placed owners p tip).
Proof.
  intros st pl st' (st1 & st2 & Hin & Hout & Hf)%view_tx_keys k Hk.
  apply Hout. eapply foldM_grows; [apply view_output_grows|exact Hf|by apply Hin].
Qed.

(** A transaction that was counted already is refused: its outpoint is there. *)
Lemma view_placed_makes owners p tip pl n o : tx_Outs (pl_tx pl) !! n = Some o ->
  makes created_key (view_placed owners p tip) pl (mkOutPoint (pl_id pl) (u32 (Z.of_nat n))).
Proof.
  intros Hn st st' Hv. unfold view_placed in Hv. destruct (view_tx_keys _ _ _ _ _ _ _ _ _ Hv) as (st1 & st2 & Hin & Hout & Hf).
  destruct (foldM_makes _ _ (view_output_grows _ _ _ _) _ (n, o) _ _ _ (proj2 (indexed_lookup _ _ _) Hn)
    (view_output_makes _ _ _ _ _) Hf) as [Hno Hyes]. split; [intros Hk; by apply Hno, Hin|by apply Hout].
Qed.

Lemma scan_input_keys id bid h : grows scanned_key (scan_input id bid h) /\
  forall st ii st', scan_input id bid h st ii = Ok st' -> st'.1 = st.1.
Proof.
  assert (Hk : forall st ii st', scan_input id bid h st ii = Ok st' -> st'.1 = st.1).
  { intros [created outs] ii st' Hs. unfold scan_input in Hs. destruct (created !! in_Prev ii.2); [|by simplify_eq].
    res_simpl. destruct (co_SpentBy _); [done|]. by simplify_eq. }
  split; [|done]. intros st ii st' Hs k. unfold scanned_key. by rewrite (Hk _ _ _ Hs).
Qed.

Lemma scan_output_grows pkh p id bid h conf n cb : grows scanned_key (scan_output pkh p id bid h conf n cb).
Proof.
  intros [created outs] io st' Hs k Hk. unfold scan_output in Hs. destruct (negb _); [by simplify_eq|].
  destruct (decide _); [done|]. apply Ok_inj in Hs as <-. unfold scanned_key. cbn [fst]. rewrite lookup_insert_is_Some'. by right.
Qed.
Lemma scan_output_makes pkh p id bid h conf n cb io : out_PubKeyHash io.2 = pkh ->
  makes scanned_key (scan_output pkh p id bid h conf n cb) io (mkOutPoint id (u32 (Z.of_nat io.1))).
Proof.
  intros Hp [created outs] st' Hs. unfold scan_output in Hs. rewrite bool_decide_eq_true_2 in Hs by done.
  destruct (decide _) as [|Hn]; [done|]. apply Ok_inj in Hs as <-. split; [done|].
  unfold scanned_key. cbn [fst]. rewrite lookup_insert_eq. by eexists.
Qed.

Lemma scan_placed_grows pkh p tip : grows scanned_key (scan_placed p pkh tip).
Proof.
  intros st pl st' Hs k Hk. unfold scan_placed, scan_tx in Hs. apply bind_Ok in Hs as (st1 & H1 & H2).
  eapply foldM_grows; [apply scan_output_grows|exact H2|].
  eapply foldM_grows; [apply scan_input_keys|exact H1|done].
Qed.
Lemma scan_placed_makes pkh p tip pl n o : tx_Outs (pl_tx pl) !! n = Some o -> out_PubKeyHash o = pkh ->
  makes scanned_key (scan_placed p pkh tip) pl (mkOutPoint (pl_id pl) (u32 (Z.of_nat n))).
Proof.
  intros Hn Ho st st' Hs. unfold scan_placed, scan_tx in Hs. apply bind_Ok in Hs as (st1 & H1 & H2).
  destruct (foldM_makes _ _ (scan_output_grows _ _ _ _ _ _ _ _) _ (n, o) _ _ _ (proj2 (indexed_lookup _ _ _) Hn)
    (scan_output_makes _ _ _ _ _ _ _ _ (n, o) Ho) H2) as [Hno Hyes]. split; [|done]. intros Hk. apply Hno.
  eapply foldM_grows; [apply scan_input_keys|exact H1|done].
Qed.
End repeated.
