(* ===== verification/ExplorerProofs.v ===== *)
(** * The explorer on a valid chain

    The consistency checks of the explorer hold of the history of a chain with distinct
    transaction ids, so that its handlers compute what they should; the sums of the address
    page; the texts of requests. *)
From S2P Require Import Prelude Text Params Crypto Pow Wire Address Merkle Chain Ledger Sanity ChainInv ChainView.
From S2P Require Import WalletViewProofs ViewTheorems Supply Toy GoStrings GoJson.
From S2P Require Import LightProofs MobileProofs Explorer ExplorerChain.

(** ** Sorted lists *)
Lemma StronglySorted_flat_map {A B} (R : A -> A -> Prop) (S : B -> B -> Prop) (f : A -> list B) l :
  StronglySorted R l -> (forall a, a ∈ l -> StronglySorted S (f a)) ->
  (forall a b x y, R a b -> x ∈ f a -> y ∈ f b -> S x y) -> StronglySorted S (flat_map f l).
Proof.
  intros Hl. induction Hl as [|a l _ IH Hall]; intros Hf HR; [constructor|]. cbn [flat_map]. apply StronglySorted_app_2.
  - intros x y Hx Hy. apply list_elem_of_In, in_flat_map in Hy as (b & Hb & Hy). apply list_elem_of_In in Hb, Hy.
    rewrite list.Forall_forall in Hall. by eapply HR; [apply Hall| |].
  - apply Hf. by left.
  - apply IH; [|done]. intros b Hb. apply Hf. by right.
Qed.

Lemma StronglySorted_omap {A B} (R : A -> A -> Prop) (S : B -> B -> Prop) (f : A -> option B) l :
  StronglySorted R l -> (forall a b x y, R a b -> f a = Some x -> f b = Some y -> S x y) -> StronglySorted S (omap f l).
Proof.
  intros Hl HR. induction Hl as [|a l _ IH Hall]; [constructor|]. cbn [omap list_omap]. destruct (f a) as [x|] eqn:E; [|done].
  constructor; [done|]. apply list.Forall_forall. intros y (b & Hb & Hy)%list_elem_of_omap.
  rewrite list.Forall_forall in Hall. by eapply HR; [apply Hall| |].
Qed.

Lemma indexed_sorted {A} (l : list A) : StronglySorted (fun a b => (a.1 < b.1)%nat) (indexed l).
Proof.
  unfold indexed. generalize 0%nat as n. induction l as [|a l IH]; intros n; cbn; constructor; [apply IH|].
  apply list.Forall_forall. intros [k b] Hk. apply elem_of_zip_l, elem_of_seq in Hk. cbn. lia.
Qed.

(** ** The checks, abstractly *)
Definition shown_spend (sp : ConfirmedSpend) : v1ConfirmedSpend :=
  mkV1Spend (hashText (cs_TxID sp)) (cs_InputIndex sp) (mkAnchor (hashText (cs_BlockHash sp)) (cs_BlockHeight sp)).
(** The message of an output. *)
Definition shown_output (o : ConfirmedAddressOutput) : v1AddressOutput := output_message o (shown_spend <$> co_SpentBy o).

Section checks.
Context (s : Server) (tip : ChainTipSnapshot) (block_at : Z -> Hash32 -> Prop) (tx_at : Z * Z -> Hash32 -> Prop).
Context (Hblock : forall h x y, block_at h x -> block_at h y -> x = y) (Htx : forall k x y, tx_at k x -> tx_at k y -> x = y).

Definition spend_facts (o : ConfirmedAddressOutput) (sp : ConfirmedSpend) : Prop :=
  co_BlockHeight o <= cs_BlockHeight sp <= ts_Height tip /\
  (co_Coinbase o = true -> s_coinbaseMaturity s <= cs_BlockHeight sp - co_BlockHeight o) /\
  (cs_BlockHeight sp = ts_Height tip <-> cs_BlockHash sp = ts_Hash tip) /\ block_at (cs_BlockHeight sp) (cs_BlockHash sp).

Record output_facts (o : ConfirmedAddressOutput) : Prop := {
  of_amount : 0 < co_AmountUnits o <= MaxMoneyUnits;
  of_height : 0 <= co_BlockHeight o <= ts_Height tip;
  of_confirmations : co_Confirmations o = ts_Height tip - co_BlockHeight o + 1;
  of_mature : co_Mature o = negb (co_Coinbase o) || (s_coinbaseMaturity s <=? co_Confirmations o);
  of_tip : co_BlockHeight o = ts_Height tip <-> co_BlockHash o = ts_Hash tip;
  of_block : block_at (co_BlockHeight o) (co_BlockHash o);
  of_tx : tx_at (co_BlockHeight o, co_TransactionIndex o) (co_TxID o);
  of_spend : forall sp, co_SpentBy o = Some sp -> spend_facts o sp;
}.

Definition spend_key (sp : ConfirmedSpend) : Hash32 * Z := (cs_TxID sp, cs_InputIndex sp).

Record check_ok (pre : list ConfirmedAddressOutput) (st : check_state) : Prop := {
  co_shown : ck_outputs st = shown_output <$> pre;
  co_last : ck_previous st = last pre;
  co_seen : ck_seenOutputs st = list_to_set (outpoint_of <$> pre);
  co_spends : ck_seenSpends st = list_to_set (spend_key <$> omap co_SpentBy pre);
  co_hashes : map_Forall block_at (ck_heightHashes st);
  co_ids : map_Forall tx_at (ck_transactionIDs st);
}.

Lemma record_hash_ok {K} `{Countable K} (P : K -> Hash32 -> Prop) (m : gmap K Hash32) k h e :
  (forall k x y, P k x -> P k y -> x = y) -> map_Forall P m -> P k h ->
  exists m', record_hash m k h e = Ok m' /\ map_Forall P m'.
Proof.
  intros Hfun Hm Hk. exists (<[k := h]> m). split; [|by apply map_Forall_insert_2]. unfold record_hash.
  destruct (m !! k) as [prior|] eqn:E; [|done]. by rewrite (Hfun k prior h (Hm _ _ E) Hk), bool_decide_eq_true_2.
Qed.

Lemma eqb_iff (a b : bool) : (a = true <-> b = true) -> Bool.eqb a b = true.
Proof. destruct a, b; naive_solver. Qed.

Lemma tip_agrees (h : Z) (x : Hash32) : (h = ts_Height tip <-> x = ts_Hash tip) ->
  Bool.eqb (h =? ts_Height tip) (bool_decide (x = ts_Hash tip)) = true.
Proof. intros Hx. apply eqb_iff. by rewrite Z.eqb_eq, bool_decide_eq_true. Qed.

Lemma spend_message_ok o seen hashes :
  output_facts o -> map_Forall block_at hashes -> (forall sp, co_SpentBy o = Some sp -> spend_key sp ∉ seen) ->
  exists hashes', spend_message s tip o (seen, hashes)
    = Ok (list_to_set (spend_key <$> option_list (co_SpentBy o)) ∪ seen, hashes', shown_spend <$> co_SpentBy o) /\ map_Forall block_at hashes'.
Proof.
  intros Ho Hh Hseen. unfold spend_message. destruct (co_SpentBy o) as [sp|] eqn:E.
  - destruct (of_spend _ Ho sp E) as ([Hle1 Hle2] & Hmat & Htip & Hb). specialize (Hseen sp eq_refl).
    rewrite (proj2 (Z.ltb_ge _ _)), Z.gtb_ltb, (proj2 (Z.ltb_ge _ _)), (tip_agrees _ _ Htip) by lia. cbn [orb negb].
    destruct (co_Coinbase o && _) eqn:Ec; [apply andb_true_iff in Ec as [Ec El]; specialize (Hmat Ec); lia|]. cbn [orb].
    destruct (record_hash_ok block_at hashes (cs_BlockHeight sp) (cs_BlockHash sp) "conflicting spending block hash" Hblock Hh Hb)
      as (hashes' & -> & Hh'). cbn [mbind result_bind]. fold (spend_key sp). rewrite decide_False by done.
    exists hashes'. cbn. split; [|done]. do 3 f_equal. set_solver.
  - exists hashes. cbn. split; [|done]. do 3 f_equal. set_solver.
Qed.

Lemma check_step pre o st :
  check_ok pre st -> output_facts o -> (forall o', last pre = Some o' -> out_of_order o' o = false) ->
  outpoint_of o ∉ outpoint_of <$> pre -> (forall sp, co_SpentBy o = Some sp -> spend_key sp ∉ spend_key <$> omap co_SpentBy pre) ->
  exists st', check_address_output s tip st o = Ok st' /\ check_ok (pre ++ [o]) st'.
Proof.
  intros [Hsh Hl Hse Hsp Hha Hid] Ho Hord Hfresh Hspend. pose proof Ho as [[Ha1 Ha2] [Hh1 Hh2] Hconf Hmat Htip Hb Ht _].
  unfold check_address_output. unfold MoneyRange. rewrite (proj2 (Z.leb_le 0 _)), (proj2 (Z.leb_le _ MaxMoneyUnits)) by lia.
  rewrite (proj2 (Z.eqb_neq _ 0)), (proj2 (Z.ltb_ge _ 0)) by lia.
  rewrite (Z.gtb_ltb (co_BlockHeight o)), (proj2 (Z.ltb_ge _ _)), <- Hconf, Z.eqb_refl, Z.geb_leb, <- Hmat, Bool.eqb_reflx by lia.
  cbn [andb orb negb]. rewrite Hl. rewrite (tip_agrees _ _ Htip).
  assert (match last pre with Some previous => out_of_order previous o | None => false end = false) as ->
    by (destruct (last pre); auto). cbn [negb].
  destruct (record_hash_ok block_at (ck_heightHashes st) _ _ "conflicting canonical block hash" Hblock Hha Hb) as (hashes & -> & Hh').
  cbn [mbind result_bind].
  destruct (record_hash_ok tx_at (ck_transactionIDs st) _ _ "conflicting transaction identity" Htx Hid Ht) as (ids & -> & Hi').
  cbn [mbind result_bind]. fold (outpoint_of o). rewrite decide_False by (rewrite Hse, elem_of_list_to_set; done).
  destruct (spend_message_ok o (ck_seenSpends st) hashes Ho Hh') as (hashes' & -> & Hh'').
  { intros sp Hs. rewrite Hsp, elem_of_list_to_set. by apply Hspend. }
  cbn [mbind result_bind]. eexists. split; [reflexivity|]. split; cbn [ck_outputs ck_previous ck_seenOutputs ck_seenSpends ck_heightHashes ck_transactionIDs].
  - by rewrite Hsh, fmap_app.
  - by rewrite last_snoc.
  - rewrite Hse, fmap_app, list_to_set_app_L. cbn. set_solver.
  - rewrite Hsp, omap_app, fmap_app, list_to_set_app_L. cbn. destruct (co_SpentBy o); cbn; set_solver.
  - done.
  - done.
Qed.

Lemma check_outputs hist :
  Forall output_facts hist -> StronglySorted (fun a b => out_of_order a b = false) hist -> NoDup (outpoint_of <$> hist) ->
  NoDup (spend_key <$> omap co_SpentBy hist) ->
  exists st, foldM (check_address_output s tip) (mkCheck [] None ∅ ∅ ∅ ∅) hist = Ok st /\ check_ok hist st.
Proof.
  induction hist as [|o hist IH] using rev_ind; intros Hf Hs Ho Hsp.
  { eexists. split; [done|]. by split. }
  apply Forall_app in Hf as [Hf [Hfo _]%Forall_cons]. apply StronglySorted_app in Hs as (Hord & Hs & _).
  rewrite fmap_app in Ho. apply NoDup_app in Ho as (Ho & Hod & _).
  rewrite omap_app, fmap_app in Hsp. apply NoDup_app in Hsp as (Hsp & Hspd & _).
  destruct IH as (st & Hst & Hok); [done..|]. rewrite foldM_app, Hst. cbn [foldM].
  destruct (check_step hist o st Hok Hfo) as (st' & -> & Hok'); [| | |by exists st'].
  - intros o' Hl. apply Hord; [|by left]. by apply last_Some_elem_of.
  - intros Hin. apply (Hod _ Hin). by left.
  - intros sp E Hin. apply (Hspd _ Hin). cbn. rewrite E. by left.
Qed.
End checks.

Lemma v1AddressOutputs_ok s net b tip block_at tx_at hist :
  (forall h x y, block_at h x -> block_at h y -> x = y) -> (forall k x y, tx_at k x -> tx_at k y -> x = y) ->
  Forall (output_facts s tip block_at tx_at) hist -> StronglySorted (fun a b => out_of_order a b = false) hist ->
  NoDup (outpoint_of <$> hist) -> NoDup (spend_key <$> omap co_SpentBy hist) ->
  v1AddressOutputs s (mkAddressOutputs net b tip hist) = Ok (shown_output <$> hist).
Proof.
  intros Hb Ht Hf Hs Ho Hsp. unfold v1AddressOutputs. cbn [ao_Tip ao_Outputs].
  destruct (check_outputs s tip block_at tx_at Hb Ht hist Hf Hs Ho Hsp) as (st & -> & Hok). cbn. by rewrite (co_shown _ _ _ _ Hok).
Qed.

(** ** The history passes the checks *)
Section facts.
Context `{Crypto} (p : Params) (l : list blockIndex) (pkh : bytes) (tip : Z).
Context (Hids : NoDup (bi_id <$> l)) (Htip : Z.of_nat (length l) = tip + 1) (Hok : Forall (entry_ok p) l).
Context (Hclean : clean p (placed_txs l)).

Definition chain_block (h : Z) (x : Hash32) : Prop := 0 <= h /\ bi_id <$> l !! Z.to_nat h = Some x.
Definition chain_tx (k : Z * Z) (x : Hash32) : Prop :=
  exists pl, pl ∈ placed_txs l /\ k = (pl_height pl, Z.of_nat (pl_index pl)) /\ x = pl_id pl.

Lemma chain_block_fun h x y : chain_block h x -> chain_block h y -> x = y.
Proof. intros [_ Hx] [_ Hy]. congruence. Qed.

Lemma chain_tx_fun k x y : chain_tx k x -> chain_tx k y -> x = y.
Proof.
  intros (pl1 & H1 & -> & ->) (pl2 & H2 & Hk & ->). injection Hk as Hh Hi. apply Nat2Z.inj in Hi.
  apply placed_elem in H1 as (n1 & b1 & Hb1 & Ht1 & Hh1 & _), H2 as (n2 & b2 & Hb2 & Ht2 & Hh2 & _).
  assert (n1 = n2) as <- by lia. simplify_eq. unfold pl_id. rewrite Hi in Ht1. congruence.
Qed.

Lemma placed_block_at pl : pl ∈ placed_txs l -> chain_block (pl_height pl) (pl_block pl) /\ 0 <= pl_height pl <= tip.
Proof.
  intros (n & bi & Hn & _ & -> & ->)%placed_elem. apply lookup_lt_Some in Hn as Hlt. split; [|lia].
  split; [lia|]. by rewrite Nat2Z.id, Hn.
Qed.

(** The block at the tip is the one with the id of the tip. *)
Lemma tip_block_iff last_id h x : bi_id <$> last l = Some last_id -> chain_block h x -> h = tip <-> x = last_id.
Proof.
  intros Hl [Hh Hx]. rewrite last_lookup in Hl. split.
  - intros ->. replace (Z.to_nat tip) with (pred (length l)) in Hx by lia. congruence.
  - intros ->. rewrite <- list_lookup_fmap in Hl, Hx. pose proof (NoDup_lookup _ _ _ _ Hids Hl Hx).
    apply lookup_lt_Some in Hl. rewrite length_fmap in Hl. lia.
Qed.

Definition placed_before (a b : placed) : Prop :=
  pl_height a < pl_height b \/ pl_height a = pl_height b /\ (pl_index a < pl_index b)%nat.

Lemma placed_sorted : StronglySorted placed_before (placed_txs l).
Proof.
  unfold placed_txs. eapply StronglySorted_flat_map; [apply indexed_sorted| |].
  - intros [n bi] _. eapply StronglySorted_fmap; [|apply indexed_sorted]. intros a b Hab. right. by split.
  - intros [n1 b1] [n2 b2] x y Hn (i1 & -> & _)%list_elem_of_fmap (i2 & -> & _)%list_elem_of_fmap. left. cbn in *. lia.
Qed.

Lemma base_sorted : StronglySorted (fun a b => out_of_order a b = false) (base p pkh tip (placed_txs l)).
Proof.
  unfold base. eapply StronglySorted_flat_map; [exact placed_sorted| |].
  - intros pl _. eapply StronglySorted_omap; [apply indexed_sorted|]. intros [n1 o1] [n2 o2] x y Hn Hx Hy.
    unfold placed_output in *. repeat case_bool_decide; simplify_eq. unfold out_of_order. cbn in *.
    apply not_true_iff_false. rewrite !orb_true_iff, !andb_true_iff, Z.geb_leb, !Z.gtb_ltb, !Z.ltb_lt, !Z.leb_le. lia.
  - intros pl1 pl2 x y Hpl (n1 & o1 & _ & Hx)%placed_outputs_elem (n2 & o2 & _ & Hy)%placed_outputs_elem.
    unfold placed_output in *. repeat case_bool_decide; simplify_eq. unfold out_of_order, placed_before in *. cbn in *.
    apply not_true_iff_false. rewrite !orb_true_iff, !andb_true_iff, Z.geb_leb, !Z.gtb_ltb, !Z.ltb_lt, !Z.leb_le, !Z.eqb_eq. lia.
Qed.

Abbreviation hist := (address_history p pkh tip (placed_txs l)).
Abbreviation M := (spend_map (placed_txs l)).

Lemma mark_fields m o : mark m o = o \/ exists sp, m !! outpoint_of o = Some sp /\ mark m o = set_spent o sp.
Proof. unfold mark. destruct (m !! outpoint_of o) as [sp|] eqn:E; [right|by left]. by exists sp. Qed.

Lemma mark_outpoint m o : outpoint_of (mark m o) = outpoint_of o.
Proof. by destruct (mark_fields m o) as [->|(sp & _ & ->)]. Qed.

Lemma hist_outpoints : NoDup (outpoint_of <$> hist).
Proof.
  destruct (scan_history p pkh tip (placed_txs l) Hclean) as (created & _ & Hi).
  unfold address_history. rewrite <- list_fmap_compose.
  replace (outpoint_of ∘ mark M <$> base p pkh tip (placed_txs l)) with (outpoint_of <$> base p pkh tip (placed_txs l))
    by (apply list_fmap_ext; intros; symmetry; apply mark_outpoint).
  apply NoDup_alt. intros i j op Hx Hy. rewrite list_lookup_fmap in Hx, Hy.
  apply fmap_Some in Hx as (o1 & H1 & ->), Hy as (o2 & H2 & Heq).
  assert (created !! outpoint_of o1 = Some i) by (apply Hi; eauto).
  assert (created !! outpoint_of o1 = Some j) by (apply Hi; eauto). congruence.
Qed.

Lemma hist_sorted : StronglySorted (fun a b => out_of_order a b = false) hist.
Proof.
  eapply StronglySorted_fmap; [|exact base_sorted]. intros x y Hxy.
  destruct (mark_fields M x) as [->|(? & _ & ->)], (mark_fields M y) as [->|(? & _ & ->)]; exact Hxy.
Qed.

(** Where an output and its spender come from. *)
Lemma hist_elem o : o ∈ hist <-> exists pl n out o0, pl ∈ placed_txs l /\ tx_Outs (pl_tx pl) !! n = Some out /\
  placed_output p pkh tip pl (n, out) = Some o0 /\ o = mark M o0.
Proof.
  unfold address_history. rewrite list_elem_of_fmap. setoid_rewrite base_elem. setoid_rewrite placed_outputs_elem. naive_solver.
Qed.

Lemma spend_map_elem op sp : M !! op = Some sp ->
  exists pl n i, pl ∈ placed_txs l /\ IsCoinbase (pl_tx pl) = false /\ tx_Ins (pl_tx pl) !! n = Some i /\ op = in_Prev i /\
    sp = mkConfirmedSpend (pl_id pl) (Z.of_nat n) (pl_block pl) (pl_height pl).
Proof.
  intros Hl%elem_of_list_to_map_2. unfold all_spends in Hl. apply list_elem_of_In, in_flat_map in Hl as (pl & Hpl & Hin).
  apply list_elem_of_In in Hpl, Hin. unfold placed_spends in Hin. destruct (IsCoinbase (pl_tx pl)) eqn:Ecb; [by apply not_elem_of_nil in Hin|].
  apply list_elem_of_fmap in Hin as ([n i] & [= -> ->] & Hn). apply indexed_lookup in Hn. by exists pl, n, i.
Qed.

Lemma same_id pl1 pl2 : pl1 ∈ placed_txs l -> pl2 ∈ placed_txs l -> pl_id pl1 = pl_id pl2 -> pl1 = pl2.
Proof. intros H1 H2. by apply (NoDup_fmap_inj pl_id _ _ _ (cl_ids _ _ Hclean)). Qed.

Lemma hist_spends : NoDup (spend_key <$> omap co_SpentBy hist).
Proof.
  assert (Hgen : forall L, NoDup (outpoint_of <$> L) -> (forall o, o ∈ L -> o ∈ hist) -> NoDup (spend_key <$> omap co_SpentBy L)).
  { intros L. induction L as [|o L IH]; intros Hnd Hsub; [constructor|]. rewrite fmap_cons in Hnd. apply NoDup_cons in Hnd as [Hn Hnd].
    cbn [omap list_omap]. destruct (co_SpentBy o) as [sp|] eqn:E; [|apply IH; [done|set_solver]].
    rewrite fmap_cons. apply NoDup_cons. split; [|apply IH; [done|set_solver]].
    intros (sp' & Hk & (o' & Ho' & E')%list_elem_of_omap)%list_elem_of_fmap. apply Hn.
    assert (Hsp : forall o sp, o ∈ hist -> co_SpentBy o = Some sp -> M !! outpoint_of o = Some sp).
    { intros x spx (pl & n & out & o0 & _ & _ & (_ & _ & Hs & _)%placed_output_fields & ->)%hist_elem Ex. rewrite mark_outpoint.
      destruct (mark_fields M o0) as [Hm|(sp0 & Hm & Heq)]; [rewrite Hm in Ex; congruence|]. rewrite Heq in Ex. by injection Ex as ->. }
    apply Hsp in E, E'; [|apply Hsub; set_solver..].
    apply spend_map_elem in E as (pl1 & n1 & i1 & Hpl1 & _ & Hi1 & Hop1 & ->), E' as (pl2 & n2 & i2 & Hpl2 & _ & Hi2 & Hop2 & ->).
    injection Hk as Hid Hn12. apply (same_id _ _ Hpl1 Hpl2) in Hid as ->. apply Nat2Z.inj in Hn12 as ->.
    simplify_eq. rewrite Hop1, <- Hop2. by apply list_elem_of_fmap_2. }
  apply Hgen; [exact hist_outpoints|done].
Qed.

Lemma backed_in pl : pl ∈ placed_txs l -> exists before after, placed_txs l = before ++ pl :: after /\ backed p before pl.
Proof. intros (a & b & Heq)%list_elem_of_split. exists a, b. split; [done|]. by eapply (cl_backed _ _ Hclean). Qed.

(** A spent output is spent in a later place, after it has matured. *)
Lemma spend_later pl0 op e pl : pl0 ∈ placed_txs l -> creates pl0 op e -> pl ∈ placed_txs l -> op ∈ spends pl ->
  pl_height pl0 <= pl_height pl /\ (IsCoinbase (pl_tx pl0) = true -> CoinbaseMaturity p <= pl_height pl - pl_height pl0).
Proof.
  intros Hpl0 Hcr Hpl [i Hi]%list_elem_of_lookup. destruct (backed_in pl Hpl) as (a & b & Heq & es & Hall & _).
  destruct (Forall2_lookup_l _ _ _ _ _ Hall Hi) as (e' & _ & [(pl1 & Hpl1 & Hcr1) Hm]).
  assert (Hin1 : pl1 ∈ placed_txs l) by (rewrite Heq; set_solver).
  assert (pl1 = pl0) as -> by (apply same_id; [done|done|]; by rewrite <- (creates_id _ _ _ Hcr1), (creates_id _ _ _ Hcr)).
  destruct Hcr1 as (n & o & _ & _ & ->). cbn in Hm. split; [|done].
  pose proof placed_sorted as Hs. rewrite Heq in Hs. apply (StronglySorted_app_1_elem_of _ _ _ pl0 pl) in Hs; [|done|by left].
  destruct Hs as [?|[? _]]; lia.
Qed.

Lemma block_amounts pl n out : pl ∈ placed_txs l -> tx_Outs (pl_tx pl) !! n = Some out -> 0 < out_Value out <= MaxMoneyUnits.
Proof.
  intros (k & bi & Hk & Ht & _)%placed_elem Hn. rewrite Forall_lookup in Hok.
  pose proof (eo_sane _ _ (Hok _ _ Hk)) as Hs. apply checkBlockSanity_spec in Hs as (cb & txs & [Hb _ _ Hshape _ _]).
  rewrite Hb in Ht. rewrite Forall_lookup in Hshape. destruct (Hshape _ _ Ht) as (_ & _ & Ho & _).
  rewrite Forall_lookup in Ho. by apply (Ho _ _ Hn).
Qed.

Lemma hist_facts s snap last_id : bi_id <$> last l = Some last_id -> s_coinbaseMaturity s = CoinbaseMaturity p ->
  ts_Hash snap = last_id -> ts_Height snap = tip -> Forall (output_facts s snap chain_block chain_tx) hist.
Proof.
  intros Hl Hcm Hhash Hheight. apply list.Forall_forall.
  intros o (pl & n & out & o0 & Hpl & Hn & Ho0 & ->)%hist_elem.
  pose proof (block_amounts _ _ _ Hpl Hn) as Ham. destruct (placed_block_at _ Hpl) as [Hb Hh].
  destruct (placed_output_fields _ _ _ _ _ _ Ho0) as (Hid & Hv & _ & _ & _). cbn in Hv.
  unfold placed_output in Ho0. case_bool_decide as Hpk; [|done]. cbn [fst snd] in Ho0.
  assert (Hbase : output_facts s snap chain_block chain_tx o0).
  { injection Ho0 as <-. split; cbn [co_AmountUnits co_BlockHeight co_Confirmations co_Mature co_Coinbase co_BlockHash co_TransactionIndex co_TxID co_SpentBy].
    - done.
    - lia.
    - lia.
    - by rewrite Hcm.
    - rewrite Hhash, Hheight. by apply tip_block_iff.
    - done.
    - by exists pl.
    - done. }
  destruct (mark_fields M o0) as [->|(sp & Hsp & ->)]; [done|].
  apply spend_map_elem in Hsp as (pl' & k & i & Hpl' & Hcb' & Hi & Hop & ->).
  assert (Hcr : creates pl (outpoint_of o0) (out_entry (pl_height pl) (IsCoinbase (pl_tx pl)) out)).
  { exists n, out. split_and!; [done| |done]. unfold outpoint_of. by rewrite Hid, Hv. }
  destruct (spend_later pl _ _ pl' Hpl Hcr Hpl') as [Hle Hmat].
  { unfold spends. rewrite Hcb', Hop. apply list_elem_of_fmap_2. by eapply list_elem_of_lookup_2. }
  destruct (placed_block_at _ Hpl') as [Hb' Hh']. destruct Hbase as [F1 F2 F3 F4 F5 F6 F7 _]. injection Ho0 as <-.
  split; [done..|]. intros sp [= <-]. unfold spend_facts. cbn in *. rewrite Hcm, Hheight, Hhash.
  split_and!; [lia|lia|done|by apply tip_block_iff|done].
Qed.
End facts.

(** ** On a reachable chain *)
Section answers.
Context `{Crypto} (p : Params) (c : Chain) (l : list blockIndex) (s : Server) (net : string).
Context (Hpow : pow_params_ok p) (Hinv : chain_inv p c) (Hb : branch p (c_index c) (c_tip c) l).
Context (Hnet : CanonicalNetworkID (Some p) = Ok net) (Hs : s = mkServer net (CoinbaseMaturity p) v1MaxResponseBytes).

Definition tip_shown : v1Tip := mkV1Tip (hashText (bi_id (c_tip c))) (bi_height (c_tip c)).

Lemma branch_ids : NoDup (bi_id <$> l).
Proof.
  apply NoDup_alt. intros i j id Hi Hj. rewrite list_lookup_fmap in Hi, Hj.
  apply fmap_Some in Hi as (b1 & H1 & ->), Hj as (b2 & H2 & Heq).
  pose proof (branch_indexed _ _ _ _ Hb (ci_tip _ _ Hinv)) as Hidx.
  pose proof (Hidx b1 (list_elem_of_lookup_2 _ _ _ H1)) as E1. pose proof (Hidx b2 (list_elem_of_lookup_2 _ _ _ H2)) as E2.
  rewrite Heq in E1. simplify_eq. pose proof (branch_heights _ _ _ _ Hb _ _ H1). pose proof (branch_heights _ _ _ _ Hb _ _ H2). lia.
Qed.

Lemma tip_message_ok : tip_message s (mkTipSnapshot net (bi_id (c_tip c)) (bi_height (c_tip c))) = Ok tip_shown.
Proof.
  unfold tip_message. rewrite Hs. cbn. rewrite bool_decide_eq_true_2 by done. cbn.
  pose proof (branch_height_nonneg _ _ _ _ Hb). by rewrite (proj2 (Z.ltb_ge _ 0)).
Qed.

Lemma handleV1Block_answer r id : handleV1Block s r id c =
  match c_index c !! id with
  | None => writeV1 s r 404 (v1BlockResponse net false (mkV1Block (hashText id) None false) tip_shown)
  | Some bi => writeV1 s r 200 (v1BlockResponse net true
                 (mkV1Block (hashText id) (Some (bi_height bi)) (bool_decide (id ∈ c_mainIDs c))) tip_shown)
  end.
Proof.
  assert (Hids : c_mainIDs c = bi_id <$> l).
  { destruct (ci_main _ _ Hinv) as (l' & Hb' & Hids & _). by rewrite (branch_unique _ _ _ _ _ Hb' Hb) in Hids. }
  pose proof (branch_length _ _ _ _ Hb) as Hlen.
  unfold handleV1Block, LookupBlock. rewrite (canonical_tip_ok p Hpow c net Hinv Hnet), (canonical_sequence_ok p Hpow c l Hinv Hb).
  cbn [mbind result_bind]. assert (Hnets : s_network s = net) by by rewrite Hs.
  destruct (c_index c !! id) as [bi|] eqn:Ei.
  2:{ cbn [mbind result_bind bl_Tip bl_Network bl_Hash bl_Found bl_Height bl_Canonical]. rewrite tip_message_ok. cbn [mbind result_bind bl_Network bl_Hash bl_Found bl_Height bl_Canonical ts_Network].
      rewrite Hnets, !bool_decide_eq_true_2 by done. done. }
  destruct (ci_index _ _ Hinv _ _ Ei) as (Hid & l' & _ & Hb' & _).
  pose proof (branch_height_nonneg _ _ _ _ Hb') as Hnn. pose proof (branch_end_ok _ Hpow _ _ _ Hb') as He.
  rewrite (proj2 (Z.ltb_ge _ 0)) by done.
  rewrite (bool_decide_eq_true_2 (bi_id bi = id)), (bool_decide_eq_true_2 (Header_ID _ = id)) by (done || (rewrite <- Hid; symmetry; apply He)).
  cbn [negb orb]. set (canon := _ && _).
  assert (Hcanon : canon = bool_decide (id ∈ c_mainIDs c)).
  { apply eq_bool_prop_intro. unfold canon. rewrite !Is_true_true, andb_true_iff, Z.ltb_lt, !bool_decide_eq_true, Hids.
    by apply (canonical_member p c l id bi). }
  assert (Htip : id = bi_id (c_tip c) -> canon = true /\ bi_height bi = bi_height (c_tip c)).
  { intros ->. rewrite (ci_tip _ _ Hinv) in Ei. simplify_eq. split; [|done]. rewrite Hcanon, Hids. apply bool_decide_eq_true_2.
    apply list_elem_of_fmap_2. apply last_Some_elem_of. by eapply branch_last. }
  assert (Hmem : canon = true -> bi_height bi <= bi_height (c_tip c) /\ (bi_height bi = bi_height (c_tip c) -> id = bi_id (c_tip c))).
  { unfold canon. rewrite andb_true_iff, Z.ltb_lt, bool_decide_eq_true. intros [Hlt Hl]. split; [lia|]. intros Heq.
    pose proof (branch_last _ _ _ _ Hb) as Hla. rewrite last_lookup in Hla. rewrite Heq in Hl.
    replace (Z.to_nat (bi_height (c_tip c))) with (pred (length l)) in Hl by lia. rewrite Hla in Hl. cbn in Hl. congruence. }
  cbn [mbind result_bind bl_Tip bl_Network bl_Hash bl_Found bl_Height bl_Canonical]. rewrite tip_message_ok.
  cbn [mbind result_bind bl_Tip bl_Network bl_Hash bl_Found bl_Height bl_Canonical ts_Network ts_Height ts_Hash negb].
  rewrite Hnets, (bool_decide_eq_true_2 (net = net)), (bool_decide_eq_true_2 (id = id)) by done. cbn [negb orb].
  rewrite (proj2 (Z.ltb_ge _ 0)), <- Hcanon by done. cbn [orb].
  assert ((canon && (bi_height bi >? bi_height (c_tip c)) || canon && (bi_height bi =? bi_height (c_tip c)) && negb (bool_decide (id = bi_id (c_tip c)))
     || bool_decide (id = bi_id (c_tip c)) && (negb canon || negb (bi_height bi =? bi_height (c_tip c)))) = false) as ->; [|done].
  apply not_true_iff_false. rewrite !orb_true_iff, !andb_true_iff, orb_true_iff, !negb_true_iff, Z.gtb_ltb, Z.ltb_lt, Z.eqb_eq, Z.eqb_neq,
    bool_decide_eq_true, bool_decide_eq_false. intros [[[Hc1 Hgt]|[[Hc1 Heq] Hne]]|[Heq [Hc1|Hne]]].
  - destruct (Hmem Hc1). lia.
  - destruct (Hmem Hc1) as [_ Hm]. by apply Hne, Hm.
  - destruct (Htip Heq). congruence.
  - destruct (Htip Heq). congruence.
Qed.

(** The first block of the chain that holds a transaction. *)
Lemma find_tx_Some id n k : forall h bi, find_tx id n k = Some (h, bi) ->
  exists i, k !! i = Some bi /\ h = n + Z.of_nat i /\ id ∈ Tx_ID <$> blk_Txs (bi_block bi) /\
    forall j b, (j < i)%nat -> k !! j = Some b -> id ∉ Tx_ID <$> blk_Txs (bi_block b).
Proof.
  revert n. induction k as [|b k IH]; intros n h bi Hf; [done|]. cbn [find_tx] in Hf.
  destruct (existsb _ _) eqn:E.
  - injection Hf as <- <-. exists 0%nat. split_and!; [done|lia| |lia]. apply existsb_exists in E as (t & Ht & Hid).
    apply bool_decide_eq_true in Hid as <-. apply list_elem_of_fmap_2. by apply list_elem_of_In.
  - apply IH in Hf as (i & Hi & -> & Hin & Hno). exists (S i). split_and!; [done|lia|done|].
    intros [|j] b' Hj Hb'; [|apply (Hno j); [lia|done]]. cbn in Hb'. simplify_eq. intros (t & Hid & Ht)%list_elem_of_fmap.
    apply not_true_iff_false in E. apply E, existsb_exists. exists t. split; [by apply list_elem_of_In|]. by apply bool_decide_eq_true_2.
Qed.
Lemma find_tx_None id n k : find_tx id n k = None -> forall j b, k !! j = Some b -> id ∉ Tx_ID <$> blk_Txs (bi_block b).
Proof.
  revert n. induction k as [|b k IH]; intros n Hf j b' Hj; [done|]. cbn [find_tx] in Hf. destruct (existsb _ _) eqn:E; [done|].
  destruct j as [|j]; [|by eapply IH]. cbn in Hj. simplify_eq. intros (t & Hid & Ht)%list_elem_of_fmap.
  apply not_true_iff_false in E. apply E, existsb_exists. exists t. split; [by apply list_elem_of_In|]. by apply bool_decide_eq_true_2.
Qed.

(** Where a transaction is: in a block of the chain, else in the mempool, else nowhere. *)
Definition transaction_answer (id : Hash32) (status : TransactionStatus) (block : option v1BlockAnchor) (confirmations : Z) : Prop :=
  match status with
  | TransactionStatusConfirmed => exists n bi, l !! n = Some bi /\ id ∈ Tx_ID <$> blk_Txs (bi_block bi) /\
      (forall j b, (j < n)%nat -> l !! j = Some b -> id ∉ Tx_ID <$> blk_Txs (bi_block b)) /\
      block = Some (mkAnchor (hashText (bi_id bi)) (Z.of_nat n)) /\ confirmations = bi_height (c_tip c) - Z.of_nat n + 1
  | _ => (forall b, b ∈ l -> id ∉ Tx_ID <$> blk_Txs (bi_block b)) /\ block = None /\ confirmations = 0 /\
      (status = TransactionStatusMempool <-> is_Some (c_mempool c !! id))
  end.

Lemma LookupTransaction_answer id : exists t, LookupTransaction c id = Ok t /\ tl_Network t = net /\ tl_TxID t = id /\
  tl_Tip t = mkTipSnapshot net (bi_id (c_tip c)) (bi_height (c_tip c)) /\ transaction_consistent t = true /\
  transaction_answer id (tl_Status t)
    (match tl_Status t with TransactionStatusConfirmed => Some (mkAnchor (hashText (tl_BlockHash t)) (tl_BlockHeight t)) | _ => None end)
    (tl_Confirmations t).
Proof.
  unfold LookupTransaction. rewrite (canonical_tip_ok p Hpow c net Hinv Hnet), (canonical_sequence_ok p Hpow c l Hinv Hb).
  cbn [mbind result_bind ts_Network ts_Height]. pose proof (branch_length _ _ _ _ Hb) as Hlen.
  destruct (find_tx id 0 l) as [[h bi]|] eqn:Ef.
  - apply find_tx_Some in Ef as (n & Hn & -> & Hin & Hno). rewrite Z.add_0_l. eexists. split; [done|]. split_and!; [done..| |].
    + apply lookup_lt_Some in Hn as Hlt. unfold transaction_consistent. cbn. apply negb_true_iff.
      rewrite (proj2 (Z.ltb_ge _ 0)), Z.gtb_ltb, (proj2 (Z.ltb_ge _ _)), Z.eqb_refl by lia. cbn [orb negb].
      rewrite eqb_iff; [done|]. rewrite Z.eqb_eq, bool_decide_eq_true. apply (tip_block_iff l (bi_height (c_tip c)) branch_ids).
      * lia.
      * by rewrite (branch_last _ _ _ _ Hb).
      * split; [lia|]. by rewrite Nat2Z.id, Hn.
    + by exists n, bi.
  - pose proof (find_tx_None _ _ _ Ef) as Hno. assert (Hall : forall b, b ∈ l -> id ∉ Tx_ID <$> blk_Txs (bi_block b)).
    { intros b [j Hj]%list_elem_of_lookup. by eapply Hno. }
    destruct (c_mempool c !! id) as [tx|] eqn:Em.
    + destruct (ci_mempool _ _ Hinv _ _ Em) as [-> _]. rewrite bool_decide_eq_true_2 by done. cbn [negb].
      eexists. split; [done|]. by split_and!.
    + eexists. split; [done|]. split_and!; try done. cbn. rewrite Em. by split_and!.
Qed.

Lemma handleV1Transaction_answer r id : exists status block confirmations, transaction_answer id status block confirmations /\
  handleV1Transaction s r id c = writeV1 s r 200 (v1TransactionResponse net (hashText id) status block confirmations tip_shown).
Proof.
  destruct (LookupTransaction_answer id) as (t & Ht & Hn & Hid & Htip & Hok & Ha). eexists _, _, _. split; [exact Ha|].
  unfold handleV1Transaction. rewrite Ht. cbn [mbind result_bind]. rewrite Htip, tip_message_ok. cbn [mbind result_bind].
  assert (Hnets : s_network s = net) by by rewrite Hs.
  rewrite Hn, Hid, Hok, Hnets, !bool_decide_eq_true_2 by done. done.
Qed.

(** *** Addresses *)
Context (Hd : distinct_ids l).
Definition address_outputs (pkh : bytes) : list ConfirmedAddressOutput := address_history p pkh (bi_height (c_tip c)) (placed_txs l).

Lemma chain_history : history p (placed_txs l) (c_utxo c) /\ clean p (placed_txs l).
Proof.
  destruct (ci_main _ _ Hinv) as (l' & Hb' & _ & Hrep). rewrite (branch_unique _ _ _ _ _ Hb' Hb) in *. clear l' Hb'.
  split; [eapply history_chain|eapply placed_clean]; (by eapply branch_heights || by eapply branch_entry_ok || done).
Qed.

Lemma v1AddressOutputs_history pkh :
  v1AddressOutputs s (mkAddressOutputs net true (mkTipSnapshot net (bi_id (c_tip c)) (bi_height (c_tip c))) (address_outputs pkh))
  = Ok (shown_output <$> address_outputs pkh).
Proof.
  destruct chain_history as [_ Hclean]. pose proof (branch_length _ _ _ _ Hb) as Hlen.
  eapply (v1AddressOutputs_ok s _ _ _ (chain_block l) (chain_tx l)).
  - apply chain_block_fun.
  - apply chain_tx_fun.
  - eapply hist_facts; [apply branch_ids|done|by eapply branch_entry_ok|done|by rewrite (branch_last _ _ _ _ Hb)|by rewrite Hs|done|done].
  - apply hist_sorted.
  - by apply hist_outpoints.
  - apply hist_spends; [apply branch_ids|done|by eapply branch_entry_ok|done].
Qed.

Definition tip_expected (expected : option expectedTip) : Prop :=
  match expected with Some e => et_hash e = bi_id (c_tip c) /\ et_height e = bi_height (c_tip c) | None => True end.
#[global] Instance tip_expected_dec expected : Decision (tip_expected expected).
Proof. unfold tip_expected. destruct expected; apply _. Defined.

Lemma handleV1AddressOutputs_answer r address pkh expected : handleV1AddressOutputs s r address pkh expected c =
  if decide (tip_expected expected) then writeV1 s r 200 (v1AddressResponse net address tip_shown (shown_output <$> address_outputs pkh))
  else writeV1 s r 409 (v1TipMismatchResponse net address tip_shown).
Proof.
  unfold handleV1AddressOutputs. rewrite (ConfirmedOutputs_history p c l net pkh Hpow Hinv Hb Hnet Hd). cbn [mbind result_bind ao_Tip].
  rewrite tip_message_ok. cbn [mbind result_bind ao_Tip ao_Network ao_Complete ts_Hash ts_Height].
  assert (Hnets : s_network s = net) by by rewrite Hs. rewrite Hnets, bool_decide_eq_true_2 by done. cbn [negb orb].
  fold (address_outputs pkh). rewrite v1AddressOutputs_history. destruct expected as [e|]; [|by rewrite decide_True].
  case_decide as Ht; cbn in Ht.
  - destruct Ht as [-> ->]. by rewrite bool_decide_eq_true_2, Z.eqb_refl by done.
  - case_bool_decide as Hh; [|done]. destruct (Z.eqb_spec (bi_height (c_tip c)) (et_height e)) as [He|]; [|done]. by destruct Ht.
Qed.

(** The unspent outputs of the history are the UTXO set. *)
Lemma address_outputs_unspent pkh op e :
  c_utxo c !! op = Some e /\ ue_PKH e = pkh <->
  exists o, o ∈ address_outputs pkh /\ co_SpentBy o = None /\ outpoint_of o = op /\ co_AmountUnits o = ue_Value e /\
    co_BlockHeight o = ue_Height e /\ co_Coinbase o = ue_Coinbase e /\ ue_PKH e = pkh.
Proof.
  destruct chain_history as [Hh Hclean]. rewrite (h_utxo _ _ _ Hh). split.
  - intros [[(pl & Hpl & n & out & Hn & -> & ->) Hns] Hpk]. cbn in Hpk.
    assert (Hm : spend_map (placed_txs l) !! mkOutPoint (pl_id pl) (Z.of_nat n) = None).
    { apply not_elem_of_list_to_map_1. by rewrite all_spends_keys. }
    destruct (placed_output p pkh (bi_height (c_tip c)) pl (n, out)) as [o|] eqn:Eo.
    2:{ unfold placed_output in Eo. cbn in Eo. by rewrite bool_decide_eq_true_2 in Eo. }
    destruct (placed_output_fields _ _ _ _ _ _ Eo) as (Hid & Hv & Hsp & Ham & _). cbn in Hv, Ham.
    assert (Hop : outpoint_of o = mkOutPoint (pl_id pl) (Z.of_nat n)) by (unfold outpoint_of; by rewrite Hid, Hv).
    assert (Hmark : mark (spend_map (placed_txs l)) o = o) by (unfold mark; by rewrite Hop, Hm).
    exists o. split_and!; [|done|done|done| | |done].
    + apply hist_elem. exists pl, n, out, o. by rewrite Hmark.
    + unfold placed_output in Eo. case_bool_decide; [|done]. by injection Eo as <-.
    + unfold placed_output in Eo. case_bool_decide; [|done]. by injection Eo as <-.
  - intros (o & (pl & n & out & o0 & Hpl & Hn & Eo & ->)%hist_elem & Hsp & Hop & Ham & Hhe & Hcb & Hpk). split; [|done].
    destruct (placed_output_fields _ _ _ _ _ _ Eo) as (Hid & Hv & _ & Ham0 & Hpk0). cbn in Hv, Ham0, Hpk0.
    destruct (mark_fields (spend_map (placed_txs l)) o0) as [Hm|(sp & _ & Hm)]; rewrite Hm in *; [|done].
    split.
    + exists pl. split; [done|]. exists n, out. split_and!; [done|rewrite <- Hop; unfold outpoint_of; by rewrite Hid, Hv|].
      unfold placed_output in Eo. case_bool_decide; [|done]. injection Eo as <-. cbn in *. destruct e; cbn in *. unfold out_entry. by subst.
    + intros Hin. rewrite <- all_spends_keys in Hin. rewrite <- Hop in Hin.
      unfold mark in Hm. destruct (spend_map (placed_txs l) !! outpoint_of o0) as [sp|] eqn:Es.
      * rewrite <- Hm in Hsp. done.
      * unfold spend_map in Es. by apply not_elem_of_list_to_map_2 in Es.
Qed.
End answers.

(** ** The address page *)
Definition received (hist : list ConfirmedAddressOutput) (id : Hash32) : Z :=
  sumZ ((fun o => if decide (co_TxID o = id) then co_AmountUnits o else 0) <$> hist).
Definition sent (hist : list ConfirmedAddressOutput) (id : Hash32) : Z :=
  sumZ ((fun o => if decide (cs_TxID <$> co_SpentBy o = Some id) then co_AmountUnits o else 0) <$> hist).
Definition spendable_part (o : ConfirmedAddressOutput) : Z :=
  match co_SpentBy o with None => if co_Mature o then co_AmountUnits o else 0 | Some _ => 0 end.
Definition balance (hist : list ConfirmedAddressOutput) : Z := sumZ (spendable_part <$> hist).

Section page.
Context (tipH : Z) (tx_height : Hash32 -> Z -> Prop) (Hfun : forall id h h', tx_height id h -> tx_height id h' -> h = h').

Definition row_ok (R S : Hash32 -> Z) (id : Hash32) (row : option addressTransactionRow) : Prop :=
  match row with
  | None => R id = 0 /\ S id = 0
  | Some row => tx_height id (ar_BlockHeight row) /\ ar_Confirmations row = tipH - ar_BlockHeight row + 1 /\
                ar_receivedUnits row = R id /\ ar_sentUnits row = S id
  end.
Definition rows_ok (R S : Hash32 -> Z) (rows : gmap bytes addressTransactionRow) : Prop :=
  forall id, row_ok R S id (rows !! hashText id).

Lemma rowFor_ok R S rows id h : rows_ok R S rows -> tx_height id h ->
  exists row, rowFor rows (hashText id) h (tipH - h + 1) = Ok row /\ row_ok R S id (Some row).
Proof.
  intros Hr Hh. specialize (Hr id). unfold rowFor. destruct (rows !! hashText id) as [row|]; cbn in Hr.
  - destruct Hr as (Hh' & Hc & ? & ?). assert (Heq : ar_BlockHeight row = h) by by eapply Hfun.
    rewrite Hc, Heq, !Z.eqb_refl. cbn. exists row. split; [done|]. cbn. rewrite Hc, Heq. by split_and!.
  - eexists. split; [done|]. cbn. destruct Hr as [-> ->]. by split_and!.
Qed.

Lemma rows_insert R S R' S' rows id row :
  rows_ok R S rows -> row_ok R' S' id (Some row) -> (forall x, x <> id -> R' x = R x /\ S' x = S x) ->
  rows_ok R' S' (<[hashText id := row]> rows).
Proof.
  intros Hr Hrow Hx id'. destruct (decide (id' = id)) as [->|Hne]; [by rewrite lookup_insert_eq|].
  rewrite lookup_insert_ne by (intros Heq; apply (inj hex_encode) in Heq; congruence). destruct (Hx _ Hne) as [HR HS].
  specialize (Hr id'). unfold row_ok in *. by rewrite HR, HS.
Qed.

Definition page_ok (pre : list ConfirmedAddressOutput) (st : gmap bytes addressTransactionRow * gset Z * Z) : Prop :=
  rows_ok (received pre) (sent pre) st.1.1 /\ st.2 = balance pre.

Lemma received_snoc pre o id : received (pre ++ [o]) id = received pre id + if decide (co_TxID o = id) then co_AmountUnits o else 0.
Proof. unfold received. rewrite fmap_app, sumZ_app. cbn. lia. Qed.
Lemma sent_snoc pre o id :
  sent (pre ++ [o]) id = sent pre id + if decide (cs_TxID <$> co_SpentBy o = Some id) then co_AmountUnits o else 0.
Proof. unfold sent. rewrite fmap_app, sumZ_app. cbn. lia. Qed.
Lemma balance_snoc pre o : balance (pre ++ [o]) = balance pre + spendable_part o.
Proof. unfold balance. rewrite fmap_app, sumZ_app. cbn. lia. Qed.

Record page_facts (o : ConfirmedAddressOutput) : Prop := {
  pf_amount : 0 < co_AmountUnits o;
  pf_created : tx_height (co_TxID o) (co_BlockHeight o);
  pf_confirmations : co_Confirmations o = tipH - co_BlockHeight o + 1;
  pf_spent : forall sp, co_SpentBy o = Some sp -> tx_height (cs_TxID sp) (cs_BlockHeight sp);
}.

Lemma page_step pre o st :
  page_ok pre st -> page_facts o -> (forall id, received (pre ++ [o]) id <= MaxMoneyUnits) ->
  (forall id, sent (pre ++ [o]) id <= MaxMoneyUnits) -> balance (pre ++ [o]) <= MaxMoneyUnits ->
  exists st', page_output tipH st (shown_output o) = Ok st' /\ page_ok (pre ++ [o]) st'.
Proof.
  destruct st as [[rows mined] bal]. intros [Hr Hb] [Ha Hc Hconf Hsp] Hrecv Hsent Hbal. cbn [fst snd] in *.
  unfold page_output. cbn [shown_output output_message vo_TxID vo_Block va_Height vo_Confirmations vo_AmountUnits vo_Coinbase vo_SpentBy vo_Mature].
  rewrite Hconf. destruct (rowFor_ok _ _ _ _ _ Hr Hc) as (row & -> & Hrow). cbn [mbind result_bind].
  specialize (Hrecv (co_TxID o)). rewrite received_snoc, decide_True in Hrecv by done.
  destruct Hrow as (Hrh & Hrc & Hrr & Hrs). rewrite Z.gtb_ltb, (proj2 (Z.ltb_ge _ _)) by lia.
  set (rows1 := <[_ := add_received row _]> rows).
  assert (Hr1 : rows_ok (received (pre ++ [o])) (sent pre) rows1).
  { eapply rows_insert; [exact Hr| |].
    - cbn. rewrite received_snoc, decide_True by done. split_and!; [done|done|lia|done].
    - intros x Hx. rewrite received_snoc, decide_False by congruence. split; [lia|done]. }
  rewrite balance_snoc in Hbal. unfold spendable_part in Hbal.
  destruct (co_SpentBy o) as [sp|] eqn:E; cbn [fmap option_fmap option_map].
  - cbn [shown_spend vc_TxID vc_Block va_Height]. destruct (rowFor_ok _ _ _ _ _ Hr1 (Hsp sp eq_refl)) as (row2 & -> & Hrow2). cbn [mbind result_bind].
    specialize (Hsent (cs_TxID sp)). rewrite sent_snoc, E, decide_True in Hsent by done.
    destruct Hrow2 as (Hrh2 & Hrc2 & Hrr2 & Hrs2). rewrite Z.gtb_ltb, (proj2 (Z.ltb_ge _ _)) by lia.
    eexists. split; [reflexivity|]. split; cbn [fst snd].
    + eapply rows_insert; [exact Hr1| |].
      * cbn. rewrite sent_snoc, E, decide_True by done. split_and!; [done|done|done|lia].
      * intros x Hx. rewrite sent_snoc, E, decide_False by (cbn; congruence). split; [done|lia].
    + rewrite balance_snoc. unfold spendable_part. rewrite E. lia.
  - assert (Hr2 : rows_ok (received (pre ++ [o])) (sent (pre ++ [o])) rows1).
    { intros id. specialize (Hr1 id). unfold row_ok in *. rewrite sent_snoc, E, decide_False, Z.add_0_r by done. exact Hr1. }
    destruct (co_Mature o) eqn:Em.
    + rewrite Z.gtb_ltb, (proj2 (Z.ltb_ge _ _)) by lia. eexists. split; [reflexivity|]. split; [done|]. cbn [snd].
      rewrite balance_snoc. unfold spendable_part. rewrite E, Em. lia.
    + eexists. split; [reflexivity|]. split; [done|]. cbn [snd]. rewrite balance_snoc. unfold spendable_part. rewrite E, Em. lia.
Qed.

Lemma sumZ_prefix {A} (f : A -> Z) l k : (forall a, a ∈ k -> 0 <= f a) -> sumZ (f <$> l) <= sumZ (f <$> (l ++ k)).
Proof.
  intros Hf. rewrite fmap_app, sumZ_app. cut (0 <= sumZ (f <$> k)); [lia|]. apply sumZ_nonneg, Forall_fmap, list.Forall_forall. auto.
Qed.

Lemma page_outputs hist :
  Forall page_facts hist -> (forall id, received hist id <= MaxMoneyUnits) -> (forall id, sent hist id <= MaxMoneyUnits) ->
  balance hist <= MaxMoneyUnits ->
  exists st, foldM (page_output tipH) (∅, ∅, 0) (shown_output <$> hist) = Ok st /\ page_ok hist st.
Proof.
  induction hist as [|o hist IH] using rev_ind; intros Hf Hr Hs Hb.
  { exists (∅, ∅, 0). split; [done|]. split; [|done]. intros id. cbn [fst]. by rewrite lookup_empty. }
  assert (Hpos : forall a, a ∈ [o] -> 0 < co_AmountUnits a).
  { intros a Ha. rewrite list.Forall_forall in Hf. apply (pf_amount a), Hf. set_solver. }
  apply Forall_app in Hf as [Hf [Ho _]%Forall_cons].
  destruct IH as (st & Hst & Hok); [done| | | |].
  - intros id. etrans; [|apply (Hr id)]. apply sumZ_prefix. intros a Ha. specialize (Hpos a Ha). case_decide; lia.
  - intros id. etrans; [|apply (Hs id)]. apply sumZ_prefix. intros a Ha. specialize (Hpos a Ha). case_decide; lia.
  - etrans; [|exact Hb]. apply sumZ_prefix. intros a Ha. specialize (Hpos a Ha). unfold spendable_part. repeat case_match; lia.
  - rewrite fmap_app, foldM_app, Hst. cbn [fmap list_fmap foldM].
    destruct (page_step hist o st Hok Ho Hr Hs Hb) as (st' & -> & Hok'). by exists st'.
Qed.
End page.

(** ** Sums over the history *)
(** Outputs with distinct outpoints among those spent sum up to at most what is spent. *)
Lemma sum_by_keys {A} (key : A -> OutPoint) (amount : A -> Z) ops (es : list UTXOEntry) L :
  length ops = length es -> NoDup ops -> Forall (fun e => 0 <= ue_Value e) es -> NoDup (key <$> L) ->
  (forall a, a ∈ L -> exists i e, ops !! i = Some (key a) /\ es !! i = Some e /\ amount a = ue_Value e) ->
  sumZ (amount <$> L) <= sumZ (ue_Value <$> es).
Proof.
  revert es L. induction ops as [|op ops IH]; intros [|e es] L Hlen Hnd Hpos HL Hall; try done.
  { destruct L as [|a L]; [cbn; lia|]. destruct (Hall a) as (i & ? & Hi & _); [by left|]. by rewrite lookup_nil in Hi. }
  apply NoDup_cons in Hnd as [Hop Hnd]. inv Hpos as [|? ? He Hpos']. cbn in Hlen. cbn [fmap list_fmap sumZ].
  assert (Hrest : forall K, NoDup (key <$> K) -> (forall a, a ∈ K -> a ∈ L /\ key a <> op) -> sumZ (amount <$> K) <= sumZ (ue_Value <$> es)).
  { intros K HK Hsub. apply (IH es K); [lia|done|done|done|]. intros a Ha. destruct (Hsub a Ha) as [HaL Hne].
    destruct (Hall a HaL) as ([|i] & e' & Hi & He' & Ham); [cbn in Hi; congruence|]. by exists i, e'. }
  destruct (decide (op ∈ key <$> L)) as [Hin|Hnin].
  - apply list_elem_of_fmap in Hin as (a & -> & Ha). apply elem_of_Permutation in Ha as [K HK]. rewrite HK. cbn.
    rewrite HK in HL. cbn in HL. apply NoDup_cons in HL as [Hk HL].
    destruct (Hall a) as ([|i] & e' & Hi & He' & Ham); [rewrite HK; by left| |].
    + cbn in He'. simplify_eq. cut (sumZ (amount <$> K) <= sumZ (ue_Value <$> es)); [cbn; lia|]. apply Hrest; [done|].
      intros b Hb. split; [rewrite HK; by right|]. intros Heq. apply Hk. rewrite <- Heq. by apply list_elem_of_fmap_2.
    + cbn in Hi. destruct Hop. by eapply list_elem_of_lookup_2.
  - cut (sumZ (amount <$> L) <= sumZ (ue_Value <$> es)); [cbn; lia|]. apply Hrest; [done|]. intros a Ha. split; [done|].
    intros <-. apply Hnin. by apply list_elem_of_fmap_2.
Qed.

Lemma sumZ_filter {A} (P : A -> Prop) `{!forall a, Decision (P a)} (f : A -> Z) l :
  sumZ ((fun a => if decide (P a) then f a else 0) <$> l) = sumZ (f <$> filter P l).
Proof.
  induction l as [|a l IH]; [done|]. rewrite filter_cons, fmap_cons. cbn [sumZ]. rewrite IH. by case_decide.
Qed.

Lemma placed_outputs_total `{Crypto} p pkh tip pl :
  Forall (fun o => 0 < out_Value o <= MaxMoneyUnits) (tx_Outs (pl_tx pl)) ->
  sumZ (co_AmountUnits <$> placed_outputs p pkh tip pl) <= sumZ (out_Value <$> tx_Outs (pl_tx pl)).
Proof.
  unfold placed_outputs, indexed. generalize 0%nat as n. induction (tx_Outs (pl_tx pl)) as [|o outs IH]; intros n Hall; [done|].
  inv Hall as [|? ? Ho Hos]. cbn [length seq zip zip_with omap list_omap]. specialize (IH (S n) Hos).
  destruct (placed_output p pkh tip pl (n, o)) as [co|] eqn:E.
  - apply placed_output_fields in E as (_ & _ & _ & Ha & _). cbn in Ha. rewrite !fmap_cons. cbn [sumZ]. fold (zip (seq (S n) (length outs)) outs). lia.
  - rewrite fmap_cons. cbn [sumZ]. fold (zip (seq (S n) (length outs)) outs). lia.
Qed.

Section sums.
Context `{Crypto} (p : Params) (l : list blockIndex) (pkh : bytes) (tip : Z).
Context (Hok : Forall (entry_ok p) l) (Hclean : clean p (placed_txs l)).
Abbreviation hist := (address_history p pkh tip (placed_txs l)).

Lemma placed_shape pl : pl ∈ placed_txs l -> outs_ok (tx_Outs (pl_tx pl)).
Proof.
  intros (k & bi & Hk & Ht & _)%placed_elem. rewrite Forall_lookup in Hok.
  pose proof (eo_sane _ _ (Hok _ _ Hk)) as Hs. apply checkBlockSanity_spec in Hs as (cb & txs & [Hb _ _ Hshape _ _]).
  rewrite Hb in Ht. rewrite Forall_lookup in Hshape. by destruct (Hshape _ _ Ht) as (_ & _ & Ho).
Qed.

Lemma received_bound id : received hist id <= MaxMoneyUnits.
Proof.
  assert (Hm : 0 <= MaxMoneyUnits) by (unfold MaxMoneyUnits, UnitsPerCoin; lia).
  assert (Hmark : forall m L, received (mark m <$> L) id = received L id).
  { intros m L. unfold received. rewrite <- list_fmap_compose. f_equal. apply list_fmap_ext. intros i o _. cbn.
    by destruct (mark_fields m o) as [->|(sp & _ & ->)]. }
  unfold address_history. rewrite Hmark. unfold base.
  assert (Hgen : forall P, NoDup (pl_id <$> P) -> (forall pl, pl ∈ P -> outs_ok (tx_Outs (pl_tx pl))) ->
            received (flat_map (placed_outputs p pkh tip) P) id <= MaxMoneyUnits /\
            (id ∉ pl_id <$> P -> received (flat_map (placed_outputs p pkh tip) P) id = 0)).
  { induction P as [|pl P IH]; intros Hnd Hsh; [done|]. rewrite fmap_cons in Hnd. apply NoDup_cons in Hnd as [Hn Hnd].
    destruct IH as [IH1 IH2]; [done|intros; apply Hsh; by right|]. destruct (Hsh pl) as [Hpos Hsum]; [by left|].
    cbn [flat_map]. unfold received in *. rewrite fmap_app, sumZ_app.
    assert (Hpl : sumZ ((fun o => if decide (co_TxID o = id) then co_AmountUnits o else 0) <$> placed_outputs p pkh tip pl)
                  = if decide (pl_id pl = id) then sumZ (co_AmountUnits <$> placed_outputs p pkh tip pl) else 0).
    { assert (Hid : Forall (fun o => co_TxID o = pl_id pl) (placed_outputs p pkh tip pl)).
      { apply list.Forall_forall. intros o (n & out & _ & Ho)%placed_outputs_elem. by apply placed_output_fields in Ho as [? _]. }
      clear -Hid. induction Hid as [|o L Ho _ IH]; [by case_decide|]. rewrite !fmap_cons. cbn [sumZ]. rewrite IH, Ho. by case_decide. }
    rewrite Hpl. pose proof (placed_outputs_total p pkh tip pl Hpos). rewrite fmap_cons, not_elem_of_cons. case_decide as He.
    - subst id. rewrite IH2 by done. split; [lia|]. by intros [? _].
    - split; [lia|]. intros [_ Hni]. by rewrite IH2. }
  apply Hgen; [apply (cl_ids _ _ Hclean)|apply placed_shape].
Qed.

Lemma sent_bound id : sent hist id <= MaxMoneyUnits.
Proof.
  assert (Hm : 0 <= MaxMoneyUnits) by (unfold MaxMoneyUnits, UnitsPerCoin; lia).
  unfold sent. rewrite sumZ_filter. set (K := filter _ hist).
  assert (Hout : NoDup (outpoint_of <$> K)) by (apply NoDup_fmap_filter, hist_outpoints; done).
  assert (Hsp : forall o, o ∈ K -> exists pl0 n0 out pl n i, pl0 ∈ placed_txs l /\ tx_Outs (pl_tx pl0) !! n0 = Some out /\
            outpoint_of o = mkOutPoint (pl_id pl0) (Z.of_nat n0) /\ co_AmountUnits o = out_Value out /\
            pl ∈ placed_txs l /\ pl_id pl = id /\ spends pl !! n = Some i /\ i = outpoint_of o).
  { intros o [Hid Ho]%list_elem_of_filter. apply hist_elem in Ho as (pl0 & n0 & out & o0 & Hpl0 & Hn0 & Eo & ->).
    destruct (placed_output_fields _ _ _ _ _ _ Eo) as (Ht & Hv & Hs0 & Ha & _). cbn in Hv, Ha. rewrite mark_outpoint.
    destruct (mark_fields (spend_map (placed_txs l)) o0) as [Hmk|(sp & Hsp & Hmk)]; rewrite Hmk in *; [by rewrite Hs0 in Hid|].
    cbn in Hid. injection Hid as Hid. apply spend_map_elem in Hsp as (pl & n & i & Hpl & Hcb & Hi & Hop & ->). cbn in Hid.
    exists pl0, n0, out, pl, n, (in_Prev i). split_and!; try done; [unfold outpoint_of; by rewrite Ht, Hv|].
    unfold spends, tx_prevs. by rewrite Hcb, list_lookup_fmap, Hi. }
  destruct K as [|o0 K'] eqn:EK; [done|]. rewrite <- EK in *.
  destruct (Hsp o0) as (_ & _ & _ & pl & _ & _ & _ & _ & _ & _ & Hpl & Hid & _); [rewrite EK; by left|].
  destruct (backed_in p l Hclean pl Hpl) as (a & b & Heq & es & Hall & Hsum).
  etrans; [|exact Hsum]. apply (sum_by_keys outpoint_of co_AmountUnits (spends pl) es).
  - by eapply Forall2_length.
  - pose proof (cl_once _ _ Hclean) as Ho. rewrite Heq, flat_map_app in Ho. cbn [flat_map] in Ho.
    apply NoDup_app in Ho as (_ & _ & Ho). by apply NoDup_app in Ho as (? & _).
  - apply list.Forall_forall. intros e [k Hk]%list_elem_of_lookup. destruct (Forall2_lookup_r _ _ _ _ _ Hall Hk) as (op & _ & [(pl1 & Hpl1 & Hcr) _]).
    destruct Hcr as (n & out & Hn & _ & ->). cbn. destruct (placed_shape pl1) as [Hpos _]; [rewrite Heq; set_solver|].
    rewrite Forall_lookup in Hpos. specialize (Hpos _ _ Hn). lia.
  - done.
  - intros o Ho. destruct (Hsp o Ho) as (pl0 & n0 & out & pl' & n & i & Hpl0 & Hn0 & Hop & Ham & Hpl' & Hid' & Hi & Hio).
    assert (pl' = pl) as -> by (apply (NoDup_fmap_inj pl_id _ _ _ (cl_ids _ _ Hclean)); [done|done|congruence]). subst i.
    destruct (Forall2_lookup_l _ _ _ _ _ Hall Hi) as (e & He & [(pl1 & Hpl1 & Hcr) _]). exists n, e. split_and!; [done|done|].
    assert (pl1 = pl0) as ->.
    { apply (NoDup_fmap_inj pl_id _ _ _ (cl_ids _ _ Hclean)); [rewrite Heq; set_solver|done|].
      by rewrite <- (creates_id _ _ _ Hcr), Hop. }
    destruct Hcr as (n1 & out1 & Hn1 & Hop1 & ->). rewrite Hop in Hop1. injection Hop1 as Hnn. apply Nat2Z.inj in Hnn as <-. cbn. congruence.
Qed.
End sums.

(** Rows are kept under the text of their id. *)
Definition keys_ok (rows : gmap bytes addressTransactionRow) : Prop :=
  map_Forall (fun k row => ar_TxID row = k /\ exists id, k = hashText id) rows.

Lemma page_output_keys tipH st o st' : page_output tipH st (shown_output o) = Ok st' -> keys_ok st.1.1 -> keys_ok st'.1.1.
Proof.
  destruct st as [[rows mined] bal]. unfold page_output. intros Hp Hk. cbn [fst] in Hk.
  assert (Hrow : forall rows id h conf row, keys_ok rows -> rowFor rows (hashText id) h conf = Ok row -> ar_TxID row = hashText id).
  { intros rows0 id h conf row Hk0. unfold rowFor. destruct (rows0 !! hashText id) as [r|] eqn:E; [|by intros [= <-]].
    destruct (_ || _); [done|]. intros [= <-]. by apply (Hk0 _ _ E). }
  cbn [shown_output output_message vo_TxID vo_SpentBy] in Hp. apply bind_Ok in Hp as (row & Hr & Hp). destruct (_ >? _); [done|].
  set (rows1 := <[_ := _]> rows) in Hp.
  assert (Hk1 : keys_ok rows1) by (apply map_Forall_insert_2; [split; [exact (Hrow _ _ _ _ _ Hk Hr)|by eexists]|done]).
  destruct (co_SpentBy o) as [sp|]; cbn [fmap option_fmap option_map] in Hp.
  - apply bind_Ok in Hp as (row2 & Hr2 & Hp). destruct (_ >? _); [done|]. apply Ok_inj in Hp as <-. cbn [fst].
    apply map_Forall_insert_2; [|done]. split; [exact (Hrow _ _ _ _ _ Hk1 Hr2)|by eexists].
  - destruct (vo_Mature _); [destruct (_ >? _); [done|]|]; apply Ok_inj in Hp as <-; done.
Qed.

Lemma page_outputs_keys tipH hist st : foldM (page_output tipH) (∅, ∅, 0) (shown_output <$> hist) = Ok st -> keys_ok st.1.1.
Proof.
  revert st. induction hist as [|o hist IH] using rev_ind; intros st Hf.
  { apply Ok_inj in Hf as <-. apply map_Forall_empty. }
  rewrite fmap_app, foldM_app in Hf. destruct (foldM _ _ (shown_output <$> hist)) as [st0|] eqn:E; [|done].
  cbn [fmap list_fmap foldM] in Hf. destruct (page_output tipH st0 (shown_output o)) as [st1|] eqn:E1; [|done]. apply Ok_inj in Hf as <-.
  eapply page_output_keys; [exact E1|by apply IH].
Qed.

Lemma TrimPrefix_app a b : TrimPrefix (a ++ b) a = b.
Proof. unfold TrimPrefix, HasPrefix. rewrite take_app_length, bool_decide_eq_true_2 by done. by rewrite drop_app_length. Qed.

Lemma utxo_total_filter (P : OutPoint * UTXOEntry -> Prop) `{!forall x, Decision (P x)} (m : utxo_map) :
  utxo_ok m -> 0 <= utxo_total (filter P m) <= utxo_total m.
Proof.
  induction m as [|op e m Hm IH] using map_ind; intros Hok; [done|].
  assert (He : 0 < ue_Value e <= MaxMoneyUnits) by (apply (Hok op); by rewrite lookup_insert_eq).
  assert (Hok' : utxo_ok m) by (intros k e' Hk; apply (Hok k); rewrite lookup_insert_ne; [done|congruence]).
  specialize (IH Hok'). rewrite (utxo_total_insert_fresh _ _ _ Hm). destruct (decide (P (op, e))).
  - rewrite map_filter_insert_True, utxo_total_insert_fresh by (done || (apply map_lookup_filter_None; by left)). lia.
  - rewrite map_filter_insert_False, delete_id by done. lia.
Qed.

Section page_answer.
Context `{Crypto} (p : Params) (c : Chain) (l : list blockIndex) (s : Server) (net : string).
Context (Hpow : pow_params_ok p) (Hinv : chain_inv p c) (Hb : branch p (c_index c) (c_tip c) l).
Context (Hnet : CanonicalNetworkID (Some p) = Ok net) (Hs : s = mkServer net (CoinbaseMaturity p) v1MaxResponseBytes).
Context (Hd : distinct_ids l).
Abbreviation outputs := (address_outputs p c l).

Definition entry_of (pkh : bytes) (o : ConfirmedAddressOutput) : OutPoint * UTXOEntry :=
  (outpoint_of o, mkUTXOEntry (co_AmountUnits o) pkh (co_BlockHeight o) (co_Coinbase o)).
Definition spendable_now (o : ConfirmedAddressOutput) : Prop := co_SpentBy o = None /\ co_Mature o = true.

Lemma output_facts_all pkh : Forall (output_facts s (mkTipSnapshot net (bi_id (c_tip c)) (bi_height (c_tip c))) (chain_block l) (chain_tx l)) (outputs pkh).
Proof.
  destruct (chain_history p c l Hpow Hinv Hb Hd) as [_ Hclean]. pose proof (branch_length _ _ _ _ Hb) as Hlen.
  eapply hist_facts; [by eapply branch_ids|done|by eapply branch_entry_ok|done|by rewrite (branch_last _ _ _ _ Hb)|by rewrite Hs|done|done].
Qed.

Lemma spendable_entries pkh :
  entry_of pkh <$> filter spendable_now (outputs pkh) ≡ₚ map_to_list (UTXOsForPKH c pkh).
Proof.
  destruct (chain_history p c l Hpow Hinv Hb Hd) as [_ Hclean].
  apply NoDup_Permutation; [|apply NoDup_map_to_list|].
  - apply (NoDup_fmap_1 fst). rewrite <- list_fmap_compose. change (fst ∘ entry_of pkh) with outpoint_of.
    apply NoDup_fmap_filter. by apply hist_outpoints.
  - intros [op e]. rewrite elem_of_map_to_list. unfold UTXOsForPKH. rewrite map_lookup_filter_Some. cbn [fst snd]. split.
    + intros (o & [= -> ->] & [[Hsp Hma] Ho]%list_elem_of_filter)%list_elem_of_fmap.
      pose proof (output_facts_all pkh) as Hf. rewrite list.Forall_forall in Hf. destruct (Hf o Ho) as [_ _ Hconf Hmat _ _ _ _].
      set (e := mkUTXOEntry _ _ _ _). assert (Hu : c_utxo c !! outpoint_of o = Some e /\ ue_PKH e = pkh).
      { apply (address_outputs_unspent p c l Hpow Hinv Hb Hd). by exists o. }
      split; [apply Hu|]. split; [done|]. cbn. intros [Hcb Hlt]. rewrite Hma, Hcb, Hconf, Hs in Hmat. cbn in Hmat.
      rewrite (ci_params _ _ Hinv) in Hlt. symmetry in Hmat. apply Z.leb_le in Hmat. lia.
    + intros (Hu & Hpk & Hmat). assert (Hex := conj Hu Hpk). apply (address_outputs_unspent p c l Hpow Hinv Hb Hd) in Hex as (o & Ho & Hsp & Hop & Ham & Hh & Hcb & _).
      apply list_elem_of_fmap. exists o. split.
      * unfold entry_of. rewrite Hop, Ham, Hh, Hcb, <- Hpk. by destruct e.
      * apply list_elem_of_filter. split; [|done]. split; [done|].
        pose proof (output_facts_all pkh) as Hf. rewrite list.Forall_forall in Hf. destruct (Hf o Ho) as [_ _ Hconf Hm _ _ _ _].
        rewrite Hm, Hcb, Hconf, Hh, Hs. cbn. destruct (ue_Coinbase e); [|done]. cbn. apply Z.leb_le.
        rewrite (ci_params _ _ Hinv) in Hmat. destruct (Z.le_gt_cases (CoinbaseMaturity p) (bi_height (c_tip c) - ue_Height e + 1)); [done|].
        destruct Hmat. split; [done|lia].
Qed.

Lemma balance_utxo pkh : balance (outputs pkh) = utxo_total (UTXOsForPKH c pkh).
Proof.
  unfold utxo_total, entry_values. rewrite <- (spendable_entries pkh), <- list_fmap_compose.
  change ((ue_Value ∘ snd) ∘ entry_of pkh) with co_AmountUnits. rewrite <- sumZ_filter. unfold balance. f_equal.
  apply list_fmap_ext. intros i o _. unfold spendable_part, spendable_now. destruct (co_SpentBy o), (co_Mature o);
    (rewrite decide_False by naive_solver; done) || (rewrite decide_True by done; done).
Qed.

Definition placed_height (id : Hash32) (h : Z) : Prop := exists pl, pl ∈ placed_txs l /\ pl_id pl = id /\ pl_height pl = h.

Lemma handleAddress_answer address pkh :
  DecodeAddress address = Ok pkh -> EncodeAddress pkh = address ->
  exists d, handleAddress s (bs "/address/" ++ address) c = AddressPage d /\ ad_Address d = address /\
    ad_Balance d = bs (coins (utxo_total (UTXOsForPKH c pkh))) /\
    forall row, row ∈ ad_Transactions d -> exists id, ar_TxID row = hashText id /\
      ar_receivedUnits row = received (outputs pkh) id /\ ar_sentUnits row = sent (outputs pkh) id.
Proof.
  intros Hdec Henc. destruct (chain_history p c l Hpow Hinv Hb Hd) as [_ Hclean].
  assert (Hnets : s_network s = net) by by rewrite Hs.
  assert (Hfun : forall id h h', placed_height id h -> placed_height id h' -> h = h').
  { intros id h h' (pl & Hpl & <- & <-) (pl' & Hpl' & Hid & <-). by rewrite (same_id p l Hclean _ _ Hpl Hpl' (eq_sym Hid)). }
  assert (Hbal : 0 <= utxo_total (UTXOsForPKH c pkh) <= MaxMoneyUnits).
  { destruct (ci_main _ _ Hinv) as (l' & Hb' & _ & Hrep). destruct (replay_supply _ l' _ (branch_heights _ _ _ _ Hb') Hrep) as [Hok Hle].
    pose proof (issued_before_money (length l')). unfold UTXOsForPKH.
    pose proof (utxo_total_filter (fun e => ue_PKH e.2 = pkh /\ ~ (ue_Coinbase e.2 = true /\
       bi_height (c_tip c) - ue_Height e.2 + 1 < CoinbaseMaturity (c_params c))) (c_utxo c) Hok). lia. }
  assert (Hfacts : Forall (page_facts (bi_height (c_tip c)) placed_height) (outputs pkh)).
  { pose proof (output_facts_all pkh) as Hf. rewrite list.Forall_forall in Hf |- *. intros o Ho. destruct (Hf o Ho) as [[? _] _ Hc _ _ _ _ _].
    apply hist_elem in Ho as (pl & n & out & o0 & Hpl & Hn & Eo & ->).
    assert (Hf0 : co_TxID o0 = pl_id pl /\ co_BlockHeight o0 = pl_height pl /\ co_SpentBy o0 = None).
    { unfold placed_output in Eo. case_bool_decide; [|done]. by injection Eo as <-. }
    destruct Hf0 as (Ht & Hh & Hn0). split; [done| |done|].
    - destruct (mark_fields (spend_map (placed_txs l)) o0) as [->|(sp & _ & ->)]; exists pl; by rewrite <- Ht, <- Hh.
    - intros sp E. destruct (mark_fields (spend_map (placed_txs l)) o0) as [Hm|(sp' & Hsp & Hm)]; rewrite Hm in E; [congruence|].
      injection E as ->. apply spend_map_elem in Hsp as (pl' & k & i & Hpl' & _ & _ & _ & ->). by exists pl'. }
  destruct (page_outputs (bi_height (c_tip c)) placed_height Hfun (outputs pkh) Hfacts) as ([[rows mined] bal] & Hf & Hrows & Hbb).
  { intros id. apply received_bound; [by eapply branch_entry_ok|done]. }
  { intros id. apply sent_bound; [by eapply branch_entry_ok|done]. }
  { rewrite balance_utxo. lia. }
  pose proof (page_outputs_keys _ _ _ Hf) as Hkeys. cbn [fst snd] in *. subst bal. rewrite balance_utxo in Hf.
  unfold handleAddress. rewrite TrimPrefix_app, Hdec, bool_decide_eq_true_2 by done. cbn [negb].
  rewrite (ConfirmedOutputs_history p c l net pkh Hpow Hinv Hb Hnet Hd). fold (outputs pkh). cbn [ao_Network ao_Complete ao_Tip ts_Network].
  rewrite Hnets, bool_decide_eq_true_2 by done. cbn [negb orb]. rewrite (tip_message_ok p c l s net) by done. cbn [mbind result_bind].
  unfold addressPageData. rewrite (v1AddressOutputs_history p c l s net) by done. cbn [mbind result_bind ao_Tip ts_Height]. rewrite Hf. cbn [mbind result_bind].
  assert (MoneyRange (utxo_total (UTXOsForPKH c pkh)) = true) as ->.
  { unfold MoneyRange. rewrite andb_true_iff, !Z.leb_le. lia. }
  cbn [negb]. eexists. split; [done|]. split_and!; [done|done|]. cbn [ad_Transactions].
  intros row Hrow. rewrite merge_sort_Permutation in Hrow. apply list_elem_of_fmap in Hrow as (row0 & -> & ([k row1] & -> & Hin)%list_elem_of_fmap).
  apply elem_of_map_to_list in Hin. destruct (Hkeys _ _ Hin) as (Hk & id & ->). exists id. specialize (Hrows id).
  rewrite Hin in Hrows. destruct Hrows as (_ & _ & Hr & Hse). cbn [snd]. unfold finish_row.
  destruct (_ >? 0); [|destruct (_ <? 0)]; by split_and!.
Qed.
End page_answer.

(** ** Requests *)
Definition slash : byte := Byte.x2f.
Definition safe_char (c : byte) : bool := negb (existsb (fun d => bool_decide (c = d)) [slash; Byte.x25; Byte.x3f; Byte.x2e]).
Definition safe (w : bytes) : bool := negb (bool_decide (w = [])) && forallb safe_char w.

(** A [GET] whose request line is the path and the query. *)
Definition path_of (segments : list bytes) : bytes := flat_map (cons slash) segments.
Definition get_request (path query : bytes) : v1_request :=
  mkV1Request "GET" (path ++ match query with [] => [] | _ => Byte.x3f :: query end) path [] query.

Lemma safe_spec w : safe w = true <-> w <> [] /\ forall c, c ∈ w -> c <> slash /\ c <> Byte.x25 /\ c <> Byte.x3f /\ c <> Byte.x2e.
Proof.
  unfold safe. rewrite andb_true_iff, negb_true_iff, bool_decide_eq_false, forallb_forall. apply and_iff_compat_l.
  setoid_rewrite <- list_elem_of_In. apply forall_proper. intros c. unfold safe_char. cbn [existsb].
  rewrite negb_true_iff, !orb_false_iff, !bool_decide_eq_false. tauto.
Qed.

Lemma Contains_char c s : Contains s [c] = bool_decide (c ∈ s).
Proof.
  induction s as [|x s IH]; [done|]. cbn [Contains]. unfold HasPrefix. cbn [length take]. rewrite IH, take_0.
  destruct (decide (x = c)) as [->|Hne].
  - rewrite (bool_decide_eq_true_2 ([c] = [c])), (bool_decide_eq_true_2 (c ∈ c :: s)) by (done || by left). done.
  - rewrite (bool_decide_eq_false_2 ([x] = [c])) by congruence. cbn. apply bool_decide_ext. rewrite elem_of_cons. naive_solver.
Qed.

Lemma Cut_none c s : c ∉ s -> Cut c s = (s, None).
Proof.
  induction s as [|x s IH]; [done|]. intros [Hx Hs]%not_elem_of_cons. cbn [Cut]. rewrite bool_decide_eq_false_2 by congruence. by rewrite IH.
Qed.
Lemma Cut_first c a b : c ∉ a -> Cut c (a ++ c :: b) = (a, Some b).
Proof.
  induction a as [|x a IH]; intros Ha; cbn [app Cut]; [by rewrite bool_decide_eq_true_2|].
  apply not_elem_of_cons in Ha as [Hx Ha]. rewrite bool_decide_eq_false_2 by congruence. by rewrite IH.
Qed.

Lemma path_chars segments c : Forall (fun w => safe w = true) segments -> c ∈ path_of segments ->
  c <> Byte.x25 /\ c <> Byte.x3f.
Proof.
  induction 1 as [|w segments Hw _ IH]; cbn; [by intros ?%not_elem_of_nil|]. intros [->|[Hc|Hc]%elem_of_app]%elem_of_cons; [done| |by apply IH].
  apply safe_spec in Hw as [_ Hw]. by destruct (Hw c Hc) as (_ & ? & ? & _).
Qed.

Lemma no_double_slash segments : Forall (fun w => safe w = true) segments -> Contains (path_of segments) (bs "//") = false.
Proof.
  assert (Hskip : forall w rest, slash ∉ w -> Contains rest (bs "//") = false -> Contains (w ++ rest) (bs "//") = false).
  { induction w as [|c w IH]; intros rest Hw Hr; [done|]. apply not_elem_of_cons in Hw as [Hc Hw]. cbn [app Contains].
    rewrite (IH rest) by done. unfold HasPrefix. rewrite bool_decide_eq_false_2; [done|]. intros [= Hc' _]. by destruct Hc. }
  induction 1 as [|w segments Hw _ IH]; [done|]. apply safe_spec in Hw as [Hne Hw]. cbn [path_of flat_map]. fold (path_of segments).
  assert (Hns : slash ∉ w) by (intros Hc; by destruct (Hw _ Hc)). rewrite <- app_comm_cons. cbn [Contains].
  rewrite (Hskip w) by done. unfold HasPrefix. rewrite bool_decide_eq_false_2; [done|]. destruct w as [|c w]; [done|].
  intros [= Hc]. subst c. apply Hns. by left.
Qed.

Lemma Split_path segments : Forall (fun w => safe w = true) segments -> Split slash (path_of segments) = [] :: segments.
Proof.
  assert (Hgen : forall w, slash ∉ w -> Forall (fun w => safe w = true) segments -> Split slash (w ++ path_of segments) = w :: segments).
  { induction segments as [|v segments IH]; intros w Hw Hs; cbn [path_of flat_map].
    - rewrite app_nil_r. by apply Split_none.
    - inv Hs as [|? ? Hv Hs']. rewrite <- app_comm_cons, Split_first by done. f_equal. apply IH; [|done].
      apply safe_spec in Hv as [_ Hv]. intros Hc. by destruct (Hv _ Hc). }
  intros Hs. by apply (Hgen []); [apply not_elem_of_nil|].
Qed.

Lemma canonical_path segments query :
  Forall (fun w => safe w = true) segments -> hasNoncanonicalV1Path (get_request (path_of segments) query) = false.
Proof.
  intros Hs. pose proof (path_chars segments) as Hch. unfold hasNoncanonicalV1Path, get_request. cbn [rq_RequestURI rq_RawPath rq_Path].
  assert (Hcut : (Cut Byte.x3f (path_of segments ++ match query with [] => [] | _ => Byte.x3f :: query end)).1 = path_of segments).
  { destruct query; [rewrite app_nil_r, Cut_none|rewrite Cut_first]; try done; intros Hc; by destruct (Hch _ Hs Hc). }
  rewrite Hcut, (Contains_char Byte.x25), no_double_slash, (bool_decide_eq_true_2 ([] = [])) by done.
  rewrite bool_decide_eq_false_2 by (intros Hc; by destruct (Hch _ Hs Hc)). cbn [negb orb].
  change (Split Byte.x2f (path_of segments)) with (Split slash (path_of segments)). rewrite Split_path by done.
  apply not_true_iff_false. rewrite existsb_exists. intros (w & Hw & Hd). apply list_elem_of_In in Hw.
  rewrite orb_true_iff, !bool_decide_eq_true in Hd. apply elem_of_cons in Hw as [->|Hw]; [by destruct Hd|].
  rewrite list.Forall_forall in Hs. apply Hs, safe_spec in Hw as [_ Hw]. assert (Hdot : Byte.x2e ∈ w) by (destruct Hd as [-> | ->]; by left).
  by destruct (Hw _ Hdot) as (_ & _ & _ & ?).
Qed.

Lemma no_slash w : safe w = true -> Contains w (bs "/") = false.
Proof.
  intros [_ Hw]%safe_spec. rewrite (Contains_char Byte.x2f). apply bool_decide_eq_false_2. intros Hc. by destruct (Hw _ Hc).
Qed.
Lemma route_safe route w : safe w = true -> route_argument route w = (route, w).
Proof. intros Hw. unfold route_argument. rewrite no_slash by done. apply safe_spec in Hw as [Hw _]. by rewrite bool_decide_eq_false_2. Qed.

Definition block_path (id : bytes) : bytes := path_of [bs "api"; bs "v1"; bs "block"; id].
Definition transaction_path (id : bytes) : bytes := path_of [bs "api"; bs "v1"; bs "transaction"; id].
Definition address_path (address : bytes) : bytes := path_of [bs "api"; bs "v1"; bs "address"; address; bs "outputs"].

Lemma classify_block w : safe w = true -> classifyV1Route (block_path w) = (v1RouteBlock, w).
Proof.
  intros Hw. replace (block_path w) with (bs "/api/v1/block/" ++ w) by (cbn; by rewrite app_nil_r). unfold classifyV1Route.
  rewrite !bool_decide_eq_false_2 by (cbn; congruence).
  assert (HasPrefix (bs "/api/v1/block/" ++ w) (bs "/api/v1/block/") = true) as -> by (unfold HasPrefix; by rewrite take_app_length, bool_decide_eq_true_2).
  rewrite TrimPrefix_app. by apply route_safe.
Qed.
Lemma classify_transaction w : safe w = true -> classifyV1Route (transaction_path w) = (v1RouteTransaction, w).
Proof.
  intros Hw. replace (transaction_path w) with (bs "/api/v1/transaction/" ++ w) by (cbn; by rewrite app_nil_r). unfold classifyV1Route.
  rewrite !bool_decide_eq_false_2 by (cbn; congruence).
  assert (HasPrefix (bs "/api/v1/transaction/" ++ w) (bs "/api/v1/block/") = false) as -> by (unfold HasPrefix; by rewrite bool_decide_eq_false_2).
  assert (HasPrefix (bs "/api/v1/transaction/" ++ w) (bs "/api/v1/transaction/") = true) as -> by (unfold HasPrefix; by rewrite take_app_length, bool_decide_eq_true_2).
  rewrite TrimPrefix_app. by apply route_safe.
Qed.
Lemma classify_address w : safe w = true -> classifyV1Route (address_path w) = (v1RouteAddressOutputs, w).
Proof.
  intros Hw. replace (address_path w) with (bs "/api/v1/address/" ++ w ++ bs "/outputs") by (cbn; done). unfold classifyV1Route.
  rewrite !bool_decide_eq_false_2 by (cbn; congruence).
  assert (HasPrefix (bs "/api/v1/address/" ++ w ++ bs "/outputs") (bs "/api/v1/block/") = false) as -> by (unfold HasPrefix; by rewrite bool_decide_eq_false_2).
  assert (HasPrefix (bs "/api/v1/address/" ++ w ++ bs "/outputs") (bs "/api/v1/transaction/") = false) as -> by (unfold HasPrefix; by rewrite bool_decide_eq_false_2).
  assert (HasPrefix (bs "/api/v1/address/" ++ w ++ bs "/outputs") (bs "/api/v1/address/") = true) as -> by (unfold HasPrefix; by rewrite take_app_length, bool_decide_eq_true_2).
  assert (Hsuf : forall x, HasSuffix (x ++ bs "/outputs") (bs "/outputs") = true).
  { intros x. unfold HasSuffix. rewrite length_app, (proj2 (Nat.leb_le _ _)) by lia.
    rewrite Nat.add_sub, drop_app_length, bool_decide_eq_true_2 by done. done. }
  rewrite TrimPrefix_app. rewrite (app_assoc _ w), Hsuf. cbn [andb].
  assert (TrimSuffix (w ++ bs "/outputs") (bs "/outputs") = w) as ->.
  { unfold TrimSuffix. rewrite Hsuf, length_app, Nat.add_sub. apply take_app_length. }
  by apply route_safe.
Qed.

(** *** Texts of hashes, addresses and heights *)
Lemma hex_chars b c : c ∈ hex_encode b -> exists d, 0 <= d < 16 /\ c = hex_digit d.
Proof.
  induction b as [|x b IH]; [by intros ?%not_elem_of_nil|]. cbn [hex_encode flat_map app]. pose proof (b2z_range x).
  intros [->|[->|Hc]%elem_of_cons]%elem_of_cons; [exists (b2z x / 16)|exists (b2z x mod 16)|by apply IH]; (split; [mlia|done]).
Qed.
Lemma hex_all (P : byte -> bool) : forallb (fun d => P (hex_digit d)) (seqZ 0 16) = true -> forall b c, c ∈ hex_encode b -> P c = true.
Proof.
  intros Hall b c (d & Hd & ->)%hex_chars. rewrite forallb_forall in Hall. apply Hall, list_elem_of_In, elem_of_seqZ. lia.
Qed.

Lemma hash_safe id : id <> [] -> safe (hashText id) = true.
Proof.
  intros Hid. unfold safe. rewrite bool_decide_eq_false_2; [|by destruct id]. cbn [negb andb]. apply forallb_forall. intros c Hc.
  apply (hex_all safe_char eq_refl id). by apply list_elem_of_In.
Qed.
Lemma parse_hashText id : length id = 32%nat -> parseLowerHash (hashText id) = Ok id.
Proof.
  intros Hid. unfold parseLowerHash, hashText. rewrite length_hex_encode, Hid, ToLower_hex, bool_decide_eq_true_2 by done. cbn [negb orb Nat.eqb].
  by rewrite hex_decode_encode, Hid.
Qed.

Lemma address_safe `{Crypto} pkh address : DecodeAddress address = Ok pkh -> EncodeAddress pkh = address -> safe address = true.
Proof.
  intros Hd He. unfold safe. rewrite bool_decide_eq_false_2 by (intros ->; done). cbn [negb andb]. apply forallb_forall. intros c Hc%list_elem_of_In.
  rewrite <- He in Hc. destruct (address_chars pkh) as (ds & Hds & Hall & _). rewrite Hds in Hc.
  apply elem_of_reverse, list_elem_of_fmap in Hc as (d & -> & Hin). rewrite list.Forall_forall in Hall.
  apply (b58_all (fun d => safe_char (b58char d))); [vm_compute; reflexivity|by apply Hall].
Qed.

Lemma dec_digits_head fuel n acc : 0 < n < 10 ^ Z.of_nat fuel -> (0 < fuel)%nat ->
  exists c s, dec_digits fuel n acc = c :: s /\ 49 <= b2z c <= 57.
Proof.
  revert n acc. induction fuel as [|fuel IH]; intros n acc Hn Hf; [lia|]. cbn [dec_digits].
  rewrite Nat2Z.inj_succ, Z.pow_succ_r in Hn by lia. destruct (Z.ltb_spec n 10).
  - eexists _, _. split; [done|]. rewrite b2z_z2b. rewrite (Z.mod_small n 10), Z.mod_small by lia. lia.
  - destruct fuel as [|fuel]; [simpl in Hn; lia|]. apply IH; [|lia]. split; [apply Z.div_str_pos; lia|apply Z.div_lt_upper_bound; lia].
Qed.

Lemma ParseInt_dec h : 0 <= h < two63 -> ParseInt (dec_string h) = Some h.
Proof.
  intros Hh. assert (Hb : 0 <= h < 10 ^ 20) by (unfold two63 in Hh; lia).
  assert (Hd : forallb digit (dec_string h) = true) by (apply dec_digits_digits; [lia|done]).
  assert (Hv : dec_value (dec_string h) = h) by (unfold dec_value, dec_string; rewrite dec_digits_value by lia; done).
  unfold ParseInt. destruct (dec_string_nonempty h) as (c & s & E). rewrite E in *.
  assert (Hc : digit c = true) by (cbn in Hd; by apply andb_true_iff in Hd as [? _]). unfold digit in Hc.
  rewrite !bool_decide_eq_false_2 by (intros ->; done). rewrite Hd. cbn [length Nat.eqb orb negb]. rewrite Hv, Z.mul_1_l.
  rewrite bool_decide_eq_true_2; [done|]. unfold in_i64, two63 in *. lia.
Qed.

Lemma Unescape_plain s : Byte.x25 ∉ s -> Byte.x2b ∉ s -> QueryUnescape s = Some s.
Proof.
  induction s as [|c s IH]; [done|]. intros [H1 H2]%not_elem_of_cons [H3 H4]%not_elem_of_cons. cbn [QueryUnescape].
  rewrite !bool_decide_eq_false_2 by congruence. by rewrite IH.
Qed.

(** The query that pins an answer to a tip. *)
Definition tip_query (e : expectedTip) : bytes :=
  bs "expected_tip_hash=" ++ hashText (et_hash e) ++ bs "&expected_tip_height=" ++ dec_string (et_height e).

Definition query_char (c : byte) : bool :=
  negb (existsb (fun d => bool_decide (c = d)) [Byte.x25; Byte.x2b; Byte.x26; Byte.x3b; Byte.x3d]).
Lemma query_chars w : forallb query_char w = true ->
  Byte.x25 ∉ w /\ Byte.x2b ∉ w /\ Byte.x26 ∉ w /\ Byte.x3b ∉ w /\ Byte.x3d ∉ w.
Proof. intros Hw. rewrite forallb_forall in Hw. split_and!; intros Hc%list_elem_of_In; by apply Hw in Hc. Qed.

Lemma query_step_pair m ok key v : forallb query_char key = true -> forallb query_char v = true -> key <> [] -> m !! key = None ->
  query_step (m, ok) (key ++ Byte.x3d :: v) = (<[key := [v]]> m, ok).
Proof.
  intros (H1 & H2 & _ & H4 & H5)%query_chars (H6 & H7 & _ & H9 & _)%query_chars Hne Hm. unfold query_step.
  rewrite (Contains_char Byte.x3b), bool_decide_eq_false_2.
  2:{ intros [Hc|[Hc|Hc]%elem_of_cons]%elem_of_app; done. }
  rewrite bool_decide_eq_false_2 by (by destruct key). rewrite Cut_first by done. cbn [default].
  by rewrite !Unescape_plain, Hm by done.
Qed.

Lemma parse_tip_query e : length (et_hash e) = 32%nat -> 0 <= et_height e < two63 -> parseExpectedTip (tip_query e) = Ok (Some e).
Proof.
  intros Hl Hh. unfold parseExpectedTip. rewrite bool_decide_eq_false_2 by done.
  assert (Hb : 0 <= et_height e < 10 ^ 20) by (unfold two63 in Hh; lia).
  assert (Hdig : forallb digit (dec_string (et_height e)) = true) by (apply dec_digits_digits; [lia|done]).
  assert (Hhex : forallb query_char (hashText (et_hash e)) = true).
  { apply forallb_forall. intros c Hc. apply (hex_all query_char eq_refl (et_hash e)). by apply list_elem_of_In. }
  assert (Hdec : forallb query_char (dec_string (et_height e)) = true).
  { apply forallb_forall. intros c Hc. rewrite forallb_forall in Hdig. apply Hdig in Hc. unfold digit in Hc. unfold query_char. apply negb_true_iff.
    cbn [existsb]. rewrite !orb_false_iff, !bool_decide_eq_false. split_and!; try done; intros ->; done. }
  assert (Hparts : Split Byte.x26 (tip_query e)
                   = [bs "expected_tip_hash" ++ Byte.x3d :: hashText (et_hash e); bs "expected_tip_height" ++ Byte.x3d :: dec_string (et_height e)]).
  { replace (tip_query e) with ((bs "expected_tip_hash" ++ Byte.x3d :: hashText (et_hash e)) ++ Byte.x26 :: bs "expected_tip_height" ++ Byte.x3d :: dec_string (et_height e))
      by (unfold tip_query; cbn; by rewrite <- ?app_assoc).
    rewrite Split_first; [f_equal; apply Split_none|]; rewrite elem_of_app, elem_of_cons; intros [Hc|[Hc|Hc]]; try done.
    - vm_compute in Hc. repeat (apply elem_of_cons in Hc as [Hc|Hc]; [done|]). by apply not_elem_of_nil in Hc.
    - by destruct (query_chars _ Hdec) as (_ & _ & ? & _).
    - vm_compute in Hc. repeat (apply elem_of_cons in Hc as [Hc|Hc]; [done|]). by apply not_elem_of_nil in Hc.
    - by destruct (query_chars _ Hhex) as (_ & _ & ? & _). }
  unfold ParseQuery. rewrite Hparts. cbn [length foldl]. change (Z.of_nat 2 >? max_query_params) with false. cbn [foldl].
  rewrite query_step_pair by done. rewrite query_step_pair by (done || by rewrite lookup_insert_ne).
  cbn [negb orb]. rewrite !map_size_insert_None by (done || by rewrite lookup_insert_ne). rewrite map_size_empty. cbn [Nat.eqb negb].
  rewrite lookup_insert_ne, !lookup_insert_eq by done.
  destruct (dec_string_nonempty (et_height e)) as (d & ds & Ed).
  rewrite !bool_decide_eq_false_2 by (rewrite ?Ed; by destruct (et_hash e)). cbn [orb]. rewrite parse_hashText by done. cbn [mbind result_bind].
  rewrite Hdig, ParseInt_dec by done. cbn [negb].
  destruct (negb (bool_decide (dec_string (et_height e) = bs "0")) && _) eqn:Ez.
  - exfalso. apply andb_true_iff in Ez as [Hz%negb_true_iff%bool_decide_eq_false Ef].
    destruct (decide (et_height e = 0)) as [E0|E0]; [by rewrite E0 in Hz|].
    destruct (dec_digits_head 20 (et_height e) []) as (c & s & Es & Hc); [lia|lia|]. unfold dec_string in Ef. rewrite Es in Ef.
    apply orb_true_iff in Ef as [Ef|Ef]; apply Z.ltb_lt in Ef; lia.
  - rewrite (proj2 (Z.ltb_ge _ 0)) by lia. by destruct e.
Qed.
