(* ===== verification/ExplorerTheorems.v ===== *)
(** * What the explorer shows

    On a reachable chain whose transaction ids are distinct the consistency checks of the
    explorer never fail: its answers are the history of the chain.  On a chain with a
    repeated id no wallet view and no history of the payee exists.  At most four expensive
    queries run at a time, and each reply belongs to its request. *)
From S2P Require Import Prelude Text Params Crypto Pow Wire Address Merkle Chain Ledger Sanity ChainInv ChainView.
From S2P Require Import WalletView WalletViewProofs WalletSnapshot ViewTheorems Supply Toy GoStrings GoJson.
From S2P Require Import LightProofs MobileProofs Explorer ExplorerChain ExplorerProofs.

(** ** The served interface *)
Section served.
Context `{Crypto}.

Lemma New_server c s : New (Some c) = Ok s ->
  exists net, CanonicalNetworkID (Some (c_params c)) = Ok net /\ s = mkServer net (CoinbaseMaturity (c_params c)) v1MaxResponseBytes.
Proof. unfold New. intros Hn. apply bind_Ok in Hn as (net & Hnet & Hn). apply Ok_inj in Hn as <-. by exists net. Qed.

Lemma serve_block s id : length id = 32%nat ->
  serveV1 s (get_request (block_path (hashText id)) []) = AskExpensive (handleV1Block s (get_request (block_path (hashText id)) []) id).
Proof.
  intros Hl. assert (Hsafe : safe (hashText id) = true) by (apply hash_safe; by destruct id). unfold serveV1.
  unfold block_path at 1. rewrite canonical_path by (repeat constructor; done).
  change (rq_Path (get_request (block_path (hashText id)) [])) with (block_path (hashText id)). rewrite classify_block by done. cbn.
  by rewrite parse_hashText.
Qed.

Lemma serve_transaction s id : length id = 32%nat ->
  serveV1 s (get_request (transaction_path (hashText id)) [])
  = AskExpensive (handleV1Transaction s (get_request (transaction_path (hashText id)) []) id).
Proof.
  intros Hl. assert (Hsafe : safe (hashText id) = true) by (apply hash_safe; by destruct id). unfold serveV1.
  unfold transaction_path at 1. rewrite canonical_path by (repeat constructor; done).
  change (rq_Path (get_request (transaction_path (hashText id)) [])) with (transaction_path (hashText id)). rewrite classify_transaction by done. cbn.
  by rewrite parse_hashText.
Qed.

Lemma serve_address `{!CryptoLaws} s pkh query expected : length pkh = 20%nat -> parseExpectedTip query = Ok expected ->
  serveV1 s (get_request (address_path (EncodeAddress pkh)) query)
  = AskExpensive (handleV1AddressOutputs s (get_request (address_path (EncodeAddress pkh)) query) (EncodeAddress pkh) pkh expected).
Proof.
  intros Hl Hq. pose proof (address_roundtrip pkh Hl) as Hd. assert (Hsafe : safe (EncodeAddress pkh) = true) by (by apply (address_safe pkh)).
  unfold serveV1. unfold address_path at 1. rewrite canonical_path by (repeat constructor; done).
  change (rq_Path (get_request (address_path (EncodeAddress pkh)) query)) with (address_path (EncodeAddress pkh)).
  rewrite classify_address by done. cbn [get_request rq_Method rq_RawQuery]. rewrite bool_decide_eq_false_2 by done. cbn [String.eqb Ascii.eqb Bool.eqb negb].
  by rewrite Hd, bool_decide_eq_true_2, Hq.
Qed.

Lemma sequence_branch_of p c l : pow_params_ok p -> chain_inv p c -> validatedCanonicalSequenceLocked c = Ok l -> branch p (c_index c) (c_tip c) l.
Proof.
  intros Hpow Hc Hv. destruct (ci_main _ _ Hc) as (l' & Hb & _). rewrite (canonical_sequence_ok p Hpow c l' Hc Hb) in Hv. by apply Ok_inj in Hv as <-.
Qed.
End served.

(** ** Repeated transactions *)
Section repeated_ids.
Context `{Crypto} (p : Params) (c : Chain) (l : list blockIndex).
Context (Hpow : pow_params_ok p) (Hr : reachable p c) (Hl : validatedCanonicalSequenceLocked c = Ok l).

Lemma placed_outs pl : pl ∈ placed_txs l -> exists o, tx_Outs (pl_tx pl) !! 0%nat = Some o.
Proof.
  intros (n & bi & Hn & Htx & _)%placed_elem.
  pose proof (branch_entry_ok _ Hpow _ _ _ (sequence_branch_of p c l Hpow (reachable_inv p Hpow c Hr) Hl)) as Hall.
  rewrite Forall_lookup in Hall. destruct (Hall _ _ Hn) as [_ _ Hs _ _].
  apply checkBlockSanity_spec in Hs as (cb & txs & [Hb _ _ Hsh _ _]). rewrite Hb in Htx. rewrite Forall_lookup in Hsh.
  destruct (Hsh _ _ Htx) as (_ & Ho & _). destruct (tx_Outs (pl_tx pl)) as [|o outs]; [done|]. by exists o.
Qed.

Lemma view_distinct owners lim view : walletViewForOwnersLocked c owners lim = Ok view -> distinct_ids l.
Proof.
  unfold walletViewForOwnersLocked. intros Hv. apply bind_Ok in Hv as (tip & _ & Hv). rewrite Hl in Hv.
  apply bind_Ok in Hv as (l' & [= <-] & Hv). apply bind_Ok in Hv as (st & Hf & _). rewrite view_blocks in Hf.
  apply NoDup_alt. intros i j id Hi Hj. destruct (decide (i = j)) as [|Hij]; [done|]. exfalso.
  apply list_lookup_fmap_Some in Hi as (a & Ha & Hi), Hj as (b & Hb & Hj).
  destruct (placed_outs a) as [oa Hoa]; [by eapply list_elem_of_lookup_2|].
  destruct (placed_outs b) as [ob Hob]; [by eapply list_elem_of_lookup_2|].
  refine (foldM_makes_once created_key _ (view_placed_grows _ _ _) _ i j a b _ _ _ Hij Hi Hj
    (view_placed_makes _ _ _ a 0 oa Hoa) _ Hf).
  rewrite <- Ha, Hb. by eapply view_placed_makes.
Qed.
End repeated_ids.

(** C37: On every reachable chain in which two transactions have the same id, nobody can
    use a wallet and the payee has no history: the wallet view of any addresses with any
    limit fails, so do the spendable outputs of any addresses and the snapshot of any keys
    from which every payment is prepared, and the outputs of every address that both
    transactions pay in the same position cannot be listed.  Such a chain exists: block
    validation does not compare the height in a coinbase with that of its block, so a
    block can repeat an earlier coinbase ([duplicate_coinbase_accepted]). *)
Theorem repeated_id_breaks_views `{Crypto} p c l :
  pow_params_ok p -> reachable p c -> validatedCanonicalSequenceLocked c = Ok l -> ~ distinct_ids l ->
  (forall pkhs lim view, WalletViewForPKHs c pkhs lim <> Ok view) /\
  (forall pkhs outputs, SpendableOutputsForPKHs c pkhs <> Ok outputs) /\
  (forall network tip keys snapshot, snapshotWithKeys c network tip keys <> Ok snapshot) /\
  (forall i j a b n oa ob outputs, i <> j -> placed_txs l !! i = Some a -> placed_txs l !! j = Some b ->
     pl_id a = pl_id b -> tx_Outs (pl_tx a) !! n = Some oa -> tx_Outs (pl_tx b) !! n = Some ob ->
     out_PubKeyHash oa = out_PubKeyHash ob -> ConfirmedOutputsForPKH c (out_PubKeyHash oa) <> Ok outputs).
Proof.
  intros Hpow Hr Hl Hd.
  assert (Hview : forall owners lim view, walletViewForOwnersLocked c owners lim <> Ok view)
    by (intros owners lim view Hv; apply Hd; exact (view_distinct p c l Hpow Hr Hl _ _ _ Hv)).
  assert (Hspend : forall pkhs outputs, SpendableOutputsForPKHs c pkhs <> Ok outputs).
  { intros pkhs outputs Hs. unfold SpendableOutputsForPKHs in Hs. apply bind_Ok in Hs as (owners & _ & Hs).
    apply bind_Ok in Hs as (view & Hv & _). by apply Hview in Hv. }
  split_and!; [|done| |].
  - intros pkhs lim view Hs. unfold WalletViewForPKHs in Hs. destruct (_ || _); [done|].
    apply bind_Ok in Hs as (owners & _ & Hv). by apply Hview in Hv.
  - intros network tip keys snapshot Hs. unfold snapshotWithKeys in Hs. destruct (_ =? _)%nat; [done|].
    apply bind_Ok in Hs as (outputs & Hs & _). by apply Hspend in Hs.
  - intros i j a b n oa ob outputs Hij Hi Hj Hid Hoa Hob Ho Hs. unfold ConfirmedOutputsForPKH in Hs.
    apply bind_Ok in Hs as (tip & _ & Hs). rewrite Hl in Hs. apply bind_Ok in Hs as (l' & [= <-] & Hs).
    apply bind_Ok in Hs as (st & Hf & _). rewrite scan_blocks in Hf.
    refine (foldM_makes_once scanned_key _ (scan_placed_grows _ _ _) _ i j a b _ _ _ Hij Hi Hj
      (scan_placed_makes _ _ _ a n oa Hoa eq_refl) _ Hf).
    rewrite Hid. by eapply scan_placed_makes.
Qed.

Module RepeatedToy.
Definition blocks : list blockIndex :=
  match validatedCanonicalSequenceLocked DuplicateCoinbase.c2 with Ok l => l | Err _ => [] end.
Lemma repeated_sequence : validatedCanonicalSequenceLocked DuplicateCoinbase.c2 = Ok blocks.
Proof. vm_compute. reflexivity. Qed.
(** The coinbase of the first block, and its copy in the second. *)
Definition first : placed := nth 1 (placed_txs blocks) (mkPlaced 0 [] 0 (Toy.coinbase 0 Toy.bob)).
Definition second : placed := nth 2 (placed_txs blocks) (mkPlaced 0 [] 0 (Toy.coinbase 0 Toy.bob)).
Lemma not_distinct : ~ distinct_ids blocks.
Proof.
  intros Hd. pose proof (proj1 (NoDup_alt _) Hd 1%nat 2%nat (Tx_ID (Toy.coinbase 1 Toy.alice))) as Heq.
  enough (1%nat = 2%nat) by done. apply Heq; vm_compute; reflexivity.
Qed.
End RepeatedToy.

Lemma repeated_id_breaks_views_witness :
  (forall pkhs lim view, WalletViewForPKHs DuplicateCoinbase.c2 pkhs lim <> Ok view) /\
  (forall outputs, ConfirmedOutputsForPKH DuplicateCoinbase.c2 (Toy.pkh_of Toy.alice) <> Ok outputs).
Proof.
  destruct (repeated_id_breaks_views RegTest DuplicateCoinbase.c2 RepeatedToy.blocks pow_params_ok_reg
    DuplicateCoinbase.c2_reachable RepeatedToy.repeated_sequence RepeatedToy.not_distinct) as (Hview & _ & _ & Hout).
  split; [exact Hview|]. intros outputs.
  apply (Hout 1%nat 2%nat RepeatedToy.first RepeatedToy.second 0%nat
    (mkTxOut (SubsidyAt 1) (Toy.pkh_of Toy.alice)) (mkTxOut (SubsidyAt 1) (Toy.pkh_of Toy.alice)) outputs);
    [discriminate| | | | | |reflexivity]; vm_compute; reflexivity.
Defined.

(** C8: On every reachable chain whose transactions have distinct ids,
    [GET /api/v1/address/.../outputs] never finds its snapshot inconsistent: it answers with
    the complete history of the address, each output with its place, its confirmations and
    its confirmed spender, in chain order (or with the size error of [writeV1]); and the
    outputs shown without a spender are exactly the entries of the UTXO set that pay the
    address. *)
Theorem explorer_outputs_exact `{CryptoLaws} p c s l pkh :
  pow_params_ok p -> reachable p c -> New (Some c) = Ok s -> validatedCanonicalSequenceLocked c = Ok l -> distinct_ids l ->
  length pkh = 20%nat ->
  let r := get_request (address_path (EncodeAddress pkh)) [] in
  let hist := address_history p pkh (bi_height (c_tip c)) (placed_txs l) in
  exists query, serveV1 s r = AskExpensive query /\
    query c = writeV1 s r 200 (v1AddressResponse (s_network s) (EncodeAddress pkh) (tip_shown c) (shown_output <$> hist)) /\
    forall op e, c_utxo c !! op = Some e /\ ue_PKH e = pkh <->
      exists o, o ∈ hist /\ co_SpentBy o = None /\ outpoint_of o = op /\ co_AmountUnits o = ue_Value e /\
        co_BlockHeight o = ue_Height e /\ co_Coinbase o = ue_Coinbase e /\ ue_PKH e = pkh.
Proof.
  intros Hpow Hreach Hnew Hseq Hd Hl r hist. pose proof (reachable_inv _ Hpow _ Hreach) as Hinv.
  destruct (New_server _ _ Hnew) as (net & Hnet & Hs). rewrite (ci_params _ _ Hinv) in *.
  pose proof (sequence_branch_of p c l Hpow Hinv Hseq) as Hb. eexists. split; [by apply serve_address|]. split.
  - rewrite (handleV1AddressOutputs_answer p c l s net) by done. rewrite decide_True by done. by rewrite Hs.
  - intros op e. apply (address_outputs_unspent p c l); done.
Qed.

(** A client reads a tip and asks for the outputs of an address
    pinned to it.  The query text reads back as that tip, and at whatever state the chain
    is when the query runs, the answer is the history of that state if its tip is the
    pinned one, and otherwise a conflict that names the current tip: answers with a common
    pinned tip describe one chain. *)
Theorem pinned_outputs `{CryptoLaws} p c0 c s l pkh :
  pow_params_ok p -> reachable p c0 -> reachable p c -> New (Some c0) = Ok s -> validatedCanonicalSequenceLocked c = Ok l ->
  distinct_ids l -> length pkh = 20%nat -> bi_height (c_tip c0) < two63 ->
  let pin := mkExpected (bi_id (c_tip c0)) (bi_height (c_tip c0)) in
  let r := get_request (address_path (EncodeAddress pkh)) (tip_query pin) in
  parseExpectedTip (tip_query pin) = Ok (Some pin) /\
  exists query, serveV1 s r = AskExpensive query /\
    query c = if decide (bi_id (c_tip c0) = bi_id (c_tip c) /\ bi_height (c_tip c0) = bi_height (c_tip c))
              then writeV1 s r 200 (v1AddressResponse (s_network s) (EncodeAddress pkh) (tip_shown c)
                     (shown_output <$> address_history p pkh (bi_height (c_tip c)) (placed_txs l)))
              else writeV1 s r 409 (v1TipMismatchResponse (s_network s) (EncodeAddress pkh) (tip_shown c)).
Proof.
  intros Hpow Hr0 Hr Hnew Hseq Hd Hl Hh pin r. pose proof (reachable_inv _ Hpow _ Hr0) as Hinv0. pose proof (reachable_inv _ Hpow _ Hr) as Hinv.
  destruct (New_server _ _ Hnew) as (net & Hnet & Hs). rewrite (ci_params _ _ Hinv0) in *.
  pose proof (sequence_branch_of p c l Hpow Hinv Hseq) as Hb.
  assert (Hq : parseExpectedTip (tip_query pin) = Ok (Some pin)).
  { apply parse_tip_query; cbn.
    - rewrite (eo_id p _ (inv_entry_ok p Hpow c0 _ _ Hinv0 (ci_tip _ _ Hinv0))). apply length_SHA256d.
    - destruct (ci_main _ _ Hinv0) as (l0 & Hb0 & _). pose proof (branch_height_nonneg _ _ _ _ Hb0). lia. }
  split; [done|]. eexists. split; [by apply serve_address|]. rewrite (handleV1AddressOutputs_answer p c l s net) by done.
  rewrite Hs. apply decide_ext. done.
Qed.

(** Block and transaction lookups answer what the chain holds: a
    block is found exactly when it is indexed, with its height, and is canonical exactly
    when its id is on the main chain; a transaction is reported confirmed at the first block
    of the chain that holds it, with its confirmations, else in the mempool exactly when it
    is there.  The consistency checks never answer [chain_unavailable]. *)
Theorem explorer_lookups_exact `{Crypto} p c s l id :
  pow_params_ok p -> reachable p c -> New (Some c) = Ok s -> validatedCanonicalSequenceLocked c = Ok l -> length id = 32%nat ->
  let rb := get_request (block_path (hashText id)) [] in
  let rt := get_request (transaction_path (hashText id)) [] in
  exists block transaction, serveV1 s rb = AskExpensive block /\ serveV1 s rt = AskExpensive transaction /\
    block c = match c_index c !! id with
              | None => writeV1 s rb 404 (v1BlockResponse (s_network s) false (mkV1Block (hashText id) None false) (tip_shown c))
              | Some bi => writeV1 s rb 200 (v1BlockResponse (s_network s) true
                             (mkV1Block (hashText id) (Some (bi_height bi)) (bool_decide (id ∈ c_mainIDs c))) (tip_shown c))
              end /\
    exists status anchor confirmations, transaction_answer c l id status anchor confirmations /\
      transaction c = writeV1 s rt 200 (v1TransactionResponse (s_network s) (hashText id) status anchor confirmations (tip_shown c)).
Proof.
  intros Hpow Hreach Hnew Hseq Hl rb rt. pose proof (reachable_inv _ Hpow _ Hreach) as Hinv.
  destruct (New_server _ _ Hnew) as (net & Hnet & Hs). rewrite (ci_params _ _ Hinv) in *.
  pose proof (sequence_branch_of p c l Hpow Hinv Hseq) as Hb.
  eexists _, _. split; [by apply serve_block|]. split; [by apply serve_transaction|].
  assert (Hnets : s_network s = net) by by rewrite Hs. rewrite Hnets. split.
  - by apply (handleV1Block_answer p c l s net).
  - destruct (handleV1Transaction_answer p c l s net Hpow Hinv Hb Hnet Hs rt id) as (st & b & n & Ha & Ht). by exists st, b, n.
Qed.

(** C9: The page of an address always renders on such a chain; its
    balance is the sum of the outputs [UTXOsForPKH] offers for spending, and each of its
    rows shows for one transaction the sum it paid to the address and the sum of the
    address it spent. *)
Theorem explorer_page_balance `{CryptoLaws} p c s l pkh :
  pow_params_ok p -> reachable p c -> New (Some c) = Ok s -> validatedCanonicalSequenceLocked c = Ok l -> distinct_ids l ->
  length pkh = 20%nat ->
  let hist := address_history p pkh (bi_height (c_tip c)) (placed_txs l) in
  exists d, handleAddress s (bs "/address/" ++ EncodeAddress pkh) c = AddressPage d /\
    ad_Balance d = bs (coins (utxo_total (UTXOsForPKH c pkh))) /\
    forall row, row ∈ ad_Transactions d -> exists id, ar_TxID row = hashText id /\
      ar_receivedUnits row = received hist id /\ ar_sentUnits row = sent hist id.
Proof.
  intros Hpow Hreach Hnew Hseq Hd Hl hist. pose proof (reachable_inv _ Hpow _ Hreach) as Hinv.
  destruct (New_server _ _ Hnew) as (net & Hnet & Hs). rewrite (ci_params _ _ Hinv) in *.
  pose proof (sequence_branch_of p c l Hpow Hinv Hseq) as Hb.
  destruct (handleAddress_answer p c l s net Hpow Hinv Hb Hnet Hs Hd (EncodeAddress pkh) pkh (address_roundtrip _ Hl) eq_refl)
    as (d & Hp & _ & Hbal & Hrows). by exists d.
Qed.

(** ** Examples *)
Module ExplorerToy.
Definition server : Server := mkServer RegTestMachineID (CoinbaseMaturity RegTest) v1MaxResponseBytes.
Definition blocks : list blockIndex := match validatedCanonicalSequenceLocked Toy.c3 with Ok l => l | Err _ => [] end.
Lemma served : New (Some Toy.c3) = Ok server.
Proof. vm_compute. reflexivity. Qed.
Lemma sequence : validatedCanonicalSequenceLocked Toy.c3 = Ok blocks.
Proof. vm_compute. reflexivity. Qed.
Lemma blocks_distinct : distinct_ids blocks.
Proof. apply (bool_decide_unpack _). vm_compute. exact I. Qed.
Definition bob_history : list ConfirmedAddressOutput :=
  address_history RegTest (Toy.pkh_of Toy.bob) (bi_height (c_tip Toy.c3)) (placed_txs blocks).
End ExplorerToy.

Lemma explorer_outputs_exact_witness : exists query,
  serveV1 ExplorerToy.server (get_request (address_path (EncodeAddress (Toy.pkh_of Toy.bob))) []) = AskExpensive query /\
  rp_Status (query Toy.c3) = 200 /\ length ExplorerToy.bob_history = 3%nat.
Proof.
  destruct (explorer_outputs_exact RegTest Toy.c3 ExplorerToy.server ExplorerToy.blocks (Toy.pkh_of Toy.bob)
              pow_params_ok_reg Toy.c3_reachable ExplorerToy.served ExplorerToy.sequence ExplorerToy.blocks_distinct)
    as (query & Hserve & Hq & _); [vm_compute; reflexivity|].
  exists query. split; [exact Hserve|]. split; [|vm_compute; reflexivity]. rewrite Hq. vm_compute. reflexivity.
Defined.

Lemma pinned_outputs_witness : exists query,
  serveV1 ExplorerToy.server (get_request (address_path (EncodeAddress (Toy.pkh_of Toy.bob)))
    (tip_query (mkExpected (bi_id (c_tip Toy.c2)) (bi_height (c_tip Toy.c2))))) = AskExpensive query /\
  rp_Status (query Toy.c3) = 409.
Proof.
  destruct (pinned_outputs RegTest Toy.c2 Toy.c3 ExplorerToy.server ExplorerToy.blocks (Toy.pkh_of Toy.bob)
              pow_params_ok_reg Toy.toy_c2_reachable Toy.c3_reachable) as (_ & query & Hserve & Hq).
  - vm_compute. reflexivity.
  - exact ExplorerToy.sequence.
  - exact ExplorerToy.blocks_distinct.
  - vm_compute. reflexivity.
  - vm_compute. reflexivity.
  - exists query. split; [exact Hserve|]. rewrite Hq. vm_compute. reflexivity.
Defined.

Lemma explorer_lookups_exact_witness : exists block transaction,
  serveV1 ExplorerToy.server (get_request (block_path (hashText (bi_id (c_tip Toy.c2)))) []) = AskExpensive block /\
  serveV1 ExplorerToy.server (get_request (transaction_path (hashText (bi_id (c_tip Toy.c2)))) []) = AskExpensive transaction /\
  rp_Status (block Toy.c3) = 200.
Proof.
  destruct (explorer_lookups_exact RegTest Toy.c3 ExplorerToy.server ExplorerToy.blocks (bi_id (c_tip Toy.c2))
              pow_params_ok_reg Toy.c3_reachable ExplorerToy.served ExplorerToy.sequence) as (block & transaction & Hb & Ht & Hq & _);
    [vm_compute; reflexivity|].
  exists block, transaction. split; [exact Hb|]. split; [exact Ht|]. rewrite Hq. vm_compute. reflexivity.
Defined.

Lemma explorer_page_balance_witness : exists d,
  handleAddress ExplorerToy.server (bs "/address/" ++ EncodeAddress (Toy.pkh_of Toy.alice)) Toy.c3 = AddressPage d /\
  ad_Balance d = bs (coins (utxo_total (UTXOsForPKH Toy.c3 (Toy.pkh_of Toy.alice)))).
Proof.
  destruct (explorer_page_balance RegTest Toy.c3 ExplorerToy.server ExplorerToy.blocks (Toy.pkh_of Toy.alice)
              pow_params_ok_reg Toy.c3_reachable ExplorerToy.served ExplorerToy.sequence ExplorerToy.blocks_distinct)
    as (d & Hd & Hb & _); [vm_compute; reflexivity|]. exists d. split; [exact Hd|exact Hb].
Defined.

(** ** Query slots *)
Definition holds_slot (ph : request_phase) : nat := match ph with SlotHeld _ _ => 1 | _ => 0 end.
Definition admitted (st : slots) : nat := sum_list_with holds_slot (sl_requests st).

Lemma sum_list_insert {A} (f : A -> nat) l n x y : l !! n = Some x ->
  (sum_list_with f (<[n := y]> l) + f x = sum_list_with f l + f y)%nat.
Proof.
  revert n. induction l as [|a l IH]; intros n Hn; [done|]. destruct n as [|n]; [cbn in Hn; simplify_eq; cbn; lia|].
  specialize (IH n Hn). change (<[S n := y]> (a :: l)) with (a :: <[n := y]> l). cbn [sum_list_with]. lia.
Qed.

Section slot_facts.
Context `{Crypto} (s : Server) (p : Params).

(** Request [n], which is [r], got [reply] in one of the states [past]: its refusal in a
    state where it was waiting and all slots were taken, or the answer of its own query
    on the chain of a state where it held a slot. *)
Definition answered (past : list slots) (n : nat) (r : v1_request) (reply : v1_reply) : Prop :=
  exists st0 query, st0 ∈ past /\ serveV1 s r = AskExpensive query /\ reachable p (sl_chain st0) /\
    (sl_requests st0 !! n = Some (Arrived r query) /\ admitted st0 = v1ExpensiveQueryLimit /\
       reply = writeV1Error s r 503 "busy" \/
     sl_requests st0 !! n = Some (SlotHeld r query) /\ reply = query (sl_chain st0)).
Definition phase_request (ph : request_phase) : v1_request :=
  match ph with Arrived r _ | SlotHeld r _ | Finished r _ => r end.
Definition phase_ok (past : list slots) (n : nat) (ph : request_phase) : Prop :=
  match ph with
  | Arrived r query | SlotHeld r query => serveV1 s r = AskExpensive query
  | Finished r None => True
  | Finished r (Some reply) => answered past n r reply
  end.

(** Everything known after a run: the slots taken are counted, the chain is reachable,
    every phase is explained by the run and requests keep their identity. *)
Record slots_ok (past : list slots) (st : slots) : Prop := {
  so_count : sl_expensive st = admitted st;
  so_limit : (admitted st <= v1ExpensiveQueryLimit)%nat;
  so_chain : reachable p (sl_chain st);
  so_phases : forall n ph, sl_requests st !! n = Some ph -> phase_ok past n ph;
  so_same : forall st0 n ph0, st0 ∈ past -> sl_requests st0 !! n = Some ph0 ->
    exists ph, sl_requests st !! n = Some ph /\ phase_request ph = phase_request ph0;
}.

Lemma phase_ok_next past st n ph : phase_ok past n ph -> phase_ok (st :: past) n ph.
Proof.
  destruct ph as [| |r [reply|]]; try done. intros (st0 & query & Hin & Hrest). exists st0, query.
  split; [by right|done].
Qed.

Lemma so_same_next past st st' : slots_ok past st ->
  (forall n ph0, sl_requests st !! n = Some ph0 ->
     exists ph, sl_requests st' !! n = Some ph /\ phase_request ph = phase_request ph0) ->
  forall st0 n ph0, st0 ∈ st :: past -> sl_requests st0 !! n = Some ph0 ->
    exists ph, sl_requests st' !! n = Some ph /\ phase_request ph = phase_request ph0.
Proof.
  intros Hok Hstep st0 n ph0 Hin Hn. apply elem_of_cons in Hin as [->|Hin]; [by apply Hstep|].
  destruct (so_same _ _ Hok st0 n ph0 Hin Hn) as (ph1 & Hn1 & <-).
  by apply Hstep.
Qed.

Lemma set_request_ok past st n ph0 ph k : slots_ok past st -> sl_requests st !! n = Some ph0 ->
  phase_ok (st :: past) n ph -> phase_request ph = phase_request ph0 ->
  (k + holds_slot ph0 = sl_expensive st + holds_slot ph)%nat -> (k <= v1ExpensiveQueryLimit)%nat ->
  slots_ok (st :: past) (set_request st n k ph).
Proof.
  intros Hok Hn Hph Hsame Hk Hlim. destruct (Hok) as [Hc Hl Hr Hp Hi].
  pose proof (sum_list_insert holds_slot _ _ _ ph Hn) as Hsum. apply lookup_lt_Some in Hn as Hlt.
  assert (k = admitted (set_request st n k ph)) as Hadm by (unfold admitted in *; cbn in *; lia).
  split; [done|by rewrite <- Hadm|done| |refine (so_same_next past st _ Hok _)]; cbn [set_request sl_requests].
  - intros m ph1 [[-> [<- _]]|[_ Hm]]%list_lookup_insert_Some; [done|]. by apply phase_ok_next, Hp.
  - intros m ph1 Hm. destruct (decide (n = m)) as [<-|Hne].
    + exists ph. split; [by apply list_lookup_insert_eq|congruence].
    + exists ph1. by rewrite list_lookup_insert_ne.
Qed.

Lemma holder_admitted st n r query :
  sl_requests st !! n = Some (SlotHeld r query) -> (1 <= admitted st)%nat.
Proof. intros Hn. unfold admitted. rewrite <- (take_drop_middle _ _ _ Hn), sum_list_with_app. cbn. lia. Qed.

Lemma slot_step_ok past st st' : slots_ok past st -> slot_step s st st' -> slots_ok (st :: past) st'.
Proof.
  intros Hok Hstep. destruct (Hok) as [Hc Hl Hr Hp Hi].
  destruct Hstep as [st r query Hs|st o|st n r query Hn Hlt|st n r query Hn|st n r query Hn Hge|st n r query Hn|st n r query Hn];
    try (pose proof (Hp _ _ Hn) as Hs; cbn in Hs); try (pose proof (holder_admitted _ _ _ _ Hn));
    try (eapply set_request_ok; [done|exact Hn| |done|cbn; lia|lia]); try done.
  - split; [| |done| |refine (so_same_next past st _ Hok _)]; cbn [sl_expensive sl_chain sl_requests].
    1,2: unfold admitted in *; cbn; rewrite sum_list_with_app; cbn; lia.
    + intros n ph [Hn|[_ Hn]]%lookup_app_Some; [by apply phase_ok_next, Hp|].
      apply list_lookup_singleton_Some in Hn as [_ <-]. done.
    + intros n ph Hn. exists ph. split; [by apply lookup_app_l_Some|done].
  - split; [done|done|by apply reach_op|by intros; apply phase_ok_next, Hp|refine (so_same_next past st _ Hok _)]. eauto.
  - exists st, query. split; [by left|]. split; [done|]. split; [done|]. left. split_and!; [done|lia|done].
  - exists st, query. split; [by left|]. split; [done|]. split; [done|]. by right.
Qed.

Lemma slot_run_ok c past st : reachable p c -> slot_run s c past st -> slots_ok past st.
Proof.
  intros Hc. induction 1 as [|past st st' _ IH Hstep]; [|by eapply slot_step_ok].
  split; cbn; [done|lia|done|by intros n ph Hn|by intros st0 n ph0 Hin%not_elem_of_nil].
Qed.
End slot_facts.

(** C30: Whatever requests arrive, are cancelled or answered while the
    chain moves on: at most four queries are admitted at a time and every one of them can
    finish and give its slot back.  A request keeps its identity through the run, and
    when it was answered there was an earlier state of this run in which either it was
    waiting while four others held the slots, and the reply is its refusal as busy, or it
    held a slot itself, and the reply is the answer of the query of this very request on
    the chain of that state. *)
Theorem query_slots `{Crypto} s p c past st :
  reachable p c -> slot_run s c past st ->
  (admitted st <= v1ExpensiveQueryLimit)%nat /\
  (forall n r query, sl_requests st !! n = Some (SlotHeld r query) ->
     exists st', slot_step s st st' /\ sl_requests st' !! n = Some (Finished r (Some (query (sl_chain st)))) /\
       (sl_expensive st' < sl_expensive st)%nat) /\
  (forall st0 n ph0, st0 ∈ past -> sl_requests st0 !! n = Some ph0 ->
     exists ph, sl_requests st !! n = Some ph /\ phase_request ph = phase_request ph0) /\
  (forall n r reply, sl_requests st !! n = Some (Finished r (Some reply)) ->
     exists st0 query, st0 ∈ past /\ serveV1 s r = AskExpensive query /\ reachable p (sl_chain st0) /\
       (sl_requests st0 !! n = Some (Arrived r query) /\ admitted st0 = v1ExpensiveQueryLimit /\
          reply = writeV1Error s r 503 "busy" \/
        sl_requests st0 !! n = Some (SlotHeld r query) /\ reply = query (sl_chain st0))).
Proof.
  intros Hr Hrun. destruct (slot_run_ok s p c past st Hr Hrun) as [Hc Hl Hch Hp Hi].
  split; [done|]. split; [|split; [exact Hi|]].
  - intros n r query Hn. eexists. split; [by eapply slot_query|]. apply lookup_lt_Some in Hn as Hlt.
    split; [by apply list_lookup_insert_eq|]. apply holder_admitted in Hn. cbn. lia.
  - intros n r reply Hn. exact (Hp _ _ Hn).
Qed.

(** A request arrives, takes a slot and is answered. *)
Module SlotToy.
Definition r : v1_request := get_request (transaction_path (hashText (Tx_ID Toy.payment))) [].
Definition query : Chain -> v1_reply := handleV1Transaction ExplorerToy.server r (Tx_ID Toy.payment).
Definition past : list slots :=
  [mkSlots 1 Toy.c2 [SlotHeld r query]; mkSlots 0 Toy.c2 [Arrived r query]; mkSlots 0 Toy.c2 []].
Definition last : slots := mkSlots 0 Toy.c2 [Finished r (Some (query Toy.c2))].
Lemma run : slot_run ExplorerToy.server Toy.c2 past last.
Proof.
  apply slot_next; [apply slot_next; [apply slot_next; [apply slot_start|]|]|].
  - apply (slot_arrive _ (mkSlots 0 Toy.c2 [])). apply serve_transaction. vm_compute. reflexivity.
  - apply (slot_take _ (mkSlots 0 Toy.c2 [Arrived r query]) 0 r query); [reflexivity|unfold v1ExpensiveQueryLimit; cbn; lia].
  - apply (slot_query _ (mkSlots 1 Toy.c2 [SlotHeld r query]) 0 r query). reflexivity.
Qed.
End SlotToy.

Lemma query_slots_witness : exists st0 query, st0 ∈ SlotToy.past /\
  serveV1 ExplorerToy.server SlotToy.r = AskExpensive query /\ SlotToy.query Toy.c2 = query (sl_chain st0).
Proof.
  destruct (query_slots ExplorerToy.server RegTest Toy.c2 SlotToy.past SlotToy.last Toy.toy_c2_reachable SlotToy.run)
    as (_ & _ & _ & Hreply).
  destruct (Hreply 0%nat SlotToy.r (SlotToy.query Toy.c2) eq_refl)
    as (st0 & query & Hin & Hs & _ & [(Hn & Hfull & _)|(_ & Hq)]); exists st0, query.
  - split; [exact Hin|]. split; [exact Hs|]. exfalso. revert Hfull. clear -Hin.
    repeat (apply elem_of_cons in Hin as [->|Hin]; [unfold v1ExpensiveQueryLimit; cbn; discriminate|]).
    by apply not_elem_of_nil in Hin.
  - exact (conj Hin (conj Hs Hq)).
Defined.
