(* ===== verification/Desktop.v ===== *)
(** * The desktop wallet server (desktop/server.go, wallet_features.go, types.go,
    server_miner_full.go, server_miner_wallet.go, assets_common.go, assets_full.go)

    The HTTP server on a loopback address behind the desktop wallet: one session per
    launch, authorisation of every request, and the previews of payments that wait for a
    confirmation.

    Requests are handled concurrently and share the tables behind the lock [mu].  A handler
    is a [task]: a tree of its atomic parts, which are the sections under the lock, the
    readings of the clock, and the calls of the wallet service (the interfaces of types.go).
    A request carries what net/http and mime extract from it; a response body is the value
    that is encoded, not its text.  The desktop service itself is whatever answers the
    calls. *)
From S2P Require Import Prelude Text Params Crypto Wire Address Chain P2p GoStrings GoJson.
From S2P Require Import Explorer.

(** ** Data of the interface (types.go) *)
Record Status := mkStatus {
  ds_Version : bytes; ds_Network : bytes; ds_Mode : bytes; ds_WalletExists : bool; ds_WalletVersion : Z;
  ds_NeedsUnlock : bool; ds_WalletPath : bytes; ds_Addresses : list bytes; ds_BalanceUnits : Z; ds_ImmatureUnits : Z;
  ds_SpendableOutputCount : Z; ds_CleanupAvailable : bool; ds_CleanupRecommended : bool; ds_BalanceAvailable : bool;
  ds_Height : Z; ds_TipHash : bytes; ds_PeerCount : Z; ds_SyncState : bytes; ds_SendAvailable : bool;
  ds_MiningAvailable : bool }.
Record RecoveryWalletCreateRequest := mkCreateRequest { rc_Password : bytes }.
Record RecoveryWalletRestoreRequest := mkRestoreRequest { rr_Password : bytes; rr_RecoveryPhrase : bytes }.
Record RecoveryWalletUnlockRequest := mkUnlockRequest { ru_Password : bytes }.
Record RecoveryWalletCreateResult := mkCreateResult { rc_Status : Status; rc_RecoveryPhrase : bytes }.
Record RecoveryPhraseResult := mkPhraseResult { rp_RecoveryPhrase : bytes }.
Record AddressResult := mkAddressResult { ad_Address : bytes }.
Record BackupRequest := mkBackupRequest { bk_Destination : bytes }.
Record BackupResult := mkBackupResult { br_Destination : bytes }.
Record SendRequest := mkSendRequest { sq_Destination : bytes; sq_Amount : bytes; sq_Fee : bytes }.
Record MaxSendRequest := mkMaxSendRequest { mq_Destination : bytes; mq_Fee : bytes }.
Record CleanupRequest := mkCleanupRequest { cq_Fee : bytes }.
Record PendingRequest := mkPendingRequest { pq_PendingID : bytes }.
Record SendPreview := mkSendPreview {
  sv_PendingID : bytes; sv_Destination : bytes; sv_AmountUnits : Z; sv_FeeUnits : Z; sv_TotalUnits : Z; sv_TxID : bytes;
  sv_SelectedInputs : list bytes; sv_ChainHeight : Z; sv_ExpiresAtUnix : Z; sv_ConfirmationCode : bytes }.
Record SendResult := mkSendResult { sr_TxID : bytes; sr_Status : bytes; sr_PeerWrites : Z }.
Record CleanupPreview := mkCleanupPreview {
  cv_PendingID : bytes; cv_Address : bytes; cv_AmountUnits : Z; cv_FeeUnits : Z; cv_InputCount : Z; cv_MoreAvailable : bool;
  cv_TxID : bytes; cv_ChainHeight : Z; cv_ExpiresAtUnix : Z; cv_ConfirmationCode : bytes }.
Record ActivityItem := mkActivityItem {
  ai_TxID : bytes; ai_Kind : bytes; ai_Status : bytes; ai_NetUnits : Z; ai_BlockHeight : Z; ai_Confirmations : Z;
  ai_BlocksUntilMature : Z }.
Record ActivityResult := mkActivityResult { ar_Height : Z; ar_Items : list ActivityItem }.
Record MinerStartRequest := mkMinerStart { mn_Workers : Z; mn_Worker : bytes }.
(** The two hash rates are the bits of their floating-point numbers. *)
Record MinerStatus := mkMinerStatus {
  ms_Available : bool; ms_WalletReady : bool; ms_State : bytes; ms_Address : bytes; ms_Worker : bytes; ms_Workers : Z;
  ms_LogicalCPUs : Z; ms_CurrentHashrate : Z; ms_AverageHashrate : Z; ms_TotalHashes : Z; ms_ElapsedSeconds : Z;
  ms_Jobs : Z; ms_Reconnects : Z; ms_MiningMode : bytes; ms_PoolFeeBPS : Z; ms_SharesAccepted : Z; ms_BlocksAccepted : Z;
  ms_Height : Z; ms_LastBlockID : bytes; ms_LastShareSequence : Z; ms_LastError : bytes; ms_RetryInSeconds : Z }.

(** The methods of the service and of its optional interfaces, with their arguments. *)
Inductive call :=
  | CallStatus | CallCreateWallet | CallNewAddress | CallBackup (destination : bytes)
  | CallPreviewSend (q : SendRequest) | CallConfirmSend (pendingID : bytes)
  | CallActivity | CallPreviewMaxSend (q : MaxSendRequest) | CallPreviewCleanup (q : CleanupRequest)
  | CallConfirmCleanup (pendingID : bytes) | CallCancelPreview (pendingID : bytes)
  | CallCreateRecoveryWallet (q : RecoveryWalletCreateRequest) | CallRestoreRecoveryWallet (q : RecoveryWalletRestoreRequest)
  | CallUnlockRecoveryWallet (q : RecoveryWalletUnlockRequest) | CallRecoveryPhrase (q : RecoveryWalletUnlockRequest)
  | CallLockRecoveryWallet
  | CallMinerStatus | CallStartMiner (q : MinerStartRequest) | CallStopMiner.

(** What a method returns beside its error. *)
Definition data (c : call) : Type :=
  match c with
  | CallStatus | CallCreateWallet | CallRestoreRecoveryWallet _ | CallUnlockRecoveryWallet _ | CallLockRecoveryWallet => Status
  | CallNewAddress => AddressResult
  | CallBackup _ => BackupResult
  | CallPreviewSend _ | CallPreviewMaxSend _ => SendPreview
  | CallConfirmSend _ | CallConfirmCleanup _ => SendResult
  | CallActivity => ActivityResult
  | CallPreviewCleanup _ => CleanupPreview
  | CallCancelPreview _ => unit
  | CallCreateRecoveryWallet _ => RecoveryWalletCreateResult
  | CallRecoveryPhrase _ => RecoveryPhraseResult
  | CallMinerStatus | CallStartMiner _ | CallStopMiner => MinerStatus
  end.

(** What [errors.As] finds in an error of the service: a [PublicError], or none. *)
Record PublicError := mkPublicError { pe_HTTPStatus : Z; pe_Code : bytes; pe_Message : bytes }.
Definition outcome (c : call) : Type := data c + option PublicError.

(** ** Responses *)
Inductive payload :=
  | StatusWithToken (status : Status) (csrf : bytes)
  | DataOf (c : call) (d : data c)
  | Cancelled.
Record Cookie := mkCookie {
  ck_Name : bytes; ck_Value : bytes; ck_Path : bytes; ck_HttpOnly : bool; ck_SameSiteStrict : bool; ck_MaxAge : Z; ck_Expires : Z }.
Inductive body :=
  | ErrorBody (code message : bytes)
  | DataBody (p : payload)
  | FileBody (contentType content : bytes)
  | SeeOther (location : bytes) (cookie : Cookie).
Record answer := mkAnswer { an_Status : Z; an_Body : body }.

Definition securityHeaders : list (string * string) :=
  [("Cache-Control", "no-store");
   ("Content-Security-Policy", "default-src 'self'; img-src 'self' data:; style-src 'self'; script-src 'self'; connect-src 'self'; object-src 'none'; worker-src 'none'; frame-ancestors 'none'; base-uri 'none'; form-action 'self'; require-trusted-types-for 'script'; trusted-types 'none'");
   ("Cross-Origin-Opener-Policy", "same-origin"); ("Cross-Origin-Resource-Policy", "same-origin");
   ("Permissions-Policy", "camera=(), microphone=(), geolocation=(), payment=(), usb=()");
   ("Referrer-Policy", "no-referrer"); ("X-Content-Type-Options", "nosniff"); ("X-Frame-Options", "DENY")]%string.

(** ** Tasks *)
Record session := mkSession { se_token : bytes; se_csrf : bytes; se_expiresAt : Z }.
Inductive purpose := PurposeSend | PurposeCleanup.
#[global] Instance purpose_eq_dec : EqDecision purpose.
Proof. solve_decision. Defined.
Record pendingSend := mkPendingSend { ps_expiresAt : Z; ps_inFlight : bool; ps_purpose : purpose }.

(** What the lock [mu] protects. *)
Record tables := mkTables {
  t_launchConsumed : bool; t_sessions : gmap bytes session; t_pending : gmap bytes (gmap bytes pendingSend) }.

(** What a section under the lock reads of the world: the clock and two strings of 32
    random bytes. *)
Record moment := mkMoment { mo_now : Z; mo_first : option bytes; mo_second : option bytes }.

Inductive task :=
  | Reply (a : answer)
  | Now (k : Z -> task)
  | Locked (f : moment -> tables -> tables * task)
  | Call (c : call) (k : outcome c -> task).

Definition writeError (status : Z) (code message : string) : task := Reply (mkAnswer status (ErrorBody (bs code) (bs message))).
Definition writeData (status : Z) (p : payload) : task := Reply (mkAnswer status (DataBody p)).
Definition writeServiceError (err : option PublicError) (fallbackCode fallbackMessage : string) : task :=
  match err with
  | Some public =>
      if (pe_HTTPStatus public >=? 400) && (pe_HTTPStatus public <=? 599) && negb (length (pe_Code public) =? 0)%nat
         && negb (length (pe_Message public) =? 0)%nat
      then Reply (mkAnswer (pe_HTTPStatus public) (ErrorBody (pe_Code public) (pe_Message public)))
      else writeError 500 fallbackCode fallbackMessage
  | None => writeError 500 fallbackCode fallbackMessage
  end.

(** [result, err := service.Method(...)] with the error of the service written at once. *)
Definition call_or (c : call) (fallbackCode fallbackMessage : string) (k : data c -> task) : task :=
  Call c (fun o => match o with inl d => k d | inr err => writeServiceError err fallbackCode fallbackMessage end).

(** ** The server *)
Definition sessionCookieName : bytes := bs "btc09_session".
Definition maxRequestBytes : Z := Z.shiftl 64 10.
Definition sessionLifetime : Z := 8 * 60 * 60.

(** The service that a server is given, by the optional interfaces it implements. *)
Record interfaces := mkInterfaces {
  if_Recovery : bool; if_RecoveryLock : bool; if_Features : bool; if_Cancel : bool; if_Miner : bool }.
Record Server := mkServer {
  s_origin : bytes; s_originHost : bytes; s_version : bytes; s_service : interfaces; s_launchToken : bytes }.
Record Config := mkConfig {
  cf_LaunchToken : bytes; cf_Origin : bytes; cf_Version : bytes; cf_Service : option interfaces }.
(** What [url.Parse] finds in the origin. *)
Record origin_url := mkOriginUrl {
  ou_Scheme : bytes; ou_Path : bytes; ou_RawQuery : bytes; ou_Fragment : bytes; ou_Host : bytes }.

Record web_request := mkWebRequest {
  wr_Method : bytes; wr_Host : bytes; wr_Path : bytes; wr_RawQuery : bytes; wr_Cookie : option bytes; wr_Origin : bytes;
  wr_mediaType : option bytes; wr_CSRF : bytes; wr_Body : bytes }.

Definition MethodGet : bytes := bs "GET".
Definition MethodPost : bytes := bs "POST".

(** [strings.EqualFold] against lower-case ASCII: the long s and the Kelvin sign fold to
    ASCII letters. *)
Fixpoint EqualFold (s target : bytes) : bool :=
  match target, s with
  | [], [] => true
  | t :: target, c :: s =>
      if bool_decide (lower c = t) then EqualFold s target else
      match s with
      | d :: s => if bool_decide (t = Byte.x73) && bool_decide (c = Byte.xc5) && bool_decide (d = Byte.xbf) then EqualFold s target else
          match s with
          | e :: s => bool_decide (t = Byte.x6b) && bool_decide (c = Byte.xe2) && bool_decide (d = Byte.x84) && bool_decide (e = Byte.xaa)
                      && EqualFold s target
          | [] => false
          end
      | [] => false
      end
  | _, _ => false
  end.

(** [strings.Trim(s, "[]")] *)
Definition bracket (c : byte) : bool := bool_decide (c = Byte.x5b) || bool_decide (c = Byte.x5d).
Fixpoint drop_brackets (s : bytes) : bytes :=
  match s with c :: r => if bracket c then drop_brackets r else s | [] => [] end.
Definition TrimBrackets (s : bytes) : bytes := rev (drop_brackets (rev (drop_brackets s))).

Definition validSecret (value : bytes) : bool :=
  if negb (length value =? 64)%nat || negb (bool_decide (value = ToLower value)) then false else
  match hex_decode value with Ok decoded => (length decoded =? 32)%nat | Err _ => false end.
Definition randomSecret (b : option bytes) : option bytes := hex_encode <$> b.

(** ** The requests as JSON *)
(** Text fields of a struct: a missing field or [null] leaves it empty, the last of several
    counts, and an unknown field is an error. *)
Definition last_field (name : string) (l : list (bytes * value)) : option value :=
  assoc (bs name) (rev (List.filter (fun f => match f.2 with VNull => false | _ => true end) l)).
Definition known_fields (names : list string) (l : list (bytes * value)) : bool :=
  forallb (fun f => existsb (fun name => bool_decide (f.1 = bs name)) names) l.
Definition text_field (l : list (bytes * value)) (name : string) : option bytes :=
  match last_field name l with None => Some [] | Some v => as_bytes v end.
Definition text_fields (names : list string) (v : value) : option (list bytes) :=
  match v with
  | VNull => Some (map (fun _ => []) names)
  | VObject l => if known_fields names l then mapM (text_field l) names else None
  | _ => None
  end.
Definition from_one {A} (mk : bytes -> A) (name : string) (v : value) : option A :=
  match text_fields [name] v with Some [a] => Some (mk a) | _ => None end.
Definition from_two {A} (mk : bytes -> bytes -> A) (name1 name2 : string) (v : value) : option A :=
  match text_fields [name1; name2] v with Some [a; b] => Some (mk a b) | _ => None end.
Definition from_three {A} (mk : bytes -> bytes -> bytes -> A) (name1 name2 name3 : string) (v : value) : option A :=
  match text_fields [name1; name2; name3] v with Some [a; b; c] => Some (mk a b c) | _ => None end.

#[global] Instance empty_json : JsonRecord unit := {
  to_json _ := object []; from_json v := match text_fields [] v with Some _ => Some tt | None => None end }.
#[global] Instance CreateRequest_json : JsonRecord RecoveryWalletCreateRequest := {
  to_json q := object [("password", VText (rc_Password q))]; from_json := from_one mkCreateRequest "password" }.
#[global] Instance RestoreRequest_json : JsonRecord RecoveryWalletRestoreRequest := {
  to_json q := object [("password", VText (rr_Password q)); ("recovery_phrase", VText (rr_RecoveryPhrase q))];
  from_json := from_two mkRestoreRequest "password" "recovery_phrase" }.
#[global] Instance UnlockRequest_json : JsonRecord RecoveryWalletUnlockRequest := {
  to_json q := object [("password", VText (ru_Password q))]; from_json := from_one mkUnlockRequest "password" }.
#[global] Instance BackupRequest_json : JsonRecord BackupRequest := {
  to_json q := object [("destination", VText (bk_Destination q))]; from_json := from_one mkBackupRequest "destination" }.
#[global] Instance SendRequest_json : JsonRecord SendRequest := {
  to_json q := object [("destination", VText (sq_Destination q)); ("amount", VText (sq_Amount q)); ("fee", VText (sq_Fee q))];
  from_json := from_three mkSendRequest "destination" "amount" "fee" }.
#[global] Instance MaxSendRequest_json : JsonRecord MaxSendRequest := {
  to_json q := object [("destination", VText (mq_Destination q)); ("fee", VText (mq_Fee q))];
  from_json := from_two mkMaxSendRequest "destination" "fee" }.
#[global] Instance CleanupRequest_json : JsonRecord CleanupRequest := {
  to_json q := object [("fee", VText (cq_Fee q))]; from_json := from_one mkCleanupRequest "fee" }.
#[global] Instance PendingRequest_json : JsonRecord PendingRequest := {
  to_json q := object [("pending_id", VText (pq_PendingID q))]; from_json := from_one mkPendingRequest "pending_id" }.
#[global] Instance MinerStart_json : JsonRecord MinerStartRequest := {
  to_json q := object [("workers", VInt (mn_Workers q)); ("worker", VText (mn_Worker q))];
  from_json v :=
    match v with
    | VNull => Some (mkMinerStart 0 [])
    | VObject l =>
        if negb (known_fields ["workers"; "worker"] l) then None else
        workers ← match last_field "workers" l with None => Some 0 | Some v => as_int64 v end;
        worker ← text_field l "worker";
        Some (mkMinerStart workers worker)
    | _ => None
    end }.

(** ** Assets *)
Definition commonAssetRoute (path : bytes) : option (bytes * bytes) :=
  if bool_decide (path = bs "/") then Some (bs "assets/index.html", bs "text/html; charset=utf-8")
  else if bool_decide (path = bs "/assets/app.css") then Some (bs "assets/app.css", bs "text/css; charset=utf-8")
  else if bool_decide (path = bs "/assets/network.js") then Some (bs "assets/network.js", bs "text/javascript; charset=utf-8")
  else if bool_decide (path = bs "/assets/app.js") then Some (bs "assets/app.js", bs "text/javascript; charset=utf-8")
  else if bool_decide (path = bs "/assets/icon.svg") then Some (bs "assets/icon.svg", bs "image/svg+xml; charset=utf-8")
  else None.

(** [bytes.Replace(s, old, new, 1)] *)
Fixpoint Replace1 (s old new : bytes) : bytes :=
  if HasPrefix s old then new ++ drop (length old) s else
  match s with c :: s => c :: Replace1 s old new | [] => [] end.

Section server.
Context `{NetText} `{JsonDecoder}.
(** The build (the full edition has the miner), the embedded files and the QR encoder. *)
Context (full_edition : bool) (embedded : bytes -> result bytes) (qr_encode : bytes -> result bytes).

Definition editionAssetRoute (path : bytes) : option (bytes * bytes) :=
  if negb full_edition then None
  else if bool_decide (path = bs "/assets/miner.css") then Some (bs "assets/miner.css", bs "text/css; charset=utf-8")
  else if bool_decide (path = bs "/assets/miner.js") then Some (bs "assets/miner.js", bs "text/javascript; charset=utf-8")
  else None.
Definition assetRouteForPath (path : bytes) : option (bytes * bytes) :=
  match commonAssetRoute path with Some route => Some route | None => editionAssetRoute path end.
Definition isAssetPath (path : bytes) : bool := bool_decide (is_Some (assetRouteForPath path)).

Definition decorate (index : bytes) (replacement : string * string) : result bytes :=
  let marker := bs replacement.1 in
  if negb (Contains index marker) then Err (EText "desktop edition asset marker is missing") else
  fragment ← embedded (bs replacement.2);
  Ok (Replace1 index marker (TrimSpace fragment)).
Definition decorateEditionIndex (index : bytes) : result bytes :=
  if negb full_edition then Ok index else
  foldM decorate index
    [("<!-- edition-head -->", "assets/miner-head.html"); ("<!-- edition-tab -->", "assets/miner-tab.html");
     ("<!-- edition-panel -->", "assets/miner-panel.html"); ("<!-- edition-script -->", "assets/miner-script.html")]%string.
Definition readAsset (name : bytes) : result bytes :=
  if full_edition && (bool_decide (name = bs "assets/miner.css") || bool_decide (name = bs "assets/miner.js")) then embedded name else
  content ← embedded name;
  if bool_decide (name = bs "assets/index.html") then decorateEditionIndex content else Ok content.

(** ** Loopback and secrets *)
Definition isLoopbackHost (host : bytes) : bool :=
  if EqualFold host (bs "localhost") then true else
  match ParseIP (TrimBrackets host) with Some ip => IsLoopback (Unmap ip) | None => false end.

Definition NewServer (config : Config) (originURL : result origin_url) : result (Server * tables) :=
  match cf_Service config with
  | None => Err (EText "desktop service is required")
  | Some service =>
      if negb (validSecret (cf_LaunchToken config)) then Err (EText "launch token must be 32-byte lowercase hex") else
      let plain := Err (EText "desktop origin must be a plain loopback HTTP origin") in
      match originURL with
      | Err _ => plain
      | Ok u =>
          if negb (bool_decide (ou_Scheme u = bs "http")) || negb (length (ou_Path u) =? 0)%nat
             || negb (length (ou_RawQuery u) =? 0)%nat || negb (length (ou_Fragment u) =? 0)%nat
             || (length (ou_Host u) =? 0)%nat then plain else
          let no_port := Err (EText "desktop origin must include a loopback host and port") in
          match SplitHostPort (ou_Host u) with
          | None => no_port
          | Some (host, _) =>
              if negb (isLoopbackHost host) then no_port else
              Ok (mkServer (cf_Origin config) (ou_Host u) (cf_Version config) service (cf_LaunchToken config),
                  mkTables false ∅ ∅)
          end
      end
  end.

Definition decodeJSONRequest {A} `{JsonRecord A} (r : web_request) : result A :=
  if Z.of_nat (length (wr_Body r)) >? maxRequestBytes then Err (EText "http: request body too large") else
  '(a, rest) ← json_Decode A (wr_Body r);
  if blank rest then Ok a else Err (EText "request must contain one JSON value").

(** [r.URL.Query()] *)
Definition query_values (r : web_request) (key : string) : option (list bytes) := (ParseQuery (wr_RawQuery r)).1 !! bs key.
Definition query_Get (r : web_request) (key : string) : bytes := default [] (query_values r key ≫= head).

Context (s : Server).

Definition allowedHost (hostport : bytes) : bool :=
  if negb (bool_decide (hostport = s_originHost s)) then false else
  match SplitHostPort hostport with Some (host, _) => isLoopbackHost host | None => false end.

(** ** Sessions *)
Definition session_cookie (token : bytes) (expiresAt : Z) : Cookie :=
  mkCookie sessionCookieName token (bs "/") true true sessionLifetime expiresAt.
Definition same_secret (provided expected : bytes) : bool :=
  negb (negb (length provided =? length expected)%nat || negb (bool_decide (provided = expected))).

Definition exchangeLaunchToken (r : web_request) : task :=
  if negb (bool_decide (wr_Method r = MethodGet)) then writeError 405 "method_not_allowed" "That action is not allowed." else
  let provided := query_Get r "token" in
  let unavailable := writeError 500 "session_unavailable" "BTC09 Wallet could not start a secure session." in
  Locked (fun m t =>
    if t_launchConsumed t || negb (same_secret provided (s_launchToken s))
    then (t, writeError 401 "launch_expired" "This launch link has expired. Reopen BTC09 Wallet.") else
    match randomSecret (mo_first m) with
    | None => (t, unavailable)
    | Some token =>
        match randomSecret (mo_second m) with
        | None => (t, unavailable)
        | Some csrf =>
            let expiresAt := i64 (mo_now m + sessionLifetime) in
            (mkTables true (<[token := mkSession token csrf expiresAt]> (t_sessions t)) (t_pending t),
             Reply (mkAnswer 303 (SeeOther (bs "/") (session_cookie token expiresAt))))
        end
    end).

Definition authenticate (r : web_request) (k : option session -> task) : task :=
  match wr_Cookie r with
  | None => k None
  | Some value =>
      if negb (validSecret value) then k None else
      Locked (fun m t =>
        match t_sessions t !! value with
        | None => (t, k None)
        | Some current =>
            if se_expiresAt current <=? mo_now m
            then (mkTables (t_launchConsumed t) (delete value (t_sessions t)) (delete value (t_pending t)), k None)
            else (t, k (Some current))
        end)
  end.

Definition authorizeRead (r : web_request) (k : session -> task) : task :=
  if negb (bool_decide (wr_Method r = MethodGet)) then writeError 405 "method_not_allowed" "That action is not allowed." else
  authenticate r (fun current =>
    match current with
    | None => writeError 401 "session_required" "Reopen BTC09 Wallet to continue."
    | Some current => k current
    end).

Definition authorizeMutation (r : web_request) (k : session -> task) : task :=
  if negb (bool_decide (wr_Method r = MethodPost)) then writeError 405 "method_not_allowed" "That action is not allowed." else
  authenticate r (fun current =>
    match current with
    | None => writeError 401 "session_required" "Reopen BTC09 Wallet to continue."
    | Some current =>
        if negb (bool_decide (wr_Origin r = s_origin s))
        then writeError 403 "origin_rejected" "The request did not come from BTC09 Wallet."
        else if negb (bool_decide (wr_mediaType r = Some (bs "application/json")))
        then writeError 415 "json_required" "BTC09 Wallet expected a JSON request."
        else if negb (same_secret (wr_CSRF r) (se_csrf current))
        then writeError 403 "csrf_rejected" "The secure request token was rejected. Reopen BTC09 Wallet."
        else k current
    end).

(** ** Handlers of one call *)
Definition empty_text (b : bytes) : bool := (length b =? 0)%nat.
Definition longer (b : bytes) (limit : Z) : bool := Z.of_nat (length b) >? limit.

Definition handleAsset (r : web_request) : task :=
  authorizeRead r (fun _ =>
    match assetRouteForPath (wr_Path r) with
    | None => writeError 404 "not_found" "That BTC09 Wallet page was not found."
    | Some (name, contentType) =>
        match readAsset name with
        | Err _ => writeError 500 "interface_unavailable" "The wallet interface is unavailable."
        | Ok content => Reply (mkAnswer 200 (FileBody contentType content))
        end
    end).

Definition spaced (b : bytes) : bool := existsb (fun c => existsb (Z.eqb (b2z c)) [13; 10; 9; 32]) b.
Definition handleReceiveQR (r : web_request) : task :=
  authorizeRead r (fun _ =>
    let address := query_Get r "address" in
    if (Z.of_nat (length address) <? 8) || longer address 256 || spaced address
    then writeError 400 "address_invalid" "The receive address was not valid." else
    match qr_encode address with
    | Ok png => if empty_text png || longer png 100000
                then writeError 500 "qr_unavailable" "BTC09 could not create that receive QR code."
                else Reply (mkAnswer 200 (FileBody (bs "image/png") png))
    | Err _ => writeError 500 "qr_unavailable" "BTC09 could not create that receive QR code."
    end).

Definition handleStatus (r : web_request) : task :=
  authorizeRead r (fun current =>
    Call CallStatus (fun o =>
      match o with
      | inl status => writeData 200 (StatusWithToken status (se_csrf current))
      | inr _ => writeError 500 "status_unavailable" "Wallet status is temporarily unavailable."
      end)).

Definition answer_data (c : call) (d : data c) : task := writeData 200 (DataOf c d).

Definition handleCreateWallet (r : web_request) : task :=
  authorizeMutation r (fun _ =>
    match decodeJSONRequest (A := unit) r with
    | Err _ => writeError 400 "invalid_request" "The request was not valid."
    | Ok _ => call_or CallCreateWallet "wallet_create_failed" "BTC09 could not create the wallet." (answer_data CallCreateWallet)
    end).

Definition recoveryWalletService (k : task) : task :=
  if if_Recovery (s_service s) then k
  else writeError 501 "recovery_wallet_unavailable" "This BTC09 Wallet build does not support recovery wallets.".
Definition bad_password (password : bytes) : bool := empty_text password || longer password 1024.

Definition handleCreateRecoveryWallet (r : web_request) : task :=
  authorizeMutation r (fun _ => recoveryWalletService (
    let invalid := writeError 400 "invalid_request" "Enter a valid wallet password." in
    match decodeJSONRequest (A := RecoveryWalletCreateRequest) r with
    | Err _ => invalid
    | Ok request =>
        if bad_password (rc_Password request) then invalid else
        call_or (CallCreateRecoveryWallet request) "wallet_create_failed" "BTC09 could not create the recovery wallet."
          (answer_data (CallCreateRecoveryWallet request))
    end)).

Definition handleRestoreRecoveryWallet (r : web_request) : task :=
  authorizeMutation r (fun _ => recoveryWalletService (
    let invalid := writeError 400 "invalid_request" "Enter a valid password and recovery phrase." in
    match decodeJSONRequest (A := RecoveryWalletRestoreRequest) r with
    | Err _ => invalid
    | Ok request =>
        if bad_password (rr_Password request) || empty_text (rr_RecoveryPhrase request) || longer (rr_RecoveryPhrase request) 4096
        then invalid else
        call_or (CallRestoreRecoveryWallet request) "wallet_restore_failed" "BTC09 could not restore that recovery wallet."
          (answer_data (CallRestoreRecoveryWallet request))
    end)).

Definition handleUnlockRecoveryWallet (r : web_request) : task :=
  authorizeMutation r (fun _ => recoveryWalletService (
    let invalid := writeError 400 "invalid_request" "Enter a valid wallet password." in
    match decodeJSONRequest (A := RecoveryWalletUnlockRequest) r with
    | Err _ => invalid
    | Ok request =>
        if bad_password (ru_Password request) then invalid else
        call_or (CallUnlockRecoveryWallet request) "wallet_unlock_failed" "BTC09 could not unlock that wallet."
          (answer_data (CallUnlockRecoveryWallet request))
    end)).

Definition handleRecoveryPhrase (r : web_request) : task :=
  authorizeMutation r (fun _ => recoveryWalletService (
    let invalid := writeError 400 "invalid_request" "Enter your wallet password." in
    match decodeJSONRequest (A := RecoveryWalletUnlockRequest) r with
    | Err _ => invalid
    | Ok request =>
        if bad_password (ru_Password request) then invalid else
        call_or (CallRecoveryPhrase request) "recovery_phrase_unavailable" "BTC09 could not show the recovery phrase."
          (answer_data (CallRecoveryPhrase request))
    end)).

Definition handleLockRecoveryWallet (r : web_request) : task :=
  authorizeMutation r (fun current =>
    if negb (if_RecoveryLock (s_service s))
    then writeError 501 "wallet_lock_unavailable" "This BTC09 Wallet build cannot lock recovery wallets safely." else
    match decodeJSONRequest (A := unit) r with
    | Err _ => writeError 400 "invalid_request" "The request was not valid."
    | Ok _ =>
        call_or CallLockRecoveryWallet "wallet_lock_failed" "BTC09 could not lock that wallet." (fun status =>
          Locked (fun _ t => (mkTables (t_launchConsumed t) (t_sessions t) (delete (se_token current) (t_pending t)),
                              answer_data CallLockRecoveryWallet status)))
    end).

Definition handleNewAddress (r : web_request) : task :=
  authorizeMutation r (fun _ =>
    match decodeJSONRequest (A := unit) r with
    | Err _ => writeError 400 "invalid_request" "The request was not valid."
    | Ok _ => call_or CallNewAddress "address_create_failed" "BTC09 could not create another receive address."
                (answer_data CallNewAddress)
    end).

Definition handleBackup (r : web_request) : task :=
  authorizeMutation r (fun _ =>
    let invalid := writeError 400 "invalid_request" "Choose a valid backup destination." in
    match decodeJSONRequest (A := BackupRequest) r with
    | Err _ => invalid
    | Ok request =>
        if empty_text (bk_Destination request) || longer (bk_Destination request) 4096 then invalid else
        call_or (CallBackup (bk_Destination request)) "backup_failed" "BTC09 could not create that backup."
          (answer_data (CallBackup (bk_Destination request)))
    end).

(** ** Previews of payments *)
Definition walletFeaturesService (k : task) : task :=
  if if_Features (s_service s) then k
  else writeError 501 "wallet_features_unavailable" "This BTC09 Wallet build does not include the latest wallet tools.".

Definition handleActivity (r : web_request) : task :=
  authorizeRead r (fun _ => walletFeaturesService
    (call_or CallActivity "activity_unavailable" "Wallet activity is temporarily unavailable." (answer_data CallActivity))).

(** [s.pending[token]]: a missing map reads as an empty one. *)
Definition entries (t : tables) (token : bytes) : gmap bytes pendingSend := default ∅ (t_pending t !! token).
Definition set_entries (t : tables) (token : bytes) (e : gmap bytes pendingSend) : tables :=
  mkTables (t_launchConsumed t) (t_sessions t) (<[token := e]> (t_pending t)).
Definition drop_entries (t : tables) (token : bytes) : tables :=
  mkTables (t_launchConsumed t) (t_sessions t) (delete token (t_pending t)).
(** [delete(s.pending[token], id)] *)
Definition delete_entry (t : tables) (token id : bytes) : tables :=
  match t_pending t !! token with Some e => set_entries t token (delete id e) | None => t end.
(** [if len(s.pending[token]) == 0 { delete(s.pending, token) }] *)
Definition drop_if_empty (t : tables) (token : bytes) : tables :=
  if (size (entries t token) =? 0)%nat then drop_entries t token else t.
Definition in_flight (b : bool) (p : pendingSend) : pendingSend := mkPendingSend (ps_expiresAt p) b (ps_purpose p).
(** [if existing := s.pending[token][id]; existing != nil { existing.inFlight = b }] *)
Definition mark_entry (t : tables) (token id : bytes) (b : bool) : tables :=
  match t_pending t !! token with Some e => set_entries t token (alter (in_flight b) id e) | None => t end.

Definition rememberPending (current : session) (pendingID : bytes) (expiresAt : Z) (p : purpose)
    (errorCode errorMessage : string) (k : task) : task :=
  Now (fun now =>
    if empty_text pendingID || longer pendingID 128 || (expiresAt <=? now) || (expiresAt >? i64 (now + 3600))
    then writeError 500 errorCode errorMessage else
    Locked (fun _ t =>
      let kept := filter (fun '(_, pending) => now < ps_expiresAt pending) (entries t (se_token current)) in
      match kept !! pendingID with
      | Some _ => (set_entries t (se_token current) kept, writeError 500 errorCode errorMessage)
      | None => (set_entries t (se_token current) (<[pendingID := mkPendingSend expiresAt false p]> kept), k)
      end)).

Definition handlePreviewSend (r : web_request) : task :=
  authorizeMutation r (fun current =>
    let invalid := writeError 400 "invalid_send" "Enter a destination, amount, and fee." in
    match decodeJSONRequest (A := SendRequest) r with
    | Err _ => invalid
    | Ok request =>
        if empty_text (sq_Destination request) || empty_text (sq_Amount request) || empty_text (sq_Fee request) then invalid else
        call_or (CallPreviewSend request) "send_preview_failed" "BTC09 could not prepare that transaction." (fun preview =>
          rememberPending current (sv_PendingID preview) (sv_ExpiresAtUnix preview) PurposeSend
            "send_preview_failed" "BTC09 could not prepare that transaction." (answer_data (CallPreviewSend request) preview))
    end).

Definition handlePreviewMaxSend (r : web_request) : task :=
  authorizeMutation r (fun current => walletFeaturesService (
    let invalid := writeError 400 "invalid_send" "Enter a destination and fee." in
    match decodeJSONRequest (A := MaxSendRequest) r with
    | Err _ => invalid
    | Ok request =>
        if empty_text (mq_Destination request) || empty_text (mq_Fee request) then invalid else
        call_or (CallPreviewMaxSend request) "send_preview_failed" "BTC09 could not prepare that transaction." (fun preview =>
          rememberPending current (sv_PendingID preview) (sv_ExpiresAtUnix preview) PurposeSend
            "send_preview_failed" "BTC09 could not prepare that transaction." (answer_data (CallPreviewMaxSend request) preview))
    end)).

Definition handlePreviewCleanup (r : web_request) : task :=
  authorizeMutation r (fun current => walletFeaturesService (
    let invalid := writeError 400 "cleanup_invalid" "Enter a valid cleanup fee." in
    match decodeJSONRequest (A := CleanupRequest) r with
    | Err _ => invalid
    | Ok request =>
        if empty_text (cq_Fee request) then invalid else
        call_or (CallPreviewCleanup request) "cleanup_preview_failed" "BTC09 could not prepare the cleanup." (fun preview =>
          rememberPending current (cv_PendingID preview) (cv_ExpiresAtUnix preview) PurposeCleanup
            "cleanup_preview_failed" "BTC09 could not prepare the cleanup." (answer_data (CallPreviewCleanup request) preview))
    end)).

(** [confirm] is [CallConfirmSend] or [CallConfirmCleanup]. *)
Definition confirmRememberedPending (current : session) (pendingID : bytes) (p : purpose) (confirm : call)
    (fallbackCode fallbackMessage : string) : task :=
  Now (fun now =>
    Locked (fun _ t =>
      match entries t (se_token current) !! pendingID with
      | None => (t, writeError 409 "preview_unavailable" "That transaction preview is no longer available. Review it again.")
      | Some pending =>
          if negb (bool_decide (ps_purpose pending = p))
          then (t, writeError 409 "preview_wrong_action" "Review this preview from the screen that created it.")
          else if ps_expiresAt pending <=? now
          then (delete_entry t (se_token current) pendingID,
                writeError 409 "preview_expired" "That transaction preview expired. Review it again.")
          else if ps_inFlight pending
          then (t, writeError 409 "confirmation_in_progress" "That transaction is already being submitted.")
          else (mark_entry t (se_token current) pendingID true,
                Call confirm (fun o =>
                  match o with
                  | inr err => Locked (fun _ t => (mark_entry t (se_token current) pendingID false,
                                                   writeServiceError err fallbackCode fallbackMessage))
                  | inl result => Locked (fun _ t => (delete_entry t (se_token current) pendingID, answer_data confirm result))
                  end))
      end)).

Definition bad_pending_id (id : bytes) : bool := empty_text id || longer id 128.

Definition handleConfirmSend (r : web_request) : task :=
  authorizeMutation r (fun current =>
    let invalid := writeError 400 "invalid_request" "The transaction preview was not valid." in
    match decodeJSONRequest (A := PendingRequest) r with
    | Err _ => invalid
    | Ok request =>
        if bad_pending_id (pq_PendingID request) then invalid else
        confirmRememberedPending current (pq_PendingID request) PurposeSend (CallConfirmSend (pq_PendingID request))
          "send_confirm_failed" "BTC09 could not submit that transaction."
    end).

Definition handleConfirmCleanup (r : web_request) : task :=
  authorizeMutation r (fun current => walletFeaturesService (
    let invalid := writeError 400 "invalid_request" "The cleanup preview was not valid." in
    match decodeJSONRequest (A := PendingRequest) r with
    | Err _ => invalid
    | Ok request =>
        if bad_pending_id (pq_PendingID request) then invalid else
        confirmRememberedPending current (pq_PendingID request) PurposeCleanup (CallConfirmCleanup (pq_PendingID request))
          "cleanup_confirm_failed" "BTC09 could not submit the cleanup."
    end)).

Definition cancelPending (current : session) (pendingID : bytes) : task :=
  let token := se_token current in
  Now (fun now =>
    Locked (fun _ t =>
      let gone := (drop_if_empty (delete_entry t token pendingID) token, writeData 200 Cancelled) in
      match entries t token !! pendingID with
      | None => gone
      | Some pending =>
          if ps_expiresAt pending <=? now then gone
          else if ps_inFlight pending
          then (t, writeError 409 "confirmation_in_progress" "That transaction is already being submitted.")
          else (mark_entry t token pendingID true,
                Call (CallCancelPreview pendingID) (fun o =>
                  match o with
                  | inr err => Locked (fun _ t => (mark_entry t token pendingID false,
                                 writeServiceError err "preview_cancel_failed" "BTC09 could not cancel that transaction preview."))
                  | inl _ => Locked (fun _ t => (drop_if_empty (delete_entry t token pendingID) token, writeData 200 Cancelled))
                  end))
      end)).

Definition handleCancelPreview (r : web_request) : task :=
  authorizeMutation r (fun current =>
    if negb (if_Cancel (s_service s))
    then writeError 501 "preview_cancel_unavailable" "This BTC09 Wallet build cannot cancel transaction previews." else
    let invalid := writeError 400 "invalid_request" "That transaction preview was not valid." in
    match decodeJSONRequest (A := PendingRequest) r with
    | Err _ => invalid
    | Ok request => if bad_pending_id (pq_PendingID request) then invalid else cancelPending current (pq_PendingID request)
    end).

(** ** The miner *)
Definition minerService (k : task) : task :=
  if if_Miner (s_service s) then k
  else writeError 501 "miner_unavailable" "This BTC09 build does not include the official miner.".
Definition handleMinerStatus (r : web_request) : task :=
  authorizeRead r (fun _ => minerService
    (call_or CallMinerStatus "miner_status_failed" "BTC09 could not read the miner status." (answer_data CallMinerStatus))).
Definition handleMinerStart (r : web_request) : task :=
  authorizeMutation r (fun _ =>
    match decodeJSONRequest (A := MinerStartRequest) r with
    | Err _ => writeError 400 "miner_start_invalid" "Choose a valid worker name and CPU thread count."
    | Ok request => minerService
        (call_or (CallStartMiner request) "miner_start_failed" "BTC09 could not start the miner." (answer_data (CallStartMiner request)))
    end).
Definition handleMinerStop (r : web_request) : task :=
  authorizeMutation r (fun _ =>
    match decodeJSONRequest (A := unit) r with
    | Err _ => writeError 400 "miner_stop_invalid" "The stop request was not valid."
    | Ok _ => minerService
        (call_or CallStopMiner "miner_stop_failed" "BTC09 could not stop the miner." (answer_data CallStopMiner))
    end).

Definition handleEditionRoute (r : web_request) : option task :=
  if negb full_edition then None
  else if bool_decide (wr_Path r = bs "/api/v1/miner/status") then Some (handleMinerStatus r)
  else if bool_decide (wr_Path r = bs "/api/v1/miner/start") then Some (handleMinerStart r)
  else if bool_decide (wr_Path r = bs "/api/v1/miner/stop") then Some (handleMinerStop r)
  else None.

(** ** Routes *)
Definition routes : list (string * (web_request -> task)) :=
  [("/api/v1/receive-qr", handleReceiveQR); ("/api/v1/status", handleStatus);
   ("/api/v1/wallet/create", handleCreateWallet); ("/api/v1/wallet/v2/create", handleCreateRecoveryWallet);
   ("/api/v1/wallet/v2/restore", handleRestoreRecoveryWallet); ("/api/v1/wallet/v2/unlock", handleUnlockRecoveryWallet);
   ("/api/v1/wallet/v2/lock", handleLockRecoveryWallet); ("/api/v1/wallet/v2/recovery", handleRecoveryPhrase);
   ("/api/v1/wallet/address", handleNewAddress); ("/api/v1/wallet/backup", handleBackup);
   ("/api/v1/send/preview", handlePreviewSend); ("/api/v1/send/max-preview", handlePreviewMaxSend);
   ("/api/v1/send/confirm", handleConfirmSend); ("/api/v1/activity", handleActivity);
   ("/api/v1/maintenance/cleanup/preview", handlePreviewCleanup);
   ("/api/v1/maintenance/cleanup/confirm", handleConfirmCleanup); ("/api/v1/preview/cancel", handleCancelPreview)]%string.
Fixpoint route_of (l : list (string * (web_request -> task))) (r : web_request) : option task :=
  match l with
  | [] => None
  | (path, handler) :: l => if bool_decide (wr_Path r = bs path) then Some (handler r) else route_of l r
  end.

Definition ServeHTTP (r : web_request) : task :=
  if negb (allowedHost (wr_Host r))
  then writeError 403 "local_request_required" "BTC09 Wallet only accepts local requests." else
  if bool_decide (wr_Method r = MethodGet) && bool_decide (wr_Path r = bs "/") && bool_decide (is_Some (query_values r "token"))
  then exchangeLaunchToken r else
  if isAssetPath (wr_Path r) then handleAsset r else
  match route_of routes r with
  | Some t => t
  | None => match handleEditionRoute r with
            | Some t => t
            | None => writeError 404 "not_found" "That BTC09 Wallet page was not found."
            end
  end.

(** ** Requests in progress *)
Inductive progress :=
  | Running (t : task)
  | Waiting (c : call) (k : outcome c -> task)
  | Answered (a : answer).

(** What happens, in order: request [n] arrives, reads the clock, runs a section under the
    lock, calls the service, gets its answer, replies. *)
Inductive event :=
  | EArrive (n : nat) (r : web_request)
  | ENow (n : nat) (now : Z)
  | ELocked (n : nat) (now : Z) (before after : tables)
  | EInvoke (n : nat) (c : call)
  | EReturn (n : nat) (c : call) (o : outcome c)
  | EReply (n : nat) (a : answer).

Record desk := mkDesk { dk_tables : tables; dk_requests : list progress; dk_log : list event }.
Definition set_progress (d : desk) (n : nat) (t : tables) (p : progress) (e : event) : desk :=
  mkDesk t (<[n := p]> (dk_requests d)) (dk_log d ++ [e]).
(** [rand.Reader] fills the 32 bytes that it is asked for, or fails. *)
Definition moment_ok (m : moment) : Prop :=
  forall b, mo_first m = Some b \/ mo_second m = Some b -> length b = 32%nat.

Inductive desk_step : desk -> desk -> Prop :=
  | step_arrive d r :
      desk_step d (mkDesk (dk_tables d) (dk_requests d ++ [Running (ServeHTTP r)])
                     (dk_log d ++ [EArrive (length (dk_requests d)) r]))
  | step_now d n k now :
      dk_requests d !! n = Some (Running (Now k)) ->
      desk_step d (set_progress d n (dk_tables d) (Running (k now)) (ENow n now))
  | step_locked d n f m :
      dk_requests d !! n = Some (Running (Locked f)) -> moment_ok m ->
      desk_step d (set_progress d n (f m (dk_tables d)).1 (Running (f m (dk_tables d)).2)
                     (ELocked n (mo_now m) (dk_tables d) (f m (dk_tables d)).1))
  | step_invoke d n c k :
      dk_requests d !! n = Some (Running (Call c k)) ->
      desk_step d (set_progress d n (dk_tables d) (Waiting c k) (EInvoke n c))
  (** the service may answer anything, at any time *)
  | step_return d n c k o :
      dk_requests d !! n = Some (Waiting c k) ->
      desk_step d (set_progress d n (dk_tables d) (Running (k o)) (EReturn n c o))
  | step_reply d n a :
      dk_requests d !! n = Some (Running (Reply a)) ->
      desk_step d (set_progress d n (dk_tables d) (Answered a) (EReply n a)).

Inductive desk_run : desk -> Prop :=
  | run_start : desk_run (mkDesk (mkTables false ∅ ∅) [] [])
  | run_next d d' : desk_run d -> desk_step d d' -> desk_run d'.
End server.
