(* ===== verification/DesktopTheorems.v ===== *)
(** * The desktop wallet server: theorems

    Three judgements on tasks, by recursion on their tree: [within] (every call and every
    section satisfies a predicate, whatever the world answers), [authz] (every call is
    authorised by what the log holds by then) and [safe] (the calls on a preview respect the
    owner of the preview).  Each is shown once for the authorisation and once for every kind
    of continuation; the runs of the server follow by induction on the steps. *)
From S2P Require Import Prelude Text Params Crypto Wire Address Chain P2p GoStrings GoJson.
From S2P Require Import Explorer Desktop.

(** Induction on tasks. *)
Section task_induction.
Context (P : task -> Prop).
Context (Hreply : forall a, P (Reply a)).
Context (Hnow : forall k, (forall now, P (k now)) -> P (Now k)).
Context (Hlocked : forall f, (forall m tb, P (f m tb).2) -> P (Locked f)).
Context (Hcall : forall c k, (forall o, P (k o)) -> P (Call c k)).

Fixpoint task_induction (t : task) : P t :=
  match t with
  | Reply a => Hreply a
  | Now k => Hnow k (fun now => task_induction (k now))
  | Locked f => Hlocked f (fun m tb => task_induction (f m tb).2)
  | Call c k => Hcall c k (fun o => task_induction (k o))
  end.
End task_induction.

(** ** Calls and sections of a task *)
Fixpoint within (P : call -> Prop) (R : tables -> tables -> Prop) (t : task) : Prop :=
  match t with
  | Reply _ => True
  | Now k => forall now, within P R (k now)
  | Locked f => forall m tb, R tb (f m tb).1 /\ within P R (f m tb).2
  | Call c k => P c /\ forall o, within P R (k o)
  end.

(** The section leaves the launch alone and adds no session. *)
Definition keeps_sessions (tb tb' : tables) : Prop :=
  t_launchConsumed tb' = t_launchConsumed tb /\ t_sessions tb' ⊆ t_sessions tb.
(** It adds no preview and changes none. *)
Definition entry (tb : tables) (T id : bytes) (p : pendingSend) : Prop := entries tb T !! id = Some p.
Definition shrinks (tb tb' : tables) : Prop := forall T id p, entry tb' T id p -> entry tb T id p.

Definition reads (c : call) : bool :=
  match c with CallStatus | CallActivity | CallMinerStatus => true | _ => false end.
(** The preview that a call confirms or cancels, and what for. *)
Definition call_id (c : call) : option bytes :=
  match c with CallConfirmSend id | CallConfirmCleanup id | CallCancelPreview id => Some id | _ => None end.
Definition purpose_of (c : call) : option purpose :=
  match c with CallConfirmSend _ => Some PurposeSend | CallConfirmCleanup _ => Some PurposeCleanup | _ => None end.
(** The preview that the service hands out: its identifier, expiry and purpose. *)
Definition preview_of (c : call) : outcome c -> option (bytes * Z * purpose) :=
  match c with
  | CallPreviewSend _ | CallPreviewMaxSend _ => fun o =>
      match o with inl v => Some (sv_PendingID v, sv_ExpiresAtUnix v, PurposeSend) | inr _ => None end
  | CallPreviewCleanup _ => fun o =>
      match o with inl v => Some (cv_PendingID v, cv_ExpiresAtUnix v, PurposeCleanup) | inr _ => None end
  | _ => fun _ => None
  end.
Definition previews (c : call) : bool :=
  match c with CallPreviewSend _ | CallPreviewMaxSend _ | CallPreviewCleanup _ => true | _ => false end.
Definition neutral (c : call) : Prop := call_id c = None /\ previews c = false.

Lemma preview_of_previews c o : previews c = false -> preview_of c o = None.
Proof. by destruct c. Qed.

Lemma within_impl (P P' : call -> Prop) (R R' : tables -> tables -> Prop) t :
  (forall c, P c -> P' c) -> (forall tb tb', R tb tb' -> R' tb tb') -> within P R t -> within P' R' t.
Proof.
  intros HP HR. induction t as [a|k IH|f IH|c k IH] using task_induction; cbn [within]; [done| | |].
  - intros H now. by apply IH.
  - intros H m tb. destruct (H m tb) as [H1 H2]. split; [by apply HR|by apply IH].
  - intros [H1 H2]. split; [by apply HP|]. intros o. by apply IH.
Qed.

Lemma within_writeServiceError P R err c m : within P R (writeServiceError err c m).
Proof. unfold writeServiceError. destruct err as [e|]; [destruct (_ && _)|]; exact I. Qed.

(** *** Sections on the previews *)
Lemma shrinks_refl tb : shrinks tb tb.
Proof. by intros T id p. Qed.
Lemma keeps_refl tb : keeps_sessions tb tb.
Proof. done. Qed.

Lemma entry_set tb T e T' id p :
  entry (set_entries tb T e) T' id p <-> if decide (T' = T) then e !! id = Some p else entry tb T' id p.
Proof.
  unfold entry, set_entries, entries. cbn [t_pending]. destruct (decide (T' = T)) as [->|Hne].
  - by rewrite lookup_insert_eq.
  - by rewrite lookup_insert_ne by done.
Qed.
Lemma entry_drop tb T T' id p : entry (drop_entries tb T) T' id p <-> T' <> T /\ entry tb T' id p.
Proof.
  unfold entry, drop_entries, entries. cbn [t_pending]. destruct (decide (T' = T)) as [->|Hne].
  - rewrite lookup_delete_eq. cbn. rewrite lookup_empty. naive_solver.
  - rewrite lookup_delete_ne by done. naive_solver.
Qed.
Lemma entry_delete tb T id0 T' id p :
  entry (delete_entry tb T id0) T' id p <-> entry tb T' id p /\ ~ (T' = T /\ id = id0).
Proof.
  unfold delete_entry. destruct (t_pending tb !! T) as [e|] eqn:E.
  - rewrite entry_set. destruct (decide (T' = T)) as [->|Hne]; [|naive_solver].
    unfold entry, entries. rewrite E. cbn. rewrite lookup_delete_Some. naive_solver.
  - split; [|naive_solver]. intros Hp. split; [done|]. intros [-> ->]. unfold entry, entries in Hp. rewrite E in Hp. done.
Qed.
Lemma entry_mark tb T id0 b T' id p :
  entry (mark_entry tb T id0 b) T' id p <->
  if decide (T' = T /\ id = id0) then exists q, entry tb T' id q /\ p = in_flight b q else entry tb T' id p.
Proof.
  unfold mark_entry. destruct (t_pending tb !! T) as [e|] eqn:E.
  - rewrite entry_set. destruct (decide (T' = T)) as [->|Hne]; [|rewrite decide_False; naive_solver].
    unfold entry, entries. rewrite E. cbn. destruct (decide (id = id0)) as [->|Hi].
    + rewrite decide_True by done. rewrite lookup_alter_eq. destruct (e !! id0); cbn; naive_solver.
    + rewrite decide_False by naive_solver. by rewrite lookup_alter_ne.
  - destruct (decide (T' = T /\ id = id0)) as [[-> ->]|Hne]; [|done].
    unfold entry, entries. rewrite E. cbn. split; [done|]. by intros (q & ? & _).
Qed.
Lemma shrinks_delete tb T id : shrinks tb (delete_entry tb T id).
Proof. intros T' id' p Hp. by apply entry_delete in Hp as [Hp _]. Qed.
Lemma shrinks_drop_if_empty tb tb' T : shrinks tb tb' -> shrinks tb (drop_if_empty tb' T).
Proof.
  intros Hs T' id p. unfold drop_if_empty. destruct (_ =? _)%nat; [|apply Hs].
  rewrite entry_drop. intros [_ Hp]. by apply Hs.
Qed.
Lemma keeps_same tb P : keeps_sessions tb (mkTables (t_launchConsumed tb) (t_sessions tb) P).
Proof. done. Qed.
Lemma keeps_delete_entry tb T id : keeps_sessions tb (delete_entry tb T id).
Proof. unfold delete_entry. by destruct (_ !! _). Qed.
Lemma keeps_mark_entry tb T id b : keeps_sessions tb (mark_entry tb T id b).
Proof. unfold mark_entry. by destruct (_ !! _). Qed.
Lemma keeps_drop_if_empty tb tb' T : keeps_sessions tb tb' -> keeps_sessions tb (drop_if_empty tb' T).
Proof. unfold drop_if_empty. by destruct (_ =? _)%nat. Qed.

Create HintDb desk.
#[export] Hint Resolve shrinks_refl keeps_refl shrinks_delete shrinks_drop_if_empty keeps_same keeps_delete_entry
  keeps_mark_entry keeps_drop_if_empty within_writeServiceError : desk.

(** A task whose tree is plain: take it apart. *)
Ltac within_step :=
  match goal with
  | |- within _ _ (match ?x with _ => _ end) => destruct x
  | |- within _ _ (let _ := _ in _) => cbv zeta
  | |- within _ _ (call_or _ _ _ _) => unfold call_or
  | |- within _ _ (recoveryWalletService _ _) => unfold recoveryWalletService
  | |- within _ _ (walletFeaturesService _ _) => unfold walletFeaturesService
  | |- within _ _ (minerService _ _) => unfold minerService
  | |- within _ _ (writeError _ _ _) => exact I
  | |- within _ _ (writeData _ _) => exact I
  | |- within _ _ (answer_data _ _) => exact I
  | |- within _ _ (writeServiceError _ _ _) => apply within_writeServiceError
  | |- within _ _ (Reply _) => exact I
  | |- within _ _ (Now _) => cbn [within]; intros ?
  | |- within _ _ (Locked _) => cbn [within]; intros ? ?; cbn [fst snd]
  | |- within _ _ (Call _ _) => cbn [within]; split; [|intros ?]
  | |- context [(match ?x with _ => _ end).1] => destruct x
  | |- _ /\ _ => split
  | |- forall _, _ => intros ?
  end.
Ltac within_solve := repeat (within_step; cbn [fst snd]); eauto with desk.

Section server.
Context `{NetText} `{JsonDecoder} (full_edition : bool) (embedded qr_encode : bytes -> result bytes) (s : Server).

(** ** How a request is served *)
(** A request that reaches a handler: the authorisation, then what the handler does in the
    session. *)
Inductive mode := Reading | Mutating.
Definition authorize (md : mode) (r : web_request) : (session -> task) -> task :=
  match md with Reading => authorizeRead r | Mutating => authorizeMutation s r end.
Definition call_mode (md : mode) (c : call) : Prop := reads c = match md with Reading => true | Mutating => false end.

(** What the handlers of previews do in a session. *)
Inductive preview_task (σ : session) : task -> Prop :=
  | preview_refused t : within neutral shrinks t -> preview_task σ t
  | preview_made c code message k :
      call_id c = None ->
      (forall d, exists id exp p k', preview_of c (inl d) = Some (id, exp, p) /\
         k d = rememberPending σ id exp p code message k' /\ within neutral shrinks k') ->
      (forall e, preview_of c (inr e) = None) ->
      preview_task σ (call_or c code message k)
  | preview_confirmed id p c code message :
      call_id c = Some id -> purpose_of c = Some p -> preview_task σ (confirmRememberedPending σ id p c code message)
  | preview_cancelled id : preview_task σ (cancelPending σ id).

Inductive served (r : web_request) : task -> Prop :=
  | served_refused a : served r (Reply a)
  | served_launch : allowedHost s (wr_Host r) = true -> served r (exchangeLaunchToken s r)
  | served_handler md k :
      allowedHost s (wr_Host r) = true ->
      (forall σ, within (call_mode md) keeps_sessions (k σ) /\ preview_task σ (k σ)) ->
      served r (authorize md r k).

Lemma within_neutral_both md σ t :
  within (fun c => neutral c /\ call_mode md c) (fun tb tb' => shrinks tb tb' /\ keeps_sessions tb tb') t ->
  within (call_mode md) keeps_sessions t /\ preview_task σ t.
Proof.
  intros Hw. split; [|apply preview_refused]; (eapply within_impl; [..|exact Hw]); naive_solver.
Qed.

Lemma remember_keeps P σ id exp p code message k :
  within P keeps_sessions k -> within P keeps_sessions (rememberPending σ id exp p code message k).
Proof.
  intros Hk. unfold rememberPending. cbn [within]. intros now. destruct (_ || _); [exact I|].
  cbn [within]. intros m tb. destruct (_ !! id); cbn [fst snd]; split; try exact I; try done; apply keeps_same.
Qed.
Lemma confirm_keeps (P : call -> Prop) σ id p c code message :
  P c -> within P keeps_sessions (confirmRememberedPending σ id p c code message).
Proof. intros Hc. unfold confirmRememberedPending. within_solve. Qed.
Lemma cancel_keeps (P : call -> Prop) σ id : P (CallCancelPreview id) -> within P keeps_sessions (cancelPending σ id).
Proof. intros Hc. unfold cancelPending. within_solve. Qed.

Lemma drop_shrinks tb T : shrinks tb (drop_entries tb T).
Proof. intros T' id p Hp. by apply entry_drop in Hp as [_ Hp]. Qed.

(** The handlers of one call that has nothing to do with previews. *)
Ltac plain_handler := intros σ; apply within_neutral_both; within_solve; by split.

Lemma refused_kept md σ t :
  (exists a, t = Reply a) -> within (call_mode md) keeps_sessions t /\ preview_task σ t.
Proof. intros [a ->]. split; [done|]. by apply preview_refused. Qed.

(** A preview that is made and remembered. *)
Lemma made_kept σ c code message k (f : data c -> bytes * Z * purpose) :
  call_id c = None -> reads c = false -> (forall d, preview_of c (inl d) = Some (f d)) -> (forall e, preview_of c (inr e) = None) ->
  (forall d, k d = rememberPending σ (f d).1.1 (f d).1.2 (f d).2 code message (answer_data c d)) ->
  within (call_mode Mutating) keeps_sessions (call_or c code message k) /\ preview_task σ (call_or c code message k).
Proof.
  intros Hid Hr Hp He Hk. split.
  - unfold call_or. cbn [within]. split; [done|]. intros [d|e]; [|apply within_writeServiceError].
    rewrite Hk. by apply remember_keeps.
  - apply preview_made; [done| |done]. intros d. rewrite Hp. destruct (f d) as [[id exp] p] eqn:Ef.
    exists id, exp, p, (answer_data c d). rewrite Hk, Ef. split; [done|]. by split.
Qed.
Lemma confirm_kept σ id p c code message :
  call_id c = Some id -> purpose_of c = Some p ->
  let t := confirmRememberedPending σ id p c code message in within (call_mode Mutating) keeps_sessions t /\ preview_task σ t.
Proof.
  intros Hid Hp. split; [|by apply preview_confirmed]. apply confirm_keeps. by destruct c.
Qed.
Lemma cancel_kept σ id :
  within (call_mode Mutating) keeps_sessions (cancelPending σ id) /\ preview_task σ (cancelPending σ id).
Proof. split; [|apply preview_cancelled]. by apply cancel_keeps. Qed.

(** The tests before the preview each end in a reply. *)
Ltac preview_handler :=
  intros σ; unfold walletFeaturesService; cbv zeta;
  repeat match goal with
         | |- context [match decodeJSONRequest _ with _ => _ end] => destruct (decodeJSONRequest _)
         | |- context [if ?b then _ else _] => destruct b
         end;
  try (apply refused_kept; eexists; reflexivity).

Lemma route_served r t :
  allowedHost s (wr_Host r) = true -> route_of (routes qr_encode s) r = Some t -> served r t.
Proof.
  intros Hh. unfold routes. cbn [route_of].
  repeat (case_bool_decide as Hp; [clear Hp; intros [= <-]|clear Hp]); [..|done].
  - apply (served_handler r Reading); [done|]. plain_handler.
  - apply (served_handler r Reading); [done|]. plain_handler.
  - apply (served_handler r Mutating); [done|]. plain_handler.
  - apply (served_handler r Mutating); [done|]. plain_handler.
  - apply (served_handler r Mutating); [done|]. plain_handler.
  - apply (served_handler r Mutating); [done|]. plain_handler.
  - apply (served_handler r Mutating); [done|]. intros σ; apply within_neutral_both; within_solve; try by split.
    apply drop_shrinks.
  - apply (served_handler r Mutating); [done|]. plain_handler.
  - apply (served_handler r Mutating); [done|]. plain_handler.
  - apply (served_handler r Mutating); [done|]. plain_handler.
  - apply (served_handler r Mutating); [done|]. preview_handler.
    by apply (made_kept σ (CallPreviewSend _) _ _ _ (fun d => (sv_PendingID d, sv_ExpiresAtUnix d, PurposeSend))).
  - apply (served_handler r Mutating); [done|]. preview_handler.
    by apply (made_kept σ (CallPreviewMaxSend _) _ _ _ (fun d => (sv_PendingID d, sv_ExpiresAtUnix d, PurposeSend))).
  - apply (served_handler r Mutating); [done|]. preview_handler. by apply confirm_kept.
  - apply (served_handler r Reading); [done|]. plain_handler.
  - apply (served_handler r Mutating); [done|]. preview_handler.
    by apply (made_kept σ (CallPreviewCleanup _) _ _ _ (fun d => (cv_PendingID d, cv_ExpiresAtUnix d, PurposeCleanup))).
  - apply (served_handler r Mutating); [done|]. preview_handler. by apply confirm_kept.
  - apply (served_handler r Mutating); [done|]. preview_handler. by apply cancel_kept.
Qed.

Lemma ServeHTTP_served r : served r (ServeHTTP full_edition embedded qr_encode s r).
Proof.
  unfold ServeHTTP. destruct (allowedHost s (wr_Host r)) eqn:Hh; cbn [negb]; [|apply served_refused].
  destruct (_ && _); [by apply served_launch|]. destruct (isAssetPath _ _).
  { apply (served_handler r Reading); [done|]. plain_handler. }
  destruct (route_of _ r) as [t|] eqn:Ed; [by apply route_served|].
  unfold handleEditionRoute. destruct full_edition; cbn [negb]; [|apply served_refused].
  repeat case_bool_decide; [..|apply served_refused].
  - apply (served_handler r Reading); [done|]. plain_handler.
  - apply (served_handler r Mutating); [done|]. plain_handler.
  - apply (served_handler r Mutating); [done|]. plain_handler.
Qed.

(** ** Sessions and authorisation *)
(** The request that exchanges the launch token. *)
Definition launches (r : web_request) : Prop :=
  allowedHost s (wr_Host r) = true /\ wr_Method r = MethodGet /\ query_Get r "token" = s_launchToken s.
Definition opens_session (e : event) : bool :=
  match e with ELocked _ _ before after => negb (t_launchConsumed before) && t_launchConsumed after | _ => false end.
(** The session [σ] was opened for the cookie [v] by a request with the launch token. *)
Definition opened (l : list event) (v : bytes) (σ : session) : Prop :=
  exists n r now before after csrf,
    EArrive n r ∈ l /\ launches r /\ ELocked n now before after ∈ l /\ opens_session (ELocked n now before after) = true /\
    t_sessions after = {[ v := σ ]} /\ σ = mkSession v csrf (i64 (now + sessionLifetime)).

(** Request [n] may make the call [c]: it named this host, and one of its sections under the
    lock found its session, opened with the launch token, and not expired; to change anything
    it was a POST of JSON from the page itself with the token of the session. *)
Definition authorised (l : list event) (n : nat) (c : call) : Prop :=
  exists r v σ now before after,
    EArrive n r ∈ l /\ allowedHost s (wr_Host r) = true /\ wr_Cookie r = Some v /\ opened l v σ /\
    ELocked n now before after ∈ l /\ t_sessions before !! v = Some σ /\ now < se_expiresAt σ /\
    if reads c then wr_Method r = MethodGet
    else wr_Method r = MethodPost /\ wr_Origin r = s_origin s /\ wr_mediaType r = Some (bs "application/json") /\
         wr_CSRF r = se_csrf σ.

Definition openings (l : list event) : nat := length (List.filter opens_session l).
Definition sess_inv (tb : tables) (l : list event) : Prop :=
  (forall v σ, t_sessions tb !! v = Some σ -> opened l v σ) /\
  (t_launchConsumed tb = false -> t_sessions tb = ∅ /\ openings l = 0%nat) /\ (openings l <= 1)%nat.

Lemma opened_mono l l' v σ : l ⊆ l' -> opened l v σ -> opened l' v σ.
Proof.
  intros Hl (n & r & now & b & a & csrf & H1 & H2 & H3 & H4 & H5 & H6).
  exists n, r, now, b, a, csrf. split_and!; try done; by apply Hl.
Qed.
Lemma authorised_mono l l' n c : l ⊆ l' -> authorised l n c -> authorised l' n c.
Proof.
  intros Hl (r & v & σ & now & b & a & H1 & H2 & H3 & H4 & H5 & H6 & H7 & H8).
  exists r, v, σ, now, b, a. split_and!; try done; [by apply Hl|by eapply opened_mono|by apply Hl].
Qed.
Lemma openings_snoc l e : openings (l ++ [e]) = (openings l + if opens_session e then 1 else 0)%nat.
Proof. unfold openings. rewrite List.filter_app, length_app. cbn. by destruct (opens_session e). Qed.
Lemma snoc_subseteq (l : list event) e : l ⊆ l ++ [e].
Proof. intros x Hx. apply elem_of_app. by left. Qed.
Lemma elem_of_snoc (l : list event) e : e ∈ l ++ [e].
Proof. apply elem_of_app. right. by apply list_elem_of_singleton. Qed.
Hint Resolve snoc_subseteq elem_of_snoc : desk.

Lemma sess_inv_quiet tb tb' l e :
  keeps_sessions tb tb' -> opens_session e = false -> sess_inv tb l -> sess_inv tb' (l ++ [e]).
Proof.
  intros [Hc Hs] He (H1 & H2 & H3). unfold sess_inv. rewrite openings_snoc, He, Nat.add_0_r. split_and!; [| |done].
  - intros v σ Hv. eapply opened_mono; [apply snoc_subseteq|]. apply H1. by eapply lookup_weaken.
  - rewrite Hc. intros E. destruct (H2 E) as [H4 ?]. split; [|done]. rewrite H4 in Hs. apply map_eq. intros v.
    destruct (t_sessions tb' !! v) as [σ|] eqn:Ev; [|done]. by apply (lookup_weaken _ ∅) in Ev.
Qed.
Lemma locked_quiet n now tb tb' : keeps_sessions tb tb' -> opens_session (ELocked n now tb tb') = false.
Proof. intros [Hc _]. cbn. rewrite Hc. by destruct (t_launchConsumed tb). Qed.

(** Every call of request [n] is authorised when it is made, and its sections respect the
    sessions. *)
Fixpoint authz (n : nat) (l : list event) (t : task) : Prop :=
  match t with
  | Reply _ => True
  | Now k => forall now l', l ⊆ l' -> authz n l' (k now)
  | Locked f => forall m tb l', l ⊆ l' -> moment_ok m -> sess_inv tb l' ->
      let l'' := l' ++ [ELocked n (mo_now m) tb (f m tb).1] in sess_inv (f m tb).1 l'' /\ authz n l'' (f m tb).2
  | Call c k => authorised l n c /\ forall o l', l ⊆ l' -> authz n l' (k o)
  end.

Lemma authz_mono n l l' t : l ⊆ l' -> authz n l t -> authz n l' t.
Proof.
  intros Hl. destruct t as [a|k|f|c k]; cbn [authz]; [done| | |].
  - intros Ht now l2 Hl2. apply Ht. set_solver.
  - intros Ht m tb l2 Hl2. apply Ht. set_solver.
  - intros [H1 H2]. split; [by eapply authorised_mono|]. intros o l2 Hl2. apply H2. set_solver.
Qed.

Lemma within_authz (P : call -> Prop) n l t :
  (forall c, P c -> authorised l n c) -> within P keeps_sessions t -> authz n l t.
Proof.
  revert l. induction t as [a|k IH|f IH|c k IH] using task_induction; cbn [within authz]; intros l HP; [done| | |].
  - intros Ht now l' Hl. apply IH; [|done]. intros c Hc. eapply authorised_mono; eauto.
  - intros Ht m tb l' Hl Hm Hi. destruct (Ht m tb) as [Hk Ht']. split; [apply (sess_inv_quiet tb); [done|by apply locked_quiet|done]|].
    apply IH; [|done]. intros c Hc. eapply authorised_mono; [|by apply HP]. set_solver.
  - intros [Hc Ht]. split; [by apply HP|]. intros o l' Hl. apply IH; [|done]. intros c' Hc'. eapply authorised_mono; eauto.
Qed.

Lemma same_secret_true a b : same_secret a b = true -> a = b.
Proof. unfold same_secret. intros E. apply negb_true_iff, orb_false_iff in E as [_ E]. by apply negb_false_iff, bool_decide_eq_true in E. Qed.

(** What a request knows of its session once it is authenticated. *)
Definition in_session (l : list event) (n : nat) (r : web_request) (σ : session) : Prop :=
  exists v now before after, wr_Cookie r = Some v /\ opened l v σ /\ ELocked n now before after ∈ l /\
    t_sessions before !! v = Some σ /\ now < se_expiresAt σ.

Lemma authenticate_authz n l r k :
  authz n l (k None) ->
  (forall l' σ, l ⊆ l' -> in_session l' n r σ -> authz n l' (k (Some σ))) ->
  authz n l (authenticate r k).
Proof.
  intros Hnone Hsome. unfold authenticate. destruct (wr_Cookie r) as [v|] eqn:Ev; [|done].
  destruct (negb _); [done|]. cbn [authz]. intros m tb l' Hl Hm Hi.
  destruct (t_sessions tb !! v) as [σ|] eqn:E; cbn [fst snd].
  2:{ split; [apply (sess_inv_quiet tb); [done|apply locked_quiet|]; done|]. eapply authz_mono; [|done]. set_solver. }
  destruct (se_expiresAt σ <=? mo_now m) eqn:Ex; cbn [fst snd].
  - assert (keeps_sessions tb (mkTables (t_launchConsumed tb) (delete v (t_sessions tb)) (delete v (t_pending tb)))) as Hk.
    { split; [done|]. apply delete_subseteq. }
    split; [apply (sess_inv_quiet tb); [done|by apply locked_quiet|done]|]. eapply authz_mono; [|done]. set_solver.
  - split; [apply (sess_inv_quiet tb); [done|apply locked_quiet|]; done|]. apply Hsome; [set_solver|].
    exists v, (mo_now m), tb, tb. apply Z.leb_gt in Ex. split_and!; try done; [|apply elem_of_snoc].
    eapply opened_mono; [apply snoc_subseteq|]. by apply Hi.
Qed.

Lemma exchange_authz n l r :
  EArrive n r ∈ l -> allowedHost s (wr_Host r) = true -> authz n l (exchangeLaunchToken s r).
Proof.
  intros Hn Hh. unfold exchangeLaunchToken. case_bool_decide as Hg; cbn [negb]; [|exact I]. cbn [authz].
  intros m tb l' Hl Hm Hi.
  destruct (t_launchConsumed tb) eqn:Ec; cbn [orb].
  { cbn [fst snd]. split; [|exact I]. apply (sess_inv_quiet tb); [done|apply locked_quiet|]; done. }
  destruct (same_secret _ _) eqn:Es; cbn [negb].
  2:{ cbn [fst snd]. split; [|exact I]. apply (sess_inv_quiet tb); [done|apply locked_quiet|]; done. }
  apply same_secret_true in Es.
  destruct (randomSecret (mo_first m)) as [token|]; cbn [fst snd].
  2:{ split; [|exact I]. apply (sess_inv_quiet tb); [done|apply locked_quiet|]; done. }
  destruct (randomSecret (mo_second m)) as [csrf|]; cbn [fst snd].
  2:{ split; [|exact I]. apply (sess_inv_quiet tb); [done|apply locked_quiet|]; done. }
  split; [|exact I]. destruct Hi as (_ & H2 & _). destruct (H2 Ec) as [Hemp Ho]. rewrite Hemp.
  set (tb' := mkTables true _ _). assert (opens_session (ELocked n (mo_now m) tb tb') = true) as Hop by (cbn; by rewrite Ec).
  unfold sess_inv. rewrite openings_snoc, Hop, Ho. split_and!; [|done|lia].
  intros v σ Hv. cbn in Hv. apply lookup_insert_Some in Hv as [[<- <-]|[_ Hv]]; [|by rewrite lookup_empty in Hv].
  exists n, r, (mo_now m), tb, tb', csrf. split_and!; try done.
  - apply elem_of_app. left. by apply Hl.
  - apply elem_of_snoc.
Qed.

Lemma session_authorised l n r σ md c :
  EArrive n r ∈ l -> allowedHost s (wr_Host r) = true -> in_session l n r σ ->
  match md with
  | Reading => wr_Method r = MethodGet
  | Mutating => wr_Method r = MethodPost /\ wr_Origin r = s_origin s /\ wr_mediaType r = Some (bs "application/json") /\
                wr_CSRF r = se_csrf σ
  end -> call_mode md c -> authorised l n c.
Proof.
  intros Hn Hh (v & now & b & a & Hv & Ho & Hl & Hb & Hx) Hm Hc.
  exists r, v, σ, now, b, a. split_and!; try done. unfold call_mode in Hc. rewrite Hc. by destruct md.
Qed.

Lemma authorize_authz n l md r k :
  EArrive n r ∈ l -> allowedHost s (wr_Host r) = true ->
  (forall σ, within (call_mode md) keeps_sessions (k σ)) -> authz n l (authorize md r k).
Proof.
  intros Hn Hh Hk. destruct md; cbn [authorize].
  - unfold authorizeRead. case_bool_decide as Hg; cbn [negb]; [|exact I].
    apply authenticate_authz; [exact I|]. intros l' σ Hl Hs. apply (within_authz (call_mode Reading)); [|done].
    intros c Hc. apply (session_authorised l' n r σ Reading); [by apply Hl|done..].
  - unfold authorizeMutation. case_bool_decide as Hg; cbn [negb]; [|exact I].
    apply authenticate_authz; [exact I|]. intros l' σ Hl Hs.
    case_bool_decide; cbn [negb]; [|exact I]. case_bool_decide; cbn [negb]; [|exact I].
    destruct (same_secret _ _) eqn:Es; cbn [negb]; [|exact I]. apply same_secret_true in Es.
    apply (within_authz (call_mode Mutating)); [|done].
    intros c Hc. apply (session_authorised l' n r σ Mutating); [by apply Hl|done..].
Qed.

Lemma served_authz n l r t : EArrive n r ∈ l -> served r t -> authz n l t.
Proof.
  intros Hn [a|Hh|md k Hh Hk]; [done|by apply exchange_authz|]. apply authorize_authz; [done..|]. intros σ. apply Hk.
Qed.

(** *** Runs *)
Definition prog_authz (n : nat) (l : list event) (p : progress) : Prop :=
  match p with
  | Running t => authz n l t
  | Waiting c k => forall o l', l ⊆ l' -> authz n l' (k o)
  | Answered _ => True
  end.
Definition calls_authorised (l : list event) : Prop :=
  forall l1 n c l2, l = l1 ++ EInvoke n c :: l2 -> authorised l1 n c.
Definition desk_auth (d : desk) : Prop :=
  sess_inv (dk_tables d) (dk_log d) /\ calls_authorised (dk_log d) /\
  forall n p, dk_requests d !! n = Some p -> prog_authz n (dk_log d) p.

Lemma prog_authz_mono n l l' p : l ⊆ l' -> prog_authz n l p -> prog_authz n l' p.
Proof.
  intros Hl. destruct p as [t|c k|a]; cbn; [by apply authz_mono| |done]. intros Hk o l2 Hl2. apply Hk. set_solver.
Qed.
Lemma snoc_split {A} (l l1 l2 : list A) e e' :
  l ++ [e] = l1 ++ e' :: l2 -> (l = l1 /\ e = e' /\ l2 = []) \/ exists l3, l2 = l3 ++ [e] /\ l = l1 ++ e' :: l3.
Proof.
  intros E. destruct l2 as [|x l2 _] using rev_ind; [left; apply app_inj_tail in E; naive_solver|].
  right. exists l2. rewrite app_comm_cons, app_assoc in E. apply app_inj_tail in E as [-> ->]. done.
Qed.
Lemma calls_authorised_snoc l e :
  calls_authorised l -> (forall n c, e = EInvoke n c -> authorised l n c) -> calls_authorised (l ++ [e]).
Proof.
  intros Hl He l1 n c l2 E. apply snoc_split in E as [(-> & -> & _)|(l3 & _ & ->)]; [by apply He|by eapply Hl].
Qed.

Lemma progress_authz d n p p0 tb e :
  desk_auth d -> dk_requests d !! n = Some p0 -> sess_inv tb (dk_log d ++ [e]) ->
  (forall n' c, e = EInvoke n' c -> authorised (dk_log d) n' c) -> prog_authz n (dk_log d ++ [e]) p ->
  desk_auth (set_progress d n tb p e).
Proof.
  intros (_ & Hc & Hp) Hn Hs He Hnew. unfold set_progress, desk_auth. cbn [dk_tables dk_log dk_requests].
  split; [done|]. split; [by apply calls_authorised_snoc|]. intros n' p' Hn'.
  apply list_lookup_insert_Some in Hn' as [(<- & <- & _)|[_ Hn']]; [done|].
  eapply prog_authz_mono; [apply snoc_subseteq|]. by apply Hp.
Qed.

Abbreviation step := (desk_step full_edition embedded qr_encode s).
Abbreviation run := (desk_run full_edition embedded qr_encode s).

Lemma step_authz d d' : desk_auth d -> step d d' -> desk_auth d'.
Proof.
  intros Hd Hstep. pose proof Hd as (Hs & Hc & Hp).
  assert (forall e, opens_session e = false -> sess_inv (dk_tables d) (dk_log d ++ [e])) as Hq.
  { intros e He. by apply (sess_inv_quiet (dk_tables d)). }
  destruct Hstep as [d r|d n k now Hn|d n f m Hn Hm|d n c k Hn|d n c k o Hn|d n a Hn].
  - split; [by apply Hq|]. split; [by apply calls_authorised_snoc|]. cbn [dk_requests dk_log]. intros n p Hn.
    apply lookup_app_Some in Hn as [Hn|[Hlen Hn]].
    + eapply prog_authz_mono; [apply snoc_subseteq|]. by apply Hp.
    + apply list_lookup_singleton_Some in Hn as [H1 <-]. replace n with (length (dk_requests d)) by lia.
      eapply served_authz; [apply elem_of_snoc|]. apply ServeHTTP_served.
  - eapply progress_authz; [done..|by apply Hq|done|]. apply (Hp _ _ Hn). apply snoc_subseteq.
  - destruct (Hp _ _ Hn m (dk_tables d) (dk_log d)) as [H1 H2]; [done..|].
    by eapply progress_authz.
  - destruct (Hp _ _ Hn) as [H1 H2]. eapply progress_authz; [done..|by apply Hq| |].
    + by intros n' c' [= <- <-].
    + intros o l' Hl. apply H2. set_solver.
  - eapply progress_authz; [done..|by apply Hq|done|]. apply (Hp _ _ Hn). apply snoc_subseteq.
  - by eapply progress_authz; [done..|apply Hq|done|].
Qed.

Lemma run_authz d : run d -> desk_auth d.
Proof.
  induction 1 as [|d d' _ IH Hstep]; [|by eapply step_authz].
  split; [|split].
  - split; [intros v σ Hv; cbn [dk_tables t_sessions] in Hv; by rewrite lookup_empty in Hv|]. split; [done|cbn; lia].
  - intros l1 n c l2 E. by destruct l1.
  - done.
Qed.

(** ** Previews and payments *)
Definition issued_by (e : event) : option bytes :=
  match e with
  | EReturn _ c o => match preview_of c o with Some (id, _, _) => Some id | None => None end
  | _ => None
  end.
(** The identifiers of the previews that the service handed out. *)
Definition issued (l : list event) : list bytes := omap issued_by l.

(** The preview was handed out to a request of this session. *)
Definition previewed (l : list event) (T id : bytes) (exp : Z) (p : purpose) : Prop :=
  exists n r c o, EArrive n r ∈ l /\ wr_Cookie r = Some T /\ EReturn n c o ∈ l /\ preview_of c o = Some (id, exp, p).
Definition no_calls (l : list event) (id : bytes) : Prop := forall n c, EInvoke n c ∈ l -> call_id c <> Some id.
(** Every earlier call on the preview has come back with an error. *)
Definition failed_calls (l : list event) (id : bytes) : Prop :=
  forall n c, EInvoke n c ∈ l -> call_id c = Some id -> exists err, EReturn n c (inr err) ∈ l.

(** A call on a preview is in order: the preview was handed out to the same session, for the
    purpose of the call, it had not expired when the request looked at the clock, and all
    earlier calls on it have failed. *)
Definition payment_ok (l : list event) (n : nat) (c : call) : Prop :=
  forall id, call_id c = Some id -> failed_calls l id /\
    exists r T exp p now, EArrive n r ∈ l /\ wr_Cookie r = Some T /\ previewed l T id exp p /\ ENow n now ∈ l /\ now < exp /\
      (purpose_of c = Some p \/ purpose_of c = None).

(** Who owns a preview, and how far the owner is. *)
Inductive phase :=
  | Fresh
  | Claimed (T : bytes)
  | Calling (T : bytes) (n : nat) (c : call)
  | Closing.
Definition phase_ok (tb : tables) (l : list event) (id : bytes) (ph : phase) : Prop :=
  match ph with
  | Fresh => no_calls l id /\ forall T p, ~ entry tb T id p
  | Claimed T => failed_calls l id /\ forall T' p, entry tb T' id p -> T' = T
  | Calling T n c => (forall n' c', EInvoke n' c' ∈ l -> call_id c' = Some id ->
                        (n' = n /\ c' = c) \/ exists err, EReturn n' c' (inr err) ∈ l) /\
                     forall T' p, entry tb T' id p -> T' = T
  | Closing => True
  end.

Record pay_inv (tb : tables) (l : list event) (G : gmap bytes (nat * phase)) : Prop := {
  pi_one : forall T T' id p p', entry tb T id p -> entry tb T' id p' -> T = T';
  pi_issued : forall T id p, entry tb T id p -> id ∈ issued l;
  pi_phase : forall id n ph, G !! id = Some (n, ph) -> id ∈ issued l /\ phase_ok tb l id ph;
  pi_flight : forall T id p, entry tb T id p -> ps_inFlight p = true -> is_Some (G !! id);
  pi_idle : forall T id p, entry tb T id p -> ps_inFlight p = false -> G !! id = None /\ failed_calls l id;
  pi_calls : forall n c id, EInvoke n c ∈ l -> call_id c = Some id -> id ∈ issued l;
  pi_previewed : forall T id p, entry tb T id p -> previewed l T id (ps_expiresAt p) (ps_purpose p);
}.

Lemma issued_snoc l e : issued (l ++ [e]) = issued l ++ match issued_by e with Some id => [id] | None => [] end.
Proof. unfold issued. rewrite omap_app. cbn. by destruct (issued_by e). Qed.
Lemma issued_mono l l' id : l ⊆ l' -> id ∈ issued l -> id ∈ issued l'.
Proof. unfold issued. rewrite !list_elem_of_omap. intros Hl (e & He & Hi). exists e. split; [by apply Hl|done]. Qed.
Lemma previewed_mono l l' T id exp p : l ⊆ l' -> previewed l T id exp p -> previewed l' T id exp p.
Proof. intros Hl (n & r & c & o & H1 & H2 & H3 & H4). exists n, r, c, o. split_and!; try done; by apply Hl. Qed.

(** An event that calls nothing on a preview keeps the facts on calls. *)
Lemma no_calls_snoc l e id :
  (forall n c, e = EInvoke n c -> call_id c <> Some id) -> no_calls l id -> no_calls (l ++ [e]) id.
Proof.
  intros He Hl n c Hin. apply elem_of_app in Hin as [Hin|Hin]; [by eapply Hl|].
  apply list_elem_of_singleton in Hin. by eapply He.
Qed.
Lemma failed_calls_snoc l e id :
  (forall n c, e = EInvoke n c -> call_id c <> Some id) -> failed_calls l id -> failed_calls (l ++ [e]) id.
Proof.
  intros He Hl n c Hin Hid. apply elem_of_app in Hin as [Hin|Hin].
  - destruct (Hl n c Hin Hid) as [err Hr]. exists err. by apply snoc_subseteq.
  - apply list_elem_of_singleton in Hin. by destruct (He n c (eq_sym Hin)).
Qed.
Lemma phase_ok_snoc tb l e id ph :
  (forall n c, e = EInvoke n c -> call_id c <> Some id) -> phase_ok tb l id ph -> phase_ok tb (l ++ [e]) id ph.
Proof.
  intros He. destruct ph as [|T|T n c|]; cbn [phase_ok]; [| | |done].
  - intros [H1 H2]. split; [by apply no_calls_snoc|done].
  - intros [H1 H2]. split; [by apply failed_calls_snoc|done].
  - intros [H1 H2]. split; [|done]. intros n' c' Hin Hid. apply elem_of_app in Hin as [Hin|Hin].
    + destruct (H1 n' c' Hin Hid) as [Heq|[err Hr]]; [by left|]. right. exists err. by apply snoc_subseteq.
    + apply list_elem_of_singleton in Hin. by destruct (He n' c' (eq_sym Hin)).
Qed.

Lemma pay_inv_log tb l G e :
  (forall n c, e = EInvoke n c -> call_id c = None) -> pay_inv tb l G -> pay_inv tb (l ++ [e]) G.
Proof.
  intros He [H1 H2 H3 H4 H5 H6 H7]. pose proof (snoc_subseteq l e) as Hl.
  assert (forall id n c, e = EInvoke n c -> call_id c <> Some id) as He'.
  { intros id n c E. by rewrite (He n c E). }
  split; try done.
  - intros T id p Hp. eapply issued_mono; eauto.
  - intros id n ph Hg. destruct (H3 id n ph Hg). split; [by eapply issued_mono|]. apply phase_ok_snoc; [apply He'|done].
  - intros T id p Hp Hf. destruct (H5 T id p Hp Hf). split; [done|]. apply failed_calls_snoc; [apply He'|done].
  - intros n c id Hin Hid. apply elem_of_app in Hin as [Hin|Hin]; [eapply issued_mono; eauto|].
    apply list_elem_of_singleton in Hin. by destruct (He' id n c (eq_sym Hin)).
  - intros T id p Hp. eapply previewed_mono; eauto.
Qed.

Lemma pay_inv_shrink tb tb' l G : shrinks tb tb' -> pay_inv tb l G -> pay_inv tb' l G.
Proof.
  intros Hs [H1 H2 H3 H4 H5 H6 H7]. unfold shrinks in Hs. split.
  { intros T T' id p p' Hp Hp'. by eapply H1; apply Hs. }
  { intros T id p Hp. by eapply H2, Hs. }
  2:{ intros T id p Hp. by apply (H4 T id p), Hs. }
  2:{ intros T id p Hp. by apply (H5 T id p), Hs. }
  2:{ done. }
  2:{ intros T id p Hp. by apply H7, Hs. }
  intros id n ph Hg. destruct (H3 id n ph Hg) as [H8 H9]. split; [done|].
  destruct ph as [|T|T n' c|]; cbn [phase_ok] in *; try done; (destruct H9 as [H9 H10]; split; [exact H9|]).
  - intros T p Hp. by apply (H10 T p), Hs.
  - intros T' p Hp. by eapply H10, Hs.
  - intros T' p Hp. by eapply H10, Hs.
Qed.

Lemma phase_ok_tables tb tb' l id ph :
  (forall T p, entry tb' T id p -> exists q, entry tb T id q) -> phase_ok tb l id ph -> phase_ok tb' l id ph.
Proof.
  intros He. destruct ph as [|T|T n c|]; cbn [phase_ok]; [| | |done]; (intros [H1 H2]; split; [exact H1|]).
  - intros T p Hp. destruct (He T p Hp) as [q Hq]. by apply (H2 T q).
  - intros T' p Hp. destruct (He T' p Hp) as [q Hq]. by apply (H2 T' q).
  - intros T' p Hp. destruct (He T' p Hp) as [q Hq]. by apply (H2 T' q).
Qed.
Lemma mark_entries tb T id0 b T' id p :
  entry (mark_entry tb T id0 b) T' id p ->
  exists q, entry tb T' id q /\ ps_expiresAt p = ps_expiresAt q /\ ps_purpose p = ps_purpose q /\
    ps_inFlight p = if decide (T' = T /\ id = id0) then b else ps_inFlight q.
Proof. rewrite entry_mark. destruct (decide _); [intros (q & Hq & ->); eauto|eauto]. Qed.

(** The facts that do not depend on the flags. *)
Lemma mark_inv tb l G G' T id0 b :
  pay_inv tb l G ->
  (forall id n ph, G' !! id = Some (n, ph) -> id ∈ issued l /\ phase_ok tb l id ph) ->
  (forall T' id q, entry tb T' id q -> let flag := if decide (T' = T /\ id = id0) then b else ps_inFlight q in
     (flag = true -> is_Some (G' !! id)) /\ (flag = false -> G' !! id = None /\ failed_calls l id)) ->
  pay_inv (mark_entry tb T id0 b) l G'.
Proof.
  intros [H1 H2 H3 H4 H5 H6 H7] Hg Hf. split.
  - intros T1 T2 id p p' Hp Hp'. apply mark_entries in Hp as (q & Hq & _). apply mark_entries in Hp' as (q' & Hq' & _). eauto.
  - intros T' id p Hp. apply mark_entries in Hp as (q & Hq & _). eauto.
  - intros id n ph Hi. destruct (Hg id n ph Hi). split; [done|]. eapply phase_ok_tables; [|done].
    intros T' p Hp. apply mark_entries in Hp as (q & Hq & _). eauto.
  - intros T' id p Hp. apply mark_entries in Hp as (q & Hq & _ & _ & ->). by apply (Hf T' id q).
  - intros T' id p Hp. apply mark_entries in Hp as (q & Hq & _ & _ & ->). by apply (Hf T' id q).
  - done.
  - intros T' id p Hp. apply mark_entries in Hp as (q & Hq & -> & -> & _). by apply H7.
Qed.

Lemma claim_inv tb l G n T id p :
  pay_inv tb l G -> entry tb T id p -> ps_inFlight p = false ->
  G !! id = None /\ pay_inv (mark_entry tb T id true) l (<[id := (n, Claimed T)]> G).
Proof.
  intros Hi Hp Hf. destruct (pi_idle _ _ _ Hi T id p Hp Hf) as [Hn Hfc]. split; [done|]. apply (mark_inv tb l G); [done|..].
  - intros id' n' ph Hg. apply lookup_insert_Some in Hg as [[<- [= <- <-]]|[_ Hg]]; [|by eapply pi_phase].
    split; [by eapply pi_issued|]. split; [done|]. intros T' p' Hp'. by eapply pi_one.
  - intros T' id' q Hq. destruct (decide (T' = T /\ id' = id)) as [[-> ->]|Hne]; cbv zeta.
    + split; [|done]. intros _. rewrite lookup_insert_eq. by eexists.
    + assert (id' <> id) as Hid. { intros ->. apply Hne. split; [|done]. by eapply pi_one. }
      rewrite lookup_insert_ne by done. split; [by apply (pi_flight _ _ _ Hi T' id' q)|by apply (pi_idle _ _ _ Hi T' id' q)].
Qed.

Lemma release_pay tb l G n T id :
  pay_inv tb l G -> G !! id = Some (n, Claimed T) -> pay_inv (mark_entry tb T id false) l (delete id G).
Proof.
  intros Hi Hg. destruct (pi_phase _ _ _ Hi _ _ _ Hg) as [Hiss [Hfc Hone]]. apply (mark_inv tb l G); [done|..].
  - intros id' n' ph Hg'. apply lookup_delete_Some in Hg' as [_ Hg']. by eapply pi_phase.
  - intros T' id' q Hq. destruct (decide (T' = T /\ id' = id)) as [[-> ->]|Hne]; cbv zeta.
    + split; [done|]. intros _. by rewrite lookup_delete_eq.
    + assert (id' <> id) as Hid. { intros ->. apply Hne. split; [|done]. by eapply Hone. }
      rewrite lookup_delete_ne by done. split; [by apply (pi_flight _ _ _ Hi T' id' q)|by apply (pi_idle _ _ _ Hi T' id' q)].
Qed.

(** The owner of a preview moves on: the tables stay, the log grows. *)
Lemma phase_inv tb l e G n id ph ph' :
  pay_inv tb l G -> G !! id = Some (n, ph) ->
  (forall n' c' id', e = EInvoke n' c' -> call_id c' = Some id' -> id' = id) ->
  phase_ok tb (l ++ [e]) id ph' -> pay_inv tb (l ++ [e]) (<[id := (n, ph')]> G).
Proof.
  intros [H1 H2 H3 H4 H5 H6 H7] Hg He Hph. pose proof (snoc_subseteq l e) as Hl.
  destruct (H3 id n ph Hg) as [Hiss _]. split.
  - done.
  - intros T id' p Hp. eapply issued_mono; eauto.
  - intros id' n' ph2 Hg'. apply lookup_insert_Some in Hg' as [[<- [= <- <-]]|[Hne Hg']].
    + split; [by eapply issued_mono|done].
    + destruct (H3 _ _ _ Hg'). split; [by eapply issued_mono|]. apply phase_ok_snoc; [|done].
      intros n2 c2 E Hid. by destruct Hne; rewrite (He _ _ _ E Hid).
  - intros T id' p Hp Hf. destruct (decide (id' = id)) as [->|Hne]; [rewrite lookup_insert_eq; by eexists|].
    rewrite lookup_insert_ne by done. by eapply H4.
  - intros T id' p Hp Hf. destruct (H5 T id' p Hp Hf) as [Hn Hfc]. assert (id <> id') as Hne by (intros ->; congruence).
    rewrite lookup_insert_ne by done. split; [done|]. apply failed_calls_snoc; [|done].
    intros n2 c2 E Hid. by destruct Hne; rewrite (He _ _ _ E Hid).
  - intros n2 c2 id' Hin Hid. apply elem_of_app in Hin as [Hin|Hin]; [eapply issued_mono; eauto|].
    apply list_elem_of_singleton in Hin. rewrite (He n2 c2 id' (eq_sym Hin) Hid). by eapply issued_mono.
  - intros T id' p Hp. eapply previewed_mono; eauto.
Qed.

Lemma invoke_inv tb l G n T id c :
  pay_inv tb l G -> G !! id = Some (n, Claimed T) -> call_id c = Some id ->
  pay_inv tb (l ++ [EInvoke n c]) (<[id := (n, Calling T n c)]> G).
Proof.
  intros Hi Hg Hid. destruct (pi_phase _ _ _ Hi _ _ _ Hg) as [_ [Hfc Hone]]. eapply phase_inv; [done..| |].
  - intros n' c' id' [= <- <-]. congruence.
  - split; [|done]. intros n' c' Hin Hc. apply elem_of_app in Hin as [Hin|Hin].
    + right. destruct (Hfc n' c' Hin Hc) as [err Hr]. exists err. by apply snoc_subseteq.
    + apply list_elem_of_singleton in Hin. injection Hin as -> ->. by left.
Qed.
Lemma failure_inv tb l G n T id c err :
  pay_inv tb l G -> G !! id = Some (n, Calling T n c) ->
  pay_inv tb (l ++ [EReturn n c (inr err)]) (<[id := (n, Claimed T)]> G).
Proof.
  intros Hi Hg. destruct (pi_phase _ _ _ Hi _ _ _ Hg) as [_ [Hfc Hone]]. eapply phase_inv; [done..|].
  split; [|done]. intros n' c' Hin Hc. apply elem_of_app in Hin as [Hin|Hin]; [|by apply list_elem_of_singleton in Hin].
  destruct (Hfc n' c' Hin Hc) as [[-> ->]|[e Hr]]; [exists err; apply elem_of_snoc|exists e; by apply snoc_subseteq].
Qed.
Lemma success_inv tb l G n T id c d :
  pay_inv tb l G -> G !! id = Some (n, Calling T n c) ->
  pay_inv tb (l ++ [EReturn n c (inl d)]) (<[id := (n, Closing)]> G).
Proof. intros Hi Hg. by eapply phase_inv. Qed.

Lemma fresh_inv tb l G n c o id exp p :
  pay_inv tb l G -> preview_of c o = Some (id, exp, p) -> NoDup (issued (l ++ [EReturn n c o])) ->
  G !! id = None /\ pay_inv tb (l ++ [EReturn n c o]) (<[id := (n, Fresh)]> G).
Proof.
  intros Hi Hp Hd. rewrite issued_snoc in Hd. cbn [issued_by] in Hd. rewrite Hp in Hd.
  assert (id ∉ issued l) as Hnew. { intros Hin. apply NoDup_app in Hd as (_ & Hd & _). by apply (Hd id Hin), list_elem_of_singleton. }
  assert (G !! id = None) as Hg.
  { destruct (G !! id) as [[n' ph]|] eqn:E; [|done]. by destruct Hnew, (pi_phase _ _ _ Hi _ _ _ E). }
  split; [done|]. assert (pay_inv tb (l ++ [EReturn n c o]) G) as Hi' by (by apply pay_inv_log).
  split; try apply Hi'.
  - intros id' n' ph Hg'. apply lookup_insert_Some in Hg' as [[<- [= <- <-]]|[_ Hg']]; [|by eapply (pi_phase _ _ _ Hi')].
    split.
    { rewrite issued_snoc. cbn [issued_by]. rewrite Hp. apply elem_of_app. right. by apply list_elem_of_singleton. }
    split; [|intros T q Hq; by apply Hnew, (pi_issued _ _ _ Hi T id q)].
    apply no_calls_snoc; [done|]. intros n' c' Hin Hid. by apply Hnew, (pi_calls _ _ _ Hi n' c').
  - intros T id' q Hq Hf. destruct (decide (id' = id)) as [->|Hne]; [rewrite lookup_insert_eq; by eexists|].
    rewrite lookup_insert_ne by done. by eapply (pi_flight _ _ _ Hi').
  - intros T id' q Hq Hf. rewrite lookup_insert_ne; [by eapply (pi_idle _ _ _ Hi')|].
    intros <-. by apply Hnew, (pi_issued _ _ _ Hi T id q).
Qed.

Lemma remember_pay tb l G n T id kept exp p :
  pay_inv tb l G -> G !! id = Some (n, Fresh) -> previewed l T id exp p ->
  (forall i q, kept !! i = Some q -> entry tb T i q) ->
  pay_inv (set_entries tb T (<[id := mkPendingSend exp false p]> kept)) l (delete id G).
Proof.
  intros Hi Hg Hpre Hk. destruct (pi_phase _ _ _ Hi _ _ _ Hg) as [Hiss [Hnc Hne]].
  set (tb' := set_entries _ _ _).
  assert (forall T' i q, entry tb' T' i q -> (T' = T /\ i = id /\ q = mkPendingSend exp false p) \/ (i <> id /\ entry tb T' i q)) as Hold.
  { intros T' i q. unfold tb'. rewrite entry_set. destruct (decide (T' = T)) as [->|HT].
    - rewrite lookup_insert_Some. intros [[<- <-]|[Hid Hq]]; [by left|]. right. split; [done|]. by apply Hk.
    - intros Hq. right. split; [|done]. intros ->. by apply (Hne T' q). }
  split.
  - intros T1 T2 i q q' H1 H2. destruct (Hold _ _ _ H1) as [(-> & -> & _)|[Hn1 Hq1]]; destruct (Hold _ _ _ H2) as [(-> & ? & _)|[Hn2 Hq2]];
      [done|done|done|by eapply (pi_one _ _ _ Hi)].
  - intros T' i q Hq. destruct (Hold _ _ _ Hq) as [(-> & -> & _)|[_ Hq']]; [done|by eapply (pi_issued _ _ _ Hi)].
  - intros i n' ph Hg'. apply lookup_delete_Some in Hg' as [Hid Hg']. destruct (pi_phase _ _ _ Hi _ _ _ Hg'). split; [done|].
    eapply phase_ok_tables; [|done]. intros T' q Hq. destruct (Hold _ _ _ Hq) as [(-> & -> & _)|[_ Hq']]; [done|by exists q].
  - intros T' i q Hq Hf. destruct (Hold _ _ _ Hq) as [(-> & -> & ->)|[Hid Hq']]; [done|].
    rewrite lookup_delete_ne by done. by eapply (pi_flight _ _ _ Hi).
  - intros T' i q Hq Hf. destruct (Hold _ _ _ Hq) as [(-> & -> & ->)|[Hid Hq']].
    + split; [by rewrite lookup_delete_eq|]. intros n' c' Hin Hc. by destruct (Hnc n' c' Hin).
    + rewrite lookup_delete_ne by done. by eapply (pi_idle _ _ _ Hi).
  - apply Hi.
  - intros T' i q Hq. destruct (Hold _ _ _ Hq) as [(-> & -> & ->)|[Hid Hq']]; [done|by apply (pi_previewed _ _ _ Hi)].
Qed.

(** *** The owner of a preview *)
Definition holds (G : gmap bytes (nat * phase)) (n : nat) (own : option (bytes * phase)) : Prop :=
  match own with Some (id, ph) => G !! id = Some (n, ph) | None => True end.
(** What the other requests own stays. *)
Definition frame (n : nat) (G G' : gmap bytes (nat * phase)) : Prop :=
  forall id n' ph, n' <> n -> G !! id = Some (n', ph) -> G' !! id = Some (n', ph).

Lemma frame_refl n G : frame n G G.
Proof. by intros id n' ph. Qed.
Lemma frame_new n G id ph : G !! id = None -> frame n G (<[id := (n, ph)]> G).
Proof. intros Hn id' n' ph' _ Hg. rewrite lookup_insert_ne; [done|congruence]. Qed.
Lemma frame_own n G id ph ph' : G !! id = Some (n, ph) -> frame n G (<[id := (n, ph')]> G).
Proof. intros Ho id' n' ph2 Hne Hg. rewrite lookup_insert_ne; [done|congruence]. Qed.
Lemma frame_delete n G id ph : G !! id = Some (n, ph) -> frame n G (delete id G).
Proof. intros Ho id' n' ph2 Hne Hg. rewrite lookup_delete_ne; [done|congruence]. Qed.
Lemma holds_insert G n id ph : holds (<[id := (n, ph)]> G) n (Some (id, ph)).
Proof. cbn. by rewrite lookup_insert_eq. Qed.
Lemma holds_frame G G' n n' own : n' <> n -> frame n G G' -> holds G n' own -> holds G' n' own.
Proof. intros Hne Hf. destruct own as [[id ph]|]; [|done]. by apply Hf. Qed.

Fixpoint safe (n : nat) (l : list event) (own : option (bytes * phase)) (t : task) : Prop :=
  match t with
  | Reply _ => True
  | Now k => forall now l', l ⊆ l' -> ENow n now ∈ l' -> safe n l' own (k now)
  | Locked f => forall m tb l' G, l ⊆ l' -> sess_inv tb l' -> holds G n own -> pay_inv tb l' G ->
      let l'' := l' ++ [ELocked n (mo_now m) tb (f m tb).1] in
      exists own' G', frame n G G' /\ holds G' n own' /\ pay_inv (f m tb).1 l'' G' /\ safe n l'' own' (f m tb).2
  | Call c k => exists own1,
      (forall tb l' G, l ⊆ l' -> holds G n own -> pay_inv tb l' G ->
         payment_ok l' n c /\ exists G', frame n G G' /\ holds G' n own1 /\ pay_inv tb (l' ++ [EInvoke n c]) G') /\
      forall o tb l' G, l ⊆ l' -> holds G n own1 -> pay_inv tb l' G -> NoDup (issued (l' ++ [EReturn n c o])) ->
        let l'' := l' ++ [EReturn n c o] in
        exists own' G', frame n G G' /\ holds G' n own' /\ pay_inv tb l'' G' /\ safe n l'' own' (k o)
  end.

Lemma safe_mono n l l' own t : l ⊆ l' -> safe n l own t -> safe n l' own t.
Proof.
  intros Hl. destruct t as [a|k|f|c k]; cbn [safe]; [done| | |].
  - intros Ht now l2 Hl2. apply Ht. set_solver.
  - intros Ht m tb l2 G Hl2. apply Ht. set_solver.
  - intros (own1 & H1 & H2). exists own1. split.
    + intros tb l2 G Hl2. apply H1. set_solver.
    + intros o tb l2 G Hl2. apply H2. set_solver.
Qed.

(** A section that only removes previews. *)
Lemma shrink_safe n l own (f : moment -> tables -> tables * task) :
  (forall m tb, shrinks tb (f m tb).1) -> (forall m tb l', l ⊆ l' -> safe n l' own (f m tb).2) -> safe n l own (Locked f).
Proof.
  intros Hs Hk m tb l' G Hl _ Ho Hi. exists own, G. split_and!; [apply frame_refl|done| |apply Hk; set_solver].
  apply pay_inv_log; [done|]. by eapply pay_inv_shrink.
Qed.
(** A call that no preview depends on. *)
Lemma neutral_call n l own c k :
  call_id c = None ->
  (forall o tb l' G, l ⊆ l' -> holds G n own -> pay_inv tb l' G -> NoDup (issued (l' ++ [EReturn n c o])) ->
     let l'' := l' ++ [EReturn n c o] in
     exists own' G', frame n G G' /\ holds G' n own' /\ pay_inv tb l'' G' /\ safe n l'' own' (k o)) ->
  safe n l own (Call c k).
Proof.
  intros Hc Hk. exists own. split; [|done]. intros tb l' G Hl Ho Hi. split; [intros id Hid; congruence|].
  exists G. split_and!; [apply frame_refl|done|]. apply pay_inv_log; [|done]. by intros n' c' [= <- <-].
Qed.

Lemma within_safe n l own t : within neutral shrinks t -> safe n l own t.
Proof.
  revert l. induction t as [a|k IH|f IH|c k IH] using task_induction; cbn [within]; intros l; [done| | |].
  - intros Ht now l' _ _. by apply IH.
  - intros Ht. apply shrink_safe; [intros m tb; by apply Ht|]. intros m tb l' _. apply IH, Ht.
  - intros [[Hc Hp] Ht]. apply neutral_call; [done|]. intros o tb l' G Hl Ho Hi _. exists own, G.
    split_and!; [apply frame_refl|done|by apply pay_inv_log|by apply IH].
Qed.

Lemma remember_safe n l σ id exp p code message k :
  previewed l (se_token σ) id exp p -> within neutral shrinks k ->
  safe n l (Some (id, Fresh)) (rememberPending σ id exp p code message k).
Proof.
  intros Hp Hk now l1 Hl1 _. destruct (_ || _); [done|]. intros m tb l' G Hl _ Ho Hi.
  set (kept := filter _ _).
  assert (forall i q, kept !! i = Some q -> entry tb (se_token σ) i q) as Hkept.
  { intros i q Hq. by apply map_lookup_filter_Some in Hq as [Hq _]. }
  assert (shrinks tb (set_entries tb (se_token σ) kept)) as Hs.
  { intros T' i q. rewrite entry_set. destruct (decide _) as [->|]; [apply Hkept|done]. }
  cbv zeta. match goal with |- context [match ?x with Some _ => _ | None => _ end] => destruct x end; cbn [fst snd].
  - exists None, G. split_and!; [apply frame_refl|done| |exact I]. apply pay_inv_log; [done|]. by eapply pay_inv_shrink.
  - exists None, (delete id G). split_and!; [by eapply frame_delete|done| |by apply within_safe].
    apply pay_inv_log; [done|]. eapply remember_pay; [done..| |done]. eapply previewed_mono; [|done]. set_solver.
Qed.

(** The call on a claimed preview, up to its release or removal. *)
Lemma claimed_safe n l r T id exp p now c k :
  call_id c = Some id -> (purpose_of c = Some p \/ purpose_of c = None) ->
  EArrive n r ∈ l -> wr_Cookie r = Some T -> previewed l T id exp p -> ENow n now ∈ l -> now < exp ->
  (forall err, exists t, k (inr err) = Locked (fun _ tb => (mark_entry tb T id false, t)) /\ within neutral shrinks t) ->
  (forall d, within neutral shrinks (k (inl d))) ->
  safe n l (Some (id, Claimed T)) (Call c k).
Proof.
  intros Hc Hpu Hn Hr Hp Hnow Hx Herr Hok. exists (Some (id, Calling T n c)). split.
  - intros tb l' G Hl Ho Hi. split.
    + intros id' Hid. assert (id' = id) as -> by congruence. split; [by apply (pi_phase _ _ _ Hi _ _ _ Ho)|].
      exists r, T, exp, p, now. split_and!; try done; try (by apply Hl). by eapply previewed_mono.
    + exists (<[id := (n, Calling T n c)]> G). split_and!; [by eapply frame_own|apply holds_insert|by apply invoke_inv].
  - intros [d|err] tb l' G Hl Ho Hi _.
    + exists (Some (id, Closing)), (<[id := (n, Closing)]> G).
      split_and!; [by eapply frame_own|apply holds_insert|by eapply success_inv|by apply within_safe].
    + exists (Some (id, Claimed T)), (<[id := (n, Claimed T)]> G).
      split_and!; [by eapply frame_own|apply holds_insert|by eapply failure_inv|].
      destruct (Herr err) as (t & -> & Ht). intros m tb2 l2 G2 Hl2 _ Ho2 Hi2. exists None, (delete id G2).
      split_and!; [by eapply frame_delete|done| |by apply within_safe]. apply pay_inv_log; [done|]. by eapply release_pay.
Qed.

(** The section that claims a preview, or finds that it cannot. *)
Lemma claim_task_safe n l r T id now (f : tables -> tables * task) :
  EArrive n r ∈ l -> wr_Cookie r = Some T -> ENow n now ∈ l ->
  (forall tb, (shrinks tb (f tb).1 /\ within neutral shrinks (f tb).2) \/
     exists p, entry tb T id p /\ now < ps_expiresAt p /\ ps_inFlight p = false /\ (f tb).1 = mark_entry tb T id true /\
       forall l', l ⊆ l' -> previewed l' T id (ps_expiresAt p) (ps_purpose p) -> safe n l' (Some (id, Claimed T)) (f tb).2) ->
  safe n l None (Locked (fun _ => f)).
Proof.
  intros Hn Hr Hnow Hf m tb l' G Hl _ _ Hi. destruct (Hf tb) as [[Hs Ht]|(p & Hp & Hx & Hfl & Htb & Ht)].
  - exists None, G. split_and!; [apply frame_refl|done| |by apply within_safe]. apply pay_inv_log; [done|]. by eapply pay_inv_shrink.
  - destruct (claim_inv tb l' G n T id p Hi Hp Hfl) as [Hg Hi']. exists (Some (id, Claimed T)), (<[id := (n, Claimed T)]> G).
    split_and!; [by apply frame_new|apply holds_insert|rewrite Htb; by apply pay_inv_log|].
    apply Ht; [set_solver|]. eapply previewed_mono; [apply snoc_subseteq|]. by apply (pi_previewed _ _ _ Hi).
Qed.

Lemma confirm_task_safe n l r σ id p c code message :
  call_id c = Some id -> purpose_of c = Some p -> EArrive n r ∈ l -> wr_Cookie r = Some (se_token σ) ->
  safe n l None (confirmRememberedPending σ id p c code message).
Proof.
  intros Hc Hpu Hn Hr now l1 Hl1 Hnow. eapply (claim_task_safe n l1 r (se_token σ) id now); [by apply Hl1|done..|]. intros tb.
  destruct (entries tb (se_token σ) !! id) as [q|] eqn:Eq; [|by left; split; auto with desk].
  case_bool_decide as Hq; cbn [negb]; [|by left; split; auto with desk]. destruct (ps_expiresAt q <=? now) eqn:Ex.
  { left. split; [apply shrinks_delete|exact I]. }
  destruct (ps_inFlight q) eqn:Ef; [by left; split; auto with desk|]. right. exists q. apply Z.leb_gt in Ex. split_and!; try done.
  intros l' Hl Hpre. cbn [snd]. eapply (claimed_safe n l' r _ id _ p now); try done; [by left|set_solver|by rewrite Hq in Hpre|set_solver|..].
  - intros err. eexists. split; [reflexivity|apply within_writeServiceError].
  - intros d. cbn [within]. intros m tb'. split; [apply shrinks_delete|exact I].
Qed.

Lemma cancel_task_safe n l r σ id :
  EArrive n r ∈ l -> wr_Cookie r = Some (se_token σ) -> safe n l None (cancelPending σ id).
Proof.
  intros Hn Hr now l1 Hl1 Hnow. eapply (claim_task_safe n l1 r (se_token σ) id now); [by apply Hl1|done..|]. intros tb.
  assert (forall tb, shrinks tb (drop_if_empty (delete_entry tb (se_token σ) id) (se_token σ))) as Hgone.
  { intros tb'. apply shrinks_drop_if_empty, shrinks_delete. }
  destruct (entries tb (se_token σ) !! id) as [q|] eqn:Eq; [|by left; split; [apply Hgone|]].
  destruct (ps_expiresAt q <=? now) eqn:Ex; [by left; split; [apply Hgone|]|].
  destruct (ps_inFlight q) eqn:Ef; [by left; split; auto with desk|]. right. exists q. apply Z.leb_gt in Ex. split_and!; try done.
  intros l' Hl Hpre. cbn [snd]. eapply (claimed_safe n l' r _ id _ (ps_purpose q) now); try done; [by right|by apply Hl, Hl1|by apply Hl|..].
  intros err. eexists. split; [reflexivity|apply within_writeServiceError].
Qed.

Lemma preview_task_safe n l r σ t :
  EArrive n r ∈ l -> wr_Cookie r = Some (se_token σ) -> preview_task σ t -> safe n l None t.
Proof.
  intros Hn Hr [t' Ht|c code message k Hid Hk Hbad|id p c code message Hc Hp|id];
    [by apply within_safe| |by eapply confirm_task_safe|by eapply cancel_task_safe].
  apply neutral_call; [done|]. intros [d|err] tb l' G Hl _ Hi Hd.
  - destruct (Hk d) as (id & exp & p & k' & Hp & -> & Hk').
    destruct (fresh_inv tb l' G n c (inl d) id exp p Hi Hp Hd) as [Hg Hi']. exists (Some (id, Fresh)), (<[id := (n, Fresh)]> G).
    split_and!; [by apply frame_new|apply holds_insert|done|]. apply remember_safe; [|done].
    exists n, r, c, (inl d). split_and!; try done; [set_solver|apply elem_of_snoc].
  - exists None, G. split_and!; [apply frame_refl|done|by apply pay_inv_log|].
    apply within_safe, within_writeServiceError.
Qed.

Lemma authenticate_safe n l r k :
  (forall l', l ⊆ l' -> safe n l' None (k None)) ->
  (forall l' σ, l ⊆ l' -> wr_Cookie r = Some (se_token σ) -> safe n l' None (k (Some σ))) ->
  safe n l None (authenticate r k).
Proof.
  intros Hnone Hsome. unfold authenticate. destruct (wr_Cookie r) as [v|] eqn:Ev; [|by apply Hnone].
  destruct (negb _); [by apply Hnone|]. intros m tb l' G Hl Hse _ Hi. exists None, G.
  assert (forall e, l ⊆ l' ++ [e]) as Hl' by set_solver.
  destruct (t_sessions tb !! v) as [σ|] eqn:E; [destruct (se_expiresAt σ <=? mo_now m)|]; cbn [fst snd];
    (split_and!; [apply frame_refl|done|apply pay_inv_log; [done|]|]); try done; try by apply Hnone.
  - eapply pay_inv_shrink; [|done]. apply (drop_shrinks tb v).
  - apply Hsome; [done|]. destruct Hse as [Hse _]. by destruct (Hse v σ E) as (? & ? & ? & ? & ? & ? & _ & _ & _ & _ & _ & ->).
Qed.

Lemma exchange_safe n l r : safe n l None (exchangeLaunchToken s r).
Proof.
  apply within_safe. unfold exchangeLaunchToken. case_bool_decide; cbn [negb]; [|exact I]. cbn [within]. intros m tb.
  destruct (_ || _); [split; auto with desk; exact I|].
  destruct (randomSecret (mo_first m)); [|split; auto with desk; exact I].
  destruct (randomSecret (mo_second m)); (split; [|exact I]); by intros T id p.
Qed.

Lemma served_safe n l r t : EArrive n r ∈ l -> served r t -> safe n l None t.
Proof.
  intros Hn [a|Hh|md k Hh Hk]; [done|by apply exchange_safe|].
  assert (forall l' σ, l ⊆ l' -> wr_Cookie r = Some (se_token σ) -> safe n l' None (k σ)) as Hok.
  { intros l' σ Hl Hr. eapply preview_task_safe; [by apply Hl|done|]. apply Hk. }
  destruct md; cbn [authorize]; unfold authorizeRead, authorizeMutation; (case_bool_decide; cbn [negb]; [|done]);
    (apply authenticate_safe; [done|]); [by auto|].
  intros l' σ Hl Hr. case_bool_decide; cbn [negb]; [|done]. case_bool_decide; cbn [negb]; [|done].
  destruct (same_secret _ _); cbn [negb]; [|done]. by apply Hok.
Qed.

(** *** Runs *)
Definition prog_safe (n : nat) (l : list event) (own : option (bytes * phase)) (p : progress) : Prop :=
  match p with
  | Running t => safe n l own t
  | Waiting c k =>
      forall o tb l' G, l ⊆ l' -> holds G n own -> pay_inv tb l' G -> NoDup (issued (l' ++ [EReturn n c o])) ->
        let l'' := l' ++ [EReturn n c o] in
        exists own' G', frame n G G' /\ holds G' n own' /\ pay_inv tb l'' G' /\ safe n l'' own' (k o)
  | Answered _ => True
  end.
Lemma prog_safe_mono n l l' own p : l ⊆ l' -> prog_safe n l own p -> prog_safe n l' own p.
Proof.
  intros Hl. destruct p as [t|c k|a]; cbn [prog_safe]; [by apply safe_mono| |done].
  intros Hk o tb l2 G Hl2. apply Hk. set_solver.
Qed.

Definition calls_ok (l : list event) : Prop := forall l1 n c l2, l = l1 ++ EInvoke n c :: l2 -> payment_ok l1 n c.
Definition desk_pay (d : desk) : Prop :=
  NoDup (issued (dk_log d)) ->
  calls_ok (dk_log d) /\
  exists G, pay_inv (dk_tables d) (dk_log d) G /\
    forall n p, dk_requests d !! n = Some p -> exists own, holds G n own /\ prog_safe n (dk_log d) own p.

Lemma issued_prefix l e : NoDup (issued (l ++ [e])) -> NoDup (issued l).
Proof. rewrite issued_snoc. by intros (? & _ & _)%NoDup_app. Qed.
Lemma calls_ok_snoc l e : calls_ok l -> (forall n c, e = EInvoke n c -> payment_ok l n c) -> calls_ok (l ++ [e]).
Proof.
  intros Hl He l1 n c l2 E. apply snoc_split in E as [(-> & -> & _)|(l3 & _ & ->)]; [by apply He|by eapply Hl].
Qed.

(** One step of request [n], given what it does to the owners. *)
Lemma progress_pay d n p p0 tb e :
  desk_pay d -> dk_requests d !! n = Some p0 ->
  (forall G own, NoDup (issued (dk_log d ++ [e])) -> pay_inv (dk_tables d) (dk_log d) G -> holds G n own ->
     prog_safe n (dk_log d) own p0 ->
     (forall n' c, e = EInvoke n' c -> payment_ok (dk_log d) n' c) /\
     exists own' G', frame n G G' /\ holds G' n own' /\ pay_inv tb (dk_log d ++ [e]) G' /\ prog_safe n (dk_log d ++ [e]) own' p) ->
  desk_pay (set_progress d n tb p e).
Proof.
  intros Hd Hn Hstep Hnd. cbn [dk_log set_progress] in Hnd. destruct (Hd (issued_prefix _ _ Hnd)) as (Hc & G & Hi & Hp).
  destruct (Hp n p0 Hn) as (own & Ho & Hs). destruct (Hstep G own Hnd Hi Ho Hs) as (He & own' & G' & Hf & Ho' & Hi' & Hs').
  cbn [dk_log dk_tables dk_requests set_progress]. split; [by apply calls_ok_snoc|]. exists G'. split; [done|].
  intros n' p' Hn'. destruct (decide (n' = n)) as [->|Hne].
  - rewrite list_lookup_insert_eq in Hn' by (by eapply lookup_lt_Some). injection Hn' as <-. by exists own'.
  - rewrite list_lookup_insert_ne in Hn' by done. destruct (Hp n' p' Hn') as (own2 & Ho2 & Hs2). exists own2.
    split; [by eapply holds_frame|]. eapply prog_safe_mono; [apply snoc_subseteq|done].
Qed.

Lemma step_pay d d' : desk_auth d -> desk_pay d -> step d d' -> desk_pay d'.
Proof.
  intros (Hse & _ & _) Hd Hstep. destruct Hstep as [d r|d n k now Hn|d n f m Hn Hm|d n c k Hn|d n c k o Hn|d n a Hn].
  - intros Hnd. cbn [dk_log] in Hnd. destruct (Hd (issued_prefix _ _ Hnd)) as (Hc & G & Hi & Hp).
    cbn [dk_log dk_tables dk_requests]. split; [by apply calls_ok_snoc|]. exists G. split; [by apply pay_inv_log|].
    intros n p Hn. apply lookup_app_Some in Hn as [Hn|[Hlen Hn]].
    + destruct (Hp n p Hn) as (own & Ho & Hs). exists own. split; [done|]. eapply prog_safe_mono; [apply snoc_subseteq|done].
    + apply list_lookup_singleton_Some in Hn as [H1 <-]. replace n with (length (dk_requests d)) by lia.
      exists None. split; [done|]. eapply served_safe; [apply elem_of_snoc|apply ServeHTTP_served].
  - eapply progress_pay; [done..|]. intros G own _ Hi Ho Hs. split; [done|]. exists own, G.
    split_and!; [apply frame_refl|done|by apply pay_inv_log|]. apply Hs; [apply snoc_subseteq|apply elem_of_snoc].
  - eapply progress_pay; [done..|]. intros G own _ Hi Ho Hs. split; [done|]. by apply Hs.
  - eapply progress_pay; [done..|]. intros G own _ Hi Ho (own1 & H1 & H2).
    destruct (H1 (dk_tables d) (dk_log d) G) as (Hp & G' & Hf & Ho' & Hi'); [done..|].
    split; [by intros n' c' [= <- <-]|]. exists own1, G'. split_and!; [done..|].
    intros o tb l' G2 Hl. apply H2. set_solver.
  - eapply progress_pay; [done..|]. intros G own Hnd Hi Ho Hs. split; [done|]. by apply Hs.
  - eapply progress_pay; [done..|]. intros G own _ Hi Ho Hs. split; [done|]. exists own, G.
    split_and!; [apply frame_refl|done|by apply pay_inv_log|done].
Qed.

Lemma run_pay d : run d -> desk_pay d.
Proof.
  induction 1 as [|d d' Hrun IH Hstep]; [|eapply step_pay; [by apply run_authz|done..]].
  intros _. split; [intros l1 n c l2 E; by destruct l1|]. exists ∅. split; [|done].
  assert (forall T id p, ~ entry (mkTables false ∅ ∅) T id p) as Hno.
  { intros T id p. unfold entry, entries. cbn. by rewrite lookup_empty. }
  split; cbn [dk_tables dk_log]; try (intros; match goal with Hp : entry _ _ _ _ |- _ => by apply Hno in Hp end); intros *; try by rewrite lookup_empty.
  intros Hin. by apply not_elem_of_nil in Hin.
Qed.

Lemma filter_one {A} (f : A -> bool) (l : list A) a b :
  (length (List.filter f l) <= 1)%nat -> a ∈ l -> b ∈ l -> f a = true -> f b = true -> a = b.
Proof.
  intros Hlen Ha Hb Hfa Hfb.
  assert (forall x, x ∈ l -> f x = true -> x ∈ List.filter f l) as Hin.
  { intros x Hx Hfx. apply list_elem_of_In, List.filter_In. by rewrite <- list_elem_of_In. }
  pose proof (Hin a Ha Hfa) as H1. pose proof (Hin b Hb Hfb) as H2.
  destruct (List.filter f l) as [|x [|y l']]; [by apply not_elem_of_nil in H1| |cbn in Hlen; lia].
  apply list_elem_of_singleton in H1, H2. congruence.
Qed.
Lemma opened_unique tb l v σ v' σ' : sess_inv tb l -> opened l v σ -> opened l v' σ' -> v = v' /\ σ = σ'.
Proof.
  intros (_ & _ & Hone) (n & r & now & b & a & csrf & _ & _ & He & Hop & Hs & _)
    (n' & r' & now' & b' & a' & csrf' & _ & _ & He' & Hop' & Hs' & _).
  pose proof (filter_one opens_session l _ _ Hone He He' Hop Hop') as [= <- <- <- <-]. rewrite Hs in Hs'.
  assert (({[v := σ]} : gmap bytes session) !! v' = Some σ') as E by (rewrite Hs'; apply lookup_singleton_eq).
  by apply lookup_singleton_Some in E.
Qed.
End server.

(** C12: Every call of the wallet service is authorised: the request named the host of the
    server, and in a section under the lock it found its session, not expired, opened with
    the launch token; a call that changes anything was a POST of JSON from the page of the
    server with the secret token of that session.  This holds for all interleavings of
    requests and all answers of the service. *)
Theorem desktop_calls_authorised `{NetText} `{JsonDecoder} full_edition embedded qr_encode s d l1 n c l2 :
  desk_run full_edition embedded qr_encode s d -> dk_log d = l1 ++ EInvoke n c :: l2 -> authorised s l1 n c.
Proof. intros Hrun Hl. destruct (run_authz _ _ _ _ _ Hrun) as (_ & Hc & _). by eapply Hc. Qed.

(** C31: The launch token opens one session in the life of the server: the sessions that were
    ever opened are one, and the sessions in the table were opened. *)
Theorem desktop_one_session `{NetText} `{JsonDecoder} full_edition embedded qr_encode s d :
  desk_run full_edition embedded qr_encode s d ->
  (forall v σ v' σ', opened s (dk_log d) v σ -> opened s (dk_log d) v' σ' -> v = v' /\ σ = σ') /\
  forall v σ, t_sessions (dk_tables d) !! v = Some σ -> opened s (dk_log d) v σ.
Proof.
  intros Hrun. destruct (run_authz _ _ _ _ _ Hrun) as (Hs & _ & _). split; [|by apply Hs].
  intros v σ v' σ'. by eapply opened_unique.
Qed.

(** C13: When the service never hands out the same identifier twice, a preview is confirmed or
    cancelled at most once at a time and never again after a success: when such a call is
    made, the preview was handed out to the same session for the same purpose, had not
    expired when the request read the clock, and every earlier call on it has come back with
    an error. *)
Theorem desktop_payment_once `{NetText} `{JsonDecoder} full_edition embedded qr_encode s d l1 n c l2 :
  desk_run full_edition embedded qr_encode s d -> NoDup (issued (dk_log d)) ->
  dk_log d = l1 ++ EInvoke n c :: l2 -> payment_ok l1 n c.
Proof. intros Hrun Hnd Hl. destruct (run_pay _ _ _ _ _ Hrun Hnd) as [Hc _]. by eapply Hc. Qed.

(** ** Concrete runs *)
Module DeskToy.
(** A schedule is a list of steps to take. *)
Inductive act :=
  | Arrives (r : web_request)
  | ReadsClock (n : nat) (now : Z)
  | Locks (n : nat) (now : Z)
  | Calls (n : nat)
  | Returns (n : nat) (o : forall c, outcome c)
  | Replies (n : nat).

#[local] Instance net : NetText := {
  SplitHostPort a := match Cut Byte.x3a a with (host, Some port) => Some (host, port) | _ => None end;
  JoinHostPort h p := h ++ bs ":" ++ p;
  ParseIP a := if bool_decide (a = bs "127.0.0.1") then Some (v4 127 0 0 1) else None;
  ParseAddr _ := None; Addr_String _ := []; Atoi _ := None; Itoa _ := []; P2p.TrimSpace a := a; P2p.ToLower a := a }.
#[local] Existing Instance parse_decoder.

Definition secret (b : byte) : bytes := hex_encode (replicate 32 b).
Definition launchToken : bytes := secret Byte.x01.
Definition token : bytes := secret Byte.x02.
Definition csrf : bytes := secret Byte.x03.
Definition origin : bytes := bs "http://127.0.0.1:8009".
Definition config : Config := mkConfig launchToken origin (bs "1") (Some (mkInterfaces true true true true true)).
Definition url : origin_url := mkOriginUrl (bs "http") [] [] [] (bs "127.0.0.1:8009").
Definition server : Server := mkServer origin (bs "127.0.0.1:8009") (bs "1") (mkInterfaces true true true true true) launchToken.
Example server_new : NewServer config (Ok url) = Ok (server, mkTables false ∅ ∅).
Proof. vm_compute. reflexivity. Qed.

Definition no_file (name : bytes) : result bytes := Err (EText "no file").
Definition serve : web_request -> task := ServeHTTP true no_file no_file server.
Definition at_moment (now : Z) : moment := mkMoment now (Some (replicate 32 Byte.x02)) (Some (replicate 32 Byte.x03)).

Definition exec (d : desk) (a : act) : option desk :=
  match a with
  | Arrives r => Some (mkDesk (dk_tables d) (dk_requests d ++ [Running (serve r)]) (dk_log d ++ [EArrive (length (dk_requests d)) r]))
  | ReadsClock n now => match dk_requests d !! n with
                        | Some (Running (Now k)) => Some (set_progress d n (dk_tables d) (Running (k now)) (ENow n now))
                        | _ => None
                        end
  | Locks n now =>
      match dk_requests d !! n with
      | Some (Running (Locked f)) =>
          let m := at_moment now in
          Some (set_progress d n (f m (dk_tables d)).1 (Running (f m (dk_tables d)).2)
                  (ELocked n now (dk_tables d) (f m (dk_tables d)).1))
      | _ => None
      end
  | Calls n => match dk_requests d !! n with
               | Some (Running (Call c k)) => Some (set_progress d n (dk_tables d) (Waiting c k) (EInvoke n c))
               | _ => None
               end
  | Returns n o => match dk_requests d !! n with
                   | Some (Waiting c k) => Some (set_progress d n (dk_tables d) (Running (k (o c))) (EReturn n c (o c)))
                   | _ => None
                   end
  | Replies n => match dk_requests d !! n with
                 | Some (Running (Reply a)) => Some (set_progress d n (dk_tables d) (Answered a) (EReply n a))
                 | _ => None
                 end
  end.
Fixpoint exec_all (d : desk) (l : list act) : option desk :=
  match l with [] => Some d | a :: l => match exec d a with Some d => exec_all d l | None => None end end.
Definition start : desk := mkDesk (mkTables false ∅ ∅) [] [].

Lemma exec_step d a d' : exec d a = Some d' -> desk_step true no_file no_file server d d'.
Proof.
  destruct a as [r|n now|n now|n|n o|n]; cbn [exec]; intros E;
    [injection E as <-; apply step_arrive|..];
    (destruct (dk_requests d !! n) as [[[]| |]|] eqn:Hn; try done; injection E as <-);
    [by apply step_now|apply (step_locked _ _ _ _ _ _ _ (at_moment now)); [done|]|by apply step_invoke|by apply step_return|by apply step_reply].
  intros b [Hb|Hb]; by injection Hb as <-.
Qed.
Lemma exec_all_run l d d' :
  desk_run true no_file no_file server d -> exec_all d l = Some d' -> desk_run true no_file no_file server d'.
Proof.
  revert d. induction l as [|a l IH]; intros d Hd; cbn [exec_all]; [by intros [= <-]|].
  destruct (exec d a) as [d1|] eqn:E; [|done]. apply IH. eapply run_next; [done|by eapply exec_step].
Qed.

(** A launch, a preview, and its confirmation. *)
Definition get (path query : string) : web_request :=
  mkWebRequest (bs "GET") (bs "127.0.0.1:8009") (bs path) (bs query) (Some token) [] None [] [].
Definition launch : web_request :=
  mkWebRequest (bs "GET") (bs "127.0.0.1:8009") (bs "/") (bs "token=" ++ launchToken) None [] None [] [].
Definition post_json (path : string) (v : value) : web_request :=
  mkWebRequest (bs "POST") (bs "127.0.0.1:8009") (bs path) [] (Some token) origin (Some (bs "application/json")) csrf (print v).
Definition preview_request : web_request :=
  post_json "/api/v1/send/preview" (to_json (mkSendRequest (bs "address") (bs "1") (bs "0.1"))).
Definition id : bytes := bs "preview".
Definition confirm_request : web_request := post_json "/api/v1/send/confirm" (to_json (mkPendingRequest id)).
Definition cancel_request : web_request := post_json "/api/v1/preview/cancel" (to_json (mkPendingRequest id)).
Definition sent : SendResult := mkSendResult (bs "txid") (bs "submitted") 1.

(** What the service answers in these runs. *)
Definition answers (c : call) : outcome c :=
  match c with
  | CallPreviewSend _ => inl (mkSendPreview id (bs "address") 1 1 2 [] [] 5 300 [])
  | CallConfirmSend _ => inl sent
  | _ => inr None
  end.
Definition refuses (c : call) : outcome c := inr None.

(** The confirmation fails once and is tried again. *)
Definition schedule : list act :=
  [Arrives launch; Locks 0 0; Replies 0; Arrives preview_request; Locks 1 1; Calls 1; Returns 1 answers; ReadsClock 1 2; Locks 1 2;
   Replies 1; Arrives confirm_request; Locks 2 3; ReadsClock 2 3; Locks 2 3; Calls 2; Returns 2 refuses; Locks 2 4; Replies 2;
   Arrives confirm_request; Locks 3 5; ReadsClock 3 5; Locks 3 5; Calls 3; Returns 3 answers; Locks 3 6; Replies 3].
Definition final : desk := default start (exec_all start schedule).
Lemma final_run : desk_run true no_file no_file server final.
Proof.
  apply (exec_all_run schedule start); [apply run_start|]. unfold final.
  assert (is_Some (exec_all start schedule)) as [d Hd] by (refine (bool_decide_unpack _ _); vm_compute; exact I). by rewrite Hd.
Qed.
Lemma final_confirms : dk_log final !! 22%nat = Some (EInvoke 3 (CallConfirmSend id)).
Proof. vm_compute. reflexivity. Qed.
Lemma final_issued : NoDup (issued (dk_log final)).
Proof. refine (bool_decide_unpack _ _). vm_compute. exact I. Qed.
Lemma final_session : t_sessions (dk_tables final) !! token = Some (mkSession token csrf 28800).
Proof. vm_compute. reflexivity. Qed.

(** A cancellation overtakes a confirmation after the expiry. *)
Definition overtaken_schedule : list act :=
  [Arrives launch; Locks 0 0; Replies 0; Arrives preview_request; Locks 1 1; Calls 1; Returns 1 answers; ReadsClock 1 2;
   Locks 1 2; Replies 1; Arrives confirm_request; Locks 2 299; ReadsClock 2 299; Locks 2 299; Calls 2;
   Arrives cancel_request; Locks 3 300; ReadsClock 3 300; Locks 3 300; Replies 3; Returns 2 answers; Locks 2 301; Replies 2].
Definition overtaken : desk := default start (exec_all start overtaken_schedule).
End DeskToy.
#[local] Existing Instance DeskToy.net.
#[local] Existing Instance parse_decoder.

Lemma desktop_calls_authorised_witness :
  authorised DeskToy.server (take 22 (dk_log DeskToy.final)) 3 (CallConfirmSend DeskToy.id).
Proof.
  eapply desktop_calls_authorised; [exact DeskToy.final_run|]. symmetry. apply take_drop_middle. exact DeskToy.final_confirms.
Defined.
Lemma desktop_one_session_witness :
  opened DeskToy.server (dk_log DeskToy.final) DeskToy.token (mkSession DeskToy.token DeskToy.csrf 28800).
Proof.
  refine (proj2 (desktop_one_session _ _ _ _ _ DeskToy.final_run) _ _ DeskToy.final_session).
Defined.
Lemma desktop_payment_once_witness : payment_ok (take 22 (dk_log DeskToy.final)) 3 (CallConfirmSend DeskToy.id).
Proof.
  eapply desktop_payment_once; [exact DeskToy.final_run|exact DeskToy.final_issued|].
  symmetry. apply take_drop_middle. exact DeskToy.final_confirms.
Defined.

(** A cancellation that arrives when the preview has expired is answered with success,
    although the payment is being sent, and the payment then succeeds. *)
Theorem cancel_overtakes_confirmation :
  desk_run true DeskToy.no_file DeskToy.no_file DeskToy.server DeskToy.overtaken /\
  dk_log DeskToy.overtaken !! 14%nat = Some (EInvoke 2 (CallConfirmSend DeskToy.id)) /\
  dk_log DeskToy.overtaken !! 15%nat = Some (EArrive 3 DeskToy.cancel_request) /\
  dk_log DeskToy.overtaken !! 19%nat = Some (EReply 3 (mkAnswer 200 (DataBody Cancelled))) /\
  dk_log DeskToy.overtaken !! 20%nat = Some (EReturn 2 (CallConfirmSend DeskToy.id) (inl DeskToy.sent)).
Proof.
  split; [|vm_compute; done]. apply (DeskToy.exec_all_run DeskToy.overtaken_schedule DeskToy.start); [apply run_start|]. unfold DeskToy.overtaken.
  assert (is_Some (DeskToy.exec_all DeskToy.start DeskToy.overtaken_schedule)) as [d Hd] by (refine (bool_decide_unpack _ _); vm_compute; exact I).
  by rewrite Hd.
Qed.
